(* ===== verification/_CoqProject ===== *)
-Q . S2P
Prelude.v
MagicArith.v
StrengthRules.v
Mir.v
DivLower.v
HalfFloat.v
Arm64Encode.v
Arm64Decode.v
Arm64Emit.v
Arm64Link.v
StringIntern.v
LexTokens.v
Lexer.v
LexerCorrect.v
LexerProps.v
Types.v
TypeLayout.v
Probe.v
SymbolTable.v
SymbolTableCorrect.v
Scoping.v
MirCfg.v
CfgGraph.v
CfgSets.v
CfgLive.v
CfgRpo.v
CfgDom.v
CfgLoops.v
CfgBuild.v
CfgCursor.v
CfgAnalysis.v
MachTypes.v
MachTypesCorrect.v
MachTypesProps.v
CallConv.v
CallConvCorrect.v
SysvClass.v
MirVerify.v
MirVerifyFlow.v
MirVerifyRows.v
MirVerifyLive.v
MirVerifyChecks.v
MirVerifyAccept.v
MirVerifySound.v
LinkObjects.v
LinkBytes.v
LinkObjectsCorrect.v
Relocation.v
RelocationCorrect.v
RelocationProps.v
SectionMerge.v
SectionMergeCorrect.v
SectionGc.v
SectionGcCorrect.v
SectionGcReach.v
SymbolResolve.v
GlobalSymbols.v
ObjectSymbols.v
LinkAddresses.v
LinkResolve.v
LinkTheorem.v
LinkSuccess.v
LinkProps.v
ElfReader.v
CoffReader.v
LinkObjectRead.v
ElfReaderSafe.v
CoffReaderSafe.v
BinaryEmitter.v
BinaryEmitterCorrect.v
BinaryEmitterProps.v
ElfEmitter.v
ElfTables.v
ElfHeaders.v
ElfWrite.v
ElfFile.v
ElfReadBack.v
ElfReadRelocs.v
ElfRoundTrip.v
LinkFiles.v
