(* ===== verification/Prelude.v ===== *)
(** Mettle: a verification library for the compiler.

    Mettle (README.md) is a systems language with its own compiler, optimiser,
    assemblers, linker and runtime, written in C under src/src/.  A build goes
    through these parts:

    - src/src/lexer/ turns the text into tokens and interns their spellings;
    - src/src/parser/ builds the tree, src/src/semantic/ checks it against
      types and scopes (symbol_table.c, type_layout.c, type_checker*.c,
      monomorphize.c, the compile-time evaluator);
    - src/src/frontend/ and src/src/ir/ lower the tree to an intermediate
      representation, and src/src/ir/optimizer/ rewrites it;
    - src/src/codegen/ lowers the IR to a machine IR for x86-64
      (binary/mir*.c), to AArch64 words (binary/arm64*.c) or to GPU code, lays
      out arguments by the calling convention (binary/abi_spec.c) and writes
      object code;
    - src/src/linker/ reads objects, resolves symbols, applies relocations and
      writes executables.

    The library models the self-contained algorithms of these parts, from the
    source, and proves what their callers rely on.  It is a shallow embedding:
    pure C functions are Rocq functions on [Z]; functions with state take the
    state and return the new one; what C leaves undefined, an access outside
    an array, a signed overflow, a division by zero, is the outcome [Undef],
    and a loop that outlives the bound of its model is [NoFuel].  A theorem on
    a function says that it ends in [Ret].

    * Files and what they model

    Prelude: this file; machine integers, outcomes, array accesses, the
    allocator, and the tactics and hint databases of the rest.

    Arithmetic of the code generators.
    - HalfFloat: the half and bfloat16 conversions and exactness tests of
      common.c.
    - MagicArith: number theory used by the two files below, no code.
    - StrengthRules: codegen/binary/strength_rules.c, the choice of shifts,
      masks, additions or multiplications in place of a multiplication,
      division or remainder by a constant.
    - Mir: the instructions of codegen/binary/mir.h and the emitters of mir.c,
      with a meaning for those that DivLower emits.
    - DivLower: mir_emit_const_divmod of codegen/binary/mir_lower.c and its
      helpers.

    AArch64.
    - Arm64Encode: arm64_encode.c and arm64_disasm.c; Arm64Decode: their round
      trip.
    - Arm64Emit: arm64_emit.c, the code buffer with labels and fix-ups;
      Arm64Link: the invariant of the buffer, what finalisation does, and
      where the branches and address loads that were issued lead.

    Front end.
    - StringIntern: the intern tables of lexer.c; LexTokens: tokens, keyword
      tables and their search; Lexer: the scanner; LexerCorrect and LexerProps:
      the literals of the language as relations on text (module LexText), and
      what a token means for the text it was read from.
    - Types: the type objects of symbol_table.h and the layout of
      type_layout.c; TypeLayout: no two fields of a struct overlap.
    - Probe: the hash of common.c and linear probing, shared by the name
      tables of the symbol table, of the machine IR and of the linker.
    - SymbolTable, SymbolTableCorrect, Scoping: symbol_table.c, and its
      refinement to a stack of lists.

    Machine IR analysis: codegen/binary/mir_cfg.c.
    - MirCfg: the code; CfgGraph: blocks and edges; CfgSets and CfgLive: the
      bit-vector analyses; CfgRpo, CfgDom, CfgLoops: orders, dominators, loops;
      CfgBuild: the whole analysis returns; CfgCursor and CfgAnalysis: what it
      promises.

    Types and calling conventions of the code generator.
    - MachTypes, MachTypesCorrect, MachTypesProps: ir/mtlc_type.c, a store of
      types that are made once.
    - CallConv, CallConvCorrect: the argument layout of abi_spec.c and
      arm64_abi.c; SysvClass: the System V classification of aggregates, on the
      types of MachTypes.

    Register allocation: codegen/binary/mir_regalloc_verify.c, with
    mir_machine.c and the clobbers of mir_kernel.c.
    - MirVerify: the code; MirVerifyFlow and MirVerifyRows: its view of control
      flow and its chains of predecessors; MirVerifyLive: its two analyses;
      MirVerifyChecks and MirVerifyAccept: the certificate that an accepted
      function has; MirVerifySound: runs on values and on places, and that a
      certificate makes them the same.

    Object emission: codegen/binary_emitter.c and codegen/elf_emitter.c.
    - BinaryEmitter, BinaryEmitterCorrect, BinaryEmitterProps: the tables of an
      emitter, their invariant, and the symbol table as a map.
    - ElfEmitter: the writer of ELF objects; ElfTables, ElfHeaders, ElfWrite,
      ElfFile: the tables it builds, the places it gives them and the bytes of
      the file; ElfReadBack, ElfReadRelocs, ElfRoundTrip: the reader of the
      linker on that file.

    Linker: src/src/linker/.
    - LinkObjects: the records of link_object.h and symbol_resolve.h and the
      byte accesses of linker_common.h; LinkBytes: reading what was written;
      LinkObjectsCorrect: sizes and alignments.
    - ElfReader, CoffReader, LinkObjectRead: elf_reader.c, coff_reader.c and
      link_object.c; ElfReaderSafe and CoffReaderSafe: they return on files of
      any contents, and what they accept is consistent.
    - SectionGc: dropping the sections that nothing needs; SectionGcCorrect:
      its table of definitions refines a map; SectionGcReach: what is kept is
      what the roots reach.
    - SectionMerge, SectionMergeCorrect: the layout of the merged image.
    - SymbolResolve: the symbol table, the addresses and the whole link;
      GlobalSymbols: the table refines a map; ObjectSymbols: what the map holds
      after all objects; LinkAddresses: sections follow each other.
    - Relocation, RelocationCorrect, RelocationProps: what the relocated fields
      hold.
    - LinkResolve, LinkTheorem: where the relocations of kept sections lead, and
      which of them may stay unresolved; LinkSuccess: a link that can succeed does; LinkProps: the
      promises, and a link of three objects that keeps them; LinkFiles: the
      same from files, each read by the readers.

    * How the parts are put together

    MirCfg runs on the instructions of Mir and finds labels through Probe, as
    SymbolTable finds names.  Lexer interns through StringIntern and classifies
    words through LexTokens.  Arm64Link composes Arm64Emit with the decoder of
    Arm64Encode: what an issued branch decodes to reaches its label.  DivLower
    composes the plan of StrengthRules with the meaning of Mir.  SysvClass reads
    types that only the constructors of MachTypes make.  The linker's phases are
    composed as link_resolution_build composes them: what SectionGc keeps is
    what SectionMerge places and SymbolResolve gives addresses, and the result
    is what Relocation runs on; the symbol table probes through Probe.
    LinkFiles puts the readers before it.  ElfRoundTrip composes the writer of
    ElfEmitter, on the tables of BinaryEmitter, with ElfReader.  MirVerify reads
    the control flow of CfgGraph and the calling convention of CallConv.

    * What the theorems say

    - Functional correctness: constant division, strength reduction, rounding,
      decoding of encoded words, tokens and their spelling, control flow,
      liveness, dominance and loops, argument layout, symbol resolution,
      relocation.
    - Refinement of an abstract machine: the symbol table (a stack of lists),
      interning, the symbols of an emitter and those of the linker (finite
      maps), finalisation of a code buffer (its fix-up sites), and allocated
      code, when the verifier accepts it (the code on values).  The last is
      about values only: what an instruction puts into a register it names, an
      argument of a call say, is part of the machine around them, and spilled
      values are taken to have slots of their own, neither of which the verifier
      looks at.
    - Safety: the readers of objects on any bytes, the scanner on any text.
    - Equivalence with a reference definition: dominance by paths, keyword
      search by a scan, exactness tests by representability, classification of
      eightbytes by the list of scalars, section garbage collection by
      reachability.
    - Invariants, kept by every operation under every pattern of allocation
      failures: code buffers, intern tables, symbol tables, the store of types,
      argument registers.
    - Round trips (encode and decode, widen and narrow, escape and read, write
      an object and read it),
      termination (tokenizing, the analysis of any function), bounds (layout of
      structs, layout of the image), error behaviour, and liveness: a link whose
      symbols are there succeeds when memory does not run out.

    * Bounds and fuel

    Loops whose end is not structural take fuel, computed from the input by the
    function that starts them, and a theorem shows that it is enough: the length
    of the text for the scanner, the number of slots for a probe, the number of
    blocks times the number of registers for a round-robin analysis, the age of
    a type for the walk over its fields, the number of sections for the work
    list of the collector.  The two analyses of the allocation verifier run at
    most 10000 rounds, as in the code, and fail after them.  The linker's theorems ask that the sizes of the
    objects add up to less than 2^58 bytes, so that no sum wraps.  Integers keep their width: [u32],
    [u64], [i32], [i64] are written where the code converts, and signed
    overflow is [Undef].

    The allocator is a parameter: a [heap] says for each request whether it is
    granted, so the theorems cover every pattern of failures; a [generous] one grants
    everything.  Addresses are
    numbers of objects in a store, so that sharing and pointer comparison are
    those of the code.

    * Not modelled, and why

    - src/src/parser/, the type checker, monomorphisation, the compile-time
      evaluator and the import resolver: they walk a tree of some hundred node
      kinds that the library does not have; only the tables and layouts they
      rest on are modelled.
    - src/src/ir/ but for mtlc_type.c: the IR, its lowering, its interpreter,
      verifier and optimiser, for the same reason; the learned cost model
      (ml_*.c) is data.
    - The rest of mir_lower.c, the register allocator itself (its verifier is
      modelled) and the x86-64 encoders, which need a semantics of the whole
      machine IR, and the GPU emitters, which print text.
    - The writer of COFF objects in binary_emitter.c, the writers of PE and ELF
      images and the import libraries: file formats written byte by byte, of
      which the library has the ELF object as its example.  Links with shared
      libraries.  What a file holds and whether the disk takes what is written
      are parameters.
    - src/src/runtime/, src/src/debug/, src/src/error/, src/src/main.c and the
      tools: I/O, operating-system calls and text for people.
    - Functions that only free memory: blocks are not reused in the models. *)
From Stdlib Require Export ZArith Lia Bool Ascii.
From stdpp Require Export base option list list_numbers numbers strings.

#[global] Open Scope Z_scope.

(** * Machine integers

    A w-bit unsigned integer is a [Z] in [0, 2^w); a w-bit signed integer is
    a [Z] in [-2^(w-1), 2^(w-1)).  The C conversions are written out. *)

(** [(uintN_t)z]. *)
Definition wrapu (w z : Z) : Z := z mod 2 ^ w.

(** [(intN_t)z] on a two's complement target. *)
Definition wraps (w z : Z) : Z := (z + 2 ^ (w - 1)) mod 2 ^ w - 2 ^ (w - 1).

Definition in_u (w z : Z) : Prop := 0 <= z < 2 ^ w.
Definition in_s (w z : Z) : Prop := - 2 ^ (w - 1) <= z < 2 ^ (w - 1).

Abbreviation u8 := (wrapu 8).
Abbreviation u16 := (wrapu 16).
Abbreviation u32 := (wrapu 32).
Abbreviation u64 := (wrapu 64).
Abbreviation i32 := (wraps 32).
Abbreviation i64 := (wraps 64).

(** * Outcomes of C code

    [Ret a] is a normal return, [Undef] an operation the C standard leaves
    undefined (signed overflow, division by zero, an access outside an
    array), [NoFuel] a loop that did not finish within the bound given to its
    model.  Theorems about a function state that it ends in [Ret]. *)
Inductive outcome (A : Type) : Type :=
| Ret (a : A)
| Undef
| NoFuel.
Arguments Ret {A} a.
Arguments Undef {A}.
Arguments NoFuel {A}.

Definition obind {A B} (m : outcome A) (k : A -> outcome B) : outcome B :=
  match m with Ret a => k a | Undef => Undef | NoFuel => NoFuel end.

Declare Scope outcome_scope.
Delimit Scope outcome_scope with outcome.
Notation "'let!' x ':=' m 'in' k" := (obind m (fun x => k))
  (at level 10, x pattern, m at level 100, k at level 200) : outcome_scope.
#[global] Open Scope outcome_scope.

(** The bit operators of the code on [uint32_t]. *)
Declare Scope word_scope.
Delimit Scope word_scope with word.
Notation "a .| b" := (Z.lor a b) (at level 50, left associativity) : word_scope.
Notation "a .& b" := (Z.land a b) (at level 40, left associativity) : word_scope.
Notation "a .<< k" := (wrapu 32 (Z.shiftl a k)) (at level 36, left associativity) : word_scope.
Notation "a .>> k" := (Z.shiftr a k) (at level 36, left associativity) : word_scope.

(** Signed 64-bit arithmetic, undefined on overflow. *)
Definition in_s64b (z : Z) : bool := (- 2 ^ 63 <=? z) && (z <? 2 ^ 63).
Definition signed64 (z : Z) : outcome Z := if in_s64b z then Ret z else Undef.

(** Unsigned division and remainder, undefined on a zero divisor. *)
Definition udiv (a b : Z) : outcome Z := if b =? 0 then Undef else Ret (a / b).
Definition umod (a b : Z) : outcome Z := if b =? 0 then Undef else Ret (a mod b).

(** Array accesses by a C integer, undefined outside the array. *)
Definition get {A} (l : list A) (i : Z) : outcome A :=
  if i <? 0 then Undef else match l !! Z.to_nat i with Some a => Ret a | None => Undef end.
Definition put {A} (l : list A) (i : Z) (a : A) : outcome (list A) :=
  if (i <? 0) || (length l <=? Z.to_nat i)%nat then Undef else Ret (<[Z.to_nat i := a]> l).

(** * The allocator

    [malloc], [calloc] and [realloc] are parameters of the models: a [heap]
    carries an arbitrary answer for each request, so every theorem covers
    every pattern of allocation failures. *)
Record heap := mkHeap { heap_grants : nat -> bool; heap_calls : nat }.

(** One allocation request: was it granted, and the heap after it. *)
Definition alloc (h : heap) : bool * heap :=
  (heap_grants h (heap_calls h), mkHeap (heap_grants h) (S (heap_calls h))).

(** A heap that grants every request, and one that refuses every request. *)
Definition heap_unlimited : heap := mkHeap (fun _ => true) 0.
Definition heap_exhausted : heap := mkHeap (fun _ => false) 0.

(** * Shared lemmas *)

Lemma wrapu_small w z : in_u w z -> wrapu w z = z.
Proof. intros H. apply Z.mod_small, H. Qed.

Lemma wrapu_bound w z : 0 <= w -> in_u w (wrapu w z).
Proof. intros H. apply Z.mod_pos_bound. lia. Qed.

Lemma wraps_small w z : 0 < w -> in_s w z -> wraps w z = z.
Proof.
  intros Hw [Hl Hh]. unfold wraps.
  assert (2 ^ w = 2 * 2 ^ (w - 1)).
  { rewrite <- Z.pow_succ_r by lia. f_equal; lia. }
  rewrite Z.mod_small; lia.
Qed.

Lemma wraps_bound w z : 0 < w -> in_s w (wraps w z).
Proof.
  intros Hw. unfold wraps, in_s.
  assert (2 ^ w = 2 * 2 ^ (w - 1)).
  { rewrite <- Z.pow_succ_r by lia. f_equal; lia. }
  pose proof (Z.mod_pos_bound (z + 2 ^ (w - 1)) (2 ^ w)). lia.
Qed.

(** Two integers with the same residue have the same conversions. *)
Lemma wraps_eqm w a b : 0 < w -> a mod 2 ^ w = b mod 2 ^ w -> wraps w a = wraps w b.
Proof.
  intros Hw H. unfold wraps. f_equal.
  rewrite (Z.add_mod a), (Z.add_mod b), H by lia. done.
Qed.

Lemma wrapu_wraps w z : 0 < w -> wrapu w (wraps w z) = wrapu w z.
Proof.
  intros Hw. unfold wrapu, wraps.
  rewrite Zminus_mod_idemp_l. f_equal. lia.
Qed.

(** Unsigned arithmetic may be wrapped at any point. *)
Lemma wrapu_mul w a b : 0 <= w -> wrapu w (wrapu w a * wrapu w b) = wrapu w (a * b).
Proof. intros. unfold wrapu. symmetry. apply Z.mul_mod. lia. Qed.

Lemma wrapu_sub_l w a b : wrapu w (wrapu w a - b) = wrapu w (a - b).
Proof. apply Zminus_mod_idemp_l. Qed.

Lemma wrapu_sub_r w a b : wrapu w (a - wrapu w b) = wrapu w (a - b).
Proof. apply Zminus_mod_idemp_r. Qed.

Lemma wraps_wrapu w z : 0 < w -> wraps w (wrapu w z) = wraps w z.
Proof. intros. apply wraps_eqm; [done|]. apply Z.mod_mod. lia. Qed.

(** The conversions are determined by range and residue. *)
Lemma wraps_unique w z y k : 0 < w -> in_s w y -> z = y + k * 2 ^ w -> wraps w z = y.
Proof.
  intros Hw Hy ->. rewrite <- (wraps_small w y) at 2 by done.
  apply wraps_eqm; [done|]. apply Z_mod_plus_full.
Qed.

Lemma wrapu_unique w z y k : in_u w y -> z = y + k * 2 ^ w -> wrapu w z = y.
Proof. intros Hy ->. unfold wrapu. rewrite Z_mod_plus_full. by apply Z.mod_small. Qed.

(** Negating a converted unsigned value, away from the one that overflows. *)
Lemma i64_opp m : 0 < m < 2 ^ 64 -> m <> 2 ^ 63 ->
  - i64 m = i64 (- m) /\ in_s 64 (- i64 m).
Proof.
  intros Hm Hn. destruct (Z.lt_ge_cases m (2 ^ 63)).
  - rewrite (wraps_small 64 m), (wraps_small 64 (- m)) by (unfold in_s; simpl; lia).
    unfold in_s; simpl; lia.
  - rewrite (wraps_unique 64 m (m - 2 ^ 64) 1), (wraps_unique 64 (- m) (2 ^ 64 - m) (-1))
      by (unfold in_s; simpl; lia).
    unfold in_s; simpl; lia.
Qed.

(** ** Bit fields *)

(** A mask of [k] low bits is a remainder, whatever way it is written. *)
Lemma land_mask a k m : 0 <= k -> m = 2 ^ k - 1 -> Z.land a m = a mod 2 ^ k.
Proof.
  intros Hk ->. replace (2 ^ k - 1) with (Z.ones k) by (rewrite Z.ones_equiv; lia).
  by apply Z.land_ones.
Qed.

(** Fields that do not overlap are joined by an addition. *)
Lemma lor_fields a b k : 0 <= k -> 0 <= b < 2 ^ k -> Z.lor (a * 2 ^ k) b = a * 2 ^ k + b.
Proof.
  intros Hk Hb. destruct (Z.eq_dec b 0) as [->|Hb0]; [by rewrite Z.lor_0_r, Z.add_0_r|].
  symmetry. rewrite <- Z.shiftl_mul_pow2 by done.
  apply Z.add_nocarry_lor, Z.bits_inj'. intros n Hn.
  rewrite Z.land_spec, Z.bits_0, Z.shiftl_spec by done.
  destruct (Z.lt_ge_cases n k).
  - by rewrite (Z.testbit_neg_r a) by lia.
  - rewrite (Z.bits_above_log2 b n), andb_false_r; [done|lia|].
    assert (Z.log2 b < k) by (apply Z.log2_lt_pow2; lia). lia.
Qed.

(** A mask of one high bit keeps that bit. *)
Lemma land_bit a k : 0 <= k -> Z.land a (2 ^ k) = (a / 2 ^ k) mod 2 * 2 ^ k.
Proof.
  intros Hk. rewrite <- Z.shiftr_div_pow2 by done.
  replace (Z.shiftr a k mod 2) with (Z.land (Z.shiftr a k) 1)
    by (rewrite (land_mask _ 1 1); done).
  rewrite <- Z.shiftl_mul_pow2 by done. apply Z.bits_inj'. intros n Hn.
  rewrite Z.shiftl_spec, !Z.land_spec by done.
  replace (2 ^ k) with (Z.shiftl 1 k) by (rewrite Z.shiftl_mul_pow2; lia).
  rewrite Z.shiftl_spec by done. destruct (Z.lt_ge_cases n k).
  - rewrite !(Z.testbit_neg_r _ (n - k)) by lia. by rewrite andb_false_r.
  - rewrite Z.shiftr_spec by lia. do 2 f_equal. lia.
Qed.

(** A mask of [w] bits at position [k] keeps that field in place. *)
Lemma land_field a w k m : 0 <= w -> 0 <= k -> m = (2 ^ w - 1) * 2 ^ k ->
  Z.land a m = a / 2 ^ k mod 2 ^ w * 2 ^ k.
Proof.
  intros Hw Hk ->. rewrite <- (land_mask _ w (2 ^ w - 1)) by done.
  rewrite <- Z.shiftr_div_pow2, <- !Z.shiftl_mul_pow2 by done.
  apply Z.bits_inj'. intros i Hi. rewrite Z.land_spec, !Z.shiftl_spec by lia.
  destruct (Z.lt_ge_cases i k).
  - rewrite !(Z.testbit_neg_r _ (i - k)) by lia. by rewrite andb_false_r.
  - rewrite Z.land_spec, Z.shiftr_spec by lia. do 2 f_equal. lia.
Qed.

Lemma lor_ge a b : 0 <= a -> 0 <= b -> a <= Z.lor a b.
Proof.
  intros. apply Z.ldiff_le; [by apply Z.lor_nonneg|]. apply Z.bits_inj'. intros i Hi.
  rewrite Z.ldiff_spec, Z.lor_spec, Z.bits_0. by destruct (Z.testbit a i).
Qed.

Lemma lor_lt a b k : 0 <= k -> 0 <= a < 2 ^ k -> 0 <= b < 2 ^ k -> 0 <= Z.lor a b < 2 ^ k.
Proof.
  intros Hk Ha Hb. assert (0 <= Z.lor a b) by (apply Z.lor_nonneg; lia). split; [done|].
  rewrite <- (Z.mod_small a (2 ^ k)), <- (Z.mod_small b (2 ^ k)), <- !Z.land_ones by done.
  rewrite <- Z.land_lor_distr_l, Z.land_ones by done. apply Z.mod_pos_bound. lia.
Qed.

Lemma Ret_inj {A} (a b : A) : Ret a = Ret b -> a = b.
Proof. congruence. Qed.

Lemma obind_Ret {A B} (m : outcome A) (k : A -> outcome B) b :
  obind m k = Ret b <-> exists a, m = Ret a /\ k a = Ret b.
Proof. destruct m; simpl; naive_solver. Qed.

Lemma get_nat {A} (l : list A) (i : nat) a : l !! i = Some a -> get l (Z.of_nat i) = Ret a.
Proof. intros H. unfold get. rewrite (proj2 (Z.ltb_ge _ 0)) by lia. by rewrite Nat2Z.id, H. Qed.

Lemma get_Ret {A} (l : list A) i a : get l i = Ret a -> exists n, i = Z.of_nat n /\ l !! n = Some a.
Proof.
  unfold get. destruct (i <? 0) eqn:E; [done|]. destruct (l !! Z.to_nat i) eqn:El; [|done].
  intros [= <-]. exists (Z.to_nat i). split; [lia|done].
Qed.

Lemma put_nat {A} (l : list A) (i : nat) a : (i < length l)%nat -> put l (Z.of_nat i) a = Ret (<[i := a]> l).
Proof.
  intros H. unfold put. rewrite (proj2 (Z.ltb_ge _ 0)) by lia. rewrite Nat2Z.id.
  by rewrite (proj2 (Nat.leb_gt _ _) H).
Qed.

Lemma in_s64b_spec z : in_s64b z = true <-> in_s 64 z.
Proof. unfold in_s64b, in_s. simpl. lia. Qed.

Lemma signed64_ok z : in_s 64 z -> signed64 z = Ret z.
Proof. intros H. unfold signed64. by rewrite (proj2 (in_s64b_spec z) H). Qed.

Lemma udiv_ok a b : b <> 0 -> udiv a b = Ret (a / b).
Proof. intros. unfold udiv. by rewrite (proj2 (Z.eqb_neq b 0)). Qed.

Lemma umod_ok a b : b <> 0 -> umod a b = Ret (a mod b).
Proof. intros. unfold umod. by rewrite (proj2 (Z.eqb_neq b 0)). Qed.

Create HintDb mettle.
Create Rewrite HintDb words.
#[export] Hint Resolve wrapu_bound wraps_bound : mettle.
#[export] Hint Rewrite wrapu_small wraps_small using (unfold in_u, in_s in *; lia) : words.
