(* ===== verification/MagicArith.v ===== *)
(** The arithmetic of division by multiplication, independent of the code:
    powers of two recognised by [v & (v - 1)], one-bit-at-a-time division,
    and the bound under which [m * n / 2^p] is the exact quotient. *)
From S2P Require Import Prelude.

(** ** Powers of two *)

(** Clearing the lowest set bit gives zero only for a power of two. *)
Lemma land_pred_zero_pow2 v :
  0 < v -> Z.land v (v - 1) = 0 -> v = 2 ^ Z.log2 v.
Proof.
  intros Hv Hl. pose proof (Z.log2_spec v Hv) as [Hlo Hhi].
  destruct (Z.eq_dec v (2 ^ Z.log2 v)) as [|Hne]; [done|exfalso].
  assert (Hlog : Z.log2 (v - 1) = Z.log2 v) by (apply Z.log2_unique; [apply Z.log2_nonneg|lia]).
  assert (0 < 2 ^ Z.log2 v) by (apply Z.pow_pos_nonneg; [lia|apply Z.log2_nonneg]).
  pose proof (Z.bit_log2 v Hv) as B1.
  pose proof (Z.bit_log2 (v - 1) ltac:(lia)) as B2. rewrite Hlog in B2.
  assert (B : Z.testbit (Z.land v (v - 1)) (Z.log2 v) = true)
    by (by rewrite Z.land_spec, B1, B2).
  rewrite Hl, Z.testbit_0_l in B. done.
Qed.

Lemma land_pred_pow2 k : 0 <= k -> Z.land (2 ^ k) (2 ^ k - 1) = 0.
Proof.
  intros Hk. replace (2 ^ k - 1) with (Z.ones k) by (rewrite Z.ones_equiv; lia).
  rewrite Z.land_ones by done. apply Z_mod_same_full.
Qed.

(** ** Long division by doubling *)

Lemma double_divmod x b : 0 < b -> 0 <= x ->
  (2 * x) / b = (if 2 * (x mod b) >=? b then 2 * (x / b) + 1 else 2 * (x / b)) /\
  (2 * x) mod b = (if 2 * (x mod b) >=? b then 2 * (x mod b) - b else 2 * (x mod b)).
Proof.
  intros Hb Hx. pose proof (Z.div_mod x b ltac:(lia)) as E.
  pose proof (Z.mod_pos_bound x b Hb) as R.
  rewrite Z.geb_leb. destruct (Z.leb_spec b (2 * (x mod b))); split.
  - symmetry; apply (Z.div_unique _ _ _ (2 * (x mod b) - b)); lia.
  - symmetry; apply (Z.mod_unique _ _ (2 * (x / b) + 1)); lia.
  - symmetry; apply (Z.div_unique _ _ _ (2 * (x mod b))); lia.
  - symmetry; apply (Z.mod_unique _ _ (2 * (x / b))); lia.
Qed.

(** The same for [2x + 1], as the unsigned computation tracks [2^p - 1]. *)
Lemma double1_divmod x b : 0 < b -> 0 <= x ->
  (2 * x + 1) / b = (if 2 * (x mod b) + 1 >=? b then 2 * (x / b) + 1 else 2 * (x / b)) /\
  (2 * x + 1) mod b =
    (if 2 * (x mod b) + 1 >=? b then 2 * (x mod b) + 1 - b else 2 * (x mod b) + 1).
Proof.
  intros Hb Hx. pose proof (Z.div_mod x b ltac:(lia)) as E.
  pose proof (Z.mod_pos_bound x b Hb) as R.
  rewrite Z.geb_leb. destruct (Z.leb_spec b (2 * (x mod b) + 1)); split.
  - symmetry; apply (Z.div_unique _ _ _ (2 * (x mod b) + 1 - b)); lia.
  - symmetry; apply (Z.mod_unique _ _ (2 * (x / b) + 1)); lia.
  - symmetry; apply (Z.div_unique _ _ _ (2 * (x mod b) + 1)); lia.
  - symmetry; apply (Z.mod_unique _ _ (2 * (x / b))); lia.
Qed.

(** Comparing quotient and remainder of [x] by [b] with [e] compares [x]
    with [b * e]: the exit test of both loops. *)
Lemma divmod_exceeds x b e : 0 < b ->
  ((x / b <? e) || ((x / b =? e) && (x mod b =? 0))) = true <-> x <= b * e.
Proof.
  intros Hb. pose proof (Z.div_mod x b ltac:(lia)). pose proof (Z.mod_pos_bound x b Hb).
  rewrite orb_true_iff, andb_true_iff, Z.ltb_lt, !Z.eqb_eq. split.
  - intros [|[? ?]]; nia.
  - intros. destruct (Z.lt_trichotomy (x / b) e) as [|[|]]; [by left|right; nia|nia].
Qed.

(** ** The critical value *)

(** [crit T d] is the largest number below [T] congruent to [d - 1]. *)
Definition crit (T d : Z) : Z := T - 1 - T mod d.

Lemma crit_bounds T d : 0 < d <= T ->
  crit T d < T /\ T - d <= crit T d /\ d - 1 <= crit T d /\ (crit T d + 1) mod d = 0.
Proof.
  intros [Hd HT]. unfold crit. pose proof (Z.mod_pos_bound T d Hd).
  pose proof (Z.div_mod T d ltac:(lia)) as E.
  assert (1 <= T / d) by (apply Z.div_le_lower_bound; lia).
  split_and!; try lia; [nia|].
  replace (T - 1 - T mod d + 1) with (T / d * d) by lia. apply Z_mod_mult.
Qed.

(** Below [T] the rounding error [delta * n / (d * 2^p)] never carries into
    the quotient. *)
Lemma magic_gap T d P delta n :
  0 < d <= T -> 0 < P -> 0 <= delta -> crit T d * delta < P -> 0 <= n < T ->
  delta * n < P * (d - n mod d).
Proof.
  intros Hd HP Hdel Hc Hn.
  pose proof (crit_bounds T d Hd) as (C1 & C2 & C3 & C4).
  pose proof (Z.mod_pos_bound n d ltac:(lia)) as R.
  destruct (Z.le_gt_cases n (crit T d)) as [Hle|Hgt]; [nia|].
  assert (Hr : n mod d = n - (crit T d + 1)).
  { apply Z_div_exact_full_2 in C4; [|lia].
    symmetry. apply (Z.mod_unique _ _ ((crit T d + 1) / d)); [lia|].
    lia. }
  assert (n mod d + 1 <= d - 1) by (unfold crit in *; pose proof (Z.mod_pos_bound T d); lia).
  assert (delta * n <= 2 * (crit T d * delta)) by nia.
  nia.
Qed.

(** ** Exact quotients *)

Lemma magic_floor d P delta m n :
  0 < d -> 0 < P -> 0 <= delta -> 0 <= n -> m * d = P + delta ->
  delta * n < P * (d - n mod d) -> m * n / P = n / d.
Proof.
  intros Hd HP Hdel Hn Hm Hgap.
  pose proof (Z.div_mod n d ltac:(lia)) as E. pose proof (Z.mod_pos_bound n d Hd).
  symmetry. apply (Z.div_unique _ _ _ (m * n - P * (n / d))); [|lia].
  assert (Hd' : d * (m * n - P * (n / d)) = P * (n mod d) + delta * n) by nia.
  left. split; nia.
Qed.

(** For a negative dividend the product rounds down past the quotient, which
    the final sign-bit addition repairs. *)
Lemma magic_floor_neg d P delta m k :
  0 < d -> 0 < P -> 0 < delta -> 0 < k -> m * d = P + delta ->
  delta * k <= P * (d - k mod d) -> (- (m * k)) / P = - (k / d) - 1.
Proof.
  intros Hd HP Hdel Hk Hm Hgap.
  pose proof (Z.div_mod k d ltac:(lia)) as E. pose proof (Z.mod_pos_bound k d Hd).
  symmetry. apply (Z.div_unique _ _ _ (- (m * k) + P * (k / d + 1))); [|lia].
  assert (Hd' : d * (- (m * k) + P * (k / d + 1)) = P * (d - k mod d) - delta * k) by nia.
  left. split; nia.
Qed.

(** The one dividend outside [magic_gap]: -2^63 with a positive divisor. *)
Lemma magic_gap_min d p :
  2 <= d < 2 ^ 63 -> 64 <= p ->
  let delta := d - 2 ^ p mod d in
  crit (2 ^ 63) d * delta < 2 ^ p ->
  delta * 2 ^ 63 <= 2 ^ p * (d - 2 ^ 63 mod d).
Proof.
  intros Hd Hp delta Hc.
  pose proof (Z.mod_pos_bound (2 ^ 63) d ltac:(lia)) as R.
  pose proof (Z.mod_pos_bound (2 ^ p) d ltac:(lia)) as R2.
  assert (H2p : 2 ^ p = 2 ^ (p - 63) * 2 ^ 63) by (rewrite <- Z.pow_add_r by lia; f_equal; lia).
  assert (0 < 2 ^ (p - 63)) by (apply Z.pow_pos_nonneg; lia).
  destruct (Z.eq_dec (2 ^ 63 mod d) (d - 1)) as [Er|Er].
  - (* 2^63 = -1 mod d, so delta = 2^(p-63) mod d up to a multiple of d *)
    assert (Hm : (2 ^ (p - 63) - delta) mod d = 0).
    { replace (2 ^ (p - 63) - delta) with ((2 ^ (p - 63) + 2 ^ p mod d) + (-1) * d) by lia.
      rewrite Z_mod_plus_full, Z.add_mod_idemp_r, H2p by lia.
      replace (2 ^ (p - 63) + 2 ^ (p - 63) * 2 ^ 63) with (2 ^ (p - 63) * (2 ^ 63 + 1)) by lia.
      rewrite <- Z.mul_mod_idemp_r, <- (Z.add_mod_idemp_l (2 ^ 63)), Er by lia.
      replace (d - 1 + 1) with d by lia. rewrite Z_mod_same_full, Z.mul_0_r. apply Z.mod_0_l; lia. }
    apply Z_div_exact_full_2 in Hm; [|lia].
    assert (0 <= (2 ^ (p - 63) - delta) / d) by nia.
    rewrite Er, H2p. nia.
  - pose proof (crit_bounds (2 ^ 63) d ltac:(lia)) as (C1 & C2 & C3 & C4).
    assert (2 ^ 63 = crit (2 ^ 63) d + (2 ^ 63 mod d + 1)) by (unfold crit; lia).
    assert (delta * 2 ^ 63 <= 2 * (crit (2 ^ 63) d * delta)) by nia.
    nia.
Qed.

(** A divisor of 2^63 + 1 other than 1 divides no power of two. *)
Lemma pow2_mod_nonzero d p :
  2 <= d -> (2 ^ 63 + 1) mod d = 0 -> 0 <= p -> 2 ^ p mod d <> 0.
Proof.
  intros Hd H1 Hp H2.
  apply Z.mod_divide in H1, H2; try lia.
  assert (Hg : Z.gcd (2 ^ 63 + 1) (2 ^ p) = 1)
    by (apply Z.coprime_pow_r; [done | reflexivity]).
  pose proof (Z.gcd_greatest _ _ d H1 H2) as Hd1. rewrite Hg in Hd1.
  apply Z.divide_1_r in Hd1. lia.
Qed.
