(* ===== verification/StrengthRules.v ===== *)
(** Strength reduction of multiplication, division and remainder by a
    constant: src/src/codegen/binary/strength_rules.{h,c}.

    [cg_strength_classify] picks a rewrite rule for an operator and a
    constant; [cg_magic_s64] and [cg_magic_u64] compute the multiplier and
    shift that replace a 64-bit division.  The theorems show that the rule
    chosen is applicable, and that the magic numbers satisfy the arithmetic
    property from which the lowered code computes the exact quotient. *)
From S2P Require Import Prelude MagicArith.

(** * Rules *)
Module Strength.

Inductive CgStrengthKind :=
| CG_SR_NONE
| CG_SR_MUL_SHL
| CG_SR_MUL_SHL_ADD
| CG_SR_MUL_SHL_SUB
| CG_SR_UDIV_SHR
| CG_SR_UREM_AND
| CG_SR_SDIV_POW2
| CG_SR_SREM_POW2
| CG_SR_DIV_MAGIC
| CG_SR_REM_MAGIC.

Record CgStrengthRewrite := mkRewrite {
  kind : CgStrengthKind;
  shift : Z;
  mask : Z;
  magic : Z;
  magic_add : Z
}.

Inductive CgShape :=
| SR_SHAPE_POW2
| SR_SHAPE_POW2_PLUS_1
| SR_SHAPE_POW2_MINUS_1
| SR_SHAPE_CONST_GENERAL.

(** [signedness] is -1 (either), 0 (signed) or 1 (unsigned). *)
Record CgStrengthRule := mkRule {
  rule_op : ascii;
  rule_shape : CgShape;
  signedness : Z;
  rule_kind : CgStrengthKind
}.

Definition g_cg_strength_rules : list CgStrengthRule := [
  mkRule "*" SR_SHAPE_POW2 (-1) CG_SR_MUL_SHL;
  mkRule "*" SR_SHAPE_POW2_PLUS_1 (-1) CG_SR_MUL_SHL_ADD;
  mkRule "*" SR_SHAPE_POW2_MINUS_1 (-1) CG_SR_MUL_SHL_SUB;
  mkRule "/" SR_SHAPE_POW2 1 CG_SR_UDIV_SHR;
  mkRule "%" SR_SHAPE_POW2 1 CG_SR_UREM_AND;
  mkRule "/" SR_SHAPE_POW2 0 CG_SR_SDIV_POW2;
  mkRule "%" SR_SHAPE_POW2 0 CG_SR_SREM_POW2;
  mkRule "/" SR_SHAPE_CONST_GENERAL (-1) CG_SR_DIV_MAGIC;
  mkRule "%" SR_SHAPE_CONST_GENERAL (-1) CG_SR_REM_MAGIC ].

(** [while ((v >> k) != 1) k++]: at most 64 rounds for a non-zero [v]. *)
Fixpoint pow2_log_loop (fuel : nat) (v k : Z) : Z :=
  match fuel with
  | O => k
  | S fuel => if Z.shiftr v k =? 1 then k else pow2_log_loop fuel v (k + 1)
  end.

Definition cg_pow2_log (v : Z) : Z :=
  if (v =? 0) || negb (Z.land v (v - 1) =? 0) then -1
  else pow2_log_loop 64 v 0.

(** The shape test: [Some k] when the constant has the shape, with the
    shift stored through [k_out].  [c + 1] is a signed addition. *)
Definition cg_shape_matches (s : CgShape) (c : Z) : outcome (option Z) :=
  match s with
  | SR_SHAPE_POW2 =>
      let k := if c >? 1 then cg_pow2_log (u64 c) else -1 in
      Ret (if k <? 1 then None else Some k)
  | SR_SHAPE_POW2_PLUS_1 =>
      let k := if c >? 2 then cg_pow2_log (u64 (c - 1)) else -1 in
      Ret (if k <? 2 then None else Some k)
  | SR_SHAPE_POW2_MINUS_1 =>
      let! k := if c >? 2 then let! c1 := signed64 (c + 1) in Ret (cg_pow2_log (u64 c1))
                else Ret (-1) in
      Ret (if k <? 2 then None else Some k)
  | SR_SHAPE_CONST_GENERAL =>
      Ret (if (c =? 0) || (c =? 1) || (c =? -1) then None else Some 0)
  end.

(** * Magic numbers *)

Definition two63 : Z := 0x8000000000000000.

(** Loop state of both magic computations. *)
Record magic_state := mkMagic {
  mg_p : Z; mg_q1 : Z; mg_r1 : Z; mg_q2 : Z; mg_r2 : Z; mg_add : Z
}.

Definition magic_s_step (anc ad : Z) (st : magic_state) : magic_state :=
  let p := mg_p st + 1 in
  let q1 := u64 (Z.shiftl (mg_q1 st) 1) in
  let r1 := u64 (Z.shiftl (mg_r1 st) 1) in
  let '(q1, r1) := if r1 >=? anc then (u64 (q1 + 1), u64 (r1 - anc)) else (q1, r1) in
  let q2 := u64 (Z.shiftl (mg_q2 st) 1) in
  let r2 := u64 (Z.shiftl (mg_r2 st) 1) in
  let '(q2, r2) := if r2 >=? ad then (u64 (q2 + 1), u64 (r2 - ad)) else (q2, r2) in
  mkMagic p q1 r1 q2 r2 (mg_add st).

(** The [do ... while (q1 < delta || (q1 == delta && r1 == 0))] loop. *)
Fixpoint magic_s_loop (fuel : nat) (anc ad : Z) (st : magic_state) : outcome magic_state :=
  match fuel with
  | O => NoFuel
  | S fuel =>
      let st := magic_s_step anc ad st in
      let delta := u64 (ad - mg_r2 st) in
      if (mg_q1 st <? delta) || ((mg_q1 st =? delta) && (mg_r1 st =? 0))
      then magic_s_loop fuel anc ad st
      else Ret st
  end.

Definition cg_magic_s64 (d : Z) : outcome (Z * Z) :=
  let! absd := if d <? 0 then signed64 (- d) else Ret d in
  let ad := u64 absd in
  let t := u64 (two63 + Z.shiftr (u64 d) 63) in
  let! tm := umod t ad in
  let anc := u64 (t - 1 - tm) in
  let! q1 := udiv two63 anc in
  let r1 := u64 (two63 - q1 * anc) in
  let! q2 := udiv two63 ad in
  let r2 := u64 (two63 - q2 * ad) in
  let! st := magic_s_loop 128 anc ad (mkMagic 63 q1 r1 q2 r2 0) in
  let M := i64 (u64 (mg_q2 st + 1)) in
  let! M := if d <? 0 then signed64 (- M) else Ret M in
  Ret (M, mg_p st - 64).

Definition magic_u_step (nc d : Z) (st : magic_state) : magic_state :=
  let p := mg_p st + 1 in
  let '(q1, r1) :=
    if mg_r1 st >=? u64 (nc - mg_r1 st)
    then (u64 (2 * mg_q1 st + 1), u64 (2 * mg_r1 st - nc))
    else (u64 (2 * mg_q1 st), u64 (2 * mg_r1 st)) in
  if u64 (mg_r2 st + 1) >=? u64 (d - mg_r2 st) then
    mkMagic p q1 r1 (u64 (2 * mg_q2 st + 1)) (u64 (2 * mg_r2 st + 1 - d))
      (if mg_q2 st >=? two63 - 1 then 1 else mg_add st)
  else
    mkMagic p q1 r1 (u64 (2 * mg_q2 st)) (u64 (2 * mg_r2 st + 1))
      (if mg_q2 st >=? two63 then 1 else mg_add st).

Fixpoint magic_u_loop (fuel : nat) (nc d : Z) (st : magic_state) : outcome magic_state :=
  match fuel with
  | O => NoFuel
  | S fuel =>
      let st := magic_u_step nc d st in
      let delta := u64 (d - 1 - mg_r2 st) in
      if (mg_p st <? 128) &&
         ((mg_q1 st <? delta) || ((mg_q1 st =? delta) && (mg_r1 st =? 0)))
      then magic_u_loop fuel nc d st
      else Ret st
  end.

(** Result: multiplier, shift and the "add" flag. *)
Definition cg_magic_u64 (d : Z) : outcome (Z * Z * Z) :=
  let! dm := umod (u64 (0 - d)) d in
  let nc := u64 (u64 (-1) - dm) in
  let! q1 := udiv two63 nc in
  let r1 := u64 (two63 - q1 * nc) in
  let! q2 := udiv (two63 - 1) d in
  let r2 := u64 (two63 - 1 - q2 * d) in
  let! st := magic_u_loop 128 nc d (mkMagic 63 q1 r1 q2 r2 0) in
  Ret (u64 (mg_q2 st + 1), mg_p st - 64, mg_add st).

(** * Classification *)

(** The fields stored once a rule has matched with shift [k]. *)
Definition cg_fill_rewrite (kd : CgStrengthKind) (k c : Z) (is_unsigned : bool)
  : outcome CgStrengthRewrite :=
  match kd with
  | CG_SR_UREM_AND | CG_SR_SREM_POW2 => Ret (mkRewrite kd k (c - 1) 0 0)
  | CG_SR_DIV_MAGIC | CG_SR_REM_MAGIC =>
      if is_unsigned then
        let! (m, s, a) := cg_magic_u64 (u64 c) in
        Ret (mkRewrite kd s 0 (i64 m) a)
      else
        let! (m, s) := cg_magic_s64 c in
        Ret (mkRewrite kd s 0 m 0)
  | _ => Ret (mkRewrite kd k 0 0 0)
  end.

Fixpoint cg_classify_rules (rules : list CgStrengthRule) (op : ascii) (c : Z)
    (is_unsigned : bool) : outcome (option CgStrengthRewrite) :=
  match rules with
  | [] => Ret None
  | rule :: rest =>
      if negb (Ascii.eqb (rule_op rule) op) then cg_classify_rules rest op c is_unsigned
      else if (signedness rule >=? 0)
              && negb (signedness rule =? (if is_unsigned then 1 else 0))
      then cg_classify_rules rest op c is_unsigned
      else
        let! m := cg_shape_matches (rule_shape rule) c in
        match m with
        | None => cg_classify_rules rest op c is_unsigned
        | Some k =>
            let! rw := cg_fill_rewrite (rule_kind rule) k c is_unsigned in
            Ret (Some rw)
        end
  end.

(** [None] is the return value 0; the only output it leaves is
    [out->kind = CG_SR_NONE]. *)
Definition cg_strength_classify (op : ascii) (c : Z) (is_unsigned : bool)
  : outcome (option CgStrengthRewrite) :=
  if is_unsigned && (c <? 0) then Ret None
  else cg_classify_rules g_cg_strength_rules op c is_unsigned.

(** * Correctness of [cg_magic_s64] *)
Section MagicSigned.
Context (anc ad : Z).
Hypothesis Hanc : 2 ^ 62 <= anc <= 2 ^ 63.
Hypothesis Had : 2 <= ad < 2 ^ 63.
Hypothesis Hodd : anc = 2 ^ 63 -> (2 ^ 63 + 1) mod ad = 0.

Definition delta_s (p : Z) : Z := ad - 2 ^ p mod ad.

(** The loop variables are the quotients and remainders of 2^p. *)
Definition exact_s (p : Z) (st : magic_state) : Prop :=
  mg_p st = p /\
  mg_q1 st = 2 ^ p / anc /\ mg_r1 st = 2 ^ p mod anc /\
  mg_q2 st = 2 ^ p / ad /\ mg_r2 st = 2 ^ p mod ad.

Lemma delta_s_bounds p : 1 <= delta_s p <= ad.
Proof using Had. clear anc Hanc Hodd. unfold delta_s. pose proof (Z.mod_pos_bound (2 ^ p) ad). lia. Qed.

Lemma magic_s_step_exact p st :
  0 <= p -> exact_s p st -> 2 ^ (p + 1) / anc < 2 ^ 64 -> 2 ^ (p + 1) / ad < 2 ^ 64 ->
  exact_s (p + 1) (magic_s_step anc ad st).
Proof.
  intros Hp (E0 & E1 & E2 & E3 & E4) O1 O2.
  assert (HP : 0 < 2 ^ p) by (apply Z.pow_pos_nonneg; lia).
  rewrite Z.pow_add_r, (Z.mul_comm _ (2 ^ 1)) in O1, O2 by lia. change (2 ^ 1) with 2 in *.
  pose proof (double_divmod (2 ^ p) anc ltac:(lia) ltac:(lia)) as [D1 D2].
  pose proof (double_divmod (2 ^ p) ad ltac:(lia) ltac:(lia)) as [D3 D4].
  pose proof (Z.mod_pos_bound (2 ^ p) anc ltac:(lia)) as B1.
  pose proof (Z.mod_pos_bound (2 ^ p) ad ltac:(lia)) as B2.
  pose proof (Z.div_pos (2 ^ p) anc ltac:(lia) ltac:(lia)).
  pose proof (Z.div_pos (2 ^ p) ad ltac:(lia) ltac:(lia)).
  unfold exact_s. rewrite Z.pow_add_r, (Z.mul_comm _ (2 ^ 1)) by lia. change (2 ^ 1) with 2.
  unfold magic_s_step. rewrite !Z.shiftl_mul_pow2, E0, E1, E2, E3, E4 by lia.
  change (2 ^ 1) with 2. rewrite !(Z.mul_comm _ 2), D1, D2, D3, D4 in *.
  rewrite (wrapu_small 64 (2 * (2 ^ p mod anc))), (wrapu_small 64 (2 * (2 ^ p mod ad)))
    by (unfold in_u; lia).
  destruct (2 * (2 ^ p mod anc) >=? anc) eqn:G1, (2 * (2 ^ p mod ad) >=? ad) eqn:G2;
    rewrite Z.geb_leb in G1, G2; simpl;
    repeat match goal with
           | H : (_ <=? _) = true |- _ => apply Z.leb_le in H
           | H : (_ <=? _) = false |- _ => apply Z.leb_gt in H end;
    rewrite !wrapu_small by (unfold in_u; rewrite ?wrapu_small; unfold in_u; lia);
    split_and!; lia.
Qed.

Lemma continue_bound p :
  63 <= p -> p = 63 \/ 2 ^ p <= anc * delta_s p -> p < 127 /\
  2 ^ (p + 1) / anc < 2 ^ 64 /\ 2 ^ (p + 1) / ad + 1 < 2 ^ 64.
Proof.
  intros Hp [->|Hc].
  { split; [lia|]. change (2 ^ (63 + 1)) with (2 ^ 64).
    split; [apply Z.div_lt_upper_bound; nia|].
    enough (2 ^ 64 / ad < 2 ^ 64 - 1) by lia. apply Z.div_lt_upper_bound; nia. }
  pose proof (delta_s_bounds p) as Db.
  rewrite Z.pow_add_r by lia. change (2 ^ 1) with 2.
  split; [apply (Z.pow_lt_mono_r_iff 2); nia|].
  split; [apply Z.div_lt_upper_bound; nia|].
  enough (2 ^ p * 2 / ad < 2 ^ 64 - 1) by lia. apply Z.div_lt_upper_bound; [lia|].
  destruct (Z.eq_dec anc (2 ^ 63)) as [Ea|Ea]; [|nia].
  assert (delta_s p <= ad - 1).
  { unfold delta_s. pose proof (pow2_mod_nonzero ad p ltac:(lia) (Hodd Ea) ltac:(lia)).
    pose proof (Z.mod_pos_bound (2 ^ p) ad). lia. }
  nia.
Qed.

(** The loop ends, at an exponent for which the rounding bound holds. *)
Lemma magic_s_loop_ok fuel : forall p st,
  63 <= p -> p = 63 \/ 2 ^ p <= anc * delta_s p -> exact_s p st ->
  127 - p < Z.of_nat fuel ->
  exists p' st', magic_s_loop fuel anc ad st = Ret st' /\ exact_s p' st' /\
    64 <= p' <= 127 /\ anc * delta_s p' < 2 ^ p' /\ 2 ^ p' / ad + 1 < 2 ^ 64.
Proof.
  induction fuel as [|fuel IH]; intros p st Hp Hc He Hf; [pose proof (continue_bound p Hp Hc); lia|].
  destruct (continue_bound p Hp Hc) as (Hp' & O1 & O2).
  pose proof (magic_s_step_exact p st ltac:(lia) He O1 ltac:(lia)) as Hs.
  cbn [magic_s_loop]. set (st' := magic_s_step anc ad st) in *.
  destruct Hs as (E0 & E1 & E2 & E3 & E4).
  pose proof (delta_s_bounds (p + 1)) as Db. unfold delta_s in Db.
  rewrite E1, E2, E4, wrapu_small by (unfold in_u; lia).
  pose proof (divmod_exceeds (2 ^ (p + 1)) anc (ad - 2 ^ (p + 1) mod ad) ltac:(lia)) as X.
  destruct (_ || _).
  - apply (IH (p + 1)); [lia|right; by apply X|done|lia].
  - exists (p + 1), st'. split_and!; try done; try lia.
    unfold delta_s. lia.
Qed.
End MagicSigned.

(** What the signed multiplier promises the code that uses it: [m] is the
    unsigned multiplier, [M] its two's complement form with the sign of [d]. *)
Definition signed_magic (d M s m : Z) : Prop :=
  0 <= s <= 63 /\ 0 < m < 2 ^ 64 /\ m <> 2 ^ 63 /\ M = i64 (Z.sgn d * m) /\
  forall n, in_s 64 n ->
    Z.sgn d * m * n / 2 ^ (64 + s) = n ÷ d - (if Z.sgn d * n <? 0 then 1 else 0).

(** The quotient identity for a positive divisor [ad] and both signs of the
    product, from the bound established by the loop. *)
Lemma signed_magic_quotients ad p m delta T :
  2 <= ad < 2 ^ 63 -> 64 <= p -> T = 2 ^ 63 \/ T = 2 ^ 63 + 1 ->
  delta = ad - 2 ^ p mod ad -> m * ad = 2 ^ p + delta -> crit T ad * delta < 2 ^ p ->
  (forall k, 0 <= k < T -> m * k / 2 ^ p = k / ad) /\
  (forall k, 0 < k <= 2 ^ 63 -> (- (m * k)) / 2 ^ p = - (k / ad) - 1).
Proof.
  intros Had Hp HT Hdel Hm Hc.
  assert (HP : 0 < 2 ^ p) by (apply Z.pow_pos_nonneg; lia).
  pose proof (Z.mod_pos_bound (2 ^ p) ad ltac:(lia)).
  assert (Hgap : forall k, 0 <= k < T -> delta * k < 2 ^ p * (ad - k mod ad))
    by (intros; apply (magic_gap T); lia).
  split; intros k Hk.
  - apply (magic_floor ad _ delta); try lia. by apply Hgap.
  - apply (magic_floor_neg ad _ delta); try lia.
    destruct (Z.lt_ge_cases k T) as [L|L]; [apply Z.lt_le_incl, Hgap; lia|].
    assert (k = 2 ^ 63) as -> by lia. assert (T = 2 ^ 63) as -> by lia.
    subst delta. by apply magic_gap_min.
Qed.

(** Setup of the signed loop: the critical value and the starting state. *)
Definition crit_s (d : Z) : Z := crit (2 ^ 63 + (if d <? 0 then 1 else 0)) (Z.abs d).
Definition magic_s_start (anc ad : Z) : magic_state :=
  mkMagic 63 (2 ^ 63 / anc) (2 ^ 63 mod anc) (2 ^ 63 / ad) (2 ^ 63 mod ad) 0.

Lemma crit_s_bounds d : 2 <= Z.abs d < 2 ^ 63 ->
  2 ^ 62 <= crit_s d <= 2 ^ 63 /\ (crit_s d = 2 ^ 63 -> (2 ^ 63 + 1) mod Z.abs d = 0).
Proof.
  intros Hd. unfold crit_s. set (T := 2 ^ 63 + _).
  assert (HT : T = 2 ^ 63 \/ T = 2 ^ 63 + 1) by (unfold T; destruct (d <? 0); lia).
  pose proof (crit_bounds T (Z.abs d) ltac:(lia)) as (C1 & C2 & C3 & C4).
  split; [lia|]. by intros <-.
Qed.

Lemma cg_magic_s64_unfold d st m :
  2 <= Z.abs d < 2 ^ 63 ->
  magic_s_loop 128 (crit_s d) (Z.abs d) (magic_s_start (crit_s d) (Z.abs d)) = Ret st ->
  m = mg_q2 st + 1 -> 0 < m < 2 ^ 64 -> m <> 2 ^ 63 ->
  cg_magic_s64 d = Ret (i64 (Z.sgn d * m), mg_p st - 64).
Proof.
  intros Hd Hloop -> Hm Hm63. pose proof (crit_s_bounds d Hd) as [Hanc _].
  unfold cg_magic_s64, two63. change 0x8000000000000000 with (2 ^ 63).
  assert ((if d <? 0 then signed64 (- d) else Ret d) = Ret (Z.abs d)) as ->.
  { destruct (Z.ltb_spec d 0); [rewrite signed64_ok by (unfold in_s; simpl; lia)|];
      f_equal; lia. }
  cbn [obind]. rewrite (wrapu_small 64 (Z.abs d)) by (unfold in_u; lia).
  assert (u64 (2 ^ 63 + Z.shiftr (u64 d) 63) = 2 ^ 63 + (if d <? 0 then 1 else 0)) as ->.
  { rewrite Z.shiftr_div_pow2 by lia. destruct (Z.ltb_spec d 0).
    - rewrite (wrapu_unique 64 d (d + 2 ^ 64) (-1)) by (unfold in_u; lia).
      rewrite <- (Z.div_unique (d + 2 ^ 64) (2 ^ 63) 1 (d + 2 ^ 63)) by lia. reflexivity.
    - rewrite (wrapu_small 64 d), Z.div_small by (unfold in_u; lia). reflexivity. }
  rewrite umod_ok by lia. cbn [obind]. fold (crit (2 ^ 63 + (if d <? 0 then 1 else 0)) (Z.abs d)).
  fold (crit_s d). rewrite (wrapu_small 64 (crit_s d)) by (unfold in_u; lia).
  rewrite udiv_ok by lia. cbn [obind]. rewrite udiv_ok by lia. cbn [obind].
  rewrite (Z.mul_comm _ (Z.abs d)), (Z.mul_comm _ (crit_s d)), <- !Z.mod_eq by lia.
  pose proof (Z.mod_pos_bound (2 ^ 63) (crit_s d)). pose proof (Z.mod_pos_bound (2 ^ 63) (Z.abs d)).
  rewrite (wrapu_small 64 (2 ^ 63 mod crit_s d)), (wrapu_small 64 (2 ^ 63 mod Z.abs d))
    by (unfold in_u; lia).
  unfold magic_s_start in Hloop. rewrite Hloop. cbn [obind].
  rewrite (wrapu_small 64 (mg_q2 st + 1)) by (unfold in_u; lia).
  destruct (i64_opp (mg_q2 st + 1) Hm Hm63) as [Ho1 Ho2].
  destruct (Z.ltb_spec d 0); [rewrite signed64_ok, Ho1 by done|]; cbn [obind]; do 3 f_equal; lia.
Qed.

(** The computation ends without overflow for every divisor but 0, 1, -1 and
    the minimum, and its result is a correct multiplier. *)
Lemma cg_magic_s64_ok d :
  2 <= Z.abs d < 2 ^ 63 ->
  exists M s m, cg_magic_s64 d = Ret (M, s) /\ signed_magic d M s m.
Proof.
  intros Hd. pose proof (crit_s_bounds d Hd) as [Hanc Hodd].
  destruct (magic_s_loop_ok (crit_s d) (Z.abs d) Hanc Hd Hodd 128 63
              (magic_s_start (crit_s d) (Z.abs d)) ltac:(lia) (or_introl eq_refl))
    as (p & st & Hloop & (E0 & _ & _ & E3 & _) & Hp & Hc & Hm); [done|lia|].
  set (ad := Z.abs d) in *. set (m := 2 ^ p / ad + 1) in *.
  assert (Hmd : m * ad = 2 ^ p + delta_s ad p)
    by (unfold m, delta_s; pose proof (Z.div_mod (2 ^ p) ad); lia).
  pose proof (delta_s_bounds ad ltac:(lia) p) as Hdel.
  assert (Hm0 : 0 < m) by (unfold m; pose proof (Z.div_pos (2 ^ p) ad); lia).
  assert (Hm63 : m <> 2 ^ 63).
  { intros Em. assert (2 ^ p = 2 ^ (p - 63) * 2 ^ 63)
      by (rewrite <- Z.pow_add_r by lia; f_equal; lia). nia. }
  exists (i64 (Z.sgn d * m)), (p - 64), m. split.
  { rewrite <- E0. apply cg_magic_s64_unfold; try done; unfold m; lia. }
  split_and!; try lia. intros n [Hn1 Hn2]. simpl in Hn1, Hn2.
  replace (64 + (p - 64)) with p by lia.
  destruct (signed_magic_quotients ad p m (delta_s ad p) (2 ^ 63 + (if d <? 0 then 1 else 0)))
    as [Q1 Q2]; try done; try lia; [destruct (d <? 0); lia|].
  rewrite Z.quot_div by lia. fold ad. specialize (Q1 (Z.abs n)). specialize (Q2 (Z.abs n)).
  destruct (Z.eq_dec n 0) as [->|Hn0].
  { rewrite Z.mul_0_r, Z.div_0_l by lia. destruct (Z.ltb_spec (Z.sgn d * 0) 0); lia. }
  destruct (Z.ltb_spec (Z.sgn d * n) 0) as [L|L].
  - replace (Z.sgn d * m * n) with (- (m * Z.abs n)) by lia.
    rewrite Q2 by lia. replace (Z.sgn n * Z.sgn d) with (-1) by lia. lia.
  - replace (Z.sgn d * m * n) with (m * Z.abs n) by nia.
    rewrite Q1 by (destruct (d <? 0) eqn:?; lia).
    replace (Z.sgn n * Z.sgn d) with 1 by nia. lia.
Qed.

(** * Correctness of [cg_magic_u64] *)
Section MagicUnsigned.
Context (nc d : Z).
Hypothesis Hnc : 2 ^ 63 < nc < 2 ^ 64.
Hypothesis Hd : 2 <= d < 2 ^ 64.

Definition delta_u (p : Z) : Z := d - 1 - (2 ^ p - 1) mod d.
(** The full-width multiplier for exponent [p]; it may need 65 bits. *)
Definition mult_u (p : Z) : Z := (2 ^ p - 1) / d + 1.

Definition exact_u (p : Z) (st : magic_state) : Prop :=
  mg_p st = p /\
  (p <= 127 -> mg_q1 st = 2 ^ p / nc /\ mg_r1 st = 2 ^ p mod nc) /\
  mg_q2 st = u64 (mult_u p - 1) /\ mg_r2 st = (2 ^ p - 1) mod d /\
  mg_add st = (if 2 ^ 64 <=? mult_u p then 1 else 0).

Lemma delta_u_bounds p : 0 <= delta_u p <= d - 1.
Proof using Hd. clear nc Hnc. unfold delta_u. pose proof (Z.mod_pos_bound (2 ^ p - 1) d). lia. Qed.

Lemma mult_u_spec p : mult_u p * d = 2 ^ p + delta_u p.
Proof using Hd.
  clear nc Hnc. unfold mult_u, delta_u. pose proof (Z.div_mod (2 ^ p - 1) d). lia.
Qed.

Lemma mult_u_pos p : 0 <= p -> 0 < mult_u p.
Proof using Hd.
  clear nc Hnc. intros. unfold mult_u. assert (0 < 2 ^ p) by (apply Z.pow_pos_nonneg; lia).
  pose proof (Z.div_pos (2 ^ p - 1) d). lia.
Qed.

(** Both comparisons of the loop are the doubling test, written so that it
    cannot overflow. *)
Lemma geb_half r b : (r >=? b - r) = (2 * r >=? b).
Proof. rewrite !Z.geb_leb. destruct (Z.leb_spec (b - r) r), (Z.leb_spec b (2 * r)); lia. Qed.

Lemma geb_half1 r b : (r + 1 >=? b - r) = (2 * r + 1 >=? b).
Proof. rewrite !Z.geb_leb. destruct (Z.leb_spec (b - r) (r + 1)), (Z.leb_spec b (2 * r + 1)); lia. Qed.

Lemma mult_u_succ p : 0 <= p ->
  mult_u (p + 1) = (if 2 * ((2 ^ p - 1) mod d) + 1 >=? d then 2 * mult_u p else 2 * mult_u p - 1) /\
  (2 ^ (p + 1) - 1) mod d =
    (if 2 * ((2 ^ p - 1) mod d) + 1 >=? d then 2 * ((2 ^ p - 1) mod d) + 1 - d
     else 2 * ((2 ^ p - 1) mod d) + 1).
Proof using Hd.
  clear nc Hnc. intros Hp. assert (0 < 2 ^ p) by (apply Z.pow_pos_nonneg; lia).
  destruct (double1_divmod (2 ^ p - 1) d ltac:(lia) ltac:(lia)) as [D1 D2].
  unfold mult_u. rewrite Z.pow_add_r by lia.
  replace (2 ^ p * 2 ^ 1 - 1) with (2 * (2 ^ p - 1) + 1) by lia.
  rewrite D1, D2. destruct (_ >=? _); lia.
Qed.

(** The quotient of 2^p by [nc] is exact as long as [p] is at most 127. *)
Lemma magic_u_step_q1 p st :
  63 <= p -> p + 1 <= 127 -> exact_u p st ->
  mg_q1 (magic_u_step nc d st) = 2 ^ (p + 1) / nc /\
  mg_r1 (magic_u_step nc d st) = 2 ^ (p + 1) mod nc.
Proof using Hnc.
  intros Hp Hp' (_ & E1 & _). destruct (E1 ltac:(lia)) as [Q R].
  assert (HP : 0 < 2 ^ p) by (apply Z.pow_pos_nonneg; lia).
  assert (2 ^ p <= 2 ^ 126) by (apply Z.pow_le_mono_r; lia).
  destruct (double_divmod (2 ^ p) nc ltac:(lia) ltac:(lia)) as [D1 D2].
  pose proof (Z.mod_pos_bound (2 ^ p) nc ltac:(lia)).
  pose proof (Z.div_pos (2 ^ p) nc ltac:(lia) ltac:(lia)).
  assert (2 ^ p / nc < 2 ^ 63) by (apply Z.div_lt_upper_bound; nia).
  rewrite Z.pow_add_r, (Z.mul_comm _ (2 ^ 1)) by lia. change (2 ^ 1) with 2. rewrite D1, D2.
  unfold magic_u_step. rewrite Q, R, (wrapu_small 64 (nc - _)) by (unfold in_u; lia).
  rewrite geb_half.
  destruct (_ >=? nc) eqn:G; rewrite Z.geb_leb in G;
    [apply Z.leb_le in G|apply Z.leb_gt in G]; destruct (_ >=? _); simpl;
    rewrite !wrapu_small by (unfold in_u; lia); lia.
Qed.

Lemma magic_u_step_exact p st :
  63 <= p <= 127 -> exact_u p st -> mult_u p < 2 ^ 64 -> exact_u (p + 1) (magic_u_step nc d st).
Proof.
  intros Hp He Hm. pose proof (magic_u_step_q1 p st ltac:(lia)) as HQ.
  pose proof (mult_u_succ p ltac:(lia)) as [M1 M2]. pose proof (mult_u_pos p ltac:(lia)) as Hpos.
  pose proof (Z.mod_pos_bound (2 ^ p - 1) d ltac:(lia)) as Br.
  assert (Hno : (2 ^ 64 <=? mult_u p) = false) by (apply Z.leb_gt; lia).
  split; [|split; [intros; by apply HQ|]]; destruct He as (E0 & _ & E3 & E4 & E5).
  { rewrite <- E0. unfold magic_u_step. by repeat case_match; simplify_eq. }
  rewrite (wrapu_small 64 (mult_u p - 1)) in E3 by (unfold in_u; lia).
  unfold magic_u_step. rewrite E3, E4, E5, Hno.
  rewrite (wrapu_small 64 ((2 ^ p - 1) mod d + 1)), (wrapu_small 64 (d - (2 ^ p - 1) mod d))
    by (unfold in_u; lia).
  rewrite geb_half1.
  unfold two63. change 0x8000000000000000 with (2 ^ 63).
  destruct (if mg_r1 st >=? _ then _ else _) as [q1 r1].
  rewrite M1, M2, !(Z.geb_leb (mult_u p - 1)).
  destruct (_ >=? d) eqn:G; rewrite Z.geb_leb in G;
    [apply Z.leb_le in G|apply Z.leb_gt in G]; cbn [mg_q2 mg_r2 mg_add];
    rewrite (wrapu_small 64 (2 * ((2 ^ p - 1) mod d) + 1 - d)) ||
    rewrite (wrapu_small 64 (2 * ((2 ^ p - 1) mod d) + 1)); try (unfold in_u; lia);
    (split; [f_equal; lia|split; [done|]];
     repeat match goal with |- context [?a <=? ?b] => destruct (Z.leb_spec a b) end; lia).
Qed.

Lemma continue_bound_u p :
  63 <= p -> p = 63 \/ 2 ^ p <= nc * delta_u p -> mult_u p < 2 ^ 64 /\ mult_u (p + 1) < 2 ^ 65.
Proof.
  intros Hp Hc. pose proof (mult_u_spec p) as S1. pose proof (mult_u_spec (p + 1)) as S2.
  pose proof (delta_u_bounds p). pose proof (delta_u_bounds (p + 1)).
  rewrite Z.pow_add_r in S2 by lia. change (2 ^ 1) with 2 in S2.
  destruct Hc as [->|Hc]; nia.
Qed.

Lemma magic_u_loop_ok fuel : forall p st,
  63 <= p <= 127 -> p = 63 \/ 2 ^ p <= nc * delta_u p -> exact_u p st ->
  128 - p <= Z.of_nat fuel ->
  exists p' st', magic_u_loop fuel nc d st = Ret st' /\ exact_u p' st' /\
    64 <= p' <= 128 /\ nc * delta_u p' < 2 ^ p' /\ mult_u p' < 2 ^ 65.
Proof.
  induction fuel as [|fuel IH]; intros p st Hp Hc He Hf; [lia|].
  destruct (continue_bound_u p ltac:(lia) Hc) as [O1 O2].
  pose proof (magic_u_step_exact p st Hp He O1) as Hs.
  cbn [magic_u_loop]. set (st' := magic_u_step nc d st) in *.
  pose proof Hs as (E0 & E1 & E2 & E3 & E4).
  pose proof (delta_u_bounds (p + 1)) as Db. rewrite E0.
  destruct (Z.ltb_spec (p + 1) 128) as [L|L]; cbn [andb].
  - destruct (E1 ltac:(lia)) as [-> ->]. rewrite E3. fold (delta_u (p + 1)).
    rewrite wrapu_small by (unfold in_u; lia).
    pose proof (divmod_exceeds (2 ^ (p + 1)) nc (delta_u (p + 1)) ltac:(lia)) as X.
    destruct (_ || _).
    + apply (IH (p + 1)); [lia|right; by apply X|done|lia].
    + exists (p + 1), st'. split_and!; try done; try lia.
  - exists (p + 1), st'. split_and!; try done; try lia.
    assert (E128 : p = 127) by lia. rewrite E128 in *. change (127 + 1) with 128 in *. nia.
Qed.
End MagicUnsigned.

(** What the unsigned multiplier promises: [m] is the full multiplier of up
    to 65 bits, [M] its low 64 bits and [add] its 65th bit. *)
Definition unsigned_magic (d M s add m : Z) : Prop :=
  0 <= s <= 64 /\ 0 < m < 2 ^ 65 /\ M = u64 m /\
  add = (if 2 ^ 64 <=? m then 1 else 0) /\
  (add = 0 -> s <= 63) /\ (add = 1 -> 1 <= s) /\
  forall n, in_u 64 n -> m * n / 2 ^ (64 + s) = n / d.

Lemma unsigned_magic_intro d p m :
  2 <= d < 2 ^ 64 -> 64 <= p <= 128 -> 0 < m < 2 ^ 65 ->
  0 <= m * d - 2 ^ p -> crit (2 ^ 64) d * (m * d - 2 ^ p) < 2 ^ p ->
  unsigned_magic d (u64 m) (p - 64) (if 2 ^ 64 <=? m then 1 else 0) m.
Proof.
  intros Hd Hp Hm Hdel Hc. assert (0 < 2 ^ p) by (apply Z.pow_pos_nonneg; lia).
  pose proof (crit_bounds (2 ^ 64) d ltac:(lia)) as (C1 & C2 & C3 & C4).
  split_and!; try lia; try done.
  - destruct (Z.leb_spec (2 ^ 64) m); [lia|intros _].
    enough (p < 128) by lia. apply (Z.pow_lt_mono_r_iff 2); [lia..|]. nia.
  - destruct (Z.leb_spec (2 ^ 64) m) as [L|L]; [intros _|lia].
    enough (p <> 64) by lia. intros ->. nia.
  - intros n Hn. replace (64 + (p - 64)) with p by lia.
    apply (magic_floor d _ (m * d - 2 ^ p)); try lia; [destruct Hn; lia|].
    apply (magic_gap (2 ^ 64)); try lia. apply Hn.
Qed.

Definition magic_u_start (nc d : Z) : magic_state :=
  mkMagic 63 (2 ^ 63 / nc) (2 ^ 63 mod nc) ((2 ^ 63 - 1) / d) ((2 ^ 63 - 1) mod d) 0.

Lemma cg_magic_u64_unfold d :
  2 <= d < 2 ^ 64 ->
  cg_magic_u64 d =
    (let! st := magic_u_loop 128 (crit (2 ^ 64) d) d (magic_u_start (crit (2 ^ 64) d) d) in
     Ret (u64 (mg_q2 st + 1), mg_p st - 64, mg_add st)).
Proof.
  intros Hd. pose proof (crit_bounds (2 ^ 64) d ltac:(lia)) as (C1 & C2 & C3 & C4).
  unfold cg_magic_u64, two63. change 0x8000000000000000 with (2 ^ 63).
  rewrite umod_ok by lia. cbn [obind].
  rewrite (wrapu_unique 64 (0 - d) (2 ^ 64 - d) (-1)) by (unfold in_u; lia).
  rewrite (wrapu_unique 64 (-1) (2 ^ 64 - 1) (-1)) by (unfold in_u; lia).
  replace ((2 ^ 64 - d) mod d) with (2 ^ 64 mod d)
    by (rewrite <- (Z_mod_plus_full (2 ^ 64) (-1) d); f_equal; lia).
  fold (crit (2 ^ 64) d). rewrite (wrapu_small 64 (crit _ _)) by (unfold in_u; lia).
  rewrite udiv_ok by lia. cbn [obind]. rewrite udiv_ok by lia. cbn [obind].
  rewrite (Z.mul_comm _ (crit (2 ^ 64) d)), (Z.mul_comm _ d), <- !Z.mod_eq by lia.
  pose proof (Z.mod_pos_bound (2 ^ 63) (crit (2 ^ 64) d)).
  pose proof (Z.mod_pos_bound (2 ^ 63 - 1) d).
  rewrite (wrapu_small 64 (2 ^ 63 mod _)), (wrapu_small 64 ((2 ^ 63 - 1) mod d))
    by (unfold in_u; lia).
  done.
Qed.

(** The computation ends for every divisor of at least 2, and its result is
    a correct multiplier. *)
Lemma cg_magic_u64_ok d :
  2 <= d < 2 ^ 64 ->
  exists M s add m, cg_magic_u64 d = Ret (M, s, add) /\ unsigned_magic d M s add m.
Proof.
  intros Hd. pose proof (crit_bounds (2 ^ 64) d ltac:(lia)) as (C1 & C2 & C3 & C4).
  destruct (Z.eq_dec d (2 ^ 63 + 1)) as [->|Hne].
  { (* the single divisor for which the quotient by [nc] overflows at p = 127 *)
    exists (2 ^ 64 - 3), 64, 1, (2 ^ 65 - 3). split; [by vm_compute|].
    apply (unsigned_magic_intro (2 ^ 63 + 1) 128 (2 ^ 65 - 3)); try lia; by vm_compute. }
  assert (Hnc : 2 ^ 63 < crit (2 ^ 64) d < 2 ^ 64).
  { split; [|lia]. unfold crit in *. pose proof (Z.mod_pos_bound (2 ^ 64) d ltac:(lia)).
    destruct (Z.eq_dec d (2 ^ 63)) as [->|]; [by vm_compute|].
    assert (2 ^ 64 - 1 - 2 ^ 64 mod d <> 2 ^ 63); lia. }
  destruct (magic_u_loop_ok (crit (2 ^ 64) d) d Hnc Hd 128 63 (magic_u_start (crit (2 ^ 64) d) d))
    as (p & st & Hloop & (E0 & _ & E2 & _ & E4) & Hp & Hc & Hm); try lia.
  { split_and!; try done; unfold mult_u, magic_u_start; simpl mg_q2; simpl mg_add.
    - rewrite wrapu_small; [lia|]. unfold in_u. pose proof (Z.div_pos (2 ^ 63 - 1) d).
      assert ((2 ^ 63 - 1) / d < 2 ^ 63) by (apply Z.div_lt_upper_bound; nia). lia.
    - assert ((2 ^ 63 - 1) / d < 2 ^ 63) by (apply Z.div_lt_upper_bound; nia).
      destruct (Z.leb_spec (2 ^ 64) ((2 ^ 63 - 1) / d + 1)); lia. }
  exists (u64 (mult_u d p)), (p - 64), (if 2 ^ 64 <=? mult_u d p then 1 else 0), (mult_u d p).
  pose proof (mult_u_spec d Hd p). pose proof (delta_u_bounds d Hd p).
  pose proof (mult_u_pos d Hd p ltac:(lia)).
  rewrite cg_magic_u64_unfold, Hloop by done. cbn [obind]. rewrite E0, E2, E4. split.
  - unfold wrapu. rewrite Zplus_mod_idemp_l, Z.sub_add. done.
  - assert (E : mult_u d p * d - 2 ^ p = delta_u d p) by (rewrite mult_u_spec by done; ring).
    apply unsigned_magic_intro; rewrite ?E; done || lia.
Qed.

(** * Correctness of the classification *)

Lemma pow2_log_loop_ok fuel : forall j k,
  0 <= j <= k -> k - j < Z.of_nat fuel -> pow2_log_loop fuel (2 ^ k) j = k.
Proof.
  induction fuel as [|fuel IH]; intros j k Hj Hf; [lia|].
  cbn [pow2_log_loop]. rewrite Z.shiftr_div_pow2, <- Z.pow_sub_r by lia.
  destruct (Z.eqb_spec (2 ^ (k - j)) 1) as [E|E].
  - destruct (Z.eq_dec j k); [done|].
    pose proof (Z.pow_gt_1 2 (k - j) ltac:(lia)). lia.
  - apply IH; [|lia]. destruct (Z.eq_dec j k) as [->|]; [|lia].
    by rewrite Z.sub_diag in E.
Qed.

(** [cg_pow2_log] recognises exactly the 64 powers of two. *)
Lemma cg_pow2_log_spec v :
  0 <= v < 2 ^ 64 ->
  (exists k, 0 <= k < 64 /\ v = 2 ^ k /\ cg_pow2_log v = k) \/
  (cg_pow2_log v = -1 /\ forall k, 0 <= k -> v <> 2 ^ k).
Proof.
  intros Hv. unfold cg_pow2_log.
  destruct (Z.eqb_spec v 0) as [->|Hz].
  { right. split; [done|]. intros k Hk E. pose proof (Z.pow_pos_nonneg 2 k). lia. }
  destruct (Z.eqb_spec (Z.land v (v - 1)) 0) as [E|E]; cbn [orb negb].
  - left. pose proof (land_pred_zero_pow2 v ltac:(lia) E) as Ev.
    exists (Z.log2 v). pose proof (Z.log2_nonneg v).
    assert (Z.log2 v < 64) by (apply Z.log2_lt_pow2; lia).
    split_and!; try done. rewrite Ev at 1. apply pow2_log_loop_ok; lia.
  - right. split; [done|]. intros k Hk ->. by rewrite land_pred_pow2 in E.
Qed.

(** What each shape promises about the constant. *)
Definition shape_fact (sh : CgShape) (c k : Z) : Prop :=
  match sh with
  | SR_SHAPE_POW2 => 1 <= k <= 62 /\ c = 2 ^ k
  | SR_SHAPE_POW2_PLUS_1 => 2 <= k <= 62 /\ c = 2 ^ k + 1
  | SR_SHAPE_POW2_MINUS_1 => 2 <= k <= 62 /\ c = 2 ^ k - 1
  | SR_SHAPE_CONST_GENERAL => c <> 0 /\ c <> 1 /\ c <> -1
  end.

Lemma pow2_below_63 k : 0 <= k -> 2 ^ k < 2 ^ 63 -> k <= 62.
Proof. intros Hk H. apply Z.pow_lt_mono_r_iff in H; lia. Qed.

Lemma cg_shape_matches_sound sh c k :
  in_s 64 c -> cg_shape_matches sh c = Ret (Some k) -> shape_fact sh c k.
Proof.
  intros [Hc1 Hc2] H. simpl in Hc1, Hc2.
  destruct sh; simpl in H |- *.
  - destruct (c >? 1) eqn:G; [|done]. rewrite Z.gtb_lt in G.
    rewrite wrapu_small in H by (unfold in_u; lia).
    destruct (cg_pow2_log_spec c ltac:(lia)) as [(j & Hj & E & Ej)|[Ej _]]; rewrite Ej in H; [|done].
    pose proof (pow2_below_63 j). destruct (Z.ltb_spec j 1); simplify_eq. lia.
  - destruct (c >? 2) eqn:G; [|done]. rewrite Z.gtb_lt in G.
    rewrite wrapu_small in H by (unfold in_u; lia).
    destruct (cg_pow2_log_spec (c - 1) ltac:(lia)) as [(j & Hj & E & Ej)|[Ej _]]; rewrite Ej in H; [|done].
    pose proof (pow2_below_63 j). destruct (Z.ltb_spec j 2); simplify_eq. lia.
  - destruct (c >? 2) eqn:G; [|done]. rewrite Z.gtb_lt in G.
    unfold signed64 in H. destruct (in_s64b (c + 1)) eqn:S; [|done].
    apply in_s64b_spec in S. destruct S as [_ S]. simpl in S, H.
    rewrite wrapu_small in H by (unfold in_u; lia).
    destruct (cg_pow2_log_spec (c + 1) ltac:(lia)) as [(j & Hj & E & Ej)|[Ej _]]; rewrite Ej in H; [|done].
    pose proof (pow2_below_63 j). destruct (Z.ltb_spec j 2); simplify_eq. lia.
  - destruct (Z.eqb_spec c 0), (Z.eqb_spec c 1), (Z.eqb_spec c (-1)); simpl in H; simplify_eq. lia.
Qed.

(** The only input on which a shape test is undefined. *)
Lemma cg_shape_matches_undef sh c :
  in_s 64 c ->
  (exists r, cg_shape_matches sh c = Ret r) \/
  (cg_shape_matches sh c = Undef /\ sh = SR_SHAPE_POW2_MINUS_1 /\ c = 2 ^ 63 - 1).
Proof.
  intros [Hc1 Hc2]. simpl in Hc1, Hc2. destruct sh; simpl; try (left; by eexists).
  destruct (c >? 2) eqn:G; [|left; by eexists]. rewrite Z.gtb_lt in G.
  destruct (Z.eq_dec c (2 ^ 63 - 1)) as [->|Hne]; [right; by vm_compute|].
  rewrite signed64_ok by (unfold in_s; simpl; lia). left; by eexists.
Qed.

(** The meaning of a rewrite: the operation it computes is the one asked. *)
Definition rewrite_spec (op : ascii) (c : Z) (uns : bool) (rw : CgStrengthRewrite) : Prop :=
  match kind rw with
  | CG_SR_NONE => False
  | CG_SR_MUL_SHL => op = "*"%char /\
      forall x, u64 (Z.shiftl x (shift rw)) = u64 (x * c)
  | CG_SR_MUL_SHL_ADD => op = "*"%char /\
      forall x, u64 (u64 (Z.shiftl x (shift rw)) + x) = u64 (x * c)
  | CG_SR_MUL_SHL_SUB => op = "*"%char /\
      forall x, u64 (u64 (Z.shiftl x (shift rw)) - x) = u64 (x * c)
  | CG_SR_UDIV_SHR => op = "/"%char /\ uns = true /\
      forall x, in_u 64 x -> Z.shiftr x (shift rw) = x / c
  | CG_SR_UREM_AND => op = "%"%char /\ uns = true /\
      forall x, in_u 64 x -> Z.land x (mask rw) = x mod c
  | CG_SR_SDIV_POW2 => op = "/"%char /\ uns = false /\ 1 <= shift rw <= 62 /\ c = 2 ^ shift rw
  | CG_SR_SREM_POW2 => op = "%"%char /\ uns = false /\ 1 <= shift rw <= 62 /\
      c = 2 ^ shift rw /\ mask rw = 2 ^ shift rw - 1
  | CG_SR_DIV_MAGIC | CG_SR_REM_MAGIC =>
      op = (match kind rw with CG_SR_DIV_MAGIC => "/" | _ => "%" end)%char /\
      if uns then exists m, unsigned_magic c (u64 (magic rw)) (shift rw) (magic_add rw) m
      else exists m, signed_magic c (magic rw) (shift rw) m
  end.

Lemma shape_POW2_none c : in_s 64 c ->
  cg_shape_matches SR_SHAPE_POW2 c = Ret None -> forall k, 1 <= k -> c <> 2 ^ k.
Proof.
  intros [Hc1 Hc2] H k Hk E. simpl in Hc1, Hc2, H.
  assert (2 ^ 1 <= 2 ^ k) by (apply Z.pow_le_mono_r; lia).
  replace (c >? 1) with true in H by (symmetry; apply Z.gtb_lt; lia).
  rewrite wrapu_small in H by (unfold in_u; lia).
  destruct (cg_pow2_log_spec c ltac:(lia)) as [(j & Hj & Ec & Ej)|[_ Hn]]; [|by eapply Hn; [|done]; lia].
  rewrite Ej in H. destruct (Z.ltb_spec j 1); [|done].
  assert (j = 0) as -> by lia. lia.
Qed.

(** The arithmetic behind each shift-based rewrite. *)
Lemma mul_shift_value k x c d : 0 <= k -> c = 2 ^ k + d ->
  u64 (u64 (Z.shiftl x k) + x * d) = u64 (x * c).
Proof.
  intros Hk ->. rewrite Z.shiftl_mul_pow2 by done. unfold wrapu.
  rewrite Zplus_mod_idemp_l. f_equal. lia.
Qed.

Definition magic_spec (c : Z) (uns : bool) (rw : CgStrengthRewrite) : Prop :=
  if uns then exists m, unsigned_magic c (u64 (magic rw)) (shift rw) (magic_add rw) m
  else exists m, signed_magic c (magic rw) (shift rw) m.

Lemma fill_magic_sound kd k c uns rw :
  kd = CG_SR_DIV_MAGIC \/ kd = CG_SR_REM_MAGIC ->
  in_s 64 c -> (uns = true -> 0 <= c) -> c <> 0 /\ c <> 1 /\ c <> -1 ->
  cg_fill_rewrite kd k c uns = Ret rw -> kind rw = kd /\ magic_spec c uns rw.
Proof.
  intros Hor [Hc1 Hc2] Hu Hne Hf. simpl in Hc1, Hc2. destruct uns.
  - specialize (Hu eq_refl).
    destruct (cg_magic_u64_ok c ltac:(lia)) as (M & s & add & m & E & Hm).
    destruct Hor as [-> | ->]; simpl in Hf; rewrite wrapu_small, E in Hf by (unfold in_u; lia);
      simpl in Hf; simplify_eq; (split; [done|]); exists m; simpl;
      (rewrite wrapu_wraps, wrapu_small; [done| |lia]); destruct Hm as (_ & _ & -> & _);
      by apply wrapu_bound.
  - assert (c <> - 2 ^ 63).
    { intros ->. destruct Hor as [-> | ->]; by vm_compute in Hf. }
    destruct (cg_magic_s64_ok c ltac:(lia)) as (M & s & m & E & Hm).
    destruct Hor as [-> | ->]; simpl in Hf; rewrite E in Hf; simpl in Hf; simplify_eq;
      (split; [done|]); by exists m.
Qed.

Lemma fill_rewrite_sound rule c uns k rw :
  In rule g_cg_strength_rules -> in_s 64 c -> (uns = true -> 0 <= c) ->
  signedness rule = -1 \/ signedness rule = (if uns then 1 else 0) ->
  shape_fact (rule_shape rule) c k ->
  cg_fill_rewrite (rule_kind rule) k c uns = Ret rw ->
  rewrite_spec (rule_op rule) c uns rw.
Proof.
  intros Hin Hc Hu Hs Hk Hf.
  repeat (destruct Hin as [<-|Hin]); [..|done]; cbn [rule_shape rule_kind rule_op signedness shape_fact] in *.
  8-9: (apply fill_magic_sound in Hf; [|auto..]; destruct Hf as [E Hm];
        unfold rewrite_spec; rewrite E; by split).
  all: simpl in Hf; simplify_eq; unfold rewrite_spec; cbn [kind shift mask];
    destruct Hk as [Hk Ec]; split; try done.
  - intros x. rewrite <- (mul_shift_value k x c 0) by lia.
    rewrite Z.mul_0_r, Z.add_0_r. unfold wrapu. symmetry. apply Z.mod_mod. lia.
  - intros x. rewrite <- (mul_shift_value k x c 1) by lia. by rewrite Z.mul_1_r.
  - intros x. rewrite <- (mul_shift_value k x c (-1)) by lia. f_equal. lia.
  - destruct uns; [|lia]. split; [done|]. intros x _. rewrite Z.shiftr_div_pow2, Ec by lia. done.
  - destruct uns; [|lia]. split; [done|]. intros x _. rewrite Ec.
    replace (2 ^ k - 1) with (Z.ones k) by (rewrite Z.ones_equiv; lia). apply Z.land_ones; lia.
  - destruct uns; [lia|done].
  - destruct uns; [lia|]. rewrite Ec. done.
Qed.

(** The signedness filter of the rule loop, as a proposition. *)
Lemma signedness_filter rule (uns : bool) :
  In rule g_cg_strength_rules ->
  (signedness rule >=? 0) && negb (signedness rule =? (if uns then 1 else 0)) = false ->
  signedness rule = -1 \/ signedness rule = (if uns then 1 else 0).
Proof.
  intros Hin H. repeat (destruct Hin as [<-|Hin]); [..|done]; destruct uns; simpl in H |- *;
    first [by left | by right | done].
Qed.

Lemma cg_classify_rules_sound rules op c uns rw :
  (forall r, In r rules -> In r g_cg_strength_rules) ->
  in_s 64 c -> (uns = true -> 0 <= c) ->
  cg_classify_rules rules op c uns = Ret (Some rw) -> rewrite_spec op c uns rw.
Proof.
  intros Hsub Hc Hu. induction rules as [|rule rest IH]; simpl; [done|].
  assert (Hrest : forall r, In r rest -> In r g_cg_strength_rules) by (intros; apply Hsub; by right).
  destruct (Ascii.eqb_spec (rule_op rule) op) as [<-|]; simpl; [|by apply IH].
  destruct (_ && _) eqn:F; [by apply IH|].
  pose proof (signedness_filter rule uns (Hsub _ (or_introl eq_refl)) F) as Hs.
  destruct (cg_shape_matches _ _) as [[k|]| |] eqn:Hm; simpl; [|by apply IH|done..].
  intros H. apply obind_Ret in H. destruct H as (rw' & Hf & E). simplify_eq.
  eapply fill_rewrite_sound; try done; [apply Hsub; by left|].
  by apply cg_shape_matches_sound.
Qed.

(** When classification is undefined, it is by one of two signed overflows. *)
Definition classify_overflows (op : ascii) (c : Z) (uns : bool) : Prop :=
  (op = "*"%char /\ c = 2 ^ 63 - 1) \/
  ((op = "/"%char \/ op = "%"%char) /\ uns = false /\ c = - 2 ^ 63).

#[export] Instance classify_overflows_dec op c uns : Decision (classify_overflows op c uns).
Proof. unfold classify_overflows. apply _. Defined.

Lemma fill_rewrite_total kd k c uns :
  in_s 64 c -> (uns = true -> 0 <= c) ->
  (kd = CG_SR_DIV_MAGIC \/ kd = CG_SR_REM_MAGIC ->
   (c <> 0 /\ c <> 1 /\ c <> -1) /\ (uns = false -> c <> - 2 ^ 63)) ->
  exists rw, cg_fill_rewrite kd k c uns = Ret rw.
Proof.
  intros [Hc1 Hc2] Hu Hm. simpl in Hc1, Hc2.
  destruct kd; simpl; try by eexists.
  all: destruct Hm as [Hne Hmin]; [tauto|]; destruct uns; simpl.
  1, 3: specialize (Hu eq_refl); rewrite wrapu_small by (unfold in_u; lia);
    destruct (cg_magic_u64_ok c ltac:(lia)) as (M & s & add & m & -> & _); by eexists.
  all: destruct (cg_magic_s64_ok c ltac:(lia)) as (M & s & m & -> & _); by eexists.
Qed.

Lemma cg_classify_rules_total rules op c uns :
  (forall r, In r rules -> In r g_cg_strength_rules) ->
  in_s 64 c -> (uns = true -> 0 <= c) -> ~ classify_overflows op c uns ->
  exists r, cg_classify_rules rules op c uns = Ret r.
Proof.
  intros Hsub Hc Hu Hno. induction rules as [|rule rest IH]; simpl; [by eexists|].
  assert (Hrest : forall r, In r rest -> In r g_cg_strength_rules) by (intros; apply Hsub; by right).
  destruct (Ascii.eqb_spec (rule_op rule) op) as [Eop|]; simpl; [|by apply IH].
  destruct (_ && _); [by apply IH|].
  pose proof (Hsub rule (or_introl eq_refl)) as Hin. clear Hsub.
  destruct (cg_shape_matches_undef (rule_shape rule) c Hc) as [[[k|] Hm]|(_ & Es & Ec)];
    [|rewrite Hm; by apply IH|].
  - rewrite Hm. cbn [obind]. destruct (fill_rewrite_total (rule_kind rule) k c uns Hc Hu) as [rw ->].
    + intros Hk. apply cg_shape_matches_sound in Hm; [|done].
      assert (rule_shape rule = SR_SHAPE_CONST_GENERAL /\ (op = "/"%char \/ op = "%"%char)) as [E Hop].
      { subst op. repeat (destruct Hin as [<-|Hin]); [..|done]; simpl in Hk |- *; intuition congruence. }
      rewrite E in Hm. split; [done|]. intros Hsg ->. apply Hno. by right.
    + by eexists.
  - exfalso. apply Hno. left. split; [|done]. subst op.
    repeat (destruct Hin as [<-|Hin]); [..|done]; done.
Qed.

(** ** Properties *)

(** C18: every rewrite [cg_strength_classify] returns computes the requested
    operation on every 64-bit operand: the shift, shift-and-add,
    shift-and-subtract, unsigned shift and mask forms equal the wrapped
    product, quotient and remainder, and the magic forms carry a multiplier
    that yields the exact quotient. *)
Theorem cg_strength_classify_sound op c uns rw :
  in_s 64 c -> cg_strength_classify op c uns = Ret (Some rw) -> rewrite_spec op c uns rw.
Proof.
  intros Hc. unfold cg_strength_classify. destruct (uns && (c <? 0)) eqn:G; [done|].
  apply cg_classify_rules_sound; [done|done|]. intros ->. simpl in G. lia.
Qed.

Lemma cg_strength_classify_sound_witness :
  exists rw, cg_strength_classify "/" 7 false = Ret (Some rw) /\ rewrite_spec "/" 7 false rw.
Proof.
  eexists. split; [vm_compute; reflexivity|].
  apply (cg_strength_classify_sound "/" 7 false); [unfold in_s; simpl; lia|vm_compute; reflexivity].
Defined.

(** Classification ends for every operator and 64-bit constant, and is
    undefined exactly on two inputs: a product by INT64_MAX, where the test
    for 2^k - 1 adds one to the constant, and a signed division or remainder
    by INT64_MIN, where the magic computation negates it. *)
Lemma cg_strength_classify_undefined op c uns :
  in_s 64 c ->
  (cg_strength_classify op c uns = Undef <-> classify_overflows op c uns) /\
  (~ classify_overflows op c uns -> exists r, cg_strength_classify op c uns = Ret r).
Proof.
  intros Hc.
  assert (Htot : ~ classify_overflows op c uns -> exists r, cg_strength_classify op c uns = Ret r).
  { intros Hno. unfold cg_strength_classify. destruct (uns && (c <? 0)) eqn:G; [by eexists|].
    apply cg_classify_rules_total; try done. intros ->. simpl in G. lia. }
  split; [split|exact Htot].
  - intros HU. destruct (decide (classify_overflows op c uns)) as [|Hno]; [done|].
    destruct (Htot Hno); congruence.
  - intros [[-> ->]|[[-> | ->] [-> ->]]]; [destruct uns|..]; by vm_compute.
Qed.

Lemma cg_strength_classify_undefined_witness :
  cg_strength_classify "*" (2 ^ 63 - 1) true = Undef.
Proof.
  apply (proj1 (cg_strength_classify_undefined "*" (2 ^ 63 - 1) true
                  ltac:(unfold in_s; simpl; lia))).
  left. split; reflexivity.
Defined.

End Strength.
