(* ===== verification/Mir.v ===== *)
(** The machine-level IR of the x86-64 backend: the data types of
    src/src/codegen/binary/mir.h and the constructors and emitters of
    src/src/codegen/binary/mir.c, with an executable meaning for the 64-bit
    integer instructions, read off src/src/codegen/binary/mir_encode.c. *)
From S2P Require Import Prelude.

Module Mir.

(** [MirVregId]; [MIR_VREG_NONE] is -1. *)
Definition MIR_VREG_NONE : Z := -1.

Inductive MirRegClass := MIR_RC_GP | MIR_RC_XMM | MIR_RC_VEC.

Inductive MirOperandKind :=
| MIR_OPK_NONE | MIR_OPK_VREG | MIR_OPK_PHYS | MIR_OPK_IMM | MIR_OPK_FIMM
| MIR_OPK_MEM | MIR_OPK_LABEL | MIR_OPK_SYMBOL | MIR_OPK_STACKHOME.

#[export] Instance MirOperandKind_eq_dec : EqDecision MirOperandKind.
Proof. solve_decision. Defined.

Inductive MirOpcode :=
| MIR_NOP | MIR_MOV | MIR_LEA | MIR_LEA_LOCAL
| MIR_LEA_GLOBAL | MIR_LEA_FUNC | MIR_LEA_CSTR | MIR_LEA_STRLIT
| MIR_POPCNT | MIR_HEAP_NEW | MIR_MOVZX | MIR_MOVSX
| MIR_LOAD_GLOBAL | MIR_STORE_GLOBAL | MIR_ADD | MIR_SUB
| MIR_AND | MIR_OR | MIR_XOR | MIR_IMUL
| MIR_NEG | MIR_NOT | MIR_SHL | MIR_SHR
| MIR_SAR | MIR_CQO | MIR_XOR_RDX | MIR_IDIV
| MIR_DIV | MIR_MULHI | MIR_CMP | MIR_TEST
| MIR_BT | MIR_SETCC | MIR_CMOVCC | MIR_JMP
| MIR_JCC | MIR_CMPBR | MIR_JMP_TABLE | MIR_LABEL
| MIR_PREFETCH | MIR_CMOV | MIR_CALL | MIR_CALL_INDIRECT
| MIR_REP_MOVSB | MIR_REP_STOSB | MIR_SYSCALL | MIR_STORE_OUTARG
| MIR_LEA_OUTARG | MIR_TRAP | MIR_INLINE_ASM | MIR_RET
| MIR_FADD | MIR_FSUB | MIR_FMUL | MIR_FDIV
| MIR_FXOR | MIR_FDUP | MIR_FEXTHI | MIR_CVTSI2F
| MIR_CVTF2SI | MIR_CVTF2F | MIR_UCOMIS | MIR_FSETCC
| MIR_FCMPBR | MIR_MOVD_TO_XMM | MIR_MOVD_TO_GP | MIR_CVTPH2PS
| MIR_CVTPS2PH | MIR_VADD | MIR_VSUB | MIR_VMUL
| MIR_VDIV | MIR_VCVTSI2F | MIR_VCVTF2SI | MIR_VLOAD
| MIR_VSTORE | MIR_VBROADCAST | MIR_VIOTA | MIR_VHREDUCE
| MIR_SIMD_SLP_MAC | MIR_SIMD_FILL | MIR_SIMD_AFFINE_MAP_F32 | MIR_SIMD_AFFINE_MAP_F64
| MIR_SIMD_SILU_F32 | MIR_SIMD_VLOOP | MIR_IR_KERNEL.

#[export] Instance MirOpcode_eq_dec : EqDecision MirOpcode.
Proof. solve_decision. Defined.

Record MirMem := mkMem {
  base : Z; index : Z; scale : Z; mem_disp : Z;
  phys_base_valid : bool; phys_base : Z;
  frame_home_valid : bool; frame_home : Z
}.

(** [sym] is [None] for a null pointer. *)
Record MirOperand := mkOperand {
  kind : MirOperandKind;
  vreg : Z;
  phys : Z;
  rclass : MirRegClass;
  imm : Z;
  mem : MirMem;
  sym : option string;
  disp : Z
}.

(** What the [aux] pointer of an instruction refers to: a jump table, the
    record of a kernel, of which the index is read, or something else. *)
Inductive MirAux := AuxNull | AuxTable (labels : list (option string)) | AuxKernel (kernel_index : Z) | AuxOther.

Record MirInst := mkInst {
  op : MirOpcode;
  dst : MirOperand;
  opa : MirOperand;
  opb : MirOperand;
  width : Z;
  is_float : bool;
  is_unsigned : bool;
  cc : Z;
  ir_index : Z;
  aux : MirAux;
  preserves_rax : bool;
  preserves_xmm : bool
}.

Record MirVreg := mkVreg {
  v_rclass : MirRegClass; v_width : Z; v_lanes : Z; v_assigned : Z; v_in_register : Z;
  v_phys : Z; v_spill_offset : Z; v_live_start : Z; v_live_end : Z; v_crosses_call : Z;
  v_loop_carried : Z; v_coalesce_hint : Z; v_address_taken : Z; v_home_bytes : Z;
  v_home_width : Z; v_home_signed : Z; v_home_granule : Z; v_entry_live : Z;
  v_crosses_preserving_only : Z; v_crosses_xmm_preserving_only : Z; v_coalesced_into : Z
}.
Definition MIR_LIVE_NONE : Z := -1.

(** The entry [mir_new_vreg] writes: zero but for the class, the width and
    the "none" markers. *)
Definition fresh_vreg (rc : MirRegClass) (w : Z) : MirVreg :=
  {| v_rclass := rc; v_width := w; v_lanes := 0; v_assigned := 0; v_in_register := 0;
     v_phys := -1; v_spill_offset := 0; v_live_start := MIR_LIVE_NONE;
     v_live_end := MIR_LIVE_NONE; v_crosses_call := 0; v_loop_carried := 0;
     v_coalesce_hint := MIR_VREG_NONE; v_address_taken := 0; v_home_bytes := 0;
     v_home_width := 0; v_home_signed := 0; v_home_granule := 0; v_entry_live := 0;
     v_crosses_preserving_only := 0; v_crosses_xmm_preserving_only := 0;
     v_coalesced_into := MIR_VREG_NONE |}.

Record MirParam := mkParam {
  p_vreg : Z; p_arg_index : Z; p_width : Z; p_is_signed : bool; p_is_float : bool;
  p_sysv_eightbytes : Z; p_sysv_in_memory : bool; p_sysv_sse : Z * Z; p_sysv_size : Z;
  p_sysv_direct_sse : bool; p_sysv_storage : Z
}.

(** [MirFunction]: the fields the modelled code reads or writes.  Each array
    is a list with its capacity; [fn_heap] is the allocator its growth requests
    go to. *)
Record MirFunction := mkFn {
  fn_heap : heap;
  vregs : list MirVreg;
  vreg_capacity : nat;
  insns : list MirInst;
  insn_capacity : nat;
  params : list MirParam;
  returns_indirect : bool;
  indirect_return_vreg : Z;
  iconsts : list (Z * Z);
  iconst_capacity : nat;
  cur_ir_index : Z;
  has_error : bool
}.

Definition vreg_count (fn : MirFunction) : nat := length (vregs fn).
Definition insn_count (fn : MirFunction) : nat := length (insns fn).

(** ** Field updates *)
Definition set_error (fn : MirFunction) : MirFunction :=
  mkFn (fn_heap fn) (vregs fn) (vreg_capacity fn) (insns fn) (insn_capacity fn) (params fn)
    (returns_indirect fn) (indirect_return_vreg fn) (iconsts fn) (iconst_capacity fn)
    (cur_ir_index fn) true.
Definition set_heap (h : heap) (fn : MirFunction) : MirFunction :=
  mkFn h (vregs fn) (vreg_capacity fn) (insns fn) (insn_capacity fn) (params fn)
    (returns_indirect fn) (indirect_return_vreg fn) (iconsts fn) (iconst_capacity fn)
    (cur_ir_index fn) (has_error fn).
Definition set_vregs (vs : list MirVreg) (cap : nat) (fn : MirFunction) : MirFunction :=
  mkFn (fn_heap fn) vs cap (insns fn) (insn_capacity fn) (params fn)
    (returns_indirect fn) (indirect_return_vreg fn) (iconsts fn) (iconst_capacity fn)
    (cur_ir_index fn) (has_error fn).
Definition set_insns (ins : list MirInst) (cap : nat) (fn : MirFunction) : MirFunction :=
  mkFn (fn_heap fn) (vregs fn) (vreg_capacity fn) ins cap (params fn)
    (returns_indirect fn) (indirect_return_vreg fn) (iconsts fn) (iconst_capacity fn)
    (cur_ir_index fn) (has_error fn).
Definition set_iconsts (cs : list (Z * Z)) (cap : nat) (fn : MirFunction) : MirFunction :=
  mkFn (fn_heap fn) (vregs fn) (vreg_capacity fn) (insns fn) (insn_capacity fn) (params fn)
    (returns_indirect fn) (indirect_return_vreg fn) cs cap
    (cur_ir_index fn) (has_error fn).

(** A [realloc] request made on behalf of [fn]. *)
Definition fn_alloc (fn : MirFunction) : bool * MirFunction :=
  let (ok, h) := alloc (fn_heap fn) in (ok, set_heap h fn).

(** ** Construction *)

Definition mir_function_init (h : heap) : MirFunction :=
  mkFn h [] 0 [] 0 [] false MIR_VREG_NONE [] 0 (-1) false.

Definition mir_new_vreg (rc : MirRegClass) (w : Z) (fn : MirFunction) : Z * MirFunction :=
  let add fn cap :=
    (i32 (Z.of_nat (vreg_count fn)),
     set_vregs (vregs fn ++ [fresh_vreg rc w]) cap fn) in
  if (vreg_capacity fn <=? vreg_count fn)%nat then
    let new_cap := if (vreg_capacity fn =? 0)%nat then 16%nat else (vreg_capacity fn * 2)%nat in
    let (ok, fn) := fn_alloc fn in
    if ok then add fn new_cap else (MIR_VREG_NONE, set_error fn)
  else add fn (vreg_capacity fn).

Definition with_ir_index (i : Z) (in_ : MirInst) : MirInst :=
  mkInst (op in_) (dst in_) (opa in_) (opb in_) (width in_) (is_float in_) (is_unsigned in_)
    (cc in_) i (aux in_) (preserves_rax in_) (preserves_xmm in_).

Definition mir_emit (inst : MirInst) (fn : MirFunction) : bool * MirFunction :=
  let add fn cap :=
    let inst := if (ir_index inst <? 0) && (cur_ir_index fn >=? 0)
                then with_ir_index (cur_ir_index fn) inst else inst in
    (true, set_insns (insns fn ++ [inst]) cap fn) in
  if (insn_capacity fn <=? insn_count fn)%nat then
    let new_cap := if (insn_capacity fn =? 0)%nat then 32%nat else (insn_capacity fn * 2)%nat in
    let (ok, fn) := fn_alloc fn in
    if ok then add fn new_cap else (false, set_error fn)
  else add fn (insn_capacity fn).

Definition mem_none : MirMem := mkMem MIR_VREG_NONE MIR_VREG_NONE 0 0 false 0 false 0.
Definition mir_op_none : MirOperand :=
  mkOperand MIR_OPK_NONE MIR_VREG_NONE 0 MIR_RC_GP 0 mem_none None 0.
Definition mir_op_vreg (v : Z) : MirOperand :=
  mkOperand MIR_OPK_VREG v 0 MIR_RC_GP 0 mem_none None 0.
Definition mir_op_imm (value : Z) : MirOperand :=
  mkOperand MIR_OPK_IMM MIR_VREG_NONE 0 MIR_RC_GP value mem_none None 0.
Definition mir_op_label (name : string) : MirOperand :=
  mkOperand MIR_OPK_LABEL MIR_VREG_NONE 0 MIR_RC_GP 0 mem_none (Some name) 0.
Definition mir_op_mem_vreg (bs ix sc ds : Z) : MirOperand :=
  mkOperand MIR_OPK_MEM MIR_VREG_NONE 0 MIR_RC_GP 0
    (mkMem bs ix sc ds false 0 false MIR_VREG_NONE) None 0.

(** [mir_emit1] of mir_lower.c. *)
Definition mir_emit1 (o : MirOpcode) (d x y : MirOperand) (w : Z) (uns : bool) (c : Z)
  : MirFunction -> bool * MirFunction :=
  mir_emit (mkInst o d x y w false uns c (-1) AuxNull false false).

(** ** Meaning of the 64-bit integer instructions

    A register file holds the 64-bit pattern of each virtual register.  The
    meaning of an opcode is that of the x86-64 instruction the encoder emits
    for it: [encode_mulhi] keeps the high half of [mul] or [imul],
    [encode_shift] masks an immediate count with 63. *)
Definition regs := Z -> Z.

Definition upd (rf : regs) (v x : Z) : regs := fun w => if w =? v then x else rf w.

Definition eval_operand (rf : regs) (o : MirOperand) : option Z :=
  match kind o with
  | MIR_OPK_VREG => Some (rf (vreg o))
  | MIR_OPK_IMM => Some (u64 (imm o))
  | _ => None
  end.

Definition alu (o : MirOpcode) (uns : bool) (x y : Z) : option Z :=
  match o with
  | MIR_ADD => Some (u64 (x + y))
  | MIR_SUB => Some (u64 (x - y))
  | MIR_AND => Some (Z.land x y)
  | MIR_OR => Some (Z.lor x y)
  | MIR_IMUL => Some (u64 (x * y))
  | MIR_SHL => Some (u64 (Z.shiftl x (Z.land y 63)))
  | MIR_SHR => Some (Z.shiftr x (Z.land y 63))
  | MIR_SAR => Some (u64 (Z.shiftr (i64 x) (Z.land y 63)))
  | MIR_MULHI => Some (if uns then x * y / 2 ^ 64 else u64 (i64 x * i64 y / 2 ^ 64))
  | _ => None
  end.

Definition exec1 (i : MirInst) (rf : regs) : option regs :=
  if negb (width i =? 8) || is_float i || negb (bool_decide (kind (dst i) = MIR_OPK_VREG))
  then None else
  match op i with
  | MIR_MOV => x ← eval_operand rf (opa i); Some (upd rf (vreg (dst i)) x)
  | MIR_NEG => x ← eval_operand rf (opa i); Some (upd rf (vreg (dst i)) (u64 (- x)))
  | o => x ← eval_operand rf (opa i); y ← eval_operand rf (opb i);
         r ← alu o (is_unsigned i) x y; Some (upd rf (vreg (dst i)) r)
  end.

Fixpoint exec (code : list MirInst) (rf : regs) : option regs :=
  match code with
  | [] => Some rf
  | i :: code => rf ← exec1 i rf; exec code rf
  end.

(** ** Shared lemmas *)

Lemma exec_app c1 c2 rf : exec (c1 ++ c2) rf = rf' ← exec c1 rf; exec c2 rf'.
Proof. revert rf. induction c1 as [|i c1 IH]; intros; simpl; [done|]. destruct (exec1 i rf); simpl; auto. Qed.

Lemma upd_same rf v x : upd rf v x v = x.
Proof. unfold upd. by rewrite Z.eqb_refl. Qed.

Lemma upd_other rf v w x : w <> v -> upd rf v x w = rf w.
Proof. intros. unfold upd. by rewrite (proj2 (Z.eqb_neq w v)). Qed.

(** Execution does not depend on the source index of an instruction. *)
Lemma exec1_ir_index j i rf : exec1 (with_ir_index j i) rf = exec1 i rf.
Proof. done. Qed.

(** [fn'] is [fn] with [code] appended, up to source indices. *)
Definition extends (fn fn' : MirFunction) (code : list MirInst) : Prop :=
  (exists code', insns fn' = insns fn ++ code' /\ forall rf, exec code' rf = exec code rf) /\
  (vreg_count fn <= vreg_count fn')%nat /\ iconsts fn' = iconsts fn.

Lemma extends_refl fn : extends fn fn [].
Proof. split; [|done]. exists []. by rewrite app_nil_r. Qed.

Lemma extends_trans f1 f2 f3 c1 c2 :
  extends f1 f2 c1 -> extends f2 f3 c2 -> extends f1 f3 (c1 ++ c2).
Proof.
  intros ((c1' & E1 & X1) & V1 & I1) ((c2' & E2 & X2) & V2 & I2).
  split; [|split; [lia|congruence]]. exists (c1' ++ c2'). split; [by rewrite E2, E1, app_assoc|].
  intros rf. rewrite !exec_app, X1. destruct (exec c1 rf); simpl; auto.
Qed.

Lemma mir_new_vreg_inv rc w fn v fn' :
  mir_new_vreg rc w fn = (v, fn') -> v <> MIR_VREG_NONE ->
  v = i32 (Z.of_nat (vreg_count fn)) /\ extends fn fn' [] /\ vreg_count fn' = S (vreg_count fn).
Proof.
  unfold mir_new_vreg. intros H Hv.
  assert (Hadd : forall f cap, vregs f = vregs fn -> insns f = insns fn -> iconsts f = iconsts fn ->
    (v, fn') = (i32 (Z.of_nat (vreg_count f)),
      set_vregs (vregs f ++ [fresh_vreg rc w]) cap f) ->
    v = i32 (Z.of_nat (vreg_count fn)) /\ extends fn fn' [] /\ vreg_count fn' = S (vreg_count fn)).
  { intros f cap Ev Ei Ec E. simplify_eq. unfold extends, vreg_count. simpl.
    rewrite Ev, Ei, Ec, length_app. simpl. split_and!; try done; try lia.
    exists []. by rewrite app_nil_r. }
  destruct (_ <=? _)%nat; [|eapply Hadd; [..|symmetry; exact H]; done].
  destruct (fn_alloc fn) as [ok f] eqn:A. unfold fn_alloc in A. destruct (alloc _). simplify_eq.
  destruct ok; [eapply Hadd; [..|symmetry; exact H]; done|]. by simplify_eq.
Qed.

Lemma mir_emit_inv inst fn fn' :
  mir_emit inst fn = (true, fn') -> extends fn fn' [inst] /\ vreg_count fn' = vreg_count fn.
Proof.
  unfold mir_emit. intros H.
  assert (Hadd : forall f cap i, vregs f = vregs fn -> insns f = insns fn -> iconsts f = iconsts fn ->
    (i = inst \/ exists j, i = with_ir_index j inst) ->
    (true, fn') = (true, set_insns (insns f ++ [i]) cap f) ->
    extends fn fn' [inst] /\ vreg_count fn' = vreg_count fn).
  { intros f cap i Ev Ei Ec Hi E. simplify_eq. unfold extends, vreg_count. simpl.
    rewrite Ev, Ei, Ec. split_and!; try done. exists [i]. split; [done|]. intros rf.
    destruct Hi as [->|[j ->]]; simpl; by rewrite ?exec1_ir_index. }
  destruct (_ <=? _)%nat.
  - destruct (fn_alloc fn) as [ok f] eqn:A. unfold fn_alloc in A. destruct (alloc _). simplify_eq.
    destruct ok; [|by simplify_eq]. eapply Hadd; [..|symmetry; exact H]; try done.
    destruct (_ && _); eauto.
  - eapply Hadd; [..|symmetry; exact H]; try done. destruct (_ && _); eauto.
Qed.

End Mir.
