(* ===== verification/DivLower.v ===== *)
(** Lowering of division and remainder by a constant to the machine IR:
    [mir_emit_const_divmod] and its helpers in
    src/src/codegen/binary/mir_lower.c, proved against the meaning of the
    emitted instructions. *)
From S2P Require Import Prelude MagicArith StrengthRules Mir.
Import Strength Mir.

Module DivLower.

(** ** Emission

    An emitter takes the function under construction and returns the C
    truth value with the function after it; it may run into undefined
    behaviour of the compiler itself. *)
Definition Emit := MirFunction -> outcome (bool * MirFunction).

(** [m1 && m2] *)
Definition eand (m1 m2 : Emit) : Emit := fun fn =>
  let! (ok, fn) := m1 fn in if ok then m2 fn else Ret (false, fn).
Infix "&&&" := eand (at level 40, left associativity).

Definition emit1 (o : MirOpcode) (d x y : MirOperand) (w : Z) (uns : bool) (c : Z) : Emit :=
  fun fn => Ret (mir_emit1 o d x y w uns c fn).
Definition eret (ok : bool) : Emit := fun fn => Ret (ok, fn).

(** [v = mir_new_vreg(fn, MIR_RC_GP, 8); if (v == MIR_VREG_NONE) return 0;] *)
Definition with_vreg (k : Z -> Emit) : Emit := fun fn =>
  let (v, fn) := mir_new_vreg MIR_RC_GP 8 fn in
  if v =? MIR_VREG_NONE then Ret (false, fn) else k v fn.

(** ** Constants kept in registers *)

Fixpoint iconst_find (cs : list (Z * Z)) (value : Z) : Z :=
  match cs with
  | [] => MIR_VREG_NONE
  | (x, v) :: cs => if x =? value then v else iconst_find cs value
  end.

Definition mir_iconst_lookup (fn : MirFunction) (value : Z) : Z :=
  iconst_find (iconsts fn) value.

Definition mir_iconst_reserve (fn : MirFunction) : bool * MirFunction :=
  if (length (iconsts fn) <? iconst_capacity fn)%nat then (true, fn) else
  let nc := if (iconst_capacity fn =? 0)%nat then 8%nat else (iconst_capacity fn * 2)%nat in
  let (ok, fn) := fn_alloc fn in
  if ok then (true, set_iconsts (iconsts fn) nc fn) else (false, fn).

Definition mir_iconst_note (fn : MirFunction) (value v : Z) : MirFunction :=
  set_iconsts (iconsts fn ++ [(value, v)]) (iconst_capacity fn) fn.

Definition mir_iconst_add (value : Z) (fn : MirFunction) : bool * MirFunction :=
  if negb (mir_iconst_lookup fn value =? MIR_VREG_NONE) then (true, fn) else
  let (ok, fn) := mir_iconst_reserve fn in
  if negb ok then (false, set_error fn) else
  let (v, fn) := mir_new_vreg MIR_RC_GP 8 fn in
  if v =? MIR_VREG_NONE then (false, fn) else
  mir_emit1 MIR_MOV (mir_op_vreg v) (mir_op_imm value) mir_op_none 8 false 0
    (mir_iconst_note fn value v).

Definition mir_iconst_operand (fn : MirFunction) (value : Z) : MirOperand :=
  let v := mir_iconst_lookup fn value in
  if negb (v =? MIR_VREG_NONE) then mir_op_vreg v else mir_op_imm value.

(** An operand for [value], looked up when the emitter runs. *)
Definition with_iconst (value : Z) (k : MirOperand -> Emit) : Emit := fun fn =>
  k (mir_iconst_operand fn value) fn.

(** ** Division and remainder by a constant *)

Definition mir_divmod_magic (C : Z) (uns : bool) : outcome (option Z) :=
  let! r := cg_strength_classify "/" C uns in
  match r with
  | Some rw => match Strength.kind rw with
               | CG_SR_DIV_MAGIC => Ret (Some (magic rw))
               | _ => Ret None
               end
  | None => Ret None
  end.

(** Continues with the operand that holds the dividend in a register. *)
Definition mir_divmod_value_in_reg (x : MirOperand) (k : MirOperand -> Emit) : Emit :=
  if bool_decide (kind x = MIR_OPK_VREG) then k x else
  with_vreg (fun av =>
    emit1 MIR_MOV (mir_op_vreg av) x mir_op_none 8 false 0 &&& k (mir_op_vreg av)).

(** [for (t = magnitude; t > 1; t >>= 1) k++]: 64 rounds suffice. *)
Fixpoint divmod_shift_loop (fuel : nat) (t k : Z) : Z :=
  match fuel with
  | O => k
  | S fuel => if t >? 1 then divmod_shift_loop fuel (Z.shiftr t 1) (k + 1) else k
  end.
Definition mir_divmod_shift_for (magnitude : Z) : Z := divmod_shift_loop 64 magnitude 0.

Definition mir_emit_pow2_quotient_signed (Q A : MirOperand) (k C : Z) : Emit := fun fn =>
  let (t1, fn) := mir_new_vreg MIR_RC_GP 8 fn in
  let (t2, fn) := mir_new_vreg MIR_RC_GP 8 fn in
  if (t1 =? MIR_VREG_NONE) || (t2 =? MIR_VREG_NONE) then Ret (false, fn) else
  ((if k =? 1 then
      emit1 MIR_SHR (mir_op_vreg t2) A (mir_op_imm 63) 8 true 0
    else
      emit1 MIR_SAR (mir_op_vreg t1) A (mir_op_imm 63) 8 false 0 &&&
      emit1 MIR_SHR (mir_op_vreg t2) (mir_op_vreg t1) (mir_op_imm (64 - k)) 8 true 0) &&&
   emit1 MIR_ADD Q A (mir_op_vreg t2) 8 false 0 &&&
   emit1 MIR_SAR Q Q (mir_op_imm k) 8 false 0 &&&
   (if C >=? 0 then eret true else emit1 MIR_NEG Q Q mir_op_none 8 false 0)) fn.

Definition mir_emit_magic_quotient_unsigned (Q A : MirOperand) (ad : Z) : Emit := fun fn =>
  let! (M, s, add) := cg_magic_u64 ad in
  with_vreg (fun tv => with_iconst (i64 M) (fun Mop =>
    emit1 MIR_MULHI (mir_op_vreg tv) A Mop 8 true 0 &&&
    (if add =? 0 then emit1 MIR_SHR Q (mir_op_vreg tv) (mir_op_imm s) 8 true 0
     else with_vreg (fun d1 =>
       emit1 MIR_SUB (mir_op_vreg d1) A (mir_op_vreg tv) 8 false 0 &&&
       emit1 MIR_SHR (mir_op_vreg d1) (mir_op_vreg d1) (mir_op_imm 1) 8 true 0 &&&
       emit1 MIR_ADD (mir_op_vreg d1) (mir_op_vreg d1) (mir_op_vreg tv) 8 false 0 &&&
       emit1 MIR_SHR Q (mir_op_vreg d1) (mir_op_imm (s - 1)) 8 true 0)))) fn.

Definition mir_emit_magic_quotient_signed (Q A : MirOperand) (C : Z) : Emit := fun fn =>
  let! (M, s) := cg_magic_s64 C in
  with_iconst M (fun Mop =>
    emit1 MIR_MULHI Q A Mop 8 false 0 &&&
    (if (C >? 0) && (M <? 0) then emit1 MIR_ADD Q Q A 8 false 0
     else if (C <? 0) && (M >? 0) then emit1 MIR_SUB Q Q A 8 false 0
     else eret true) &&&
    (if s >? 0 then emit1 MIR_SAR Q Q (mir_op_imm s) 8 false 0 else eret true) &&&
    with_vreg (fun sb =>
      emit1 MIR_SHR (mir_op_vreg sb) Q (mir_op_imm 63) 8 true 0 &&&
      emit1 MIR_ADD Q Q (mir_op_vreg sb) 8 false 0)) fn.

Definition mir_emit_times_constant (d Q : MirOperand) (C : Z) : Emit :=
  if (C >=? - 2 ^ 31) && (C <=? 2 ^ 31 - 1) then
    emit1 MIR_IMUL d Q (mir_op_imm C) 8 false 0
  else with_vreg (fun cv =>
    emit1 MIR_MOV (mir_op_vreg cv) (mir_op_imm C) mir_op_none 8 false 0 &&&
    emit1 MIR_IMUL d Q (mir_op_vreg cv) 8 false 0).

Definition mir_emit_remainder (d A Q : MirOperand) (C : Z) : Emit :=
  with_vreg (fun mv =>
    mir_emit_times_constant (mir_op_vreg mv) Q C &&&
    emit1 MIR_SUB d A (mir_op_vreg mv) 8 false 0).

Definition mir_emit_quotient (Q A : MirOperand) (C : Z) (uns : bool) : Emit := fun fn =>
  let! absC := if uns then Ret C else if C <? 0 then signed64 (- C) else Ret C in
  let ad := u64 absC in
  let is_pow2 := Z.land ad (u64 (ad - 1)) =? 0 in
  if is_pow2 && uns then
    emit1 MIR_SHR Q A (mir_op_imm (mir_divmod_shift_for ad)) 8 true 0 fn
  else if is_pow2 then mir_emit_pow2_quotient_signed Q A (mir_divmod_shift_for ad) C fn
  else if uns then mir_emit_magic_quotient_unsigned Q A ad fn
  else mir_emit_magic_quotient_signed Q A C fn.

(** [mir_emit_const_divmod] once the dividend [A] is in a register. *)
Definition divmod_in_reg (d A : MirOperand) (C : Z) (uns md : bool) : Emit :=
  if C =? 1 then
    emit1 MIR_MOV d (if md then mir_op_imm 0 else A) mir_op_none 8 false 0
  else if negb uns && (C =? -1) then
    if md then emit1 MIR_MOV d (mir_op_imm 0) mir_op_none 8 false 0
    else emit1 MIR_NEG d A mir_op_none 8 false 0
  else
    let q_in_dst := negb md && bool_decide (kind d = MIR_OPK_VREG)
      && negb (bool_decide (kind A = MIR_OPK_VREG) && (vreg A =? vreg d)) in
    let body Q :=
      mir_emit_quotient Q A C uns &&&
      (if md then mir_emit_remainder d A Q C
       else if q_in_dst then eret true
       else emit1 MIR_MOV d Q mir_op_none 8 false 0) in
    if q_in_dst then
      (if vreg d =? MIR_VREG_NONE then eret false else body d)
    else with_vreg (fun qv => body (mir_op_vreg qv)).

Definition mir_emit_const_divmod (d x : MirOperand) (C : Z) (uns md : bool) : Emit :=
  if C =? 0 then eret false else
  mir_divmod_value_in_reg x (fun A => divmod_in_reg d A C uns md).

(** ** Arithmetic of the emitted sequences *)

(** The value a 64-bit pattern denotes. *)
Lemma i64_cases x : in_u 64 x ->
  (x < 2 ^ 63 /\ i64 x = x) \/ (2 ^ 63 <= x /\ i64 x = x - 2 ^ 64).
Proof.
  intros [H1 H2]. destruct (Z.lt_ge_cases x (2 ^ 63)); [left|right]; split; try done.
  - apply wraps_small; [lia|]. unfold in_s. simpl. lia.
  - apply (wraps_unique 64 _ _ 1); [lia| |lia]. unfold in_s. simpl. lia.
Qed.

Lemma land_63 y : 0 <= y < 64 -> Z.land (u64 y) 63 = y.
Proof.
  intros. rewrite wrapu_small by (unfold in_u; lia).
  change 63 with (Z.ones 6). rewrite Z.land_ones by lia. apply Z.mod_small. lia.
Qed.

Lemma neg_quot_pow2 n k : n < 0 -> 0 <= k -> (n + 2 ^ k - 1) / 2 ^ k = n ÷ 2 ^ k.
Proof.
  intros Hn Hk. assert (HP : 0 < 2 ^ k) by (apply Z.pow_pos_nonneg; lia).
  replace n with (- - n) at 2 by lia. rewrite Z.quot_opp_l, Z.quot_div_nonneg by lia.
  pose proof (Z.div_mod (- n) (2 ^ k) ltac:(lia)) as E.
  pose proof (Z.mod_pos_bound (- n) (2 ^ k) HP).
  symmetry. apply (Z.div_unique _ _ _ (2 ^ k - 1 - (- n) mod 2 ^ k)); lia.
Qed.

(** The bias added before the arithmetic shift: 2^k - 1 for a negative
    dividend, 0 otherwise. *)
Definition pow2_bias (k x : Z) : Z :=
  if k =? 1 then Z.shiftr x 63 else Z.shiftr (u64 (Z.shiftr (i64 x) 63)) (64 - k).

Lemma pow2_bias_value k x : in_u 64 x -> 1 <= k <= 62 ->
  pow2_bias k x = if x <? 2 ^ 63 then 0 else 2 ^ k - 1.
Proof.
  intros Hx Hk. unfold pow2_bias. destruct (i64_cases x Hx) as [[L ->]|[L ->]]; destruct Hx as [Hx1 Hx2].
  - destruct (Z.ltb_spec x (2 ^ 63)); [|lia].
    rewrite Z.shiftr_div_pow2, Z.div_small by lia. destruct (k =? 1); [done|].
    apply Z.shiftr_0_l.
  - destruct (Z.ltb_spec x (2 ^ 63)); [lia|].
    destruct (Z.eqb_spec k 1) as [->|].
    + rewrite Z.shiftr_div_pow2 by lia. symmetry. apply (Z.div_unique _ _ _ (x - 2 ^ 63)); lia.
    + rewrite (Z.shiftr_div_pow2 _ 63) by lia.
      rewrite <- (Z.div_unique (x - 2 ^ 64) (2 ^ 63) (-1) (x - 2 ^ 63)) by lia.
      rewrite (wrapu_unique 64 (-1) (2 ^ 64 - 1) (-1)) by (unfold in_u; lia).
      rewrite Z.shiftr_div_pow2 by lia.
      assert (E : 2 ^ 64 = 2 ^ k * 2 ^ (64 - k)) by (rewrite <- Z.pow_add_r by lia; f_equal; lia).
      pose proof (Z.pow_pos_nonneg 2 (64 - k)). symmetry.
      apply (Z.div_unique _ _ _ (2 ^ (64 - k) - 1)); lia.
Qed.

Lemma pow2_quotient_value k x : in_u 64 x -> 1 <= k <= 62 ->
  Z.shiftr (i64 (u64 (x + pow2_bias k x))) k = i64 x ÷ 2 ^ k.
Proof.
  intros Hx Hk. rewrite pow2_bias_value, wraps_wrapu, Z.shiftr_div_pow2 by lia || done.
  assert (HP : 0 < 2 ^ k) by (apply Z.pow_pos_nonneg; lia).
  assert (2 ^ k <= 2 ^ 62) by (apply Z.pow_le_mono_r; lia).
  destruct (i64_cases x Hx) as [[L E]|[L E]]; destruct (Z.ltb_spec x (2 ^ 63)); try lia.
  - rewrite Z.add_0_r, E, Z.quot_div_nonneg by (destruct Hx; lia). done.
  - rewrite E, <- neg_quot_pow2 by (destruct Hx; lia). f_equal.
    apply (wraps_unique 64 _ _ 1); [lia| |lia]. unfold in_s. destruct Hx. simpl. lia.
Qed.

(** High halves. *)
Lemma div_div_pow2 a s : 0 <= s -> a / 2 ^ 64 / 2 ^ s = a / 2 ^ (64 + s).
Proof. intros. rewrite Z.div_div, <- Z.pow_add_r by lia. done. Qed.

(** A product with the 65-bit multiplier, using only its low 64 bits. *)
Lemma unsigned_add_value M s x : in_u 64 M -> in_u 64 x -> 1 <= s ->
  Z.shiftr (u64 (Z.shiftr (u64 (x - M * x / 2 ^ 64)) 1 + M * x / 2 ^ 64)) (s - 1)
  = (M + 2 ^ 64) * x / 2 ^ (64 + s).
Proof.
  intros HM Hx Hs. set (t := M * x / 2 ^ 64).
  assert (Ht : 0 <= t <= x).
  { unfold in_u in *. split; [apply Z.div_pos; nia|apply Z.div_le_upper_bound; nia]. }
  rewrite (wrapu_small 64 (x - t)), !Z.shiftr_div_pow2 by (unfold in_u in *; lia).
  change (2 ^ 1) with 2.
  replace ((x - t) / 2 + t) with ((x + t) / 2)
    by (replace (x + t) with (x - t + t * 2) by lia; rewrite Z.div_add by lia; lia).
  rewrite wrapu_small.
  2: { unfold in_u in *. split; [apply Z.div_pos; lia|apply Z.div_lt_upper_bound; lia]. }
  assert (0 < 2 ^ (s - 1)) by (apply Z.pow_pos_nonneg; lia).
  rewrite Z.div_div, <- div_div_pow2 by lia.
  replace (2 * 2 ^ (s - 1)) with (2 ^ s) by (rewrite <- Z.pow_succ_r by lia; f_equal; lia).
  f_equal. unfold t. replace ((M + 2 ^ 64) * x) with (M * x + x * 2 ^ 64) by lia.
  rewrite Z.div_add by lia. lia.
Qed.

(** The signed product corrected by the dividend is the true high half. *)
Definition signed_fix (C M x h : Z) : Z :=
  if (C >? 0) && (M <? 0) then u64 (h + x)
  else if (C <? 0) && (M >? 0) then u64 (h - x) else h.

Lemma signed_fix_value C m x :
  C <> 0 -> 0 < m < 2 ^ 64 -> m <> 2 ^ 63 -> in_u 64 x ->
  let M := i64 (Z.sgn C * m) in
  signed_fix C M x (u64 (i64 x * M / 2 ^ 64)) = u64 (Z.sgn C * m * i64 x / 2 ^ 64).
Proof.
  intros HC Hm Hm63 Hx M.
  assert (HM : (M = Z.sgn C * m /\ (C > 0 -> M > 0) /\ (C < 0 -> M < 0)) \/
               (M = Z.sgn C * m - Z.sgn C * 2 ^ 64 /\ (C > 0 -> M < 0) /\ (C < 0 -> M > 0))).
  { destruct (Z.lt_ge_cases m (2 ^ 63)).
    - left. assert (M = Z.sgn C * m); [|nia].
      apply wraps_small; [lia|]. unfold in_s. simpl. nia.
    - right. assert (M = Z.sgn C * m - Z.sgn C * 2 ^ 64); [|nia].
      apply (wraps_unique 64 _ _ (Z.sgn C)); [lia| |lia]. unfold in_s. simpl. nia. }
  assert (Hx' : exists j, i64 x = x + j * 2 ^ 64).
  { destruct (i64_cases x Hx) as [[_ ->]|[_ ->]]; [by exists 0; lia|by exists (-1); lia]. }
  destruct Hx' as [j Ej]. unfold signed_fix.
  destruct HM as [(E & P1 & P2)|(E & P1 & P2)].
  - replace (_ && (M <? 0)) with false by lia. replace (_ && (M >? 0)) with false by lia.
    rewrite E. do 2 f_equal. lia.
  - replace (Z.sgn C * m * i64 x) with (i64 x * M + (Z.sgn C * i64 x) * 2 ^ 64) by (rewrite E; lia).
    rewrite Z.div_add by lia. destruct (Z.lt_gt_cases C 0) as [[L|L] _]; [done|..].
    + replace (_ && (M <? 0)) with false by lia. replace (_ && (M >? 0)) with true by lia.
      replace (Z.sgn C) with (-1) by lia. unfold wrapu. rewrite Zminus_mod_idemp_l, Ej.
      replace (_ + -1 * _) with (i64 x * M / 2 ^ 64 - x + (- j) * 2 ^ 64) by (rewrite Ej; lia).
      rewrite <- Ej. by rewrite Z_mod_plus_full.
    + replace (_ && (M <? 0)) with true by lia. replace (Z.sgn C) with 1 by lia.
      unfold wrapu. rewrite Zplus_mod_idemp_l, Ej.
      replace (_ + 1 * _) with (i64 x * M / 2 ^ 64 + x + j * 2 ^ 64) by (rewrite Ej; lia).
      rewrite <- Ej. by rewrite Z_mod_plus_full.
Qed.

(** The sign-bit addition that turns the floor into the truncated quotient. *)
Lemma signed_magic_value C M s m x :
  2 <= Z.abs C < 2 ^ 63 -> signed_magic C M s m -> in_u 64 x ->
  let h := signed_fix C M x (u64 (i64 x * M / 2 ^ 64)) in
  let q := if s >? 0 then u64 (Z.shiftr (i64 h) s) else h in
  u64 (q + Z.shiftr q 63) = u64 (i64 x ÷ C).
Proof.
  intros HC (Hs & Hm & Hm63 & -> & Hq) Hx h q.
  assert (Hn : in_s 64 (i64 x)) by (apply wraps_bound; lia).
  specialize (Hq (i64 x) Hn). destruct Hn as [Hn1 Hn2]. simpl in Hn1, Hn2.
  set (H := Z.sgn C * m * i64 x / 2 ^ 64) in *.
  assert (Eh : h = u64 H) by (apply signed_fix_value; lia || done).
  assert (HH : - 2 ^ 63 <= H < 2 ^ 63).
  { unfold H. split; [apply Z.div_le_lower_bound; nia|apply Z.div_lt_upper_bound; nia]. }
  set (q' := i64 x ÷ C - (if Z.sgn C * i64 x <? 0 then 1 else 0)) in *.
  assert (Eq : H / 2 ^ s = q') by (unfold H; rewrite div_div_pow2 by lia; exact Hq).
  assert (Hqu : q = u64 q').
  { unfold q. rewrite Eh. destruct (Z.gtb_spec s 0).
    - rewrite wraps_wrapu, wraps_small, Z.shiftr_div_pow2, Eq by (unfold in_s; simpl; lia). done.
    - assert (s = 0) as -> by lia. rewrite Z.pow_0_r, Z.div_1_r in Eq. by rewrite Eq. }
  assert (Hq' : - 2 ^ 63 <= q' < 2 ^ 63).
  { rewrite <- Eq. pose proof (Z.pow_pos_nonneg 2 s).
    split; [apply Z.div_le_lower_bound; nia|apply Z.div_lt_upper_bound; nia]. }
  rewrite Hqu. clear Hq Eq Hqu Eh. clearbody H. clear q h.
  rewrite Z.shiftr_div_pow2 by lia. unfold q' in *.
  rewrite (Z.quot_div (i64 x) C) in * by lia.
  pose proof (Z.div_pos (Z.abs (i64 x)) (Z.abs C) ltac:(lia) ltac:(lia)).
  destruct (Z.ltb_spec (Z.sgn C * i64 x) 0).
  - replace (Z.sgn (i64 x) * Z.sgn C) with (-1) in * by lia.
    set (k := Z.abs (i64 x) / Z.abs C) in *.
    rewrite (wrapu_unique 64 (-1 * k - 1) (2 ^ 64 - k - 1) (-1)) by (unfold in_u; lia).
    rewrite <- (Z.div_unique (2 ^ 64 - k - 1) (2 ^ 63) 1 (2 ^ 63 - k - 1)) by lia.
    replace (2 ^ 64 - k - 1 + 1) with (-1 * k + 1 * 2 ^ 64) by lia.
    unfold wrapu. apply Z_mod_plus_full.
  - assert (0 <= Z.sgn (i64 x) * Z.sgn C * (Z.abs (i64 x) / Z.abs C)) by nia.
    rewrite Z.sub_0_r in *. set (k := Z.sgn (i64 x) * Z.sgn C * _) in *. clearbody k.
    rewrite (wrapu_small 64 k), Z.div_small, Z.add_0_r by (unfold in_u; lia).
    by apply wrapu_small; unfold in_u; lia.
Qed.

(** ** Symbolic execution of emitters

    [swp m fn rf Q]: if [m] succeeds on [fn], the code it appends runs from
    the register file [rf] and [Q] holds of the function and the register
    file after it. *)
Definition swp (m : Emit) (fn : MirFunction) (rf : regs)
    (Q : MirFunction -> regs -> Prop) : Prop :=
  forall fn', m fn = Ret (true, fn') ->
    exists code, extends fn fn' code /\ exists rf', exec code rf = Some rf' /\ Q fn' rf'.

(** The next register number, for a function with room for it. *)
Definition next (fn : MirFunction) : Z := Z.of_nat (vreg_count fn).

Lemma swp_emit1 o d x y w uns c fn rf rf' (Q : MirFunction -> regs -> Prop) :
  exec1 (mkInst o d x y w false uns c (-1) AuxNull false false) rf = Some rf' ->
  (forall fn', next fn' = next fn -> iconsts fn' = iconsts fn -> Q fn' rf') ->
  swp (emit1 o d x y w uns c) fn rf Q.
Proof.
  intros He HQ fn' H. unfold emit1 in H. injection H as H.
  apply mir_emit_inv in H as [X V]. eexists; split; [exact X|].
  exists rf'. simpl. rewrite He. split; [done|]. apply HQ; [unfold next; lia|apply X].
Qed.

Lemma swp_eret fn rf (Q : MirFunction -> regs -> Prop) : Q fn rf -> swp (eret true) fn rf Q.
Proof.
  intros HQ fn' H. unfold eret in H. simplify_eq. exists []. split; [apply extends_refl|].
  by exists rf.
Qed.

Lemma swp_false fn rf (Q : MirFunction -> regs -> Prop) : swp (eret false) fn rf Q.
Proof. intros fn' H. unfold eret in H. simplify_eq. Qed.

Lemma swp_and m1 m2 fn rf Q :
  swp m1 fn rf (fun fn1 rf1 => swp m2 fn1 rf1 Q) -> swp (m1 &&& m2) fn rf Q.
Proof.
  intros H1 fn' H. unfold eand in H. apply obind_Ret in H as ([ok fn1] & E1 & H).
  destruct ok; [|done]. destruct (H1 fn1 E1) as (c1 & X1 & rf1 & R1 & H2).
  destruct (H2 fn' H) as (c2 & X2 & rf2 & R2 & HQ).
  exists (c1 ++ c2). split; [by eapply extends_trans|]. exists rf2.
  rewrite exec_app, R1. simpl. done.
Qed.

Lemma swp_new_vreg fn v fn1 (m : Emit) rf Q :
  mir_new_vreg MIR_RC_GP 8 fn = (v, fn1) -> v <> MIR_VREG_NONE -> next fn < 2 ^ 31 ->
  (v = next fn -> next fn1 = next fn + 1 -> iconsts fn1 = iconsts fn -> swp m fn1 rf Q) ->
  forall fn', m fn1 = Ret (true, fn') ->
    exists code, extends fn fn' code /\ exists rf', exec code rf = Some rf' /\ Q fn' rf'.
Proof.
  intros H Hv Hb HK fn' E. apply mir_new_vreg_inv in H as (-> & X & V); [|done].
  destruct (HK) with (fn' := fn') as (code & X2 & HQ); try done.
  - apply wraps_small; [lia|]. unfold in_s, next in *. simpl. lia.
  - unfold next. lia.
  - apply X.
  - exists code. split; [|done]. by apply (extends_trans fn fn1 fn' [] code).
Qed.

Lemma swp_with_vreg k fn rf Q :
  next fn < 2 ^ 31 ->
  (forall fn1, next fn1 = next fn + 1 -> iconsts fn1 = iconsts fn -> swp (k (next fn)) fn1 rf Q) ->
  swp (with_vreg k) fn rf Q.
Proof.
  intros Hb HK fn' H. unfold with_vreg in H.
  destruct (mir_new_vreg MIR_RC_GP 8 fn) as [v fn1] eqn:E.
  destruct (Z.eqb_spec v MIR_VREG_NONE); [done|].
  eapply (swp_new_vreg fn v fn1 (k v)); try done. intros -> Hn Hi. by apply HK.
Qed.

Lemma swp_weaken m fn rf (Q Q' : MirFunction -> regs -> Prop) :
  swp m fn rf Q -> (forall fn' rf', Q fn' rf' -> Q' fn' rf') -> swp m fn rf Q'.
Proof. intros H HQ fn' E. destruct (H fn' E) as (c & X & rf' & R & HR). eauto 10. Qed.

Lemma eval_vreg rf v : eval_operand rf (mir_op_vreg v) = Some (rf v).
Proof. done. Qed.
Lemma eval_imm rf x : eval_operand rf (mir_op_imm x) = Some (u64 x).
Proof. done. Qed.

Lemma swp_alu o q x y uns c fn rf vx vy r (Q : MirFunction -> regs -> Prop) :
  eval_operand rf x = Some vx -> eval_operand rf y = Some vy -> alu o uns vx vy = Some r ->
  (forall fn', next fn' = next fn -> iconsts fn' = iconsts fn -> Q fn' (upd rf q r)) ->
  swp (emit1 o (mir_op_vreg q) x y 8 uns c) fn rf Q.
Proof.
  intros Ex Ey Er. apply swp_emit1. unfold exec1. simpl. rewrite Ex, Ey. simpl.
  destruct o; simpl in Er; by simplify_eq.
Qed.

Lemma swp_mov q x y uns c fn rf vx (Q : MirFunction -> regs -> Prop) :
  eval_operand rf x = Some vx ->
  (forall fn', next fn' = next fn -> iconsts fn' = iconsts fn -> Q fn' (upd rf q vx)) ->
  swp (emit1 MIR_MOV (mir_op_vreg q) x y 8 uns c) fn rf Q.
Proof. intros Ex. apply swp_emit1. unfold exec1. simpl. by rewrite Ex. Qed.

Lemma swp_neg q x y uns c fn rf vx (Q : MirFunction -> regs -> Prop) :
  eval_operand rf x = Some vx ->
  (forall fn', next fn' = next fn -> iconsts fn' = iconsts fn -> Q fn' (upd rf q (u64 (- vx)))) ->
  swp (emit1 MIR_NEG (mir_op_vreg q) x y 8 uns c) fn rf Q.
Proof. intros Ex. apply swp_emit1. unfold exec1. simpl. by rewrite Ex. Qed.

(** One step of symbolic execution. *)
Ltac seval := first [apply eval_vreg | apply eval_imm | eassumption].
Ltac sstep :=
  lazymatch goal with
  | |- swp (fun fn => ?m fn) ?f ?rf ?Q => change (swp m f rf Q)
  | |- swp (_ &&& _) _ _ _ => apply swp_and
  | |- swp (emit1 MIR_MOV _ _ _ _ _ _) _ _ _ => eapply swp_mov; [seval|intros ? ? ?]
  | |- swp (emit1 MIR_NEG _ _ _ _ _ _) _ _ _ => eapply swp_neg; [seval|intros ? ? ?]
  | |- swp (emit1 _ _ _ _ _ _ _) _ _ _ =>
      eapply swp_alu; [seval|seval|reflexivity|intros ? ? ?]
  | |- swp (with_vreg _) _ _ _ => apply swp_with_vreg; [lia|intros ? ? ?]
  | |- swp (eret true) _ _ _ => apply swp_eret
  end.

(** Reads of a register file after a chain of updates. *)
Ltac reads :=
  repeat match goal with
         | |- context [upd ?rf ?v ?x ?v] => rewrite (upd_same rf v x)
         | |- context [upd ?rf ?v ?x ?w] => rewrite (upd_other rf v w x) by lia
         end.

(** The outcome of a quotient emitter: [q] holds [r], every older register
    but [q] is unchanged. *)
Definition computes (fn : MirFunction) (rf : regs) (q r : Z) (fn' : MirFunction) (rf' : regs) : Prop :=
  rf' q = r /\ (forall v, 0 <= v < next fn -> v <> q -> rf' v = rf v) /\
  next fn <= next fn' <= next fn + 3 /\ iconsts fn' = iconsts fn.

Lemma swp_two_vregs (k : Z -> Z -> Emit) fn rf Q :
  next fn + 1 < 2 ^ 31 ->
  (forall fn2, next fn2 = next fn + 2 -> iconsts fn2 = iconsts fn ->
     swp (k (next fn) (next fn + 1)) fn2 rf Q) ->
  swp (fun fn =>
    let (t1, fn) := mir_new_vreg MIR_RC_GP 8 fn in
    let (t2, fn) := mir_new_vreg MIR_RC_GP 8 fn in
    if (t1 =? MIR_VREG_NONE) || (t2 =? MIR_VREG_NONE) then Ret (false, fn) else k t1 t2 fn) fn rf Q.
Proof.
  intros Hb HK fn' H.
  destruct (mir_new_vreg MIR_RC_GP 8 fn) as [t1 fn1] eqn:N1.
  destruct (mir_new_vreg MIR_RC_GP 8 fn1) as [t2 fn2] eqn:N2.
  destruct (Z.eqb_spec t1 MIR_VREG_NONE); [done|].
  destruct (Z.eqb_spec t2 MIR_VREG_NONE); [done|]. cbn [orb] in H.
  apply mir_new_vreg_inv in N1 as (-> & X1 & V1), N2 as (-> & X2 & V2); try done.
  unfold next in *. rewrite !wraps_small in H by (unfold in_s; simpl; lia).
  replace (Z.of_nat (vreg_count fn1)) with (Z.of_nat (vreg_count fn) + 1) in H by lia.
  destruct (HK fn2) with (fn' := fn') as (c & X & R); try done; [lia|destruct X1 as (_ & _ & <-); apply X2|].
  exists c. split; [|done].
  eapply (extends_trans fn fn1 fn' [] c); [done|]. by apply (extends_trans fn1 fn2 fn' [] c).
Qed.

(** Immediate shift counts are already below 64. *)
Ltac counts :=
  repeat match goal with |- context [Z.land (u64 ?y) 63] => rewrite (land_63 y) by lia end.

Lemma u64_opp z : u64 (- u64 z) = u64 (- z).
Proof.
  unfold wrapu. rewrite <- (Z.sub_0_l (z mod _)), <- (Z.sub_0_l z). apply Zminus_mod_idemp_r.
Qed.

(** Closes [computes] once the value of the result register is shown. *)
Ltac framed := split; [reads|split; [by intros; reads|split; [lia|congruence]]].

Lemma pow2_signed_ok q va k C fn rf :
  in_u 64 (rf va) -> 1 <= k <= 62 -> Z.abs C = 2 ^ k ->
  0 <= q < next fn -> 0 <= va < next fn -> next fn + 3 < 2 ^ 31 ->
  swp (mir_emit_pow2_quotient_signed (mir_op_vreg q) (mir_op_vreg va) k C) fn rf
    (computes fn rf q (u64 (i64 (rf va) ÷ C))).
Proof.
  intros Hx Hk HC Hq Ha Hn. unfold mir_emit_pow2_quotient_signed.
  apply swp_two_vregs; [lia|]. intros fn2 Hn2 Hi2.
  pose proof (pow2_quotient_value k (rf va) Hx Hk) as HV. unfold pow2_bias in HV.
  assert (HC' : u64 (i64 (rf va) ÷ C) =
    if C >=? 0 then u64 (i64 (rf va) ÷ 2 ^ k) else u64 (- u64 (i64 (rf va) ÷ 2 ^ k))).
  { destruct (Z.geb_spec C 0); [by replace C with (2 ^ k) by lia|].
    replace C with (- 2 ^ k) by lia. rewrite Z.quot_opp_r, u64_opp by lia. done. }
  rewrite HC'. remember (64 - k) as k' eqn:Hk'. destruct (Z.eqb_spec k 1) as [->|Hk1]; destruct (C >=? 0);
    repeat sstep; framed; counts; by rewrite HV.
Qed.

(** A constant found in a register, or used as an immediate, has its value. *)
Definition iconsts_hold (fn : MirFunction) (rf : regs) : Prop :=
  forall value v, In (value, v) (iconsts fn) -> 0 <= v < next fn /\ rf v = u64 value.

Lemma iconst_find_in cs value :
  iconst_find cs value <> MIR_VREG_NONE -> In (value, iconst_find cs value) cs.
Proof.
  induction cs as [|[x v] cs IH]; simpl; [done|].
  destruct (Z.eqb_spec x value) as [->|]; [by left|]. intros; right; auto.
Qed.

Lemma eval_iconst fn rf value :
  iconsts_hold fn rf -> eval_operand rf (mir_iconst_operand fn value) = Some (u64 value).
Proof.
  intros H. unfold mir_iconst_operand, mir_iconst_lookup.
  destruct (Z.eqb_spec (iconst_find (iconsts fn) value) MIR_VREG_NONE) as [E|E]; simpl; [done|].
  apply iconst_find_in, H in E as [_ E]. unfold eval_operand. simpl. by rewrite E.
Qed.

Lemma swp_with_iconst value k fn rf Q :
  iconsts_hold fn rf ->
  (forall x, eval_operand rf x = Some (u64 value) -> swp (k x) fn rf Q) ->
  swp (with_iconst value k) fn rf Q.
Proof. intros Hi HK. apply (HK (mir_iconst_operand fn value)). by apply eval_iconst. Qed.

Lemma iconsts_hold_grow fn fn1 rf :
  iconsts_hold fn rf -> next fn <= next fn1 -> iconsts fn1 = iconsts fn -> iconsts_hold fn1 rf.
Proof. intros H Hn Hi value v. rewrite Hi. intros E. apply H in E. lia. Qed.

Lemma magic_unsigned_ok q va ad fn rf :
  in_u 64 (rf va) -> 2 <= ad < 2 ^ 64 -> iconsts_hold fn rf ->
  0 <= q < next fn -> 0 <= va < next fn -> next fn + 3 < 2 ^ 31 ->
  swp (mir_emit_magic_quotient_unsigned (mir_op_vreg q) (mir_op_vreg va) ad) fn rf
    (computes fn rf q (rf va / ad)).
Proof.
  intros Hx Had Hi Hq Ha Hn. unfold mir_emit_magic_quotient_unsigned.
  destruct (cg_magic_u64_ok ad Had) as (M & s & add & m & -> & Hs & Hm & HM & Hadd & S0 & S1 & Hval).
  cbn [obind]. sstep. apply swp_with_vreg; [lia|]. intros fn1 Hn1 Hi1.
  apply swp_with_iconst; [by eapply iconsts_hold_grow; [| |done]; [|lia]|]. intros Mop Ei.
  assert (HMb : in_u 64 M) by (rewrite HM; apply wrapu_bound; lia).
  rewrite wrapu_wraps, wrapu_small in Ei by (done || lia).
  specialize (Hval (rf va) Hx). destruct (Z.eqb_spec add 0) as [E|E].
  - repeat sstep. framed. counts. rewrite Z.shiftr_div_pow2, (Z.mul_comm (rf va)), div_div_pow2 by lia.
    rewrite <- Hval. do 2 f_equal. destruct (Z.leb_spec (2 ^ 64) m); [lia|].
    rewrite HM. apply wrapu_small. unfold in_u. lia.
  - assert (add = 1 /\ 2 ^ 64 <= m) as [-> Hm64] by (destruct (Z.leb_spec (2 ^ 64) m); lia).
    remember (s - 1) as s' eqn:Es.
    repeat sstep. framed. counts. rewrite (Z.mul_comm (rf va)), Es, unsigned_add_value by (done || lia).
    rewrite <- Hval. do 2 f_equal. rewrite HM, (wrapu_unique 64 m (m - 2 ^ 64) 1); unfold in_u; lia.
Qed.

Lemma magic_signed_ok q va C fn rf :
  in_u 64 (rf va) -> 2 <= Z.abs C < 2 ^ 63 -> iconsts_hold fn rf -> q <> va ->
  0 <= q < next fn -> 0 <= va < next fn -> next fn + 3 < 2 ^ 31 ->
  swp (mir_emit_magic_quotient_signed (mir_op_vreg q) (mir_op_vreg va) C) fn rf
    (computes fn rf q (u64 (i64 (rf va) ÷ C))).
Proof.
  intros Hx HC Hi Hne Hq Ha Hn. unfold mir_emit_magic_quotient_signed.
  destruct (cg_magic_s64_ok C HC) as (M & s & m & -> & Hm). cbn [obind]. sstep.
  apply swp_with_iconst; [done|]. intros Mop Ei.
  pose proof (signed_magic_value C M s m (rf va) HC Hm Hx) as HV. cbv zeta in HV.
  destruct Hm as (Hs & _ & _ & HM & _).
  assert (HMs : in_s 64 M) by (rewrite HM; apply wraps_bound; lia).
  assert (EM : i64 (u64 M) = M) by (rewrite wraps_wrapu, wraps_small; done || lia).
  unfold signed_fix in HV.
  destruct ((C >? 0) && (M <? 0)); [|destruct ((C <? 0) && (M >? 0))]; destruct (Z.gtb_spec s 0);
    repeat sstep; framed; counts; rewrite EM; done.
Qed.

Lemma divmod_shift_loop_ok fuel : forall j k,
  0 <= k -> k < Z.of_nat fuel -> divmod_shift_loop fuel (2 ^ k) j = j + k.
Proof.
  induction fuel as [|fuel IH]; intros j k Hk Hf; [lia|]. cbn [divmod_shift_loop].
  destruct (Z.eq_dec k 0) as [->|Hk0]; [simpl; lia|].
  pose proof (Z.pow_gt_1 2 k ltac:(lia)) as [P _]. specialize (P ltac:(lia)).
  replace (2 ^ k >? 1) with true by (symmetry; apply Z.gtb_lt; lia).
  rewrite Z.shiftr_div_pow2, <- Z.pow_sub_r, IH by lia. lia.
Qed.

Lemma mir_divmod_shift_for_pow2 k : 0 <= k < 64 -> mir_divmod_shift_for (2 ^ k) = k.
Proof. intros. unfold mir_divmod_shift_for. rewrite divmod_shift_loop_ok; lia. Qed.

(** The specification: C's division and remainder on 64-bit patterns. *)
Definition quotient (uns : bool) (x C : Z) : Z :=
  if uns then x / u64 C else u64 (i64 x ÷ C).
Definition remainder (uns : bool) (x C : Z) : Z :=
  if uns then x mod u64 C else u64 (Z.rem (i64 x) C).

(** The constants the quotient emitter is called with. *)
Definition quotient_constant (uns : bool) (C : Z) : Prop :=
  in_s 64 C /\ C <> 0 /\ C <> 1 /\ (uns = false -> C <> -1 /\ C <> - 2 ^ 63).

Lemma u64_constant uns C : quotient_constant uns C -> 2 <= u64 C < 2 ^ 64.
Proof.
  intros ([H1 H2] & H3 & H4 & _). simpl in H1, H2. destruct (Z.lt_ge_cases C 0).
  - rewrite (wrapu_unique 64 C (C + 2 ^ 64) (-1)); unfold in_u; lia.
  - rewrite wrapu_small; unfold in_u; lia.
Qed.

(** The magnitude test splits the constants into powers of two and the rest. *)
Lemma quotient_magnitude uns C :
  quotient_constant uns C ->
  exists ad, (if uns then Ret C else if C <? 0 then signed64 (- C) else Ret C) = Ret ad /\
    u64 ad = (if uns then u64 C else Z.abs C) /\ 2 <= u64 ad < 2 ^ 64 /\
    ((exists k, 1 <= k < 64 /\ u64 ad = 2 ^ k /\ (Z.land (u64 ad) (u64 (u64 ad - 1)) =? 0) = true) \/
     (Z.land (u64 ad) (u64 (u64 ad - 1)) =? 0) = false).
Proof.
  intros HC. pose proof (u64_constant uns C HC) as Hu.
  destruct HC as ([H1 H2] & H3 & H4 & H5). simpl in H1, H2.
  assert (exists ad, (if uns then Ret C else if C <? 0 then signed64 (- C) else Ret C) = Ret ad /\
    u64 ad = (if uns then u64 C else Z.abs C) /\ 2 <= u64 ad < 2 ^ 64) as (ad & E1 & E2 & Had).
  { destruct uns; [by exists C|]. destruct (H5 eq_refl) as [H6 H7]. exists (Z.abs C).
    rewrite wrapu_small by (unfold in_u; lia). split; [|lia].
    destruct (Z.ltb_spec C 0); [rewrite signed64_ok by (unfold in_s; simpl; lia)|]; f_equal; lia. }
  exists ad. split_and!; try done; try lia. set (y := u64 ad) in *. clearbody y.
  rewrite (wrapu_small 64 (y - 1)) by (unfold in_u; lia).
  destruct (Z.eqb_spec (Z.land y (y - 1)) 0) as [E|E]; [left|by right].
  pose proof (land_pred_zero_pow2 y ltac:(lia) E) as Ey. exists (Z.log2 y).
  assert (Z.log2 y < 64) by (apply Z.log2_lt_pow2; lia).
  pose proof (Z.log2_le_pow2 y 1 ltac:(lia)) as L. split_and!; [|lia|done|done].
  apply L. simpl. lia.
Qed.

Lemma quotient_ok q va C uns fn rf :
  in_u 64 (rf va) -> quotient_constant uns C -> iconsts_hold fn rf -> q <> va ->
  0 <= q < next fn -> 0 <= va < next fn -> next fn + 3 < 2 ^ 31 ->
  swp (mir_emit_quotient (mir_op_vreg q) (mir_op_vreg va) C uns) fn rf
    (computes fn rf q (quotient uns (rf va) C)).
Proof.
  intros Hx HC Hi Hne Hq Ha Hn. pose proof HC as ([H1 H2] & H3 & H4 & H5). simpl in H1, H2.
  unfold mir_emit_quotient, quotient.
  destruct (quotient_magnitude uns C HC) as (ad & -> & Ead & Had & Hp). cbn [obind].
  destruct Hp as [(k & Hk & Ek & ->)| ->]; cbn [andb].
  - rewrite Ek, mir_divmod_shift_for_pow2 by lia. destruct uns; sstep.
    + sstep. framed. counts. rewrite Z.shiftr_div_pow2, <- Ek, Ead by lia. done.
    + apply pow2_signed_ok; try done; [|lia]. split; [lia|].
      rewrite Ead in Ek. apply pow2_below_63; [lia|]. lia.
  - destruct uns; sstep.
    + rewrite <- Ead. by apply magic_unsigned_ok.
    + apply magic_signed_ok; try done. lia.
Qed.

Lemma times_constant_ok mv q C fn rf :
  0 <= mv < next fn -> 0 <= q < next fn -> next fn + 1 < 2 ^ 31 ->
  swp (mir_emit_times_constant (mir_op_vreg mv) (mir_op_vreg q) C) fn rf
    (fun fn' rf' => rf' mv = u64 (rf q * u64 C) /\
       forall v, 0 <= v < next fn -> v <> mv -> rf' v = rf v).
Proof.
  intros Hm Hq Hn. unfold mir_emit_times_constant. destruct (_ && _); repeat sstep;
    (split; [reads; done|by intros; reads]).
Qed.

(** The remainder from the quotient. *)
Lemma remainder_value uns x C : in_u 64 x -> quotient_constant uns C ->
  u64 (x - u64 (quotient uns x C * u64 C)) = remainder uns x C.
Proof.
  intros Hx HC. pose proof (u64_constant uns C HC) as Hu. unfold quotient, remainder.
  destruct HC as (_ & H3 & _). destruct uns.
  - pose proof (Z.div_mod x (u64 C) ltac:(lia)). pose proof (Z.mod_pos_bound x (u64 C) ltac:(lia)).
    unfold in_u in Hx. set (y := u64 C) in *. clearbody y.
    assert (0 <= y * (x / y)) by (pose proof (Z.div_pos x y); nia).
    rewrite (Z.mul_comm (x / y)), (wrapu_small 64 (y * _)), wrapu_small by (unfold in_u; lia). lia.
  - rewrite wrapu_mul, wrapu_sub_r by lia.
    replace (Z.rem (i64 x) C) with (i64 x - i64 x ÷ C * C)
      by (pose proof (Z.quot_rem (i64 x) C H3); lia).
    rewrite <- (wrapu_sub_l 64 x), <- (wrapu_sub_l 64 (i64 x)), (wrapu_wraps 64 x) by lia. done.
Qed.

Definition divmod (uns md : bool) (x C : Z) : Z :=
  if md then remainder uns x C else quotient uns x C.

Lemma quot_1_cases md x : in_u 64 x ->
  divmod true md x 1 = (if md then 0 else x) /\ divmod false md x 1 = (if md then 0 else x).
Proof.
  intros Hx. unfold divmod, remainder, quotient. rewrite (wrapu_small 64 1) by (unfold in_u; lia).
  rewrite Z.mod_1_r, Z.div_1_r, Z.rem_1_r, Z.quot_1_r, wrapu_wraps, (wrapu_small 64 x) by (lia || done).
  by destruct md.
Qed.

Lemma quot_m1_cases md x : in_u 64 x ->
  divmod false md x (-1) = (if md then 0 else u64 (- x)).
Proof.
  intros Hx. unfold divmod, remainder, quotient. destruct md.
  - change (-1) with (Z.opp 1). rewrite Z.rem_opp_r, Z.rem_1_r by lia. done.
  - change (-1) with (Z.opp 1). rewrite Z.quot_opp_r, Z.quot_1_r by lia.
    rewrite <- (u64_opp (i64 x)), wrapu_wraps, (wrapu_small 64 x) by (lia || done). done.
Qed.

Lemma divmod_in_reg_ok d va C uns md fn rf :
  in_u 64 (rf va) -> in_s 64 C -> C <> 0 -> (uns = false -> C <> - 2 ^ 63) -> iconsts_hold fn rf ->
  0 <= d < next fn -> 0 <= va < next fn -> next fn + 6 < 2 ^ 31 ->
  swp (divmod_in_reg (mir_op_vreg d) (mir_op_vreg va) C uns md) fn rf
    (fun _ rf' => rf' d = divmod uns md (rf va) C /\
       forall v, 0 <= v < next fn -> v <> d -> rf' v = rf v).
Proof.
  intros Hx HC H0 Hmin Hi Hd Ha Hn. unfold divmod_in_reg.
  destruct (Z.eqb_spec C 1) as [->|H1].
  { destruct (quot_1_cases md _ Hx) as [E1 E2]. destruct uns; rewrite ?E1, ?E2; destruct md; sstep;
      (split; [by reads|by intros; reads]). }
  destruct (negb uns && (C =? -1)) eqn:Em.
  { destruct uns; [done|]. simpl in Em. apply Z.eqb_eq in Em as ->.
    rewrite quot_m1_cases by done. destruct md; sstep; (split; [by reads|by intros; reads]). }
  assert (HQ : quotient_constant uns C).
  { split_and!; try done. intros ->. simpl in Em. apply Z.eqb_neq in Em. split; [done|auto]. }
  cbn [kind vreg mir_op_vreg]. rewrite !bool_decide_true by done.
  destruct md; cbn [andb negb].
  - sstep. sstep.
    eapply swp_weaken; [apply (quotient_ok (next fn) va); try done; try lia;
      apply (iconsts_hold_grow fn); (done || lia)|].
    intros fn2 rf2 (E & F & Hn2 & Hi2). unfold mir_emit_remainder. sstep. sstep.
    eapply swp_weaken; [apply (times_constant_ok (next fn2) (next fn)); lia|].
    intros fn4 rf4 (E4 & F4). sstep. split.
    + reads. rewrite E4, E, (F4 va), (F va) by lia. by rewrite remainder_value.
    + intros v Hv Hvd. reads. rewrite F4, F by lia. done.
  - destruct (Z.eqb_spec va d) as [->|Hne]; cbn [negb].
    + sstep. sstep.
      eapply swp_weaken; [apply (quotient_ok (next fn) d); try done; try lia;
        apply (iconsts_hold_grow fn); (done || lia)|].
      intros fn2 rf2 (E & F & Hn2 & Hi2). sstep. split; [by reads|].
      intros v Hv Hvd. reads. apply F; lia.
    + destruct (Z.eqb_spec d MIR_VREG_NONE) as [E|_]; [unfold MIR_VREG_NONE in E; lia|].
      sstep. eapply swp_weaken; [apply quotient_ok; try done; lia|].
      intros fn2 rf2 (E & F & Hn2 & Hi2). sstep. by split.
Qed.

Lemma exec_suffix fn fn' code rf :
  extends fn fn' code -> exec (drop (insn_count fn) (insns fn')) rf = exec code rf.
Proof.
  intros ((c & E & X) & _). rewrite E. unfold insn_count. rewrite drop_app_length. apply X.
Qed.

(** The dividend operand: a register of the function, or an immediate. *)
Definition dividend (fn : MirFunction) (x : MirOperand) : Prop :=
  (exists va, x = mir_op_vreg va /\ 0 <= va < next fn) \/ (exists i, x = mir_op_imm i).

(** ** Properties *)

(** C1: the instructions [mir_emit_const_divmod] appends compute C's 64-bit
    quotient or remainder, signed or unsigned, for every dividend and every
    constant (INT64_MIN excepted for a signed division), whichever of the
    shift, biased shift, multiply-high and add-back sequences was chosen, and
    leave every other register of the function unchanged. *)
Theorem mir_emit_const_divmod_correct d x C uns md fn fn' rf vx :
  in_s 64 C -> (uns = false -> C <> - 2 ^ 63) -> iconsts_hold fn rf ->
  0 <= d < next fn -> dividend fn x -> next fn + 7 < 2 ^ 31 ->
  eval_operand rf x = Some vx -> in_u 64 vx ->
  mir_emit_const_divmod (mir_op_vreg d) x C uns md fn = Ret (true, fn') ->
  exists rf', exec (drop (insn_count fn) (insns fn')) rf = Some rf' /\
    rf' d = divmod uns md vx C /\
    forall v, 0 <= v < next fn -> v <> d -> rf' v = rf v.
Proof.
  intros HC Hmin Hi Hd Hx Hn Ev Hvx H.
  enough (S : swp (mir_emit_const_divmod (mir_op_vreg d) x C uns md) fn rf
    (fun _ rf' => rf' d = divmod uns md vx C /\ forall v, 0 <= v < next fn -> v <> d -> rf' v = rf v)).
  { destruct (S fn' H) as (code & X & rf' & R & Q). exists rf'. by rewrite (exec_suffix _ _ code). }
  clear H. unfold mir_emit_const_divmod. destruct (Z.eqb_spec C 0) as [->|H0]; [apply swp_false|].
  unfold mir_divmod_value_in_reg. destruct Hx as [(va & -> & Hva)|(i & ->)].
  - rewrite bool_decide_true by done. unfold eval_operand in Ev. simpl in Ev. simplify_eq.
    apply divmod_in_reg_ok; done || lia.
  - rewrite bool_decide_false by done. unfold eval_operand in Ev. simpl in Ev. simplify_eq.
    sstep. sstep. sstep.
    eapply swp_weaken; [apply (divmod_in_reg_ok d (next fn)); reads; try done; try lia|].
    + intros value v Hv. assert (In (value, v) (iconsts fn)) as Hv' by congruence.
      apply Hi in Hv' as [Hv1 Hv2]. reads. split; [lia|done].
    + cbv beta. reads. intros _ rf' [E F]. split; [done|]. intros v Hv Hvd. rewrite F by lia. by reads.
Qed.

(** A function with two registers and no code yet. *)
Definition fn_two : MirFunction :=
  snd (mir_new_vreg MIR_RC_GP 8 (snd (mir_new_vreg MIR_RC_GP 8 (mir_function_init heap_unlimited)))).

Definition fn_two_rem : MirFunction :=
  match mir_emit_const_divmod (mir_op_vreg 1) (mir_op_vreg 0) (-7) false true fn_two with
  | Ret (_, fn') => fn'
  | _ => fn_two
  end.

Lemma mir_emit_const_divmod_correct_witness :
  exists rf', exec (drop 0 (insns fn_two_rem)) (fun _ => u64 (-100)) = Some rf' /\ rf' 1 = u64 (-2).
Proof.
  destruct (mir_emit_const_divmod_correct 1 (mir_op_vreg 0) (-7) false true fn_two fn_two_rem
              (fun _ => u64 (-100)) (u64 (-100))) as (rf' & R & E & _).
  - unfold in_s. simpl. lia.
  - intros _. lia.
  - intros ? ? [].
  - split; [lia|]. vm_compute. reflexivity.
  - left. exists 0. split; [reflexivity|]. split; [lia|]. vm_compute. reflexivity.
  - vm_compute. reflexivity.
  - reflexivity.
  - apply wrapu_bound. lia.
  - vm_compute. reflexivity.
  - exists rf'. split; [exact R|]. rewrite E. vm_compute. reflexivity.
Defined.

(** ** Emission succeeds while memory lasts *)

(** Registers numbered below [b], and an allocator that never fails. *)
Definition roomy (b : Z) (fn : MirFunction) : Prop :=
  (forall i, heap_grants (fn_heap fn) i = true) /\ next fn <= b.

Definition sure (b b' : Z) (m : Emit) : Prop :=
  forall fn, roomy b fn -> exists fn', m fn = Ret (true, fn') /\ roomy b' fn'.

Lemma sure_emit1 b o d x y w uns c : sure b b (emit1 o d x y w uns c).
Proof.
  intros fn [Hg Hb]. unfold emit1, mir_emit1, mir_emit, fn_alloc, alloc. rewrite Hg.
  destruct (_ <=? _)%nat; (eexists; split; [reflexivity|]); by split.
Qed.

Lemma sure_eret b : sure b b (eret true).
Proof. intros fn H. by exists fn. Qed.

Lemma sure_and b1 b2 b3 m1 m2 : sure b1 b2 m1 -> sure b2 b3 m2 -> sure b1 b3 (m1 &&& m2).
Proof.
  intros H1 H2 fn H. unfold eand. destruct (H1 fn H) as (fn1 & -> & R1). cbn [obind]. by apply H2.
Qed.

Lemma new_vreg_roomy b fn : roomy b fn -> b < 2 ^ 31 ->
  exists fn1, mir_new_vreg MIR_RC_GP 8 fn = (next fn, fn1) /\ roomy (b + 1) fn1.
Proof.
  intros [Hg Hb] Hlt. unfold mir_new_vreg, fn_alloc, alloc. rewrite Hg.
  assert (E : i32 (Z.of_nat (vreg_count fn)) = next fn)
    by (apply wraps_small; [lia|unfold in_s, next in *; simpl; lia]).
  assert (R : forall c h, roomy (b + 1) (set_vregs (vregs fn ++
    [fresh_vreg MIR_RC_GP 8]) c (set_heap (mkHeap (heap_grants (fn_heap fn)) h) fn))).
  { intros c h. split; [done|]. unfold next, vreg_count in *. simpl. rewrite length_app. simpl. lia. }
  destruct (_ <=? _)%nat.
  - eexists. split; [simpl; by rewrite <- E|]. apply R.
  - eexists. split; [simpl; by rewrite <- E|]. split; [done|]. apply (R 0%nat 0%nat).
Qed.

Lemma next_not_none fn : (next fn =? MIR_VREG_NONE) = false.
Proof. apply Z.eqb_neq. unfold next, MIR_VREG_NONE. lia. Qed.

Lemma sure_with_vreg b b' k :
  b < 2 ^ 31 -> (forall v, sure (b + 1) b' (k v)) -> sure b b' (with_vreg k).
Proof.
  intros Hlt HK fn H. unfold with_vreg. destruct (new_vreg_roomy b fn H Hlt) as (fn1 & -> & R).
  rewrite next_not_none. by apply HK.
Qed.

Lemma sure_with_iconst b b' value k : (forall x, sure b b' (k x)) -> sure b b' (with_iconst value k).
Proof. intros HK fn H. by apply HK. Qed.

Lemma sure_weaken b b1 b2 m : sure b b1 m -> b1 <= b2 -> sure b b2 m.
Proof. intros H Hb fn Hr. destruct (H fn Hr) as (fn' & E & [G L]). exists fn'. repeat split; [done..|lia]. Qed.

Create HintDb emission.
#[local] Hint Resolve sure_emit1 sure_eret : emission.

Lemma sure_pow2 b Q A k C :
  b + 3 < 2 ^ 31 -> sure b (b + 3) (mir_emit_pow2_quotient_signed Q A k C).
Proof.
  intros Hb fn Hr. unfold mir_emit_pow2_quotient_signed.
  destruct (new_vreg_roomy b fn Hr ltac:(lia)) as (fn1 & -> & R1).
  destruct (new_vreg_roomy (b + 1) fn1 R1 ltac:(lia)) as (fn2 & -> & R2).
  rewrite !next_not_none. cbn [orb].
  eapply (sure_weaken (b + 1 + 1) (b + 1 + 1)); [|lia|exact R2].
  repeat eapply sure_and; auto with emission; destruct (_ =? _) || destruct (_ >=? _);
    repeat eapply sure_and; auto with emission.
Qed.

Lemma sure_unsigned b Q A ad :
  b + 3 < 2 ^ 31 -> 2 <= ad < 2 ^ 64 -> sure b (b + 3) (mir_emit_magic_quotient_unsigned Q A ad).
Proof.
  intros Hb Had. destruct (cg_magic_u64_ok ad Had) as (M & s & add & m & E & _).
  unfold mir_emit_magic_quotient_unsigned. rewrite E. cbn [obind].
  apply sure_with_vreg; [lia|]. intros v. apply sure_with_iconst. intros x.
  eapply sure_and; [apply sure_emit1|]. destruct (add =? 0).
  - eapply sure_weaken; [apply sure_emit1|lia].
  - apply sure_with_vreg; [lia|]. intros v2.
    apply (sure_weaken _ (b + 1 + 1)); [|lia]. repeat eapply sure_and; auto with emission.
Qed.

Lemma sure_signed b Q A C :
  b + 3 < 2 ^ 31 -> 2 <= Z.abs C < 2 ^ 63 -> sure b (b + 3) (mir_emit_magic_quotient_signed Q A C).
Proof.
  intros Hb HC. destruct (cg_magic_s64_ok C HC) as (M & s & m & E & _).
  unfold mir_emit_magic_quotient_signed. rewrite E. cbn [obind].
  apply sure_with_iconst. intros x. eapply (sure_and _ b).
  - repeat eapply sure_and; auto with emission; repeat case_match; auto with emission.
  - apply sure_with_vreg; [lia|]. intros v.
    apply (sure_weaken _ (b + 1)); [|lia]. repeat eapply sure_and; auto with emission.
Qed.

Lemma sure_quotient b Q A C uns :
  b + 3 < 2 ^ 31 -> quotient_constant uns C -> sure b (b + 3) (mir_emit_quotient Q A C uns).
Proof.
  intros Hb HC fn Hr. pose proof HC as ([H1 H2] & H3 & H4 & H5). simpl in H1, H2.
  unfold mir_emit_quotient.
  destruct (quotient_magnitude uns C HC) as (ad & -> & Ead & Had & _). cbn [obind].
  destruct (_ && _); [|destruct (_ =? 0); [|destruct uns]].
  - by apply (sure_weaken b b); [apply sure_emit1|lia|].
  - by apply sure_pow2.
  - by apply sure_unsigned.
  - apply sure_signed; [lia| |done]. destruct (H5 eq_refl). lia.
Qed.

Lemma sure_remainder b d A Q C : b + 2 < 2 ^ 31 -> sure b (b + 2) (mir_emit_remainder d A Q C).
Proof.
  intros Hb. apply sure_with_vreg; [lia|]. intros v.
  eapply (sure_and _ (b + 2)); [|apply sure_emit1].
  unfold mir_emit_times_constant. destruct (_ && _).
  - eapply sure_weaken; [apply sure_emit1|lia].
  - apply sure_with_vreg; [lia|]. intros v2. apply (sure_weaken _ (b + 1 + 1)); [|lia].
    repeat eapply sure_and; auto with emission.
Qed.

Lemma sure_divmod_in_reg b d A C uns md :
  b + 6 < 2 ^ 31 -> in_s 64 C -> C <> 0 -> (uns = false -> C <> - 2 ^ 63) ->
  vreg d <> MIR_VREG_NONE -> sure b (b + 6) (divmod_in_reg d A C uns md).
Proof.
  intros Hb HC H0 Hmin Hd. unfold divmod_in_reg.
  destruct (Z.eqb_spec C 1) as [->|H1]; [eapply sure_weaken; [apply sure_emit1|lia]|].
  destruct (negb uns && (C =? -1)) eqn:Em.
  { destruct md; (eapply sure_weaken; [apply sure_emit1|lia]). }
  assert (HQ : quotient_constant uns C).
  { split_and!; try done. intros ->. simpl in Em. apply Z.eqb_neq in Em. split; [done|auto]. }
  destruct (negb md && _ && _).
  - rewrite (proj2 (Z.eqb_neq _ _) Hd). eapply (sure_and _ (b + 3)); [apply sure_quotient; lia || done|].
    destruct md; [eapply sure_weaken; [apply sure_remainder|]; lia|eapply sure_weaken; [apply sure_eret|lia]].
  - apply sure_with_vreg; [lia|]. intros v.
    eapply (sure_and _ (b + 1 + 3)); [apply sure_quotient; lia || done|].
    destruct md; [eapply sure_weaken; [apply sure_remainder|]; lia|eapply sure_weaken; [apply sure_emit1|lia]].
Qed.

(** C2: with memory available, [mir_emit_const_divmod] accepts every non-zero
    constant, and a signed division by INT64_MIN is the one constant on which
    the compiler itself computes an undefined negation. *)
Theorem mir_emit_const_divmod_total d va C uns md fn :
  in_s 64 C -> C <> 0 -> 0 <= d < next fn -> next fn + 7 < 2 ^ 31 ->
  (forall i, heap_grants (fn_heap fn) i = true) ->
  if negb uns && (C =? - 2 ^ 63)
  then mir_emit_const_divmod (mir_op_vreg d) (mir_op_vreg va) C uns md fn = Undef
  else exists fn', mir_emit_const_divmod (mir_op_vreg d) (mir_op_vreg va) C uns md fn = Ret (true, fn').
Proof.
  intros HC H0 Hd Hn Hg. unfold mir_emit_const_divmod, mir_divmod_value_in_reg.
  rewrite (proj2 (Z.eqb_neq C 0) H0), bool_decide_true by done.
  destruct (negb uns && (C =? - 2 ^ 63)) eqn:Em.
  - destruct uns; [done|]. apply Z.eqb_eq in Em as ->.
    unfold divmod_in_reg. simpl (- 2 ^ 63 =? 1). simpl (negb false && _).
    destruct (negb md && _ && _).
    + rewrite (proj2 (Z.eqb_neq _ _)); [reflexivity|unfold MIR_VREG_NONE; simpl; lia].
    + unfold with_vreg. destruct (new_vreg_roomy (next fn) fn) as (fn1 & -> & _); [by split|lia|].
      rewrite next_not_none. reflexivity.
  - destruct (sure_divmod_in_reg (next fn) (mir_op_vreg d) (mir_op_vreg va) C uns md) with (fn := fn)
      as (fn' & E & _); try done; try lia; [|unfold MIR_VREG_NONE; simpl; lia|by exists fn'].
    intros -> ->. done.
Qed.

Lemma mir_emit_const_divmod_total_witness :
  mir_emit_const_divmod (mir_op_vreg 1) (mir_op_vreg 0) (- 2 ^ 63) false false fn_two = Undef.
Proof.
  apply (mir_emit_const_divmod_total 1 0 (- 2 ^ 63) false false fn_two).
  - unfold in_s. simpl. lia.
  - lia.
  - split; [lia|]. vm_compute. reflexivity.
  - vm_compute. reflexivity.
  - reflexivity.
Defined.

End DivLower.
