(* ===== verification/HalfFloat.v ===== *)
(** Half-precision conversions: src/src/common.c, lines 137 to 361.

    The constant folder and the code generators store [float16] and
    [bfloat16] literals as raw bits computed by these functions.  Values are
    bit patterns, as in the code; a finite magnitude is the integer it is of
    the smallest subnormal of its format, so every statement is about
    integers.  The theorems show that the narrowing conversions round to
    nearest with ties to even, that widening is exact, that widening and
    narrowing is the identity, and that the exactness tests decide
    representability. *)
From S2P Require Import Prelude.

Module HalfFloat.

(** * Binary interchange formats

    The magnitude bits [n] of a format with [p] fraction bits stand for
    [mag p n] units of its smallest subnormal.  The successor of the largest
    finite pattern is the infinity, and [mag] gives it the value the next
    power of two would have, as IEEE rounding does. *)
Definition mag (p n : Z) : Z :=
  if n <? 2 ^ p then n else (2 ^ p + n mod 2 ^ p) * 2 ^ (n / 2 ^ p - 1).

(** The pattern of the largest magnitude not above [q] units. *)
Definition trunc_index (p q : Z) : Z :=
  let e := Z.max 0 (Z.log2 q - p) in e * 2 ^ p + q / 2 ^ e.

(** Rounding [v] to nearest even, the units of the target being [unit]. *)
Definition rne (p unit v : Z) : Z :=
  let n := trunc_index p (v / unit) in
  let twice := 2 * v in
  let mid := (mag p n + mag p (n + 1)) * unit in
  if (mid <? twice) || ((twice =? mid) && Z.odd n) then n + 1 else n.

(** Conversions of the language between [double] and [float], on their bits.
    A NaN stays a NaN: it is quietened and keeps its leading payload bits. *)
Definition f64_to_f32 (u : Z) : Z :=
  let s := Z.shiftr u 63 in
  let n := Z.land u (2 ^ 63 - 1) in
  if 0x7FF0000000000000 <? n then
    s * 2 ^ 31 + Z.lor 0x7FC00000 (Z.shiftr (Z.land n (2 ^ 52 - 1)) 29)
  else if n =? 0x7FF0000000000000 then s * 2 ^ 31 + 0x7F800000
  else s * 2 ^ 31 + Z.min 0x7F800000 (rne 23 (2 ^ 925) (mag 52 n)).

Definition f32_to_f64 (u : Z) : Z :=
  let s := Z.shiftr u 31 in
  let n := Z.land u (2 ^ 31 - 1) in
  if 0x7F800000 <? n then
    s * 2 ^ 63 + Z.lor 0x7FF8000000000000 (Z.shiftl (Z.land n (2 ^ 23 - 1)) 29)
  else if n =? 0x7F800000 then s * 2 ^ 63 + 0x7FF0000000000000
  else s * 2 ^ 63 + rne 52 1 (mag 23 n * 2 ^ 925).

(** [a == b] on floating values: a NaN differs from everything, the zeros
    are equal, and any two other patterns are different values. *)
Definition float_eqb (w p : Z) (a b : Z) : bool :=
  let n x := Z.land x (2 ^ (w - 1) - 1) in
  let inf := (2 ^ (w - 1 - p) - 1) * 2 ^ p in
  negb (inf <? n a) && negb (inf <? n b) &&
  ((a =? b) || ((n a =? 0) && (n b =? 0))).

(** * The code *)

(** [while ((m & 0x400) == 0) { m <<= 1; e -= 1; }]: a non-zero ten-bit
    mantissa needs at most ten rounds. *)
Fixpoint f16_normalize (fuel : nat) (m e : Z) : outcome (Z * Z) :=
  match fuel with
  | O => NoFuel
  | S fuel =>
      if Z.land m 0x400 =? 0 then f16_normalize fuel (u32 (Z.shiftl m 1)) (i32 (e - 1))
      else Ret (m, e)
  end.

Definition mettle_f16bits_to_f32bits (h : Z) : outcome Z :=
  let sign := u32 (Z.shiftl (Z.land h 0x8000) 16) in
  let exp := Z.land (Z.shiftr h 10) 0x1F in
  let mant := Z.land h 0x3FF in
  if exp =? 0 then
    if mant =? 0 then Ret sign
    else
      let! (m, e) := f16_normalize 11 mant (-14) in
      let m := Z.land m 0x3FF in
      Ret (Z.lor (Z.lor sign (u32 (Z.shiftl (u32 (e + 127)) 23))) (u32 (Z.shiftl m 13)))
  else if exp =? 31 then
    if mant =? 0 then Ret (Z.lor sign 0x7F800000)
    else Ret (Z.lor (Z.lor sign 0x7FC00000) (u32 (Z.shiftl mant 13)))
  else
    Ret (Z.lor (Z.lor sign (u32 (Z.shiftl (u32 (exp + 112)) 23))) (u32 (Z.shiftl mant 13))).

Definition mettle_f32bits_to_f16bits (u : Z) : Z :=
  let sign := Z.land (Z.shiftr u 16) 0x8000 in
  let exp := Z.land (Z.shiftr u 23) 0xFF in
  let mant := Z.land u 0x7FFFFF in
  if exp =? 255 then
    if mant =? 0 then u16 (Z.lor sign 0x7C00)
    else u16 (Z.lor (Z.lor sign 0x7E00) (Z.land (Z.shiftr mant 13) 0x01FF))
  else if exp =? 0 then u16 sign
  else
    let half_exp := exp - 112 in
    if 31 <=? half_exp then u16 (Z.lor sign 0x7C00)
    else if half_exp <=? 0 then
      if half_exp <? -10 then u16 sign
      else
        let full := Z.lor mant 0x800000 in
        let shift := 14 - half_exp in
        let keep := Z.shiftr full shift in
        let mask := if 32 <=? shift then 0xFFFFFFFF else u32 (u32 (Z.shiftl 1 shift) - 1) in
        let dropped := Z.land full mask in
        let half := u32 (Z.shiftl 1 (shift - 1)) in
        let keep := if (half <? dropped) || ((dropped =? half) && negb (Z.land keep 1 =? 0))
                    then u32 (keep + 1) else keep in
        if 1024 <=? keep then u16 (Z.lor sign 0x0400) else u16 (Z.lor sign keep)
    else
      let dropped := Z.land mant 0x1FFF in
      let keep := Z.shiftr mant 13 in
      let half := 0x1000 in
      if (half <? dropped) || ((dropped =? half) && negb (Z.land keep 1 =? 0)) then
        let keep := u32 (keep + 1) in
        if 1024 <=? keep then
          let keep := 0 in
          let half_exp := half_exp + 1 in
          if 31 <=? half_exp then u16 (Z.lor sign 0x7C00)
          else u16 (Z.lor (Z.lor sign (u32 (Z.shiftl (u32 half_exp) 10))) keep)
        else u16 (Z.lor (Z.lor sign (u32 (Z.shiftl (u32 half_exp) 10))) keep)
      else u16 (Z.lor (Z.lor sign (u32 (Z.shiftl (u32 half_exp) 10))) keep).

Definition mettle_bf16bits_to_f32bits (h : Z) : Z := u32 (Z.shiftl h 16).

Definition mettle_f32bits_to_bf16bits (u : Z) : Z :=
  let exp := Z.land (Z.shiftr u 23) 0xFF in
  let mant := Z.land u 0x7FFFFF in
  if exp =? 255 then
    if mant =? 0 then u16 (Z.shiftr u 16)
    else u16 (Z.lor (Z.lor (Z.land (Z.shiftr u 16) 0xFF80) 0x0040)
                    (Z.land (Z.shiftr u 16) 0x8000))
  else
    let bias := u32 (0x7FFF + Z.land (Z.shiftr u 16) 1) in
    u16 (Z.shiftr (u32 (u + bias)) 16).

(** The variants on [float]: its bits are copied to and from an integer. *)
Definition mettle_f16bits_to_f32 (h : Z) : outcome Z := mettle_f16bits_to_f32bits h.
Definition mettle_f32_to_f16bits (f : Z) : Z := mettle_f32bits_to_f16bits f.
Definition mettle_bf16bits_to_f32 (h : Z) : Z := mettle_bf16bits_to_f32bits h.
Definition mettle_f32_to_bf16bits (f : Z) : Z := mettle_f32bits_to_bf16bits f.

Definition mettle_f64bits_to_f16bits (u : Z) : Z :=
  mettle_f32bits_to_f16bits (f64_to_f32 u).

Definition mettle_f64bits_to_bf16bits (u : Z) : Z :=
  mettle_f32bits_to_bf16bits (f64_to_f32 u).

Definition mettle_f64_is_exact_f16 (d : Z) : outcome bool :=
  if Z.land d 0x7FF0000000000000 =? 0x7FF0000000000000 then Ret false
  else
    let h := mettle_f64bits_to_f16bits d in
    let! back32 := mettle_f16bits_to_f32bits h in
    let back := f32_to_f64 back32 in
    if negb (Z.land d 0x8000000000000000 =? Z.land back 0x8000000000000000) then Ret false
    else Ret (float_eqb 64 52 back d).

Definition mettle_f64_is_exact_bf16 (d : Z) : bool :=
  if Z.land d 0x7FF0000000000000 =? 0x7FF0000000000000 then false
  else
    let h := mettle_f64bits_to_bf16bits d in
    let back32 := mettle_bf16bits_to_f32bits h in
    float_eqb 64 52 (f32_to_f64 back32) d.

Definition mettle_f32_is_exact_f16 (f : Z) : outcome bool :=
  if Z.land f 0x7F800000 =? 0x7F800000 then Ret false
  else
    let h := mettle_f32bits_to_f16bits f in
    let! back := mettle_f16bits_to_f32bits h in
    Ret (float_eqb 32 23 back f).

Definition mettle_f32_is_exact_bf16 (f : Z) : bool :=
  if Z.land f 0x7F800000 =? 0x7F800000 then false
  else
    let h := mettle_f32bits_to_bf16bits f in
    float_eqb 32 23 (mettle_bf16bits_to_f32bits h) f.

(** * Magnitudes and rounding *)

(** [n] is the pattern nearest to [v]; a tie goes to the even pattern. *)
Definition nearest_even (p unit v n : Z) : Prop :=
  0 <= n /\
  forall m, 0 <= m -> m <> n ->
    Z.abs (mag p n * unit - v) < Z.abs (mag p m * unit - v) \/
    (Z.abs (mag p n * unit - v) = Z.abs (mag p m * unit - v) /\ Z.Even n).

Definition ulp (p n : Z) : Z := 2 ^ Z.max 0 (n / 2 ^ p - 1).

Lemma ulp_pos p n : 0 < ulp p n.
Proof. apply Z.pow_pos_nonneg; lia. Qed.

Lemma mag_low p n : n < 2 ^ p -> mag p n = n.
Proof. intros. unfold mag. by rewrite (proj2 (Z.ltb_lt _ _)). Qed.

Lemma mag_fields p e m :
  0 <= p -> 0 < e -> 0 <= m < 2 ^ p -> mag p (e * 2 ^ p + m) = (2 ^ p + m) * 2 ^ (e - 1).
Proof.
  intros Hp He Hm. unfold mag. rewrite (proj2 (Z.ltb_ge _ _)) by nia.
  assert (0 < 2 ^ p) by (apply Z.pow_pos_nonneg; lia).
  replace ((e * 2 ^ p + m) / 2 ^ p) with e
    by (rewrite Z.div_add_l, Z.div_small by lia; lia).
  by rewrite (Z.add_comm (e * 2 ^ p) m), Z_mod_plus_full, Z.mod_small.
Qed.

Lemma ulp_fields p e m : 0 <= p -> 0 < e -> 0 <= m < 2 ^ p -> ulp p (e * 2 ^ p + m) = 2 ^ (e - 1).
Proof.
  intros Hp He Hm. unfold ulp.
  rewrite Z.div_add_l, Z.div_small, Z.add_0_r by lia. f_equal. lia.
Qed.

Lemma ulp_low p n : 0 <= p -> 0 <= n < 2 ^ p -> ulp p n = 1.
Proof. intros. unfold ulp. rewrite Z.div_small by done. done. Qed.

Lemma mag_succ p n : 0 <= p -> 0 <= n -> mag p (n + 1) = mag p n + ulp p n.
Proof.
  intros Hp Hn. assert (0 < 2 ^ p) by (apply Z.pow_pos_nonneg; lia).
  pose proof (Z.div_mod n (2 ^ p)) as Hd. pose proof (Z.mod_pos_bound n (2 ^ p)) as Hm.
  pose proof (Z.div_pos n (2 ^ p)).
  set (e := n / 2 ^ p) in *. set (m := n mod 2 ^ p) in *.
  replace n with (e * 2 ^ p + m) by lia.
  destruct (Z.eq_dec e 0) as [->|He].
  - rewrite Z.mul_0_l, !Z.add_0_l, ulp_low, (mag_low p m) by lia.
    destruct (Z.eq_dec (m + 1) (2 ^ p)) as [E|]; [|by rewrite mag_low by lia].
    rewrite E. replace (2 ^ p) with (1 * 2 ^ p + 0) by lia.
    rewrite mag_fields by lia. simpl. lia.
  - rewrite ulp_fields, mag_fields by lia.
    destruct (Z.eq_dec (m + 1) (2 ^ p)) as [E|].
    + replace (e * 2 ^ p + m + 1) with ((e + 1) * 2 ^ p + 0) by lia.
      rewrite mag_fields by lia.
      replace (e + 1 - 1) with (Z.succ (e - 1)) by lia. rewrite Z.pow_succ_r by lia. nia.
    + replace (e * 2 ^ p + m + 1) with (e * 2 ^ p + (m + 1)) by lia.
      rewrite mag_fields by lia. lia.
Qed.

Lemma mag_lt p n m : 0 <= p -> 0 <= n < m -> mag p n < mag p m.
Proof.
  intros Hp [Hn Hm]. replace m with (n + (m - n)) by lia.
  assert (1 <= m - n) as Hd by lia. revert Hd. generalize (m - n). clear Hm m.
  apply Zlt_lower_bound_ind. intros d IH Hd.
  destruct (Z.eq_dec d 1) as [->|].
  - rewrite mag_succ by lia. pose proof (ulp_pos p n). lia.
  - specialize (IH (d - 1)). replace (n + d) with (n + (d - 1) + 1) by lia.
    rewrite mag_succ by lia. pose proof (ulp_pos p (n + (d - 1))). lia.
Qed.

Lemma mag_le p n m : 0 <= p -> 0 <= n <= m -> mag p n <= mag p m.
Proof.
  intros Hp Hn. destruct (Z.eq_dec n m) as [->|]; [done|].
  pose proof (mag_lt p n m). lia.
Qed.

Lemma mag_inj p n m : 0 <= p -> 0 <= n -> 0 <= m -> mag p n = mag p m -> n = m.
Proof.
  intros Hp Hn Hm E. destruct (Z.lt_trichotomy n m) as [|[|]]; [|done|];
    [pose proof (mag_lt p n m)|pose proof (mag_lt p m n)]; lia.
Qed.

(** Rounding inside the interval from a pattern to its successor, measured
    in [w = 2 * half] steps of [P]. *)
Lemma round_nearest p unit v N half P d :
  0 <= p -> 0 < unit -> 0 <= N -> 0 < P ->
  ulp p N * unit = 2 * half * P -> v = mag p N * unit + d * P -> 0 <= d < 2 * half ->
  nearest_even p unit v (if (half <? d) || ((d =? half) && Z.odd N) then N + 1 else N).
Proof.
  intros Hp Hu HN HP Hw -> Hd.
  assert (forall m, 0 <= m -> m <= N -> mag p m * unit <= mag p N * unit) as Hlo.
  { intros m Hm1 Hm2. apply Z.mul_le_mono_nonneg_r; [lia|]. apply mag_le; lia. }
  assert (forall m, N + 1 <= m -> mag p N * unit + 2 * half * P <= mag p m * unit) as Hhi.
  { intros m Hm. transitivity (mag p (N + 1) * unit); [rewrite mag_succ; lia|].
    apply Z.mul_le_mono_nonneg_r; [lia|]. apply mag_le; lia. }
  assert (forall m, 0 <= m < N -> mag p m * unit < mag p N * unit) as Hlo'.
  { intros m Hm. apply Z.mul_lt_mono_pos_r; [lia|]. apply mag_lt; lia. }
  assert (forall m, N + 1 < m -> mag p N * unit + 2 * half * P < mag p m * unit) as Hhi'.
  { intros m Hm. apply Z.le_lt_trans with (mag p (N + 1) * unit); [rewrite mag_succ; lia|].
    apply Z.mul_lt_mono_pos_r; [lia|]. apply mag_lt; lia. }
  assert (mag p (N + 1) * unit = mag p N * unit + 2 * half * P) as HS by (rewrite mag_succ; lia).
  assert (0 <= d * P) by nia. assert (d * P < 2 * half * P) by nia.
  destruct (_ || _) eqn:B; split; try lia; intros m Hm Hne.
  - assert (half * P <= d * P) by nia.
    destruct (Z.lt_trichotomy m N) as [|[->|]]; [left| |left].
    + specialize (Hlo' m). lia.
    + destruct (Z.eq_dec d half) as [->|].
      * right. split; [lia|]. rewrite Z.ltb_irrefl, Z.eqb_refl in B. simpl in B.
        apply Z.odd_spec in B as [k Hk]. exists (k + 1). lia.
      * left. assert (half * P < d * P) by nia. lia.
    + specialize (Hhi' m). lia.
  - apply orb_false_iff in B as [B1 B2].
    assert (d * P <= half * P) by nia.
    destruct (Z.lt_trichotomy m N) as [|[->|]]; [left|done|].
    + specialize (Hlo' m). lia.
    + destruct (Z.eq_dec d half) as [->|].
      * specialize (Hhi m). rewrite Z.eqb_refl in B2. simpl in B2.
        assert (Z.Even N) by (apply Z.even_spec; by rewrite <- Z.negb_odd, B2).
        destruct (Z.lt_trichotomy (mag p N * unit + 2 * half * P) (mag p m * unit)) as [|[|]];
          [left; lia|right; split; [lia|done]|lia].
      * left. specialize (Hhi m). assert (d * P < half * P) by nia. lia.
Qed.

Lemma nearest_even_unique p unit v n n' :
  0 <= p -> 0 < unit -> nearest_even p unit v n -> nearest_even p unit v n' -> n = n'.
Proof.
  assert (forall n n', 0 <= p -> 0 < unit -> nearest_even p unit v n -> nearest_even p unit v n' ->
    n < n' -> False) as W.
  { clear. intros n n' Hp Hu [Hn H] [Hn' H'] Hlt.
    destruct (H n' ltac:(lia) ltac:(lia)) as [|[E Ev]];
    destruct (H' n ltac:(lia) ltac:(lia)) as [|[E' Ev']]; try lia.
    assert (n + 1 < n') by (destruct Ev, Ev'; lia).
    assert (mag p n * unit < mag p (n + 1) * unit)
      by (apply Z.mul_lt_mono_pos_r; [lia|]; apply mag_lt; lia).
    assert (mag p (n + 1) * unit < mag p n' * unit)
      by (apply Z.mul_lt_mono_pos_r; [lia|]; apply mag_lt; lia).
    destruct (H (n + 1) ltac:(lia) ltac:(lia)); lia. }
  intros Hp Hu H H'. destruct (Z.lt_trichotomy n n') as [|[|]];
    [by destruct (W n n')|done|by destruct (W n' n)].
Qed.
(** The reference rounding is a nearest-even rounding. *)
Lemma trunc_index_spec p q :
  0 <= p -> 0 <= q ->
  0 <= trunc_index p q /\ mag p (trunc_index p q) <= q < mag p (trunc_index p q + 1).
Proof.
  intros Hp Hq. unfold trunc_index. cbv zeta.
  assert (0 < 2 ^ p) by (apply Z.pow_pos_nonneg; lia).
  destruct (Z.lt_ge_cases q (2 ^ p)) as [Hs|Hb].
  - assert (Z.log2 q - p <= 0) as Hl.
    { destruct (Z.eq_dec q 0) as [->|]; [simpl; lia|].
      assert (Z.log2 q < p) by (apply Z.log2_lt_pow2; lia). lia. }
    rewrite (Z.max_l 0) by lia. rewrite Z.pow_0_r, Z.div_1_r, Z.mul_0_l, Z.add_0_l.
    rewrite mag_succ, ulp_low, mag_low by lia. lia.
  - destruct (Z.log2_spec q) as [L1 L2]; [lia|].
    assert (p <= Z.log2 q) by (apply Z.log2_le_pow2; lia).
    rewrite (Z.max_r 0) by lia. set (e := Z.log2 q - p) in *.
    replace (Z.log2 q) with (p + e) in L1 by lia.
    replace (Z.log2 q) with (p + e) in L2 by lia.
    rewrite Z.pow_succ_r in L2 by lia. rewrite Z.pow_add_r in L1, L2 by lia.
    assert (0 < 2 ^ e) by (apply Z.pow_pos_nonneg; lia).
    pose proof (Z.div_mod q (2 ^ e)). pose proof (Z.mod_pos_bound q (2 ^ e)).
    set (k := q / 2 ^ e) in *. assert (2 ^ p <= k < 2 * 2 ^ p) by nia.
    replace (e * 2 ^ p + k) with ((e + 1) * 2 ^ p + (k - 2 ^ p)) by lia.
    rewrite mag_succ, ulp_fields, mag_fields by nia.
    replace (e + 1 - 1) with e by lia. nia.
Qed.

Lemma rne_nearest p unit v : 0 <= p -> 0 < unit -> 0 <= v -> nearest_even p unit v (rne p unit v).
Proof.
  intros Hp Hu Hv. unfold rne. cbv zeta.
  pose proof (Z.div_pos v unit Hv Hu) as Hq. pose proof (Z.div_mod v unit) as Hr.
  pose proof (Z.mod_pos_bound v unit Hu).
  set (q := v / unit) in *. set (r := v mod unit) in *. specialize (Hr ltac:(lia)).
  clearbody q r.
  destruct (trunc_index_spec p q) as (Hn & Hl & Hh); [lia..|].
  set (n := trunc_index p q) in *. rewrite mag_succ in * by lia.
  pose proof (ulp_pos p n).
  assert (mag p n * unit <= q * unit) by (apply Z.mul_le_mono_nonneg_r; lia).
  assert ((q + 1) * unit <= (mag p n + ulp p n) * unit)
    by (apply Z.mul_le_mono_nonneg_r; lia).
  (* the rule of the reference, in half units *)
  assert (nearest_even p (2 * unit) (2 * v)
    (if (ulp p n * unit <? 2 * v - 2 * mag p n * unit) ||
        ((2 * v - 2 * mag p n * unit =? ulp p n * unit) && Z.odd n) then n + 1 else n)) as R.
  { apply (round_nearest p _ _ n (ulp p n * unit) 1); lia. }
  assert (forall m, nearest_even p (2 * unit) (2 * v) m -> nearest_even p unit v m) as D.
  { intros m [Hm H']. split; [done|]. intros k Hk Hkm. specialize (H' k Hk Hkm).
    replace (mag p m * (2 * unit) - 2 * v) with (2 * (mag p m * unit - v)) in H' by lia.
    replace (mag p k * (2 * unit) - 2 * v) with (2 * (mag p k * unit - v)) in H' by lia.
    rewrite !(Z.abs_mul 2) in H'. change (Z.abs 2) with 2 in H'.
    destruct H' as [|[? ?]]; [left|right; split; [|done]]; lia. }
  apply D. eapply eq_ind; [exact R|].
  repeat match goal with |- context [?a <? ?b] => destruct (Z.ltb_spec a b)
    | |- context [?a =? ?b] => destruct (Z.eqb_spec a b) end;
  destruct (Z.odd n); simpl; lia.
Qed.

Lemma rne_eq p unit v n : 0 <= p -> 0 < unit -> 0 <= v -> nearest_even p unit v n -> rne p unit v = n.
Proof. intros. apply (nearest_even_unique p unit v); try done. by apply rne_nearest. Qed.

(** A representable value is its own rounding. *)
Lemma nearest_exact p unit n : 0 <= p -> 0 < unit -> 0 <= n -> nearest_even p unit (mag p n * unit) n.
Proof.
  intros Hp Hu Hn. split; [done|]. intros m Hm Hne. left.
  rewrite Z.sub_diag. simpl.
  destruct (Z.lt_trichotomy n m) as [|[|]]; [|lia|];
    [pose proof (mag_lt p n m)|pose proof (mag_lt p m n)]; nia.
Qed.

(** A value at or above a pattern rounds to that pattern or above. *)
Lemma nearest_ge p unit v n k :
  0 <= p -> 0 < unit -> 0 <= k -> nearest_even p unit v n -> mag p k * unit <= v -> k <= n.
Proof.
  intros Hp Hu Hk [Hn H] Hv. destruct (Z.le_gt_cases k n) as [|Hlt]; [done|exfalso].
  pose proof (mag_lt p n k Hp ltac:(lia)).
  assert (mag p n * unit < mag p k * unit) by nia.
  destruct (H k ltac:(lia) ltac:(lia)); lia.
Qed.
(** * Fields of a pattern *)

(** The sign, exponent and fraction the code extracts. *)
Lemma f32_fields u : in_u 32 u ->
  let s := u / 2 ^ 31 in let e := u / 2 ^ 23 mod 2 ^ 8 in let m := u mod 2 ^ 23 in
  0 <= s <= 1 /\ 0 <= e < 256 /\ 0 <= m < 2 ^ 23 /\
  u = s * 2 ^ 31 + e * 2 ^ 23 + m /\
  u mod 2 ^ 31 = e * 2 ^ 23 + m /\
  Z.land (Z.shiftr u 16) 0x8000 = s * 2 ^ 15 /\
  Z.land (Z.shiftr u 23) 0xFF = e /\
  Z.land u 0x7FFFFF = m.
Proof.
  unfold in_u. intros Hu. cbv zeta.
  change 0x8000 with (2 ^ 15). rewrite land_bit, !Z.shiftr_div_pow2 by lia.
  rewrite (land_mask _ 8 0xFF), (land_mask _ 23 0x7FFFFF) by lia.
  Z.to_euclidean_division_equations. lia.
Qed.

Lemma f16_fields h : in_u 16 h ->
  let s := h / 2 ^ 15 in let e := h / 2 ^ 10 mod 2 ^ 5 in let m := h mod 2 ^ 10 in
  0 <= s <= 1 /\ 0 <= e < 32 /\ 0 <= m < 2 ^ 10 /\
  h = s * 2 ^ 15 + e * 2 ^ 10 + m /\
  h mod 2 ^ 15 = e * 2 ^ 10 + m /\
  Z.land h 0x8000 = s * 2 ^ 15 /\
  Z.land (Z.shiftr h 10) 0x1F = e /\
  Z.land h 0x3FF = m.
Proof.
  unfold in_u. intros Hu. cbv zeta.
  change 0x8000 with (2 ^ 15). rewrite land_bit, !Z.shiftr_div_pow2 by lia.
  rewrite (land_mask _ 5 0x1F), (land_mask _ 10 0x3FF) by lia.
  Z.to_euclidean_division_equations. lia.
Qed.

(** Assembling a half from its sign and magnitude. *)
Lemma f16_join s n : 0 <= s <= 1 -> 0 <= n < 2 ^ 15 -> u16 (Z.lor (s * 2 ^ 15) n) = s * 2 ^ 15 + n.
Proof.
  intros Hs Hn. rewrite lor_fields by lia. apply wrapu_small. unfold in_u. lia.
Qed.

Lemma f16_join3 s e m : 0 <= s <= 1 -> 0 <= e < 32 -> 0 <= m < 2 ^ 10 ->
  u16 (Z.lor (Z.lor (s * 2 ^ 15) (u32 (Z.shiftl (u32 e) 10))) m) = s * 2 ^ 15 + (e * 2 ^ 10 + m).
Proof.
  intros Hs He Hm. rewrite (wrapu_small 32 e), Z.shiftl_mul_pow2 by (unfold in_u; lia).
  rewrite (wrapu_small 32) by (unfold in_u; lia).
  rewrite <- Z.lor_assoc, (lor_fields e m 10) by lia. by apply f16_join; lia.
Qed.

(** * Narrowing to half precision *)

Definition f32_finite (u : Z) : bool := u mod 2 ^ 31 <? 0x7F800000.

(** The rounding test of the code is the tie-to-even rule. *)
Lemma round_up_test (half d k N : Z) :
  Z.odd k = Z.odd N ->
  (half <? d) || ((d =? half) && negb (Z.land k 1 =? 0)) = (half <? d) || ((d =? half) && Z.odd N).
Proof.
  intros E. do 2 f_equal. rewrite (land_mask k 1 1) by lia. rewrite <- E, Zmod_odd.
  by destruct (Z.odd k).
Qed.

(** The fields of a pattern given by its fields. *)
Lemma f32_compose s e m : 0 <= s <= 1 -> 0 <= e < 256 -> 0 <= m < 2 ^ 23 ->
  let u := s * 2 ^ 31 + e * 2 ^ 23 + m in
  Z.land (Z.shiftr u 16) 0x8000 = s * 2 ^ 15 /\ Z.land (Z.shiftr u 23) 0xFF = e /\
  Z.land u 0x7FFFFF = m.
Proof.
  intros Hs He Hm u.
  destruct (f32_fields u) as (_ & _ & _ & _ & _ & -> & -> & ->); [unfold in_u, u; lia|].
  unfold u. Z.to_euclidean_division_equations. lia.
Qed.

Lemma f32_to_f16_normal s e m :
  0 <= s <= 1 -> 113 <= e < 143 -> 0 <= m < 2 ^ 23 ->
  exists n, nearest_even 10 (2 ^ 125) (mag 23 (e * 2 ^ 23 + m)) n /\
    mettle_f32bits_to_f16bits (s * 2 ^ 31 + e * 2 ^ 23 + m) = s * 2 ^ 15 + Z.min 0x7C00 n.
Proof.
  intros Hs He Hm.
  destruct (f32_compose s e m) as (Fs & Fe & Fm); [lia..|].
  set (N := (e - 112) * 2 ^ 10 + m / 2 ^ 13).
  exists (if (0x1000 <? m mod 2 ^ 13) || ((m mod 2 ^ 13 =? 0x1000) && Z.odd N) then N + 1 else N).
  assert (0 <= m / 2 ^ 13 < 1024) by (Z.to_euclidean_division_equations; lia).
  split.
  - apply (round_nearest 10 (2 ^ 125) _ N 0x1000 (2 ^ (e - 1))); try lia.
    + unfold N. rewrite ulp_fields, <- Z.pow_add_r by lia.
      change (2 * 0x1000) with (2 ^ 13). rewrite <- Z.pow_add_r by lia. f_equal. lia.
    + unfold N. rewrite !mag_fields by lia.
      rewrite <- Z.mul_assoc, <- Z.pow_add_r by lia.
      replace (e - 112 - 1 + 125) with (13 + (e - 1)) by lia. rewrite Z.pow_add_r by lia.
      pose proof (Z.div_mod m (2 ^ 13)). lia.
    + apply (Z.mod_pos_bound m (2 ^ 13)). lia.
  - unfold mettle_f32bits_to_f16bits. rewrite Fs, Fe, Fm. cbv zeta.
    rewrite (proj2 (Z.eqb_neq e 255)), (proj2 (Z.eqb_neq e 0)), (proj2 (Z.leb_gt 31 (e - 112))),
      (proj2 (Z.leb_gt (e - 112) 0)) by lia.
    rewrite Z.shiftr_div_pow2, (land_mask m 13 0x1FFF) by lia.
    rewrite (round_up_test _ _ _ N) by
      (unfold N; rewrite Z.odd_add, Z.odd_mul; change (Z.odd (2 ^ 10)) with false;
       rewrite andb_false_r; by destruct (Z.odd _)).
    rewrite (wrapu_small 32 (_ + 1)) by (unfold in_u; lia).
    destruct (_ || _); [|rewrite f16_join3; lia].
    destruct (Z.leb_spec 1024 (m / 2 ^ 13 + 1)); [|rewrite f16_join3; lia].
    destruct (Z.leb_spec 31 (e - 112 + 1)); [rewrite f16_join; lia|].
    rewrite f16_join3; lia.
Qed.
Lemma f32_to_f16_subnormal s e m :
  0 <= s <= 1 -> 102 <= e <= 112 -> 0 <= m < 2 ^ 23 ->
  exists n, nearest_even 10 (2 ^ 125) (mag 23 (e * 2 ^ 23 + m)) n /\
    mettle_f32bits_to_f16bits (s * 2 ^ 31 + e * 2 ^ 23 + m) = s * 2 ^ 15 + Z.min 0x7C00 n.
Proof.
  intros Hs He Hm. destruct (f32_compose s e m) as (Fs & Fe & Fm); [lia..|].
  set (full := 2 ^ 23 + m). set (k := 126 - e). set (N := full / 2 ^ k).
  assert (14 <= k <= 24) by (unfold k; lia).
  assert (2 ^ 14 <= 2 ^ k) by (apply Z.pow_le_mono_r; lia).
  assert (2 ^ k <= 2 ^ 24) by (apply Z.pow_le_mono_r; lia).
  assert (0 < 2 ^ (k - 1)) by (apply Z.pow_pos_nonneg; lia).
  assert (2 ^ k = 2 * 2 ^ (k - 1)) as Hk
    by (rewrite <- Z.pow_succ_r by lia; f_equal; lia).
  pose proof (Z.mod_pos_bound full (2 ^ k)). pose proof (Z.div_mod full (2 ^ k)) as Hd.
  assert (0 <= N < 1024).
  { unfold N. split; [apply Z.div_pos; unfold full; lia|].
    apply Z.div_lt_upper_bound; unfold full; lia. }
  exists (if (2 ^ (k - 1) <? full mod 2 ^ k) || ((full mod 2 ^ k =? 2 ^ (k - 1)) && Z.odd N)
     then N + 1 else N).
  split.
  - apply (round_nearest 10 (2 ^ 125) _ N (2 ^ (k - 1)) (2 ^ (e - 1))); try lia.
    + rewrite ulp_low, <- Hk, <- Z.pow_add_r by lia. rewrite Z.mul_1_l. f_equal. lia.
    + rewrite mag_fields, (mag_low 10 N) by lia. fold full.
      replace (2 ^ 125) with (2 ^ k * 2 ^ (e - 1)) by (rewrite <- Z.pow_add_r by lia; f_equal; lia).
      specialize (Hd ltac:(lia)). fold N in Hd. rewrite Hd at 1. lia.
  - unfold mettle_f32bits_to_f16bits. rewrite Fs, Fe, Fm. cbv zeta.
    rewrite (proj2 (Z.eqb_neq e 255)), (proj2 (Z.eqb_neq e 0)), (proj2 (Z.leb_gt 31 (e - 112))),
      (proj2 (Z.leb_le (e - 112) 0)), (proj2 (Z.ltb_ge (e - 112) (-10))) by lia.
    replace (14 - (e - 112)) with k by (unfold k; lia).
    rewrite (proj2 (Z.leb_gt 32 k)) by lia.
    replace (Z.lor m 0x800000) with full
      by (rewrite Z.lor_comm; symmetry; apply (lor_fields 1 m 23); lia).
    rewrite !Z.shiftl_mul_pow2, !Z.mul_1_l, Z.shiftr_div_pow2 by lia. fold N.
    rewrite (wrapu_small 32 (2 ^ k)), (wrapu_small 32 (2 ^ k - 1)), (wrapu_small 32 (2 ^ (k - 1)))
      by (unfold in_u; lia).
    rewrite (land_mask full k) by lia. rewrite (round_up_test _ _ _ N) by done.
    rewrite (wrapu_small 32 (N + 1)) by (unfold in_u; lia).
    destruct (_ || _); destruct (Z.leb_spec 1024 (N + 1)); destruct (Z.leb_spec 1024 N); try lia;
      rewrite f16_join; lia.
Qed.

(** The tiny values round to zero and the huge ones to infinity. *)
Lemma f32_to_f16_tiny s e m :
  0 <= s <= 1 -> 0 <= e < 102 -> 0 <= m < 2 ^ 23 ->
  exists n, nearest_even 10 (2 ^ 125) (mag 23 (e * 2 ^ 23 + m)) n /\
    mettle_f32bits_to_f16bits (s * 2 ^ 31 + e * 2 ^ 23 + m) = s * 2 ^ 15 + Z.min 0x7C00 n.
Proof.
  intros Hs He Hm. destruct (f32_compose s e m) as (Fs & Fe & Fm); [lia..|].
  exists 0. split.
  - assert (mag 23 (e * 2 ^ 23 + m) < 2 ^ 124) as Hv.
    { apply Z.lt_le_trans with (mag 23 (102 * 2 ^ 23 + 0)); [apply mag_lt; lia|].
      rewrite mag_fields by lia. vm_compute. discriminate. }
    assert (0 <= mag 23 (e * 2 ^ 23 + m)).
    { change 0 with (mag 23 0) at 1. apply mag_le; lia. }
    pose proof (round_nearest 10 (2 ^ 125) (mag 23 (e * 2 ^ 23 + m)) 0 (2 ^ 124) 1
      (mag 23 (e * 2 ^ 23 + m))) as R.
    rewrite (proj2 (Z.ltb_ge (2 ^ 124) _)) in R by lia. change (Z.odd 0) with false in R.
    rewrite andb_false_r in R. cbn [orb] in R.
    apply R; try lia.
    + rewrite ulp_low; lia.
    + rewrite (mag_low 10 0); lia.
  - unfold mettle_f32bits_to_f16bits. rewrite Fs, Fe, Fm. cbv zeta.
    rewrite (proj2 (Z.eqb_neq e 255)), (proj2 (Z.leb_gt 31 (e - 112))),
      (proj2 (Z.leb_le (e - 112) 0)), (proj2 (Z.ltb_lt (e - 112) (-10))) by lia.
    rewrite (wrapu_small 16) by (unfold in_u; lia). destruct (e =? 0); lia.
Qed.

Lemma f32_to_f16_huge s e m :
  0 <= s <= 1 -> 143 <= e < 255 -> 0 <= m < 2 ^ 23 ->
  exists n, nearest_even 10 (2 ^ 125) (mag 23 (e * 2 ^ 23 + m)) n /\
    mettle_f32bits_to_f16bits (s * 2 ^ 31 + e * 2 ^ 23 + m) = s * 2 ^ 15 + Z.min 0x7C00 n.
Proof.
  intros Hs He Hm. destruct (f32_compose s e m) as (Fs & Fe & Fm); [lia..|].
  assert (mag 10 0x7C00 * 2 ^ 125 <= mag 23 (e * 2 ^ 23 + m)) as Hv.
  { transitivity (mag 23 (143 * 2 ^ 23 + 0)); [vm_compute; discriminate|apply mag_le; lia]. }
  exists (rne 10 (2 ^ 125) (mag 23 (e * 2 ^ 23 + m))).
  assert (nearest_even 10 (2 ^ 125) (mag 23 (e * 2 ^ 23 + m))
            (rne 10 (2 ^ 125) (mag 23 (e * 2 ^ 23 + m)))) as Hn.
  { apply rne_nearest; [lia..|]. change 0 with (mag 23 0) at 1. apply mag_le; lia. }
  split; [done|].
  pose proof (nearest_ge 10 (2 ^ 125) _ _ 0x7C00 ltac:(lia) ltac:(lia) ltac:(lia) Hn Hv).
  unfold mettle_f32bits_to_f16bits. rewrite Fs, Fe, Fm. cbv zeta.
  rewrite (proj2 (Z.eqb_neq e 255)), (proj2 (Z.eqb_neq e 0)), (proj2 (Z.leb_le 31 (e - 112))) by lia.
  rewrite f16_join; lia.
Qed.

(** All the cases of the narrowing conversion. *)
Lemma f32_to_f16_spec u :
  in_u 32 u ->
  let s := u / 2 ^ 31 in
  let n := u mod 2 ^ 31 in
  let r := mettle_f32bits_to_f16bits u in
  if f32_finite u then
    exists k, nearest_even 10 (2 ^ 125) (mag 23 n) k /\ r = s * 2 ^ 15 + Z.min 0x7C00 k
  else if n =? 0x7F800000 then r = s * 2 ^ 15 + 0x7C00
  else exists k, 0x7C00 < k < 2 ^ 15 /\ r = s * 2 ^ 15 + k.
Proof.
  intros Hu. destruct (f32_fields u Hu) as (Hs & He & Hm & E & En & Fs & Fe & Fm).
  unfold f32_finite. cbv zeta. rewrite En.
  set (s := u / 2 ^ 31) in *. set (e := u / 2 ^ 23 mod 2 ^ 8) in *. set (m := u mod 2 ^ 23) in *.
  destruct (Z.ltb_spec (e * 2 ^ 23 + m) 0x7F800000).
  - rewrite E. destruct (Z.lt_ge_cases e 102); [by apply f32_to_f16_tiny; lia|].
    destruct (Z.lt_ge_cases e 113); [by apply f32_to_f16_subnormal; lia|].
    destruct (Z.lt_ge_cases e 143); [by apply f32_to_f16_normal; lia|].
    apply f32_to_f16_huge; lia.
  - unfold mettle_f32bits_to_f16bits. rewrite Fs, Fe, Fm. cbv zeta.
    replace e with 255 by lia. change (255 =? 255) with true. cbv iota.
    destruct (Z.eqb_spec m 0) as [->|]; [by rewrite f16_join by lia|].
    rewrite (proj2 (Z.eqb_neq _ 0x7F800000)) by lia.
    set (q := Z.land (Z.shiftr m 13) 0x01FF).
    assert (0 <= q < 2 ^ 9).
    { unfold q. rewrite (land_mask _ 9) by lia. apply Z.mod_pos_bound. lia. }
    exists (0x7E00 + q). split; [lia|]. rewrite <- Z.lor_assoc.
    replace (Z.lor 0x7E00 q) with (0x7E00 + q) by (symmetry; apply (lor_fields 63 q 9); lia).
    apply f16_join; lia.
Qed.
(** C39: narrowing a finite single to half precision gives the nearest half,
    ties to even, and an infinity when the rounded magnitude is out of range;
    an infinity stays an infinity and a NaN stays a NaN, all with the sign
    of the argument. *)
Theorem mettle_f32bits_to_f16bits_rounds u :
  in_u 32 u ->
  let s := u / 2 ^ 31 in
  let n := u mod 2 ^ 31 in
  let r := mettle_f32bits_to_f16bits u in
  if f32_finite u then
    exists k, nearest_even 10 (2 ^ 125) (mag 23 n) k /\ r = s * 2 ^ 15 + Z.min 0x7C00 k
  else if n =? 0x7F800000 then r = s * 2 ^ 15 + 0x7C00
  else exists k, 0x7C00 < k < 2 ^ 15 /\ r = s * 2 ^ 15 + k.
Proof. apply f32_to_f16_spec. Qed.

Lemma mettle_f32bits_to_f16bits_rounds_witness :
  exists k, nearest_even 10 (2 ^ 125) (mag 23 0x3F801000) k /\
    mettle_f32bits_to_f16bits 0x3F801000 = Z.min 0x7C00 k.
Proof.
  apply (mettle_f32bits_to_f16bits_rounds 0x3F801000). unfold in_u. lia.
Defined.

(** * Widening *)

Lemma f16_normalize_spec fuel m e :
  0 < m < 2048 -> -100 <= e - Z.of_nat fuel -> e <= 0 -> 1024 <= m * 2 ^ Z.of_nat fuel ->
  exists k, 0 <= k <= Z.of_nat fuel /\ 1024 <= m * 2 ^ k < 2048 /\
    f16_normalize (S fuel) m e = Ret (m * 2 ^ k, e - k).
Proof.
  revert m e. induction fuel as [|fuel IH]; intros m e Hm He He' Hf.
  - exists 0. simpl in Hf. cbn [f16_normalize]. change 0x400 with (2 ^ 10). rewrite land_bit by lia.
    rewrite (proj2 (Z.eqb_neq _ _)) by (Z.to_euclidean_division_equations; lia).
    rewrite Z.mul_1_r, Z.sub_0_r. split; [lia|]. split; [lia|done].
  - rewrite Nat2Z.inj_succ, Z.pow_succ_r in Hf by lia.
    change (f16_normalize (S (S fuel)) m e) with
      (if Z.land m 0x400 =? 0 then f16_normalize (S fuel) (u32 (Z.shiftl m 1)) (i32 (e - 1)) else Ret (m, e)).
    change 0x400 with (2 ^ 10). rewrite land_bit by lia.
    destruct (Z.lt_ge_cases m 1024).
    + rewrite (proj2 (Z.eqb_eq _ _)) by (Z.to_euclidean_division_equations; lia).
      rewrite Z.shiftl_mul_pow2, Z.pow_1_r, (wrapu_small 32), (wraps_small 32)
        by (unfold in_u, in_s; lia).
      destruct (IH (m * 2) (e - 1)) as (k & Hk & Hb & ->); [lia..|].
      exists (k + 1). rewrite Z.pow_add_r by lia. split; [lia|]. split; [lia|].
      do 2 f_equal; lia.
    + rewrite (proj2 (Z.eqb_neq _ _)) by (Z.to_euclidean_division_equations; lia).
      exists 0. rewrite Z.mul_1_r, Z.sub_0_r. split; [lia|]. split; [lia|done].
Qed.

(** Assembling a single from its fields. *)
Lemma f32_join3 s e m : 0 <= s <= 1 -> 0 <= e < 256 -> 0 <= m < 2 ^ 10 ->
  Z.lor (Z.lor (s * 2 ^ 31) (u32 (Z.shiftl (u32 e) 23))) (u32 (Z.shiftl m 13)) =
  s * 2 ^ 31 + (e * 2 ^ 23 + m * 2 ^ 13).
Proof.
  intros Hs He Hm. rewrite (wrapu_small 32 e), !Z.shiftl_mul_pow2 by (unfold in_u; lia).
  rewrite !(wrapu_small 32) by (unfold in_u; lia).
  rewrite <- Z.lor_assoc, (lor_fields e _ 23), (lor_fields s _ 31) by lia. done.
Qed.

Definition f16_finite (h : Z) : bool := h mod 2 ^ 15 <? 0x7C00.

(** Widening never fails, keeps the sign, is exact on finite values and
    keeps the infinities and the NaNs. *)
Lemma f16_to_f32_spec h :
  in_u 16 h ->
  exists n, 0 <= n < 2 ^ 31 /\
    mettle_f16bits_to_f32bits h = Ret (h / 2 ^ 15 * 2 ^ 31 + n) /\
    if f16_finite h then n < 0x7F800000 /\ mag 23 n = mag 10 (h mod 2 ^ 15) * 2 ^ 125
    else if h mod 2 ^ 15 =? 0x7C00 then n = 0x7F800000
    else n = Z.lor 0x7FC00000 ((h mod 2 ^ 10) * 2 ^ 13).
Proof.
  intros Hh. destruct (f16_fields h Hh) as (Hs & He & Hm & E & En & Fs & Fe & Fm).
  unfold mettle_f16bits_to_f32bits, f16_finite. rewrite Fs, Fe, Fm, En. cbv zeta.
  set (s := h / 2 ^ 15) in *. set (e := h / 2 ^ 10 mod 2 ^ 5) in *. set (m := h mod 2 ^ 10) in *.
  assert (u32 (Z.shiftl (s * 2 ^ 15) 16) = s * 2 ^ 31) as ->.
  { rewrite Z.shiftl_mul_pow2 by lia. rewrite wrapu_small; unfold in_u; lia. }
  destruct (Z.eqb_spec e 0) as [->|He0]; [|destruct (Z.eqb_spec e 31) as [->|He31]].
  - rewrite (proj2 (Z.ltb_lt _ _)) by lia. destruct (Z.eqb_spec m 0) as [->|Hm0].
    + exists 0. rewrite Z.add_0_r. done.
    + destruct (f16_normalize_spec 10 m (-14)) as (k & Hk & Hb & ->); [simpl; lia..|].
      cbn [obind]. set (f := m * 2 ^ k) in *.
      replace (Z.land f 0x3FF) with (f - 1024)
        by (rewrite (land_mask _ 10) by lia; Z.to_euclidean_division_equations; lia).
      rewrite f32_join3 by lia.
      exists ((-14 - k + 127) * 2 ^ 23 + (f - 1024) * 2 ^ 13). split; [lia|]. split; [done|].
      split; [lia|]. rewrite mag_fields, (mag_low 10) by lia.
      replace (2 ^ 23 + (f - 1024) * 2 ^ 13) with (f * 2 ^ 13) by lia.
      unfold f. rewrite <- !Z.mul_assoc, <- !Z.pow_add_r by lia. f_equal. f_equal. lia.
  - rewrite (proj2 (Z.ltb_ge _ _)) by lia. destruct (Z.eqb_spec m 0) as [->|Hm0].
    + exists 0x7F800000. split; [lia|]. split; [|done]. by rewrite lor_fields by lia.
    + rewrite (proj2 (Z.eqb_neq _ _)) by lia.
      exists (Z.lor 0x7FC00000 (m * 2 ^ 13)).
      assert (0 <= Z.lor 0x7FC00000 (m * 2 ^ 13) < 2 ^ 31).
      { apply lor_lt; lia. }
      split; [done|]. split; [|done].
      rewrite Z.shiftl_mul_pow2, (wrapu_small 32) by (unfold in_u; lia).
      by rewrite <- Z.lor_assoc, lor_fields by lia.
  - rewrite (proj2 (Z.ltb_lt _ _)) by lia. rewrite f32_join3 by lia.
    exists ((e + 112) * 2 ^ 23 + m * 2 ^ 13). split; [lia|]. split; [done|]. split; [lia|].
    rewrite !mag_fields by lia.
    replace (2 ^ 23 + m * 2 ^ 13) with ((2 ^ 10 + m) * 2 ^ 13) by lia.
    rewrite <- !Z.mul_assoc, <- !Z.pow_add_r by lia. f_equal. f_equal. lia.
Qed.
(** * Round trips *)

Lemma split_sign k s n : 0 <= k -> 0 <= n < 2 ^ k ->
  (s * 2 ^ k + n) / 2 ^ k = s /\ (s * 2 ^ k + n) mod 2 ^ k = n.
Proof.
  intros Hk Hn. split.
  - rewrite Z.div_add_l, Z.div_small; lia.
  - rewrite Z.add_comm, Z_mod_plus_full, Z.mod_small; lia.
Qed.

(** A quiet NaN keeps its payload, a signalling one becomes quiet. *)
Definition f16_quiet (h : Z) : Z := if 0x7C00 <? h mod 2 ^ 15 then Z.lor h 0x200 else h.

Definition f16_nan_roundtrip (h : Z) : bool :=
  match mettle_f16bits_to_f32bits h with
  | Ret r => mettle_f32bits_to_f16bits r =? Z.lor h 0x200
  | _ => false
  end.

Lemma f16_nan_roundtrip_all :
  forallb f16_nan_roundtrip (seqZ 0x7C01 0x3FF ++ seqZ 0xFC01 0x3FF) = true.
Proof. vm_compute. reflexivity. Qed.

Lemma f16_roundtrip h : in_u 16 h ->
  exists r, mettle_f16bits_to_f32bits h = Ret r /\ mettle_f32bits_to_f16bits r = f16_quiet h.
Proof.
  intros Hh. destruct (f16_fields h Hh) as (Hs & He & Hm & E & En & _). unfold f16_quiet.
  destruct (Z.ltb_spec 0x7C00 (h mod 2 ^ 15)) as [Hnan|Hnum].
  - pose proof f16_nan_roundtrip_all as A. rewrite forallb_forall in A.
    assert (f16_nan_roundtrip h = true) as B.
    { apply A, list_elem_of_In, elem_of_app. rewrite !elem_of_seqZ.
      assert (h / 2 ^ 15 = 0 \/ h / 2 ^ 15 = 1) by lia. lia. }
    unfold f16_nan_roundtrip in B. destruct (mettle_f16bits_to_f32bits h) as [r| |]; [|done..].
    exists r. split; [done|]. by apply Z.eqb_eq.
  - destruct (f16_to_f32_spec h Hh) as (n & Hn & -> & Hc). eexists. split; [done|].
    set (s := h / 2 ^ 15) in *. set (u := s * 2 ^ 31 + n).
    destruct (split_sign 31 s n) as [Us Un]; [lia..|].
    pose proof (f32_to_f16_spec u ltac:(unfold in_u, u; lia)) as R. cbv zeta in R.
    unfold f32_finite in R. subst u. rewrite Us, Un in R. unfold f16_finite in Hc.
    destruct (Z.ltb_spec (h mod 2 ^ 15) 0x7C00).
    + destruct Hc as [Hf Hv]. rewrite (proj2 (Z.ltb_lt _ _)) in R by lia.
      destruct R as (k & Hk & ->). rewrite Hv in Hk.
      replace k with (h mod 2 ^ 15); [lia|].
      apply (nearest_even_unique 10 (2 ^ 125) (mag 10 (h mod 2 ^ 15) * 2 ^ 125)); try lia; [|done].
      apply nearest_exact; lia.
    + rewrite (proj2 (Z.eqb_eq _ _)) in Hc by lia. subst n. simpl in R. rewrite R. lia.
Qed.

(** C40: narrowing undoes widening on every half: the pattern comes back
    unchanged, except that a signalling NaN comes back quiet. *)
Theorem f16_f32_roundtrip h :
  in_u 16 h ->
  exists r, mettle_f16bits_to_f32bits h = Ret r /\
    mettle_f32bits_to_f16bits r =
      (if 0x7C00 <? h mod 2 ^ 15 then Z.lor h 0x200 else h).
Proof. apply f16_roundtrip. Qed.

Lemma f16_f32_roundtrip_witness :
  exists r, mettle_f16bits_to_f32bits 0x8001 = Ret r /\ mettle_f32bits_to_f16bits r = 0x8001.
Proof. apply (f16_f32_roundtrip 0x8001). unfold in_u. lia. Defined.

(** * The bfloat16 format *)

Lemma bf16_mag n : 0 <= n -> mag 23 (n * 2 ^ 16) = mag 7 n * 2 ^ 16.
Proof.
  intros Hn. destruct (Z.lt_ge_cases n (2 ^ 7)).
  - rewrite !mag_low by lia. done.
  - pose proof (Z.div_mod n (2 ^ 7)). pose proof (Z.mod_pos_bound n (2 ^ 7)).
    set (e := n / 2 ^ 7) in *. set (m := n mod 2 ^ 7) in *.
    replace (n * 2 ^ 16) with (e * 2 ^ 23 + m * 2 ^ 16) by lia.
    replace n with (e * 2 ^ 7 + m) by lia. rewrite !mag_fields by lia. lia.
Qed.

Lemma bf16_ulp n d : 0 <= n -> 0 <= d < 2 ^ 16 ->
  ulp 7 n = ulp 23 (n * 2 ^ 16 + d) /\
  mag 23 (n * 2 ^ 16 + d) = mag 23 (n * 2 ^ 16) + d * ulp 23 (n * 2 ^ 16 + d).
Proof.
  intros Hn Hd. pose proof (Z.div_mod n (2 ^ 7)). pose proof (Z.mod_pos_bound n (2 ^ 7)).
  set (e := n / 2 ^ 7) in *. set (m := n mod 2 ^ 7) in *.
  replace n with (e * 2 ^ 7 + m) by lia.
  replace ((e * 2 ^ 7 + m) * 2 ^ 16) with (e * 2 ^ 23 + m * 2 ^ 16) by lia.
  rewrite <- Z.add_assoc. destruct (Z.eq_dec e 0) as [->|].
  - rewrite !Z.mul_0_l, !Z.add_0_l, !ulp_low, !mag_low by lia. lia.
  - assert (0 < e) by (pose proof (Z.div_pos n (2 ^ 7)); lia).
    rewrite !ulp_fields, !mag_fields by lia. lia.
Qed.

Lemma bf16_to_f32_spec h : in_u 16 h ->
  mettle_bf16bits_to_f32bits h = h / 2 ^ 15 * 2 ^ 31 + (h mod 2 ^ 15) * 2 ^ 16.
Proof.
  unfold in_u. intros Hh. unfold mettle_bf16bits_to_f32bits. rewrite Z.shiftl_mul_pow2 by lia.
  rewrite wrapu_small by (unfold in_u; lia). Z.to_euclidean_division_equations. lia.
Qed.

Lemma f32_to_bf16_spec u :
  in_u 32 u ->
  let s := u / 2 ^ 31 in
  let n := u mod 2 ^ 31 in
  let r := mettle_f32bits_to_bf16bits u in
  if f32_finite u then
    exists k, nearest_even 7 (2 ^ 16) (mag 23 n) k /\ k <= 0x7F80 /\ r = s * 2 ^ 15 + k
  else if n =? 0x7F800000 then r = s * 2 ^ 15 + 0x7F80
  else r = s * 2 ^ 15 + 0x7FC0.
Proof.
  intros Hu. destruct (f32_fields u Hu) as (Hs & He & Hm & E & En & Fs & Fe & Fm).
  unfold f32_finite, mettle_f32bits_to_bf16bits. cbv zeta. rewrite Fs, Fe, Fm.
  destruct (Z.ltb_spec (u mod 2 ^ 31) 0x7F800000).
  - rewrite (proj2 (Z.eqb_neq _ 255)) by lia.
    rewrite (land_mask _ 1 1), (Z.shiftr_div_pow2 u 16) by lia.
    set (s := u / 2 ^ 31) in *. set (n := u mod 2 ^ 31) in *.
    pose proof (Z.div_mod n (2 ^ 16) ltac:(lia)) as Hn. pose proof (Z.mod_pos_bound n (2 ^ 16)).
    set (N := n / 2 ^ 16) in *. set (d := n mod 2 ^ 16) in *.
    assert (0 <= n < 2 ^ 31) by (apply Z.mod_pos_bound; lia).
    assert (0 <= N < 0x7F80) by lia.
    exists (if (0x8000 <? d) || ((d =? 0x8000) && Z.odd N) then N + 1 else N).
    destruct (bf16_ulp N d) as [Hulp Hv]; [lia..|].
    replace (N * 2 ^ 16 + d) with n in * by lia.
    split; [|split; [destruct (_ || _); lia|]].
    + apply (round_nearest 7 (2 ^ 16) _ N 0x8000 (ulp 23 n)); try lia.
      * apply ulp_pos.
      * rewrite Hv, bf16_mag by lia. lia.
    + assert (u = (s * 2 ^ 15 + N) * 2 ^ 16 + d) as Eu by lia.
      assert (u / 2 ^ 16 mod 2 ^ 1 = if Z.odd N then 1 else 0) as ->.
      { rewrite Z.pow_1_r, Eu, Z.div_add_l, Z.div_small, Z.add_0_r, Zmod_odd by lia.
        rewrite Z.odd_add, Z.odd_mul. change (Z.odd (2 ^ 15)) with false.
        rewrite andb_false_r. by destruct (Z.odd N). }
      rewrite (wrapu_small 32 (0x7FFF + _)) by (unfold in_u; destruct (Z.odd N); lia).
      rewrite (wrapu_small 32 (u + _)) by (unfold in_u; destruct (Z.odd N); lia).
      rewrite Z.shiftr_div_pow2, Eu by lia.
      replace ((s * 2 ^ 15 + N) * 2 ^ 16 + d + (0x7FFF + (if Z.odd N then 1 else 0)))
        with ((s * 2 ^ 15 + N) * 2 ^ 16 + (d + (0x7FFF + (if Z.odd N then 1 else 0)))) by lia.
      rewrite Z.div_add_l by lia.
      destruct (Z.ltb_spec 0x8000 d), (Z.eqb_spec d 0x8000), (Z.odd N); cbn [andb orb]; try lia;
        (rewrite wrapu_small; [Z.to_euclidean_division_equations; lia|
           unfold in_u; Z.to_euclidean_division_equations; lia]).
  - rewrite (proj2 (Z.eqb_eq _ 255)) by lia.
    destruct (Z.eqb_spec (u mod 2 ^ 23) 0).
    + rewrite (proj2 (Z.eqb_eq _ 0x7F800000)) by lia. rewrite Z.shiftr_div_pow2 by lia.
      rewrite wrapu_small; unfold in_u; Z.to_euclidean_division_equations; lia.
    + rewrite (proj2 (Z.eqb_neq _ 0x7F800000)) by lia.
      set (s := u / 2 ^ 31) in *.
      assert (Z.land (Z.shiftr u 16) 0xFF80 = s * 2 ^ 15 + 0x7F80) as ->.
      { replace (Z.shiftr u 16) with (Z.lor ((s * 2 ^ 8 + 255) * 2 ^ 7) (u / 2 ^ 16 mod 2 ^ 7)).
        - assert (s = 0 \/ s = 1) as Hs' by lia.
          rewrite Z.land_lor_distr_l.
          replace (Z.land (u / 2 ^ 16 mod 2 ^ 7) 0xFF80) with 0; [by destruct Hs' as [->| ->]|].
          symmetry. apply Z.bits_inj'. intros i Hi.
          rewrite Z.land_spec, Z.bits_0. destruct (Z.lt_ge_cases i 7).
          + replace (Z.testbit 0xFF80 i) with false; [by rewrite andb_false_r|].
            assert (i = 0 \/ i = 1 \/ i = 2 \/ i = 3 \/ i = 4 \/ i = 5 \/ i = 6) as Hi' by lia.
            repeat destruct Hi' as [->|Hi']; subst; done.
          + rewrite Z.mod_pow2_bits_high by lia. done.
        - rewrite lor_fields by (Z.to_euclidean_division_equations; lia).
          rewrite Z.shiftr_div_pow2 by lia. Z.to_euclidean_division_equations. lia. }
      assert (s = 0 \/ s = 1) as [->| ->] by lia; done.
Qed.
(** Narrowing a finite single to bfloat16 gives the nearest bfloat16, ties
    to even, rounding up into the infinity included; infinities are kept and
    every NaN becomes the canonical quiet NaN, all with the sign of the
    argument. *)
Lemma mettle_f32bits_to_bf16bits_rounds u :
  in_u 32 u ->
  let s := u / 2 ^ 31 in
  let n := u mod 2 ^ 31 in
  let r := mettle_f32bits_to_bf16bits u in
  if f32_finite u then
    exists k, nearest_even 7 (2 ^ 16) (mag 23 n) k /\ k <= 0x7F80 /\ r = s * 2 ^ 15 + k
  else if n =? 0x7F800000 then r = s * 2 ^ 15 + 0x7F80
  else r = s * 2 ^ 15 + 0x7FC0.
Proof. apply f32_to_bf16_spec. Qed.

Lemma mettle_f32bits_to_bf16bits_rounds_witness :
  exists k, nearest_even 7 (2 ^ 16) (mag 23 0x7F7FFFFF) k /\ k <= 0x7F80 /\
    mettle_f32bits_to_bf16bits 0x7F7FFFFF = k.
Proof. apply (mettle_f32bits_to_bf16bits_rounds 0x7F7FFFFF). unfold in_u. lia. Defined.

Lemma bf16_roundtrip h : in_u 16 h -> h mod 2 ^ 15 <= 0x7F80 ->
  mettle_f32bits_to_bf16bits (mettle_bf16bits_to_f32bits h) = h.
Proof.
  intros Hh Hn. rewrite bf16_to_f32_spec by done. unfold in_u in Hh.
  set (s := h / 2 ^ 15). set (n := h mod 2 ^ 15) in *.
  assert (0 <= s <= 1) by (unfold s; Z.to_euclidean_division_equations; lia).
  assert (h = s * 2 ^ 15 + n) as Eh by (unfold s, n; Z.to_euclidean_division_equations; lia).
  assert (0 <= n) by (apply Z.mod_pos_bound; lia).
  destruct (split_sign 31 s (n * 2 ^ 16)) as [Us Un]; [lia..|].
  pose proof (f32_to_bf16_spec (s * 2 ^ 31 + n * 2 ^ 16) ltac:(unfold in_u; lia)) as R.
  cbv zeta in R. unfold f32_finite in R. rewrite Us, Un in R.
  destruct (Z.ltb_spec (n * 2 ^ 16) 0x7F800000).
  - destruct R as (k & Hk & _ & ->). rewrite bf16_mag in Hk by lia.
    replace k with n; [lia|].
    apply (nearest_even_unique 7 (2 ^ 16) (mag 7 n * 2 ^ 16)); try lia; [|done].
    apply nearest_exact; lia.
  - rewrite (proj2 (Z.eqb_eq _ _)) in R by lia. lia.
Qed.

(** * Exactness tests *)

(** Equality of floats with equal signs is equality of patterns. *)
Lemma float_eqb_same w p s n n' :
  0 < w -> 0 <= n < 2 ^ (w - 1) -> 0 <= n' < 2 ^ (w - 1) ->
  float_eqb w p (s * 2 ^ (w - 1) + n) (s * 2 ^ (w - 1) + n') =
  negb ((2 ^ (w - 1 - p) - 1) * 2 ^ p <? n) && (n =? n').
Proof.
  intros Hw Hn Hn'. unfold float_eqb. cbv zeta.
  rewrite !(land_mask _ (w - 1)) by lia.
  destruct (split_sign (w - 1) s n) as [_ ->]; [lia..|].
  destruct (split_sign (w - 1) s n') as [_ ->]; [lia..|].
  generalize ((2 ^ (w - 1 - p) - 1) * 2 ^ p) as inf. intros inf.
  destruct (Z.eqb_spec n n') as [->|Hne].
  - rewrite Z.eqb_refl. simpl. by destruct (inf <? n').
  - rewrite (proj2 (Z.eqb_neq (_ + n) _)) by lia. rewrite andb_false_r.
    destruct (Z.eqb_spec n 0), (Z.eqb_spec n' 0); simpl; try lia; by rewrite andb_false_r.
Qed.

Lemma f32_exp_test u : in_u 32 u -> (Z.land u 0x7F800000 =? 0x7F800000) = negb (f32_finite u).
Proof.
  intros Hu. destruct (f32_fields u Hu) as (Hs & He & Hm & E & En & _).
  unfold f32_finite. rewrite En.
  set (e := u / 2 ^ 23 mod 2 ^ 8) in *.
  assert (Z.land u 0x7F800000 = e * 2 ^ 23) as ->.
  { apply (land_field u 8 23); lia. }
  destruct (Z.eqb_spec (e * 2 ^ 23) 0x7F800000), (Z.ltb_spec (e * 2 ^ 23 + u mod 2 ^ 23) 0x7F800000);
    simpl; lia.
Qed.

(** The signed widening of a half, for a finite single [f]. *)
Lemma f16_back f h : in_u 32 f -> h = mettle_f32bits_to_f16bits f ->
  in_u 16 h /\ h / 2 ^ 15 = f / 2 ^ 31.
Proof.
  intros Hf ->. destruct (f32_fields f Hf) as (Hs & _).
  pose proof (f32_to_f16_spec f Hf) as R. cbv zeta in R.
  assert (exists k, 0 <= k < 2 ^ 15 /\ mettle_f32bits_to_f16bits f = f / 2 ^ 31 * 2 ^ 15 + k) as (k & Hk & ->).
  { destruct (f32_finite f); [|destruct (_ =? _)].
    - destruct R as (k & [Hk _] & ->). exists (Z.min 0x7C00 k). split; [lia|done].
    - exists 0x7C00. split; [lia|done].
    - destruct R as (k & Hk & ->). exists k. split; [lia|done]. }
  destruct (split_sign 15 (f / 2 ^ 31) k) as [-> _]; [lia..|]. unfold in_u. lia.
Qed.

(** Only finite halves widen to finite singles. *)
Lemma f16_widen_finite h f : in_u 16 h -> mettle_f16bits_to_f32bits h = Ret f ->
  f32_finite f = true -> f16_finite h = true.
Proof.
  intros Hh Hw Ff. destruct (f16_to_f32_spec h Hh) as (n & Hn & Hw' & Hc).
  destruct (f16_finite h); [done|exfalso].
  assert (f = h / 2 ^ 15 * 2 ^ 31 + n) as Ef by congruence.
  unfold f32_finite in Ff. rewrite Ef in Ff.
  destruct (split_sign 31 (h / 2 ^ 15) n) as [_ Em]; [lia..|]. rewrite Em in Ff.
  destruct (_ =? 0x7C00); subst n; [done|].
  pose proof (Z.mod_pos_bound h (2 ^ 10)).
  pose proof (lor_ge 0x7FC00000 (h mod 2 ^ 10 * 2 ^ 13)). lia.
Qed.

(** A finite single that is a widened half is narrowed to that half. *)
Lemma f16_narrow_widened h f : in_u 16 h -> mettle_f16bits_to_f32bits h = Ret f ->
  f32_finite f = true -> mettle_f32bits_to_f16bits f = h.
Proof.
  intros Hh Hw Ff. pose proof (f16_widen_finite h f Hh Hw Ff) as Fh.
  destruct (f16_roundtrip h Hh) as (r & Hr & Hq). assert (r = f) as -> by congruence.
  unfold f16_quiet, f16_finite in *. by rewrite (proj2 (Z.ltb_ge _ _)) in Hq by lia.
Qed.

(** The exactness test of a single never fails, and it accepts exactly
    the finite singles that are the widening of some half. *)
Lemma mettle_f32_is_exact_f16_decides f :
  in_u 32 f ->
  exists b, mettle_f32_is_exact_f16 f = Ret b /\
    (b = true <-> f32_finite f = true /\
       exists h, in_u 16 h /\ mettle_f16bits_to_f32bits h = Ret f).
Proof.
  intros Hf. unfold mettle_f32_is_exact_f16. rewrite f32_exp_test by done.
  destruct (f32_finite f) eqn:Ff; simpl negb; cbv iota; [|by exists false; naive_solver].
  destruct (f32_fields f Hf) as (Hs & He & Hm & E & En & _).
  destruct (f16_back f _ Hf eq_refl) as [Hh Hsg].
  destruct (f16_to_f32_spec _ Hh) as (n & Hn & Hr & _). rewrite Hr, Hsg. cbn [obind].
  eexists. split; [done|].
  set (s := f / 2 ^ 31) in *. assert (f = s * 2 ^ 31 + f mod 2 ^ 31) as E' by lia.
  rewrite E' at 1. assert (0 <= f mod 2 ^ 31 < 2 ^ 31) by (apply Z.mod_pos_bound; lia).
  rewrite (float_eqb_same 32 23) by lia. split.
  - rewrite andb_true_iff, Z.eqb_eq. intros [_ Heq]. split; [done|].
    eexists. split; [exact Hh|]. rewrite Hr, Hsg. f_equal. lia.
  - intros [_ (h & Hh' & Hw)]. rewrite (f16_narrow_widened h f Hh' Hw Ff) in *.
    assert (n = f mod 2 ^ 31) as ->.
    { assert (f = s * 2 ^ 31 + n) by congruence. lia. }
    rewrite Z.eqb_refl, andb_true_r. unfold f32_finite in Ff.
    simpl. lia.
Qed.

(** * Doubles *)

Lemma trunc_exact p q :
  0 <= p -> 0 <= q -> (2 ^ Z.max 0 (Z.log2 q - p) | q) -> mag p (trunc_index p q) = q.
Proof.
  intros Hp Hq [c Hc]. unfold trunc_index. cbv zeta.
  set (e := Z.max 0 (Z.log2 q - p)) in *.
  assert (0 < 2 ^ e) by (apply Z.pow_pos_nonneg; lia).
  assert (0 < 2 ^ p) by (apply Z.pow_pos_nonneg; lia).
  assert (q / 2 ^ e = c) as -> by (rewrite Hc; apply Z.div_mul; lia).
  destruct (Z.lt_ge_cases q (2 ^ p)) as [Hs|Hb].
  - assert (e = 0) as He.
    { unfold e. destruct (Z.eq_dec q 0) as [->|]; [simpl; lia|].
      assert (Z.log2 q < p) by (apply Z.log2_lt_pow2; lia). lia. }
    rewrite He in *. rewrite Z.pow_0_r, Z.mul_1_r in Hc. rewrite Z.mul_0_l, Z.add_0_l, mag_low; lia.
  - destruct (Z.log2_spec q) as [L1 L2]; [lia|].
    assert (p <= Z.log2 q) by (apply Z.log2_le_pow2; lia).
    replace (Z.log2 q) with (p + e) in L1, L2 by lia.
    rewrite Z.pow_succ_r, Z.pow_add_r in L2 by lia. rewrite Z.pow_add_r in L1 by lia.
    assert (2 ^ p <= c < 2 * 2 ^ p) by nia.
    replace (e * 2 ^ p + c) with ((e + 1) * 2 ^ p + (c - 2 ^ p)) by lia.
    rewrite mag_fields by lia. replace (e + 1 - 1) with e by lia. lia.
Qed.

(** Every single magnitude is a double magnitude. *)
Lemma mag_widen n : 0 <= n ->
  0 <= trunc_index 52 (mag 23 n * 2 ^ 925) /\
  mag 52 (trunc_index 52 (mag 23 n * 2 ^ 925)) = mag 23 n * 2 ^ 925.
Proof.
  intros Hn. set (q := mag 23 n * 2 ^ 925).
  assert (exists M E, 0 <= M < 2 ^ 24 /\ 0 <= E /\ mag 23 n = M * 2 ^ E) as (M & E & HM & HE & Hmag).
  { destruct (Z.lt_ge_cases n (2 ^ 23)).
    - exists n, 0. rewrite mag_low by lia. lia.
    - exists (2 ^ 23 + n mod 2 ^ 23), (n / 2 ^ 23 - 1). unfold mag.
      rewrite (proj2 (Z.ltb_ge _ _)) by lia. pose proof (Z.mod_pos_bound n (2 ^ 23)).
      assert (1 <= n / 2 ^ 23) by (apply Z.div_le_lower_bound; lia). split; [lia|]. split; [lia|done]. }
  assert (q = M * 2 ^ (E + 925)) as Hq by (unfold q; rewrite Hmag, Z.pow_add_r; lia).
  assert (0 < 2 ^ (E + 925)) by (apply Z.pow_pos_nonneg; lia).
  assert (0 <= q) by (rewrite Hq; apply Z.mul_nonneg_nonneg; lia).
  split; [apply trunc_index_spec; lia|]. apply trunc_exact; [lia..|].
  transitivity (2 ^ (E + 925)); [|exists M; exact Hq].
  assert (Z.max 0 (Z.log2 q - 52) <= E + 925) as Hmax.
  { apply Z.max_lub; [lia|]. destruct (Z.eq_dec M 0) as [HM0|].
    - rewrite Hq, HM0, Z.mul_0_l. simpl. lia.
    - rewrite Hq, Z.log2_mul_pow2 by lia.
      assert (Z.log2 M < 24) by (apply Z.log2_lt_pow2; lia). lia. }
  exists (2 ^ (E + 925 - Z.max 0 (Z.log2 q - 52))). rewrite <- Z.pow_add_r by lia. f_equal. lia.
Qed.

(** Widening a non-NaN single keeps sign and magnitude. *)
Lemma f32_to_f64_spec s n : 0 <= s <= 1 -> 0 <= n < 0x7F800000 ->
  exists k, 0 <= k < 0x7FF0000000000000 /\ f32_to_f64 (s * 2 ^ 31 + n) = s * 2 ^ 63 + k /\
    mag 52 k = mag 23 n * 2 ^ 925.
Proof.
  intros Hs Hn. unfold f32_to_f64. rewrite Z.shiftr_div_pow2, (land_mask _ 31) by lia.
  destruct (split_sign 31 s n) as [-> ->]; [lia..|]. cbv zeta.
  rewrite (proj2 (Z.ltb_ge _ _)), (proj2 (Z.eqb_neq _ _)) by lia.
  destruct (mag_widen n) as [Hk Hv]; [lia|].
  set (k := trunc_index 52 (mag 23 n * 2 ^ 925)) in *.
  assert (rne 52 1 (mag 23 n * 2 ^ 925) = k) as ->.
  { rewrite <- Hv. replace (mag 52 k) with (mag 52 k * 1) by lia. apply rne_eq; [lia..| |].
    - rewrite Z.mul_1_r. change 0 with (mag 52 0) at 1. apply mag_le; lia.
    - apply nearest_exact; lia. }
  exists k. split; [|done]. split; [done|].
  destruct (Z.lt_ge_cases k 0x7FF0000000000000) as [|Hge]; [done|exfalso].
  assert (mag 52 0x7FF0000000000000 <= mag 52 k) as H1 by (apply mag_le; lia).
  assert (mag 23 n < mag 23 0x7F800000) as H2 by (apply mag_lt; lia).
  assert (mag 23 0x7F800000 * 2 ^ 925 <= mag 52 0x7FF0000000000000) as H3 by (vm_compute; discriminate).
  assert (mag 23 n * 2 ^ 925 < mag 23 0x7F800000 * 2 ^ 925) by (apply Z.mul_lt_mono_pos_r; [|done]; vm_compute; done).
  rewrite Hv in H1. lia.
Qed.

(** Narrowing a finite double keeps the sign, and is exact when it can be. *)
Lemma f64_to_f32_spec s k : 0 <= s <= 1 -> 0 <= k < 0x7FF0000000000000 ->
  exists n, 0 <= n <= 0x7F800000 /\ f64_to_f32 (s * 2 ^ 63 + k) = s * 2 ^ 31 + n /\
    forall m, 0 <= m < 0x7F800000 -> mag 52 k = mag 23 m * 2 ^ 925 -> n = m.
Proof.
  intros Hs Hk. unfold f64_to_f32. rewrite Z.shiftr_div_pow2, (land_mask _ 63) by lia.
  destruct (split_sign 63 s k) as [-> ->]; [lia..|]. cbv zeta.
  rewrite (proj2 (Z.ltb_ge _ _)), (proj2 (Z.eqb_neq _ _)) by lia.
  assert (0 < 2 ^ 925) as HU by (apply Z.pow_pos_nonneg; lia).
  assert (0 <= mag 52 k) by (change 0 with (mag 52 0) at 1; apply mag_le; lia).
  pose proof (rne_nearest 23 (2 ^ 925) (mag 52 k) ltac:(lia) HU ltac:(lia)) as [Hr _].
  exists (Z.min 0x7F800000 (rne 23 (2 ^ 925) (mag 52 k))). split; [lia|]. split; [done|].
  intros m Hm Hv. rewrite (rne_eq 23 (2 ^ 925) (mag 52 k) m); [lia|lia|done|lia|].
  rewrite Hv. apply nearest_exact; lia.
Qed.
Definition f64_finite (d : Z) : bool := d mod 2 ^ 63 <? 0x7FF0000000000000.

Lemma f64_split d : in_u 64 d ->
  0 <= d / 2 ^ 63 <= 1 /\ 0 <= d mod 2 ^ 63 < 2 ^ 63 /\ d = d / 2 ^ 63 * 2 ^ 63 + d mod 2 ^ 63.
Proof. unfold in_u. intros. Z.to_euclidean_division_equations. lia. Qed.

Lemma f64_exp_test d : in_u 64 d ->
  (Z.land d 0x7FF0000000000000 =? 0x7FF0000000000000) = negb (f64_finite d).
Proof.
  intros Hd. unfold f64_finite. rewrite (land_field d 11 52) by lia. unfold in_u in Hd.
  destruct (Z.eqb_spec (d / 2 ^ 52 mod 2 ^ 11 * 2 ^ 52) 0x7FF0000000000000),
    (Z.ltb_spec (d mod 2 ^ 63) 0x7FF0000000000000); simpl; try done; exfalso;
    Z.to_euclidean_division_equations; lia.
Qed.

(** Widening to double keeps the sign, and only finite singles widen to
    finite doubles. *)
Lemma f32_to_f64_cases s n : 0 <= s <= 1 -> 0 <= n < 2 ^ 31 ->
  exists k, 0 <= k < 2 ^ 63 /\ f32_to_f64 (s * 2 ^ 31 + n) = s * 2 ^ 63 + k /\
    (k < 0x7FF0000000000000 -> n < 0x7F800000 /\ mag 52 k = mag 23 n * 2 ^ 925).
Proof.
  intros Hs Hn. destruct (Z.lt_ge_cases n 0x7F800000) as [Hf|Hf].
  - destruct (f32_to_f64_spec s n) as (k & Hk & Hr & Hv); [lia..|].
    exists k. split; [lia|]. done.
  - unfold f32_to_f64. rewrite Z.shiftr_div_pow2, (land_mask _ 31) by lia.
    destruct (split_sign 31 s n) as [-> ->]; [lia..|]. cbv zeta.
    assert (0 <= Z.shiftl (Z.land n (2 ^ 23 - 1)) 29 < 2 ^ 63).
    { rewrite (land_mask _ 23), Z.shiftl_mul_pow2 by lia. pose proof (Z.mod_pos_bound n (2 ^ 23)). lia. }
    destruct (Z.ltb_spec 0x7F800000 n).
    + eexists. split; [|split; [done|]]; [apply lor_lt; lia|].
      pose proof (lor_ge 0x7FF8000000000000 (Z.shiftl (Z.land n (2 ^ 23 - 1)) 29)). lia.
    + rewrite (proj2 (Z.eqb_eq _ _)) by lia. exists 0x7FF0000000000000. split; [lia|]. split; [done|lia].
Qed.

(** The common part of the tests on doubles: [f] is the double narrowed to
    single and [s * 2^31 + n'] what comes back from the small format; the
    comparison accepts exactly when the double is that single widened. *)
Lemma f64_compare s k n' : 0 <= s <= 1 -> 0 <= k < 0x7FF0000000000000 -> 0 <= n' < 2 ^ 31 ->
  exists k', 0 <= k' < 2 ^ 63 /\ f32_to_f64 (s * 2 ^ 31 + n') = s * 2 ^ 63 + k' /\
    float_eqb 64 52 (s * 2 ^ 63 + k') (s * 2 ^ 63 + k) = (k' =? k).
Proof.
  intros Hs Hk Hn. destruct (f32_to_f64_cases s n') as (k' & Hk' & Hr & _); [lia..|].
  exists k'. split; [done|]. split; [done|].
  rewrite (float_eqb_same 64 52) by lia.
  destruct (Z.eqb_spec k' k) as [->|]; [|by rewrite andb_false_r].
  rewrite (proj2 (Z.ltb_ge _ _)); [done|]. simpl. lia.
Qed.

(** A double that is a widened single narrows back to it. *)
Lemma f64_f32_exact d r : in_u 64 d -> f64_finite d = true -> in_u 32 r -> d = f32_to_f64 r ->
  f64_to_f32 d = r /\ f32_finite r = true.
Proof.
  intros Hd Fd Hr ->. destruct (f32_fields r Hr) as (Hs & _ & _ & _ & En & _).
  assert (0 <= r mod 2 ^ 31 < 2 ^ 31) by (apply Z.mod_pos_bound; lia).
  assert (r = r / 2 ^ 31 * 2 ^ 31 + r mod 2 ^ 31) as Er by (Z.to_euclidean_division_equations; lia).
  destruct (f32_to_f64_cases (r / 2 ^ 31) (r mod 2 ^ 31)) as (k & Hk & Hw & Hc); [lia..|].
  rewrite <- Er in Hw. unfold f64_finite in Fd. rewrite Hw in Fd |- *.
  destruct (split_sign 63 (r / 2 ^ 31) k) as [_ Em]; [lia..|]. rewrite Em in Fd.
  apply Z.ltb_lt in Fd. destruct (Hc Fd) as [Hn Hv].
  destruct (f64_to_f32_spec (r / 2 ^ 31) k) as (n & Hn' & -> & Hex); [lia..|].
  rewrite (Hex (r mod 2 ^ 31)) by (done || lia). split; [done|].
  unfold f32_finite. by apply Z.ltb_lt.
Qed.

(** A finite double narrows to a single that is not a NaN, of the same sign. *)
Lemma f64_narrow d : in_u 64 d -> f64_finite d = true ->
  in_u 32 (f64_to_f32 d) /\ f64_to_f32 d / 2 ^ 31 = d / 2 ^ 63.
Proof.
  intros Hd Fd. destruct (f64_split d Hd) as (Hs & Hk & E). unfold f64_finite in Fd.
  destruct (f64_to_f32_spec (d / 2 ^ 63) (d mod 2 ^ 63)) as (n & Hn & Hr & _); [lia..|].
  rewrite <- E in Hr. rewrite Hr. destruct (split_sign 31 (d / 2 ^ 63) n) as [-> _]; [lia..|].
  unfold in_u. lia.
Qed.
(** The half-precision exactness test of a double never fails, and it
    accepts exactly the finite doubles that are the widening of some half,
    although it narrows through single precision and so rounds twice. *)
Lemma mettle_f64_is_exact_f16_decides d :
  in_u 64 d ->
  exists b, mettle_f64_is_exact_f16 d = Ret b /\
    (b = true <-> f64_finite d = true /\
       exists h r, in_u 16 h /\ mettle_f16bits_to_f32bits h = Ret r /\ d = f32_to_f64 r).
Proof.
  intros Hd. unfold mettle_f64_is_exact_f16. rewrite f64_exp_test by done.
  destruct (f64_finite d) eqn:Fd; simpl negb; cbv iota; [|by exists false; naive_solver].
  destruct (f64_split d Hd) as (Hs & Hk & E). destruct (f64_narrow d Hd Fd) as [Hf Hfs].
  unfold mettle_f64bits_to_f16bits.
  destruct (f16_back _ _ Hf eq_refl) as [Hh Hsg]. rewrite Hfs in Hsg.
  destruct (f16_to_f32_spec _ Hh) as (n & Hn & Hr & _). rewrite Hr, Hsg. cbn [obind].
  set (s := d / 2 ^ 63) in *. set (k := d mod 2 ^ 63) in *.
  destruct (f64_compare s k n) as (k' & Hk' & Hw & Heq);
    [lia|unfold f64_finite in Fd; unfold k in *; lia|lia|].
  rewrite Hw. change 0x8000000000000000 with (2 ^ 63). rewrite !land_bit by lia.
  destruct (split_sign 63 s k') as [-> _]; [lia..|]. fold s.
  rewrite Z.eqb_refl. simpl negb. cbv iota. eexists. split; [done|].
  rewrite E, Heq, Z.eqb_eq. split.
  - intros ->. split; [congruence|]. eexists _, _. rewrite <- E in *.
    split; [exact Hh|]. split; [by rewrite Hr, Hsg|]. by rewrite Hw.
  - intros [_ (h & r & Hh' & Hr' & Ed)]. rewrite <- E in Ed.
    destruct (f16_to_f32_spec h Hh') as (m & Hm & Hr2 & _).
    assert (in_u 32 r) as Hr32.
    { destruct (f16_fields h Hh') as (Hs' & _). assert (r = h / 2 ^ 15 * 2 ^ 31 + m) as -> by congruence.
      unfold in_u. lia. }
    destruct (f64_f32_exact d r Hd Fd Hr32 Ed) as [Hn32 Fr]. rewrite Hn32 in *.
    rewrite (f16_narrow_widened h r Hh' Hr' Fr) in *.
    assert (r = s * 2 ^ 31 + n) as Hrn by congruence. rewrite <- Hrn, <- Ed in Hw. lia.
Qed.

(** Narrowing a double to half precision rounds twice, first to single:
    the double just above the midpoint of two halves is not given the nearest
    half. *)
Lemma mettle_f64bits_to_f16bits_double_rounding :
  let d := 0x3FF0020000000001 in
  mettle_f64bits_to_f16bits d = 0x3C00 /\
  nearest_even 10 (2 ^ 1050) (mag 52 d) 0x3C01 /\
  ~ nearest_even 10 (2 ^ 1050) (mag 52 d) 0x3C00.
Proof.
  cbv zeta. assert (0 < 2 ^ 1050) by (apply Z.pow_pos_nonneg; lia).
  split; [vm_compute; reflexivity|]. assert (0x3C01 = rne 10 (2 ^ 1050) (mag 52 0x3FF0020000000001)) as ->
    by (vm_compute; reflexivity).
  split; [apply rne_nearest; [lia|done|vm_compute; discriminate]|].
  intros [_ Hn]. destruct (Hn 0x3C01) as [C|[C _]]; [lia|lia| |];
    vm_compute in C; discriminate.
Qed.
Lemma bf16_back f : in_u 32 f -> let h := mettle_f32bits_to_bf16bits f in
  in_u 16 h /\ exists n, 0 <= n < 2 ^ 31 /\ mettle_bf16bits_to_f32bits h = f / 2 ^ 31 * 2 ^ 31 + n.
Proof.
  intros Hf h. destruct (f32_fields f Hf) as (Hs & _).
  pose proof (f32_to_bf16_spec f Hf) as R. cbv zeta in R. fold h in R.
  assert (exists k, 0 <= k < 2 ^ 15 /\ h = f / 2 ^ 31 * 2 ^ 15 + k) as (k & Hk & Eh).
  { destruct (f32_finite f); [|destruct (_ =? _)].
    - destruct R as (k & [Hk _] & Hle & ->). exists k. split; [lia|done].
    - exists 0x7F80. split; [lia|done].
    - exists 0x7FC0. split; [lia|done]. }
  assert (in_u 16 h) as Hh by (unfold in_u; lia). split; [done|].
  exists (k * 2 ^ 16). split; [lia|]. rewrite bf16_to_f32_spec by done. rewrite Eh.
  by destruct (split_sign 15 (f / 2 ^ 31) k) as [-> ->]; [lia..|].
Qed.

Lemma bf16_narrow_widened h : in_u 16 h -> f32_finite (mettle_bf16bits_to_f32bits h) = true ->
  in_u 32 (mettle_bf16bits_to_f32bits h) /\
  mettle_f32bits_to_bf16bits (mettle_bf16bits_to_f32bits h) = h.
Proof.
  intros Hh Ff. assert (0 <= h / 2 ^ 15 <= 1) by (apply f16_fields; done).
  pose proof (Z.mod_pos_bound h (2 ^ 15)).
  pose proof (bf16_to_f32_spec h Hh) as E. split; [unfold in_u; lia|].
  apply bf16_roundtrip; [done|]. unfold f32_finite in Ff. rewrite E in Ff.
  destruct (split_sign 31 (h / 2 ^ 15) (h mod 2 ^ 15 * 2 ^ 16)) as [_ Em]; [lia..|].
  rewrite Em in Ff. lia.
Qed.

(** The bfloat16 exactness tests of a single and of a double accept
    exactly the finite values that are the widening of some bfloat16. *)
Lemma mettle_is_exact_bf16_decides :
  (forall f, in_u 32 f ->
    mettle_f32_is_exact_bf16 f = true <->
    f32_finite f = true /\ exists h, in_u 16 h /\ mettle_bf16bits_to_f32bits h = f) /\
  (forall d, in_u 64 d ->
    mettle_f64_is_exact_bf16 d = true <->
    f64_finite d = true /\
    exists h, in_u 16 h /\ f32_to_f64 (mettle_bf16bits_to_f32bits h) = d).
Proof.
  split.
  - intros f Hf. unfold mettle_f32_is_exact_bf16. rewrite f32_exp_test by done.
    destruct (f32_finite f) eqn:Ff; simpl negb; cbv iota; [|naive_solver].
    destruct (bf16_back f Hf) as (Hh & n & Hn & Hw).
    pose proof (Z.mod_pos_bound f (2 ^ 31)).
    assert (f = f / 2 ^ 31 * 2 ^ 31 + f mod 2 ^ 31) as E by (Z.to_euclidean_division_equations; lia).
    cbv zeta. rewrite Hw. rewrite E at 2. rewrite (float_eqb_same 32 23) by lia.
    rewrite andb_true_iff, Z.eqb_eq. split.
    + intros [_ Hn']. split; [done|]. eexists. split; [exact Hh|]. lia.
    + intros [_ (h & Hh' & <-)]. destruct (bf16_narrow_widened h Hh' Ff) as [_ Hr].
      rewrite Hr in Hw. assert (n = mettle_bf16bits_to_f32bits h mod 2 ^ 31) as -> by lia.
      split; [|done]. unfold f32_finite in Ff. rewrite (proj2 (Z.ltb_ge _ _)); [done|]. simpl. lia.
  - intros d Hd. unfold mettle_f64_is_exact_bf16. rewrite f64_exp_test by done.
    destruct (f64_finite d) eqn:Fd; simpl negb; cbv iota; [|naive_solver].
    destruct (f64_split d Hd) as (Hs & Hk & E). destruct (f64_narrow d Hd Fd) as [Hf Hfs].
    unfold mettle_f64bits_to_bf16bits.
    destruct (bf16_back _ Hf) as (Hh & n & Hn & Hw). rewrite Hfs in Hw. cbv zeta.
    destruct (f64_compare (d / 2 ^ 63) (d mod 2 ^ 63) n) as (k' & Hk' & Hw' & Heq);
      [lia|unfold f64_finite in Fd; lia|lia|].
    rewrite Hw, Hw'. rewrite E at 2. rewrite Heq, Z.eqb_eq. split.
    + intros Hkk. split; [done|]. eexists. split; [exact Hh|]. rewrite Hw, Hw'. lia.
    + intros [_ (h & Hh' & Ed)].
      assert (in_u 32 (mettle_bf16bits_to_f32bits h)) as H32.
      { unfold mettle_bf16bits_to_f32bits. apply wrapu_bound. lia. }
      destruct (f64_f32_exact d _ Hd Fd H32 (eq_sym Ed)) as [Hn32 Fr].
      rewrite Hn32 in Hw. destruct (bf16_narrow_widened h Hh' Fr) as [_ Hr]. rewrite Hr in Hw.
      rewrite Hw, Hw' in Ed. lia.
Qed.

(** The exactness tests never fail and accept exactly the finite values
    that are the widening of some half or bfloat16, although the test of a
    double for a half narrows through single precision and so rounds twice. *)
Lemma mettle_is_exact_decides :
  (forall f, in_u 32 f -> exists b, mettle_f32_is_exact_f16 f = Ret b /\
    (b = true <-> f32_finite f = true /\ exists h, in_u 16 h /\ mettle_f16bits_to_f32bits h = Ret f)) /\
  (forall d, in_u 64 d -> exists b, mettle_f64_is_exact_f16 d = Ret b /\
    (b = true <-> f64_finite d = true /\ exists h r, in_u 16 h /\ mettle_f16bits_to_f32bits h = Ret r /\ d = f32_to_f64 r)) /\
  (forall f, in_u 32 f -> mettle_f32_is_exact_bf16 f = true <->
    f32_finite f = true /\ exists h, in_u 16 h /\ mettle_bf16bits_to_f32bits h = f) /\
  (forall d, in_u 64 d -> mettle_f64_is_exact_bf16 d = true <->
    f64_finite d = true /\ exists h, in_u 16 h /\ f32_to_f64 (mettle_bf16bits_to_f32bits h) = d).
Proof.
  split; [apply mettle_f32_is_exact_f16_decides|]. split; [apply mettle_f64_is_exact_f16_decides|].
  apply mettle_is_exact_bf16_decides.
Qed.

Lemma mettle_is_exact_decides_witness :
  exists b, mettle_f64_is_exact_f16 0x3FF0020000000001 = Ret b /\
    (b = true <-> f64_finite 0x3FF0020000000001 = true /\
       exists h r, in_u 16 h /\ mettle_f16bits_to_f32bits h = Ret r /\
         0x3FF0020000000001 = f32_to_f64 r).
Proof. apply (proj1 (proj2 mettle_is_exact_decides) 0x3FF0020000000001). unfold in_u. lia. Defined.
End HalfFloat.
