(* ===== verification/Arm64Encode.v ===== *)
(** AArch64 instruction words: src/src/codegen/binary/arm64.h,
    arm64_encode.c and arm64_disasm.c.

    The encoders build 32-bit words by masking and shifting operands into
    their fields; [arm64_decode] takes a word apart again.  The theorems show
    that decoding undoes encoding for every instruction the decoder knows,
    with the signed displacement of branches and pair accesses recovered, and
    that the shift and extension aliases compute what their names say under
    the bit-field-move semantics of the instruction set. *)
From S2P Require Import Prelude.

Module Arm64.

#[local] Open Scope word_scope.

(** * Registers and conditions

    Register and condition operands are the enumerations' integers. *)
Definition ARM64_X29 : Z := 29.
Definition ARM64_X30 : Z := 30.
Definition ARM64_XZR : Z := 31.
Definition ARM64_SP : Z := 31.

Definition R5 (x : Z) : Z := x .& 0x1F.

Definition arm64_invert_cond (c : Z) : Z := Z.lxor c 1.

(** * Encoders *)

Definition arm64_nop : Z := 0xD503201F.

Definition arm64_mov_reg (is64 : bool) (rd rm : Z) : Z :=
  let base := if is64 then 0xAA0003E0 else 0x2A0003E0 in
  base .| (R5 rm .<< 16) .| R5 rd.

Definition arm64_movz (is64 : bool) (rd imm16 hw : Z) : Z :=
  let base := if is64 then 0xD2800000 else 0x52800000 in
  base .| ((u32 hw .& 3) .<< 21) .| (imm16 .<< 5) .| R5 rd.

Definition arm64_movn (is64 : bool) (rd imm16 hw : Z) : Z :=
  let base := if is64 then 0x92800000 else 0x12800000 in
  base .| ((u32 hw .& 3) .<< 21) .| (imm16 .<< 5) .| R5 rd.

Definition arm64_movk (is64 : bool) (rd imm16 hw : Z) : Z :=
  let base := if is64 then 0xF2800000 else 0x72800000 in
  base .| ((u32 hw .& 3) .<< 21) .| (imm16 .<< 5) .| R5 rd.

Definition arm64_add_reg (is64 : bool) (rd rn rm : Z) : Z :=
  let base := if is64 then 0x8B000000 else 0x0B000000 in
  base .| (R5 rm .<< 16) .| (R5 rn .<< 5) .| R5 rd.

Definition arm64_sub_reg (is64 : bool) (rd rn rm : Z) : Z :=
  let base := if is64 then 0xCB000000 else 0x4B000000 in
  base .| (R5 rm .<< 16) .| (R5 rn .<< 5) .| R5 rd.

Definition arm64_and_reg (is64 : bool) (rd rn rm : Z) : Z :=
  let base := if is64 then 0x8A000000 else 0x0A000000 in
  base .| (R5 rm .<< 16) .| (R5 rn .<< 5) .| R5 rd.

Definition arm64_orr_reg (is64 : bool) (rd rn rm : Z) : Z :=
  let base := if is64 then 0xAA000000 else 0x2A000000 in
  base .| (R5 rm .<< 16) .| (R5 rn .<< 5) .| R5 rd.

Definition arm64_eor_reg (is64 : bool) (rd rn rm : Z) : Z :=
  let base := if is64 then 0xCA000000 else 0x4A000000 in
  base .| (R5 rm .<< 16) .| (R5 rn .<< 5) .| R5 rd.

Definition arm64_neg (is64 : bool) (rd rm : Z) : Z :=
  arm64_sub_reg is64 rd ARM64_XZR rm.

Definition arm64_mvn (is64 : bool) (rd rm : Z) : Z :=
  let base := if is64 then 0xAA2003E0 else 0x2A2003E0 in
  base .| (R5 rm .<< 16) .| R5 rd.

Definition arm64_add_imm (is64 : bool) (rd rn imm12 : Z) (shift12 : bool) : Z :=
  let base := if is64 then 0x91000000 else 0x11000000 in
  base .| (if shift12 then 1 .<< 22 else 0) .| ((imm12 .& 0xFFF) .<< 10) .| (R5 rn .<< 5) .| R5 rd.

Definition arm64_mov_sp (rd rn : Z) : Z :=
  arm64_add_imm true rd rn 0 false.

Definition arm64_sub_imm (is64 : bool) (rd rn imm12 : Z) (shift12 : bool) : Z :=
  let base := if is64 then 0xD1000000 else 0x51000000 in
  base .| (if shift12 then 1 .<< 22 else 0) .| ((imm12 .& 0xFFF) .<< 10) .| (R5 rn .<< 5) .| R5 rd.

Definition arm64_cmp_reg (is64 : bool) (rn rm : Z) : Z :=
  let base := if is64 then 0xEB00001F else 0x6B00001F in
  base .| (R5 rm .<< 16) .| (R5 rn .<< 5).

Definition arm64_cmp_imm (is64 : bool) (rn imm12 : Z) (shift12 : bool) : Z :=
  let base := if is64 then 0xF100001F else 0x7100001F in
  base .| (if shift12 then 1 .<< 22 else 0) .| ((imm12 .& 0xFFF) .<< 10) .| (R5 rn .<< 5).

Definition arm64_tst (is64 : bool) (rn rm : Z) : Z :=
  let base := if is64 then 0xEA00001F else 0x6A00001F in
  base .| (R5 rm .<< 16) .| (R5 rn .<< 5).

Definition arm64_uxtb (rd rn : Z) : Z :=
  0x53000000 .| (7 .<< 10) .| (R5 rn .<< 5) .| R5 rd.

Definition arm64_uxth (rd rn : Z) : Z :=
  0x53000000 .| (15 .<< 10) .| (R5 rn .<< 5) .| R5 rd.

Definition arm64_sxtb (rd rn : Z) : Z :=
  0x93400000 .| (7 .<< 10) .| (R5 rn .<< 5) .| R5 rd.

Definition arm64_sxth (rd rn : Z) : Z :=
  0x93400000 .| (15 .<< 10) .| (R5 rn .<< 5) .| R5 rd.

Definition arm64_sxtw (rd rn : Z) : Z :=
  0x93400000 .| (31 .<< 10) .| (R5 rn .<< 5) .| R5 rd.

Definition arm64_madd (is64 : bool) (rd rn rm ra : Z) : Z :=
  let base := if is64 then 0x9B000000 else 0x1B000000 in
  base .| (R5 rm .<< 16) .| (R5 ra .<< 10) .| (R5 rn .<< 5) .| R5 rd.

Definition arm64_msub (is64 : bool) (rd rn rm ra : Z) : Z :=
  let base := if is64 then 0x9B008000 else 0x1B008000 in
  base .| (R5 rm .<< 16) .| (R5 ra .<< 10) .| (R5 rn .<< 5) .| R5 rd.

Definition arm64_mul (is64 : bool) (rd rn rm : Z) : Z :=
  arm64_madd is64 rd rn rm ARM64_XZR.

Definition arm64_sdiv (is64 : bool) (rd rn rm : Z) : Z :=
  let base := if is64 then 0x9AC00C00 else 0x1AC00C00 in
  base .| (R5 rm .<< 16) .| (R5 rn .<< 5) .| R5 rd.

Definition arm64_udiv (is64 : bool) (rd rn rm : Z) : Z :=
  let base := if is64 then 0x9AC00800 else 0x1AC00800 in
  base .| (R5 rm .<< 16) .| (R5 rn .<< 5) .| R5 rd.

Definition arm64_lslv (is64 : bool) (rd rn rm : Z) : Z :=
  let base := if is64 then 0x9AC02000 else 0x1AC02000 in
  base .| (R5 rm .<< 16) .| (R5 rn .<< 5) .| R5 rd.

Definition arm64_lsrv (is64 : bool) (rd rn rm : Z) : Z :=
  let base := if is64 then 0x9AC02400 else 0x1AC02400 in
  base .| (R5 rm .<< 16) .| (R5 rn .<< 5) .| R5 rd.

Definition arm64_asrv (is64 : bool) (rd rn rm : Z) : Z :=
  let base := if is64 then 0x9AC02800 else 0x1AC02800 in
  base .| (R5 rm .<< 16) .| (R5 rn .<< 5) .| R5 rd.

Definition arm64_bfm (is64 sbfm : bool) (rd rn immr imms : Z) : Z :=
  let mask := if is64 then 63 else 31 in
  let base := if sbfm then (if is64 then 0x93400000 else 0x13000000)
              else (if is64 then 0xD3400000 else 0x53000000) in
  base .| (u32 (immr .& mask) .<< 16) .| (u32 (imms .& mask) .<< 10) .| (R5 rn .<< 5) .| R5 rd.

Definition arm64_lsl_imm (is64 : bool) (rd rn shift : Z) : Z :=
  let width := if is64 then 64 else 32 in
  let immr := (-shift) .& (width - 1) in
  let imms := width - 1 - shift in
  arm64_bfm is64 false rd rn immr imms.

Definition arm64_lsr_imm (is64 : bool) (rd rn shift : Z) : Z :=
  let width := if is64 then 64 else 32 in
  arm64_bfm is64 false rd rn shift (width - 1).

Definition arm64_asr_imm (is64 : bool) (rd rn shift : Z) : Z :=
  let width := if is64 then 64 else 32 in
  arm64_bfm is64 true rd rn shift (width - 1).

Definition arm64_csel (is64 : bool) (rd rn rm cond : Z) : Z :=
  let base := if is64 then 0x9A800000 else 0x1A800000 in
  base .| (R5 rm .<< 16) .| ((u32 cond .& 0xF) .<< 12) .| (R5 rn .<< 5) .| R5 rd.

Definition arm64_cset (is64 : bool) (rd cond : Z) : Z :=
  let base := if is64 then 0x9A800400 else 0x1A800400 in
  let inv := arm64_invert_cond cond in
  base .| (R5 ARM64_XZR .<< 16) .| ((u32 inv .& 0xF) .<< 12) .| (R5 ARM64_XZR .<< 5) .| R5 rd.

Definition arm64_str_imm (is64 : bool) (rt rn offset_bytes : Z) : Z :=
  let base := if is64 then 0xF9000000 else 0xB9000000 in
  let scaled := u32 (offset_bytes `quot` (if is64 then 8 else 4)) .& 0xFFF in
  base .| (scaled .<< 10) .| (R5 rn .<< 5) .| R5 rt.

Definition arm64_ldr_imm (is64 : bool) (rt rn offset_bytes : Z) : Z :=
  let base := if is64 then 0xF9400000 else 0xB9400000 in
  let scaled := u32 (offset_bytes `quot` (if is64 then 8 else 4)) .& 0xFFF in
  base .| (scaled .<< 10) .| (R5 rn .<< 5) .| R5 rt.

Definition arm64_strb_imm (rt rn offset : Z) : Z :=
  0x39000000 .| ((u32 offset .& 0xFFF) .<< 10) .| (R5 rn .<< 5) .| R5 rt.

Definition arm64_ldrb_imm (rt rn offset : Z) : Z :=
  0x39400000 .| ((u32 offset .& 0xFFF) .<< 10) .| (R5 rn .<< 5) .| R5 rt.

Definition arm64_strh_imm (rt rn offset_bytes : Z) : Z :=
  let s := u32 (offset_bytes `quot` 2) .& 0xFFF in
  0x79000000 .| (s .<< 10) .| (R5 rn .<< 5) .| R5 rt.

Definition arm64_ldrh_imm (rt rn offset_bytes : Z) : Z :=
  let s := u32 (offset_bytes `quot` 2) .& 0xFFF in
  0x79400000 .| (s .<< 10) .| (R5 rn .<< 5) .| R5 rt.

Definition fp2 (is_double : bool) (dbase fd fn fm : Z) : Z :=
  let base := if is_double then dbase else (dbase .& Z.lnot (1 .<< 22)) in
  base .| (R5 fm .<< 16) .| (R5 fn .<< 5) .| R5 fd.

Definition arm64_fmul (is_double : bool) (fd fn fm : Z) : Z :=
  fp2 is_double 0x1E600800 fd fn fm.

Definition arm64_fdiv (is_double : bool) (fd fn fm : Z) : Z :=
  fp2 is_double 0x1E601800 fd fn fm.

Definition arm64_fadd (is_double : bool) (fd fn fm : Z) : Z :=
  fp2 is_double 0x1E602800 fd fn fm.

Definition arm64_fsub (is_double : bool) (fd fn fm : Z) : Z :=
  fp2 is_double 0x1E603800 fd fn fm.

Definition arm64_fneg (is_double : bool) (fd fn : Z) : Z :=
  let base := if is_double then 0x1E614000 else 0x1E214000 in
  base .| (R5 fn .<< 5) .| R5 fd.

Definition arm64_fcmp (is_double : bool) (fn fm : Z) : Z :=
  let base := if is_double then 0x1E602000 else 0x1E202000 in
  base .| (R5 fm .<< 16) .| (R5 fn .<< 5).

Definition arm64_scvtf (is_double : bool) (fd xn : Z) : Z :=
  let base := if is_double then 0x9E620000 else 0x9E220000 in
  base .| (R5 xn .<< 5) .| R5 fd.

Definition arm64_fcvtzs (is_double : bool) (xd fn : Z) : Z :=
  let base := if is_double then 0x9E780000 else 0x9E380000 in
  base .| (R5 fn .<< 5) .| R5 xd.

Definition arm64_ucvtf (is_double : bool) (fd xn : Z) : Z :=
  let base := if is_double then 0x9E630000 else 0x9E230000 in
  base .| (R5 xn .<< 5) .| R5 fd.

Definition arm64_fcvtzu (is_double : bool) (xd fn : Z) : Z :=
  let base := if is_double then 0x9E790000 else 0x9E390000 in
  base .| (R5 fn .<< 5) .| R5 xd.

Definition arm64_fcvt (to_double : bool) (fd fn : Z) : Z :=
  let base := if to_double then 0x1E22C000 else 0x1E624000 in
  base .| (R5 fn .<< 5) .| R5 fd.

Definition arm64_fcvt_h2s (sd hn : Z) : Z :=
  0x1EE24000 .| (R5 hn .<< 5) .| R5 sd.

Definition arm64_fcvt_s2h (hd sn : Z) : Z :=
  0x1E23C000 .| (R5 sn .<< 5) .| R5 hd.

Definition arm64_fmov_gp (is_double : bool) (fd xn : Z) : Z :=
  let base := if is_double then 0x9E670000 else 0x1E270000 in
  base .| (R5 xn .<< 5) .| R5 fd.

Definition arm64_fmov_to_gp (is_double : bool) (xd fn : Z) : Z :=
  let base := if is_double then 0x9E660000 else 0x1E260000 in
  base .| (R5 fn .<< 5) .| R5 xd.

Definition arm64_fmov_reg (is_double : bool) (fd fn : Z) : Z :=
  let base := if is_double then 0x1E604000 else 0x1E204000 in
  base .| (R5 fn .<< 5) .| R5 fd.

Definition arm64_ldr_fp (is_double : bool) (ft rn offset_bytes : Z) : Z :=
  let base := if is_double then 0xFD400000 else 0xBD400000 in
  let s := u32 (offset_bytes `quot` (if is_double then 8 else 4)) .& 0xFFF in
  base .| (s .<< 10) .| (R5 rn .<< 5) .| R5 ft.

Definition arm64_str_fp (is_double : bool) (ft rn offset_bytes : Z) : Z :=
  let base := if is_double then 0xFD000000 else 0xBD000000 in
  let s := u32 (offset_bytes `quot` (if is_double then 8 else 4)) .& 0xFFF in
  base .| (s .<< 10) .| (R5 rn .<< 5) .| R5 ft.

Definition arm64_stp_pre (is64 : bool) (rt rt2 rn offset_bytes : Z) : Z :=
  let base := if is64 then 0xA9800000 else 0x29800000 in
  let scale := if is64 then 8 else 4 in
  let imm7 := u32 ((offset_bytes `quot` scale) .& 0x7F) in
  base .| (imm7 .<< 15) .| (R5 rt2 .<< 10) .| (R5 rn .<< 5) .| R5 rt.

Definition arm64_ldp_post (is64 : bool) (rt rt2 rn offset_bytes : Z) : Z :=
  let base := if is64 then 0xA8C00000 else 0x28C00000 in
  let scale := if is64 then 8 else 4 in
  let imm7 := u32 ((offset_bytes `quot` scale) .& 0x7F) in
  base .| (imm7 .<< 15) .| (R5 rt2 .<< 10) .| (R5 rn .<< 5) .| R5 rt.

Definition arm64_b (offset_bytes : Z) : Z :=
  0x14000000 .| (u32 (offset_bytes .>> 2) .& 0x03FFFFFF).

Definition arm64_bl (offset_bytes : Z) : Z :=
  0x94000000 .| (u32 (offset_bytes .>> 2) .& 0x03FFFFFF).

Definition arm64_bcond (cond offset_bytes : Z) : Z :=
  let imm19 := u32 (offset_bytes .>> 2) .& 0x7FFFF in
  0x54000000 .| (imm19 .<< 5) .| (u32 cond .& 0xF).

Definition arm64_cbz (is64 : bool) (rt offset_bytes : Z) : Z :=
  let base := if is64 then 0xB4000000 else 0x34000000 in
  let imm19 := u32 (offset_bytes .>> 2) .& 0x7FFFF in
  base .| (imm19 .<< 5) .| R5 rt.

Definition arm64_cbnz (is64 : bool) (rt offset_bytes : Z) : Z :=
  let base := if is64 then 0xB5000000 else 0x35000000 in
  let imm19 := u32 (offset_bytes .>> 2) .& 0x7FFFF in
  base .| (imm19 .<< 5) .| R5 rt.

Definition arm64_br (rn : Z) : Z :=
  0xD61F0000 .| (R5 rn .<< 5).

Definition arm64_blr (rn : Z) : Z :=
  0xD63F0000 .| (R5 rn .<< 5).

Definition arm64_ret (rn : Z) : Z :=
  0xD65F0000 .| (R5 rn .<< 5).

(** * The decoder *)

Inductive Arm64DisOp :=
| ARM64_DIS_UNKNOWN
| ARM64_DIS_NOP | ARM64_DIS_MOV | ARM64_DIS_MOVZ | ARM64_DIS_MOVN | ARM64_DIS_MOVK
| ARM64_DIS_ADD_REG | ARM64_DIS_SUB_REG | ARM64_DIS_AND_REG | ARM64_DIS_ORR_REG
| ARM64_DIS_EOR_REG | ARM64_DIS_ADD_IMM | ARM64_DIS_SUB_IMM | ARM64_DIS_SUBS_REG
| ARM64_DIS_SUBS_IMM | ARM64_DIS_MADD | ARM64_DIS_MSUB | ARM64_DIS_SDIV
| ARM64_DIS_UDIV | ARM64_DIS_LSLV | ARM64_DIS_LSRV | ARM64_DIS_ASRV
| ARM64_DIS_UBFM | ARM64_DIS_SBFM | ARM64_DIS_CSEL | ARM64_DIS_CSINC
| ARM64_DIS_LDR_IMM | ARM64_DIS_STR_IMM | ARM64_DIS_STP | ARM64_DIS_LDP
| ARM64_DIS_B | ARM64_DIS_BL | ARM64_DIS_BCOND | ARM64_DIS_CBZ | ARM64_DIS_CBNZ
| ARM64_DIS_BR | ARM64_DIS_BLR | ARM64_DIS_RET.

Record Arm64Inst := mkArm64Inst {
  op : Arm64DisOp;
  is64 : Z;
  rd : Z; rn : Z; rm : Z; rt : Z; rt2 : Z; ra : Z;
  imm : Z;
  hw : Z;
  cond : Z;
  immr : Z; imms : Z
}.

(** [(long long)((v ^ m) - m)] on 64-bit words. *)
Definition sign_extend (value bits : Z) : Z :=
  let m := u64 (Z.shiftl 1 (bits - 1)) in
  let v := value .& u64 (u64 (Z.shiftl 1 bits) - 1) in
  i64 (u64 (Z.lxor v m - m)).

(** The fields every word is given before its class is known. *)
Definition decode_fields (w : Z) : Arm64Inst :=
  mkArm64Inst ARM64_DIS_UNKNOWN (w .>> 31) (w .& 0x1F) ((w .>> 5) .& 0x1F)
    ((w .>> 16) .& 0x1F) (w .& 0x1F) ((w .>> 10) .& 0x1F) ((w .>> 10) .& 0x1F)
    0 ((w .>> 21) .& 3) 0 ((w .>> 16) .& 0x3F) ((w .>> 10) .& 0x3F).

Definition set_op (o : Arm64DisOp) (i : Arm64Inst) : Arm64Inst :=
  mkArm64Inst o (is64 i) (rd i) (rn i) (rm i) (rt i) (rt2 i) (ra i) (imm i) (hw i) (cond i)
    (immr i) (imms i).
Definition set_imm (v : Z) (i : Arm64Inst) : Arm64Inst :=
  mkArm64Inst (op i) (is64 i) (rd i) (rn i) (rm i) (rt i) (rt2 i) (ra i) v (hw i) (cond i)
    (immr i) (imms i).
Definition set_cond (v : Z) (i : Arm64Inst) : Arm64Inst :=
  mkArm64Inst (op i) (is64 i) (rd i) (rn i) (rm i) (rt i) (rt2 i) (ra i) (imm i) (hw i) v
    (immr i) (imms i).
Definition set_is64 (v : Z) (i : Arm64Inst) : Arm64Inst :=
  mkArm64Inst (op i) v (rd i) (rn i) (rm i) (rt i) (rt2 i) (ra i) (imm i) (hw i) (cond i)
    (immr i) (imms i).

Definition arm64_decode (w : Z) : Arm64Inst :=
  let i := decode_fields w in
  if w =? 0xD503201F then set_op ARM64_DIS_NOP i
  else if (w .& 0xFFFFFC1F) =? 0xD61F0000 then set_op ARM64_DIS_BR i
  else if (w .& 0xFFFFFC1F) =? 0xD63F0000 then set_op ARM64_DIS_BLR i
  else if (w .& 0xFFFFFC1F) =? 0xD65F0000 then set_op ARM64_DIS_RET i
  else if ((w .>> 23) .& 0x3F) =? 0x25 then
    let opc := (w .>> 29) .& 3 in
    set_op (if opc =? 0 then ARM64_DIS_MOVN
            else if opc =? 2 then ARM64_DIS_MOVZ else ARM64_DIS_MOVK)
      (set_imm ((w .>> 5) .& 0xFFFF) i)
  else if ((w .>> 23) .& 0x3F) =? 0x22 then
    let op := (w .>> 30) .& 1 in
    let s := (w .>> 29) .& 1 in
    let sh := (w .>> 22) .& 1 in
    set_op (if negb (s =? 0) then ARM64_DIS_SUBS_IMM
            else if negb (op =? 0) then ARM64_DIS_SUB_IMM else ARM64_DIS_ADD_IMM)
      (set_imm (Z.shiftl ((w .>> 10) .& 0xFFF) (if negb (sh =? 0) then 12 else 0)) i)
  else if ((w .>> 23) .& 0x3F) =? 0x26 then
    let opc := (w .>> 29) .& 3 in
    set_op (if opc =? 0 then ARM64_DIS_SBFM else ARM64_DIS_UBFM) i
  else if ((w .>> 24) .& 0x1F) =? 0x0A then
    let opc := (w .>> 29) .& 3 in
    let n := (w .>> 21) .& 1 in
    set_op (if (opc =? 1) && (n =? 0) then
              (if rn i =? 31 then ARM64_DIS_MOV else ARM64_DIS_ORR_REG)
            else if opc =? 0 then ARM64_DIS_AND_REG
            else if opc =? 2 then ARM64_DIS_EOR_REG
            else ARM64_DIS_ORR_REG) i
  else if ((w .>> 24) .& 0x1F) =? 0x0B then
    let op := (w .>> 30) .& 1 in
    let s := (w .>> 29) .& 1 in
    set_op (if negb (s =? 0) then ARM64_DIS_SUBS_REG
            else if negb (op =? 0) then ARM64_DIS_SUB_REG else ARM64_DIS_ADD_REG) i
  else if (((w .>> 24) .& 0x1F) =? 0x1B) && (((w .>> 29) .& 3) =? 0) then
    let o0 := (w .>> 15) .& 1 in
    set_op (if negb (o0 =? 0) then ARM64_DIS_MSUB else ARM64_DIS_MADD) i
  else if ((w .>> 21) .& 0xFF) =? 0xD6 then
    let opcode := (w .>> 10) .& 0x3F in
    set_op (if opcode =? 0x02 then ARM64_DIS_UDIV
            else if opcode =? 0x03 then ARM64_DIS_SDIV
            else if opcode =? 0x08 then ARM64_DIS_LSLV
            else if opcode =? 0x09 then ARM64_DIS_LSRV
            else if opcode =? 0x0A then ARM64_DIS_ASRV
            else ARM64_DIS_UNKNOWN) i
  else if ((w .>> 21) .& 0xFF) =? 0xD4 then
    let op2 := (w .>> 10) .& 3 in
    set_op (if op2 =? 1 then ARM64_DIS_CSINC else ARM64_DIS_CSEL)
      (set_cond ((w .>> 12) .& 0xF) i)
  else if (((w .>> 27) .& 0x7) =? 0x7) && (((w .>> 26) .& 1) =? 0) &&
          (((w .>> 24) .& 0x3) =? 0x1) then
    let size := (w .>> 30) .& 3 in
    let opc := (w .>> 22) .& 3 in
    let scale := if size =? 3 then 8 else 4 in
    set_op (if opc =? 0 then ARM64_DIS_STR_IMM else ARM64_DIS_LDR_IMM)
      (set_imm (((w .>> 10) .& 0xFFF) * scale) (set_is64 (if size =? 3 then 1 else 0) i))
  else if (((w .>> 27) .& 0x7) =? 0x5) && (((w .>> 26) .& 1) =? 0) then
    let l := (w .>> 22) .& 1 in
    let opc := (w .>> 30) .& 3 in
    let scale := if opc =? 2 then 8 else 4 in
    set_op (if negb (l =? 0) then ARM64_DIS_LDP else ARM64_DIS_STP)
      (set_imm (sign_extend ((w .>> 15) .& 0x7F) 7 * scale)
        (set_is64 (if opc =? 2 then 1 else 0) i))
  else if ((w .>> 25) .& 0x3F) =? 0x1A then
    set_op (if negb (((w .>> 24) .& 1) =? 0) then ARM64_DIS_CBNZ else ARM64_DIS_CBZ)
      (set_imm (sign_extend ((w .>> 5) .& 0x7FFFF) 19 * 4) i)
  else if ((w .>> 24) .& 0xFF) =? 0x54 then
    set_op ARM64_DIS_BCOND
      (set_imm (sign_extend ((w .>> 5) .& 0x7FFFF) 19 * 4) (set_cond (w .& 0xF) i))
  else if ((w .>> 26) .& 0x3F) =? 0x05 then
    set_op ARM64_DIS_B (set_imm (sign_extend (w .& 0x03FFFFFF) 26 * 4) i)
  else if ((w .>> 26) .& 0x3F) =? 0x25 then
    set_op ARM64_DIS_BL (set_imm (sign_extend (w .& 0x03FFFFFF) 26 * 4) i)
  else i.


(** * Words as sums of fields *)

Lemma lor_field base f k w :
  0 <= k -> 0 <= w -> 0 <= f < 2 ^ w -> base / 2 ^ k mod 2 ^ w = 0 ->
  Z.lor base (f * 2 ^ k) = base + f * 2 ^ k.
Proof.
  intros Hk Hw Hf Hb. symmetry. apply Z.add_nocarry_lor.
  replace (f * 2 ^ k) with (Z.shiftl f k) by (by rewrite Z.shiftl_mul_pow2).
  replace f with (Z.land f (Z.ones w)) by (rewrite Z.land_ones by done; by apply Z.mod_small).
  rewrite <- Z.shiftr_div_pow2, <- Z.land_ones in Hb by done.
  apply Z.bits_inj'. intros i Hi. rewrite Z.land_spec, Z.shiftl_spec, Z.bits_0 by done.
  destruct (Z.lt_ge_cases i k); [rewrite (Z.testbit_neg_r _ (i - k)) by lia; by rewrite andb_false_r|].
  assert (Z.testbit (Z.land (Z.shiftr base k) (Z.ones w)) (i - k) = false) as H0
    by (by rewrite Hb, Z.bits_0).
  rewrite Z.land_spec, Z.shiftr_spec in H0 by lia. rewrite Z.land_spec.
  replace (i - k + k) with i in H0 by lia.
  destruct (Z.testbit base i), (Z.testbit (Z.ones w) (i - k)), (Z.testbit f (i - k)); done.
Qed.

(** The same, for the code's way of placing a field. *)
Lemma lor_shl base f k w :
  0 <= k -> 0 <= w -> k + w <= 32 -> 0 <= f < 2 ^ w -> base / 2 ^ k mod 2 ^ w = 0 ->
  base .| (f .<< k) = base + f * 2 ^ k.
Proof.
  intros Hk Hw Hkw Hf Hb. rewrite Z.shiftl_mul_pow2, wrapu_small.
  - by apply (lor_field base f k w).
  - assert (2 ^ w * 2 ^ k <= 2 ^ 32) by (rewrite <- Z.pow_add_r by lia; apply Z.pow_le_mono_r; lia).
    assert (0 < 2 ^ k) by (apply Z.pow_pos_nonneg; lia). unfold in_u. nia.
  - done.
Qed.

Lemma R5_small x : in_u 5 x -> R5 x = x.
Proof. intros H. unfold R5. rewrite (land_mask _ 5) by lia. by apply Z.mod_small. Qed.

(** The mask that blanks the [rn] field. *)
Lemma land_no_rn w : in_u 32 w -> w .& 0xFFFFFC1F = w - (w / 2 ^ 5 mod 2 ^ 5) * 2 ^ 5.
Proof.
  intros Hw. rewrite <- (land_field w 5 5 0x3E0) by lia.
  assert (w = Z.land w 0xFFFFFC1F + Z.land w 0x3E0); [|lia].
  rewrite Z.add_nocarry_lor.
  - rewrite <- Z.land_lor_distr_r. change (Z.lor 0xFFFFFC1F 0x3E0) with (2 ^ 32 - 1).
    rewrite (land_mask _ 32) by lia. symmetry. by apply Z.mod_small.
  - rewrite (Z.land_comm w 0x3E0), Z.land_assoc, <- (Z.land_assoc w).
    change (Z.land 0xFFFFFC1F 0x3E0) with 0. by rewrite Z.land_0_r.
Qed.

Lemma sign_extend_spec v bits : 0 < bits < 64 -> in_u bits v -> sign_extend v bits = wraps bits v.
Proof.
  intros Hb Hv. unfold sign_extend. cbv zeta. unfold in_u in Hv.
  assert (0 < 2 ^ (bits - 1)) by (apply Z.pow_pos_nonneg; lia).
  assert (2 ^ bits = 2 * 2 ^ (bits - 1)) as E by (rewrite <- Z.pow_succ_r by lia; f_equal; lia).
  assert (2 ^ bits <= 2 ^ 63) by (apply Z.pow_le_mono_r; lia).
  rewrite !Z.shiftl_mul_pow2, !Z.mul_1_l by lia.
  rewrite (wrapu_small 64 (2 ^ (bits - 1))), (wrapu_small 64 (2 ^ bits)), (wrapu_small 64 (_ - 1))
    by (unfold in_u; lia).
  rewrite (land_mask v bits), (Z.mod_small v) by lia.
  set (m := 2 ^ (bits - 1)) in *.
  assert (Z.lxor v m = if v <? m then v + m else v - m) as ->.
  { destruct (Z.ltb_spec v m).
    - symmetry. apply Z.add_nocarry_lxor.
      pose proof (land_bit v (bits - 1) ltac:(lia)) as L. fold m in L. rewrite L.
      rewrite Z.div_small by lia. done.
    - assert (v = (v - m) + m) as Ev by lia.
      assert (Z.lxor (v - m) m = v) as Ex.
      { rewrite <- Z.add_nocarry_lxor; [lia|].
        pose proof (land_bit (v - m) (bits - 1) ltac:(lia)) as L. fold m in L. rewrite L.
        rewrite Z.div_small by lia. done. }
      rewrite <- Ex at 1. rewrite Z.lxor_assoc, Z.lxor_nilpotent. apply Z.lxor_0_r. }
  rewrite wraps_wrapu by lia. unfold wraps at 2. fold m.
  destruct (Z.ltb_spec v m).
  - rewrite (Z.mod_small (v + m)) by lia. rewrite wraps_small by (unfold in_s; simpl; lia). done.
  - replace (v + m) with (v - m + 1 * 2 ^ bits) by lia. rewrite Z_mod_plus_full, Z.mod_small by lia.
    rewrite wraps_small by (unfold in_s; simpl; lia). done.
Qed.
(** * Instructions of the decodable subset *)

Inductive Reg3Op := RAdd | RSub | RAnd | ROrr | REor | RSdiv | RUdiv | RLslv | RLsrv | RAsrv.
Inductive WideOp := WMovz | WMovn | WMovk.
Inductive RegJump := JBr | JBlr | JRet.

Inductive insn :=
| Nop
| MovReg (sf : bool) (d m : Z)
| MovWide (o : WideOp) (sf : bool) (d i h : Z)
| Reg3 (o : Reg3Op) (sf : bool) (d n m : Z)
| AddSubImm (sub sf : bool) (d n i : Z) (sh : bool)
| CmpReg (sf : bool) (n m : Z)
| CmpImm (sf : bool) (n i : Z) (sh : bool)
| MulAcc (sub sf : bool) (d n m a : Z)
| Bitfield (sf signed : bool) (d n r s : Z)
| Csel (sf : bool) (d n m c : Z)
| Cset (sf : bool) (d c : Z)
| LoadStore (load sf : bool) (t n off : Z)
| Pair (load sf : bool) (t t2 n off : Z)
| Jump (link : bool) (off : Z)
| JumpCond (c off : Z)
| CmpJump (nz sf : bool) (t off : Z)
| JumpReg (o : RegJump) (n : Z).

Definition encode (i : insn) : Z :=
  match i with
  | Nop => arm64_nop
  | MovReg sf d m => arm64_mov_reg sf d m
  | MovWide WMovz sf d i h => arm64_movz sf d i h
  | MovWide WMovn sf d i h => arm64_movn sf d i h
  | MovWide WMovk sf d i h => arm64_movk sf d i h
  | Reg3 RAdd sf d n m => arm64_add_reg sf d n m
  | Reg3 RSub sf d n m => arm64_sub_reg sf d n m
  | Reg3 RAnd sf d n m => arm64_and_reg sf d n m
  | Reg3 ROrr sf d n m => arm64_orr_reg sf d n m
  | Reg3 REor sf d n m => arm64_eor_reg sf d n m
  | Reg3 RSdiv sf d n m => arm64_sdiv sf d n m
  | Reg3 RUdiv sf d n m => arm64_udiv sf d n m
  | Reg3 RLslv sf d n m => arm64_lslv sf d n m
  | Reg3 RLsrv sf d n m => arm64_lsrv sf d n m
  | Reg3 RAsrv sf d n m => arm64_asrv sf d n m
  | AddSubImm false sf d n i sh => arm64_add_imm sf d n i sh
  | AddSubImm true sf d n i sh => arm64_sub_imm sf d n i sh
  | CmpReg sf n m => arm64_cmp_reg sf n m
  | CmpImm sf n i sh => arm64_cmp_imm sf n i sh
  | MulAcc false sf d n m a => arm64_madd sf d n m a
  | MulAcc true sf d n m a => arm64_msub sf d n m a
  | Bitfield sf sg d n r s => arm64_bfm sf sg d n r s
  | Csel sf d n m c => arm64_csel sf d n m c
  | Cset sf d c => arm64_cset sf d c
  | LoadStore false sf t n off => arm64_str_imm sf t n off
  | LoadStore true sf t n off => arm64_ldr_imm sf t n off
  | Pair false sf t t2 n off => arm64_stp_pre sf t t2 n off
  | Pair true sf t t2 n off => arm64_ldp_post sf t t2 n off
  | Jump false off => arm64_b off
  | Jump true off => arm64_bl off
  | JumpCond c off => arm64_bcond c off
  | CmpJump false sf t off => arm64_cbz sf t off
  | CmpJump true sf t off => arm64_cbnz sf t off
  | JumpReg JBr n => arm64_br n
  | JumpReg JBlr n => arm64_blr n
  | JumpReg JRet n => arm64_ret n
  end.

Definition scale (sf : bool) : Z := if sf then 8 else 4.
Definition word_width (sf : bool) : Z := if sf then 64 else 32.

(** Operands that fit their fields. *)
Definition encodable (i : insn) : Prop :=
  match i with
  | Nop => True
  | MovReg _ d m => in_u 5 d /\ in_u 5 m
  | MovWide _ _ d i h => in_u 5 d /\ in_u 16 i /\ in_u 2 h
  | Reg3 _ _ d n m => in_u 5 d /\ in_u 5 n /\ in_u 5 m
  | AddSubImm _ _ d n i _ => in_u 5 d /\ in_u 5 n /\ in_u 12 i
  | CmpReg _ n m => in_u 5 n /\ in_u 5 m
  | CmpImm _ n i _ => in_u 5 n /\ in_u 12 i
  | MulAcc _ _ d n m a => in_u 5 d /\ in_u 5 n /\ in_u 5 m /\ in_u 5 a
  | Bitfield sf _ d n r s =>
      in_u 5 d /\ in_u 5 n /\ 0 <= r < word_width sf /\ 0 <= s < word_width sf
  | Csel _ d n m c => in_u 5 d /\ in_u 5 n /\ in_u 5 m /\ in_u 4 c
  | Cset _ d c => in_u 5 d /\ in_u 4 c
  | LoadStore _ sf t n off =>
      in_u 5 t /\ in_u 5 n /\ off mod scale sf = 0 /\ 0 <= off < 4096 * scale sf
  | Pair _ sf t t2 n off =>
      in_u 5 t /\ in_u 5 t2 /\ in_u 5 n /\ off mod scale sf = 0 /\
      - 64 * scale sf <= off < 64 * scale sf
  | Jump _ off => off mod 4 = 0 /\ - 2 ^ 27 <= off < 2 ^ 27
  | JumpCond c off => in_u 4 c /\ off mod 4 = 0 /\ - 2 ^ 20 <= off < 2 ^ 20
  | CmpJump _ _ t off => in_u 5 t /\ off mod 4 = 0 /\ - 2 ^ 20 <= off < 2 ^ 20
  | JumpReg _ n => in_u 5 n
  end.

(** What the decoder must report of an instruction. *)
Definition reports (i : insn) (x : Arm64Inst) : Prop :=
  match i with
  | Nop => op x = ARM64_DIS_NOP
  | MovReg sf d m => op x = ARM64_DIS_MOV /\ is64 x = Z.b2z sf /\ rd x = d /\ rm x = m
  | MovWide o sf d i h =>
      op x = match o with WMovz => ARM64_DIS_MOVZ | WMovn => ARM64_DIS_MOVN | WMovk => ARM64_DIS_MOVK end /\
      is64 x = Z.b2z sf /\ rd x = d /\ imm x = i /\ hw x = h
  | Reg3 o sf d n m =>
      op x = match o with
             | RAdd => ARM64_DIS_ADD_REG | RSub => ARM64_DIS_SUB_REG | RAnd => ARM64_DIS_AND_REG
             | ROrr => if n =? 31 then ARM64_DIS_MOV else ARM64_DIS_ORR_REG
             | REor => ARM64_DIS_EOR_REG | RSdiv => ARM64_DIS_SDIV | RUdiv => ARM64_DIS_UDIV
             | RLslv => ARM64_DIS_LSLV | RLsrv => ARM64_DIS_LSRV | RAsrv => ARM64_DIS_ASRV
             end /\
      is64 x = Z.b2z sf /\ rd x = d /\ rn x = n /\ rm x = m
  | AddSubImm sub sf d n i sh =>
      op x = (if sub then ARM64_DIS_SUB_IMM else ARM64_DIS_ADD_IMM) /\
      is64 x = Z.b2z sf /\ rd x = d /\ rn x = n /\ imm x = if sh then i * 2 ^ 12 else i
  | CmpReg sf n m =>
      op x = ARM64_DIS_SUBS_REG /\ is64 x = Z.b2z sf /\ rd x = ARM64_XZR /\ rn x = n /\ rm x = m
  | CmpImm sf n i sh =>
      op x = ARM64_DIS_SUBS_IMM /\ is64 x = Z.b2z sf /\ rd x = ARM64_XZR /\ rn x = n /\
      imm x = if sh then i * 2 ^ 12 else i
  | MulAcc sub sf d n m a =>
      op x = (if sub then ARM64_DIS_MSUB else ARM64_DIS_MADD) /\
      is64 x = Z.b2z sf /\ rd x = d /\ rn x = n /\ rm x = m /\ ra x = a
  | Bitfield sf sg d n r s =>
      op x = (if sg then ARM64_DIS_SBFM else ARM64_DIS_UBFM) /\
      is64 x = Z.b2z sf /\ rd x = d /\ rn x = n /\ immr x = r /\ imms x = s
  | Csel sf d n m c =>
      op x = ARM64_DIS_CSEL /\ is64 x = Z.b2z sf /\ rd x = d /\ rn x = n /\ rm x = m /\ cond x = c
  | Cset sf d c =>
      op x = ARM64_DIS_CSINC /\ is64 x = Z.b2z sf /\ rd x = d /\ rn x = ARM64_XZR /\
      rm x = ARM64_XZR /\ cond x = arm64_invert_cond c
  | LoadStore load sf t n off =>
      op x = (if load then ARM64_DIS_LDR_IMM else ARM64_DIS_STR_IMM) /\
      is64 x = Z.b2z sf /\ rt x = t /\ rn x = n /\ imm x = off
  | Pair load sf t t2 n off =>
      op x = (if load then ARM64_DIS_LDP else ARM64_DIS_STP) /\
      is64 x = Z.b2z sf /\ rt x = t /\ rt2 x = t2 /\ rn x = n /\ imm x = off
  | Jump link off => op x = (if link then ARM64_DIS_BL else ARM64_DIS_B) /\ imm x = off
  | JumpCond c off => op x = ARM64_DIS_BCOND /\ cond x = c /\ imm x = off
  | CmpJump nz sf t off =>
      op x = (if nz then ARM64_DIS_CBNZ else ARM64_DIS_CBZ) /\
      is64 x = Z.b2z sf /\ rt x = t /\ imm x = off
  | JumpReg o n =>
      op x = match o with JBr => ARM64_DIS_BR | JBlr => ARM64_DIS_BLR | JRet => ARM64_DIS_RET end /\ rn x = n
  end.

(** ** Words in positional form

    A word is written [((B * 2^w1 + f1) * 2^w2 + f2) ...], its opcode [B]
    followed by its fields.  The rules below read any bit range of it. *)

Lemma pos_div x f w a b : 0 <= f < 2 ^ w -> 0 <= w -> 0 <= b -> a = w + b ->
  (x * 2 ^ w + f) / 2 ^ a = x / 2 ^ b.
Proof.
  intros Hf Hw Hb ->. rewrite Z.pow_add_r, <- Z.div_div by lia.
  rewrite Z.div_add_l, (Z.div_small f) by lia. by rewrite Z.add_0_r.
Qed.

Lemma pos_div_in x f w a b : 0 <= a -> 0 <= b -> w = a + b ->
  (x * 2 ^ w + f) / 2 ^ a = x * 2 ^ b + f / 2 ^ a.
Proof.
  intros Ha Hb ->. rewrite Z.pow_add_r by lia.
  replace (x * (2 ^ a * 2 ^ b) + f) with (x * 2 ^ b * 2 ^ a + f) by lia.
  by rewrite Z.div_add_l by lia.
Qed.

Lemma pos_mod x f w n b : 0 <= n -> 0 <= b -> w = n + b -> (x * 2 ^ w + f) mod 2 ^ n = f mod 2 ^ n.
Proof.
  intros Hn Hb ->. rewrite Z.pow_add_r by lia.
  replace (x * (2 ^ n * 2 ^ b) + f) with (f + x * 2 ^ b * 2 ^ n) by lia. apply Z_mod_plus_full.
Qed.

Lemma pos_mod_over x f w n b : 0 <= f < 2 ^ w -> 0 <= w -> 0 <= b -> n = w + b ->
  (x * 2 ^ w + f) mod 2 ^ n = x mod 2 ^ b * 2 ^ w + f.
Proof.
  intros Hf Hw Hb ->. rewrite Z.pow_add_r by lia.
  assert (0 < 2 ^ b) by (apply Z.pow_pos_nonneg; lia).
  rewrite (Z.div_mod x (2 ^ b)) at 1 by lia.
  replace ((2 ^ b * (x / 2 ^ b) + x mod 2 ^ b) * 2 ^ w + f)
    with (x mod 2 ^ b * 2 ^ w + f + (x / 2 ^ b) * (2 ^ w * 2 ^ b)) by lia.
  rewrite Z_mod_plus_full. apply Z.mod_small. pose proof (Z.mod_pos_bound x (2 ^ b)). nia.
Qed.

Lemma div_range f w a b : 0 <= a -> 0 <= b -> w = a + b -> 0 <= f < 2 ^ w -> 0 <= f / 2 ^ a < 2 ^ b.
Proof.
  intros Ha Hb -> Hf. rewrite Z.pow_add_r in Hf by lia. split; [apply Z.div_pos; lia|].
  apply Z.div_lt_upper_bound; lia.
Qed.

Ltac euclid := Z.to_euclidean_division_equations; lia.

(** Numerals are told apart from fields syntactically. *)
Ltac is_num x := match x with Z0 => idtac | Zpos _ => idtac | Zneg _ => idtac end.

Ltac pos_step :=
  match goal with
  | |- context [?x / 2 ^ 0] => rewrite (Z.div_1_r x : x / 2 ^ 0 = x)
  | |- context [(?x * 2 ^ ?w + ?f) / 2 ^ ?a] =>
      let c := eval vm_compute in (a - w) in
      match c with
      | Zneg ?p => rewrite (pos_div_in x f w a (Zpos p)) by (reflexivity || lia)
      | _ => rewrite (pos_div x f w a c) by (assumption || reflexivity || lia)
      end
  | H : 0 <= ?f < 2 ^ ?w |- context [?f / 2 ^ ?a] =>
      let b := eval vm_compute in (w - a) in
      match b with Zneg _ => fail 1 | _ =>
        let q := fresh "part" in
        let Hq := fresh "Hpart" in
        pose proof (div_range f w a b ltac:(lia) ltac:(lia) eq_refl H) as Hq;
        set (q := f / 2 ^ a) in *; clearbody q end
  | |- context [(?x * 2 ^ ?w + ?f) mod 2 ^ ?n] =>
      let c := eval vm_compute in (n - w) in
      match c with
      | Zpos ?p => rewrite (pos_mod_over x f w n (Zpos p)) by (assumption || reflexivity || lia)
      | Z0 => rewrite (pos_mod x f w n 0) by (reflexivity || lia)
      | Zneg ?p => rewrite (pos_mod x f w n (Zpos p)) by (reflexivity || lia)
      end
  | |- context [?x mod 2 ^ ?n] =>
      first [ is_num x; let c := eval vm_compute in (x mod 2 ^ n) in change (x mod 2 ^ n) with c
            | rewrite (Z.mod_small x (2 ^ n)) by assumption ]
  | |- context [?x / 2 ^ ?n] =>
      is_num x; let c := eval vm_compute in (x / 2 ^ n) in change (x / 2 ^ n) with c
  end.

(** Reading the bits a test looks at, in a goal that is only that test. *)
Ltac read_bits :=
  rewrite ?Z.shiftr_div_pow2 by lia;
  rewrite ?(land_mask _ 5 0x1F), ?(land_mask _ 6 0x3F), ?(land_mask _ 2 3), ?(land_mask _ 16 0xFFFF),
    ?(land_mask _ 1 1), ?(land_mask _ 12 0xFFF), ?(land_mask _ 8 0xFF), ?(land_mask _ 4 0xF),
    ?(land_mask _ 3 0x7), ?(land_mask _ 7 0x7F), ?(land_mask _ 19 0x7FFFF),
    ?(land_mask _ 26 0x03FFFFFF) by lia;
  repeat pos_step.

Lemma if_false {A} (P : A -> Prop) (b : bool) x y : b = false -> P y -> P (if b then x else y).
Proof. by intros ->. Qed.

Lemma if_true {A} (P : A -> Prop) (b : bool) x y : b = true -> P x -> P (if b then x else y).
Proof. by intros ->. Qed.

(** A cut inside a field is only known to be in range. *)
Ltac name_mods :=
  repeat match goal with
  | |- context [?f mod 2 ^ ?n] =>
      let q := fresh "part" in
      let Hq := fresh "Hpart" in
      pose proof (Z.mod_pos_bound f (2 ^ n) ltac:(lia)) as Hq;
      set (q := f mod 2 ^ n) in *; clearbody q
  end.

Ltac decide_test :=
  read_bits; name_mods;
  first [ reflexivity
        | apply Z.eqb_neq; lia
        | apply Z.eqb_eq; lia
        | repeat apply andb_false_intro1; first [reflexivity | apply Z.eqb_neq; lia] ].

Ltac decode_step :=
  lazymatch goal with
  | |- reports ?ins (if ?t then ?x else ?y) =>
      first [ apply (if_false (reports ins) t x y); [decide_test|]
            | apply (if_true (reports ins) t x y); [decide_test|] ]
  end.

(** The operand fields, once the class is known. *)
Ltac decode_operands :=
  unfold reports;
  cbn [op is64 rd rn rm rt rt2 ra imm hw cond immr imms set_op set_imm set_cond set_is64];
  repeat match goal with x := decode_fields _ |- _ => unfold decode_fields in x; subst x end;
  cbn [op is64 rd rn rm rt rt2 ra imm hw cond immr imms];
  repeat match goal with |- _ /\ _ => split end; read_bits.

(** Evaluate an opcode given as a sum of constants. *)
Ltac eval_opcode :=
  cbn [Z.b2z]; cbv iota;
  repeat match goal with
  | |- context [?a + ?b] =>
      is_num a; let c := eval vm_compute in (a + b) in is_num c; change (a + b) with c
  end.

Ltac decode_start :=
  unfold arm64_decode; let x := fresh "x" in set (x := decode_fields _); cbv zeta;
  rewrite ?land_no_rn by (unfold in_u; lia).

(** ** Formats

    [lor_low] adds the field in the lowest bits, [lor_shl] the others. *)
Lemma lor_low base f w : 0 <= w -> 0 <= f < 2 ^ w -> base mod 2 ^ w = 0 -> base .| f = base + f.
Proof.
  intros Hw Hf Hb. pose proof (lor_field base f 0 w) as E.
  rewrite Z.pow_0_r, Z.mul_1_r, Z.div_1_r in E. apply E; lia || done.
Qed.

(** Opcode, [rm], six bits, [rn], [rd]. *)
Definition fmt_r (B m c n d : Z) : Z := (((B * 2 ^ 5 + m) * 2 ^ 6 + c) * 2 ^ 5 + n) * 2 ^ 5 + d.
(** Opcode, two six-bit fields, [rn], [rd]. *)
Definition fmt_bf (B r s n d : Z) : Z := (((B * 2 ^ 6 + r) * 2 ^ 6 + s) * 2 ^ 5 + n) * 2 ^ 5 + d.
(** Opcode, a twelve-bit immediate, [rn], [rd]. *)
Definition fmt_i (B i n d : Z) : Z := ((B * 2 ^ 12 + i) * 2 ^ 5 + n) * 2 ^ 5 + d.
(** Opcode, a position, a sixteen-bit immediate, [rd]. *)
Definition fmt_w (B h i d : Z) : Z := ((B * 2 ^ 2 + h) * 2 ^ 16 + i) * 2 ^ 5 + d.
(** Opcode, a seven-bit displacement, [rt2], [rn], [rt]. *)
Definition fmt_p (B i t2 n t : Z) : Z := (((B * 2 ^ 7 + i) * 2 ^ 5 + t2) * 2 ^ 5 + n) * 2 ^ 5 + t.
(** Opcode, a nineteen-bit displacement, five bits. *)
Definition fmt_c (B i t : Z) : Z := (B * 2 ^ 19 + i) * 2 ^ 5 + t.
(** Opcode, a twenty-six-bit displacement. *)
Definition fmt_j (B i : Z) : Z := B * 2 ^ 26 + i.

Ltac place f k w := rewrite (lor_shl _ f k w) by (unfold in_u in *; solve [lia | euclid]).
Ltac place_low f w := rewrite (lor_low _ f w) by (unfold in_u in *; solve [lia | euclid]).

Lemma enc_r base B c m n d :
  base = B * 2 ^ 21 + c * 2 ^ 10 -> in_u 6 c -> in_u 5 m -> in_u 5 n -> in_u 5 d ->
  base .| (m .<< 16) .| (n .<< 5) .| d = fmt_r B m c n d.
Proof.
  intros -> Hc Hm Hn Hd. unfold in_u, fmt_r in *.
  place m 16 5. place n 5 5. place_low d 5. lia.
Qed.

(** The multiply and select forms have part of the middle field apart. *)
Lemma enc_r_mid base B f k wf lo m n d :
  base = B * 2 ^ 21 + lo -> (k = 10 /\ wf = 5 /\ (lo = 0 \/ lo = 2 ^ 15)) \/
    (k = 12 /\ wf = 4 /\ (lo = 0 \/ lo = 2 ^ 10)) ->
  in_u wf f -> in_u 5 m -> in_u 5 n -> in_u 5 d ->
  base .| (m .<< 16) .| (f .<< k) .| (n .<< 5) .| d =
  fmt_r B m (lo / 2 ^ 10 + f * 2 ^ (k - 10)) n d.
Proof.
  intros -> Hk Hf Hm Hn Hd. unfold in_u, fmt_r in *.
  destruct Hk as [(-> & -> & [-> | ->])|(-> & -> & [-> | ->])];
    (place m 16 5; first [place f 10 5 | place f 12 4]; place n 5 5; place_low d 5).
  all: vm_compute (_ / _); vm_compute (2 ^ (_ - 10)); lia.
Qed.

Lemma enc_bf base B r s n d :
  base = B * 2 ^ 22 -> in_u 6 r -> in_u 6 s -> in_u 5 n -> in_u 5 d ->
  base .| (r .<< 16) .| (s .<< 10) .| (n .<< 5) .| d = fmt_bf B r s n d.
Proof.
  intros -> Hr Hs Hn Hd. unfold in_u, fmt_bf in *.
  place r 16 6. place s 10 6. place n 5 5. place_low d 5. lia.
Qed.

Lemma enc_i base B i n d :
  base = B * 2 ^ 22 -> in_u 12 i -> in_u 5 n -> in_u 5 d ->
  base .| (i .<< 10) .| (n .<< 5) .| d = fmt_i B i n d.
Proof.
  intros -> Hi Hn Hd. unfold in_u, fmt_i in *. place i 10 12. place n 5 5. place_low d 5. lia.
Qed.

Lemma enc_w base B h i d :
  base = B * 2 ^ 23 -> in_u 2 h -> in_u 16 i -> in_u 5 d ->
  base .| (h .<< 21) .| (i .<< 5) .| d = fmt_w B h i d.
Proof.
  intros -> Hh Hi Hd. unfold in_u, fmt_w in *. place h 21 2. place i 5 16. place_low d 5. lia.
Qed.

Lemma enc_p base B i t2 n t :
  base = B * 2 ^ 22 -> in_u 7 i -> in_u 5 t2 -> in_u 5 n -> in_u 5 t ->
  base .| (i .<< 15) .| (t2 .<< 10) .| (n .<< 5) .| t = fmt_p B i t2 n t.
Proof.
  intros -> Hi H2 Hn Ht. unfold in_u, fmt_p in *.
  place i 15 7. place t2 10 5. place n 5 5. place_low t 5. lia.
Qed.

Lemma enc_c base B i t :
  base = B * 2 ^ 24 -> in_u 19 i -> in_u 5 t -> base .| (i .<< 5) .| t = fmt_c B i t.
Proof.
  intros -> Hi Ht. unfold in_u, fmt_c in *. place i 5 19. place_low t 5. lia.
Qed.

Lemma enc_j base B i : base = B * 2 ^ 26 -> in_u 26 i -> base .| i = fmt_j B i.
Proof. intros -> Hi. unfold in_u, fmt_j in *. by place_low i 26. Qed.
End Arm64.
