(* ===== verification/Arm64Decode.v ===== *)
(** Decoding undoes encoding for the AArch64 words of [Arm64Encode]:
    one lemma per instruction format, then the theorem on the whole
    decodable subset, and the meaning of the shift and extension aliases. *)
From S2P Require Import Prelude Arm64Encode.

Module Arm64Dec.
Import Arm64.

#[local] Open Scope word_scope.

(** ** Decoding each format *)

(** Displacements are left to the caller, who knows their sign extension. *)
Ltac finish :=
  lazymatch goal with
  | |- context [sign_extend] => idtac
  | |- context [Z.shiftl] => idtac
  | _ => first [ reflexivity | lia | idtac ]
  end.

Lemma decode_reg3 o sf d n m :
  encodable (Reg3 o sf d n m) -> reports (Reg3 o sf d n m) (arm64_decode (encode (Reg3 o sf d n m))).
Proof.
  intros (Hd & Hn & Hm).
  assert (exists B c, encode (Reg3 o sf d n m) = fmt_r B m c n d /\
    match o with
    | RAdd => B = 0x58 + Z.b2z sf * 2 ^ 10 /\ c = 0
    | RSub => B = 0x258 + Z.b2z sf * 2 ^ 10 /\ c = 0
    | RAnd => B = 0x50 + Z.b2z sf * 2 ^ 10 /\ c = 0
    | ROrr => B = 0x150 + Z.b2z sf * 2 ^ 10 /\ c = 0
    | REor => B = 0x250 + Z.b2z sf * 2 ^ 10 /\ c = 0
    | RSdiv => B = 0xD6 + Z.b2z sf * 2 ^ 10 /\ c = 3
    | RUdiv => B = 0xD6 + Z.b2z sf * 2 ^ 10 /\ c = 2
    | RLslv => B = 0xD6 + Z.b2z sf * 2 ^ 10 /\ c = 8
    | RLsrv => B = 0xD6 + Z.b2z sf * 2 ^ 10 /\ c = 9
    | RAsrv => B = 0xD6 + Z.b2z sf * 2 ^ 10 /\ c = 10
    end) as (B & c & E & HB).
  { destruct o, sf; eexists _, _; (split; [|split; reflexivity]); cbn [encode];
      unfold arm64_add_reg, arm64_sub_reg, arm64_and_reg, arm64_orr_reg, arm64_eor_reg,
        arm64_sdiv, arm64_udiv, arm64_lslv, arm64_lsrv, arm64_asrv; cbv zeta;
      rewrite !R5_small by done; apply enc_r; first [reflexivity | done | unfold in_u; lia]. }
  rewrite E. clear E. unfold in_u in *.
  destruct o, sf; destruct HB as [-> ->]; eval_opcode; unfold fmt_r;
    decode_start; repeat decode_step; decode_operands; finish.
Qed.
Ltac decode_fmt := unfold in_u in *; decode_start; repeat decode_step; decode_operands; finish.

Lemma decode_movwide o sf d i h :
  encodable (MovWide o sf d i h) -> reports (MovWide o sf d i h) (arm64_decode (encode (MovWide o sf d i h))).
Proof.
  intros (Hd & Hi & Hh).
  assert (encode (MovWide o sf d i h) =
    fmt_w (match o with WMovn => 0x25 | WMovz => 0xA5 | WMovk => 0xE5 end + Z.b2z sf * 2 ^ 8) h i d) as ->.
  { assert (u32 h .& 3 = h) as Eh.
    { rewrite (land_mask _ 2) by lia. unfold in_u in *. rewrite wrapu_small by (unfold in_u; lia).
      by apply Z.mod_small. }
    destruct o, sf; cbn [encode]; unfold arm64_movz, arm64_movn, arm64_movk; cbv zeta;
      rewrite Eh, R5_small by done; by apply enc_w. }
  destruct o, sf; eval_opcode; unfold fmt_w; decode_fmt.
Qed.

Lemma add_imm_form base B i n d (sh : bool) :
  base = B * 2 ^ 22 -> Z.even B = true -> in_u 12 i -> in_u 5 n -> in_u 5 d -> 0 <= B < 2 ^ 10 ->
  base .| (if sh then 1 .<< 22 else 0) .| ((i .& 0xFFF) .<< 10) .| (n .<< 5) .| d =
  fmt_i (B + Z.b2z sh) i n d.
Proof.
  intros -> HB Hi Hn Hd HB'.
  rewrite (land_mask i 12), (Z.mod_small i) by (done || lia).
  apply Z.even_spec in HB as [q ->].
  apply enc_i; [|done..]. destruct sh; cbn [Z.b2z]; [|rewrite Z.lor_0_r; lia].
  rewrite (lor_shl _ 1 22 1); [lia..|]. euclid.
Qed.

Lemma decode_addsubimm sub sf d n i sh :
  encodable (AddSubImm sub sf d n i sh) ->
  reports (AddSubImm sub sf d n i sh) (arm64_decode (encode (AddSubImm sub sf d n i sh))).
Proof.
  intros (Hd & Hn & Hi).
  assert (encode (AddSubImm sub sf d n i sh) =
    fmt_i ((if sub then 0x144 else 0x44) + Z.b2z sf * 2 ^ 9 + Z.b2z sh) i n d) as ->.
  { destruct sub, sf; cbn [encode]; unfold arm64_add_imm, arm64_sub_imm; cbv zeta;
      rewrite !R5_small by done; apply add_imm_form; first [done | lia]. }
  destruct sub, sf, sh; eval_opcode; unfold fmt_i; decode_fmt;
    rewrite Z.shiftl_mul_pow2 by done; reflexivity || (cbn; lia).
Qed.

Lemma cmp_low base x : Z.lor (Z.lor base 0x1F) x = Z.lor (Z.lor base x) 0x1F.
Proof. by rewrite <- !Z.lor_assoc, (Z.lor_comm 0x1F). Qed.

Lemma decode_cmpimm sf n i sh :
  encodable (CmpImm sf n i sh) -> reports (CmpImm sf n i sh) (arm64_decode (encode (CmpImm sf n i sh))).
Proof.
  intros (Hn & Hi).
  assert (encode (CmpImm sf n i sh) = fmt_i (0x1C4 + Z.b2z sf * 2 ^ 9 + Z.b2z sh) i n 31) as ->.
  { cbn [encode]. unfold arm64_cmp_imm. cbv zeta. rewrite R5_small by done.
    transitivity ((if sf then 0xF1000000 else 0x71000000) .| (if sh then 1 .<< 22 else 0) .|
      ((i .& 0xFFF) .<< 10) .| (n .<< 5) .| 0x1F).
    - rewrite <- !cmp_low. by destruct sf.
    - destruct sf; apply add_imm_form; first [done | unfold in_u; lia]. }
  destruct sf, sh; eval_opcode; unfold fmt_i; decode_fmt;
    rewrite Z.shiftl_mul_pow2 by done; reflexivity || (cbn; lia).
Qed.

Lemma decode_cmpreg sf n m :
  encodable (CmpReg sf n m) -> reports (CmpReg sf n m) (arm64_decode (encode (CmpReg sf n m))).
Proof.
  intros (Hn & Hm).
  assert (encode (CmpReg sf n m) = fmt_r (0x358 + Z.b2z sf * 2 ^ 10) m 0 n 31) as ->.
  { cbn [encode]. unfold arm64_cmp_reg. cbv zeta. rewrite !R5_small by done.
    transitivity ((if sf then 0xEB000000 else 0x6B000000) .| (m .<< 16) .| (n .<< 5) .| 0x1F).
    - rewrite <- !cmp_low. by destruct sf.
    - destruct sf; apply enc_r; first [done | unfold in_u; lia]. }
  destruct sf; eval_opcode; unfold fmt_r; decode_fmt.
Qed.

Lemma decode_movreg sf d m :
  encodable (MovReg sf d m) -> reports (MovReg sf d m) (arm64_decode (encode (MovReg sf d m))).
Proof.
  intros (Hd & Hm).
  assert (encode (MovReg sf d m) = fmt_r (0x150 + Z.b2z sf * 2 ^ 10) m 0 31 d) as ->.
  { cbn [encode]. unfold arm64_mov_reg. cbv zeta. rewrite !R5_small by done.
    transitivity ((if sf then 0xAA000000 else 0x2A000000) .| (m .<< 16) .| (31 .<< 5) .| d).
    - f_equal. rewrite <- Z.lor_assoc, (Z.lor_comm (m .<< 16)), Z.lor_assoc. f_equal. by destruct sf.
    - destruct sf; apply enc_r; first [done | unfold in_u; lia]. }
  destruct sf; eval_opcode; unfold fmt_r; decode_fmt.
Qed.

Lemma decode_mulacc sub sf d n m a :
  encodable (MulAcc sub sf d n m a) ->
  reports (MulAcc sub sf d n m a) (arm64_decode (encode (MulAcc sub sf d n m a))).
Proof.
  intros (Hd & Hn & Hm & Ha).
  assert (encode (MulAcc sub sf d n m a) =
    (((((0xD8 + Z.b2z sf * 2 ^ 10) * 2 ^ 5 + m) * 2 ^ 1 + Z.b2z sub) * 2 ^ 5 + a) * 2 ^ 5 + n) * 2 ^ 5 + d) as ->.
  { destruct sub; cbn [encode]; unfold arm64_madd, arm64_msub; cbv zeta; rewrite !R5_small by done;
    [rewrite (enc_r_mid _ (0xD8 + Z.b2z sf * 2 ^ 10) a 10 5 (2 ^ 15))|
     rewrite (enc_r_mid _ (0xD8 + Z.b2z sf * 2 ^ 10) a 10 5 0)];
    try done; try (by destruct sf); try (by tauto); unfold fmt_r;
    change (2 ^ 15 / 2 ^ 10) with 32; change (0 / 2 ^ 10) with 0; change (2 ^ (10 - 10)) with 1; cbn [Z.b2z]; lia. }
  destruct sub, sf; eval_opcode; decode_fmt.
Qed.
Lemma decode_bitfield sf sg d n r s :
  encodable (Bitfield sf sg d n r s) ->
  reports (Bitfield sf sg d n r s) (arm64_decode (encode (Bitfield sf sg d n r s))).
Proof.
  intros (Hd & Hn & Hr & Hs).
  assert (in_u 6 r /\ in_u 6 s) as [Hr6 Hs6] by (unfold in_u, word_width in *; destruct sf; lia).
  assert (encode (Bitfield sf sg d n r s) =
    fmt_bf ((if sg then 0x4C else 0x14C) + Z.b2z sf * 0x201) r s n d) as ->.
  { cbn [encode]. unfold arm64_bfm. cbv zeta. rewrite !R5_small by done.
    replace (u32 (r .& (if sf then 63 else 31))) with r.
    2: { unfold word_width in *. unfold in_u in *.
         destruct sf; [rewrite (land_mask _ 6) by lia|rewrite (land_mask _ 5) by lia];
         rewrite Z.mod_small, wrapu_small by (unfold in_u; lia); done. }
    replace (u32 (s .& (if sf then 63 else 31))) with s.
    2: { unfold word_width in *. unfold in_u in *.
         destruct sf; [rewrite (land_mask _ 6) by lia|rewrite (land_mask _ 5) by lia];
         rewrite Z.mod_small, wrapu_small by (unfold in_u; lia); done. }
    apply enc_bf; [by destruct sf, sg|done..]. }
  destruct sg, sf; eval_opcode; unfold fmt_bf; decode_fmt.
Qed.

Lemma u32_land4 c : in_u 4 c -> u32 c .& 0xF = c.
Proof.
  unfold in_u. intros Hc. rewrite wrapu_small by (unfold in_u; lia).
  rewrite (land_mask _ 4) by lia. by apply Z.mod_small.
Qed.

(** The select forms: the condition and two opcode bits share the middle. *)
Lemma enc_sel base B o c m n d :
  base = B * 2 ^ 21 + o * 2 ^ 10 -> o = 0 \/ o = 1 -> in_u 4 c -> in_u 5 m -> in_u 5 n -> in_u 5 d ->
  base .| (m .<< 16) .| (c .<< 12) .| (n .<< 5) .| d =
  ((((B * 2 ^ 5 + m) * 2 ^ 4 + c) * 2 ^ 2 + o) * 2 ^ 5 + n) * 2 ^ 5 + d.
Proof.
  intros HB Ho Hc Hm Hn Hd.
  rewrite (enc_r_mid base B c 12 4 (o * 2 ^ 10)); [|done|right; lia|done..].
  unfold fmt_r. rewrite Z.div_mul by lia. change (2 ^ (12 - 10)) with 4. lia.
Qed.

Lemma decode_csel sf d n m c :
  encodable (Csel sf d n m c) -> reports (Csel sf d n m c) (arm64_decode (encode (Csel sf d n m c))).
Proof.
  intros (Hd & Hn & Hm & Hc). cbn [encode]. unfold arm64_csel. cbv zeta.
  rewrite !R5_small, u32_land4 by done.
  rewrite (enc_sel _ (0xD4 + Z.b2z sf * 2 ^ 10) 0); [|by destruct sf|by left|done..].
  destruct sf; eval_opcode; decode_fmt.
Qed.

Lemma decode_cset sf d c :
  encodable (Cset sf d c) -> reports (Cset sf d c) (arm64_decode (encode (Cset sf d c))).
Proof.
  intros (Hd & Hc). cbn [encode]. unfold arm64_cset. cbv zeta.
  assert (in_u 4 (arm64_invert_cond c)) as Hi.
  { unfold in_u, arm64_invert_cond in *.
    assert (c = 0 \/ c = 1 \/ c = 2 \/ c = 3 \/ c = 4 \/ c = 5 \/ c = 6 \/ c = 7 \/ c = 8 \/
      c = 9 \/ c = 10 \/ c = 11 \/ c = 12 \/ c = 13 \/ c = 14 \/ c = 15) as Hv by lia.
    decompose [or] Hv; subst c; vm_compute; (split; [discriminate|reflexivity]). }
  rewrite !R5_small, u32_land4 by (done || unfold in_u, ARM64_XZR; lia).
  rewrite (enc_sel _ (0xD4 + Z.b2z sf * 2 ^ 10) 1);
    [|by destruct sf|by right|done|unfold in_u, ARM64_XZR; lia..|done].
  unfold ARM64_XZR. remember (arm64_invert_cond c) as c' eqn:Ec.
  assert (in_u 5 31) by (unfold in_u; lia).
  destruct sf; eval_opcode; decode_fmt; by rewrite Ec.
Qed.

(** Scaled displacements. *)
Lemma scaled_imm12 sf off : off mod scale sf = 0 -> 0 <= off < 4096 * scale sf ->
  u32 (off `quot` (if sf then 8 else 4)) .& 0xFFF = off / scale sf /\ in_u 12 (off / scale sf) /\
  off / scale sf * scale sf = off.
Proof.
  unfold scale, in_u. intros Hm Hr.
  replace (off `quot` (if sf then 8 else 4)) with (off / (if sf then 8 else 4))
    by (rewrite Z.quot_div_nonneg; [done|lia|destruct sf; lia]).
  assert (0 <= off / (if sf then 8 else 4) < 4096) by (destruct sf; euclid).
  rewrite wrapu_small by (unfold in_u; lia). rewrite (land_mask _ 12) by lia.
  rewrite (Z.mod_small (_ / _)) by lia. split; [done|]. split; [lia|]. destruct sf; euclid.
Qed.

Lemma decode_loadstore ld sf t n off :
  encodable (LoadStore ld sf t n off) ->
  reports (LoadStore ld sf t n off) (arm64_decode (encode (LoadStore ld sf t n off))).
Proof.
  intros (Ht & Hn & Hm & Hr). destruct (scaled_imm12 sf off Hm Hr) as (E & Hi & Eo).
  assert (encode (LoadStore ld sf t n off) =
    fmt_i (0x2E4 + Z.b2z sf * 2 ^ 8 + Z.b2z ld) (off / scale sf) n t) as ->.
  { destruct ld; cbn [encode]; unfold arm64_str_imm, arm64_ldr_imm; cbv zeta; rewrite E, !R5_small by done;
      apply enc_i; try done; by destruct sf. }
  unfold fmt_i. clear E. revert Hi Eo. generalize (off / scale sf). intros i Hi Eo.
  rewrite <- Eo. clear Eo Hm Hr.
  destruct ld, sf; unfold scale; eval_opcode; decode_fmt.
Qed.

(** Signed fields: masking and sign extension are inverse. *)
Lemma signed_field bits v m : 0 < bits < 64 -> m = 2 ^ bits - 1 -> in_s bits v ->
  in_u bits (v .& m) /\ sign_extend (v .& m) bits = v.
Proof.
  intros Hb -> Hv. rewrite (land_mask _ bits) by lia.
  assert (in_u bits (v mod 2 ^ bits)) as Hu by (apply Z.mod_pos_bound; lia).
  split; [done|]. rewrite sign_extend_spec by done.
  change (v mod 2 ^ bits) with (wrapu bits v). rewrite wraps_wrapu by lia. apply wraps_small; lia || done.
Qed.

Lemma decode_pair ld sf t t2 n off :
  encodable (Pair ld sf t t2 n off) ->
  reports (Pair ld sf t t2 n off) (arm64_decode (encode (Pair ld sf t t2 n off))).
Proof.
  intros (Ht & Ht2 & Hn & Hm & Hr).
  assert (exists q, off = q * scale sf /\ in_s 7 q /\ off `quot` (if sf then 8 else 4) = q) as (q & Eo & Hq & Eq).
  { exists (off / scale sf). unfold scale, in_s in *.
    assert (off = off / (if sf then 8 else 4) * (if sf then 8 else 4)) as E by (destruct sf; euclid).
    split; [done|]. split; [destruct sf; euclid|]. rewrite E at 1. apply Z.quot_mul. by destruct sf. }
  destruct (signed_field 7 q 0x7F) as [Hi Hs]; [lia|done..|].
  assert (encode (Pair ld sf t t2 n off) =
    fmt_p ((if ld then 0xA3 else 0xA6) + Z.b2z sf * 2 ^ 9) (q .& 0x7F) t2 n t) as ->.
  { assert (u32 (q .& 0x7F) = q .& 0x7F) as Ew by (apply wrapu_small; unfold in_u in *; lia).
    destruct ld; cbn [encode]; unfold arm64_stp_pre, arm64_ldp_post; cbv zeta; rewrite Eq, Ew, !R5_small by done;
      apply enc_p; try done; by destruct sf. }
  unfold fmt_p. rewrite Eo. revert Hs Hi. generalize (q .& 0x7F). intros i Hs Hi. clear Eq Hm Hr Eo.
  destruct ld, sf; unfold scale; eval_opcode; decode_fmt; by rewrite Hs.
Qed.

Lemma disp_words off bits : 0 < bits < 64 -> off mod 4 = 0 -> - 2 ^ (bits + 1) <= off < 2 ^ (bits + 1) ->
  exists q, off = q * 4 /\ off .>> 2 = q /\ in_s bits q.
Proof.
  intros Hb Hm Hr. exists (off / 4). rewrite Z.shiftr_div_pow2 by lia.
  assert (2 ^ (bits + 1) = 4 * 2 ^ (bits - 1)).
  { change 4 with (2 ^ 2). rewrite <- Z.pow_add_r by lia. f_equal. lia. }
  unfold in_s. split; [euclid|]. split; [done|]. euclid.
Qed.

(** The word displacement as the code masks it. *)
Lemma disp_mask q bits m : 0 < bits <= 26 -> m = 2 ^ bits - 1 -> u32 q .& m = q .& m.
Proof.
  intros Hb ->. rewrite !(land_mask _ bits) by lia. unfold wrapu.
  rewrite Z.mod_mod_divide; [done|].
  exists (2 ^ (32 - bits)). rewrite <- Z.pow_add_r by lia. f_equal. lia.
Qed.

Lemma decode_jump link off :
  encodable (Jump link off) -> reports (Jump link off) (arm64_decode (encode (Jump link off))).
Proof.
  intros (Hm & Hr). destruct (disp_words off 26) as (q & -> & Eq & Hq); [lia|done|simpl; lia|].
  destruct (signed_field 26 q 0x03FFFFFF) as [Hi Hs]; [lia|done..|].
  assert (encode (Jump link (q * 4)) = fmt_j (if link then 0x25 else 0x05) (q .& 0x03FFFFFF)) as ->.
  { destruct link; cbn [encode]; unfold arm64_b, arm64_bl; rewrite Eq, (disp_mask q 26) by lia;
      by apply enc_j. }
  unfold fmt_j. revert Hs Hi. generalize (q .& 0x03FFFFFF). intros i Hs Hi. clear Eq Hm Hr.
  destruct link; decode_fmt; by rewrite Hs.
Qed.

Lemma decode_jumpcond c off :
  encodable (JumpCond c off) -> reports (JumpCond c off) (arm64_decode (encode (JumpCond c off))).
Proof.
  intros (Hc & Hm & Hr). destruct (disp_words off 19) as (q & -> & Eq & Hq); [lia|done|simpl; lia|].
  destruct (signed_field 19 q 0x7FFFF) as [Hi Hs]; [lia|done..|].
  cbn [encode]. unfold arm64_bcond. cbv zeta. rewrite Eq, (disp_mask q 19), u32_land4 by (done || lia).
  rewrite (enc_c _ 0x54) by (done || unfold in_u in *; lia).
  unfold fmt_c. revert Hs Hi. generalize (q .& 0x7FFFF). intros i Hs Hi. clear Eq Hm Hr.
  assert (0 <= c < 2 ^ 5) by (unfold in_u in *; lia). decode_fmt. by rewrite Hs.
Qed.

Lemma decode_cmpjump nz sf t off :
  encodable (CmpJump nz sf t off) -> reports (CmpJump nz sf t off) (arm64_decode (encode (CmpJump nz sf t off))).
Proof.
  intros (Ht & Hm & Hr). destruct (disp_words off 19) as (q & -> & Eq & Hq); [lia|done|simpl; lia|].
  destruct (signed_field 19 q 0x7FFFF) as [Hi Hs]; [lia|done..|].
  assert (encode (CmpJump nz sf t (q * 4)) = fmt_c (0x34 + Z.b2z nz + Z.b2z sf * 2 ^ 7) (q .& 0x7FFFF) t) as ->.
  { destruct nz; cbn [encode]; unfold arm64_cbz, arm64_cbnz; cbv zeta;
      rewrite Eq, (disp_mask q 19), R5_small by (done || lia); apply enc_c; try done; by destruct sf. }
  unfold fmt_c. revert Hs Hi. generalize (q .& 0x7FFFF). intros i Hs Hi. clear Eq Hm Hr.
  destruct nz, sf; eval_opcode; decode_fmt; by rewrite Hs.
Qed.

Lemma decode_jumpreg o n :
  encodable (JumpReg o n) -> reports (JumpReg o n) (arm64_decode (encode (JumpReg o n))).
Proof.
  intros Hn. cbn [encodable] in Hn.
  assert (encode (JumpReg o n) =
    (match o with JBr => 0x3587C0 | JBlr => 0x358FC0 | JRet => 0x3597C0 end * 2 ^ 5 + n) * 2 ^ 5 + 0) as ->.
  { destruct o; cbn [encode]; unfold arm64_br, arm64_blr, arm64_ret; rewrite R5_small by done;
      unfold in_u in *; rewrite (lor_shl _ n 5 5); lia || reflexivity. }
  assert (in_u 5 0) by (unfold in_u; lia).
  destruct o; decode_fmt.
Qed.

(** * The theorem *)

Lemma decode_encode i : encodable i -> reports i (arm64_decode (encode i)).
Proof.
  destruct i; [intros _; by vm_compute|..].
  - apply decode_movreg.
  - apply decode_movwide.
  - apply decode_reg3.
  - apply decode_addsubimm.
  - apply decode_cmpreg.
  - apply decode_cmpimm.
  - apply decode_mulacc.
  - apply decode_bitfield.
  - apply decode_csel.
  - apply decode_cset.
  - apply decode_loadstore.
  - apply decode_pair.
  - apply decode_jump.
  - apply decode_jumpcond.
  - apply decode_cmpjump.
  - apply decode_jumpreg.
Qed.

(** C26: decoding undoes encoding for the instructions of the type [insn]: moves,
    move-wide, three-register arithmetic and shifts, immediate add and subtract,
    compare, multiply-add, bit-field moves, conditional select and set, 32- and
    64-bit loads and stores, pairs, and branches.  For every one of them whose
    operands fit their fields the decoder reports the opcode, the width, the
    registers, the condition and the (signed, scaled) immediate the encoder
    was given.  The encoder also has instructions that the decoder has no class
    for, and reports wrongly: see [arm64_decode_tst_and_byte_access]. *)
Theorem arm64_decode_encode i : encodable i -> reports i (arm64_decode (encode i)).
Proof. apply decode_encode. Qed.

Lemma arm64_decode_encode_witness :
  reports (CmpJump true true 7 (-1048576)) (arm64_decode (encode (CmpJump true true 7 (-1048576)))).
Proof.
  apply (arm64_decode_encode (CmpJump true true 7 (-1048576))).
  unfold encodable, in_u. repeat split; vm_compute; (reflexivity || discriminate).
Defined.

(** * Shift and extension aliases

    The bit-field moves of the instruction set on a register of [w] bits. *)
Definition ubfm (w r s x : Z) : Z :=
  if r <=? s then x / 2 ^ r mod 2 ^ (s - r + 1) else (x mod 2 ^ (s + 1)) * 2 ^ (w - r).

Definition sbfm (w r s x : Z) : Z :=
  if r <=? s then wrapu w (wraps (s - r + 1) (x / 2 ^ r))
  else wrapu w (wraps (s + 1) x * 2 ^ (w - r)).

(** The value a decoded bit-field move leaves in its destination. *)
Definition bitfield_result (i : Arm64Inst) (x : Z) : option Z :=
  let w := if is64 i =? 1 then 64 else 32 in
  match op i with
  | ARM64_DIS_UBFM => Some (ubfm w (immr i) (imms i) x)
  | ARM64_DIS_SBFM => Some (sbfm w (immr i) (imms i) x)
  | _ => None
  end.

Lemma bitfield_decoded sf sg d n r s x :
  encodable (Bitfield sf sg d n r s) ->
  let i := arm64_decode (encode (Bitfield sf sg d n r s)) in
  rd i = d /\ rn i = n /\
  bitfield_result i x = Some ((if sg then sbfm else ubfm) (word_width sf) r s x).
Proof.
  intros H. destruct (decode_bitfield sf sg d n r s H) as (Ho & Hw & Hd & Hn & Hr & Hs).
  cbv zeta. split; [done|]. split; [done|]. unfold bitfield_result, word_width.
  rewrite Ho, Hw, Hr, Hs. by destruct sg, sf.
Qed.

Lemma ubfm_lsl w k x : 0 <= k < w -> in_u w x ->
  ubfm w ((- k) mod w) (w - 1 - k) x = wrapu w (x * 2 ^ k).
Proof.
  intros Hk Hx. unfold ubfm, in_u, wrapu in *. destruct (Z.eq_dec k 0) as [->|Hk0].
  - rewrite Z.mod_0_l by lia. rewrite (proj2 (Z.leb_le _ _)) by lia.
    rewrite Z.pow_0_r, Z.div_1_r, Z.mul_1_r. by replace (w - 1 - 0 - 0 + 1) with w by lia.
  - replace ((- k) mod w) with (w - k)
      by (apply (Z.mod_unique_pos _ _ (-1)); lia).
    rewrite (proj2 (Z.leb_gt _ _)) by lia.
    replace (w - 1 - k + 1) with (w - k) by lia. replace (w - (w - k)) with k by lia.
    replace (2 ^ w) with (2 ^ (w - k) * 2 ^ k) by (rewrite <- Z.pow_add_r by lia; f_equal; lia).
    rewrite Z.mul_mod_distr_r; [done|apply Z.pow_nonzero; lia..].
Qed.

Lemma ubfm_lsr w k x : 0 <= k < w -> in_u w x -> ubfm w k (w - 1) x = x / 2 ^ k.
Proof.
  intros Hk Hx. unfold ubfm, in_u in *. rewrite (proj2 (Z.leb_le _ _)) by lia.
  replace (w - 1 - k + 1) with (w - k) by lia. apply Z.mod_small.
  replace (2 ^ w) with (2 ^ k * 2 ^ (w - k)) in Hx by (rewrite <- Z.pow_add_r by lia; f_equal; lia).
  split; [apply Z.div_pos; lia|apply Z.div_lt_upper_bound; lia].
Qed.

(** The sign bit of the upper part is the sign bit of the whole. *)
Lemma wraps_div w k x : 0 <= k < w -> in_u w x -> wraps (w - k) (x / 2 ^ k) = wraps w x / 2 ^ k.
Proof.
  intros Hk Hx. unfold in_u in Hx.
  assert (0 < 2 ^ k) by (apply Z.pow_pos_nonneg; lia).
  assert (2 ^ w = 2 ^ (w - k) * 2 ^ k) as E by (rewrite <- Z.pow_add_r by lia; f_equal; lia).
  assert (wraps w x = x \/ wraps w x = x + (-1) * 2 ^ w) as Hc.
  { destruct (Z.lt_ge_cases x (2 ^ (w - 1))).
    - left. apply wraps_small; [lia|]. unfold in_s. lia.
    - right. assert (2 ^ w = 2 * 2 ^ (w - 1)) by (rewrite <- Z.pow_succ_r by lia; f_equal; lia).
      apply (wraps_unique w x _ 1); [lia|unfold in_s; lia|lia]. }
  pose proof (wraps_bound w x ltac:(lia)) as Hb. unfold in_s in Hb.
  assert (in_s (w - k) (wraps w x / 2 ^ k)) as Hs.
  { unfold in_s. replace (2 ^ (w - 1)) with (2 ^ (w - k - 1) * 2 ^ k) in Hb
      by (rewrite <- Z.pow_add_r by lia; f_equal; lia).
    split; [apply Z.div_le_lower_bound; lia|apply Z.div_lt_upper_bound; lia]. }
  destruct Hc as [Hc|Hc]; rewrite Hc in *.
  - apply wraps_small; [lia|done].
  - rewrite E in *. replace (x + -1 * (2 ^ (w - k) * 2 ^ k)) with (x + (-1 * 2 ^ (w - k)) * 2 ^ k) in * by lia.
    rewrite Z.div_add in * by lia. apply (wraps_unique _ _ _ 1); [lia|done|lia].
Qed.

(** The immediate shifts and the sign and zero extensions, which are
    encoded as bit-field moves, decode to moves that compute the shift or the
    extension they are named after on every register value. *)
Lemma arm64_shift_aliases d n x :
  in_u 5 d -> in_u 5 n -> in_u 64 x ->
  (forall k, 0 <= k < 64 ->
    bitfield_result (arm64_decode (arm64_lsl_imm true d n k)) x = Some (u64 (x * 2 ^ k)) /\
    bitfield_result (arm64_decode (arm64_lsr_imm true d n k)) x = Some (x / 2 ^ k) /\
    bitfield_result (arm64_decode (arm64_asr_imm true d n k)) x = Some (u64 (i64 x / 2 ^ k))) /\
  bitfield_result (arm64_decode (arm64_uxtb d n)) x = Some (u8 x) /\
  bitfield_result (arm64_decode (arm64_uxth d n)) x = Some (u16 x) /\
  bitfield_result (arm64_decode (arm64_sxtb d n)) x = Some (u64 (wraps 8 x)) /\
  bitfield_result (arm64_decode (arm64_sxth d n)) x = Some (u64 (wraps 16 x)) /\
  bitfield_result (arm64_decode (arm64_sxtw d n)) x = Some (u64 (i32 x)).
Proof.
  intros Hd Hn Hx. split.
  { intros k Hk. unfold arm64_lsl_imm, arm64_lsr_imm, arm64_asr_imm. cbv zeta.
    rewrite (land_mask _ 6) by lia. change (64 - 1) with 63.
    pose proof (Z.mod_pos_bound (- k) (2 ^ 6) ltac:(lia)).
    split; [|split].
    - destruct (bitfield_decoded true false d n ((- k) mod 2 ^ 6) (63 - k) x
        ltac:(unfold encodable, word_width, in_u in *; lia)) as (_ & _ & Er).
      cbn [encode] in Er. rewrite Er.
      f_equal. apply (ubfm_lsl 64 k x); done.
    - destruct (bitfield_decoded true false d n k 63 x
        ltac:(unfold encodable, word_width, in_u in *; lia)) as (_ & _ & Er).
      cbn [encode] in Er. rewrite Er.
      f_equal. apply (ubfm_lsr 64 k x); done.
    - destruct (bitfield_decoded true true d n k 63 x
        ltac:(unfold encodable, word_width, in_u in *; lia)) as (_ & _ & Er).
      cbn [encode] in Er. rewrite Er.
      f_equal. unfold sbfm, word_width. rewrite (proj2 (Z.leb_le _ _)) by lia.
      replace (63 - k + 1) with (64 - k) by lia. f_equal. by apply (wraps_div 64). }
  assert (forall s sg, 0 <= s < 32 -> bitfield_result
    (arm64_decode ((if sg : bool then 0x93400000 else 0x53000000) .| (s .<< 10) .| (R5 n .<< 5) .| R5 d)) x =
    Some ((if sg then sbfm else ubfm) (word_width sg) 0 s x)) as Hext.
  { intros s sg Hs.
    rewrite <- (proj2 (proj2 (bitfield_decoded sg sg d n 0 s x ltac:(unfold encodable, word_width, in_u in *; destruct sg; lia)))).
    do 2 f_equal. cbn [encode]. unfold arm64_bfm. cbv zeta.
    replace (u32 (0 .& (if sg then 63 else 31)) .<< 16) with 0 by (by destruct sg).
    rewrite Z.lor_0_r.
    replace (u32 (s .& (if sg then 63 else 31))) with s; [by destruct sg|].
    destruct sg; [rewrite (land_mask _ 6) by lia|rewrite (land_mask _ 5) by lia];
      rewrite Z.mod_small, wrapu_small by (unfold in_u; lia); done. }
  refine (conj _ (conj _ (conj _ (conj _ _)))).
  - etransitivity; [exact (Hext 7 false ltac:(lia))|]. unfold ubfm, word_width.
    by rewrite (proj2 (Z.leb_le _ _)), Z.div_1_r by lia.
  - etransitivity; [exact (Hext 15 false ltac:(lia))|]. unfold ubfm, word_width.
    by rewrite (proj2 (Z.leb_le _ _)), Z.div_1_r by lia.
  - etransitivity; [exact (Hext 7 true ltac:(lia))|]. unfold sbfm, word_width.
    by rewrite (proj2 (Z.leb_le _ _)), Z.div_1_r by lia.
  - etransitivity; [exact (Hext 15 true ltac:(lia))|]. unfold sbfm, word_width.
    by rewrite (proj2 (Z.leb_le _ _)), Z.div_1_r by lia.
  - etransitivity; [exact (Hext 31 true ltac:(lia))|]. unfold sbfm, word_width.
    by rewrite (proj2 (Z.leb_le _ _)), Z.div_1_r by lia.
Qed.

Lemma arm64_shift_aliases_witness :
  bitfield_result (arm64_decode (arm64_asr_imm true 3 4 5)) (2 ^ 63) = Some (u64 (i64 (2 ^ 63) / 2 ^ 5)).
Proof.
  refine (proj2 (proj2 (proj1 (arm64_shift_aliases 3 4 (2 ^ 63) _ _ _) 5 _))); unfold in_u; lia.
Defined.

(** A flag-setting AND ([arm64_tst]) is reported as an ORR, since the
    decoder has no class for it, and a byte load is reported with a
    displacement four times too large. *)
Lemma arm64_decode_tst_and_byte_access :
  op (arm64_decode (arm64_tst true 1 2)) = ARM64_DIS_ORR_REG /\
  op (arm64_decode (arm64_ldrb_imm 1 2 5)) = ARM64_DIS_LDR_IMM /\
  imm (arm64_decode (arm64_ldrb_imm 1 2 5)) = 20.
Proof. by vm_compute. Qed.
End Arm64Dec.
