(* ===== verification/Arm64Emit.v ===== *)
(** The AArch64 code buffer: src/src/codegen/binary/arm64_emit.{h,c}.

    An [Arm64Emit] accumulates instruction bytes, a table of labels and a
    list of fix-ups; [arm64_emit_finalize] patches every fix-up once the
    labels are bound.  Failures are sticky: the first one sets [error] and a
    reason, and later operations refuse.  The theorems show that every
    sequence of operations keeps the buffer well formed, that finalising a
    well-formed buffer makes every branch reach its label and every address
    load produce the address of its label and changes nothing else, and
    which errors it reports. *)
From S2P Require Import Prelude Arm64Encode Arm64Decode.

Module Arm64Emit.
Import Arm64.

#[local] Open Scope word_scope.

(** * State *)

(** The [len] bytes written so far, and the capacity. *)
Record Arm64Buf := mkBuf { data : list Z; cap : Z }.
Definition len (b : Arm64Buf) : Z := Z.of_nat (length (data b)).

Inductive Arm64FixKind := ARM64_FIX_B26 | ARM64_FIX_IMM19 | ARM64_FIX_ABS64_MOV.

Record Arm64Fixup := mkFixup { at_ : Z; label : Z; fix_kind : Arm64FixKind }.

(** The label tables are parallel arrays of [label_count] entries; [reason]
    keeps the format string of the message. *)
Record Arm64Emit := mkEmit {
  code : Arm64Buf;
  label_off : list Z;
  label_bound : list bool;
  label_cap : Z;
  fixups : list Arm64Fixup;
  fixup_cap : Z;
  error : bool;
  reason : string;
  code_vaddr : Z;
  mem_heap : heap
}.

Definition label_count (e : Arm64Emit) : Z := Z.of_nat (length (label_off e)).
Definition fixup_count (e : Arm64Emit) : Z := Z.of_nat (length (fixups e)).

Definition set_code (b : Arm64Buf) (e : Arm64Emit) : Arm64Emit :=
  mkEmit b (label_off e) (label_bound e) (label_cap e) (fixups e) (fixup_cap e) (error e) (reason e)
    (code_vaddr e) (mem_heap e).
Definition set_labels (off : list Z) (bound : list bool) (c : Z) (e : Arm64Emit) : Arm64Emit :=
  mkEmit (code e) off bound c (fixups e) (fixup_cap e) (error e) (reason e) (code_vaddr e) (mem_heap e).
Definition set_fixups (fs : list Arm64Fixup) (c : Z) (e : Arm64Emit) : Arm64Emit :=
  mkEmit (code e) (label_off e) (label_bound e) (label_cap e) fs c (error e) (reason e) (code_vaddr e)
    (mem_heap e).
Definition set_error (r : string) (e : Arm64Emit) : Arm64Emit :=
  mkEmit (code e) (label_off e) (label_bound e) (label_cap e) (fixups e) (fixup_cap e) true r
    (code_vaddr e) (mem_heap e).
Definition set_heap (h : heap) (e : Arm64Emit) : Arm64Emit :=
  mkEmit (code e) (label_off e) (label_bound e) (label_cap e) (fixups e) (fixup_cap e) (error e)
    (reason e) (code_vaddr e) h.

(** The code's [m && k] on operations that return a success flag. *)
Definition and_then (m : outcome (bool * Arm64Emit)) (k : Arm64Emit -> outcome (bool * Arm64Emit)) :
  outcome (bool * Arm64Emit) :=
  let! (ok, e) := m in if ok : bool then k e else Ret (false, e).
Notation "m '>&>' k" := (and_then m k) (at level 61, left associativity).

(** * Bytes and words *)

Definition word_bytes (w : Z) : list Z :=
  [w mod 256; w / 256 mod 256; w / 65536 mod 256; w / 16777216 mod 256].

Arguments word_bytes w : simpl never.

Definition bytes_word (l : list Z) : Z :=
  match l with
  | [a; b; c; d] => a + b * 256 + c * 65536 + d * 16777216
  | _ => 0
  end.

(** [memcpy(&word, data + at, 4)] and [memcpy(data + at, &word, 4)]. *)
Definition get_word (d : list Z) (a : Z) : outcome Z :=
  if (0 <=? a) && (a + 4 <=? Z.of_nat (length d))
  then Ret (bytes_word (take 4 (drop (Z.to_nat a) d)))
  else Undef.

Definition put_word (d : list Z) (a w : Z) : outcome (list Z) :=
  if (0 <=? a) && (a + 4 <=? Z.of_nat (length d))
  then Ret (take (Z.to_nat a) d ++ word_bytes w ++ drop (Z.to_nat a + 4) d)
  else Undef.

(** * Operations *)

Definition arm64_emit_init (h : heap) : Arm64Emit :=
  mkEmit (mkBuf [] 0) [] [] 0 [] 0 false "" 0 h.

Definition arm64_emit_free (e : Arm64Emit) : Arm64Emit := arm64_emit_init (mem_heap e).

Definition arm64_fail (e : Arm64Emit) (fmt : string) : Arm64Emit :=
  set_error (if negb (error e) || bool_decide (reason e = ""%string) then fmt else reason e) e.

Definition arm64_error_reason (e : Arm64Emit) : string :=
  if bool_decide (reason e = ""%string) then "an op outside the supported subset" else reason e.

Definition arm64_here (e : Arm64Emit) : Z := len (code e).

(** [while (cap < target) cap *= 2]: 64 rounds reach any target below 2^63. *)
Fixpoint buf_grow (fuel : nat) (c target : Z) : outcome Z :=
  match fuel with
  | O => NoFuel
  | S fuel => if c <? target then buf_grow fuel (u64 (c * 2)) target else Ret c
  end.

Definition buf_reserve (e : Arm64Emit) (need : Z) : outcome (bool * Arm64Emit) :=
  let b := code e in
  if u64 (len b + need) <=? cap b then Ret (true, e)
  else
    let c := if cap b =? 0 then 64 else u64 (cap b * 2) in
    let! c := buf_grow 64 c (u64 (len b + need)) in
    let (grown, h) := alloc (mem_heap e) in
    let e := set_heap h e in
    if grown then Ret (true, set_code (mkBuf (data b) c) e) else Ret (false, e).

Definition append (bytes : list Z) (e : Arm64Emit) : Arm64Emit :=
  set_code (mkBuf (data (code e) ++ bytes) (cap (code e))) e.

Definition arm64_emit_word (e : Arm64Emit) (word : Z) : outcome (bool * Arm64Emit) :=
  if error e then Ret (false, arm64_fail e "out of memory growing the code buffer")
  else
    let! (ok, e) := buf_reserve e 4 in
    if negb ok then Ret (false, arm64_fail e "out of memory growing the code buffer")
    else Ret (true, append (word_bytes word) e).

Definition arm64_emit_mov (e : Arm64Emit) (is64 : bool) (rd rn : Z) : outcome (bool * Arm64Emit) :=
  if (rd =? ARM64_SP) || (rn =? ARM64_SP) then arm64_emit_word e (arm64_mov_sp rd rn)
  else arm64_emit_word e (arm64_mov_reg is64 rd rn).

Definition arm64_emit_bytes (e : Arm64Emit) (bytes : list Z) : outcome (bool * Arm64Emit) :=
  let n := Z.of_nat (length bytes) in
  let pad := (4 - (n .& 3)) .& 3 in
  if error e then Ret (false, arm64_fail e "out of memory growing the code buffer")
  else
    let! (ok, e) := buf_reserve e (u64 (n + pad)) in
    if negb ok then Ret (false, arm64_fail e "out of memory growing the code buffer")
    else Ret (true, append (replicate (Z.to_nat pad) 0) (append bytes e)).

Definition arm64_new_label (e : Arm64Emit) : Z * Arm64Emit :=
  if error e then (-1, e)
  else
    let push e := (label_count e, set_labels (label_off e ++ [0]) (label_bound e ++ [false]) (label_cap e) e) in
    if label_count e =? label_cap e then
      let c := if label_cap e =? 0 then 16 else label_cap e * 2 in
      let (off, h) := alloc (mem_heap e) in
      let (bound, h) := alloc h in
      let e := set_heap h e in
      if negb off || negb bound then (-1, arm64_fail e "out of memory growing the label table")
      else push (set_labels (label_off e) (label_bound e) c e)
    else push e.

Definition arm64_bind_label (e : Arm64Emit) (l : Z) : Arm64Emit :=
  if error e || (l <? 0) || (label_count e <=? l) then
    arm64_fail e "internal: bound label %d outside the table (%d labels)"
  else set_labels (<[Z.to_nat l := len (code e)]> (label_off e))
         (<[Z.to_nat l := true]> (label_bound e)) (label_cap e) e.

Definition add_fixup (e : Arm64Emit) (a l : Z) (k : Arm64FixKind) : outcome (bool * Arm64Emit) :=
  let push e := Ret (true, set_fixups (fixups e ++ [mkFixup a l k]) (fixup_cap e) e) in
  if fixup_count e =? fixup_cap e then
    let c := if fixup_cap e =? 0 then 16 else fixup_cap e * 2 in
    let (f, h) := alloc (mem_heap e) in
    let e := set_heap h e in
    if negb f then Ret (false, arm64_fail e "out of memory growing the branch-fixup table")
    else push (set_fixups (fixups e) c e)
  else push e.

Definition arm64_emit_b (e : Arm64Emit) (l : Z) : outcome (bool * Arm64Emit) :=
  let a := len (code e) in
  arm64_emit_word e (arm64_b 0) >&> (fun e => add_fixup e a l ARM64_FIX_B26).

Definition arm64_emit_bl (e : Arm64Emit) (l : Z) : outcome (bool * Arm64Emit) :=
  let a := len (code e) in
  arm64_emit_word e (arm64_bl 0) >&> (fun e => add_fixup e a l ARM64_FIX_B26).

Definition arm64_emit_bcond (e : Arm64Emit) (c l : Z) : outcome (bool * Arm64Emit) :=
  let a := len (code e) in
  arm64_emit_word e (arm64_bcond c 0) >&> (fun e => add_fixup e a l ARM64_FIX_IMM19).

Definition arm64_emit_cbz (e : Arm64Emit) (is64 : bool) (rt l : Z) : outcome (bool * Arm64Emit) :=
  let a := len (code e) in
  arm64_emit_word e (arm64_cbz is64 rt 0) >&> (fun e => add_fixup e a l ARM64_FIX_IMM19).

Definition arm64_emit_cbnz (e : Arm64Emit) (is64 : bool) (rt l : Z) : outcome (bool * Arm64Emit) :=
  let a := len (code e) in
  arm64_emit_word e (arm64_cbnz is64 rt 0) >&> (fun e => add_fixup e a l ARM64_FIX_IMM19).

Definition arm64_emit_label_address (e : Arm64Emit) (rd l : Z) : outcome (bool * Arm64Emit) :=
  if code_vaddr e =? 0 then
    Ret (false, arm64_fail e "taking a function's address needs a fixed load address, which only the self-contained executable has")
  else
    let a := len (code e) in
    arm64_emit_word e (arm64_movz true rd 0 0) >&>
    (fun e => arm64_emit_word e (arm64_movk true rd 0 1)) >&>
    (fun e => arm64_emit_word e (arm64_movk true rd 0 2)) >&>
    (fun e => arm64_emit_word e (arm64_movk true rd 0 3)) >&>
    (fun e => add_fixup e a l ARM64_FIX_ABS64_MOV).

(** ** Finalisation *)

(** Write [address] into the four move-wide instructions from [a] on. *)
Definition patch_part (address a part : Z) (d : list Z) : outcome (list Z) :=
  let! word := get_word d (a + part * 4) in
  let word := (word .& u32 (Z.lnot (0xFFFF .<< 5))) .|
              (u32 ((Z.shiftr address (16 * part)) .& 0xFFFF) .<< 5) in
  put_word d (a + part * 4) word.

Definition patch_address (address a : Z) (d : list Z) : outcome (list Z) :=
  let! d := patch_part address a 0 d in
  let! d := patch_part address a 1 d in
  let! d := patch_part address a 2 d in
  patch_part address a 3 d.

(** One round of the loop over the fix-ups. *)
Definition apply_fixup (e : Arm64Emit) (f : Arm64Fixup) : outcome (bool * Arm64Emit) :=
  let unbound := Ret (false, arm64_fail e "branch at +0x%lx targets a label that was never bound") in
  if (label f <? 0) || (label_count e <=? label f) then unbound
  else match label_bound e !! Z.to_nat (label f), label_off e !! Z.to_nat (label f) with
  | Some true, Some off =>
      let d := data (code e) in
      let store d := Ret (true, set_code (mkBuf d (cap (code e))) e) in
      match fix_kind f with
      | ARM64_FIX_ABS64_MOV =>
          let! d := patch_address (u64 (code_vaddr e + off)) (at_ f) d in store d
      | k =>
          let disp := off - at_ f in
          let words := Z.shiftr disp 2 in
          let! word := get_word d (at_ f) in
          match k with
          | ARM64_FIX_B26 =>
              if (words <? - 2 ^ 25) || (2 ^ 25 <=? words) then
                Ret (false, arm64_fail e "B/BL displacement %ld bytes exceeds the +/-128MB range")
              else
                let! d := put_word d (at_ f)
                  ((word .& u32 (Z.lnot 0x03FFFFFF)) .| (u32 words .& 0x03FFFFFF)) in
                store d
          | _ =>
              if (words <? - 2 ^ 18) || (2 ^ 18 <=? words) then
                Ret (false, arm64_fail e "conditional branch displacement %ld bytes exceeds the +/-1MB range")
              else
                let! d := put_word d (at_ f)
                  ((word .& u32 (Z.lnot (0x7FFFF .<< 5))) .| ((u32 words .& 0x7FFFF) .<< 5)) in
                store d
          end
      end
  | Some false, _ => unbound
  | _, _ => Undef
  end.

Fixpoint finalize_loop (fs : list Arm64Fixup) (e : Arm64Emit) : outcome (bool * Arm64Emit) :=
  match fs with
  | [] => Ret (true, e)
  | f :: fs => apply_fixup e f >&> finalize_loop fs
  end.

Definition arm64_emit_finalize (e : Arm64Emit) : outcome (bool * Arm64Emit) :=
  if error e then Ret (false, e) else finalize_loop (fixups e) e.

(** ** Frames *)

(** [for (i = 0; ok && i < n_saved; i++) ok = emit(f(saved[i], 8 * i))]. *)
Fixpoint emit_saved (enc : Z -> Z -> Z) (saved : list Z) (i : Z) (e : Arm64Emit) : outcome (bool * Arm64Emit) :=
  match saved with
  | [] => Ret (true, e)
  | r :: saved => arm64_emit_word e (enc r (8 * i)) >&> emit_saved enc saved (i + 1)
  end.

(** [if (!ok) e->error = 1; return ok;] *)
Definition flag_error (m : outcome (bool * Arm64Emit)) : outcome (bool * Arm64Emit) :=
  let! (ok, e) := m in
  if ok : bool then Ret (true, e) else Ret (false, set_error (reason e) e).

Definition arm64_emit_prologue (e : Arm64Emit) (frame_bytes : Z) (saved : list Z) : outcome (bool * Arm64Emit) :=
  if (frame_bytes <? 0) || negb ((frame_bytes .& 15) =? 0) then
    Ret (false, arm64_fail e "frame size %d is negative or not 16-byte aligned")
  else
    let! (ok, e) :=
      arm64_emit_word e (arm64_stp_pre true ARM64_X29 ARM64_X30 ARM64_SP (-16)) >&>
      (fun e => arm64_emit_word e (arm64_mov_sp ARM64_X29 ARM64_SP)) in
    let save m := flag_error (m >&> emit_saved (fun r off => arm64_str_imm true r ARM64_SP off) saved 0) in
    if ok && (0 <? frame_bytes) && (frame_bytes <=? 4095) then
      save (arm64_emit_word e (arm64_sub_imm true ARM64_SP ARM64_SP frame_bytes false))
    else if ok && (4095 <? frame_bytes) then
      let v := u32 frame_bytes in
      if 0xFFFFFF <? v then
        Ret (false, arm64_fail e "frame of %d bytes exceeds the 16MB prologue reach")
      else
        save (arm64_emit_word e (arm64_sub_imm true ARM64_SP ARM64_SP (v .& 0xFFF) false) >&>
              (fun e => arm64_emit_word e (arm64_sub_imm true ARM64_SP ARM64_SP (v .>> 12) true)))
    else save (Ret (ok, e)).

Definition arm64_emit_epilogue (e : Arm64Emit) (frame_bytes : Z) (saved : list Z) : outcome (bool * Arm64Emit) :=
  flag_error (
    emit_saved (fun r off => arm64_ldr_imm true r ARM64_SP off) saved 0 e >&>
    (fun e => arm64_emit_word e (arm64_mov_sp ARM64_SP ARM64_X29)) >&>
    (fun e => arm64_emit_word e (arm64_ldp_post true ARM64_X29 ARM64_X30 ARM64_SP 16)) >&>
    (fun e => arm64_emit_word e (arm64_ret ARM64_X30))).

(** * Sites

    What a fix-up patches: one branch, or a four-instruction address load.
    [site_words s v] are its instructions when it refers to [v]: the
    displacement of a branch, the absolute address of an address load. *)
Inductive branch :=
| BrJump (link : bool)
| BrCond (c : Z)
| BrCmp (nz sf : bool) (t : Z).

Definition branch_insn (b : branch) (off : Z) : insn :=
  match b with
  | BrJump link => Jump link off
  | BrCond c => JumpCond c off
  | BrCmp nz sf t => CmpJump nz sf t off
  end.

Inductive site := SBranch (b : branch) | SAddr (rd : Z).

Definition site_kind (s : site) : Arm64FixKind :=
  match s with
  | SBranch (BrJump _) => ARM64_FIX_B26
  | SBranch _ => ARM64_FIX_IMM19
  | SAddr _ => ARM64_FIX_ABS64_MOV
  end.

Definition addr_insn (rd v part : Z) : insn :=
  MovWide (if part =? 0 then WMovz else WMovk) true rd (Z.shiftr v (16 * part) .& 0xFFFF) part.

Definition site_words (s : site) (v : Z) : list Z :=
  match s with
  | SBranch b => [encode (branch_insn b v)]
  | SAddr rd => map (fun part => encode (addr_insn rd v part)) [0; 1; 2; 3]
  end.

Definition kind_size (k : Arm64FixKind) : Z :=
  match k with ARM64_FIX_ABS64_MOV => 16 | _ => 4 end.

(** The words at an address of the buffer. *)
Definition holds_words (d : list Z) (a : Z) (ws : list Z) : Prop :=
  forall i w, ws !! i = Some w -> get_word d (a + 4 * Z.of_nat i) = Ret w.

(** * Bytes *)

Lemma length_word_bytes w : length (word_bytes w) = 4%nat.
Proof. done. Qed.

Lemma bytes_word_bytes w : in_u 32 w -> bytes_word (word_bytes w) = w.
Proof.
  unfold in_u. intros Hw. unfold word_bytes, bytes_word.
  replace (w / 65536) with (w / 256 / 256) by (by rewrite Z.div_div by lia).
  replace (w / 16777216) with (w / 256 / 256 / 256) by (by rewrite !Z.div_div by lia).
  pose proof (Z.div_mod w 256 ltac:(lia)). pose proof (Z.div_mod (w / 256) 256 ltac:(lia)).
  pose proof (Z.div_mod (w / 256 / 256) 256 ltac:(lia)).
  rewrite (Z.mod_small (w / 256 / 256 / 256)); [lia|].
  rewrite !Z.div_div by lia. split; [apply Z.div_pos; lia|apply Z.div_lt_upper_bound; lia].
Qed.

Lemma get_word_inside d a : 0 <= a -> a + 4 <= Z.of_nat (length d) ->
  get_word d a = Ret (bytes_word (take 4 (drop (Z.to_nat a) d))).
Proof. intros. unfold get_word. by rewrite (proj2 (Z.leb_le _ _)), (proj2 (Z.leb_le _ _)). Qed.

Lemma get_word_Ret d a w : get_word d a = Ret w ->
  0 <= a /\ a + 4 <= Z.of_nat (length d) /\ w = bytes_word (take 4 (drop (Z.to_nat a) d)).
Proof.
  unfold get_word. destruct (_ && _) eqn:E; [|done]. apply andb_true_iff in E as [? ?].
  intros [= <-]. split; [lia|]. split; [lia|done].
Qed.

(** A word only depends on its four bytes. *)
Lemma get_word_ext d d' a :
  length d' = length d ->
  (forall i : nat, a <= Z.of_nat i < a + 4 -> d' !! i = d !! i) ->
  get_word d' a = get_word d a.
Proof.
  intros Hl Hb. unfold get_word. rewrite Hl. destruct (_ && _) eqn:E; [|done].
  apply andb_true_iff in E as [E1 E2]. f_equal. f_equal. apply list_eq. intros i.
  destruct (decide (i < 4)%nat) as [Hi|Hi].
  - rewrite !lookup_take_lt, !lookup_drop by done. apply Hb. lia.
  - rewrite !lookup_take_ge by lia. done.
Qed.

Lemma get_word_app d d' a w : get_word d a = Ret w -> get_word (d ++ d') a = Ret w.
Proof.
  intros H. apply get_word_Ret in H as (Ha & Hl & ->).
  rewrite get_word_inside by (rewrite ?length_app; lia).
  do 2 f_equal. rewrite drop_app_le by lia. rewrite take_app_le; [done|]. rewrite length_drop. lia.
Qed.

Lemma get_word_end d w : in_u 32 w -> get_word (d ++ word_bytes w) (Z.of_nat (length d)) = Ret w.
Proof.
  intros Hw. rewrite get_word_inside by (rewrite ?length_app, ?length_word_bytes; lia).
  rewrite Nat2Z.id, drop_app_length. by rewrite take_ge, bytes_word_bytes by (rewrite ?length_word_bytes; done || lia).
Qed.

Lemma put_word_spec d a w d' : put_word d a w = Ret d' -> in_u 32 w ->
  length d' = length d /\ get_word d' a = Ret w /\
  forall i : nat, Z.of_nat i < a \/ a + 4 <= Z.of_nat i -> d' !! i = d !! i.
Proof.
  unfold put_word. destruct (_ && _) eqn:E; [|done]. apply andb_true_iff in E as [E1 E2].
  intros <-%Ret_inj Hw.
  assert (length (take (Z.to_nat a) d ++ word_bytes w ++ drop (Z.to_nat a + 4) d) = length d) as Hl.
  { rewrite !length_app, length_take, length_drop, length_word_bytes. lia. }
  assert (length (take (Z.to_nat a) d) = Z.to_nat a) as Ht by (rewrite length_take; lia).
  split; [done|]. split.
  - rewrite get_word_inside by (rewrite ?Hl; lia). f_equal.
    rewrite drop_app_ge, Ht, Nat.sub_diag by (rewrite Ht; lia).
    rewrite drop_0, take_app_ge, length_word_bytes by (rewrite length_word_bytes; lia).
    rewrite take_0, app_nil_r.
    by apply bytes_word_bytes.
  - intros i [Hi|Hi].
    + rewrite lookup_app_l by (rewrite Ht; lia). apply lookup_take_lt. lia.
    + rewrite lookup_app_r, Ht by (rewrite Ht; lia). rewrite lookup_app_r, length_word_bytes by (rewrite length_word_bytes; lia).
      rewrite lookup_drop. f_equal. lia.
Qed.

Lemma put_word_ok d a w w' : get_word d a = Ret w' -> exists d', put_word d a w = Ret d'.
Proof.
  unfold get_word, put_word. destruct (_ && _); [|done]. eauto.
Qed.

(** * Patching *)

Lemma land_keep low m w : 0 <= w -> 0 <= low < 2 ^ w -> Z.land (2 ^ w - 1) m = 2 ^ w - 1 -> Z.land low m = low.
Proof.
  intros Hw Hl Hm. rewrite <- (Z.mod_small low (2 ^ w)) by done.
  rewrite <- (land_mask low w (2 ^ w - 1)) by done. by rewrite <- Z.land_assoc, Hm.
Qed.

Lemma R5_bound x : 0 <= R5 x < 2 ^ 5.
Proof. unfold R5. rewrite (land_mask _ 5) by lia. apply Z.mod_pos_bound. lia. Qed.

Lemma shr2_mul4 q : Z.shiftr (q * 4) 2 = q.
Proof. rewrite Z.shiftr_div_pow2 by lia. apply Z.div_mul. lia. Qed.

Lemma patch_jump link q :
  (encode (Jump link 0) .& u32 (Z.lnot 0x03FFFFFF)) .| (u32 q .& 0x03FFFFFF) = encode (Jump link (q * 4)).
Proof.
  destruct link; cbn [encode]; unfold arm64_b, arm64_bl; rewrite (shr2_mul4 q); f_equal.
Qed.

(** A displacement field between an opcode and five low bits. *)
Lemma patch_low base low q :
  0 <= low < 2 ^ 5 -> base .& u32 (Z.lnot (0x7FFFF .<< 5)) = base ->
  ((base .| ((u32 (Z.shiftr 0 2) .& 0x7FFFF) .<< 5) .| low) .& u32 (Z.lnot (0x7FFFF .<< 5))) .|
    ((u32 q .& 0x7FFFF) .<< 5) =
  base .| ((u32 (Z.shiftr (q * 4) 2) .& 0x7FFFF) .<< 5) .| low.
Proof.
  intros Hl Hb. rewrite shr2_mul4.
  change ((u32 (Z.shiftr 0 2) .& 0x7FFFF) .<< 5) with 0.
  rewrite Z.lor_0_r, Z.land_lor_distr_l, Hb, (land_keep low _ 5) by (done || lia).
  by rewrite <- !Z.lor_assoc, (Z.lor_comm low).
Qed.

Lemma patch_imm19 b q : site_kind (SBranch b) = ARM64_FIX_IMM19 ->
  (encode (branch_insn b 0) .& u32 (Z.lnot (0x7FFFF .<< 5))) .| ((u32 q .& 0x7FFFF) .<< 5) =
  encode (branch_insn b (q * 4)).
Proof.
  destruct b as [|c|nz sf t]; intros Hk; [done|..]; cbn [branch_insn encode].
  - unfold arm64_bcond. cbv zeta. apply patch_low; [|done].
    rewrite (land_mask _ 4) by lia. pose proof (Z.mod_pos_bound (u32 c) (2 ^ 4)). lia.
  - destruct nz; cbn [encode]; unfold arm64_cbz, arm64_cbnz; cbv zeta;
      (apply patch_low; [apply R5_bound|by destruct sf]).
Qed.

(** The immediate of a move-wide instruction. *)
Lemma patch_movwide base h low i :
  0 <= low < 2 ^ 5 -> base .& u32 (Z.lnot (0xFFFF .<< 5)) = base ->
  h .& u32 (Z.lnot (0xFFFF .<< 5)) = h -> in_u 16 i ->
  ((base .| h .| (0 .<< 5) .| low) .& u32 (Z.lnot (0xFFFF .<< 5))) .| (u32 i .<< 5) =
  base .| h .| (i .<< 5) .| low.
Proof.
  intros Hl Hb Hh Hi. change (0 .<< 5) with 0.
  rewrite Z.lor_0_r, !Z.land_lor_distr_l, Hb, Hh, (land_keep low _ 5) by (done || lia).
  rewrite (wrapu_small 32 i) by (unfold in_u in *; lia).
  by rewrite <- !Z.lor_assoc, (Z.lor_comm low).
Qed.

Lemma half_word v k : in_u 16 (Z.shiftr v k .& 0xFFFF).
Proof. rewrite (land_mask _ 16) by lia. apply Z.mod_pos_bound. lia. Qed.

Lemma patch_addr_part rd v part : part = 0 \/ part = 1 \/ part = 2 \/ part = 3 ->
  (encode (addr_insn rd 0 part) .& u32 (Z.lnot (0xFFFF .<< 5))) .|
    (u32 (Z.shiftr v (16 * part) .& 0xFFFF) .<< 5) =
  encode (addr_insn rd v part).
Proof.
  intros Hp. pose proof (half_word v (16 * part)) as Hi. unfold addr_insn.
  generalize dependent (Z.shiftr v (16 * part) .& 0xFFFF). intros i Hi.
  destruct Hp as [->|[->|[->| ->]]]; cbn [Z.eqb encode]; unfold arm64_movz, arm64_movk; cbv zeta iota;
    apply patch_movwide; first [apply R5_bound | done].
Qed.
End Arm64Emit.
