(* ===== verification/Arm64Link.v ===== *)
(** Well-formed code buffers and their finalisation: the theorems on
    [Arm64Emit].  [wf] is the invariant every operation keeps; the fix-up
    list is matched with a list of sites that records what each fix-up
    patches. *)
From Stdlib Require Import Sorted.
From S2P Require Import Prelude Arm64Encode Arm64Decode Arm64Emit.

Module Arm64Link.
Import Arm64 Arm64Emit.

#[local] Open Scope word_scope.

(** * The invariant *)

(** The registers and conditions of a site fit their fields. *)
Definition site_ok (s : site) : Prop :=
  match s with
  | SBranch (BrJump _) => True
  | SBranch (BrCond c) => in_u 4 c
  | SBranch (BrCmp _ _ t) => in_u 5 t
  | SAddr rd => in_u 5 rd
  end.

(** Fix-up [f] patches site [s] in the bytes [d], still unresolved. *)
Record pending (d : list Z) (f : Arm64Fixup) (s : site) : Prop := mkPending {
  p_kind : fix_kind f = site_kind s;
  p_site : site_ok s;
  p_at : 0 <= at_ f /\ at_ f mod 4 = 0 /\ at_ f + kind_size (fix_kind f) <= Z.of_nat (length d);
  p_words : holds_words d (at_ f) (site_words s 0)
}.

(** Fix-ups are in the order of their sites, which do not overlap. *)
Definition before (f g : Arm64Fixup) : Prop := at_ f + kind_size (fix_kind f) <= at_ g.

Record wf (e : Arm64Emit) (ss : list site) : Prop := mkWf {
  wf_len : len (code e) mod 4 = 0;
  wf_cap : len (code e) <= cap (code e);
  wf_bound : length (label_bound e) = length (label_off e);
  wf_off : Forall (fun o => 0 <= o <= len (code e) /\ o mod 4 = 0) (label_off e);
  wf_label_cap : label_count e <= label_cap e;
  wf_fixup_cap : fixup_count e <= fixup_cap e;
  wf_sites : Forall2 (pending (data (code e))) (fixups e) ss;
  wf_order : StronglySorted before (fixups e)
}.

(** The invariant reads neither the error state nor the heap. *)
Lemma wf_congr e e' ss :
  code e' = code e -> label_off e' = label_off e -> label_bound e' = label_bound e ->
  label_cap e' = label_cap e -> fixups e' = fixups e -> fixup_cap e' = fixup_cap e ->
  wf e ss -> wf e' ss.
Proof.
  intros E1 E2 E3 E4 E5 E6 []. split; unfold label_count, fixup_count in *; rewrite ?E1, ?E2, ?E3, ?E4, ?E5, ?E6; done.
Qed.

Lemma wf_fail e ss m : wf e ss -> wf (arm64_fail e m) ss.
Proof. by apply wf_congr. Qed.

Lemma wf_init h : wf (arm64_emit_init h) [].
Proof. split; try done; constructor. Qed.

(** * Appending code *)

Lemma pending_app d d' f s : pending d f s -> pending (d ++ d') f s.
Proof.
  intros [Hk Hs (? & ? & ?) Hw]. split; [done|done|rewrite length_app; lia|].
  intros i w Hi. by apply get_word_app, Hw.
Qed.

Lemma wf_append e ss bytes :
  wf e ss -> Z.of_nat (length bytes) mod 4 = 0 ->
  len (code e) + Z.of_nat (length bytes) <= cap (code e) -> wf (append bytes e) ss.
Proof.
  intros [] Hb Hc.
  assert (len (code (append bytes e)) = len (code e) + Z.of_nat (length bytes)) as El.
  { unfold append, len. simpl. rewrite length_app. lia. }
  split; try done.
  - rewrite El, Z.add_mod, wf_len0, Hb by lia. done.
  - rewrite El. done.
  - eapply Forall_impl; [exact wf_off0|]. cbv beta. intros o Ho. rewrite El. lia.
  - simpl. eapply Forall2_impl; [exact wf_sites0|]. intros. by apply pending_app.
Qed.

(** ** Room for more bytes *)

Lemma buf_grow_spec n c target :
  0 < c < 2 ^ 64 -> target <= 2 ^ 63 -> target <= c * 2 ^ Z.of_nat n ->
  exists c', buf_grow (S n) c target = Ret c' /\ target <= c'.
Proof.
  revert c. induction n as [|n IH]; intros c Hc Ht Hn.
  - exists c. cbn [buf_grow]. rewrite (proj2 (Z.ltb_ge _ _)) by (simpl in Hn; lia). simpl in Hn. split; [done|lia].
  - rewrite Nat2Z.inj_succ, Z.pow_succ_r in Hn by lia.
    change (buf_grow (S (S n)) c target) with
      (if c <? target then buf_grow (S n) (u64 (c * 2)) target else Ret c).
    destruct (Z.ltb_spec c target); [|exists c; split; [done|lia]].
    rewrite wrapu_small by (unfold in_u; lia). apply IH; lia.
Qed.

(** The buffer after a successful reservation differs in capacity only. *)
Definition reserved (e e' : Arm64Emit) : Prop :=
  data (code e') = data (code e) /\ label_off e' = label_off e /\ label_bound e' = label_bound e /\
  label_cap e' = label_cap e /\ fixups e' = fixups e /\ fixup_cap e' = fixup_cap e /\
  error e' = error e /\ code_vaddr e' = code_vaddr e.

Lemma wf_reserved e e' ss : reserved e e' -> len (code e') <= cap (code e') -> wf e ss -> wf e' ss.
Proof.
  intros (E0 & E1 & E2 & E3 & E4 & E5 & _ & _) Hc [].
  assert (len (code e') = len (code e)) as El by (unfold len; by rewrite E0).
  split; unfold label_count, fixup_count in *; rewrite ?El, ?E0, ?E1, ?E2, ?E3, ?E4, ?E5; try done; lia.
Qed.

Lemma buf_reserve_spec e need :
  0 <= need -> len (code e) <= cap (code e) -> len (code e) + need <= 2 ^ 62 ->
  exists ok e', buf_reserve e need = Ret (ok, e') /\ reserved e e' /\
    len (code e') <= cap (code e') /\
    (ok = true -> len (code e') + need <= cap (code e')).
Proof.
  intros Hn Hc Hb. assert (0 <= len (code e)) by (unfold len; lia). unfold buf_reserve.
  rewrite (wrapu_small 64 (len _ + _)) by (unfold in_u; lia).
  destruct (Z.leb_spec (len (code e) + need) (cap (code e))) as [Hle|Hgt].
  - exists true, e. split; [done|]. split; [by repeat split|]. done.
  - set (c := if cap (code e) =? 0 then 64 else u64 (cap (code e) * 2)).
    assert (0 < c < 2 ^ 64 /\ cap (code e) <= c).
    { unfold c. destruct (Z.eqb_spec (cap (code e)) 0); [lia|].
      rewrite wrapu_small by (unfold in_u; lia). lia. }
    destruct (buf_grow_spec 63 c (len (code e) + need)) as (c' & Hg & Hc'); [lia|lia|lia|].
    rewrite Hg. cbn [obind]. destruct (alloc (mem_heap e)) as [[] h].
    + eexists true, _. split; [done|]. split; [by repeat split|]. unfold len in *. simpl. lia.
    + eexists false, _. split; [done|]. split; [by repeat split|]. split; [done|done].
Qed.

(** ** One word *)

(** What an emitting operation does: it succeeds and appends [bytes], or it
    fails, and then the error flag is set and the code is untouched. *)
Definition emitted (e : Arm64Emit) (bytes : list Z) (ok : bool) (e' : Arm64Emit) : Prop :=
  label_off e' = label_off e /\ label_bound e' = label_bound e /\ fixups e' = fixups e /\
  code_vaddr e' = code_vaddr e /\
  if ok then error e = false /\ error e' = false /\ data (code e') = data (code e) ++ bytes
  else error e' = true /\ data (code e') = data (code e).

Lemma arm64_emit_word_spec e ss w :
  wf e ss -> len (code e) + 4 <= 2 ^ 62 ->
  exists ok e', arm64_emit_word e w = Ret (ok, e') /\ wf e' ss /\ emitted e (word_bytes w) ok e'.
Proof.
  intros Hwf Hb. unfold arm64_emit_word. destruct (error e) eqn:Ee.
  { eexists false, _. split; [done|]. split; [by apply wf_fail|]. repeat split; done. }
  destruct (buf_reserve_spec e 4) as (ok & e1 & -> & Hr & Hc & Hok); [lia|apply Hwf|lia|].
  cbn [obind]. pose proof Hr as (E0 & E1 & E2 & E3 & E4 & E5 & E6 & E7).
  pose proof (wf_reserved e e1 ss Hr Hc Hwf) as Hwf1.
  destruct ok; cbn [negb].
  - eexists true, _. split; [done|]. split.
    + apply wf_append; [done|done|]. rewrite length_word_bytes. apply Hok. done.
    + unfold emitted, append. simpl. rewrite E0, E6. repeat split; done.
  - eexists false, _. split; [done|]. split; [by apply wf_fail|]. unfold emitted, arm64_fail. simpl.
    repeat split; done.
Qed.
(** * Every operation keeps the invariant *)

(** Fix-ups and their sites are only ever added, and an error stays. *)
Record carried (e : Arm64Emit) (ss : list site) (e' : Arm64Emit) (ss' : list site) : Prop := mkCarried {
  ca_fixups : fixups e `prefix_of` fixups e';
  ca_sites : ss `prefix_of` ss';
  ca_error : error e = true -> error e' = true
}.

Definition same_labels (e e' : Arm64Emit) : Prop := label_off e' = label_off e /\ label_bound e' = label_bound e.

Lemma carried_trans e ss e1 ss1 e2 ss2 : carried e ss e1 ss1 -> carried e1 ss1 e2 ss2 -> carried e ss e2 ss2.
Proof. intros [] []. split; [by etrans|by etrans|auto]. Qed.

Lemma carried_same e ss e' : fixups e' = fixups e -> (error e = true -> error e' = true) -> carried e ss e' ss.
Proof. intros E He. split; [by rewrite E|done|done]. Qed.

Lemma carried_refl e ss : carried e ss e ss.
Proof. by apply carried_same. Qed.

Lemma carried_fail e ss m : carried e ss (arm64_fail e m) ss.
Proof. by apply carried_same. Qed.

#[local] Hint Resolve carried_refl carried_fail : core.

(** An operation that appends at most [n] bytes and leaves the labels alone,
    whatever the allocator answers. *)
Definition keeps (n : Z) (m : Arm64Emit -> outcome (bool * Arm64Emit)) : Prop :=
  forall e ss, wf e ss -> len (code e) + n <= 2 ^ 62 ->
    exists ok e' ss', m e = Ret (ok, e') /\ wf e' ss' /\ len (code e') <= len (code e) + n /\
      same_labels e e' /\ carried e ss e' ss'.

Lemma emitted_len e bytes ok e' : emitted e bytes ok e' ->
  len (code e') = len (code e) + if ok then Z.of_nat (length bytes) else 0.
Proof.
  intros (_ & _ & _ & _ & H). unfold len. destruct ok.
  - destruct H as (_ & _ & ->). rewrite length_app. lia.
  - destruct H as (_ & ->). lia.
Qed.

Lemma emitted_carried e bytes ok e' ss : emitted e bytes ok e' -> same_labels e e' /\ carried e ss e' ss.
Proof.
  intros (H1 & H2 & H3 & _ & H). split; [done|]. apply carried_same; [done|]. destruct ok; [|by destruct H].
  destruct H as [-> _]. done.
Qed.

Lemma keeps_word w : keeps 4 (fun e => arm64_emit_word e w).
Proof.
  intros e ss Hwf Hb. destruct (arm64_emit_word_spec e ss w Hwf Hb) as (ok & e' & Hm & Hwf' & He).
  exists ok, e', ss. split; [done|]. split; [done|]. split; [|by eapply emitted_carried].
  rewrite (emitted_len _ _ _ _ He), length_word_bytes. destruct ok; lia.
Qed.

Lemma same_labels_trans e e1 e2 : same_labels e e1 -> same_labels e1 e2 -> same_labels e e2.
Proof. unfold same_labels. intuition congruence. Qed.

Lemma keeps_then n n' m k : 0 <= n' -> keeps n m -> keeps n' k -> keeps (n + n') (fun e => m e >&> k).
Proof.
  intros Hn' Hm Hk e ss Hwf Hb.
  destruct (Hm e ss Hwf) as (ok & e1 & ss1 & E1 & Hwf1 & Hl1 & Hs1 & Hc1); [lia|].
  unfold and_then. rewrite E1. cbn [obind]. destruct ok.
  - destruct (Hk e1 ss1 Hwf1) as (ok & e2 & ss2 & E2 & Hwf2 & Hl2 & Hs2 & Hc2); [lia|].
    exists ok, e2, ss2. split; [done|]. split; [done|]. split; [lia|].
    split; [by eapply same_labels_trans|by eapply carried_trans].
  - exists false, e1, ss1. split; [done|]. split; [done|]. split; [lia|done].
Qed.

Lemma keeps_weaken n n' m : n <= n' -> keeps n m -> keeps n' m.
Proof.
  intros Hn Hm e ss Hwf Hb. destruct (Hm e ss Hwf) as (ok & e' & ss' & ? & ? & ? & ?); [lia|].
  exists ok, e', ss'. split; [done|]. split; [done|]. split; [lia|done].
Qed.

Lemma keeps_fail n r : 0 <= n -> keeps n (fun e => Ret (false, arm64_fail e r)).
Proof.
  intros Hn e ss Hwf Hb. exists false, (arm64_fail e r), ss. split; [done|].
  split; [by apply wf_fail|]. split; [unfold arm64_fail, set_error; simpl; lia|]. split; [done|auto].
Qed.

Lemma keeps_ret n ok : 0 <= n -> keeps n (fun e => Ret (ok, e)).
Proof. intros Hn e ss Hwf Hb. exists ok, e, ss. split; [done|]. split; [done|]. split; [lia|]. split; [done|auto]. Qed.

Lemma keeps_flag n m : keeps n m -> keeps n (fun e => flag_error (m e)).
Proof.
  intros Hm e ss Hwf Hb. destruct (Hm e ss Hwf Hb) as (ok & e' & ss' & E & Hwf' & Hl & Hs & Hc).
  unfold flag_error. rewrite E. cbn [obind]. destruct ok.
  - exists true, e', ss'. done.
  - exists false, (set_error (reason e') e'), ss'. split; [done|]. split; [by apply (wf_congr e')|].
    split; [done|]. split; [done|]. by destruct Hc.
Qed.

Lemma keeps_mov sf rd rn : keeps 4 (fun e => arm64_emit_mov e sf rd rn).
Proof.
  intros e. unfold arm64_emit_mov. destruct (_ || _); by apply keeps_word.
Qed.

Lemma keeps_bytes bytes : keeps (Z.of_nat (length bytes) + 3) (fun e => arm64_emit_bytes e bytes).
Proof.
  intros e ss Hwf Hb. unfold arm64_emit_bytes. cbv zeta.
  set (n := Z.of_nat (length bytes)) in *. set (pad := (4 - (n .& 3)) .& 3).
  assert (0 <= pad <= 3 /\ (n + pad) mod 4 = 0) as [Hp Hm].
  { unfold pad. rewrite !(land_mask _ 2) by lia. change (2 ^ 2) with 4. euclid. }
  assert (0 <= len (code e)) by (unfold len; lia).
  destruct (error e) eqn:Ee.
  { eexists false, _, ss. split; [done|]. split; [by apply wf_fail|]. split; [unfold arm64_fail, set_error; simpl; lia|]. split; [done|auto]. }
  rewrite (wrapu_small 64) by (unfold in_u; lia).
  destruct (buf_reserve_spec e (n + pad)) as (ok & e1 & -> & Hr & Hc & Hok); [lia|apply Hwf|lia|].
  cbn [obind]. pose proof (wf_reserved e e1 ss Hr Hc Hwf) as Hwf1.
  assert (len (code e1) = len (code e)) as El by (unfold len; by rewrite (proj1 Hr)).
  assert (same_labels e e1 /\ carried e ss e1 ss) as [Hs1 Hc1].
  { destruct Hr as (_ & R1 & R2 & _ & R4 & _ & R6 & _). split; [done|]. apply carried_same; [done|]. by rewrite R6. }
  destruct ok; cbn [negb].
  - specialize (Hok eq_refl). eexists true, _, ss. split; [done|].
    assert (forall l1 l2, append l2 (append l1 e1) = append (l1 ++ l2) e1) as Ea.
    { intros. unfold append, set_code. simpl. by rewrite app_assoc. }
    rewrite Ea. assert (Z.of_nat (length (bytes ++ replicate (Z.to_nat pad) 0)) = n + pad) as En.
    { rewrite length_app, length_replicate. lia. }
    split; [apply wf_append; [done|by rewrite En|lia]|].
    split; [unfold append, len; simpl; rewrite length_app; unfold len in *; lia|]. split; [done|].
    eapply carried_trans; [exact Hc1|by apply carried_same].
  - eexists false, _, ss. split; [done|]. split; [by apply wf_fail|].
    split; [unfold arm64_fail, set_error, len in *; simpl; lia|]. split; [done|].
    eapply carried_trans; [exact Hc1|auto].
Qed.

(** ** Labels *)

Lemma wf_new_label e ss : wf e ss ->
  wf (snd (arm64_new_label e)) ss /\ code (snd (arm64_new_label e)) = code e.
Proof.
  intros Hwf. unfold arm64_new_label. destruct (error e); [done|].
  assert (forall e' c, wf e' ss -> label_off e' = label_off e -> label_bound e' = label_bound e ->
    code e' = code e -> label_cap e' = c -> label_count e < c ->
    wf (set_labels (label_off e' ++ [0]) (label_bound e' ++ [false]) (label_cap e') e') ss) as Hpush.
  { intros e' c [] E1 E2 E3 Ec Hc. split; try done; simpl.
    - rewrite !length_app. simpl. lia.
    - apply Forall_app. split; [done|]. constructor; [|done]. unfold len. split; [lia|done].
    - unfold label_count in *. simpl. rewrite length_app, E1. simpl. lia. }
  destruct (Z.eqb_spec (label_count e) (label_cap e)) as [Hfull|Hroom].
  - destruct (alloc (mem_heap e)) as [off h]. destruct (alloc h) as [bound h'].
    destruct (negb off || negb bound).
    { split; [|done]. apply wf_fail. by apply (wf_congr e). }
    split; [|done]. cbn [snd].
    set (c := if label_cap e =? 0 then 16 else label_cap e * 2).
    assert (label_count e < c).
    { unfold c. destruct (Z.eqb_spec (label_cap e) 0); unfold label_count in *; lia. }
    apply (Hpush _ c); [|done..]. destruct Hwf.
    split; try done. unfold label_count in *. simpl. lia.
  - split; [|done]. cbn [snd]. apply (Hpush e (label_cap e)); try done. destruct Hwf. lia.
Qed.

Lemma wf_bind_label e ss l : wf e ss ->
  wf (arm64_bind_label e l) ss /\ code (arm64_bind_label e l) = code e.
Proof.
  intros Hwf. unfold arm64_bind_label. destruct (_ || _); [split; [by apply wf_fail|done]|].
  split; [|done]. destruct Hwf. split; try done; simpl.
  - rewrite !length_insert. done.
  - apply Forall_insert; [done|]. unfold len in *. split; [lia|done].
  - unfold label_count in *. simpl. by rewrite length_insert.
Qed.
(** ** Fix-ups *)

Lemma sorted_snoc {A} (R : A -> A -> Prop) l x :
  StronglySorted R l -> Forall (fun y => R y x) l -> StronglySorted R (l ++ [x]).
Proof.
  induction 1 as [|y l Hl IH Hy]; intros Hx; simpl.
  - constructor; constructor.
  - inversion Hx; subst. constructor; [auto|]. apply Forall_app. split; [done|]. by constructor.
Qed.

(** An operation that refers to label [l] at site [s]: it appends the site
    and records the fix-up, or fails and sets the error flag. *)
Definition refers (s : site) (l n : Z) (m : Arm64Emit -> outcome (bool * Arm64Emit)) : Prop :=
  forall e ss, wf e ss -> len (code e) + n <= 2 ^ 62 ->
    exists ok e', m e = Ret (ok, e') /\ len (code e') <= len (code e) + n /\ same_labels e e' /\
      (error e = true -> error e' = true) /\
      if ok then wf e' (ss ++ [s]) /\ fixups e' = fixups e ++ [mkFixup (len (code e)) l (site_kind s)]
      else wf e' ss /\ fixups e' = fixups e /\ error e' = true.

Lemma refers_keeps s l n m : refers s l n m -> keeps n m.
Proof.
  intros Hm e ss Hwf Hb. destruct (Hm e ss Hwf Hb) as (ok & e' & E & Hl & Hs & He & H). destruct ok.
  - destruct H as [Hwf' Hf]. exists true, e', (ss ++ [s]). split; [done|]. split; [done|]. split; [done|]. split; [done|].
    split; [rewrite Hf|..]; [by apply prefix_app_r|by apply prefix_app_r|done].
  - destruct H as (Hwf' & Hf & _). exists false, e', ss. split; [done|]. split; [done|]. split; [done|]. split; [done|].
    by apply carried_same.
Qed.

(** Recording a fix-up for a site that ends the code. *)
Lemma add_fixup_spec e ss a l k s :
  wf e ss -> pending (data (code e)) (mkFixup a l k) s ->
  Forall (fun f => before f (mkFixup a l k)) (fixups e) ->
  exists ok e', add_fixup e a l k = Ret (ok, e') /\ code e' = code e /\ same_labels e e' /\
    (error e = true -> error e' = true) /\
    if ok then wf e' (ss ++ [s]) /\ fixups e' = fixups e ++ [mkFixup a l k]
    else wf e' ss /\ fixups e' = fixups e /\ error e' = true.
Proof.
  intros Hwf Hp Hb. unfold add_fixup.
  assert (forall e' c, wf e' ss -> fixups e' = fixups e -> code e' = code e -> fixup_cap e' = c ->
    fixup_count e < c ->
    wf (set_fixups (fixups e' ++ [mkFixup a l k]) (fixup_cap e') e') (ss ++ [s])) as Hpush.
  { intros e' c [] E1 E2 Ec Hc. split; try done; simpl.
    - unfold fixup_count in *. simpl. rewrite length_app, E1. simpl. lia.
    - apply Forall2_app; [done|]. constructor; [|done]. by rewrite E2.
    - apply sorted_snoc; [done|]. by rewrite E1. }
  destruct (Z.eqb_spec (fixup_count e) (fixup_cap e)) as [Hfull|Hroom].
  - destruct (alloc (mem_heap e)) as [[] h]; cbn [negb].
    + set (c := if fixup_cap e =? 0 then 16 else fixup_cap e * 2).
      assert (fixup_count e < c).
      { unfold c. destruct (Z.eqb_spec (fixup_cap e) 0); unfold fixup_count in *; lia. }
      eexists true, _. do 4 (split; [done|]). split; [|done].
      apply (Hpush _ c); [|done..]. destruct Hwf. split; try done. unfold fixup_count in *. simpl. lia.
    + eexists false, _. do 4 (split; [done|]). split; [|done]. apply wf_fail. by apply (wf_congr e).
  - eexists true, _. do 4 (split; [done|]). split; [|done].
    apply (Hpush e (fixup_cap e)); try done. destruct Hwf. lia.
Qed.

(** The fix-ups of a well-formed buffer end before its end. *)
Lemma fixups_before e ss a l k : wf e ss -> len (code e) <= a ->
  Forall (fun f => before f (mkFixup a l k)) (fixups e).
Proof.
  intros [] Ha. clear wf_order0 wf_fixup_cap0. revert wf_sites0. generalize (fixups e). intros fs.
  induction 1 as [|f s fs' ss' [_ _ (_ & _ & Hf) _] _ IH]; constructor; [|done].
  unfold before. simpl. unfold len in *. lia.
Qed.

Lemma shl_range x k : 0 <= (x .<< k) < 2 ^ 32.
Proof. apply wrapu_bound. lia. Qed.

Lemma low_range x m w : 0 <= w <= 32 -> m = 2 ^ w - 1 -> 0 <= x .& m < 2 ^ 32.
Proof.
  intros Hw ->. rewrite (land_mask _ w) by lia. pose proof (Z.mod_pos_bound x (2 ^ w)).
  assert (2 ^ w <= 2 ^ 32) by (apply Z.pow_le_mono_r; lia). lia.
Qed.

Lemma R5_range x : 0 <= R5 x < 2 ^ 32.
Proof. apply (low_range _ _ 5); lia. Qed.

Ltac word_range :=
  cbn [encode branch_insn];
  unfold arm64_b, arm64_bl, arm64_bcond, arm64_cbz, arm64_cbnz, arm64_movz, arm64_movk; cbv zeta;
  repeat first [ apply lor_lt; [lia|..]
               | apply shl_range | apply R5_range
               | apply (low_range _ _ 4); lia | apply (low_range _ _ 26); lia
               | lia ].

Lemma branch_word_range b off : in_u 32 (encode (branch_insn b off)).
Proof.
  unfold in_u. destruct b as [[]|c|[] [] t]; word_range.
Qed.

Lemma addr_word_range rd v part : in_u 32 (encode (addr_insn rd v part)).
Proof.
  unfold in_u, addr_insn. destruct (part =? 0); word_range.
  all: apply (low_range _ _ 2); lia.
Qed.

(** A branch and its fix-up. *)
Lemma refers_branch b l :
  site_ok (SBranch b) ->
  refers (SBranch b) l 4 (fun e => arm64_emit_word e (encode (branch_insn b 0)) >&>
                      (fun e' => add_fixup e' (len (code e)) l (site_kind (SBranch b)))).
Proof.
  intros Hs e ss Hwf Hb.
  destruct (arm64_emit_word_spec e ss (encode (branch_insn b 0)) Hwf Hb) as (ok & e1 & E1 & Hwf1 & He).
  pose proof (emitted_len _ _ _ _ He) as Hl. rewrite length_word_bytes in Hl.
  destruct (emitted_carried _ _ _ _ ss He) as [Hs1 [_ _ Hst]].
  unfold and_then. rewrite E1. cbn [obind]. destruct ok.
  - destruct He as (_ & _ & Hfx & _ & _ & _ & Hd).
    destruct (add_fixup_spec e1 ss (len (code e)) l (site_kind (SBranch b)) (SBranch b))
      as (ok & e2 & E2 & Hc2 & Hs2 & Hst2 & H); [done| | |].
    + split; [done|done| |].
      * simpl. split; [unfold len; lia|]. split; [apply Hwf|]. rewrite Hd, length_app, length_word_bytes.
        unfold len. destruct b; simpl; lia.
      * intros [|i] w Hw; [|done]. injection Hw as <-. rewrite Hd. simpl at_. rewrite Z.add_0_r.
        apply get_word_end, branch_word_range.
    + rewrite Hfx. by apply (fixups_before e ss).
    + exists ok, e2. split; [done|]. split; [rewrite Hc2; lia|]. split; [by eapply same_labels_trans|]. split; [auto|].
      by rewrite Hfx in H.
  - exists false, e1. split; [done|]. split; [lia|]. split; [done|]. split; [done|]. by destruct He as (_ & _ & ? & _ & ? & _).
Qed.

Lemma refers_b l : refers (SBranch (BrJump false)) l 4 (fun e => arm64_emit_b e l).
Proof. exact (refers_branch (BrJump false) l I). Qed.

Lemma refers_bl l : refers (SBranch (BrJump true)) l 4 (fun e => arm64_emit_bl e l).
Proof. exact (refers_branch (BrJump true) l I). Qed.

Lemma mask_twice x m k : 0 <= k <= 32 -> m = 2 ^ k - 1 -> u32 (u32 x .& m) .& m = u32 x .& m.
Proof.
  intros Hk ->. rewrite !(land_mask _ k) by lia.
  pose proof (Z.mod_pos_bound (u32 x) (2 ^ k)).
  assert (2 ^ k <= 2 ^ 32) by (apply Z.pow_le_mono_r; lia).
  rewrite (wrapu_small 32 (_ mod _)) by (unfold in_u; lia). apply Z.mod_mod. lia.
Qed.

Lemma refers_bcond c l : refers (SBranch (BrCond (c mod 2 ^ 4))) l 4 (fun e => arm64_emit_bcond e c l).
Proof.
  assert (in_u 4 (c mod 2 ^ 4)) as Hc by (apply Z.mod_pos_bound; lia).
  assert (u32 c .& 0xF = c mod 2 ^ 4) as Em.
  { rewrite (land_mask _ 4) by lia. apply Z.mod_mod_divide. by exists (2 ^ 28). }
  rewrite <- Em in *. pose proof (refers_branch (BrCond (u32 c .& 0xF)) l Hc) as H.
  cbn [encode branch_insn] in H. unfold arm64_bcond in H. cbv zeta in H.
  rewrite (mask_twice c 0xF 4) in H by lia. exact H.
Qed.

Lemma R5_mod x : R5 x = x mod 2 ^ 5.
Proof. unfold R5. by rewrite (land_mask _ 5) by lia. Qed.

Lemma refers_cmp nz sf t l : refers (SBranch (BrCmp nz sf (t mod 2 ^ 5))) l 4
  (fun e => (if nz : bool then arm64_emit_cbnz e sf t l else arm64_emit_cbz e sf t l)).
Proof.
  rewrite <- R5_mod. assert (in_u 5 (R5 t)) as Ht by apply R5_bound.
  pose proof (refers_branch (BrCmp nz sf (R5 t)) l Ht) as H.
  destruct nz; cbn [encode branch_insn] in H; unfold arm64_cbz, arm64_cbnz in H; cbv zeta in H;
    rewrite (R5_small (R5 t)) in H by done; exact H.
Qed.
(** ** Address loads *)

(** A word emitted after some others of the same sequence. *)
Lemma emit_next e0 e ss w bytes :
  wf e ss -> len (code e) + 4 <= 2 ^ 62 -> emitted e0 bytes true e ->
  exists ok e', arm64_emit_word e w = Ret (ok, e') /\ wf e' ss /\
    if ok then emitted e0 (bytes ++ word_bytes w) true e'
    else len (code e') = len (code e) /\ same_labels e0 e' /\ fixups e' = fixups e0 /\ error e' = true.
Proof.
  intros Hwf Hb (H1 & H2 & H3 & H4 & H5 & H6 & H7).
  destruct (arm64_emit_word_spec e ss w Hwf Hb) as (ok & e' & E & Hwf' & He).
  exists ok, e'. split; [done|]. split; [done|].
  pose proof (emitted_len _ _ _ _ He). destruct ok.
  2:{ destruct He as (G1 & G2 & G3 & _ & G5 & _). unfold same_labels. split; [lia|]. split_and!; congruence. }
  destruct He as (G1 & G2 & G3 & G4 & G5 & G6 & G7).
  unfold emitted. rewrite G1, G2, G3, G4, G6, G7, H1, H2, H3, H4, H5, H7, app_assoc. done.
Qed.

Lemma words_appended d (ws : list Z) :
  Forall (in_u 32) ws -> holds_words (d ++ concat (map word_bytes ws)) (Z.of_nat (length d)) ws.
Proof.
  revert d. induction ws as [|w ws IH]; intros d Hws i x Hx; [done|].
  inversion Hws; subst. 
  change (concat (map word_bytes (w :: ws))) with (word_bytes w ++ concat (map word_bytes ws)).
  destruct i as [|i]; simpl in Hx.
  - injection Hx as <-. rewrite Z.add_0_r, app_assoc. apply get_word_app. by apply get_word_end.
  - rewrite app_assoc. specialize (IH (d ++ word_bytes w) ltac:(done) i x Hx).
    rewrite length_app, length_word_bytes in IH. rewrite <- IH. f_equal. lia.
Qed.

(** A failure on the way of a sequence of words. *)
Lemma refers_fails (s : site) (l n : Z) e e' ss : wf e' ss -> len (code e') <= len (code e) + n -> same_labels e e' ->
  fixups e' = fixups e -> error e' = true ->
  exists ok e'', Ret (false, e') = Ret (ok, e'') /\ len (code e'') <= len (code e) + n /\ same_labels e e'' /\
    (error e = true -> error e'' = true) /\
    if ok : bool then wf e'' (ss ++ [s]) /\ fixups e'' = fixups e ++ [mkFixup (len (code e)) l (site_kind s)]
    else wf e'' ss /\ fixups e'' = fixups e /\ error e'' = true.
Proof. intros. exists false, e'. split_and!; done. Qed.

Lemma refers_label_address rd l : refers (SAddr (rd mod 2 ^ 5)) l 16 (fun e => arm64_emit_label_address e rd l).
Proof.
  rewrite <- R5_mod. intros e ss Hwf Hb. unfold arm64_emit_label_address.
  destruct (Z.eqb_spec (code_vaddr e) 0).
  { apply refers_fails; [by apply wf_fail|unfold arm64_fail; simpl; lia|done..]. }
  cbv zeta. assert (emitted e [] true e \/ error e = true) as [H0|He].
  { destruct (error e) eqn:Ee; [by right|left]. unfold emitted. rewrite app_nil_r. done. }
  2: { (* nothing is emitted once the error flag is set *)
    assert (forall w, exists r, arm64_emit_word e w = Ret (false, arm64_fail e r)) as Ew
      by (intros w; unfold arm64_emit_word; rewrite He; by eexists).
    destruct (Ew (arm64_movz true rd 0 0)) as [r ->]. unfold and_then. cbn [obind].
    apply refers_fails; [by apply wf_fail|unfold arm64_fail; simpl; lia|done..]. }
  assert (forall x, R5 (R5 x) = R5 x) as RR by (intros; apply R5_small, R5_bound).
  set (w := fun part => encode (addr_insn (R5 rd) 0 part)).
  replace (arm64_movz true rd 0 0) with (w 0) by (unfold w; simpl; unfold arm64_movz; by rewrite RR).
  replace (arm64_movk true rd 0 1) with (w 1) by (unfold w; simpl; unfold arm64_movk; by rewrite RR).
  replace (arm64_movk true rd 0 2) with (w 2) by (unfold w; simpl; unfold arm64_movk; by rewrite RR).
  replace (arm64_movk true rd 0 3) with (w 3) by (unfold w; simpl; unfold arm64_movk; by rewrite RR).
  unfold and_then.
  destruct (emit_next e e ss (w 0) [] Hwf ltac:(lia) H0) as (ok1 & e1 & -> & Hwf1 & R1).
  cbn [obind]. destruct ok1; cbn [obind]; [|destruct R1 as (? & ? & ? & ?); apply refers_fails; done || lia].
  pose proof (emitted_len _ _ _ _ R1) as L1. simpl in L1.
  destruct (emit_next e e1 ss (w 1) _ Hwf1 ltac:(lia) R1) as (ok2 & e2 & -> & Hwf2 & R2).
  cbn [obind]. destruct ok2; cbn [obind]; [|destruct R2 as (? & ? & ? & ?); apply refers_fails; done || lia].
  pose proof (emitted_len _ _ _ _ R2) as L2. simpl in L2.
  destruct (emit_next e e2 ss (w 2) _ Hwf2 ltac:(lia) R2) as (ok3 & e3 & -> & Hwf3 & R3).
  cbn [obind]. destruct ok3; cbn [obind]; [|destruct R3 as (? & ? & ? & ?); apply refers_fails; done || lia].
  pose proof (emitted_len _ _ _ _ R3) as L3. simpl in L3.
  destruct (emit_next e e3 ss (w 3) _ Hwf3 ltac:(lia) R3) as (ok4 & e4 & -> & Hwf4 & R4).
  cbn [obind]. destruct ok4; cbn [obind]; [|destruct R4 as (? & ? & ? & ?); apply refers_fails; done || lia].
  pose proof (emitted_len _ _ _ _ R4) as L4. simpl in L4. destruct (emitted_carried _ _ _ _ ss R4) as [Hs4 [_ _ Hst4]].
  destruct R4 as (_ & _ & Hfx & _ & _ & _ & Hd).
  destruct (add_fixup_spec e4 ss (len (code e)) l ARM64_FIX_ABS64_MOV (SAddr (R5 rd)))
    as (ok & e5 & -> & Hc5 & Hs5 & Hst5 & H5); [done| | |].
  - split; [done|apply R5_bound| |].
    + simpl. split; [unfold len; lia|]. split; [apply Hwf|]. unfold len in *. lia.
    + simpl at_. rewrite Hd. simpl app.
      pose proof (words_appended (data (code e)) (map w [0; 1; 2; 3])) as Hw. simpl in Hw.
      apply Hw. repeat constructor; apply addr_word_range.
  - rewrite Hfx. by apply (fixups_before e ss).
  - exists ok, e5. split; [done|]. split; [rewrite Hc5; lia|]. split; [by eapply same_labels_trans|]. split; [auto|].
    by rewrite Hfx in H5.
Qed.

(** ** Frames *)

Lemma keeps_saved enc saved i : keeps (4 * Z.of_nat (length saved)) (emit_saved enc saved i).
Proof.
  revert i. induction saved as [|r saved IH]; intros i; [by apply (keeps_ret 0)|].
  cbn [emit_saved length].
  replace (4 * Z.of_nat (S (length saved))) with (4 + 4 * Z.of_nat (length saved)) by lia.
  apply (keeps_then 4 _ (fun e => arm64_emit_word e (enc r (8 * i)))); [lia|apply keeps_word|apply IH].
Qed.

Lemma keeps_prologue frame saved :
  keeps (16 + 4 * Z.of_nat (length saved)) (fun e => arm64_emit_prologue e frame saved).
Proof.
  intros e ss Hwf Hb. unfold arm64_emit_prologue.
  destruct (_ || _); [exact (keeps_fail (16 + 4 * Z.of_nat (length saved)) _ ltac:(lia) e ss Hwf Hb)|].
  destruct (keeps_then 4 4 (fun e => arm64_emit_word e (arm64_stp_pre true ARM64_X29 ARM64_X30 ARM64_SP (-16)))
    (fun e => arm64_emit_word e (arm64_mov_sp ARM64_X29 ARM64_SP)) ltac:(lia) (keeps_word _) (keeps_word _)
    e ss Hwf ltac:(lia)) as (ok & e1 & ss1 & -> & Hwf1 & Hl1 & Hs1 & Hc1).
  cbn [obind]. cbv zeta.
  assert (forall n m, 0 <= n <= 8 -> keeps n m ->
    exists ok e' ss', flag_error (m e1 >&> emit_saved (fun r off => arm64_str_imm true r ARM64_SP off) saved 0) =
      Ret (ok, e') /\ wf e' ss' /\ len (code e') <= len (code e) + (16 + 4 * Z.of_nat (length saved)) /\
      same_labels e e' /\ carried e ss e' ss') as Hsave.
  { intros n m Hn Hm.
    destruct (keeps_flag _ _ (keeps_then n (4 * Z.of_nat (length saved)) m _ ltac:(lia) Hm
      (keeps_saved (fun r off => arm64_str_imm true r ARM64_SP off) saved 0)) e1 ss1 Hwf1 ltac:(lia))
      as (ok' & e' & ss' & E & ? & ? & ? & ?).
    exists ok', e', ss'. split; [done|]. split; [done|]. split; [lia|].
    split; [by eapply same_labels_trans|by eapply carried_trans]. }
  destruct (ok && _ && _); [apply (Hsave 4 (fun e => arm64_emit_word e _)); [lia|apply keeps_word]|].
  destruct (ok && _); [|apply (Hsave 0 (fun e => Ret (ok, e))); [lia|by apply keeps_ret]].
  destruct (_ <? _).
  - eexists false, _, ss1. split; [done|]. split; [by apply wf_fail|]. split; [unfold arm64_fail; simpl; lia|].
    split; [done|]. eapply carried_trans; [exact Hc1|auto].
  - apply (Hsave 8 (fun e => arm64_emit_word e _ >&> (fun e => arm64_emit_word e _))); [lia|].
    apply (keeps_then 4 4); [lia|apply keeps_word..].
Qed.

Lemma keeps_epilogue frame saved :
  keeps (12 + 4 * Z.of_nat (length saved)) (fun e => arm64_emit_epilogue e frame saved).
Proof.
  unfold arm64_emit_epilogue. apply keeps_flag.
  replace (12 + 4 * Z.of_nat (length saved)) with (4 * Z.of_nat (length saved) + 4 + 4 + 4) by lia.
  repeat (eapply (keeps_then _ 4); [lia| |apply keeps_word]). apply keeps_saved.
Qed.
(** * Sequences of operations *)

Inductive emit_op :=
| OpBase (vaddr : Z)
| OpWord (w : Z)
| OpMov (sf : bool) (rd rn : Z)
| OpBytes (bytes : list Z)
| OpNewLabel
| OpBind (l : Z)
| OpB (l : Z)
| OpBl (l : Z)
| OpBcond (c l : Z)
| OpCmp (nz sf : bool) (t l : Z)
| OpAddress (rd l : Z)
| OpPrologue (frame : Z) (saved : list Z)
| OpEpilogue (frame : Z) (saved : list Z).

Definition drop_flag (m : outcome (bool * Arm64Emit)) : outcome Arm64Emit :=
  let! (_, e) := m in Ret e.

(** The caller may ignore the flag an operation returns: the error is in the
    state. *)
Definition run_op (o : emit_op) (e : Arm64Emit) : outcome Arm64Emit :=
  match o with
  | OpBase v => Ret (mkEmit (code e) (label_off e) (label_bound e) (label_cap e) (fixups e) (fixup_cap e)
                      (error e) (reason e) v (mem_heap e))
  | OpWord w => drop_flag (arm64_emit_word e w)
  | OpMov sf rd rn => drop_flag (arm64_emit_mov e sf rd rn)
  | OpBytes l => drop_flag (arm64_emit_bytes e l)
  | OpNewLabel => Ret (snd (arm64_new_label e))
  | OpBind l => Ret (arm64_bind_label e l)
  | OpB l => drop_flag (arm64_emit_b e l)
  | OpBl l => drop_flag (arm64_emit_bl e l)
  | OpBcond c l => drop_flag (arm64_emit_bcond e c l)
  | OpCmp nz sf t l => drop_flag (if nz then arm64_emit_cbnz e sf t l else arm64_emit_cbz e sf t l)
  | OpAddress rd l => drop_flag (arm64_emit_label_address e rd l)
  | OpPrologue n s => drop_flag (arm64_emit_prologue e n s)
  | OpEpilogue n s => drop_flag (arm64_emit_epilogue e n s)
  end.

Definition op_size (o : emit_op) : Z :=
  match o with
  | OpBytes l => Z.of_nat (length l) + 3
  | OpAddress _ _ => 16
  | OpPrologue _ s => 16 + 4 * Z.of_nat (length s)
  | OpEpilogue _ s => 12 + 4 * Z.of_nat (length s)
  | OpBase _ | OpNewLabel | OpBind _ => 0
  | _ => 4
  end.

Fixpoint run_ops (ops : list emit_op) (e : Arm64Emit) : outcome Arm64Emit :=
  match ops with
  | [] => Ret e
  | o :: ops => let! e := run_op o e in run_ops ops e
  end.

Definition ops_size (ops : list emit_op) : Z := foldr (fun o n => op_size o + n) 0 ops.

Lemma new_label_carried e ss : carried e ss (snd (arm64_new_label e)) ss.
Proof.
  unfold arm64_new_label. destruct (error e) eqn:Ee; [auto|].
  destruct (_ =? _); [destruct (alloc _) as [off h]; destruct (alloc h); destruct (_ || _)|]; by apply carried_same.
Qed.

Lemma bind_label_carried e ss l : carried e ss (arm64_bind_label e l) ss.
Proof. unfold arm64_bind_label. destruct (_ || _) eqn:E; [auto|]. by apply carried_same. Qed.

(** The operations that make or bind labels. *)
Definition on_labels (o : emit_op) : bool := match o with OpNewLabel | OpBind _ => true | _ => false end.

Lemma run_op_wf o e ss : wf e ss -> len (code e) + op_size o <= 2 ^ 62 ->
  exists e' ss', run_op o e = Ret e' /\ wf e' ss' /\ len (code e') <= len (code e) + op_size o /\
    (on_labels o = false -> same_labels e e') /\ carried e ss e' ss'.
Proof.
  intros Hwf Hb.
  assert (forall m, keeps (op_size o) m ->
    exists e' ss', drop_flag (m e) = Ret e' /\ wf e' ss' /\ len (code e') <= len (code e) + op_size o /\
      (on_labels o = false -> same_labels e e') /\ carried e ss e' ss') as K.
  { intros m Hm. destruct (Hm e ss Hwf Hb) as (ok & e' & ss' & E & ? & ? & ? & ?). unfold drop_flag. rewrite E.
    exists e', ss'. done. }
  destruct o as [v|w|sf d n|bytes| |l|l|l|c l|nz sf t l|d l|n s|n s]; cbn [run_op op_size] in *.
  - exists (mkEmit (code e) (label_off e) (label_bound e) (label_cap e) (fixups e) (fixup_cap e)
      (error e) (reason e) v (mem_heap e)), ss. split; [done|]. split; [by apply (wf_congr e)|]. split; [simpl; lia|].
    split; [done|by apply carried_same].
  - apply (K (fun e => arm64_emit_word e w)), keeps_word.
  - apply (K (fun e => arm64_emit_mov e sf d n)), keeps_mov.
  - apply (K (fun e => arm64_emit_bytes e bytes)), keeps_bytes.
  - destruct (wf_new_label e ss Hwf) as [? Hc]. eexists _, ss. split; [done|]. split; [done|]. split; [rewrite Hc; lia|].
    split; [done|apply new_label_carried].
  - destruct (wf_bind_label e ss l Hwf) as [? Hc]. eexists _, ss. split; [done|]. split; [done|]. split; [rewrite Hc; lia|].
    split; [done|apply bind_label_carried].
  - eapply (K (fun e => arm64_emit_b e l)), refers_keeps, refers_b.
  - eapply (K (fun e => arm64_emit_bl e l)), refers_keeps, refers_bl.
  - eapply (K (fun e => arm64_emit_bcond e c l)), refers_keeps, refers_bcond.
  - eapply (K (fun e => if nz then arm64_emit_cbnz e sf t l else arm64_emit_cbz e sf t l)), refers_keeps, refers_cmp.
  - eapply (K (fun e => arm64_emit_label_address e d l)), refers_keeps, refers_label_address.
  - apply (K (fun e => arm64_emit_prologue e n s)), keeps_prologue.
  - apply (K (fun e => arm64_emit_epilogue e n s)), keeps_epilogue.
Qed.

Lemma op_size_nonneg o : 0 <= op_size o.
Proof. destruct o; simpl; lia. Qed.

Lemma ops_size_nonneg ops : 0 <= ops_size ops.
Proof.
  induction ops as [|o ops IH]; [done|]. pose proof (op_size_nonneg o).
  change (ops_size (o :: ops)) with (op_size o + ops_size ops). lia.
Qed.

Lemma ops_size_app ops ops' : ops_size (ops ++ ops') = ops_size ops + ops_size ops'.
Proof.
  induction ops as [|o ops IH]; [done|]. change (ops_size ((o :: ops) ++ ops')) with (op_size o + ops_size (ops ++ ops')).
  change (ops_size (o :: ops)) with (op_size o + ops_size ops). lia.
Qed.

Lemma run_ops_app ops ops' e : run_ops (ops ++ ops') e = let! e := run_ops ops e in run_ops ops' e.
Proof. revert e. induction ops as [|o ops IH]; intros e; [done|]. cbn [app run_ops]. destruct (run_op o e); [apply IH|done..]. Qed.

Lemma run_ops_wf ops e ss : wf e ss -> len (code e) + ops_size ops <= 2 ^ 62 ->
  exists e' ss', run_ops ops e = Ret e' /\ wf e' ss' /\ len (code e') <= len (code e) + ops_size ops /\ carried e ss e' ss'.
Proof.
  revert e ss. induction ops as [|o ops IH]; intros e ss Hwf Hb; [exists e, ss; cbn; split_and!; [done..|lia|auto]|].
  cbn [run_ops ops_size foldr] in *. fold (ops_size ops) in *. pose proof (ops_size_nonneg ops).
  destruct (run_op_wf o e ss Hwf ltac:(lia)) as (e1 & ss1 & -> & Hwf1 & Hl1 & _ & Hc1).
  cbn [obind]. destruct (IH e1 ss1 Hwf1) as (e2 & ss2 & -> & Hwf2 & Hl2 & Hc2); [lia|].
  exists e2, ss2. split; [done|]. split; [done|]. split; [lia|]. by eapply carried_trans.
Qed.

(** * Finalisation *)

(** What a fix-up must be given when its label is at [off]. *)
Definition fix_value (e : Arm64Emit) (f : Arm64Fixup) (off : Z) : Z :=
  match fix_kind f with
  | ARM64_FIX_ABS64_MOV => u64 (code_vaddr e + off)
  | _ => off - at_ f
  end.

(** The label of [f] is bound, at [off], and within reach. *)
Definition resolves (e : Arm64Emit) (f : Arm64Fixup) (off : Z) : Prop :=
  0 <= label f < label_count e /\
  label_bound e !! Z.to_nat (label f) = Some true /\
  label_off e !! Z.to_nat (label f) = Some off /\
  match fix_kind f with
  | ARM64_FIX_B26 => - 2 ^ 27 <= off - at_ f < 2 ^ 27
  | ARM64_FIX_IMM19 => - 2 ^ 20 <= off - at_ f < 2 ^ 20
  | ARM64_FIX_ABS64_MOV => True
  end.

(** Bytes outside a fix-up are kept. *)
Definition frame (d d' : list Z) (a n : Z) : Prop :=
  length d' = length d /\ forall i : nat, Z.of_nat i < a \/ a + n <= Z.of_nat i -> d' !! i = d !! i.

Lemma frame_trans d d1 d2 a n : frame d d1 a n -> frame d1 d2 a n -> frame d d2 a n.
Proof.
  intros [L1 F1] [L2 F2]. split; [congruence|]. intros i Hi. by rewrite F2, F1.
Qed.

Lemma frame_weaken d d' a n a' n' :
  a' <= a -> a + n <= a' + n' -> frame d d' a n -> frame d d' a' n'.
Proof. intros H1 H2 [L F]. split; [done|]. intros i Hi. apply F. lia. Qed.

Lemma frame_get d d' a n x : frame d d' a n -> x + 4 <= a \/ a + n <= x -> get_word d' x = get_word d x.
Proof. intros [L F] Hx. apply get_word_ext; [done|]. intros i Hi. apply F. lia. Qed.

Lemma patch_word d a w w' : get_word d a = Ret w -> in_u 32 w' ->
  exists d', put_word d a w' = Ret d' /\ frame d d' a 4 /\ get_word d' a = Ret w'.
Proof.
  intros Hg Hw. destruct (put_word_ok d a w' w Hg) as [d' Hd'].
  destruct (put_word_spec d a w' d' Hd' Hw) as (Hl & Hg' & Hf). by exists d'.
Qed.

Lemma patch_part_spec d rd v a part :
  part = 0 \/ part = 1 \/ part = 2 \/ part = 3 ->
  get_word d (a + part * 4) = Ret (encode (addr_insn rd 0 part)) ->
  exists d', patch_part v a part d = Ret d' /\ frame d d' (a + part * 4) 4 /\
    get_word d' (a + part * 4) = Ret (encode (addr_insn rd v part)).
Proof.
  intros Hp Hg. unfold patch_part. rewrite Hg. cbn [obind]. cbv zeta.
  rewrite patch_addr_part by done.
  apply (patch_word d _ (encode (addr_insn rd 0 part))); [done|apply addr_word_range].
Qed.

Lemma patch_address_spec d rd v a :
  holds_words d a (site_words (SAddr rd) 0) ->
  exists d', patch_address v a d = Ret d' /\ frame d d' a 16 /\
    holds_words d' a (site_words (SAddr rd) v).
Proof.
  intros Hw.
  assert (forall part, part = 0 \/ part = 1 \/ part = 2 \/ part = 3 ->
    get_word d (a + part * 4) = Ret (encode (addr_insn rd 0 part))) as Hg.
  { intros part Hp.
    pose proof (Hw 0%nat _ eq_refl). pose proof (Hw 1%nat _ eq_refl).
    pose proof (Hw 2%nat _ eq_refl). pose proof (Hw 3%nat _ eq_refl).
    destruct Hp as [->|[->|[->| ->]]]; done. }
  unfold patch_address.
  destruct (patch_part_spec d rd v a 0) as (d1 & -> & F1 & G1); [lia|apply Hg; lia|]. cbn [obind].
  destruct (patch_part_spec d1 rd v a 1) as (d2 & -> & F2 & G2);
    [lia|rewrite (frame_get _ _ _ _ _ F1) by lia; apply Hg; lia|]. cbn [obind].
  destruct (patch_part_spec d2 rd v a 2) as (d3 & -> & F3 & G3);
    [lia|rewrite (frame_get _ _ _ _ _ F2), (frame_get _ _ _ _ _ F1) by lia; apply Hg; lia|]. cbn [obind].
  destruct (patch_part_spec d3 rd v a 3) as (d4 & -> & F4 & G4);
    [lia|rewrite (frame_get _ _ _ _ _ F3), (frame_get _ _ _ _ _ F2), (frame_get _ _ _ _ _ F1) by lia;
         apply Hg; lia|].
  exists d4. split; [done|]. split.
  - apply (frame_trans _ d1); [by eapply frame_weaken; [..|exact F1]; lia|].
    apply (frame_trans _ d2); [by eapply frame_weaken; [..|exact F2]; lia|].
    apply (frame_trans _ d3); by eapply frame_weaken; [..|eassumption]; lia.
  - intros i w Hi. destruct i as [|[|[|[|i]]]]; [apply (inj Some) in Hi as <-..|done].
    + rewrite <- G1. rewrite (frame_get _ _ _ _ _ F4), (frame_get _ _ _ _ _ F3), (frame_get _ _ _ _ _ F2) by lia;
      f_equal; lia.
    + rewrite <- G2. rewrite (frame_get _ _ _ _ _ F4), (frame_get _ _ _ _ _ F3) by lia; f_equal; lia.
    + rewrite <- G3. rewrite (frame_get _ _ _ _ _ F4) by lia; f_equal; lia.
    + rewrite <- G4; f_equal; lia.
Qed.
Lemma site_range e f s off : pending (data (code e)) f s -> resolves e f off -> off mod 4 = 0 ->
  fix_kind f <> ARM64_FIX_ABS64_MOV ->
  exists q, off - at_ f = q * 4 /\ Z.shiftr (off - at_ f) 2 = q /\
    (fix_kind f = ARM64_FIX_B26 -> - 2 ^ 25 <= q < 2 ^ 25) /\
    (fix_kind f = ARM64_FIX_IMM19 -> - 2 ^ 18 <= q < 2 ^ 18).
Proof.
  intros [_ _ (_ & Ha & _) _] (_ & _ & _ & Hr) Ho Hk. exists ((off - at_ f) / 4).
  assert ((off - at_ f) mod 4 = 0) as Hm by (rewrite Zminus_mod, Ho, Ha; done).
  split; [euclid|]. rewrite Z.shiftr_div_pow2 by lia. split; [done|].
  destruct (fix_kind f); [|..]; split; intros E; try done; euclid.
Qed.

Lemma apply_fixup_ok e f s off :
  pending (data (code e)) f s -> resolves e f off -> off mod 4 = 0 ->
  exists d, apply_fixup e f = Ret (true, set_code (mkBuf d (cap (code e))) e) /\
    frame (data (code e)) d (at_ f) (kind_size (fix_kind f)) /\
    holds_words d (at_ f) (site_words s (fix_value e f off)).
Proof.
  intros Hp Hr Ho. pose proof Hr as ((Hl1 & Hl2) & Hb & Hoff & _). pose proof Hp as [Hk _ _ Hw].
  unfold apply_fixup.
  rewrite (proj2 (Z.ltb_ge _ _)), (proj2 (Z.leb_gt _ _)) by lia. cbn [orb]. rewrite Hb, Hoff. cbv zeta.
  destruct s as [b|rd].
  - assert (fix_kind f <> ARM64_FIX_ABS64_MOV) as Hna by (rewrite Hk; by destruct b).
    destruct (site_range e f _ off Hp Hr Ho Hna) as (q & Eq & Es & H26 & H19).
    pose proof (Hw 0%nat _ eq_refl) as Hg. rewrite Z.mul_0_r, Z.add_0_r in Hg.
    destruct (patch_word (data (code e)) (at_ f) _ (encode (branch_insn b (q * 4))) Hg (branch_word_range _ _))
      as (d & Hd & Hf & Hg').
    assert (holds_words d (at_ f) (site_words (SBranch b) (q * 4))) as Hh.
    { intros [|i] w Hi; [|done]. apply (inj Some) in Hi as <-. by rewrite Z.mul_0_r, Z.add_0_r. }
    exists d. unfold fix_value. destruct b as [link|c|nz sf t]; simpl in Hk; rewrite Hk in *.
    + rewrite Hg. cbn [obind]. rewrite Es.
      rewrite (proj2 (Z.ltb_ge _ _)), (proj2 (Z.leb_gt _ _)) by (specialize (H26 eq_refl); lia). cbn [orb].
      cbn [branch_insn] in *. rewrite patch_jump. rewrite Hd. cbn [obind]. rewrite Eq. done.
    + rewrite Hg. cbn [obind]. rewrite Es.
      rewrite (proj2 (Z.ltb_ge _ _)), (proj2 (Z.leb_gt _ _)) by (specialize (H19 eq_refl); lia). cbn [orb].
      rewrite (patch_imm19 (BrCond c)) by done. rewrite Hd. cbn [obind]. rewrite Eq. done.
    + rewrite Hg. cbn [obind]. rewrite Es.
      rewrite (proj2 (Z.ltb_ge _ _)), (proj2 (Z.leb_gt _ _)) by (specialize (H19 eq_refl); lia). cbn [orb].
      rewrite (patch_imm19 (BrCmp nz sf t)) by done. rewrite Hd. cbn [obind]. rewrite Eq. done.
  - simpl in Hk. unfold fix_value. rewrite Hk.
    destruct (patch_address_spec (data (code e)) rd (u64 (code_vaddr e + off)) (at_ f) Hw) as (d & -> & Hf & Hh).
    exists d. cbn [obind]. done.
Qed.

Lemma apply_fixup_bad e f s :
  pending (data (code e)) f s -> length (label_bound e) = length (label_off e) ->
  Forall (fun o => o mod 4 = 0) (label_off e) ->
  (forall off, ~ resolves e f off) ->
  exists r, apply_fixup e f = Ret (false, arm64_fail e r).
Proof.
  intros Hp Hlen Hal Hno. pose proof Hp as [Hk _ (Ha0 & Ha & Hal') Hw]. unfold apply_fixup.
  destruct (Z.ltb_spec (label f) 0) as [|H0]; [eexists; done|].
  destruct (Z.leb_spec (label_count e) (label f)) as [|H1]; [eexists; done|]. cbn [orb].
  destruct (lookup_lt_is_Some_2 (label_off e) (Z.to_nat (label f))) as [off Hoff];
    [unfold label_count in *; lia|].
  destruct (lookup_lt_is_Some_2 (label_bound e) (Z.to_nat (label f))) as [bd Hbd];
    [rewrite Hlen; unfold label_count in *; lia|].
  rewrite Hbd, Hoff. destruct bd; [|eexists; done]. cbv zeta.
  assert (off mod 4 = 0) as Ho.
  { rewrite Forall_lookup in Hal. by apply (Hal (Z.to_nat (label f))). }
  assert ((off - at_ f) mod 4 = 0) as Hm by (rewrite Zminus_mod, Ho, Ha; done).
  specialize (Hno off). unfold resolves in Hno.
  rewrite Z.shiftr_div_pow2 by lia.
  destruct s as [b|rd]; [|simpl in Hk; rewrite Hk in Hno; tauto].
  pose proof (Hw 0%nat _ eq_refl) as Hg. rewrite Z.mul_0_r, Z.add_0_r in Hg.
  destruct b as [link|c|nz sf t]; simpl in Hk; rewrite Hk in *; rewrite Hg; cbn [obind].
  - destruct (Z.ltb_spec ((off - at_ f) / 2 ^ 2) (- 2 ^ 25)); [eexists; done|].
    destruct (Z.leb_spec (2 ^ 25) ((off - at_ f) / 2 ^ 2)); [eexists; done|].
    exfalso. apply Hno. repeat (split; [done || lia|]). euclid.
  - destruct (Z.ltb_spec ((off - at_ f) / 2 ^ 2) (- 2 ^ 18)); [eexists; done|].
    destruct (Z.leb_spec (2 ^ 18) ((off - at_ f) / 2 ^ 2)); [eexists; done|].
    exfalso. apply Hno. repeat (split; [done || lia|]). euclid.
  - destruct (Z.ltb_spec ((off - at_ f) / 2 ^ 2) (- 2 ^ 18)); [eexists; done|].
    destruct (Z.leb_spec (2 ^ 18) ((off - at_ f) / 2 ^ 2)); [eexists; done|].
    exfalso. apply Hno. repeat (split; [done || lia|]). euclid.
Qed.
Lemma resolves_dec e f : (exists off, resolves e f off) \/ (forall off, ~ resolves e f off).
Proof.
  destruct (label_off e !! Z.to_nat (label f)) as [off|] eqn:Hoff;
    [|right; intros off (_ & _ & E & _); congruence].
  destruct (label_bound e !! Z.to_nat (label f)) as [[]|] eqn:Hb;
    [|right; intros o (_ & E & _); congruence..].
  destruct (decide (0 <= label f < label_count e)) as [Hl|Hl]; [|right; intros o (E & _); done].
  assert ((forall o, resolves e f o -> o = off)) as Hu by (intros o (_ & _ & E & _); congruence).
  destruct (fix_kind f) eqn:Hk.
  - destruct (decide (- 2 ^ 27 <= off - at_ f < 2 ^ 27)) as [Hr|Hr].
    + left. exists off. unfold resolves. by rewrite Hk.
    + right. intros o Ho. pose proof (Hu o Ho) as ->. destruct Ho as (_ & _ & _ & Ho). by rewrite Hk in Ho.
  - destruct (decide (- 2 ^ 20 <= off - at_ f < 2 ^ 20)) as [Hr|Hr].
    + left. exists off. unfold resolves. by rewrite Hk.
    + right. intros o Ho. pose proof (Hu o Ho) as ->. destruct Ho as (_ & _ & _ & Ho). by rewrite Hk in Ho.
  - left. exists off. unfold resolves. by rewrite Hk.
Qed.

Lemma pending_frame d d' f g s : frame d d' (at_ f) (kind_size (fix_kind f)) -> before f g ->
  pending d g s -> pending d' g s.
Proof.
  intros Hf Hb [Hk Hs (Ha & Hm & Hl) Hw]. split; [done|done|rewrite (proj1 Hf); done|].
  intros i w Hi. rewrite (frame_get _ _ _ _ _ Hf); [by apply Hw|right].
  unfold before in Hb. lia.
Qed.

(** A patched site is final. *)
Definition resolved (e : Arm64Emit) (d : list Z) (f : Arm64Fixup) (s : site) : Prop :=
  exists off, resolves e f off /\ holds_words d (at_ f) (site_words s (fix_value e f off)).

Definition outside (fs : list Arm64Fixup) (i : nat) : Prop :=
  Forall (fun f => Z.of_nat i < at_ f \/ at_ f + kind_size (fix_kind f) <= Z.of_nat i) fs.

Lemma site_extent s v i w : site_words s v !! i = Some w -> 4 * Z.of_nat i + 4 <= kind_size (site_kind s).
Proof.
  intros Hi. apply lookup_lt_Some in Hi. destruct s as [[]|]; simpl in *; lia.
Qed.

Lemma finalize_loop_spec fs ss e :
  Forall2 (pending (data (code e))) fs ss -> StronglySorted before fs ->
  length (label_bound e) = length (label_off e) -> Forall (fun o => o mod 4 = 0) (label_off e) ->
  exists ok e', finalize_loop fs e = Ret (ok, e') /\
    length (data (code e')) = length (data (code e)) /\
    (forall i, outside fs i -> data (code e') !! i = data (code e) !! i) /\
    if ok then error e' = error e /\ Forall2 (resolved e (data (code e'))) fs ss
    else error e' = true /\ Exists (fun f => forall off, ~ resolves e f off) fs.
Proof.
  intros Hp Hso. revert e Hp. revert ss. induction Hso as [|f fs Hso IH Hf]; intros ss e Hp Hlb Hal.
  { inversion Hp; subst. exists true, e. split; [done|]. split; [done|]. split; [done|]. split; [done|constructor]. }
  inversion Hp as [|? s ? ss' Hps Hpss]; subst. cbn [finalize_loop]. unfold and_then.
  destruct (resolves_dec e f) as [[off Hr]|Hno].
  - assert (off mod 4 = 0) as Ho.
    { rewrite Forall_lookup in Hal. destruct Hr as (_ & _ & Hoff & _). by eapply Hal. }
    destruct (apply_fixup_ok e f s off Hps Hr Ho) as (d & -> & Hfr & Hw). cbn [obind].
    set (e1 := set_code (mkBuf d (cap (code e))) e).
    destruct (IH ss' e1) as (ok & e' & He' & Hl & Hout & Hok).
    + clear IH Hp Hso. induction Hpss as [|g s' fs' ss'' Hg Hgs IHg]; constructor; inversion Hf; subst.
      * eapply pending_frame; eauto.
      * by apply IHg.
    + done.
    + done.
    + exists ok, e'. split; [done|]. split; [by rewrite Hl; apply Hfr|]. split.
      { intros i Hi. inversion Hi; subst. rewrite Hout by done. by apply Hfr. }
      destruct ok; [|destruct Hok; split; [done|by apply Exists_cons_tl]].
      destruct Hok as [He Hall]. split; [done|]. constructor; [|done].
      exists off. split; [done|]. intros i w Hi. rewrite <- (Hw i w Hi).
      apply get_word_ext; [done|]. intros j Hj. apply Hout.
      eapply Forall_impl; [exact Hf|]. cbv beta. intros g Hg. left. unfold before in Hg.
      pose proof (site_extent s _ i w Hi) as Hx. rewrite <- (p_kind _ _ _ Hps) in Hx. lia.
  - destruct (apply_fixup_bad e f s Hps Hlb Hal Hno) as [r ->]. cbn [obind].
    exists false, (arm64_fail e r). split; [done|]. split; [done|]. split; [done|].
    split; [done|]. by apply Exists_cons_hd.
Qed.

Lemma finalize_spec e ss :
  wf e ss ->
  exists ok e', arm64_emit_finalize e = Ret (ok, e') /\
    (ok = true <-> error e = false /\ Forall (fun f => exists off, resolves e f off) (fixups e)) /\
    (ok = true -> error e' = false /\ Forall2 (resolved e (data (code e'))) (fixups e) ss) /\
    (ok = false -> error e' = true) /\
    length (data (code e')) = length (data (code e)) /\
    (forall i, outside (fixups e) i -> data (code e') !! i = data (code e) !! i).
Proof.
  intros Hwf. unfold arm64_emit_finalize. destruct (error e) eqn:Ee.
  { exists false, e. split; [done|]. split; [naive_solver|]. done. }
  pose proof Hwf as []. destruct (finalize_loop_spec (fixups e) ss e) as (ok & e' & -> & Hl & Hout & Hok); try done.
  { eapply Forall_impl; [exact wf_off0|]. cbv beta. tauto. }
  exists ok, e'. split; [done|]. destruct ok.
  - destruct Hok as [He Hall]. split; [|split; [|done]].
    + split; [|done]. intros _. split; [done|]. rewrite Forall_lookup. intros i f Hf.
      destruct (Forall2_lookup_l _ _ _ _ _ Hall Hf) as (s & _ & off & Hr & _). by exists off.
    + intros _. by rewrite He.
  - destruct Hok as [He Hex]. split; [|split; [done|done]]. split; [done|].
    intros [_ Hall]. exfalso. rewrite Exists_exists in Hex. destruct Hex as (f & Hin & Hno).
    rewrite Forall_forall in Hall. destruct (Hall f Hin) as [off Hr]. by apply (Hno off).
Qed.
(** C25: finalising a well-formed buffer always ends; it succeeds exactly when
    the buffer has no earlier error and every fix-up has a bound label within
    reach.  On success every branch carries the displacement to its label,
    every address load the absolute address of its label, and no byte outside
    the patched instructions has changed; on failure the error is recorded. *)
Theorem arm64_emit_finalize_spec e ss :
  wf e ss ->
  exists ok e', arm64_emit_finalize e = Ret (ok, e') /\
    (ok = true <-> error e = false /\ Forall (fun f => exists off, resolves e f off) (fixups e)) /\
    (ok = true -> error e' = false /\ Forall2 (resolved e (data (code e'))) (fixups e) ss) /\
    (ok = false -> error e' = true) /\
    length (data (code e')) = length (data (code e)) /\
    (forall i, outside (fixups e) i -> data (code e') !! i = data (code e) !! i).
Proof. apply finalize_spec. Qed.

(** A branch over one instruction, bound and finalised. *)
Definition skip_program : list emit_op := [OpNewLabel; OpCmp true true 3 0; OpWord arm64_nop; OpBind 0].

Lemma arm64_emit_finalize_spec_witness :
  exists e ss ok e', run_ops skip_program (arm64_emit_init heap_unlimited) = Ret e /\ wf e ss /\
    arm64_emit_finalize e = Ret (ok, e') /\ (ok = true -> error e' = false).
Proof.
  destruct (run_ops_wf skip_program (arm64_emit_init heap_unlimited) [] (wf_init _) ltac:(vm_compute; discriminate))
    as (e & ss & Hr & Hwf & _).
  destruct (arm64_emit_finalize_spec e ss Hwf) as (ok & e' & Hf & _ & Hok & _).
  exists e, ss, ok, e'. split; [exact Hr|]. split; [exact Hwf|]. split; [exact Hf|].
  intros H. exact (proj1 (Hok H)).
Defined.

(** Whatever the allocator answers, every sequence of emitting operations
    that stays below 2^62 bytes runs to the end and leaves a well-formed
    buffer: the code is made of whole words and fits its capacity, label
    offsets are aligned and inside the code, and the fix-ups name disjoint,
    still unresolved sites in order. *)
Lemma arm64_emit_ops_wf ops h :
  ops_size ops <= 2 ^ 62 -> exists e ss, run_ops ops (arm64_emit_init h) = Ret e /\ wf e ss.
Proof.
  intros Hs. destruct (run_ops_wf ops (arm64_emit_init h) []) as (e & ss & E & Hwf & _); [apply wf_init| |by exists e, ss].
  change (len (code (arm64_emit_init h))) with 0. lia.
Qed.

Lemma arm64_emit_ops_wf_witness :
  exists e ss, run_ops skip_program (arm64_emit_init heap_exhausted) = Ret e /\ wf e ss.
Proof. apply (arm64_emit_ops_wf skip_program heap_exhausted). vm_compute. discriminate. Defined.

(** * What the finished code does *)

(** The move-wide instructions: the value of the destination register, and
    the registers, of which 31 reads zero and is never written. *)
Definition mov_exec (x : Z) (i : Arm64Inst) : Z :=
  let k := 16 * hw i in
  match op i with
  | ARM64_DIS_MOVZ => imm i * 2 ^ k
  | ARM64_DIS_MOVK => x - (x / 2 ^ k mod 2 ^ 16) * 2 ^ k + imm i * 2 ^ k
  | _ => x
  end.

Definition moves_wide (i : Arm64Inst) : bool :=
  match op i with ARM64_DIS_MOVZ | ARM64_DIS_MOVK => true | _ => false end.

Definition mov_step (r : Z -> Z) (i : Arm64Inst) : Z -> Z := fun k =>
  if moves_wide i && (k =? Arm64.rd i) && negb (k =? ARM64_XZR) then
    if is64 i =? 1 then mov_exec (r k) i else mov_exec (r k) i mod 2 ^ 32
  else r k.

Lemma mov_steps (d k : Z) ms : forall r, Forall (fun i => moves_wide i = true /\ Arm64.rd i = d /\ is64 i = 1) ms ->
  foldl mov_step r ms k = if (k =? d) && negb (k =? ARM64_XZR) then foldl mov_exec (r k) ms else r k.
Proof.
  induction ms as [|i ms IH]; intros r Hf; cbn [foldl]; [by destruct (_ && _)|].
  apply Forall_cons in Hf as [(Hm & Hd & H64) Hf]. rewrite (IH _ Hf). unfold mov_step. rewrite Hm, Hd, H64. cbn [andb].
  destruct (_ && _); done.
Qed.

Lemma addr_insn_decodes rd v part : in_u 5 rd -> in_u 2 part ->
  let i := arm64_decode (encode (addr_insn rd v part)) in
  op i = (if part =? 0 then ARM64_DIS_MOVZ else ARM64_DIS_MOVK) /\ (Arm64.rd i = rd /\ is64 i = 1) /\
  hw i = part /\ imm i = v / 2 ^ (16 * part) mod 2 ^ 16.
Proof.
  intros Hrd Hp i. unfold addr_insn in i.
  pose proof (Arm64Dec.decode_encode (MovWide (if part =? 0 then WMovz else WMovk) true rd
    (Z.shiftr v (16 * part) .& 0xFFFF) part)) as D.
  destruct D as (Ho & H6 & Hd & Hi & Hh); [split; [done|]; split; [apply half_word|done]|].
  fold i in Ho, H6, Hd, Hi, Hh. rewrite Ho, H6, Hd, Hh, Hi. split; [by destruct (part =? 0)|].
  split; [done|]. split; [done|]. unfold in_u in Hp. rewrite (land_mask _ 16), Z.shiftr_div_pow2 by lia. done.
Qed.

Lemma mov_exec_movz x i : op i = ARM64_DIS_MOVZ -> mov_exec x i = imm i * 2 ^ (16 * hw i).
Proof. intros H. unfold mov_exec. by rewrite H. Qed.

Lemma mov_exec_movk x i : op i = ARM64_DIS_MOVK ->
  mov_exec x i = x - (x / 2 ^ (16 * hw i) mod 2 ^ 16) * 2 ^ (16 * hw i) + imm i * 2 ^ (16 * hw i).
Proof. intros H. unfold mov_exec. by rewrite H. Qed.

(** Four half-words make the word. *)
Lemma mov_sequence rd v x : in_u 5 rd -> in_u 64 v ->
  foldl (fun x part => mov_exec x (arm64_decode (encode (addr_insn rd v part)))) x [0; 1; 2; 3] = v.
Proof.
  intros Hrd Hv. cbn [foldl]. unfold in_u in Hv.
  destruct (addr_insn_decodes rd v 0 Hrd ltac:(unfold in_u; lia)) as (O0 & _ & H0 & I0).
  destruct (addr_insn_decodes rd v 1 Hrd ltac:(unfold in_u; lia)) as (O1 & _ & H1 & I1).
  destruct (addr_insn_decodes rd v 2 Hrd ltac:(unfold in_u; lia)) as (O2 & _ & H2 & I2).
  destruct (addr_insn_decodes rd v 3 Hrd ltac:(unfold in_u; lia)) as (O3 & _ & H3 & I3).
  revert O0 H0 I0 O1 H1 I1 O2 H2 I2 O3 H3 I3.
  generalize (arm64_decode (encode (addr_insn rd v 0))) (arm64_decode (encode (addr_insn rd v 1)))
    (arm64_decode (encode (addr_insn rd v 2))) (arm64_decode (encode (addr_insn rd v 3))).
  intros i0 i1 i2 i3 O0 H0 I0 O1 H1 I1 O2 H2 I2 O3 H3 I3.
  cbn [Z.eqb] in *. rewrite (mov_exec_movk _ i3), (mov_exec_movk _ i2), (mov_exec_movk _ i1),
    (mov_exec_movz _ i0), H0, H1, H2, H3, I0, I1, I2, I3 by done.
  change (16 * 0) with 0. change (16 * 1) with 16. change (16 * 2) with 32. change (16 * 3) with 48.
  rewrite Z.pow_0_r, Z.div_1_r, Z.mul_1_r.
  replace (v / 2 ^ 32) with (v / 2 ^ 16 / 2 ^ 16) by (by rewrite Z.div_div by lia).
  replace (v / 2 ^ 48) with (v / 2 ^ 16 / 2 ^ 16 / 2 ^ 16) by (by rewrite !Z.div_div by lia).
  pose proof (Z.div_mod v (2 ^ 16) ltac:(lia)) as D0. pose proof (Z.mod_pos_bound v (2 ^ 16) ltac:(lia)) as B0.
  set (v1 := v / 2 ^ 16) in *. set (r0 := v mod 2 ^ 16) in *. clearbody v1 r0.
  pose proof (Z.div_mod v1 (2 ^ 16) ltac:(lia)) as D1. pose proof (Z.mod_pos_bound v1 (2 ^ 16) ltac:(lia)) as B1.
  set (v2 := v1 / 2 ^ 16) in *. set (r1 := v1 mod 2 ^ 16) in *. clearbody v2 r1.
  pose proof (Z.div_mod v2 (2 ^ 16) ltac:(lia)) as D2. pose proof (Z.mod_pos_bound v2 (2 ^ 16) ltac:(lia)) as B2.
  set (v3 := v2 / 2 ^ 16) in *. set (r2 := v2 mod 2 ^ 16) in *. clearbody v3 r2.
  assert (0 <= v3 < 2 ^ 16) by lia. rewrite (Z.mod_small v3) by done.
  rewrite (Z.div_small r0) by lia. rewrite Z.mod_0_l by lia.
  rewrite (Z.div_small (r0 - 0 * 2 ^ 16 + r1 * 2 ^ 16)) by lia. rewrite Z.mod_0_l by lia.
  rewrite (Z.div_small (r0 - 0 * 2 ^ 16 + r1 * 2 ^ 16 - 0 * 2 ^ 32 + r2 * 2 ^ 32)) by lia.
  rewrite Z.mod_0_l by lia. lia.
Qed.

(** Executing an address load puts the address into its register. *)
Lemma address_loaded rd v r k : in_u 5 rd -> in_u 64 v ->
  foldl mov_step r (arm64_decode <$> site_words (SAddr rd) v) k = if (k =? rd) && negb (k =? ARM64_XZR) then v else r k.
Proof.
  intros Hrd Hv. cbn [site_words]. rewrite (mov_steps rd).
  - destruct (_ && _); [|done]. exact (mov_sequence rd v (r k) Hrd Hv).
  - apply Forall_fmap, Forall_fmap, Forall_forall. intros part Hp. cbv beta.
    assert (in_u 2 part) as Hp2 by (unfold in_u; apply list_elem_of_In in Hp; simpl in Hp; lia).
    destruct (addr_insn_decodes rd v part Hrd Hp2) as (Ho & [Hd H6] & _). split; [|done].
    unfold moves_wide. rewrite Ho. by destruct (part =? 0).
Qed.

Lemma branch_encodable e f b off :
  site_ok (SBranch b) -> fix_kind f = site_kind (SBranch b) -> resolves e f off ->
  (off - at_ f) mod 4 = 0 -> encodable (branch_insn b (off - at_ f)).
Proof.
  intros Hs Hk (_ & _ & _ & Hr) Hm. rewrite Hk in Hr. destruct b; simpl in *; tauto.
Qed.

(** ** What an operation refers to *)

(** The branch or address load an operation issues, and its label. *)
Definition refers_to (o : emit_op) : option (site * Z) :=
  match o with
  | OpB l => Some (SBranch (BrJump false), l)
  | OpBl l => Some (SBranch (BrJump true), l)
  | OpBcond c l => Some (SBranch (BrCond (c mod 2 ^ 4)), l)
  | OpCmp nz sf t l => Some (SBranch (BrCmp nz sf (t mod 2 ^ 5)), l)
  | OpAddress rd l => Some (SAddr (rd mod 2 ^ 5), l)
  | _ => None
  end.

(** The offset of the code where the last [OpBind] of the label stands. *)
Definition bound_at (ops : list emit_op) (h : heap) (l off : Z) : Prop :=
  exists ops1 ops2 e, ops = ops1 ++ OpBind l :: ops2 /\ OpBind l ∉ ops2 /\
    run_ops ops1 (arm64_emit_init h) = Ret e /\ off = len (code e).

(** Such an operation records its fix-up where it starts, or leaves an error. *)
Lemma run_op_refers o e ss s l : refers_to o = Some (s, l) -> wf e ss -> len (code e) + op_size o <= 2 ^ 62 ->
  exists e1 ss1, run_op o e = Ret e1 /\ wf e1 ss1 /\ len (code e1) <= len (code e) + op_size o /\
    (error e1 = true \/ ss1 = ss ++ [s] /\ fixups e1 = fixups e ++ [mkFixup (len (code e)) l (site_kind s)]).
Proof.
  intros Hr Hwf Hb.
  assert (forall n m, refers s l n m -> run_op o e = drop_flag (m e) -> op_size o = n ->
    exists e1 ss1, run_op o e = Ret e1 /\ wf e1 ss1 /\ len (code e1) <= len (code e) + op_size o /\
      (error e1 = true \/ ss1 = ss ++ [s] /\ fixups e1 = fixups e ++ [mkFixup (len (code e)) l (site_kind s)])) as K.
  { intros n m Hm -> <-. destruct (Hm e ss Hwf Hb) as (ok & e1 & E & Hl & _ & _ & H). unfold drop_flag. rewrite E. cbn [obind].
    destruct ok; [exists e1, (ss ++ [s])|exists e1, ss]; (split; [done|]); destruct H; tauto. }
  destruct o; cbn [refers_to] in Hr; simplify_eq.
  - by apply (K _ _ (refers_b l)).
  - by apply (K _ _ (refers_bl l)).
  - by apply (K _ _ (refers_bcond _ l)).
  - by apply (K _ _ (refers_cmp nz sf t l)).
  - by apply (K _ _ (refers_label_address _ l)).
Qed.

Lemma new_label_bound e k off : label_bound (snd (arm64_new_label e)) !! k = Some true ->
  label_off (snd (arm64_new_label e)) !! k = Some off -> length (label_bound e) = length (label_off e) ->
  label_bound e !! k = Some true /\ label_off e !! k = Some off.
Proof.
  assert (forall (l : list bool), (l ++ [false]) !! k = Some true -> l !! k = Some true) as Hb.
  { intros l H. destruct (decide (k < length l)%nat); [by rewrite lookup_app_l in H|].
    rewrite lookup_app_r in H by lia. destruct (k - length l)%nat as [|[|?]]; done. }
  intros H1 H2 Hlen. assert (label_bound e !! k = Some true) as H1'.
  { revert H1. unfold arm64_new_label. destruct (error e); [done|].
    destruct (_ =? _); [destruct (alloc _) as [off1 h]; destruct (alloc h); destruct (_ || _)|]; first [done|apply Hb]. }
  split; [done|]. pose proof (lookup_lt_Some _ _ _ H1') as Hk. revert H2. unfold arm64_new_label. destruct (error e); [done|].
  destruct (_ =? _); [destruct (alloc _) as [off1 h]; destruct (alloc h); destruct (_ || _)|]; try done;
    cbn; rewrite lookup_app_l by lia; done.
Qed.

(** A bound label has the offset of its last binding. *)
Lemma bound_label ops h l off : forall e, ops_size ops <= 2 ^ 62 -> run_ops ops (arm64_emit_init h) = Ret e -> error e = false ->
  0 <= l -> label_bound e !! Z.to_nat l = Some true -> label_off e !! Z.to_nat l = Some off -> bound_at ops h l off.
Proof.
  induction ops as [|o ops IH] using rev_ind; intros e Hs Hrun He Hl Hb Hoff.
  { injection Hrun as <-. done. }
  rewrite ops_size_app in Hs. change (ops_size [o]) with (op_size o + 0) in Hs. pose proof (op_size_nonneg o). pose proof (ops_size_nonneg ops).
  rewrite run_ops_app in Hrun. destruct (run_ops_wf ops (arm64_emit_init h) []) as (e1 & ss1 & E1 & Hwf1 & Hl1 & _);
    [apply wf_init|change (len (code (arm64_emit_init h))) with 0; lia|].
  change (len (code (arm64_emit_init h))) with 0 in Hl1. rewrite E1 in Hrun. cbn [obind run_ops] in Hrun.
  destruct (run_op_wf o e1 ss1 Hwf1 ltac:(lia)) as (e2 & ss2 & E2 & _ & _ & Hlab & Hc). rewrite E2 in Hrun. injection Hrun as ->.
  assert (error e1 = false) as He1 by (destruct (error e1) eqn:E; [|done]; rewrite (ca_error _ _ _ _ Hc) in He by done; done).
  assert (o <> OpBind l -> bound_at ops h l off -> bound_at (ops ++ [o]) h l off) as Hnext.
  { intros Ho (o1 & o2 & eb & -> & Hn & Eb & ->). exists o1, (o2 ++ [o]), eb. split; [by rewrite <- app_assoc|]. split; [|done].
    rewrite elem_of_app, list_elem_of_singleton. intros [?|E]; [done|by apply Ho]. }
  assert (same_labels e1 e -> bound_at ops h l off) as Hsame.
  { intros [G1 G2]. apply (IH e1); [lia|done|done|done|by rewrite <- G2|by rewrite <- G1]. }
  destruct (on_labels o) eqn:Eo; [|apply Hnext; [by intros ->|by apply Hsame, Hlab]].
  destruct o; try done; cbn [run_op] in E2; apply Ret_inj in E2 as <-.
  - apply Hnext; [done|]. destruct (new_label_bound _ _ _ Hb Hoff (wf_bound _ _ Hwf1)). by apply (IH e1); [lia|..].
  - unfold arm64_bind_label in *. destruct (_ || _) eqn:Er; [done|]. cbn [set_labels label_off label_bound] in Hb, Hoff.
    destruct (decide (l0 = l)) as [->|Hne].
    + exists ops, [], e1. split; [done|]. split; [by apply not_elem_of_nil|]. split; [done|].
      apply lookup_lt_Some in Hoff as Hlt. rewrite length_insert in Hlt. rewrite list_lookup_insert_eq in Hoff by done. congruence.
    + apply orb_false_iff in Er as [[_ Er%Z.ltb_ge]%orb_false_iff _]. rewrite list_lookup_insert_ne in Hb by lia. rewrite list_lookup_insert_ne in Hoff by lia.
      apply Hnext; [congruence|]. by apply (IH e1); [lia|..].
Qed.

(** C24: in code produced by any sequence of emitting operations and then
    finalised with success, every branch and every address load that was
    issued reaches its label, the label's place being the code offset of its
    last binding: where a branch operation stood, the code holds the
    instruction it asked for, with the displacement from there to the label;
    where an address load stood, four instructions that put the load address
    plus that place into the register it named and change no other. *)
Theorem arm64_finalized_code_reaches_labels ops1 o ops2 h e0 e e' s l :
  ops_size (ops1 ++ o :: ops2) <= 2 ^ 62 -> run_ops ops1 (arm64_emit_init h) = Ret e0 ->
  run_ops (o :: ops2) e0 = Ret e -> arm64_emit_finalize e = Ret (true, e') -> refers_to o = Some (s, l) ->
  exists off, bound_at (ops1 ++ o :: ops2) h l off /\
    match s with
    | SBranch b => exists w, get_word (data (code e')) (len (code e0)) = Ret w /\
        reports (branch_insn b (off - len (code e0))) (arm64_decode w)
    | SAddr rd => exists ws, holds_words (data (code e')) (len (code e0)) ws /\ length ws = 4%nat /\
        forall r k, foldl mov_step r (arm64_decode <$> ws) k =
          if (k =? rd) && negb (k =? ARM64_XZR) then u64 (code_vaddr e + off) else r k
    end.
Proof.
  intros Hs E0 E Hfin Hr. pose proof Hs as Hs'. rewrite ops_size_app in Hs.
  change (ops_size (o :: ops2)) with (op_size o + ops_size ops2) in Hs.
  pose proof (op_size_nonneg o). pose proof (ops_size_nonneg ops1). pose proof (ops_size_nonneg ops2).
  change (2 ^ 62) with (len (code (arm64_emit_init h)) + 2 ^ 62) in Hs.
  destruct (run_ops_wf ops1 (arm64_emit_init h) [] (wf_init h)) as (e0' & ss0 & E0' & Hwf0 & Hl0 & _);
    [change (len (code (arm64_emit_init h))) with 0 in *; lia|].
  change (len (code (arm64_emit_init h))) with 0 in *. assert (e0' = e0) as -> by congruence.
  destruct (run_op_refers o e0 ss0 s l Hr Hwf0 ltac:(lia)) as (e1 & ss1 & E1 & Hwf1 & Hl1 & Hrec).
  pose proof E as Erun. cbn [run_ops] in E. rewrite E1 in E. cbn [obind] in E.
  destruct (run_ops_wf ops2 e1 ss1 Hwf1 ltac:(lia)) as (e2 & ss2 & E2 & Hwf2 & _ & Hc). assert (e2 = e) as -> by congruence.
  destruct (finalize_spec e ss2 Hwf2) as (ok & ef & Hfin' & Hiff & Hok & _).
  assert (ok = true /\ ef = e') as [-> ->] by (split; congruence). destruct (proj1 Hiff eq_refl) as [Hee _].
  destruct Hrec as [Hbad|[-> Hf1]]; [by rewrite (ca_error _ _ _ _ Hc Hbad) in Hee|].
  destruct (Hok eq_refl) as [_ Hall]. set (f := mkFixup (len (code e0)) l (site_kind s)) in *.
  assert (exists i, fixups e !! i = Some f /\ ss2 !! i = Some s) as (i & Hi & Hsi).
  { exists (length (fixups e0)). pose proof (Forall2_length _ _ _ (wf_sites _ _ Hwf0)) as Hlen. split.
    - eapply prefix_lookup_Some; [|apply (ca_fixups _ _ _ _ Hc)]. by rewrite Hf1, list_lookup_middle.
    - eapply prefix_lookup_Some; [|apply (ca_sites _ _ _ _ Hc)]. by rewrite list_lookup_middle. }
  destruct (Forall2_lookup_lr _ _ _ _ _ _ Hall Hi Hsi) as (off & Hres & Hw).
  destruct (Forall2_lookup_lr _ _ _ _ _ _ (wf_sites _ _ Hwf2) Hi Hsi) as [Hk Hso (Ha0 & Ha & _) _].
  pose proof Hres as ((Hl0' & _) & Hb & Hoff & _). change (label f) with l in *. change (at_ f) with (len (code e0)) in *.
  change (fix_kind f) with (site_kind s) in *. exists off. split.
  { apply (bound_label _ h l off e); [done| |done..]. rewrite run_ops_app, E0. exact Erun. }
  assert ((off - len (code e0)) mod 4 = 0) as Hm.
  { pose proof (wf_off _ _ Hwf2) as Ho. rewrite Forall_lookup in Ho. destruct (Ho _ _ Hoff) as [_ Ho']. by rewrite Zminus_mod, Ho', Ha. }
  unfold fix_value in Hw. change (fix_kind f) with (site_kind s) in Hw. change (at_ f) with (len (code e0)) in Hw. destruct s as [b|rd].
  - exists (encode (branch_insn b (off - len (code e0)))). split.
    + pose proof (Hw 0%nat _ eq_refl) as Hg. rewrite Z.mul_0_r, Z.add_0_r in Hg. by destruct b.
    + apply Arm64Dec.decode_encode. by apply (branch_encodable e f).
  - exists (site_words (SAddr rd) (u64 (code_vaddr e + off))). split; [exact Hw|]. split; [done|].
    intros r k. apply address_loaded; [done|]. apply wrapu_bound. lia.
Qed.

(** A load of the address of the label that is bound behind it. *)
Definition load_program : list emit_op := [OpBase 0x400000; OpNewLabel; OpAddress 9 0; OpBind 0].

Lemma arm64_finalized_code_reaches_labels_witness :
  (exists e0 e e' off w, run_ops [OpNewLabel] (arm64_emit_init heap_unlimited) = Ret e0 /\
     run_ops [OpCmp true true 3 0; OpWord arm64_nop; OpBind 0] e0 = Ret e /\ arm64_emit_finalize e = Ret (true, e') /\
     bound_at skip_program heap_unlimited 0 off /\ get_word (data (code e')) 0 = Ret w /\
     reports (branch_insn (BrCmp true true 3) (off - 0)) (arm64_decode w)) /\
  (exists e0 e e' off ws, run_ops [OpBase 0x400000; OpNewLabel] (arm64_emit_init heap_unlimited) = Ret e0 /\
     run_ops [OpAddress 9 0; OpBind 0] e0 = Ret e /\ arm64_emit_finalize e = Ret (true, e') /\
     bound_at load_program heap_unlimited 0 off /\ holds_words (data (code e')) 0 ws /\
     forall r, foldl mov_step r (arm64_decode <$> ws) 9 = u64 (code_vaddr e + off)).
Proof.
  split.
  - destruct (run_ops [OpNewLabel] (arm64_emit_init heap_unlimited)) as [e0| |] eqn:E0; [|vm_compute in E0; discriminate..].
    destruct (run_ops [OpCmp true true 3 0; OpWord arm64_nop; OpBind 0] e0) as [e| |] eqn:E;
      [|vm_compute in E0; injection E0 as <-; vm_compute in E; discriminate..].
    destruct (arm64_emit_finalize e) as [[[] e']| |] eqn:Ef;
      [|vm_compute in E0; injection E0 as <-; vm_compute in E; injection E as <-; vm_compute in Ef; discriminate..].
    destruct (arm64_finalized_code_reaches_labels [OpNewLabel] (OpCmp true true 3 0) [OpWord arm64_nop; OpBind 0] heap_unlimited
      e0 e e' (SBranch (BrCmp true true 3)) 0 ltac:(vm_compute; discriminate) E0 E Ef eq_refl) as (off & Hb & w & Hw & Hr).
    assert (len (code e0) = 0) as Hlen by (vm_compute in E0; injection E0 as <-; reflexivity). rewrite Hlen in *.
    exists e0, e, e', off, w. done.
  - destruct (run_ops [OpBase 0x400000; OpNewLabel] (arm64_emit_init heap_unlimited)) as [e0| |] eqn:E0; [|vm_compute in E0; discriminate..].
    destruct (run_ops [OpAddress 9 0; OpBind 0] e0) as [e| |] eqn:E;
      [|vm_compute in E0; injection E0 as <-; vm_compute in E; discriminate..].
    destruct (arm64_emit_finalize e) as [[[] e']| |] eqn:Ef;
      [|vm_compute in E0; injection E0 as <-; vm_compute in E; injection E as <-; vm_compute in Ef; discriminate..].
    destruct (arm64_finalized_code_reaches_labels [OpBase 0x400000; OpNewLabel] (OpAddress 9 0) [OpBind 0] heap_unlimited
      e0 e e' (SAddr 9) 0 ltac:(vm_compute; discriminate) E0 E Ef eq_refl) as (off & Hb & ws & Hw & _ & Hx).
    assert (len (code e0) = 0) as Hlen by (vm_compute in E0; injection E0 as <-; reflexivity). rewrite Hlen in *.
    exists e0, e, e', off, ws. split; [done|]. split; [done|]. split; [done|]. split; [done|]. split; [done|].
    intros r. exact (Hx r 9).
Defined.
End Arm64Link.
