(* ===== verification/StringIntern.v ===== *)
(** String interning: src/src/lexer/lexer.c, lines 10 to 228.

    Interned strings are kept in two chained hash tables over the same
    entries, one keyed by contents and one by address.  A block is named by
    the number of the allocation that produced it.  The theorems show that
    both tables stay consistent through interning and growth under any
    allocator, that equal contents always give the same address and different
    contents different ones, and that the address table answers membership
    exactly: the concrete tables refine a finite map from contents to
    addresses. *)
From S2P Require Import Prelude.
From stdpp Require Import gmap.
#[local] Open Scope Z_scope.

Module Intern.

(** * State *)

Record StringInternEntry := mkEntry { value : Z; bytes : list Z }.

(** [None] is the null table; a chain is the list of its entries, head first. *)
Record intern_state := mkIntern {
  buckets : option (list (list StringInternEntry));
  ptr_buckets : option (list (list StringInternEntry));
  bucket_count : Z;
  entry_count : Z
}.

Definition STRING_INTERN_INITIAL_BUCKETS : Z := 4096.

(** Before the first use: static storage, all null. *)
Definition intern_start : intern_state := mkIntern None None 0 0.

(** The address [malloc] returns: the number of the request. *)
Definition alloc_ptr (h : heap) : option Z * heap :=
  let (ok, h') := alloc h in
  (if ok then Some (Z.of_nat (heap_calls h)) else None, h').

(** [calloc(count, sizeof(entry pointer))]: all chains empty. *)
Definition empty_table (count : Z) : list (list StringInternEntry) := replicate (Z.to_nat count) [].

(** * Operations *)

Definition string_intern_init (t : intern_state) (h : heap) : bool * intern_state * heap :=
  match buckets t, ptr_buckets t with
  | Some _, Some _ => (true, t, h)
  | _, _ =>
      let (b, h) := alloc h in
      let (p, h) := alloc h in
      let empty := empty_table STRING_INTERN_INITIAL_BUCKETS in
      if negb b || negb p then
        (false, mkIntern None None (bucket_count t) (entry_count t), h)
      else (true, mkIntern (Some empty) (Some empty) STRING_INTERN_INITIAL_BUCKETS 0, h)
  end.

Fixpoint hash_loop (hash : Z) (l : list Z) : Z :=
  match l with
  | [] => hash
  | b :: l => hash_loop (u64 (Z.lxor hash b * 1099511628211)) l
  end.

Definition string_intern_hash_bytes (l : list Z) : Z := hash_loop 1469598103934665603 l.

Definition string_intern_hash_ptr (ptr : Z) : Z :=
  let v := u64 ptr in
  let v := Z.lxor v (Z.shiftr v 33) in
  let v := u64 (v * 0xff51afd7ed558ccd) in
  Z.lxor v (Z.shiftr v 33).

(** [table[i] = entry] with the chain behind it. *)
Definition push_bucket (t : list (list StringInternEntry)) (i : Z) (e : StringInternEntry) :
  list (list StringInternEntry) := alter (cons e) (Z.to_nat i) t.

Definition content_slot (count : Z) (e : StringInternEntry) : Z :=
  Z.land (string_intern_hash_bytes (bytes e)) (count - 1).
Definition ptr_slot (count : Z) (e : StringInternEntry) : Z :=
  Z.land (string_intern_hash_ptr (value e)) (count - 1).

(** Move one entry to the new tables. *)
Definition rehash_entry (count : Z) (n : list (list StringInternEntry) * list (list StringInternEntry))
  (e : StringInternEntry) : list (list StringInternEntry) * list (list StringInternEntry) :=
  (push_bucket (fst n) (content_slot count e) e, push_bucket (snd n) (ptr_slot count e) e).

Definition string_intern_maybe_grow (t : intern_state) (h : heap) : intern_state * heap :=
  if entry_count t <=? bucket_count t * 3 / 4 then (t, h)
  else
    let new_count := bucket_count t * 2 in
    let (c, h) := alloc h in
    let (p, h) := alloc h in
    if negb c || negb p then (t, h)
    else
      let empty := empty_table new_count in
      let (nc, np) := foldl (foldl (rehash_entry new_count)) (empty, empty) (default [] (buckets t)) in
      (mkIntern (Some nc) (Some np) new_count (entry_count t), h).

Fixpoint find_content (chain : list StringInternEntry) (l : list Z) : option Z :=
  match chain with
  | [] => None
  | e :: chain =>
      if (Z.of_nat (length (bytes e)) =? Z.of_nat (length l)) && bool_decide (bytes e = l)
      then Some (value e) else find_content chain l
  end.

(** A null argument is [None]. *)
Definition string_intern_n (v : option (list Z)) (t : intern_state) (h : heap) :
  option Z * intern_state * heap :=
  match v with
  | None => (None, t, h)
  | Some l =>
  let '(ok, t, h) := string_intern_init t h in
  if negb ok then (None, t, h)
  else
    let hash := string_intern_hash_bytes l in
    let bucket := Z.land hash (bucket_count t - 1) in
    let tb := default [] (buckets t) in
    match find_content (default [] (tb !! Z.to_nat bucket)) l with
    | Some v => (Some v, t, h)
    | None =>
        let (copy, h) := alloc_ptr h in
        match copy with
        | None => (None, t, h)
        | Some copy =>
            let (entry, h) := alloc h in
            if negb entry then (None, t, h)
            else
              let e := mkEntry copy l in
              let ptr_bucket := Z.land (string_intern_hash_ptr copy) (bucket_count t - 1) in
              let t := mkIntern (Some (push_bucket tb bucket e))
                         (Some (push_bucket (default [] (ptr_buckets t)) ptr_bucket e))
                         (bucket_count t) (entry_count t + 1) in
              let (t, h) := string_intern_maybe_grow t h in
              (Some copy, t, h)
        end
    end
  end.

(** [strlen]: the bytes before the first NUL. *)
Fixpoint until_nul (l : list Z) : list Z :=
  match l with [] => [] | b :: l => if b =? 0 then [] else b :: until_nul l end.

Definition string_intern (v : option (list Z)) (t : intern_state) (h : heap) :
  option Z * intern_state * heap :=
  match v with
  | None => (None, t, h)
  | Some l => string_intern_n (Some (until_nul l)) t h
  end.

Fixpoint find_ptr (chain : list StringInternEntry) (v : Z) : bool :=
  match chain with
  | [] => false
  | e :: chain => if value e =? v then true else find_ptr chain v
  end.

Definition string_is_interned (v : option Z) (t : intern_state) : bool :=
  match v, ptr_buckets t with
  | None, _ | _, None => false
  | Some v, Some pb =>
      find_ptr (default [] (pb !! Z.to_nat (Z.land (string_intern_hash_ptr v) (bucket_count t - 1)))) v
  end.

Definition string_intern_clear (t : intern_state) : intern_state :=
  match buckets t with
  | None => t
  | Some _ => mkIntern None None 0 0
  end.
(** * Specification

    The tables stand for a finite map from contents to addresses. *)

Definition entries (t : intern_state) : list StringInternEntry := concat (default [] (buckets t)).
Definition pair_of (e : StringInternEntry) : list Z * Z := (bytes e, value e).
Definition abs (t : intern_state) : gmap (list Z) Z := list_to_map (pair_of <$> entries t).

(** A table of [2^k] chains in which every entry is in the chain its slot
    function says. *)
Definition table_ok (slot : StringInternEntry -> Z) (count : Z) (tb : list (list StringInternEntry)) : Prop :=
  Z.of_nat (length tb) = count /\
  forall i chain e, tb !! i = Some chain -> e ∈ chain -> slot e = Z.of_nat i.

Definition pow2 (n : Z) : Prop := exists k, 0 <= k /\ n = 2 ^ k.

Record inv (t : intern_state) (h : heap) : Prop := mkInv {
  inv_null : buckets t = None <-> ptr_buckets t = None;
  inv_tables : forall tb pb, buckets t = Some tb -> ptr_buckets t = Some pb ->
    pow2 (bucket_count t) /\ table_ok (content_slot (bucket_count t)) (bucket_count t) tb /\
    table_ok (ptr_slot (bucket_count t)) (bucket_count t) pb /\ concat tb ≡ₚ concat pb /\
    entry_count t = Z.of_nat (length (concat tb));
  inv_contents : NoDup (bytes <$> entries t);
  inv_values : NoDup (value <$> entries t);
  inv_fresh : Forall (fun e => 0 <= value e < Z.of_nat (heap_calls h)) (entries t)
}.

(** ** Tables *)

Lemma slot_range x count : pow2 count -> 0 <= Z.land x (count - 1) < count.
Proof.
  intros (k & Hk & ->). rewrite (land_mask _ k) by done. apply Z.mod_pos_bound. lia.
Qed.

Lemma push_bucket_perm tb i e : 0 <= i < Z.of_nat (length tb) ->
  concat (push_bucket tb i e) ≡ₚ e :: concat tb.
Proof.
  unfold push_bucket. intros Hi. assert (Z.to_nat i < length tb)%nat as Hn by lia.
  revert Hn. generalize (Z.to_nat i) as n. clear Hi. induction tb as [|c tb IH]; intros n Hn; simpl in *; [lia|].
  destruct n as [|n]; simpl; [done|]. rewrite (IH n) by lia. symmetry. apply Permutation_middle.
Qed.

Lemma push_bucket_ok slot count tb e : 0 <= slot e -> table_ok slot count tb -> table_ok slot count (push_bucket tb (slot e) e).
Proof.
  intros H0 [Hl Hs]. unfold push_bucket. split; [by rewrite length_alter|].
  intros i chain x Hi Hx. destruct (decide (Z.to_nat (slot e) = i)) as [<-|Hne].
  - rewrite list_lookup_alter_eq in Hi. destruct (tb !! Z.to_nat (slot e)) as [c|] eqn:Hc; [|done].
    simpl in Hi. injection Hi as <-. apply elem_of_cons in Hx as [->|Hx]; [lia|by eapply Hs].
  - rewrite list_lookup_alter_ne in Hi by done. by eapply Hs.
Qed.
Lemma table_empty slot count : 0 <= count -> table_ok slot count (empty_table count).
Proof.
  intros Hc. unfold empty_table. split; [rewrite length_replicate; lia|].
  intros i chain e Hi He. apply lookup_replicate in Hi as [-> _]. by apply elem_of_nil in He.
Qed.

Lemma concat_empty count : concat (empty_table count) = [].
Proof. unfold empty_table. induction (Z.to_nat count); [done|]. simpl. done. Qed.

#[local] Opaque empty_table.

Lemma table_member slot count tb e : 0 <= slot e -> table_ok slot count tb ->
  e ∈ concat tb <-> e ∈ default [] (tb !! Z.to_nat (slot e)).
Proof.
  intros H0 [_ Hs]. split.
  - intros He. apply list_elem_of_In, in_concat in He as (c & Hc & He).
    apply list_elem_of_In in Hc, He. apply list_elem_of_lookup in Hc as [i Hi].
    rewrite (Hs i c e Hi He), Nat2Z.id, Hi. done.
  - destruct (tb !! Z.to_nat (slot e)) as [c|] eqn:Hc; simpl; [|by intros ?%elem_of_nil].
    intros He. apply list_elem_of_In, in_concat. exists c.
    split; apply list_elem_of_In; [by eapply list_elem_of_lookup_2|done].
Qed.

(** ** Growth *)

Lemma foldl_concat {A B} (f : A -> B -> A) (ls : list (list B)) a :
  foldl (foldl f) a ls = foldl f a (concat ls).
Proof. revert a. induction ls as [|l ls IH]; intros a; simpl; [done|]. by rewrite foldl_app, IH. Qed.

Lemma rehash_spec count es nc np :
  pow2 count -> table_ok (content_slot count) count nc -> table_ok (ptr_slot count) count np ->
  let r := foldl (rehash_entry count) (nc, np) es in
  table_ok (content_slot count) count (fst r) /\ table_ok (ptr_slot count) count (snd r) /\
  concat (fst r) ≡ₚ es ++ concat nc /\ concat (snd r) ≡ₚ es ++ concat np.
Proof.
  intros Hp. revert nc np. induction es as [|e es IH]; intros nc np Hc Hq; simpl; [done|].
  pose proof (slot_range (string_intern_hash_bytes (bytes e)) count Hp) as R1.
  pose proof (slot_range (string_intern_hash_ptr (value e)) count Hp) as R2.
  fold (content_slot count e) in R1. fold (ptr_slot count e) in R2.
  destruct (IH (push_bucket nc (content_slot count e) e) (push_bucket np (ptr_slot count e) e)) as (G1 & G2 & G3 & G4);
    [by apply push_bucket_ok; [lia|]..|].
  split; [exact G1|]. split; [exact G2|]. split.
  - rewrite G3. rewrite push_bucket_perm by (destruct Hc as [-> _]; lia). symmetry. apply Permutation_middle.
  - rewrite G4. rewrite push_bucket_perm by (destruct Hq as [-> _]; lia). symmetry. apply Permutation_middle.
Qed.

Lemma keys_of (l : list StringInternEntry) : (pair_of <$> l).*1 = bytes <$> l.
Proof. by rewrite <- list_fmap_compose. Qed.

Lemma abs_perm t t' : entries t' ≡ₚ entries t -> NoDup (bytes <$> entries t) -> abs t' = abs t.
Proof.
  intros Hp Hn. unfold abs. apply list_to_map_proper.
  - by rewrite keys_of, Hp.
  - by rewrite Hp.
Qed.

Lemma inv_heap t h h' : (heap_calls h <= heap_calls h')%nat -> inv t h -> inv t h'.
Proof.
  intros Hle []. split; try done. eapply Forall_impl; [exact inv_fresh0|]. cbv beta. lia.
Qed.

Lemma maybe_grow_spec t h t' h' :
  inv t h -> is_Some (buckets t) -> string_intern_maybe_grow t h = (t', h') ->
  inv t' h' /\ abs t' = abs t /\ (heap_calls h <= heap_calls h')%nat /\ is_Some (buckets t') /\
  heap_grants h' = heap_grants h.
Proof.
  intros Hi [tb Htb] Hg. unfold string_intern_maybe_grow in Hg.
  destruct (_ <=? _); [injection Hg as <- <-; by rewrite Htb|].
  unfold alloc in Hg. simpl in Hg.
  set (h2 := mkHeap (heap_grants h) (S (S (heap_calls h)))) in Hg.
  assert (heap_calls h <= heap_calls h2)%nat as Hle by (simpl; lia).
  destruct (_ || _).
  { injection Hg as <- <-. rewrite Htb. split; [by eapply inv_heap|]. done. }
  rewrite Htb in Hg. simpl in Hg. rewrite foldl_concat in Hg.
  destruct (ptr_buckets t) as [pb|] eqn:Hpb; [|by rewrite (proj2 (inv_null t h Hi) Hpb) in Htb].
  destruct (inv_tables t h Hi tb pb Htb Hpb) as (Hp & Hc & Hq & Hperm & Hn).
  set (count := bucket_count t * 2) in *.
  assert (pow2 count) as Hp'.
  { destruct Hp as (k & Hk & E). exists (k + 1). unfold count. rewrite E, Z.pow_add_r by lia. lia. }
  assert (0 <= count) by (destruct Hp' as (k & Hk & ->); lia).
  destruct (rehash_spec count (concat tb) (empty_table count) (empty_table count) Hp')
    as (G1 & G2 & G3 & G4); [by apply table_empty..|].
  destruct (foldl _ _ _) as [nc np] eqn:Hf. simpl in *. injection Hg as <- <-.
  rewrite concat_empty, app_nil_r in G3, G4.
  assert (entries t = concat tb) as Et by (unfold entries; by rewrite Htb).
  set (t' := mkIntern (Some nc) (Some np) count (entry_count t)).
  assert (entries t' ≡ₚ entries t) as Hperm' by (rewrite Et; exact G3).
  split; [|split; [apply abs_perm; [done|apply Hi]|done]].
  split; simpl.
  - done.
  - intros tb' pb' [= <-] [= <-]. split; [done|]. split; [done|]. split; [done|].
    split; [by rewrite G3, G4|]. by rewrite Hn, G3.
  - rewrite Hperm'. apply Hi.
  - rewrite Hperm'. apply Hi.
  - rewrite Hperm'. eapply Forall_impl; [apply (inv_fresh t h Hi)|]. cbv beta. simpl. lia.
Qed.
Lemma entries_some tb pb c n : entries (mkIntern (Some tb) pb c n) = concat tb.
Proof. done. Qed.

Lemma inv_start h : inv intern_start h.
Proof. split; simpl; try done; constructor. Qed.

Lemma abs_null t : buckets t = None -> abs t = ∅.
Proof. intros H. unfold abs, entries. by rewrite H. Qed.

Lemma init_spec t h ok t' h' :
  inv t h -> string_intern_init t h = (ok, t', h') ->
  inv t' h' /\ abs t' = abs t /\ (heap_calls h <= heap_calls h')%nat /\ heap_grants h' = heap_grants h /\
  (ok = true -> is_Some (buckets t')) /\
  (ok = false -> abs t = ∅ /\
     exists n, (heap_calls h <= n < heap_calls h')%nat /\ heap_grants h n = false).
Proof.
  intros Hi. unfold string_intern_init.
  destruct (buckets t) as [tb|] eqn:Hb.
  - destruct (ptr_buckets t) as [pb|] eqn:Hp; [|by rewrite (proj2 (inv_null t h Hi) Hp) in Hb].
    intros [= <- <- <-]. rewrite Hb. split; [done|]. split; [done|]. split; [done|]. split; [done|]. done.
  - unfold alloc. cbn [heap_grants heap_calls].
    destruct (heap_grants h (heap_calls h)) eqn:E1; [destruct (heap_grants h (S (heap_calls h))) eqn:E2|];
      cbn [negb orb]; intros [= <- <- <-]; cbn [heap_grants heap_calls].
    + split; [|split; [|split; [lia|]; split; [done|]; split; [by eexists|done]]].
      * split; cbn [buckets ptr_buckets bucket_count entry_count].
        -- done.
        -- intros tb pb <-%(inj Some) <-%(inj Some). split; [by exists 12|]. split; [by apply table_empty|].
           split; [by apply table_empty|]. split; [done|]. by rewrite concat_empty.
        -- rewrite entries_some, concat_empty. constructor.
        -- rewrite entries_some, concat_empty. constructor.
        -- rewrite entries_some, concat_empty. constructor.
      * rewrite (abs_null t Hb). unfold abs. by rewrite entries_some, concat_empty.
    + split; [split; simpl; try done; constructor|]. split; [by rewrite (abs_null t Hb)|].
      split; [lia|]. split; [done|]. split; [done|]. intros _.
      split; [by apply abs_null|]. exists (S (heap_calls h)). split; [lia|done].
    + split; [split; simpl; try done; constructor|]. split; [by rewrite (abs_null t Hb)|].
      split; [lia|]. split; [done|]. split; [done|]. intros _.
      split; [by apply abs_null|]. exists (heap_calls h). split; [lia|done].
Qed.

(** ** Lookup *)

Lemma find_content_spec chain l :
  match find_content chain l with
  | Some v => exists e, e ∈ chain /\ bytes e = l /\ value e = v
  | None => forall e, e ∈ chain -> bytes e <> l
  end.
Proof.
  induction chain as [|e chain IH]; simpl; [by intros ? ?%elem_of_nil|].
  destruct (Z.eqb_spec (Z.of_nat (length (bytes e))) (Z.of_nat (length l))) as [Hl|Hl]; simpl.
  - destruct (decide (bytes e = l)) as [He|He].
    + rewrite bool_decide_true by done. exists e. split; [apply elem_of_cons; by left|done].
    + rewrite bool_decide_false by done. destruct (find_content chain l).
      * destruct IH as (e' & ? & ?). exists e'. split; [apply elem_of_cons; by right|done].
      * intros e' [->|He']%elem_of_cons; [done|by apply IH].
  - destruct (find_content chain l).
    + destruct IH as (e' & ? & ?). exists e'. split; [apply elem_of_cons; by right|done].
    + intros e' [->|He']%elem_of_cons; [congruence|by apply IH].
Qed.

Lemma abs_lookup t h l v : inv t h ->
  abs t !! l = Some v <-> exists e, e ∈ entries t /\ bytes e = l /\ value e = v.
Proof.
  intros Hi. unfold abs. rewrite <- elem_of_list_to_map.
  - rewrite list_elem_of_fmap. split.
    + intros (e & [= -> ->] & He). by exists e.
    + intros (e & He & <- & <-). by exists e.
  - rewrite keys_of. apply Hi.
Qed.

Lemma find_bucket t h tb l : inv t h -> buckets t = Some tb ->
  find_content (default [] (tb !! Z.to_nat (Z.land (string_intern_hash_bytes l) (bucket_count t - 1)))) l
  = abs t !! l.
Proof.
  intros Hi Htb. destruct (ptr_buckets t) as [pb|] eqn:Hpb; [|by rewrite (proj2 (inv_null t h Hi) Hpb) in Htb].
  destruct (inv_tables t h Hi tb pb Htb Hpb) as (Hp & Hc & _).
  assert (entries t = concat tb) as Et by (unfold entries; by rewrite Htb).
  pose proof (slot_range (string_intern_hash_bytes l) _ Hp) as Hr.
  assert (forall e, bytes e = l -> e ∈ entries t <->
    e ∈ default [] (tb !! Z.to_nat (Z.land (string_intern_hash_bytes l) (bucket_count t - 1)))) as Hm.
  { intros e <-. rewrite Et. apply (table_member (content_slot (bucket_count t)) (bucket_count t) tb e); [|exact Hc].
    unfold content_slot. lia. }
  match goal with |- find_content ?c l = _ => pose proof (find_content_spec c l) as Hf end.
  destruct (find_content _ l) as [v|].
  - destruct Hf as (e & He & Hb & Hv). symmetry. apply (abs_lookup t h l v Hi). exists e.
    split; [by apply Hm|done].
  - symmetry. destruct (abs t !! l) as [v|] eqn:Ha; [|done].
    apply (abs_lookup t h l v Hi) in Ha as (e & He & Hb & _). exfalso. apply (Hf e); [by apply Hm|done].
Qed.
(** ** Interning *)

Lemma intern_insert t h tb pb l p h1 :
  inv t h -> buckets t = Some tb -> ptr_buckets t = Some pb -> abs t !! l = None ->
  Z.of_nat (heap_calls h) <= p < Z.of_nat (heap_calls h1) ->
  let e := mkEntry p l in
  let t1 := mkIntern (Some (push_bucket tb (content_slot (bucket_count t) e) e))
              (Some (push_bucket pb (ptr_slot (bucket_count t) e) e)) (bucket_count t) (entry_count t + 1) in
  inv t1 h1 /\ abs t1 = <[l := p]> (abs t).
Proof.
  intros Hi Htb Hpb Hl Hp e t1. destruct (inv_tables t h Hi tb pb Htb Hpb) as (Hpow & Hc & Hq & Hperm & Hn).
  pose proof (slot_range (string_intern_hash_bytes l) _ Hpow) as R1.
  pose proof (slot_range (string_intern_hash_ptr p) _ Hpow) as R2.
  assert (entries t = concat tb) as Et by (unfold entries; by rewrite Htb).
  assert (entries t1 ≡ₚ e :: entries t) as Hp1.
  { unfold t1. rewrite entries_some, Et. apply push_bucket_perm. destruct Hc as [-> _]. unfold content_slot. simpl. lia. }
  assert (concat (push_bucket pb (ptr_slot (bucket_count t) e) e) ≡ₚ e :: concat pb) as Hp2.
  { apply push_bucket_perm. destruct Hq as [-> _]. unfold ptr_slot. simpl. lia. }
  assert (forall x, x ∈ entries t -> bytes x <> l) as Hnew.
  { intros x Hx Hb. assert (abs t !! l = Some (value x)) by (apply (abs_lookup t h l _ Hi); by exists x).
    congruence. }
  assert (forall x, x ∈ entries t -> value x <> p) as Hfresh.
  { intros x Hx Hv. pose proof (inv_fresh t h Hi) as Hf. rewrite Forall_forall in Hf.
    specialize (Hf x Hx). cbv beta in Hf. lia. }
  split.
  - split.
    + done.
    + cbn [buckets ptr_buckets bucket_count entry_count t1]. intros tb' pb' <-%(inj Some) <-%(inj Some).
      split; [done|]. split; [apply push_bucket_ok; [unfold content_slot; simpl; lia|done]|].
      split; [apply push_bucket_ok; [unfold ptr_slot; simpl; lia|done]|].
      change (concat (push_bucket tb (content_slot (bucket_count t) e) e)) with (entries t1).
      split; [rewrite Hp1, Hp2, Et; by apply Permutation_cons|].
      rewrite Hp1. simpl. rewrite Et. lia.
    + rewrite Hp1. simpl. constructor; [|apply Hi].
      intros Hin. apply list_elem_of_fmap in Hin as (x & Hx & Hin).
      by apply (Hnew x).
    + rewrite Hp1. simpl. constructor; [|apply Hi].
      intros Hin. apply list_elem_of_fmap in Hin as (x & Hx & Hin).
      by apply (Hfresh x).
    + rewrite Hp1. constructor; [simpl; lia|].
      eapply Forall_impl; [apply (inv_fresh t h Hi)|]. cbv beta. lia.
  - unfold abs.
    change (list_to_map (pair_of <$> entries t1) =
      (list_to_map (pair_of e :: (pair_of <$> entries t)) : gmap (list Z) Z)).
    apply list_to_map_proper.
    + rewrite keys_of, Hp1. simpl. constructor; [|apply Hi].
      intros Hin. apply list_elem_of_fmap in Hin as (x & Hx & Hin).
      by apply (Hnew x).
    + by rewrite Hp1.
Qed.

Lemma intern_n_correct l t h r t' h' :
  inv t h -> string_intern_n (Some l) t h = (r, t', h') ->
  inv t' h' /\ heap_grants h' = heap_grants h /\ (heap_calls h <= heap_calls h')%nat /\
  (match abs t !! l with
   | Some p => r = Some p /\ abs t' = abs t
   | None => match r with
             | Some p => (forall l', abs t !! l' <> Some p) /\ abs t' = <[l := p]> (abs t)
             | None => abs t' = abs t
             end
   end) /\
  (r = None -> exists n, (heap_calls h <= n < heap_calls h')%nat /\ heap_grants h n = false).
Proof.
  intros Hi. unfold string_intern_n.
  destruct (string_intern_init t h) as [[ok t1] h1] eqn:Hinit.
  destruct (init_spec t h ok t1 h1 Hi Hinit) as (Hi1 & Ha1 & Hle1 & Hg1 & Hok & Hfail).
  destruct ok; cbn [negb].
  2: { destruct (Hfail eq_refl) as [He Hn]. intros [= <- <- <-]. rewrite Ha1, He, lookup_empty.
       split; [done|]. split; [done|]. split; [done|]. split; [done|]. done. }
  destruct (Hok eq_refl) as [tb Htb].
  destruct (ptr_buckets t1) as [pb|] eqn:Hpb; [|by rewrite (proj2 (inv_null t1 h1 Hi1) Hpb) in Htb].
  rewrite Htb. cbn [default from_option]. cbv zeta. cbn [id].
  rewrite (find_bucket t1 h1 tb l Hi1 Htb), Ha1.
  destruct (abs t !! l) as [p|] eqn:Hl.
  { intros [= <- <- <-]. rewrite Ha1. split; [done|]. split; [done|]. split; [done|]. split; [done|]. done. }
  unfold alloc_ptr, alloc. cbn [heap_grants heap_calls]. rewrite Hg1.
  destruct (heap_grants h (heap_calls h1)) eqn:E1.
  2: { intros [= <- <- <-]. cbn [heap_grants heap_calls].
       split; [eapply inv_heap; [|exact Hi1]; simpl; lia|]. split; [done|]. split; [lia|]. split; [done|].
       intros _. exists (heap_calls h1). split; [lia|done]. }
  destruct (heap_grants h (S (heap_calls h1))) eqn:E2; cbn [negb].
  2: { intros [= <- <- <-]. cbn [heap_grants heap_calls].
       split; [eapply inv_heap; [|exact Hi1]; simpl; lia|]. split; [done|]. split; [lia|]. split; [done|].
       intros _. exists (S (heap_calls h1)). split; [lia|done]. }
  set (h2 := mkHeap (heap_grants h) (S (S (heap_calls h1)))).
  set (p := Z.of_nat (heap_calls h1)).
  destruct (intern_insert t1 h1 tb pb l p h2 Hi1 Htb Hpb) as [Hi2 Ha2];
    [by rewrite Ha1|unfold p; simpl; lia|].
  change (Z.land (string_intern_hash_bytes l) (bucket_count t1 - 1))
    with (content_slot (bucket_count t1) (mkEntry p l)).
  change (Z.land (string_intern_hash_ptr p) (bucket_count t1 - 1))
    with (ptr_slot (bucket_count t1) (mkEntry p l)).
  destruct (string_intern_maybe_grow _ h2) as [t3 h3] eqn:Hgrow. intros [= <- <- <-].
  destruct (maybe_grow_spec _ h2 t3 h3 Hi2 ltac:(by eexists) Hgrow) as (Hi3 & Ha3 & Hle3 & _ & Hg3).
  split; [done|]. split; [done|]. split; [simpl in Hle3; lia|]. split; [|done].
  rewrite Ha3, Ha2, Ha1. split; [|done].
  intros l' Hl'. rewrite <- Ha1 in Hl'. apply (abs_lookup t1 h1 l' p Hi1) in Hl' as (x & Hx & _ & Hv).
  pose proof (inv_fresh t1 h1 Hi1) as Hf. rewrite Forall_forall in Hf. specialize (Hf x Hx).
  cbv beta in Hf. unfold p in Hv. lia.
Qed.

(** ** Membership *)

Lemma find_ptr_spec chain v : find_ptr chain v = true <-> exists e, e ∈ chain /\ value e = v.
Proof.
  induction chain as [|e chain IH]; simpl.
  - split; [done|]. intros (e & He & _). by apply elem_of_nil in He.
  - destruct (Z.eqb_spec (value e) v) as [He|He].
    + split; [|done]. intros _. exists e. split; [apply elem_of_cons; by left|done].
    + rewrite IH. split; intros (x & Hx & Hv); exists x; (split; [|done]).
      * apply elem_of_cons. by right.
      * apply elem_of_cons in Hx as [->|]; done.
Qed.

Lemma is_interned_correct t h v : inv t h ->
  string_is_interned (Some v) t = true <-> exists l, abs t !! l = Some v.
Proof.
  intros Hi. unfold string_is_interned. destruct (ptr_buckets t) as [pb|] eqn:Hpb.
  - destruct (buckets t) as [tb|] eqn:Htb; [|by rewrite (proj1 (inv_null t h Hi) Htb) in Hpb].
    destruct (inv_tables t h Hi tb pb Htb Hpb) as (Hpow & _ & Hq & Hperm & _).
    pose proof (slot_range (string_intern_hash_ptr v) _ Hpow) as Hr.
    assert (entries t = concat tb) as Et by (unfold entries; by rewrite Htb).
    assert (forall e, value e = v -> e ∈ concat pb <->
      e ∈ default [] (pb !! Z.to_nat (Z.land (string_intern_hash_ptr v) (bucket_count t - 1)))) as Hm.
    { intros e <-. apply (table_member (ptr_slot (bucket_count t)) (bucket_count t) pb e); [|exact Hq].
      unfold ptr_slot. lia. }
    rewrite find_ptr_spec. split.
    + intros (e & He & Hv). exists (bytes e). apply (abs_lookup t h _ _ Hi). exists e.
      split; [|done]. rewrite Et, Hperm. by apply Hm.
    + intros (l & Hl). apply (abs_lookup t h _ _ Hi) in Hl as (e & He & _ & Hv). exists e.
      split; [|done]. apply Hm; [done|]. by rewrite <- Hperm, <- Et.
  - split; [done|]. intros (l & Hl). rewrite (abs_null t) in Hl; [by rewrite lookup_empty in Hl|].
    by apply (inv_null t h Hi).
Qed.
Lemma abs_injective t h l l' p : inv t h -> abs t !! l = Some p -> abs t !! l' = Some p -> l = l'.
Proof.
  intros Hi H H'. apply (abs_lookup t h _ _ Hi) in H as (e & He & <- & Hv).
  apply (abs_lookup t h _ _ Hi) in H' as (e' & He' & <- & Hv').
  apply list_elem_of_lookup in He as [i Hi1]. apply list_elem_of_lookup in He' as [j Hj].
  pose proof (inv_values t h Hi) as Hn. rewrite NoDup_alt in Hn.
  assert (i = j) as ->; [|congruence].
  apply (Hn i j p); rewrite list_lookup_fmap; [rewrite Hi1|rewrite Hj]; simpl; congruence.
Qed.

(** * Theorems *)

(** C37: interning refines a finite map from contents to addresses.  Contents
    already in the map give their address and change nothing; new contents
    are given an address no other contents have, or, only when an allocation
    was refused, a null result that leaves the map unchanged.  The tables
    stay consistent, and the address test answers membership in the map. *)
Theorem string_intern_n_refines l t h r t' h' :
  inv t h -> string_intern_n (Some l) t h = (r, t', h') ->
  inv t' h' /\
  match abs t !! l with
  | Some p => r = Some p /\ abs t' = abs t
  | None =>
      match r with
      | Some p => (forall l', abs t !! l' <> Some p) /\ abs t' = <[l := p]> (abs t)
      | None => abs t' = abs t /\
                exists n, (heap_calls h <= n < heap_calls h')%nat /\ heap_grants h n = false
      end
  end /\
  forall v, string_is_interned (Some v) t' = true <-> exists l', abs t' !! l' = Some v.
Proof.
  intros Hi Hr. destruct (intern_n_correct l t h r t' h' Hi Hr) as (Hi' & _ & _ & Hm & Hf).
  split; [done|]. split; [|intros v; by apply (is_interned_correct t' h')].
  destruct (abs t !! l); [done|]. destruct r; [done|]. split; [done|by apply Hf].
Qed.

Lemma string_intern_n_refines_witness :
  exists r t' h', string_intern_n (Some [102; 110]) intern_start heap_unlimited = (r, t', h') /\
    inv t' h' /\ forall v, string_is_interned (Some v) t' = true <-> exists l', abs t' !! l' = Some v.
Proof.
  destruct (string_intern_n (Some [102; 110]) intern_start heap_unlimited) as [[r t'] h'] eqn:E.
  exists r, t', h'. split; [reflexivity|].
  destruct (string_intern_n_refines [102; 110] intern_start heap_unlimited r t' h' (inv_start _) E)
    as (Hi & _ & Hv).
  split; [exact Hi|exact Hv].
Defined.

(** Interning a list of strings one after the other. *)
Fixpoint intern_all (ls : list (list Z)) (t : intern_state) (h : heap) :
  list (option Z) * intern_state * heap :=
  match ls with
  | [] => ([], t, h)
  | l :: ls =>
      let '(r, t, h) := string_intern_n (Some l) t h in
      let '(rs, t, h) := intern_all ls t h in
      (r :: rs, t, h)
  end.

Lemma intern_all_spec ls t h rs t' h' :
  inv t h -> intern_all ls t h = (rs, t', h') ->
  inv t' h' /\ abs t ⊆ abs t' /\ length rs = length ls /\
  forall i l p, ls !! i = Some l -> rs !! i = Some (Some p) -> abs t' !! l = Some p.
Proof.
  revert t h rs t' h'. induction ls as [|l ls IH]; intros t h rs t' h' Hi; cbn [intern_all].
  { intros [= <- <- <-]. split; [done|]. split; [done|]. done. }
  destruct (string_intern_n (Some l) t h) as [[r t1] h1] eqn:E1.
  destruct (intern_all ls t1 h1) as [[rs1 t2] h2] eqn:E2. intros Heq. simplify_eq.
  destruct (intern_n_correct l t h r t1 h1 Hi E1) as (Hi1 & _ & _ & Hm & _).
  destruct (IH t1 h1 rs1 _ _ Hi1 E2) as (Hi2 & Hsub & Hlen & Hall).
  assert (abs t ⊆ abs t1) as Hsub1.
  { destruct (abs t !! l) as [p|] eqn:Hl; [destruct Hm as [_ ->]; reflexivity|].
    destruct r; [|rewrite Hm; reflexivity]. destruct Hm as [_ ->]. by apply insert_subseteq. }
  split; [done|]. split; [by transitivity (abs t1)|]. split; [simpl; lia|].
  intros [|i] l' p; simpl; [|apply Hall]. intros [= <-] [= ->].
  apply (lookup_weaken (abs t1)); [|done].
  destruct (abs t !! l) as [q|] eqn:Hl; [destruct Hm as [Hq ->]; congruence|].
  destruct Hm as [_ ->]. apply lookup_insert_eq.
Qed.

(** C38: interned addresses are canonical: over any sequence of interning
    calls, under any allocator, two successful calls return the same address
    exactly when they were given the same contents. *)
Theorem string_intern_canonical ls h rs t' h' i j l l' p p' :
  intern_all ls intern_start h = (rs, t', h') ->
  ls !! i = Some l -> ls !! j = Some l' -> rs !! i = Some (Some p) -> rs !! j = Some (Some p') ->
  p = p' <-> l = l'.
Proof.
  intros E Hi Hj Hp Hp'. destruct (intern_all_spec ls _ h rs t' h' (inv_start h) E) as (Hinv & _ & _ & Hall).
  pose proof (Hall i l p Hi Hp) as H1. pose proof (Hall j l' p' Hj Hp') as H2. split.
  - intros ->. by eapply abs_injective.
  - intros ->. congruence.
Qed.

Lemma string_intern_canonical_witness :
  exists rs t' h' p p',
    intern_all [[97]; [98]; [97]] intern_start heap_unlimited = (rs, t', h') /\
    rs !! 0%nat = Some (Some p) /\ rs !! 2%nat = Some (Some p') /\ p = p'.
Proof.
  destruct (intern_all [[97]; [98]; [97]] intern_start heap_unlimited) as [[rs t'] h'] eqn:E.
  assert (rs = [Some 2; Some 4; Some 2]) as Hrs.
  { apply (f_equal (fun x => fst (fst x))) in E. rewrite <- (E : fst (fst _) = rs). vm_compute. reflexivity. }
  exists rs, t', h', 2, 2. split; [reflexivity|]. rewrite Hrs. split; [reflexivity|]. split; [reflexivity|].
  apply (proj2 (string_intern_canonical [[97]; [98]; [97]] heap_unlimited rs t' h' 0%nat 2%nat [97] [97] 2 2
    E eq_refl eq_refl ltac:(rewrite Hrs; reflexivity) ltac:(rewrite Hrs; reflexivity))). reflexivity.
Defined.

(** Clearing the tables gives the empty map again, whatever they held, and
    no address is then reported as interned. *)
Lemma string_intern_clear_empties t h :
  inv t h ->
  inv (string_intern_clear t) h /\ abs (string_intern_clear t) = ∅ /\
  forall v, string_is_interned (Some v) (string_intern_clear t) = false.
Proof.
  intros Hi. unfold string_intern_clear. destruct (buckets t) eqn:Hb.
  - split; [apply inv_start|]. done.
  - split; [done|]. split; [by apply abs_null|]. intros v. unfold string_is_interned.
    by rewrite (proj1 (inv_null t h Hi) Hb).
Qed.

Lemma string_intern_clear_empties_witness : abs (string_intern_clear intern_start) = ∅.
Proof. exact (proj1 (proj2 (string_intern_clear_empties intern_start heap_unlimited (inv_start _)))). Defined.

(** * Interface

    What a client relies on: contents in, an address out, and a map that only
    grows. *)
Class Interner (T : Type) := {
  intern_op : list Z -> T -> heap -> option Z * T * heap;
  intern_inv : T -> heap -> Prop;
  intern_map : T -> gmap (list Z) Z;
  intern_inv_mono : forall t h h', (heap_calls h <= heap_calls h')%nat -> intern_inv t h -> intern_inv t h';
  intern_op_spec : forall l t h r t' h', intern_inv t h -> intern_op l t h = (r, t', h') ->
    intern_inv t' h' /\ (heap_calls h <= heap_calls h')%nat /\ heap_grants h' = heap_grants h /\
    intern_map t ⊆ intern_map t' /\
    match r with
    | Some p => intern_map t' !! l = Some p
    | None => exists n, (heap_calls h <= n < heap_calls h')%nat /\ heap_grants h n = false
    end
}.

#[export, refine] Instance string_interner : Interner intern_state := {
  intern_op := fun l => string_intern_n (Some l);
  intern_inv := inv;
  intern_map := abs
}.
Proof.
  - intros t h h'. apply inv_heap.
  - intros l t h r t' h' Hi E. destruct (intern_n_correct l t h r t' h' Hi E) as (Hi' & Hg & Hle & Hm & Hf).
    split; [done|]. split; [done|]. split; [done|]. split.
    + destruct (abs t !! l) eqn:Hl; [destruct Hm as [_ ->]; reflexivity|].
      destruct r; [|rewrite Hm; reflexivity]. destruct Hm as [_ ->]. by apply insert_subseteq.
    + destruct r as [p|]; [|by apply Hf].
      destruct (abs t !! l) as [q|] eqn:Hl; [destruct Hm as [Hq ->]; congruence|].
      destruct Hm as [_ ->]. apply lookup_insert_eq.
Defined.
End Intern.
