(* ===== verification/LexTokens.v ===== *)
(** Tokens of the source language: src/src/lexer/lexer.h and the keyword
    tables of src/src/lexer/lexer.c (lines 468 to 617).

    Keywords and assembler mnemonics are found by a binary search among the
    words of the right length, mnemonics without regard to case.  The theorem
    shows that the search finds a word exactly when a linear scan would. *)
From Stdlib Require Import String Ascii.
From S2P Require Import Prelude.

Module Tokens.

(** * Token kinds *)

Inductive TokenType :=
| TOKEN_EOF | TOKEN_IDENTIFIER | TOKEN_NUMBER | TOKEN_STRING | TOKEN_IMPORT
| TOKEN_IMPORT_STR | TOKEN_EXTERN | TOKEN_EXPORT | TOKEN_VAR | TOKEN_CONST | TOKEN_FUNCTION
| TOKEN_STRUCT | TOKEN_ENUM | TOKEN_METHOD | TOKEN_RETURN | TOKEN_IF | TOKEN_ELSE
| TOKEN_WHILE | TOKEN_FOR | TOKEN_SWITCH | TOKEN_CASE | TOKEN_DEFAULT | TOKEN_BREAK
| TOKEN_CONTINUE | TOKEN_DEFER | TOKEN_ERRDEFER | TOKEN_ASM | TOKEN_THIS | TOKEN_NEW
| TOKEN_TRAIT | TOKEN_IMPL | TOKEN_WHERE | TOKEN_FN | TOKEN_MATCH | TOKEN_KERNEL
| TOKEN_DISPATCH | TOKEN_WORKGROUP | TOKEN_PRIVATE | TOKEN_BARRIER | TOKEN_INT8
| TOKEN_INT16 | TOKEN_INT32 | TOKEN_INT64 | TOKEN_UINT8 | TOKEN_UINT16 | TOKEN_UINT32
| TOKEN_UINT64 | TOKEN_FLOAT32 | TOKEN_FLOAT64 | TOKEN_STRING_TYPE | TOKEN_COLON
| TOKEN_SEMICOLON | TOKEN_COMMA | TOKEN_EQUALS | TOKEN_PLUS_EQUALS | TOKEN_MINUS_EQUALS
| TOKEN_PLUS_PLUS | TOKEN_MINUS_MINUS | TOKEN_STAR_EQUALS | TOKEN_SLASH_EQUALS
| TOKEN_PERCENT_EQUALS | TOKEN_AMP_EQUALS | TOKEN_PIPE_EQUALS | TOKEN_CARET_EQUALS
| TOKEN_LSHIFT_EQUALS | TOKEN_RSHIFT_EQUALS | TOKEN_EQUALS_EQUALS | TOKEN_NOT_EQUALS
| TOKEN_LESS_THAN | TOKEN_GREATER_THAN | TOKEN_LESS_EQUALS | TOKEN_GREATER_EQUALS
| TOKEN_ARROW | TOKEN_LPAREN | TOKEN_RPAREN | TOKEN_LBRACE | TOKEN_RBRACE | TOKEN_LBRACKET
| TOKEN_RBRACKET | TOKEN_PLUS | TOKEN_MINUS | TOKEN_MULTIPLY | TOKEN_AMPERSAND | TOKEN_PIPE
| TOKEN_CARET | TOKEN_LSHIFT | TOKEN_RSHIFT | TOKEN_TILDE | TOKEN_AND_AND | TOKEN_OR_OR
| TOKEN_DIVIDE | TOKEN_PERCENT | TOKEN_NOT | TOKEN_DOT | TOKEN_DOT_DOT | TOKEN_AT
| TOKEN_NEWLINE | TOKEN_MOV | TOKEN_ADD | TOKEN_SUB | TOKEN_MUL | TOKEN_DIV | TOKEN_IMUL
| TOKEN_IDIV | TOKEN_INC | TOKEN_DEC | TOKEN_CMP | TOKEN_JMP | TOKEN_JE | TOKEN_JNE
| TOKEN_JL | TOKEN_JLE | TOKEN_JG | TOKEN_JGE | TOKEN_CALL | TOKEN_RET | TOKEN_PUSH
| TOKEN_POP | TOKEN_LEA | TOKEN_NOP | TOKEN_INT | TOKEN_SYSCALL | TOKEN_EAX | TOKEN_EBX
| TOKEN_ECX | TOKEN_EDX | TOKEN_ESI | TOKEN_EDI | TOKEN_ESP | TOKEN_EBP | TOKEN_RAX
| TOKEN_RBX | TOKEN_RCX | TOKEN_RDX | TOKEN_RSI | TOKEN_RDI | TOKEN_RSP | TOKEN_RBP
| TOKEN_R8 | TOKEN_R9 | TOKEN_R10 | TOKEN_R11 | TOKEN_R12 | TOKEN_R13 | TOKEN_R14
| TOKEN_R15 | TOKEN_ERROR | TOKEN_KIND_COUNT.

#[export] Instance TokenType_eq_dec : EqDecision TokenType.
Proof. solve_decision. Defined.

(** * Words *)

(** The bytes of a string literal. *)
Definition str (s : string) : list Z :=
  map (fun c => Z.of_nat (nat_of_ascii c)) (String.list_ascii_of_string s).

Definition LEX_WORD_MAXLEN : nat := 10.

Record LexWord := mkWord { word : list Z; type : TokenType }.

Definition g_lex_keywords : list LexWord :=
  map (fun p => mkWord (str (fst p)) (snd p)) [
    ("fn"%string, TOKEN_FN); ("if"%string, TOKEN_IF); ("asm"%string, TOKEN_ASM);
    ("for"%string, TOKEN_FOR); ("new"%string, TOKEN_NEW); ("var"%string, TOKEN_VAR);
    ("case"%string, TOKEN_CASE); ("else"%string, TOKEN_ELSE); ("enum"%string, TOKEN_ENUM);
    ("impl"%string, TOKEN_IMPL); ("int8"%string, TOKEN_INT8); ("this"%string, TOKEN_THIS);
    ("break"%string, TOKEN_BREAK); ("const"%string, TOKEN_CONST);
    ("defer"%string, TOKEN_DEFER); ("int16"%string, TOKEN_INT16);
    ("int32"%string, TOKEN_INT32); ("int64"%string, TOKEN_INT64);
    ("match"%string, TOKEN_MATCH); ("trait"%string, TOKEN_TRAIT);
    ("uint8"%string, TOKEN_UINT8); ("where"%string, TOKEN_WHERE);
    ("while"%string, TOKEN_WHILE); ("export"%string, TOKEN_EXPORT);
    ("extern"%string, TOKEN_EXTERN); ("import"%string, TOKEN_IMPORT);
    ("kernel"%string, TOKEN_KERNEL); ("method"%string, TOKEN_METHOD);
    ("return"%string, TOKEN_RETURN); ("string"%string, TOKEN_STRING_TYPE);
    ("struct"%string, TOKEN_STRUCT); ("switch"%string, TOKEN_SWITCH);
    ("uint16"%string, TOKEN_UINT16); ("uint32"%string, TOKEN_UINT32);
    ("uint64"%string, TOKEN_UINT64); ("barrier"%string, TOKEN_BARRIER);
    ("default"%string, TOKEN_DEFAULT); ("float32"%string, TOKEN_FLOAT32);
    ("float64"%string, TOKEN_FLOAT64); ("private"%string, TOKEN_PRIVATE);
    ("continue"%string, TOKEN_CONTINUE); ("dispatch"%string, TOKEN_DISPATCH);
    ("errdefer"%string, TOKEN_ERRDEFER); ("workgroup"%string, TOKEN_WORKGROUP);
    ("import_str"%string, TOKEN_IMPORT_STR) ].

Definition g_lex_keywords_span : list nat := [0; 0; 0; 2; 6; 12; 23; 35; 40; 43; 44; 45]%nat.

Definition g_lex_asm_words : list LexWord :=
  map (fun p => mkWord (str (fst p)) (snd p)) [
    ("je"%string, TOKEN_JE); ("jg"%string, TOKEN_JG); ("jl"%string, TOKEN_JL);
    ("r8"%string, TOKEN_R8); ("r9"%string, TOKEN_R9); ("add"%string, TOKEN_ADD);
    ("cmp"%string, TOKEN_CMP); ("dec"%string, TOKEN_DEC); ("div"%string, TOKEN_DIV);
    ("eax"%string, TOKEN_EAX); ("ebp"%string, TOKEN_EBP); ("ebx"%string, TOKEN_EBX);
    ("ecx"%string, TOKEN_ECX); ("edi"%string, TOKEN_EDI); ("edx"%string, TOKEN_EDX);
    ("esi"%string, TOKEN_ESI); ("esp"%string, TOKEN_ESP); ("inc"%string, TOKEN_INC);
    ("int"%string, TOKEN_INT); ("jge"%string, TOKEN_JGE); ("jle"%string, TOKEN_JLE);
    ("jmp"%string, TOKEN_JMP); ("jne"%string, TOKEN_JNE); ("lea"%string, TOKEN_LEA);
    ("mov"%string, TOKEN_MOV); ("mul"%string, TOKEN_MUL); ("nop"%string, TOKEN_NOP);
    ("pop"%string, TOKEN_POP); ("r10"%string, TOKEN_R10); ("r11"%string, TOKEN_R11);
    ("r12"%string, TOKEN_R12); ("r13"%string, TOKEN_R13); ("r14"%string, TOKEN_R14);
    ("r15"%string, TOKEN_R15); ("rax"%string, TOKEN_RAX); ("rbp"%string, TOKEN_RBP);
    ("rbx"%string, TOKEN_RBX); ("rcx"%string, TOKEN_RCX); ("rdi"%string, TOKEN_RDI);
    ("rdx"%string, TOKEN_RDX); ("ret"%string, TOKEN_RET); ("rsi"%string, TOKEN_RSI);
    ("rsp"%string, TOKEN_RSP); ("sub"%string, TOKEN_SUB); ("call"%string, TOKEN_CALL);
    ("idiv"%string, TOKEN_IDIV); ("imul"%string, TOKEN_IMUL); ("push"%string, TOKEN_PUSH);
    ("syscall"%string, TOKEN_SYSCALL) ].

Definition g_lex_asm_words_span : list nat := [0; 0; 0; 5; 44; 48; 48; 48; 49; 49; 49; 49]%nat.

(** * Character classes of the C locale *)

Definition in_range (a b c : Z) : bool := (a <=? c) && (c <=? b).
Definition isspace (c : Z) : bool := (c =? 32) || in_range 9 13 c.
Definition isdigit (c : Z) : bool := in_range 48 57 c.
Definition isxdigit (c : Z) : bool := isdigit c || in_range 65 70 c || in_range 97 102 c.
Definition isalpha (c : Z) : bool := in_range 65 90 c || in_range 97 122 c.
Definition isalnum (c : Z) : bool := isalpha c || isdigit c.
Definition tolower (c : Z) : Z := if in_range 65 90 c then c + 32 else c.

(** * Lookup *)

(** -1, 0 or 1 as the first [len] characters compare; a character past the
    end of a word is its NUL. *)
Fixpoint lex_word_cmp (len : nat) (input entry : list Z) (fold : bool) : Z :=
  match len with
  | O => 0
  | S len =>
      let a := if fold then tolower (hd 0 input) else hd 0 input in
      let b := hd 0 entry in
      if a =? b then lex_word_cmp len (tl input) (tl entry) fold
      else if a <? b then -1 else 1
  end.

(** [while (lo < hi)]: the interval shrinks in every round. *)
Fixpoint lookup_loop (fuel : nat) (table : list LexWord) (text : list Z) (len : nat) (fold : bool)
  (lo hi : nat) : outcome TokenType :=
  match fuel with
  | O => NoFuel
  | S fuel =>
      if (lo <? hi)%nat then
        let mid := (lo + (hi - lo) / 2)%nat in
        match table !! mid with
        | None => Undef
        | Some e =>
            let c := lex_word_cmp len text (word e) fold in
            if c =? 0 then Ret (type e)
            else if c <? 0 then lookup_loop fuel table text len fold lo mid
            else lookup_loop fuel table text len fold (S mid) hi
        end
      else Ret TOKEN_IDENTIFIER
  end.

Definition lex_lookup_word (table : list LexWord) (span : list nat) (text : list Z) (len : nat)
  (fold : bool) : outcome TokenType :=
  if (len =? 0)%nat || (LEX_WORD_MAXLEN <? len)%nat then Ret TOKEN_IDENTIFIER
  else
    match span !! len, span !! S len with
    | Some lo, Some hi => lookup_loop (S (hi - lo)) table text len fold lo hi
    | _, _ => Undef
    end.

Definition lexer_token_continues_line (t : TokenType) : bool :=
  match t with
  | TOKEN_PLUS | TOKEN_MINUS | TOKEN_DIVIDE | TOKEN_PERCENT | TOKEN_AMPERSAND | TOKEN_PIPE
  | TOKEN_CARET | TOKEN_LSHIFT | TOKEN_RSHIFT | TOKEN_AND_AND | TOKEN_OR_OR
  | TOKEN_EQUALS_EQUALS | TOKEN_NOT_EQUALS | TOKEN_LESS_THAN | TOKEN_LESS_EQUALS
  | TOKEN_GREATER_EQUALS | TOKEN_EQUALS | TOKEN_PLUS_EQUALS | TOKEN_MINUS_EQUALS
  | TOKEN_STAR_EQUALS | TOKEN_SLASH_EQUALS | TOKEN_PERCENT_EQUALS | TOKEN_AMP_EQUALS
  | TOKEN_PIPE_EQUALS | TOKEN_CARET_EQUALS | TOKEN_LSHIFT_EQUALS | TOKEN_RSHIFT_EQUALS
  | TOKEN_ARROW | TOKEN_DOT | TOKEN_DOT_DOT => true
  | _ => false
  end.

(** * The search finds what a scan of the whole table finds *)

Fixpoint linear_lookup (table : list LexWord) (w : list Z) : TokenType :=
  match table with
  | [] => TOKEN_IDENTIFIER
  | e :: table => if bool_decide (word e = w) then type e else linear_lookup table w
  end.

(** The text as it is compared: mnemonics are compared in lower case. *)
Definition folded (fold : bool) (text : list Z) : list Z := if fold then tolower <$> text else text.

Lemma folded_length fold text : length (folded fold text) = length text.
Proof. destruct fold; simpl; [apply length_fmap|done]. Qed.

(** ** Comparison *)

Lemma cmp_sign len a b f : lex_word_cmp len a b f = -1 \/ lex_word_cmp len a b f = 0 \/ lex_word_cmp len a b f = 1.
Proof.
  revert a b. induction len as [|len IH]; intros a b; [by right; left|]. cbn [lex_word_cmp].
  repeat case_match; auto.
Qed.

Lemma cmp_zero f a : forall b, length b = length a ->
  lex_word_cmp (length a) a b f = 0 <-> b = folded f a.
Proof.
  induction a as [|x a IH]; intros [|y b] Hl; try done; [by destruct f|].
  simpl in Hl. injection Hl as Hl. cbn [length lex_word_cmp hd tl]. specialize (IH b Hl).
  assert (folded f (x :: a) = (if f then tolower x else x) :: folded f a) as -> by by destruct f.
  destruct (_ =? y) eqn:E.
  - rewrite IH. apply Z.eqb_eq in E. rewrite E. split; [by intros ->|by intros [= ->]].
  - apply Z.eqb_neq in E. split; [intros H0; exfalso; revert H0; by destruct (_ <? _)|]. intros [= -> _]. done.
Qed.

Lemma cmp_less_trans f len : forall a b c, lex_word_cmp len a b f = -1 ->
  lex_word_cmp len b c false = -1 -> lex_word_cmp len a c f = -1.
Proof.
  induction len as [|len IH]; intros a b c; cbn [lex_word_cmp]; [done|].
  set (x := if f then _ else _). intros H1 H2.
  destruct (Z.eqb_spec x (hd 0 b)), (Z.eqb_spec (hd 0 b) (hd 0 c)), (Z.eqb_spec x (hd 0 c));
    try lia; eauto; repeat case_match; lia.
Qed.

Lemma cmp_greater_trans f len : forall a b c, lex_word_cmp len a b f = 1 ->
  lex_word_cmp len c b false = -1 -> lex_word_cmp len a c f = 1.
Proof.
  induction len as [|len IH]; intros a b c; cbn [lex_word_cmp]; [done|].
  set (x := if f then _ else _). intros H1 H2.
  destruct (Z.eqb_spec x (hd 0 b)), (Z.eqb_spec (hd 0 c) (hd 0 b)), (Z.eqb_spec x (hd 0 c));
    try lia; eauto; repeat case_match; lia.
Qed.

(** ** Tables *)

(** Words of one length are consecutive, at the place the span says, in
    strictly increasing order. *)
Record table_wf (table : list LexWord) (span : list nat) : Prop := {
  wf_span : forall len, (1 <= len <= LEX_WORD_MAXLEN)%nat -> exists lo hi,
    span !! len = Some lo /\ span !! S len = Some hi /\ (hi <= length table)%nat /\
    forall i e, table !! i = Some e -> (lo <= i < hi)%nat <-> length (word e) = len;
  wf_sorted : forall i j ei ej, (i < j)%nat -> table !! i = Some ei -> table !! j = Some ej ->
    length (word ei) = length (word ej) ->
    lex_word_cmp (length (word ei)) (word ei) (word ej) false = -1;
  wf_length : forall e, e ∈ table -> (1 <= length (word e) <= LEX_WORD_MAXLEN)%nat
}.

Definition span_checked (table : list LexWord) (span : list nat) (len : nat) : bool :=
  match span !! len, span !! S len with
  | Some lo, Some hi =>
      (hi <=? length table)%nat &&
      forallb (fun ie => eqb ((lo <=? fst ie)%nat && (fst ie <? hi)%nat) (length (word (snd ie)) =? len)%nat)
        (imap pair table)
  | _, _ => false
  end.

Definition sorted_checked (table : list LexWord) : bool :=
  forallb (fun x => forallb (fun y =>
    negb ((fst x <? fst y)%nat && (length (word (snd x)) =? length (word (snd y)))%nat) ||
    (lex_word_cmp (length (word (snd x))) (word (snd x)) (word (snd y)) false =? -1))
    (imap pair table)) (imap pair table).

Definition table_checked (table : list LexWord) (span : list nat) : bool :=
  forallb (span_checked table span) (seq 1 LEX_WORD_MAXLEN) && sorted_checked table &&
  forallb (fun e => (1 <=? length (word e))%nat && (length (word e) <=? LEX_WORD_MAXLEN)%nat) table.

Lemma forallb_imap_lookup {A} (l : list A) (p : nat * A -> bool) i x :
  forallb p (imap pair l) = true -> l !! i = Some x -> p (i, x) = true.
Proof.
  rewrite forallb_forall. intros H Hl. apply H, list_elem_of_In, list_elem_of_lookup.
  exists i. by rewrite list_lookup_imap, Hl.
Qed.

Lemma table_checked_wf table span : table_checked table span = true -> table_wf table span.
Proof.
  unfold table_checked. rewrite !andb_true_iff. intros [[H1 H2] H3]. split.
  - intros len Hlen. rewrite forallb_forall in H1. specialize (H1 len).
    rewrite in_seq in H1. specialize (H1 ltac:(lia)). unfold span_checked in H1.
    destruct (span !! len) as [lo|], (span !! S len) as [hi|]; try done.
    apply andb_true_iff in H1 as [Hhi H1]. exists lo, hi. apply Nat.leb_le in Hhi.
    do 3 (split; [done|]). intros i e He. pose proof (forallb_imap_lookup _ _ i e H1 He) as Hi.
    apply eqb_prop in Hi. simpl in Hi. rewrite <- Nat.eqb_eq, <- Hi, andb_true_iff, Nat.leb_le, Nat.ltb_lt. done.
  - intros i j ei ej Hij Hi Hj Hl.
    pose proof (forallb_imap_lookup _ _ i ei H2 Hi) as H.
    pose proof (forallb_imap_lookup _ _ j ej H Hj) as H'. simpl in H'.
    rewrite (proj2 (Nat.ltb_lt i j) Hij), Hl, Nat.eqb_refl in H'.
    rewrite Hl. by apply Z.eqb_eq.
  - intros e He. rewrite forallb_forall in H3. apply list_elem_of_In in He. specialize (H3 e He).
    by rewrite andb_true_iff, !Nat.leb_le in H3.
Qed.

Lemma linear_lookup_hit table w i e : table !! i = Some e -> word e = w ->
  (forall j e', table !! j = Some e' -> word e' = w -> j = i) -> linear_lookup table w = type e.
Proof.
  revert i. induction table as [|e0 table IH]; intros i Hi Hw Hu; [done|]. cbn [linear_lookup].
  case_bool_decide as H.
  - specialize (Hu O e0 eq_refl H). subst i. by injection Hi as ->.
  - destruct i as [|i]; [naive_solver|]. apply (IH i); [done..|].
    intros j e' Hj He'. specialize (Hu (S j) e' Hj He'). lia.
Qed.

Lemma linear_lookup_miss table w : (forall e, e ∈ table -> word e <> w) ->
  linear_lookup table w = TOKEN_IDENTIFIER.
Proof.
  induction table as [|e0 table IH]; intros H; [done|]. cbn [linear_lookup].
  rewrite bool_decide_eq_false_2 by (apply H; left). apply IH. intros e He. apply H. by right.
Qed.

Section search.
Context (table : list LexWord) (span : list nat) (Hwf : table_wf table span).
Context (text : list Z) (fold : bool).
Let len := length text.
Let cmp e := lex_word_cmp len text (word e) fold.

Lemma lookup_loop_correct fuel : forall lo hi, (hi - lo < fuel)%nat -> (hi <= length table)%nat ->
  (forall i e, table !! i = Some e -> (lo <= i < hi)%nat -> length (word e) = len) ->
  (forall i e, table !! i = Some e -> length (word e) = len -> (i < lo)%nat -> cmp e = 1) ->
  (forall i e, table !! i = Some e -> length (word e) = len -> (hi <= i)%nat -> cmp e = -1) ->
  lookup_loop fuel table text len fold lo hi = Ret (linear_lookup table (folded fold text)).
Proof using Hwf.
  induction fuel as [|fuel IH]; intros lo hi Hf Hhi Hlen Hlo Hge; [lia|]. cbn [lookup_loop].
  destruct (Nat.ltb_spec lo hi).
  - set (mid := (lo + (hi - lo) / 2)%nat).
    assert (lo <= mid < hi)%nat as Hm
      by (subst mid; pose proof (Nat.div_lt (hi - lo) 2); lia).
    destruct (lookup_lt_is_Some_2 table mid) as [e He]; [lia|]. rewrite He.
    pose proof (Hlen mid e He Hm) as Hle. change (lex_word_cmp len text (word e) fold) with (cmp e).
    destruct (cmp_sign len text (word e) fold) as [Hc|[Hc|Hc]]; fold (cmp e) in Hc; rewrite Hc; simpl.
    + apply IH; [lia|lia| |done|].
      * intros i e' Hi Hr. apply (Hlen i); [done|lia].
      * intros i e' Hi Hl Hr. destruct (decide (i = mid)) as [->|Hne]; [naive_solver|].
        apply (cmp_less_trans fold len text (word e)); [done|].
        rewrite <- Hle. apply (wf_sorted _ _ Hwf mid i); [lia|done|done|congruence].
    + f_equal. symmetry. apply (linear_lookup_hit _ _ mid e He); [by apply cmp_zero|].
      intros j e' Hj Hw. assert (length (word e') = len) as Hl by (by rewrite Hw, folded_length).
      assert (cmp e' = 0) as Hz by (by apply cmp_zero).
      destruct (Nat.lt_trichotomy j mid) as [Hlt|[?|Hlt]]; [|done|]; exfalso.
      * pose proof (wf_sorted _ _ Hwf j mid e' e Hlt Hj He ltac:(congruence)) as Hs.
        apply cmp_zero in Hc; [|done]. rewrite Hw, <- Hc in Hs.
        rewrite (proj2 (cmp_zero false (word e) (word e) eq_refl)) in Hs; done.
      * pose proof (wf_sorted _ _ Hwf mid j e e' Hlt He Hj ltac:(congruence)) as Hs.
        apply cmp_zero in Hc; [|done]. rewrite Hw, <- Hc in Hs.
        rewrite (proj2 (cmp_zero false (word e) (word e) eq_refl)) in Hs; done.
    + apply IH; [lia|lia| | |done].
      * intros i e' Hi Hr. apply (Hlen i); [done|lia].
      * intros i e' Hi Hl Hr. destruct (decide (i = mid)) as [->|Hne]; [naive_solver|].
        apply (cmp_greater_trans fold len text (word e)); [done|].
        rewrite <- Hl. apply (wf_sorted _ _ Hwf i mid); [lia|done|done|congruence].
  - f_equal. symmetry. apply linear_lookup_miss. intros e [i Hi]%list_elem_of_lookup Hw.
    assert (length (word e) = len) as Hl by (by rewrite Hw, folded_length).
    assert (cmp e = 0) as Hz by (by apply cmp_zero).
    destruct (Nat.lt_ge_cases i lo); [rewrite (Hlo i e) in Hz by done; lia|].
    rewrite (Hge i e) in Hz by (done || lia). lia.
Qed.

Lemma lex_lookup_word_correct :
  lex_lookup_word table span text len fold = Ret (linear_lookup table (folded fold text)).
Proof using Hwf.
  unfold lex_lookup_word. destruct (_ || _) eqn:E.
  - f_equal. symmetry. apply linear_lookup_miss. intros e He Hw.
    pose proof (wf_length _ _ Hwf e He) as Hl. rewrite Hw, folded_length in Hl.
    fold len in Hl. apply orb_true_iff in E as [E%Nat.eqb_eq|E%Nat.ltb_lt]; lia.
  - apply orb_false_iff in E as [E1%Nat.eqb_neq E2%Nat.ltb_ge].
    destruct (wf_span _ _ Hwf len) as (lo & hi & -> & -> & Hhi & Hr); [lia|].
    apply lookup_loop_correct; [lia|done| | |].
    + intros i e He Hi. by apply (Hr i).
    + intros i e He Hl Hi. apply (Hr i) in Hl; [lia|done].
    + intros i e He Hl Hi. apply (Hr i) in Hl; [lia|done].
Qed.
End search.

Lemma keywords_wf : table_wf g_lex_keywords g_lex_keywords_span.
Proof. apply table_checked_wf. vm_compute. reflexivity. Qed.

Lemma asm_words_wf : table_wf g_lex_asm_words g_lex_asm_words_span.
Proof. apply table_checked_wf. vm_compute. reflexivity. Qed.

(** For every spelling, the binary search of [lex_lookup_word] returns
    what a scan of the whole table returns: the keyword with exactly that
    spelling, the assembler word with that spelling up to case, and
    [TOKEN_IDENTIFIER] when there is none; no table access is out of range. *)
Lemma lex_lookup_word_is_scan (text : list Z) :
  lex_lookup_word g_lex_keywords g_lex_keywords_span text (length text) false =
    Ret (linear_lookup g_lex_keywords text) /\
  lex_lookup_word g_lex_asm_words g_lex_asm_words_span text (length text) true =
    Ret (linear_lookup g_lex_asm_words (tolower <$> text)).
Proof.
  split; [exact (lex_lookup_word_correct _ _ keywords_wf text false)|
          exact (lex_lookup_word_correct _ _ asm_words_wf text true)].
Qed.
End Tokens.
