(* ===== verification/Lexer.v ===== *)
(** The lexer: src/src/lexer/lexer.c, lines 29 to 56 and 231 to 1307.

    A source text is scanned one token at a time; comments are skipped by
    re-entering the scanner, newlines are tokens unless a bracket or a
    trailing operator continues the line, and string literals are read in a
    first pass that follows interpolation braces and, when that pass runs off
    the end of the text, in a second one that does not.  Strings reach the
    lexer through the interface [Interner].

    The source is the list of its bytes before the terminating NUL, so a
    character is a number from 0 to 255 and the character classes are those
    of the C locale.  Positions, lines and columns are natural numbers: they
    are bounded by the length of a text held in memory. *)
From Stdlib Require Import String Ascii.
From stdpp Require Import gmap pretty.
From S2P Require Import Prelude StringIntern LexTokens.
#[local] Open Scope Z_scope.
#[local] Open Scope list_scope.

Module Lexer.
Import Tokens.
Import Intern(Interner, intern_op, intern_inv, intern_map, intern_inv_mono, intern_op_spec, until_nul).

(** * Data *)

(** What [char *value] points to: nothing, a string literal of the lexer, an
    interned string, or a block of its own with these bytes and a NUL. *)
Inductive token_value := VNull | VStatic (l : list Z) | VInterned (p : Z) | VOwned (l : list Z).

(** What [const char *data] points to: nothing, a place of the source text,
    or the token's own value. *)
Inductive view_data := DNull | DSource (off : nat) | DValue.

Record StringView := mkView { data : view_data; vlength : nat }.

Record Token := mkToken {
  ttype : TokenType;
  value : token_value;
  lexeme : StringView;
  tline : nat;
  tcolumn : nat;
  is_interned : bool
}.

(** An error message, as the arguments it is formatted from: line, column and text. *)
Definition message : Type := nat * nat * list Z.

Record Lexer := mkLexer {
  source : list Z;
  position : nat;
  line : nat;
  column : nat;
  length : nat;
  error_message : option message;
  has_error : bool;
  continuation_depth : nat;
  last_significant : TokenType
}.

(** The code of a character constant. *)
Definition ch (c : ascii) : Z := Z.of_nat (nat_of_ascii c).
#[global] Arguments ch c%_char_scope.

(** [source[i]]; the terminating NUL is read as 0. *)
Definition at_ (lx : Lexer) (i : nat) : Z := default 0 (source lx !! i).

(** [source[position]] and the test of a character further on. *)
Definition current (lx : Lexer) : Z := at_ lx (position lx).
Definition next_is (lx : Lexer) (k : nat) (c : ascii) : bool :=
  (position lx + k <? length lx)%nat && (at_ lx (position lx + k) =? ch c).

Definition with_position (p l c : nat) (lx : Lexer) : Lexer :=
  mkLexer (source lx) p l c (length lx) (error_message lx) (has_error lx)
    (continuation_depth lx) (last_significant lx).
Definition with_error (m : option message) (e : bool) (lx : Lexer) : Lexer :=
  mkLexer (source lx) (position lx) (line lx) (column lx) (length lx) m e
    (continuation_depth lx) (last_significant lx).
Definition with_depth (d : nat) (lx : Lexer) : Lexer :=
  mkLexer (source lx) (position lx) (line lx) (column lx) (length lx) (error_message lx)
    (has_error lx) d (last_significant lx).
Definition with_last (t : TokenType) (lx : Lexer) : Lexer :=
  mkLexer (source lx) (position lx) (line lx) (column lx) (length lx) (error_message lx)
    (has_error lx) (continuation_depth lx) t.

(** [position += n; column += n]. *)
Definition advance (n : nat) (lx : Lexer) : Lexer :=
  with_position (position lx + n) (line lx) (column lx + n) lx.

(** [position++; line++; column = 1]. *)
Definition next_line (lx : Lexer) : Lexer := with_position (S (position lx)) (S (line lx)) 1 lx.

(** [Token token = {TOKEN_EOF, NULL, {NULL, 0}, lexer->line, lexer->column, 0}]. *)
Definition blank (l c : nat) : Token := mkToken TOKEN_EOF VNull (mkView DNull 0) l c false.

Definition set_type (ty : TokenType) (t : Token) : Token :=
  mkToken ty (value t) (lexeme t) (tline t) (tcolumn t) (is_interned t).
Definition set_value (v : token_value) (t : Token) : Token :=
  mkToken (ttype t) v (lexeme t) (tline t) (tcolumn t) (is_interned t).

Definition token_set_lexeme (d : view_data) (len : nat) (t : Token) : Token :=
  mkToken (ttype t) (value t) (mkView d len) (tline t) (tcolumn t) (is_interned t).

Definition token_set_static_value (literal : list Z) (t : Token) : Token :=
  mkToken (ttype t) (VStatic literal) (lexeme t) (tline t) (tcolumn t) true.

(** [g_single_char_strings[(unsigned char)c]] is the string of that one character. *)
Definition token_set_single_char_value (c : Z) (t : Token) : Token :=
  token_set_static_value [u8 c] t.

(** * The allocator and the error state *)

Section lexer.
Context {T : Type} {IT : Interner T}.

(** The lexer with what it shares with the rest of the program. *)
Record env := mkEnv { lx : Lexer; table : T; mem : heap }.

Definition on_lx (f : Lexer -> Lexer) (s : env) : env := mkEnv (f (lx s)) (table s) (mem s).
Definition env_alloc (s : env) : bool * env :=
  let (ok, h) := alloc (mem s) in (ok, mkEnv (lx s) (table s) h).

Definition strdup (m : list Z) (s : env) : token_value * env :=
  let (ok, s) := env_alloc s in (if ok then VOwned m else VNull, s).

(** The message is the string behind a token value. *)
Definition lexer_set_error (m : option (list Z)) (s : env) : env :=
  match m with
  | Some m =>
      let (ok, s) := env_alloc s in
      let msg := if ok then Some (line (lx s), column (lx s), m) else None in
      on_lx (with_error msg true) s
  | None => on_lx (with_error None false) s
  end.

(** [token.type = TOKEN_ERROR; token.value = strdup(m);
    lexer_set_error(lexer, token.value); return token;] *)
Definition fail_with (m : list Z) (t : Token) (s : env) : Token * env :=
  let (v, s) := strdup m s in
  let s := lexer_set_error (match v with VOwned m => Some m | _ => None end) s in
  (set_value v (set_type TOKEN_ERROR t), s).

(** * Loops *)

(** [while (position < length && p(position)) { position++; column++; }] *)
Fixpoint advance_while (fuel : nat) (p : Lexer -> bool) (lx : Lexer) : outcome Lexer :=
  match fuel with
  | O => NoFuel
  | S fuel =>
      if (position lx <? length lx)%nat && p lx then advance_while fuel p (advance 1 lx) else Ret lx
  end.

(** Enough rounds for a loop that consumes a character in each. *)
Definition remaining (lx : Lexer) : nat := S (length lx - position lx).

Definition skip_line_comment (lx : Lexer) : outcome Lexer :=
  let lx := advance 2 lx in
  advance_while (remaining lx) (fun lx => negb (current lx =? 10)) lx.

(** The loop of a block comment; comments nest. *)
Fixpoint block_loop (fuel : nat) (depth : nat) (lx : Lexer) : outcome (nat * Lexer) :=
  match fuel with
  | O => NoFuel
  | S fuel =>
      if (position lx <? length lx)%nat && (0 <? depth)%nat then
        let c := current lx in
        if (c =? ch "/") && next_is lx 1 "*" then block_loop fuel (depth + 1) (advance 2 lx)
        else if (c =? ch "*") && next_is lx 1 "/" then block_loop fuel (depth - 1) (advance 2 lx)
        else if c =? 10 then block_loop fuel depth (next_line lx)
        else block_loop fuel depth (advance 1 lx)
      else Ret (depth, lx)
  end.

(** The part of [lexer_skip_block_comment] before the scanner is re-entered:
    the error token of a comment that does not end, or nothing. *)
Definition skip_block_comment (s : env) : outcome (option Token * env) :=
  let t := blank (line (lx s)) (column (lx s)) in
  let l := advance 2 (lx s) in
  let! (depth, l) := block_loop (remaining l) 1 l in
  let s := on_lx (fun _ => l) s in
  if negb (depth =? 0)%nat then
    let (t, s) := fail_with (str "Unterminated block comment") t s in Ret (Some t, s)
  else Ret (None, s).

(** * Character literals *)

(** The character an escape in a character literal stands for. *)
Definition char_escape (c : Z) : option Z :=
  if c =? ch "n" then Some 10
  else if c =? ch "t" then Some 9
  else if c =? ch "r" then Some 13
  else if c =? 92 then Some 92
  else if c =? 39 then Some 39
  else if c =? ch "0" then Some 0
  else None.

(** The code of the literal's character, or the message of the error; the
    position is left on the character. *)
Definition char_value (lx : Lexer) : (Z + list Z) * Lexer :=
  if (length lx <=? position lx)%nat then (inr (str "Unterminated character literal"), lx)
  else
    let c := current lx in
    if c =? 92 then
      let lx := advance 1 lx in
      if (length lx <=? position lx)%nat then (inr (str "Unterminated character literal"), lx)
      else
        match char_escape (current lx) with
        | Some v => (inl v, lx)
        | None => (inr (str "Invalid character escape sequence"), lx)
        end
    else if (c =? 10) || (c =? 13) then (inr (str "Unterminated character literal"), lx)
    else (inl (u8 c), lx).

Definition lexer_lex_char_literal (s : env) : Token * env :=
  let t := blank (line (lx s)) (column (lx s)) in
  let literal_start := position (lx s) in
  let (r, l) := char_value (advance 1 (lx s)) in
  let s := on_lx (fun _ => l) s in
  match r with
  | inr m => fail_with m t s
  | inl v =>
      let s := on_lx (advance 1) s in
      if (length (lx s) <=? position (lx s))%nat || negb (current (lx s) =? 39) then
        fail_with (str "Character literal must contain exactly one character") t s
      else
        let s := on_lx (advance 1) s in
        let t := set_type TOKEN_NUMBER t in
        let (ok, s) := env_alloc s in
        if negb ok then fail_with (str "Memory allocation failed") t s
        else
          let t := set_value (VOwned (str (pretty v))) t in
          (token_set_lexeme (DSource literal_start) (position (lx s) - literal_start) t, s)
  end.

(** * Numbers *)

(** A digit, or a dot that does not begin a [..]. *)
Definition decimal_char (lx : Lexer) : bool :=
  isdigit (current lx) || ((current lx =? ch ".") && negb (next_is lx 1 ".")).

(** Where the digits of an exponent are expected: after the [e] and a sign. *)
Definition exponent_peek (lx : Lexer) : nat :=
  let peek := (position lx + 1)%nat in
  if (peek <? length lx)%nat && ((at_ lx peek =? ch "+") || (at_ lx peek =? ch "-"))
  then (peek + 1)%nat else peek.

(** The exponent: [e], a sign and digits; nothing is consumed without digits. *)
Definition exponent (lx : Lexer) : outcome Lexer :=
  if (position lx <? length lx)%nat && ((current lx =? ch "e") || (current lx =? ch "E")) then
    let peek := exponent_peek lx in
    if (peek <? length lx)%nat && isdigit (at_ lx peek) then
      let lx := advance (peek - position lx) lx in
      advance_while (remaining lx) (fun lx => isdigit (current lx)) lx
    else Ret lx
  else Ret lx.

(** The characters of a number; [None] with the message of a malformed one. *)
Definition number_chars (lx : Lexer) : outcome (option (list Z) * Lexer) :=
  if (current lx =? ch "0") && (next_is lx 1 "x" || next_is lx 1 "X") then
    let lx := advance 2 lx in
    let digits_start := position lx in
    let! lx := advance_while (remaining lx) (fun lx => isxdigit (current lx)) lx in
    Ret (if (position lx =? digits_start)%nat then Some (str "Invalid hexadecimal literal") else None, lx)
  else if (current lx =? ch "0") && (next_is lx 1 "b" || next_is lx 1 "B") then
    let lx := advance 2 lx in
    let digits_start := position lx in
    let! lx := advance_while (remaining lx)
                 (fun lx => (current lx =? ch "0") || (current lx =? ch "1")) lx in
    Ret (if (position lx =? digits_start)%nat then Some (str "Invalid binary literal") else None, lx)
  else
    let! lx := advance_while (remaining lx) decimal_char lx in
    let! lx := exponent lx in
    Ret (None, lx).

(** The bytes of the source from [start], [len] of them. *)
Definition slice (lx : Lexer) (start len : nat) : list Z := take len (drop start (source lx)).

Definition lexer_lex_number (s : env) : outcome (Token * env) :=
  let t := blank (line (lx s)) (column (lx s)) in
  let start := position (lx s) in
  let! (err, l) := number_chars (lx s) in
  let s := on_lx (fun _ => l) s in
  match err with
  | Some m => Ret (fail_with m t s)
  | None =>
      let len := (position (lx s) - start)%nat in
      let t := set_type TOKEN_NUMBER t in
      let (ok, s) := env_alloc s in
      if negb ok then Ret (fail_with (str "Memory allocation failed") t s)
      else
        let t := set_value (VOwned (slice (lx s) start len)) t in
        Ret (token_set_lexeme (DSource start) len t, s)
  end.

(** * Identifiers and keywords *)

Definition ident_char (c : Z) : bool := isalnum c || (c =? ch "_").

(** The spelling passed to the lookups is the interned copy's. *)
Definition lexer_lex_identifier_or_keyword (s : env) : outcome (Token * env) :=
  let t := blank (line (lx s)) (column (lx s)) in
  let start := position (lx s) in
  let! l := advance_while (remaining (lx s)) (fun lx => ident_char (current lx)) (lx s) in
  let s := on_lx (fun _ => l) s in
  let len := (position (lx s) - start)%nat in
  let text := slice (lx s) start len in
  let '(p, tb, h) := intern_op text (table s) (mem s) in
  let s := mkEnv (lx s) tb h in
  match p with
  | None => Ret (fail_with (str "Memory allocation failed") t s)
  | Some p =>
      let t := mkToken (ttype t) (VInterned p) (mkView (DSource start) len) (tline t) (tcolumn t) true in
      let! ty := lex_lookup_word g_lex_keywords g_lex_keywords_span text len false in
      if bool_decide (ty = TOKEN_IDENTIFIER) then
        let! ty := lex_lookup_word g_lex_asm_words g_lex_asm_words_span text len true in
        Ret (set_type ty t, s)
      else Ret (set_type ty t, s)
  end.

(** * String literals *)

Definition string_escape (c : Z) : option Z :=
  if c =? ch "n" then Some 10
  else if c =? ch "t" then Some 9
  else if c =? ch "r" then Some 13
  else if c =? 92 then Some 92
  else if c =? 34 then Some 34
  else if c =? ch "0" then Some 0
  else None.

(** [buffer[buffer_pos++] = c] in a block of [cap] bytes: the bytes written
    so far are kept in order. *)
Definition push (cap : nat) (c : Z) (buffer : list Z) : outcome (list Z) :=
  if (List.length buffer <? cap)%nat then Ret (buffer ++ [c]) else Undef.

Record body_state := mkBody {
  buf : list Z;
  depth : nat;
  in_nested : bool;
  bad_escape : Z
}.

(** How the depth of braces and the nested quotes change on an ordinary character. *)
Definition interpolate (c : Z) (b : body_state) : body_state :=
  if (0 <? depth b)%nat && (c =? 34) then mkBody (buf b) (depth b) (negb (in_nested b)) (bad_escape b)
  else if negb (in_nested b) then
    if c =? ch "{" then mkBody (buf b) (depth b + 1) (in_nested b) (bad_escape b)
    else if (c =? ch "}") && (0 <? depth b)%nat then
      mkBody (buf b) (depth b - 1) (in_nested b) (bad_escape b)
    else b
  else b.

Definition with_buf (l : list Z) (b : body_state) : body_state :=
  mkBody l (depth b) (in_nested b) (bad_escape b).

Fixpoint body_loop (fuel cap : nat) (aware : bool) (b : body_state) (lx : Lexer) :
  outcome (body_state * Lexer) :=
  match fuel with
  | O => NoFuel
  | S fuel =>
      if (position lx <? length lx)%nat then
        let c := current lx in
        if (c =? 34) && negb (aware && (0 <? depth b)%nat) then Ret (b, lx)
        else if (c =? 92) && (position lx + 1 <? length lx)%nat then
          let lx := advance 1 lx in
          let escape_char := current lx in
          match string_escape escape_char with
          | Some v =>
              let! l := push cap v (buf b) in
              body_loop fuel cap aware (with_buf l b) (advance 1 lx)
          | None =>
              let bad := if bad_escape b =? 0 then u8 escape_char else bad_escape b in
              let! l := push cap 92 (buf b) in
              let! l := push cap escape_char l in
              body_loop fuel cap aware (mkBody l (depth b) (in_nested b) bad) (advance 1 lx)
          end
        else if aware && (negb (in_nested b) && (depth b =? 0)%nat && (c =? ch "{") && next_is lx 1 "{") then
          let! l := push cap (ch "{") (buf b) in
          let! l := push cap (ch "{") l in
          body_loop fuel cap aware (with_buf l b) (advance 2 lx)
        else
          let b := if aware then interpolate c b else b in
          let! l := push cap c (buf b) in
          body_loop fuel cap aware (with_buf l b) (advance 1 lx)
      else Ret (b, lx)
  end.

(** The result: did the body end at a quote, its bytes, the first bad escape. *)
Definition lexer_read_string_body (cap : nat) (aware : bool) (lx : Lexer) :
  outcome (bool * list Z * Z * Lexer) :=
  let! (b, lx) := body_loop (remaining lx) cap aware (mkBody [] 0 false 0) lx in
  Ret ((position lx <? length lx)%nat, buf b, bad_escape b, lx).

Definition lexer_lex_string_literal (s : env) : outcome (Token * env) :=
  let t := blank (line (lx s)) (column (lx s)) in
  let s := on_lx (advance 1) s in
  let buffer_size := (length (lx s) - position (lx s))%nat in
  let (ok, s) := env_alloc s in
  if negb ok then Ret (fail_with (str "Memory allocation failed") t s)
  else
    let cap := (buffer_size + 1)%nat in
    let body_position := position (lx s) in
    let body_column := column (lx s) in
    let! (closed, buffer, bad, l) := lexer_read_string_body cap true (lx s) in
    let! (buffer, bad, l) :=
      (if closed : bool then Ret (buffer, bad, l)
       else
         let l := with_position body_position (line l) body_column l in
         let! (_, buffer, bad, l) := lexer_read_string_body cap false l in
         Ret (buffer, bad, l)) in
    let s := on_lx (fun _ => l) s in
    if (length (lx s) <=? position (lx s))%nat then Ret (fail_with (str "Unterminated string literal") t s)
    else if negb (bad =? 0) then
      Ret (fail_with (str "Invalid string escape sequence") t (on_lx (advance 1) s))
    else
      let! _ := push cap 0 buffer in
      let t := set_value (VOwned buffer) (set_type TOKEN_STRING t) in
      let t := token_set_lexeme DValue (List.length buffer) t in
      Ret (t, on_lx (advance 1) s).

(** * The scanner *)

(** [while (position < length && isspace(...))]: a newline is skipped when the
    line continues, and otherwise ends the loop as a token. *)
Fixpoint skip_space (fuel : nat) (lx : Lexer) : outcome (bool * Lexer) :=
  match fuel with
  | O => NoFuel
  | S fuel =>
      if (position lx <? length lx)%nat && isspace (current lx) then
        if current lx =? 10 then
          if (0 <? continuation_depth lx)%nat || lexer_token_continues_line (last_significant lx)
          then skip_space fuel (next_line lx)
          else Ret (true, lx)
        else skip_space fuel (advance 1 lx)
      else Ret (false, lx)
  end.

(** How the switch on the current character ends: [break] with a token type
    and a continuation depth, [return] of a longer operator with its
    spelling, or [default]. *)
Inductive switch_end :=
| SwBreak (t : TokenType) (depth : nat)
| SwReturn (t : TokenType) (spelling : list Z)
| SwDefault.

(** The cases from [+] on. *)
Definition scan_switch_arith (lx : Lexer) (c : Z) : switch_end :=
  let d := continuation_depth lx in
  if c =? ch "+" then
    if next_is lx 1 "=" then SwReturn TOKEN_PLUS_EQUALS (str "+=")
    else if next_is lx 1 "+" then SwReturn TOKEN_PLUS_PLUS (str "++") else SwBreak TOKEN_PLUS d
  else if c =? ch "*" then
    if next_is lx 1 "=" then SwReturn TOKEN_STAR_EQUALS (str "*=") else SwBreak TOKEN_MULTIPLY d
  else if c =? ch "&" then
    if next_is lx 1 "&" then SwReturn TOKEN_AND_AND (str "&&")
    else if next_is lx 1 "=" then SwReturn TOKEN_AMP_EQUALS (str "&=") else SwBreak TOKEN_AMPERSAND d
  else if c =? ch "|" then
    if next_is lx 1 "|" then SwReturn TOKEN_OR_OR (str "||")
    else if next_is lx 1 "=" then SwReturn TOKEN_PIPE_EQUALS (str "|=") else SwBreak TOKEN_PIPE d
  else if c =? ch "^" then
    if next_is lx 1 "=" then SwReturn TOKEN_CARET_EQUALS (str "^=") else SwBreak TOKEN_CARET d
  else if c =? ch "~" then SwBreak TOKEN_TILDE d
  else if c =? ch "/" then
    if next_is lx 1 "=" then SwReturn TOKEN_SLASH_EQUALS (str "/=") else SwBreak TOKEN_DIVIDE d
  else if c =? ch "%" then
    if next_is lx 1 "=" then SwReturn TOKEN_PERCENT_EQUALS (str "%=") else SwBreak TOKEN_PERCENT d
  else if c =? ch "." then
    if next_is lx 1 "." then SwReturn TOKEN_DOT_DOT (str "..") else SwBreak TOKEN_DOT d
  else SwDefault.

Definition scan_switch (lx : Lexer) (c : Z) : switch_end :=
  let d := continuation_depth lx in
  if c =? ch ":" then SwBreak TOKEN_COLON d
  else if c =? ch ";" then SwBreak TOKEN_SEMICOLON d
  else if c =? ch "@" then SwBreak TOKEN_AT d
  else if c =? ch "," then SwBreak TOKEN_COMMA d
  else if c =? ch "=" then
    if next_is lx 1 "=" then SwReturn TOKEN_EQUALS_EQUALS (str "==") else SwBreak TOKEN_EQUALS d
  else if c =? ch "!" then
    if next_is lx 1 "=" then SwReturn TOKEN_NOT_EQUALS (str "!=") else SwBreak TOKEN_NOT d
  else if c =? ch "<" then
    if next_is lx 1 "=" then SwReturn TOKEN_LESS_EQUALS (str "<=")
    else if next_is lx 1 "<" then
      if next_is lx 2 "=" then SwReturn TOKEN_LSHIFT_EQUALS (str "<<=") else SwReturn TOKEN_LSHIFT (str "<<")
    else SwBreak TOKEN_LESS_THAN d
  else if c =? ch ">" then
    if next_is lx 1 "=" then SwReturn TOKEN_GREATER_EQUALS (str ">=")
    else if next_is lx 1 ">" then
      if next_is lx 2 "=" then SwReturn TOKEN_RSHIFT_EQUALS (str ">>=") else SwReturn TOKEN_RSHIFT (str ">>")
    else SwBreak TOKEN_GREATER_THAN d
  else if c =? ch "(" then SwBreak TOKEN_LPAREN (d + 1)
  else if c =? ch ")" then SwBreak TOKEN_RPAREN (if (0 <? d)%nat then d - 1 else d)
  else if c =? ch "{" then SwBreak TOKEN_LBRACE d
  else if c =? ch "}" then SwBreak TOKEN_RBRACE d
  else if c =? ch "[" then SwBreak TOKEN_LBRACKET (d + 1)
  else if c =? ch "]" then SwBreak TOKEN_RBRACKET (if (0 <? d)%nat then d - 1 else d)
  else scan_switch_arith lx c.

(** An operator token: type, static spelling, lexeme, position and column. *)
Definition operator (ty : TokenType) (spelling : list Z) (t : Token) (s : env) : Token * env :=
  let n := List.length spelling in
  (token_set_lexeme (DSource (position (lx s))) n (token_set_static_value spelling (set_type ty t)),
   on_lx (advance n) s).

Definition one_char (ty : TokenType) (c : Z) (t : Token) (s : env) : Token * env :=
  (token_set_lexeme (DSource (position (lx s))) 1 (token_set_single_char_value c (set_type ty t)),
   on_lx (advance 1) s).

(** The last resort; [strlen(token.value)] of a null value is undefined. *)
Definition unknown_char (c : Z) (t : Token) (s : env) : outcome (Token * env) :=
  let t := set_type TOKEN_ERROR t in
  let (ok, s) := env_alloc s in
  if ok then
    let m := str "Unknown character: " ++ [c] in
    let s := lexer_set_error (Some m) s in
    Ret (token_set_lexeme (DSource (position (lx s))) 1 (set_value (VOwned m) t), on_lx (advance 1) s)
  else
    let m := str "Unknown character" in
    let (v, s) := strdup m s in
    let s := lexer_set_error (Some m) s in
    match v with
    | VOwned v => Ret (token_set_lexeme DValue (List.length v) (set_value (VOwned v) t), on_lx (advance 1) s)
    | _ => Undef
    end.

(** The scanner after the switch, on a character it does not know. *)
Definition scan_rest (c : Z) (t : Token) (s : env) : outcome (Token * env) :=
  if (c =? ch "-") && next_is (lx s) 1 ">" then Ret (operator TOKEN_ARROW (str "->") t s)
  else if (c =? ch "-") && next_is (lx s) 1 "-" then Ret (operator TOKEN_MINUS_MINUS (str "--") t s)
  else if (c =? ch "-") && next_is (lx s) 1 "=" then Ret (operator TOKEN_MINUS_EQUALS (str "-=") t s)
  else if c =? ch "-" then Ret (one_char TOKEN_MINUS c t s)
  else if c =? 39 then Ret (lexer_lex_char_literal s)
  else if isdigit c ||
          ((c =? ch "0") && (next_is (lx s) 1 "x" || next_is (lx s) 1 "X" ||
                             next_is (lx s) 1 "b" || next_is (lx s) 1 "B"))
  then lexer_lex_number s
  else if isalpha c || (c =? ch "_") then lexer_lex_identifier_or_keyword s
  else if c =? 34 then lexer_lex_string_literal s
  else unknown_char c t s.

Definition scan_symbol (c : Z) (t : Token) (s : env) : outcome (Token * env) :=
  match scan_switch (lx s) c with
  | SwReturn ty spelling => Ret (operator ty spelling t s)
  | SwBreak ty d => Ret (one_char ty c t (on_lx (with_depth d) s))
  | SwDefault => scan_rest c t s
  end.

(** What a scan comes to: a token, or a comment after which the scanner is
    entered again. *)
Inductive scanned := Done (t : Token) | Again.

Definition lexer_scan_token (s : env) : outcome (scanned * env) :=
  let t := blank (line (lx s)) (column (lx s)) in
  let! (newline, l) := skip_space (remaining (lx s)) (lx s) in
  let s := on_lx (fun _ => l) s in
  if newline : bool then
    Ret (Done (token_set_lexeme (DSource (position l)) 1 (set_value VNull (set_type TOKEN_NEWLINE t))),
         on_lx next_line s)
  else if (length l <=? position l)%nat then Ret (Done t, s)
  else
    let c := current l in
    let t := blank (line l) (column l) in
    if (c =? ch "/") && next_is l 1 "/" then
      let! l := skip_line_comment l in Ret (Again, on_lx (fun _ => l) s)
    else if (c =? ch "/") && next_is l 1 "*" then
      let! (r, s) := skip_block_comment s in
      Ret (match r with Some t => Done t | None => Again end, s)
    else let! (t, s) := scan_symbol c t s in Ret (Done t, s).

(** [lexer_next_token]; the comment skippers end in a call of it, so the
    fuel bounds the number of comments. *)
Fixpoint next_token (fuel : nat) (s : env) : outcome (Token * env) :=
  match fuel with
  | O => NoFuel
  | S fuel =>
      let! (r, s) := lexer_scan_token s in
      let! (t, s) := match r with Done t => Ret (t, s) | Again => next_token fuel s end in
      Ret (t, if bool_decide (ttype t = TOKEN_NEWLINE) then s else on_lx (with_last (ttype t)) s)
  end.

(** Each comment consumes two characters. *)
Definition lexer_next_token (s : env) : outcome (Token * env) := next_token (remaining (lx s)) s.

Definition lexer_peek_token (s : env) : outcome (Token * env) :=
  let saved := lx s in
  let! (t, s) := lexer_next_token s in
  Ret (t, on_lx (fun l => mkLexer (source l) (position saved) (line saved) (column saved) (length l)
                            (error_message l) (has_error l) (continuation_depth saved)
                            (last_significant saved)) s).

(** * Creation, and the life of a token *)

(** [source] is a C string: the text is what precedes its NUL. *)
Definition lexer_create (src : list Z) (tb : T) (h : heap) : option env * heap :=
  let (ok, h) := alloc h in
  if negb ok then (None, h)
  else
    let text := until_nul src in
    let byte i := default 0 (text !! i) in
    let position := if (byte 0%nat =? 0xEF) && (byte 1%nat =? 0xBB) && (byte 2%nat =? 0xBF) then 3%nat else 0%nat in
    (Some (mkEnv (mkLexer text position 1 1 (List.length text) None false 0 TOKEN_NEWLINE) tb h), h).

(** The block that [free] gets, if any, and the token afterwards. *)
Definition token_destroy (t : Token) : option (list Z) * Token :=
  let freed := match value t with VOwned l => if is_interned t then None else Some l | _ => None end in
  let (v, i) := match value t with VNull => (VNull, is_interned t) | _ => (VNull, false) end in
  (freed, mkToken (ttype t) v (mkView DNull 0) (tline t) (tcolumn t) i).

(** [None] is the null token. *)
Definition token_clone (t : option Token) (h : heap) : Token * heap :=
  match t with
  | None => (mkToken TOKEN_EOF VNull (mkView DNull 0) 0 0 false, h)
  | Some t =>
      match value t, is_interned t with
      | VOwned l, false =>
          let bytes := List.length (until_nul l) in
          let own := match data (lexeme t) with DValue => true | _ => false end in
          let bytes := if own && (bytes <? vlength (lexeme t))%nat then vlength (lexeme t) else bytes in
          let (ok, h) := alloc h in
          if ok then
            (mkToken (ttype t) (VOwned (take bytes l)) (lexeme t) (tline t) (tcolumn t) (is_interned t), h)
          else (mkToken TOKEN_ERROR VNull (mkView DNull 0) (tline t) (tcolumn t) false, h)
      | _, _ => (t, h)
      end
  end.
End lexer.
End Lexer.
