(* ===== verification/LexerCorrect.v ===== *)
(** Correctness of the lexer model of [Lexer].

    The core is [token_ok], what one token means for the text it was read
    from: where it lies, how it is spelled and classified, how the line
    number, the bracket depth, the error state, the allocator and the intern
    table change.  [next_token_ok] proves it for every text and every pattern
    of allocation failures; the theorems at the end are read off it. *)
From Stdlib Require Import String Ascii.
From stdpp Require Import gmap pretty.
From S2P Require Import Prelude StringIntern LexTokens Lexer.
#[local] Open Scope Z_scope.
#[local] Open Scope list_scope.

(** * The literals of the language

    As relations between a text and what it stands for: the specification the
    scanner is measured against.  Nothing here mentions the scanner's state. *)
Module LexText.
Import Tokens Lexer.

(** * Escapes *)

(** The letters after a backslash and the characters they name: newline, tab,
    carriage return, backslash, the quote [q] of the literal, NUL. *)
Definition escapes (q : Z) : list (Z * Z) :=
  [(ch "n", 10); (ch "t", 9); (ch "r", 13); (92, 92); (q, q); (ch "0", 0)].

(** * Character literals *)

Inductive char_literal : list Z -> Z -> Prop :=
| char_plain c : c <> 92 -> c <> 10 -> c <> 13 -> char_literal [39; c; 39] c
| char_escaped e v : (e, v) ∈ escapes 39 -> char_literal [39; 92; e; 39] v.

(** * The body of a string literal *)

(** [string_body interp d nested text bytes]: the text, with [d] braces of
    interpolation open and in a string [nested] inside them or not, is the rest
    of a body that stands for [bytes].  Without [interp] braces are plain.  Escapes
    are replaced; everything else is kept, and the interpolated parts,
    which may hold quotes, as well. *)
Inductive string_body (interp : bool) : nat -> bool -> list Z -> list Z -> Prop :=
| body_end nested : string_body interp 0 nested [] []
| body_escape d nested e v t b : (e, v) ∈ escapes 34 ->
    string_body interp d nested t b -> string_body interp d nested (92 :: e :: t) (v :: b)
| body_braces t b : interp = true ->
    string_body interp 0 false t b -> string_body interp 0 false (ch "{" :: ch "{" :: t) (ch "{" :: ch "{" :: b)
| body_open d t b : interp = true -> (d = O -> head t <> Some (ch "{")) ->
    string_body interp (S d) false t b -> string_body interp d false (ch "{" :: t) (ch "{" :: b)
| body_close d t b : interp = true ->
    string_body interp d false t b -> string_body interp (S d) false (ch "}" :: t) (ch "}" :: b)
| body_quote d nested t b : interp = true ->
    string_body interp (S d) (negb nested) t b -> string_body interp (S d) nested (34 :: t) (34 :: b)
| body_plain d nested c t b : c <> 92 -> c <> 34 ->
    (interp = true -> nested = false -> c <> ch "{" /\ (c = ch "}" -> d = O)) ->
    string_body interp d nested t b -> string_body interp d nested (c :: t) (c :: b).

(** A string literal at the start of [l], up to [r], and its bytes: braces
    open interpolations, unless read like that the literal has no end. *)
Definition string_literal (l r bytes : list Z) : Prop :=
  exists body, l = 34 :: body ++ 34 :: r /\
    (string_body true 0 false body bytes \/
     string_body false 0 false body bytes /\
     forall body' r' bytes', l = 34 :: body' ++ 34 :: r' -> ~ string_body true 0 false body' bytes').

(** * Numbers *)

(** [w] is the longest run of characters that satisfy [p] at the start of
    [w ++ r]; [p] sees the text from the character on. *)
Definition run (p : list Z -> bool) (w r : list Z) : Prop :=
  (forall k, (k < List.length w)%nat -> p (drop k (w ++ r)) = true) /\ (r <> [] -> p r = false).

Definition on_head (p : Z -> bool) (l : list Z) : bool := match l with c :: _ => p c | [] => false end.

(** A digit, or a dot that is not the first of two. *)
Definition decimal_text (l : list Z) : bool :=
  match l with
  | c :: r => isdigit c || ((c =? ch ".") && negb (on_head (Z.eqb (ch ".")) r))
  | [] => false
  end.

Definition binary_digit (c : Z) : bool := (c =? ch "0") || (c =? ch "1").

(** [0x] and [0b] in either case. *)
Definition radix_prefix (x : string) (l : list Z) : Prop := exists c r, l = ch "0" :: c :: r /\ c ∈ str x.

Definition exponent_sign (sg : list Z) : Prop := sg = [] \/ sg = [ch "+"] \/ sg = [ch "-"].

(** The text goes on with an exponent: [e], a sign or none, and a digit. *)
Definition exponent_at (l : list Z) : Prop :=
  exists e sg d r, l = e :: sg ++ d :: r /\ e ∈ str "eE" /\ exponent_sign sg /\ isdigit d = true.

(** [number_text w r]: the text [w ++ r] starts with the number [w]. *)
Inductive number_text : list Z -> list Z -> Prop :=
| number_hex x ds r : x ∈ str "xX" -> ds <> [] -> run (on_head isxdigit) ds r -> number_text (ch "0" :: x :: ds) r
| number_binary x ds r : x ∈ str "bB" -> ds <> [] -> run (on_head binary_digit) ds r ->
    number_text (ch "0" :: x :: ds) r
| number_decimal ds r : ~ radix_prefix "xXbB" (ds ++ r) -> ds <> [] -> run decimal_text ds r -> ~ exponent_at r ->
    number_text ds r
| number_exponent ds e sg es r : ~ radix_prefix "xXbB" (ds ++ e :: sg ++ es ++ r) -> ds <> [] ->
    run decimal_text ds (e :: sg ++ es ++ r) -> e ∈ str "eE" -> exponent_sign sg -> es <> [] ->
    run (on_head isdigit) es r -> number_text (ds ++ e :: sg ++ es) r.
End LexText.

Module LexerCorrect.
Import Tokens Lexer LexText.
Import Intern(Interner, intern_op, intern_inv, intern_map, intern_inv_mono, intern_op_spec, until_nul).

(** * Specification *)

(** The number of newlines of a text. *)
Fixpoint newlines (l : list Z) : nat :=
  match l with [] => O | c :: l => if c =? 10 then S (newlines l) else newlines l end.

(** The text from the position on. *)
Definition rest (l : Lexer) : list Z := drop (position l) (source l).

(** The newlines before the position. *)
Definition nl (lx : Lexer) : nat := newlines (take (position lx) (source lx)).

(** The operators and separators of the language. *)
Definition operators : list (list Z * TokenType) :=
  map (fun p => (str (fst p), snd p)) [
    (":"%string, TOKEN_COLON); (";"%string, TOKEN_SEMICOLON); ("@"%string, TOKEN_AT);
    (","%string, TOKEN_COMMA); ("=="%string, TOKEN_EQUALS_EQUALS); ("="%string, TOKEN_EQUALS);
    ("!="%string, TOKEN_NOT_EQUALS); ("!"%string, TOKEN_NOT); ("<="%string, TOKEN_LESS_EQUALS);
    ("<<="%string, TOKEN_LSHIFT_EQUALS); ("<<"%string, TOKEN_LSHIFT);
    ("<"%string, TOKEN_LESS_THAN); (">="%string, TOKEN_GREATER_EQUALS);
    (">>="%string, TOKEN_RSHIFT_EQUALS); (">>"%string, TOKEN_RSHIFT);
    (">"%string, TOKEN_GREATER_THAN); ("("%string, TOKEN_LPAREN); (")"%string, TOKEN_RPAREN);
    ("{"%string, TOKEN_LBRACE); ("}"%string, TOKEN_RBRACE); ("["%string, TOKEN_LBRACKET);
    ("]"%string, TOKEN_RBRACKET); ("+="%string, TOKEN_PLUS_EQUALS);
    ("++"%string, TOKEN_PLUS_PLUS); ("+"%string, TOKEN_PLUS); ("*="%string, TOKEN_STAR_EQUALS);
    ("*"%string, TOKEN_MULTIPLY); ("&&"%string, TOKEN_AND_AND); ("&="%string, TOKEN_AMP_EQUALS);
    ("&"%string, TOKEN_AMPERSAND); ("||"%string, TOKEN_OR_OR); ("|="%string, TOKEN_PIPE_EQUALS);
    ("|"%string, TOKEN_PIPE); ("^="%string, TOKEN_CARET_EQUALS); ("^"%string, TOKEN_CARET);
    ("~"%string, TOKEN_TILDE); ("/="%string, TOKEN_SLASH_EQUALS); ("/"%string, TOKEN_DIVIDE);
    ("%="%string, TOKEN_PERCENT_EQUALS); ("%"%string, TOKEN_PERCENT);
    (".."%string, TOKEN_DOT_DOT); ("."%string, TOKEN_DOT); ("->"%string, TOKEN_ARROW);
    ("--"%string, TOKEN_MINUS_MINUS); ("-="%string, TOKEN_MINUS_EQUALS); ("-"%string, TOKEN_MINUS) ].

Fixpoint starts (l w : list Z) {struct w} : bool :=
  match w, l with
  | [], _ => true
  | _ :: _, [] => false
  | x :: w, y :: l => (y =? x) && starts l w
  end.

(** [w] is the longest operator a text begins with. *)
Definition longest_operator (rest w : list Z) (ty : TokenType) : bool :=
  starts rest w && bool_decide ((w, ty) ∈ operators) &&
  forallb (fun op => negb (starts rest (fst op)) || (List.length (fst op) <=? List.length w)%nat) operators.

(** The kind of a word: a keyword, an assembler word in any case, or a name. *)
Definition word_type (w : list Z) : TokenType :=
  let ty := linear_lookup g_lex_keywords w in
  if bool_decide (ty = TOKEN_IDENTIFIER) then linear_lookup g_lex_asm_words (tolower <$> w) else ty.

(** The bracket depth after a token. *)
Definition depth_after (ty : TokenType) (d : nat) : nat :=
  match ty with
  | TOKEN_LPAREN | TOKEN_LBRACKET => S d
  | TOKEN_RPAREN | TOKEN_RBRACKET => pred d
  | _ => d
  end.

(** A text before position 0 ... [length], without NUL characters. *)
Definition lexer_wf (lx : Lexer) : Prop :=
  length lx = List.length (source lx) /\ (position lx <= length lx)%nat /\
  Forall (fun c => 0 < c < 256) (source lx).

Section correct.
Context {T : Type} {IT : Interner T}.
Abbreviation env := (@env T).

(** The lexeme and the value of a token that ends at the position of [s]. *)
Definition spelled (s : env) (from : nat) (t : Token) : Prop :=
  match data (lexeme t) with
  | DNull => vlength (lexeme t) = O /\ (ttype t = TOKEN_EOF /\ value t = VNull \/ ttype t = TOKEN_ERROR)
  | DValue => exists l, value t = VOwned l /\ vlength (lexeme t) = List.length l /\
      is_interned t = false /\
      (ttype t = TOKEN_ERROR \/ ttype t = TOKEN_STRING /\
       exists off, (from <= off < position (lx s))%nat /\ string_literal (drop off (source (lx s))) (rest (lx s)) l)
  | DSource off =>
      let text := slice (lx s) off (vlength (lexeme t)) in
      (from <= off)%nat /\ (off + vlength (lexeme t) = position (lx s))%nat /\
      match value t with
      | VNull => ttype t = TOKEN_NEWLINE /\ text = [10]
      | VStatic l => is_interned t = true /\ l = text /\
          longest_operator (drop off (source (lx s))) l (ttype t) = true
      | VInterned p => is_interned t = true /\ intern_map (table s) !! text = Some p /\
          ttype t = word_type text /\ text <> [] /\ Forall (fun c => ident_char c = true) text /\
          ((position (lx s) < length (lx s))%nat -> ident_char (current (lx s)) = false)
      | VOwned l => is_interned t = false /\
          (ttype t = TOKEN_ERROR \/ ttype t = TOKEN_NUMBER /\
             (l = text /\ isdigit (hd 0 text) = true /\ number_text text (rest (lx s)) \/
              exists v, l = str (pretty v) /\ 0 <= v < 256 /\ char_literal text v))
      end
  end.

(** Some request between two states was refused. *)
Definition refused (h h' : heap) : Prop :=
  exists n, (heap_calls h <= n < heap_calls h')%nat /\ heap_grants h n = false.

(** What the token [t], read from [s] to [s'], promises. *)
Record token_ok (s : env) (t : Token) (s' : env) : Prop := {
  ok_wf : lexer_wf (lx s');
  ok_source : source (lx s') = source (lx s);
  ok_progress : (position (lx s) <= position (lx s'))%nat /\
    if bool_decide (ttype t = TOKEN_EOF) then position (lx s') = length (lx s')
    else (position (lx s) < position (lx s'))%nat;
  ok_lines : (line (lx s') + nl (lx s) <= line (lx s) + nl (lx s'))%nat /\
    (ttype t <> TOKEN_STRING -> ttype t <> TOKEN_ERROR ->
     (line (lx s') + nl (lx s) = line (lx s) + nl (lx s'))%nat);
  ok_depth : continuation_depth (lx s') = depth_after (ttype t) (continuation_depth (lx s));
  ok_error : if bool_decide (ttype t = TOKEN_ERROR)
    then has_error (lx s') = true \/ refused (mem s) (mem s')
    else has_error (lx s') = has_error (lx s) /\ error_message (lx s') = error_message (lx s);
  ok_heap : heap_grants (mem s') = heap_grants (mem s) /\ (heap_calls (mem s) <= heap_calls (mem s'))%nat;
  ok_table : intern_inv (table s') (mem s') /\ intern_map (table s) ⊆ intern_map (table s');
  ok_spelled : spelled s' (position (lx s)) t;
  ok_newline : ttype t = TOKEN_NEWLINE ->
    continuation_depth (lx s) = O /\ lexer_token_continues_line (last_significant (lx s)) = false /\
    last_significant (lx s') = last_significant (lx s)
}.

(** * Moving over the text *)

(** The part of the lexer that reading characters leaves alone, and where it leads. *)
Record moved (l l' : Lexer) : Prop := {
  mv_source : source l' = source l;
  mv_length : length l' = length l;
  mv_message : error_message l' = error_message l;
  mv_error : has_error l' = has_error l;
  mv_depth : continuation_depth l' = continuation_depth l;
  mv_last : last_significant l' = last_significant l;
  mv_position : (position l <= position l' <= length l)%nat
}.

Definition lines (l l' : Lexer) : Prop := (line l' + nl l = line l + nl l')%nat.

Lemma moved_refl l : lexer_wf l -> moved l l.
Proof. intros (? & ? & ?). by split. Qed.

Lemma moved_trans l1 l2 l3 : moved l1 l2 -> moved l2 l3 -> moved l1 l3.
Proof. intros [] []. split; try congruence. rewrite <- mv_length0. lia. Qed.

Lemma lines_trans l1 l2 l3 : lines l1 l2 -> lines l2 l3 -> lines l1 l3.
Proof. unfold lines. lia. Qed.

Lemma moved_wf l l' : lexer_wf l -> moved l l' -> lexer_wf l'.
Proof.
  intros (H1 & H2 & H3) []. unfold lexer_wf. rewrite mv_source0, mv_length0. split_and!; [done|lia|done].
Qed.

Lemma advance_0 l : advance 0 l = l.
Proof. destruct l. unfold advance, with_position; simpl. by rewrite !Nat.add_0_r. Qed.

Lemma advance_advance j k l : advance k (advance j l) = advance (j + k) l.
Proof. unfold advance, with_position; simpl. f_equal; lia. Qed.

Lemma moved_advance k l : lexer_wf l -> (position l + k <= length l)%nat -> moved l (advance k l).
Proof. intros (? & ? & ?) ?. split; simpl; [done..|lia]. Qed.

Lemma moved_next_line l : lexer_wf l -> (position l < length l)%nat -> moved l (next_line l).
Proof. intros (? & ? & ?) ?. split; simpl; [done..|lia]. Qed.

Lemma newlines_app a b : newlines (a ++ b) = (newlines a + newlines b)%nat.
Proof. induction a as [|c a IH]; simpl; [done|]. rewrite IH. by case_match. Qed.

Lemma at_lookup l i : lexer_wf l -> (i < length l)%nat -> source l !! i = Some (at_ l i).
Proof.
  intros (Hl & _ & _) Hi. rewrite Hl in Hi. destruct (lookup_lt_is_Some_2 _ _ Hi) as [c Hc].
  unfold at_. by rewrite Hc.
Qed.

Lemma at_range l i : lexer_wf l -> (i < length l)%nat -> 0 < at_ l i < 256.
Proof.
  intros Hw Hi. pose proof (at_lookup l i Hw Hi) as Hc. destruct Hw as (_ & _ & Hf).
  rewrite Forall_lookup in Hf. by apply (Hf i).
Qed.

Lemma newlines_take_S l i : lexer_wf l -> (i < length l)%nat ->
  newlines (take (S i) (source l)) = (newlines (take i (source l)) + (if (at_ l i =? 10)%Z then 1 else 0))%nat.
Proof.
  intros Hw Hi. rewrite (take_S_r _ _ (at_ l i)) by (by apply at_lookup).
  rewrite newlines_app. simpl. by destruct (at_ l i =? 10).
Qed.

(** Characters that are not newlines keep the count. *)
Lemma lines_advance k l : lexer_wf l -> (position l + k <= length l)%nat ->
  (forall j, (j < k)%nat -> at_ l (position l + j) <> 10) -> lines l (advance k l).
Proof.
  intros Hw Hk Hn. unfold lines, nl; simpl. f_equal. induction k as [|k IH]; [by rewrite Nat.add_0_r|].
  rewrite <- Nat.add_succ_comm, Nat.add_succ_l, newlines_take_S by (done || lia).
  rewrite (proj2 (Z.eqb_neq _ _) (Hn k ltac:(lia))). rewrite Nat.add_0_r.
  apply IH; [lia|]. intros j Hj. apply Hn. lia.
Qed.

Lemma lines_next_line l : lexer_wf l -> (position l < length l)%nat -> current l = 10 ->
  lines l (next_line l).
Proof.
  intros Hw Hp Hc. unfold lines, nl; simpl. rewrite newlines_take_S by done.
  unfold current in Hc. rewrite Hc. simpl. lia.
Qed.

Lemma lines_advance_1 l : lexer_wf l -> (position l < length l)%nat -> current l <> 10 ->
  lines l (advance 1 l).
Proof.
  intros Hw Hp Hc. apply lines_advance; [done|lia|]. intros j Hj. replace (position l + j)%nat with (position l) by lia.
  done.
Qed.

(** ** Loops *)

Lemma advance_while_spec p fuel : forall l, lexer_wf l -> (length l - position l < fuel)%nat ->
  exists k, advance_while fuel p l = Ret (advance k l) /\ (position l + k <= length l)%nat /\
    (forall j, (j < k)%nat -> p (advance j l) = true) /\
    ((position l + k < length l)%nat -> p (advance k l) = false).
Proof.
  induction fuel as [|fuel IH]; intros l Hw Hf; [lia|]. cbn [advance_while].
  destruct (Nat.ltb_spec (position l) (length l)) as [Hlt|Hge]; simpl.
  - destruct (p l) eqn:Hp.
    + destruct (IH (advance 1 l)) as (k & -> & Hk & Ht & Hlast); simpl in *.
      * eapply moved_wf, moved_advance; [done..|lia].
      * lia.
      * exists (S k). rewrite advance_advance. split_and!; [done|lia| |].
        -- intros [|j] Hj; [by rewrite advance_0|]. specialize (Ht j ltac:(lia)). by rewrite advance_advance in Ht.
        -- intros H. rewrite advance_advance in Hlast. apply Hlast. lia.
    + exists O. rewrite advance_0. split_and!; [done|lia|lia|done].
  - exists O. rewrite advance_0. destruct Hw as (? & ? & ?). split_and!; [done|lia|lia|lia].
Qed.

Lemma remaining_enough l : (length l - position l < remaining l)%nat.
Proof. unfold remaining. lia. Qed.

Lemma current_advance j l : current (advance j l) = at_ l (position l + j).
Proof. done. Qed.

(** A loop over characters that exclude the newline. *)
Lemma advance_while_moved p l : lexer_wf l -> (forall l, p l = true -> current l <> 10) ->
  exists k, advance_while (remaining l) p l = Ret (advance k l) /\ (position l + k <= length l)%nat /\
    moved l (advance k l) /\ lines l (advance k l) /\
    (forall j, (j < k)%nat -> p (advance j l) = true) /\
    ((position l + k < length l)%nat -> p (advance k l) = false).
Proof.
  intros Hw Hp. destruct (advance_while_spec p _ l Hw (remaining_enough l)) as (k & E & Hk & Ht & Hl).
  exists k. split_and!; [done..| | |done|done].
  - by apply moved_advance.
  - apply lines_advance; [done..|]. intros j Hj. apply (Hp (advance j l)). by apply Ht.
Qed.

Lemma isspace_newline : isspace 10 = true.
Proof. done. Qed.

Lemma skip_space_spec fuel : forall l, lexer_wf l -> (length l - position l < fuel)%nat ->
  exists n l', skip_space fuel l = Ret (n, l') /\ moved l l' /\ lines l l' /\
    if n : bool then (position l' < length l')%nat /\ current l' = 10 /\ continuation_depth l' = O /\
                     lexer_token_continues_line (last_significant l') = false
    else (position l' < length l')%nat -> isspace (current l') = false.
Proof.
  induction fuel as [|fuel IH]; intros l Hw Hf; [lia|]. cbn [skip_space].
  destruct (Nat.ltb_spec (position l) (length l)) as [Hlt|Hge]; simpl.
  - destruct (isspace (current l)) eqn:Hs; [destruct (Z.eqb_spec (current l) 10) as [Hc|Hc];
      [destruct (_ || _) eqn:Hd|]|].
    + destruct (IH (next_line l)) as (n & l' & -> & Hm & Hl & Hr); [|simpl; lia|].
      { eapply moved_wf, moved_next_line; done. }
      exists n, l'. split_and!; [done| | |done].
      * eapply moved_trans; [by apply moved_next_line|done].
      * eapply lines_trans; [by apply lines_next_line|done].
    + apply orb_false_iff in Hd as [Hd1 Hd2]. apply Nat.ltb_ge in Hd1.
      exists true, l. split_and!; [done|by apply moved_refl|done|done|done|lia|done].
    + destruct (IH (advance 1 l)) as (n & l' & -> & Hm & Hl & Hr); [|simpl; lia|].
      { eapply moved_wf, moved_advance; [done..|lia]. }
      exists n, l'. split_and!; [done| | |done].
      * apply (moved_trans _ (advance 1 l)); [apply moved_advance; [done|lia]|done].
      * eapply lines_trans; [by apply lines_advance_1|done].
    + exists false, l. split_and!; [done|by apply moved_refl|done|done].
  - exists false, l. split_and!; [done|by apply moved_refl|done|lia].
Qed.

Lemma next_is_lt l k c : next_is l k c = true -> (position l + k < length l)%nat /\ at_ l (position l + k) = ch c.
Proof. unfold next_is. intros [H1%Nat.ltb_lt H2%Z.eqb_eq]%andb_true_iff. done. Qed.

(** Two characters that are not newlines. *)
Lemma lines_advance_2 l : lexer_wf l -> (position l + 1 < length l)%nat -> current l <> 10 ->
  at_ l (position l + 1) <> 10 -> lines l (advance 2 l).
Proof.
  intros Hw Hp H0 H1. apply lines_advance; [done|lia|]. intros [|[|j]] Hj; [|done|lia].
  by rewrite Nat.add_0_r.
Qed.

Lemma block_loop_spec fuel : forall d l, lexer_wf l -> (length l - position l < fuel)%nat ->
  exists d' l', block_loop fuel d l = Ret (d', l') /\ moved l l' /\ lines l l' /\
    (d' <> O -> position l' = length l').
Proof.
  induction fuel as [|fuel IH]; intros d l Hw Hf; [lia|]. cbn [block_loop].
  assert (Hstep : forall d1 l1, moved l l1 -> lines l l1 -> (position l < position l1)%nat ->
    exists d' l', block_loop fuel d1 l1 = Ret (d', l') /\ moved l l' /\ lines l l' /\
      (d' <> O -> position l' = length l')).
  { intros d1 l1 Hm Hl Hp. pose proof (mv_position _ _ Hm). pose proof (mv_length _ _ Hm).
    destruct (IH d1 l1) as (d' & l' & -> & Hm' & Hl' & Hd); [by eapply moved_wf|lia|].
    exists d', l'. split_and!; [done|by eapply moved_trans|by eapply lines_trans|done]. }
  destruct (Nat.ltb_spec (position l) (length l)) as [Hlt|Hge]; simpl.
  2:{ exists d, l. split_and!; [done|by apply moved_refl|done|]. destruct Hw as (? & ? & ?). lia. }
  destruct (Nat.ltb_spec 0 d); [|exists d, l; split_and!; [done|by apply moved_refl|done|lia]].
  destruct (Z.eqb_spec (current l) (ch "/")) as [Hc|Hc]; simpl;
    [destruct (next_is l 1 "*") eqn:Hn|];
    [apply next_is_lt in Hn as [Hn1 Hn2]; apply Hstep;
      [apply moved_advance; [done|lia]|apply lines_advance_2; [done|lia|rewrite Hc; done|rewrite Hn2; done]|simpl; lia]| |].
  - rewrite Hc. simpl. apply Hstep; [apply moved_advance; [done|lia]| |simpl; lia].
    apply lines_advance_1; [done|lia|rewrite Hc; done].
  - destruct (_ && _) eqn:Hs; [|destruct (Z.eqb_spec (current l) 10) as [Hc'|Hc']].
    + apply andb_true_iff in Hs as [Hs1%Z.eqb_eq [Hn1 Hn2]%next_is_lt].
      apply Hstep; [apply moved_advance; [done|lia]| |simpl; lia].
      apply lines_advance_2; [done|lia|rewrite Hs1; done|rewrite Hn2; done].
    + apply Hstep; [by apply moved_next_line|by apply lines_next_line|simpl; lia].
    + apply Hstep; [apply moved_advance; [done|lia]|by apply lines_advance_1|simpl; lia].
Qed.

(** ** The state between the start of a token and its end *)

Record reached (s s' : env) : Prop := {
  rc_moved : moved (lx s) (lx s');
  rc_lines : (line (lx s') + nl (lx s) <= line (lx s) + nl (lx s'))%nat;
  rc_grants : heap_grants (mem s') = heap_grants (mem s);
  rc_calls : (heap_calls (mem s) <= heap_calls (mem s'))%nat;
  rc_inv : intern_inv (table s') (mem s');
  rc_map : intern_map (table s) ⊆ intern_map (table s')
}.

Lemma reached_start s l : lexer_wf (lx s) -> intern_inv (table s) (mem s) ->
  moved (lx s) l -> lines (lx s) l -> reached s (on_lx (fun _ => l) s).
Proof. intros Hw Hi Hm Hl. split; simpl; [done|red in Hl; lia|done..]. Qed.

Lemma reached_on s s1 f : reached s s1 -> moved (lx s1) (f (lx s1)) -> lines (lx s1) (f (lx s1)) ->
  reached s (on_lx f s1).
Proof.
  intros [] Hm Hl. split; simpl; [by eapply moved_trans| |done..]. red in Hl. lia.
Qed.

Lemma reached_alloc s s1 : reached s s1 -> reached s (env_alloc s1).2.
Proof.
  intros []. split; simpl; [done|done|done|lia| |done]. eapply intern_inv_mono; [|done]. simpl. lia.
Qed.

Lemma refused_weaken s s1 h : reached s s1 -> refused (mem s1) h -> refused (mem s) h.
Proof. intros [] (n & Hn & Hg). exists n. rewrite <- rc_grants0. split; [lia|done]. Qed.

Lemma token_reached s s1 t s2 : reached s s1 -> lines (lx s) (lx s1) -> token_ok s1 t s2 -> token_ok s t s2.
Proof.
  intros Hr Hl [Hwf Hs Hp Hln Hd He Hh Ht Hsp Hnw]. pose proof Hr as [Hm Hrl Hrg Hrc Hri Hrm].
  pose proof (mv_position _ _ Hm) as Hmp. split.
  - done.
  - rewrite Hs. apply Hm.
  - destruct Hp as [Hp1 Hp2]. split; [lia|].
    destruct (bool_decide (ttype t = TOKEN_EOF)); [done|lia].
  - red in Hl. split; [lia|]. intros H1 H2. destruct Hln as [_ Hln]. specialize (Hln H1 H2). lia.
  - by rewrite Hd, (mv_depth _ _ Hm).
  - destruct (bool_decide (ttype t = TOKEN_ERROR)).
    + destruct He as [?|?]; [by left|right]. by eapply refused_weaken.
    + destruct He as [-> ->]. split; [apply Hm|apply Hm].
  - destruct Hh as [-> Hh]. split; [done|lia].
  - destruct Ht as [Hi Hmp']. split; [done|]. by etrans.
  - unfold spelled in *. destruct (data (lexeme t)); [done| |].
    + destruct Hsp as (Hf & Hsp). split; [lia|done].
    + destruct Hsp as (l & Hv & Hlen & Hi' & Hsp). exists l. split; [done|]. split; [done|]. split; [done|].
      destruct Hsp as [?|(? & off & ? & ?)]; [by left|right]. split; [done|]. exists off. split; [lia|done].
  - intros E. rewrite <- (mv_depth _ _ Hm), <- (mv_last _ _ Hm). by apply Hnw.
Qed.

(** A token that is not an error, made where the lexer stands. *)
Lemma token_make s s' t : lexer_wf (lx s) -> reached s s' ->
  (ttype t <> TOKEN_STRING -> lines (lx s) (lx s')) -> (position (lx s) < position (lx s'))%nat ->
  ttype t <> TOKEN_EOF -> ttype t <> TOKEN_ERROR -> ttype t <> TOKEN_NEWLINE ->
  continuation_depth (lx s) = depth_after (ttype t) (continuation_depth (lx s)) ->
  spelled s' (position (lx s)) t -> token_ok s t s'.
Proof.
  intros Hw Hr Hl Hp He1 He2 He3 Hd Hsp. destruct Hr as [Hm Hrl Hrg Hrc Hri Hrm]. split.
  - by eapply moved_wf.
  - apply Hm.
  - split; [lia|]. by rewrite bool_decide_eq_false_2.
  - split; [done|]. intros H _. by apply Hl.
  - rewrite <- Hd. apply Hm.
  - rewrite bool_decide_eq_false_2 by done. split; apply Hm.
  - done.
  - done.
  - done.
  - done.
Qed.

Lemma token_fail s s1 m t : lexer_wf (lx s) -> reached s s1 -> (position (lx s) < position (lx s1))%nat ->
  lexeme t = mkView DNull 0 -> token_ok s (fail_with m t s1).1 (fail_with m t s1).2.
Proof.
  intros Hw Hr Hp Ht. pose proof (reached_alloc _ _ Hr) as Hr1. pose proof (reached_alloc _ _ Hr1) as Hr2.
  pose proof (moved_wf _ _ Hw (rc_moved _ _ Hr)) as (Hwf1 & Hwf2 & Hwf3).
  pose proof (rc_moved _ _ Hr) as Hm. pose proof (rc_lines _ _ Hr) as Hrl.
  unfold fail_with, strdup, env_alloc, alloc; simpl.
  destruct (heap_grants (mem s1) (heap_calls (mem s1))) eqn:Hg; simpl.
  - destruct Hr2 as [_ _ Hrg Hrc Hri Hrm]. split; simpl; [done|apply Hm| | |apply Hm|by left|done|done| |done].
    + split; [apply Hm|lia].
    + unfold nl in *; simpl. split; [lia|done].
    + unfold spelled; simpl. rewrite Ht. simpl. auto.
  - destruct Hr1 as [_ _ Hrg Hrc Hri Hrm]. split; simpl; [done|apply Hm| | |apply Hm| |done|done| |done].
    + split; [apply Hm|lia].
    + unfold nl in *; simpl. split; [lia|done].
    + right. exists (heap_calls (mem s1)). simpl. rewrite <- (rc_grants _ _ Hr).
      pose proof (rc_calls _ _ Hr). split; [lia|done].
    + unfold spelled; simpl. rewrite Ht. simpl. auto.
Qed.

(** ** Literals and words *)

Lemma slice_of_moved l l' : moved l l' -> slice l' = slice l.
Proof. intros Hm. unfold slice. by rewrite (mv_source _ _ Hm). Qed.

Lemma hd_slice l off len : (0 < len)%nat -> hd 0 (slice l off len) = at_ l off.
Proof.
  intros Hlen. destruct len as [|len]; [lia|]. unfold slice, at_. rewrite <- (Nat.add_0_r off) at 2.
  rewrite <- lookup_drop. by destruct (drop off (source l)).
Qed.

Lemma slice_cons l off len : lexer_wf l -> (off < length l)%nat ->
  slice l off (S len) = at_ l off :: slice l (S off) len.
Proof. intros Hw Ho. unfold slice. by rewrite (drop_S _ _ _ (at_lookup _ _ Hw Ho)). Qed.

(** The scanner knows the escapes of the language and no others. *)
Lemma char_escape_spec e v : char_escape e = Some v -> (e, v) ∈ escapes 39.
Proof.
  unfold char_escape, escapes. rewrite !elem_of_cons. repeat (match goal with |- context [if e =? ?x then _ else _] =>
    destruct (Z.eqb_spec e x) as [->|_]; [intros [= <-]; tauto|] end). done.
Qed.

Lemma string_escape_spec e v : string_escape e = Some v <-> (e, v) ∈ escapes 34.
Proof.
  unfold string_escape, escapes. rewrite !elem_of_cons, elem_of_nil. split.
  - repeat (match goal with |- context [if e =? ?x then _ else _] =>
      destruct (Z.eqb_spec e x) as [->|_]; [intros [= <-]; tauto|] end). done.
  - intros H. repeat (destruct H as [[= -> ->]|H]; [reflexivity|]). done.
Qed.

Lemma char_value_spec l : lexer_wf l ->
  exists r l', char_value l = (r, l') /\ moved l l' /\ lines l l' /\
    match r with
    | inl v => 0 <= v < 256 /\ (position l' < length l')%nat /\ current l' <> 10 /\
        (l' = l /\ current l = v /\ v <> 92 /\ v <> 10 /\ v <> 13 \/
         l' = advance 1 l /\ current l = 92 /\ (current l', v) ∈ escapes 39)
    | inr _ => True
    end.
Proof.
  intros Hw. unfold char_value. destruct (Nat.leb_spec (length l) (position l)) as [Hge|Hlt].
  { eexists _, _. split_and!; try done; by apply moved_refl. }
  pose proof (at_range l (position l) Hw Hlt) as Hr. fold (current l) in Hr.
  destruct (Z.eqb_spec (current l) 92) as [Hc|Hc].
  - assert (moved l (advance 1 l)) as Hm by (apply moved_advance; [done|lia]).
    assert (lines l (advance 1 l)) as Hl by (apply lines_advance_1; [done..|rewrite Hc; done]).
    destruct (Nat.leb_spec (length (advance 1 l)) (position (advance 1 l))) as [Hge|Hlt'];
      [by eexists _, _|].
    destruct (char_escape (current (advance 1 l))) as [v|] eqn:He; [|by eexists _, _].
    exists (inl v), (advance 1 l). split_and!; [done|done|done| | |done| |].
    1,2: unfold char_escape in He; repeat case_match; simplify_eq; lia.
    { intros Hx. rewrite Hx in He. done. }
    right. split; [done|]. split; [done|]. by apply char_escape_spec.
  - destruct ((current l =? 10) || (current l =? 13)) eqn:Hn.
    + eexists _, _. split_and!; try done; by apply moved_refl.
    + apply orb_false_iff in Hn as [Hn%Z.eqb_neq Hn'].
      assert (u8 (current l) = current l) as Hu by (apply wrapu_small; unfold in_u; simpl; lia).
      exists (inl (u8 (current l))), l. rewrite Hu. split_and!; [done|by apply moved_refl|done|lia|lia|done|done|].
      left. split_and!; [done..|by apply Z.eqb_neq].
Qed.

Lemma moved_after l l' : moved l l' -> lexer_wf l -> lexer_wf l'.
Proof. intros. by eapply moved_wf. Qed.

(** The text of a character literal whose character ends at [l']. *)
Lemma char_text l l' v k : lexer_wf l -> current l = 39 -> (position l' + 1 < length l)%nat -> k = (position l' + 1 + 1 - position l)%nat ->
  (l' = advance 1 l /\ current (advance 1 l) = v /\ v <> 92 /\ v <> 10 /\ v <> 13 \/
   l' = advance 1 (advance 1 l) /\ current (advance 1 l) = 92 /\ (current l', v) ∈ escapes 39) ->
  current (advance 1 l') = 39 -> char_literal (slice l (position l) k) v.
Proof.
  intros Hw Hc Hlt -> Hl Hq. destruct Hl as [(-> & Hv & H1 & H2 & H3)|(-> & Hb & He)].
  - replace (_ - _)%nat with 3%nat by (simpl; lia). simpl in Hlt. rewrite !slice_cons by (done || lia).
    unfold current, at_ in *. cbn in *. rewrite ?Nat.add_1_r in Hv; repeat rewrite Nat.add_1_r in Hq. rewrite Hc, Hv, Hq. by apply char_plain.
  - replace (_ - _)%nat with 4%nat by (simpl; lia). simpl in Hlt. rewrite !slice_cons by (done || lia).
    unfold current, at_ in *. cbn in *. repeat rewrite Nat.add_1_r in Hb; repeat rewrite Nat.add_1_r in Hq; repeat rewrite Nat.add_1_r in He. rewrite Hc, Hb, Hq. by apply char_escaped.
Qed.

Lemma char_literal_ok s : lexer_wf (lx s) -> intern_inv (table s) (mem s) ->
  (position (lx s) < length (lx s))%nat -> current (lx s) = 39 ->
  token_ok s (lexer_lex_char_literal s).1 (lexer_lex_char_literal s).2.
Proof.
  intros Hw Hi Hp Hc. unfold lexer_lex_char_literal.
  assert (moved (lx s) (advance 1 (lx s))) as Hm0 by (apply moved_advance; [done|lia]).
  assert (lines (lx s) (advance 1 (lx s))) as Hl0 by (apply lines_advance_1; [done..|rewrite Hc; done]).
  destruct (char_value_spec (advance 1 (lx s))) as (r & l & -> & Hm & Hl & Hr); [by eapply moved_wf|].
  pose proof (mv_position _ _ Hm) as Hmp. simpl in Hmp.
  pose proof (moved_trans _ _ _ Hm0 Hm) as Hm1. pose proof (lines_trans _ _ _ Hl0 Hl) as Hl1.
  pose proof (moved_wf _ _ Hw Hm1) as Hwl.
  destruct r as [v|m]; [|apply token_fail; [done|by apply reached_start|simpl; lia|done]].
  destruct Hr as (Hv & Hlt & Hcur & Hlit). pose proof (mv_length _ _ Hm1) as Hlen.
  assert (reached s (on_lx (advance 1) (on_lx (fun _ => l) s))) as Hr2.
  { apply reached_on; [by apply reached_start|apply moved_advance; [done|simpl; lia]|by apply lines_advance_1]. }
  assert (lines (lx s) (advance 1 l)) as Hl2 by (eapply lines_trans; [done|by apply lines_advance_1]).
  set (s2 := on_lx (advance 1) (on_lx (fun _ => l) s)) in *.
  pose proof (rc_moved _ _ Hr2) as Hm2. pose proof (moved_wf _ _ Hw Hm2) as Hw2.
  assert (position (lx s2) = (position l + 1)%nat) as Hp2 by done.
  destruct (_ || _) eqn:Hq; [apply token_fail; [done|done|lia|done]|].
  apply orb_false_iff in Hq as [Hq1%Nat.leb_gt Hq2%negb_false_iff%Z.eqb_eq].
  assert (lines (lx s2) (advance 1 (lx s2))) as Hl3 by (apply lines_advance_1; [done..|rewrite Hq2; done]).
  assert (reached s (on_lx (advance 1) s2)) as Hr3.
  { apply reached_on; [done|apply moved_advance; [done|lia]|done]. }
  pose proof (reached_alloc _ _ Hr3) as Hr4. pose proof (lines_trans _ _ _ Hl2 Hl3) as Hl4.
  destruct (env_alloc (on_lx (advance 1) s2)) as [ok s4] eqn:E. simpl in Hr4.
  assert (lx s4 = advance 1 (lx s2)) as E4 by (by injection E as _ <-).
  assert (position (lx s4) = (position (lx s2) + 1)%nat) as Hp4 by (by rewrite E4).
  destruct ok; simpl; [|apply token_fail; [done|done|lia|done]].
  apply token_make; simpl; [done|done|intros _; by rewrite E4|lia|done|done|done|done|].
  unfold spelled; simpl. split; [done|]. split; [lia|]. split; [done|].
  right. split; [done|]. right. exists v. split; [done|]. split; [done|]. rewrite Hp4, Hp2, E4.
  change (slice (advance 1 (lx s2))) with (slice l). rewrite (slice_of_moved _ _ Hm1).
  apply (char_text _ l); [done|done| |done| |done]; [rewrite <- Hlen; simpl in *; lia|]. destruct Hlit as [(-> & ?)|(-> & ?)]; [left|right]; done.
Qed.

(** A loop after [j] characters that are not newlines. *)
Lemma loop_after p j l : lexer_wf l -> moved l (advance j l) -> lines l (advance j l) ->
  (forall l, p l = true -> current l <> 10) ->
  exists k, advance_while (remaining (advance j l)) p (advance j l) = Ret (advance k l) /\
    (j <= k)%nat /\ moved l (advance k l) /\ lines l (advance k l) /\
    ((position l + j < length l)%nat -> p (advance j l) = true -> (j < k)%nat).
Proof.
  intros Hw Hm Hl Hp. destruct (advance_while_moved p (advance j l)) as (k & -> & Hk & Hm' & Hl' & Ht & Hlast).
  { by eapply moved_wf. }
  { done. }
  rewrite advance_advance in *. exists (j + k)%nat. split_and!; [done|lia|by eapply moved_trans|by eapply lines_trans|].
  intros Hlt Hpj. destruct k; [|lia]. rewrite (Nat.add_0_r j) in *. simpl in Hlast. rewrite Hlast in Hpj; [done|lia].
Qed.

Lemma digit_not_newline c : isdigit c = true -> c <> 10.
Proof. by intros H ->. Qed.

(** ** The text ahead *)

Lemma rest_cons l : lexer_wf l -> (position l < length l)%nat ->
  rest l = current l :: drop (S (position l)) (source l).
Proof. intros Hw Hp. apply drop_S. by apply at_lookup. Qed.

Lemma rest_advance k l : rest (advance k l) = drop k (rest l).
Proof. unfold rest. by rewrite drop_drop. Qed.

Lemma rest_length l : lexer_wf l -> List.length (rest l) = (length l - position l)%nat.
Proof. intros (-> & _ & _). apply length_drop. Qed.

Lemma wf_advance k l : lexer_wf l -> (position l + k <= length l)%nat -> lexer_wf (advance k l).
Proof. intros Hw Hk. eapply moved_wf; [done|by apply moved_advance]. Qed.

(** The character at the position is the head of the text ahead; behind the
    end it is NUL. *)
Lemma current_head p l : lexer_wf l -> p 0 = false -> p (current l) = on_head p (rest l).
Proof.
  intros Hw Hp. destruct (decide (position l < length l)%nat) as [Hlt|Hge]; [by rewrite (rest_cons l Hw Hlt)|].
  assert (rest l = []) as ->.
  { apply nil_length_inv. rewrite rest_length by done. lia. }
  unfold current, at_. rewrite lookup_ge_None_2; [done|]. destruct Hw as (<- & _). lia.
Qed.

Lemma next_is_head l c : lexer_wf l -> next_is l 1 c = on_head (Z.eqb (ch c)) (drop 1 (rest l)).
Proof.
  intros Hw. unfold next_is. destruct (Nat.ltb_spec (position l + 1) (length l)) as [Hlt|Hge]; cbn [andb].
  - rewrite <- rest_advance, (rest_cons (advance 1 l)) by (done || by apply wf_advance; [|lia]).
    cbn [on_head]. rewrite Z.eqb_sym. done.
  - rewrite drop_ge; [done|]. rewrite rest_length by done. lia.
Qed.

Lemma decimal_char_text l : lexer_wf l -> decimal_char l = decimal_text (rest l).
Proof.
  intros Hw. unfold decimal_char. rewrite (next_is_head _ _ Hw), (current_head isdigit l Hw eq_refl).
  rewrite (current_head (fun c => c =? ch ".") l Hw eq_refl). destruct (rest l) as [|c r]; [done|]. done.
Qed.

(** A loop over characters that are not newlines reads the longest run of them. *)
Lemma loop_run p q j l : lexer_wf l -> moved l (advance j l) -> lines l (advance j l) ->
  (forall l, p l = true -> current l <> 10) -> (forall l, lexer_wf l -> p l = q (rest l)) ->
  exists k, advance_while (remaining (advance j l)) p (advance j l) = Ret (advance k l) /\
    (j <= k)%nat /\ moved l (advance k l) /\ lines l (advance k l) /\
    run q (take (k - j) (drop j (rest l))) (drop k (rest l)) /\
    List.length (take (k - j) (drop j (rest l))) = (k - j)%nat.
Proof.
  intros Hw Hm Hl Hp Hq. pose proof (moved_wf _ _ Hw Hm) as Hwj.
  destruct (advance_while_moved p (advance j l)) as (k & -> & Hk & Hm' & Hl' & Ht & Hlast); [done..|].
  rewrite advance_advance in *. exists (j + k)%nat. pose proof (moved_trans _ _ _ Hm Hm') as Hmk.
  split; [done|]. split; [lia|]. split; [done|]. split; [by eapply lines_trans|].
  replace (j + k - j)%nat with k by lia. rewrite <- drop_drop, <- rest_advance. cbn [position advance with_position length] in Hk.
  set (lj := advance j l) in *. assert (k <= List.length (rest lj))%nat as Hkl.
  { rewrite rest_length by done. unfold lj. cbn [position advance with_position length]. lia. }
  split; [|by apply length_take_le]. unfold run. rewrite take_drop, length_take_le by done. split.
  - intros i Hi. rewrite <- rest_advance, <- Hq; [by apply Ht|]. apply wf_advance; [done|].
    unfold lj. cbn [position advance with_position length]. lia.
  - rewrite <- rest_advance, <- Hq by (apply wf_advance; done). intros Hne.
    unfold lj. rewrite advance_advance. apply Hlast. destruct (decide (position lj + k < length lj)%nat) as [|Hge]; [done|]. destruct Hne. rewrite rest_advance. apply drop_ge.
    rewrite rest_length by done. lia.
Qed.

Lemma one_of_two a b c : (c =? ch a) || (c =? ch b) = true <-> c ∈ str (String a (String b EmptyString)).
Proof.
  change (str _) with [ch a; ch b]. rewrite !elem_of_cons, elem_of_nil, orb_true_iff, !Z.eqb_eq. tauto.
Qed.

Definition is_sign (c : Z) : bool := (c =? ch "+") || (c =? ch "-").

(** The sign of an exponent, if there is one. *)
Lemma exponent_peek_spec l : lexer_wf l -> (position l < length l)%nat -> exists sg,
  exponent_peek l = (position l + (1 + List.length sg))%nat /\ exponent_sign sg /\
  (position l + (1 + List.length sg) <= length l)%nat /\ drop 1 (rest l) = sg ++ drop (1 + List.length sg) (rest l) /\
  (sg = [] -> on_head is_sign (drop 1 (rest l)) = false).
Proof.
  intros Hw Hlt. assert (lexer_wf (advance 1 l)) as Hw1 by (apply wf_advance; [done|lia]).
  change (at_ l (position l + 1)) with (current (advance 1 l)). unfold exponent_peek.
  change (at_ l (position l + 1)) with (current (advance 1 l)).
  change ((current (advance 1 l) =? ch "+") || (current (advance 1 l) =? ch "-")) with (is_sign (current (advance 1 l))).
  pose proof (current_head is_sign (advance 1 l) Hw1 eq_refl) as Hh. rewrite rest_advance in Hh.
  destruct (Nat.ltb_spec (position l + 1) (length l)) as [Hlt1|Hge]; cbn [andb].
  - pose proof (rest_cons (advance 1 l) Hw1 Hlt1) as Hr. rewrite rest_advance in Hr. rewrite Hh.
    destruct (on_head is_sign (drop 1 (rest l))) eqn:Es.
    + exists [current (advance 1 l)]. cbn [List.length]. split; [lia|]. split; [|split; [lia|split; [|done]]].
      * unfold is_sign in Hh. apply orb_true_iff in Hh as [->%Z.eqb_eq| ->%Z.eqb_eq]; [by right; left|by right; right].
      * change (1 + 1)%nat with 2%nat. rewrite <- (drop_drop _ 1 1), Hr. done.
    + exists []. split; [done|]. split; [by left|]. split; [simpl; lia|]. done.
  - exists []. split; [done|]. split; [by left|]. split; [simpl; lia|]. split; [done|]. intros _.
    rewrite drop_ge; [done|]. rewrite rest_length by done. lia.
Qed.

Lemma sign_not_newline sg : exponent_sign sg -> Forall (fun c => c <> 10) sg.
Proof. by intros [->|[->| ->]]; repeat constructor. Qed.

(** The digits of an exponent are where the scanner looks for them. *)
Lemma exponent_digit e r sg r2 : r = sg ++ r2 -> exponent_sign sg -> (sg = [] -> on_head is_sign r = false) ->
  exponent_at (e :: r) -> on_head isdigit r2 = true.
Proof.
  intros -> Hsg Hno (e' & sg' & d & r' & [= _ Hr] & _ & Hsg' & Hd).
  assert (is_sign d = false) as Hds by (unfold isdigit, in_range in Hd; unfold is_sign; change (ch "+") with 43; change (ch "-") with 45; lia).
  destruct Hsg as [->|[->| ->]], Hsg' as [->|[->| ->]]; cbn [app] in *; simplify_eq; try done.
  all: try (specialize (Hno eq_refl); done).
Qed.

(** An exponent is read whole, and nothing is where there is none. *)
Lemma exponent_spec l j : lexer_wf l -> moved l (advance j l) -> lines l (advance j l) ->
  exists k, exponent (advance j l) = Ret (advance k l) /\ (j <= k)%nat /\
    moved l (advance k l) /\ lines l (advance k l) /\
    (k = j /\ ~ exponent_at (drop j (rest l)) \/
     exists e sg es, drop j (rest l) = e :: sg ++ es ++ drop k (rest l) /\ e ∈ str "eE" /\ exponent_sign sg /\ es <> [] /\
       run (on_head isdigit) es (drop k (rest l))).
Proof.
  intros Hw Hm Hl. unfold exponent. set (l1 := advance j l). pose proof (moved_wf _ _ Hw Hm) as Hw1. fold l1 in Hw1, Hm, Hl.
  assert (drop j (rest l) = rest l1) as Er by (unfold l1; by rewrite rest_advance).
  assert (~ exponent_at (drop j (rest l)) -> exists k, Ret l1 = Ret (advance k l) /\ (j <= k)%nat /\ moved l (advance k l) /\
    lines l (advance k l) /\ (k = j /\ ~ exponent_at (drop j (rest l)) \/
     exists e sg es, drop j (rest l) = e :: sg ++ es ++ drop k (rest l) /\ e ∈ str "eE" /\ exponent_sign sg /\ es <> [] /\
       run (on_head isdigit) es (drop k (rest l)))) as Hstay by (intros Hno; exists j; split_and!; [done|lia|done|done|by left]).
  rewrite Er in *. destruct (Nat.ltb_spec (position l1) (length l1)) as [Hlt|Hge]; cbn [andb].
  2:{ apply Hstay. intros (e & sg & d & r & E & _). pose proof (rest_length l1 Hw1) as Hz. rewrite E in Hz.
      cbn [List.length] in Hz. lia. }
  pose proof (rest_cons l1 Hw1 Hlt) as Hr1. destruct (_ || _) eqn:He.
  2:{ apply Hstay. intros (e & sg & d & r & E & Hin & _). rewrite Hr1 in E. injection E as E _. rewrite E in He.
      by rewrite (proj2 (one_of_two "e" "E" e) Hin) in He. }
  apply (one_of_two "e" "E") in He as Hin.
  destruct (exponent_peek_spec l1 Hw1 Hlt) as (sg & -> & Hsg & Hle & Hd1 & Hno).
  set (d := (1 + List.length sg)%nat) in *. pose proof (wf_advance d l1 Hw1 Hle) as Hwd.
  assert (rest l1 = current l1 :: drop 1 (rest l1)) as Hr by (rewrite Hr1; done).
  assert ((position l1 + d <? length l1)%nat && isdigit (at_ l1 (position l1 + d)) = on_head isdigit (drop d (rest l1))) as ->.
  { rewrite <- rest_advance, <- current_head by done. change (at_ l1 (position l1 + d)) with (current (advance d l1)).
    destruct (Nat.ltb_spec (position l1 + d) (length l1)) as [|Hge]; [done|]. cbn [andb].
    unfold current, at_. rewrite lookup_ge_None_2; [done|]. destruct Hwd as (<- & _). exact Hge. }
  destruct (on_head isdigit (drop d (rest l1))) eqn:Hdig.
  2:{ apply Hstay. rewrite Hr. intros Hx. by rewrite (exponent_digit _ _ sg _ Hd1 Hsg Hno Hx) in Hdig. }
  replace (position l1 + d - position l1)%nat with d by lia. unfold l1. rewrite advance_advance.
  assert (moved l1 (advance d l1)) as Hm1 by by apply moved_advance.
  assert (lines l1 (advance d l1)) as Hl1.
  { apply lines_advance; [done|done|]. intros i Hi. destruct i as [|i].
    - rewrite Nat.add_0_r. change (at_ l1 (position l1)) with (current l1). intros E. by rewrite E in He.
    - pose proof (sign_not_newline _ Hsg) as Hf. destruct (lookup_lt_is_Some_2 sg i ltac:(lia)) as [c Hci].
      rewrite Forall_lookup in Hf. specialize (Hf i c Hci). apply (f_equal (fun r => r !! i)) in Hd1.
      rewrite lookup_app_l, Hci in Hd1 by lia. unfold rest in Hd1. rewrite !lookup_drop in Hd1. unfold at_.
      replace (position l1 + S i)%nat with (position l1 + (1 + i))%nat by lia. by rewrite Hd1. }
  pose proof (moved_trans _ _ _ Hm Hm1) as Hm2. pose proof (lines_trans _ _ _ Hl Hl1) as Hl2. unfold l1 in Hm2, Hl2.
  rewrite advance_advance in Hm2, Hl2.
  destruct (loop_run (fun lx => isdigit (current lx)) (on_head isdigit) (j + d) l) as (k & -> & Hk & Hmk & Hlk & Hrun & Hlen); [done..| | |].
  - intros l2. apply digit_not_newline.
  - intros l2 Hw2. by apply current_head.
  - exists k. split; [done|]. split; [lia|]. split; [done|]. split; [done|]. right.
    set (es := take (k - (j + d)) (drop (j + d) (rest l))) in *.
    assert (es ++ drop k (rest l) = drop d (rest l1)) as Hes.
    { rewrite <- Er, drop_drop. unfold es.
      replace (drop k (rest l)) with (drop (k - (j + d)) (drop (j + d) (rest l))) by (rewrite drop_drop; f_equal; lia). apply take_drop. }
    exists (current l1), sg, es. fold l1. rewrite Hes. split; [by rewrite Hr, Hd1 at 1|]. split; [done|]. split; [done|]. split; [|done].
    intros E. rewrite E in Hrun, Hes. cbn [app] in Hes. rewrite <- Hes in Hdig. destruct Hrun as [_ Hz]. destruct (drop k (rest l)); [done|].
    by rewrite Hz in Hdig.
Qed.

Lemma radix_next l a b : lexer_wf l -> (position l < length l)%nat ->
  (current l =? ch "0") && (next_is l 1 a || next_is l 1 b) = true <->
  radix_prefix (String a (String b EmptyString)) (rest l).
Proof.
  intros Hw Hp. rewrite !next_is_head by done. pose proof (rest_cons l Hw Hp) as Hr. unfold radix_prefix. rewrite Hr.
  set (r := drop (S (position l)) (source l)). change (drop 1 (current l :: r)) with r. rewrite andb_true_iff, Z.eqb_eq. split.
  - intros [E H]. destruct r as [|c r]; [done|]. exists c, r. split; [by rewrite E|]. apply one_of_two.
    cbn [on_head] in H. by rewrite !(Z.eqb_sym _ c) in H.
  - intros (c & r' & [= E ->] & Hin). split; [done|]. apply one_of_two in Hin. cbn [on_head]. by rewrite !(Z.eqb_sym _ c).
Qed.

Lemma radix_either l : radix_prefix "xXbB" l -> radix_prefix "xX" l \/ radix_prefix "bB" l.
Proof.
  intros (c & r & -> & Hc). change (str "xXbB") with (str "xX" ++ str "bB") in Hc. apply elem_of_app in Hc as [Hc|Hc]; [left|right]; by exists c, r.
Qed.

Lemma take_two (k : nat) (x y : Z) r : (2 <= k)%nat -> take k (x :: y :: r) = x :: y :: take (k - 2) r.
Proof. intros Hk. destruct k as [|[|k]]; [lia|lia|]. cbn. by rewrite Nat.sub_0_r. Qed.

(** The digits behind [0x] or [0b]. *)
Lemma radix_digits a b (p : Z -> bool) l : lexer_wf l -> (position l < length l)%nat -> p 10 = false -> p 0 = false ->
  ch a <> 10 -> ch b <> 10 -> radix_prefix (String a (String b EmptyString)) (rest l) ->
  exists k, advance_while (remaining (advance 2 l)) (fun lx => p (current lx)) (advance 2 l) = Ret (advance k l) /\
    (2 <= k)%nat /\ moved l (advance k l) /\ lines l (advance k l) /\
    (k <> 2%nat -> exists x ds, x ∈ str (String a (String b EmptyString)) /\ ds <> [] /\ run (on_head p) ds (drop k (rest l)) /\
       take k (rest l) = ch "0" :: x :: ds).
Proof.
  intros Hw Hp Hn H0 Ha Hb (x & r & Hr & Hx). assert (x <> 10) as Hx10.
  { apply one_of_two in Hx. apply orb_true_iff in Hx as [->%Z.eqb_eq| ->%Z.eqb_eq]; done. }
  pose proof (rest_length l Hw) as Hlen. rewrite Hr in Hlen. cbn [List.length] in Hlen.
  assert (at_ l (position l) = ch "0" /\ at_ l (position l + 1) = x) as [Hc0 Hc1].
  { unfold rest in Hr. unfold at_. rewrite <- (Nat.add_0_r (position l)) at 1. rewrite <- !lookup_drop, Hr. done. }
  assert (moved l (advance 2 l)) as Hm by (apply moved_advance; [done|lia]).
  assert (lines l (advance 2 l)) as Hl.
  { apply lines_advance; [done|lia|]. intros [|[|j]] Hj; [by rewrite Nat.add_0_r, Hc0|by rewrite Hc1|lia]. }
  destruct (loop_run (fun lx => p (current lx)) (on_head p) 2 l Hw Hm Hl) as (k & E & Hk & Hmk & Hlk & Hrun & Hds).
  - intros l2 H2 E. congruence.
  - intros l2 Hw2. by apply current_head.
  - exists k. split; [exact E|]. split; [done|]. split; [done|]. split; [done|]. intros Hk2.
    exists x, (take (k - 2) (drop 2 (rest l))). split; [done|]. split.
    { intros E0. rewrite E0 in Hds. simpl in Hds. lia. }
    split; [done|]. rewrite Hr. by rewrite take_two by done.
Qed.

Lemma number_chars_spec l : lexer_wf l -> (position l < length l)%nat -> isdigit (current l) = true ->
  exists err k, number_chars l = Ret (err, advance k l) /\ (0 < k)%nat /\
    moved l (advance k l) /\ lines l (advance k l) /\
    (err = None -> number_text (take k (rest l)) (drop k (rest l))).
Proof.
  intros Hw Hp Hd. unfold number_chars.
  destruct ((current l =? ch "0") && (next_is l 1 "x" || next_is l 1 "X")) eqn:Hx;
    [|destruct ((current l =? ch "0") && (next_is l 1 "b" || next_is l 1 "B")) eqn:Hb].
  - apply radix_next in Hx; [|done..].
    destruct (radix_digits "x" "X" isxdigit l) as (k & -> & Hk & Hm & Hl & Hds); [done..|].
    cbn [obind]. eexists _, k. split; [done|]. split; [lia|]. split; [done|]. split; [done|].
    cbn [position advance with_position]. destruct (Nat.eqb_spec (position l + k) (position l + 2)); [done|]. intros _.
    destruct Hds as (x & ds & H1 & H2 & H3 & ->); [lia|]. by apply number_hex.
  - apply radix_next in Hb; [|done..].
    destruct (radix_digits "b" "B" binary_digit l) as (k & E & Hk & Hm & Hl & Hds); [done..|]. unfold binary_digit at 1 in E.
    rewrite E. cbn [obind]. eexists _, k. split; [done|]. split; [lia|]. split; [done|]. split; [done|].
    cbn [position advance with_position]. destruct (Nat.eqb_spec (position l + k) (position l + 2)); [done|]. intros _.
    destruct Hds as (x & ds & H1 & H2 & H3 & ->); [lia|]. by apply number_binary.
  - assert (~ radix_prefix "xXbB" (rest l)) as Hno.
    { intros [H|H]%radix_either; rewrite <- (radix_next l _ _ Hw Hp) in H; congruence. }
    pose proof (moved_refl l Hw) as Hm0. rewrite <- (advance_0 l) in Hm0 at 2.
    assert (lines l (advance 0 l)) as Hl0 by by rewrite advance_0.
    destruct (loop_run decimal_char decimal_text 0 l Hw Hm0 Hl0) as (k & E & Hk & Hmk & Hlk & Hrun & Hlen).
    { intros l2 H2 E0. unfold decimal_char in H2. rewrite E0 in H2. discriminate H2. }
    { apply decimal_char_text. }
    rewrite advance_0, drop_0, Nat.sub_0_r in *. rewrite E. cbn [obind].
    destruct (exponent_spec l k Hw Hmk Hlk) as (k' & -> & Hk' & Hm' & Hl' & Hexp). cbn [obind].
    assert (take k (rest l) <> []) as Hne.
    { intros E0. rewrite E0 in Hrun, Hlen. simpl in Hlen. subst k. destruct Hrun as [_ Hz]. rewrite drop_0 in Hz.
      rewrite (rest_cons l Hw Hp) in Hz. specialize (Hz ltac:(done)). cbn [decimal_text] in Hz. by rewrite Hd in Hz. }
    assert (0 < k)%nat by (destruct k; [done|lia]).
    exists None, k'. split; [done|]. split; [lia|]. split; [done|]. split; [done|]. intros _.
    pose proof (take_drop k (rest l)) as Htd. destruct Hexp as [[-> Hno']|(e & sg & es & Hde & H1 & H2 & H3 & H4)].
    + apply number_decimal; [by rewrite Htd|done|done|done].
    + assert (take k' (rest l) = take k (rest l) ++ e :: sg ++ es) as ->.
      { apply (app_inv_tail (drop k' (rest l))). rewrite take_drop, <- app_assoc. cbn [app]. by rewrite <- app_assoc, <- Hde. }
      apply number_exponent; [by rewrite <- Hde, Htd|done|by rewrite <- Hde|done..].
Qed.

Lemma number_ok s : lexer_wf (lx s) -> intern_inv (table s) (mem s) ->
  (position (lx s) < length (lx s))%nat -> isdigit (current (lx s)) = true ->
  exists t s', lexer_lex_number s = Ret (t, s') /\ token_ok s t s'.
Proof.
  intros Hw Hi Hp Hd. unfold lexer_lex_number.
  destruct (number_chars_spec (lx s) Hw Hp Hd) as (err & k & -> & Hk & Hm & Hl & Hnum). simpl.
  pose proof (reached_start s _ Hw Hi Hm Hl) as Hr.
  destruct err as [m|]; [eexists _, _; split; [by rewrite <- surjective_pairing|]; apply token_fail; [done|done|simpl; lia|done]|].
  pose proof (reached_alloc _ _ Hr) as Hr1. simpl in Hr1.
  destruct (heap_grants (mem s) (heap_calls (mem s))); simpl.
  2:{ eexists _, _. split; [by rewrite <- surjective_pairing|]. apply token_fail; [done|done|simpl; lia|done]. }
  eexists _, _. split; [done|]. apply token_make; [done|done|done|simpl; lia|done|done|done|done|].
  unfold spelled; simpl. split; [done|]. split; [lia|]. split; [done|].
  right. split; [done|]. left. split; [done|]. rewrite hd_slice by lia. split; [done|].
  replace (position (lx s) + k - position (lx s))%nat with k by lia. change (rest (advance k (lx s))) with (rest (advance k (lx s))).
  rewrite rest_advance. exact (Hnum eq_refl).
Qed.

Lemma ident_not_newline c : ident_char c = true -> c <> 10.
Proof. by intros H ->. Qed.

Lemma slice_lookup l off len j : (j < len)%nat -> slice l off len !! j = source l !! (off + j)%nat.
Proof. intros Hj. unfold slice. by rewrite lookup_take_lt, lookup_drop. Qed.

Lemma slice_length l off len : (off + len <= List.length (source l))%nat -> List.length (slice l off len) = len.
Proof. intros H. unfold slice. rewrite length_take, length_drop. lia. Qed.

(** Words are neither brackets nor the end or error token. *)
Definition plain_kind (ty : TokenType) : bool :=
  match ty with
  | TOKEN_EOF | TOKEN_ERROR | TOKEN_NEWLINE | TOKEN_LPAREN | TOKEN_RPAREN | TOKEN_LBRACKET | TOKEN_RBRACKET => false
  | _ => true
  end.

Lemma plain_kind_spec ty : plain_kind ty = true ->
  ty <> TOKEN_EOF /\ ty <> TOKEN_ERROR /\ ty <> TOKEN_NEWLINE /\ forall d, depth_after ty d = d.
Proof. by destruct ty. Qed.

Lemma linear_lookup_kind ws w : forallb (fun e => plain_kind (type e)) ws = true ->
  plain_kind (linear_lookup ws w) = true.
Proof.
  induction ws as [|e ws IH]; [done|]. cbn [forallb linear_lookup]. intros [He Hws]%andb_true_iff.
  destruct (bool_decide (word e = w)); auto.
Qed.

Lemma word_type_kind w : plain_kind (word_type w) = true.
Proof. unfold word_type. case_bool_decide; apply linear_lookup_kind; vm_compute; reflexivity. Qed.

Lemma identifier_ok s : lexer_wf (lx s) -> intern_inv (table s) (mem s) ->
  (position (lx s) < length (lx s))%nat -> ident_char (current (lx s)) = true ->
  exists t s', lexer_lex_identifier_or_keyword s = Ret (t, s') /\ token_ok s t s'.
Proof.
  intros Hw Hi Hp Hc. unfold lexer_lex_identifier_or_keyword.
  destruct (advance_while_moved (fun l => ident_char (current l)) (lx s) Hw) as (k & -> & Hk & Hm & Hl & Ht & Hlast).
  { intros l. apply ident_not_newline. }
  simpl. assert (0 < k)%nat as Hk0.
  { destruct k; [|lia]. rewrite advance_0 in Hlast. rewrite Hlast in Hc; [done|lia]. }
  replace (position (lx s) + k - position (lx s))%nat with k by lia.
  change (slice (advance k (lx s))) with (slice (lx s)).
  set (text := slice (lx s) (position (lx s)) k).
  assert (List.length text = k) as Hlen by (apply slice_length; destruct Hw as (<- & _); done).
  destruct (intern_op text (table s) (mem s)) as [[p tb] h] eqn:E.
  destruct (intern_op_spec _ _ _ _ _ _ Hi E) as (Hi' & Hle & Hg & Hmap & Hres).
  assert (reached s (mkEnv (advance k (lx s)) tb h)) as Hr.
  { split; simpl; [done| |done|done|done|done]. red in Hl. simpl in Hl. lia. }
  destruct p as [p|]; simpl.
  2:{ eexists _, _. split; [by rewrite <- surjective_pairing|]. apply token_fail; [done|done|simpl; lia|done]. }
  pose proof (lex_lookup_word_correct _ _ keywords_wf text false) as E1.
  pose proof (lex_lookup_word_correct _ _ asm_words_wf text true) as E2.
  cbn [folded] in E1, E2. rewrite Hlen in E1, E2. rewrite E1, E2. cbn [obind].
  set (r := if bool_decide _ then _ else _).
  assert (r = Ret (mkToken (word_type text) (VInterned p) (mkView (DSource (position (lx s))) k)
                     (line (lx s)) (column (lx s)) true, mkEnv (advance k (lx s)) tb h)) as ->.
  { unfold r, word_type. by case_bool_decide. }
  destruct (plain_kind_spec _ (word_type_kind text)) as (Hk1 & Hk2 & Hk3 & Hk4).
  eexists _, _. split; [done|]. apply token_make; simpl; [done|done|done|lia|done|done|done|by rewrite Hk4|].
  unfold spelled; simpl. split; [done|]. split; [done|]. split; [done|].
  change (slice (advance k (lx s))) with (slice (lx s)). fold text. split_and!; [done|done| | |].
  - intros E0. rewrite E0 in Hlen. simpl in Hlen. lia.
  - apply Forall_lookup. intros j c Hj. pose proof (lookup_lt_Some _ _ _ Hj) as Hjk. rewrite Hlen in Hjk.
    unfold text in Hj. rewrite slice_lookup in Hj by done. specialize (Ht j Hjk). simpl in Ht.
    rewrite current_advance in Ht. unfold at_ in Ht. by rewrite Hj in Ht.
  - intros Hlt. apply (Hlast Hlt).
Qed.

(** ** Operators *)

Definition nth_is (r : list Z) (k : nat) (c : Z) : bool :=
  match r !! k with Some x => x =? c | None => false end.

Lemma next_is_rest l k c : lexer_wf l -> next_is l k c = nth_is (rest l) k (ch c).
Proof.
  intros (Hl & _ & _). unfold next_is, nth_is, rest, at_. rewrite lookup_drop, Hl.
  destruct (Nat.ltb_spec (position l + k) (List.length (source l))) as [Hlt|Hge]; simpl.
  - destruct (lookup_lt_is_Some_2 _ _ Hlt) as [x ->]. done.
  - by rewrite (lookup_ge_None_2 _ _ Hge).
Qed.

Definition operator_table : list (list Z * TokenType) := Eval vm_compute in operators.

Lemma operator_table_eq : operators = operator_table.
Proof. vm_compute. reflexivity. Qed.

Lemma longest_operator_intro r w ty : starts r w = true -> In (w, ty) operator_table ->
  forallb (fun op => negb (starts r (fst op)) || (List.length (fst op) <=? List.length w)%nat) operator_table = true ->
  longest_operator r w ty = true.
Proof.
  intros H1 H2 H3. unfold longest_operator. rewrite H1, operator_table_eq, H3.
  rewrite bool_decide_eq_true_2; [done|]. by apply list_elem_of_In.
Qed.

(** What the switch and the tests after it decide. *)
Definition switch_ok (l : Lexer) (r : switch_end) : Prop :=
  match r with
  | SwBreak ty d => longest_operator (rest l) [current l] ty = true /\ d = depth_after ty (continuation_depth l)
  | SwReturn ty w => longest_operator (rest l) w ty = true /\
      continuation_depth l = depth_after ty (continuation_depth l)
  | SwDefault => True
  end.

Ltac eval_chars :=
  repeat match goal with
         | |- context [ch ?a] => let v := eval vm_compute in (ch a) in change (ch a) with v
         | |- context [str ?a] => let v := eval vm_compute in (str a) in change (str a) with v
         end.

Ltac finish_operator :=
  repeat match goal with H : (_ =? _) = true |- _ => apply Z.eqb_eq in H; subst end;
  apply longest_operator_intro;
  [reflexivity
  |cbn; repeat (first [left; reflexivity|right])
  |cbn; repeat (match goal with H : (_ =? _) = false |- _ => rewrite H end); reflexivity].

Lemma scan_switch_ok l : lexer_wf l -> (position l < length l)%nat -> switch_ok l (scan_switch l (current l)).
Proof.
  intros Hw Hp. unfold switch_ok, scan_switch, scan_switch_arith. rewrite !next_is_rest by done.
  rewrite (rest_cons l Hw Hp). eval_chars. generalize (drop (S (position l)) (source l)) as r. intros r.
  generalize (current l) as c. intros c.
  repeat match goal with |- context [if c =? ?v then _ else _] =>
    destruct (Z.eqb_spec c v) as [->|_];
    [destruct r as [|c1 [|c2 r]]; cbn [nth_is lookup list_lookup];
     repeat match goal with |- context [if ?x =? ?y then _ else _] => destruct (x =? y) eqn:? end;
     (split; [finish_operator|cbn [depth_after]; try (destruct (continuation_depth l)); simpl; lia]) |]
  end.
  done.
Qed.

Lemma starts_take r w : starts r w = true -> take (List.length w) r = w /\ (List.length w <= List.length r)%nat.
Proof.
  revert r. induction w as [|x w IH]; intros [|y r]; simpl; [done..|split; [done|lia]|done|].
  intros [->%Z.eqb_eq [E H]%IH]%andb_true_iff. rewrite E. split; [done|lia].
Qed.

(** Every operator has one character or more, no newline, and a kind of its own. *)
Lemma operators_plain w ty : (w, ty) ∈ operators ->
  (0 < List.length w)%nat /\ Forall (fun c => c <> 10) w /\ ty <> TOKEN_EOF /\ ty <> TOKEN_ERROR /\
  ty <> TOKEN_STRING /\ ty <> TOKEN_NEWLINE.
Proof.
  intros H. rewrite operator_table_eq in H. apply list_elem_of_In in H.
  assert (forallb (fun op => negb (Nat.eqb (List.length (fst op)) 0) && forallb (fun c => negb (c =? 10)) (fst op) &&
    match snd op with TOKEN_EOF | TOKEN_ERROR | TOKEN_STRING | TOKEN_NEWLINE => false | _ => true end) operator_table = true)
    as E by (vm_compute; reflexivity).
  rewrite forallb_forall in E. specialize (E _ H). rewrite !andb_true_iff in E. simpl in E.
  destruct E as [[E1%negb_true_iff%Nat.eqb_neq E2] E3]. split; [lia|]. split.
  - apply Forall_forall. intros c Hc. rewrite forallb_forall in E2. apply list_elem_of_In in Hc.
    specialize (E2 c Hc). apply negb_true_iff, Z.eqb_neq in E2. done.
  - destruct ty; (discriminate E3 || (split_and!; discriminate)).
Qed.

Lemma longest_operator_inv r w ty : longest_operator r w ty = true -> starts r w = true /\ (w, ty) ∈ operators.
Proof. unfold longest_operator. rewrite !andb_true_iff, bool_decide_eq_true. tauto. Qed.

Lemma symbol_ok s w ty d t : lexer_wf (lx s) -> intern_inv (table s) (mem s) ->
  longest_operator (rest (lx s)) w ty = true -> d = depth_after ty (continuation_depth (lx s)) ->
  token_ok s (token_set_lexeme (DSource (position (lx s))) (List.length w) (token_set_static_value w (set_type ty t)))
    (on_lx (advance (List.length w)) (on_lx (with_depth d) s)).
Proof.
  intros Hw Hi Hop ->. pose proof (longest_operator_inv _ _ _ Hop) as [Hst Hin].
  destruct (operators_plain _ _ Hin) as (Hpos & Hnl & Ht1 & Ht2 & Ht3 & Ht4).
  destruct (starts_take _ _ Hst) as [Htk Hle]. set (k := List.length w) in *.
  assert (position (lx s) + k <= length (lx s))%nat as Hk.
  { destruct Hw as (Hlen & ? & _). unfold rest in Hle. rewrite length_drop in Hle. lia. }
  pose proof (moved_advance _ _ Hw Hk) as Hm.
  assert (lines (lx s) (advance k (lx s))) as Hl.
  { apply lines_advance; [done..|]. intros j Hj. destruct (lookup_lt_is_Some_2 w j Hj) as [c Hc].
    rewrite Forall_lookup in Hnl. specialize (Hnl j c Hc). rewrite <- Htk, lookup_take_lt in Hc by done.
    unfold rest in Hc. rewrite lookup_drop in Hc. unfold at_. by rewrite Hc. }
  pose proof (moved_wf _ _ Hw Hm) as Hw'. unfold lines, nl in Hl; simpl in Hl.
  split; simpl; [done|done| | |done| |done|done| |done].
  - split; [lia|]. rewrite bool_decide_eq_false_2 by done. lia.
  - unfold nl; simpl. split; [lia|]. intros _ _. lia.
  - by rewrite bool_decide_eq_false_2.
  - unfold spelled; simpl. split; [done|]. split; [done|]. split; [done|]. split; [|exact Hop].
    unfold slice; simpl. symmetry. exact Htk.
Qed.

Lemma with_depth_same (s : env) : on_lx (with_depth (continuation_depth (lx s))) s = s.
Proof. destruct s as [[] ? ?]. done. Qed.

Lemma operator_ok s w ty t : lexer_wf (lx s) -> intern_inv (table s) (mem s) ->
  longest_operator (rest (lx s)) w ty = true ->
  continuation_depth (lx s) = depth_after ty (continuation_depth (lx s)) ->
  token_ok s (operator ty w t s).1 (operator ty w t s).2.
Proof.
  intros Hw Hi Hop Hd. pose proof (symbol_ok s w ty _ t Hw Hi Hop Hd) as H. by rewrite with_depth_same in H.
Qed.

Lemma one_char_ok s ty d t : lexer_wf (lx s) -> intern_inv (table s) (mem s) ->
  (position (lx s) < length (lx s))%nat ->
  longest_operator (rest (lx s)) [current (lx s)] ty = true -> d = depth_after ty (continuation_depth (lx s)) ->
  token_ok s (one_char ty (current (lx s)) t (on_lx (with_depth d) s)).1
    (one_char ty (current (lx s)) t (on_lx (with_depth d) s)).2.
Proof.
  intros Hw Hi Hp Hop Hd. pose proof (symbol_ok s _ ty d t Hw Hi Hop Hd) as H.
  unfold one_char, token_set_single_char_value. pose proof (at_range _ _ Hw Hp) as Hr.
  rewrite wrapu_small by (unfold in_u, current; simpl; lia). done.
Qed.

Lemma minus_ok s t : lexer_wf (lx s) -> intern_inv (table s) (mem s) ->
  (position (lx s) < length (lx s))%nat -> current (lx s) = ch "-" ->
  exists t' s', scan_rest (current (lx s)) t s = Ret (t', s') /\ token_ok s t' s'.
Proof.
  intros Hw Hi Hp Hc.
  assert (forall p : Token * env, token_ok s p.1 p.2 -> exists t' s', Ret p = Ret (t', s') /\ token_ok s t' s') as Hk
    by (intros p Hp0; exists p.1, p.2; by rewrite <- surjective_pairing).
  assert (Hrest := rest_cons _ Hw Hp). rewrite Hc in Hrest. revert Hrest. change (ch "-") with 45.
  generalize (drop (S (position (lx s))) (source (lx s))) as r. intros r Hrest.
  unfold scan_rest. rewrite Hc, !next_is_rest, Hrest by done. eval_chars.
  rewrite Z.eqb_refl. cbn [andb].
  destruct (nth_is (45 :: r) 1 62) eqn:E1; [|destruct (nth_is (45 :: r) 1 45) eqn:E2;
    [|destruct (nth_is (45 :: r) 1 61) eqn:E3]]; apply Hk.
  1-3: apply operator_ok; [done|done| |done]; rewrite Hrest; destruct r as [|c1 r]; [done|];
    cbn [nth_is lookup list_lookup] in *; finish_operator.
  assert (longest_operator (rest (lx s)) [current (lx s)] TOKEN_MINUS = true) as Hop.
  { rewrite Hrest, Hc. change (ch "-") with 45.
    destruct r as [|c1 r]; cbn [nth_is lookup list_lookup] in *; finish_operator. }
  pose proof (one_char_ok s TOKEN_MINUS _ t Hw Hi Hp Hop eq_refl) as H. cbn [depth_after] in H.
  rewrite with_depth_same, Hc in H. exact H.
Qed.

Lemma scan_unknown_ok s t : lexer_wf (lx s) -> intern_inv (table s) (mem s) ->
  (position (lx s) < length (lx s))%nat -> current (lx s) <> 10 -> lexeme t = mkView DNull 0 -> is_interned t = false ->
  (exists t' s', unknown_char (current (lx s)) t s = Ret (t', s') /\ token_ok s t' s') \/
  (unknown_char (current (lx s)) t s = Undef /\ heap_grants (mem s) (heap_calls (mem s)) = false /\
   heap_grants (mem s) (S (heap_calls (mem s))) = false).
Proof.
  intros Hw Hi Hp Hc Ht Hn. unfold unknown_char, env_alloc, strdup, alloc; simpl.
  assert (lexer_wf (advance 1 (lx s))) as Hw1 by (eapply moved_wf; [done|apply moved_advance; [done|lia]]).
  assert (lines (lx s) (advance 1 (lx s))) as Hl by by apply lines_advance_1.
  unfold lines, nl in Hl; simpl in Hl.
  assert (forall n, (heap_calls (mem s) <= n)%nat -> intern_inv (table s) (mkHeap (heap_grants (mem s)) n)) as Hinv
    by (intros n Hle; eapply intern_inv_mono; [|done]; done).
  destruct (heap_grants (mem s) (heap_calls (mem s))) eqn:E1; simpl.
  - left. eexists _, _. split; [done|]. split; simpl; [done|done| | |done|by left| | | |done].
    + split; [lia|lia].
    + unfold nl; simpl. split; [lia|done].
    + split; [done|lia].
    + split; [apply Hinv; lia|done].
    + unfold spelled; simpl. split; [done|]. split; [done|]. split; [done|]. by left.
  - destruct (heap_grants (mem s) (S (heap_calls (mem s)))) eqn:E2; simpl; [left|by right].
    eexists _, _. split; [done|]. split; simpl; [done|done| | |done|by left| | | |done].
    + split; [lia|lia].
    + unfold nl; simpl. split; [lia|done].
    + split; [done|lia].
    + split; [apply Hinv; lia|done].
    + unfold spelled; simpl. eexists. split; [done|]. split; [done|]. split; [done|by left].
Qed.

(** ** String literals *)

Lemma push_ok cap c b : (List.length b < cap)%nat -> push cap c b = Ret (b ++ [c]).
Proof. intros H. unfold push. by rewrite (proj2 (Nat.ltb_lt _ _) H). Qed.

(** One character of a body, in terms of the text ahead. *)
Lemma body_loop_cons fuel cap aware b l c r : lexer_wf l -> rest l = c :: r ->
  body_loop (S fuel) cap aware b l =
    if (c =? 34) && negb (aware && (0 <? depth b)%nat) then Ret (b, l)
    else match (if c =? 92 then head r else None) with
    | Some e =>
        match string_escape e with
        | Some v => let! q := push cap v (buf b) in body_loop fuel cap aware (with_buf q b) (advance 2 l)
        | None =>
            let! q := push cap 92 (buf b) in
            let! q := push cap e q in
            body_loop fuel cap aware
              (mkBody q (depth b) (in_nested b) (if bad_escape b =? 0 then u8 e else bad_escape b)) (advance 2 l)
        end
    | None =>
        if aware && (negb (in_nested b) && (depth b =? 0)%nat && (c =? ch "{") && on_head (Z.eqb (ch "{")) r) then
          let! q := push cap (ch "{") (buf b) in
          let! q := push cap (ch "{") q in
          body_loop fuel cap aware (with_buf q b) (advance 2 l)
        else
          let b := if aware then interpolate c b else b in
          let! q := push cap c (buf b) in body_loop fuel cap aware (with_buf q b) (advance 1 l)
    end.
Proof.
  intros Hw Hr. pose proof (rest_length l Hw) as Hlen. rewrite Hr in Hlen. cbn [List.length] in Hlen.
  assert (position l < length l)%nat as Hp by lia.
  assert (current l = c) as Hc by (rewrite (rest_cons l Hw Hp) in Hr; congruence).
  assert (drop 1 (rest l) = r) as Hr1 by by rewrite Hr.
  assert (rest (advance 1 l) = r) as Hr1' by by rewrite rest_advance.
  cbn [body_loop]. rewrite (proj2 (Nat.ltb_lt _ _) Hp), Hc, next_is_head, Hr1 by done.
  destruct (_ && negb (aware && _)); [done|]. destruct (c =? 92); cbn [andb]; [|done]. destruct r as [|e r].
  - cbn [List.length] in Hlen. by rewrite (proj2 (Nat.ltb_ge _ _)) by lia.
  - cbn [List.length] in Hlen. rewrite (proj2 (Nat.ltb_lt _ _)) by lia. cbn [head].
    assert (current (advance 1 l) = e) as ->.
    { rewrite (rest_cons (advance 1 l)) in Hr1'; [congruence|apply wf_advance; [done|lia]|cbn; lia]. }
    by rewrite advance_advance.
Qed.

Lemma push_inv cap c b q : push cap c b = Ret q -> q = b ++ [c].
Proof. unfold push. case_match; [|done]. by intros [= <-]. Qed.

Lemma wf_rest_range l c r : lexer_wf l -> rest l = c :: r -> 0 < c < 256.
Proof.
  intros (_ & _ & Hf) Hr. apply (Forall_drop _ (position l)) in Hf. unfold rest in Hr. rewrite Hr in Hf.
  by apply Forall_cons in Hf as [? _].
Qed.

Lemma advance_rest l k w r : lexer_wf l -> rest l = w ++ r -> List.length w = k -> lexer_wf (advance k l) /\ rest (advance k l) = r.
Proof.
  intros Hw Hr <-. split; [|by rewrite rest_advance, Hr, drop_app_length]. apply wf_advance; [done|].
  pose proof (rest_length l Hw) as Hl. rewrite Hr, length_app in Hl. destruct Hw as (? & ? & _). lia.
Qed.

Lemma interpolate_buf c b : buf (interpolate c b) = buf b.
Proof. unfold interpolate. repeat case_match; done. Qed.

(** An ordinary character continues a body as the braces and quotes have it. *)
Lemma interpolate_body aware c b text r bytes : c <> 92 -> (c =? 34) && negb (aware && (0 <? depth b)%nat) = false ->
  aware && (negb (in_nested b) && (depth b =? 0)%nat && (c =? ch "{") && on_head (Z.eqb (ch "{")) (text ++ 34 :: r)) = false ->
  string_body aware (depth (if aware then interpolate c b else b)) (in_nested (if aware then interpolate c b else b)) text bytes ->
  string_body aware (depth b) (in_nested b) (c :: text) (c :: bytes).
Proof.
  intros Hc Hq Hbb. destruct aware; cbn [andb] in *.
  2:{ intros H. apply body_plain; [done| |done|done]. intros ->. done. }
  unfold interpolate. destruct (depth b) as [|d] eqn:Ed, (in_nested b) eqn:En, (Z.eqb_spec c 34) as [->|Hc34]; cbn [Nat.ltb Nat.leb andb negb] in *; try done.
  all: intros H. 1,4: rewrite ?Ed, ?En in H; by apply body_plain. 2,3: cbn [depth in_nested] in H; rewrite ?Ed, ?En in H; by apply body_quote.
  - destruct (Z.eqb_spec c (ch "{")) as [->|H1]; cbn [depth in_nested] in H; rewrite ?Ed, ?En in H.
    + rewrite Nat.add_1_r in H. apply body_open; [done| |done]. intros _ E. destruct text as [|x text]; [done|]. injection E as ->. done.
    + rewrite andb_false_r in H. rewrite Ed, En in H. by apply body_plain.
  - destruct (Z.eqb_spec c (ch "{")) as [->|H1]; cbn [depth in_nested] in H; rewrite ?Ed, ?En in H.
    + rewrite Nat.add_1_r in H. by apply body_open.
    + destruct (Z.eqb_spec c (ch "}")) as [->|H2]; cbn [andb depth in_nested] in H; rewrite ?Ed, ?En in H.
      * rewrite Nat.sub_1_r in H. by apply body_close.
      * by apply body_plain.
Qed.

(** A body read to its quote without a bad escape is a body of the language
    that stands for the bytes in the buffer. *)
Lemma body_loop_sound cap aware fuel : forall b l b' l', lexer_wf l -> body_loop fuel cap aware b l = Ret (b', l') ->
  bad_escape b' = 0 -> (position l' < length l)%nat -> (aware = false -> depth b = O) ->
  bad_escape b = 0 /\ exists text bytes r, rest l = text ++ 34 :: r /\ l' = advance (List.length text) l /\
    buf b' = buf b ++ bytes /\ string_body aware (depth b) (in_nested b) text bytes.
Proof.
  induction fuel as [|fuel IH]; intros b l b' l' Hw E Hbad Hlt Hd0; [done|].
  destruct (rest l) as [|c r] eqn:Hr.
  { pose proof (rest_length l Hw) as Hlen. rewrite Hr in Hlen. cbn [List.length] in Hlen.
    cbn [body_loop] in E. rewrite (proj2 (Nat.ltb_ge _ _)) in E by lia.
    injection E as <- <-. lia. }
  rewrite (body_loop_cons _ _ _ _ _ c r Hw Hr) in E. destruct (_ && negb _) eqn:Hq.
  { injection E as <- <-. apply andb_true_iff in Hq as [->%Z.eqb_eq Hq]. split; [done|]. exists [], [], r. rewrite advance_0, app_nil_r.
    split; [done|]. split; [done|]. split; [done|]. assert (depth b = O) as ->; [|constructor]. destruct aware; [|by apply Hd0].
    cbn [andb] in Hq. apply negb_true_iff, Nat.ltb_ge in Hq. lia. }
  assert (Hgo : forall w v r0 b1, c :: r = w ++ r0 -> body_loop fuel cap aware b1 (advance (List.length w) l) = Ret (b', l') ->
    (aware = false -> depth b1 = O) -> buf b1 = buf b ++ v -> bad_escape b1 = bad_escape b ->
    (forall text bytes r1, r0 = text ++ 34 :: r1 -> string_body aware (depth b1) (in_nested b1) text bytes ->
       string_body aware (depth b) (in_nested b) (w ++ text) (v ++ bytes)) ->
    bad_escape b = 0 /\ exists text bytes r1, c :: r = text ++ 34 :: r1 /\ l' = advance (List.length text) l /\
      buf b' = buf b ++ bytes /\ string_body aware (depth b) (in_nested b) text bytes).
  { intros w v r0 b1 Hr0 E1 Hd1 Hbuf Hbe Hbody. rewrite Hr0 in Hr. destruct (advance_rest l _ w r0 Hw Hr eq_refl) as [Hw1 Hr1].
    destruct (IH _ _ _ _ Hw1 E1 Hbad Hlt Hd1) as (Hb1 & text & bytes & r1 & H1 & H2 & H3 & H4). split; [congruence|].
    rewrite Hr1 in H1. exists (w ++ text), (v ++ bytes), r1. rewrite Hr0, H1, <- app_assoc. split; [done|]. split.
    - by rewrite H2, advance_advance, length_app.
    - split; [by rewrite H3, Hbuf, <- app_assoc|]. by eapply Hbody. }
  destruct (if c =? 92 then head r else None) as [e|] eqn:He.
  { destruct (Z.eqb_spec c 92) as [->|]; [|done]. destruct r as [|e' r]; [done|]. injection He as ->.
    destruct (string_escape e) as [v|] eqn:Ev.
    - destruct (push _ _ _) as [q| |] eqn:Ep; [|done..]. apply push_inv in Ep as ->. cbn [obind] in E.
      apply (Hgo [92; e] [v] r _ eq_refl E); [done..|]. intros text bytes r1 _ Hb. apply body_escape; [by apply string_escape_spec|exact Hb].
    - exfalso. destruct (push _ _ _) as [q| |] eqn:Ep; [|done..]. cbn [obind] in E. destruct (push _ _ q) as [q2| |]; [|done..].
      cbn [obind] in E. destruct (advance_rest l 2 [92; e] r Hw Hr eq_refl) as [Hw1 Hr1].
      apply IH in E as [Hz _]; [|done..]. cbn [bad_escape] in Hz. destruct (Z.eqb_spec (bad_escape b) 0) as [|]; [|done].
      destruct (advance_rest l 1 [92] (e :: r) Hw Hr eq_refl) as [Hwe Hre]. pose proof (wf_rest_range _ _ _ Hwe Hre) as He0.
      rewrite wrapu_small in Hz by (unfold in_u; simpl; lia). lia. }
  assert (c <> 92 \/ r = []) as Hc92.
  { destruct (Z.eqb_spec c 92); [|by left]. destruct r; [by right|done]. }
  clear He. destruct (aware && (negb _ && _ && _ && _)) eqn:Hbb.
  - rewrite !andb_true_iff in Hbb. destruct Hbb as [Ha [[[Hn%negb_true_iff Hd%Nat.eqb_eq] ->%Z.eqb_eq] Hh]].
    destruct r as [|c2 r]; [done|]. apply Z.eqb_eq in Hh as <-. destruct (push _ _ _) as [q| |] eqn:Ep; [|done..].
    apply push_inv in Ep as ->. cbn [obind] in E. destruct (push _ _ (_ ++ _)) as [q| |] eqn:Ep; [|done..]. apply push_inv in Ep as ->.
    cbn [obind] in E. apply (Hgo [ch "{"; ch "{"] [ch "{"; ch "{"] r _ eq_refl E); [done|by rewrite <- app_assoc|done|].
    intros text bytes r1 _. cbn [with_buf depth in_nested]. rewrite Hn, Hd. by apply body_braces.
  - cbv zeta in E. destruct (push _ _ _) as [q| |] eqn:Ep; [|done..]. apply push_inv in Ep as ->. cbn [obind] in E.
    set (bi := if aware then interpolate c b else b) in *. assert (buf bi = buf b) as Hbi by (unfold bi; destruct aware; [apply interpolate_buf|done]).
    assert (bad_escape bi = bad_escape b) as Hbe by (unfold bi, interpolate; repeat case_match; done).
    apply (Hgo [c] [c] r _ eq_refl E); [|by rewrite <- Hbi|done|].
    { intros ->. by apply Hd0. }
    intros text bytes r1 -> Hb. cbn [with_buf depth in_nested] in Hb. destruct Hc92 as [Hc92|Hc92]; [|by destruct text].
    apply (interpolate_body aware c b text r1 bytes); done.
Qed.

(** The body fits the block: every character written was read. *)
Lemma body_loop_spec cap aware fuel : forall b l, lexer_wf l -> (length l - position l < fuel)%nat ->
  (List.length (buf b) + (length l - position l) < cap)%nat ->
  exists b' k, body_loop fuel cap aware b l = Ret (b', advance k l) /\ (position l + k <= length l)%nat /\
    (List.length (buf b') + (length l - (position l + k)) < cap)%nat /\
    ((position l + k < length l)%nat -> at_ l (position l + k) = 34).
Proof.
  induction fuel as [|fuel IH]; intros b l Hw Hf Hcap; [lia|]. cbn [body_loop].
  assert (Hstep : forall b1 j, (0 < j)%nat -> (position l + j <= length l)%nat ->
    (List.length (buf b1) + (length l - (position l + j)) < cap)%nat ->
    exists b' k, body_loop fuel cap aware b1 (advance j l) = Ret (b', advance k l) /\ (position l + k <= length l)%nat /\
      (List.length (buf b') + (length l - (position l + k)) < cap)%nat /\
      ((position l + k < length l)%nat -> at_ l (position l + k) = 34)).
  { intros b1 j Hj Hle Hc1. destruct (IH b1 (advance j l)) as (b' & k & E & Hk & Hc' & Hq); simpl in *.
    - eapply moved_wf; [done|by apply moved_advance].
    - lia.
    - lia.
    - exists b', (j + k)%nat. rewrite E, advance_advance, Nat.add_assoc. split_and!; done. }
  destruct (Nat.ltb_spec (position l) (length l)) as [Hlt|Hge].
  2:{ exists b, O. rewrite advance_0, Nat.add_0_r. destruct Hw as (? & ? & ?). split_and!; [done|lia|lia|lia]. }
  destruct (_ && negb _) eqn:Hq.
  { apply andb_true_iff in Hq as [Hq%Z.eqb_eq _]. exists b, O. rewrite advance_0, Nat.add_0_r.
    split_and!; [done|lia|lia|done]. }
  clear Hq. destruct (_ && (position l + 1 <? length l)%nat) eqn:He.
  { apply andb_true_iff in He as [_ He%Nat.ltb_lt]. destruct (string_escape _) as [v|].
    - rewrite push_ok by lia. cbn [obind]. rewrite advance_advance. apply Hstep; [lia|simpl; lia|].
      simpl. rewrite length_app. simpl. lia.
    - rewrite push_ok by lia. cbn [obind]. rewrite push_ok by (rewrite length_app; simpl; lia). cbn [obind].
      rewrite advance_advance. apply Hstep; [lia|simpl; lia|]. simpl. rewrite !length_app. simpl. lia. }
  clear He. destruct (aware && _) eqn:Hb.
  - apply andb_true_iff in Hb as [_ [_ [Hn _]%next_is_lt]%andb_true_iff].
    rewrite push_ok by lia. cbn [obind]. rewrite push_ok by (rewrite length_app; simpl; lia). cbn [obind].
    apply Hstep; [lia|simpl; lia|]. simpl. rewrite !length_app. simpl. lia.
  - assert (buf (if aware then interpolate (current l) b else b) = buf b) as -> by (destruct aware; [apply interpolate_buf|done]).
    rewrite push_ok by lia. cbn [obind]. apply Hstep; [lia|simpl; lia|]. simpl. rewrite length_app. simpl. lia.
Qed.

Ltac run_char E :=
  change (ch "{") with 123 in *; change (ch "}") with 125 in *;
  cbn [Z.eqb Pos.eqb andb orb negb Nat.ltb Nat.leb Nat.eqb on_head head] in E.

(** The reader goes on behind the characters [w]. *)
Ltac follow w IH :=
  repeat match goal with H : obind (push _ _ _) _ = Ret _ |- _ => destruct (push _ _ _); [cbn [obind] in H|discriminate H..] end;
  match goal with Hw : lexer_wf ?l, Hr : rest ?l = _, E : body_loop _ _ _ _ _ = Ret _ |- _ =>
    let Hw1 := fresh in let Hr1 := fresh in
    destruct (advance_rest l _ w _ Hw Hr eq_refl) as [Hw1 Hr1]; refine (IH _ _ _ _ _ _ Hw1 Hr1 _ _ E)
  end.

(** Where a body of the language ends, the reader that knows interpolation stops. *)
Lemma body_loop_follows cap d nested text bytes : string_body true d nested text bytes ->
  forall fuel b l b' l' r, lexer_wf l -> rest l = text ++ 34 :: r -> depth b = d -> in_nested b = nested ->
  body_loop fuel cap true b l = Ret (b', l') -> (position l' < length l)%nat.
Proof.
  induction 1 as [n|d n e v t bs He Hb IH|t bs _ Hb IH|d t bs _ Hh Hb IH|d t bs _ Hb IH|d n t bs _ Hb IH|d n c t bs H92 H34 Hc Hb IH];
    intros [|fuel] b l b' l' r Hw Hr Hd Hn E; try done; rewrite <- ?app_comm_cons in Hr; rewrite (body_loop_cons _ _ _ _ _ _ _ Hw Hr) in E; rewrite ?Hd, ?Hn in E.
  - cbn in E. injection E as _ <-. pose proof (rest_length l Hw) as Hlen. rewrite Hr in Hlen. cbn [app List.length] in Hlen. lia.
  - cbn [Z.eqb Pos.eqb andb head app] in E. apply string_escape_spec in He. rewrite He in E.
    by follow [92; e] IH.
  - run_char E. by follow [ch "{"; ch "{"] IH.
  - run_char E. assert ((d =? 0)%nat && true && on_head (Z.eqb 123) (t ++ 34 :: r) = false) as Ho.
    { destruct d as [|d]; [|done]. specialize (Hh eq_refl). destruct t as [|x t]; [done|]. apply Z.eqb_neq. intros <-. by apply Hh. }
    cbn [andb] in E, Ho. rewrite Ho in E. unfold interpolate in E. rewrite Hd, Hn, andb_false_r in E. cbn [negb] in E. change (123 =? ch "{") with true in E.
    follow [123] IH; cbn; [lia|done].
  - run_char E. follow [125] IH; cbn [with_buf depth in_nested]; unfold interpolate; rewrite Hd, Hn; change (ch "{") with 123; change (ch "}") with 125; cbn; [lia|done].
  - run_char E. rewrite !andb_false_r in E. cbn [andb] in E.
    follow [34] IH; cbn [with_buf depth in_nested]; unfold interpolate; rewrite Hd, ?Hn; cbn; done.
  - run_char E. rewrite (proj2 (Z.eqb_neq _ _) H92), (proj2 (Z.eqb_neq _ _) H34) in E. cbn [andb] in E.
    assert (n = false -> c <> 123 /\ (c = 125 -> d = O)) as Hc' by (by apply Hc).
    assert (negb n && (d =? 0)%nat && (c =? 123) && on_head (Z.eqb 123) (t ++ 34 :: r) = false) as Hnb.
    { destruct n; [done|]. destruct (Hc' eq_refl) as [Hc1 _]. rewrite (proj2 (Z.eqb_neq _ _) Hc1). by rewrite andb_false_r. }
    rewrite Hnb in E. assert (interpolate c b = b) as Hb'.
    { unfold interpolate. rewrite (proj2 (Z.eqb_neq _ _) H34), andb_false_r, Hn. destruct n; [done|]. destruct (Hc' eq_refl) as [Hc1 Hc2].
      cbn [negb]. change (ch "{") with 123. change (ch "}") with 125. rewrite (proj2 (Z.eqb_neq _ _) Hc1).
      destruct (Z.eqb_spec c 125) as [->|]; [|done]. rewrite Hd, Hc2 by done. done. }
    rewrite Hb' in E. by follow [c] IH.
Qed.

Lemma read_string_body_spec cap aware l : lexer_wf l -> (length l - position l < cap)%nat ->
  exists closed b bad k, lexer_read_string_body cap aware l = Ret (closed, b, bad, advance k l) /\
    (position l + k <= length l)%nat /\ closed = (position l + k <? length l)%nat /\
    (List.length b + (length l - (position l + k)) < cap)%nat.
Proof.
  intros Hw Hcap. unfold lexer_read_string_body.
  destruct (body_loop_spec cap aware (remaining l) (mkBody [] 0 false 0) l) as (b' & k & -> & Hk & Hc & _);
    [done|apply remaining_enough|simpl; lia|].
  cbn [obind]. eexists _, _, _, k. split_and!; [done|done|done|done].
Qed.

(** What a pass over a body says of it. *)
Lemma read_string_body_means cap aware l closed b bad l' : lexer_wf l ->
  lexer_read_string_body cap aware l = Ret (closed, b, bad, l') ->
  (bad = 0 -> (position l' < length l)%nat -> exists text r, rest l = text ++ 34 :: r /\ l' = advance (List.length text) l /\
     string_body aware 0 false text b) /\
  (aware = true -> (length l <= position l')%nat ->
     forall text r bytes, rest l = text ++ 34 :: r -> ~ string_body true 0 false text bytes).
Proof.
  intros Hw E. unfold lexer_read_string_body in E. destruct (body_loop _ _ _ _ _) as [[b' l1]| |] eqn:El; [|done..]. cbn [obind] in E.
  injection E as _ <- <- <-. split.
  - intros Hbad Hlt. destruct (body_loop_sound _ _ _ _ _ _ _ Hw El Hbad Hlt) as (_ & text & bytes & r & Hr & Hl & Hb & Hs); [done|].
    exists text, r. cbn [app buf depth in_nested] in Hb, Hs. rewrite Hb. done.
  - intros -> Hge text r bytes Hr Hs. apply (Nat.lt_irrefl (length l)). eapply Nat.le_lt_trans; [exact Hge|].
    by eapply (body_loop_follows _ _ _ _ _ Hs); [..|exact El].
Qed.

Lemma quote_before l r body : rest l = body ++ 34 :: r -> r = rest (advance (List.length body + 1) l).
Proof.
  intros Hr. rewrite rest_advance, Hr, <- drop_drop, drop_app_length. done.
Qed.

Lemma newlines_mono a b (l : list Z) : (a <= b)%nat -> (newlines (take a l) <= newlines (take b l))%nat.
Proof.
  intros H. rewrite <- (take_drop a (take b l)), newlines_app, take_take, Nat.min_l by lia. lia.
Qed.

Lemma reached_advance s s1 k : reached s s1 -> lexer_wf (lx s) -> (position (lx s1) + k <= length (lx s1))%nat ->
  reached s (on_lx (advance k) s1).
Proof.
  intros Hr Hw Hk. pose proof (moved_wf _ _ Hw (rc_moved _ _ Hr)) as Hw1. destruct Hr. split; simpl; [|  |done..].
  - eapply moved_trans; [done|]. by apply moved_advance.
  - unfold nl in *; simpl. pose proof (newlines_mono (position (lx s1)) (position (lx s1) + k) (source (lx s1))). lia.
Qed.

Lemma string_ok s : lexer_wf (lx s) -> intern_inv (table s) (mem s) ->
  (position (lx s) < length (lx s))%nat -> current (lx s) = 34 -> exists t s', lexer_lex_string_literal s = Ret (t, s') /\ token_ok s t s'.
Proof.
  intros Hw Hi Hp Hq. unfold lexer_lex_string_literal.
  assert (Hk : forall p : Token * env, token_ok s p.1 p.2 -> exists t' s', Ret p = Ret (t', s') /\ token_ok s t' s')
    by (intros p Hp0; exists p.1, p.2; by rewrite <- surjective_pairing).
  assert (Hr0 : reached s s) by (destruct s; split; simpl; [by apply moved_refl|done..]).
  pose proof (reached_advance _ _ 1 Hr0 Hw ltac:(lia)) as Hr1. pose proof (reached_alloc _ _ Hr1) as Hr2.
  set (s1 := on_lx (advance 1) s) in *. destruct (env_alloc s1) as [ok s2] eqn:E.
  assert (lx s2 = advance 1 (lx s)) as Elx by (by injection E as _ <-). simpl in Hr2.
  destruct ok; cbn [negb].
  2:{ apply Hk, token_fail; [done|done|rewrite Elx; simpl; lia|done]. }
  pose proof (moved_wf _ _ Hw (rc_moved _ _ Hr2)) as Hw2.
  set (cap := (length (lx s1) - position (lx s1) + 1)%nat).
  assert (length (lx s2) - position (lx s2) < cap)%nat as Hcap by (rewrite Elx; unfold cap; simpl; lia).
  destruct (read_string_body_spec cap true (lx s2) Hw2 Hcap) as (closed & b & bad & k & E1 & Hk1 & Hclosed & Hb).
  rewrite E1. cbn [obind]. destruct (read_string_body_means _ _ _ _ _ _ _ Hw2 E1) as [Hm1 Hm2].
  set (m := if closed then _ else _).
  assert (exists b bad k, m = Ret (b, bad, advance k (lx s2)) /\ (position (lx s2) + k <= length (lx s2))%nat /\
    (List.length b + (length (lx s2) - (position (lx s2) + k)) < cap)%nat /\
    (bad = 0 -> (position (lx s2) + k < length (lx s2))%nat ->
     string_literal (34 :: rest (lx s2)) (rest (advance (k + 1) (lx s2))) b)) as (b2 & bad2 & k2 & Em & Hk2 & Hb2 & Hlit).
  { unfold m. destruct closed.
    { exists b, bad, k. split; [done|]. split; [done|]. split; [done|]. intros Hbad Hlt. destruct (Hm1 Hbad Hlt) as (text & r & Hr & Hl & Hs).
      exists text. rewrite Hr. assert (k = List.length text) as -> by (apply (f_equal position) in Hl; cbn in Hl; lia).
      split; [by rewrite <- (quote_before _ _ _ Hr)|by left]. }
    replace (with_position (position (lx s2)) (line (advance k (lx s2))) (column (lx s2)) (advance k (lx s2)))
      with (lx s2) by (by destruct (lx s2)).
    destruct (read_string_body_spec cap false (lx s2) Hw2 Hcap) as (c' & b' & bad' & k' & E2 & Hk' & _ & Hb').
    rewrite E2. cbn [obind]. exists b', bad', k'. split; [done|]. split; [done|]. split; [done|]. intros Hbad Hlt.
    destruct (read_string_body_means _ _ _ _ _ _ _ Hw2 E2) as [Hm3 _]. destruct (Hm3 Hbad Hlt) as (text & r & Hr & Hl & Hs).
    exists text. assert (k' = List.length text) as -> by (apply (f_equal position) in Hl; cbn in Hl; lia).
    rewrite <- (quote_before _ _ _ Hr). split; [by rewrite Hr|]. right. split; [done|]. intros body' r' bytes' [= Hr'].
    apply (Hm2 eq_refl) with (r := r'); [|done]. apply Nat.ltb_ge. by symmetry. }
  rewrite Em. cbn [obind]. clear m Em.
  assert (reached s (on_lx (fun _ => advance k2 (lx s2)) s2)) as Hr3 by (by apply (reached_advance s s2 k2)).
  set (s3 := on_lx (fun _ => advance k2 (lx s2)) s2) in *.
  assert (position (lx s) < position (lx s3))%nat as Hp3 by (simpl; rewrite Elx; simpl; lia).
  destruct (Nat.leb_spec (length (lx s3)) (position (lx s3))) as [Hge|Hlt]; [apply Hk, token_fail; done|].
  pose proof (reached_advance _ _ 1 Hr3 Hw ltac:(lia)) as Hr4.
  destruct (Z.eqb_spec bad2 0) as [Hbad|]; cbn [negb].
  2:{ apply Hk, token_fail; [done|done|simpl in *; lia|done]. }
  rewrite push_ok by lia. cbn [obind]. eexists _, _. split; [done|].
  apply token_make; [done|done|done|simpl in *; lia|done|done|done|done|].
  unfold spelled; simpl. eexists. split; [done|]. split; [done|]. split; [done|]. right. split; [done|].
  exists (position (lx s)). split; [rewrite Elx; simpl; lia|]. specialize (Hlit Hbad Hlt). rewrite advance_advance.
  assert (drop (position (lx s)) (source (lx s2)) = 34 :: rest (lx s2)) as ->; [|exact Hlit].
  rewrite Elx. pose proof (rest_cons _ Hw Hp) as Hrs. rewrite Hq in Hrs. rewrite rest_advance, Hrs. exact Hrs.
Qed.

(** ** The scanner *)

(** The one undefined case: an unknown character when the block for its
    message and then the copy of the shorter message are both refused. *)
Definition twice_refused (s : env) : Prop :=
  heap_grants (mem s) (heap_calls (mem s)) = false /\ heap_grants (mem s) (S (heap_calls (mem s))) = false.

Definition token_or_refused (s : env) (r : outcome (Token * env)) : Prop :=
  (exists t s', r = Ret (t, s') /\ token_ok s t s') \/ (r = Undef /\ twice_refused s).

Lemma newline_not_scanned l : lexer_wf l -> isspace (current l) = false -> current l <> 10.
Proof. intros _ H E. by rewrite E in H. Qed.

Lemma scan_symbol_ok s : lexer_wf (lx s) -> intern_inv (table s) (mem s) ->
  (position (lx s) < length (lx s))%nat -> current (lx s) <> 10 ->
  token_or_refused s (scan_symbol (current (lx s)) (blank (line (lx s)) (column (lx s))) s).
Proof.
  intros Hw Hi Hp Hc. unfold scan_symbol. pose proof (scan_switch_ok (lx s) Hw Hp) as Hsw.
  assert (Hk : forall p : Token * env, token_ok s p.1 p.2 -> token_or_refused s (Ret p))
    by (intros p Hp0; left; exists p.1, p.2; by rewrite <- surjective_pairing).
  destruct (scan_switch (lx s) (current (lx s))) as [ty d|ty w|]; simpl in Hsw.
  - destruct Hsw as [H1 H2]. apply Hk. by apply one_char_ok.
  - destruct Hsw as [H1 H2]. apply Hk. by apply operator_ok.
  - destruct (Z.eq_dec (current (lx s)) (ch "-")) as [Hm|Hm]; [left; by apply minus_ok|].
    unfold scan_rest. rewrite (proj2 (Z.eqb_neq _ _) Hm). cbn [andb].
    destruct (Z.eqb_spec (current (lx s)) 39) as [Hq|Hq]; [apply Hk; by apply char_literal_ok|].
    destruct (isdigit (current (lx s)) || _) eqn:Hd.
    { left. apply number_ok; [done..|]. apply orb_true_iff in Hd as [Hd|Hd]; [done|].
      apply andb_true_iff in Hd as [Hd%Z.eqb_eq _]. by rewrite Hd. }
    apply orb_false_iff in Hd as [Hd _].
    destruct (isalpha (current (lx s)) || _) eqn:Ha.
    { left. apply identifier_ok; [done..|]. unfold ident_char, isalnum. rewrite Hd, orb_false_r. exact Ha. }
    destruct (Z.eqb_spec (current (lx s)) 34) as [Hs|Hs]; [left; by apply string_ok|].
    apply scan_unknown_ok; done.
Qed.

(** What one scan does: a token, or a comment read, or the undefined case. *)
Definition scan_result (s : env) (r : outcome (scanned * env)) : Prop :=
  (exists t s', r = Ret (Done t, s') /\ token_ok s t s') \/
  (exists s', r = Ret (Again, s') /\ reached s s' /\ lines (lx s) (lx s') /\
     (position (lx s) < position (lx s'))%nat /\ mem s' = mem s) \/
  (r = Undef /\ twice_refused s).

Lemma line_comment_spec l : lexer_wf l -> (position l < length l)%nat -> current l = ch "/" -> next_is l 1 "/" = true ->
  exists l', skip_line_comment l = Ret l' /\ moved l l' /\ lines l l' /\ (position l < position l')%nat.
Proof.
  intros Hw Hp Hc [Hn1 Hn2]%next_is_lt. unfold skip_line_comment.
  assert (moved l (advance 2 l)) as Hm by (apply moved_advance; [done|lia]).
  assert (lines l (advance 2 l)) as Hl by (apply lines_advance_2; [done|done|rewrite Hc; done|rewrite Hn2; done]).
  destruct (loop_after (fun l => negb (current l =? 10)) 2 l Hw Hm Hl) as (k & -> & Hk & Hmk & Hlk & _).
  { intros l2 H E. by rewrite E in H. }
  eexists. split_and!; [done..|simpl; lia].
Qed.

Lemma block_comment_ok s : lexer_wf (lx s) -> intern_inv (table s) (mem s) -> (position (lx s) < length (lx s))%nat ->
  current (lx s) = ch "/" -> next_is (lx s) 1 "*" = true ->
  exists r s', skip_block_comment s = Ret (r, s') /\
    match r with
    | Some t => token_ok s t s'
    | None => reached s s' /\ lines (lx s) (lx s') /\ (position (lx s) < position (lx s'))%nat /\ mem s' = mem s
    end.
Proof.
  intros Hw Hi Hp Hc [Hn1 Hn2]%next_is_lt. unfold skip_block_comment.
  assert (moved (lx s) (advance 2 (lx s))) as Hm by (apply moved_advance; [done|lia]).
  assert (lines (lx s) (advance 2 (lx s))) as Hl
    by (apply lines_advance_2; [done|done|rewrite Hc; done|rewrite Hn2; done]).
  destruct (block_loop_spec (remaining (advance 2 (lx s))) 1 (advance 2 (lx s))) as (d & l & -> & Hm' & Hl' & Hd);
    [by eapply moved_wf|apply remaining_enough|]. cbn [obind].
  pose proof (moved_trans _ _ _ Hm Hm') as Hm2. pose proof (lines_trans _ _ _ Hl Hl') as Hl2.
  pose proof (reached_start s l Hw Hi Hm2 Hl2) as Hr. pose proof (mv_position _ _ Hm') as Hpos. simpl in Hpos.
  destruct (d =? 0)%nat; cbn [negb].
  - eexists _, _. split; [done|]. split_and!; [done|done|simpl; lia|done].
  - set (t := blank _ _). pose proof (token_fail s _ (str "Unterminated block comment") t Hw Hr ltac:(simpl; lia) eq_refl) as Hf.
    destruct (fail_with _ t _) as [t' s']. by eexists _, _.
Qed.

Lemma scan_token_ok s : lexer_wf (lx s) -> intern_inv (table s) (mem s) -> scan_result s (lexer_scan_token s).
Proof.
  intros Hw Hi. unfold lexer_scan_token.
  destruct (skip_space_spec (remaining (lx s)) (lx s) Hw (remaining_enough _)) as (n & l & -> & Hm & Hl & Hn).
  cbn [obind]. pose proof (reached_start s l Hw Hi Hm Hl) as Hr. pose proof (moved_wf _ _ Hw Hm) as Hwl.
  pose proof (mv_position _ _ Hm) as Hpos. set (s1 := on_lx (fun _ => l) s) in *.
  destruct n.
  { destruct Hn as (Hlt & Hc & Hd & Hcont). left. eexists _, _. split; [done|].
    assert (moved l (next_line l)) as Hm1 by by apply moved_next_line.
    pose proof (lines_trans _ _ _ Hl (lines_next_line l Hwl Hlt Hc)) as Hl1.
    pose proof (moved_wf _ _ Hwl Hm1) as Hw2. pose proof (mv_depth _ _ Hm). pose proof (mv_last _ _ Hm).
    unfold lines, nl in Hl1. simpl in Hl1.
    split; simpl; [done|apply Hm| | |apply Hm|split; apply Hm|done|done| |].
    - split; lia.
    - unfold nl. simpl. split; [lia|]. intros _ _. lia.
    - unfold spelled; simpl. split; [lia|]. split; [lia|]. split; [done|]. unfold slice.
      cbn [lx on_lx next_line with_position source]. rewrite (drop_S _ _ _ (at_lookup l _ Hwl Hlt)).
      fold (current l). by rewrite Hc.
    - intros _. split_and!; [congruence|congruence|done]. }
  destruct (Nat.leb_spec (length l) (position l)) as [Hge|Hlt].
  { left. eexists _, _. split; [done|]. unfold lines in Hl. pose proof Hwl as (Hw1 & Hw2 & Hw3).
    split; simpl; [done|apply Hm| | |apply Hm|split; apply Hm|done|done| |done].
    - split; lia.
    - unfold nl in *. split; [lia|]. intros _ _. lia.
    - unfold spelled; simpl. auto. }
  specialize (Hn ltac:(by rewrite <- (mv_length _ _ Hm) in Hlt || done)).
  pose proof (newline_not_scanned l Hwl Hn) as Hc.
  assert (Hi1 : intern_inv (table s1) (mem s1)) by done.
  destruct (_ && next_is l 1 "/") eqn:E1.
  { apply andb_true_iff in E1 as [E1%Z.eqb_eq E2]. right. left.
    destruct (line_comment_spec l Hwl Hlt E1 E2) as (l' & -> & Hm' & Hl' & Hp'). cbn [obind].
    eexists. split; [done|]. split_and!; [|by eapply lines_trans|simpl; lia|done].
    apply (reached_on s s1 (fun _ => l')); done. }
  destruct (_ && next_is l 1 "*") eqn:E2.
  { apply andb_true_iff in E2 as [E2%Z.eqb_eq E3].
    destruct (block_comment_ok s1 Hwl Hi1 Hlt E2 E3) as (r & s' & -> & Hres). cbn [obind].
    destruct r as [t|]; [left|right; left].
    - eexists _, _. split; [done|]. by apply (token_reached s s1).
    - destruct Hres as (Hr' & Hl' & Hp' & Hmem). eexists. split; [done|]. split_and!.
      + destruct Hr, Hr'. split; [by eapply moved_trans|lia|congruence|lia|done|by etrans].
      + by eapply lines_trans.
      + simpl in *. lia.
      + done. }
  destruct (scan_symbol_ok s1 Hwl Hi1 Hlt Hc) as [(t & s' & E & Hok)|[E Ht]]; simpl in E; rewrite E; cbn [obind].
  - left. eexists _, _. split; [done|]. by apply (token_reached s s1).
  - right. right. done.
Qed.

Lemma token_with_last s t s' ty : token_ok s t s' -> ttype t <> TOKEN_NEWLINE -> token_ok s t (on_lx (with_last ty) s').
Proof. intros [] H. split; try done. Qed.

(** The scanner with its re-entries: enough fuel for every comment. *)
Lemma next_token_core fuel : forall s, lexer_wf (lx s) -> intern_inv (table s) (mem s) ->
  (length (lx s) - position (lx s) < fuel)%nat ->
  (exists t s', next_token fuel s = Ret (t, s') /\ token_ok s t s' /\
     (ttype t <> TOKEN_NEWLINE -> last_significant (lx s') = ttype t)) \/
  (next_token fuel s = Undef /\ twice_refused s).
Proof.
  induction fuel as [|fuel IH]; intros s Hw Hi Hf; [lia|]. cbn [next_token].
  assert (Hend : forall t s', token_ok s t s' ->
    token_ok s t (if bool_decide (ttype t = TOKEN_NEWLINE) then s' else on_lx (with_last (ttype t)) s') /\
    (ttype t <> TOKEN_NEWLINE ->
     last_significant (lx (if bool_decide (ttype t = TOKEN_NEWLINE) then s' else on_lx (with_last (ttype t)) s')) = ttype t)).
  { intros t s' Ht. case_bool_decide as Hb; [done|]. split; [by apply token_with_last|done]. }
  destruct (scan_token_ok s Hw Hi) as [(t & s' & -> & Ht)|[(s1 & -> & Hr & Hl & Hp & Hmem)|[-> Ht]]]; cbn [obind].
  - left. eexists _, _. split; [done|]. by apply Hend.
  - pose proof (moved_wf _ _ Hw (rc_moved _ _ Hr)) as Hw1. pose proof (mv_position _ _ (rc_moved _ _ Hr)) as Hpos.
    destruct (IH s1 Hw1 (rc_inv _ _ Hr)) as [(t & s' & -> & Ht & _)|[-> Ht]]; cbn [obind].
    + rewrite (mv_length _ _ (rc_moved _ _ Hr)). lia.
    + left. eexists _, _. split; [done|]. apply Hend. by eapply token_reached.
    + right. split; [done|]. unfold twice_refused in *. by rewrite Hmem in Ht.
  - right. done.
Qed.

Lemma next_token_ok s : lexer_wf (lx s) -> intern_inv (table s) (mem s) ->
  (exists t s', lexer_next_token s = Ret (t, s') /\ token_ok s t s' /\
     (ttype t <> TOKEN_NEWLINE -> last_significant (lx s') = ttype t)) \/
  (lexer_next_token s = Undef /\ twice_refused s).
Proof. intros Hw Hi. apply next_token_core; [done|done|apply remaining_enough]. Qed.

End correct.
End LexerCorrect.
