(* ===== verification/LexerProps.v ===== *)
(** What the lexer guarantees to the parser: the theorems read off
    [LexerCorrect.next_token_ok], the round trip of string literals, and the
    behaviour of peeking and copying. *)
From Stdlib Require Import String Ascii Sorted.
From stdpp Require Import gmap pretty sorting.
From S2P Require Import Prelude StringIntern LexTokens Lexer LexerCorrect.
#[local] Open Scope Z_scope.
#[local] Open Scope list_scope.

Module LexerProps.
Import Tokens Lexer LexText LexerCorrect.
Import Intern(Interner, intern_op, intern_inv, intern_map, intern_inv_mono, intern_op_spec, until_nul).

Section props.
Context {T : Type} {IT : Interner T}.
Abbreviation env := (@env T).

(** The tokens of a text up to its end, as a caller reads them. *)
Fixpoint tokenize (fuel : nat) (s : env) : outcome (list Token * env) :=
  match fuel with
  | O => NoFuel
  | S fuel =>
      let! (t, s) := lexer_next_token s in
      if bool_decide (ttype t = TOKEN_EOF) then Ret ([t], s)
      else let! (ts, s) := tokenize fuel s in Ret (t :: ts, s)
  end.

(** Two tokens in the order of the text: the lexeme of the first ends before
    the second begins. *)
Definition precedes (t t' : Token) : Prop :=
  match data (lexeme t), data (lexeme t') with
  | DSource a, DSource b => (a + vlength (lexeme t) <= b)%nat
  | _, _ => True
  end.

(** The lexeme, if it is in the text, lies in a range of it. *)
Definition lies_in (a b : nat) (t : Token) : Prop :=
  match data (lexeme t) with
  | DSource off => (a <= off)%nat /\ (off + vlength (lexeme t) <= b)%nat
  | _ => True
  end.

Definition heap_lenient (h : heap) : Prop := forall n, heap_grants h n = true \/ heap_grants h (S n) = true.

Lemma token_ok_range s t s' : token_ok s t s' -> lies_in (position (lx s)) (position (lx s')) t.
Proof.
  intros Ht. pose proof (ok_spelled _ _ _ Ht) as H. unfold spelled in H. unfold lies_in.
  destruct (data (lexeme t)); [done| |done]. lia.
Qed.

Lemma tokenize_ok fuel : forall s, lexer_wf (lx s) -> intern_inv (table s) (mem s) -> heap_lenient (mem s) ->
  (length (lx s) - position (lx s) < fuel)%nat ->
  exists ts s', tokenize fuel s = Ret (ts, s') /\ lexer_wf (lx s') /\
    source (lx s') = source (lx s) /\ (position (lx s) <= position (lx s'))%nat /\
    (exists ts0 e, ts = ts0 ++ [e] /\ ttype e = TOKEN_EOF /\ Forall (fun t => ttype t <> TOKEN_EOF) ts0 /\
       (List.length ts0 <= length (lx s) - position (lx s))%nat) /\
    Forall (lies_in (position (lx s)) (position (lx s'))) ts /\ StronglySorted precedes ts.
Proof.
  induction fuel as [|fuel IH]; intros s Hw Hi Hh Hf; [lia|]. cbn [tokenize].
  destruct (next_token_ok s Hw Hi) as [(t & s1 & -> & Ht & _)|[_ [H1 H2]]].
  2:{ destruct (Hh (heap_calls (mem s))); congruence. }
  cbn [obind]. pose proof (token_ok_range _ _ _ Ht) as Hr. pose proof (ok_progress _ _ _ Ht) as [Hp1 Hp2].
  destruct (decide (ttype t = TOKEN_EOF)) as [Heof|Heof];
    [rewrite (bool_decide_eq_true_2 _ Heof) in *|rewrite (bool_decide_eq_false_2 _ Heof) in *].
  - exists [t], s1. split_and!; [done|apply Ht|apply Ht|done| | |].
    + exists [], t. split_and!; [done|done|constructor|simpl; lia].
    + by constructor.
    + repeat constructor.
  - pose proof (ok_wf _ _ _ Ht) as Hw1. pose proof Hw1 as (_ & Hpl & _). pose proof (ok_source _ _ _ Ht) as Hsrc.
    assert (length (lx s1) = length (lx s)) as Hlen.
    { destruct Hw as (-> & _), Hw1 as (-> & _). by rewrite Hsrc. }
    destruct (IH s1 Hw1) as (ts & s2 & -> & Hw2 & Hsrc2 & Hp & (ts0 & e & -> & He & Hne & Hc) & Hin & Hs).
    + apply Ht.
    + unfold heap_lenient. destruct (ok_heap _ _ _ Ht) as [-> _]. done.
    + lia.
    + cbn [obind]. eexists _, s2. split_and!; [done|done|congruence|lia| | |].
      * exists (t :: ts0), e. split_and!; [done|done|by constructor|simpl; lia].
      * constructor.
        -- unfold lies_in in *. destruct (data (lexeme t)); [done|lia|done].
        -- eapply Forall_impl; [exact Hin|]. intros t' H'. unfold lies_in in *.
           destruct (data (lexeme t')); [done|lia|done].
      * constructor; [done|]. eapply Forall_impl; [exact Hin|]. intros t' H'. unfold precedes, lies_in in *.
        destruct (data (lexeme t)), (data (lexeme t')); try done. lia.
Qed.

Lemma until_nul_range l : Forall (fun c => 0 <= c < 256) l -> Forall (fun c => 0 < c < 256) (until_nul l).
Proof.
  induction 1 as [|c l Hc _ IH]; simpl; [constructor|]. destruct (Z.eqb_spec c 0); constructor; [lia|done].
Qed.

Lemma lexer_create_ok src tb h s h' : Forall (fun c => 0 <= c < 256) src -> intern_inv tb h ->
  lexer_create src tb h = (Some s, h') ->
  lexer_wf (lx s) /\ intern_inv (table s) (mem s) /\ source (lx s) = until_nul src /\
  heap_grants (mem s) = heap_grants h /\
  position (lx s) = if starts (until_nul src) [0xEF; 0xBB; 0xBF] then 3%nat else 0%nat.
Proof.
  intros Hsrc Hi. unfold lexer_create. simpl. destruct (heap_grants h (heap_calls h)); simpl; [|done].
  intros [= <- _]. simpl. set (text := until_nul src).
  assert (forall (b : bool), b = starts text [0xEF; 0xBB; 0xBF] ->
    (if b then 3%nat else 0%nat) = (if starts text [0xEF; 0xBB; 0xBF] then 3%nat else 0%nat) /\
    ((if b then 3%nat else 0%nat) <= List.length text)%nat) as H.
  { intros b ->. split; [done|]. destruct (starts text _) eqn:E; [|lia].
    destruct (starts_take _ _ E) as [_ H]. simpl in H. lia. }
  set (b := _ && _ && _). destruct (H b) as [H1 H2].
  { subst b. destruct text as [|c0 [|c1 [|c2 r]]]; simpl; rewrite ?andb_true_r, ?andb_false_r, ?andb_assoc; done. }
  split; [|split; [eapply intern_inv_mono; [|done]; simpl; lia|done]].
  split; [done|]. split; [done|by apply until_nul_range].
Qed.

(** C30: for every source text, under an allocator that does not refuse two
    requests in a row, reading tokens until the end of the file terminates
    after at most one token per byte: the list ends with the only EOF token,
    and the lexemes lie in the text one after the other. *)
Theorem lexer_tokenize_terminates src tb h s h' :
  Forall (fun c => 0 <= c < 256) src -> intern_inv tb h -> heap_lenient h ->
  lexer_create src tb h = (Some s, h') ->
  exists ts e s', tokenize (remaining (lx s)) s = Ret (ts ++ [e], s') /\
    ttype e = TOKEN_EOF /\ Forall (fun t => ttype t <> TOKEN_EOF) ts /\
    (List.length ts <= List.length (until_nul src))%nat /\
    Forall (lies_in 0 (List.length (until_nul src))) ts /\ StronglySorted precedes ts.
Proof.
  intros Hsrc Hi Hh E. destruct (lexer_create_ok _ _ _ _ _ Hsrc Hi E) as (Hw & Hi' & Hs & Hg & _).
  assert (heap_lenient (mem s)) as Hh' by (unfold heap_lenient; by rewrite Hg).
  destruct (tokenize_ok _ s Hw Hi' Hh' (remaining_enough _)) as
    (ts & s' & -> & Hw' & Hsrc' & Hp & (ts0 & e & -> & He & Hne & Hc) & Hin & Hso).
  pose proof Hw as (Hl & _ & _). pose proof Hw' as (Hl' & Hp' & _). exists ts0, e, s'. rewrite <- Hs, <- Hl.
  split_and!; [done|done|done|lia| |by eapply StronglySorted_app_1_l].
  apply Forall_app in Hin as [Hin _]. eapply Forall_impl; [exact Hin|]. intros t H. unfold lies_in in *.
  destruct (data (lexeme t)); [done| |done]. rewrite Hl', Hsrc', <- Hl in Hp'. lia.
Qed.

(** C27: on a well-formed lexer the next token is always produced, unless an
    unknown character meets two refused allocations in a row (where the code
    takes the length of a null string).  The lexer stays well-formed over the
    same text and the intern table stays consistent; every token but the end
    of file consumes at least one byte, and that one is given only at the
    end: the buffers of literals are never overrun and no loop runs on. *)
Theorem lexer_next_token_total s : lexer_wf (lx s) -> intern_inv (table s) (mem s) ->
  (exists t s', lexer_next_token s = Ret (t, s') /\ lexer_wf (lx s') /\ intern_inv (table s') (mem s') /\
     source (lx s') = source (lx s) /\ intern_map (table s) ⊆ intern_map (table s') /\
     if bool_decide (ttype t = TOKEN_EOF) then position (lx s') = length (lx s')
     else (position (lx s) < position (lx s'))%nat) \/
  (lexer_next_token s = Undef /\ twice_refused s).
Proof.
  intros Hw Hi. destruct (next_token_ok s Hw Hi) as [(t & s' & E & Ht & _)|H]; [left|by right].
  exists t, s'. destruct Ht. split_and!; [done..|apply ok_table0|done|apply ok_table0|apply ok_progress0].
Qed.

(** A successful scan, for the theorems about what it returned. *)
Lemma next_token_inv s t s' : lexer_wf (lx s) -> intern_inv (table s) (mem s) ->
  lexer_next_token s = Ret (t, s') ->
  token_ok s t s' /\ (ttype t <> TOKEN_NEWLINE -> last_significant (lx s') = ttype t).
Proof.
  intros Hw Hi E. destruct (next_token_ok s Hw Hi) as [(t' & s'' & E' & H)|[E' _]]; [|congruence].
  rewrite E in E'. apply Ret_inj in E'. injection E' as <- <-. exact H.
Qed.

(** C28: a token is what its lexeme says.  An operator is the longest one the
    text continues with; a word is a maximal run of identifier characters,
    interned under exactly its spelling and classified as keyword, assembler
    word (in any case) or name by that spelling; a number is the longest
    hexadecimal, binary or decimal number (with its exponent, if a digit
    follows) at its place and carries its spelling; a character literal carries
    the decimal code of the character it stands for, escapes decoded; a string
    literal carries the bytes its body stands for, from its opening quote to
    the quote that closes it; a newline token is a newline; and the token
    ends where the lexer stands.  Of error tokens nothing is said here. *)
Theorem lexer_token_spelling s t s' : lexer_wf (lx s) -> intern_inv (table s) (mem s) ->
  lexer_next_token s = Ret (t, s') -> spelled s' (position (lx s)) t.
Proof. intros Hw Hi E. exact (ok_spelled _ _ _ (proj1 (next_token_inv s t s' Hw Hi E))). Qed.

(** The line number advances by the newlines consumed, comments and
    skipped lines included, for every token but string literals and errors;
    for those it never advances by more. *)
Lemma lexer_line_numbers s t s' : lexer_wf (lx s) -> intern_inv (table s) (mem s) ->
  lexer_next_token s = Ret (t, s') ->
  (line (lx s') + nl (lx s) <= line (lx s) + nl (lx s'))%nat /\
  (ttype t <> TOKEN_STRING -> ttype t <> TOKEN_ERROR ->
   (line (lx s') + nl (lx s) = line (lx s) + nl (lx s'))%nat).
Proof. intros Hw Hi E. exact (ok_lines _ _ _ (proj1 (next_token_inv s t s' Hw Hi E))). Qed.

(** The bracket depth follows the bracket tokens, saturating at zero; a
    newline is a token only outside brackets and after a token that does not
    continue the line; and the last significant token is recorded. *)
Lemma lexer_newline_rule s t s' : lexer_wf (lx s) -> intern_inv (table s) (mem s) ->
  lexer_next_token s = Ret (t, s') ->
  continuation_depth (lx s') = depth_after (ttype t) (continuation_depth (lx s)) /\
  (ttype t = TOKEN_NEWLINE -> continuation_depth (lx s) = O /\
     lexer_token_continues_line (last_significant (lx s)) = false) /\
  last_significant (lx s') = if bool_decide (ttype t = TOKEN_NEWLINE) then last_significant (lx s) else ttype t.
Proof.
  intros Hw Hi E. destruct (next_token_inv s t s' Hw Hi E) as [Ht Hl].
  split; [apply Ht|]. split.
  - intros Hn. destruct (ok_newline _ _ _ Ht Hn) as (H1 & H2 & _). done.
  - case_bool_decide as Hn; [apply (ok_newline _ _ _ Ht Hn)|by apply Hl].
Qed.

(** An error token leaves the lexer's error flag set, unless an
    allocation was refused on the way; any other token leaves flag and
    message as they were. *)
Lemma lexer_error_state s t s' : lexer_wf (lx s) -> intern_inv (table s) (mem s) ->
  lexer_next_token s = Ret (t, s') ->
  if bool_decide (ttype t = TOKEN_ERROR) then has_error (lx s') = true \/ refused (mem s) (mem s')
  else has_error (lx s') = has_error (lx s) /\ error_message (lx s') = error_message (lx s).
Proof. intros Hw Hi E. exact (ok_error _ _ _ (proj1 (next_token_inv s t s' Hw Hi E))). Qed.

(** Peeking returns the token the next call would return and puts
    position, line, column, bracket depth and last token back; the text,
    the length, the error state, the intern table and the heap are those the
    call leaves. *)
Lemma lexer_peek_token_restores s t s' : lexer_peek_token s = Ret (t, s') ->
  exists s1, lexer_next_token s = Ret (t, s1) /\
    position (lx s') = position (lx s) /\ line (lx s') = line (lx s) /\ column (lx s') = column (lx s) /\
    continuation_depth (lx s') = continuation_depth (lx s) /\
    last_significant (lx s') = last_significant (lx s) /\
    source (lx s') = source (lx s1) /\ length (lx s') = length (lx s1) /\
    error_message (lx s') = error_message (lx s1) /\ has_error (lx s') = has_error (lx s1) /\
    table s' = table s1 /\ mem s' = mem s1.
Proof.
  unfold lexer_peek_token. destruct (lexer_next_token s) as [[t1 s1]| |]; cbn [obind]; [|done..].
  intros [= -> <-]. by exists s1.
Qed.

(** ** Writing a string literal and reading it back *)

(** How a byte is written between quotes. *)
Definition escape_char (c : Z) : list Z :=
  if c =? 10 then [92; ch "n"]
  else if c =? 9 then [92; ch "t"]
  else if c =? 13 then [92; ch "r"]
  else if c =? 92 then [92; 92]
  else if c =? 34 then [92; 34]
  else if c =? 0 then [92; ch "0"]
  else [c].

Definition escape (w : list Z) : list Z := concat (escape_char <$> w).

(** The interpolation depth at the end of a body without quotes. *)
Fixpoint brace_depth (d : nat) (w : list Z) : nat :=
  match w with
  | [] => d
  | c :: w1 =>
      if c =? ch "{" then
        match d, w1 with
        | O, c2 :: w2 => if c2 =? ch "{" then brace_depth 0 w2 else brace_depth 1 w1
        | _, _ => brace_depth (S d) w1
        end
      else if c =? ch "}" then brace_depth (pred d) w1
      else brace_depth d w1
  end.

Lemma rest_step l c r : lexer_wf l -> rest l = c :: r ->
  current l = c /\ (position l < length l)%nat /\ rest (advance 1 l) = r /\ lexer_wf (advance 1 l).
Proof.
  intros Hw Hr. assert (position l < length l)%nat as Hp.
  { destruct Hw as (-> & _ & _). unfold rest in Hr. apply (f_equal List.length) in Hr.
    rewrite length_drop in Hr. simpl in Hr. lia. }
  rewrite (rest_cons l Hw Hp) in Hr. injection Hr as <- <-. split_and!; [done|done| |].
  - unfold rest. simpl. by rewrite Nat.add_1_r.
  - eapply moved_wf; [done|]. apply moved_advance; [done|lia].
Qed.

Lemma escape_char_plain c : (c =? 10) = false -> (c =? 9) = false -> (c =? 13) = false -> (c =? 92) = false ->
  (c =? 34) = false -> (c =? 0) = false -> escape_char c = [c].
Proof. intros H1 H2 H3 H4 H5 H6. unfold escape_char. by rewrite H1, H2, H3, H4, H5, H6. Qed.

(** A byte is written as an escape the reader knows, or as itself. *)
Lemma escape_char_cases c : (exists e, escape_char c = [92; e] /\ string_escape e = Some c) \/
  (escape_char c = [c] /\ c <> 92 /\ c <> 34).
Proof.
  unfold escape_char. repeat (match goal with |- context [if c =? ?v then _ else _] =>
    destruct (Z.eqb_spec c v) as [->|?]; [left; eexists; split; [reflexivity|reflexivity]|] end).
  by right.
Qed.

Lemma escape_cons c w : escape (c :: w) = escape_char c ++ escape w.
Proof. done. Qed.

Lemma nth_is_brace w r : nth_is (ch "{" :: escape w ++ 34 :: r) 1 (ch "{") =
  match w with c :: _ => c =? ch "{" | [] => false end.
Proof.
  unfold nth_is. change ((ch "{" :: escape w ++ 34 :: r) !! 1%nat) with ((escape w ++ 34 :: r) !! 0%nat).
  destruct w as [|x w]; [done|]. rewrite escape_cons.
  destruct (escape_char_cases x) as [(e & E & Hx)|(E & _)]; rewrite E; simpl; [|done].
  symmetry. apply Z.eqb_neq. intros ->. unfold string_escape in Hx. repeat case_match; done.
Qed.

(** The interpolation-aware pass reads the escaped body up to its quote. *)
Lemma body_escape n : forall w d b l fuel cap r, (List.length w <= n)%nat -> lexer_wf l ->
  rest l = escape w ++ 34 :: r -> in_nested b = false -> depth b = d -> brace_depth d w = O ->
  (length l - position l < fuel)%nat -> (List.length (buf b) + (length l - position l) < cap)%nat ->
  body_loop fuel cap true b l =
    Ret (mkBody (buf b ++ w) 0 false (bad_escape b), advance (List.length (escape w)) l).
Proof.
  induction n as [n IH] using lt_wf_ind. intros w d b l fuel cap r Hn Hw Hr Hnest Hd Hb Hf Hcap.
  destruct fuel as [|fuel]; [lia|]. cbn [body_loop].
  destruct w as [|c w].
  { destruct (rest_step l 34 r Hw Hr) as (Hc & Hp & _ & _). simpl in Hb. subst d.
    rewrite (proj2 (Nat.ltb_lt _ _) Hp), Hc, Hb. cbn. rewrite app_nil_r, advance_0.
    destruct b; simpl in *. by rewrite Hnest, Hb. }
  rewrite escape_cons, <- app_assoc in Hr. rewrite escape_cons, length_app.
  destruct (escape_char_cases c) as [(e & E & He)|(E & Hc1 & Hc2)]; rewrite E in *.
  - destruct (rest_step l 92 _ Hw Hr) as (Hc & Hp & Hr1 & Hw1).
    destruct (rest_step _ e _ Hw1 Hr1) as (Hce & Hp1 & Hr2 & Hw2). rewrite advance_advance in Hr2, Hw2.
    rewrite (proj2 (Nat.ltb_lt _ _) Hp), Hc. cbn [Z.eqb Pos.eqb andb].
    simpl in Hp1. rewrite (proj2 (Nat.ltb_lt _ _) Hp1), Hce, He, push_ok by lia. cbn [obind].
    rewrite advance_advance.
    assert (brace_depth d w = O) as Hb'.
    { simpl in Hb. destruct (Z.eqb_spec c (ch "{")) as [->|_].
      { unfold string_escape in He. repeat case_match; done. }
      destruct (Z.eqb_spec c (ch "}")) as [->|_]; [|done].
      unfold string_escape in He. repeat case_match; done. }
    rewrite (IH (List.length w) ltac:(simpl in Hn; lia) w d (with_buf (buf b ++ [c]) b)
      _ fuel cap r (le_n _) Hw2 Hr2 Hnest Hd Hb').
    + simpl. rewrite <- app_assoc, advance_advance. done.
    + simpl in *. lia.
    + simpl in *. rewrite length_app. simpl. lia.
  - destruct (rest_step l c _ Hw Hr) as (Hc & Hp & Hr1 & Hw1).
    rewrite (proj2 (Nat.ltb_lt _ _) Hp), Hc, (proj2 (Z.eqb_neq _ _) Hc1), (proj2 (Z.eqb_neq _ _) Hc2). cbn [andb].
    rewrite Hnest, Hd. cbn [negb andb]. destruct (_ && (c =? ch "{") && _) eqn:Hbb.
    + rewrite !andb_true_iff in Hbb. destruct Hbb as [[Hd0%Nat.eqb_eq Hcb%Z.eqb_eq] Hnx].
      rewrite next_is_rest, Hr in Hnx by done. cbn [app] in Hnx. rewrite Hcb, nth_is_brace in Hnx.
      destruct w as [|c2 w]; [done|]. apply Z.eqb_eq in Hnx. subst c2 d.
      rewrite escape_cons in Hr1. change (escape_char (ch "{")) with [ch "{"] in Hr1.
      destruct (rest_step _ _ _ Hw1 Hr1) as (Hc2' & Hp1 & Hr2 & Hw2). rewrite advance_advance in Hr2, Hw2.
      change (1 + 1)%nat with 2%nat in Hr2, Hw2. rewrite push_ok by lia. cbn [obind]. simpl in Hp1.
      rewrite push_ok by (rewrite length_app; simpl; lia). cbn [obind].
      rewrite (IH (List.length w) ltac:(simpl in Hn; lia) w O
        (with_buf ((buf b ++ [ch "{"]) ++ [ch "{"]) b) _ fuel cap r (le_n _) Hw2 Hr2 Hnest Hd0).
      * rewrite escape_cons. change (escape_char (ch "{")) with [ch "{"]. simpl.
        rewrite <- !app_assoc, advance_advance, Hcb. done.
      * rewrite Hd0, Hcb in Hb. exact Hb.
      * simpl. lia.
      * simpl. rewrite !length_app. simpl. lia.
    + assert (buf (interpolate c b) = buf b) as Hbuf by apply interpolate_buf.
      assert (in_nested (interpolate c b) = false /\ bad_escape (interpolate c b) = bad_escape b /\
        brace_depth (depth (interpolate c b)) w = O) as (Hi1 & Hi2 & Hi3).
      { unfold interpolate. rewrite (proj2 (Z.eqb_neq _ _) Hc2), andb_false_r, Hnest. cbn [negb].
        simpl in Hb. destruct (Z.eqb_spec c (ch "{")) as [->|_]; simpl.
        - rewrite Nat.add_1_r, Hd. split_and!; [done|done|].
          rewrite next_is_rest, Hr in Hbb by done. cbn [app] in Hbb. rewrite nth_is_brace in Hbb.
          destruct d as [|d]; [|by destruct w]. simpl in Hbb. destruct w as [|c2 w]; [done|]. by rewrite Hbb in Hb.
        - destruct (Z.eqb_spec c (ch "}")) as [->|_]; simpl.
          + rewrite Hd. destruct d as [|d]; simpl; [by rewrite Hd|]. rewrite Nat.sub_0_r. done.
          + by rewrite Hd. }
      rewrite Hbuf, push_ok by lia. cbn [obind].
      rewrite (IH (List.length w) ltac:(simpl in Hn; lia) w (depth (interpolate c b)) (with_buf (buf b ++ [c]) (interpolate c b)) _ fuel cap r (le_n _) Hw1 Hr1 Hi1 eq_refl Hi3).
      * simpl. rewrite Hi2, <- app_assoc, advance_advance. done.
      * simpl. lia.
      * simpl. rewrite length_app. simpl. lia.
Qed.

Lemma string_literal_reads (s : env) w r : lexer_wf (lx s) -> rest (lx s) = 34 :: escape w ++ 34 :: r ->
  brace_depth 0 w = O -> heap_grants (mem s) (heap_calls (mem s)) = true ->
  exists t s', lexer_lex_string_literal s = Ret (t, s') /\ ttype t = TOKEN_STRING /\ value t = VOwned w /\
    lexeme t = mkView DValue (List.length w) /\
    position (lx s') = (position (lx s) + List.length (escape w) + 2)%nat.
Proof.
  intros Hw Hr Hb Hg. destruct (rest_step _ _ _ Hw Hr) as (Hc & Hp & Hr1 & Hw1).
  unfold lexer_lex_string_literal. simpl. rewrite Hg. simpl.
  set (l := advance 1 (lx s)) in *. set (cap := (_ - _ + 1)%nat).
  assert (position l + List.length (escape w) < length l)%nat as Hlen.
  { pose proof Hw1 as (Hl & _ & _). rewrite Hl. apply (f_equal List.length) in Hr1.
    unfold rest in Hr1. rewrite length_drop, length_app in Hr1. simpl in Hr1. simpl in *. lia. }
  unfold lexer_read_string_body.
  assert (length l - position l < cap)%nat as Hcap by (unfold cap, l; simpl; lia).
  rewrite (body_escape (List.length w) w O (mkBody [] 0 false 0) l _ cap r (le_n _) Hw1 Hr1 eq_refl eq_refl Hb
    (remaining_enough l) Hcap).
  cbn [obind buf app bad_escape]. set (l2 := advance (List.length (escape w)) l).
  assert (position l2 < length l2)%nat as Hlt by exact Hlen.
  rewrite (proj2 (Nat.ltb_lt _ _) Hlt). cbn [obind on_lx lx].
  rewrite (proj2 (Nat.leb_gt _ _) Hlt). cbn [Z.eqb negb].
  assert (List.length w < cap)%nat as Hwcap.
  { assert (List.length w <= List.length (escape w))%nat; [|unfold l in *; simpl in *; lia].
    clear. induction w as [|c w IH]; [done|]. rewrite escape_cons, length_app.
    destruct (escape_char_cases c) as [(e & -> & _)|[-> _]]; simpl; lia. }
  rewrite push_ok by done. cbn [obind]. eexists _, _. split; [done|]. split_and!; [done|done|done|].
  simpl. lia.
Qed.

Lemma next_token_quote (s : env) : lexer_wf (lx s) -> (position (lx s) < length (lx s))%nat -> current (lx s) = 34 ->
  lexer_next_token s =
    let! (t, s) := lexer_lex_string_literal s in
    Ret (t, if bool_decide (ttype t = TOKEN_NEWLINE) then s else on_lx (with_last (ttype t)) s).
Proof.
  intros Hw Hp Hc. unfold lexer_next_token, remaining at 1. cbn [next_token].
  unfold lexer_scan_token, remaining at 1. cbn [skip_space].
  rewrite (proj2 (Nat.ltb_lt _ _) Hp), Hc. cbn [andb obind].
  change (isspace 34) with false. cbn [obind]. rewrite (proj2 (Nat.leb_gt _ _) Hp), Hc.
  replace (on_lx (fun _ => lx s) s) with s by by destruct s.
  change (34 =? ch "/") with false. cbn [andb]. unfold scan_symbol. change (scan_switch (lx s) 34) with SwDefault.
  unfold scan_rest. change (34 =? ch "-") with false. cbn [andb]. change (34 =? 39) with false. cbn match.
  change (isdigit 34) with false. change (34 =? ch "0") with false. cbn [andb orb].
  change (isalpha 34) with false. change (34 =? ch "_") with false. cbn [orb]. change (34 =? 34) with true. cbn match.
  by destruct (lexer_lex_string_literal s) as [[t s']| |].
Qed.

(** C29: writing any bytes between quotes with the lexer's escapes and reading
    them back gives those bytes: the next token is a string literal whose
    value is exactly [w] (NUL bytes and quotes included) and the lexer stands
    behind the closing quote, for every [w] whose interpolation braces are
    closed. *)
Theorem lexer_string_roundtrip (s : env) w r : lexer_wf (lx s) -> rest (lx s) = 34 :: escape w ++ 34 :: r ->
  brace_depth 0 w = O -> heap_grants (mem s) (heap_calls (mem s)) = true ->
  exists t s', lexer_next_token s = Ret (t, s') /\ ttype t = TOKEN_STRING /\ value t = VOwned w /\
    lexeme t = mkView DValue (List.length w) /\
    position (lx s') = (position (lx s) + List.length (escape w) + 2)%nat.
Proof.
  intros Hw Hr Hb Hg. destruct (rest_step _ _ _ Hw Hr) as (Hc & Hp & _).
  destruct (string_literal_reads s w r Hw Hr Hb Hg) as (t & s' & E & Ht & Hv & Hl & Hpos).
  rewrite (next_token_quote s Hw Hp Hc), E. cbn [obind]. eexists t, _. split; [done|].
  split; [done|]. split; [done|]. split; [done|]. by rewrite Ht.
Qed.

(** ** Copying a token *)

Lemma until_nul_take l n : (List.length (until_nul l) <= n)%nat -> until_nul (take n l) = until_nul l.
Proof.
  revert n. induction l as [|c l IH]; intros n H; [by rewrite take_nil|]. simpl in *.
  destruct (Z.eqb_spec c 0) as [->|Hc]; [by destruct n|]. simpl in H.
  destruct n as [|n]; [lia|]. simpl. rewrite (proj2 (Z.eqb_neq _ _) Hc). f_equal. apply IH. lia.
Qed.

(** [token_clone] copies a token that owns its value: the same kind,
    lexeme and place, and a block with the same C string; for a token whose
    lexeme is its whole value (string literals) every byte is copied, those
    behind an embedded NUL too.  When the block is refused the copy is an
    error token that owns nothing; interned and static values are shared and
    nothing is allocated. *)
Theorem token_clone_copies t h :
  match value t, is_interned t with
  | VOwned l, false =>
      if heap_grants h (heap_calls h) then
        exists l', (token_clone (Some t) h).1 =
            mkToken (ttype t) (VOwned l') (lexeme t) (tline t) (tcolumn t) false /\
          until_nul l' = until_nul l /\ (lexeme t = mkView DValue (List.length l) -> l' = l)
      else value (token_clone (Some t) h).1 = VNull /\ ttype (token_clone (Some t) h).1 = TOKEN_ERROR
  | _, _ => token_clone (Some t) h = (t, h)
  end.
Proof.
  unfold token_clone. destruct (value t) as [| | |l]; try done. destruct (is_interned t); [done|].
  simpl. destruct (heap_grants h (heap_calls h)); simpl; [|done].
  eexists. split; [reflexivity|]. split.
  - apply until_nul_take. destruct (_ && _) eqn:E; [|lia]. apply andb_true_iff in E as [_ E%Nat.ltb_lt]. lia.
  - intros ->. simpl. apply take_ge. destruct (Nat.ltb_spec (List.length (until_nul l)) (List.length l)); [lia|].
    assert (List.length (until_nul l) <= List.length l)%nat; [|lia].
    clear. induction l as [|c l IH]; simpl; [lia|]. case_match; simpl; lia.
Qed.
End props.

(** * Witnesses *)

#[local] Existing Instance Intern.string_interner.

(** A lexer at the start of a text, with an empty intern table. *)
Definition sample (text : list Z) : @env Intern.intern_state :=
  mkEnv (mkLexer text 0 1 1 (List.length text) None false 0 TOKEN_NEWLINE) Intern.intern_start heap_unlimited.

Lemma sample_wf text : forallb (fun c => (0 <? c) && (c <? 256)) text = true -> lexer_wf (lx (sample text)).
Proof.
  intros H. split; [done|]. split; [simpl; lia|]. apply Forall_forall. intros c Hc.
  rewrite forallb_forall in H. apply list_elem_of_In in Hc. specialize (H c Hc). simpl in H. lia.
Qed.

Lemma sample_inv text : intern_inv (table (sample text)) (mem (sample text)).
Proof. apply Intern.inv_start. Qed.

Definition shifted : list Z := [60; 60; 61; 32; 59].

(** ['\n'], and a string of a tab and an interpolation that holds quotes. *)
Definition newline_literal : list Z := [39; 92; 110; 39; 59].
Definition nested_string : list Z := [34; 92; 116; 123; 34; 34; 125; 34; 59].

Lemma lexer_tokenize_terminates_witness : exists s h' ts e s',
  lexer_create shifted Intern.intern_start heap_unlimited = (Some s, h') /\
  tokenize (remaining (lx s)) s = Ret (ts ++ [e], s') /\ ttype e = TOKEN_EOF /\ (List.length ts <= 5)%nat.
Proof.
  destruct (lexer_create shifted Intern.intern_start heap_unlimited) as [[s|] h'] eqn:E; [|discriminate E].
  destruct (lexer_tokenize_terminates shifted Intern.intern_start heap_unlimited s h') as (ts & e & s' & H1 & H2 & _ & H3 & _).
  - unfold shifted. repeat constructor; lia.
  - apply Intern.inv_start.
  - intros n. left. reflexivity.
  - exact E.
  - exists s, h', ts, e, s'. split; [reflexivity|]. split; [exact H1|]. split; [exact H2|exact H3].
Defined.

Lemma lexer_next_token_total_witness : exists t s', lexer_next_token (sample shifted) = Ret (t, s') /\
  (0 < position (lx s'))%nat.
Proof.
  destruct (lexer_next_token_total (sample shifted) (sample_wf shifted eq_refl) (sample_inv _)) as [(t & s' & E & _ & _ & _ & _ & H)|[E _]].
  - exists t, s'. split; [exact E|]. revert E H. vm_compute. intros [= <- <-] _. lia.
  - exfalso. revert E. vm_compute. discriminate.
Defined.

Lemma lexer_token_spelling_witness :
  (exists t s', lexer_next_token (sample shifted) = Ret (t, s') /\
     spelled s' (position (lx (sample shifted))) t /\ ttype t = TOKEN_LSHIFT_EQUALS) /\
  (exists t s', lexer_next_token (sample newline_literal) = Ret (t, s') /\
     spelled s' 0 t /\ value t = VOwned [49; 48] /\ char_literal [39; 92; 110; 39] 10) /\
  (exists t s', lexer_next_token (sample nested_string) = Ret (t, s') /\
     spelled s' 0 t /\ value t = VOwned [9; 123; 34; 34; 125]).
Proof.
  split; [|split].
  - destruct (lexer_next_token (sample shifted)) as [[t s']| |] eqn:E; [|exfalso; revert E; vm_compute; discriminate..].
    exists t, s'. split; [reflexivity|].
    split; [exact (lexer_token_spelling (sample shifted) t s' (sample_wf shifted eq_refl) (sample_inv _) E)|].
    revert E. vm_compute. by intros [= <- _].
  - destruct (lexer_next_token (sample newline_literal)) as [[t s']| |] eqn:E; [|exfalso; revert E; vm_compute; discriminate..].
    exists t, s'. split; [reflexivity|].
    split; [exact (lexer_token_spelling (sample newline_literal) t s' (sample_wf newline_literal eq_refl) (sample_inv _) E)|].
    split; [revert E; vm_compute; by intros [= <- _]|]. apply char_escaped. left.
  - destruct (lexer_next_token (sample nested_string)) as [[t s']| |] eqn:E; [|exfalso; revert E; vm_compute; discriminate..].
    exists t, s'. split; [reflexivity|].
    split; [exact (lexer_token_spelling (sample nested_string) t s' (sample_wf nested_string eq_refl) (sample_inv _) E)|].
    revert E. vm_compute. by intros [= <- _].
Defined.

(** A block comment with a newline in it, then a semicolon. *)
Definition commented : list Z := [47; 42; 10; 42; 47; 59].

Lemma lexer_line_numbers_witness : exists t s', lexer_next_token (sample commented) = Ret (t, s') /\
  ttype t = TOKEN_SEMICOLON /\ (line (lx s') + 0 = 1 + nl (lx s'))%nat /\ line (lx s') = 2%nat.
Proof.
  destruct (lexer_next_token (sample commented)) as [[t s']| |] eqn:E; [|exfalso; revert E; vm_compute; discriminate..].
  exists t, s'. split; [reflexivity|].
  destruct (lexer_line_numbers (sample commented) t s' (sample_wf commented eq_refl) (sample_inv _) E) as [_ H].
  assert (ttype t = TOKEN_SEMICOLON /\ line (lx s') = 2%nat) as [Ht Hl] by (revert E; vm_compute; by intros [= <- <-]).
  split; [exact Ht|]. split; [|exact Hl]. apply H; rewrite Ht; discriminate.
Defined.

Lemma lexer_newline_rule_witness : exists t s', lexer_next_token (sample [40; 10]) = Ret (t, s') /\
  ttype t = TOKEN_LPAREN /\ continuation_depth (lx s') = 1%nat.
Proof.
  destruct (lexer_next_token (sample [40; 10])) as [[t s']| |] eqn:E; [|exfalso; revert E; vm_compute; discriminate..].
  exists t, s'. split; [reflexivity|].
  destruct (lexer_newline_rule (sample [40; 10]) t s' (sample_wf [40; 10] eq_refl) (sample_inv _) E) as [H _].
  assert (ttype t = TOKEN_LPAREN) as Ht by (revert E; vm_compute; by intros [= <- <-]).
  split; [exact Ht|]. rewrite H, Ht. reflexivity.
Defined.

Lemma lexer_error_state_witness : exists t s', lexer_next_token (sample [36]) = Ret (t, s') /\
  ttype t = TOKEN_ERROR /\ (has_error (lx s') = true \/ refused (mem (sample [36])) (mem s')).
Proof.
  destruct (lexer_next_token (sample [36])) as [[t s']| |] eqn:E; [|exfalso; revert E; vm_compute; discriminate..].
  exists t, s'. split; [reflexivity|].
  pose proof (lexer_error_state (sample [36]) t s' (sample_wf [36] eq_refl) (sample_inv _) E) as H.
  assert (ttype t = TOKEN_ERROR) as Ht by (revert E; vm_compute; by intros [= <- <-]).
  split; [exact Ht|]. rewrite Ht in H. exact H.
Defined.

Lemma lexer_peek_token_restores_witness : exists t s', lexer_peek_token (sample shifted) = Ret (t, s') /\
  position (lx s') = 0%nat.
Proof.
  destruct (lexer_peek_token (sample shifted)) as [[t s']| |] eqn:E; [|exfalso; revert E; vm_compute; discriminate..].
  exists t, s'. split; [reflexivity|].
  destruct (lexer_peek_token_restores (sample shifted) t s' E) as (s1 & _ & H & _). exact H.
Defined.

(** The bytes quote, newline, braces around a name, NUL. *)
Definition message_bytes : list Z := [34; 10; 123; 120; 125; 0].

Lemma lexer_string_roundtrip_witness : exists t s',
  lexer_next_token (sample (34 :: escape message_bytes ++ [34; 59])) = Ret (t, s') /\ value t = VOwned message_bytes.
Proof.
  destruct (lexer_string_roundtrip (sample (34 :: escape message_bytes ++ [34; 59])) message_bytes [59]
    (sample_wf (34 :: escape message_bytes ++ [34; 59]) eq_refl) eq_refl eq_refl eq_refl) as (t & s' & E & _ & Hv & _).
  exists t, s'. split; [exact E|exact Hv].
Defined.

(** A newline inside a string literal is not counted: the text is a
    string literal that holds one newline, then a semicolon on the second
    line, whose token is placed on line 1. *)
Lemma lexer_multiline_string_keeps_line : exists t1 s1 t2 s2,
  lexer_next_token (sample [34; 10; 34; 59]) = Ret (t1, s1) /\ ttype t1 = TOKEN_STRING /\
  lexer_next_token s1 = Ret (t2, s2) /\ ttype t2 = TOKEN_SEMICOLON /\
  newlines (take (position (lx s1)) (source (lx s1))) = 1%nat /\ tline t2 = 1%nat.
Proof.
  eexists _, _, _, _. split; [vm_compute; reflexivity|]. split; [reflexivity|].
  split; [vm_compute; reflexivity|]. split; [reflexivity|]. split; reflexivity.
Qed.
End LexerProps.
