(* ===== verification/Types.v ===== *)
(** Types of the checker and their memory layout:
    src/src/semantic/symbol_table.h (type objects), type_layout.c, and the
    type half of symbol_table.c (creation, field queries, compatibility).

    A type is an object of a store and is named by its index in it; a null
    pointer is [None].  Arrays hung on a type are lists, null arrays [None].
    The theorems show that a struct layout places every field aligned, inside
    the struct and disjoint from the fields before it, down to the bits of
    bit-fields. *)
From S2P Require Import Prelude StringIntern.
#[local] Open Scope Z_scope.

Module Types.
Import Intern(Interner, intern_op).

(** * Data *)

Inductive TypeKind :=
| TYPE_INT8 | TYPE_INT16 | TYPE_INT32 | TYPE_INT64 | TYPE_UINT8 | TYPE_UINT16 | TYPE_UINT32
| TYPE_UINT64 | TYPE_BOOL | TYPE_CHAR | TYPE_FLOAT32 | TYPE_FLOAT64 | TYPE_FLOAT16
| TYPE_BFLOAT16 | TYPE_STRING | TYPE_FUNCTION_POINTER | TYPE_POINTER | TYPE_ARRAY | TYPE_SLICE
| TYPE_STRUCT | TYPE_ENUM | TYPE_TAGGED_ENUM | TYPE_VOID | TYPE_TYPE | TYPE_FIELD | TYPE_SEQUENCE.

#[export] Instance TypeKind_eq_dec : EqDecision TypeKind.
Proof. solve_decision. Defined.

(** A C string, by its bytes; [None] is the null pointer. *)
Definition cstr : Type := option (list Z).

(** The members the modelled functions read or write. *)
Record Ty := mkTy {
  kind : TypeKind;
  tname : cstr;
  size : Z;
  alignment : Z;
  base_type : option nat;
  array_size : Z;
  view_rank : Z;
  fn_param_types : option (list (option nat));
  fn_param_count : nat;
  fn_return_type : option nat;
  field_names : option (list cstr);
  field_types : option (list (option nat));
  field_offsets : option (list Z);
  field_bit_offsets : option (list Z);
  field_bit_widths : option (list Z);
  field_count : nat;
  tagged_variant_names : option (list cstr);
  tagged_variant_tags : option (list Z);
  tagged_variant_payloads : option (list (option nat));
  tagged_variant_count : nat;
  enum_member_names : option (list cstr);
  enum_member_values : option (list Z);
  enum_member_count : nat
}.

(** The type objects in memory. *)
Definition types := list Ty.

(** [calloc]: all members zero or null. *)
Definition zeroed (k : TypeKind) (name : cstr) (s a : Z) : Ty :=
  mkTy k name s a None 0 0 None 0 None None None None None None 0 None None None 0 None None 0.

Definition set_layout (s a : Z) (offs : option (list Z)) (bits : option (list Z)) (t : Ty) : Ty :=
  mkTy (kind t) (tname t) s a (base_type t) (array_size t) (view_rank t) (fn_param_types t)
    (fn_param_count t) (fn_return_type t) (field_names t) (field_types t) offs bits
    (field_bit_widths t) (field_count t) (tagged_variant_names t) (tagged_variant_tags t)
    (tagged_variant_payloads t) (tagged_variant_count t) (enum_member_names t)
    (enum_member_values t) (enum_member_count t).

Definition set_size (s a : Z) (t : Ty) : Ty :=
  set_layout s a (field_offsets t) (field_bit_offsets t) t.

Definition set_fields (names : option (list cstr)) (tys : option (list (option nat)))
  (offs bits widths : option (list Z)) (n : nat) (t : Ty) : Ty :=
  mkTy (kind t) (tname t) (size t) (alignment t) (base_type t) (array_size t) (view_rank t)
    (fn_param_types t) (fn_param_count t) (fn_return_type t) names tys offs bits widths n
    (tagged_variant_names t) (tagged_variant_tags t) (tagged_variant_payloads t)
    (tagged_variant_count t) (enum_member_names t) (enum_member_values t) (enum_member_count t).

Definition set_enum (names : option (list cstr)) (values : option (list Z)) (n : nat) (t : Ty) : Ty :=
  mkTy (kind t) (tname t) (size t) (alignment t) (base_type t) (array_size t) (view_rank t)
    (fn_param_types t) (fn_param_count t) (fn_return_type t) (field_names t) (field_types t)
    (field_offsets t) (field_bit_offsets t) (field_bit_widths t) (field_count t)
    (tagged_variant_names t) (tagged_variant_tags t) (tagged_variant_payloads t)
    (tagged_variant_count t) names values n.

Definition set_fn (ps : option (list (option nat))) (n : nat) (r : option nat) (t : Ty) : Ty :=
  mkTy (kind t) (tname t) (size t) (alignment t) (base_type t) (array_size t) (view_rank t) ps n r
    (field_names t) (field_types t) (field_offsets t) (field_bit_offsets t) (field_bit_widths t)
    (field_count t) (tagged_variant_names t) (tagged_variant_tags t) (tagged_variant_payloads t)
    (tagged_variant_count t) (enum_member_names t) (enum_member_values t) (enum_member_count t).

(** Reading through a pointer or past an array is undefined. *)
Definition deref {A} (o : option A) : outcome A := match o with Some a => Ret a | None => Undef end.
Definition read {A} (a : option (list A)) (i : nat) : outcome A := let! l := deref a in deref (l !! i).

(** [symbol_table_names_equal]: pointer equality implies equal bytes. *)
Definition names_equal (a b : cstr) : bool :=
  match a, b with
  | None, None => true
  | Some a, Some b => bool_decide (a = b)
  | _, _ => false
  end.

(** * Allocation of members *)

(** [calloc(n, ...)]: [None] when refused. *)
Definition calloc {A} (n : nat) (zero : A) (h : heap) : option (list A) * heap :=
  let (ok, h) := alloc h in ((if ok then Some (replicate n zero) else None), h).

Definition type_alloc_fields (t : Ty) (n : nat) (h : heap) : bool * Ty * heap :=
  match n with
  | O => (true, set_fields None None None None None 0 t, h)
  | _ =>
      let (names, h) := calloc n (None : cstr) h in
      let (tys, h) := calloc n (None : option nat) h in
      let (offs, h) := calloc n 0 h in
      let (bits, h) := calloc n 0 h in
      let (widths, h) := calloc n 0 h in
      (match names, tys, offs, bits, widths with
       | Some _, Some _, Some _, Some _, Some _ => true
       | _, _, _, _, _ => false
       end, set_fields names tys offs bits widths n t, h)
  end.

Definition type_alloc_enum_members (t : Ty) (n : nat) (h : heap) : bool * Ty * heap :=
  match n with
  | O => (true, set_enum None None 0 t, h)
  | _ =>
      let (names, h) := calloc n (None : cstr) h in
      let (values, h) := calloc n 0 h in
      (match names, values with Some _, Some _ => true | _, _ => false end, set_enum names values n t, h)
  end.

(** [a[i] = x] through a pointer that must not be null. *)
Definition store {A} (a : option (list A)) (i : nat) (x : A) : outcome (option (list A)) :=
  let! l := deref a in
  if (i <? length l)%nat then Ret (Some (<[i:=x]> l)) else Undef.

(** The same behind a test for null. *)
Definition store_opt {A} (a : option (list A)) (i : nat) (x : A) : outcome (option (list A)) :=
  match a with None => Ret None | Some _ => store a i x end.

Section interning.
Context {T : Type} {IT : Interner T}.

(** [name ? string_intern(name) : NULL], by the bytes it points to. *)
Definition intern_name (name : cstr) (tb : T) (h : heap) : cstr * T * heap :=
  match name with
  | None => (None, tb, h)
  | Some l =>
      let '(p, tb, h) := intern_op l tb h in
      (match p with Some _ => Some l | None => None end, tb, h)
  end.

(** The result, the type, and the shared state afterwards. *)
Definition type_set_field (t : Ty) (index : nat) (name : cstr) (field_type : option nat)
  (bit_width : Z) (tb : T) (h : heap) : outcome (bool * Ty * T * heap) :=
  if (field_count t <=? index)%nat || bool_decide (field_names t = None) then Ret (false, t, tb, h)
  else
    let '(nm, tb, h) := intern_name name tb h in
    let! names := store (field_names t) index nm in
    let! tys := store (field_types t) index field_type in
    let! offs := store (field_offsets t) index 0 in
    let! bits := store_opt (field_bit_offsets t) index 0 in
    let! widths := store_opt (field_bit_widths t) index bit_width in
    Ret (bool_decide (nm <> None) || bool_decide (name = None),
         set_fields names tys offs bits widths (field_count t) t, tb, h).

Definition type_set_enum_member (t : Ty) (index : nat) (name : cstr) (value : Z) (tb : T) (h : heap) :
  outcome (bool * Ty * T * heap) :=
  if (enum_member_count t <=? index)%nat || bool_decide (enum_member_names t = None) then Ret (false, t, tb, h)
  else
    let '(nm, tb, h) := intern_name name tb h in
    let! names := store (enum_member_names t) index nm in
    let! values := store (enum_member_values t) index value in
    Ret (bool_decide (nm <> None) || bool_decide (name = None),
         set_enum names values (enum_member_count t) t, tb, h).

Definition type_create (k : TypeKind) (name : cstr) (tb : T) (h : heap) : option Ty * T * heap :=
  let (ok, h) := alloc h in
  if negb ok then (None, tb, h)
  else
    let '(nm, tb, h) := intern_name name tb h in
    let '(s, a) :=
      match k with
      | TYPE_INT8 | TYPE_UINT8 => (1, 1)
      | TYPE_INT16 | TYPE_UINT16 | TYPE_FLOAT16 | TYPE_BFLOAT16 => (2, 2)
      | TYPE_INT32 | TYPE_UINT32 | TYPE_FLOAT32 => (4, 4)
      | TYPE_INT64 | TYPE_UINT64 | TYPE_FLOAT64 | TYPE_POINTER | TYPE_ENUM => (8, 8)
      | _ => (0, 0)
      end in
    (Some (zeroed k nm s a), tb, h).

(** [param_types ? param_types[i] : NULL] for each parameter. *)
Definition type_create_function_pointer (param_types : option (list (option nat))) (param_count : nat)
  (return_type : option nat) (tb : T) (h : heap) : outcome (option Ty * T * heap) :=
  let '(t, tb, h) := type_create TYPE_FUNCTION_POINTER (Some [102; 117; 110; 99; 116; 105; 111; 110]) tb h in
  match t with
  | None => Ret (None, tb, h)
  | Some t =>
      let t := set_size 8 8 t in
      match param_count with
      | O => Ret (Some (set_fn None 0 return_type t), tb, h)
      | _ =>
          let (ok, h) := alloc h in
          if negb ok then Ret (None, tb, h)
          else
            let! ps :=
              match param_types with
              | None => Ret (replicate param_count None)
              | Some ps => if (length ps <? param_count)%nat then Undef else Ret (take param_count ps)
              end in
            Ret (Some (set_fn (Some ps) param_count return_type t), tb, h)
      end
  end.
End interning.

(** * Layout *)

Definition align_up (value alignment : Z) : Z :=
  if alignment <=? 1 then value
  else
    let rem := value mod alignment in
    if rem =? 0 then value else u64 (value + (alignment - rem)).

(** The locals of [compute_struct_layout] and the arrays it fills. *)
Record layout_state := mkLayout {
  offset : Z;
  max_align : Z;
  unit_end : Z;
  unit_bits : Z;
  unit_used : Z;
  unit_type : option nat;
  offsets : option (list Z);
  bit_offsets : option (list Z)
}.

(** [ft && ft->alignment ? ft->alignment : 1] and [ft ? ft->size : 0]. *)
Definition align_of (f : option Ty) : Z :=
  match f with Some f => if alignment f =? 0 then 1 else alignment f | None => 1 end.
Definition size_of (f : option Ty) : Z := match f with Some f => size f | None => 0 end.

(** One round of the loop; [false] is [return 0]. *)
Definition layout_field (i : nat) (ft : option nat) (f : option Ty) (width : Z) (st : layout_state) :
  outcome (bool * layout_state) :=
  let field_align := align_of f in
  let field_size := size_of f in
  if width =? 0 then
    let off := align_up (Z.max (offset st) (unit_end st)) field_align in
    let! offs := store (offsets st) i off in
    let! bits := store_opt (bit_offsets st) i 0 in
    let next := u64 (off + field_size) in
    Ret (true, mkLayout next (Z.max (max_align st) field_align) next 0 0 None offs bits)
  else
    let storage_bits := u64 (field_size * 8) in
    if (storage_bits =? 0) || (storage_bits <? width) then Ret (false, st)
    else
      let max_align := Z.max (max_align st) field_align in
      let new_unit := bool_decide (unit_type st = None) || negb (bool_decide (unit_type st = ft)) ||
                      (storage_bits <? u64 (unit_used st + width)) in
      let st1 :=
        if new_unit then
          let off := align_up (Z.max (offset st) (unit_end st)) field_align in
          mkLayout off max_align (u64 (off + field_size)) storage_bits 0 ft (offsets st) (bit_offsets st)
        else mkLayout (offset st) max_align (unit_end st) (unit_bits st) (unit_used st) (unit_type st)
               (offsets st) (bit_offsets st) in
      let! offs := store (offsets st1) i (offset st1) in
      let! bits := store_opt (bit_offsets st1) i (u32 (unit_used st1)) in
      let used := u64 (unit_used st1 + width) in
      Ret (true, if used =? unit_bits st1
                 then mkLayout (unit_end st1) max_align (unit_end st1) (unit_bits st1) 0 None offs bits
                 else mkLayout (offset st1) max_align (unit_end st1) (unit_bits st1) used (unit_type st1) offs bits).

(** The loop over the fields from [i] on, [n] of them. *)
Fixpoint layout_loop (ts : types) (t : Ty) (n i : nat) (st : layout_state) : outcome (bool * layout_state) :=
  match n with
  | O => Ret (true, st)
  | S n =>
      let! ft := read (field_types t) i in
      let! width := match field_bit_widths t with Some _ => read (field_bit_widths t) i | None => Ret 0 end in
      let! f := match ft with Some id => let! f := deref (ts !! id) in Ret (Some f) | None => Ret None end in
      let! (ok, st) := layout_field i ft f width st in
      if ok : bool then layout_loop ts t n (S i) st else Ret (false, st)
  end.

Definition compute_struct_layout (ts : types) (t : Ty) : outcome (bool * Ty) :=
  let! (ok, st) := layout_loop ts t (field_count t) 0
                     (mkLayout 0 1 0 0 0 None (field_offsets t) (field_bit_offsets t)) in
  if negb ok then Ret (false, set_layout (size t) (alignment t) (offsets st) (bit_offsets st) t)
  else
    let off := if bool_decide (unit_type st = None) then offset st else unit_end st in
    let off := align_up off (max_align st) in
    Ret (true, set_layout off (if max_align st =? 0 then 1 else max_align st) (offsets st) (bit_offsets st) t).

Definition type_view_rank (t : option Ty) : Z :=
  match t with
  | Some t => if bool_decide (kind t = TYPE_SLICE) then (if 1 <? view_rank t then view_rank t else 1) else 0
  | None => 0
  end.

(** The recursion follows the element types of nested arrays. *)
Fixpoint type_compute_layout (fuel : nat) (ts : types) (id : option nat) : outcome (bool * types) :=
  match fuel with
  | O => NoFuel
  | S fuel =>
  match id with
  | None => Ret (false, ts)
  | Some id =>
      let! t := deref (ts !! id) in
      match kind t with
      | TYPE_POINTER => Ret (true, <[id:=set_size 8 8 t]> ts)
      | TYPE_SLICE => Ret (true, <[id:=set_size (u64 (16 * type_view_rank (Some t))) 8 t]> ts)
      | TYPE_ARRAY =>
          match base_type t with
          | None => Ret (false, ts)
          | Some b =>
              let! (ok, ts) := type_compute_layout fuel ts (Some b) in
              if negb ok then Ret (false, ts)
              else
                let! t := deref (ts !! id) in
                let! e := deref (ts !! b) in
                if (0 <? size e) && ((2 ^ 64 - 1) / size e <? array_size t) then Ret (false, ts)
                else Ret (true, <[id:=set_size (u64 (size e * array_size t))
                                        (if alignment e =? 0 then 1 else alignment e) t]> ts)
          end
      | TYPE_STRUCT | TYPE_STRING =>
          let! (ok, t) := compute_struct_layout ts t in Ret (ok, <[id:=t]> ts)
      | TYPE_TAGGED_ENUM => Ret (0 <? size t, ts)
      | _ => Ret (true, ts)
      end
  end
  end.

(** [type_create_struct]: [None] when anything fails. *)
Definition type_create_struct {T} {IT : Interner T} (ts : types) (name : cstr) (names : option (list cstr))
  (tys : option (list (option nat))) (n : nat) (tb : T) (h : heap) : outcome (option Ty * T * heap) :=
  match name, names, tys, n with
  | Some _, Some names, Some tys, S _ =>
      let '(t, tb, h) := type_create TYPE_STRUCT name tb h in
      match t with
      | None => Ret (None, tb, h)
      | Some t =>
          let '(ok, t, h) := type_alloc_fields t n h in
          if negb ok then Ret (None, tb, h)
          else
            let fix fill (k i : nat) (t : Ty) (tb : T) (h : heap) : outcome (option Ty * T * heap) :=
              match k with
              | O => Ret (Some t, tb, h)
              | S k =>
                  let! nm := deref (names !! i) in
                  let! ft := deref (tys !! i) in
                  let! (ok, t, tb, h) := type_set_field t i nm ft 0 tb h in
                  if ok : bool then fill k (S i) t tb h else Ret (None, tb, h)
              end in
            let! (t, tb, h) := fill n 0%nat t tb h in
            match t with
            | None => Ret (None, tb, h)
            | Some t =>
                let! (ok, t) := compute_struct_layout ts t in
                Ret (if ok : bool then Some t else None, tb, h)
            end
      end
  | _, _, _, _ => Ret (None, tb, h)
  end.

(** * Queries *)

Record TypeField := mkField {
  fname : cstr; ftype : option nat; byte_offset : Z; bit_offset : Z; bit_width : Z
}.

Record TypeEnumVariant := mkVariant { vname : cstr; vvalue : Z; payload : option nat }.

Definition is_struct_kind (k : TypeKind) : bool :=
  match k with TYPE_STRUCT | TYPE_STRING => true | _ => false end.

Definition type_field_count (t : option Ty) : nat :=
  match t with Some t => if is_struct_kind (kind t) then field_count t else 0%nat | None => 0%nat end.

(** The result and the record written through [out]. *)
Definition type_field_at (t : option Ty) (index : nat) : outcome (option TypeField) :=
  match t with
  | None => Ret None
  | Some t =>
      if (type_field_count (Some t) <=? index)%nat || bool_decide (field_names t = None) ||
         bool_decide (field_types t = None) || bool_decide (field_offsets t = None) then Ret None
      else
        let! nm := read (field_names t) index in
        let! ty := read (field_types t) index in
        let! off := read (field_offsets t) index in
        let! bit := match field_bit_offsets t with Some _ => read (field_bit_offsets t) index | None => Ret 0 end in
        let! width := match field_bit_widths t with Some _ => read (field_bit_widths t) index | None => Ret 0 end in
        Ret (Some (mkField nm ty off bit width))
  end.

(** The first index from [i] on with this name. *)
Fixpoint find_name (n i : nat) (names : option (list cstr)) (name : cstr) : outcome (option nat) :=
  match n with
  | O => Ret None
  | S n =>
      let! nm := read names i in
      if names_equal nm name then Ret (Some i) else find_name n (S i) names name
  end.

Definition type_get_field_index (t : option Ty) (name : cstr) : outcome (option nat) :=
  match t, name with
  | Some t, Some _ => if is_struct_kind (kind t) then find_name (field_count t) 0 (field_names t) name else Ret None
  | _, _ => Ret None
  end.

Definition type_field_by_name (t : option Ty) (name : cstr) : outcome (option TypeField) :=
  let! i := type_get_field_index t name in
  match i with None => Ret None | Some i => type_field_at t i end.

Definition view_or_struct (k : TypeKind) : bool :=
  match k with TYPE_STRUCT | TYPE_STRING | TYPE_SLICE => true | _ => false end.

Definition length_name : cstr := Some [108; 101; 110; 103; 116; 104].

Definition type_get_field_type (ts : types) (t : option Ty) (name : cstr) : outcome (option nat) :=
  match t, name with
  | Some t, Some _ =>
      if negb (view_or_struct (kind t)) then Ret None
      else
        let! i := find_name (field_count t) 0 (field_names t) name in
        match i with
        | Some i => read (field_types t) i
        | None =>
            if (1 <? type_view_rank (Some t)) && (1 <? field_count t)%nat then
              let! second := read (field_types t) 1 in
              match second with
              | Some s => if names_equal name length_name then let! s := deref (ts !! s) in Ret (base_type s) else Ret None
              | None => Ret None
              end
            else Ret None
        end
  | _, _ => Ret None
  end.

Definition type_get_field_offset (t : option Ty) (name : cstr) : outcome Z :=
  match t, name with
  | Some t, Some _ =>
      if negb (view_or_struct (kind t)) then Ret 0
      else if (1 <? type_view_rank (Some t)) && names_equal name length_name then Ret 8
      else
        let! i := find_name (field_count t) 0 (field_names t) name in
        match i with Some i => read (field_offsets t) i | None => Ret 0 end
  | _, _ => Ret 0
  end.

Definition type_enum_variant_count (t : option Ty) : nat :=
  match t with
  | Some t =>
      match kind t with
      | TYPE_ENUM => enum_member_count t
      | TYPE_TAGGED_ENUM => tagged_variant_count t
      | _ => 0%nat
      end
  | None => 0%nat
  end.

Definition type_enum_variant_at (t : option Ty) (index : nat) : outcome (option TypeEnumVariant) :=
  match t with
  | None => Ret None
  | Some t =>
      match kind t with
      | TYPE_ENUM =>
          if (enum_member_count t <=? index)%nat || bool_decide (enum_member_names t = None) ||
             bool_decide (enum_member_values t = None) then Ret None
          else
            let! nm := read (enum_member_names t) index in
            let! v := read (enum_member_values t) index in
            Ret (Some (mkVariant nm v None))
      | TYPE_TAGGED_ENUM =>
          if (tagged_variant_count t <=? index)%nat || bool_decide (tagged_variant_names t = None) then Ret None
          else
            let! nm := read (tagged_variant_names t) index in
            let! v := match tagged_variant_tags t with
                      | Some _ => read (tagged_variant_tags t) index
                      | None => Ret (Z.of_nat index)
                      end in
            let! p := match tagged_variant_payloads t with
                      | Some _ => read (tagged_variant_payloads t) index
                      | None => Ret None
                      end in
            Ret (Some (mkVariant nm v p))
      | _ => Ret None
      end
  end.

Definition type_pointee (t : option Ty) : option nat :=
  match t with Some t => if bool_decide (kind t = TYPE_POINTER) then base_type t else None | None => None end.

Definition type_element (t : option Ty) : option nat :=
  match t with
  | Some t => match kind t with TYPE_ARRAY | TYPE_SLICE => base_type t | _ => None end
  | None => None
  end.

Definition type_len (t : option Ty) : Z :=
  match t with Some t => if bool_decide (kind t = TYPE_ARRAY) then array_size t else 0 | None => 0 end.

Definition type_has_static_len (t : option Ty) : bool :=
  match t with Some t => bool_decide (kind t = TYPE_ARRAY) | None => false end.

Definition type_is_comptime_only (t : option Ty) : bool :=
  match t with
  | Some t => match kind t with TYPE_TYPE | TYPE_FIELD | TYPE_SEQUENCE => true | _ => false end
  | None => false
  end.

(** * Compatibility *)

(** All parameters pairwise. *)
Fixpoint all_compatible (compat : option nat -> option nat -> outcome bool) (n i : nat)
  (l r : option (list (option nat))) : outcome bool :=
  match n with
  | O => Ret true
  | S n =>
      let! a := read l i in
      let! b := read r i in
      let! ok := compat a b in
      if ok : bool then all_compatible compat n (S i) l r else Ret false
  end.

(** The recursion follows element, parameter and result types. *)
Fixpoint types_compatible (fuel : nat) (ts : types) (lhs rhs : option nat) : outcome bool :=
  match fuel with
  | O => NoFuel
  | S fuel =>
  if bool_decide (lhs = rhs) then Ret true
  else
    match lhs, rhs with
    | Some l, Some r =>
        let! l := deref (ts !! l) in
        let! r := deref (ts !! r) in
        if negb (bool_decide (kind l = kind r)) then Ret false
        else
          match kind l with
          | TYPE_FUNCTION_POINTER =>
              if negb (fn_param_count l =? fn_param_count r)%nat then Ret false
              else
                let! ok := types_compatible fuel ts (fn_return_type l) (fn_return_type r) in
                if ok : bool then
                  all_compatible (types_compatible fuel ts) (fn_param_count l) 0 (fn_param_types l) (fn_param_types r)
                else Ret false
          | TYPE_ARRAY =>
              if array_size l =? array_size r then types_compatible fuel ts (base_type l) (base_type r)
              else Ret false
          | TYPE_POINTER => types_compatible fuel ts (base_type l) (base_type r)
          | TYPE_SLICE =>
              if type_view_rank (Some l) =? type_view_rank (Some r)
              then types_compatible fuel ts (base_type l) (base_type r)
              else Ret false
          | TYPE_STRUCT =>
              Ret (match tname l, tname r with
                   | Some _, Some _ => names_equal (tname l) (tname r)
                   | None, None => true
                   | _, _ => false
                   end)
          | _ => Ret true
          end
    | _, _ => Ret false
    end
  end.
End Types.
