(* ===== verification/TypeLayout.v ===== *)
(** The layout of structs: what [Types.compute_struct_layout] computes.

    Every field gets an interval of bits, its whole size or its width for a
    bit-field.  The invariant of the loop says that the intervals placed so
    far are in order, aligned, and below the point where the next one goes. *)
From S2P Require Import Prelude StringIntern Types.
#[local] Open Scope Z_scope.

Module TypeLayout.
Import Types.

(** An entry of an array, 0 where there is none. *)
Definition at0 (o : option (list Z)) (k : nat) : Z := default 0 (o ≫= fun l => l !! k).

Definition pow2 (a : Z) : Prop := exists e, 0 <= e /\ a = 2 ^ e.

Section layout.
Context (ts : types) (t : Ty).

Definition field_id (k : nat) : option nat := default None (field_types t ≫= fun l => l !! k).
Definition field_ty (k : nat) : option Ty := field_id k ≫= fun id => ts !! id.
Definition width (k : nat) : Z := at0 (field_bit_widths t) k.
Definition falign (k : nat) : Z := align_of (field_ty k).
Definition fsize (k : nat) : Z := size_of (field_ty k).

(** Bytes enough for the first [i] fields and their padding. *)
Fixpoint budget (i : nat) : Z := match i with O => 0 | S i => budget i + fsize i + falign i end.

(** A struct whose arrays are allocated and whose fields are known types, of
    a total size far from the end of the address space. *)
Record ready : Prop := {
  rd_types : exists l, field_types t = Some l /\ length l = field_count t /\
    Forall (fun o => forall id, o = Some id -> is_Some (ts !! id)) l;
  rd_offsets : exists l, field_offsets t = Some l /\ length l = field_count t;
  rd_bits : forall l, field_bit_offsets t = Some l -> length l = field_count t;
  rd_widths : forall l, field_bit_widths t = Some l -> length l = field_count t /\ is_Some (field_bit_offsets t);
  rd_width : forall k, 0 <= width k < 2 ^ 32;
  rd_size : forall k, (k < field_count t)%nat -> 0 <= fsize k /\ 1 <= falign k /\ (width k <> 0 -> 8 * fsize k < 2 ^ 32);
  rd_budget : budget (field_count t) < 2 ^ 60
}.

Definition len (k : nat) : Z := if width k =? 0 then 8 * fsize k else width k.
Definition start (offs bits : option (list Z)) (k : nat) : Z := 8 * at0 offs k + at0 bits k.

(** Where field [k] lies: aligned, its storage unit below [top], its bits
    inside the unit and below [front]. *)
Definition placed (offs bits : option (list Z)) (top front : Z) (k : nat) : Prop :=
  at0 offs k mod falign k = 0 /\ 0 <= at0 offs k /\ at0 offs k + fsize k <= top /\
  start offs bits k + len k <= front /\ 0 <= at0 bits k /\ at0 bits k + len k <= 8 * fsize k.

Definition top (st : layout_state) : Z := Z.max (offset st) (unit_end st).
Definition front (st : layout_state) : Z :=
  match unit_type st with None => 8 * top st | Some _ => 8 * offset st + unit_used st end.

Record layout_inv (i : nat) (st : layout_state) : Prop := {
  li_offsets : exists l, offsets st = Some l /\ length l = field_count t;
  li_bits : forall l, bit_offsets st = Some l -> length l = field_count t;
  li_has_bits : is_Some (bit_offsets st) <-> is_Some (field_bit_offsets t);
  li_nonneg : 0 <= offset st /\ 0 <= unit_end st;
  li_top : top st <= budget i;
  li_max : 1 <= max_align st /\ (max_align st = 1 \/ exists j, (j < i)%nat /\ max_align st = falign j);
  li_unit : forall u, unit_type st = Some u -> unit_end st = offset st + size_of (ts !! u) /\
    offset st mod align_of (ts !! u) = 0 /\ unit_bits st = 8 * size_of (ts !! u) /\
    0 <= unit_used st <= unit_bits st /\ unit_bits st < 2 ^ 32;
  li_closed : unit_type st = None -> unit_end st <= offset st;
  li_placed : forall k, (k < i)%nat -> placed (offsets st) (bit_offsets st) (top st) (front st) k;
  li_align : forall k, (k < i)%nat -> falign k <= max_align st;
  li_order : forall k l, (k < l < i)%nat ->
    start (offsets st) (bit_offsets st) k + len k <= start (offsets st) (bit_offsets st) l
}.

Lemma align_up_spec v a : 0 <= v -> 1 <= a -> v + a < 2 ^ 64 ->
  align_up v a mod a = 0 /\ v <= align_up v a < v + a.
Proof.
  intros Hv Ha Hb. unfold align_up. destruct (Z.leb_spec a 1).
  - replace a with 1 by lia. rewrite Z.mod_1_r. lia.
  - pose proof (Z.mod_pos_bound v a). destruct (Z.eqb_spec (v mod a) 0); [lia|].
    rewrite wrapu_small by (unfold in_u; lia). split; [|lia].
    replace (v + (a - v mod a)) with ((v / a + 1) * a) by (rewrite (Z.div_mod v a) at 2; lia).
    apply Z_mod_mult.
Qed.

Lemma at0_insert o l i x k : o = Some l -> (i < length l)%nat ->
  at0 (Some (<[i:=x]> l)) k = if decide (k = i) then x else at0 o k.
Proof.
  intros -> Hi. unfold at0; simpl. destruct (decide (k = i)) as [->|Hn].
  - by rewrite list_lookup_insert_eq.
  - by rewrite list_lookup_insert_ne.
Qed.

Lemma store_ok {A} (o : option (list A)) l i x : o = Some l -> (i < length l)%nat -> store o i x = Ret (Some (<[i:=x]> l)).
Proof. intros -> H. unfold store; simpl. by rewrite (proj2 (Nat.ltb_lt _ _) H). Qed.

(** What is stored for field [i] replaces entry [i] and no other. *)
Lemma store_entry st i off bit : layout_inv i st -> (i < field_count t)%nat ->
  (bit <> 0 -> is_Some (bit_offsets st)) ->
  exists offs bits, store (offsets st) i off = Ret offs /\ store_opt (bit_offsets st) i bit = Ret bits /\
    (exists l, offs = Some l /\ length l = field_count t) /\
    (forall l, bits = Some l -> length l = field_count t) /\ (is_Some bits <-> is_Some (bit_offsets st)) /\
    at0 offs i = off /\ at0 bits i = bit /\
    (forall k, k <> i -> at0 offs k = at0 (offsets st) k) /\ (forall k, k <> i -> at0 bits k = at0 (bit_offsets st) k).
Proof.
  intros Hi Hlt Hbit. destruct (li_offsets _ _ Hi) as (l & El & Hl).
  eexists _. destruct (bit_offsets st) as [bl|] eqn:Eb.
  - pose proof (li_bits _ _ Hi bl Eb) as Hbl. eexists _. unfold store_opt.
    split; [apply (store_ok _ _ _ _ El); lia|]. split; [apply (store_ok _ bl); [done|lia]|].
    split_and!.
    + eexists. split; [done|]. by rewrite length_insert.
    + intros ? [= <-]. by rewrite length_insert.
    + split; intros _; [done|by eexists].
    + rewrite (at0_insert _ _ _ _ _ El) by lia. by rewrite decide_True.
    + rewrite (at0_insert (Some bl) bl) by (done || lia). by rewrite decide_True.
    + intros k Hk. rewrite (at0_insert _ _ _ _ _ El) by lia. by rewrite decide_False.
    + intros k Hk. rewrite (at0_insert (Some bl) bl) by (done || lia). by rewrite decide_False.
  - exists None. split; [apply (store_ok _ _ _ _ El); lia|]. split; [done|].
    split_and!.
    + eexists. split; [done|]. by rewrite length_insert.
    + done.
    + done.
    + rewrite (at0_insert _ _ _ _ _ El) by lia. by rewrite decide_True.
    + destruct (Z.eq_dec bit 0) as [->|Hb]; [done|]. by destruct (Hbit Hb).
    + intros k Hk. rewrite (at0_insert _ _ _ _ _ El) by lia. by rewrite decide_False.
    + done.
Qed.

(** Placing field [i] behind everything placed before keeps the facts about
    the intervals, if the new top and front are not below the old. *)
Lemma placed_step st i offs bits top' front' :
  layout_inv i st ->
  (forall k, k <> i -> at0 offs k = at0 (offsets st) k) -> (forall k, k <> i -> at0 bits k = at0 (bit_offsets st) k) ->
  front st <= start offs bits i -> top st <= top' -> front st <= front' -> placed offs bits top' front' i ->
  (forall k, (k < S i)%nat -> placed offs bits top' front' k) /\
  (forall k l, (k < l < S i)%nat -> start offs bits k + len k <= start offs bits l).
Proof.
  intros Hi Ho Hb Hs Ht Hf Hp.
  assert (forall k, (k < i)%nat -> placed offs bits top' front' k /\ start offs bits k + len k <= front st) as Hold.
  { intros k Hk. destruct (li_placed _ _ Hi k Hk) as (H1 & H2 & H3 & H4 & H5 & H6).
    unfold placed, start in *. rewrite Ho, Hb by lia. split_and!; try done; lia. }
  split.
  - intros k Hk. destruct (decide (k = i)) as [->|]; [done|]. apply Hold. lia.
  - intros k l Hkl. destruct (decide (l = i)) as [->|].
    + destruct (Hold k) as [_ H]; [lia|]. lia.
    + pose proof (li_order _ _ Hi k l ltac:(lia)) as H. unfold start in *. rewrite !Ho, !Hb by lia. exact H.
Qed.

Lemma budget_mono i n : ready -> (i <= n <= field_count t)%nat -> budget i <= budget n.
Proof.
  intros Hr. induction n as [|n IH]; intros H; [by replace i with O by lia|].
  destruct (decide (i = S n)) as [->|]; [done|]. simpl.
  destruct (rd_size Hr n) as (? & ? & _); [lia|]. specialize (IH ltac:(lia)). lia.
Qed.

Lemma budget_nonneg i : ready -> (i <= field_count t)%nat -> 0 <= budget i.
Proof. intros Hr Hi. apply (budget_mono 0 i Hr). lia. Qed.

(** The limits every step works within. *)
Lemma step_limits i st : ready -> (i < field_count t)%nat -> layout_inv i st ->
  0 <= top st /\ top st + fsize i + falign i < 2 ^ 60 /\ 0 <= fsize i /\ 1 <= falign i.
Proof.
  intros Hr Hi Hinv. destruct (rd_size Hr i Hi) as (H1 & H2 & _). destruct (li_nonneg _ _ Hinv) as [H3 H4].
  pose proof (li_top _ _ Hinv). pose proof (budget_mono (S i) (field_count t) Hr ltac:(lia)) as Hb. simpl in Hb.
  pose proof (rd_budget Hr). unfold top in *. lia.
Qed.

Lemma front_top i st : layout_inv i st -> front st <= 8 * top st.
Proof.
  intros Hinv. unfold front. destruct (unit_type st) as [u|] eqn:E; [|lia].
  destruct (li_unit _ _ Hinv u E) as (H1 & _ & H3 & H4 & _). unfold top. lia.
Qed.

Lemma plain_field_ok i st : ready -> (i < field_count t)%nat -> layout_inv i st -> width i = 0 ->
  exists st', layout_field i (field_id i) (field_ty i) 0 st = Ret (true, st') /\ layout_inv (S i) st'.
Proof.
  intros Hr Hi Hinv Hw. unfold layout_field. fold (falign i) (fsize i). fold (top st). cbn [Z.eqb].
  destruct (step_limits i st Hr Hi Hinv) as (Ht & Hb & Hs & Ha).
  destruct (align_up_spec (top st) (falign i)) as [Hmod Hrange]; [lia|lia|lia|].
  set (off := align_up (top st) (falign i)) in *.
  rewrite (wrapu_small 64 (off + fsize i)) by (unfold in_u; lia).
  destruct (store_entry st i off 0 Hinv Hi ltac:(done)) as (offs & bits & -> & -> & Ho & Hbl & Hbs & Eo & Eb & Ko & Kb).
  cbn [obind]. eexists. split; [done|].
  pose proof (front_top i st Hinv) as Hft.
  destruct (placed_step st i offs bits (off + fsize i) (8 * (off + fsize i)) Hinv Ko Kb) as [Hp Hord].
  - unfold start. rewrite Eo, Eb. lia.
  - lia.
  - lia.
  - unfold placed, start, len. rewrite Eo, Eb, Hw. cbn [Z.eqb]. split_and!; try done; lia.
  - assert (Hfold : top (mkLayout (off + fsize i) (Z.max (max_align st) (falign i)) (off + fsize i) 0 0 None offs bits)
      = off + fsize i) by (unfold top; simpl; lia).
    destruct (li_max _ _ Hinv) as [Hm1 Hm2].
    split; simpl.
    + exact Ho.
    + exact Hbl.
    + rewrite Hbs. apply Hinv.
    + lia.
    + rewrite Hfold. pose proof (li_top _ _ Hinv). lia.
    + split; [lia|]. destruct (Z.max_spec (max_align st) (falign i)) as [[_ ->]|[_ ->]].
      * right. exists i. split; [lia|done].
      * destruct Hm2 as [?|(j & Hj & ?)]; [by left|right; exists j; split; [lia|done]].
    + done.
    + lia.
    + unfold front. simpl. rewrite Hfold. exact Hp.
    + intros k Hk. destruct (decide (k = i)) as [->|]; [lia|].
      pose proof (li_align _ _ Hinv k ltac:(lia)). lia.
    + exact Hord.
Qed.

(** The storage unit a bit-field goes to: the current one or a new one. *)
Lemma unit_ok i st u f : ready -> (i < field_count t)%nat -> layout_inv i st -> field_id i = Some u -> ts !! u = Some f ->
  width i <> 0 -> width i <= 8 * fsize i ->
  let new_unit := bool_decide (unit_type st = None) || negb (bool_decide (unit_type st = Some u)) ||
                  (8 * fsize i <? unit_used st + width i) in
  let off := if new_unit then align_up (top st) (falign i) else offset st in
  let end_ := if new_unit then off + fsize i else unit_end st in
  let used := if new_unit then 0 else unit_used st in
  off mod falign i = 0 /\ 0 <= off /\ end_ = off + fsize i /\ 0 <= used /\ used + width i <= 8 * fsize i /\
  front st <= 8 * off + used /\ top st <= end_ /\ end_ <= top st + falign i + fsize i /\
  (new_unit = false -> unit_bits st = 8 * fsize i /\ unit_type st = Some u).
Proof.
  intros Hr Hi Hinv Hid Hu Hw Hfit. destruct (step_limits i st Hr Hi Hinv) as (Ht & Hb & Hs & Ha).
  destruct (align_up_spec (top st) (falign i)) as [Hmod Hrange]; [lia|lia|lia|].
  pose proof (front_top i st Hinv) as Hft. pose proof (rd_width Hr i) as Hwr. simpl.
  destruct (_ || _) eqn:E.
  - split_and!; try done; lia.
  - rewrite !orb_false_iff, negb_false_iff, bool_decide_eq_true in E. destruct E as [[_ E1] E2%Z.ltb_ge].
    destruct (li_unit _ _ Hinv u E1) as (H1 & H2 & H3 & H4 & _).
    assert (size_of (ts !! u) = fsize i /\ align_of (ts !! u) = falign i) as [Es Ea]
      by (unfold fsize, falign, field_ty; rewrite Hid; done).
    rewrite Es in *. rewrite Ea in *. unfold front, top in *. rewrite E1 in *. destruct (li_nonneg _ _ Hinv).
    split_and!; try done; lia.
Qed.

Lemma bit_field_ok i st : ready -> (i < field_count t)%nat -> layout_inv i st -> width i <> 0 ->
  if bool_decide (8 * fsize i = 0 \/ 8 * fsize i < width i)
  then layout_field i (field_id i) (field_ty i) (width i) st = Ret (false, st)
  else exists st', layout_field i (field_id i) (field_ty i) (width i) st = Ret (true, st') /\ layout_inv (S i) st'.
Proof.
  intros Hr Hi Hinv Hw. destruct (step_limits i st Hr Hi Hinv) as (Ht & Hb & Hs & Ha).
  destruct (rd_size Hr i Hi) as (_ & _ & Hsb). specialize (Hsb Hw). pose proof (rd_width Hr i) as Hwr.
  unfold layout_field. fold (falign i) (fsize i). fold (top st). rewrite (proj2 (Z.eqb_neq _ _) Hw).
  rewrite (wrapu_small 64 (fsize i * 8)) by (unfold in_u; lia).
  case_bool_decide as Hbad.
  { assert ((fsize i * 8 =? 0) || (fsize i * 8 <? width i) = true) as ->; [|done]. lia. }
  assert ((fsize i * 8 =? 0) || (fsize i * 8 <? width i) = false) as -> by lia.
  assert (exists u f, field_id i = Some u /\ ts !! u = Some f) as (u & f & Hid & Hu).
  { unfold fsize, size_of, field_ty in Hbad. destruct (field_id i) as [u|]; simpl in Hbad; [|lia].
    destruct (ts !! u) as [f|] eqn:Hu; [|lia]. by exists u, f. }
  assert (0 <= unit_used st < 2 ^ 32 \/ unit_type st = None) as Hur.
  { destruct (unit_type st) as [v|] eqn:Ev; [left|by right].
    destruct (li_unit _ _ Hinv v Ev) as (_ & _ & _ & ? & ?). lia. }
  pose proof (unit_ok i st u f Hr Hi Hinv Hid Hu Hw ltac:(lia)) as Hunit. simpl in Hunit. rewrite Hid.
  assert (Hnew : bool_decide (unit_type st = None) || negb (bool_decide (unit_type st = Some u)) ||
                  (fsize i * 8 <? u64 (unit_used st + width i)) =
                 bool_decide (unit_type st = None) || negb (bool_decide (unit_type st = Some u)) ||
                  (8 * fsize i <? unit_used st + width i)).
  { destruct Hur as [Hur| ->]; [|done]. rewrite (wrapu_small 64) by (unfold in_u; lia). do 2 f_equal. lia. }
  rewrite Hnew. clear Hnew. set (nu := _ || _) in *.
  set (off := if nu then align_up (top st) (falign i) else offset st) in *.
  set (end_ := if nu then off + fsize i else unit_end st) in *.
  set (used := if nu then 0 else unit_used st) in *.
  destruct Hunit as (H1 & H2 & H3 & H4 & H5 & H6 & H7 & H8 & H9).
  set (st1 := if nu then _ else _).
  assert (st1 = mkLayout off (Z.max (max_align st) (falign i)) end_ (8 * fsize i) used (Some u) (offsets st) (bit_offsets st)) as ->.
  { unfold st1, off, end_, used. destruct nu.
    - rewrite (wrapu_small 64) by (unfold in_u; unfold off in *; lia). f_equal; lia.
    - destruct (H9 eq_refl) as [-> ->]. done. }
  cbn [offset unit_end unit_bits unit_used unit_type offsets bit_offsets].
  rewrite (wrapu_small 32 used) by (unfold in_u; lia). rewrite (wrapu_small 64 (used + width i)) by (unfold in_u; lia).
  assert (Hhas : is_Some (bit_offsets st)).
  { rewrite (li_has_bits _ _ Hinv). unfold width, at0 in Hw. destruct (field_bit_widths t) as [wl|] eqn:Ew; [|done].
    by destruct (rd_widths Hr wl Ew). }
  destruct (store_entry st i off used Hinv Hi ltac:(done)) as (offs & bits & -> & -> & Ho & Hbl & Hbs & Eo & Eb & Ko & Kb).
  cbn [obind]. eexists. split; [done|].
  set (st' := if _ =? _ then _ else _).
  assert (Htop : top st' = end_ /\ front st' = 8 * off + used + width i).
  { unfold st'. destruct (Z.eqb_spec (used + width i) (8 * fsize i)); unfold front, top; simpl; lia. }
  destruct Htop as [Etop Efront].
  destruct (placed_step st i offs bits end_ (8 * off + used + width i) Hinv Ko Kb) as [Hp Hord].
  - unfold start. rewrite Eo, Eb. lia.
  - lia.
  - lia.
  - unfold placed, start, len. rewrite Eo, Eb, (proj2 (Z.eqb_neq _ _) Hw). split_and!; try done; lia.
  - destruct (li_max _ _ Hinv) as [Hm1 Hm2]. pose proof (li_top _ _ Hinv) as Hlt.
    assert (offsets st' = offs /\ bit_offsets st' = bits /\ max_align st' = Z.max (max_align st) (falign i)) as (E1 & E2 & E3)
      by (unfold st'; by destruct (_ =? _)).
    split; rewrite ?E1, ?E2, ?E3, ?Etop, ?Efront.
    + exact Ho.
    + exact Hbl.
    + rewrite Hbs. apply Hinv.
    + unfold st'. destruct (_ =? _); simpl; lia.
    + simpl. lia.
    + split; [lia|]. destruct (Z.max_spec (max_align st) (falign i)) as [[_ ->]|[_ ->]].
      * right. exists i. split; [lia|done].
      * destruct Hm2 as [?|(j & Hj & ?)]; [by left|right; exists j; split; [lia|done]].
    + intros v. unfold st'. destruct (Z.eqb_spec (used + width i) (8 * fsize i)); simpl; [done|]. intros [= <-].
      assert (size_of (ts !! u) = fsize i /\ align_of (ts !! u) = falign i) as [-> ->]
        by (unfold fsize, falign, field_ty; rewrite Hid; done).
      split_and!; try done; lia.
    + unfold st'. destruct (_ =? _); simpl; [lia|done].
    + exact Hp.
    + intros k Hk. destruct (decide (k = i)) as [->|]; [lia|].
      pose proof (li_align _ _ Hinv k ltac:(lia)). lia.
    + exact Hord.
Qed.

(** A field that can be placed: a bit-field must fit its declared type. *)
Definition fits (k : nat) : Prop := width k = 0 \/ 8 * fsize k <> 0 /\ width k <= 8 * fsize k.

Lemma layout_start : ready -> layout_inv 0 (mkLayout 0 1 0 0 0 None (field_offsets t) (field_bit_offsets t)).
Proof.
  intros Hr. split; simpl; try done.
  - exact (rd_offsets Hr).
  - exact (rd_bits Hr).
  - split; [done|by left].
  - intros k Hk. lia.
  - intros k Hk. lia.
  - intros k l Hk. lia.
Qed.

(** What the loop reads for field [i]. *)
Lemma reads_field i : ready -> (i < field_count t)%nat ->
  read (field_types t) i = Ret (field_id i) /\
  match field_bit_widths t with Some _ => read (field_bit_widths t) i | None => Ret 0 end = Ret (width i) /\
  match field_id i with Some id => let! f := deref (ts !! id) in Ret (Some f) | None => Ret None end = Ret (field_ty i).
Proof.
  intros Hr Hi. destruct (rd_types Hr) as (l & El & Hl & Hall).
  destruct (lookup_lt_is_Some_2 l i) as [o Ho]; [lia|].
  unfold read, field_ty, field_id, width, at0. rewrite El. simpl. rewrite Ho. simpl. split; [done|]. split.
  - destruct (field_bit_widths t) as [wl|] eqn:Ew; simpl; [|done].
    destruct (rd_widths Hr wl Ew) as [Hwl _]. destruct (lookup_lt_is_Some_2 wl i) as [w Hw]; [lia|]. by rewrite Hw.
  - rewrite Forall_lookup in Hall. destruct o as [id|]; [|done]. destruct (Hall i _ Ho id eq_refl) as [f Hf].
    simpl. by rewrite Hf.
Qed.

Lemma layout_loop_ok n : forall i st, ready -> (i + n = field_count t)%nat -> layout_inv i st ->
  exists ok st', layout_loop ts t n i st = Ret (ok, st') /\
    if ok : bool then layout_inv (field_count t) st' /\ (forall k, (i <= k < field_count t)%nat -> fits k)
    else exists k, (i <= k < field_count t)%nat /\ ~ fits k.
Proof.
  induction n as [|n IH]; intros i st Hr Hin Hinv.
  { exists true, st. replace (field_count t) with i by lia. split; [done|]. split; [done|]. intros k Hk. lia. }
  cbn [layout_loop]. destruct (reads_field i Hr ltac:(lia)) as (-> & -> & E). cbn [obind]. rewrite E. cbn [obind].
  assert (Hgo : forall st', layout_inv (S i) st' -> fits i ->
    exists ok st'', layout_loop ts t n (S i) st' = Ret (ok, st'') /\
      if ok : bool then layout_inv (field_count t) st'' /\ (forall k, (i <= k < field_count t)%nat -> fits k)
      else exists k, (i <= k < field_count t)%nat /\ ~ fits k).
  { intros st' Hst' Hfit. destruct (IH (S i) st' Hr ltac:(lia) Hst') as (ok & st'' & E' & H). exists ok, st''.
    split; [exact E'|]. destruct ok.
    - destruct H as [H1 H2]. split; [exact H1|]. intros k Hk. destruct (decide (k = i)) as [->|]; [done|]. apply H2. lia.
    - destruct H as (k & Hk & H). exists k. split; [lia|done]. }
  destruct (Z.eq_dec (width i) 0) as [Hw|Hw].
  - rewrite Hw. destruct (plain_field_ok i st Hr ltac:(lia) Hinv Hw) as (st' & -> & Hst'). cbn [obind].
    apply Hgo; [done|by left].
  - pose proof (bit_field_ok i st Hr ltac:(lia) Hinv Hw) as H. case_bool_decide as Hbad.
    + rewrite H. cbn [obind]. exists false, st. split; [done|]. exists i. split; [lia|]. unfold fits. lia.
    + destruct H as (st' & -> & Hst'). cbn [obind]. apply Hgo; [done|]. right. lia.
Qed.

Lemma pow2_divide a b : pow2 a -> pow2 b -> a <= b -> (a | b).
Proof.
  intros (e & He & ->) (f & Hf & ->) Hle. exists (2 ^ (f - e)). rewrite <- Z.pow_add_r.
  - f_equal. lia.
  - destruct (Z.le_gt_cases e f); [lia|]. pose proof (Z.pow_lt_mono_r 2 f e ltac:(lia) ltac:(lia) ltac:(lia)). lia.
  - done.
Qed.

(** C36: for every struct with known field types and a total size below 2^60
    bytes, [compute_struct_layout] ends; it fails exactly when a bit-field is
    wider than its type.  Otherwise every field has an aligned offset, its
    storage unit lies inside the struct, its bits lie in its unit, the
    intervals of bits are in order and disjoint, the size is a multiple of
    the struct's alignment, and with power-of-two alignments every field's
    alignment divides the struct's. *)
Theorem compute_struct_layout_places : ready ->
  exists ok t', compute_struct_layout ts t = Ret (ok, t') /\
    (ok = true <-> forall k, (k < field_count t)%nat -> fits k) /\
    (ok = true ->
     let offs := field_offsets t' in
     let bits := field_bit_offsets t' in
     (forall k, (k < field_count t)%nat ->
        at0 offs k mod falign k = 0 /\ 0 <= at0 offs k /\ at0 offs k + fsize k <= size t' /\
        0 <= at0 bits k /\ at0 bits k + len k <= 8 * fsize k) /\
     (forall k l, (k < l < field_count t)%nat -> start offs bits k + len k <= start offs bits l) /\
     size t' mod alignment t' = 0 /\ 1 <= alignment t' /\
     (forall k, (k < field_count t)%nat -> falign k <= alignment t') /\
     ((forall k, pow2 (falign k)) -> forall k, (k < field_count t)%nat -> (falign k | alignment t'))).
Proof.
  intros Hr. unfold compute_struct_layout.
  destruct (layout_loop_ok (field_count t) 0 _ Hr ltac:(lia) (layout_start Hr)) as (ok & st & -> & H). cbn [obind].
  destruct ok; cbn [negb].
  2:{ destruct H as (k & Hk & Hn). eexists _, _. split; [done|]. split; [|done]. split; [done|]. intros Hall.
      destruct (Hn (Hall k ltac:(lia))). }
  destruct H as [Hinv Hfits].
  set (off := if bool_decide _ then _ else _). destruct (li_max _ _ Hinv) as [Hm1 Hm2].
  destruct (li_nonneg _ _ Hinv) as [Hn1 Hn2]. pose proof (li_top _ _ Hinv) as Htop. pose proof (rd_budget Hr) as Hbud.
  assert (Hoff : off = top st).
  { unfold off, top. case_bool_decide as Hu.
    - pose proof (li_closed _ _ Hinv Hu). lia.
    - destruct (unit_type st) as [u|] eqn:E; [|done]. destruct (li_unit _ _ Hinv u E) as (H1 & _ & H3 & H4 & _). lia. }
  assert (Hmax : max_align st < 2 ^ 60).
  { destruct Hm2 as [->|(j & Hj & ->)]; [done|]. pose proof (budget_mono (S j) (field_count t) Hr ltac:(lia)) as Hb.
    pose proof (budget_nonneg j Hr ltac:(lia)). destruct (rd_size Hr j Hj). simpl in Hb. lia. }
  assert (0 <= top st) by (unfold top; lia).
  destruct (align_up_spec off (max_align st)) as [Hmod Hrange]; [lia|lia|lia|].
  rewrite (proj2 (Z.eqb_neq (max_align st) 0)) by lia.
  eexists _, _. split; [done|]. split; [split; [intros _ k Hk; apply Hfits; lia|done]|]. intros _. simpl.
  split_and!; [| |done|done| |].
  - intros k Hk. destruct (li_placed _ _ Hinv k Hk) as (P1 & P2 & P3 & P4 & P5 & P6).
    split_and!; [done|done|lia|done|done].
  - exact (li_order _ _ Hinv).
  - exact (li_align _ _ Hinv).
  - intros Hpow k Hk. apply pow2_divide; [apply Hpow| |exact (li_align _ _ Hinv k Hk)].
    destruct Hm2 as [->|(j & _ & ->)]; [by exists 0|apply Hpow].
Qed.
End layout.

(** * A witness: a byte, two bit-fields of one word, and a double word *)

Definition sample_types : types :=
  [zeroed TYPE_UINT8 None 1 1; zeroed TYPE_UINT32 None 4 4; zeroed TYPE_UINT64 None 8 8].

Definition sample_struct : Ty :=
  set_fields (Some [None; None; None; None]) (Some [Some 0; Some 1; Some 1; Some 2]%nat)
    (Some [0; 0; 0; 0]) (Some [0; 0; 0; 0]) (Some [0; 3; 5; 0]) 4 (zeroed TYPE_STRUCT None 0 0).

Lemma sample_ready : ready sample_types sample_struct.
Proof.
  split.
  - eexists. split; [reflexivity|]. split; [reflexivity|]. repeat constructor; intros id [= <-]; by eexists.
  - by eexists.
  - by intros l [= <-].
  - intros l [= <-]. split; [reflexivity|by eexists].
  - intros k. do 4 (destruct k as [|k]; [vm_compute; by split|]). by split.
  - intros k Hk. do 4 (destruct k as [|k]; [vm_compute; split_and!; done|]). simpl in Hk. lia.
  - vm_compute. reflexivity.
Qed.

Lemma compute_struct_layout_places_witness : exists t', compute_struct_layout sample_types sample_struct = Ret (true, t') /\
  size t' = 16 /\ field_offsets t' = Some [0; 4; 4; 8] /\ field_bit_offsets t' = Some [0; 0; 3; 0] /\
  (forall k l, (k < l < 4)%nat ->
     start (field_offsets t') (field_bit_offsets t') k + len sample_types sample_struct k <=
     start (field_offsets t') (field_bit_offsets t') l).
Proof.
  destruct (compute_struct_layout_places sample_types sample_struct sample_ready) as (ok & t' & E & _ & H).
  pose proof E as E'. vm_compute in E'. injection E' as <- <-. eexists. split; [exact E|].
  split; [reflexivity|]. split; [reflexivity|]. split; [reflexivity|].
  destruct (H eq_refl) as (_ & Hord & _). exact Hord.
Defined.
End TypeLayout.
