(* ===== verification/Probe.v ===== *)
(** Name tables with linear probing.

    The string hash of src/src/common.c (lines 88 to 95) and the shape of
    table that symbol_table.c, mir_cfg.c and symbol_resolve.c build on it: a
    power-of-two array of slots, zero when empty and an index plus one
    otherwise, probed from the hash of a name.  The invariant and its lemmas
    are shared by those components: a probe for a key ends at the first index
    with that key, or at an empty slot when there is none. *)
From S2P Require Import Prelude.
#[local] Open Scope Z_scope.

Module Probe.

(** * The hash *)

Fixpoint fnv_loop (hash : Z) (l : list Z) : Z :=
  match l with
  | [] => hash
  | b :: l => fnv_loop (u64 (Z.lxor hash b * 1099511628211)) l
  end.

(** Of the bytes before the NUL. *)
Definition mettle_fnv1a_hash (l : list Z) : Z := fnv_loop 1469598103934665603 l.

(** * Probing *)

(** [hash & mask] as a slot. *)
Definition slot_of (hash : Z) (mask : nat) : nat := Z.to_nat (Z.land hash (Z.of_nat mask)).
Definition next_slot (pos mask : nat) : nat := Nat.land (pos + 1) mask.

(** [while (b[pos]) { if (stop(b[pos] - 1)) ...; pos = (pos + 1) & mask; }]:
    where the loop ends and the index found there, if any. *)
Fixpoint probe_loop (fuel : nat) (b : list nat) (mask : nat) (stop : nat -> bool) (pos : nat) :
  outcome (nat * option nat) :=
  match fuel with
  | O => NoFuel
  | S fuel =>
      match b !! pos with
      | None => Undef
      | Some O => Ret (pos, None)
      | Some (S i) => if stop i then Ret (pos, Some i) else probe_loop fuel b mask stop (next_slot pos mask)
      end
  end.

(** * Slots at a distance *)

Section table.
Context (m : nat).

Definition at_dist (h d : nat) : nat := ((h + d) mod m)%nat.

Definition size_ok : Prop := exists k, m = (2 ^ k)%nat.

Lemma size_pos : size_ok -> (0 < m)%nat.
Proof. intros [k ->]. apply Nat.neq_0_lt_0, Nat.pow_nonzero. lia. Qed.

Lemma next_at_dist h d : size_ok -> next_slot (at_dist h d) (m - 1) = at_dist h (S d).
Proof.
  intros Hs. pose proof (size_pos Hs) as Hm. destruct Hs as [k Hk]. unfold next_slot, at_dist.
  replace (m - 1)%nat with (Nat.ones k) by (rewrite Nat.ones_equiv, Hk; lia).
  rewrite Nat.land_ones, <- Hk, Nat.Div0.add_mod_idemp_l. f_equal. lia.
Qed.

Lemma slot_of_lt hash : size_ok -> (slot_of hash (m - 1) < m)%nat.
Proof.
  intros Hs. pose proof (size_pos Hs) as Hm. destruct Hs as [k Hk]. unfold slot_of.
  rewrite (land_mask _ (Z.of_nat k)) by (rewrite ?Nat2Z.inj_sub, ?Hk, ?Nat2Z.inj_pow by lia; lia).
  pose proof (Z.mod_pos_bound hash (2 ^ Z.of_nat k)).
  assert (Z.of_nat m = 2 ^ Z.of_nat k) by (by rewrite Hk, Nat2Z.inj_pow). lia.
Qed.

Lemma at_dist_0 h : (h < m)%nat -> at_dist h 0 = h.
Proof. intros H. unfold at_dist. rewrite Nat.add_0_r. by apply Nat.mod_small. Qed.

Lemma at_dist_inj h d d' : (d < m)%nat -> (d' < m)%nat -> at_dist h d = at_dist h d' -> d = d'.
Proof.
  unfold at_dist. intros H1 H2 H. pose proof (Nat.div_mod_eq (h + d) m). pose proof (Nat.div_mod_eq (h + d') m).
  rewrite H in *. set (q := ((h + d) / m)%nat) in *. set (q' := ((h + d') / m)%nat) in *.
  destruct (Nat.lt_trichotomy q q') as [?|[?|?]]; nia.
Qed.

(** Every slot is at some distance. *)
Lemma at_dist_onto h p : (h < m)%nat -> (p < m)%nat -> exists d, (d < m)%nat /\ at_dist h d = p.
Proof.
  intros Hh Hp. unfold at_dist. destruct (decide (h <= p)%nat).
  - exists (p - h)%nat. split; [lia|]. replace (h + (p - h))%nat with p by lia. by apply Nat.mod_small.
  - exists (p + m - h)%nat. split; [lia|]. replace (h + (p + m - h))%nat with (p + 1 * m)%nat by lia.
    rewrite Nat.Div0.mod_add. by apply Nat.mod_small.
Qed.

(** * The invariant *)

Context {K : Type} (key : nat -> K) (hash : K -> Z).

Definition home (i : nat) : nat := slot_of (hash (key i)) (m - 1).

(** The indices [reg] are registered, in this order. *)
Record table_inv (b : list nat) (reg : list nat) : Prop := {
  ti_length : length b = m;
  ti_entries : filter (fun x => x <> O) b ≡ₚ S <$> reg;
  ti_nodup : NoDup reg;
  ti_place : forall n i, reg !! n = Some i -> exists d, (d < m)%nat /\ b !! at_dist (home i) d = Some (S i) /\
    (forall d', (d' < d)%nat -> exists j, b !! at_dist (home i) d' = Some (S j) /\
       (key j = key i -> exists n', (n' < n)%nat /\ reg !! n' = Some j))
}.

Lemma entry_registered b reg p i : table_inv b reg -> b !! p = Some (S i) -> i ∈ reg.
Proof.
  intros Hi Hp. assert (S i ∈ filter (fun x => x <> O) b) as H.
  { apply list_elem_of_filter. split; [done|]. by eapply list_elem_of_lookup_2. }
  rewrite (ti_entries _ _ Hi) in H. apply list_elem_of_fmap in H as (j & [= ->] & H). done.
Qed.

(** Fewer entries than slots leave an empty one. *)
Lemma empty_slot b reg : table_inv b reg -> (length reg < m)%nat -> exists p, (p < m)%nat /\ b !! p = Some O.
Proof.
  intros Hi Hl. pose proof (ti_entries _ _ Hi) as He. apply Permutation_length in He. rewrite length_fmap in He.
  destruct (decide (O ∈ b)) as [H|H].
  - apply list_elem_of_lookup in H as [p Hp]. exists p. split; [|done]. rewrite <- (ti_length _ _ Hi).
    by eapply lookup_lt_Some.
  - exfalso. pose proof (ti_length _ _ Hi) as Hlen.
    assert (filter (fun x => x <> O) b = b) as E; [|rewrite E in He; lia].
    clear He Hlen Hi. induction b as [|x b IH]; [done|]. apply not_elem_of_cons in H as [H1 H2].
    rewrite filter_cons_True by done. f_equal. by apply IH.
Qed.

(** The first distance from [h] at which the probe stops. *)
Lemma probe_stops b stop h : size_ok -> length b = m -> (h < m)%nat ->
  (exists d, (d < m)%nat /\ b !! at_dist h d = Some O) ->
  forall fuel, (m < fuel)%nat ->
  exists d r, (d < m)%nat /\ probe_loop fuel b (m - 1) stop h = Ret (at_dist h d, r) /\
    (forall d', (d' < d)%nat -> exists j, b !! at_dist h d' = Some (S j) /\ stop j = false) /\
    match r with None => b !! at_dist h d = Some O | Some i => b !! at_dist h d = Some (S i) /\ stop i = true end.
Proof.
  intros Hs Hlen Hh (de & Hde & He) fuel Hf.
  assert (Hgen : forall k fuel d, (de - d = k)%nat -> (d <= de)%nat -> (k < fuel)%nat ->
    (forall d', (d' < d)%nat -> exists j, b !! at_dist h d' = Some (S j) /\ stop j = false) ->
    exists d2 r, (d2 < m)%nat /\ probe_loop fuel b (m - 1) stop (at_dist h d) = Ret (at_dist h d2, r) /\
      (forall d', (d' < d2)%nat -> exists j, b !! at_dist h d' = Some (S j) /\ stop j = false) /\
      match r with None => b !! at_dist h d2 = Some O | Some i => b !! at_dist h d2 = Some (S i) /\ stop i = true end).
  { induction k as [|k IH]; intros [|fuel0] d Hk Hd Hf0 Hb; try lia; cbn [probe_loop].
    - replace d with de in * by lia. rewrite He. exists de, None. done.
    - destruct (lookup_lt_is_Some_2 b (at_dist h d)) as [x Hx].
      { rewrite Hlen. apply Nat.mod_upper_bound. lia. }
      rewrite Hx. destruct x as [|i]; [exists d, None; split; [lia|done]|].
      destruct (stop i) eqn:Hst; [exists d, (Some i); split; [lia|done]|].
      rewrite next_at_dist by done. apply IH; [lia|lia|lia|].
      intros d' Hd'. destruct (decide (d' = d)) as [->|]; [by exists i|apply Hb; lia]. }
  destruct (Hgen de fuel O) as (d & r & H); [lia|lia|lia|lia|].
  rewrite at_dist_0 in H by done. by exists d, r.
Qed.

Lemma home_lt i : size_ok -> (home i < m)%nat.
Proof. apply slot_of_lt. Qed.

Lemma table_inv_empty : table_inv (replicate m O) [].
Proof.
  split.
  - apply length_replicate.
  - assert (filter (fun x => x <> O) (replicate m O) = []) as ->; [|done].
    induction m as [|n IH]; [done|]. simpl. by rewrite filter_cons_False by lia.
  - constructor.
  - intros n i H. by rewrite lookup_nil in H.
Qed.

Lemma empty_at_dist b reg h : size_ok -> table_inv b reg -> (length reg < m)%nat -> (h < m)%nat ->
  exists d, (d < m)%nat /\ b !! at_dist h d = Some O.
Proof.
  intros Hs Hi Hl Hh. destruct (empty_slot b reg Hi Hl) as (p & Hp & Hbp).
  destruct (at_dist_onto h p Hh Hp) as (d & Hd & <-). by exists d.
Qed.

Lemma filter_insert (b : list nat) p x : b !! p = Some O -> x <> O ->
  filter (fun y => y <> O) (<[p:=x]> b) ≡ₚ x :: filter (fun y => y <> O) b.
Proof.
  revert p. induction b as [|y b IH]; intros [|p] Hp Hx; try done.
  - injection Hp as ->. simpl. rewrite filter_cons_True, filter_cons_False by (done || lia). done.
  - simpl in *. destruct (decide (y <> O)).
    + rewrite !filter_cons_True by done. rewrite (IH p Hp Hx). constructor.
    + rewrite !filter_cons_False by done. by apply IH.
Qed.

(** Entering a new index at the empty slot where its probe ends. *)
Lemma table_inv_insert b reg i d : table_inv b reg -> i ∉ reg -> (d < m)%nat ->
  b !! at_dist (home i) d = Some O ->
  (forall d', (d' < d)%nat -> exists j, b !! at_dist (home i) d' = Some (S j)) ->
  table_inv (<[at_dist (home i) d := S i]> b) (reg ++ [i]).
Proof.
  intros Hi Hnew Hd Hz Hbefore. set (p := at_dist (home i) d) in *.
  assert (Hkeep : forall q x, b !! q = Some (S x) -> <[p:=S i]> b !! q = Some (S x)).
  { intros q x Hq. rewrite list_lookup_insert_ne; [done|]. intros ->. congruence. }
  split.
  - rewrite length_insert. apply Hi.
  - rewrite filter_insert, (ti_entries _ _ Hi) by done. rewrite fmap_app. simpl.
    by rewrite Permutation_app_comm.
  - apply NoDup_app. split; [apply Hi|]. split; [|apply NoDup_singleton].
    intros x Hx ->%list_elem_of_singleton. done.
  - intros n j Hn. apply lookup_app_Some in Hn as [Hn|[Hge Hn]].
    + destruct (ti_place _ _ Hi n j Hn) as (dj & Hdj & Hj & Hb). exists dj. split; [done|].
      split; [by apply Hkeep|]. intros d' Hd'. destruct (Hb d' Hd') as (x & Hx & Hord).
      exists x. split; [by apply Hkeep|]. intros Ek. destruct (Hord Ek) as (n' & Hn' & E). exists n'.
      split; [done|]. by apply lookup_app_l_Some.
    + assert (n = length reg /\ j = i) as [-> ->].
      { destruct (n - length reg)%nat as [|k] eqn:En; [|done]. simpl in Hn. injection Hn as <-. split; [lia|done]. }
      exists d. split; [done|]. split.
      * apply list_lookup_insert_eq. by eapply lookup_lt_Some.
      * intros d' Hd'. destruct (Hbefore d' Hd') as (x & Hx). exists x. split; [by apply Hkeep|]. intros _.
        pose proof (entry_registered _ _ _ _ Hi Hx) as Hin. apply list_elem_of_lookup in Hin as [n' Hn'].
        exists n'. split; [by eapply lookup_lt_Some|]. apply lookup_app_l_Some. done.
Qed.

(** The probe for a new index ends at such a slot. *)
Lemma probe_insert b reg i stop fuel : size_ok -> table_inv b reg -> (length reg < m)%nat -> i ∉ reg ->
  (forall j, j ∈ reg -> stop j = false) -> (m < fuel)%nat ->
  exists p, probe_loop fuel b (m - 1) stop (home i) = Ret (p, None) /\ (p < m)%nat /\
    table_inv (<[p := S i]> b) (reg ++ [i]).
Proof.
  intros Hs Hi Hl Hnew Hstop Hf. pose proof (home_lt i Hs) as Hh.
  destruct (probe_stops b stop (home i) Hs (ti_length _ _ Hi) Hh (empty_at_dist b reg _ Hs Hi Hl Hh) fuel Hf)
    as (d & r & Hd & E & Hb & Hr).
  destruct r as [j|].
  - destruct Hr as [Hr1 Hr2]. rewrite (Hstop j) in Hr2; [done|]. by eapply entry_registered.
  - exists (at_dist (home i) d). split; [done|]. split; [apply Nat.mod_upper_bound; lia|].
    apply table_inv_insert; [done..|]. intros d' Hd'. destruct (Hb d' Hd') as (x & Hx & _). by exists x.
Qed.

(** The probe for a key ends at the first registered index with that key. *)
Lemma probe_find b reg k stop fuel : size_ok -> table_inv b reg -> (length reg < m)%nat ->
  (forall j, j ∈ reg -> stop j = true <-> key j = k) -> (m < fuel)%nat ->
  exists p r, probe_loop fuel b (m - 1) stop (slot_of (hash k) (m - 1)) = Ret (p, r) /\ (p < m)%nat /\
    match r with
    | Some i => key i = k /\ exists n, reg !! n = Some i /\ (forall n' j, (n' < n)%nat -> reg !! n' = Some j -> key j <> k)
    | None => (forall j, j ∈ reg -> key j <> k) /\ b !! p = Some O /\
        exists d, (d < m)%nat /\ p = at_dist (slot_of (hash k) (m - 1)) d /\
          forall d', (d' < d)%nat -> exists j, b !! at_dist (slot_of (hash k) (m - 1)) d' = Some (S j)
    end.
Proof.
  intros Hs Hi Hl Hstop Hf. pose proof (slot_of_lt (hash k) Hs) as Hh. set (h := slot_of (hash k) (m - 1)) in *.
  destruct (probe_stops b stop h Hs (ti_length _ _ Hi) Hh (empty_at_dist b reg _ Hs Hi Hl Hh) fuel Hf)
    as (d & r & Hd & E & Hb & Hr).
  exists (at_dist h d), r. split; [done|]. split; [apply Nat.mod_upper_bound; lia|].
  (* an index with the key lies at a distance from the same home *)
  assert (Hreach : forall n j, reg !! n = Some j -> key j = k ->
    exists dj, (dj < m)%nat /\ b !! at_dist h dj = Some (S j) /\ (d <= dj)%nat /\
      (forall d', (d' < dj)%nat -> exists x, b !! at_dist h d' = Some (S x) /\
         (key x = key j -> exists n', (n' < n)%nat /\ reg !! n' = Some x))).
  { intros n j Hn Ek. destruct (ti_place _ _ Hi n j Hn) as (dj & Hdj & Hj & Hbj). unfold home in *. rewrite Ek in *.
    exists dj. split; [done|]. split; [done|]. split; [|done]. destruct (Nat.le_gt_cases d dj) as [|Hlt]; [done|].
    destruct (Hb dj Hlt) as (x & Hx & Hst). unfold h in Hx. rewrite Hx in Hj. injection Hj as ->.
    assert (stop j = true) by (apply Hstop; [by eapply list_elem_of_lookup_2|done]). congruence. }
  destruct r as [i|].
  - destruct Hr as [Hr Hst]. pose proof (entry_registered _ _ _ _ Hi Hr) as Hin. apply Hstop in Hst; [|done].
    split; [done|]. apply list_elem_of_lookup in Hin as [n Hn]. exists n. split; [done|].
    intros n' j Hn' Hj Ek. destruct (Hreach n' j Hj Ek) as (dj & Hdj & Hjd & Hle & Hbj).
    destruct (decide (d = dj)) as [->|Hne].
    + rewrite Hr in Hjd. injection Hjd as ->. pose proof (NoDup_lookup _ _ _ _ (ti_nodup _ _ Hi) Hn Hj). lia.
    + destruct (Hbj d ltac:(lia)) as (x & Hx & Hord). rewrite Hr in Hx. injection Hx as <-.
      destruct (Hord ltac:(congruence)) as (n2 & Hn2 & E2).
      pose proof (NoDup_lookup _ _ _ _ (ti_nodup _ _ Hi) Hn E2). lia.
  - split.
    + intros j Hj Ek. apply list_elem_of_lookup in Hj as [n Hn]. destruct (Hreach n j Hn Ek) as (dj & Hdj & Hjd & Hle & Hbj).
      destruct (decide (d = dj)) as [->|Hne]; [congruence|]. destruct (Hbj d ltac:(lia)) as (x & Hx & _). congruence.
    + split; [done|]. exists d. split; [done|]. split; [done|]. intros d' Hd'. destruct (Hb d' Hd') as (x & Hx & _). by exists x.
Qed.
End table.

(** Only the keys of registered indices count. *)
Lemma table_inv_key {K} m (k k' : nat -> K) (hash : K -> Z) b reg : (forall i, i ∈ reg -> k i = k' i) ->
  table_inv m k hash b reg -> table_inv m k' hash b reg.
Proof.
  intros He Hi. split.
  - apply Hi.
  - apply Hi.
  - apply Hi.
  - intros n i Hn. pose proof (list_elem_of_lookup_2 _ _ _ Hn) as Hin. destruct (ti_place m k hash _ _ Hi n i Hn) as (d & Hd & Hb & Hord).
    assert (home m k' hash i = home m k hash i) as -> by (unfold home; by rewrite He).
    exists d. split; [done|]. split; [done|]. intros d' Hd'. destruct (Hord d' Hd') as (j & Hj & Hk).
    exists j. split; [done|]. intros Ek. apply Hk. rewrite (He i Hin).
    rewrite (He j); [done|]. by eapply entry_registered.
Qed.
End Probe.
