(* ===== verification/SymbolTable.v ===== *)
(** Scopes and symbols: src/src/semantic/symbol_table.c.

    Symbols are objects of a store, named by number; a scope lists its symbols
    in order of declaration and, from 24 symbols on, keeps a table of them by
    name.  The chain of parent pointers from the current scope is a list that
    ends with the global scope. *)
From stdpp Require Import gmap.
From S2P Require Import Prelude StringIntern Types Probe.
#[local] Open Scope Z_scope.

Module SymbolTable.
Import Types Probe.
Import Intern(Interner, until_nul).

(** * Data *)

Inductive ScopeType := SCOPE_GLOBAL | SCOPE_FUNCTION | SCOPE_BLOCK.

Inductive SymbolKind :=
| SYMBOL_VARIABLE | SYMBOL_FUNCTION | SYMBOL_STRUCT | SYMBOL_ENUM | SYMBOL_CONSTANT
| SYMBOL_PARAMETER | SYMBOL_TAGGED_ENUM_CONSTRUCTOR.

#[export] Instance SymbolKind_eq_dec : EqDecision SymbolKind.
Proof. solve_decision. Defined.

(** The members of [Symbol] the modelled functions read or write; those of
    [data.function] come last. *)
Record Symbol := mkSymbol {
  name : cstr;
  skind : SymbolKind;
  stype : option nat;
  sscope : option Z;
  is_initialized : bool;
  is_forward_declaration : bool;
  is_extern : bool;
  link_name : cstr;
  is_used : bool;
  parameter_names : option (list cstr);
  parameter_types : option (list (option nat));
  parameter_count : nat;
  return_type : option nat
}.

Record Scope := mkScope {
  scope_type : ScopeType;
  scope_id : Z;
  symbols : list nat;
  symbol_capacity : nat;
  name_index : option (list nat);
  name_index_bucket_count : nat
}.

(** The current scope and its ancestors, [current_scope] first. *)
Record SymbolTable := mkTable { scopes : list Scope; next_scope_id : Z }.

(** What the functions work on: the table, the symbols, the types, the heap. *)
Record st := mkSt { table : SymbolTable; objects : gmap nat Symbol; tys : types; mem : heap }.

Definition set_flags (init fwd used : bool) (y : Symbol) : Symbol :=
  mkSymbol (name y) (skind y) (stype y) (sscope y) init fwd (is_extern y) (link_name y) used
    (parameter_names y) (parameter_types y) (parameter_count y) (return_type y).
Definition set_scope (i : Z) (y : Symbol) : Symbol :=
  mkSymbol (name y) (skind y) (stype y) (Some i) (is_initialized y) (is_forward_declaration y) (is_extern y)
    (link_name y) (is_used y) (parameter_names y) (parameter_types y) (parameter_count y) (return_type y).

(** [symbol->member], undefined for an object that was freed. *)
Definition sym (o : gmap nat Symbol) (i : nat) : outcome Symbol := deref (o !! i).

(** * The name index *)

Definition SYMBOL_NAME_INDEX_MIN_SYMBOLS : nat := 24.

(** The hash of a name; of a null pointer it is undefined. *)
Definition hash_name (n : cstr) : outcome Z := let! n := deref n in Ret (mettle_fnv1a_hash n).

(** The loop of [scope_name_index_rebuild] over the symbols from [i] on. *)
Fixpoint rebuild_loop (o : gmap nat Symbol) (ys : list nat) (i : nat) (b : list nat) : outcome (list nat) :=
  match ys with
  | [] => Ret b
  | y :: ys =>
      let! y := sym o y in
      match name y with
      | None => rebuild_loop o ys (S i) b
      | Some n =>
          let mask := (length b - 1)%nat in
          let! (pos, _) := probe_loop (S (length b)) b mask (fun _ => false) (slot_of (mettle_fnv1a_hash n) mask) in
          rebuild_loop o ys (S i) (<[pos := S i]> b)
      end
  end.

Definition set_index (b : option (list nat)) (n : nat) (s : Scope) : Scope :=
  mkScope (scope_type s) (scope_id s) (symbols s) (symbol_capacity s) b n.

Definition scope_name_index_rebuild (o : gmap nat Symbol) (s : Scope) (bucket_count : nat) (h : heap) :
  outcome (bool * Scope * heap) :=
  let (b, h) := calloc bucket_count O h in
  match b with
  | None => Ret (false, s, h)
  | Some b => let! b := rebuild_loop o (symbols s) 0 b in Ret (true, set_index (Some b) bucket_count s, h)
  end.

Definition scope_name_index_ensure (o : gmap nat Symbol) (s : Scope) (h : heap) : outcome (bool * Scope * heap) :=
  if (length (symbols s) <? SYMBOL_NAME_INDEX_MIN_SYMBOLS)%nat then Ret (false, s, h)
  else if (name_index_bucket_count s =? 0)%nat ||
          (name_index_bucket_count s * 7 <=? (length (symbols s) + 1) * 10)%nat then
    let next := if (name_index_bucket_count s =? 0)%nat then 64%nat else (name_index_bucket_count s * 2)%nat in
    scope_name_index_rebuild o s next h
  else Ret (true, s, h).

Definition scope_register_appended_symbol (o : gmap nat Symbol) (s : Scope) (new_index : nat) (h : heap) :
  outcome (Scope * heap) :=
  let! (ok, s, h) := scope_name_index_ensure o s h in
  if negb ok then Ret (s, h)
  else if (name_index_bucket_count s =? 0)%nat then Ret (s, h)
  else
    let mask := (name_index_bucket_count s - 1)%nat in
    let! y := deref (symbols s !! new_index) in
    let! y := sym o y in
    let! hash := hash_name (name y) in
    let! b := deref (name_index s) in
    let! (pos, found) := probe_loop (S (length b)) b mask (fun i => (i =? new_index)%nat) (slot_of hash mask) in
    match found with
    | Some _ => Ret (s, h)
    | None => Ret (set_index (Some (<[pos := S new_index]> b)) (name_index_bucket_count s) s, h)
    end.

(** The scan without an index: the first symbol with the name. *)
Fixpoint scan_symbols (o : gmap nat Symbol) (ys : list nat) (n : cstr) : outcome (option nat) :=
  match ys with
  | [] => Ret None
  | y :: ys =>
      let! o_y := sym o y in
      if names_equal (name o_y) n then Ret (Some y) else scan_symbols o ys n
  end.

(** The test of the probe: does entry [i] carry the name? *)
Definition entry_named (o : gmap nat Symbol) (s : Scope) (n : cstr) (i : nat) : bool :=
  match symbols s !! i with
  | Some y => match o !! y with Some o_y => names_equal (name o_y) n | None => false end
  | None => false
  end.

Definition scope_lookup_symbol (o : gmap nat Symbol) (s : Scope) (n : cstr) : outcome (option nat) :=
  match name_index s with
  | Some b =>
      if (0 <? name_index_bucket_count s)%nat then
        let mask := (name_index_bucket_count s - 1)%nat in
        let! hash := hash_name n in
        let! (_, found) := probe_loop (S (length b)) b mask (entry_named o s n) (slot_of hash mask) in
        match found with Some i => let! y := deref (symbols s !! i) in Ret (Some y) | None => Ret None end
      else scan_symbols o (symbols s) n
  | None => scan_symbols o (symbols s) n
  end.

(** * Comparing declarations *)

Definition effective_link_name (y : Symbol) : cstr :=
  match link_name y with
  | Some (c :: l) => if is_extern y then Some (c :: l) else name y
  | _ => name y
  end.

Definition link_names_match (a b : Symbol) : bool := names_equal (effective_link_name a) (effective_link_name b).

(** [parameter_types ? parameter_types[i] : NULL]. *)
Definition param_type (y : Symbol) (i : nat) : outcome (option nat) :=
  match parameter_types y with Some l => deref (l !! i) | None => Ret None end.

Fixpoint params_compatible (fuel : nat) (ts : types) (decl defn : Symbol) (n i : nat) : outcome bool :=
  match n with
  | O => Ret true
  | S n =>
      let! a := param_type decl i in
      let! b := param_type defn i in
      let! ok := types_compatible fuel ts a b in
      if ok : bool then params_compatible fuel ts decl defn n (S i) else Ret false
  end.

Definition result_type (y : Symbol) : option nat :=
  match return_type y with Some r => Some r | None => stype y end.

(** [fuel] bounds the depth of the types compared. *)
Definition function_signatures_match (fuel : nat) (ts : types) (decl defn : Symbol) : outcome bool :=
  if negb (bool_decide (skind decl = SYMBOL_FUNCTION)) || negb (bool_decide (skind defn = SYMBOL_FUNCTION)) then Ret false
  else if negb (parameter_count decl =? parameter_count defn)%nat then Ret false
  else if negb (eqb (is_extern decl) (is_extern defn)) then Ret false
  else if (is_extern decl || is_extern defn) && negb (link_names_match decl defn) then Ret false
  else
    let! ok := types_compatible fuel ts (result_type decl) (result_type defn) in
    if ok : bool then params_compatible fuel ts decl defn (parameter_count decl) 0 else Ret false.

(** * Scopes *)

Definition symbol_table_create (h : heap) : option SymbolTable * heap :=
  let (a, h) := alloc h in
  if negb a then (None, h)
  else
    let (b, h) := alloc h in
    if negb b then (None, h) else (Some (mkTable [mkScope SCOPE_GLOBAL 0 [] 0 None 0] 1), h).

Definition with_table (t : SymbolTable) (s : st) : st := mkSt t (objects s) (tys s) (mem s).
Definition with_objects (o : gmap nat Symbol) (s : st) : st := mkSt (table s) o (tys s) (mem s).
Definition with_mem (h : heap) (s : st) : st := mkSt (table s) (objects s) (tys s) h.

Definition symbol_table_enter_scope (ty : ScopeType) (s : st) : bool * st :=
  let (ok, h) := alloc (mem s) in
  let s := with_mem h s in
  if negb ok then (false, s)
  else if next_scope_id (table s) =? 2 ^ 64 - 1 then (false, s)
  else
    (true, with_table (mkTable (mkScope ty (next_scope_id (table s)) [] 0 None 0 :: scopes (table s))
                         (next_scope_id (table s) + 1)) s).

(** [scope_destroy]: the scope's symbols are freed. *)
Definition scope_destroy (sc : Scope) (o : gmap nat Symbol) : gmap nat Symbol :=
  foldr delete o (symbols sc).

Definition symbol_table_exit_scope (s : st) : st :=
  match scopes (table s) with
  | sc :: rest =>
      match rest with
      | [] => s
      | _ => with_objects (scope_destroy sc (objects s)) (with_table (mkTable rest (next_scope_id (table s))) s)
      end
  | [] => s
  end.

Definition symbol_table_get_current_scope (t : SymbolTable) : option Scope := head (scopes t).

(** * Declaration *)

Definition symbol_table_lookup_current_scope (s : st) (n : cstr) : outcome (option nat) :=
  match n, scopes (table s) with
  | Some _, sc :: _ => scope_lookup_symbol (objects s) sc n
  | _, _ => Ret None
  end.

(** No null parameter name or type below [n]. *)
Fixpoint params_present (y : Symbol) (n i : nat) : outcome bool :=
  match n with
  | O => Ret true
  | S n =>
      let! nm := read (parameter_names y) i in
      if bool_decide (nm = None) then Ret false
      else
        let! ty := read (parameter_types y) i in
        if bool_decide (ty = None) then Ret false else params_present y n (S i)
  end.

Definition symbol_table_validate_declaration (fuel : nat) (s : st) (y : nat) : outcome bool :=
  let! sy := sym (objects s) y in
  match name sy with
  | None => Ret false
  | Some l =>
      if (length l =? 0)%nat then Ret false
      else if bool_decide (stype sy = None) then Ret false
      else
        let! ok :=
          (if bool_decide (skind sy = SYMBOL_FUNCTION) && (0 <? parameter_count sy)%nat then
             if bool_decide (parameter_names sy = None) || bool_decide (parameter_types sy = None) then Ret false
             else params_present sy (parameter_count sy) 0
           else Ret true) in
        if negb ok then Ret false
        else
          let! existing := symbol_table_lookup_current_scope s (name sy) in
          match existing with
          | Some e =>
              let! se := sym (objects s) e in
              if bool_decide (skind sy = SYMBOL_FUNCTION) && bool_decide (skind se = SYMBOL_FUNCTION) &&
                 is_forward_declaration se
              then function_signatures_match fuel (tys s) se sy
              else Ret false
          | None => Ret true
          end
  end.

(** Room for one more symbol in the array. *)
Definition grow_symbols (sc : Scope) (h : heap) : bool * Scope * heap :=
  if (symbol_capacity sc <=? length (symbols sc))%nat then
    let cap := if (symbol_capacity sc =? 0)%nat then 8%nat else (symbol_capacity sc * 2)%nat in
    let (ok, h) := alloc h in
    if ok then (true, mkScope (scope_type sc) (scope_id sc) (symbols sc) cap (name_index sc) (name_index_bucket_count sc), h)
    else (false, sc, h)
  else (true, sc, h).

(** The end of [symbol_table_declare] and of [symbol_table_insert]: append
    the symbol to the current scope and register its name. *)
Definition append_symbol (s : st) (y : nat) : outcome (bool * st) :=
  match scopes (table s) with
  | [] => Ret (false, s)
  | sc :: rest =>
      let '(ok, sc, h) := grow_symbols sc (mem s) in
      if negb ok then Ret (false, with_mem h s)
      else
        let! sy := sym (objects s) y in
        let o := <[y := set_scope (scope_id sc) sy]> (objects s) in
        let new_index := length (symbols sc) in
        let sc := mkScope (scope_type sc) (scope_id sc) (symbols sc ++ [y]) (symbol_capacity sc) (name_index sc)
                    (name_index_bucket_count sc) in
        let! (sc, h) := scope_register_appended_symbol o sc new_index h in
        Ret (true, mkSt (mkTable (sc :: rest) (next_scope_id (table s))) o (tys s) h)
  end.

(** [existing->is_forward_declaration = 0; existing->is_initialized = 1]. *)
Definition complete_forward (e : nat) (s : st) : outcome st :=
  let! se := sym (objects s) e in
  Ret (with_objects (<[e := set_flags true false (is_used se) se]> (objects s)) s).

Definition symbol_table_declare (fuel : nat) (s : st) (y : nat) : outcome (bool * st) :=
  match scopes (table s) with
  | [] => Ret (false, s)
  | sc :: _ =>
      let! valid := symbol_table_validate_declaration fuel s y in
      if negb valid then Ret (false, s)
      else
        let! sy := sym (objects s) y in
        let! existing := scope_lookup_symbol (objects s) sc (name sy) in
        match existing with
        | Some e =>
            let! se := sym (objects s) e in
            if bool_decide (skind sy = SYMBOL_FUNCTION) && bool_decide (skind se = SYMBOL_FUNCTION) &&
               is_forward_declaration se
            then
              let! ok := function_signatures_match fuel (tys s) se sy in
              if ok : bool then let! s := complete_forward e s in Ret (true, s) else Ret (false, s)
            else Ret (false, s)
        | None => append_symbol s y
        end
  end.

Definition symbol_table_insert (s : st) (y : nat) : outcome st :=
  let! (_, s) := append_symbol s y in Ret s.

(** The innermost scope that knows the name. *)
Fixpoint lookup_scopes (o : gmap nat Symbol) (scs : list Scope) (n : cstr) : outcome (option nat) :=
  match scs with
  | [] => Ret None
  | sc :: scs =>
      let! found := scope_lookup_symbol o sc n in
      match found with Some y => Ret (Some y) | None => lookup_scopes o scs n end
  end.

Definition symbol_table_lookup (s : st) (n : cstr) : outcome (option nat * st) :=
  match n with
  | None => Ret (None, s)
  | Some _ =>
      let! found := lookup_scopes (objects s) (scopes (table s)) n in
      match found with
      | Some y =>
          let! sy := sym (objects s) y in
          Ret (Some y, with_objects (<[y := set_flags (is_initialized sy) (is_forward_declaration sy) true sy]> (objects s)) s)
      | None => Ret (None, s)
      end
  end.

Definition symbol_table_declare_forward (fuel : nat) (s : st) (y : nat) : outcome (bool * st) :=
  match scopes (table s) with
  | [] => Ret (false, s)
  | _ =>
      let! sy := sym (objects s) y in
      if negb (bool_decide (skind sy = SYMBOL_FUNCTION)) then Ret (false, s)
      else
        let! existing := symbol_table_lookup_current_scope s (name sy) in
        match existing with
        | Some e =>
            let! se := sym (objects s) e in
            if bool_decide (skind se = SYMBOL_FUNCTION) && is_forward_declaration se then
              let! ok := function_signatures_match fuel (tys s) se sy in Ret (ok, s)
            else Ret (false, s)
        | None =>
            symbol_table_declare fuel
              (with_objects (<[y := set_flags (is_initialized sy) true (is_used sy) sy]> (objects s)) s) y
        end
  end.

Definition symbol_table_resolve_forward_declaration (fuel : nat) (s : st) (y : nat) : outcome (bool * st) :=
  let! sy := sym (objects s) y in
  if negb (bool_decide (skind sy = SYMBOL_FUNCTION)) then Ret (false, s)
  else
    let! existing := symbol_table_lookup_current_scope s (name sy) in
    match existing with
    | Some e =>
        let! se := sym (objects s) e in
        if bool_decide (skind se = SYMBOL_FUNCTION) && is_forward_declaration se then
          let! ok := function_signatures_match fuel (tys s) se sy in
          if ok : bool then let! s := complete_forward e s in Ret (true, s) else Ret (false, s)
        else Ret (false, s)
    | None =>
        symbol_table_declare fuel (with_objects (<[y := set_flags true false (is_used sy) sy]> (objects s)) s) y
    end.

(** * Suggestions and creation *)

Definition symbol_kind_allowed (k : SymbolKind) (kinds : list SymbolKind) : bool :=
  match kinds with [] => true | _ => existsb (fun k' => bool_decide (k' = k)) kinds end.

(** The names of the visible symbols of the allowed kinds, innermost first. *)
Fixpoint candidate_names (o : gmap nat Symbol) (kinds : list SymbolKind) (ys : list nat) : outcome (list (list Z)) :=
  match ys with
  | [] => Ret []
  | y :: ys =>
      let! sy := sym o y in
      let! rest := candidate_names o kinds ys in
      Ret (match name sy with
           | Some n => if symbol_kind_allowed (skind sy) kinds then n :: rest else rest
           | None => rest
           end)
  end.

(** The array of candidates starts with 32 places and doubles. *)
Fixpoint grow_names (fuel count capacity : nat) (h : heap) : bool * heap :=
  match fuel with
  | O => (true, h)
  | S fuel =>
      if (capacity <? count)%nat then
        let (ok, h) := alloc h in
        if ok then grow_names fuel count (capacity * 2) h else (false, h)
      else (true, h)
  end.

(** [closest] is [error_reporter_closest_candidate]. *)
Definition symbol_table_suggest_similar (closest : list Z -> list (list Z) -> cstr) (s : st) (n : cstr)
  (kinds : list SymbolKind) : outcome (cstr * st) :=
  match n with
  | None | Some [] => Ret (None, s)
  | Some n =>
      let (ok, h) := alloc (mem s) in
      if negb ok then Ret (None, with_mem h s)
      else
        let! names := candidate_names (objects s) kinds (concat (symbols <$> scopes (table s))) in
        let (ok, h) := grow_names (length names) (length names) 32 h in
        Ret (if ok then closest n names else None, with_mem h s)
  end.

Definition symbol_create {T} {IT : Interner T} (n : cstr) (k : SymbolKind) (t : option nat) (tb : T) (h : heap) :
  option Symbol * T * heap :=
  match n with
  | None => (None, tb, h)
  | Some _ =>
      let (ok, h) := alloc h in
      if negb ok then (None, tb, h)
      else
        let '(nm, tb, h) := intern_name n tb h in
        (match nm with
         | None => None
         | Some _ => Some (mkSymbol nm k t None false false false None false None None 0 None)
         end, tb, h)
  end.
End SymbolTable.
