(* ===== verification/SymbolTableCorrect.v ===== *)
(** Scoping: the symbol table refines a stack of lists of bindings.

    The name index of a scope never changes the answer of a lookup as long as
    its allocations are granted; enter, exit, declare and lookup then act on
    the stack of scopes as a reader of the language expects.  When the index
    cannot grow, a symbol that was declared is lost to lookups. *)
From stdpp Require Import gmap.
From S2P Require Import Prelude StringIntern Types Probe SymbolTable.
#[local] Open Scope Z_scope.

Module SymbolTableCorrect.
Import Types Probe SymbolTable.

(** * The invariant of a scope *)

(** The name of entry [i]. *)
Definition key (o : gmap nat Symbol) (ys : list nat) (i : nat) : cstr :=
  match ys !! i with
  | Some y => match o !! y with Some sy => name sy | None => None end
  | None => None
  end.

Definition key_hash (n : cstr) : Z := mettle_fnv1a_hash (default [] n).

(** A symbol that exists and has a name. *)
Definition named (o : gmap nat Symbol) (y : nat) : Prop := exists sy l, o !! y = Some sy /\ name sy = Some l.

Record scope_inv (o : gmap nat Symbol) (sc : Scope) : Prop := {
  sc_named : forall y, y ∈ symbols sc -> named o y;
  sc_count : name_index sc = None -> name_index_bucket_count sc = O /\ (length (symbols sc) < 24)%nat;
  sc_index : forall b, name_index sc = Some b ->
    size_ok (name_index_bucket_count sc) /\
    table_inv (name_index_bucket_count sc) (key o (symbols sc)) key_hash b (seq 0 (length (symbols sc))) /\
    ((length (symbols sc) + 1) * 10 < name_index_bucket_count sc * 7)%nat /\ (24 <= length (symbols sc))%nat
}.

(** Two stores in which the symbols of a list carry the same names. *)
Definition same_names (o o' : gmap nat Symbol) (ys : list nat) : Prop :=
  forall y, y ∈ ys -> name <$> (o !! y) = name <$> (o' !! y).

Lemma key_same o o' ys i : same_names o o' ys -> key o ys i = key o' ys i.
Proof.
  intros H. unfold key. destruct (ys !! i) as [y|] eqn:E; [|done].
  specialize (H y (list_elem_of_lookup_2 _ _ _ E)). destruct (o !! y), (o' !! y); simpl in H; congruence.
Qed.

Lemma named_same o o' ys y : same_names o o' ys -> y ∈ ys -> named o y -> named o' y.
Proof.
  intros H Hin (sy & l & E & Hn). specialize (H y Hin). rewrite E in H. simpl in H.
  destruct (o' !! y) as [sy'|] eqn:E'; [|done]. exists sy', l. split; [done|]. simpl in H. congruence.
Qed.

Lemma scope_inv_same o o' sc : same_names o o' (symbols sc) -> scope_inv o sc -> scope_inv o' sc.
Proof.
  intros H [Hn Hc Hi]. split.
  - intros y Hy. eapply named_same; [done..|]. by apply Hn.
  - done.
  - intros b Hb. destruct (Hi b Hb) as (H1 & H2 & H3). split; [done|]. split; [|done].
    eapply table_inv_key; [|exact H2]. intros i _. by apply key_same.
Qed.

(** * Lookup in a scope *)

(** The first of the symbols with the name, by definition. *)
Fixpoint first_named (o : gmap nat Symbol) (ys : list nat) (l : list Z) : option nat :=
  match ys with
  | [] => None
  | y :: ys => if bool_decide (name <$> (o !! y) = Some (Some l)) then Some y else first_named o ys l
  end.

Lemma names_equal_some n l : names_equal n (Some l) = bool_decide (n = Some l).
Proof. destruct n; simpl; [|done]. apply bool_decide_ext. naive_solver. Qed.

Lemma scan_symbols_first o ys l : (forall y, y ∈ ys -> named o y) -> scan_symbols o ys (Some l) = Ret (first_named o ys l).
Proof.
  induction ys as [|y ys IH]; intros H; [done|]. cbn [scan_symbols first_named].
  destruct (H y ltac:(left)) as (sy & n & E & Hn). unfold sym. rewrite E. cbn [deref obind].
  rewrite names_equal_some. simpl. rewrite IH by (intros z Hz; apply H; by right).
  rewrite Hn. destruct (decide (n = l)) as [->|Hne].
  - by rewrite !bool_decide_eq_true_2.
  - rewrite !bool_decide_eq_false_2; [done|intros [= ?]; done..].
Qed.

Lemma key_head o y ys l : name <$> (o !! y) = Some (Some l) <-> key o (y :: ys) 0 = Some l.
Proof.
  unfold key. simpl. destruct (o !! y) as [sy|]; simpl; [|done].
  split; [by intros [= H]|by intros ->].
Qed.

Lemma first_named_spec o ys l n y : ys !! n = Some y -> key o ys n = Some l ->
  (forall n' , (n' < n)%nat -> key o ys n' <> Some l) -> first_named o ys l = Some y.
Proof.
  revert n. induction ys as [|z ys IH]; intros n Hn Hk Hb; [done|]. cbn [first_named].
  destruct n as [|n].
  - simpl in Hn. injection Hn as ->. rewrite bool_decide_eq_true_2; [done|]. by apply (key_head o y ys).
  - rewrite bool_decide_eq_false_2.
    + apply (IH n); [done|done|]. intros n' Hn'. apply (Hb (S n')). lia.
    + intros E. by apply (Hb O ltac:(lia)), key_head.
Qed.

Lemma first_named_none o ys l : (forall n, (n < length ys)%nat -> key o ys n <> Some l) -> first_named o ys l = None.
Proof.
  induction ys as [|z ys IH]; intros Hb; [done|]. cbn [first_named]. rewrite bool_decide_eq_false_2.
  - apply IH. intros n Hn. apply (Hb (S n)). simpl. lia.
  - intros E. apply (Hb O); [simpl; lia|]. by apply key_head.
Qed.

Lemma entry_named_key o sc l i : (i < length (symbols sc))%nat -> (forall y, y ∈ symbols sc -> named o y) ->
  entry_named o sc (Some l) i = true <-> key o (symbols sc) i = Some l.
Proof.
  intros Hi Hn. unfold entry_named, key. destruct (lookup_lt_is_Some_2 _ _ Hi) as [y Hy]. rewrite Hy.
  destruct (Hn y) as (sy & n & E & _); [by eapply list_elem_of_lookup_2|]. rewrite E.
  by rewrite names_equal_some, bool_decide_eq_true.
Qed.

Lemma seq_lookup_eq n k i : seq 0 n !! k = Some i -> i = k /\ (k < n)%nat.
Proof. intros H. apply lookup_seq in H. lia. Qed.

Lemma scope_lookup_first o sc l : scope_inv o sc ->
  scope_lookup_symbol o sc (Some l) = Ret (first_named o (symbols sc) l).
Proof.
  intros [Hn Hc Hi]. unfold scope_lookup_symbol.
  destruct (name_index sc) as [b|] eqn:Eb; [|by apply scan_symbols_first].
  destruct (Hi b eq_refl) as (Hs & Ht & Hload & Hmin). set (m := name_index_bucket_count sc) in *.
  pose proof (size_pos m Hs) as Hm. rewrite (proj2 (Nat.ltb_lt 0 m) Hm). cbn [hash_name deref obind].
  assert (length (seq 0 (length (symbols sc))) < m)%nat as Hlen by (rewrite length_seq; lia).
  destruct (probe_find m (key o (symbols sc)) key_hash b _ (Some l) (entry_named o sc (Some l)) (S (length b)) Hs Ht Hlen)
    as (p & r & E & Hp & Hr).
  { intros j Hj. apply elem_of_seq in Hj. apply entry_named_key; [lia|done]. }
  { rewrite (ti_length _ _ _ _ _ Ht). lia. }
  change (key_hash (Some l)) with (mettle_fnv1a_hash l) in E. rewrite E. cbn [obind].
  destruct r as [i|].
  - destruct Hr as (Hk & n & Hreg & Hfirst). apply seq_lookup_eq in Hreg as [-> Hlt].
    destruct (lookup_lt_is_Some_2 _ _ Hlt) as [y Hy]. rewrite Hy. cbn [deref obind]. f_equal. symmetry.
    apply (first_named_spec o _ l n y Hy Hk). intros n' Hn'. apply (Hfirst n' n'); [done|].
    apply lookup_seq. lia.
  - destruct Hr as [Hnone _]. f_equal. symmetry. apply first_named_none. intros n Hlt. apply Hnone.
    apply elem_of_seq. lia.
Qed.

(** * Appending a symbol *)

Definition heap_full (h : heap) : Prop := forall n, heap_grants h n = true.

Lemma calloc_full {A} n (z : A) h : heap_full h ->
  calloc n z h = (Some (replicate n z), mkHeap (heap_grants h) (S (heap_calls h))).
Proof. intros H. unfold calloc, alloc. by rewrite H. Qed.

Lemma rebuild_ok o ys m : size_ok m -> (length ys < m)%nat -> (forall y, y ∈ ys -> named o y) ->
  forall k i b, (i + length k = length ys)%nat -> drop i ys = k ->
    table_inv m (key o ys) key_hash b (seq 0 i) ->
    exists b', rebuild_loop o k i b = Ret b' /\ table_inv m (key o ys) key_hash b' (seq 0 (length ys)).
Proof.
  intros Hs Hlt Hn. induction k as [|y k IH]; intros i b Hl Hd Ht; cbn [rebuild_loop].
  { exists b. replace (length ys) with i by (simpl in Hl; lia). done. }
  simpl in Hl. assert (ys !! i = Some y) as Hy by (by rewrite <- (Nat.add_0_r i), <- lookup_drop, Hd).
  destruct (Hn y) as (sy & l & E & Hnm); [by eapply list_elem_of_lookup_2|].
  unfold sym. rewrite E. cbn [deref obind]. rewrite Hnm.
  assert (key o ys i = Some l) as Hk by (unfold key; by rewrite Hy, E).
  assert (home m (key o ys) key_hash i = slot_of (mettle_fnv1a_hash l) (m - 1)) as Hhome by (unfold home; by rewrite Hk).
  destruct (probe_insert m (key o ys) key_hash b (seq 0 i) i (fun _ => false) (S (length b)) Hs Ht) as (p & Ep & Hp & Ht').
  - rewrite length_seq. lia.
  - intros Hin. apply elem_of_seq in Hin. lia.
  - done.
  - rewrite (ti_length _ _ _ _ _ Ht). lia.
  - rewrite Hhome in Ep. rewrite (ti_length _ _ _ _ _ Ht) in Ep |- *. rewrite Ep. cbn [obind].
    destruct (IH (S i) (<[p:=S i]> b)) as (b' & Eb & Hb'); [lia| | |].
    + replace (S i) with (i + 1)%nat by lia. by rewrite <- drop_drop, Hd.
    + rewrite seq_S. exact Ht'.
    + by exists b'.
Qed.

(** An index that holds the symbol already is left alone. *)
Lemma probe_registered o ys m b n l (i : nat) : size_ok m -> table_inv m (key o ys) key_hash b (seq 0 n) ->
  (n < m)%nat -> (i < n)%nat -> key o ys i = Some l ->
  exists p, probe_loop (S m) b (m - 1) (fun j => (j =? i)%nat) (slot_of (mettle_fnv1a_hash l) (m - 1)) = Ret (p, Some i).
Proof.
  intros Hs Ht Hlt Hi Hk. change (mettle_fnv1a_hash l) with (key_hash (Some l)). rewrite <- Hk.
  change (slot_of (key_hash (key o ys i)) (m - 1)) with (home m (key o ys) key_hash i).
  set (hm := home m (key o ys) key_hash i). assert (hm < m)%nat as Hh by (by apply home_lt).
  destruct (probe_stops m b (fun j => (j =? i)%nat) hm Hs (ti_length _ _ _ _ _ Ht) Hh) with (fuel := S m)
    as (d & r & Hd & E & Hb & Hr); [|lia|].
  { eapply empty_at_dist; [done..|by rewrite length_seq|done]. }
  destruct r as [j|].
  - destruct Hr as [_ ->%Nat.eqb_eq]. eauto.
  - destruct (ti_place _ _ _ _ _ Ht i i) as (di & Hdi & Hbi & Hord); [by apply lookup_seq|]. fold hm in Hbi, Hord.
    destruct (Nat.lt_trichotomy d di) as [Hlt'|[->|Hlt']].
    + destruct (Hord d Hlt') as (j & Hj & _). congruence.
    + congruence.
    + destruct (Hb di Hlt') as (j & Hj & Hne). rewrite Hbi in Hj. injection Hj as <-. by rewrite Nat.eqb_refl in Hne.
Qed.

Lemma rebuild_full o sc m h : heap_full h -> size_ok m -> (length (symbols sc) < m)%nat ->
  (forall y, y ∈ symbols sc -> named o y) ->
  exists b h', scope_name_index_rebuild o sc m h = Ret (true, set_index (Some b) m sc, h') /\ heap_full h' /\
    table_inv m (key o (symbols sc)) key_hash b (seq 0 (length (symbols sc))).
Proof.
  intros Hh Hs Hlt Hn. unfold scope_name_index_rebuild. rewrite calloc_full by done.
  destruct (rebuild_ok o (symbols sc) m Hs Hlt Hn (symbols sc) 0 (replicate m O)) as (b & E & Hb); [done|done| |].
  - apply table_inv_empty.
  - exists b. eexists. rewrite E. done.
Qed.

Lemma size_double m : size_ok m -> size_ok (m * 2).
Proof. intros [k ->]. exists (S k). rewrite Nat.pow_succ_r'. lia. Qed.

(** The symbol [y] at the end of the array, not yet in the index. *)
Definition pushed (sc : Scope) (y : nat) : Scope :=
  mkScope (scope_type sc) (scope_id sc) (symbols sc ++ [y]) (symbol_capacity sc) (name_index sc) (name_index_bucket_count sc).

(** Either there is no index yet, or it is as large as needed and holds the
    new symbol or all others. *)
Lemma ensure_pushed o sc y h : scope_inv o sc -> named o y -> heap_full h ->
  let n := length (symbols sc) in
  exists ok b m h', heap_full h' /\ (scope_name_index_ensure o (pushed sc y) h = Ret (ok, set_index b m (pushed sc y), h')) /\
    if ok : bool then exists b', b = Some b' /\ size_ok m /\ ((n + 2) * 10 < m * 7)%nat /\ (24 <= S n)%nat /\
       (table_inv m (key o (symbols sc ++ [y])) key_hash b' (seq 0 n) \/
        table_inv m (key o (symbols sc ++ [y])) key_hash b' (seq 0 (S n)))
    else b = None /\ m = O /\ (S n < 24)%nat.
Proof.
  intros [Hn Hc Hi] Hy Hh n. unfold scope_name_index_ensure.
  assert (length (symbols (pushed sc y)) = S n) as Hlen by (unfold pushed; simpl; rewrite length_app; simpl; lia).
  assert (forall z, z ∈ symbols (pushed sc y) -> named o z) as Hn'.
  { intros z Hz. simpl in Hz. apply elem_of_app in Hz as [Hz| ->%list_elem_of_singleton]; auto. }
  rewrite Hlen. unfold SYMBOL_NAME_INDEX_MIN_SYMBOLS. change (name_index_bucket_count (pushed sc y)) with (name_index_bucket_count sc).
  destruct (name_index sc) as [b|] eqn:Eb.
  - destruct (Hi b eq_refl) as (Hs & Ht & Hl & Hmin). fold n in Ht, Hl, Hmin. set (m := name_index_bucket_count sc) in *.
    pose proof (size_pos m Hs). rewrite (proj2 (Nat.ltb_ge (S n) 24)), (proj2 (Nat.eqb_neq m 0)) by lia. cbn [orb].
    destruct (m * 7 <=? (S n + 1) * 10)%nat eqn:Eg.
    + destruct (rebuild_full o (pushed sc y) (m * 2) h Hh) as (b' & h' & E & Hh' & Ht');
        [by apply size_double|rewrite Hlen; apply Nat.leb_le in Eg; lia|done|].
      rewrite E. exists true, (Some b'), (m * 2)%nat, h'. split; [done|]. split; [done|]. exists b'.
      split; [done|]. split; [by apply size_double|]. split; [lia|]. split; [lia|]. right. by rewrite Hlen in Ht'.
    + apply Nat.leb_gt in Eg. exists true, (Some b), m, h. split; [done|]. split.
      { unfold set_index, pushed. simpl. by rewrite Eb. }
      exists b. split; [done|]. split; [done|]. split; [lia|]. split; [lia|]. left.
      eapply table_inv_key; [|exact Ht]. intros i Hi'%elem_of_seq. unfold key. rewrite lookup_app_l by lia. done.
  - destruct (Hc eq_refl) as [Hm Hl]. fold n in Hl. rewrite Hm. cbn [Nat.eqb orb].
    destruct (S n <? 24)%nat eqn:El.
    + apply Nat.ltb_lt in El. exists false, None, O, h. split; [done|]. split; [|done].
      unfold set_index, pushed. simpl. by rewrite Eb, Hm.
    + apply Nat.ltb_ge in El. destruct (rebuild_full o (pushed sc y) 64 h Hh) as (b' & h' & E & Hh' & Ht');
        [by exists 6%nat|rewrite Hlen; lia|done|].
      rewrite E. exists true, (Some b'), 64%nat, h'. split; [done|]. split; [done|]. exists b'.
      split; [done|]. split; [by exists 6%nat|]. split; [lia|]. split; [lia|]. right. by rewrite Hlen in Ht'.
Qed.

Lemma register_ok o sc y h : scope_inv o sc -> named o y -> heap_full h ->
  exists b m h', scope_register_appended_symbol o (pushed sc y) (length (symbols sc)) h = Ret (set_index b m (pushed sc y), h') /\
    heap_full h' /\ scope_inv o (set_index b m (pushed sc y)).
Proof.
  intros Hsc Hy Hh. destruct (ensure_pushed o sc y h Hsc Hy Hh) as (ok & b & m & h' & Hh' & E & Hok).
  set (n := length (symbols sc)) in *. unfold scope_register_appended_symbol. rewrite E. cbn [obind].
  assert (length (symbols sc ++ [y]) = S n) as Hlen by (rewrite length_app; simpl; lia).
  assert (forall z, z ∈ symbols sc ++ [y] -> named o z) as Hn'.
  { intros z Hz. apply elem_of_app in Hz as [Hz| ->%list_elem_of_singleton]; [by apply (sc_named _ _ Hsc)|done]. }
  destruct ok; cbn [negb].
  - destruct Hok as (b' & -> & Hs & Hl & Hmin & Ht). pose proof (size_pos m Hs). simpl name_index_bucket_count.
    rewrite (proj2 (Nat.eqb_neq m 0)) by lia. simpl symbols. rewrite lookup_app_r, Nat.sub_diag by done. simpl lookup.
    destruct Hy as (sy & l & Ey & Hnm). cbn [deref obind]. unfold sym. rewrite Ey. cbn [deref obind]. rewrite Hnm.
    cbn [hash_name deref obind]. simpl name_index. cbn [deref obind].
    assert (key o (symbols sc ++ [y]) n = Some l) as Hk.
    { unfold key, n. rewrite lookup_app_r, Nat.sub_diag by done. simpl. by rewrite Ey. }
    assert (forall bt, table_inv m (key o (symbols sc ++ [y])) key_hash bt (seq 0 (S n)) ->
              scope_inv o (set_index (Some bt) m (pushed sc y))) as Hdone.
    { intros bt Hbt. split; simpl; [done|done|]. intros ? [= <-]. rewrite Hlen. do 2 (split; [done|]). lia. }
    destruct Ht as [Ht|Ht]; rewrite (ti_length _ _ _ _ _ Ht).
    + destruct (probe_insert m (key o (symbols sc ++ [y])) key_hash b' (seq 0 n) n (fun j => (j =? n)%nat) (S m) Hs Ht)
        as (p & Ep & Hp & Ht'); [rewrite length_seq; lia|rewrite elem_of_seq; lia| |lia|].
      { intros j Hj%elem_of_seq. apply Nat.eqb_neq. lia. }
      assert (home m (key o (symbols sc ++ [y])) key_hash n = slot_of (mettle_fnv1a_hash l) (m - 1)) as Hhm
        by (unfold home; by rewrite Hk).
      rewrite Hhm in Ep. rewrite Ep. cbn [obind]. exists (Some (<[p:=S n]> b')), m, h'. split; [done|].
      split; [done|]. apply Hdone. rewrite seq_S. done.
    + destruct (probe_registered o (symbols sc ++ [y]) m b' (S n) l n Hs Ht) as [p Ep]; [lia|lia|done|].
      rewrite Ep. cbn [obind]. exists (Some b'), m, h'. auto.
  - destruct Hok as (-> & -> & Hl). exists None, O, h'. split; [done|]. split; [done|].
    split; simpl; [done| |done]. intros _. split; [done|]. by rewrite Hlen.
Qed.
End SymbolTableCorrect.
