(* ===== verification/Scoping.v ===== *)
(** The symbol table as a stack of lists of symbols.

    An abstract machine keeps, for each open scope, the symbols in order of
    declaration; the functions of symbol_table.c simulate it step by step
    while memory is granted.  Scoping rules follow: what happens between
    entering a scope and leaving it does not change what names mean after. *)
From stdpp Require Import gmap.
From S2P Require Import Prelude StringIntern Types Probe SymbolTable SymbolTableCorrect.
#[local] Open Scope Z_scope.

Module Scoping.
Import Types Probe SymbolTable SymbolTableCorrect.

(** * Operations *)

(** Calls on the table; a declaration creates the symbol it declares. *)
Inductive op :=
| Enter (ty : ScopeType)
| Exit
| DeclareSymbol (sy : Symbol)
| DeclareForward (sy : Symbol)
| Resolve (sy : Symbol)
| Insert (sy : Symbol)
| Lookup (n : cstr)
| LookupCurrent (n : cstr).

Inductive answer := Done (ok : bool) | Found (y : option nat).

(** A new object at an address not in use. *)
Definition new_address (o : gmap nat Symbol) : nat := fresh (dom o : gset nat).

Definition create (sy : Symbol) (s : st) : nat * st :=
  let y := new_address (objects s) in (y, with_objects (<[y := sy]> (objects s)) s).

Definition step (fuel : nat) (c : op) (s : st) : outcome (answer * st) :=
  match c with
  | Enter ty => let (ok, s) := symbol_table_enter_scope ty s in Ret (Done ok, s)
  | Exit => Ret (Done true, symbol_table_exit_scope s)
  | DeclareSymbol sy =>
      let (y, s) := create sy s in let! (ok, s) := symbol_table_declare fuel s y in Ret (Done ok, s)
  | DeclareForward sy =>
      let (y, s) := create sy s in let! (ok, s) := symbol_table_declare_forward fuel s y in Ret (Done ok, s)
  | Resolve sy =>
      let (y, s) := create sy s in
      let! (ok, s) := symbol_table_resolve_forward_declaration fuel s y in Ret (Done ok, s)
  | Insert sy => let (y, s) := create sy s in let! s := symbol_table_insert s y in Ret (Done true, s)
  | Lookup n => let! (y, s) := symbol_table_lookup s n in Ret (Found y, s)
  | LookupCurrent n => let! y := symbol_table_lookup_current_scope s n in Ret (Found y, s)
  end.

Fixpoint run {S} (f : op -> S -> outcome (answer * S)) (cs : list op) (s : S) : outcome (list answer * S) :=
  match cs with
  | [] => Ret ([], s)
  | c :: cs => let! (r, s) := f c s in let! (rs, s) := run f cs s in Ret (r :: rs, s)
  end.

(** * The abstract machine *)

(** Scope identifiers with the symbols declared, innermost scope first. *)
Record Spec := mkSpec {
  levels : list (Z * list nat);
  next_level : Z;
  objs : gmap nat Symbol;
  typs : types
}.

Definition set_levels (l : list (Z * list nat)) (a : Spec) : Spec := mkSpec l (next_level a) (objs a) (typs a).
Definition set_objs (o : gmap nat Symbol) (a : Spec) : Spec := mkSpec (levels a) (next_level a) o (typs a).

Definition sp_create (sy : Symbol) (a : Spec) : nat * Spec :=
  let y := new_address (objs a) in (y, set_objs (<[y := sy]> (objs a)) a).

Definition sp_enter (a : Spec) : bool * Spec :=
  if next_level a =? 2 ^ 64 - 1 then (false, a)
  else (true, mkSpec ((next_level a, []) :: levels a) (next_level a + 1) (objs a) (typs a)).

Definition sp_exit (a : Spec) : Spec :=
  match levels a with
  | (_, ys) :: (_ :: _) => mkSpec (tail (levels a)) (next_level a) (foldr delete (objs a) ys) (typs a)
  | _ => a
  end.

Definition sp_current (a : Spec) (n : cstr) : option nat :=
  match n, levels a with Some l, (_, ys) :: _ => first_named (objs a) ys l | _, _ => None end.

Fixpoint first_level (o : gmap nat Symbol) (ls : list (Z * list nat)) (l : list Z) : option nat :=
  match ls with
  | [] => None
  | (_, ys) :: ls => match first_named o ys l with Some y => Some y | None => first_level o ls l end
  end.

Definition sp_find (a : Spec) (n : cstr) : option nat :=
  match n with Some l => first_level (objs a) (levels a) l | None => None end.

Definition sp_lookup (a : Spec) (n : cstr) : outcome (option nat * Spec) :=
  match sp_find a n with
  | Some y =>
      let! sy := sym (objs a) y in
      Ret (Some y, set_objs (<[y := set_flags (is_initialized sy) (is_forward_declaration sy) true sy]> (objs a)) a)
  | None => Ret (None, a)
  end.

Definition sp_append (a : Spec) (y : nat) : outcome (bool * Spec) :=
  match levels a with
  | [] => Ret (false, a)
  | (i, ys) :: rest =>
      let! sy := sym (objs a) y in
      Ret (true, mkSpec ((i, ys ++ [y]) :: rest) (next_level a) (<[y := set_scope i sy]> (objs a)) (typs a))
  end.

(** A symbol that can be declared at all. *)
Definition declarable (sy : Symbol) : outcome bool :=
  match name sy with
  | None | Some [] => Ret false
  | Some _ =>
      if bool_decide (stype sy = None) then Ret false
      else if bool_decide (skind sy = SYMBOL_FUNCTION) && (0 <? parameter_count sy)%nat then
        if bool_decide (parameter_names sy = None) || bool_decide (parameter_types sy = None) then Ret false
        else params_present sy (parameter_count sy) 0
      else Ret true
  end.

(** A function completes an earlier forward declaration of its signature. *)
Definition completes (fuel : nat) (a : Spec) (se sy : Symbol) : outcome bool :=
  if bool_decide (skind sy = SYMBOL_FUNCTION) && bool_decide (skind se = SYMBOL_FUNCTION) &&
     is_forward_declaration se
  then function_signatures_match fuel (typs a) se sy else Ret false.

Definition sp_complete (e : nat) (se : Symbol) (a : Spec) : Spec :=
  set_objs (<[e := set_flags true false (is_used se) se]> (objs a)) a.

Definition sp_declare (fuel : nat) (a : Spec) (y : nat) : outcome (bool * Spec) :=
  let! sy := sym (objs a) y in
  let! ok := declarable sy in
  if negb ok then Ret (false, a)
  else
    match sp_current a (name sy) with
    | Some e =>
        let! se := sym (objs a) e in
        let! ok := completes fuel a se sy in Ret (ok, if ok : bool then sp_complete e se a else a)
    | None => sp_append a y
    end.

Definition sp_declare_forward (fuel : nat) (a : Spec) (y : nat) : outcome (bool * Spec) :=
  let! sy := sym (objs a) y in
  if negb (bool_decide (skind sy = SYMBOL_FUNCTION)) then Ret (false, a)
  else
    match sp_current a (name sy) with
    | Some e => let! se := sym (objs a) e in let! ok := completes fuel a se sy in Ret (ok, a)
    | None =>
        sp_declare fuel (set_objs (<[y := set_flags (is_initialized sy) true (is_used sy) sy]> (objs a)) a) y
    end.

Definition sp_resolve (fuel : nat) (a : Spec) (y : nat) : outcome (bool * Spec) :=
  let! sy := sym (objs a) y in
  if negb (bool_decide (skind sy = SYMBOL_FUNCTION)) then Ret (false, a)
  else
    match sp_current a (name sy) with
    | Some e =>
        let! se := sym (objs a) e in
        let! ok := completes fuel a se sy in Ret (ok, if ok : bool then sp_complete e se a else a)
    | None => sp_declare fuel (set_objs (<[y := set_flags true false (is_used sy) sy]> (objs a)) a) y
    end.

Definition sp_step (fuel : nat) (c : op) (a : Spec) : outcome (answer * Spec) :=
  match c with
  | Enter _ => let (ok, a) := sp_enter a in Ret (Done ok, a)
  | Exit => Ret (Done true, sp_exit a)
  | DeclareSymbol sy => let (y, a) := sp_create sy a in let! (ok, a) := sp_declare fuel a y in Ret (Done ok, a)
  | DeclareForward sy =>
      let (y, a) := sp_create sy a in let! (ok, a) := sp_declare_forward fuel a y in Ret (Done ok, a)
  | Resolve sy => let (y, a) := sp_create sy a in let! (ok, a) := sp_resolve fuel a y in Ret (Done ok, a)
  | Insert sy => let (y, a) := sp_create sy a in let! (_, a) := sp_append a y in Ret (Done true, a)
  | Lookup n => let! (y, a) := sp_lookup a n in Ret (Found y, a)
  | LookupCurrent n => Ret (Found (sp_current a n), a)
  end.

(** The abstract state of a table. *)
Definition abs (s : st) : Spec :=
  mkSpec ((fun sc => (scope_id sc, symbols sc)) <$> scopes (table s)) (next_scope_id (table s)) (objects s) (tys s).

(** * Simulation *)

Definition all_symbols (s : st) : list nat := mjoin (symbols <$> scopes (table s)).

Record wf (s : st) : Prop := {
  wf_open : scopes (table s) <> [];
  wf_inv : forall sc, sc ∈ scopes (table s) -> scope_inv (objects s) sc;
  wf_nodup : NoDup (all_symbols s);
  wf_heap : heap_full (mem s)
}.

(** The abstract outcome [p] describes the concrete one [m]. *)
Definition simulates {R} (m : outcome (R * st)) (p : outcome (R * Spec)) : Prop :=
  match p with
  | Ret (r, a) => exists s, m = Ret (r, s) /\ abs s = a /\ wf s
  | Undef => m = Undef
  | NoFuel => m = NoFuel
  end.

Lemma simulates_ret {R} (r : R) s : wf s -> simulates (Ret (r, s)) (Ret (r, abs s)).
Proof. intros H. by exists s. Qed.

Lemma simulates_bind {R R'} m p (f : R * st -> outcome (R' * st)) (g : R * Spec -> outcome (R' * Spec)) :
  simulates m p -> (forall r s, wf s -> simulates (f (r, s)) (g (r, abs s))) ->
  simulates (obind m f) (obind p g).
Proof.
  intros H Hk. destruct p as [[r a]| |]; simpl in H; [|by rewrite H..].
  destruct H as (s & -> & <- & Hs). by apply Hk.
Qed.

Lemma simulates_pure {A R} (m : outcome A) (f : A -> outcome (R * st)) (g : A -> outcome (R * Spec)) :
  (forall v, m = Ret v -> simulates (f v) (g v)) -> simulates (obind m f) (obind m g).
Proof. intros H. destruct m; simpl; [by apply H|done..]. Qed.

Lemma in_scope_all s sc y : sc ∈ scopes (table s) -> y ∈ symbols sc -> y ∈ all_symbols s.
Proof. intros H1 H2. unfold all_symbols. apply list_elem_of_join. exists (symbols sc). split; [done|]. by apply list_elem_of_fmap_2. Qed.

(** Changes of the store that keep the names of the declared symbols. *)
Lemma wf_objects s o : wf s -> same_names (objects s) o (all_symbols s) -> wf (with_objects o s).
Proof.
  intros [H1 H2 H3 H4] Hn. split; [done| |done..]. intros sc Hsc. eapply scope_inv_same; [|by apply H2].
  intros y Hy. apply Hn. by eapply in_scope_all.
Qed.

Lemma same_names_insert o y sy sy' ys : o !! y = Some sy -> name sy' = name sy -> same_names o (<[y := sy']> o) ys.
Proof.
  intros E Hn z _. destruct (decide (z = y)) as [->|Hne].
  - rewrite lookup_insert_eq, E. simpl. by rewrite Hn.
  - by rewrite lookup_insert_ne.
Qed.

Lemma same_names_fresh o y sy ys : y ∉ ys -> same_names o (<[y := sy]> o) ys.
Proof. intros Hy z Hz. rewrite lookup_insert_ne; [done|]. intros ->. done. Qed.

Lemma wf_flags s y sy i f u : wf s -> objects s !! y = Some sy ->
  wf (with_objects (<[y := set_flags i f u sy]> (objects s)) s).
Proof. intros H E. apply wf_objects; [done|]. by eapply same_names_insert. Qed.

Lemma wf_named s y : wf s -> y ∈ all_symbols s -> named (objects s) y.
Proof.
  intros H Hy. apply list_elem_of_join in Hy as (ys & Hy & Hys). apply list_elem_of_fmap in Hys as (sc & -> & Hsc).
  by apply (sc_named _ _ (wf_inv _ H sc Hsc)).
Qed.

Lemma create_spec s sy : wf s -> let (y, s') := create sy s in
  wf s' /\ sp_create sy (abs s) = (y, abs s') /\ (y ∉ all_symbols s') /\ objects s' !! y = Some sy.
Proof.
  intros H. unfold create, sp_create. cbn [abs objs]. set (y := new_address (objects s)).
  assert (y ∉ all_symbols s) as Hy.
  { intros Hin. destruct (wf_named s y H Hin) as (sy' & l & E & _).
    apply (is_fresh (dom (objects s) : gset nat)). apply elem_of_dom. by exists sy'. }
  split; [apply wf_objects; [done|by apply same_names_fresh]|]. split; [done|]. split; [done|]. apply lookup_insert_eq.
Qed.

(** ** Lookups *)

Lemma lookup_scopes_spec o scs l : (forall sc, sc ∈ scs -> scope_inv o sc) ->
  lookup_scopes o scs (Some l) = Ret (first_level o ((fun sc => (scope_id sc, symbols sc)) <$> scs) l).
Proof.
  induction scs as [|sc scs IH]; intros H; [done|]. cbn [lookup_scopes]. rewrite scope_lookup_first by (apply H; left).
  cbn [obind]. simpl. destruct (first_named o (symbols sc) l); [done|]. apply IH. intros sc' Hsc'. apply H. by right.
Qed.

Lemma lookup_current_spec s n : wf s -> symbol_table_lookup_current_scope s n = Ret (sp_current (abs s) n).
Proof.
  intros H. unfold symbol_table_lookup_current_scope, sp_current, abs. cbn [levels objs].
  destruct n as [l|], (scopes (table s)) as [|sc scs] eqn:E; try done. simpl.
  apply scope_lookup_first, wf_inv; [done|]. rewrite E. left.
Qed.

Lemma lookup_simulates s n : wf s -> simulates (symbol_table_lookup s n) (sp_lookup (abs s) n).
Proof.
  intros H. unfold symbol_table_lookup, sp_lookup, sp_find. destruct n as [l|]; [|by apply simulates_ret].
  rewrite lookup_scopes_spec by apply H. cbn [obind]. change (objs (abs s)) with (objects s).
  change ((fun sc : Scope => (scope_id sc, symbols sc)) <$> scopes (table s)) with (levels (abs s)).
  destruct (first_level (objects s) (levels (abs s)) l) as [y|]; [|by apply simulates_ret].
  apply simulates_pure. intros sy E. unfold sym in E. destruct (objects s !! y) as [sy'|] eqn:Ey; [|done].
  injection E as ->. eexists. split; [done|]. split; [done|]. by apply wf_flags.
Qed.

(** ** Declarations *)

Lemma append_simulates s y : wf s -> y ∉ all_symbols s -> (forall sy, objects s !! y = Some sy -> name sy <> None) ->
  simulates (append_symbol s y) (sp_append (abs s) y).
Proof.
  intros Hwf Hy Hname. unfold append_symbol, sp_append. cbn [abs levels objs].
  destruct (scopes (table s)) as [|sc rest] eqn:E; [by destruct (wf_open _ Hwf)|]. cbn [fmap list_fmap].
  assert (scope_inv (objects s) sc) as Hsc by (apply wf_inv; [done|rewrite E; left]).
  assert (exists cap h, grow_symbols sc (mem s) =
            (true, mkScope (scope_type sc) (scope_id sc) (symbols sc) cap (name_index sc) (name_index_bucket_count sc), h) /\
            heap_full h) as (cap & h & -> & Hh).
  { unfold grow_symbols, alloc. pose proof (wf_heap _ Hwf) as Hf. rewrite (Hf _).
    destruct (symbol_capacity sc <=? length (symbols sc))%nat; eauto. exists (symbol_capacity sc), (mem s). by destruct sc. }
  cbn [negb]. apply simulates_pure. intros sy Hsy. unfold sym in Hsy. destruct (objects s !! y) as [sy'|] eqn:Ey; [|done].
  injection Hsy as ->. set (o := <[y := set_scope (scope_id sc) sy]> (objects s)). cbn [scope_type scope_id symbols symbol_capacity name_index name_index_bucket_count].
  assert (forall ys, same_names (objects s) o ys) as Hsame by (intros ys; by eapply same_names_insert).
  set (sc2 := mkScope (scope_type sc) (scope_id sc) (symbols sc) cap (name_index sc) (name_index_bucket_count sc)).
  assert (scope_inv o sc2) as Hsc2 by (apply (scope_inv_same _ _ _ (Hsame _)) in Hsc; by destruct Hsc).
  assert (named o y) as Hny.
  { destruct (name sy) as [l|] eqn:En; [|by destruct (Hname sy eq_refl)]. exists (set_scope (scope_id sc) sy), l.
    split; [apply lookup_insert_eq|done]. }
  destruct (register_ok o sc2 y h Hsc2 Hny Hh) as (b & m & h' & Er & Hh' & Hinv).
  change (symbols sc2) with (symbols sc) in Er. unfold pushed in Er at 1. cbn [sc2 scope_type scope_id symbols symbol_capacity name_index name_index_bucket_count] in Er.
  fold o. rewrite Er. cbn [obind]. eexists. split; [done|]. split; [done|].
  assert (all_symbols s = symbols sc ++ mjoin (symbols <$> rest)) as Ha by (unfold all_symbols; by rewrite E).
  rewrite Ha in Hy. split.
  - done.
  - simpl. intros sc' [->|Hin]%elem_of_cons; [done|]. eapply scope_inv_same; [apply Hsame|].
    apply wf_inv; [done|]. rewrite E. by right.
  - unfold all_symbols. simpl. pose proof (wf_nodup _ Hwf) as Hnd. rewrite Ha in Hnd.
    rewrite <- app_assoc. apply NoDup_app in Hnd as (H1 & H2 & H3). apply NoDup_app. split; [done|]. split.
    + intros z Hz [Hz'%list_elem_of_singleton|Hz']%elem_of_app; [|by eapply H2].
      subst z. apply Hy, elem_of_app. by left.
    + simpl. constructor; [|done]. intros Hz. apply Hy, elem_of_app. by right.
  - done.
Qed.

Lemma validate_spec fuel s y sy : wf s -> objects s !! y = Some sy ->
  symbol_table_validate_declaration fuel s y =
  (let! ok := declarable sy in
   if negb ok then Ret false
   else match sp_current (abs s) (name sy) with
        | Some e => let! se := sym (objects s) e in completes fuel (abs s) se sy
        | None => Ret true
        end).
Proof.
  intros Hwf Ey. unfold symbol_table_validate_declaration, declarable, sym at 1. rewrite Ey. cbn [deref obind].
  destruct (name sy) as [[|c l]|] eqn:En; try done. cbn [length Nat.eqb].
  destruct (bool_decide (stype sy = None)); [done|].
  destruct (bool_decide (skind sy = SYMBOL_FUNCTION) && (0 <? parameter_count sy)%nat).
  - destruct (bool_decide (parameter_names sy = None) || bool_decide (parameter_types sy = None)); [done|].
    destruct (params_present sy (parameter_count sy) 0) as [[]| |]; cbn [obind negb]; try done.
    rewrite lookup_current_spec by done. cbn [obind]. by destruct (sp_current (abs s) (Some (c :: l))).
  - cbn [obind negb]. rewrite lookup_current_spec by done. cbn [obind]. by destruct (sp_current (abs s) (Some (c :: l))).
Qed.

Lemma complete_simulates s e se : wf s -> objects s !! e = Some se ->
  exists s', complete_forward e s = Ret s' /\ abs s' = sp_complete e se (abs s) /\ wf s'.
Proof.
  intros Hwf E. unfold complete_forward, sym. rewrite E. cbn [deref obind]. eexists. split; [done|]. split; [done|].
  by apply wf_flags.
Qed.

Lemma sym_some o i v : sym o i = Ret v -> o !! i = Some v.
Proof. unfold sym. destruct (o !! i); simpl; congruence. Qed.

Lemma declare_simulates fuel s y : wf s -> y ∉ all_symbols s ->
  simulates (symbol_table_declare fuel s y) (sp_declare fuel (abs s) y).
Proof.
  intros Hwf Hy. unfold symbol_table_declare, sp_declare. change (objs (abs s)) with (objects s).
  destruct (scopes (table s)) as [|sc rest] eqn:Esc; [by destruct (wf_open _ Hwf)|].
  destruct (objects s !! y) as [sy|] eqn:Ey.
  2:{ unfold symbol_table_validate_declaration, sym. by rewrite Ey. }
  rewrite (validate_spec fuel s y sy Hwf Ey). unfold sym at 2 4. rewrite Ey. cbn [deref obind].
  destruct (declarable sy) as [[]| |] eqn:Ed; cbn [obind negb]; [|by apply simulates_ret|done..].
  assert (scope_lookup_symbol (objects s) sc (name sy) = Ret (sp_current (abs s) (name sy))) as El.
  { unfold declarable in Ed. destruct (name sy) as [l|] eqn:En; [|done]. rewrite <- lookup_current_spec by done.
    unfold symbol_table_lookup_current_scope. by rewrite Esc. }
  rewrite El. cbn [obind]. destruct (sp_current (abs s) (name sy)) as [e|].
  - unfold sym. destruct (objects s !! e) as [se|] eqn:Ee; [|done]. cbn [deref obind]. unfold completes.
    destruct (bool_decide (skind sy = SYMBOL_FUNCTION) && bool_decide (skind se = SYMBOL_FUNCTION) &&
                is_forward_declaration se) eqn:Ec; [|by apply simulates_ret].
    change (typs (abs s)) with (tys s).
    destruct (function_signatures_match fuel (tys s) se sy) as [[]| |] eqn:Em; cbn [obind negb]; try done.
    + destruct (complete_simulates s e se Hwf Ee) as (s' & -> & <- & Hwf'). by apply simulates_ret.
    + by apply simulates_ret.
  - apply append_simulates; [done..|]. intros sy' E'. rewrite Ey in E'. injection E' as <-.
    unfold declarable in Ed. by destruct (name sy).
Qed.

Lemma declare_forward_simulates fuel s y : wf s -> y ∉ all_symbols s ->
  simulates (symbol_table_declare_forward fuel s y) (sp_declare_forward fuel (abs s) y).
Proof.
  intros Hwf Hy. unfold symbol_table_declare_forward, sp_declare_forward. change (objs (abs s)) with (objects s).
  destruct (scopes (table s)) as [|sc rest] eqn:Esc; [by destruct (wf_open _ Hwf)|].
  apply simulates_pure. intros sy Ey%sym_some.
  destruct (bool_decide (skind sy = SYMBOL_FUNCTION)) eqn:Ek; cbn [negb]; [|by apply simulates_ret].
  rewrite lookup_current_spec by done. cbn [obind]. destruct (sp_current (abs s) (name sy)) as [e|].
  - apply simulates_pure. intros se _. unfold completes. rewrite Ek. cbn [andb].
    destruct (bool_decide (skind se = SYMBOL_FUNCTION) && is_forward_declaration se); [|by apply simulates_ret].
    apply simulates_pure. intros ok _. by apply simulates_ret.
  - apply (declare_simulates fuel (with_objects _ s)); [by apply wf_flags|done].
Qed.

Lemma resolve_simulates fuel s y : wf s -> y ∉ all_symbols s ->
  simulates (symbol_table_resolve_forward_declaration fuel s y) (sp_resolve fuel (abs s) y).
Proof.
  intros Hwf Hy. unfold symbol_table_resolve_forward_declaration, sp_resolve. change (objs (abs s)) with (objects s).
  apply simulates_pure. intros sy Ey%sym_some.
  destruct (bool_decide (skind sy = SYMBOL_FUNCTION)) eqn:Ek; cbn [negb]; [|by apply simulates_ret].
  rewrite lookup_current_spec by done. cbn [obind]. destruct (sp_current (abs s) (name sy)) as [e|].
  - apply simulates_pure. intros se Ee%sym_some. unfold completes. rewrite Ek. cbn [andb].
    destruct (bool_decide (skind se = SYMBOL_FUNCTION) && is_forward_declaration se); [|by apply simulates_ret].
    apply simulates_pure. intros [] _; [|by apply simulates_ret].
    destruct (complete_simulates s e se Hwf Ee) as (s' & -> & <- & Hwf'). by apply simulates_ret.
  - apply (declare_simulates fuel (with_objects _ s)); [by apply wf_flags|done].
Qed.

(** ** Scopes *)

Lemma lookup_deleted (o : gmap nat Symbol) ys z : z ∉ ys -> foldr delete o ys !! z = o !! z.
Proof.
  induction ys as [|y ys IH]; intros Hz; [done|]. apply not_elem_of_cons in Hz as [H1 H2]. simpl.
  rewrite lookup_delete_ne by done. by apply IH.
Qed.

Lemma exit_spec s : wf s -> abs (symbol_table_exit_scope s) = sp_exit (abs s) /\ wf (symbol_table_exit_scope s).
Proof.
  intros Hwf. unfold symbol_table_exit_scope, sp_exit. cbn [abs levels].
  destruct (scopes (table s)) as [|sc rest] eqn:E; [by destruct (wf_open _ Hwf)|].
  destruct rest as [|sc2 rest]; cbn [fmap list_fmap]; [done|]. split.
  { done. }
  assert (all_symbols s = symbols sc ++ mjoin (symbols <$> sc2 :: rest)) as Ha by (unfold all_symbols; by rewrite E).
  pose proof (wf_nodup _ Hwf) as Hnd. rewrite Ha in Hnd. apply NoDup_app in Hnd as (_ & Hdis & Hnd).
  split; simpl; [done| |done|apply Hwf]. intros sc' Hin. apply (scope_inv_same (objects s)).
  - intros z Hz. unfold scope_destroy. rewrite lookup_deleted; [done|]. intros Hz'. apply (Hdis z Hz').
    apply list_elem_of_join. exists (symbols sc'). split; [done|]. by apply list_elem_of_fmap_2.
  - apply wf_inv; [done|]. rewrite E. by right.
Qed.

Lemma enter_simulates ty s : wf s ->
  simulates (let (ok, s) := symbol_table_enter_scope ty s in Ret (Done ok, s)) (let (ok, a) := sp_enter (abs s) in Ret (Done ok, a)).
Proof.
  intros Hwf. unfold symbol_table_enter_scope, sp_enter, alloc. rewrite (wf_heap _ Hwf). cbn [negb].
  change (next_level (abs s)) with (next_scope_id (table s)). cbn [with_mem table].
  destruct (next_scope_id (table s) =? 2 ^ 64 - 1).
  - eexists. split; [done|]. split; [done|]. by destruct Hwf.
  - eexists. split; [done|]. split; [done|]. destruct Hwf as [H1 H2 H3 H4]. split; simpl; [done| |done|done].
    intros sc [->|Hin]%elem_of_cons; [|by apply H2]. split; simpl; [intros y Hy; by apply not_elem_of_nil in Hy|lia|done].
Qed.

(** An inserted symbol has a name; the other operations take any symbol. *)
Definition op_ok (c : op) : Prop := match c with Insert sy => name sy <> None | _ => True end.

Lemma step_simulates fuel c s : wf s -> op_ok c -> simulates (step fuel c s) (sp_step fuel c (abs s)).
Proof.
  intros Hwf Hc. destruct c as [ty| |sy|sy|sy|sy|n|n]; cbn [step sp_step].
  - by apply enter_simulates.
  - destruct (exit_spec s Hwf) as [<- Hwf']. by apply simulates_ret.
  - pose proof (create_spec s sy Hwf) as H. destruct (create sy s) as [y s1]. destruct H as (Hwf' & -> & Hy & _).
    eapply simulates_bind; [by apply declare_simulates|]. intros r s2 H2. by apply simulates_ret.
  - pose proof (create_spec s sy Hwf) as H. destruct (create sy s) as [y s1]. destruct H as (Hwf' & -> & Hy & _).
    eapply simulates_bind; [by apply declare_forward_simulates|]. intros r s2 H2. by apply simulates_ret.
  - pose proof (create_spec s sy Hwf) as H. destruct (create sy s) as [y s1]. destruct H as (Hwf' & -> & Hy & _).
    eapply simulates_bind; [by apply resolve_simulates|]. intros r s2 H2. by apply simulates_ret.
  - pose proof (create_spec s sy Hwf) as H. destruct (create sy s) as [y s1]. destruct H as (Hwf' & -> & Hy & Ey).
    unfold symbol_table_insert. assert (simulates (append_symbol s1 y) (sp_append (abs s1) y)) as Ha.
    { apply append_simulates; [done..|]. intros sy' E. rewrite Ey in E. by injection E as <-. }
    destruct (sp_append (abs s1) y) as [[r a]| |]; cbn [simulates] in Ha.
    + destruct Ha as (s2 & -> & <- & H2). by apply simulates_ret.
    + by rewrite Ha.
    + by rewrite Ha.
  - eapply simulates_bind; [by apply lookup_simulates|]. intros r s2 H2. by apply simulates_ret.
  - rewrite lookup_current_spec by done. by apply simulates_ret.
Qed.

Lemma run_simulates fuel cs s : wf s -> Forall op_ok cs -> simulates (run (step fuel) cs s) (run (sp_step fuel) cs (abs s)).
Proof.
  revert s. induction cs as [|c cs IH]; intros s Hwf Hcs; cbn [run]; [by apply simulates_ret|].
  apply Forall_cons_1 in Hcs as [Hc Hcs]. eapply simulates_bind; [by apply step_simulates|]. intros r s1 H1.
  eapply simulates_bind; [by apply IH|]. intros rs s2 H2. by apply simulates_ret.
Qed.

Lemma wf_created h t h' ts : heap_full h -> symbol_table_create h = (Some t, h') -> wf (mkSt t ∅ ts h').
Proof.
  intros Hh. unfold symbol_table_create, alloc. simpl. rewrite !Hh. simpl. intros [= <- <-]. split; simpl.
  - done.
  - intros sc ->%list_elem_of_singleton. split; simpl; [intros y Hy; by apply not_elem_of_nil in Hy|lia|done].
  - constructor.
  - done.
Qed.

(** ** What an operation changes *)

(** Only the innermost scope grows, and every symbol keeps its name. *)
Record grows (a a' : Spec) : Prop := {
  ex_next : next_level a' = next_level a;
  ex_outer : tail (levels a') = tail (levels a);
  ex_length : length (levels a') = length (levels a);
  ex_names : forall y sy, objs a !! y = Some sy -> name <$> objs a' !! y = Some (name sy)
}.

Lemma grows_refl a : grows a a.
Proof. split; [done..|]. intros y sy E. by rewrite E. Qed.

Lemma grows_trans a b c : grows a b -> grows b c -> grows a c.
Proof.
  intros [H1 H2 H3 H4] [K1 K2 K3 K4]. split; [congruence..|]. intros y sy E. specialize (H4 y sy E).
  destruct (objs b !! y) as [sy'|] eqn:E'; [|done]. rewrite (K4 y sy' E'). exact H4.
Qed.

Lemma grows_update a y sy sy' : objs a !! y = Some sy -> name sy' = name sy -> grows a (set_objs (<[y := sy']> (objs a)) a).
Proof.
  intros E Hn. split; [done..|]. intros z sz Ez. cbn [set_objs objs]. rewrite <- (same_names_insert (objs a) y sy sy' [z] E Hn z) by left.
  by rewrite Ez.
Qed.

Lemma grows_create a sy : grows a (sp_create sy a).2.
Proof.
  split; [done..|]. intros z sz Ez. simpl. rewrite lookup_insert_ne; [by rewrite Ez|]. intros E.
  apply (is_fresh (dom (objs a) : gset nat)). apply elem_of_dom. exists sz. by rewrite <- E in Ez.
Qed.

Lemma grows_append a y b a' : sp_append a y = Ret (b, a') -> grows a a'.
Proof.
  unfold sp_append. destruct (levels a) as [|[i ys] rest] eqn:El; [intros [= <- <-]; apply grows_refl|].
  intros H. apply obind_Ret in H as (sy & Ey%sym_some & [= <- <-]).
  destruct (grows_update a y sy (set_scope i sy) Ey eq_refl) as [_ _ _ Hn]. split; simpl; [done|by rewrite El..|exact Hn].
Qed.

Lemma grows_declare fuel a y b a' : sp_declare fuel a y = Ret (b, a') -> grows a a'.
Proof.
  unfold sp_declare. intros H. apply obind_Ret in H as (sy & Ey & H). apply obind_Ret in H as ([] & _ & H); cbn [negb] in H.
  - destruct (sp_current a (name sy)) as [e|]; [|by eapply grows_append].
    apply obind_Ret in H as (se & Ee%sym_some & H). apply obind_Ret in H as (ok & _ & [= <- <-]).
    destruct ok; [|apply grows_refl]. by apply (grows_update a e se).
  - injection H as <- <-. apply grows_refl.
Qed.

Lemma grows_step fuel c a r a' : sp_step fuel c a = Ret (r, a') ->
  match c with
  | Enter _ => next_level a < 2 ^ 64 - 1 -> a' = mkSpec ((next_level a, []) :: levels a) (next_level a + 1) (objs a) (typs a)
  | Exit => a' = sp_exit a
  | _ => grows a a'
  end.
Proof.
  destruct c as [ty| |sy|sy|sy|sy|n|n]; cbn [sp_step].
  - unfold sp_enter. destruct (next_level a =? 2 ^ 64 - 1) eqn:E; [intros _; lia|]. by intros [= <- <-].
  - by intros [= <- <-].
  - pose proof (grows_create a sy) as Hc. destruct (sp_create sy a) as [y a1]. intros ([b a2] & E & [= <- <-])%obind_Ret.
    eapply grows_trans; [exact Hc|]. by eapply grows_declare.
  - pose proof (grows_create a sy) as Hc. destruct (sp_create sy a) as [y a1]. intros ([b a2] & E & [= <- <-])%obind_Ret.
    eapply grows_trans; [exact Hc|]. simpl. unfold sp_declare_forward in E. apply obind_Ret in E as (sy1 & E1%sym_some & E).
    destruct (bool_decide (skind sy1 = SYMBOL_FUNCTION)); cbn [negb] in E; [|injection E as <- <-; apply grows_refl].
    destruct (sp_current a1 (name sy1)) as [e|].
    + apply obind_Ret in E as (se & _ & E). apply obind_Ret in E as (ok & _ & [= <- <-]). apply grows_refl.
    + eapply grows_trans; [|by eapply grows_declare]. by eapply grows_update.
  - pose proof (grows_create a sy) as Hc. destruct (sp_create sy a) as [y a1]. intros ([b a2] & E & [= <- <-])%obind_Ret.
    eapply grows_trans; [exact Hc|]. simpl. unfold sp_resolve in E. apply obind_Ret in E as (sy1 & E1%sym_some & E).
    destruct (bool_decide (skind sy1 = SYMBOL_FUNCTION)); cbn [negb] in E; [|injection E as <- <-; apply grows_refl].
    destruct (sp_current a1 (name sy1)) as [e|].
    + apply obind_Ret in E as (se & Ee%sym_some & E). apply obind_Ret in E as ([] & _ & [= <- <-]); [|apply grows_refl].
      by apply (grows_update a1 e se).
    + eapply grows_trans; [|by eapply grows_declare]. by eapply grows_update.
  - pose proof (grows_create a sy) as Hc. destruct (sp_create sy a) as [y a1]. intros ([b a2] & E & [= <- <-])%obind_Ret.
    eapply grows_trans; [exact Hc|]. by eapply grows_append.
  - unfold sp_lookup. intros ([y a1] & E & [= <- <-])%obind_Ret. destruct (sp_find a n) as [z|]; [|injection E as <- <-; apply grows_refl].
    apply obind_Ret in E as (sy & Ey%sym_some & [= <- <-]). by eapply grows_update.
  - intros [= <- <-]. apply grows_refl.
Qed.

(** ** Below the innermost scopes *)

Lemma abs_symbols s : all_symbols s = mjoin (snd <$> levels (abs s)).
Proof. unfold all_symbols, abs. simpl. by rewrite <- list_fmap_compose. Qed.

Lemma wf_level_named s y ys i : wf s -> (i, ys) ∈ levels (abs s) -> y ∈ ys -> named (objects s) y.
Proof.
  intros Hwf Hi Hy. apply wf_named; [done|]. rewrite abs_symbols. apply list_elem_of_join. exists ys. split; [done|].
  by apply (list_elem_of_fmap_2 snd _ (i, ys)).
Qed.

(** The scopes [outer] lie under [d + 1] innermost ones and are as they were
    in the store [o]. *)
Definition above (d : nat) (outer : list (Z * list nat)) (o : gmap nat Symbol) (s : st) : Prop :=
  exists inner, levels (abs s) = inner ++ outer /\ length inner = S d /\ same_names o (objects s) (mjoin (snd <$> outer)).

(** Every scope entered is left, and no other. *)
Fixpoint closed (d : nat) (cs : list op) : bool :=
  match cs with
  | [] => (d =? 0)%nat
  | Enter _ :: cs => closed (S d) cs
  | Exit :: cs => match d with O => false | S d => closed d cs end
  | _ :: cs => closed d cs
  end.

Definition depth_after (c : op) (d : nat) : nat := match c with Enter _ => S d | Exit => pred d | _ => d end.

Lemma above_grows d outer o s s' : above d outer o s -> grows (abs s) (abs s') -> wf s -> above d outer o s'.
Proof.
  intros (inner & El & Hd & Hn) [_ Ht Hl Hk] Hwf. destruct inner as [|l inner]; [done|]. rewrite El in Ht, Hl. cbn [app tail] in Ht, Hl.
  destruct (levels (abs s')) as [|l' ls] eqn:E'; [done|]. cbn [tail] in Ht. subst ls. exists (l' :: inner). split; [done|].
  split; [done|]. intros y Hy. rewrite (Hn y Hy). destruct (wf_named s y Hwf) as (sy & n & Ey & _).
  { rewrite abs_symbols, El. rewrite fmap_app. apply list_elem_of_join in Hy as (ys & Hy & Hys).
    apply list_elem_of_join. exists ys. split; [done|]. apply elem_of_app. by right. }
  rewrite Ey. symmetry. by apply (Hk y sy).
Qed.

Lemma exit_above d outer o s : wf s -> above d outer o s -> d <> O \/ outer <> [] ->
  exists inner, levels (sp_exit (abs s)) = inner ++ outer /\ length inner = d /\
    same_names o (objs (sp_exit (abs s))) (mjoin (snd <$> outer)).
Proof.
  intros Hwf (inner & El & Hd & Hn) Hne. destruct inner as [|[i ys] inner]; [done|].
  assert (inner ++ outer <> []) as Hrest.
  { destruct inner; [|done]. simpl in Hd. destruct Hne as [?|?]; [lia|done]. }
  exists inner. unfold sp_exit. rewrite El. cbn [app]. destruct (inner ++ outer) as [|l2 rest] eqn:Er; [done|].
  cbn [levels tail objs]. split; [done|]. split; [simpl in Hd; lia|]. intros y Hy. rewrite (Hn y Hy).
  rewrite lookup_deleted; [done|]. intros Hin. pose proof (wf_nodup _ Hwf) as Hnd. rewrite abs_symbols, El in Hnd.
  rewrite fmap_app, join_app in Hnd. apply NoDup_app in Hnd as (_ & Hdis & _). apply (Hdis y); [|done].
  simpl. apply elem_of_app. by left.
Qed.

Lemma above_step fuel c d outer o s r s' : wf s -> op_ok c -> next_scope_id (table s) < 2 ^ 64 - 1 ->
  (c = Exit -> d <> O) -> above d outer o s -> step fuel c s = Ret (r, s') ->
  wf s' /\ above (depth_after c d) outer o s' /\ next_scope_id (table s') <= next_scope_id (table s) + 1.
Proof.
  intros Hwf Hc Hid Hexit Ha E. pose proof (step_simulates fuel c s Hwf Hc) as Hs.
  destruct (sp_step fuel c (abs s)) as [[r' a]| |] eqn:Ep; cbn [simulates] in Hs; [|congruence..].
  destruct Hs as (s2 & E2 & Habs & Hwf'). rewrite E in E2. injection E2 as <- <-. split; [done|].
  apply grows_step in Ep. change (next_scope_id (table s')) with (next_level (abs s')). rewrite Habs.
  destruct c; try (rewrite <- Habs in *; split; [by eapply above_grows|]; rewrite (ex_next _ _ Ep); simpl; lia).
  - specialize (Ep Hid). subst a. split; [|simpl; lia]. destruct Ha as (inner & El & Hd & Hn).
    exists ((next_level (abs s), []) :: inner). rewrite Habs. simpl. split; [by rewrite <- El|]. split; [by rewrite Hd|].
    change (objects s') with (objs (abs s')). by rewrite Habs.
  - subst a. destruct (exit_above d outer o s Hwf Ha ltac:(left; by apply Hexit)) as (inner & El & Hd & Hn).
    rewrite <- Habs in *. split; [|rewrite Habs; unfold sp_exit; by destruct (levels (abs s)) as [|[? ?] [|]]; simpl; lia].
    exists inner. split; [done|]. split; [|done]. specialize (Hexit eq_refl). destruct d; simpl in *; lia.
Qed.

Lemma above_run fuel cs : forall d outer o s rs s', wf s -> Forall op_ok cs ->
  next_scope_id (table s) + Z.of_nat (length cs) <= 2 ^ 64 - 1 -> closed d cs = true -> above d outer o s ->
  run (step fuel) cs s = Ret (rs, s') -> wf s' /\ above 0 outer o s'.
Proof.
  induction cs as [|c cs IH]; intros d outer o s rs s' Hwf Hcs Hid Hcl Ha E; cbn [run] in E.
  - injection E as <- <-. apply Nat.eqb_eq in Hcl as ->. done.
  - apply Forall_cons_1 in Hcs as [Hc Hcs]. apply obind_Ret in E as ([r s1] & E1 & E).
    apply obind_Ret in E as ([rs1 s2] & E2 & [= <- <-]). simpl length in Hid.
    assert (c = Exit -> d <> O) as Hexit by (intros -> ->; done).
    destruct (above_step fuel c d outer o s r s1 Hwf Hc ltac:(lia) Hexit Ha E1) as (H1 & H2 & H3).
    eapply (IH (depth_after c d)); [done..|lia| |done|done]. destruct c; try done. by destruct d; [destruct Hexit|].
Qed.

(** * Theorems *)

(** C31: the symbol table refines the abstract machine: from a table just
    created, or any later state, every sequence of operations gives the
    answers of the machine and ends in a state that stands for the machine's,
    as long as memory is granted; growing arrays and name indices is never
    seen from outside. *)
Theorem symbol_table_refines fuel h :
  heap_full h ->
  (forall ts, exists t h', symbol_table_create h = (Some t, h') /\ wf (mkSt t ∅ ts h') /\
     abs (mkSt t ∅ ts h') = mkSpec [(0, [])] 1 ∅ ts) /\
  (forall cs s, wf s -> Forall op_ok cs ->
     match run (sp_step fuel) cs (abs s) with
     | Ret (rs, a) => exists s', run (step fuel) cs s = Ret (rs, s') /\ abs s' = a /\ wf s'
     | Undef => run (step fuel) cs s = Undef
     | NoFuel => run (step fuel) cs s = NoFuel
     end).
Proof.
  intros Hh. split.
  - intros ts. destruct (symbol_table_create h) as [[t|] h'] eqn:E.
    + exists t, h'. split; [done|]. split; [by eapply wf_created|]. revert E. unfold symbol_table_create, alloc. simpl.
      rewrite !Hh. simpl. by intros [= <- <-].
    + revert E. unfold symbol_table_create, alloc. simpl. by rewrite !Hh.
  - intros cs s Hwf Hcs. apply (run_simulates fuel cs s Hwf Hcs).
Qed.

(** The answers of a lookup, whatever it does to the symbol it finds. *)
Definition same_lookups (s s' : st) : Prop :=
  forall n, exists y t t', symbol_table_lookup s n = Ret (y, t) /\ symbol_table_lookup s' n = Ret (y, t').

Lemma first_named_same o o' ys l : same_names o o' ys -> first_named o ys l = first_named o' ys l.
Proof.
  induction ys as [|y ys IH]; intros H; [done|]. cbn [first_named]. rewrite (H y) by left.
  rewrite IH; [done|]. intros z Hz. apply H. by right.
Qed.

Lemma first_level_same o o' ls l : same_names o o' (mjoin (snd <$> ls)) -> first_level o ls l = first_level o' ls l.
Proof.
  induction ls as [|[i ys] ls IH]; intros H; [done|]. cbn [first_level]. rewrite (first_named_same o o').
  - rewrite IH; [done|]. intros y Hy. apply H. simpl. apply elem_of_app. by right.
  - intros y Hy. apply H. simpl. apply elem_of_app. by left.
Qed.

Lemma first_named_in o ys l y : first_named o ys l = Some y -> y ∈ ys.
Proof.
  induction ys as [|z ys IH]; [done|]. cbn [first_named]. destruct (bool_decide _); [intros [= ->]; left|]. intros H. right. by apply IH.
Qed.

Lemma first_level_in o ls l y : first_level o ls l = Some y -> y ∈ mjoin (snd <$> ls).
Proof.
  induction ls as [|[i ys] ls IH]; [done|]. cbn [first_level]. destruct (first_named o ys l) eqn:E.
  - intros [= ->]. simpl. apply elem_of_app. left. by eapply first_named_in.
  - intros H. simpl. apply elem_of_app. right. by apply IH.
Qed.

Lemma lookup_finds s n : wf s -> exists t, symbol_table_lookup s n = Ret (sp_find (abs s) n, t).
Proof.
  intros Hwf. pose proof (lookup_simulates s n Hwf) as H. unfold sp_lookup in H.
  destruct (sp_find (abs s) n) as [y|] eqn:E; [|destruct H as (t & -> & _); by exists t].
  unfold sp_find in E. destruct n as [l|]; [|done]. apply first_level_in in E.
  rewrite <- abs_symbols in E. destruct (wf_named s y Hwf E) as (sy & _ & Ey & _).
  unfold sym in H. change (objs (abs s)) with (objects s) in H. rewrite Ey in H. cbn [deref obind] in H.
  destruct H as (t & -> & _). by exists t.
Qed.

Lemma same_lookups_intro s s' : wf s -> wf s' -> (forall n, sp_find (abs s') n = sp_find (abs s) n) -> same_lookups s s'.
Proof.
  intros H1 H2 H n. destruct (lookup_finds s n H1) as [t E1]. destruct (lookup_finds s' n H2) as [t' E2].
  rewrite H in E2. by exists (sp_find (abs s) n), t, t'.
Qed.

(** No function is declared. *)
Definition plain (c : op) : Prop :=
  match c with
  | DeclareSymbol sy | DeclareForward sy | Resolve sy | Insert sy => skind sy <> SYMBOL_FUNCTION
  | _ => True
  end.

Lemma plain_step fuel c s : wf s -> op_ok c -> plain c -> exists r s', step fuel c s = Ret (r, s') /\ wf s'.
Proof.
  intros Hwf Hc Hp. pose proof (step_simulates fuel c s Hwf Hc) as H.
  assert (exists r a, sp_step fuel c (abs s) = Ret (r, a)) as (r & a & E).
  { destruct c as [ty| |sy|sy|sy|sy|n|n]; cbn [sp_step plain] in *.
    - destruct (sp_enter (abs s)). eauto.
    - eauto.
    - unfold sp_create, sp_declare. cbn [set_objs objs]. set (y := new_address _). set (o := <[y:=sy]> _).
      unfold sym at 1. assert (o !! y = Some sy) as Ey by apply lookup_insert_eq. rewrite Ey. cbn [deref obind].
      unfold declarable. rewrite (bool_decide_eq_false_2 (skind sy = SYMBOL_FUNCTION)) by done. cbn [andb].
      destruct (name sy) as [[|ch l]|] eqn:En; cbn [obind negb]; [eauto| |eauto].
      destruct (bool_decide (stype sy = None)); cbn [obind negb]; [eauto|]. set (a1 := set_objs o (abs s)).
      destruct (sp_current a1 (Some (ch :: l))) as [e|] eqn:Ee.
      + unfold completes. rewrite (bool_decide_eq_false_2 (skind sy = SYMBOL_FUNCTION)) by done. cbn [andb].
        assert (is_Some (o !! e)) as [se Hse].
        { unfold sp_current in Ee. change (levels a1) with (levels (abs s)) in Ee.
          destruct (levels (abs s)) as [|[i ys] ls] eqn:El; [done|]. apply first_named_in in Ee.
          destruct (wf_level_named s e ys i Hwf) as (se & _ & Ese & _); [rewrite El; left|done|].
          destruct (decide (e = y)) as [->|]; [by exists sy|]. exists se. unfold o. by rewrite lookup_insert_ne. }
        unfold sym. rewrite Hse. cbn [deref obind]. eauto.
      + unfold sp_append. destruct (levels a1) as [|[i ys] ls]; cbn [obind]; [eauto|].
        change (objs a1) with o. unfold sym. rewrite Ey. cbn [deref obind]. eauto.
    - unfold sp_create, sp_declare_forward. cbn [set_objs objs]. unfold sym at 1. rewrite lookup_insert_eq. cbn [deref obind].
      rewrite (bool_decide_eq_false_2 (skind sy = SYMBOL_FUNCTION)) by done. cbn [negb obind]. eauto.
    - unfold sp_create, sp_resolve. cbn [set_objs objs]. unfold sym at 1. rewrite lookup_insert_eq. cbn [deref obind].
      rewrite (bool_decide_eq_false_2 (skind sy = SYMBOL_FUNCTION)) by done. cbn [negb obind]. eauto.
    - unfold sp_create, sp_append. cbn [set_objs objs levels]. destruct (levels (abs s)) as [|[i ys] ls]; cbn [obind]; [eauto|].
      unfold sym. rewrite lookup_insert_eq. cbn [deref obind]. eauto.
    - unfold sp_lookup. destruct (sp_find (abs s) n) as [y|] eqn:Ef; [|eauto]. unfold sp_find in Ef. destruct n as [l|]; [|done].
      apply first_level_in in Ef. rewrite <- abs_symbols in Ef. destruct (wf_named s y Hwf Ef) as (sy & _ & Ey & _).
      unfold sym. change (objs (abs s)) with (objects s). rewrite Ey. cbn [deref obind]. eauto.
    - eauto. }
  rewrite E in H. destruct H as (s' & Es & _ & Hwf'). eauto.
Qed.

Lemma plain_run fuel cs : forall s, wf s -> Forall op_ok cs -> Forall plain cs ->
  exists rs s', run (step fuel) cs s = Ret (rs, s').
Proof.
  induction cs as [|c cs IH]; intros s Hwf Hcs Hp; cbn [run]; [eauto|]. apply Forall_cons_1 in Hcs as [Hc Hcs].
  apply Forall_cons_1 in Hp as [Hpc Hp]. destruct (plain_step fuel c s Hwf Hc Hpc) as (r & s1 & -> & H1). cbn [obind].
  destruct (IH s1 H1 Hcs Hp) as (rs & s2 & ->). cbn [obind]. eauto.
Qed.

Lemma run_app {S} (f : op -> S -> outcome (answer * S)) cs ds s :
  run f (cs ++ ds) s = (let! (rs, s) := run f cs s in let! (qs, s) := run f ds s in Ret (rs ++ qs, s)).
Proof.
  revert s. induction cs as [|c cs IH]; intros s; cbn [run app].
  - cbn [obind]. by destruct (run f ds s) as [[]| |].
  - destruct (f c s) as [[r s1]| |]; cbn [obind]; try done. rewrite IH.
    destruct (run f cs s1) as [[rs s2]| |]; cbn [obind]; try done. by destruct (run f ds s2) as [[]| |].
Qed.

(** C32: scopes nest: entering a scope, any operations that leave every scope
    they enter, and leaving it again bring back the open scopes with their
    symbols and the answer of every lookup; when no function is declared the
    operations run to the end. *)
Theorem symbol_table_scoping fuel ty cs s :
  wf s -> Forall op_ok cs -> closed 0 cs = true -> next_scope_id (table s) + Z.of_nat (length cs) < 2 ^ 64 - 1 ->
  (Forall plain cs -> exists rs s', run (step fuel) (Enter ty :: cs ++ [Exit]) s = Ret (rs, s')) /\
  (forall rs s', run (step fuel) (Enter ty :: cs ++ [Exit]) s = Ret (rs, s') ->
     levels (abs s') = levels (abs s) /\ same_lookups s s').
Proof.
  intros Hwf Hcs Hcl Hid. split.
  - intros Hp. apply plain_run; [done| |].
    + constructor; [done|]. apply Forall_app. by repeat constructor.
    + constructor; [done|]. apply Forall_app. by repeat constructor.
  - intros rs s' E. cbn [run] in E. apply obind_Ret in E as ([r s1] & E1 & E).
    apply obind_Ret in E as ([rs1 s2] & E2 & [= <- <-]). rewrite run_app in E2.
    apply obind_Ret in E2 as ([rs2 s3] & E2 & E3). apply obind_Ret in E3 as ([rs3 s4] & E3 & [= <- <-]).
    pose proof (step_simulates fuel (Enter ty) s Hwf I) as H1.
    destruct (sp_step fuel (Enter ty) (abs s)) as [[r' a]| |] eqn:Ep; cbn [simulates] in H1; [|congruence..].
    destruct H1 as (s1' & E1' & Ha & Hwf1). rewrite E1 in E1'. injection E1' as <- <-.
    apply grows_step in Ep. rewrite Ep in Ha by (change (next_level (abs s)) with (next_scope_id (table s)); lia).
    destruct (above_run fuel cs 0 (levels (abs s)) (objects s) s1 rs2 s3) as [Hwf3 Habove]; [done|done| |done| |done|].
    { change (next_scope_id (table s1)) with (next_level (abs s1)). rewrite Ha.
      change (next_level (abs s)) with (next_scope_id (table s)). cbn [next_level]. lia. }
    { exists [(next_level (abs s), [])]. rewrite Ha. split; [done|]. split; [done|].
      change (objects s1) with (objs (abs s1)). by rewrite Ha. }
    assert (levels (abs s) <> []) as Hne.
    { unfold abs. pose proof (wf_open _ Hwf). simpl. by destruct (scopes (table s)). }
    destruct (exit_above 0 (levels (abs s)) (objects s) s3 Hwf3 Habove (or_intror Hne)) as (inner & El & Hl & Hn).
    destruct inner; [|done]. cbn [run step] in E3. injection E3 as <- <-. destruct (exit_spec s3 Hwf3) as [Hx Hwfx].
    rewrite <- Hx in El, Hn. split; [done|]. apply same_lookups_intro; [done..|]. intros [l|]; [|done].
    unfold sp_find. rewrite El. cbn [app]. symmetry. by apply first_level_same.
Qed.

Lemma first_named_snoc o ys y l : first_named o (ys ++ [y]) l =
  match first_named o ys l with Some z => Some z | None => if bool_decide (name <$> (o !! y) = Some (Some l)) then Some y else None end.
Proof. induction ys as [|z ys IH]; [done|]. cbn [app first_named]. rewrite IH. by destruct (bool_decide (name <$> (o !! z) = Some (Some l))). Qed.

Lemma completes_function fuel a se sy : completes fuel a se sy = Ret true -> skind sy = SYMBOL_FUNCTION.
Proof. unfold completes. destruct (decide (skind sy = SYMBOL_FUNCTION)); [done|]. by rewrite bool_decide_eq_false_2. Qed.

(** A successful declaration at the level of the abstract machine. *)
Lemma sp_declared fuel sy a a' : (forall i ys y, (i, ys) ∈ levels a -> y ∈ ys -> is_Some (objs a !! y)) ->
  sp_step fuel (DeclareSymbol sy) a = Ret (Done true, a') ->
  (exists e se, sp_current a (name sy) = Some e /\ levels a' = levels a /\ skind sy = SYMBOL_FUNCTION /\
     objs a' = <[e := set_flags true false (is_used se) se]> (<[new_address (objs a) := sy]> (objs a))) \/
  (exists i ys rest, sp_current a (name sy) = None /\ levels a = (i, ys) :: rest /\
     levels a' = (i, ys ++ [new_address (objs a)]) :: rest /\
     objs a' = <[new_address (objs a) := set_scope i sy]> (<[new_address (objs a) := sy]> (objs a))).
Proof.
  intros Hreg H. cbn [sp_step] in H. unfold sp_create in H. set (y := new_address (objs a)) in *.
  set (o := <[y := sy]> (objs a)) in *. apply obind_Ret in H as ([b a1] & H & [= -> ->]).
  assert (forall z sz, objs a !! z = Some sz -> o !! z = Some sz) as Hold.
  { intros z sz Ez. unfold o. rewrite lookup_insert_ne; [done|]. intros E.
    apply (is_fresh (dom (objs a) : gset nat)), elem_of_dom. exists sz. by rewrite <- E in Ez. }
  assert (sp_current (set_objs o a) (name sy) = sp_current a (name sy)) as Hcur.
  { unfold sp_current. cbn [set_objs objs levels]. destruct (name sy) as [l|]; [|done].
    destruct (levels a) as [|[i ys] rest] eqn:El; [done|]. symmetry. apply first_named_same. intros z Hz.
    destruct (Hreg i ys z) as [sz Ez]; [left|done|]. by rewrite Ez, (Hold z sz Ez). }
  unfold sp_declare in H. cbn [objs set_objs] in H. unfold sym at 1 in H. unfold o at 1 in H. rewrite lookup_insert_eq in H.
  cbn [deref obind] in H. apply obind_Ret in H as ([] & Hd & H); cbn [negb] in H; [|done].
  change (mkSpec (levels a) (next_level a) o (typs a)) with (set_objs o a) in H. rewrite Hcur in H.
  destruct (sp_current a (name sy)) as [e|] eqn:Ec.
  - apply obind_Ret in H as (se & Ese%sym_some & H). apply obind_Ret in H as (ok & Hf & [= -> <-]).
    apply completes_function in Hf. left. by exists e, se.
  - right. unfold sp_append in H. cbn [objs set_objs levels] in H. destruct (levels a) as [|[i ys] rest]; [done|].
    unfold sym, o in H. rewrite lookup_insert_eq in H. cbn [deref obind] in H. injection H as <-.
    exists i, ys, rest. done.
Qed.

Lemma wf_registered s i ys y : wf s -> (i, ys) ∈ levels (abs s) -> y ∈ ys -> is_Some (objs (abs s) !! y).
Proof. intros Hwf Hi Hy. destruct (wf_level_named s y ys i Hwf Hi Hy) as (sy & _ & E & _). by exists sy. Qed.

Lemma head_lookup o i ys rest l : first_level o ((i, ys) :: rest) l =
  match first_named o ys l with Some y => Some y | None => first_level o rest l end.
Proof. done. Qed.

(** What names mean after a successful declaration. *)
Lemma declared_names fuel sy s s' l : wf s -> name sy = Some l -> step fuel (DeclareSymbol sy) s = Ret (Done true, s') ->
  wf s' /\ (exists z, sp_current (abs s') (Some l) = Some z) /\
  (forall n, n <> Some l -> sp_find (abs s') n = sp_find (abs s) n).
Proof.
  intros Hwf Hname E. pose proof (step_simulates fuel (DeclareSymbol sy) s Hwf I) as H.
  destruct (sp_step fuel (DeclareSymbol sy) (abs s)) as [[r a]| |] eqn:Ep; cbn [simulates] in H; [|congruence..].
  destruct H as (s2 & E2 & <- & Hwf'). rewrite E in E2. injection E2 as <- <-. split; [done|].
  pose proof (grows_step _ _ _ _ _ Ep) as [_ _ _ Hk]. cbn in Hk.
  assert (forall ls : list (Z * list nat), (forall lv, lv ∈ ls -> lv ∈ levels (abs s)) -> same_names (objects s) (objects s') (mjoin (snd <$> ls))) as Hsame.
  { intros ls Hls y Hy. apply list_elem_of_join in Hy as (ys & Hy & Hys). apply list_elem_of_fmap in Hys as ([i ys'] & -> & Hin).
    destruct (wf_registered s i ys' y Hwf (Hls _ Hin) Hy) as [sz Ez]. cbn in Ez. rewrite Ez. symmetry. by apply (Hk y sz). }
  destruct (sp_declared fuel sy (abs s) (abs s')) as [(e & se & Hc & Hl & _ & Ho)|(i & ys & rest & Hc & Hl & Hl' & Ho)];
    [intros i ys y; by apply wf_registered|done| |]; rewrite Hname in Hc.
  - split.
    + exists e. rewrite <- Hc. unfold sp_current. rewrite Hl. destruct (levels (abs s)) as [|[i ys] rest] eqn:El; [done|].
      symmetry. apply first_named_same. intros y Hy. apply (Hsame [(i, ys)]); [|simpl; by rewrite app_nil_r].
      intros lv ->%list_elem_of_singleton. left.
    + intros [n|] Hn; [|done]. unfold sp_find. rewrite Hl. symmetry. apply first_level_same. by apply Hsame.
  - unfold sp_current, sp_find. rewrite Hl'. change (objs (abs s')) with (objects s') in *. split.
    + rewrite first_named_snoc, Ho, lookup_insert_eq. cbn. rewrite Hname, bool_decide_eq_true_2 by done.
      destruct (first_named _ ys l); eauto.
    + intros [n|] Hn; [|done]. rewrite Hl, !head_lookup, first_named_snoc.
      rewrite bool_decide_eq_false_2.
      2:{ rewrite Ho, lookup_insert_eq. cbn. rewrite Hname. congruence. }
      rewrite <- (first_named_same (objects s) (objects s') ys), <- (first_level_same (objects s) (objects s') rest).
      * change (objs (abs s)) with (objects s). by destruct (first_named (objects s) ys n).
      * apply Hsame. intros lv Hlv. rewrite Hl. by right.
      * intros y Hy. apply (Hsame [(i, ys)]); [|simpl; by rewrite app_nil_r]. intros lv ->%list_elem_of_singleton. rewrite Hl. left.
Qed.

(** A successful declaration makes its name known in the current scope
    and leaves every other name alone; a variable, type or constant of the
    same name is then refused in that scope. *)
Lemma symbol_table_declare_binds fuel sy sy2 l s s' :
  wf s -> name sy = Some l -> step fuel (DeclareSymbol sy) s = Ret (Done true, s') ->
  name sy2 = Some l -> skind sy2 <> SYMBOL_FUNCTION ->
  (exists z t, symbol_table_lookup_current_scope s' (Some l) = Ret (Some z) /\
     symbol_table_lookup s' (Some l) = Ret (Some z, t)) /\
  (forall n, n <> Some l -> exists y t t', symbol_table_lookup s n = Ret (y, t) /\ symbol_table_lookup s' n = Ret (y, t')) /\
  (exists s2, step fuel (DeclareSymbol sy2) s' = Ret (Done false, s2)).
Proof.
  intros Hwf Hname E Hname2 Hk2. destruct (declared_names fuel sy s s' l Hwf Hname E) as (Hwf' & (z & Hz) & Hother).
  split; [|split].
  - destruct (lookup_finds s' (Some l) Hwf') as [t Et]. exists z, t. rewrite lookup_current_spec by done. rewrite Hz, Et.
    split; [done|]. do 2 f_equal. unfold sp_current, sp_find in *. destruct (levels (abs s')) as [|[i ys] rest]; [done|].
    by rewrite head_lookup, Hz.
  - intros n Hn. destruct (lookup_finds s n Hwf) as [t E1]. destruct (lookup_finds s' n Hwf') as [t' E2].
    rewrite Hother in E2 by done. by exists (sp_find (abs s) n), t, t'.
  - destruct (plain_step fuel (DeclareSymbol sy2) s' Hwf' I Hk2) as (r & s2 & E2 & _). rewrite E2. exists s2. do 2 f_equal.
    pose proof (step_simulates fuel (DeclareSymbol sy2) s' Hwf' I) as H.
    destruct (sp_step fuel (DeclareSymbol sy2) (abs s')) as [[r2 a]| |] eqn:Ep; cbn [simulates] in H; [|congruence..].
    destruct H as (s3 & E3 & _ & _). rewrite E2 in E3. injection E3 as <- _.
    destruct r as [[]|y]; [|done|].
    + exfalso. destruct (sp_declared fuel sy2 (abs s') a) as [(e & se & _ & _ & Hf & _)|(i & ys & rest & Hc & _)];
        [intros i ys y; by apply wf_registered|done..|]. rewrite Hname2 in Hc. congruence.
    + cbn [sp_step] in Ep. destruct (sp_create sy2 (abs s')) as [y1 a1]. by apply obind_Ret in Ep as ([b a2] & _ & [=]).
Qed.

(** * Instances *)

(** A variable of the type at address 0. *)
Definition variable (n : list Z) : Symbol :=
  mkSymbol (Some n) SYMBOL_VARIABLE (Some 0%nat) None false false false None false None None 0 None.

(** The table just created on a heap that answers as [g] does. *)
Definition created (g : nat -> bool) : st := mkSt (mkTable [mkScope SCOPE_GLOBAL 0 [] 0 None 0] 1) ∅ [] (mkHeap g 2).

(** Variables with the one-character names 1, 2, ..., [n]. *)
Definition declarations (n : nat) : list op := (fun i => DeclareSymbol (variable [Z.of_nat i])) <$> seq 1 n.

Definition answers {S} (m : outcome (list answer * S)) : option (list answer) :=
  match m with Ret (rs, _) => Some rs | _ => None end.

Lemma created_wf : wf (created (fun _ => true)).
Proof. by apply (wf_created heap_unlimited). Qed.

Lemma symbol_table_refines_witness :
  exists s', run (step 0) [DeclareSymbol (variable [97]); Enter SCOPE_BLOCK; DeclareSymbol (variable [97]); Exit; Lookup (Some [97])]
    (created (fun _ => true)) = Ret ([Done true; Done true; Done true; Done true; Found (Some 0%nat)], s') /\ wf s'.
Proof.
  pose proof (proj2 (symbol_table_refines 0 heap_unlimited (fun _ => eq_refl))
    [DeclareSymbol (variable [97]); Enter SCOPE_BLOCK; DeclareSymbol (variable [97]); Exit; Lookup (Some [97])]
    (created (fun _ => true)) created_wf ltac:(by repeat constructor)) as H.
  cbv zeta in H. revert H. vm_compute (run (sp_step _) _ _). intros (s' & E & _ & Hwf). by exists s'.
Defined.

Lemma symbol_table_scoping_witness :
  exists rs s', run (step 0) (Enter SCOPE_BLOCK :: [DeclareSymbol (variable [97]); Lookup (Some [97])] ++ [Exit])
    (created (fun _ => true)) = Ret (rs, s') /\ same_lookups (created (fun _ => true)) s'.
Proof.
  destruct (symbol_table_scoping 0 SCOPE_BLOCK [DeclareSymbol (variable [97]); Lookup (Some [97])] (created (fun _ => true))
    created_wf ltac:(by repeat constructor) eq_refl ltac:(simpl; lia)) as [H1 H2].
  destruct H1 as (rs & s' & E); [by repeat constructor|]. exists rs, s'. split; [exact E|]. apply (H2 rs s' E).
Defined.

Lemma symbol_table_declare_binds_witness :
  exists s' s2, step 0 (DeclareSymbol (variable [97])) (created (fun _ => true)) = Ret (Done true, s') /\
    step 0 (DeclareSymbol (variable [97])) s' = Ret (Done false, s2).
Proof.
  destruct (plain_step 0 (DeclareSymbol (variable [97])) _ created_wf I ltac:(done)) as (r & s' & E & _).
  assert (r = Done true) as ->.
  { assert (answers (run (step 0) [DeclareSymbol (variable [97])] (created (fun _ => true))) = Some [r]) as H.
    { cbn [run]. rewrite E. done. }
    revert H. vm_compute (answers _). by intros [= <-]. }
  destruct (symbol_table_declare_binds 0 (variable [97]) (variable [97]) [97] _ s' created_wf eq_refl E eq_refl ltac:(done))
    as (_ & _ & (s2 & E2)).
  by exists s', s2.
Defined.

(** When the index of names cannot grow, the symbol being declared is
    lost: of 44 variables declared in one scope the last is reported as
    declared, yet a lookup does not find it and it can be declared again; with
    memory granted the same lookup finds it and the second declaration is
    refused. *)
Lemma symbol_table_index_refused_loses_symbol :
  let ops := declarations 44 ++ [Lookup (Some [44]); DeclareSymbol (variable [44])] in
  answers (run (step 0) ops (created (fun k => negb (k =? 7)%nat))) =
    Some (replicate 44 (Done true) ++ [Found None; Done true]) /\
  answers (run (step 0) ops (created (fun _ => true))) =
    Some (replicate 44 (Done true) ++ [Found (Some 43%nat); Done false]).
Proof. split; vm_compute; reflexivity. Qed.
End Scoping.
