(* ===== verification/MirCfg.v ===== *)
(** The control-flow graph of machine code: src/src/codegen/binary/mir_cfg.c.

    Basic blocks, edges, reverse post-order, dominators, natural loops, and
    the two bit-vector analyses (liveness and definedness) the register
    allocator works from, with the cursor that replays a block backwards.

    Arrays are lists; an [int] index is a [Z] and -1 where the code says "none".
    Functions are taken to have fewer than 2^31 instructions and edges, so the
    casts to [int] keep the value.  A set array of [words] cells per block is
    kept as one row per block. *)
From S2P Require Import Prelude Mir Probe.
#[local] Open Scope Z_scope.

Module Cfg.
Import Mir Probe.

(** * Instructions *)

Definition mir_cfg_insn_reads_dst (i : MirInst) : bool :=
  bool_decide (op i = MIR_CMOV) || bool_decide (op i = MIR_CMOVCC).

Definition mir_cfg_operand_vregs (o : MirOperand) : list Z :=
  match kind o with
  | MIR_OPK_VREG => [vreg o]
  | MIR_OPK_MEM => [base (mem o); index (mem o)]
  | _ => []
  end.

Definition mir_cfg_insn_uses (i : MirInst) : list Z :=
  if bool_decide (op i = MIR_NOP) then []
  else
    (if bool_decide (kind (dst i) = MIR_OPK_MEM) || mir_cfg_insn_reads_dst i
     then mir_cfg_operand_vregs (dst i) else []) ++
    mir_cfg_operand_vregs (opa i) ++ mir_cfg_operand_vregs (opb i).

Definition mir_cfg_insn_def (i : MirInst) : Z :=
  if negb (bool_decide (op i = MIR_NOP)) && bool_decide (kind (dst i) = MIR_OPK_VREG)
  then vreg (dst i) else MIR_VREG_NONE.

Definition mir_cfg_ends_block (i : MirInst) : bool :=
  match op i with
  | MIR_JMP | MIR_JCC | MIR_CMPBR | MIR_FCMPBR | MIR_JMP_TABLE | MIR_RET | MIR_TRAP => true
  | _ => false
  end.

Definition mir_cfg_is_label (i : MirInst) : bool :=
  bool_decide (op i = MIR_LABEL) && bool_decide (kind (dst i) = MIR_OPK_LABEL) && bool_decide (is_Some (sym (dst i))).

(** * The label map *)

(** The bytes of a name. *)
Definition bytes_of (s : string) : list Z := (fun c => Z.of_N (N_of_ascii c)) <$> String.list_ascii_of_string s.

(** Is instruction [i] the label [name]? *)
Definition labelled (ins : list MirInst) (name : string) (i : nat) : bool :=
  match ins !! i with
  | Some x => bool_decide (sym (dst x) = Some name)
  | None => false
  end.

(** [while (slot_count < want) slot_count *= 2]. *)
Fixpoint grow_slots (fuel slot_count want : nat) : nat :=
  match fuel with
  | O => slot_count
  | S fuel => if (slot_count <? want)%nat then grow_slots fuel (slot_count * 2) want else slot_count
  end.

Fixpoint label_loop (all ins : list MirInst) (i : nat) (slots : list nat) : outcome (list nat) :=
  match ins with
  | [] => Ret slots
  | x :: ins =>
      if negb (mir_cfg_is_label x) then label_loop all ins (S i) slots
      else
        match sym (dst x) with
        | None => Undef
        | Some name =>
            let mask := (length slots - 1)%nat in
            let! (pos, found) := probe_loop (S (length slots)) slots mask (labelled all name)
                                   (slot_of (mettle_fnv1a_hash (bytes_of name)) mask) in
            label_loop all ins (S i) (match found with Some _ => slots | None => <[pos := S i]> slots end)
        end
  end.

Definition mir_cfg_label_map_build (fn : MirFunction) (h : heap) : outcome (option (list nat) * heap) :=
  let label_count := length (filter (fun x => mir_cfg_is_label x = true) (insns fn)) in
  let slot_count := grow_slots (label_count * 2) 16 (label_count * 2) in
  let (ok, h) := alloc h in
  if ok then let! slots := label_loop (insns fn) (insns fn) 0 (replicate slot_count O) in Ret (Some slots, h)
  else Ret (None, h).

Definition mir_cfg_label_find (fn : MirFunction) (slots : list nat) (name : option string) : outcome Z :=
  match name with
  | None => Ret (-1)
  | Some name =>
      let mask := (length slots - 1)%nat in
      let! (_, found) := probe_loop (S (length slots)) slots mask (labelled (insns fn) name)
                           (slot_of (mettle_fnv1a_hash (bytes_of name)) mask) in
      Ret (match found with Some i => Z.of_nat i | None => -1 end)
  end.

(** * The graph *)

Record MirCfgBlock := mkBlock {
  start : Z; end_ : Z; succ_head : Z; pred_head : Z; idom : Z; rpo : Z; loop_depth : Z; loop_header : Z
}.

(** [edge_capacity] cells are allocated for each of the edge arrays, which
    hold the edges added so far. *)
Record MirCfg := mkCfg {
  blocks : list MirCfgBlock;
  block_of : list Z;
  edge_next : list Z;
  edge_to : list Z;
  edge_capacity : nat;
  rpo_order : list Z;
  order : list Z;
  words : nat;
  use : list (list Z);
  def : list (list Z);
  live_in : list (list Z);
  live_out : list (list Z);
  defd_in : list (list Z);
  defd_out : list (list Z);
  insn_depth : list Z
}.

(** After [memset]. *)
Definition cfg_zero : MirCfg := mkCfg [] [] [] [] 0 [] [] 0 [] [] [] [] [] [] [].

Definition block_count (g : MirCfg) : nat := length (blocks g).

Definition set_span (s e : Z) (b : MirCfgBlock) : MirCfgBlock :=
  mkBlock s e (succ_head b) (pred_head b) (idom b) (rpo b) (loop_depth b) (loop_header b).
Definition set_succ (e : Z) (b : MirCfgBlock) : MirCfgBlock :=
  mkBlock (start b) (end_ b) e (pred_head b) (idom b) (rpo b) (loop_depth b) (loop_header b).
Definition set_pred (e : Z) (b : MirCfgBlock) : MirCfgBlock :=
  mkBlock (start b) (end_ b) (succ_head b) e (idom b) (rpo b) (loop_depth b) (loop_header b).
Definition set_idom (d : Z) (b : MirCfgBlock) : MirCfgBlock :=
  mkBlock (start b) (end_ b) (succ_head b) (pred_head b) d (rpo b) (loop_depth b) (loop_header b).
Definition set_rpo (k : Z) (b : MirCfgBlock) : MirCfgBlock :=
  mkBlock (start b) (end_ b) (succ_head b) (pred_head b) (idom b) k (loop_depth b) (loop_header b).
Definition set_depth (d : Z) (b : MirCfgBlock) : MirCfgBlock :=
  mkBlock (start b) (end_ b) (succ_head b) (pred_head b) (idom b) (rpo b) d (loop_header b).
Definition set_header (h : Z) (b : MirCfgBlock) : MirCfgBlock :=
  mkBlock (start b) (end_ b) (succ_head b) (pred_head b) (idom b) (rpo b) (loop_depth b) h.

Definition with_blocks (bs : list MirCfgBlock) (g : MirCfg) : MirCfg :=
  mkCfg bs (block_of g) (edge_next g) (edge_to g) (edge_capacity g) (rpo_order g) (order g) (words g)
    (use g) (def g) (live_in g) (live_out g) (defd_in g) (defd_out g) (insn_depth g).
Definition with_edges (nx to : list Z) (cap : nat) (g : MirCfg) : MirCfg :=
  mkCfg (blocks g) (block_of g) nx to cap (rpo_order g) (order g) (words g)
    (use g) (def g) (live_in g) (live_out g) (defd_in g) (defd_out g) (insn_depth g).
Definition with_rpo (bs : list MirCfgBlock) (o : list Z) (g : MirCfg) : MirCfg :=
  mkCfg bs (block_of g) (edge_next g) (edge_to g) (edge_capacity g) o (order g) (words g)
    (use g) (def g) (live_in g) (live_out g) (defd_in g) (defd_out g) (insn_depth g).
Definition with_order (o : list Z) (g : MirCfg) : MirCfg :=
  mkCfg (blocks g) (block_of g) (edge_next g) (edge_to g) (edge_capacity g) (rpo_order g) o (words g)
    (use g) (def g) (live_in g) (live_out g) (defd_in g) (defd_out g) (insn_depth g).
Definition with_depths (bs : list MirCfgBlock) (d : list Z) (g : MirCfg) : MirCfg :=
  mkCfg bs (block_of g) (edge_next g) (edge_to g) (edge_capacity g) (rpo_order g) (order g) (words g)
    (use g) (def g) (live_in g) (live_out g) (defd_in g) (defd_out g) d.
Definition with_sets (u d li lo di d_o : list (list Z)) (g : MirCfg) : MirCfg :=
  mkCfg (blocks g) (block_of g) (edge_next g) (edge_to g) (edge_capacity g) (rpo_order g) (order g) (words g)
    u d li lo di d_o (insn_depth g).

(** ** Blocks *)

(** [block_of], from the instruction before and the blocks counted so far. *)
Fixpoint number_blocks (prev : option MirInst) (ins : list MirInst) (nblocks : Z) : list Z :=
  match ins with
  | [] => []
  | x :: ins =>
      let leader := match prev with None => true | Some p => mir_cfg_is_label x || mir_cfg_ends_block p end in
      let nblocks := if leader then nblocks + 1 else nblocks in
      (nblocks - 1) :: number_blocks (Some x) ins nblocks
  end.

Fixpoint span_loop (prev : Z) (bof : list Z) (i : Z) (bs : list MirCfgBlock) : outcome (list MirCfgBlock) :=
  match bof with
  | [] => Ret bs
  | b :: bof =>
      let! blk := get bs b in
      let s := if (i =? 0) || negb (prev =? b) then i else start blk in
      let! bs := put bs b (set_span s (i + 1) blk) in
      span_loop b bof (i + 1) bs
  end.

Definition mir_cfg_split_blocks (fn : MirFunction) (g : MirCfg) (h : heap) : outcome (bool * MirCfg * heap) :=
  let (ok, h) := alloc h in
  if negb ok then Ret (false, g, h)
  else
    let bof := number_blocks None (insns fn) 0 in
    let nblocks := Z.to_nat (match last bof with Some b => b + 1 | None => 0 end) in
    let g := mkCfg (blocks g) bof (edge_next g) (edge_to g) (edge_capacity g) (rpo_order g) (order g) (words g)
               (use g) (def g) (live_in g) (live_out g) (defd_in g) (defd_out g) (insn_depth g) in
    let (ok, h) := alloc h in
    if negb ok then Ret (false, g, h)
    else
      let! bs := span_loop (-1) bof 0 (replicate nblocks (mkBlock 0 0 (-1) (-1) (-1) (-1) 0 (-1))) in
      Ret (true, with_blocks bs g, h).

(** ** Edges *)

(** The edge after [*head]; the new head is returned with the graph. *)
Definition mir_cfg_edge_add (g : MirCfg) (head to : Z) (h : heap) : bool * MirCfg * Z * heap :=
  let count := length (edge_to g) in
  let add cap h :=
    (true, with_edges (edge_next g ++ [head]) (edge_to g ++ [to]) cap g, Z.of_nat count, h) in
  if (count =? edge_capacity g)%nat then
    let cap := if (edge_capacity g =? 0)%nat then 64%nat else (edge_capacity g * 2)%nat in
    let (ok, h) := alloc h in
    if negb ok then (false, g, head, h)
    else let (ok, h) := alloc h in if negb ok then (false, g, head, h) else add cap h
  else add (edge_capacity g) h.

Definition mir_cfg_link (g : MirCfg) (from target_insn : Z) (h : heap) : outcome (bool * MirCfg * heap) :=
  if target_insn <? 0 then Ret (false, g, h)
  else
    let! to := get (block_of g) target_insn in
    let! f := get (blocks g) from in
    let '(ok, g, head, h) := mir_cfg_edge_add g (succ_head f) to h in
    if negb ok then Ret (false, g, h)
    else
      let! bs := put (blocks g) from (set_succ head f) in
      let g := with_blocks bs g in
      let! t := get (blocks g) to in
      let '(ok, g, head, h) := mir_cfg_edge_add g (pred_head t) from h in
      if negb ok then Ret (false, g, h)
      else let! bs := put (blocks g) to (set_pred head t) in Ret (true, with_blocks bs g, h).

(** A link to each label of the list. *)
Fixpoint link_labels (fn : MirFunction) (slots : list nat) (b : Z) (labels : list (option string)) (g : MirCfg) (h : heap) :
  outcome (bool * MirCfg * heap) :=
  match labels with
  | [] => Ret (true, g, h)
  | l :: labels =>
      let! t := mir_cfg_label_find fn slots l in
      let! (ok, g, h) := mir_cfg_link g b t h in
      if ok : bool then link_labels fn slots b labels g h else Ret (false, g, h)
  end.

(** The labels a last instruction names and whether it may fall through;
    [None] for a jump table that is missing. *)
Definition branch_targets (x : MirInst) : outcome (option (list (option string) * bool)) :=
  match op x with
  | MIR_JMP => Ret (Some ([sym (dst x)], false))
  | MIR_JCC | MIR_CMPBR | MIR_FCMPBR => Ret (Some ([sym (dst x)], true))
  | MIR_JMP_TABLE =>
      match aux x with
      | AuxNull => Ret None
      | AuxTable labels => Ret (Some (labels, false))
      | _ => Undef
      end
  | MIR_RET | MIR_TRAP => Ret (Some ([], false))
  | _ => Ret (Some ([], true))
  end.

Definition mir_cfg_link_block (fn : MirFunction) (slots : list nat) (b : nat) (g : MirCfg) (h : heap) :
  outcome (bool * MirCfg * heap) :=
  let! blk := get (blocks g) (Z.of_nat b) in
  let! last_ := get (insns fn) (end_ blk - 1) in
  let! targets := branch_targets last_ in
  match targets with
  | None => Ret (false, g, h)
  | Some (labels, fall) =>
      let! (ok, g, h) := link_labels fn slots (Z.of_nat b) labels g h in
      if negb ok then Ret (false, g, h)
      else if fall && (b + 1 <? block_count g)%nat then
        let! next := get (blocks g) (Z.of_nat (b + 1)) in mir_cfg_link g (Z.of_nat b) (start next) h
      else Ret (true, g, h)
  end.

Fixpoint link_blocks (fn : MirFunction) (slots : list nat) (n b : nat) (g : MirCfg) (h : heap) :
  outcome (bool * MirCfg * heap) :=
  match n with
  | O => Ret (true, g, h)
  | S n =>
      let! (ok, g, h) := mir_cfg_link_block fn slots b g h in
      if ok : bool then link_blocks fn slots n (S b) g h else Ret (false, g, h)
  end.

Definition mir_cfg_build_edges (fn : MirFunction) (g : MirCfg) (h : heap) : outcome (bool * MirCfg * heap) :=
  let! (slots, h) := mir_cfg_label_map_build fn h in
  match slots with
  | None => Ret (false, g, h)
  | Some slots => link_blocks fn slots (block_count g) 0 g h
  end.

(** [for (e = head; e >= 0; e = edge_next[e])]: the ends of the edges met. *)
Fixpoint chain (fuel : nat) (nx to : list Z) (e : Z) : outcome (list Z) :=
  match fuel with
  | O => NoFuel
  | S fuel =>
      if e <? 0 then Ret []
      else let! t := get to e in let! n := get nx e in let! rest := chain fuel nx to n in Ret (t :: rest)
  end.

Definition edges_at (g : MirCfg) (e : Z) : outcome (list Z) := chain (S (length (edge_to g))) (edge_next g) (edge_to g) e.
Definition succs (g : MirCfg) (b : Z) : outcome (list Z) := let! blk := get (blocks g) b in edges_at g (succ_head blk).
Definition preds (g : MirCfg) (b : Z) : outcome (list Z) := let! blk := get (blocks g) b in edges_at g (pred_head blk).

(** ** Reverse post-order *)

(** The depth-first search: a stack of blocks with the next edge to follow,
    the blocks seen, and the blocks left, in order. *)
Fixpoint rpo_loop (fuel : nat) (g : MirCfg) (stack : list (Z * Z)) (seen : list bool) (post : list Z) : outcome (list Z) :=
  match fuel with
  | O => NoFuel
  | S fuel =>
      match stack with
      | [] => Ret post
      | (b, e) :: rest =>
          if 0 <=? e then
            let! to := get (edge_to g) e in
            let! nx := get (edge_next g) e in
            let! s := get seen to in
            if s : bool then rpo_loop fuel g ((b, nx) :: rest) seen post
            else if (length stack <? block_count g)%nat then
              let! seen := put seen to true in
              let! t := get (blocks g) to in
              rpo_loop fuel g ((to, succ_head t) :: (b, nx) :: rest) seen post
            else Undef
          else if (length post <? block_count g)%nat then rpo_loop fuel g rest seen (post ++ [b])
          else Undef
      end
  end.

(** The exchange of the two halves, [n] steps from [k] on. *)
Fixpoint swap_loop (n k : nat) (l : list Z) : outcome (list Z) :=
  match n with
  | O => Ret l
  | S n =>
      let j := Z.of_nat (length l - 1 - k) in
      let! x := get l (Z.of_nat k) in
      let! y := get l j in
      let! l := put l (Z.of_nat k) y in
      let! l := put l j x in
      swap_loop n (S k) l
  end.

Fixpoint assign_rpo (order : list Z) (k : Z) (bs : list MirCfgBlock) : outcome (list MirCfgBlock) :=
  match order with
  | [] => Ret bs
  | b :: order =>
      let! blk := get bs b in
      let! bs := put bs b (set_rpo k blk) in
      assign_rpo order (k + 1) bs
  end.

(** Requests in a row, each made whatever the others gave. *)
Fixpoint alloc_many (n : nat) (h : heap) : bool * heap :=
  match n with
  | O => (true, h)
  | S n => let (ok, h) := alloc h in let (oks, h) := alloc_many n h in (ok && oks, h)
  end.

Definition mir_cfg_build_rpo (g : MirCfg) (h : heap) : outcome (bool * MirCfg * heap) :=
  let n := block_count g in
  let (ok, h) := alloc_many 4 h in
  if negb ok then Ret (false, g, h)
  else
    let! entry := get (blocks g) 0 in
    let! seen := put (replicate n false) 0 true in
    let! post := rpo_loop (S (n + length (edge_to g))) g [(0, succ_head entry)] seen [] in
    let! rpo := swap_loop (length post / 2) 0 post in
    let! bs := assign_rpo rpo 0 (blocks g) in
    Ret (true, with_rpo bs rpo g, h).

(** ** Dominators *)

(** [while (blocks[a].rpo > blocks[b].rpo) a = blocks[a].idom]. *)
Fixpoint climb (fuel : nat) (bs : list MirCfgBlock) (a b : Z) : outcome Z :=
  match fuel with
  | O => NoFuel
  | S fuel =>
      let! x := get bs a in
      let! y := get bs b in
      if rpo x >? rpo y then climb fuel bs (idom x) b else Ret a
  end.

Fixpoint mir_cfg_intersect (fuel : nat) (bs : list MirCfgBlock) (a b : Z) : outcome Z :=
  match fuel with
  | O => NoFuel
  | S fuel' =>
      if a =? b then Ret a
      else
        let! a := climb (S (length bs)) bs a b in
        let! b := climb (S (length bs)) bs b a in
        mir_cfg_intersect fuel' bs a b
  end.

(** The meet over the predecessors that have a dominator already. *)
Fixpoint meet_preds (bs : list MirCfgBlock) (ps : list Z) (new_idom : Z) : outcome Z :=
  match ps with
  | [] => Ret new_idom
  | p :: ps =>
      let! x := get bs p in
      if idom x <? 0 then meet_preds bs ps new_idom
      else if new_idom <? 0 then meet_preds bs ps p
      else let! d := mir_cfg_intersect (S (length bs)) bs p new_idom in meet_preds bs ps d
  end.

(** One round over the blocks in reverse post-order. *)
Fixpoint dom_pass (bof : list Z) (g : MirCfg) (changed : bool) : outcome (bool * MirCfg) :=
  match bof with
  | [] => Ret (changed, g)
  | b :: bof =>
      let! ps := preds g b in
      let! new_idom := meet_preds (blocks g) ps (-1) in
      let! blk := get (blocks g) b in
      if (0 <=? new_idom) && negb (idom blk =? new_idom) then
        let! bs := put (blocks g) b (set_idom new_idom blk) in dom_pass bof (with_blocks bs g) true
      else dom_pass bof g changed
  end.

Fixpoint dom_rounds (fuel : nat) (g : MirCfg) : outcome MirCfg :=
  match fuel with
  | O => NoFuel
  | S fuel =>
      let! (changed, g) := dom_pass (tail (rpo_order g)) g false in
      if changed : bool then dom_rounds fuel g else Ret g
  end.

Definition mir_cfg_build_dominators (g : MirCfg) : outcome MirCfg :=
  let! entry := get (blocks g) 0 in
  let! bs := put (blocks g) 0 (set_idom 0 entry) in
  dom_rounds (block_count g * block_count g + 2) (with_blocks bs g).

Fixpoint dominates_loop (fuel : nat) (bs : list MirCfgBlock) (a b : Z) : outcome bool :=
  match fuel with
  | O => NoFuel
  | S fuel =>
      if b <? 0 then Ret false
      else if a =? b then Ret true
      else let! x := get bs b in if idom x =? b then Ret false else dominates_loop fuel bs a (idom x)
  end.

Definition mir_cfg_dominates (g : MirCfg) (a b : Z) : outcome bool :=
  dominates_loop (S (block_count g)) (blocks g) a b.

(** ** Loops *)

(** The predecessors not in the loop yet are marked and pushed. *)
Fixpoint mark_preds (n : nat) (ps : list Z) (member : list bool) (work : list Z) : outcome (list bool * list Z) :=
  match ps with
  | [] => Ret (member, work)
  | p :: ps =>
      let! m := get member p in
      if m : bool then mark_preds n ps member work
      else if (length work <? n)%nat then
        let! member := put member p true in mark_preds n ps member (p :: work)
      else Undef
  end.

Fixpoint members_loop (fuel : nat) (g : MirCfg) (member : list bool) (work : list Z) : outcome (list bool) :=
  match fuel with
  | O => NoFuel
  | S fuel =>
      match work with
      | [] => Ret member
      | b :: work =>
          let! ps := preds g b in
          let! (member, work) := mark_preds (block_count g) ps member work in
          members_loop fuel g member work
      end
  end.

Definition mir_cfg_loop_members (g : MirCfg) (header tail : Z) : outcome (list bool) :=
  let! member := put (replicate (block_count g) false) header true in
  let! m := get member tail in
  if m : bool then members_loop (S (block_count g)) g member []
  else let! member := put member tail true in members_loop (S (block_count g)) g member [tail].

Definition mir_cfg_is_back_edge (g : MirCfg) (from to : Z) : outcome bool :=
  let! f := get (blocks g) from in
  if 0 <=? rpo f then mir_cfg_dominates g to from else Ret false.

(** The members whose loop is not deeper than [header]'s get it as header. *)
Fixpoint assign_loop (bs_all : list MirCfgBlock) (header : Z) (member : list bool) (n b : nat) :
  outcome (list MirCfgBlock) :=
  match n with
  | O => Ret bs_all
  | S n =>
      let! blk := get bs_all (Z.of_nat b) in
      let! m := get member (Z.of_nat b) in
      if negb m then assign_loop bs_all header member n (S b)
      else
        let cur := loop_header blk in
        let! deeper :=
          if cur <? 0 then Ret true
          else let! x := get bs_all header in let! y := get bs_all cur in Ret (loop_depth x >? loop_depth y) in
        let! bs_all := if deeper : bool then put bs_all (Z.of_nat b) (set_header header blk) else Ret bs_all in
        assign_loop bs_all header member n (S b)
  end.

Definition mir_cfg_assign_headers (g : MirCfg) (header : Z) (member : list bool) : outcome MirCfg :=
  let! bs := assign_loop (blocks g) header member (block_count g) 0 in Ret (with_blocks bs g).

(** [if (member[k]) blocks[k].loop_depth++]. *)
Definition deepen (bs : list MirCfgBlock) (member : list bool) : list MirCfgBlock :=
  zip_with (fun b (m : bool) => if m then set_depth (loop_depth b + 1) b else b) bs member.

Fixpoint visit_edges (assign : bool) (b : Z) (hs : list Z) (g : MirCfg) : outcome MirCfg :=
  match hs with
  | [] => Ret g
  | h :: hs =>
      let! back := mir_cfg_is_back_edge g b h in
      if negb back then visit_edges assign b hs g
      else
        let! member := mir_cfg_loop_members g h b in
        let! g := if assign then mir_cfg_assign_headers g h member
                  else Ret (with_blocks (deepen (blocks g) member) g) in
        visit_edges assign b hs g
  end.

(** The blocks from [b] on, [n] of them. *)
Fixpoint visit_blocks (assign : bool) (n b : nat) (g : MirCfg) : outcome MirCfg :=
  match n with
  | O => Ret g
  | S n =>
      let! hs := succs g (Z.of_nat b) in
      let! g := visit_edges assign (Z.of_nat b) hs g in
      visit_blocks assign n (S b) g
  end.

Definition mir_cfg_visit_loops (g : MirCfg) (assign : bool) : outcome MirCfg :=
  visit_blocks assign (block_count g) 0 g.

Fixpoint depths (bs : list MirCfgBlock) (bof : list Z) : outcome (list Z) :=
  match bof with
  | [] => Ret []
  | b :: bof =>
      let! blk := get bs b in
      let! rest := depths bs bof in
      Ret ((if loop_depth blk >? 255 then 255 else loop_depth blk) :: rest)
  end.

Definition mir_cfg_build_loops (g : MirCfg) (h : heap) : outcome (bool * MirCfg * heap) :=
  let (ok, h) := alloc_many 2 h in
  if negb ok then Ret (false, g, h)
  else
    let! g := mir_cfg_visit_loops g false in
    let! g := mir_cfg_visit_loops g true in
    let (ok, h) := alloc h in
    if negb ok then Ret (false, g, h)
    else let! d := depths (blocks g) (block_of g) in Ret (true, with_depths (blocks g) d g, h).

(** * Sets *)

Definition mir_cfg_set_get (set : list Z) (v : Z) : outcome bool :=
  let! w := get set (Z.shiftr v 6) in Ret (Z.odd (Z.shiftr w (Z.land v 63))).
Definition mir_cfg_set_add (set : list Z) (v : Z) : outcome (list Z) :=
  let! w := get set (Z.shiftr v 6) in put set (Z.shiftr v 6) (Z.lor w (u64 (Z.shiftl 1 (Z.land v 63)))).
Definition mir_cfg_set_clear (set : list Z) (v : Z) : outcome (list Z) :=
  let! w := get set (Z.shiftr v 6) in
  put set (Z.shiftr v 6) (Z.land w (u64 (Z.lnot (u64 (Z.shiftl 1 (Z.land v 63)))))).

(** [v >= 0 && (size_t)v < vreg_count]. *)
Definition in_range (fn : MirFunction) (v : Z) : bool := (0 <=? v) && (v <? Z.of_nat (vreg_count fn)).

Definition mir_cfg_alloc_sets (g : MirCfg) (h : heap) : bool * MirCfg * heap :=
  let z := replicate (block_count g) (replicate (words g) 0) in
  let (ok, h) := alloc_many 6 h in
  if ok then (true, with_sets z z z z z z g, h) else (false, g, h).

(** The registers read before they are written. *)
Fixpoint add_uses (fn : MirFunction) (ids : list Z) (d u : list Z) : outcome (list Z) :=
  match ids with
  | [] => Ret u
  | v :: ids =>
      if in_range fn v then
        let! written := mir_cfg_set_get d v in
        if negb written then let! u := mir_cfg_set_add u v in add_uses fn ids d u else add_uses fn ids d u
      else add_uses fn ids d u
  end.

Definition add_def (fn : MirFunction) (v : Z) (d : list Z) : outcome (list Z) :=
  if in_range fn v then mir_cfg_set_add d v else Ret d.

(** The instructions from [i] on, [n] of them. *)
Fixpoint local_block (fn : MirFunction) (n : nat) (i : Z) (u d : list Z) : outcome (list Z * list Z) :=
  match n with
  | O => Ret (u, d)
  | S n =>
      let! x := get (insns fn) i in
      let! u := add_uses fn (mir_cfg_insn_uses x) d u in
      let! d := add_def fn (mir_cfg_insn_def x) d in
      local_block fn n (i + 1) u d
  end.

(** The blocks from [b] on, [n] of them. *)
Fixpoint mir_cfg_local_sets (fn : MirFunction) (n b : nat) (g : MirCfg) : outcome MirCfg :=
  match n with
  | O => Ret g
  | S n =>
      let! blk := get (blocks g) (Z.of_nat b) in
      let! u := get (use g) (Z.of_nat b) in
      let! d := get (def g) (Z.of_nat b) in
      let! (u, d) := local_block fn (Z.to_nat (end_ blk - start blk)) (start blk) u d in
      let! us := put (use g) (Z.of_nat b) u in
      let! ds := put (def g) (Z.of_nat b) d in
      mir_cfg_local_sets fn n (S b) (with_sets us ds (live_in g) (live_out g) (defd_in g) (defd_out g) g)
  end.

(** [out[w] |= s[w]] for each row named. *)
Fixpoint join_rows (rows : list (list Z)) (bs : list Z) (out : list Z) : outcome (list Z) :=
  match bs with
  | [] => Ret out
  | b :: bs => let! s := get rows b in join_rows rows bs (zip_with Z.lor out s)
  end.

(** The registers live into a block: [u | (out & ~d)]. *)
Definition transfer_live (u d out : list Z) : list Z :=
  zip_with Z.lor u (zip_with (fun o x => Z.land o (u64 (Z.lnot x))) out d).

(** One round of [mir_cfg_liveness], the blocks below [n] from the last. *)
Fixpoint live_pass (n : nat) (g : MirCfg) (changed : bool) : outcome (bool * MirCfg) :=
  match n with
  | O => Ret (changed, g)
  | S b =>
      let! out := get (live_out g) (Z.of_nat b) in
      let! in_ := get (live_in g) (Z.of_nat b) in
      let! u := get (use g) (Z.of_nat b) in
      let! d := get (def g) (Z.of_nat b) in
      let! ss := succs g (Z.of_nat b) in
      let! out := join_rows (live_in g) ss out in
      let next := transfer_live u d out in
      let! lo := put (live_out g) (Z.of_nat b) out in
      let! li := put (live_in g) (Z.of_nat b) next in
      live_pass b (with_sets (use g) (def g) li lo (defd_in g) (defd_out g) g) (changed || negb (bool_decide (next = in_)))
  end.

Fixpoint live_rounds (fuel : nat) (g : MirCfg) : outcome MirCfg :=
  match fuel with
  | O => NoFuel
  | S fuel =>
      let! (changed, g) := live_pass (block_count g) g false in
      if changed : bool then live_rounds fuel g else Ret g
  end.

(** Each round but the last sets a bit that was clear. *)
Definition set_rounds (g : MirCfg) : nat := S (S (block_count g * (words g * 64))).

Definition mir_cfg_liveness (g : MirCfg) : outcome MirCfg := live_rounds (set_rounds g) g.

Fixpoint seed_params (fn : MirFunction) (ps : list MirParam) (entry : list Z) : outcome (list Z) :=
  match ps with
  | [] => Ret entry
  | p :: ps =>
      let! entry := add_def fn (p_vreg p) entry in
      let! entry := add_def fn (p_sysv_storage p) entry in
      seed_params fn ps entry
  end.

Definition mir_cfg_seed_entry_defs (fn : MirFunction) (g : MirCfg) : outcome MirCfg :=
  let! entry := get (defd_in g) 0 in
  let! entry := seed_params fn (params fn) entry in
  let! entry := if returns_indirect fn then add_def fn (indirect_return_vreg fn) entry else Ret entry in
  let! di := put (defd_in g) 0 entry in
  Ret (with_sets (use g) (def g) (live_in g) (live_out g) di (defd_out g) g).

(** Reverse post-order, then the blocks that are not reached. *)
Definition unreached (bs : list MirCfgBlock) : list Z :=
  Z.of_nat <$> filter (fun b => match bs !! b with Some blk => rpo blk <? 0 | None => false end = true) (seq 0 (length bs)).

Definition mir_cfg_build_order (g : MirCfg) (h : heap) : bool * MirCfg * heap :=
  let (ok, h) := alloc h in
  if ok then (true, with_order (rpo_order g ++ unreached (blocks g)) g, h) else (false, g, h).

Fixpoint defd_pass (bof : list Z) (g : MirCfg) (changed : bool) : outcome (bool * MirCfg) :=
  match bof with
  | [] => Ret (changed, g)
  | b :: bof =>
      let! in_ := get (defd_in g) b in
      let! out := get (defd_out g) b in
      let! d := get (def g) b in
      let! ps := preds g b in
      let! in_ := join_rows (defd_out g) ps in_ in
      let next := zip_with Z.lor in_ d in
      let! di := put (defd_in g) b in_ in
      let! d_o := put (defd_out g) b next in
      defd_pass bof (with_sets (use g) (def g) (live_in g) (live_out g) di d_o g) (changed || negb (bool_decide (next = out)))
  end.

Fixpoint defd_rounds (fuel : nat) (g : MirCfg) : outcome MirCfg :=
  match fuel with
  | O => NoFuel
  | S fuel =>
      let! (changed, g) := defd_pass (order g) g false in
      if changed : bool then defd_rounds fuel g else Ret g
  end.

Definition mir_cfg_definedness (fn : MirFunction) (g : MirCfg) : outcome MirCfg :=
  let! g := mir_cfg_seed_entry_defs fn g in defd_rounds (set_rounds g) g.

(** * The whole analysis *)

Definition mir_cfg_build (fn : MirFunction) (h : heap) : outcome (bool * MirCfg * heap) :=
  let g := mkCfg [] [] [] [] 0 [] [] ((vreg_count fn + 63) / 64) [] [] [] [] [] [] [] in
  if (insn_count fn =? 0)%nat || (vreg_count fn =? 0)%nat then Ret (false, g, h)
  else
    let! (ok, g, h) := mir_cfg_split_blocks fn g h in
    if negb ok then Ret (false, cfg_zero, h) else
    let! (ok, g, h) := mir_cfg_build_edges fn g h in
    if negb ok then Ret (false, cfg_zero, h) else
    let! (ok, g, h) := mir_cfg_build_rpo g h in
    if negb ok then Ret (false, cfg_zero, h) else
    let! g := mir_cfg_build_dominators g in
    let '(ok, g, h) := mir_cfg_build_order g h in
    if negb ok then Ret (false, cfg_zero, h) else
    let! (ok, g, h) := mir_cfg_build_loops g h in
    if negb ok then Ret (false, cfg_zero, h) else
    let '(ok, g, h) := mir_cfg_alloc_sets g h in
    if negb ok then Ret (false, cfg_zero, h) else
    let! g := mir_cfg_local_sets fn (block_count g) 0 g in
    let! g := mir_cfg_liveness g in
    let! g := mir_cfg_definedness fn g in
    Ret (true, g, h).

(** * The cursor *)

Record MirCfgCursor := mkCursor {
  block : Z;
  at_ : Z;
  live : list Z;
  defd : list Z;
  count : list Z
}.

Definition mir_cfg_cursor_init (fn : MirFunction) (g : MirCfg) (h : heap) : bool * MirCfgCursor * heap :=
  let z := replicate (words g) 0 in
  let (ok, h) := alloc_many 3 h in
  (ok, mkCursor 0 0 z z (replicate (vreg_count fn) 0), h).

(** The writes of each register in the block. *)
Fixpoint count_defs (fn : MirFunction) (n : nat) (i : Z) (c : list Z) : outcome (list Z) :=
  match n with
  | O => Ret c
  | S n =>
      let! x := get (insns fn) i in
      let d := mir_cfg_insn_def x in
      let! c := if in_range fn d then let! k := get c d in put c d (k + 1) else Ret c in
      count_defs fn n (i + 1) c
  end.

Definition mir_cfg_cursor_start_block (fn : MirFunction) (g : MirCfg) (b : Z) (cur : MirCfgCursor) : outcome MirCfgCursor :=
  let! blk := get (blocks g) b in
  let! lo := get (live_out g) b in
  let! d_o := get (defd_out g) b in
  let! c := count_defs fn (Z.to_nat (end_ blk - start blk)) (start blk) (count cur) in
  Ret (mkCursor b (end_ blk) lo d_o c).

Fixpoint add_live (fn : MirFunction) (ids : list Z) (l : list Z) : outcome (list Z) :=
  match ids with
  | [] => Ret l
  | v :: ids => if in_range fn v then let! l := mir_cfg_set_add l v in add_live fn ids l else add_live fn ids l
  end.

Definition mir_cfg_cursor_step_back (fn : MirFunction) (g : MirCfg) (cur : MirCfgCursor) : outcome MirCfgCursor :=
  if at_ cur =? 0 then Ret cur
  else
    let! blk := get (blocks g) (block cur) in
    if at_ cur <=? start blk then Ret cur
    else
      let i := at_ cur - 1 in
      let! x := get (insns fn) i in
      let d := mir_cfg_insn_def x in
      let! (lv, dd, c) :=
        if in_range fn d then
          let! lv := mir_cfg_set_clear (live cur) d in
          let! k := get (count cur) d in
          let! c := put (count cur) d (k - 1) in
          let! row := get (defd_in g) (block cur) in
          let! before := if k - 1 =? 0 then mir_cfg_set_get row d else Ret true in
          if negb before then let! dd := mir_cfg_set_clear (defd cur) d in Ret (lv, dd, c)
          else Ret (lv, defd cur, c)
        else Ret (live cur, defd cur, count cur) in
      let! lv := add_live fn (mir_cfg_insn_uses x) lv in
      Ret (mkCursor (block cur) i lv dd c).
End Cfg.
