(* ===== verification/CfgGraph.v ===== *)
(** The blocks and edges of the control-flow graph.

    Blocks partition the instructions at labels and after branches; the label
    map finds the first label of a name; the edges of the graph are exactly
    the ways control leaves a block. *)
From S2P Require Import Prelude Mir Probe MirCfg.
#[local] Open Scope Z_scope.

Module CfgGraph.
Import Mir Probe Cfg.

(** * Blocks *)

(** Does instruction [i] begin a block? *)
Definition leader (ins : list MirInst) (i : nat) : bool :=
  match i with
  | O => true
  | S j =>
      match ins !! i, ins !! j with
      | Some x, Some p => mir_cfg_is_label x || mir_cfg_ends_block p
      | _, _ => false
      end
  end.

Lemma number_blocks_length prev ins n : length (number_blocks prev ins n) = length ins.
Proof. revert prev n. induction ins as [|x ins IH]; intros prev n; [done|]. cbn [number_blocks length]. by rewrite IH. Qed.

Lemma number_blocks_next prev ins : forall n i b b', number_blocks prev ins n !! i = Some b ->
  number_blocks prev ins n !! S i = Some b' -> b' = if leader ins (S i) then b + 1 else b.
Proof.
  revert prev. induction ins as [|x ins IH]; intros prev n i b b' H H'; [done|]. cbn [number_blocks] in H, H'.
  set (n' := if match prev with None => true | Some p => mir_cfg_is_label x || mir_cfg_ends_block p end then n + 1 else n) in *.
  destruct i as [|i].
  - injection H as <-. destruct ins as [|y ins]; [done|]. cbn in H'. injection H' as <-. cbn.
    destruct (mir_cfg_is_label y || mir_cfg_ends_block x); lia.
  - apply (IH (Some x) n' i b b' H H').
Qed.

Lemma number_blocks_first ins x : number_blocks None (x :: ins) 0 !! O = Some 0.
Proof. done. Qed.

Definition numbered (ins : list MirInst) : list Z := number_blocks None ins 0.

Lemma numbered_mono ins i j b c : (i <= j)%nat -> numbered ins !! i = Some b -> numbered ins !! j = Some c -> b <= c.
Proof.
  intros Hij. revert c. induction Hij as [|j Hij IH]; intros c Hb Hc; [rewrite Hb in Hc; injection Hc; lia|].
  assert (is_Some (numbered ins !! j)) as [d Hd].
  { apply lookup_lt_is_Some. apply lookup_lt_Some in Hc. lia. }
  pose proof (number_blocks_next _ _ _ _ _ _ Hd Hc) as E. specialize (IH d Hb Hd). destruct (leader ins (S j)); lia.
Qed.

Lemma numbered_nonneg ins i b : numbered ins !! i = Some b -> 0 <= b.
Proof.
  intros H. destruct ins as [|x ins]; [done|].
  apply (numbered_mono (x :: ins) 0 i 0 b); [lia|by apply number_blocks_first|done].
Qed.

(** Every number up to that of an instruction is in use before it. *)
Lemma numbered_onto ins i b c : numbered ins !! i = Some b -> 0 <= c <= b -> exists j, (j <= i)%nat /\ numbered ins !! j = Some c.
Proof.
  revert b. induction i as [|i IH]; intros b H Hc.
  - destruct ins as [|x ins]; [done|]. injection H as <-. exists O. split; [lia|]. change (numbered (x :: ins) !! 0%nat) with (Some 0). f_equal. cbn in Hc. lia.
  - destruct (decide (c = b)) as [->|Hne]; [by exists (S i)|].
    assert (is_Some (numbered ins !! i)) as [d Hd] by (apply lookup_lt_is_Some; apply lookup_lt_Some in H; lia).
    pose proof (number_blocks_next _ _ _ _ _ _ Hd H) as E. destruct (IH d Hd) as (j & Hj & Hn); [destruct (leader ins (S i)); lia|].
    exists j. split; [lia|done].
Qed.

(** The span [start, end_) holds exactly the instructions of block [b] among
    the first [i]. *)
Definition spans (bof : list Z) (i : nat) (b : nat) (blk : MirCfgBlock) : Prop :=
  0 <= start blk /\ end_ blk <= Z.of_nat i /\
  forall j, (j < i)%nat -> bof !! j = Some (Z.of_nat b) <-> start blk <= Z.of_nat j < end_ blk.

(** A block as it is before edges are added. *)
Definition bare (blk : MirCfgBlock) : Prop :=
  succ_head blk = -1 /\ pred_head blk = -1 /\ idom blk = -1 /\ rpo blk = -1 /\ loop_depth blk = 0 /\ loop_header blk = -1.

Lemma span_loop_ok ins bof2 : forall i prev bs,
  drop i (numbered ins) = bof2 -> (i <= length ins)%nat ->
  (i = O \/ exists j, i = S j /\ numbered ins !! j = Some prev) ->
  (forall j b, numbered ins !! j = Some b -> b < Z.of_nat (length bs)) ->
  (forall b blk, bs !! b = Some blk -> bare blk /\ spans (numbered ins) i b blk) ->
  exists bs', span_loop prev bof2 (Z.of_nat i) bs = Ret bs' /\ length bs' = length bs /\
    forall b blk, bs' !! b = Some blk -> bare blk /\ spans (numbered ins) (length ins) b blk.
Proof.
  induction bof2 as [|b bof2 IH]; intros i prev bs Hd Hi Hprev Hlt Hbs; cbn [span_loop].
  { exists bs. split; [done|]. split; [done|]. assert (i = length ins) as ->; [|done].
    apply (f_equal length) in Hd. rewrite length_drop in Hd. unfold numbered in Hd. rewrite number_blocks_length in Hd.
    simpl in Hd. lia. }
  assert (numbered ins !! i = Some b) as Hb by (by rewrite <- (Nat.add_0_r i), <- lookup_drop, Hd).
  pose proof (numbered_nonneg _ _ _ Hb) as H0. specialize (Hlt i b Hb) as Hblt.
  assert (i < length ins)%nat as Hil by (apply lookup_lt_Some in Hb; unfold numbered in Hb; by rewrite number_blocks_length in Hb).
  destruct (Z_of_nat_complete b H0) as [k ->]. destruct (lookup_lt_is_Some_2 bs k) as [blk Hblk]; [lia|].
  rewrite (get_nat _ _ _ Hblk). cbn [obind].
  rewrite put_nat by lia. cbn [obind].
  destruct (Hbs _ _ Hblk) as [Hbare (Hs0 & He & Hsp)].
  set (s := if (Z.of_nat i =? 0) || negb (prev =? Z.of_nat k) then Z.of_nat i else start blk).
  assert (spans (numbered ins) (S i) k (set_span s (Z.of_nat i + 1) blk)) as Hnew.
  { subst s. destruct ((Z.of_nat i =? 0) || negb (prev =? Z.of_nat k)) eqn:Es.
    - split; simpl; [lia|]. split; [lia|]. intros j Hj. split.
      + intros Hjb. destruct (decide (j = i)) as [->|Hne]; [lia|]. exfalso.
        apply orb_true_iff in Es as [Es|Es]; [lia|]. apply negb_true_iff, Z.eqb_neq in Es.
        destruct Hprev as [->|(p & -> & Hp)]; [lia|].
        pose proof (numbered_mono ins j p _ prev ltac:(lia) Hjb Hp).
        pose proof (numbered_mono ins p (S p) prev _ ltac:(lia) Hp Hb). lia.
      + intros Hj'. assert (j = i) as -> by lia. done.
    - apply orb_false_iff in Es as [Ei Es]. apply negb_false_iff, Z.eqb_eq in Es as ->.
      destruct Hprev as [->|(p & -> & Hp)]; [done|]. pose proof (proj1 (Hsp p ltac:(lia)) Hp) as Hp'.
      split; simpl; [lia|]. split; [lia|]. intros j Hj. destruct (decide (j = S p)) as [->|Hne].
      + rewrite Hb. split; [lia|]. done.
      + rewrite (Hsp j) by lia. lia. }
  destruct (IH (S i) (Z.of_nat k) (<[k := set_span s (Z.of_nat i + 1) blk]> bs)) as (bs' & E & Hlen & Hfin).
  - by rewrite <- Nat.add_1_r, <- drop_drop, Hd.
  - lia.
  - right. by exists i.
  - intros j c Hc. rewrite length_insert. by eapply Hlt.
  - intros c blk' Hc. destruct (decide (c = k)) as [->|Hne].
    + rewrite list_lookup_insert_eq in Hc by lia. injection Hc as <-. split; [exact Hbare|exact Hnew].
    + rewrite list_lookup_insert_ne in Hc by done. destruct (Hbs _ _ Hc) as [Hbc (Hc0 & Hce & Hcs)]. split; [done|].
      split; [done|]. split; [lia|]. intros j Hj. destruct (decide (j = i)) as [->|]; [|apply Hcs; lia].
      rewrite Hb. split; [intros [= E]; lia|lia].
  - exists bs'. rewrite length_insert in Hlen. split; [|done]. rewrite <- E. f_equal. lia.
Qed.

(** The blocks of [g] are those of the instructions of [fn]. *)
Record blocks_ok (fn : MirFunction) (g : MirCfg) : Prop := {
  bo_of : block_of g = numbered (insns fn);
  bo_span : forall b blk, blocks g !! b = Some blk -> spans (numbered (insns fn)) (insn_count fn) b blk;
  bo_lt : forall i c, numbered (insns fn) !! i = Some c -> c < Z.of_nat (block_count g);
  bo_used : forall b, (b < block_count g)%nat -> exists i, numbered (insns fn) !! i = Some (Z.of_nat b)
}.

Section blocks.
Context (fn : MirFunction) (g : MirCfg) (Hok : blocks_ok fn g).

Lemma block_nonempty b blk : blocks g !! b = Some blk -> 0 <= start blk < end_ blk /\ end_ blk <= Z.of_nat (insn_count fn).
Proof.
  intros H. destruct (bo_span _ _ Hok _ _ H) as (H1 & H2 & H3). destruct (bo_used _ _ Hok b) as [i Hi].
  { by eapply lookup_lt_Some. }
  assert (i < insn_count fn)%nat as Hl by (apply lookup_lt_Some in Hi; unfold numbered in Hi; by rewrite number_blocks_length in Hi).
  apply (H3 i Hl) in Hi. lia.
Qed.

Lemma block_member b blk i : blocks g !! b = Some blk -> (i < insn_count fn)%nat ->
  numbered (insns fn) !! i = Some (Z.of_nat b) <-> start blk <= Z.of_nat i < end_ blk.
Proof. intros H. by apply (bo_span _ _ Hok). Qed.

Lemma numbered_is_Some i : (i < insn_count fn)%nat -> exists b blk, numbered (insns fn) !! i = Some (Z.of_nat b) /\ blocks g !! b = Some blk.
Proof.
  intros H. destruct (lookup_lt_is_Some_2 (numbered (insns fn)) i) as [c Hc].
  { unfold numbered. by rewrite number_blocks_length. }
  pose proof (numbered_nonneg _ _ _ Hc). pose proof (bo_lt _ _ Hok _ _ Hc). destruct (lookup_lt_is_Some_2 (blocks g) (Z.to_nat c)) as [blk Hblk].
  { unfold block_count in *. lia. }
  exists (Z.to_nat c), blk. rewrite Z2Nat.id by done. done.
Qed.

(** The first instruction of a block, and no other, is a leader. *)
Lemma leader_start b blk i : blocks g !! b = Some blk -> numbered (insns fn) !! i = Some (Z.of_nat b) ->
  leader (insns fn) i = true <-> Z.of_nat i = start blk.
Proof.
  intros H Hi. pose proof (block_nonempty b blk H) as Hne.
  assert (i < insn_count fn)%nat as Hl by (apply lookup_lt_Some in Hi; unfold numbered in Hi; by rewrite number_blocks_length in Hi).
  pose proof (proj1 (block_member b blk i H Hl) Hi) as Hr. destruct i as [|j]; [split; [lia|done]|].
  assert (j < insn_count fn)%nat as Hlj by lia. destruct (numbered_is_Some j Hlj) as (c & blkc & Hc & _).
  pose proof (number_blocks_next _ _ _ _ _ _ Hc Hi) as E. pose proof (block_member b blk j H Hlj) as Hj. rewrite Hc in Hj.
  split; intros HL.
  - rewrite HL in E. destruct (decide (start blk <= Z.of_nat j)); [|lia].
    assert (Some (Z.of_nat c) = Some (Z.of_nat b)) as [= ?] by (apply Hj; lia). lia.
  - destruct (leader (insns fn) (S j)) eqn:El; [done|]. assert (c = b) as -> by lia.
    assert (start blk <= Z.of_nat j < end_ blk) by (by apply Hj). lia.
Qed.

(** The block after the last instruction of a block. *)
Lemma block_after b blk : blocks g !! b = Some blk -> end_ blk < Z.of_nat (insn_count fn) ->
  exists blk', blocks g !! S b = Some blk' /\ start blk' = end_ blk.
Proof.
  intros H Hend. pose proof (block_nonempty b blk H) as [Hne _]. set (i := Z.to_nat (end_ blk)).
  assert (i < insn_count fn)%nat as Hl by lia. destruct (numbered_is_Some i Hl) as (c & blkc & Hc & Hblkc).
  assert (numbered (insns fn) !! pred i = Some (Z.of_nat b)) as Hp by (apply (block_member b blk); [done|lia|lia]).
  assert (S (pred i) = i) as Ei by lia. rewrite <- Ei in Hc. pose proof (number_blocks_next _ _ _ _ _ _ Hp Hc) as E.
  rewrite Ei in *. assert (c <> b) as Hcb.
  { intros ->. apply (block_member b blk) in Hc; [lia|done|done]. }
  destruct (leader (insns fn) i) eqn:El; [|lia]. assert (c = S b) as -> by lia. exists blkc. split; [done|].
  apply (leader_start (S b) blkc i Hblkc Hc) in El. lia.
Qed.

Lemma block_before b blk : blocks g !! S b = Some blk -> exists blk', blocks g !! b = Some blk' /\ end_ blk' = start blk.
Proof.
  intros H. destruct (lookup_lt_is_Some_2 (blocks g) b) as [blk' Hblk']; [apply lookup_lt_Some in H; lia|].
  exists blk'. split; [done|]. pose proof (block_nonempty _ _ H) as Hne. pose proof (block_nonempty _ _ Hblk') as Hne'.
  destruct (decide (end_ blk' < Z.of_nat (insn_count fn))) as [Hlt|Hge].
  - destruct (block_after b blk' Hblk' Hlt) as (blk2 & E & <-). rewrite H in E. by injection E as ->.
  - exfalso. assert (numbered (insns fn) !! Z.to_nat (start blk) = Some (Z.of_nat (S b))) as H1 by (apply (block_member (S b) blk); [done|lia|lia]).
    assert (numbered (insns fn) !! Z.to_nat (end_ blk' - 1) = Some (Z.of_nat b)) as H2 by (apply (block_member b blk'); [done|lia|lia]).
    pose proof (numbered_mono _ (Z.to_nat (start blk)) (Z.to_nat (end_ blk' - 1)) _ _ ltac:(lia) H1 H2). lia.
Qed.
End blocks.

Lemma split_ok fn g h : (0 < insn_count fn)%nat ->
  exists ok g' h', mir_cfg_split_blocks fn g h = Ret (ok, g', h') /\
    (heap_grants h (heap_calls h) = true -> heap_grants h (S (heap_calls h)) = true -> ok = true) /\ heap_grants h' = heap_grants h /\
    (ok = true -> blocks_ok fn g' /\ (0 < block_count g')%nat /\ (forall b blk, blocks g' !! b = Some blk -> bare blk) /\
       edge_next g' = edge_next g /\ edge_to g' = edge_to g /\ edge_capacity g' = edge_capacity g /\ words g' = words g).
Proof.
  intros Hne. unfold mir_cfg_split_blocks, alloc. destruct (heap_grants h (heap_calls h)) eqn:E1; cbn [negb].
  2:{ eexists false, g, _. split; [done|]. split; [done|]. done. }
  cbn [heap_grants heap_calls]. destruct (heap_grants h (S (heap_calls h))) eqn:E2; cbn [negb].
  2:{ eexists false, _, _. split; [done|]. done. }
  set (bs0 := replicate _ (mkBlock 0 0 (-1) (-1) (-1) (-1) 0 (-1))).
  assert (exists c, last (numbered (insns fn)) = Some c /\ numbered (insns fn) !! pred (insn_count fn) = Some c) as (c & Hlast & Hc).
  { rewrite last_lookup. unfold numbered. rewrite number_blocks_length. fold (insn_count fn).
    destruct (lookup_lt_is_Some_2 (numbered (insns fn)) (pred (insn_count fn))) as [c Hc]; [|by exists c].
    unfold numbered. rewrite number_blocks_length. unfold insn_count in *. lia. }
  pose proof (numbered_nonneg _ _ _ Hc) as H0. assert (length bs0 = Z.to_nat (c + 1)) as Hlen.
  { subst bs0. change (number_blocks None (insns fn) 0) with (numbered (insns fn)). rewrite length_replicate, Hlast. done. }
  assert (forall j b, numbered (insns fn) !! j = Some b -> b <= c) as Hmax.
  { intros j b Hj. eapply numbered_mono; [|done..]. apply lookup_lt_Some in Hj. unfold numbered in Hj.
    rewrite number_blocks_length in Hj. unfold insn_count. lia. }
  destruct (span_loop_ok (insns fn) (numbered (insns fn)) 0 (-1) bs0) as (bs & E & Hl & Hbs); [done|lia|by left| | |].
  - intros j b Hj. specialize (Hmax j b Hj). lia.
  - intros b blk Hb. apply lookup_replicate in Hb as [-> _]. split; [done|]. split; [done|]. split; [done|]. lia.
  - change (Z.of_nat 0) with 0 in E. change (number_blocks None (insns fn) 0) with (numbered (insns fn)).
    rewrite E. cbn [obind]. eexists true, _, _. split; [done|]. split; [done|]. split; [done|]. intros _.
    split; [|split; [|split; [|done]]].
    + split; cbn [with_blocks block_of blocks].
      * done.
      * intros b blk Hb. by apply Hbs.
      * intros i b Hi. unfold block_count. cbn [blocks with_blocks]. specialize (Hmax i b Hi). lia.
      * intros b Hb. unfold block_count in Hb. cbn [blocks with_blocks] in Hb.
        destruct (numbered_onto _ _ _ (Z.of_nat b) Hc) as (j & _ & Hj); [lia|by exists j].
    + unfold block_count. cbn [blocks with_blocks]. lia.
    + intros b blk Hb. exact (proj1 (Hbs b blk Hb)).
Qed.

(** * Labels *)

(** The first label with the name. *)
Definition label_at (ins : list MirInst) (name : string) : option nat :=
  fst <$> list_find (fun x => mir_cfg_is_label x = true /\ sym (dst x) = Some name) ins.

Definition is_label_at (ins : list MirInst) (j : nat) : Prop := exists x, ins !! j = Some x /\ mir_cfg_is_label x = true.

Definition label_key (ins : list MirInst) (j : nat) : option string := match ins !! j with Some x => sym (dst x) | None => None end.

Definition label_hash (k : option string) : Z := match k with Some n => mettle_fnv1a_hash (bytes_of n) | None => 0 end.

Lemma labelled_key ins name j : labelled ins name j = true <-> label_key ins j = Some name.
Proof.
  unfold labelled, label_key. destruct (ins !! j); [|done]. by rewrite bool_decide_eq_true.
Qed.

Lemma label_at_Some ins name j : label_at ins name = Some j <->
  is_label_at ins j /\ label_key ins j = Some name /\ forall k, (k < j)%nat -> is_label_at ins k -> label_key ins k <> Some name.
Proof.
  unfold label_at, is_label_at, label_key. split.
  - intros H. apply fmap_Some in H as ([j' x] & H & ->). apply list_find_Some in H as (Hx & [H1 H2] & H3). simpl.
    split; [by exists x|]. rewrite Hx. split; [done|]. intros k Hk (y & Hy & Hl). rewrite Hy. intros E. by apply (H3 k y Hy Hk).
  - intros ((x & Hx & Hl) & Hk & Hmin). rewrite Hx in Hk. apply fmap_Some. exists (j, x). split; [|done].
    apply list_find_Some. split; [done|]. split; [done|]. intros k y Hy Hlt [H1 H2]. apply (Hmin k Hlt); [by exists y|]. by rewrite Hy.
Qed.

Lemma label_at_None ins name : label_at ins name = None <-> forall k, is_label_at ins k -> label_key ins k <> Some name.
Proof.
  unfold label_at, is_label_at, label_key. rewrite fmap_None, list_find_None, Forall_lookup. split.
  - intros H k (x & Hx & Hl). rewrite Hx. intros E. by apply (H k x Hx).
  - intros H k x Hx [Hl E]. apply (H k); [by exists x|]. by rewrite Hx.
Qed.

Lemma grow_slots_ok fuel s want : size_ok s -> (want <= s * 2 ^ fuel)%nat ->
  size_ok (grow_slots fuel s want) /\ (want <= grow_slots fuel s want)%nat /\ (s <= grow_slots fuel s want)%nat.
Proof.
  revert s. induction fuel as [|fuel IH]; intros s Hs Hw; cbn [grow_slots].
  - simpl in Hw. split; [done|]. lia.
  - destruct (s <? want)%nat eqn:E.
    + destruct (IH (s * 2)%nat) as (H1 & H2 & H3).
      * destruct Hs as [k ->]. exists (S k). rewrite Nat.pow_succ_r'. lia.
      * rewrite Nat.pow_succ_r' in Hw. lia.
      * split; [done|]. split; [done|lia].
    + apply Nat.ltb_ge in E. split; [done|]. lia.
Qed.

(** The labels among the first [i] instructions are in the map. *)
Record map_inv (ins : list MirInst) (m : nat) (i : nat) (slots reg : list nat) : Prop := {
  mi_table : table_inv m (label_key ins) label_hash slots reg;
  mi_sound : forall r, r ∈ reg -> (r < i)%nat /\ is_label_at ins r /\
    (forall j, (j < r)%nat -> is_label_at ins j -> label_key ins j <> label_key ins r);
  mi_complete : forall j, (j < i)%nat -> is_label_at ins j -> exists r, r ∈ reg /\ label_key ins r = label_key ins j;
  mi_size : (length reg <= length (filter (fun x => mir_cfg_is_label x = true) (take i ins)))%nat
}.

Lemma take_filter_le (ins : list MirInst) i :
  (length (filter (fun x => mir_cfg_is_label x = true) (take i ins)) <= length (filter (fun x => mir_cfg_is_label x = true) ins))%nat.
Proof. rewrite <- (take_drop i ins) at 2. rewrite filter_app, length_app. lia. Qed.

Lemma map_inv_step ins m i slots reg x name : size_ok m ->
  (length (filter (fun x => mir_cfg_is_label x = true) ins) < m)%nat -> map_inv ins m i slots reg ->
  ins !! i = Some x -> mir_cfg_is_label x = true -> sym (dst x) = Some name ->
  exists pos found, probe_loop (S (length slots)) slots (length slots - 1) (labelled ins name)
      (slot_of (mettle_fnv1a_hash (bytes_of name)) (length slots - 1)) = Ret (pos, found) /\
    exists reg', map_inv ins m (S i) (match found with Some _ => slots | None => <[pos := S i]> slots end) reg'.
Proof.
  intros Hs Hlen [Ht Hsd Hc Hsz] Hx Hl Hn. rewrite (ti_length _ _ _ _ _ Ht).
  pose proof (take_filter_le ins i) as Htf. assert (label_key ins i = Some name) as Hk by (unfold label_key; by rewrite Hx).
  assert (filter (fun x => mir_cfg_is_label x = true) (take (S i) ins) = filter (fun x => mir_cfg_is_label x = true) (take i ins) ++ [x]) as Ef.
  { rewrite (take_S_r _ _ _ Hx), filter_app. f_equal. by rewrite filter_cons_True. }
  assert (is_label_at ins i) as Hli by (by exists x).
  destruct (probe_find m (label_key ins) label_hash slots reg (Some name) (labelled ins name) (S m) Hs Ht) as (p & r & E & Hp & Hr);
    [lia|intros j _; apply labelled_key|lia|].
  cbn [label_hash] in E. exists p, r. split; [done|]. destruct r as [j|].
  - exists reg. destruct Hr as (Hkj & n & Hreg & _). apply list_elem_of_lookup_2 in Hreg. split; [done| | |].
    + intros r Hr. destruct (Hsd r Hr) as (H1 & H2 & H3). split; [lia|done].
    + intros j' Hj' Hlj. destruct (decide (j' = i)) as [->|]; [|apply Hc; [lia|done]]. exists j. split; [done|]. by rewrite Hk.
    + rewrite Ef, length_app. lia.
  - destruct Hr as (Hnone & Hzero & d & Hd & -> & Hbefore). exists (reg ++ [i]).
    assert (i ∉ reg) as Hni by (intros Hin; destruct (Hsd i Hin) as [? _]; lia).
    assert (slot_of (mettle_fnv1a_hash (bytes_of name)) (m - 1) = home m (label_key ins) label_hash i) as Hh by (unfold home; by rewrite Hk).
    cbn [label_hash] in Hzero, Hbefore |- *. rewrite Hh in *. split.
    + by apply table_inv_insert.
    + intros r [Hr| ->%list_elem_of_singleton]%elem_of_app.
      * destruct (Hsd r Hr) as (H1 & H2 & H3). split; [lia|done].
      * split; [lia|]. split; [done|]. intros j Hj Hlj E'. destruct (Hc j Hj Hlj) as (r & Hr & Er). apply (Hnone r Hr). congruence.
    + intros j Hj Hlj. destruct (decide (j = i)) as [->|]; [exists i; split; [apply elem_of_app; right; by left|done]|].
      destruct (Hc j) as (r & Hr & Er); [lia|done|]. exists r. split; [apply elem_of_app; by left|done].
    + rewrite Ef, !length_app. simpl. lia.
Qed.

Lemma is_label_sym x : mir_cfg_is_label x = true -> exists name, sym (dst x) = Some name.
Proof.
  unfold mir_cfg_is_label. intros H. apply andb_true_iff in H as [_ H]. apply bool_decide_eq_true in H as [n ->]. by exists n.
Qed.

Lemma label_loop_ok all m : size_ok m -> (length (filter (fun x => mir_cfg_is_label x = true) all) < m)%nat ->
  forall ins i slots reg, drop i all = ins -> map_inv all m i slots reg ->
  exists slots' reg', label_loop all ins i slots = Ret slots' /\ map_inv all m (length all) slots' reg'.
Proof.
  intros Hs Hlen. induction ins as [|x ins IH]; intros i slots reg Hd Hi; cbn [label_loop].
  { exists slots, reg. split; [done|]. assert (length all <= i)%nat as Hge.
    { apply (f_equal length) in Hd. rewrite length_drop in Hd. simpl in Hd. lia. }
    destruct Hi as [H1 H2 H3 H4]. split; [done| | |].
    - intros r Hr. destruct (H2 r Hr) as (Ha & (y & Hy & Hly) & Hb). split; [by apply lookup_lt_Some in Hy|]. split; [by exists y|done].
    - intros j Hj. apply H3. lia.
    - by rewrite take_ge in H4 |- * by lia. }
  assert (all !! i = Some x) as Hx by (by rewrite <- (Nat.add_0_r i), <- lookup_drop, Hd).
  assert (drop (S i) all = ins) as Hd' by (by rewrite <- Nat.add_1_r, <- drop_drop, Hd).
  destruct (mir_cfg_is_label x) eqn:El; cbn [negb].
  - destruct (is_label_sym x El) as [name Hn]. rewrite Hn.
    destruct (map_inv_step all m i slots reg x name Hs Hlen Hi Hx El Hn) as (pos & found & E & reg' & Hi').
    rewrite E. cbn [obind]. by eapply IH.
  - apply (IH (S i) slots reg); [done|]. destruct Hi as [H1 H2 H3 H4]. split; [done| | |].
    + intros r Hr. destruct (H2 r Hr) as (Ha & Hb). split; [lia|done].
    + intros j Hj Hlj. destruct (decide (j = i)) as [->|]; [|apply H3; [lia|done]].
      destruct Hlj as (y & Hy & Hly). congruence.
    + rewrite (take_S_r _ _ _ Hx), filter_app, length_app. lia.
Qed.

(** A map in which [mir_cfg_label_find] gives the first label of a name. *)
Definition map_ok (fn : MirFunction) (slots : list nat) : Prop :=
  forall name, mir_cfg_label_find fn slots name =
    Ret (match name ≫= label_at (insns fn) with Some j => Z.of_nat j | None => -1 end).

Lemma label_map_ok fn h : exists slots h', mir_cfg_label_map_build fn h = Ret (slots, h') /\
  heap_grants h' = heap_grants h /\ heap_calls h' = S (heap_calls h) /\
  match slots with Some s => map_ok fn s | None => heap_grants h (heap_calls h) = false end.
Proof.
  unfold mir_cfg_label_map_build, alloc. set (n := length (filter _ (insns fn))).
  destruct (heap_grants h (heap_calls h)) eqn:Eg; [|by eexists None, _].
  destruct (grow_slots_ok (n * 2) 16 (n * 2)) as (Hs & Hw & H16); [by exists 4%nat| |].
  { pose proof (Nat.pow_gt_lin_r 2 (n * 2)). lia. }
  set (m := grow_slots (n * 2) 16 (n * 2)) in *.
  destruct (label_loop_ok (insns fn) m Hs ltac:(fold n; lia) (insns fn) 0 (replicate m O) []) as (slots & reg & E & Hi); [done| |].
  { split; [apply table_inv_empty|intros r Hr; by apply not_elem_of_nil in Hr|lia|simpl; lia]. }
  rewrite E. cbn [obind]. eexists (Some slots), _. split; [done|]. split; [done|]. split; [done|].
  intros [name|]; [|done]. cbn [mbind option_bind mir_cfg_label_find].
  destruct Hi as [Ht Hsd Hc Hsz]. rewrite (ti_length _ _ _ _ _ Ht).
  destruct (probe_find m (label_key (insns fn)) label_hash slots reg (Some name) (labelled (insns fn) name) (S m) Hs Ht) as (p & r & Ep & Hp & Hr);
    [rewrite take_ge in Hsz by done; fold n in Hsz; lia|intros j _; apply labelled_key|lia|].
  cbn [label_hash] in Ep. rewrite Ep. cbn [obind]. f_equal. destruct r as [j|].
  - destruct Hr as (Hk & k & Hreg & _). apply list_elem_of_lookup_2 in Hreg. destruct (Hsd j Hreg) as (_ & Hl & Hmin).
    assert (label_at (insns fn) name = Some j) as -> by (apply label_at_Some; rewrite <- Hk; done). done.
  - destruct Hr as [Hnone _]. assert (label_at (insns fn) name = None) as ->; [|done].
    apply label_at_None. intros k Hl Hk. pose proof Hl as (x & Hx & _). destruct (Hc k) as (r & Hr & Er); [by apply lookup_lt_Some in Hx|done|].
    apply (Hnone r Hr). congruence.
Qed.

(** * Edges *)

(** The list of edges that starts at [e]: the indices decrease along it. *)
Inductive linked (nx to : list Z) : Z -> list Z -> Prop :=
| linked_nil e : e < 0 -> linked nx to e []
| linked_cons e t n l : 0 <= e -> get to e = Ret t -> get nx e = Ret n -> n < e -> linked nx to n l -> linked nx to e (t :: l).

Lemma linked_chain nx to e l fuel : linked nx to e l -> e + 1 < Z.of_nat fuel -> (0 < fuel)%nat -> chain fuel nx to e = Ret l.
Proof.
  intros H. revert fuel. induction H as [e He|e t n l He Ht Hn Hlt Hl IH]; intros [|fuel] Hf H0; try lia; cbn [chain].
  - by rewrite (proj2 (Z.ltb_lt e 0)).
  - rewrite (proj2 (Z.ltb_ge e 0)) by lia. rewrite Ht, Hn. cbn [obind]. rewrite IH by lia. done.
Qed.

Lemma get_lt {A} (l : list A) e a : get l e = Ret a -> 0 <= e < Z.of_nat (length l).
Proof. intros (n & -> & H)%get_Ret. apply lookup_lt_Some in H. lia. Qed.

Lemma get_app {A} (l k : list A) e a : get l e = Ret a -> get (l ++ k) e = Ret a.
Proof. intros (n & -> & H)%get_Ret. apply get_nat. by apply lookup_app_l_Some. Qed.

Lemma linked_app nx to nx' to' e l : linked nx to e l -> linked (nx ++ nx') (to ++ to') e l.
Proof.
  induction 1 as [e He|e t n l He Ht Hn Hlt Hl IH]; [by constructor|].
  apply (linked_cons _ _ e t n); by try apply get_app.
Qed.

Lemma linked_head nx to e l : linked nx to e l -> e < Z.of_nat (length to).
Proof. destruct 1 as [e He|e t n l He Ht Hn Hlt Hl]; [lia|]. apply get_lt in Ht. lia. Qed.

(** Edges added so far, the newest first. *)
Definition succs_of (es : list (nat * nat)) (b : nat) : list Z := (fun e => Z.of_nat e.2) <$> filter (fun e => e.1 = b) es.
Definition preds_of (es : list (nat * nat)) (b : nat) : list Z := (fun e => Z.of_nat e.1) <$> filter (fun e => e.2 = b) es.

Record graph_inv (g : MirCfg) (es : list (nat * nat)) : Prop := {
  gi_len : length (edge_next g) = length (edge_to g);
  gi_nodes : forall f t, (f, t) ∈ es -> (f < block_count g)%nat /\ (t < block_count g)%nat;
  gi_succ : forall b blk, blocks g !! b = Some blk -> linked (edge_next g) (edge_to g) (succ_head blk) (succs_of es b);
  gi_pred : forall b blk, blocks g !! b = Some blk -> linked (edge_next g) (edge_to g) (pred_head blk) (preds_of es b);
  gi_count : length (edge_to g) = (2 * length es)%nat
}.

Lemma succs_spec g es b : graph_inv g es -> (b < block_count g)%nat -> succs g (Z.of_nat b) = Ret (succs_of es b).
Proof.
  intros [Hl Hn Hs Hp _] Hb. destruct (lookup_lt_is_Some_2 (blocks g) b Hb) as [blk E]. unfold succs. rewrite (get_nat _ _ _ E).
  cbn [obind]. pose proof (Hs b blk E) as H. apply linked_chain; [done| |lia]. apply linked_head in H. lia.
Qed.

Lemma preds_spec g es b : graph_inv g es -> (b < block_count g)%nat -> preds g (Z.of_nat b) = Ret (preds_of es b).
Proof.
  intros [Hl Hn Hs Hp _] Hb. destruct (lookup_lt_is_Some_2 (blocks g) b Hb) as [blk E]. unfold preds. rewrite (get_nat _ _ _ E).
  cbn [obind]. pose proof (Hp b blk E) as H. apply linked_chain; [done| |lia]. apply linked_head in H. lia.
Qed.

Lemma elem_of_succs es b c : c ∈ succs_of es b <-> exists t, c = Z.of_nat t /\ (b, t) ∈ es.
Proof.
  unfold succs_of. rewrite list_elem_of_fmap. split.
  - intros ([f t] & -> & H). apply list_elem_of_filter in H as [E H]. simpl in *. subst f. by exists t.
  - intros (t & -> & H). exists (b, t). split; [done|]. by apply list_elem_of_filter.
Qed.

Lemma elem_of_preds es b c : c ∈ preds_of es b <-> exists f, c = Z.of_nat f /\ (f, b) ∈ es.
Proof.
  unfold preds_of. rewrite list_elem_of_fmap. split.
  - intros ([f t] & -> & H). apply list_elem_of_filter in H as [E H]. simpl in *. subst t. by exists f.
  - intros (f & -> & H). exists (f, b). split; [done|]. by apply list_elem_of_filter.
Qed.

(** The blocks of [g'] are those of [g] up to the heads of their lists. *)
Definition same_block (x y : MirCfgBlock) : Prop :=
  start x = start y /\ end_ x = end_ y /\ idom x = idom y /\ rpo x = rpo y /\ loop_depth x = loop_depth y /\ loop_header x = loop_header y.

Definition only_heads (g g' : MirCfg) : Prop :=
  Forall2 same_block (blocks g) (blocks g') /\ block_of g' = block_of g /\ words g' = words g.

#[export] Instance same_block_preorder : PreOrder same_block.
Proof. split; [done|]. unfold same_block. intros x y z Hxy Hyz. destruct_and!. split_and!; congruence. Qed.

Lemma only_heads_refl g : only_heads g g.
Proof. by split; [reflexivity|]. Qed.

Lemma only_heads_trans a b c : only_heads a b -> only_heads b c -> only_heads a c.
Proof.
  intros (H1 & H2 & H3) (K1 & K2 & K3). split; [by etrans|split; congruence].
Qed.

Lemma only_heads_edges nx to cap g : only_heads g (with_edges nx to cap g).
Proof. apply (only_heads_refl g). Qed.

Lemma only_heads_insert g b x y : blocks g !! b = Some x -> same_block x y -> only_heads g (with_blocks (<[b := y]> (blocks g)) g).
Proof.
  intros Hx Hs. split; [|done]. cbn [with_blocks blocks]. rewrite <- (list_insert_id (blocks g) b x Hx) at 1.
  by apply Forall2_insert.
Qed.

Lemma blocks_ok_heads fn g g' : only_heads g g' -> blocks_ok fn g -> blocks_ok fn g'.
Proof.
  intros (Hf & Hb & _) [H1 H2 H3 H4]. assert (block_count g' = block_count g) as Ec by (unfold block_count; symmetry; by eapply Forall2_length).
  split; [congruence| |by rewrite Ec|by rewrite Ec]. intros b blk E.
  destruct (Forall2_lookup_r _ _ _ _ _ Hf E) as (x & Ex & Hs1 & Hs2 & _). destruct (H2 b x Ex) as (K1 & K2 & K3).
  unfold spans. rewrite <- Hs1, <- Hs2. done.
Qed.

Lemma edge_add_spec g head to h : exists ok g' head' h', mir_cfg_edge_add g head to h = (ok, g', head', h') /\
  heap_grants h' = heap_grants h /\ ((forall n, heap_grants h n = true) -> ok = true) /\
  (ok = true -> head' = Z.of_nat (length (edge_to g)) /\ exists cap, g' = with_edges (edge_next g ++ [head]) (edge_to g ++ [to]) cap g).
Proof.
  unfold mir_cfg_edge_add, alloc. destruct (length (edge_to g) =? edge_capacity g)%nat.
  - destruct (heap_grants h (heap_calls h)) eqn:E1; cbn [negb heap_grants heap_calls].
    2:{ eexists false, _, _, _. split; [done|]. split; [done|]. split; [intros H; by rewrite H in E1|done]. }
    destruct (heap_grants h (S (heap_calls h))) eqn:E2; cbn [negb].
    2:{ eexists false, _, _, _. split; [done|]. split; [done|]. split; [intros H; by rewrite H in E2|done]. }
    eexists true, _, _, _. split; [done|]. split; [done|]. split; [done|]. intros _. split; [done|]. by eexists.
  - eexists true, _, _, _. split; [done|]. split; [done|]. split; [done|]. intros _. split; [done|]. by eexists.
Qed.

(** How a step that may run out of memory ends: it returns, it succeeds when
    memory is granted and [able] holds, and then [post] holds. *)
Definition ends (m : outcome (bool * MirCfg * heap)) (h : heap) (able : Prop) (post : MirCfg -> Prop) : Prop :=
  exists ok g h', m = Ret (ok, g, h') /\ heap_grants h' = heap_grants h /\
    (able -> (forall n, heap_grants h n = true) -> ok = true) /\ (ok = true -> post g).

Lemma ends_bind m (k : bool * MirCfg * heap -> outcome (bool * MirCfg * heap)) h (able able' : Prop) post post' :
  ends m h able post -> (able' -> able) ->
  (forall g h', post g -> heap_grants h' = heap_grants h -> ends (k (true, g, h')) h' able' post') ->
  (forall g h', heap_grants h' = heap_grants h -> exists g2, k (false, g, h') = Ret (false, g2, h')) ->
  ends (obind m k) h able' post'.
Proof.
  intros (ok & g & h1 & -> & Hh & Hok & Hpost) Hab Hk Hf. cbn [obind]. destruct ok.
  - destruct (Hk g h1 (Hpost eq_refl) Hh) as (ok2 & g2 & h2 & -> & Hh2 & Hok2 & Hpost2).
    exists ok2, g2, h2. split; [done|]. split; [congruence|]. split; [|done]. intros Ha Hg. apply Hok2; [done|]. by rewrite Hh.
  - destruct (Hf g h1 Hh) as (g2 & ->). exists false, g2, h1. split; [done|]. split; [done|]. split; [|done].
    intros Ha Hg. apply Hok; [by apply Hab|done].
Qed.

Lemma ends_ret g h able post : (able -> post g) -> able -> ends (Ret (true, g, h)) h able post.
Proof. intros H Ha. exists true, g, h. split; [done|]. split; [done|]. split; [done|]. intros _. by apply H. Qed.

Lemma succs_of_cons f t es b : succs_of ((f, t) :: es) b = if decide (f = b) then Z.of_nat t :: succs_of es b else succs_of es b.
Proof. unfold succs_of. rewrite filter_cons. simpl. by destruct (decide (f = b)). Qed.

Lemma preds_of_cons f t es b : preds_of ((f, t) :: es) b = if decide (t = b) then Z.of_nat f :: preds_of es b else preds_of es b.
Proof. unfold preds_of. rewrite filter_cons. simpl. by destruct (decide (t = b)). Qed.

Lemma link_spec g es (from : nat) i (to : nat) h : graph_inv g es -> (from < block_count g)%nat ->
  block_of g !! i = Some (Z.of_nat to) -> (to < block_count g)%nat ->
  ends (mir_cfg_link g (Z.of_nat from) (Z.of_nat i) h) h True (fun g' => graph_inv g' ((from, to) :: es) /\ only_heads g g').
Proof.
  intros Hg Hf Hi Ht. unfold mir_cfg_link. rewrite (proj2 (Z.ltb_ge _ 0)) by lia. rewrite (get_nat _ _ _ Hi). cbn [obind].
  destruct (lookup_lt_is_Some_2 (blocks g) from Hf) as [x Hx]. rewrite (get_nat _ _ _ Hx). cbn [obind].
  destruct (edge_add_spec g (succ_head x) (Z.of_nat to) h) as (ok & g1 & hd1 & h1 & -> & Hh1 & Hok1 & H1).
  destruct ok; cbn [negb]; [|exists false, g1, h1; split; [done|]; split; [done|]; split; [intros _; apply Hok1|done]].
  destruct (H1 eq_refl) as [-> [cap1 ->]]. clear H1 Hok1. cbn [with_edges blocks].
  rewrite put_nat by done. cbn [obind]. set (x' := set_succ (Z.of_nat (length (edge_to g))) x).
  set (g1 := with_blocks _ _). destruct (lookup_lt_is_Some_2 (blocks g1) to) as [y Hy].
  { cbn. rewrite length_insert. exact Ht. }
  rewrite (get_nat _ _ _ Hy). cbn [obind].
  destruct (edge_add_spec g1 (pred_head y) (Z.of_nat from) h1) as (ok & g2 & hd2 & h2 & -> & Hh2 & Hok2 & H2).
  destruct ok; cbn [negb]; [|exists false, g2, h2; split; [done|]; split; [congruence|]; split; [intros _ Hg'; apply Hok2; by rewrite Hh1|done]].
  destruct (H2 eq_refl) as [-> [cap2 ->]]. clear H2 Hok2. cbn [with_edges blocks edge_to edge_next g1 with_blocks].
  rewrite put_nat by (rewrite length_insert; exact Ht). cbn [obind].
  set (m := length (edge_to g)). set (y' := set_pred _ y). cbn [with_blocks blocks block_of edge_next edge_to edge_capacity rpo_order order words use def live_in live_out defd_in defd_out insn_depth].
  eexists true, _, _. split; [done|]. split; [congruence|]. split; [done|]. intros _.
  destruct Hg as [Gl Gn Gs Gp Gc]. cbn [g1 with_blocks with_edges edge_to edge_next blocks] in y', Hy.
  assert (length (edge_to g ++ [Z.of_nat to]) = S m) as Em by (rewrite length_app; simpl; lia).
  set (nx := edge_next g ++ [succ_head x]). set (tt := edge_to g ++ [Z.of_nat to]).
  assert (forall e l, linked (edge_next g) (edge_to g) e l -> linked (nx ++ [pred_head y]) (tt ++ [Z.of_nat from]) e l) as Hkeep.
  { intros e l Hl. by do 2 apply linked_app. }
  assert (y = x' /\ to = from \/ blocks g !! to = Some y /\ to <> from) as Hcase.
  { destruct (decide (to = from)) as [->|Hne].
    - rewrite list_lookup_insert_eq in Hy by done. injection Hy as <-. by left.
    - rewrite list_lookup_insert_ne in Hy by done. by right. }
  assert (linked (nx ++ [pred_head y]) (tt ++ [Z.of_nat from]) (Z.of_nat m) (Z.of_nat to :: succs_of es from)) as Hls.
  { apply (linked_cons _ _ _ _ (succ_head x)); [lia| | | |by apply Hkeep, Gs].
    - apply get_app. unfold tt. apply get_nat. by rewrite lookup_app_r, Nat.sub_diag by done.
    - apply get_app. unfold nx. apply get_nat. rewrite lookup_app_r by (fold m in Gl; lia). by rewrite Gl, Nat.sub_diag.
    - pose proof (linked_head _ _ _ _ (Gs from x Hx)). fold m in H. lia. }
  assert (linked (edge_next g) (edge_to g) (pred_head y) (preds_of es to)) as Hpy.
  { destruct Hcase as [[-> ->]|[Hy' _]]; [by apply (Gp from x)|by apply Gp]. }
  assert (linked (nx ++ [pred_head y]) (tt ++ [Z.of_nat from]) (Z.of_nat (S m)) (Z.of_nat from :: preds_of es to)) as Hlp.
  { apply (linked_cons _ _ _ _ (pred_head y)); [lia| | | |by apply Hkeep].
    - apply get_nat. rewrite lookup_app_r by (unfold tt; lia). unfold tt. by rewrite Em, Nat.sub_diag.
    - apply get_nat. assert (length nx = S m) as En by (unfold nx; rewrite length_app, Gl; simpl; lia).
      by rewrite lookup_app_r, En, Nat.sub_diag by (rewrite En; lia).
    - pose proof (linked_head _ _ _ _ Hpy) as H. fold m in H. lia. }
  split.
  - split; unfold g1; cbn [with_blocks with_edges blocks edge_next edge_to].
    + unfold nx, tt. rewrite !length_app. simpl. lia.
    + unfold block_count. cbn [with_blocks with_edges blocks]. rewrite !length_insert. intros a b [[= -> ->]|Hab]%elem_of_cons; [done|by apply Gn].
    + intros b blk Hb. rewrite succs_of_cons. destruct (decide (b = to)) as [->|Hbt].
      * rewrite list_lookup_insert_eq in Hb by (by rewrite length_insert). injection Hb as <-. cbn [set_pred succ_head].
        destruct Hcase as [[-> ->]|[Hy' Hne]].
        -- by rewrite decide_True.
        -- rewrite decide_False by congruence. by apply Hkeep, (Gs to y).
      * rewrite list_lookup_insert_ne in Hb by done. destruct (decide (from = b)) as [->|Hbf].
        -- rewrite list_lookup_insert_eq in Hb by done. injection Hb as <-. exact Hls.
        -- rewrite list_lookup_insert_ne in Hb by done. by apply Hkeep, Gs.
    + intros b blk Hb. rewrite preds_of_cons. destruct (decide (to = b)) as [->|Hbt].
      * rewrite list_lookup_insert_eq in Hb by (by rewrite length_insert). injection Hb as <-. unfold y'. cbn [set_pred pred_head]. rewrite Em. exact Hlp.
      * rewrite list_lookup_insert_ne in Hb by done. destruct (decide (from = b)) as [->|Hbf].
        -- rewrite list_lookup_insert_eq in Hb by done. injection Hb as <-. by apply Hkeep, (Gp b x).
        -- rewrite list_lookup_insert_ne in Hb by done. by apply Hkeep, Gp.
    + unfold tt. rewrite !length_app. simpl. lia.
  - split; [|done]. cbn. rewrite <- (list_insert_id (blocks g) from x Hx) at 1.
    assert (Forall2 same_block (<[from := x]> (blocks g)) (<[from := x']> (blocks g))) as H1 by (by apply Forall2_insert).
    etrans; [exact H1|]. rewrite <- (list_insert_id _ to y Hy) at 1. by apply Forall2_insert.
Qed.

(** * Control flow *)

(** Instruction [j] may run after instruction [i]. *)
Definition insn_flow (fn : MirFunction) (i j : nat) : Prop :=
  exists x labels fall, insns fn !! i = Some x /\ branch_targets x = Ret (Some (labels, fall)) /\
    ((exists name, Some name ∈ labels /\ label_at (insns fn) name = Some j) \/
     (fall = true /\ j = S i /\ (j < insn_count fn)%nat)).

(** No instruction reads something else as a jump table. *)
Definition tables_ok (fn : MirFunction) : Prop :=
  forall i x, insns fn !! i = Some x -> op x = MIR_JMP_TABLE -> aux x = AuxNull \/ exists names, aux x = AuxTable names.

(** Every label an instruction names is there, and every jump table. *)
Definition resolved (fn : MirFunction) : Prop :=
  forall i x, insns fn !! i = Some x -> exists labels fall, branch_targets x = Ret (Some (labels, fall)) /\
    forall l, l ∈ labels -> exists name j, l = Some name /\ label_at (insns fn) name = Some j.

Lemma branch_targets_total fn i x : tables_ok fn -> insns fn !! i = Some x -> exists t, branch_targets x = Ret t.
Proof.
  intros Ht Hx. unfold branch_targets. destruct (op x) eqn:E; eauto. destruct (Ht i x Hx E) as [-> |[names ->]]; eauto.
Qed.

Lemma label_at_lt ins name j : label_at ins name = Some j -> (j < length ins)%nat.
Proof. intros ((x & Hx & _) & _)%label_at_Some. by apply lookup_lt_Some in Hx. Qed.

(** The block of an instruction, and the instructions the labels stand for. *)
Definition block_at (ins : list MirInst) (j : nat) : nat := Z.to_nat (default 0 (numbered ins !! j)).
Definition label_targets (ins : list MirInst) (labels : list (option string)) : list nat :=
  omap (fun l => l ≫= label_at ins) labels.

Lemma block_at_eq ins j t : numbered ins !! j = Some (Z.of_nat t) -> block_at ins j = t.
Proof. intros E. unfold block_at. rewrite E. apply Nat2Z.id. Qed.

(** The places control may pass to from instruction [i], each as often as the
    instruction names it: its labels, then the next instruction. *)
Definition jumps_from (fn : MirFunction) (i : nat) : list nat :=
  match insns fn !! i with
  | None => []
  | Some x =>
      match branch_targets x with
      | Ret (Some (labels, fall)) =>
          label_targets (insns fn) labels ++ (if fall && (S i <? insn_count fn)%nat then [S i] else [])
      | _ => []
      end
  end.

(** The edges out of a block, as its last instruction has them, and those of
    the whole graph. *)
Definition block_edges (fn : MirFunction) (g : MirCfg) (b : nat) : list (nat * nat) :=
  match blocks g !! b with
  | None => []
  | Some blk => (fun j => (b, block_at (insns fn) j)) <$> jumps_from fn (Z.to_nat (end_ blk - 1))
  end.

Definition flow_edges (fn : MirFunction) (g : MirCfg) : list (nat * nat) :=
  mjoin (block_edges fn g <$> seq 0 (block_count g)).

(** Linking [b] to the blocks of the labels. *)
Lemma link_labels_spec fn slots (b : nat) labels : map_ok fn slots ->
  forall g es h, blocks_ok fn g -> graph_inv g es -> (b < block_count g)%nat ->
  ends (link_labels fn slots (Z.of_nat b) labels g h) h
    (forall l, l ∈ labels -> exists name j, l = Some name /\ label_at (insns fn) name = Some j)
    (fun g' => only_heads g g' /\
       (forall l, l ∈ labels -> exists name j, l = Some name /\ label_at (insns fn) name = Some j) /\
       exists es', graph_inv g' es' /\
       es' ≡ₚ ((fun j => (b, block_at (insns fn) j)) <$> label_targets (insns fn) labels) ++ es /\
       forall f t, (f, t) ∈ es' <-> (f, t) ∈ es \/ (f = b /\ exists name j, Some name ∈ labels /\
         label_at (insns fn) name = Some j /\ numbered (insns fn) !! j = Some (Z.of_nat t))).
Proof.
  intros Hmap. induction labels as [|l labels IH]; intros g es h Hok Hg Hb; cbn [link_labels].
  { exists true, g, h. split; [done|]. split; [done|]. split; [done|]. intros _. split; [apply only_heads_refl|].
    split; [intros l Hl; by apply not_elem_of_nil in Hl|]. exists es. split; [done|]. split; [done|]. intros f t. split; [by left|].
    intros [H|(_ & name & j & H & _)]; [done|by apply not_elem_of_nil in H]. }
  rewrite Hmap. cbn [obind]. destruct (l ≫= label_at (insns fn)) as [j|] eqn:El.
  - destruct l as [name|]; [|done]. cbn in El. pose proof (label_at_lt _ _ _ El) as Hj.
    destruct (numbered_is_Some fn g Hok j Hj) as (t & blkt & Ht & Hblk).
    eapply ends_bind.
    + apply (link_spec g es b j t h Hg Hb); [by rewrite (bo_of _ _ Hok)|by apply lookup_lt_Some in Hblk].
    + done.
    + intros g1 h1 [Hg1 Hh1] Hgr. assert (block_count g1 = block_count g) as Ec.
      { unfold block_count. symmetry. eapply Forall2_length. apply Hh1. }
      destruct (IH g1 _ h1 (blocks_ok_heads _ _ _ Hh1 Hok) Hg1) as (ok & g2 & h2 & E & Hgr2 & Ha & Hp); [by rewrite Ec|].
      exists ok, g2, h2. split; [done|]. split; [done|]. split.
      * intros Hl Hall. apply Ha; [|done]. intros l Hin. apply Hl. by right.
      * intros ->. destruct (Hp eq_refl) as (Hh2 & Hl2 & es' & Hg2 & Hpe & Hes). split; [by eapply only_heads_trans|]. split.
        { intros l [->|Hin]%elem_of_cons; [by exists name, j|by apply Hl2]. }
        exists es'. split; [done|]. split.
        { rewrite Hpe. unfold label_targets. cbn [omap list_omap]. cbn [mbind option_bind]. rewrite El. cbn [fmap list_fmap app].
          rewrite (block_at_eq _ _ _ Ht). by rewrite <- Permutation_middle. }
        intros f t'. rewrite Hes, elem_of_cons. split.
        -- intros [[[= -> ->]|H]|(-> & n' & j' & Hn & Hj' & Ht')]; [right|by left|right].
           ++ split; [done|]. exists name, j. split; [left|done].
           ++ split; [done|]. exists n', j'. split; [by right|done].
        -- intros [H|(-> & n' & j' & [[= ->]|Hn]%elem_of_cons & Hj' & Ht')]; [left; by right| |right].
           ++ left. left. f_equal. assert (j' = j) as -> by congruence. rewrite Ht in Ht'. injection Ht'. lia.
           ++ split; [done|]. by exists n', j'.
    + intros g1 h1 _. by exists g1.
  - unfold mir_cfg_link. rewrite (proj2 (Z.ltb_lt (-1) 0)) by lia. cbn [obind]. exists false, g, h. split; [done|]. split; [done|].
    split; [|done]. intros Hl. destruct (Hl l) as (name & j & -> & Hj); [left|]. cbn in El. congruence.
Qed.

(** The flow out of a block is that out of its last instruction. *)
Definition block_flow (fn : MirFunction) (g : MirCfg) (f t : nat) : Prop :=
  exists blk i j, blocks g !! f = Some blk /\ Z.of_nat i = end_ blk - 1 /\ insn_flow fn i j /\
    numbered (insns fn) !! j = Some (Z.of_nat t).

Definition able_at (fn : MirFunction) (b : nat) (g : MirCfg) : Prop :=
  forall blk x, blocks g !! b = Some blk -> insns fn !! Z.to_nat (end_ blk - 1) = Some x ->
    exists labels fall, branch_targets x = Ret (Some (labels, fall)) /\
      forall l, l ∈ labels -> exists name j, l = Some name /\ label_at (insns fn) name = Some j.

Lemma link_block_spec fn slots g es b h : map_ok fn slots -> tables_ok fn -> blocks_ok fn g -> graph_inv g es ->
  (b < block_count g)%nat ->
  ends (mir_cfg_link_block fn slots b g h) h (able_at fn b g)
    (fun g' => only_heads g g' /\ able_at fn b g /\ exists es', graph_inv g' es' /\ es' ≡ₚ block_edges fn g b ++ es /\
       forall f t, (f, t) ∈ es' <-> (f, t) ∈ es \/ (f = b /\ block_flow fn g f t)).
Proof.
  intros Hmap Htab Hok Hg Hb. unfold mir_cfg_link_block. destruct (lookup_lt_is_Some_2 (blocks g) b Hb) as [blk Hblk].
  rewrite (get_nat _ _ _ Hblk). cbn [obind]. pose proof (block_nonempty _ _ Hok _ _ Hblk) as [Hne Hend].
  set (i := Z.to_nat (end_ blk - 1)). destruct (lookup_lt_is_Some_2 (insns fn) i) as [x Hx]; [unfold insn_count in Hend; lia|].
  replace (end_ blk - 1) with (Z.of_nat i) by lia. rewrite (get_nat _ _ _ Hx). cbn [obind].
  destruct (branch_targets_total fn i x Htab Hx) as [[[labels fall]|] Et]; rewrite Et; cbn [obind].
  2:{ exists false, g, h. split; [done|]. split; [done|]. split; [|done]. intros Ha.
      destruct (Ha blk x Hblk Hx) as (? & ? & E & _). congruence. }
  assert (forall t, block_flow fn g b t <->
    (exists name j, Some name ∈ labels /\ label_at (insns fn) name = Some j /\ numbered (insns fn) !! j = Some (Z.of_nat t)) \/
    (fall = true /\ (S i < insn_count fn)%nat /\ numbered (insns fn) !! S i = Some (Z.of_nat t))) as Hflow.
  { intros t. unfold block_flow, insn_flow. split.
    - intros (blk' & i' & j & Hblk' & Hi' & (x' & ls & fl & Hx' & Et' & Hj) & Hn). assert (blk' = blk) as -> by congruence.
      assert (i' = i) as -> by lia. assert (x' = x) as -> by congruence. rewrite Et in Et'. injection Et' as <- <-.
      destruct Hj as [(name & Hin & Hl)|(Hf & -> & Hlt)]; [left; by exists name, j|by right].
    - intros [(name & j & Hin & Hl & Hn)|(Hf & Hlt & Hn)].
      + exists blk, i, j. split; [done|]. split; [lia|]. split; [|done]. exists x, labels, fall. split; [done|]. split; [done|].
        left. by exists name.
      + exists blk, i, (S i). split; [done|]. split; [lia|]. split; [|done]. exists x, labels, fall. split; [done|]. split; [done|]. by right. }
  assert (able_at fn b g <-> forall l, l ∈ labels -> exists name j, l = Some name /\ label_at (insns fn) name = Some j) as Hable.
  { unfold able_at. split.
    - intros Ha. destruct (Ha blk x Hblk Hx) as (ls & fl & E & Hl). rewrite Et in E. by injection E as <- <-.
    - intros Hl blk' x' Hblk' Hx'. assert (blk' = blk) as -> by congruence. fold i in Hx'. assert (x' = x) as -> by congruence.
      by exists labels, fall. }
  assert (forall next, next = (if fall && (S i <? insn_count fn)%nat then [S i] else []) ->
    block_edges fn g b = ((fun j => (b, block_at (insns fn) j)) <$> label_targets (insns fn) labels) ++
                         ((fun j => (b, block_at (insns fn) j)) <$> next)) as Hedges.
  { intros next ->. unfold block_edges, jumps_from. rewrite Hblk. fold i. by rewrite Hx, Et, fmap_app. }
  eapply ends_bind; [by apply (link_labels_spec fn slots b labels Hmap g es h)|by apply Hable| |intros g1 h1 _; by exists g1].
  intros g1 h1 (Hh1 & Hl1 & es1 & Hg1 & Hpe1 & Hes1) Hgr. cbn [negb].
  assert (block_count g1 = block_count g) as Ec by (unfold block_count; symmetry; eapply Forall2_length; apply Hh1).
  pose proof (blocks_ok_heads _ _ _ Hh1 Hok) as Hok1. destruct (Forall2_lookup_l _ _ _ _ _ (proj1 Hh1) Hblk) as (blk1 & Hblk1 & Hsb).
  destruct (fall && (b + 1 <? block_count g1)%nat) eqn:Ef.
  - apply andb_true_iff in Ef as [-> Ef%Nat.ltb_lt]. replace (b + 1)%nat with (S b) in * by lia.
    destruct (lookup_lt_is_Some_2 (blocks g1) (S b)) as [nb Hnb]; [done|]. rewrite (get_nat _ _ _ Hnb). cbn [obind].
    destruct (block_before _ _ Hok1 _ _ Hnb) as (blk1' & Hblk1' & Hst). assert (blk1' = blk1) as -> by congruence.
    pose proof (block_nonempty _ _ Hok1 _ _ Hnb) as Hnn.
    assert (start nb = Z.of_nat (S i)) as Esi. { destruct Hsb as (_ & He & _). lia. }
    assert (numbered (insns fn) !! S i = Some (Z.of_nat (S b))) as Hsi.
    { apply (block_member _ _ Hok1 (S b) nb); [done|lia|lia]. }
    rewrite Esi. destruct (link_spec g1 es1 b (S i) (S b) h1 Hg1) as (ok & g2 & h2 & E & Hgr2 & Ha2 & Hp2);
      [by rewrite Ec|by rewrite (bo_of _ _ Hok1)|done|].
    exists ok, g2, h2. split; [done|]. split; [done|]. split; [intros _; by apply Ha2|]. intros ->.
    destruct (Hp2 eq_refl) as [Hg2 Hh2]. split; [by eapply only_heads_trans|]. split; [by apply Hable|].
    exists ((b, S b) :: es1). split; [done|]. split.
    { rewrite (Hedges [S i]); [|by rewrite (proj2 (Nat.ltb_lt _ _)) by lia]. cbn [fmap list_fmap]. rewrite Hpe1.
      rewrite (block_at_eq _ _ _ Hsi), <- app_assoc. cbn [app]. by rewrite <- Permutation_middle. }
    intros f t. rewrite elem_of_cons, Hes1. split.
    + intros [[= -> ->]|[H|(-> & H)]]; [right|by left|right; split; [done|]; apply Hflow; by left].
      split; [done|]. apply Hflow. right. split; [done|]. split; [lia|done].
    + intros [H|(-> & [H|(_ & _ & H)]%Hflow)]; [right; by left|right; by right|left].
      rewrite Hsi in H. injection H as H. f_equal. lia.
  - exists true, g1, h1. split; [done|]. split; [done|]. split; [done|]. intros _. split; [done|]. split; [by apply Hable|].
    assert (fall = true -> ~ (S i < insn_count fn)%nat) as Hnf.
    { intros -> Hlt. cbn [andb] in Ef. apply Nat.ltb_ge in Ef. destruct (block_after _ _ Hok b blk Hblk) as (nb & Hnb & _); [lia|].
      apply lookup_lt_Some in Hnb. unfold block_count in *. lia. }
    exists es1. split; [done|]. split.
    { rewrite (Hedges []); [by rewrite app_nil_r|]. destruct fall; [|done]. by rewrite (proj2 (Nat.ltb_ge _ _)) by (specialize (Hnf eq_refl); lia). }
    intros f t. rewrite Hes1. split.
    + intros [H|(-> & H)]; [by left|]. right. split; [done|]. apply Hflow. by left.
    + intros [H|(-> & [H|(-> & Hlt & H)]%Hflow)]; [by left|by right|]. by destruct (Hnf eq_refl).
Qed.

Lemma block_flow_heads fn g g' f t : only_heads g g' -> block_flow fn g f t <-> block_flow fn g' f t.
Proof.
  intros (Hf & _). unfold block_flow. split; intros (blk & i & j & Hb & Hi & Hfl & Hn).
  - destruct (Forall2_lookup_l _ _ _ _ _ Hf Hb) as (y & Hy & _ & He & _). exists y, i, j. rewrite <- He. done.
  - destruct (Forall2_lookup_r _ _ _ _ _ Hf Hb) as (y & Hy & _ & He & _). exists y, i, j. rewrite He. done.
Qed.

Lemma block_edges_ends fn g g' b : Forall2 (fun x y => end_ x = end_ y) (blocks g) (blocks g') -> block_edges fn g b = block_edges fn g' b.
Proof.
  intros Hf. unfold block_edges. destruct (blocks g !! b) as [x|] eqn:E.
  - destruct (Forall2_lookup_l _ _ _ _ _ Hf E) as (y & -> & Hxy). by rewrite Hxy.
  - by rewrite (proj2 (lookup_ge_None _ _)) by (rewrite <- (Forall2_length _ _ _ Hf); by apply lookup_ge_None).
Qed.

Lemma heads_ends g g' : only_heads g g' -> Forall2 (fun x y => end_ x = end_ y) (blocks g) (blocks g').
Proof. intros (Hf & _). eapply Forall2_impl; [exact Hf|]. by intros x y (_ & He & _). Qed.

Lemma flow_edges_ends fn g g' : Forall2 (fun x y => end_ x = end_ y) (blocks g) (blocks g') -> flow_edges fn g = flow_edges fn g'.
Proof.
  intros Hf. unfold flow_edges, block_count. rewrite (Forall2_length _ _ _ Hf). f_equal. apply list_fmap_ext.
  intros _ b _. by apply block_edges_ends.
Qed.

Lemma able_at_heads fn b g g' : only_heads g g' -> able_at fn b g <-> able_at fn b g'.
Proof.
  intros (Hf & _). unfold able_at. split; intros H blk x Hb Hx.
  - destruct (Forall2_lookup_r _ _ _ _ _ Hf Hb) as (y & Hy & _ & He & _). rewrite <- He in Hx. by apply (H y x).
  - destruct (Forall2_lookup_l _ _ _ _ _ Hf Hb) as (y & Hy & _ & He & _). rewrite He in Hx. by apply (H y x).
Qed.

Lemma only_heads_count g g' : only_heads g g' -> block_count g' = block_count g.
Proof. intros (Hf & _). unfold block_count. symmetry. by eapply Forall2_length. Qed.

Lemma link_blocks_spec fn slots : map_ok fn slots -> tables_ok fn ->
  forall n b g es h, blocks_ok fn g -> graph_inv g es -> (n + b = block_count g)%nat ->
  ends (link_blocks fn slots n b g h) h (forall c, (b <= c)%nat -> able_at fn c g)
    (fun g' => only_heads g g' /\ (forall c, (b <= c)%nat -> able_at fn c g) /\
       exists es', graph_inv g' es' /\ es' ≡ₚ mjoin (block_edges fn g <$> seq b n) ++ es /\
       forall f t, (f, t) ∈ es' <-> (f, t) ∈ es \/ ((b <= f)%nat /\ block_flow fn g f t)).
Proof.
  intros Hmap Htab. induction n as [|n IH]; intros b g es h Hok Hg Hn; cbn [link_blocks].
  - exists true, g, h. split; [done|]. split; [done|]. split; [done|]. intros _. split; [apply only_heads_refl|]. split.
    + intros c Hc blk x Hb. apply lookup_lt_Some in Hb. unfold block_count in Hn. lia.
    + exists es. split; [done|]. split; [done|]. intros f t. split; [by left|]. intros [H|(Hf & blk & i & j & Hb & _)]; [done|].
      apply lookup_lt_Some in Hb. unfold block_count in Hn. lia.
  - eapply ends_bind; [apply (link_block_spec fn slots g es b h); [done..|lia]|intros Ha; by apply Ha| |intros g1 h1 _; by exists g1].
    intros g1 h1 (Hh1 & Ha1 & es1 & Hg1 & Hpe1 & Hes1) Hgr.
    destruct (IH (S b) g1 es1 h1 (blocks_ok_heads _ _ _ Hh1 Hok) Hg1) as (ok & g2 & h2 & E & Hgr2 & Ha2 & Hp2).
    { rewrite (only_heads_count _ _ Hh1). lia. }
    exists ok, g2, h2. split; [done|]. split; [done|]. split.
    + intros Ha. apply Ha2. intros c Hc. apply (able_at_heads _ _ _ _ Hh1), Ha. lia.
    + intros ->. destruct (Hp2 eq_refl) as (Hh2 & Hab & es2 & Hg2 & Hpe2 & Hes2). split; [by eapply only_heads_trans|]. split.
      * intros c Hc. destruct (decide (c = b)) as [->|Hne]; [done|]. apply (able_at_heads _ _ _ _ Hh1), Hab. lia.
      * exists es2. split; [done|]. split.
        { rewrite Hpe2, Hpe1, app_assoc. apply Permutation_app_tail. cbn [seq fmap list_fmap mjoin list_join].
          rewrite (Permutation_app_comm (block_edges fn g b)). apply Permutation_app_tail.
          erewrite list_fmap_ext; [done|]. intros _ c _. symmetry. apply block_edges_ends. by apply heads_ends. }
        intros f t. rewrite Hes2, Hes1, <- (block_flow_heads _ _ _ _ _ Hh1). split.
        -- intros [[H|(-> & H)]|(Hf & H)]; [by left|right; split; [lia|done]..].
        -- intros [H|(Hf & H)]; [by left; left|]. destruct (decide (f = b)) as [->|]; [left; right; done|right; split; [lia|done]].
Qed.

Lemma not_ending_targets x : mir_cfg_ends_block x = false -> branch_targets x = Ret (Some ([], true)).
Proof. unfold mir_cfg_ends_block, branch_targets. by destruct (op x). Qed.

(** An instruction that is not the last of its block does not end blocks. *)
Lemma inner_instruction fn g b blk i x : blocks_ok fn g -> blocks g !! b = Some blk ->
  start blk <= Z.of_nat i -> Z.of_nat (S i) < end_ blk -> insns fn !! i = Some x -> mir_cfg_ends_block x = false.
Proof.
  intros Hok Hb Hs He Hx. pose proof (block_nonempty _ _ Hok _ _ Hb) as [_ Hend].
  assert (numbered (insns fn) !! S i = Some (Z.of_nat b)) as Hn by (apply (block_member _ _ Hok b blk); [done|lia|lia]).
  pose proof (leader_start _ _ Hok b blk (S i) Hb Hn) as Hl. destruct (leader (insns fn) (S i)) eqn:El; [assert (Z.of_nat (S i) = start blk) by (by apply Hl); lia|].
  unfold leader in El. destruct (lookup_lt_is_Some_2 (insns fn) (S i)) as [y Hy]; [unfold insn_count in Hend; lia|].
  rewrite Hy, Hx in El. by apply orb_false_iff in El as [_ El].
Qed.

Lemma able_resolved fn g : blocks_ok fn g -> (forall b, able_at fn b g) <-> resolved fn.
Proof.
  intros Hok. split.
  - intros Ha i x Hx. assert (i < insn_count fn)%nat as Hi by (by apply lookup_lt_Some in Hx).
    destruct (numbered_is_Some fn g Hok i Hi) as (b & blk & Hn & Hb). apply (block_member _ _ Hok b blk) in Hn; [|done..].
    destruct (decide (Z.of_nat (S i) = end_ blk)) as [He|He].
    + apply (Ha b blk x Hb). replace (Z.to_nat (end_ blk - 1)) with i by lia. done.
    + exists [], true. split; [|intros l Hl; by apply not_elem_of_nil in Hl]. apply not_ending_targets.
      apply (inner_instruction fn g b blk i x); [done..|lia|lia|done].
  - intros Hr b blk x Hb Hx. by apply (Hr _ x Hx).
Qed.

(** The graph of [fn]: its blocks, and the flow between them as edges. *)
Record graph_ok (fn : MirFunction) (g : MirCfg) (es : list (nat * nat)) : Prop := {
  go_blocks : blocks_ok fn g;
  go_graph : graph_inv g es;
  go_edges : es ≡ₚ flow_edges fn g;
  go_flow : forall f t, (f, t) ∈ es <-> block_flow fn g f t
}.

Lemma build_edges_spec fn g h : tables_ok fn -> blocks_ok fn g -> (forall b blk, blocks g !! b = Some blk -> bare blk) ->
  edge_next g = [] -> edge_to g = [] ->
  ends (mir_cfg_build_edges fn g h) h (resolved fn)
    (fun g' => only_heads g g' /\ resolved fn /\ exists es, graph_ok fn g' es).
Proof.
  intros Htab Hok Hbare Hn Ht. unfold mir_cfg_build_edges.
  destruct (label_map_ok fn h) as (slots & h1 & -> & Hg1 & _ & Hm). cbn [obind]. destruct slots as [slots|].
  2:{ exists false, g, h1. split; [done|]. split; [done|]. split; [|done]. intros _ H. by rewrite H in Hm. }
  assert (graph_inv g []) as Hg.
  { split; rewrite ?Hn, ?Ht; [done|intros f t H; by apply not_elem_of_nil in H| | |done].
    - intros b blk Hb. destruct (Hbare b blk Hb) as (-> & _). by constructor.
    - intros b blk Hb. destruct (Hbare b blk Hb) as (_ & -> & _). by constructor. }
  destruct (link_blocks_spec fn slots Hm Htab (block_count g) 0 g [] h1 Hok Hg) as (ok & g2 & h2 & E & Hgr & Ha & Hp); [lia|].
  exists ok, g2, h2. split; [done|]. split; [congruence|]. split.
  - intros Hr Hall. apply Ha; [|by rewrite Hg1]. intros c _. by apply (able_resolved fn g Hok).
  - intros ->. destruct (Hp eq_refl) as (Hh & Hab & es & Hg2 & Hpe & Hes). split; [done|]. split.
    { apply (able_resolved fn g Hok). intros b. apply Hab. lia. }
    exists es. split; [by eapply blocks_ok_heads|done| |].
    { rewrite app_nil_r in Hpe. rewrite Hpe, <- (flow_edges_ends fn g g2); [done|by apply heads_ends]. }
    intros f t. rewrite Hes, (block_flow_heads _ _ _ _ _ Hh). split.
    + intros [H|[_ H]]; [by apply not_elem_of_nil in H|done].
    + intros H. right. split; [lia|done].
Qed.
End CfgGraph.
