(* ===== verification/CfgSets.v ===== *)
(** The bit-vector analyses of the control-flow graph.

    Rows of 64-bit words as sets of register numbers; the round-robin
    iteration common to liveness and definedness, which ends in the least
    solution of its equations; and what the two solutions mean for the
    instructions of the function. *)
From S2P Require Import Prelude Mir Probe MirCfg CfgGraph.
#[local] Open Scope Z_scope.

Module CfgSets.
Import Mir Probe Cfg CfgGraph.

(** * Rows of words as sets *)

Definition row_ok (w : nat) (row : list Z) : Prop := length row = w /\ Forall (in_u 64) row.

(** Is [v] in the set? *)
Definition mem (row : list Z) (v : nat) : bool :=
  match row !! (v / 64)%nat with Some x => Z.testbit x (Z.of_nat (v mod 64)) | None => false end.

Lemma word_index v : Z.shiftr (Z.of_nat v) 6 = Z.of_nat (v / 64).
Proof. rewrite Z.shiftr_div_pow2 by lia. by rewrite Nat2Z.inj_div. Qed.

Lemma bit_index v : Z.land (Z.of_nat v) 63 = Z.of_nat (v mod 64).
Proof. rewrite (land_mask _ 6 63) by lia. by rewrite Nat2Z.inj_mod. Qed.

Lemma row_lookup w row v : row_ok w row -> (v < w * 64)%nat -> exists x, row !! (v / 64)%nat = Some x /\ in_u 64 x.
Proof.
  intros [Hl Hf] Hv. destruct (lookup_lt_is_Some_2 row (v / 64)) as [x Hx].
  { rewrite Hl. apply Nat.Div0.div_lt_upper_bound. lia. }
  exists x. split; [done|]. by eapply Forall_lookup_1.
Qed.

Lemma set_get_spec w row v : row_ok w row -> (v < w * 64)%nat -> mir_cfg_set_get row (Z.of_nat v) = Ret (mem row v).
Proof.
  intros Hr Hv. destruct (row_lookup w row v Hr Hv) as (x & Hx & _). unfold mir_cfg_set_get, mem.
  rewrite word_index, bit_index, (get_nat _ _ _ Hx), Hx. cbn [obind].
  by rewrite <- Z.bit0_odd, Z.shiftr_spec, Z.add_0_l by lia.
Qed.

Lemma bit_mask v : u64 (Z.shiftl 1 (Z.of_nat (v mod 64))) = 2 ^ Z.of_nat (v mod 64).
Proof.
  rewrite Z.shiftl_mul_pow2, Z.mul_1_l by lia. apply wrapu_small. pose proof (Nat.mod_upper_bound v 64 ltac:(lia)).
  split; [lia|]. apply Z.pow_lt_mono_r; lia.
Qed.

Lemma mem_insert row v x w : (v / 64 < length row)%nat -> mem (<[(v / 64)%nat := x]> row) w =
  if decide (w / 64 = v / 64)%nat then Z.testbit x (Z.of_nat (w mod 64)) else mem row w.
Proof.
  intros Hl. unfold mem. destruct (decide (w / 64 = v / 64)%nat) as [->|Hne].
  - by rewrite list_lookup_insert_eq.
  - by rewrite list_lookup_insert_ne by done.
Qed.

Lemma div_mod_eq_iff v w : (w / 64 = v / 64)%nat -> (w mod 64 = v mod 64)%nat <-> w = v.
Proof.
  intros Hd. split; [|by intros ->]. intros Hm. rewrite (Nat.div_mod_eq w 64), (Nat.div_mod_eq v 64). congruence.
Qed.

Lemma in_u_testbit x : 0 <= x -> (forall i, 64 <= i -> Z.testbit x i = false) -> in_u 64 x.
Proof.
  intros H0 Hb. split; [done|]. destruct (Z.lt_ge_cases x (2 ^ 64)) as [|Hge]; [done|exfalso].
  assert (0 < x) by lia. assert (64 <= Z.log2 x) by (apply Z.log2_le_pow2; lia).
  specialize (Hb (Z.log2 x) ltac:(done)). rewrite Z.bit_log2 in Hb by done. done.
Qed.

Lemma testbit_high x i : in_u 64 x -> 64 <= i -> Z.testbit x i = false.
Proof.
  intros [H0 H1] Hi. destruct (Z.eq_dec x 0) as [->|Hn]; [apply Z.bits_0|].
  apply Z.bits_above_log2; [done|]. assert (Z.log2 x < 64) by (apply Z.log2_lt_pow2; lia). lia.
Qed.

Lemma lor_word x y : in_u 64 x -> in_u 64 y -> in_u 64 (Z.lor x y).
Proof. intros [? ?] [? ?]. by apply lor_lt. Qed.

Lemma land_word x y : in_u 64 x -> 0 <= y -> in_u 64 (Z.land x y).
Proof.
  intros Hx Hy. apply in_u_testbit; [apply Z.land_nonneg; left; apply Hx|]. intros i Hi.
  by rewrite Z.land_spec, (testbit_high x i Hx Hi).
Qed.

Lemma set_add_spec w row v : row_ok w row -> (v < w * 64)%nat ->
  exists row', mir_cfg_set_add row (Z.of_nat v) = Ret row' /\ row_ok w row' /\
    forall x, mem row' x = mem row x || bool_decide (x = v).
Proof.
  intros Hr Hv. destruct (row_lookup w row v Hr Hv) as (x & Hx & Hxu). unfold mir_cfg_set_add.
  rewrite word_index, bit_index, (get_nat _ _ _ Hx). cbn [obind]. rewrite bit_mask.
  pose proof (lookup_lt_Some _ _ _ Hx) as Hlt. rewrite put_nat by done. eexists. split; [done|].
  pose proof (Nat.mod_upper_bound v 64 ltac:(lia)) as Hm. split.
  - destruct Hr as [Hl Hf]. split; [by rewrite length_insert|]. apply Forall_insert; [done|]. apply lor_word; [done|].
    split; [lia|]. apply Z.pow_lt_mono_r; lia.
  - intros y. rewrite mem_insert by done. destruct (decide (y / 64 = v / 64)%nat) as [E|E].
    + rewrite Z.lor_spec. unfold mem at 1. rewrite E, Hx. f_equal. rewrite Z.pow2_bits_eqb by lia.
      pose proof (div_mod_eq_iff v y E). destruct (decide (y = v)) as [->|Hne].
      * rewrite bool_decide_eq_true_2 by done. apply Z.eqb_eq. done.
      * rewrite bool_decide_eq_false_2 by done. apply Z.eqb_neq. lia.
    + rewrite bool_decide_eq_false_2 by (intros ->; done). by rewrite orb_false_r.
Qed.

Lemma not_word_bit x i : 0 <= i < 64 -> Z.testbit (u64 (Z.lnot x)) i = negb (Z.testbit x i).
Proof. intros Hi. unfold wrapu. rewrite Z.mod_pow2_bits_low by lia. by rewrite Z.lnot_spec by lia. Qed.

Lemma set_clear_spec w row v : row_ok w row -> (v < w * 64)%nat ->
  exists row', mir_cfg_set_clear row (Z.of_nat v) = Ret row' /\ row_ok w row' /\
    forall x, mem row' x = mem row x && negb (bool_decide (x = v)).
Proof.
  intros Hr Hv. destruct (row_lookup w row v Hr Hv) as (x & Hx & Hxu). unfold mir_cfg_set_clear.
  rewrite word_index, bit_index, (get_nat _ _ _ Hx). cbn [obind]. rewrite bit_mask.
  pose proof (lookup_lt_Some _ _ _ Hx) as Hlt. rewrite put_nat by done. eexists. split; [done|].
  pose proof (Nat.mod_upper_bound v 64 ltac:(lia)) as Hm. split.
  - destruct Hr as [Hl Hf]. split; [by rewrite length_insert|]. apply Forall_insert; [done|]. apply land_word; [done|].
    apply wrapu_bound. lia.
  - intros y. rewrite mem_insert by done. pose proof (Nat.mod_upper_bound y 64 ltac:(lia)) as Hmy.
    destruct (decide (y / 64 = v / 64)%nat) as [E|E].
    + rewrite Z.land_spec, not_word_bit by lia. unfold mem at 1. rewrite E, Hx. do 2 f_equal. rewrite Z.pow2_bits_eqb by lia.
      pose proof (div_mod_eq_iff v y E). destruct (decide (y = v)) as [->|Hne].
      * rewrite bool_decide_eq_true_2 by done. apply Z.eqb_eq. done.
      * rewrite bool_decide_eq_false_2 by done. apply Z.eqb_neq. lia.
    + rewrite bool_decide_eq_false_2 by (intros ->; done). by rewrite andb_true_r.
Qed.

(** Rows are equal when they have the same members. *)
Lemma row_ext w r s : row_ok w r -> row_ok w s -> (forall v, (v < w * 64)%nat -> mem r v = mem s v) -> r = s.
Proof.
  intros Hr Hs H. destruct Hr as [Hlr Hfr], Hs as [Hls Hfs]. apply (list_eq_same_length r s w); [done..|].
  intros i x y Hi Hx Hy. pose proof (Forall_lookup_1 _ _ _ _ Hfr Hx) as Hxu. pose proof (Forall_lookup_1 _ _ _ _ Hfs Hy) as Hyu.
  apply Z.bits_inj'. intros k Hk. destruct (Z.lt_ge_cases k 64) as [Hk64|Hk64].
  - specialize (H (i * 64 + Z.to_nat k)%nat ltac:(nia)). unfold mem in H.
    rewrite Nat.div_add_l, (Nat.div_small (Z.to_nat k)), Nat.add_0_r in H by lia.
    replace ((i * 64 + Z.to_nat k) mod 64)%nat with (Z.to_nat k) in H.
    + rewrite Hx, Hy, Z2Nat.id in H by lia. done.
    + rewrite Nat.add_comm, Nat.Div0.mod_add, Nat.mod_small by lia. done.
  - by rewrite !testbit_high by done.
Qed.

Lemma row_zero w : row_ok w (replicate w 0).
Proof. split; [apply length_replicate|]. apply Forall_replicate. split; lia. Qed.

Lemma mem_zero w v : mem (replicate w 0) v = false.
Proof.
  unfold mem. destruct (replicate w 0 !! (v / 64)%nat) as [x|] eqn:E; [|done].
  apply lookup_replicate in E as [-> _]. apply Z.bits_0.
Qed.

Lemma row_or w r s : row_ok w r -> row_ok w s -> row_ok w (zip_with Z.lor r s) /\
  forall v, mem (zip_with Z.lor r s) v = mem r v || mem s v.
Proof.
  intros [Hlr Hfr] [Hls Hfs]. split.
  - split; [rewrite length_zip_with; lia|]. apply Forall_lookup. intros i x (a & b & -> & Ha & Hb)%lookup_zip_with_Some.
    apply lor_word; [exact (Forall_lookup_1 _ _ _ _ Hfr Ha)|exact (Forall_lookup_1 _ _ _ _ Hfs Hb)].
  - intros v. unfold mem. generalize (v / 64)%nat. intros q. rewrite lookup_zip_with. destruct (r !! q) as [a|] eqn:Ea; simpl.
    + destruct (lookup_lt_is_Some_2 s q) as [b Hb]; [apply lookup_lt_Some in Ea; lia|]. rewrite Hb. simpl. apply Z.lor_spec.
    + destruct (s !! q) as [b|] eqn:Eb; [|done]. apply lookup_lt_Some in Eb. apply lookup_ge_None in Ea. lia.
Qed.

Lemma row_minus w o d : row_ok w o -> row_ok w d -> row_ok w (zip_with (fun o x => Z.land o (u64 (Z.lnot x))) o d) /\
  forall v, mem (zip_with (fun o x => Z.land o (u64 (Z.lnot x))) o d) v = mem o v && negb (mem d v).
Proof.
  intros [Hlr Hfr] [Hls Hfs]. split.
  - split; [rewrite length_zip_with; lia|]. apply Forall_lookup. intros i x (a & b & -> & Ha & Hb)%lookup_zip_with_Some.
    apply land_word; [exact (Forall_lookup_1 _ _ _ _ Hfr Ha)|]. apply wrapu_bound. lia.
  - intros v. pose proof (Nat.mod_upper_bound v 64 ltac:(lia)). unfold mem. generalize (v / 64)%nat. intros q. rewrite lookup_zip_with.
    destruct (o !! q) as [a|] eqn:Ea; simpl; [|done].
    destruct (lookup_lt_is_Some_2 d q) as [b Hb]; [apply lookup_lt_Some in Ea; lia|]. rewrite Hb. simpl.
    by rewrite Z.land_spec, not_word_bit by lia.
Qed.

(** * Round-robin iteration *)

Section flow.
Context (w n : nat).

(** Rows, one per block. *)
Definition rows_ok (rs : list (list Z)) : Prop := length rs = n /\ Forall (row_ok w) rs.

Definition bit (rs : list (list Z)) (b v : nat) : bool := match rs !! b with Some r => mem r v | None => false end.

Lemma rows_lookup rs b : rows_ok rs -> (b < n)%nat -> exists r, rs !! b = Some r /\ row_ok w r.
Proof.
  intros [Hl Hf] Hb. destruct (lookup_lt_is_Some_2 rs b) as [r Hr]; [lia|]. exists r. split; [done|]. exact (Forall_lookup_1 _ _ _ _ Hf Hr).
Qed.

Lemma rows_insert rs b r : rows_ok rs -> row_ok w r -> rows_ok (<[b := r]> rs).
Proof. intros [Hl Hf] Hr. split; [by rewrite length_insert|]. by apply Forall_insert. Qed.

Lemma rows_zero : rows_ok (replicate n (replicate w 0)).
Proof. split; [apply length_replicate|]. apply Forall_replicate, row_zero. Qed.

Lemma bit_zero b v : bit (replicate n (replicate w 0)) b v = false.
Proof. unfold bit. destruct (_ !! b) eqn:E; [|done]. apply lookup_replicate in E as [-> _]. apply mem_zero. Qed.

Lemma bit_insert rs b r c v : rows_ok rs -> (b < n)%nat ->
  bit (<[b := r]> rs) c v = if decide (c = b) then mem r v else bit rs c v.
Proof.
  intros [Hl _] Hb. unfold bit. destruct (decide (c = b)) as [->|Hne].
  - by rewrite list_lookup_insert_eq by lia.
  - by rewrite list_lookup_insert_ne.
Qed.

Definition below (rs rs' : list (list Z)) : Prop := forall b v, bit rs b v = true -> bit rs' b v = true.

Definition row_count (r : list Z) : nat := length (filter (fun v => mem r v = true) (seq 0 (w * 64))).
Definition total (rs : list (list Z)) : nat := sum_list (row_count <$> rs).

Lemma filter_le (l : list nat) (r s : list Z) : (forall v, mem r v = true -> mem s v = true) ->
  (length (filter (fun v => mem r v = true) l) <= length (filter (fun v => mem s v = true) l))%nat.
Proof.
  intros H. induction l as [|v l IH]; [done|]. rewrite !filter_cons. destruct (decide (mem r v = true)) as [Hr|Hr].
  - rewrite decide_True by auto. simpl. lia.
  - destruct (decide (mem s v = true)); simpl; lia.
Qed.

Lemma filter_lt (l : list nat) (r s : list Z) v : (forall v, mem r v = true -> mem s v = true) ->
  v ∈ l -> mem r v = false -> mem s v = true ->
  (length (filter (fun v => mem r v = true) l) < length (filter (fun v => mem s v = true) l))%nat.
Proof.
  intros H Hv Hr Hs. induction l as [|x l IH]; [by apply not_elem_of_nil in Hv|]. rewrite !filter_cons.
  pose proof (filter_le l r s H). apply elem_of_cons in Hv as [<-|Hv].
  - rewrite decide_False by congruence. rewrite decide_True by done. simpl. lia.
  - specialize (IH Hv). destruct (decide (mem r x = true)) as [Hx|Hx].
    + rewrite decide_True by auto. simpl. lia.
    + destruct (decide (mem s x = true)); simpl; lia.
Qed.

Lemma row_count_max r : (row_count r <= w * 64)%nat.
Proof. unfold row_count. etrans; [apply length_filter|]. by rewrite length_seq. Qed.

Lemma total_cons r rs : total (r :: rs) = (row_count r + total rs)%nat.
Proof. done. Qed.

Lemma total_max rs : rows_ok rs -> (total rs <= n * (w * 64))%nat.
Proof.
  intros [<- _]. induction rs as [|r rs IH]; [done|]. rewrite total_cons, length_cons, Nat.mul_succ_l.
  pose proof (row_count_max r). lia.
Qed.

Lemma total_insert rs b r x : rs !! b = Some x -> (total (<[b := r]> rs) + row_count x = total rs + row_count r)%nat.
Proof.
  revert b. induction rs as [|y rs IH]; intros [|b] Hb; try done.
  - injection Hb as ->. change (<[O := r]> (x :: rs)) with (r :: rs). rewrite !total_cons. lia.
  - change (<[S b := r]> (y :: rs)) with (y :: <[b := r]> rs). rewrite !total_cons. specialize (IH b Hb). lia.
Qed.

(** The union of rows. *)
Lemma join_rows_spec rs cs a : rows_ok rs -> row_ok w a -> Forall (fun c => (c < n)%nat) cs ->
  exists a', join_rows rs (Z.of_nat <$> cs) a = Ret a' /\ row_ok w a' /\
    forall v, mem a' v = true <-> mem a v = true \/ exists c, c ∈ cs /\ bit rs c v = true.
Proof.
  intros Hrs. revert a. induction cs as [|c cs IH]; intros a Ha Hcs.
  - exists a. split; [done|]. split; [done|]. intros v. split; [by left|]. intros [H|(c & Hc & _)]; [done|by apply not_elem_of_nil in Hc].
  - apply Forall_cons in Hcs as [Hc Hcs]. destruct (rows_lookup rs c Hrs Hc) as (r & Hr & Hrok). simpl. rewrite (get_nat _ _ _ Hr). cbn [obind].
    destruct (row_or w a r Ha Hrok) as [Ho Hm]. destruct (IH _ Ho Hcs) as (a' & E & Ha' & Hv). exists a'. split; [done|]. split; [done|].
    intros v. rewrite Hv, Hm, orb_true_iff. assert (bit rs c v = mem r v) as Eb by (unfold bit; by rewrite Hr). split.
    + intros [[H|H]|(d & Hd & H)]; [by left|right; exists c; split; [left|congruence]|right; exists d; split; [by right|done]].
    + intros [H|(d & [->|Hd]%elem_of_cons & H)]; [left; by left|left; right; congruence|right; by exists d].
Qed.

(** The transfer of each block, on rows and on their bits, and the blocks it
    joins over. *)
Context (T : nat -> list Z -> list Z) (tb : nat -> nat -> bool -> bool) (nbr : nat -> list nat).

Fixpoint gpass (bs : list nat) (A B : list (list Z)) (changed : bool) : outcome (bool * (list (list Z) * list (list Z))) :=
  match bs with
  | [] => Ret (changed, (A, B))
  | b :: bs =>
      let! a := get A (Z.of_nat b) in
      let! x := get B (Z.of_nat b) in
      let! a := join_rows B (Z.of_nat <$> nbr b) a in
      let! A := put A (Z.of_nat b) a in
      let! B := put B (Z.of_nat b) (T b a) in
      gpass bs A B (changed || negb (bool_decide (T b a = x)))
  end.

Fixpoint grounds (fuel : nat) (bs : list nat) (A B : list (list Z)) : outcome (list (list Z) * list (list Z)) :=
  match fuel with
  | O => NoFuel
  | S fuel =>
      let! (changed, (A, B)) := gpass bs A B false in
      if changed : bool then grounds fuel bs A B else Ret (A, B)
  end.

Context (HT : forall b r, (b < n)%nat -> row_ok w r -> row_ok w (T b r) /\
  forall v, (v < w * 64)%nat -> mem (T b r) v = tb b v (mem r v)).
Context (Hmono : forall b v, tb b v false = true -> tb b v true = true).
Context (Hnbr : forall b, (b < n)%nat -> Forall (fun c => (c < n)%nat) (nbr b)).

Lemma tb_le b v x y : (x = true -> y = true) -> tb b v x = true -> tb b v y = true.
Proof. destruct x, y; intros H; try done; [by specialize (H eq_refl)|apply Hmono]. Qed.

Lemma mem_range r v : row_ok w r -> mem r v = true -> (v < w * 64)%nat.
Proof.
  intros [Hl _] H. unfold mem in H. destruct (r !! (v / 64)%nat) eqn:E; [|done]. apply lookup_lt_Some in E.
  rewrite Hl in E. pose proof (Nat.div_mod_eq v 64). pose proof (Nat.mod_upper_bound v 64 ltac:(lia)). nia.
Qed.

Lemma bit_range rs b v : rows_ok rs -> bit rs b v = true -> (b < n)%nat /\ (v < w * 64)%nat.
Proof.
  intros Hr H. unfold bit in H. destruct (rs !! b) eqn:E; [|done]. pose proof (lookup_lt_Some _ _ _ E). destruct Hr as [Hl Hf].
  split; [lia|]. eapply mem_range; [|done]. exact (Forall_lookup_1 _ _ _ _ Hf E).
Qed.

(** What holds of the bits is kept when it is closed under the equations. *)
Definition closed_under (PA PB : nat -> nat -> Prop) : Prop :=
  (forall b c v, (b < n)%nat -> c ∈ nbr b -> PB c v -> PA b v) /\
  (forall b v x, (b < n)%nat -> (v < w * 64)%nat -> (x = true -> PA b v) -> tb b v x = true -> PB b v).

(** The second rows are at most the transfer of the first. *)
Definition consistent (A B : list (list Z)) : Prop :=
  forall b v, bit B b v = true -> tb b v (bit A b v) = true.

(** The equations hold at block [b]. *)
Definition solved_at (A B : list (list Z)) (b : nat) : Prop :=
  forall v, (v < w * 64)%nat -> (forall c, c ∈ nbr b -> bit B c v = true -> bit A b v = true) /\ bit B b v = tb b v (bit A b v).

(** One block. *)
Lemma gstep_spec b A B : rows_ok A -> rows_ok B -> (b < n)%nat ->
  exists a0 x a, get A (Z.of_nat b) = Ret a0 /\ get B (Z.of_nat b) = Ret x /\ join_rows B (Z.of_nat <$> nbr b) a0 = Ret a /\
    let A1 := <[b := a]> A in let B1 := <[b := T b a]> B in
    rows_ok A1 /\ rows_ok B1 /\ below A A1 /\
    (forall PA PB, closed_under PA PB -> (forall b v, bit A b v = true -> PA b v) -> (forall b v, bit B b v = true -> PB b v) ->
       (forall b v, bit A1 b v = true -> PA b v) /\ (forall b v, bit B1 b v = true -> PB b v)) /\
    (consistent A B -> consistent A1 B1 /\ (total B <= total B1)%nat /\ (T b a <> x -> (total B < total B1)%nat)) /\
    (T b a = x -> B1 = B /\ solved_at A1 B b).
Proof.
  intros HA HB Hb. destruct (rows_lookup A b HA Hb) as (a0 & Ha0 & Ha0k). destruct (rows_lookup B b HB Hb) as (x & Hx & Hxk).
  destruct (join_rows_spec B (nbr b) a0 HB Ha0k (Hnbr b Hb)) as (a & Ea & Hak & Hav). destruct (HT b a Hb Hak) as [HTk HTv].
  exists a0, x, a. split; [by apply get_nat|]. split; [by apply get_nat|]. split; [done|]. cbv zeta.
  assert (forall v, bit A b v = mem a0 v) as HbA by (intros v; unfold bit; by rewrite Ha0).
  assert (forall v, bit B b v = mem x v) as HbB by (intros v; unfold bit; by rewrite Hx).
  split; [by apply rows_insert|]. split; [by apply rows_insert|]. split; [|split; [|split]].
  - intros c v H. rewrite bit_insert by done. destruct (decide (c = b)) as [->|]; [|done]. apply Hav. left. by rewrite <- HbA.
  - intros PA PB [Hc1 Hc2] HPA HPB. assert (forall v, mem a v = true -> PA b v) as Ha.
    { intros v Hv. apply Hav in Hv as [Hv|(c & Hc & Hv)]; [by apply HPA; rewrite HbA|]. by eapply Hc1, HPB. }
    split; intros c v; rewrite bit_insert by done; (destruct (decide (c = b)) as [->|]; [|auto]); [apply Ha|].
    intros Hv. pose proof (mem_range _ _ HTk Hv) as Hr. rewrite HTv in Hv by done. eapply Hc2; [done|done| |exact Hv]. apply Ha.
  - intros Hcon. assert (forall v, mem x v = true -> mem (T b a) v = true) as Hle.
    { intros v Hv. pose proof (mem_range _ _ Hxk Hv) as Hr. rewrite HTv by done. rewrite <- HbB in Hv.
      eapply tb_le; [|by apply Hcon]. rewrite HbA. intros H. apply Hav. by left. }
    pose proof (total_insert B b (T b a) x Hx) as Ht. pose proof (filter_le (seq 0 (w * 64)) x (T b a) Hle) as Hcnt.
    change (row_count x <= row_count (T b a))%nat in Hcnt. split; [|split; [lia|]].
    + intros c v. rewrite !bit_insert by done. destruct (decide (c = b)) as [->|]; [|apply Hcon].
      intros Hv. rewrite <- HTv by (by eapply mem_range). done.
    + intros Hne. assert (exists v, (v < w * 64)%nat /\ mem x v = false /\ mem (T b a) v = true) as (v & Hv & H1 & H2).
      { destruct (decide (Forall (fun v => mem x v = mem (T b a) v) (seq 0 (w * 64)))) as [Hall|Hno].
        - destruct Hne. apply (row_ext w); [done..|]. intros v Hv. symmetry. eapply Forall_forall in Hall; [exact Hall|]. apply elem_of_seq. lia.
        - apply not_Forall_Exists in Hno; [|intros v; apply _]. apply Exists_exists in Hno as (v & Hv%elem_of_seq & Hd). simpl in Hd.
          exists v. split; [lia|]. specialize (Hle v). destruct (mem x v), (mem (T b a) v); try done; by specialize (Hle eq_refl). }
      pose proof (filter_lt (seq 0 (w * 64)) x (T b a) v Hle ltac:(apply elem_of_seq; lia) H1 H2) as Hlt.
      change (row_count x < row_count (T b a))%nat in Hlt. lia.
  - intros Ex. split; [rewrite Ex; by apply list_insert_id|]. intros v Hv. rewrite bit_insert by done. rewrite decide_True by done. split.
    + intros c Hc Hcv. apply Hav. right. by exists c.
    + rewrite HbB, <- Ex. by apply HTv.
Qed.

Lemma gpass_spec bs : forall A B ch, rows_ok A -> rows_ok B -> Forall (fun b => (b < n)%nat) bs ->
  exists ch' A' B', gpass bs A B ch = Ret (ch', (A', B')) /\ rows_ok A' /\ rows_ok B' /\ below A A' /\
    (forall PA PB, closed_under PA PB -> (forall b v, bit A b v = true -> PA b v) -> (forall b v, bit B b v = true -> PB b v) ->
       (forall b v, bit A' b v = true -> PA b v) /\ (forall b v, bit B' b v = true -> PB b v)) /\
    (consistent A B -> consistent A' B' /\ (total B <= total B')%nat /\ (ch = false -> ch' = true -> (total B < total B')%nat)) /\
    (ch' = false -> ch = false /\ B' = B /\
       forall b, b ∈ bs \/ solved_at A B b -> solved_at A' B b).
Proof.
  induction bs as [|b bs IH]; intros A B ch HA HB Hbs; cbn [gpass].
  { exists ch, A, B. split; [done|]. split; [done|]. split; [done|]. split; [by intros b v H|].
    split; [by intros PA PB _ H1 H2|]. split.
    - intros Hc. split; [done|]. split; [lia|]. by intros ->.
    - intros ->. split; [done|]. split; [done|]. intros b [H|H]; [by apply not_elem_of_nil in H|done]. }
  apply Forall_cons in Hbs as [Hb Hbs].
  destruct (gstep_spec b A B HA HB Hb) as (a0 & x & a & E1 & E2 & E3 & HA1 & HB1 & Hle & Hsound & Hcon & Hfix).
  rewrite E1, E2. cbn [obind]. rewrite E3. cbn [obind]. rewrite !put_nat by (by destruct HA, HB; lia). cbn [obind].
  set (A1 := <[b:=a]> A) in *. set (B1 := <[b:=T b a]> B) in *. set (ch1 := ch || negb (bool_decide (T b a = x))).
  destruct (IH A1 B1 ch1 HA1 HB1 Hbs) as (ch' & A' & B' & E & HA' & HB' & Hle' & Hsound' & Hcon' & Hfix').
  exists ch', A', B'. split; [done|]. split; [done|]. split; [done|]. split; [|split; [|split]].
  - intros c v H. by apply Hle', Hle.
  - intros PA PB Hcl HPA HPB. destruct (Hsound PA PB Hcl HPA HPB) as [H1 H2]. by apply Hsound'.
  - intros H0. destruct (Hcon H0) as (H1 & Ht1 & Hs1). destruct (Hcon' H1) as (H2 & Ht2 & Hs2). split; [done|]. split; [lia|].
    intros -> Hch. destruct (decide (T b a = x)) as [Ex|Ex]; [|specialize (Hs1 Ex); lia].
    assert (ch1 = false) as Ec by (unfold ch1; by rewrite bool_decide_eq_true_2). specialize (Hs2 Ec Hch). lia.
  - intros Hch. destruct (Hfix' Hch) as (Hch1 & EB & Hs). unfold ch1 in Hch1. apply orb_false_iff in Hch1 as [-> Hx].
    apply negb_false_iff, bool_decide_eq_true in Hx. destruct (Hfix Hx) as [EB1 Hsb]. rewrite EB1 in EB, Hs. split; [done|]. split; [done|].
    intros c Hc. apply Hs. destruct (decide (c = b)) as [->|Hne]; [by right|].
    destruct Hc as [[->|Hc]%elem_of_cons|Hc]; [done|by left|right].
    intros v Hv. specialize (Hc v Hv). unfold A1. rewrite (bit_insert A b a c v) by done. by rewrite decide_False by done.
Qed.

(** The iteration ends in the least solution: the equations hold, and
    whatever is closed under them holds of the bits. *)
Lemma grounds_spec bs : Forall (fun b => (b < n)%nat) bs -> (forall b, (b < n)%nat -> b ∈ bs) ->
  forall fuel A B, rows_ok A -> rows_ok B -> consistent A B -> (n * (w * 64) < fuel + total B)%nat ->
  exists A' B', grounds fuel bs A B = Ret (A', B') /\ rows_ok A' /\ rows_ok B' /\ below A A' /\
    (forall PA PB, closed_under PA PB -> (forall b v, bit A b v = true -> PA b v) -> (forall b v, bit B b v = true -> PB b v) ->
       (forall b v, bit A' b v = true -> PA b v) /\ (forall b v, bit B' b v = true -> PB b v)) /\
    (forall b, (b < n)%nat -> solved_at A' B' b).
Proof.
  intros Hbs Hall. induction fuel as [|fuel IH]; intros A B HA HB Hc Hf.
  { pose proof (total_max B HB). lia. }
  cbn [grounds]. destruct (gpass_spec bs A B false HA HB Hbs) as (ch & A1 & B1 & E & HA1 & HB1 & Hle & Hsound & Hcon & Hfix).
  rewrite E. cbn [obind]. destruct (Hcon Hc) as (Hc1 & Ht & Hs). destruct ch.
  - destruct (IH A1 B1 HA1 HB1 Hc1) as (A' & B' & E' & HA' & HB' & Hle' & Hsound' & Hsol); [specialize (Hs eq_refl eq_refl); lia|].
    exists A', B'. split; [done|]. split; [done|]. split; [done|]. split; [intros b v H; by apply Hle', Hle|]. split; [|done].
    intros PA PB Hcl HPA HPB. destruct (Hsound PA PB Hcl HPA HPB) as [H1 H2]. by apply Hsound'.
  - destruct (Hfix eq_refl) as (_ & -> & Hsol). exists A1, B. split; [done|]. split; [done|]. split; [done|]. split; [done|].
    split; [done|]. intros b Hb. apply Hsol. left. by apply Hall.
Qed.
End flow.

(** * The sets of a block *)

(** Instruction [i] reads or writes register [v]. *)
Definition reads (fn : MirFunction) (i v : nat) : Prop := exists x, insns fn !! i = Some x /\ Z.of_nat v ∈ mir_cfg_insn_uses x.
Definition writes (fn : MirFunction) (i v : nat) : Prop := exists x, insns fn !! i = Some x /\ mir_cfg_insn_def x = Z.of_nat v.

Section local.
Context (fn : MirFunction) (w : nat) (Hw : (vreg_count fn <= w * 64)%nat).

Lemma in_range_nat v : in_range fn (Z.of_nat v) = true <-> (v < vreg_count fn)%nat.
Proof. unfold in_range. lia. Qed.

Lemma in_range_inv z : in_range fn z = true -> exists v, z = Z.of_nat v /\ (v < vreg_count fn)%nat.
Proof. unfold in_range. intros H. exists (Z.to_nat z). lia. Qed.

Lemma add_def_spec z d : row_ok w d -> exists d', add_def fn z d = Ret d' /\ row_ok w d' /\
  forall v, mem d' v = true <-> mem d v = true \/ ((v < vreg_count fn)%nat /\ z = Z.of_nat v).
Proof.
  intros Hd. unfold add_def. destruct (in_range fn z) eqn:Er.
  - apply in_range_inv in Er as (v & -> & Hv). destruct (set_add_spec w d v Hd) as (d' & E & Hd' & Hm); [lia|].
    exists d'. split; [done|]. split; [done|]. intros x. rewrite Hm, orb_true_iff, bool_decide_eq_true. split.
    + intros [H| ->]; [by left|by right].
    + intros [H|[_ H]]; [by left|right; lia].
  - exists d. split; [done|]. split; [done|]. intros v. split; [by left|]. intros [H|[Hv ->]]; [done|].
    apply in_range_nat in Hv. congruence.
Qed.

Lemma add_uses_spec d ids : row_ok w d -> forall u, row_ok w u -> exists u', add_uses fn ids d u = Ret u' /\ row_ok w u' /\
  forall v, mem u' v = true <-> mem u v = true \/ (mem d v = false /\ (v < vreg_count fn)%nat /\ Z.of_nat v ∈ ids).
Proof.
  intros Hd. induction ids as [|z ids IH]; intros u Hu; cbn [add_uses].
  { exists u. split; [done|]. split; [done|]. intros v. split; [by left|]. intros [H|(_ & _ & H)]; [done|by apply not_elem_of_nil in H]. }
  destruct (in_range fn z) eqn:Er.
  - apply in_range_inv in Er as (y & -> & Hy). rewrite (set_get_spec w) by (done || lia). cbn [obind].
    destruct (mem d y) eqn:Ed; cbn [negb].
    + destruct (IH u Hu) as (u' & E & Hu' & Hm). exists u'. split; [done|]. split; [done|]. intros v. rewrite Hm, elem_of_cons. split.
      * intros [H|(H1 & H2 & H3)]; [by left|right; auto].
      * intros [H|(H1 & H2 & [H3|H3])]; [by left| |by right]. assert (v = y) as -> by lia. congruence.
    + destruct (set_add_spec w u y Hu) as (u1 & E1 & Hu1 & Hm1); [lia|]. rewrite E1. cbn [obind].
      destruct (IH u1 Hu1) as (u' & E & Hu' & Hm). exists u'. split; [done|]. split; [done|]. intros v.
      rewrite Hm, Hm1, orb_true_iff, bool_decide_eq_true, elem_of_cons. split.
      * intros [[H| ->]|(H1 & H2 & H3)]; [by left|right; auto..].
      * intros [H|(H1 & H2 & [H3|H3])]; [by left; left|left; right; lia|by right].
  - destruct (IH u Hu) as (u' & E & Hu' & Hm). exists u'. split; [done|]. split; [done|]. intros v. rewrite Hm, elem_of_cons. split.
    + intros [H|(H1 & H2 & H3)]; [by left|right; auto].
    + intros [H|(H1 & H2 & [<-|H3])]; [by left| |by right]. apply in_range_nat in H2. congruence.
Qed.

Lemma local_block_spec n : forall i u d, (i + n <= insn_count fn)%nat -> row_ok w u -> row_ok w d ->
  exists u' d', local_block fn n (Z.of_nat i) u d = Ret (u', d') /\ row_ok w u' /\ row_ok w d' /\
    (forall v, mem d' v = true <-> mem d v = true \/ ((v < vreg_count fn)%nat /\ exists k, (i <= k < i + n)%nat /\ writes fn k v)) /\
    (forall v, mem u' v = true <-> mem u v = true \/ (mem d v = false /\ (v < vreg_count fn)%nat /\
       exists k, (i <= k < i + n)%nat /\ reads fn k v /\ forall j, (i <= j < k)%nat -> ~ writes fn j v)).
Proof.
  induction n as [|n IH]; intros i u d Hi Hu Hd; cbn [local_block].
  { exists u, d. split; [done|]. split; [done|]. split; [done|]. split; intros v; (split; [by left|]).
    - intros [H|(_ & k & Hk & _)]; [done|lia].
    - intros [H|(_ & _ & k & Hk & _)]; [done|lia]. }
  destruct (lookup_lt_is_Some_2 (insns fn) i) as [x Hx]; [unfold insn_count in Hi; lia|]. rewrite (get_nat _ _ _ Hx). cbn [obind].
  destruct (add_uses_spec d (mir_cfg_insn_uses x) Hd u Hu) as (u1 & E1 & Hu1 & Hm1). rewrite E1. cbn [obind].
  destruct (add_def_spec (mir_cfg_insn_def x) d Hd) as (d1 & E2 & Hd1 & Hm2). rewrite E2. cbn [obind].
  replace (Z.of_nat i + 1) with (Z.of_nat (S i)) by lia.
  destruct (IH (S i) u1 d1) as (u' & d' & E & Hu' & Hd' & Hmd & Hmu); [lia|done|done|].
  assert (forall v, reads fn i v <-> Z.of_nat v ∈ mir_cfg_insn_uses x) as Hri.
  { intros v. unfold reads. split; [intros (y & Hy & H); congruence|intros H; by exists x]. }
  assert (forall v, writes fn i v <-> mir_cfg_insn_def x = Z.of_nat v) as Hwi.
  { intros v. unfold writes. split; [intros (y & Hy & H); congruence|intros H; by exists x]. }
  exists u', d'. split; [done|]. split; [done|]. split; [done|]. split; intros v.
  - rewrite Hmd, Hm2, <- Hwi. split.
    + intros [[H|[H1 H2]]|(H1 & k & Hk & H2)]; [by left|right; split; [done|exists i; split; [lia|done]]|right; split; [done|exists k; split; [lia|done]]].
    + intros [H|(H1 & k & Hk & H2)]; [by left; left|]. destruct (decide (k = i)) as [->|]; [left; by right|right].
      split; [done|]. exists k. split; [lia|done].
  - rewrite Hmu, Hm1, <- Hri. split.
    + intros [[H|(H1 & H2 & H3)]|(H1 & H2 & k & Hk & H3 & H4)]; [by left|right|right].
      * split; [done|]. split; [done|]. exists i. split; [lia|]. split; [done|]. lia.
      * assert (mem d v = false /\ ~ writes fn i v) as [Hdv Hwv].
        { split; [destruct (mem d v) eqn:Ed; [|done]|intros Hwr].
          - assert (mem d1 v = true) by (apply Hm2; by left). congruence.
          - assert (mem d1 v = true) by (apply Hm2; right; split; [done|by apply Hwi]). congruence. }
        split; [done|]. split; [done|]. exists k. split; [lia|]. split; [done|]. intros j Hj.
        destruct (decide (j = i)) as [->|]; [done|apply H4; lia].
    + intros [H|(H1 & H2 & k & Hk & H3 & H4)]; [by left; left|]. destruct (decide (k = i)) as [->|Hne]; [left; right; auto|right].
      split; [|split; [done|]].
      * destruct (mem d1 v) eqn:E1v; [|done]. apply Hm2 in E1v as [E1v|[_ E1v]]; [congruence|]. destruct (H4 i); [lia|by apply Hwi].
      * exists k. split; [lia|]. split; [done|]. intros j Hj. apply H4. lia.
Qed.

Definition exposed (blk : MirCfgBlock) (v : nat) : Prop :=
  (v < vreg_count fn)%nat /\ exists k, start blk <= Z.of_nat k < end_ blk /\ reads fn k v /\
    forall j, start blk <= Z.of_nat j < Z.of_nat k -> ~ writes fn j v.
Definition defines (blk : MirCfgBlock) (v : nat) : Prop :=
  (v < vreg_count fn)%nat /\ exists k, start blk <= Z.of_nat k < end_ blk /\ writes fn k v.

(** The sets of block [b] are those of its instructions. *)
Definition local_at (g : MirCfg) (us ds : list (list Z)) (b : nat) : Prop :=
  forall blk v, blocks g !! b = Some blk -> (bit us b v = true <-> exposed blk v) /\ (bit ds b v = true <-> defines blk v).

Lemma block_sets_spec g b blk us ds : blocks_ok fn g -> blocks g !! b = Some blk -> rows_ok w (block_count g) us -> rows_ok w (block_count g) ds ->
  (forall v, bit us b v = false) -> (forall v, bit ds b v = false) ->
  exists u0 d0 u d, get us (Z.of_nat b) = Ret u0 /\ get ds (Z.of_nat b) = Ret d0 /\
    local_block fn (Z.to_nat (end_ blk - start blk)) (start blk) u0 d0 = Ret (u, d) /\ row_ok w u /\ row_ok w d /\
    local_at g (<[b := u]> us) (<[b := d]> ds) b.
Proof.
  intros Hok Hblk Hus Hds Hu0 Hd0. pose proof (lookup_lt_Some _ _ _ Hblk) as Hb. fold (block_count g) in Hb.
  destruct (rows_lookup w _ us b Hus Hb) as (u0 & Eu & Hu). destruct (rows_lookup w _ ds b Hds Hb) as (d0 & Ed & Hd).
  pose proof (block_nonempty _ _ Hok _ _ Hblk) as [Hne Hend].
  destruct (local_block_spec (Z.to_nat (end_ blk - start blk)) (Z.to_nat (start blk)) u0 d0) as (u & d & E & Hu' & Hd' & Hmd & Hmu); [lia|done|done|].
  rewrite Z2Nat.id in E by lia. exists u0, d0, u, d. split; [by apply get_nat|]. split; [by apply get_nat|]. split; [done|].
  split; [done|]. split; [done|]. intros blk' v Hblk'. assert (blk' = blk) as -> by congruence.
  rewrite !(bit_insert w (block_count g)) by done. rewrite !decide_True by done.
  assert (mem u0 v = false) as Zu by (specialize (Hu0 v); unfold bit in Hu0; by rewrite Eu in Hu0).
  assert (mem d0 v = false) as Zd by (specialize (Hd0 v); unfold bit in Hd0; by rewrite Ed in Hd0).
  split.
  - rewrite Hmu. unfold exposed. split.
    + intros [H|(_ & Hv & k & Hk & H1 & H2)]; [congruence|]. split; [done|]. exists k. split; [lia|]. split; [done|]. intros j Hj. apply H2. lia.
    + intros (Hv & k & Hk & H1 & H2). right. split; [done|]. split; [done|]. exists k. split; [lia|]. split; [done|]. intros j Hj. apply H2. lia.
  - rewrite Hmd. unfold defines. split.
    + intros [H|(Hv & k & Hk & H1)]; [congruence|]. split; [done|]. exists k. split; [lia|done].
    + intros (Hv & k & Hk & H1). right. split; [done|]. exists k. split; [lia|done].
Qed.

Lemma local_sets_spec : forall n b g, blocks_ok fn g -> (n + b = block_count g)%nat ->
  rows_ok w (block_count g) (use g) -> rows_ok w (block_count g) (def g) ->
  (forall c, (c < b)%nat -> local_at g (use g) (def g) c) ->
  (forall c v, (b <= c)%nat -> bit (use g) c v = false /\ bit (def g) c v = false) ->
  exists us ds, mir_cfg_local_sets fn n b g = Ret (with_sets us ds (live_in g) (live_out g) (defd_in g) (defd_out g) g) /\
    rows_ok w (block_count g) us /\ rows_ok w (block_count g) ds /\ forall c, (c < block_count g)%nat -> local_at g us ds c.
Proof.
  induction n as [|n IH]; intros b g Hok Hn Hus Hds Hdone Hrest; cbn [mir_cfg_local_sets].
  { exists (use g), (def g). split; [by destruct g|]. split; [done|]. split; [done|]. intros c Hc. apply Hdone. lia. }
  destruct (lookup_lt_is_Some_2 (blocks g) b) as [blk Hblk]; [unfold block_count in Hn; lia|].
  destruct (block_sets_spec g b blk (use g) (def g) Hok Hblk Hus Hds) as (u0 & d0 & u & d & E1 & E2 & E3 & Hu & Hd & Hat);
    [intros v; by apply Hrest..|].
  rewrite (get_nat _ _ _ Hblk). cbn [obind]. rewrite E1, E2. cbn [obind]. rewrite E3. cbn [obind].
  rewrite !put_nat by (destruct Hus, Hds; unfold block_count in *; lia). cbn [obind].
  set (us1 := <[b:=u]> (use g)) in *. set (ds1 := <[b:=d]> (def g)) in *.
  destruct (IH (S b) (with_sets us1 ds1 (live_in g) (live_out g) (defd_in g) (defd_out g) g)) as (us & ds & E & Hus' & Hds' & Hall).
  - destruct Hok as [H1 H2 H3 H4]. by split.
  - change (n + S b = block_count g)%nat. lia.
  - by apply rows_insert.
  - by apply rows_insert.
  - intros c Hc blk' v Hblk'. change (blocks g !! c = Some blk') in Hblk'. cbn [with_sets use def].
    destruct (decide (c = b)) as [->|Hne]; [by apply Hat|]. unfold us1, ds1. rewrite !(bit_insert w (block_count g)) by (done || lia).
    rewrite !decide_False by done. apply Hdone; [lia|done].
  - intros c v Hc. cbn [with_sets use def]. unfold us1, ds1. rewrite !(bit_insert w (block_count g)) by (done || lia).
    rewrite !decide_False by lia. apply Hrest. lia.
  - exists us, ds. split; [rewrite E; done|]. split; [done|]. split; [done|]. exact Hall.
Qed.
End local.
End CfgSets.
