(* ===== verification/CfgLive.v ===== *)
(** Liveness and definedness, instruction by instruction.

    A register is live at an instruction when some way of running on from
    there reads it before writing it; it is defined there when some way of
    reaching it writes it, or it is a parameter.  The sets the analysis
    computes for the blocks, and those the cursor shows inside a block, are
    exactly these. *)
From S2P Require Import Prelude Mir Probe MirCfg CfgGraph CfgSets.
#[local] Open Scope Z_scope.

Module CfgLive.
Import Mir Probe Cfg CfgGraph CfgSets.

(** * What the sets mean *)

(** Register [v] may be read, at [i] or later, before it is written. *)
Inductive live_at (fn : MirFunction) (v : nat) : nat -> Prop :=
| live_read i : reads fn i v -> live_at fn v i
| live_flow i j : ~ writes fn i v -> insn_flow fn i j -> live_at fn v j -> live_at fn v i.

(** Live when instruction [i] has run. *)
Definition live_after (fn : MirFunction) (v i : nat) : Prop := exists j, insn_flow fn i j /\ live_at fn v j.

(** The registers that hold a value on entry. *)
Definition entry_defined (fn : MirFunction) (v : nat) : Prop :=
  (exists p, p ∈ params fn /\ (p_vreg p = Z.of_nat v \/ p_sysv_storage p = Z.of_nat v)) \/
  (returns_indirect fn = true /\ indirect_return_vreg fn = Z.of_nat v).

(** Register [v] may have been written before [i] runs. *)
Inductive defd_at (fn : MirFunction) (v : nat) : nat -> Prop :=
| defd_entry : entry_defined fn v -> defd_at fn v 0
| defd_write i j : writes fn i v -> insn_flow fn i j -> defd_at fn v j
| defd_keep i j : defd_at fn v i -> insn_flow fn i j -> defd_at fn v j.

Definition defd_after (fn : MirFunction) (v i : nat) : Prop := defd_at fn v i \/ writes fn i v.

(** * Flow within and between blocks *)

Section graph.
Context (fn : MirFunction) (g : MirCfg) (es : list (nat * nat)) (Hg : graph_ok fn g es).

Lemma inner_flow b blk i j : blocks g !! b = Some blk -> start blk <= Z.of_nat i -> Z.of_nat (S i) < end_ blk ->
  insn_flow fn i j <-> j = S i.
Proof.
  intros Hb Hs He. pose proof (block_nonempty _ _ (go_blocks _ _ _ Hg) _ _ Hb) as [_ Hend].
  destruct (lookup_lt_is_Some_2 (insns fn) i) as [x Hx]; [unfold insn_count in Hend; lia|].
  pose proof (inner_instruction _ _ _ _ _ _ (go_blocks _ _ _ Hg) Hb Hs He Hx) as Hn. apply not_ending_targets in Hn.
  unfold insn_flow. split.
  - intros (y & ls & fl & Hy & Et & Hj). assert (y = x) as -> by congruence. rewrite Hn in Et. injection Et as <- <-.
    destruct Hj as [(name & H & _)|(_ & -> & _)]; [by apply not_elem_of_nil in H|done].
  - intros ->. exists x, [], true. split; [done|]. split; [done|]. right. split; [done|]. split; [done|]. lia.
Qed.

(** Control enters a block at its first instruction. *)
Lemma flow_enters b blk i j : blocks g !! b = Some blk -> Z.of_nat i = end_ blk - 1 -> insn_flow fn i j ->
  exists c blkc, (b, c) ∈ es /\ blocks g !! c = Some blkc /\ start blkc = Z.of_nat j.
Proof.
  intros Hb Hi Hf. pose proof (go_blocks _ _ _ Hg) as Hok. assert (j < insn_count fn)%nat as Hj.
  { destruct Hf as (x & ls & fl & _ & _ & [(name & _ & Hl)|(_ & _ & H)]); [by apply label_at_lt in Hl|done]. }
  destruct (numbered_is_Some _ _ Hok j Hj) as (c & blkc & Hc & Hblkc). exists c, blkc. split; [|split; [done|]].
  - apply (go_flow _ _ _ Hg). by exists blk, i, j.
  - assert (leader (insns fn) j = true) as Hl; [|by apply (leader_start _ _ Hok c blkc j Hblkc Hc) in Hl].
    destruct Hf as (x & ls & fl & Hx & Et & [(name & _ & Hl)|(-> & -> & _)]).
    + apply label_at_Some in Hl as ((y & Hy & Hly) & _). destruct j as [|j]; [done|]. unfold leader. rewrite Hy.
      destruct (lookup_lt_is_Some_2 (insns fn) j) as [p Hp]; [unfold insn_count in Hj; lia|]. by rewrite Hp, Hly.
    + destruct (block_after _ _ Hok b blk Hb) as (nb & Hnb & Hs); [lia|].
      assert (numbered (insns fn) !! S i = Some (Z.of_nat (S b))) as Hn.
      { pose proof (block_nonempty _ _ Hok _ _ Hnb). apply (block_member _ _ Hok (S b) nb); [done|done|lia]. }
      apply (leader_start _ _ Hok (S b) nb (S i) Hnb Hn). lia.
Qed.

Lemma edge_flow b c : (b, c) ∈ es -> exists blk blkc i j, blocks g !! b = Some blk /\ blocks g !! c = Some blkc /\
  Z.of_nat i = end_ blk - 1 /\ insn_flow fn i j /\ start blkc = Z.of_nat j.
Proof.
  intros H. apply (go_flow _ _ _ Hg) in H as (blk & i & j & Hb & Hi & Hf & Hn).
  destruct (flow_enters b blk i j Hb Hi Hf) as (c' & blkc & _ & Hc & Hs). exists blk, blkc, i, j.
  assert (c' = c) as ->; [|done]. pose proof (go_blocks _ _ _ Hg) as Hok. pose proof (block_nonempty _ _ Hok _ _ Hc) as Hne.
  assert (numbered (insns fn) !! j = Some (Z.of_nat c')) as Hn' by (apply (block_member _ _ Hok c' blkc); [done|lia|lia]).
  rewrite Hn in Hn'. injection Hn'. lia.
Qed.

(** Liveness goes back through a block over instructions that do not write. *)
Lemma live_back v b blk i k : blocks g !! b = Some blk -> start blk <= Z.of_nat i -> (i <= k)%nat -> Z.of_nat k < end_ blk ->
  (forall j, (i <= j < k)%nat -> ~ writes fn j v) -> live_at fn v k -> live_at fn v i.
Proof.
  intros Hb Hs Hik Hk Hw Hl. induction Hik as [|k Hik IH] in Hk, Hw, Hl |- *; [done|].
  apply IH; [lia|intros j Hj; apply Hw; lia|]. eapply live_flow; [apply Hw; lia| |exact Hl].
  apply (inner_flow b blk k (S k)); [done|lia|lia|done].
Qed.

Lemma defd_forward v b blk i k : blocks g !! b = Some blk -> start blk <= Z.of_nat i -> (i <= k)%nat -> Z.of_nat k < end_ blk ->
  defd_after fn v i -> defd_after fn v k.
Proof.
  intros Hb Hs Hik Hk Hd. induction Hik as [|k Hik IH] in Hk |- *; [done|]. left.
  assert (insn_flow fn k (S k)) as Hf by (apply (inner_flow b blk k (S k)); [done|lia|lia|done]).
  destruct IH as [H|H]; [lia|by eapply defd_keep|by eapply defd_write].
Qed.
End graph.

(** * The equations *)

Definition succ_ids (es : list (nat * nat)) (b : nat) : list nat := snd <$> filter (fun e => e.1 = b) es.
Definition pred_ids (es : list (nat * nat)) (b : nat) : list nat := fst <$> filter (fun e => e.2 = b) es.

Lemma succs_ids es b : succs_of es b = Z.of_nat <$> succ_ids es b.
Proof. unfold succs_of, succ_ids. by rewrite <- list_fmap_compose. Qed.

Lemma preds_ids es b : preds_of es b = Z.of_nat <$> pred_ids es b.
Proof. unfold preds_of, pred_ids. by rewrite <- list_fmap_compose. Qed.

Lemma elem_of_succ_ids es b c : c ∈ succ_ids es b <-> (b, c) ∈ es.
Proof.
  unfold succ_ids. rewrite list_elem_of_fmap. split.
  - intros ([f t] & -> & [E H]%list_elem_of_filter). simpl in *. by subst f.
  - intros H. exists (b, c). split; [done|]. by apply list_elem_of_filter.
Qed.

Lemma elem_of_pred_ids es b c : c ∈ pred_ids es b <-> (c, b) ∈ es.
Proof.
  unfold pred_ids. rewrite list_elem_of_fmap. split.
  - intros ([f t] & -> & [E H]%list_elem_of_filter). simpl in *. by subst t.
  - intros H. exists (c, b). split; [done|]. by apply list_elem_of_filter.
Qed.

Definition T_live (us ds : list (list Z)) (b : nat) (r : list Z) : list Z :=
  transfer_live (default [] (us !! b)) (default [] (ds !! b)) r.
Definition tb_live (us ds : list (list Z)) (b v : nat) (x : bool) : bool := bit us b v || (x && negb (bit ds b v)).
Definition T_defd (ds : list (list Z)) (b : nat) (r : list Z) : list Z := zip_with Z.lor r (default [] (ds !! b)).
Definition tb_defd (ds : list (list Z)) (b v : nat) (x : bool) : bool := x || bit ds b v.

Lemma T_live_ok w n us ds b r : rows_ok w n us -> rows_ok w n ds -> (b < n)%nat -> row_ok w r ->
  row_ok w (T_live us ds b r) /\ forall v, (v < w * 64)%nat -> mem (T_live us ds b r) v = tb_live us ds b v (mem r v).
Proof.
  intros Hu Hd Hb Hr. destruct (rows_lookup w n us b Hu Hb) as (u & Eu & Huk). destruct (rows_lookup w n ds b Hd Hb) as (d & Ed & Hdk).
  unfold T_live, tb_live, transfer_live, bit. rewrite Eu, Ed. simpl. destruct (row_minus w r d Hr Hdk) as [H1 H2].
  destruct (row_or w u _ Huk H1) as [H3 H4]. split; [done|]. intros v _. by rewrite H4, H2.
Qed.

Lemma T_defd_ok w n ds b r : rows_ok w n ds -> (b < n)%nat -> row_ok w r ->
  row_ok w (T_defd ds b r) /\ forall v, (v < w * 64)%nat -> mem (T_defd ds b r) v = tb_defd ds b v (mem r v).
Proof.
  intros Hd Hb Hr. destruct (rows_lookup w n ds b Hd Hb) as (d & Ed & Hdk). unfold T_defd, tb_defd, bit. rewrite Ed. simpl.
  destruct (row_or w r d Hr Hdk) as [H1 H2]. split; [done|]. intros v _. apply H2.
Qed.

Section solve.
Context (fn : MirFunction) (g : MirCfg) (es : list (nat * nat)) (Hg : graph_ok fn g es) (w : nat).
Context (Hw : (vreg_count fn <= w * 64)%nat).
Context (us ds : list (list Z)) (Hus : rows_ok w (block_count g) us) (Hds : rows_ok w (block_count g) ds).
Context (Hlocal : forall c, (c < block_count g)%nat -> local_at fn g us ds c).

Lemma live_nbr b : (b < block_count g)%nat -> Forall (fun c => (c < block_count g)%nat) (succ_ids es b).
Proof. intros _. apply Forall_forall. intros c Hc%elem_of_succ_ids. apply (gi_nodes _ _ (go_graph _ _ _ Hg)) in Hc. tauto. Qed.

Lemma defd_nbr b : (b < block_count g)%nat -> Forall (fun c => (c < block_count g)%nat) (pred_ids es b).
Proof. intros _. apply Forall_forall. intros c Hc%elem_of_pred_ids. apply (gi_nodes _ _ (go_graph _ _ _ Hg)) in Hc. tauto. Qed.

(** What the rows of liveness stand for. *)
Definition live_out_of (b v : nat) : Prop :=
  (v < vreg_count fn)%nat /\ exists blk i, blocks g !! b = Some blk /\ Z.of_nat i = end_ blk - 1 /\ live_after fn v i.
Definition live_in_of (b v : nat) : Prop :=
  (v < vreg_count fn)%nat /\ exists blk i, blocks g !! b = Some blk /\ Z.of_nat i = start blk /\ live_at fn v i.

Lemma live_closed : closed_under w (block_count g) (tb_live us ds) (succ_ids es) live_out_of live_in_of.
Proof.
  pose proof (go_blocks _ _ _ Hg) as Hok. split.
  - intros b c v Hb Hc%elem_of_succ_ids [Hv (blkc & j & Hblkc & Hj & Hl)]. split; [done|].
    destruct (edge_flow _ _ _ Hg b c Hc) as (blk & blkc' & i & j' & Hblk & Hblkc' & Hi & Hf & Hs).
    assert (blkc' = blkc) as -> by congruence. assert (j' = j) as -> by lia. exists blk, i. split; [done|]. split; [done|]. by exists j.
  - intros b v x Hb Hv Hx Htb. destruct (lookup_lt_is_Some_2 (blocks g) b Hb) as [blk Hblk].
    pose proof (block_nonempty _ _ Hok _ _ Hblk) as [Hne Hend]. destruct (Hlocal b Hb blk v Hblk) as [Hu Hd].
    unfold tb_live in Htb. apply orb_true_iff in Htb as [Htb|Htb].
    + destruct (proj1 Hu Htb) as (Hvc & k & Hk & Hr & Hnw). split; [done|]. exists blk, (Z.to_nat (start blk)). split; [done|]. split; [lia|].
      apply (live_back fn g es Hg v b blk _ k); [done|lia|lia|lia|intros j Hj; apply Hnw; lia|by apply live_read].
    + apply andb_true_iff in Htb as [-> Hnd]. destruct (Hx eq_refl) as [Hvc (blk' & i & Hblk' & Hi & j & Hf & Hl)].
      assert (blk' = blk) as -> by congruence. split; [done|]. exists blk, (Z.to_nat (start blk)). split; [done|]. split; [lia|].
      assert (forall k, start blk <= Z.of_nat k < end_ blk -> ~ writes fn k v) as Hnw.
      { intros k Hk Hwr. assert (bit ds b v = true) as E by (apply Hd; split; [done|by exists k]). by rewrite E in Hnd. }
      apply (live_back fn g es Hg v b blk _ i); [done|lia|lia|lia|intros k Hk; apply Hnw; lia|].
      eapply live_flow; [apply Hnw; lia|done|done].
Qed.

(** A solution of the equations holds every live register. *)
Lemma live_complete A B v : (v < vreg_count fn)%nat -> (forall b, (b < block_count g)%nat -> solved_at w (tb_live us ds) (succ_ids es) A B b) ->
  forall i, live_at fn v i -> forall b blk, blocks g !! b = Some blk -> start blk <= Z.of_nat i < end_ blk ->
  (exists k, (i <= k)%nat /\ Z.of_nat k < end_ blk /\ reads fn k v /\ forall j, (i <= j < k)%nat -> ~ writes fn j v) \/
  ((forall j, (i <= j)%nat -> Z.of_nat j < end_ blk -> ~ writes fn j v) /\ bit A b v = true).
Proof.
  intros Hv Hsol. pose proof (go_blocks _ _ _ Hg) as Hok.
  induction 1 as [i Hr|i j Hnw Hf Hl IH]; intros b blk Hblk Hi.
  { left. exists i. split; [lia|]. split; [lia|]. split; [done|]. lia. }
  destruct (decide (Z.of_nat (S i) < end_ blk)) as [Hin|Hlast].
  - apply (inner_flow fn g es Hg b blk i j Hblk) in Hf as ->; [|lia|done].
    destruct (IH b blk Hblk) as [(k & Hk & Hke & Hr & Hn)|[Hn Ha]]; [lia|left|right].
    + exists k. split; [lia|]. split; [done|]. split; [done|]. intros j Hj. destruct (decide (j = i)) as [->|]; [done|apply Hn; lia].
    + split; [|done]. intros j Hj Hje. destruct (decide (j = i)) as [->|]; [done|apply Hn; lia].
  - assert (Z.of_nat i = end_ blk - 1) as Hie by lia.
    destruct (flow_enters fn g es Hg b blk i j Hblk Hie Hf) as (c & blkc & He & Hblkc & Hs).
    pose proof (block_nonempty _ _ Hok _ _ Hblkc) as [Hnec _]. pose proof (lookup_lt_Some _ _ _ Hblkc) as Hc.
    pose proof (lookup_lt_Some _ _ _ Hblk) as Hb. destruct (Hlocal c Hc blkc v Hblkc) as [Hu Hd].
    right. split. { intros k Hk Hke. assert (k = i) as -> by lia. done. }
    destruct (Hsol b Hb v ltac:(lia)) as [Hj _]. apply (Hj c); [by apply elem_of_succ_ids|].
    destruct (Hsol c Hc v ltac:(lia)) as [_ ->]. unfold tb_live. apply orb_true_iff.
    destruct (IH c blkc Hblkc) as [(k & Hk & Hke & Hr & Hn)|[Hn Ha]]; [lia|left|right].
    + apply Hu. split; [done|]. exists k. split; [lia|]. split; [done|]. intros j' Hj'. apply Hn. lia.
    + rewrite Ha. destruct (bit ds c v) eqn:Ed; [|done]. exfalso. destruct (proj1 Hd eq_refl) as (_ & k & Hk & Hwr). apply (Hn k); [lia|lia|done].
Qed.

Lemma live_exact A B :
  (forall b v, bit A b v = true -> live_out_of b v) -> (forall b v, bit B b v = true -> live_in_of b v) ->
  (forall b, (b < block_count g)%nat -> solved_at w (tb_live us ds) (succ_ids es) A B b) ->
  forall b v, (bit A b v = true <-> live_out_of b v) /\ (bit B b v = true <-> live_in_of b v).
Proof.
  intros HA HB Hsol b v. pose proof (go_blocks _ _ _ Hg) as Hok.
  assert (forall b v, live_in_of b v -> bit B b v = true) as HB'.
  { clear b v. intros b v [Hv (blk & i & Hblk & Hi & Hl)]. pose proof (lookup_lt_Some _ _ _ Hblk) as Hb.
    pose proof (block_nonempty _ _ Hok _ _ Hblk) as [Hne _]. destruct (Hlocal b Hb blk v Hblk) as [Hu Hd].
    destruct (Hsol b Hb v ltac:(lia)) as [_ ->]. unfold tb_live. apply orb_true_iff.
    destruct (live_complete A B v Hv Hsol i Hl b blk Hblk ltac:(lia)) as [(k & Hk & Hke & Hr & Hn)|[Hn Ha]]; [left|right].
    - apply Hu. split; [done|]. exists k. split; [lia|]. split; [done|]. intros j Hj. apply Hn. lia.
    - rewrite Ha. destruct (bit ds b v) eqn:Ed; [|done]. exfalso. destruct (proj1 Hd eq_refl) as (_ & k & Hk & Hwr). apply (Hn k); [lia|lia|done]. }
  split; (split; [auto|]); [|apply HB'].
  intros [Hv (blk & i & Hblk & Hi & j & Hf & Hl)]. destruct (flow_enters fn g es Hg b blk i j Hblk Hi Hf) as (c & blkc & He & Hblkc & Hs).
  pose proof (lookup_lt_Some _ _ _ Hblk) as Hb. destruct (Hsol b Hb v ltac:(lia)) as [Hj _].
  apply (Hj c); [by apply elem_of_succ_ids|]. apply HB'. split; [done|]. by exists blkc, j.
Qed.

(** What the rows of definedness stand for. *)
Definition defd_in_of (b v : nat) : Prop :=
  (v < vreg_count fn)%nat /\ exists blk i, blocks g !! b = Some blk /\ Z.of_nat i = start blk /\ defd_at fn v i.
Definition defd_out_of (b v : nat) : Prop :=
  (v < vreg_count fn)%nat /\ exists blk i, blocks g !! b = Some blk /\ Z.of_nat i = end_ blk - 1 /\ defd_after fn v i.

Lemma defd_closed : closed_under w (block_count g) (tb_defd ds) (pred_ids es) defd_in_of defd_out_of.
Proof.
  pose proof (go_blocks _ _ _ Hg) as Hok. split.
  - intros b c v Hb Hc%elem_of_pred_ids [Hv (blkc & i & Hblkc & Hi & Hd)]. split; [done|].
    destruct (edge_flow _ _ _ Hg c b Hc) as (blkc' & blk & i' & j & Hblkc' & Hblk & Hi' & Hf & Hs).
    assert (blkc' = blkc) as -> by congruence. assert (i' = i) as -> by lia. exists blk, j. split; [done|]. split; [done|].
    destruct Hd as [H|H]; [by eapply defd_keep|by eapply defd_write].
  - intros b v x Hb Hv Hx Htb. destruct (lookup_lt_is_Some_2 (blocks g) b Hb) as [blk Hblk].
    pose proof (block_nonempty _ _ Hok _ _ Hblk) as [Hne Hend]. destruct (Hlocal b Hb blk v Hblk) as [_ Hd].
    assert (forall k, (v < vreg_count fn)%nat -> start blk <= Z.of_nat k < end_ blk -> defd_after fn v k -> defd_out_of b v) as Hfin.
    { intros k Hvc Hk Hda. split; [done|]. exists blk, (Z.to_nat (end_ blk - 1)). split; [done|]. split; [lia|].
      by apply (defd_forward fn g es Hg v b blk k _ Hblk); [lia|lia|lia|]. }
    unfold tb_defd in Htb. apply orb_true_iff in Htb as [->|Htb].
    + destruct (Hx eq_refl) as [Hvc (blk' & i & Hblk' & Hi & Hda)]. assert (blk' = blk) as -> by congruence.
      apply (Hfin i); [done|lia|by left].
    + destruct (proj1 Hd Htb) as (Hvc & k & Hk & Hwr). apply (Hfin k); [done|lia|by right].
Qed.

Lemma defd_complete A B v : (v < vreg_count fn)%nat -> (forall b, (b < block_count g)%nat -> solved_at w (tb_defd ds) (pred_ids es) A B b) ->
  (entry_defined fn v -> bit A 0 v = true) ->
  forall i, defd_at fn v i -> forall b blk, blocks g !! b = Some blk -> start blk <= Z.of_nat i < end_ blk ->
  bit A b v = true \/ exists k, start blk <= Z.of_nat k < Z.of_nat i /\ writes fn k v.
Proof.
  intros Hv Hsol Hentry. pose proof (go_blocks _ _ _ Hg) as Hok.
  assert (forall i j, (i < insn_count fn)%nat -> insn_flow fn i j ->
    (forall b blk, blocks g !! b = Some blk -> start blk <= Z.of_nat i < end_ blk ->
       bit A b v = true \/ exists k, start blk <= Z.of_nat k <= Z.of_nat i /\ writes fn k v) ->
    forall b blk, blocks g !! b = Some blk -> start blk <= Z.of_nat j < end_ blk ->
      bit A b v = true \/ exists k, start blk <= Z.of_nat k < Z.of_nat j /\ writes fn k v) as Hstep.
  { intros i j Hi Hf IH b blk Hblk Hj. destruct (numbered_is_Some _ _ Hok i Hi) as (c & blkc & Hc & Hblkc).
    apply (block_member _ _ Hok c blkc i Hblkc Hi) in Hc. specialize (IH c blkc Hblkc Hc).
    pose proof (lookup_lt_Some _ _ _ Hblk) as Hb. pose proof (lookup_lt_Some _ _ _ Hblkc) as Hcl.
    assert (forall d blkd, blocks g !! d = Some blkd -> start blkd <= Z.of_nat j < end_ blkd -> d = b) as Huniq.
    { intros d blkd Hd Hjd. pose proof (block_nonempty _ _ Hok _ _ Hblk) as [_ He].
      assert (numbered (insns fn) !! j = Some (Z.of_nat b)) as E1 by (apply (block_member _ _ Hok b blk); [done|lia|done]).
      assert (numbered (insns fn) !! j = Some (Z.of_nat d)) as E2 by (apply (block_member _ _ Hok d blkd); [done|lia|done]).
      rewrite E1 in E2. injection E2. lia. }
    destruct (decide (Z.of_nat (S i) < end_ blkc)) as [Hin|Hlast].
    - apply (inner_flow fn g es Hg c blkc i j Hblkc) in Hf as ->; [|lia|done].
      assert (c = b) as -> by (apply (Huniq c blkc Hblkc); lia). assert (blkc = blk) as -> by congruence.
      destruct IH as [H|(k & Hk & Hwr)]; [by left|right]. exists k. split; [lia|done].
    - assert (Z.of_nat i = end_ blkc - 1) as Hie by lia.
      destruct (flow_enters fn g es Hg c blkc i j Hblkc Hie Hf) as (d & blkd & He & Hblkd & Hs).
      pose proof (block_nonempty _ _ Hok _ _ Hblkd) as [Hned _].
      assert (d = b) as -> by (apply (Huniq d blkd Hblkd); lia). left.
      destruct (Hsol b Hb v ltac:(lia)) as [Hjn _]. apply (Hjn c); [by apply elem_of_pred_ids|].
      destruct (Hsol c Hcl v ltac:(lia)) as [_ ->]. unfold tb_defd. apply orb_true_iff.
      destruct IH as [H|(k & Hk & Hwr)]; [by left|right]. destruct (Hlocal c Hcl blkc v Hblkc) as [_ Hd]. apply Hd.
      split; [done|]. exists k. split; [lia|done]. }
  assert (forall i j, insn_flow fn i j -> (i < insn_count fn)%nat) as Hlt.
  { intros i j (x & _ & _ & Hx & _). by apply lookup_lt_Some in Hx. }
  induction 1 as [He|i j Hwr Hf|i j Hd IH Hf].
  - intros b blk Hblk Hi. left. pose proof (block_nonempty _ _ Hok _ _ Hblk) as [Hne He'].
    assert (numbered (insns fn) !! O = Some (Z.of_nat b)) as E by (apply (block_member _ _ Hok b blk); [done|lia|done]).
    assert (b = O) as ->; [|by apply Hentry]. destruct (insns fn); [done|]. injection E. lia.
  - apply (Hstep i j); [by eapply Hlt|done|]. intros b blk Hblk Hi. right. exists i. split; [lia|done].
  - apply (Hstep i j); [by eapply Hlt|done|]. intros b blk Hblk Hi.
    destruct (IH b blk Hblk Hi) as [H|(k & Hk & Hwr)]; [by left|right]. exists k. split; [lia|done].
Qed.

Lemma defd_exact A B :
  (forall b v, bit A b v = true -> defd_in_of b v) -> (forall b v, bit B b v = true -> defd_out_of b v) ->
  (forall v, (v < vreg_count fn)%nat -> entry_defined fn v -> bit A 0 v = true) ->
  (forall b, (b < block_count g)%nat -> solved_at w (tb_defd ds) (pred_ids es) A B b) ->
  forall b v, (bit A b v = true <-> defd_in_of b v) /\ (bit B b v = true <-> defd_out_of b v).
Proof.
  intros HA HB Hentry Hsol b v. pose proof (go_blocks _ _ _ Hg) as Hok. split; (split; [auto|]); intros [Hv (blk & i & Hblk & Hi & Hd)];
    pose proof (lookup_lt_Some _ _ _ Hblk) as Hb; pose proof (block_nonempty _ _ Hok _ _ Hblk) as [Hne _].
  - destruct (defd_complete A B v Hv Hsol (Hentry v Hv) i Hd b blk Hblk ltac:(lia)) as [H|(k & Hk & _)]; [done|lia].
  - destruct (Hsol b Hb v ltac:(lia)) as [_ ->]. unfold tb_defd. apply orb_true_iff. destruct (Hlocal b Hb blk v Hblk) as [_ Hdef].
    destruct Hd as [Hd|Hd].
    + destruct (defd_complete A B v Hv Hsol (Hentry v Hv) i Hd b blk Hblk ltac:(lia)) as [H|(k & Hk & Hwr)]; [by left|right].
      apply Hdef. split; [done|]. exists k. split; [lia|done].
    + right. apply Hdef. split; [done|]. exists i. split; [lia|done].
Qed.
End solve.

(** * The iterations of the code *)

Section rounds.
Context (w : nat) (es : list (nat * nat)).

(** The state of the iterations: a graph with rows of the right size. *)
Record sized (g : MirCfg) : Prop := {
  sz_graph : graph_inv g es;
  sz_words : words g = w;
  sz_use : rows_ok w (block_count g) (use g);
  sz_def : rows_ok w (block_count g) (def g)
}.

Lemma sized_sets g li lo di d_o : sized g -> sized (with_sets (use g) (def g) li lo di d_o g).
Proof. intros [[H1 H2 H3 H4 H5] K1 K2 K3]. by split. Qed.

Lemma live_pass_eq k : forall g ch, sized g -> (k <= block_count g)%nat ->
  live_pass k g ch =
  (let! (r, (A, B)) := gpass (T_live (use g) (def g)) (succ_ids es) (rev (seq 0 k)) (live_out g) (live_in g) ch in
   Ret (r, with_sets (use g) (def g) B A (defd_in g) (defd_out g) g)).
Proof.
  induction k as [|k IH]; intros g ch Hg Hk.
  { cbn [live_pass seq rev gpass obind]. by destruct g. }
  rewrite seq_S, Nat.add_0_l, rev_app_distr. cbn [rev app live_pass gpass]. destruct Hg as [Hgr Hw Hu Hd].
  destruct (rows_lookup _ _ _ k Hu Hk) as (u & Eu & _). destruct (rows_lookup _ _ _ k Hd Hk) as (d & Ed & _).
  rewrite (get_nat _ _ _ Eu), (get_nat _ _ _ Ed), (succs_spec g es k Hgr Hk), succs_ids. cbn [obind].
  destruct (get (live_out g) (Z.of_nat k)) as [a0| |]; cbn [obind]; try done.
  destruct (get (live_in g) (Z.of_nat k)) as [x| |]; cbn [obind]; try done.
  destruct (join_rows (live_in g) (Z.of_nat <$> succ_ids es k) a0) as [a| |]; cbn [obind]; try done.
  destruct (put (live_out g) (Z.of_nat k) a) as [lo| |]; cbn [obind]; try done.
  assert (transfer_live u d a = T_live (use g) (def g) k a) as -> by (unfold T_live; by rewrite Eu, Ed).
  destruct (put (live_in g) (Z.of_nat k) (T_live (use g) (def g) k a)) as [li| |]; cbn [obind]; try done.
  rewrite IH; [done| |change (k <= block_count g)%nat; lia]. apply sized_sets. by split.
Qed.

Lemma live_rounds_eq fuel : forall g, sized g ->
  live_rounds fuel g =
  (let! (A, B) := grounds (T_live (use g) (def g)) (succ_ids es) fuel (rev (seq 0 (block_count g))) (live_out g) (live_in g) in
   Ret (with_sets (use g) (def g) B A (defd_in g) (defd_out g) g)).
Proof.
  induction fuel as [|fuel IH]; intros g Hg; cbn [live_rounds grounds]; [done|]. rewrite live_pass_eq by done.
  destruct (gpass _ _ _ _ _ _) as [[ch [A B]]| |]; cbn [obind]; try done. destruct ch; [|done].
  rewrite IH by (by apply sized_sets). done.
Qed.

Lemma defd_pass_eq bs : forall g ch, sized g -> Forall (fun b => (b < block_count g)%nat) bs ->
  defd_pass (Z.of_nat <$> bs) g ch =
  (let! (r, (A, B)) := gpass (T_defd (def g)) (pred_ids es) bs (defd_in g) (defd_out g) ch in
   Ret (r, with_sets (use g) (def g) (live_in g) (live_out g) A B g)).
Proof.
  induction bs as [|b bs IH]; intros g ch Hg Hbs.
  { cbn [fmap list_fmap defd_pass gpass obind]. by destruct g. }
  apply Forall_cons in Hbs as [Hb Hbs]. change (Z.of_nat <$> b :: bs) with (Z.of_nat b :: (Z.of_nat <$> bs)). cbn [defd_pass gpass].
  destruct Hg as [Hgr Hw Hu Hd]. destruct (rows_lookup _ _ _ b Hd Hb) as (d & Ed & _).
  rewrite (get_nat _ _ _ Ed), (preds_spec g es b Hgr Hb), preds_ids. cbn [obind].
  destruct (get (defd_in g) (Z.of_nat b)) as [a0| |]; cbn [obind]; try done.
  destruct (get (defd_out g) (Z.of_nat b)) as [x| |]; cbn [obind]; try done.
  destruct (join_rows (defd_out g) (Z.of_nat <$> pred_ids es b) a0) as [a| |]; cbn [obind]; try done.
  destruct (put (defd_in g) (Z.of_nat b) a) as [di| |]; cbn [obind]; try done.
  assert (zip_with Z.lor a d = T_defd (def g) b a) as -> by (unfold T_defd; by rewrite Ed).
  destruct (put (defd_out g) (Z.of_nat b) (T_defd (def g) b a)) as [d_o| |]; cbn [obind]; try done.
  rewrite IH; [done|apply sized_sets; by split|done].
Qed.

Lemma defd_rounds_eq fuel bs : forall g, sized g -> Forall (fun b => (b < block_count g)%nat) bs -> order g = Z.of_nat <$> bs ->
  defd_rounds fuel g =
  (let! (A, B) := grounds (T_defd (def g)) (pred_ids es) fuel bs (defd_in g) (defd_out g) in
   Ret (with_sets (use g) (def g) (live_in g) (live_out g) A B g)).
Proof.
  induction fuel as [|fuel IH]; intros g Hg Hbs Ho; cbn [defd_rounds grounds]; [done|]. rewrite Ho, defd_pass_eq by done.
  destruct (gpass _ _ _ _ _ _) as [[ch [A B]]| |]; cbn [obind]; try done. destruct ch; [|done].
  rewrite IH by (try apply sized_sets; done). done.
Qed.
End rounds.

Lemma tb_live_mono us ds b v : tb_live us ds b v false = true -> tb_live us ds b v true = true.
Proof. unfold tb_live. destruct (bit us b v), (bit ds b v); done. Qed.

Lemma tb_defd_mono ds b v : tb_defd ds b v false = true -> tb_defd ds b v true = true.
Proof. done. Qed.

(** ** Liveness *)

Lemma liveness_spec fn g es w : graph_ok fn g es -> sized w es g -> (vreg_count fn <= w * 64)%nat ->
  (forall c, (c < block_count g)%nat -> local_at fn g (use g) (def g) c) ->
  live_in g = replicate (block_count g) (replicate w 0) -> live_out g = replicate (block_count g) (replicate w 0) ->
  exists li lo, mir_cfg_liveness g = Ret (with_sets (use g) (def g) li lo (defd_in g) (defd_out g) g) /\
    rows_ok w (block_count g) li /\ rows_ok w (block_count g) lo /\
    forall b v, (bit lo b v = true <-> live_out_of fn g b v) /\ (bit li b v = true <-> live_in_of fn g b v).
Proof.
  intros Hg Hs Hw Hloc Hli Hlo. unfold mir_cfg_liveness. rewrite (live_rounds_eq w es _ g Hs), Hli, Hlo.
  destruct Hs as [Hgr Hww Hu Hd]. set (z := replicate (block_count g) (replicate w 0)).
  destruct (grounds_spec w (block_count g) (T_live (use g) (def g)) (tb_live (use g) (def g)) (succ_ids es)
    (fun b r Hb => T_live_ok w (block_count g) (use g) (def g) b r Hu Hd Hb) (tb_live_mono _ _) (live_nbr fn g es Hg)
    (rev (seq 0 (block_count g)))) with (fuel := set_rounds g) (A := z) (B := z) as (A & B & E & HA & HB & _ & Hsound & Hsol).
  - apply Forall_rev, Forall_forall. intros b Hb%elem_of_seq. lia.
  - intros b Hb. apply list_elem_of_In, in_rev. rewrite rev_involutive. apply list_elem_of_In, elem_of_seq. lia.
  - apply rows_zero.
  - apply rows_zero.
  - intros b v Hb. exfalso; revert Hb; unfold z; by rewrite bit_zero.
  - unfold set_rounds. rewrite Hww. lia.
  - rewrite E. cbn [obind]. exists B, A. split; [done|]. split; [done|]. split; [done|].
    destruct (Hsound _ _ (live_closed fn g es Hg w Hw (use g) (def g) Hloc)) as [H1 H2]; [intros b v Hb; exfalso; revert Hb; unfold z; by rewrite bit_zero..|].
    by apply (live_exact fn g es Hg w Hw (use g) (def g) Hloc).
Qed.

(** ** Definedness *)

Lemma seed_params_spec fn w ps : (vreg_count fn <= w * 64)%nat -> forall e, row_ok w e ->
  exists e', seed_params fn ps e = Ret e' /\ row_ok w e' /\
    forall v, mem e' v = true <-> mem e v = true \/
      ((v < vreg_count fn)%nat /\ exists p, p ∈ ps /\ (p_vreg p = Z.of_nat v \/ p_sysv_storage p = Z.of_nat v)).
Proof.
  intros Hw. induction ps as [|p ps IH]; intros e He; cbn [seed_params].
  { exists e. split; [done|]. split; [done|]. intros v. split; [by left|]. intros [H|(_ & p & Hp & _)]; [done|by apply not_elem_of_nil in Hp]. }
  destruct (add_def_spec fn w Hw (p_vreg p) e He) as (e1 & -> & He1 & Hm1). cbn [obind].
  destruct (add_def_spec fn w Hw (p_sysv_storage p) e1 He1) as (e2 & -> & He2 & Hm2). cbn [obind].
  destruct (IH e2 He2) as (e' & E & He' & Hm'). exists e'. split; [done|]. split; [done|]. intros v. rewrite Hm', Hm2, Hm1. split.
  - intros [[[H|[Hv H]]|[Hv H]]|(Hv & q & Hq & H)]; [by left|right..]; (split; [done|]).
    + exists p. split; [left|by left].
    + exists p. split; [left|by right].
    + exists q. split; [by right|done].
  - intros [H|(Hv & q & [->|Hq]%elem_of_cons & H)]; [by left; left; left| |].
    + destruct H as [H|H]; left; [left; by right|by right].
    + right. split; [done|]. by exists q.
Qed.

Lemma seed_spec fn g w : (vreg_count fn <= w * 64)%nat -> (0 < block_count g)%nat ->
  defd_in g = replicate (block_count g) (replicate w 0) ->
  exists di, mir_cfg_seed_entry_defs fn g = Ret (with_sets (use g) (def g) (live_in g) (live_out g) di (defd_out g) g) /\
    rows_ok w (block_count g) di /\ forall b v, bit di b v = true <-> b = O /\ (v < vreg_count fn)%nat /\ entry_defined fn v.
Proof.
  intros Hw Hn Hdi. unfold mir_cfg_seed_entry_defs. rewrite Hdi.
  assert (rows_ok w (block_count g) (replicate (block_count g) (replicate w 0))) as Hz by apply rows_zero.
  destruct (rows_lookup _ _ _ O Hz Hn) as (e & Ee & He). pose proof (get_nat _ _ _ Ee) as Eg. change (Z.of_nat 0) with 0 in Eg.
  rewrite Eg. cbn [obind]. clear Eg.
  assert (forall v, mem e v = false) as Hez.
  { intros v. pose proof (bit_zero w (block_count g) 0 v) as H. unfold bit in H. by rewrite Ee in H. }
  destruct (seed_params_spec fn w (params fn) Hw e He) as (e1 & -> & He1 & Hm1). cbn [obind].
  assert (exists e2, (if returns_indirect fn then add_def fn (indirect_return_vreg fn) e1 else Ret e1) = Ret e2 /\ row_ok w e2 /\
    forall v, mem e2 v = true <-> (v < vreg_count fn)%nat /\ entry_defined fn v) as (e2 & -> & He2 & Hm2).
  { destruct (returns_indirect fn) eqn:Er.
    - destruct (add_def_spec fn w Hw (indirect_return_vreg fn) e1 He1) as (e2 & E & He2 & Hm2). exists e2. split; [done|]. split; [done|].
      intros v. rewrite Hm2, Hm1, Hez. unfold entry_defined. rewrite Er. split; [intros [[H|H]|H]; [done|tauto..]|intros [Hv [H|[_ H]]]; tauto].
    - exists e1. split; [done|]. split; [done|]. intros v. rewrite Hm1, Hez. unfold entry_defined. rewrite Er.
      split; [intros [H|H]; [done|tauto]|intros [Hv [H|[H _]]]; [tauto|done]]. }
  cbn [obind]. pose proof (put_nat (replicate (block_count g) (replicate w 0)) 0 e2 ltac:(destruct Hz; lia)) as Ep.
  change (Z.of_nat 0) with 0 in Ep. rewrite Ep. cbn [obind]. eexists. split; [done|]. split; [by apply rows_insert|].
  intros b v. rewrite (bit_insert w (block_count g)) by done. destruct (decide (b = O)) as [->|Hne].
  - rewrite Hm2. tauto.
  - rewrite bit_zero. split; [done|]. by intros [? _].
Qed.

Lemma definedness_spec fn g es w bs : graph_ok fn g es -> sized w es g -> (vreg_count fn <= w * 64)%nat -> (0 < block_count g)%nat ->
  (forall c, (c < block_count g)%nat -> local_at fn g (use g) (def g) c) ->
  order g = Z.of_nat <$> bs -> (forall b, b ∈ bs <-> (b < block_count g)%nat) ->
  defd_in g = replicate (block_count g) (replicate w 0) -> defd_out g = replicate (block_count g) (replicate w 0) ->
  exists di d_o, mir_cfg_definedness fn g = Ret (with_sets (use g) (def g) (live_in g) (live_out g) di d_o g) /\
    rows_ok w (block_count g) di /\ rows_ok w (block_count g) d_o /\
    forall b v, (bit di b v = true <-> defd_in_of fn g b v) /\ (bit d_o b v = true <-> defd_out_of fn g b v).
Proof.
  intros Hg Hs Hw Hn Hloc Ho Hbs Hdi Hdo. unfold mir_cfg_definedness.
  destruct (seed_spec fn g w Hw Hn Hdi) as (di0 & -> & Hdi0 & Hseed). cbn [obind].
  set (g1 := with_sets _ _ _ _ di0 _ g). assert (sized w es g1) as Hs1 by (by apply sized_sets).
  assert (Forall (fun b => (b < block_count g1)%nat) bs) as Hall by (apply Forall_forall; intros b Hb; by apply Hbs).
  rewrite (defd_rounds_eq w es _ bs g1 Hs1 Hall Ho). change (def g1) with (def g). change (defd_in g1) with di0.
  change (defd_out g1) with (defd_out g). rewrite Hdo. destruct Hs as [Hgr Hww Hu Hd].
  set (z := replicate (block_count g) (replicate w 0)).
  destruct (grounds_spec w (block_count g) (T_defd (def g)) (tb_defd (def g)) (pred_ids es)
    (fun b r Hb => T_defd_ok w (block_count g) (def g) b r Hd Hb) (tb_defd_mono _) (defd_nbr fn g es Hg) bs) with
    (fuel := set_rounds g1) (A := di0) (B := z) as (A & B & E & HA & HB & Hbelow & Hsound & Hsol).
  - done.
  - intros b Hb. by apply Hbs.
  - done.
  - apply rows_zero.
  - intros b v Hb. exfalso. revert Hb. unfold z. by rewrite bit_zero.
  - unfold set_rounds. change (words g1) with (words g). rewrite Hww. change (block_count g1) with (block_count g). lia.
  - rewrite E. cbn [obind]. exists A, B. split; [done|]. split; [done|]. split; [done|].
    destruct (Hsound _ _ (defd_closed fn g es Hg w Hw (use g) (def g) Hloc)) as [H1 H2].
    + intros b v Hb. apply Hseed in Hb as (-> & Hv & He). split; [done|].
      destruct (lookup_lt_is_Some_2 (blocks g) 0 Hn) as [blk Hblk]. exists blk, O. split; [done|].
      pose proof (go_blocks _ _ _ Hg) as Hok. split; [|by constructor]. destruct (bo_used _ _ Hok O Hn) as [i Hi].
      assert (i < insn_count fn)%nat as Hi' by (apply lookup_lt_Some in Hi; unfold numbered in Hi; by rewrite number_blocks_length in Hi).
      destruct (numbered_is_Some _ _ Hok O ltac:(lia)) as (c & blkc & Hc & Hblkc).
      pose proof (numbered_mono _ _ _ _ _ (Nat.le_0_l i) Hc Hi). assert (c = O) as -> by lia. assert (blkc = blk) as -> by congruence.
      pose proof (block_nonempty _ _ Hok _ _ Hblk). apply (block_member _ _ Hok O blk) in Hc; [lia|done|lia].
    + intros b v Hb. exfalso. revert Hb. unfold z. by rewrite bit_zero.
    + apply (defd_exact fn g es Hg w Hw (use g) (def g) Hloc); [done|done| |done].
      intros v Hv He. apply Hbelow, Hseed. done.
Qed.
End CfgLive.
