(* ===== verification/CfgRpo.v ===== *)
(** Reverse post-order.

    The depth-first search visits exactly the blocks that can be reached from
    the entry; in the order it leaves behind the entry comes first and every
    other block comes after one of its predecessors. *)
From S2P Require Import Prelude Mir Probe MirCfg CfgGraph.
#[local] Open Scope Z_scope.

Module CfgRpo.
Import Mir Probe Cfg CfgGraph.

(** Blocks that control can reach from the entry. *)
Inductive reach (es : list (nat * nat)) : nat -> Prop :=
| reach_entry : reach es 0
| reach_edge b c : reach es b -> (b, c) ∈ es -> reach es c.

Section search.
Context (g : MirCfg) (es : list (nat * nat)) (Hg : graph_inv g es).

(** The work left: the edges on the stack and those of the blocks not seen. *)
Definition weight (b : nat) : nat := S (length (succs_of es b)).
Definition unseen (seen : list bool) : nat :=
  sum_list ((fun b => if decide (seen !! b = Some true) then O else weight b) <$> seq 0 (block_count g)).

Lemma sum_update (f f' : nat -> nat) l b : b ∈ l -> NoDup l -> (forall c, c <> b -> f' c = f c) ->
  (sum_list (f' <$> l) + f b = sum_list (f <$> l) + f' b)%nat.
Proof.
  intros Hb Hnd Hf. induction l as [|c l IH]; [by apply not_elem_of_nil in Hb|]. apply NoDup_cons in Hnd as [Hc Hnd].
  change (f' c + sum_list (f' <$> l) + f b = f c + sum_list (f <$> l) + f' b)%nat.
  apply elem_of_cons in Hb as [<-|Hb].
  - assert (f' <$> l = f <$> l) as ->; [|lia]. apply list_fmap_ext. intros i x Hx. apply Hf. intros ->.
    apply Hc. by eapply list_elem_of_lookup_2.
  - specialize (IH Hb Hnd). rewrite (Hf c) by (intros ->; done). lia.
Qed.

Lemma unseen_mark seen b : (b < block_count g)%nat -> length seen = block_count g -> seen !! b <> Some true ->
  (unseen (<[b := true]> seen) + weight b = unseen seen)%nat.
Proof.
  intros Hb Hl Hs. unfold unseen.
  pose proof (sum_update (fun c => if decide (seen !! c = Some true) then O else weight c)
    (fun c => if decide (<[b := true]> seen !! c = Some true) then O else weight c) (seq 0 (block_count g)) b) as H.
  cbv beta in H. rewrite (decide_False (P := seen !! b = Some true)) in H by done.
  rewrite (decide_True (P := <[b:=true]> seen !! b = Some true)) in H by (apply list_lookup_insert_eq; lia).
  rewrite H; [lia|apply elem_of_seq; lia|apply NoDup_seq|].
  intros c Hc. by rewrite list_lookup_insert_ne.
Qed.

Lemma sum_zero {A} (l : list A) : sum_list ((fun _ => O) <$> l) = O.
Proof. by induction l. Qed.

Lemma sum_add {A} (f h : A -> nat) l : sum_list ((fun x => f x + h x)%nat <$> l) = (sum_list (f <$> l) + sum_list (h <$> l))%nat.
Proof.
  induction l as [|x l IH]; [done|]. change (f x + h x + sum_list ((fun x => f x + h x)%nat <$> l) =
    f x + sum_list (f <$> l) + (h x + sum_list (h <$> l)))%nat. rewrite IH. lia.
Qed.

Lemma sum_one (l : list nat) b : b ∈ l -> NoDup l -> sum_list ((fun c => if decide (b = c) then 1%nat else O) <$> l) = 1%nat.
Proof.
  intros Hb Hnd. pose proof (sum_update (fun _ => O) (fun c => if decide (b = c) then 1%nat else O) l b Hb Hnd) as H.
  assert (forall c, c <> b -> (if decide (b = c) then 1%nat else O) = O) as Hf by (intros c Hc; by rewrite decide_False).
  specialize (H Hf). cbv beta in H. rewrite sum_zero, (decide_True (P := b = b)) in H by done. lia.
Qed.

Lemma total_edges l : (forall f t, (f, t) ∈ l -> (f < block_count g)%nat) ->
  sum_list ((fun b => length (succs_of l b)) <$> seq 0 (block_count g)) = length l.
Proof.
  induction l as [|[f t] l IH]; intros Hl.
  - apply (sum_zero (seq 0 (block_count g))).
  - transitivity (sum_list ((fun b => (if decide (f = b) then 1 else 0) + length (succs_of l b))%nat <$> seq 0 (block_count g))).
    + f_equal. apply list_fmap_ext. intros i b _. rewrite succs_of_cons. by destruct (decide (f = b)).
    + rewrite sum_add, sum_one, IH; [done| | |apply NoDup_seq].
      * intros f' t' H. eapply (Hl f' t'). by right.
      * apply elem_of_seq. specialize (Hl f t). split; [lia|]. apply Hl. left.
Qed.

Lemma unseen_max seen : (unseen seen <= block_count g + length es)%nat.
Proof.
  unfold unseen. transitivity (sum_list ((fun b => 1 + length (succs_of es b))%nat <$> seq 0 (block_count g))).
  - induction (seq 0 (block_count g)) as [|b l IH]; [done|].
    change ((if decide (seen !! b = Some true) then O else weight b) +
      sum_list ((fun b => if decide (seen !! b = Some true) then O else weight b) <$> l) <=
      1 + length (succs_of es b) + sum_list ((fun b => 1 + length (succs_of es b))%nat <$> l))%nat.
    unfold weight at 1. destruct (decide _); lia.
  - rewrite sum_add, total_edges.
    + assert (forall m k, sum_list ((fun _ => 1%nat) <$> seq k m) = m) as ->; [|lia].
      induction m as [|m IH]; intros k; [done|]. change (1 + sum_list ((fun _ => 1%nat) <$> seq (S k) m) = S m)%nat. by rewrite IH.
    + intros f t H. apply (gi_nodes _ _ Hg) in H. tauto.
Qed.

(** * The invariant of the search *)

(** A block on the stack, the next edge, and the edges still to follow. *)
Record frame := mkFrame { fb : nat; fe : Z; fl : list Z }.

Definition stack_of (st : list frame) : list (Z * Z) := (fun p => (Z.of_nat (fb p), fe p)) <$> st.

(** [st] is the stack, [po] the blocks left behind. *)
Record rpo_inv (st : list frame) (seen : list bool) (po : list nat) : Prop := {
  ri_len : length seen = block_count g;
  ri_nodup : NoDup ((fb <$> st) ++ po);
  ri_seen : forall b, seen !! b = Some true <-> b ∈ (fb <$> st) ++ po;
  ri_edges : forall p, p ∈ st -> linked (edge_next g) (edge_to g) (fe p) (fl p) /\
    exists pre, succs_of es (fb p) = pre ++ fl p /\ forall c, Z.of_nat c ∈ pre -> seen !! c = Some true;
  ri_post : forall b c, b ∈ po -> (b, c) ∈ es -> seen !! c = Some true;
  ri_reach : forall b, b ∈ (fb <$> st) ++ po -> reach es b;
  ri_stack : forall i p q, st !! i = Some p -> st !! S i = Some q -> (fb q, fb p) ∈ es;
  ri_last : match st with [] => last po = Some O | _ => fb <$> last st = Some O end;
  ri_parent : forall k b, po !! k = Some b -> b = O \/
    exists q, (q, b) ∈ es /\ (q ∈ fb <$> st \/ exists k', (k < k')%nat /\ po !! k' = Some q)
}.

Definition left_over (st : list frame) (seen : list bool) : nat := (sum_list ((fun p => S (length (fl p))) <$> st) + unseen seen)%nat.

Lemma seen_lt seen b : length seen = block_count g -> seen !! b = Some true -> (b < block_count g)%nat.
Proof. intros <- H. by apply lookup_lt_Some in H. Qed.

Lemma bound_nodup l : NoDup l -> (forall b, b ∈ l -> (b < block_count g)%nat) -> (length l <= block_count g)%nat.
Proof.
  intros Hnd Hl. rewrite <- (length_seq (block_count g) 0). apply submseteq_length, NoDup_submseteq; [done|].
  intros b Hb. apply elem_of_seq. specialize (Hl b Hb). lia.
Qed.

Lemma inv_lt st seen po b : rpo_inv st seen po -> b ∈ (fb <$> st) ++ po -> (b < block_count g)%nat.
Proof. intros H Hb. apply (seen_lt seen); [apply H|by apply (ri_seen _ _ _ H)]. Qed.

(** The next edge leads to a block seen already. *)
Lemma inv_advance p n st seen po c l : rpo_inv (p :: st) seen po -> fl p = Z.of_nat c :: l ->
  linked (edge_next g) (edge_to g) n l -> seen !! c = Some true -> rpo_inv (mkFrame (fb p) n l :: st) seen po.
Proof.
  intros [H1 H2 H3 H4 H5 H6 H7 H8 H9] Hl Hln Hc. split; [exact H1|exact H2|exact H3| |exact H5|exact H6| | |exact H9].
  - intros q [->|Hq]%elem_of_cons; [|apply H4; by right]. split; [done|]. destruct (H4 p) as (_ & pre & E & Hpre); [left|].
    exists (pre ++ [Z.of_nat c]). cbn [fb fl]. split; [by rewrite <- app_assoc, E, Hl|].
    intros d [Hd|Hd%list_elem_of_singleton]%elem_of_app; [by apply Hpre|]. by assert (d = c) as -> by lia.
  - intros [|i] q r Hq Hr; [|by apply (H7 (S i))]. injection Hq as <-. by apply (H7 O p).
  - destruct st as [|q st]; [|done]. cbn in H8 |- *. done.
Qed.

(** It leads to a new block. *)
Lemma inv_push p st seen po c e : rpo_inv (p :: st) seen po -> (fb p, c) ∈ es -> (c < block_count g)%nat ->
  seen !! c <> Some true -> linked (edge_next g) (edge_to g) e (succs_of es c) ->
  rpo_inv (mkFrame c e (succs_of es c) :: p :: st) (<[c := true]> seen) po.
Proof.
  intros H Hpc Hc Hs He. pose proof H as [H1 H2 H3 H4 H5 H6 H7 H8 H9].
  assert (forall d, <[c := true]> seen !! d = Some true <-> d = c \/ seen !! d = Some true) as Hins.
  { intros d. destruct (decide (d = c)) as [->|Hne].
    - rewrite list_lookup_insert_eq by lia. tauto.
    - rewrite list_lookup_insert_ne by done. tauto. }
  split.
  - by rewrite length_insert.
  - cbn. constructor; [|exact H2]. intros Hin. by apply Hs, H3.
  - intros d. rewrite Hins, H3. cbn. rewrite (elem_of_cons _ _ c). tauto.
  - intros q [->|Hq]%elem_of_cons.
    + split; [done|]. exists []. split; [done|]. intros d Hd. by apply not_elem_of_nil in Hd.
    + destruct (H4 q Hq) as (Hl & pre & E & Hpre). split; [done|]. exists pre. split; [done|]. intros d Hd. apply Hins. right. by apply Hpre.
  - intros b d Hb Hbd. apply Hins. right. by eapply H5.
  - intros b Hb. cbn in Hb. apply elem_of_cons in Hb as [->|Hb]; [|by apply H6]. eapply reach_edge; [|exact Hpc].
    apply H6. cbn. left.
  - intros [|i] q r Hq Hr; [|by apply (H7 i)]. injection Hq as <-. injection Hr as <-. done.
  - exact H8.
  - intros k b Hk. destruct (H9 k b Hk) as [->|(q & Hq & Hor)]; [by left|right]. exists q. split; [done|].
    destruct Hor as [Hin|Hin]; [left|by right]. cbn. by right.
Qed.

Lemma inv_push_advance p n st seen po c l e : rpo_inv (p :: st) seen po -> (fb p, c) ∈ es -> (c < block_count g)%nat ->
  seen !! c <> Some true -> linked (edge_next g) (edge_to g) e (succs_of es c) ->
  fl p = Z.of_nat c :: l -> linked (edge_next g) (edge_to g) n l ->
  rpo_inv (mkFrame c e (succs_of es c) :: mkFrame (fb p) n l :: st) (<[c := true]> seen) po.
Proof.
  intros H Hpc Hc Hns He Hfl Hln. pose proof (ri_len _ _ _ H) as Hlen.
  destruct (inv_push p st seen po c e H Hpc Hc Hns He) as [H1 H2 H3 H4 H5 H6 H7 H8 H9].
  split; [exact H1|exact H2|exact H3| |exact H5|exact H6| |by destruct st|exact H9].
  - intros q [->|[->|Hq]%elem_of_cons]%elem_of_cons; [apply H4; left| |apply H4; right; by right].
    split; [done|]. cbn [fb fl]. destruct (H4 p) as (_ & pre & E & Hpre); [right; left|].
    exists (pre ++ [Z.of_nat c]). split; [by rewrite <- app_assoc, E, Hfl|].
    intros d [Hd|Hd%list_elem_of_singleton]%elem_of_app; [by apply Hpre|]. assert (d = c) as -> by lia.
    apply list_lookup_insert_eq. by rewrite Hlen.
  - intros [|[|i]] q r Hq Hr; [injection Hq as <-; injection Hr as <-; by apply (H7 O _ p)| |by apply (H7 (S (S i)))].
    injection Hq as <-. by apply (H7 1%nat p).
Qed.

(** All edges of the block have been followed. *)
Lemma inv_pop p st seen po : rpo_inv (p :: st) seen po -> fl p = [] -> rpo_inv st seen (po ++ [fb p]).
Proof.
  intros [H1 H2 H3 H4 H5 H6 H7 H8 H9] Hl.
  assert (forall b, b ∈ (fb <$> st) ++ po ++ [fb p] <-> b ∈ (fb <$> p :: st) ++ po) as Hperm.
  { intros b. cbn. rewrite elem_of_cons, !elem_of_app, list_elem_of_singleton. tauto. }
  split.
  - done.
  - cbn in H2. apply NoDup_cons in H2 as [Hp Hnd]. rewrite app_assoc. apply NoDup_app. split; [done|]. split.
    + intros x Hx ->%list_elem_of_singleton. done.
    + apply NoDup_singleton.
  - intros b. by rewrite Hperm.
  - intros q Hq. apply H4. by right.
  - intros b c [Hb|Hb%list_elem_of_singleton]%elem_of_app Hbc; [by eapply H5|]. subst b.
    destruct (H4 p) as (_ & pre & E & Hpre); [left|]. rewrite Hl, app_nil_r in E. apply Hpre. rewrite <- E.
    apply elem_of_succs. by exists c.
  - intros b Hb. by apply H6, Hperm.
  - intros i q r Hq Hr. by apply (H7 (S i) q r).
  - destruct st as [|q st]; [|done]. cbn in H8. rewrite last_snoc. exact H8.
  - intros k b Hk. apply lookup_app_Some in Hk as [Hk|[Hge Hk]].
    + destruct (H9 k b Hk) as [->|(q & Hq & Hor)]; [by left|right]. exists q. split; [done|]. cbn in Hor.
      destruct Hor as [[->|Hin]%elem_of_cons|(k' & Hk' & Hq')].
      * right. exists (length po). split; [by apply lookup_lt_Some in Hk|]. by rewrite lookup_app_r, Nat.sub_diag.
      * by left.
      * right. exists k'. split; [done|]. by apply lookup_app_l_Some.
    + destruct (k - length po)%nat as [|?]; [|done]. cbn in Hk. injection Hk as <-. destruct st as [|q st].
      * left. cbn in H8. congruence.
      * right. exists (fb q). split; [by apply (H7 O p q)|]. left. cbn. left.
Qed.

Lemma rpo_loop_ok fuel : forall st seen po, rpo_inv st seen po -> (left_over st seen < fuel)%nat ->
  exists po' seen', rpo_loop fuel g (stack_of st) seen (Z.of_nat <$> po) = Ret (Z.of_nat <$> po') /\ rpo_inv [] seen' po'.
Proof.
  induction fuel as [|fuel IH]; intros st seen po H Hf; [lia|]. cbn [rpo_loop].
  destruct st as [|p st]; [by exists po, seen|].
  change (stack_of (p :: st)) with ((Z.of_nat (fb p), fe p) :: stack_of st). cbv iota.
  destruct (ri_edges _ _ _ H p ltac:(left)) as (Hlk & pre & E & Hpre).
  assert (left_over (p :: st) seen = S (length (fl p)) + left_over st seen)%nat as Hlo by (unfold left_over; cbn; lia).
  inversion Hlk as [e He E1 E2|e t n l He Ht Hnx Hlt Hl E1 E2]; subst e.
  - rewrite (proj2 (Z.leb_gt 0 (fe p))) by lia. symmetry in E2. pose proof (inv_pop p st seen po H E2) as Hp.
    pose proof (bound_nodup _ (ri_nodup _ _ _ Hp) (fun b => inv_lt _ _ _ b Hp)) as Hb. rewrite !length_app in Hb. cbn [length] in Hb.
    rewrite length_fmap, (proj2 (Nat.ltb_lt _ _)) by lia.
    destruct (IH st seen (po ++ [fb p]) Hp) as (po' & seen' & Er & Hr); [lia|]. exists po', seen'. split; [|done].
    rewrite <- Er. by rewrite fmap_app.
  - rewrite (proj2 (Z.leb_le 0 (fe p))) by lia. rewrite Ht, Hnx. cbn [obind].
    assert (t ∈ succs_of es (fb p)) as Hts. { rewrite E, <- E2. apply elem_of_app. right. left. }
    apply elem_of_succs in Hts as (c & -> & Hpc). pose proof (proj2 (gi_nodes _ _ Hg _ _ Hpc)) as Hc.
    destruct (lookup_lt_is_Some_2 seen c) as [s Hs]; [by rewrite (ri_len _ _ _ H)|]. rewrite (get_nat _ _ _ Hs). cbn [obind].
    destruct s.
    + pose proof (inv_advance p n st seen po c l H (eq_sym E2) Hl Hs) as Ha.
      destruct (IH _ _ _ Ha) as (po' & seen' & Er & Hr); [|exists po', seen'; split; [exact Er|done]].
      assert (left_over (mkFrame (fb p) n l :: st) seen = S (length l) + left_over st seen)%nat as -> by (unfold left_over; cbn; lia).
      rewrite <- E2 in Hlo. cbn [length] in Hlo. lia.
    + assert (seen !! c <> Some true) as Hns by congruence. destruct (lookup_lt_is_Some_2 (blocks g) c Hc) as [blk Hblk].
      pose proof (gi_succ _ _ Hg c blk Hblk) as Hlc.
      pose proof (inv_push_advance p n st seen po c l _ H Hpc Hc Hns Hlc (eq_sym E2) Hl) as Hpush.
      pose proof (bound_nodup _ (ri_nodup _ _ _ Hpush) (fun b => inv_lt _ _ _ b Hpush)) as Hb. rewrite length_app, length_fmap in Hb. cbn [length] in Hb |- *.
      unfold stack_of at 1. rewrite length_fmap. rewrite (proj2 (Nat.ltb_lt _ _)) by lia.
      rewrite put_nat by (by rewrite (ri_len _ _ _ H)). cbn [obind]. rewrite (get_nat _ _ _ Hblk). cbn [obind].
      destruct (IH _ _ _ Hpush) as (po' & seen' & Er & Hr); [|exists po', seen'; split; [exact Er|done]].
      assert (left_over (mkFrame c (succ_head blk) (succs_of es c) :: mkFrame (fb p) n l :: st) (<[c:=true]> seen) =
        S (length (succs_of es c)) + (S (length l) + left_over st (<[c:=true]> seen)))%nat as -> by (unfold left_over; cbn; lia).
      pose proof (unseen_mark seen c Hc (ri_len _ _ _ H) Hns) as Hu. unfold weight in Hu.
      rewrite <- E2 in Hlo. cbn [length] in Hlo. unfold left_over in *. lia.
Qed.
End search.

(** * The order *)

(** The exchange of the halves, [k] steps done. *)
Definition swapped (l l' : list Z) (k : nat) : Prop :=
  length l' = length l /\ forall i, (i < length l)%nat ->
    l' !! i = if decide (i < k \/ length l - k <= i)%nat then l !! (length l - 1 - i)%nat else l !! i.

Lemma swap_loop_ok l m : forall k l', (2 * (k + m) <= length l)%nat -> swapped l l' k ->
  exists l2, swap_loop m k l' = Ret l2 /\ swapped l l2 (k + m).
Proof.
  induction m as [|m IH]; intros k l' Hk [Hl Hs]; cbn [swap_loop].
  { exists l'. split; [done|]. rewrite Nat.add_0_r. by split. }
  set (j := (length l - 1 - k)%nat). rewrite Hl. fold j.
  destruct (lookup_lt_is_Some_2 l k) as [x Hx]; [lia|]. destruct (lookup_lt_is_Some_2 l j) as [y Hy]; [lia|].
  assert (l' !! k = Some x) as Ex by (rewrite Hs by lia; rewrite decide_False by lia; done).
  assert (l' !! j = Some y) as Ey by (rewrite Hs by lia; rewrite decide_False by lia; done).
  rewrite (get_nat _ _ _ Ex), (get_nat _ _ _ Ey). cbn [obind]. rewrite put_nat by lia. cbn [obind].
  rewrite put_nat by (rewrite length_insert; lia). cbn [obind].
  destruct (IH (S k) (<[j:=x]> (<[k:=y]> l'))) as (l2 & E & H2); [lia| |exists l2; split; [exact E|by rewrite Nat.add_succ_r]].
  split; [by rewrite !length_insert|]. intros i Hi. destruct (decide (i = j)) as [->|Hj].
  - rewrite list_lookup_insert_eq by (rewrite length_insert; lia). rewrite decide_True by lia.
    replace (length l - 1 - j)%nat with k by lia. done.
  - rewrite list_lookup_insert_ne by done. destruct (decide (i = k)) as [->|Hik].
    + rewrite list_lookup_insert_eq by lia. rewrite decide_True by lia. done.
    + rewrite list_lookup_insert_ne by done. rewrite Hs by done. destruct (decide (i < k \/ length l - k <= i)%nat).
      * rewrite decide_True by lia. done.
      * rewrite decide_False by lia. done.
Qed.

Lemma swap_loop_reverse l : swap_loop (length l / 2) 0 l = Ret (reverse l).
Proof.
  pose proof (Nat.div_mod_eq (length l) 2) as Hd. pose proof (Nat.mod_upper_bound (length l) 2 ltac:(lia)) as Hm.
  destruct (swap_loop_ok l (length l / 2) 0 l) as (l2 & E & Hl & Hs); [lia| |].
  { split; [done|]. intros i Hi. by rewrite decide_False by lia. }
  rewrite E. f_equal. apply (list_eq_same_length _ _ (length l)); [by rewrite length_reverse|done|].
  intros i x y Hi Hx Hy. rewrite reverse_lookup in Hy by done. rewrite Hs in Hx by done. rewrite Nat.add_0_l in Hx.
  replace (length l - S i)%nat with (length l - 1 - i)%nat in Hy by lia.
  destruct (decide _) as [|Hno]; [congruence|]. replace (length l - 1 - i)%nat with i in Hy by lia. congruence.
Qed.

Lemma assign_rpo_ok ord : forall k bs, NoDup ord -> Forall (fun b => (b < length bs)%nat) ord ->
  exists bs', assign_rpo (Z.of_nat <$> ord) k bs = Ret bs' /\ length bs' = length bs /\
    (forall j b blk, ord !! j = Some b -> bs !! b = Some blk -> bs' !! b = Some (set_rpo (k + Z.of_nat j) blk)) /\
    (forall b, b ∉ ord -> bs' !! b = bs !! b).
Proof.
  induction ord as [|b ord IH]; intros k bs Hnd Hlt.
  { exists bs. split; [done|]. split; [done|]. split; [done|]. done. }
  apply NoDup_cons in Hnd as [Hb Hnd]. apply Forall_cons in Hlt as [Hbl Hlt].
  change (Z.of_nat <$> b :: ord) with (Z.of_nat b :: (Z.of_nat <$> ord)). cbn [assign_rpo].
  destruct (lookup_lt_is_Some_2 bs b Hbl) as [blk Hblk]. rewrite (get_nat _ _ _ Hblk). cbn [obind]. rewrite put_nat by done. cbn [obind].
  destruct (IH (k + 1) (<[b := set_rpo k blk]> bs) Hnd) as (bs' & E & Hl & Hin & Hout).
  { eapply Forall_impl; [exact Hlt|]. intros c Hc. by rewrite length_insert. }
  exists bs'. split; [done|]. rewrite length_insert in Hl. split; [done|]. split.
  - intros [|j] c cblk Hj Hc.
    + injection Hj as <-. assert (cblk = blk) as -> by congruence. rewrite Hout by done. rewrite list_lookup_insert_eq by done.
      f_equal. f_equal. lia.
    + assert (c <> b) as Hne by (intros ->; by apply Hb, (list_elem_of_lookup_2 _ j)).
      rewrite (Hin j c cblk); [f_equal; f_equal; lia|done|by rewrite list_lookup_insert_ne].
  - intros c [Hne Hc]%not_elem_of_cons. rewrite Hout by done. by rewrite list_lookup_insert_ne.
Qed.

Lemma alloc_many_spec n : forall h, exists ok h', alloc_many n h = (ok, h') /\ heap_grants h' = heap_grants h /\
  ((forall k, heap_grants h k = true) -> ok = true).
Proof.
  induction n as [|n IH]; intros h; cbn [alloc_many]; [by exists true, h|]. unfold alloc.
  destruct (IH (mkHeap (heap_grants h) (S (heap_calls h)))) as (ok & h' & -> & Hh & Hok). eexists _, h'. split; [done|].
  split; [done|]. intros Hg. rewrite Hok by done. by rewrite (Hg (heap_calls h)).
Qed.

(** The blocks reached, in the order of their numbers. *)
Record rpo_ok (es : list (nat * nat)) (g : MirCfg) (ord : list nat) : Prop := {
  ro_order : rpo_order g = Z.of_nat <$> ord;
  ro_nodup : NoDup ord;
  ro_reach : forall b, b ∈ ord <-> reach es b;
  ro_first : ord !! O = Some O;
  ro_parent : forall k b, ord !! k = Some b -> b = O \/ exists q k', (q, b) ∈ es /\ (k' < k)%nat /\ ord !! k' = Some q;
  ro_rpo : forall b blk, blocks g !! b = Some blk ->
    match list_find (fun c => c = b) ord with Some (k, _) => rpo blk = Z.of_nat k | None => rpo blk = -1 end
}.

(** Blocks of [g'] that differ in their number only. *)
Definition same_but_rpo (x y : MirCfgBlock) : Prop :=
  start x = start y /\ end_ x = end_ y /\ succ_head x = succ_head y /\ pred_head x = pred_head y /\ idom x = idom y /\
  loop_depth x = loop_depth y /\ loop_header x = loop_header y.

Lemma list_find_nth (ord : list nat) k b : NoDup ord -> ord !! k = Some b -> list_find (fun c => c = b) ord = Some (k, b).
Proof.
  intros Hnd Hk. apply list_find_Some. split; [done|]. split; [done|]. intros j y Hy Hj ->.
  pose proof (NoDup_lookup _ _ _ _ Hnd Hk Hy). lia.
Qed.

Lemma build_rpo_spec g es h : graph_inv g es -> (0 < block_count g)%nat -> (forall b blk, blocks g !! b = Some blk -> rpo blk = -1) ->
  exists ok g' h', mir_cfg_build_rpo g h = Ret (ok, g', h') /\ heap_grants h' = heap_grants h /\
    ((forall k, heap_grants h k = true) -> ok = true) /\
    (ok = true -> exists ord bs, g' = with_rpo bs (Z.of_nat <$> ord) g /\ Forall2 same_but_rpo (blocks g) bs /\ rpo_ok es g' ord).
Proof.
  intros Hg Hn Hr. unfold mir_cfg_build_rpo. destruct (alloc_many_spec 4 h) as (ok & h1 & -> & Hh & Hok). destruct ok; cbn [negb].
  2:{ exists false, g, h1. done. }
  destruct (lookup_lt_is_Some_2 (blocks g) O Hn) as [entry Hentry]. pose proof (get_nat _ _ _ Hentry) as Ee. change (Z.of_nat 0) with 0 in Ee.
  rewrite Ee. cbn [obind]. set (seen := <[O := true]> (replicate (block_count g) false)).
  assert (put (replicate (block_count g) false) 0 true = Ret seen) as Es by (apply (put_nat _ 0); by rewrite length_replicate).
  rewrite Es. cbn [obind]. assert (length seen = block_count g) as Hls by (unfold seen; by rewrite length_insert, length_replicate).
  assert (rpo_inv g es [mkFrame 0 (succ_head entry) (succs_of es 0)] seen []) as Hinv.
  { split; cbn.
    - done.
    - constructor; [by intros H%not_elem_of_nil|constructor].
    - intros b. unfold seen. rewrite list_elem_of_singleton. destruct (decide (b = O)) as [->|Hb].
      + by rewrite list_lookup_insert_eq by (by rewrite length_replicate).
      + rewrite list_lookup_insert_ne by done. split; [|done]. intros [H _]%lookup_replicate. done.
    - intros p ->%list_elem_of_singleton. cbn. split; [by apply (gi_succ _ _ Hg)|]. exists []. split; [done|].
      intros c Hc. by apply not_elem_of_nil in Hc.
    - intros b c Hb. by apply not_elem_of_nil in Hb.
    - intros b ->%list_elem_of_singleton. constructor.
    - intros [|i] p q _ Hq; done.
    - done.
    - done. }
  destruct (rpo_loop_ok g es Hg (S (block_count g + length (edge_to g))) _ _ _ Hinv) as (po & seen' & E & Hfin).
  { unfold left_over. cbn. pose proof (unseen_mark g es (replicate (block_count g) false) 0 Hn) as Hu. rewrite length_replicate in Hu.
    pose proof (unseen_max g es Hg (replicate (block_count g) false)) as Hm. unfold weight in Hu. fold seen in Hu.
    rewrite (gi_count _ _ Hg). rewrite <- Hu in Hm; [lia|done|]. intros H. by apply lookup_replicate in H as [? _]. }
  change (stack_of _) with [(0, succ_head entry)] in E. change (Z.of_nat <$> []) with (@nil Z) in E. rewrite E. cbn [obind].
  rewrite length_fmap. rewrite <- (length_fmap Z.of_nat po), swap_loop_reverse. cbn [obind]. rewrite <- fmap_reverse.
  destruct Hfin as [F1 F2 F3 F4 F5 F6 F7 F8 F9]. cbn in F2, F3, F6, F8.
  assert (forall b, b ∈ reverse po <-> b ∈ po) as Hrev by (intros b; apply elem_of_reverse).
  destruct (assign_rpo_ok (reverse po) 0 (blocks g)) as (bs & Ea & Hlb & Hin & Hout).
  { by rewrite reverse_Permutation. }
  { apply Forall_forall. intros b Hb. apply Hrev, F3, (seen_lt g) in Hb; done. }
  rewrite Ea. cbn [obind]. eexists true, _, _. split; [done|]. split; [done|]. split; [done|]. intros _.
  exists (reverse po), bs. split; [done|]. split.
  - apply Forall2_same_length_lookup_2; [done|]. intros b x y Hx Hy. destruct (decide (b ∈ reverse po)) as [Hb|Hb].
    + apply list_elem_of_lookup in Hb as [k Hk]. rewrite (Hin k b x Hk Hx) in Hy. by injection Hy as <-.
    + rewrite Hout in Hy by done. assert (y = x) as -> by congruence. done.
  - split; cbn [with_rpo rpo_order blocks].
    + done.
    + by rewrite reverse_Permutation.
    + intros b. rewrite Hrev. split; [apply F6|]. induction 1 as [|b c Hb IH Hbc].
      * apply list_elem_of_lookup_2 with (i := pred (length po)). by rewrite <- last_lookup.
      * apply F3. by eapply F5.
    + rewrite <- head_lookup, head_reverse. exact F8.
    + intros k b Hk. pose proof (lookup_lt_Some _ _ _ Hk) as Hkl. rewrite length_reverse in Hkl. rewrite reverse_lookup in Hk by done.
      destruct (F9 _ _ Hk) as [->|(q & Hq & [Hq'|(k' & Hk' & Hpk)])]; [by left|by apply not_elem_of_nil in Hq'|right].
      pose proof (lookup_lt_Some _ _ _ Hpk) as Hk'l. exists q, (length po - S k')%nat. split; [done|]. split; [lia|].
      rewrite reverse_lookup by lia. by replace (length po - S (length po - S k'))%nat with k' by lia.
    + intros b blk Hblk. destruct (list_find (fun c => c = b) (reverse po)) as [[k c]|] eqn:Ef.
      * apply list_find_Some in Ef as (Hk & -> & _). destruct (lookup_lt_is_Some_2 (blocks g) b) as [x Hx].
        { rewrite <- Hlb. by apply lookup_lt_Some in Hblk. }
        rewrite (Hin k b x Hk Hx) in Hblk. injection Hblk as <-. cbn. lia.
      * apply list_find_None in Ef. rewrite Hout in Hblk; [by apply (Hr b)|]. intros Hb.
        rewrite Forall_forall in Ef. by apply (Ef b Hb).
Qed.
End CfgRpo.
