(* ===== verification/CfgDom.v ===== *)
(** Dominators.

    The dominator tree is built by rounds that meet the predecessors of every
    block until nothing changes. The file shows that the rounds end, and that
    a block is above another in the tree exactly when every path from the
    entry to the second passes through the first. *)
From S2P Require Import Prelude Mir Probe MirCfg CfgGraph CfgRpo.
#[local] Open Scope Z_scope.

Module CfgDom.
Import Mir Probe Cfg CfgGraph CfgRpo.

(** * Paths *)

(** [path es x l y]: [l] is a walk from [x] to [y], both ends in it. *)
Inductive path (es : list (nat * nat)) : nat -> list nat -> nat -> Prop :=
| path_here x : path es x [x] x
| path_step x y l z : (x, y) ∈ es -> path es y l z -> path es x (x :: l) z.

(** [a] dominates [b]: no way from the entry to [b] goes around [a]. *)
Definition dominated (es : list (nat * nat)) (a b : nat) : Prop := forall l, path es O l b -> a ∈ l.

Lemma path_snoc es x l y z : path es x l y -> (y, z) ∈ es -> path es x (l ++ [z]) z.
Proof. induction 1 as [x|x y' l z' He Hp IH]; intros Hz; [by repeat econstructor|]. cbn. econstructor; [done|by apply IH]. Qed.

Lemma path_app es x l y l' z : path es x l y -> path es y l' z -> exists l2, path es x l2 z /\ forall w, w ∈ l2 -> w ∈ l \/ w ∈ l'.
Proof.
  induction 1 as [x|x y' l z' He Hp IH]; intros Hz; [exists l'; split; [done|by right]|].
  destruct (IH Hz) as (l2 & H2 & Hw). exists (x :: l2). split; [by econstructor|].
  intros w [->|H]%elem_of_cons; [left; by left|]. destruct (Hw w H); [left; by right|by right].
Qed.

Lemma path_end es x l y : path es x l y -> y ∈ l.
Proof. induction 1; [by left|by right]. Qed.

(** Induction from the far end of a path. *)
Lemma path_last es x l z : path es x l z -> (x = z /\ l = [x]) \/ exists l' y, l = l' ++ [z] /\ path es x l' y /\ (y, z) ∈ es.
Proof.
  induction 1 as [x|x y l z He Hp IH]; [by left|right]. destruct IH as [[-> ->]|(l' & w & -> & Hl & Hw)].
  - exists [x], x. split; [done|]. split; [constructor|done].
  - exists (x :: l'), w. split; [done|]. split; [by econstructor|done].
Qed.

Lemma path_reach es x l z : path es x l z -> reach es x -> reach es z.
Proof. induction 1; [done|]. intros H1. apply IHpath. by eapply reach_edge. Qed.

Lemma reach_path es b : reach es b -> exists l, path es O l b.
Proof. induction 1 as [|b c Hb (l & Hl) Hc]; [exists [O]; constructor|]. exists (l ++ [c]). by eapply path_snoc. Qed.

(** A dominator of a block other than itself dominates its predecessors. *)
Lemma dominated_pred es a p b : dominated es a b -> a <> b -> (p, b) ∈ es -> dominated es a p.
Proof.
  intros H Hab Hp l Hl. pose proof (H _ (path_snoc _ _ _ _ _ Hl Hp)) as Hin. apply elem_of_app in Hin as [Hin|Hin]; [done|].
  by apply list_elem_of_singleton in Hin.
Qed.

(** * Trees of parents *)

Section tree.
Context (es : list (nat * nat)) (r : nat -> nat).

Inductive anc (d : nat -> option nat) (a : nat) : nat -> Prop :=
| anc_refl : anc d a a
| anc_up y z : d y = Some z -> anc d a z -> anc d a y.

Definition linked_up (d : nat -> option nat) (b : nat) : Prop := b = O \/ is_Some (d b).

(** Parents come earlier in the order. *)
Record tree (d : nat -> option nat) : Prop := {
  tr_root : d O = None;
  tr_up : forall y z, d y = Some z -> (r z < r y)%nat /\ linked_up d z;
  tr_inj : forall x y, linked_up d x -> linked_up d y -> r x = r y -> x = y
}.

Lemma anc_trans d a b c : anc d a b -> anc d b c -> anc d a c.
Proof. intros H. induction 1 as [|y z Hz _ IH]; [done|]. by eapply anc_up. Qed.

Lemma anc_inv d a y : anc d a y -> a <> y -> exists z, d y = Some z /\ anc d a z.
Proof. destruct 1 as [|y z Hz H]; [done|]. by exists z. Qed.

Section facts.
Context (d : nat -> option nat) (Hd : tree d).

Lemma anc_le a y : anc d a y -> a = y \/ (r a < r y)%nat.
Proof.
  induction 1 as [|y z Hz _ IH]; [by left|right]. pose proof (proj1 (tr_up _ Hd _ _ Hz)). destruct IH as [->|]; lia.
Qed.

Lemma anc_le' a y : anc d a y -> (r a <= r y)%nat.
Proof. intros [->|]%anc_le; lia. Qed.

Lemma anc_same a y : anc d a y -> (r y <= r a)%nat -> a = y.
Proof. intros [->|]%anc_le; [done|lia]. Qed.

Lemma anc_antisym a b : anc d a b -> anc d b a -> a = b.
Proof. intros Ha Hb%anc_le'. by apply anc_same. Qed.

Lemma anc_linked a y : anc d a y -> linked_up d y -> linked_up d a.
Proof. induction 1 as [|y z Hz _ IH]; [done|]. intros _. apply IH. by apply (tr_up _ Hd _ _ Hz). Qed.

Lemma anc_root y : linked_up d y -> anc d O y.
Proof.
  remember (r y) as k eqn:Ek. revert y Ek. induction (lt_wf k) as [k _ IH]. intros y -> [->|[z Hz]]; [constructor|].
  destruct (tr_up _ Hd _ _ Hz) as [Hlt Hl]. apply (anc_up _ _ _ z Hz). by apply (IH (r z)).
Qed.

Lemma anc_of_root a : anc d a O -> a = O.
Proof. intros H. destruct (decide (a = O)) as [|Hn]; [done|]. apply anc_inv in H as (z & Hz & _); [|done]. by rewrite (tr_root _ Hd) in Hz. Qed.

Lemma anc_linear a b y : anc d a y -> anc d b y -> anc d a b \/ anc d b a.
Proof.
  intros Ha. revert b. induction Ha as [|y z Hz Ha IH]; intros b Hb; [by right|].
  destruct (decide (b = y)) as [->|Hne]; [left; by eapply anc_up|]. apply anc_inv in Hb as (z' & Hz' & Hb); [|done].
  apply IH. congruence.
Qed.
End facts.

(** The lowest block above both [x] and [y]. *)
Definition nca (d : nat -> option nat) (x y m : nat) : Prop :=
  anc d m x /\ anc d m y /\ forall z, anc d z x -> anc d z y -> anc d z m.

(** The lowest block above those of [ps] that are linked. *)
Definition meets (d : nat -> option nat) (ps : list nat) (m : nat) : Prop :=
  (forall p, p ∈ ps -> linked_up d p -> anc d m p) /\
  forall z, (forall p, p ∈ ps -> linked_up d p -> anc d z p) -> anc d z m.

(** * The rounds *)

(** The state of the rounds when the next block to visit has number [k]. *)
Record dom_inv (k : nat) (d : nat -> option nat) : Prop := {
  di_tree : tree d;
  di_reach : forall x, linked_up d x -> reach es x;
  di_done : forall x, reach es x -> (r x < k)%nat -> linked_up d x;
  di_prefix : forall x y, linked_up d y -> reach es x -> (r x < r y)%nat -> linked_up d x;
  di_path : forall x y, anc d x y -> linked_up d y -> exists l, path es x l y /\ forall w, w ∈ l -> anc d w x -> w = x;
  di_above : forall a y, dominated es a y -> linked_up d y -> anc d a y;
  di_low : forall c e z, d c = Some e -> (forall p, (p, c) ∈ es -> linked_up d p -> anc d z p) -> anc d z e;
  di_front : forall c e p, d c = Some e -> (p, c) ∈ es -> linked_up d p -> (r p < r c)%nat -> (r c < k \/ k <= r e)%nat -> anc d e p
}.

(** One block met: [d'] is [d] with [m] above [b]. *)
Section step.
Context (Hinj : forall x y, reach es x -> reach es y -> r x = r y -> x = y).
Context (Hfwd : forall c, reach es c -> c <> O -> exists p, (p, c) ∈ es /\ reach es p /\ (r p < r c)%nat).
Context (d d' : nat -> option nat) (b m : nat) (ps : list nat).
Context (Hi : dom_inv (r b) d) (Hb : reach es b) (Hb0 : b <> O).
Context (Hps : forall p, p ∈ ps <-> (p, b) ∈ es) (Hm : meets d ps m).
Context (Hnew : d' b = Some m) (Hold : forall y, y <> b -> d' y = d y).

Lemma step_front : exists p, (p, b) ∈ es /\ linked_up d p /\ (r p < r b)%nat.
Proof. destruct (Hfwd b Hb Hb0) as (p & Hp & Hr & Hlt). exists p. split; [done|]. split; [by apply (di_done _ _ Hi)|done]. Qed.

Lemma step_lt : (r m < r b)%nat /\ linked_up d m.
Proof.
  destruct step_front as (p & Hp & Hl & Hlt). pose proof (proj1 Hm p (proj2 (Hps p) Hp) Hl) as Ha.
  pose proof (anc_le' d (di_tree _ _ Hi) _ _ Ha). split; [lia|]. by apply (anc_linked d (di_tree _ _ Hi) m p).
Qed.

Lemma step_linked y : linked_up d' y <-> y = b \/ linked_up d y.
Proof.
  unfold linked_up. destruct (decide (y = b)) as [->|Hne]; [rewrite Hnew|rewrite (Hold y Hne)]; [|tauto].
  split; [by left|]. intros _. right. by exists m.
Qed.

Lemma step_up y z : d' y = Some z -> y = b /\ z = m \/ y <> b /\ d y = Some z.
Proof. destruct (decide (y = b)) as [->|Hne]; [rewrite Hnew; left; split; congruence|rewrite (Hold y Hne); by right]. Qed.

Lemma step_tree : tree d'.
Proof.
  destruct step_lt as [Hlt Hl]. pose proof (di_tree _ _ Hi) as Ht. split.
  - rewrite Hold by done. apply (tr_root _ Ht).
  - intros y z [[-> ->]|[Hy Hz]]%step_up; [split; [done|]; apply step_linked; by right|].
    destruct (tr_up _ Ht _ _ Hz). split; [done|]. apply step_linked. by right.
  - intros x y Hx Hy. apply Hinj.
    + apply step_linked in Hx as [->|Hx]; [done|by apply (di_reach _ _ Hi)].
    + apply step_linked in Hy as [->|Hy]; [done|by apply (di_reach _ _ Hi)].
Qed.

(** Nothing changes above the blocks before [b]. *)
Lemma step_keep a y : (r y < r b)%nat -> anc d a y -> anc d' a y.
Proof.
  intros Hy. induction 1 as [|y z Hz _ IH]; [constructor|]. apply (anc_up _ _ _ z); [by rewrite Hold by (intros ->; lia)|].
  apply IH. pose proof (proj1 (tr_up _ (di_tree _ _ Hi) _ _ Hz)). lia.
Qed.

(** Blocks only lose blocks above them. *)
Lemma step_sub a y : linked_up d y -> anc d' a y -> anc d a y.
Proof.
  intros Hl H. revert Hl. induction H as [|y z Hz _ IH]; intros Hl; [constructor|].
  destruct (step_up y z Hz) as [[-> ->]|[Hy Hdz]].
  - destruct Hl as [|[e He]]; [done|]. apply (anc_up _ _ _ e He). apply (anc_trans _ _ m); [by apply IH, step_lt|].
    apply (di_low _ _ Hi _ _ _ He). intros p Hp Hlp. apply (proj1 Hm); [by apply Hps|done].
  - apply (anc_up _ _ _ z Hdz), IH. by apply (tr_up _ (di_tree _ _ Hi) _ _ Hdz).
Qed.

(** What stays above [b] stays above the blocks below it. *)
Lemma step_thru a y : anc d a y -> (anc d b y -> anc d a b -> anc d' a b) -> anc d' a y.
Proof.
  induction 1 as [|y z Hz Ha IH]; intros Hthru; [constructor|]. destruct (decide (y = b)) as [->|Hne].
  - apply Hthru; [constructor|by eapply anc_up].
  - apply (anc_up _ _ _ z); [by rewrite Hold|]. apply IH. intros Hbz. apply Hthru. by eapply anc_up.
Qed.

Lemma step_meet a : (forall p, (p, b) ∈ es -> linked_up d p -> anc d a p) -> anc d' a m.
Proof. intros H. apply step_keep; [by apply step_lt|]. apply (proj2 Hm). intros p Hp. by apply H, Hps. Qed.

Lemma step_path x y : anc d' x y -> linked_up d' y -> exists l, path es x l y /\ forall w, w ∈ l -> anc d' w x -> w = x.
Proof.
  intros Ha Hl. assert (linked_up d y -> exists l, path es x l y /\ forall w, w ∈ l -> anc d' w x -> w = x) as Hlink.
  { intros Hy. pose proof (step_sub x y Hy Ha) as Ha'. destruct (di_path _ _ Hi _ _ Ha' Hy) as (l & Hp & Hw).
    exists l. split; [done|]. intros w Hin Hwx. apply Hw; [done|]. apply step_sub; [|done]. by apply (anc_linked d (di_tree _ _ Hi) x y). }
  apply step_linked in Hl as [->|Hl]; [|by apply Hlink]. destruct (decide (x = b)) as [->|Hne].
  { exists [b]. split; [constructor|]. by intros w ->%list_elem_of_singleton. }
  apply anc_inv in Ha as (z & Hz & Ha); [|done]. assert (z = m) as -> by congruence. apply step_sub in Ha; [|by apply step_lt].
  destruct step_front as (p & Hp & Hlp & Hlt). pose proof (proj1 Hm p (proj2 (Hps p) Hp) Hlp) as Hmp.
  pose proof (anc_trans _ _ _ _ Ha Hmp) as Hxp. destruct (di_path _ _ Hi _ _ Hxp Hlp) as (l & Hpl & Hw).
  exists (l ++ [b]). split; [by eapply path_snoc|]. intros w [Hin|Hin]%elem_of_app Hwx.
  - apply Hw; [done|]. apply step_sub; [|done]. by apply (anc_linked d (di_tree _ _ Hi) x p).
  - apply list_elem_of_singleton in Hin as ->. pose proof (anc_le' _ step_tree _ _ Hwx). pose proof (anc_le' _ (di_tree _ _ Hi) _ _ Hxp). lia.
Qed.

Lemma step_above a y : dominated es a y -> linked_up d' y -> anc d' a y.
Proof.
  intros Hdom Hl. destruct (decide (a = y)) as [->|Hay]; [constructor|].
  destruct (decide (y = b)) as [->|Hyb].
  - apply (anc_up _ _ _ m Hnew), step_meet. intros p Hp Hlp. apply (di_above _ _ Hi); [|done]. by eapply dominated_pred.
  - apply step_linked in Hl as [|Hl]; [done|]. apply step_thru; [by apply (di_above _ _ Hi)|]. intros Hby Hab.
    destruct (decide (a = b)) as [->|Hne]; [constructor|]. apply (anc_up _ _ _ m Hnew), step_meet. intros p Hp Hlp.
    apply (di_above _ _ Hi); [|done]. intros l Hpl. destruct (di_path _ _ Hi _ _ Hby Hl) as (l2 & Hp2 & Hw).
    destruct (path_app _ _ _ _ _ _ (path_snoc _ _ _ _ _ Hpl Hp) Hp2) as (l3 & H3 & Hw3).
    destruct (Hw3 _ (Hdom _ H3)) as [[Hin|Hin]%elem_of_app|Hin]; [done| |].
    + by apply list_elem_of_singleton in Hin.
    + by specialize (Hw _ Hin Hab).
Qed.

Lemma step_low c e z : d' c = Some e -> (forall p, (p, c) ∈ es -> linked_up d' p -> anc d' z p) -> anc d' z e.
Proof.
  pose proof (di_tree _ _ Hi) as Ht. intros Hc Hz.
  assert (forall p, (p, c) ∈ es -> linked_up d p -> anc d z p) as Hz'.
  { intros p Hp Hlp. apply step_sub; [done|]. apply Hz; [done|]. apply step_linked. by right. }
  destruct (step_up _ _ Hc) as [[-> ->]|[Hne Hdc]]; [by apply step_meet|]. apply step_thru; [by apply (di_low _ _ Hi _ _ _ Hdc)|].
  intros Hbe Hzb. assert (linked_up d c) as Hlc by (right; by exists e).
  destruct (tr_up _ Ht _ _ Hdc) as [Hlt Hle]. pose proof (anc_le' _ Ht _ _ Hbe) as Hbr.
  assert (c <> O) as Hc0. { intros ->. by rewrite (tr_root _ Ht) in Hdc. }
  destruct (Hfwd c (di_reach _ _ Hi _ Hlc) Hc0) as (p & Hp & Hrp & Hpc).
  assert (linked_up d p) as Hlp by (by apply (di_prefix _ _ Hi p c)).
  pose proof (di_front _ _ Hi c e p Hdc Hp Hlp Hpc ltac:(right; lia)) as Hep.
  assert (anc d' b p) as Hbp. { apply step_thru; [by eapply anc_trans|]. constructor. }
  assert (anc d' z p) as Hzp. { apply Hz; [done|]. apply step_linked. by right. }
  destruct (anc_linear d' _ _ _ Hzp Hbp) as [|Hbz]; [done|]. assert (linked_up d b) as Hlb by (by apply (anc_linked _ Ht b e)).
  apply step_sub in Hbz; [|by apply (anc_linked _ Ht z b)]. rewrite (anc_antisym _ Ht _ _ Hzb Hbz). constructor.
Qed.

Lemma step_front_inv c e p : d' c = Some e -> (p, c) ∈ es -> linked_up d' p -> (r p < r c)%nat ->
  (r c < S (r b) \/ S (r b) <= r e)%nat -> anc d' e p.
Proof.
  pose proof (di_tree _ _ Hi) as Ht. intros Hc Hp Hlp Hlt Hor. destruct (step_up _ _ Hc) as [[-> ->]|[Hne Hdc]].
  - apply step_linked in Hlp as [->|Hlp]; [lia|]. apply step_keep; [done|]. apply (proj1 Hm); [by apply Hps|done].
  - assert (linked_up d c) as Hlc by (right; by exists e).
    assert (reach es p) as Hrp by (apply step_linked in Hlp as [->|Hlp]; [done|by apply (di_reach _ _ Hi)]).
    assert (linked_up d p) as Hlp' by (by apply (di_prefix _ _ Hi p c)).
    assert (r c <> r b) as Hcb. { intros E. apply Hne, Hinj; [|done|done]. by apply (di_reach _ _ Hi). }
    apply step_thru; [apply (di_front _ _ Hi c); [done..|lia]|]. intros Hbp%(anc_le' _ Ht) Heb%(anc_le' _ Ht). lia.
Qed.

Lemma step_inv : dom_inv (S (r b)) d'.
Proof.
  split; [exact step_tree| | | |exact step_path|exact step_above|exact step_low|exact step_front_inv].
  - intros x [->|Hx]%step_linked; [done|by apply (di_reach _ _ Hi)].
  - intros x Hx Hlt. apply step_linked. destruct (decide (r x = r b)) as [E|Hne]; [left; by apply Hinj|right].
    apply (di_done _ _ Hi); [done|lia].
  - intros x y [->|Hy]%step_linked Hx Hlt; apply step_linked; right; [by apply (di_done _ _ Hi)|by apply (di_prefix _ _ Hi x y)].
Qed.

(** A parent that changes moves towards the entry. *)
Lemma step_down e : d b = Some e -> e <> m -> (r m < r e)%nat.
Proof.
  intros He Hne. assert (anc d m e) as [|]%(anc_le _ (di_tree _ _ Hi)); [|congruence|done]. apply (di_low _ _ Hi _ _ _ He).
  intros p Hp Hlp. apply (proj1 Hm); [by apply Hps|done].
Qed.
End step.

(** * The tree at the end *)

(** When every block is below the meet of its predecessors, those above it
    dominate it. *)
Lemma anc_dominates d : tree d ->
  (forall b, reach es b -> linked_up d b) ->
  (forall b e p, d b = Some e -> (p, b) ∈ es -> linked_up d p -> anc d e p) ->
  forall a b, anc d a b -> reach es b -> dominated es a b.
Proof.
  intros Ht Hall Hmeet a b Ha Hb l. revert a b Ha Hb. induction l as [|w l IH] using rev_ind; intros a b Ha Hb Hl; [inversion Hl|].
  destruct (path_last _ _ _ _ Hl) as [[<- E]|(l' & y & E & Hp & He)].
  - rewrite E. apply (anc_of_root _ Ht) in Ha as ->. left.
  - apply app_inj_tail in E as [-> ->]. apply elem_of_app. destruct (decide (a = b)) as [->|Hne]; [right; left|left].
    destruct (anc_inv _ _ _ Ha Hne) as (z & Hz & Haz). pose proof (path_reach _ _ _ _ Hp (reach_entry es)) as Hy.
    apply (IH a y); [|done|done]. eapply anc_trans; [exact Haz|]. by apply (Hmeet b z y Hz He), Hall.
Qed.
End tree.

(** * The tables of the graph *)

(** The graph stays the same when only other fields of the blocks change. *)
Definition same_edges (x y : MirCfgBlock) : Prop :=
  start x = start y /\ end_ x = end_ y /\ succ_head x = succ_head y /\ pred_head x = pred_head y.

Lemma graph_inv_blocks g g' es : graph_inv g es -> Forall2 same_edges (blocks g) (blocks g') -> edge_to g' = edge_to g ->
  edge_next g' = edge_next g -> graph_inv g' es.
Proof.
  intros [H1 H2 H3 H4 H5] Hf Et En. assert (block_count g' = block_count g) as Ec by (unfold block_count; symmetry; by eapply Forall2_length).
  split; [congruence|by rewrite Ec| | |congruence]; rewrite Et, En; intros b y Hy;
    destruct (Forall2_lookup_r _ _ _ _ _ Hf Hy) as (x & Hx & _ & _ & Hs & Hp).
  - rewrite <- Hs. by apply H3.
  - rewrite <- Hp. by apply H4.
Qed.

Definition pred_list (es : list (nat * nat)) (b : nat) : list nat := (fun p => p.1) <$> filter (fun p => p.2 = b) es.

Lemma preds_of_list es b : preds_of es b = Z.of_nat <$> pred_list es b.
Proof. unfold preds_of, pred_list. by rewrite <- list_fmap_compose. Qed.

Lemma elem_of_pred_list es b p : p ∈ pred_list es b <-> (p, b) ∈ es.
Proof.
  unfold pred_list. rewrite list_elem_of_fmap. split.
  - intros ([f t] & -> & H). apply list_elem_of_filter in H as [E H]. simpl in *. by subst t.
  - intros H. exists (p, b). split; [done|]. by apply list_elem_of_filter.
Qed.

(** The field [idom] of block [b]. *)
Definition idz (d : nat -> option nat) (b : nat) : Z :=
  match b with O => 0 | _ => match d b with Some z => Z.of_nat z | None => -1 end end.

(** The tree once [m] is above [b]. *)
Definition hang (d : nat -> option nat) (b m : nat) : nat -> option nat := fun y => if decide (y = b) then Some m else d y.

Lemma idz_linked d b : (idz d b <? 0) = false <-> linked_up d b.
Proof.
  unfold linked_up, idz. destruct b as [|b]; [split; [by left|done]|]. destruct (d (S b)) as [z|] eqn:E.
  - split; [right; by exists z|]. intros _. apply Z.ltb_ge. lia.
  - split; [done|]. intros [?|[? ?]]; done.
Qed.

Section table.
Context (es : list (nat * nat)) (r : nat -> nat).

(** The blocks hold the numbers [r] and the tree [d]. *)
Record rep (bs : list MirCfgBlock) (d : nat -> option nat) : Prop := {
  rp_idom : forall x blk, bs !! x = Some blk -> idom blk = idz d x;
  rp_rpo : forall x blk, reach es x -> bs !! x = Some blk -> rpo blk = Z.of_nat (r x);
  rp_lt : forall x, reach es x -> (x < length bs)%nat /\ (r x < length bs)%nat
}.

Section read.
Context (bs : list MirCfgBlock) (d : nat -> option nat) (Hrep : rep bs d) (Ht : tree r d).
Context (Hreach : forall x, linked_up d x -> reach es x).

Lemma rep_get x : linked_up d x -> exists blk, get bs (Z.of_nat x) = Ret blk /\ rpo blk = Z.of_nat (r x) /\ idom blk = idz d x.
Proof.
  intros Hx%Hreach. destruct (lookup_lt_is_Some_2 bs x) as [blk E]; [by apply (rp_lt _ _ Hrep)|]. exists blk.
  split; [by apply get_nat|]. split; [by apply (rp_rpo _ _ Hrep)|by apply (rp_idom _ _ Hrep)].
Qed.

Lemma climb_ok fuel : forall x y, linked_up d x -> linked_up d y -> (r x < fuel)%nat ->
  exists z, climb fuel bs (Z.of_nat x) (Z.of_nat y) = Ret (Z.of_nat z) /\ anc d z x /\ (r z <= r y)%nat /\
    ((r x <= r y)%nat -> z = x) /\ forall w, anc d w x -> anc d w y -> anc d w z.
Proof.
  induction fuel as [|fuel IH]; intros x y Hx Hy Hf; [lia|]. cbn [climb].
  destruct (rep_get x Hx) as (bx & -> & Hrx & Hix). destruct (rep_get y Hy) as (yb & -> & Hry & _). cbn [obind].
  rewrite Hrx, Hry. destruct (Z.gtb_spec (Z.of_nat (r x)) (Z.of_nat (r y))) as [Hlt|Hle].
  2:{ exists x. split; [done|]. split; [constructor|]. split; [lia|]. done. }
  destruct (decide (x = O)) as [->|Hx0].
  { pose proof (anc_le' r d Ht _ _ (anc_root r d Ht y Hy)). lia. }
  destruct Hx as [|[z Hz]]; [done|]. destruct (tr_up _ _ Ht _ _ Hz) as [Hzx Hlz].
  assert (idom bx = Z.of_nat z) as ->. { rewrite Hix. unfold idz. destruct x; [done|]. by rewrite Hz. }
  destruct (IH z y Hlz Hy ltac:(lia)) as (t & E & Ha & Hr & _ & Hw). exists t. split; [done|].
  split; [by apply (anc_up _ _ _ z)|]. split; [done|]. split; [lia|]. intros w Hwx Hwy. apply Hw; [|done].
  destruct (decide (w = x)) as [->|Hne].
  - pose proof (anc_le' r d Ht _ _ Hwy). lia.
  - apply anc_inv in Hwx as (z' & Hz' & Hwx); [|done]. congruence.
Qed.

Lemma intersect_ok fuel : forall x y, linked_up d x -> linked_up d y -> (r x < fuel)%nat -> (r y < fuel)%nat ->
  exists m, mir_cfg_intersect fuel bs (Z.of_nat x) (Z.of_nat y) = Ret (Z.of_nat m) /\ nca d x y m.
Proof.
  induction fuel as [|fuel IH]; intros x y Hx Hy Hfx Hfy; [lia|]. cbn [mir_cfg_intersect].
  destruct (Z.eqb_spec (Z.of_nat x) (Z.of_nat y)) as [->%Nat2Z.inj|Hne].
  { exists y. split; [done|]. split; [constructor|]. split; [constructor|done]. }
  pose proof (rp_lt _ _ Hrep _ (Hreach _ Hx)) as [_ Hbx]. pose proof (rp_lt _ _ Hrep _ (Hreach _ Hy)) as [_ Hby].
  destruct (climb_ok (S (length bs)) x y Hx Hy ltac:(lia)) as (x' & -> & Hax & Hrx & Hsx & Hwx). cbn [obind].
  pose proof (anc_linked r d Ht _ _ Hax Hx) as Hx'.
  destruct (climb_ok (S (length bs)) y x' Hy Hx' ltac:(lia)) as (y' & -> & Hay & Hry & Hsy & Hwy). cbn [obind].
  pose proof (anc_linked r d Ht _ _ Hay Hy) as Hy'.
  assert (r x <> r y) as Hrne. { intros E. apply Hne. f_equal. by apply (tr_inj _ _ Ht). }
  assert (r x' < fuel /\ r y' < fuel)%nat as [Hx'f Hy'f].
  { destruct (decide (r x <= r y)%nat) as [Hle|Hgt]; [rewrite (Hsx Hle) in *; lia|lia]. }
  destruct (IH x' y' Hx' Hy' Hx'f Hy'f) as (m & E & H1 & H2 & H3). exists m. split; [done|].
  split; [exact (anc_trans _ _ _ _ H1 Hax)|]. split; [exact (anc_trans _ _ _ _ H2 Hay)|]. intros w Hw1 Hw2. apply H3; [by apply Hwx|].
  apply Hwy; [done|by apply Hwx].
Qed.

Lemma meet_from ps : Forall (fun p => (p < length bs)%nat) ps -> forall m, linked_up d m ->
  exists m', meet_preds bs (Z.of_nat <$> ps) (Z.of_nat m) = Ret (Z.of_nat m') /\ linked_up d m' /\
    anc d m' m /\ (forall p, p ∈ ps -> linked_up d p -> anc d m' p) /\
    forall z, anc d z m -> (forall p, p ∈ ps -> linked_up d p -> anc d z p) -> anc d z m'.
Proof.
  induction 1 as [|p ps Hp _ IH]; intros m Hm.
  { exists m. split; [done|]. split; [done|]. split; [constructor|]. split; [|done]. by intros p Hp%not_elem_of_nil. }
  cbn [fmap list_fmap meet_preds]. destruct (lookup_lt_is_Some_2 bs p Hp) as [blk Hblk]. rewrite (get_nat _ _ _ Hblk). cbn [obind].
  rewrite (rp_idom _ _ Hrep _ _ Hblk). destruct (idz d p <? 0) eqn:Ep.
  - destruct (IH m Hm) as (m' & E & Hl & Ha & Hps & Hz). exists m'. split; [done|]. split; [done|]. split; [done|]. split.
    + intros q [->|Hq]%elem_of_cons Hlq; [|by apply Hps]. apply idz_linked in Hlq. congruence.
    + intros z Hzm Hzp. apply Hz; [done|]. intros q Hq. apply Hzp. by right.
  - apply idz_linked in Ep as Hlp. rewrite (proj2 (Z.ltb_ge _ 0)) by lia.
    pose proof (rp_lt _ _ Hrep _ (Hreach _ Hlp)) as [_ Hbp]. pose proof (rp_lt _ _ Hrep _ (Hreach _ Hm)) as [_ Hbm].
    destruct (intersect_ok (S (length bs)) p m Hlp Hm ltac:(lia) ltac:(lia)) as (t & -> & H1 & H2 & H3). cbn [obind].
    destruct (IH t (anc_linked r d Ht _ _ H2 Hm)) as (m' & E & Hl & Ha & Hps & Hz). exists m'. split; [done|].
    split; [done|]. split; [exact (anc_trans _ _ _ _ Ha H2)|]. split.
    + intros q [->|Hq]%elem_of_cons Hlq; [exact (anc_trans _ _ _ _ Ha H1)|by apply Hps].
    + intros z Hzm Hzp. apply Hz; [apply H3; [apply Hzp; [by left|done]|done]|]. intros q Hq. apply Hzp. by right.
Qed.

Lemma meet_ok ps p0 : Forall (fun p => (p < length bs)%nat) ps -> p0 ∈ ps -> linked_up d p0 ->
  exists m, meet_preds bs (Z.of_nat <$> ps) (-1) = Ret (Z.of_nat m) /\ linked_up d m /\ meets d ps m.
Proof.
  intros Hps. revert p0. induction Hps as [|p ps Hp Hps IH]; intros p0 Hp0 Hl0; [by apply not_elem_of_nil in Hp0|].
  cbn [fmap list_fmap meet_preds]. destruct (lookup_lt_is_Some_2 bs p Hp) as [blk Hblk]. rewrite (get_nat _ _ _ Hblk). cbn [obind].
  rewrite (rp_idom _ _ Hrep _ _ Hblk). destruct (idz d p <? 0) eqn:Ep.
  - assert (~ linked_up d p) as Hnp by (intros H%idz_linked; congruence).
    destruct (IH p0) as (m & E & Hl & Hm); [|done|].
    { apply elem_of_cons in Hp0 as [->|]; done. }
    exists m. split; [done|]. split; [done|]. split.
    + intros q [->|Hq]%elem_of_cons Hlq; [done|by apply (proj1 Hm)].
    + intros z Hz. apply (proj2 Hm). intros q Hq. apply Hz. by right.
  - apply idz_linked in Ep. change (-1 <? 0) with true. cbv iota. destruct (meet_from ps Hps p Ep) as (m & E & Hl & Ha & Hin & Hz).
    exists m. split; [done|]. split; [done|]. split.
    + intros q [->|Hq]%elem_of_cons Hlq; [done|by apply Hin].
    + intros z Hzp. apply Hz; [apply Hzp; [by left|done]|]. intros q Hq. apply Hzp. by right.
Qed.
End read.
End table.

(** * The rounds end *)

(** The place of a block in the order. *)
Definition pos (ord : list nat) (b : nat) : nat := match list_find (fun c => c = b) ord with Some (k, _) => k | None => O end.

Definition same_but_idom (x y : MirCfgBlock) : Prop :=
  same_edges x y /\ rpo x = rpo y /\ loop_depth x = loop_depth y /\ loop_header x = loop_header y.

#[export] Instance same_but_idom_preorder : PreOrder same_but_idom.
Proof. unfold same_but_idom, same_edges. split; [done|]. intros x y z Hxy Hyz. destruct_and!. split_and!; congruence. Qed.

Lemma same_but_idom_edges bs bs' : Forall2 same_but_idom bs bs' -> Forall2 same_edges bs bs'.
Proof. intros H. eapply Forall2_impl; [exact H|]. by intros x y [? _]. Qed.

(** Where every parent must move towards the entry, only so many can. *)
Definition mu (ord : list nat) (d : nat -> option nat) : nat :=
  sum_list ((fun b => match d b with Some e => pos ord e | None => length ord end) <$> ord).

Section rounds.
Context (es : list (nat * nat)) (ord : list nat).
Context (Hnd : NoDup ord) (Hin : forall b, b ∈ ord <-> reach es b) (H0 : ord !! O = Some O).
Context (Hpar : forall k b, ord !! k = Some b -> b = O \/ exists q k', (q, b) ∈ es /\ (k' < k)%nat /\ ord !! k' = Some q).

Lemma pos_at k b : ord !! k = Some b -> pos ord b = k.
Proof. intros H. unfold pos. by rewrite (list_find_nth ord k b Hnd H). Qed.

Lemma pos_lookup b : reach es b -> ord !! pos ord b = Some b.
Proof. intros [k Hk]%Hin%list_elem_of_lookup. by rewrite (pos_at _ _ Hk). Qed.

Lemma pos_lt b : reach es b -> (pos ord b < length ord)%nat.
Proof. intros H. by eapply lookup_lt_Some, pos_lookup. Qed.

Lemma pos_inj x y : reach es x -> reach es y -> pos ord x = pos ord y -> x = y.
Proof. intros Hx%pos_lookup Hy%pos_lookup E. rewrite E in Hx. congruence. Qed.

Lemma pos_fwd c : reach es c -> c <> O -> exists p, (p, c) ∈ es /\ reach es p /\ (pos ord p < pos ord c)%nat.
Proof.
  intros Hc Hc0. destruct (Hpar _ _ (pos_lookup c Hc)) as [|(q & k & Hq & Hk & Hok)]; [done|].
  exists q. split; [done|]. split; [by apply Hin; eapply list_elem_of_lookup_2|]. by rewrite (pos_at _ _ Hok).
Qed.

Lemma mu_step d d' b m : reach es b -> (forall y, y <> b -> d' y = d y) -> d' b = Some m ->
  (mu ord d' + match d b with Some e => pos ord e | None => length ord end = mu ord d + pos ord m)%nat.
Proof.
  intros Hb Hold Hnew. unfold mu.
  pose proof (sum_update (fun b => match d b with Some e => pos ord e | None => length ord end)
    (fun b => match d' b with Some e => pos ord e | None => length ord end) ord b (proj2 (Hin b) Hb) Hnd) as H.
  cbv beta in H. rewrite Hnew in H. apply H. intros c Hc. by rewrite Hold.
Qed.

Lemma mu_bound d : (forall b e, d b = Some e -> reach es e) -> (mu ord d <= length ord * length ord)%nat.
Proof.
  intros Hd. unfold mu. assert (forall l, sum_list ((fun b => match d b with Some e => pos ord e | None => length ord end) <$> l)
    <= length l * length ord)%nat as H; [|apply H]. induction l as [|b l IH]; [done|].
  change ((match d b with Some e => pos ord e | None => length ord end) +
    sum_list ((fun b => match d b with Some e => pos ord e | None => length ord end) <$> l) <= length ord + length l * length ord)%nat.
  destruct (d b) as [e|] eqn:E; [|lia]. pose proof (pos_lt e (Hd _ _ E)). lia.
Qed.

(** A visit that changes nothing is a visit all the same. *)
Lemma rep_upd bs d b m blk : rep es (pos ord) bs d -> bs !! b = Some blk -> b <> O ->
  rep es (pos ord) (<[b := set_idom (Z.of_nat m) blk]> bs) (hang d b m).
Proof.
  intros [H1 H2 H3] Hb Hb0. pose proof (lookup_lt_Some _ _ _ Hb) as Hbl. split.
  - intros x y Hx. unfold idz, hang. destruct (decide (x = b)) as [->|Hne].
    + rewrite list_lookup_insert_eq in Hx by done. injection Hx as <-. by destruct b.
    + rewrite list_lookup_insert_ne in Hx by done. by apply H1.
  - intros x y Hr Hx. destruct (decide (x = b)) as [->|Hne].
    + rewrite list_lookup_insert_eq in Hx by done. injection Hx as <-. cbn. by apply H2.
    + rewrite list_lookup_insert_ne in Hx by done. by apply H2.
  - intros x Hx. rewrite length_insert. by apply H3.
Qed.

Lemma idz_nz d b : b <> O -> idz d b = match d b with Some z => Z.of_nat z | None => -1 end.
Proof. by destruct b. Qed.

Lemma dom_pass_ok bof : forall k g d ch, drop k ord = bof -> (1 <= k)%nat -> dom_inv es (pos ord) k d ->
  rep es (pos ord) (blocks g) d -> graph_inv g es ->
  exists ch' bs' d', dom_pass (Z.of_nat <$> bof) g ch = Ret (ch', with_blocks bs' g) /\ Forall2 same_but_idom (blocks g) bs' /\
    rep es (pos ord) bs' d' /\ dom_inv es (pos ord) (k + length bof) d' /\ (mu ord d' <= mu ord d)%nat /\
    (ch' = true -> ch = true \/ (mu ord d' < mu ord d)%nat) /\
    (ch' = false -> ch = false /\ d' = d /\ forall b, b ∈ bof -> exists m, d b = Some m /\ meets d (pred_list es b) m).
Proof.
  induction bof as [|b bof IH]; intros k g d ch Hk Hk1 Hi Hrep Hg.
  { exists ch, (blocks g), d. split; [by destruct g|]. split; [reflexivity|]. split; [done|]. rewrite Nat.add_0_r. split; [done|].
    split; [done|]. split; [by left|]. intros ->. split; [done|]. split; [done|]. by intros b Hb%not_elem_of_nil. }
  assert (ord !! k = Some b) as Hb by (by rewrite <- (Nat.add_0_r k), <- lookup_drop, Hk).
  pose proof (pos_at _ _ Hb) as Epos. assert (reach es b) as Hrb by (by apply Hin; eapply list_elem_of_lookup_2).
  assert (b <> O) as Hb0. { intros ->. rewrite (pos_at _ _ H0) in Epos. lia. }
  destruct (rp_lt _ _ _ _ Hrep b Hrb) as [Hbn _].
  cbn [fmap list_fmap dom_pass]. rewrite (preds_spec g es b Hg Hbn), preds_of_list. cbn [obind].
  rewrite <- Epos in Hi. destruct (step_front es (pos ord) pos_fwd d b Hi Hrb Hb0) as (p0 & Hp0 & Hlp0 & Hlt0).
  assert (Forall (fun p => (p < length (blocks g))%nat) (pred_list es b)) as Hps.
  { apply Forall_forall. intros p Hp%elem_of_pred_list%(gi_nodes _ _ Hg). by destruct Hp. }
  destruct (meet_ok es (pos ord) (blocks g) d Hrep (di_tree _ _ _ _ Hi) (di_reach _ _ _ _ Hi) (pred_list es b) p0 Hps) as (m & -> & Hlm & Hm);
    [by apply elem_of_pred_list|done|]. cbn [obind].
  destruct (lookup_lt_is_Some_2 (blocks g) b Hbn) as [blk Hblk]. rewrite (get_nat _ _ _ Hblk). cbn [obind].
  rewrite (proj2 (Z.leb_le 0 (Z.of_nat m))) by lia. cbn [andb]. rewrite (rp_idom _ _ _ _ Hrep _ _ Hblk), idz_nz by done.
  assert (drop (S k) ord = bof) as Hk' by (by rewrite <- Nat.add_1_r, <- drop_drop, Hk).
  assert (forall d', d' b = Some m -> (forall y, y <> b -> d' y = d y) -> dom_inv es (pos ord) (S k) d') as Hstep.
  { intros d' Hn Ho. rewrite <- Epos. by apply (step_inv es (pos ord) pos_inj pos_fwd d d' b m (pred_list es b) Hi Hrb Hb0 (elem_of_pred_list es b)). }
  assert (pos ord m < pos ord b)%nat as Hmb.
  { by apply (step_lt es (pos ord) pos_fwd d b m (pred_list es b) Hi Hrb Hb0 (elem_of_pred_list es b) Hm). }
  destruct (Z.eqb_spec match d b with Some z => Z.of_nat z | None => -1 end (Z.of_nat m)) as [E|E]; cbn [negb].
  - assert (d b = Some m) as Hdb. { destruct (d b) as [e|]; [|lia]. f_equal. lia. }
    destruct (IH (S k) g d ch Hk' ltac:(lia) (Hstep d Hdb ltac:(done)) Hrep Hg) as (ch' & bs' & d' & E' & F1 & F2 & F3 & F4 & F5 & F6).
    exists ch', bs', d'. split; [done|]. split; [done|]. split; [done|]. cbn [length]. rewrite Nat.add_succ_r. split; [done|].
    split; [done|]. split; [done|]. intros Hch. destruct (F6 Hch) as (K1 & K2 & K3). split; [done|]. split; [done|].
    intros c [->|Hc]%elem_of_cons; [by exists m|by apply K3].
  - rewrite put_nat by done. cbn [obind]. set (bs1 := <[b := set_idom (Z.of_nat m) blk]> (blocks g)).
    assert (hang d b m b = Some m) as Hn by (unfold hang; by rewrite decide_True).
    assert (forall y, y <> b -> hang d b m y = d y) as Ho by (intros y Hy; unfold hang; by rewrite decide_False).
    assert (Forall2 same_but_idom (blocks g) bs1) as Hsame.
    { unfold bs1. rewrite <- (list_insert_id (blocks g) b blk Hblk) at 1. by apply Forall2_insert. }
    assert (mu ord (hang d b m) < mu ord d)%nat as Hmu.
    { pose proof (mu_step d (hang d b m) b m Hrb Ho Hn) as Hs. pose proof (pos_lt b Hrb). destruct (d b) as [e|] eqn:Ed; [|lia].
      enough (pos ord m < pos ord e)%nat by lia.
      apply (step_down es (pos ord) d b m (pred_list es b) Hi (elem_of_pred_list es b) Hm e Ed). congruence. }
    destruct (IH (S k) (with_blocks bs1 g) (hang d b m) true Hk' ltac:(lia) (Hstep _ Hn Ho)) as (ch' & bs' & d' & E' & F1 & F2 & F3 & F4 & F5 & F6).
    { by apply rep_upd. }
    { apply (graph_inv_blocks g _ es Hg); [by apply same_but_idom_edges|done..]. }
    exists ch', bs', d'. split; [exact E'|]. split; [by etrans|]. split; [done|]. cbn [length]. rewrite Nat.add_succ_r. split; [done|].
    split; [lia|]. split; [right; lia|]. intros Hch. by destruct (F6 Hch).
Qed.

(** Every reached block is in the tree, right below its predecessors' meet. *)
Definition settled (d : nat -> option nat) : Prop :=
  dom_inv es (pos ord) (length ord) d /\
  forall b, reach es b -> b <> O -> exists m, d b = Some m /\ meets d (pred_list es b) m.

Lemma restart d : dom_inv es (pos ord) (length ord) d -> dom_inv es (pos ord) 1 d.
Proof.
  intros [H1 H2 H3 H4 H5 H6 H7 H8]. split; try done.
  - intros x Hx Hlt. apply H3; [done|by apply pos_lt].
  - intros c e p Hc Hp Hl Hlt _. apply (H8 c); [done..|]. left. apply pos_lt, H2. right. by exists e.
Qed.

Lemma tail_order : exists l, ord = O :: l.
Proof. destruct ord as [|b l] eqn:E; [done|]. injection H0 as ->. by exists l. Qed.

Lemma dom_rounds_ok fuel : forall g d, dom_inv es (pos ord) 1 d -> rep es (pos ord) (blocks g) d -> graph_inv g es ->
  rpo_order g = Z.of_nat <$> ord -> (mu ord d < fuel)%nat ->
  exists bs' d', dom_rounds fuel g = Ret (with_blocks bs' g) /\ Forall2 same_but_idom (blocks g) bs' /\
    rep es (pos ord) bs' d' /\ settled d'.
Proof.
  destruct tail_order as [l El]. induction fuel as [|fuel IH]; intros g d Hi Hrep Hg Ho Hf; [lia|]. cbn [dom_rounds].
  rewrite Ho. replace (tail (Z.of_nat <$> ord)) with (Z.of_nat <$> l) by (by rewrite El).
  assert (drop 1 ord = l) as Hd by (by rewrite El).
  destruct (dom_pass_ok l 1 g d false Hd ltac:(lia) Hi Hrep Hg) as (ch & bs' & d' & -> & F1 & F2 & F3 & F4 & F5 & F6). cbn [obind].
  replace (1 + length l)%nat with (length ord) in F3 by (by rewrite El). destruct ch.
  - destruct (IH (with_blocks bs' g) d' (restart d' F3) F2) as (bs2 & d2 & E & K1 & K2).
    + apply (graph_inv_blocks g _ es Hg); [by apply same_but_idom_edges|done..].
    + exact Ho.
    + destruct (F5 eq_refl); [done|lia].
    + exists bs2, d2. split; [exact E|]. split; [by etrans|done].
  - exists bs', d'. split; [done|]. split; [done|]. split; [done|]. destruct (F6 eq_refl) as (_ & -> & Hm).
    split; [done|]. intros b Hb Hb0. apply Hm. apply Hin in Hb. rewrite El in Hb. by apply elem_of_cons in Hb as [|].
Qed.

(** The tree that holds the entry alone. *)
Lemma dom_inv_start : dom_inv es (pos ord) 1 (fun _ => None).
Proof.
  assert (forall x, linked_up (fun _ => None) x -> x = O) as Hl by (intros x [->|[? ?]]; done). split.
  - split; [done|done|]. by intros x y ->%Hl ->%Hl.
  - intros x ->%Hl. constructor.
  - intros x Hx Hlt. left. apply pos_inj; [done|constructor|]. rewrite (pos_at _ _ H0). lia.
  - intros x y ->%Hl Hx Hlt. rewrite (pos_at _ _ H0) in Hlt. lia.
  - intros x y Ha _. assert (x = y) as -> by (by inversion Ha). exists [y]. split; [constructor|].
    by intros w ->%list_elem_of_singleton.
  - intros a y Hdom ->%Hl. specialize (Hdom [O] ltac:(constructor)). apply list_elem_of_singleton in Hdom as ->. constructor.
  - done.
  - done.
Qed.

(** * Asking the tree *)

Lemma settled_dominates d a b : settled d -> reach es b -> anc d a b <-> dominated es a b.
Proof.
  intros [Hi Hs] Hb. assert (forall x, reach es x -> linked_up d x) as Hall.
  { intros x Hx. apply (di_done _ _ _ _ Hi); [done|by apply pos_lt]. }
  split; [|intros H; apply (di_above _ _ _ _ Hi); [done|by apply Hall]].
  intros Ha. apply (anc_dominates es (pos ord) d (di_tree _ _ _ _ Hi)); [done| |done|done].
  intros c e p Hc Hp Hl. assert (reach es c) as Hrc by (apply (di_reach _ _ _ _ Hi); right; by exists e).
  destruct (decide (c = O)) as [->|Hc0]; [by rewrite (tr_root _ _ (di_tree _ _ _ _ Hi)) in Hc|].
  destruct (Hs c Hrc Hc0) as (m & Em & Hm). assert (m = e) as -> by congruence. apply (proj1 Hm); [by apply elem_of_pred_list|done].
Qed.

Lemma dominates_loop_ok bs d : rep es (pos ord) bs d -> dom_inv es (pos ord) (length ord) d ->
  forall fuel a b, reach es b -> (S (pos ord b) < fuel)%nat ->
  exists ans, dominates_loop fuel bs (Z.of_nat a) (Z.of_nat b) = Ret ans /\ (ans = true <-> anc d a b).
Proof.
  intros Hrep Hi. pose proof (di_tree _ _ _ _ Hi) as Ht. induction fuel as [|fuel IH]; intros a b Hb Hf; [lia|]. cbn [dominates_loop].
  rewrite (proj2 (Z.ltb_ge _ 0)) by lia. destruct (Z.eqb_spec (Z.of_nat a) (Z.of_nat b)) as [->%Nat2Z.inj|Hab].
  { exists true. split; [done|]. split; [intros _; constructor|done]. }
  assert (a <> b) as Hne by lia. assert (linked_up d b) as Hl by (apply (di_done _ _ _ _ Hi); [done|by apply pos_lt]).
  destruct (rep_get es (pos ord) bs d Hrep (di_reach _ _ _ _ Hi) b Hl) as (blk & -> & _ & Ei). cbn [obind]. rewrite Ei.
  destruct (decide (b = O)) as [->|Hb0].
  - exists false. split; [done|]. split; [done|]. intros Ha. by apply (anc_of_root _ _ Ht) in Ha.
  - rewrite idz_nz by done. destruct Hl as [|[z Hz]]; [done|]. rewrite Hz. destruct (tr_up _ _ Ht _ _ Hz) as [Hlt Hlz].
    destruct (Z.eqb_spec (Z.of_nat z) (Z.of_nat b)) as [->%Nat2Z.inj|_]; [lia|].
    destruct (IH a z (di_reach _ _ _ _ Hi _ Hlz) ltac:(lia)) as (ans & E & Ha). exists ans. split; [done|]. rewrite Ha.
    split; [by apply anc_up|]. intros H. apply anc_inv in H as (z' & Hz' & H); [|done]. congruence.
Qed.

(** A block out of reach is dominated by itself only. *)
Lemma dominates_loop_out bs d : rep es (pos ord) bs d -> dom_inv es (pos ord) (length ord) d ->
  forall fuel a b, ~ reach es b -> (b < length bs)%nat ->
  dominates_loop (S (S fuel)) bs (Z.of_nat a) (Z.of_nat b) = Ret (bool_decide (a = b)).
Proof.
  intros Hrep Hi fuel a b Hb Hl. cbn [dominates_loop]. rewrite (proj2 (Z.ltb_ge _ 0)) by lia.
  destruct (Z.eqb_spec (Z.of_nat a) (Z.of_nat b)) as [->%Nat2Z.inj|Hab]; [by rewrite bool_decide_true|].
  rewrite bool_decide_false by lia. destruct (lookup_lt_is_Some_2 bs b Hl) as [blk Hblk]. rewrite (get_nat _ _ _ Hblk). cbn [obind].
  rewrite (rp_idom _ _ _ _ Hrep _ _ Hblk). assert (b <> O) as Hb0 by (intros ->; apply Hb; constructor). rewrite idz_nz by done.
  assert (d b = None) as ->. { destruct (d b) as [e|] eqn:E; [|done]. exfalso. apply Hb, (di_reach _ _ _ _ Hi). right. by exists e. }
  by rewrite (proj2 (Z.eqb_neq _ _)) by lia.
Qed.
End rounds.

(** [mir_cfg_dominates] tells whether every way to [b] leads through [a]. *)
Definition dominators_exact (es : list (nat * nat)) (g : MirCfg) : Prop :=
  forall a b, (b < block_count g)%nat -> exists ans, mir_cfg_dominates g (Z.of_nat a) (Z.of_nat b) = Ret ans /\
    (reach es b -> ans = true <-> dominated es a b) /\ (~ reach es b -> ans = true <-> a = b).

Lemma reach_lt g es b : graph_inv g es -> (0 < block_count g)%nat -> reach es b -> (b < block_count g)%nat.
Proof. intros Hg H0. induction 1 as [|b c _ _ Hc]; [done|]. by apply (gi_nodes _ _ Hg) in Hc as [_ ?]. Qed.

Lemma rep_start g es ord entry : graph_inv g es -> rpo_ok es g ord -> (0 < block_count g)%nat ->
  (forall b blk, blocks g !! b = Some blk -> idom blk = -1) -> blocks g !! O = Some entry ->
  rep es (pos ord) (<[O := set_idom 0 entry]> (blocks g)) (fun _ => None).
Proof.
  intros Hg Hr Hn Hi He. destruct Hr as [R1 R2 R3 R4 R5 R6]. split.
  - intros x blk Hx. destruct (decide (x = O)) as [->|Hne].
    + rewrite list_lookup_insert_eq in Hx by done. by injection Hx as <-.
    + rewrite list_lookup_insert_ne in Hx by done. rewrite idz_nz by done. by eapply Hi.
  - intros x blk Hx Hb. assert (exists y, blocks g !! x = Some y /\ rpo blk = rpo y) as (y & Hy & ->).
    { destruct (decide (x = O)) as [->|Hne].
      - rewrite list_lookup_insert_eq in Hb by done. injection Hb as <-. by exists entry.
      - rewrite list_lookup_insert_ne in Hb by done. by exists blk. }
    pose proof (R6 _ _ Hy) as H. unfold pos. destruct (list_find _ ord) as [[k c]|] eqn:Ef; [done|].
    apply list_find_None in Ef. rewrite Forall_forall in Ef. by apply R3, Ef in Hx.
  - intros x Hx. rewrite length_insert. split; [by apply (reach_lt g es)|].
    pose proof (pos_lt es ord R2 R3 x Hx). enough (length ord <= block_count g)%nat by (unfold block_count in *; lia).
    apply bound_nodup; [done|]. intros b Hb. apply (reach_lt g es); [done|done|]. by apply R3.
Qed.

Lemma build_dominators_spec g es ord : graph_inv g es -> rpo_ok es g ord -> (0 < block_count g)%nat ->
  (forall b blk, blocks g !! b = Some blk -> idom blk = -1) ->
  exists bs, mir_cfg_build_dominators g = Ret (with_blocks bs g) /\ Forall2 same_but_idom (blocks g) bs /\
    dominators_exact es (with_blocks bs g).
Proof.
  intros Hg Hr Hn Hi. destruct (lookup_lt_is_Some_2 (blocks g) O Hn) as [entry He].
  pose proof (rep_start g es ord entry Hg Hr Hn Hi He) as Hrep. destruct Hr as [R1 R2 R3 R4 R5 R6].
  set (bs1 := <[O := set_idom 0 entry]> (blocks g)) in *.
  assert (mir_cfg_build_dominators g = dom_rounds (block_count g * block_count g + 2) (with_blocks bs1 g)) as ->.
  { unfold mir_cfg_build_dominators. rewrite (get_nat (blocks g) 0 entry He : get (blocks g) 0 = _). cbn [obind].
    by rewrite (put_nat (blocks g) 0 _ Hn : put (blocks g) 0 _ = _). }
  assert (Forall2 same_but_idom (blocks g) bs1) as Hs1.
  { unfold bs1. rewrite <- (list_insert_id (blocks g) O entry He) at 1. by apply Forall2_insert. }
  assert (length ord <= block_count g)%nat as Hlen.
  { apply bound_nodup; [done|]. intros b Hb. apply (reach_lt g es); [done|done|]. by apply R3. }
  destruct (dom_rounds_ok es ord R2 R3 R4 R5 (block_count g * block_count g + 2) (with_blocks bs1 g) (fun _ => None))
    as (bs' & d & E & Hs & Hrep' & Hset); [by apply (dom_inv_start es ord)|done| |done| |].
  { apply (graph_inv_blocks g _ es Hg); [by apply same_but_idom_edges|done..]. }
  { pose proof (mu_bound es ord R2 R3 (fun _ => None) ltac:(done)). nia. }
  exists bs'. rewrite E. split; [done|]. assert (Forall2 same_but_idom (blocks g) bs') as Hs2 by (by etrans).
  split; [done|]. intros a b Hb. change (block_count (with_blocks bs' g)) with (length bs') in Hb.
  unfold mir_cfg_dominates. cbn [with_blocks blocks]. change (block_count (with_blocks bs' g)) with (length bs').
  destruct (decide (b ∈ ord)) as [Hbo|Hbo].
  - apply R3 in Hbo. destruct (rp_lt _ _ _ _ Hrep' b Hbo) as [_ Hlt].
    destruct (dominates_loop_ok es ord R2 R3 bs' d Hrep' (proj1 Hset) (S (length bs')) a b Hbo) as (ans & -> & Ha); [lia|].
    exists ans. split; [done|]. split; [|done]. intros _. rewrite Ha. by apply (settled_dominates es ord R2 R3).
  - assert (~ reach es b) as Hnr by (by rewrite <- R3). destruct bs' as [|x bs2] eqn:Eb; [cbn in Hb; lia|]. rewrite <- Eb in *.
    assert (length bs' = S (length bs2)) as El by (by rewrite Eb). rewrite El.
    rewrite (dominates_loop_out es ord bs' d Hrep' (proj1 Hset)) by done. eexists. split; [done|]. split; [done|].
    intros _. apply bool_decide_eq_true.
Qed.
End CfgDom.
