(* ===== verification/CfgLoops.v ===== *)
(** Natural loops.

    The members of a loop are its header and the blocks that reach the source
    of the back edge without passing the header; the depth of a block is the
    number of loops it is in, and its header is one of the deepest of them. *)
From S2P Require Import Prelude Mir Probe MirCfg CfgGraph CfgRpo CfgDom.
#[local] Open Scope Z_scope.

Module CfgLoops.
Import Mir Probe Cfg CfgGraph CfgRpo CfgDom.

(** [b] is in the loop of the edge from [t] back to [h]. *)
Definition natural_loop (es : list (nat * nat)) (h t b : nat) : Prop :=
  b = h \/ exists l, path es b l t /\ h ∉ l.

(** The edge [e] closes a loop: control can take it, and its target
    dominates its source. *)
Definition closes (es : list (nat * nat)) (e : nat * nat) : Prop := reach es e.1 /\ dominated es e.2 e.1.

(** * The members of a loop *)

Definition unmarked (member : list bool) : nat := length (filter (fun m => m = false) member).

Lemma unmarked_mark member b : member !! b = Some false -> S (unmarked (<[b := true]> member)) = unmarked member.
Proof.
  revert b. induction member as [|m member IH]; intros b H; [done|]. unfold unmarked. destruct b as [|b].
  - injection H as ->. change (<[O := true]> (false :: member)) with (true :: member).
    rewrite filter_cons_False by done. by rewrite filter_cons_True.
  - change (<[S b := true]> (m :: member)) with (m :: <[b := true]> member). specialize (IH b H). unfold unmarked in IH. destruct m.
    + by rewrite !filter_cons_False.
    + rewrite !filter_cons_True by done. cbn [length]. by rewrite IH.
Qed.

Section members.
Context (g : MirCfg) (es : list (nat * nat)) (Hg : graph_inv g es) (h t : nat).

(** The blocks marked, and those whose predecessors are still to mark. *)
Record loop_inv (member : list bool) (work : list nat) : Prop := {
  li_len : length member = block_count g;
  li_nodup : NoDup work;
  li_work : forall b, b ∈ work -> member !! b = Some true /\ b <> h;
  li_header : member !! h = Some true;
  li_tail : member !! t = Some true;
  li_sound : forall b, member !! b = Some true -> natural_loop es h t b
}.

Lemma inv_room member work p : loop_inv member work -> member !! p = Some false -> (length work < block_count g)%nat.
Proof.
  intros [H1 H2 H3 H4 H5 H6] Hp.
  assert (length (p :: work) <= block_count g)%nat; [|cbn in *; lia]. apply bound_nodup.
  - apply NoDup_cons. split; [|done]. intros Hin. destruct (H3 p Hin). congruence.
  - intros b [->|Hb]%elem_of_cons; [by apply lookup_lt_Some in Hp; rewrite H1 in Hp|].
    destruct (H3 b Hb) as [Hm _]. apply lookup_lt_Some in Hm. by rewrite H1 in Hm.
Qed.

Lemma mark_preds_ok ps : forall member work, loop_inv member work -> Forall (fun p => (p < block_count g)%nat) ps ->
  (forall p, p ∈ ps -> natural_loop es h t p) ->
  exists member' work', mark_preds (block_count g) (Z.of_nat <$> ps) member (Z.of_nat <$> work) = Ret (member', Z.of_nat <$> work') /\
    loop_inv member' work' /\ (length work' + unmarked member' = length work + unmarked member)%nat /\
    (forall b, member !! b = Some true -> member' !! b = Some true) /\
    (forall p, p ∈ ps -> member' !! p = Some true) /\
    (forall b, b ∈ work -> b ∈ work') /\
    forall b, member' !! b = Some true -> member !! b = Some true \/ b ∈ work'.
Proof.
  induction ps as [|p ps IH]; intros member work Hi Hps Hs.
  { exists member, work. split; [done|]. split; [done|]. split; [done|]. split; [done|]. split; [by intros p H%not_elem_of_nil|].
    split; [done|]. by left. }
  apply Forall_cons in Hps as [Hp Hps]. cbn [fmap list_fmap mark_preds].
  destruct (lookup_lt_is_Some_2 member p) as [m Hm]; [by rewrite (li_len _ _ Hi)|]. rewrite (get_nat _ _ _ Hm). cbn [obind]. destruct m.
  - destruct (IH member work Hi Hps) as (m' & w' & E & H1 & H2 & H3 & H4 & H5 & H6); [intros q Hq; apply Hs; by right|].
    exists m', w'. split; [done|]. split; [done|]. split; [done|]. split; [done|]. split; [|done].
    intros q [->|Hq]%elem_of_cons; [by apply H3|by apply H4].
  - assert ((length (Z.of_nat <$> work) <? block_count g)%nat = true) as ->.
    { apply Nat.ltb_lt. rewrite length_fmap. by apply (inv_room member work p). }
    rewrite put_nat by (by rewrite (li_len _ _ Hi)). cbn [obind]. change (Z.of_nat p :: (Z.of_nat <$> work)) with (Z.of_nat <$> p :: work).
    pose proof (lookup_lt_Some _ _ _ Hm) as Hpl.
    destruct (IH (<[p := true]> member) (p :: work)) as (m' & w' & E & H1 & H2 & H3 & H4 & H5 & H6); [|done|intros q Hq; apply Hs; by right|].
    { destruct Hi as [K1 K2 K3 K4 K5 K6]. split.
      - by rewrite length_insert.
      - apply NoDup_cons. split; [|done]. intros Hin. destruct (K3 p Hin). congruence.
      - intros b [->|Hb]%elem_of_cons.
        + rewrite list_lookup_insert_eq by done. split; [done|]. congruence.
        + destruct (K3 b Hb). rewrite list_lookup_insert_ne by congruence. done.
      - rewrite list_lookup_insert_ne by congruence. done.
      - rewrite list_lookup_insert_ne by congruence. done.
      - intros b Hb. destruct (decide (b = p)) as [->|Hne]; [apply Hs; by left|].
        rewrite list_lookup_insert_ne in Hb by done. by apply K6. }
    assert (forall b, member !! b = Some true -> <[p := true]> member !! b = Some true) as Hmono.
    { intros b Hb. rewrite list_lookup_insert_ne by congruence. done. }
    exists m', w'. split; [exact E|]. split; [done|]. pose proof (unmarked_mark member p Hm). cbn [length] in H2. split; [lia|].
    split; [intros b Hb; by apply H3, Hmono|]. split; [|split].
    + intros q [->|Hq]%elem_of_cons; [|by apply H4]. apply H3. by apply list_lookup_insert_eq.
    + intros b Hb. apply H5. by right.
    + intros b Hb. destruct (H6 b Hb) as [Hb'|]; [|by right]. destruct (decide (b = p)) as [->|Hne]; [right; apply H5; by left|].
      rewrite list_lookup_insert_ne in Hb' by done. by left.
Qed.

(** The predecessors of a marked block are marked, the header's and those of
    the blocks in [work] aside. *)
Definition closed_but (member : list bool) (work : list nat) : Prop :=
  forall b p, member !! b = Some true -> b <> h -> b ∉ work -> (p, b) ∈ es -> member !! p = Some true.

Lemma members_loop_ok fuel : forall member work, loop_inv member work -> closed_but member work ->
  (length work + unmarked member < fuel)%nat ->
  exists member', members_loop fuel g member (Z.of_nat <$> work) = Ret member' /\ loop_inv member' [] /\ closed_but member' [].
Proof.
  induction fuel as [|fuel IH]; intros member work Hi Hc Hf; [lia|]. cbn [members_loop]. destruct work as [|b work].
  { by exists member. }
  cbn [fmap list_fmap]. destruct (li_work _ _ Hi b ltac:(left)) as [Hb Hbh]. pose proof (lookup_lt_Some _ _ _ Hb) as Hbl.
  rewrite (li_len _ _ Hi) in Hbl. rewrite (preds_spec g es b Hg Hbl), preds_of_list. cbn [obind].
  assert (loop_inv member work) as Hi'.
  { destruct Hi as [K1 K2 K3 K4 K5 K6]. apply NoDup_cons in K2 as [_ K2]. split; try done. intros c Hc'. apply K3. by right. }
  destruct (mark_preds_ok (pred_list es b) member work Hi') as (m' & w' & -> & H1 & H2 & H3 & H4 & H5 & H6).
  - apply Forall_forall. intros p Hp%elem_of_pred_list%(gi_nodes _ _ Hg). by destruct Hp.
  - intros p Hp%elem_of_pred_list. destruct (decide (p = h)) as [->|Hph]; [by left|right].
    destruct (li_sound _ _ Hi b Hb) as [|(l & Hl & Hhl)]; [done|]. exists (p :: l). split; [by econstructor|].
    intros [|]%elem_of_cons; done.
  - cbn [obind]. apply IH; [done| |cbn [length] in Hf; lia]. intros c p Hcm Hch Hcw Hpc. destruct (H6 c Hcm) as [Hcm'|]; [|done].
    destruct (decide (c = b)) as [->|Hcb]; [by apply H4, elem_of_pred_list|]. apply H3, (Hc c p); [done|done| |done].
    intros [|Hin]%elem_of_cons; [done|]. by apply Hcw, H5.
Qed.

Lemma members_complete member b : loop_inv member [] -> closed_but member [] -> natural_loop es h t b -> member !! b = Some true.
Proof.
  intros Hi Hc [->|(l & Hl & Hh)]; [apply (li_header _ _ Hi)|]. pose proof (li_tail _ _ Hi) as Ht. clear Hi.
  induction Hl as [x|x y l z He Hp IH]; [done|]. apply not_elem_of_cons in Hh as [Hxh Hh].
  apply (Hc y x); [by apply IH| |by apply not_elem_of_nil|done]. intros E. apply Hh. rewrite <- E. destruct Hp; by left.
Qed.

Lemma unmarked_replicate n : unmarked (replicate n false) = n.
Proof. induction n as [|n IH]; [done|]. unfold unmarked in *. cbn [replicate]. rewrite filter_cons_True by done. cbn [length]. by rewrite IH. Qed.

Lemma loop_members_spec : (h < block_count g)%nat -> (t < block_count g)%nat ->
  exists member, mir_cfg_loop_members g (Z.of_nat h) (Z.of_nat t) = Ret member /\ length member = block_count g /\
    forall b, member !! b = Some true <-> natural_loop es h t b.
Proof.
  intros Hh Ht. set (n := block_count g) in *. unfold mir_cfg_loop_members. fold n. rewrite put_nat by (by rewrite length_replicate). cbn [obind].
  set (m0 := <[h := true]> (replicate n false)). assert (length m0 = n) as Hl0 by (unfold m0; by rewrite length_insert, length_replicate).
  assert (m0 !! h = Some true) as Hh0 by (unfold m0; apply list_lookup_insert_eq; by rewrite length_replicate).
  assert (forall b, m0 !! b = Some true -> b = h) as Honly.
  { intros b Hb. destruct (decide (b = h)) as [|Hne]; [done|]. unfold m0 in Hb. rewrite list_lookup_insert_ne in Hb by done.
    by apply lookup_replicate in Hb as [? _]. }
  assert (S (unmarked m0) = n) as Hu.
  { unfold m0. rewrite unmarked_mark; [apply unmarked_replicate|by apply lookup_replicate_2]. }
  enough (exists member work, (let! m := get m0 (Z.of_nat t) in if m : bool then members_loop (S n) g m0 [] else
    let! member := put m0 (Z.of_nat t) true in members_loop (S n) g member [Z.of_nat t]) = members_loop (S n) g member (Z.of_nat <$> work) /\
    loop_inv member work /\ closed_but member work /\ (length work + unmarked member < S n)%nat) as (m & w & -> & Hi & Hc & Hf).
  { destruct (members_loop_ok (S n) m w Hi Hc Hf) as (m' & -> & Hi' & Hc'). exists m'. split; [done|]. split; [apply (li_len _ _ Hi')|].
    intros b. split; [apply (li_sound _ _ Hi')|by apply members_complete]. }
  destruct (lookup_lt_is_Some_2 m0 t) as [mt Hmt]; [by rewrite Hl0|]. rewrite (get_nat _ _ _ Hmt). cbn [obind]. destruct mt.
  - exists m0, []. split; [done|]. split; [|split; [|cbn; lia]].
    + split; [done|constructor|by intros b Hb%not_elem_of_nil|done|done|]. intros b ->%Honly. by left.
    + intros b p ->%Honly. done.
  - rewrite put_nat by (by rewrite Hl0). cbn [obind]. exists (<[t := true]> m0), [t].
    assert (t <> h) as Hth by congruence. pose proof (unmarked_mark m0 t Hmt). split; [done|]. split; [|split; [|cbn [length]; lia]].
    + split.
      * by rewrite length_insert.
      * apply NoDup_singleton.
      * intros b ->%list_elem_of_singleton. rewrite list_lookup_insert_eq by (by rewrite Hl0). done.
      * by rewrite list_lookup_insert_ne.
      * apply list_lookup_insert_eq. by rewrite Hl0.
      * intros b Hb. destruct (decide (b = t)) as [->|Hne].
        -- right. exists [t]. split; [constructor|]. by rewrite list_elem_of_singleton.
        -- rewrite list_lookup_insert_ne in Hb by done. apply Honly in Hb as ->. by left.
    + intros b p Hb Hbh Hbt. exfalso. apply Hbh, Honly. rewrite list_lookup_insert_ne in Hb; [done|].
      intros ->. apply Hbt. by left.
Qed.
End members.

(** * Back edges *)

Definition same_but_loop (x y : MirCfgBlock) : Prop := same_edges x y /\ idom x = idom y /\ rpo x = rpo y.

#[export] Instance same_but_loop_preorder : PreOrder same_but_loop.
Proof. unfold same_but_loop, same_edges. split; [done|]. intros x y z Hxy Hyz. destruct_and!. split_and!; congruence. Qed.

Lemma dominates_loop_same bs bs' : Forall2 same_but_loop bs bs' -> forall fuel a b, dominates_loop fuel bs' a b = dominates_loop fuel bs a b.
Proof.
  intros Hs. induction fuel as [|fuel IH]; intros a b; [done|]. cbn [dominates_loop]. unfold get.
  destruct (b <? 0); [done|]. destruct (a =? b); [done|].
  destruct (bs !! Z.to_nat b) as [x|] eqn:E.
  - destruct (Forall2_lookup_l _ _ _ _ _ Hs E) as (y & -> & _ & Hi & _). cbn [obind]. rewrite <- Hi. by destruct (idom x =? b).
  - assert (bs' !! Z.to_nat b = None) as ->; [|done]. apply lookup_ge_None. rewrite <- (Forall2_length _ _ _ Hs). by apply lookup_ge_None.
Qed.

(** What the loops need of the graph; the phases of the loops keep it. *)
Record loop_graph (es : list (nat * nat)) (g : MirCfg) : Prop := {
  lg_inv : graph_inv g es;
  lg_dom : dominators_exact es g;
  lg_rpo : forall b blk, blocks g !! b = Some blk -> 0 <= rpo blk <-> reach es b
}.

Lemma loop_graph_same es g bs : loop_graph es g -> Forall2 same_but_loop (blocks g) bs -> loop_graph es (with_blocks bs g).
Proof.
  intros [H1 H2 H3] Hs. assert (block_count (with_blocks bs g) = block_count g) as Ec by (unfold block_count; symmetry; by eapply Forall2_length).
  split.
  - apply (graph_inv_blocks g _ es H1); [|done..]. eapply Forall2_impl; [exact Hs|]. by intros x y [? _].
  - intros a b. rewrite Ec. intros Hb. destruct (H2 a b Hb) as (ans & E & Ha). exists ans. split; [|done].
    unfold mir_cfg_dominates in *. rewrite Ec, <- E. by apply dominates_loop_same.
  - intros b y Hy. destruct (Forall2_lookup_r _ _ _ _ _ Hs Hy) as (x & Hx & _ & _ & <-). by apply H3.
Qed.

Lemma back_edge_spec es g e : loop_graph es g -> e ∈ es ->
  exists ans, mir_cfg_is_back_edge g (Z.of_nat e.1) (Z.of_nat e.2) = Ret ans /\ (ans = true <-> closes es e).
Proof.
  intros [H1 H2 H3] He. destruct e as [f t]. cbn [fst snd]. destruct (gi_nodes _ _ H1 _ _ He) as [Hf Ht]. unfold mir_cfg_is_back_edge, closes.
  destruct (lookup_lt_is_Some_2 (blocks g) f Hf) as [blk Hblk]. rewrite (get_nat _ _ _ Hblk). cbn [obind fst snd].
  pose proof (H3 _ _ Hblk) as Hr. destruct (Z.leb_spec 0 (rpo blk)) as [Hle|Hlt].
  - destruct (H2 t f Hf) as (ans & E & Ha & _). exists ans. split; [done|]. rewrite Ha by (by apply Hr). split; [|by intros [_ ?]].
    intros Hd. split; [by apply Hr|done].
  - exists false. split; [done|]. split; [done|]. intros [Hrf _]. apply Hr in Hrf. lia.
Qed.

(** * Depths *)

Section visits.
Context (es : list (nat * nat)) (inl : nat * nat -> nat -> bool).
Context (Hinl : forall e b, e ∈ es -> inl e b = true <-> closes es e /\ natural_loop es e.2 e.1 b).

(** One edge visited: not a back edge, or its loop. *)
Lemma visit_edge g e : loop_graph es g -> e ∈ es ->
  (mir_cfg_is_back_edge g (Z.of_nat e.1) (Z.of_nat e.2) = Ret false /\ forall b, inl e b = false) \/
  exists member, mir_cfg_is_back_edge g (Z.of_nat e.1) (Z.of_nat e.2) = Ret true /\
    mir_cfg_loop_members g (Z.of_nat e.2) (Z.of_nat e.1) = Ret member /\ length member = block_count g /\
    forall b, (b < block_count g)%nat -> member !! b = Some (inl e b).
Proof.
  intros Hg He. destruct (back_edge_spec es g e Hg He) as (ans & E & Ha). destruct ans.
  - right. destruct (gi_nodes _ _ (lg_inv _ _ Hg) e.1 e.2) as [Hf Ht]; [by destruct e|].
    destruct (loop_members_spec g es (lg_inv _ _ Hg) e.2 e.1 Ht Hf) as (member & Em & Hl & Hm). exists member.
    split; [done|]. split; [done|]. split; [done|]. intros b Hb. destruct (lookup_lt_is_Some_2 member b) as [m Hmb]; [by rewrite Hl|].
    rewrite Hmb. f_equal. apply eq_iff_eq_true. rewrite (Hinl e b He), <- Hm, Hmb. split; [intros ->; split; [by apply Ha|done]|].
    intros [_ H]. by injection H.
  - left. split; [done|]. intros b. destruct (inl e b) eqn:Eb; [|done]. apply (Hinl e b He) in Eb as [Hc _]. by apply Ha in Hc.
Qed.

Definition loops_with (l : list (nat * nat)) (x : nat) : nat := length (filter (fun e => inl e x = true) l).

Lemma loops_with_cons e l x : loops_with (e :: l) x = ((if inl e x then 1 else 0) + loops_with l x)%nat.
Proof. unfold loops_with. destruct (inl e x) eqn:E; [by rewrite filter_cons_True|rewrite filter_cons_False; [done|congruence]]. Qed.

(** Blocks whose depths grow by [n]. *)
Definition deeper (n : nat -> nat) (bs bs' : list MirCfgBlock) : Prop :=
  Forall2 same_but_loop bs bs' /\ forall x y, bs' !! x = Some y -> exists y0, bs !! x = Some y0 /\
    loop_header y = loop_header y0 /\ loop_depth y = loop_depth y0 + Z.of_nat (n x).

Lemma deeper_zero bs : deeper (fun _ => O) bs bs.
Proof. split; [reflexivity|]. intros x y Hy. exists y. split; [done|]. split; [done|lia]. Qed.

Lemma deeper_add n m k bs1 bs2 bs3 : deeper n bs1 bs2 -> deeper m bs2 bs3 -> (forall x, k x = (n x + m x)%nat) -> deeper k bs1 bs3.
Proof.
  intros [H1 H2] [K1 K2] Hk. split; [by etrans|]. intros x y Hy. destruct (K2 x y Hy) as (z & Hz & Eh & Ed).
  destruct (H2 x z Hz) as (w & Hw & Eh' & Ed'). exists w. split; [done|]. split; [congruence|]. rewrite Hk. lia.
Qed.

Lemma deepen_ok bs member e : length member = length bs -> (forall b, (b < length bs)%nat -> member !! b = Some (inl e b)) ->
  deeper (fun x => if inl e x then 1 else 0)%nat bs (deepen bs member).
Proof.
  intros Hl Hm. assert (forall x y, bs !! x = Some y -> deepen bs member !! x = Some (if inl e x then set_depth (loop_depth y + 1) y else y)) as Hx.
  { intros x y Hy. unfold deepen. rewrite lookup_zip_with, Hy. cbn [mbind option_bind]. by rewrite Hm by (by apply lookup_lt_Some in Hy). }
  assert (length (deepen bs member) = length bs) as Hld by (unfold deepen; rewrite length_zip_with; lia). split.
  - apply Forall2_same_length_lookup_2; [done|]. intros x y z Hy Hz. rewrite (Hx _ _ Hy) in Hz. injection Hz as <-. by destruct (inl e x).
  - intros x z Hz. destruct (lookup_lt_is_Some_2 bs x) as [y Hy]; [rewrite <- Hld; by apply lookup_lt_Some in Hz|].
    exists y. split; [done|]. rewrite (Hx _ _ Hy) in Hz. injection Hz as <-. destruct (inl e x); cbn; split; [done|lia|done|lia].
Qed.

Definition targets (evs : list (nat * nat)) : list Z := (fun e => Z.of_nat e.2) <$> evs.

Lemma visit_edges_depth b evs : forall g, loop_graph es g -> (forall e, e ∈ evs -> e.1 = b /\ e ∈ es) ->
  exists bs, visit_edges false (Z.of_nat b) (targets evs) g = Ret (with_blocks bs g) /\ deeper (loops_with evs) (blocks g) bs.
Proof.
  induction evs as [|e evs IH]; intros g Hg Hev.
  { exists (blocks g). split; [by destruct g|]. apply deeper_zero. }
  destruct (Hev e ltac:(left)) as [Eb He]. subst b. cbn [targets fmap list_fmap visit_edges].
  assert (forall e', e' ∈ evs -> e'.1 = e.1 /\ e' ∈ es) as Hev' by (intros e' H'; apply Hev; by right).
  destruct (visit_edge g e Hg He) as [[-> Hno]|(member & -> & Em & Hl & Hm)]; cbn [obind negb].
  - destruct (IH g Hg Hev') as (bs & E & Hd). exists bs. split; [exact E|].
    apply (deeper_add (fun _ => O) (loops_with evs) _ _ (blocks g)); [apply deeper_zero|done|]. intros x. by rewrite loops_with_cons, Hno.
  - rewrite Em. cbn [obind]. pose proof (deepen_ok (blocks g) member e Hl Hm) as Hd1.
    destruct (IH (with_blocks (deepen (blocks g) member) g)) as (bs & E & Hd); [by apply loop_graph_same; [|apply Hd1]|done|].
    exists bs. split; [exact E|]. apply (deeper_add _ _ _ _ _ _ Hd1 Hd). intros x. by rewrite loops_with_cons.
Qed.

Definition out_edges (b : nat) : list (nat * nat) := filter (fun e => e.1 = b) es.

Lemma succs_of_targets b : succs_of es b = targets (out_edges b).
Proof. done. Qed.

Lemma elem_of_out_edges b e : e ∈ out_edges b <-> e.1 = b /\ e ∈ es.
Proof. unfold out_edges. by rewrite list_elem_of_filter. Qed.

Lemma visit_blocks_depth n : forall b g, loop_graph es g -> (n + b = block_count g)%nat ->
  exists bs, visit_blocks false n b g = Ret (with_blocks bs g) /\
    deeper (fun x => sum_list ((fun c => loops_with (out_edges c) x) <$> seq b n)) (blocks g) bs.
Proof.
  induction n as [|n IH]; intros b g Hg Hn; cbn [visit_blocks].
  { exists (blocks g). split; [by destruct g|]. apply deeper_zero. }
  rewrite (succs_spec g es b (lg_inv _ _ Hg)), succs_of_targets by lia. cbn [obind].
  destruct (visit_edges_depth b (out_edges b) g Hg) as (bs & -> & Hd); [by intros e ?%elem_of_out_edges|]. cbn [obind].
  destruct (IH (S b) (with_blocks bs g)) as (bs' & E & Hd').
  { by apply loop_graph_same; [|apply Hd]. }
  { change (block_count (with_blocks bs g)) with (length bs). rewrite <- (Forall2_length _ _ _ (proj1 Hd)). unfold block_count in Hn. lia. }
  exists bs'. split; [exact E|]. apply (deeper_add _ _ _ _ _ _ Hd Hd'). done.
Qed.

Lemma loops_total g x : (forall f t, (f, t) ∈ es -> (f < block_count g)%nat) ->
  sum_list ((fun c => loops_with (out_edges c) x) <$> seq 0 (block_count g)) = loops_with es x.
Proof.
  intros Hn. unfold loops_with at 2. rewrite <- (total_edges g).
  - f_equal. apply list_fmap_ext. intros i c _. unfold loops_with, succs_of, out_edges. rewrite length_fmap, !list_filter_filter.
    f_equal. apply list_filter_iff. tauto.
  - intros f t [_ H]%list_elem_of_filter. by eapply Hn.
Qed.

(** * Headers *)

Context (D : nat -> Z).

Definition depths_are (bs : list MirCfgBlock) : Prop := forall x y, bs !! x = Some y -> loop_depth y = D x.
Definition heads_ok (bs : list MirCfgBlock) : Prop :=
  forall x y, bs !! x = Some y -> loop_header y = -1 \/ exists h, loop_header y = Z.of_nat h /\ (h < length bs)%nat.

(** The headers are innermost among the loops seen. *)
Definition heads_from (seen : list (nat * nat)) (bs : list MirCfgBlock) : Prop :=
  forall x y, bs !! x = Some y ->
    (loop_header y = -1 /\ forall e, e ∈ seen -> inl e x = false) \/
    exists e, e ∈ seen /\ inl e x = true /\ loop_header y = Z.of_nat e.2 /\
      forall e', e' ∈ seen -> inl e' x = true -> D e'.2 <= D e.2.

(** Block [x] after the loop of [e] is assigned. *)
Definition rehead (e : nat * nat) (x : nat) (y : MirCfgBlock) : MirCfgBlock :=
  if inl e x && ((loop_header y <? 0) || (D e.2 >? D (Z.to_nat (loop_header y)))) then set_header (Z.of_nat e.2) y else y.

Lemma rehead_same e x y : same_but_loop y (rehead e x y) /\ loop_depth (rehead e x y) = loop_depth y.
Proof. unfold rehead. by destruct (inl e x && _). Qed.

Lemma rehead_head e x y n : (e.2 < n)%nat -> (loop_header y = -1 \/ exists h, loop_header y = Z.of_nat h /\ (h < n)%nat) ->
  loop_header (rehead e x y) = -1 \/ exists h, loop_header (rehead e x y) = Z.of_nat h /\ (h < n)%nat.
Proof. intros He Hy. unfold rehead. destruct (inl e x && _); [right; by exists e.2|done]. Qed.

Lemma assign_loop_ok e member n : forall b bs, (n + b = length bs)%nat -> depths_are bs -> heads_ok bs -> (e.2 < length bs)%nat ->
  (forall x, (x < length bs)%nat -> member !! x = Some (inl e x)) ->
  exists bs', assign_loop bs (Z.of_nat e.2) member n b = Ret bs' /\ length bs' = length bs /\
    forall x y, bs !! x = Some y -> bs' !! x = Some (if (b <=? x)%nat then rehead e x y else y).
Proof.
  induction n as [|n IH]; intros b bs Hn Hd Hh He Hm; cbn [assign_loop].
  { exists bs. split; [done|]. split; [done|]. intros x y Hy. rewrite (proj2 (Nat.leb_gt b x)); [done|]. apply lookup_lt_Some in Hy. lia. }
  destruct (lookup_lt_is_Some_2 bs b) as [y Hy]; [lia|]. rewrite (get_nat _ _ _ Hy). cbn [obind].
  rewrite (get_nat member b _ (Hm b ltac:(lia))). cbn [obind].
  assert (forall bs1, Ret bs1 = Ret (<[b := rehead e b y]> bs) -> exists bs',
    assign_loop bs1 (Z.of_nat e.2) member n (S b) = Ret bs' /\ length bs' = length bs /\
    forall x y, bs !! x = Some y -> bs' !! x = Some (if (b <=? x)%nat then rehead e x y else y)) as Hnext.
  { intros bs1 [= ->]. destruct (IH (S b) (<[b := rehead e b y]> bs)) as (bs' & E & Hl & Hx).
    - rewrite length_insert. lia.
    - intros x z Hz. destruct (decide (x = b)) as [->|Hne].
      + rewrite list_lookup_insert_eq in Hz by lia. injection Hz as <-. rewrite (proj2 (rehead_same e b y)). by apply Hd.
      + rewrite list_lookup_insert_ne in Hz by done. by apply Hd.
    - intros x z Hz. rewrite length_insert. destruct (decide (x = b)) as [->|Hne].
      + rewrite list_lookup_insert_eq in Hz by lia. injection Hz as <-. apply rehead_head; [done|]. by apply (Hh b).
      + rewrite list_lookup_insert_ne in Hz by done. by apply (Hh x).
    - by rewrite length_insert.
    - intros x Hx. rewrite length_insert in Hx. by apply Hm.
    - exists bs'. rewrite length_insert in Hl. split; [done|]. split; [done|]. intros x z Hz. destruct (decide (x = b)) as [->|Hne].
      + assert (z = y) as -> by congruence. rewrite (Hx b (rehead e b y)) by (apply list_lookup_insert_eq; lia).
        rewrite (proj2 (Nat.leb_gt (S b) b)) by lia. by rewrite (proj2 (Nat.leb_le b b)).
      + rewrite (Hx x z) by (by rewrite list_lookup_insert_ne). destruct (Nat.leb_spec (S b) x), (Nat.leb_spec b x); (done || lia). }
  unfold rehead in Hnext. destruct (inl e b); cbn [negb andb] in *.
  2:{ apply Hnext. by rewrite list_insert_id. }
  destruct (Hh b y Hy) as [E|(h & E & Hhl)].
  - rewrite E in *. change (-1 <? 0) with true in *. cbn [orb obind] in *. rewrite put_nat by lia. cbn [obind]. by apply Hnext.
  - rewrite E in *. rewrite (proj2 (Z.ltb_ge _ 0)) in * by lia. cbn [orb] in *. rewrite Nat2Z.id in Hnext.
    destruct (lookup_lt_is_Some_2 bs e.2 He) as [ye Hye]. rewrite (get_nat _ _ _ Hye). cbn [obind].
    destruct (lookup_lt_is_Some_2 bs h Hhl) as [yh Hyh]. rewrite (get_nat _ _ _ Hyh). cbn [obind]. rewrite (Hd _ _ Hye), (Hd _ _ Hyh).
    destruct (D e.2 >? D h); [rewrite put_nat by lia|]; cbn [obind]; apply Hnext; [done|]. by rewrite list_insert_id.
Qed.

Lemma heads_from_step seen bs bs' e : heads_from seen bs -> length bs' = length bs ->
  (forall x y, bs !! x = Some y -> bs' !! x = Some (rehead e x y)) -> heads_from (e :: seen) bs'.
Proof.
  intros Hs Hl Hx x z Hz. destruct (lookup_lt_is_Some_2 bs x) as [y Hy]; [rewrite <- Hl; by apply lookup_lt_Some in Hz|].
  rewrite (Hx x y Hy) in Hz. injection Hz as <-. unfold rehead. destruct (inl e x) eqn:Ee; cbn [andb].
  2:{ destruct (Hs x y Hy) as [[E Hno]|(e0 & He0 & Hi & E & Hmax)].
      - left. split; [done|]. intros e' [->|He']%elem_of_cons; [done|by apply Hno].
      - right. exists e0. split; [by right|]. split; [done|]. split; [done|]. intros e' [->|He']%elem_of_cons Hi'; [congruence|by apply Hmax]. }
  destruct (Hs x y Hy) as [[E Hno]|(e0 & He0 & Hi & E & Hmax)]; rewrite E.
  - change (-1 <? 0) with true. cbn [orb]. right. exists e. split; [by left|]. split; [done|]. split; [done|].
    intros e' [->|He']%elem_of_cons Hi'; [lia|]. rewrite Hno in Hi' by done. done.
  - rewrite (proj2 (Z.ltb_ge _ 0)) by lia. cbn [orb]. rewrite Nat2Z.id. right. destruct (Z.gtb_spec (D e.2) (D e0.2)) as [Hgt|Hle].
    + exists e. split; [by left|]. split; [done|]. split; [done|]. intros e' [->|He']%elem_of_cons Hi'; [lia|]. specialize (Hmax e' He' Hi'). lia.
    + exists e0. split; [by right|]. split; [done|]. split; [done|]. intros e' [->|He']%elem_of_cons Hi'; [lia|by apply Hmax].
Qed.

(** What the second visit keeps of the blocks. *)
Record head_state (seen : list (nat * nat)) (bs : list MirCfgBlock) : Prop := {
  hs_depth : depths_are bs;
  hs_heads : heads_ok bs;
  hs_from : heads_from seen bs
}.

Lemma assign_headers_ok g e member seen : loop_graph es g -> e ∈ es -> head_state seen (blocks g) ->
  (forall b, (b < block_count g)%nat -> member !! b = Some (inl e b)) ->
  exists bs, mir_cfg_assign_headers g (Z.of_nat e.2) member = Ret (with_blocks bs g) /\ Forall2 same_but_loop (blocks g) bs /\
    head_state (e :: seen) bs.
Proof.
  intros Hg He [H1 H2 H3] Hm. assert (e.2 < length (blocks g))%nat as Het by (apply (gi_nodes _ _ (lg_inv _ _ Hg) e.1); by destruct e).
  unfold mir_cfg_assign_headers. destruct (assign_loop_ok e member (block_count g) 0 (blocks g)) as (bs & -> & Hl & Hx);
    [unfold block_count; lia|done..|]. cbn [obind].
  assert (forall x y, blocks g !! x = Some y -> bs !! x = Some (rehead e x y)) as Hx' by (intros x y Hy; by rewrite (Hx x y Hy)).
  assert (forall x z, bs !! x = Some z -> exists y, blocks g !! x = Some y /\ z = rehead e x y) as Hinv.
  { intros x z Hz. destruct (lookup_lt_is_Some_2 (blocks g) x) as [y Hy]; [rewrite <- Hl; by apply lookup_lt_Some in Hz|].
    exists y. split; [done|]. rewrite (Hx' x y Hy) in Hz. congruence. }
  exists bs. split; [done|]. split; [|split].
  - apply Forall2_same_length_lookup_2; [done|]. intros x y z Hy Hz. rewrite (Hx' x y Hy) in Hz. injection Hz as <-. apply rehead_same.
  - intros x z (y & Hy & ->)%Hinv. rewrite (proj2 (rehead_same e x y)). by apply H1.
  - intros x z (y & Hy & ->)%Hinv. rewrite Hl. apply rehead_head; [done|]. by apply (H2 x).
  - by apply (heads_from_step seen (blocks g)).
Qed.

Lemma head_state_weaken seen seen' bs : head_state seen bs -> (forall e, e ∈ seen <-> e ∈ seen') -> head_state seen' bs.
Proof.
  intros [H1 H2 H3] Hs. split; [done|done|]. intros x y Hy. destruct (H3 x y Hy) as [[E Hno]|(e & He & Hi & E & Hm)].
  - left. split; [done|]. intros e He. by apply Hno, Hs.
  - right. exists e. split; [by apply Hs|]. split; [done|]. split; [done|]. intros e' He'. by apply Hm, Hs.
Qed.

(** An edge whose loop is empty leaves the headers as they are. *)
Lemma head_state_skip seen e bs : head_state seen bs -> (forall b, inl e b = false) -> head_state (e :: seen) bs.
Proof.
  intros [H1 H2 H3] Hno. split; [done|done|]. intros x y Hy. destruct (H3 x y Hy) as [[E Hn]|(e0 & He & Hi & E & Hm)].
  - left. split; [done|]. intros e' [->|He']%elem_of_cons; [done|by apply Hn].
  - right. exists e0. split; [by right|]. split; [done|]. split; [done|]. intros e' [->|He']%elem_of_cons Hi'; [by rewrite Hno in Hi'|by apply Hm].
Qed.

Lemma visit_edges_heads b evs : forall g seen, loop_graph es g -> (forall e, e ∈ evs -> e.1 = b /\ e ∈ es) -> head_state seen (blocks g) ->
  exists bs, visit_edges true (Z.of_nat b) (targets evs) g = Ret (with_blocks bs g) /\ Forall2 same_but_loop (blocks g) bs /\
    head_state (evs ++ seen) bs.
Proof.
  induction evs as [|e evs IH]; intros g seen Hg Hev Hs.
  { exists (blocks g). split; [by destruct g|]. split; [reflexivity|done]. }
  destruct (Hev e ltac:(left)) as [Eb He]. subst b. cbn [targets fmap list_fmap visit_edges].
  assert (forall e', e' ∈ evs -> e'.1 = e.1 /\ e' ∈ es) as Hev' by (intros e' H'; apply Hev; by right).
  assert (forall e', e' ∈ evs ++ e :: seen <-> e' ∈ (e :: evs) ++ seen) as Hperm by (intros e'; cbn [app]; rewrite elem_of_cons, !elem_of_app, elem_of_cons; tauto).
  destruct (visit_edge g e Hg He) as [[-> Hno]|(member & -> & Em & Hl & Hm)]; cbn [obind negb].
  - destruct (IH g (e :: seen) Hg Hev' (head_state_skip _ _ _ Hs Hno)) as (bs & E & Hd & Hf). exists bs. split; [exact E|]. split; [done|].
    by apply (head_state_weaken (evs ++ e :: seen)).
  - rewrite Em. cbn [obind]. destruct (assign_headers_ok g e member seen Hg He Hs Hm) as (bs1 & -> & Hd1 & Hs1). cbn [obind].
    destruct (IH (with_blocks bs1 g) (e :: seen)) as (bs & E & Hd & Hf); [by apply loop_graph_same|done|done|].
    exists bs. split; [exact E|]. split; [by etrans|]. by apply (head_state_weaken (evs ++ e :: seen)).
Qed.

Lemma visit_blocks_heads n : forall b g seen, loop_graph es g -> (n + b = block_count g)%nat -> head_state seen (blocks g) ->
  exists bs, visit_blocks true n b g = Ret (with_blocks bs g) /\ Forall2 same_but_loop (blocks g) bs /\
    exists seen', head_state seen' bs /\ forall e, e ∈ seen' <-> e ∈ seen \/ e ∈ es /\ (b <= e.1 < n + b)%nat.
Proof.
  induction n as [|n IH]; intros b g seen Hg Hn Hs; cbn [visit_blocks].
  { exists (blocks g). split; [by destruct g|]. split; [reflexivity|]. exists seen. split; [done|]. intros e. split; [by left|].
    intros [|[_ ?]]; [done|lia]. }
  rewrite (succs_spec g es b (lg_inv _ _ Hg)), succs_of_targets by lia. cbn [obind].
  destruct (visit_edges_heads b (out_edges b) g seen Hg) as (bs & -> & Hd & Hs1); [by intros e ?%elem_of_out_edges|done|]. cbn [obind].
  destruct (IH (S b) (with_blocks bs g) (out_edges b ++ seen)) as (bs' & E & Hd' & seen' & Hs' & Hin).
  { by apply loop_graph_same. }
  { change (block_count (with_blocks bs g)) with (length bs). rewrite <- (Forall2_length _ _ _ Hd). unfold block_count in Hn. lia. }
  { done. }
  exists bs'. split; [exact E|]. split; [by etrans|]. exists seen'. split; [done|]. intros e. rewrite Hin, elem_of_app, elem_of_out_edges.
  destruct (decide (e.1 = b)) as [Eb|Hne]; split; intros H; destruct_or?; destruct_and?; try tauto; try (right; split; [done|lia]).
Qed.
End visits.

(** * The nesting *)

(** The depth of a block counts the loops it is in; its header is that of a
    loop it is in, one whose header is deepest. *)
Definition loops_exact (es : list (nat * nat)) (g : MirCfg) : Prop :=
  exists inl, (forall e b, e ∈ es -> inl e b = true <-> closes es e /\ natural_loop es e.2 e.1 b) /\
    forall x y, blocks g !! x = Some y ->
      loop_depth y = Z.of_nat (loops_with inl es x) /\
      ((loop_header y = -1 /\ forall e, e ∈ es -> inl e x = false) \/
       exists e, e ∈ es /\ inl e x = true /\ loop_header y = Z.of_nat e.2 /\
         forall e', e' ∈ es -> inl e' x = true -> (loops_with inl es e'.2 <= loops_with inl es e.2)%nat).

(** It is the edges that matter, with how often each is there, not their order. *)
Lemma path_incl es es' a l b : (forall e, e ∈ es -> e ∈ es') -> path es a l b -> path es' a l b.
Proof. intros Hin. induction 1; econstructor; by eauto. Qed.

#[export] Instance closes_proper : Proper ((≡ₚ) ==> eq ==> iff) closes.
Proof.
  enough (forall es es' e, es ≡ₚ es' -> closes es e -> closes es' e) as H by (intros es es' Hp e ? <-; split; by apply H).
  intros es es' e Hp [Hr Hd]. split.
  - clear Hd. induction Hr as [|b c Hb IH He]; econstructor; [exact IH|]. by rewrite <- Hp.
  - intros l Hl. apply Hd. eapply path_incl; [|exact Hl]. intros x. by rewrite Hp.
Qed.

#[export] Instance natural_loop_proper : Proper ((≡ₚ) ==> eq ==> eq ==> eq ==> iff) natural_loop.
Proof.
  enough (forall es es' h t b, es ≡ₚ es' -> natural_loop es h t b -> natural_loop es' h t b) as H
    by (intros es es' Hp h ? <- t ? <- b ? <-; split; by apply H).
  intros es es' h t b Hp [->|(l & Hl & Hh)]; [by left|right]. exists l. split; [|done]. eapply path_incl; [|exact Hl].
  intros x. by rewrite Hp.
Qed.

#[export] Instance loops_with_proper inl : Proper ((≡ₚ) ==> eq ==> eq) (loops_with inl).
Proof. intros es es' Hp x ? <-. unfold loops_with. by rewrite Hp. Qed.

#[export] Instance loops_exact_proper : Proper ((≡ₚ) ==> eq ==> iff) loops_exact.
Proof.
  intros es es' Hp g ? <-. unfold loops_exact. by setoid_rewrite Hp.
Qed.

(** Every instruction has the depth of its block, as a byte. *)
Definition insn_depths_ok (g : MirCfg) : Prop :=
  Forall2 (fun b d => exists blk, blocks g !! Z.to_nat b = Some blk /\ d = Z.min 255 (loop_depth blk)) (block_of g) (insn_depth g).

Definition inside (g : MirCfg) (e : nat * nat) (b : nat) : bool :=
  match mir_cfg_is_back_edge g (Z.of_nat e.1) (Z.of_nat e.2), mir_cfg_loop_members g (Z.of_nat e.2) (Z.of_nat e.1) with
  | Ret true, Ret m => bool_decide (m !! b = Some true)
  | _, _ => false
  end.

Lemma inside_spec es g e b : loop_graph es g -> e ∈ es -> inside g e b = true <-> closes es e /\ natural_loop es e.2 e.1 b.
Proof.
  intros Hg He. destruct (back_edge_spec es g e Hg He) as (ans & E & Ha). unfold inside. rewrite E.
  destruct (gi_nodes _ _ (lg_inv _ _ Hg) e.1 e.2) as [Hf Ht]; [by destruct e|].
  destruct (loop_members_spec g es (lg_inv _ _ Hg) e.2 e.1 Ht Hf) as (member & -> & _ & Hm). destruct ans.
  - rewrite bool_decide_eq_true, Hm. split; [intros H; split; [by apply Ha|done]|by intros [_ ?]].
  - split; [done|]. intros [Hc _]. by apply Ha in Hc.
Qed.

Lemma depths_ok bs bof : Forall (fun b => 0 <= b < Z.of_nat (length bs)) bof ->
  exists d, depths bs bof = Ret d /\ Forall2 (fun b d => exists blk, bs !! Z.to_nat b = Some blk /\ d = Z.min 255 (loop_depth blk)) bof d.
Proof.
  induction 1 as [|b bof Hb _ (d & E & Hd)]; cbn [depths]; [by exists []|]. destruct (Z_of_nat_complete b) as [k ->]; [lia|].
  destruct (lookup_lt_is_Some_2 bs k) as [blk Hblk]; [lia|]. rewrite (get_nat _ _ _ Hblk). cbn [obind]. rewrite E. cbn [obind].
  eexists. split; [done|]. constructor; [|done]. exists blk. rewrite Nat2Z.id. split; [done|].
  destruct (Z.gtb_spec (loop_depth blk) 255); lia.
Qed.

Lemma visit_loops_spec es g : loop_graph es g -> (forall b blk, blocks g !! b = Some blk -> loop_depth blk = 0 /\ loop_header blk = -1) ->
  exists bs1 bs2, mir_cfg_visit_loops g false = Ret (with_blocks bs1 g) /\ mir_cfg_visit_loops (with_blocks bs1 g) true = Ret (with_blocks bs2 g) /\
    Forall2 same_but_loop (blocks g) bs2 /\ loops_exact es (with_blocks bs2 g).
Proof.
  intros Hg Hz. set (inl := inside g). assert (forall e b, e ∈ es -> inl e b = true <-> closes es e /\ natural_loop es e.2 e.1 b) as Hinl.
  { intros e b He. by apply inside_spec. }
  destruct (visit_blocks_depth es inl Hinl (block_count g) 0 g Hg ltac:(lia)) as (bs1 & E1 & Hd1).
  pose proof (loop_graph_same es g bs1 Hg (proj1 Hd1)) as Hg1. set (g1 := with_blocks bs1 g) in *.
  assert (block_count g1 = block_count g) as Ec by (unfold block_count; symmetry; by eapply Forall2_length, Hd1).
  set (D := fun x => Z.of_nat (loops_with inl es x)).
  assert (forall x y, bs1 !! x = Some y -> loop_header y = -1 /\ loop_depth y = D x) as Hb1.
  { intros x y Hy. destruct (proj2 Hd1 x y Hy) as (y0 & Hy0 & -> & ->). destruct (Hz _ _ Hy0) as [-> ->]. split; [done|].
    rewrite loops_total; [done|]. intros f t He. by apply (gi_nodes _ _ (lg_inv _ _ Hg)) in He as [? _]. }
  destruct (visit_blocks_heads es inl Hinl D (block_count g1) 0 g1 [] Hg1 ltac:(lia)) as (bs2 & E2 & Hd2 & seen & Hs & Hin).
  { split.
    - intros x y Hy. by apply Hb1.
    - intros x y Hy. left. by apply (Hb1 x).
    - intros x y Hy. left. split; [by apply (Hb1 x)|]. by intros e He%not_elem_of_nil. }
  exists bs1, bs2. split; [done|]. split; [exact E2|]. split; [etrans; [apply Hd1|exact Hd2]|]. exists inl. split; [done|].
  assert (forall e, e ∈ seen <-> e ∈ es) as Hse.
  { intros e. rewrite Hin. split; [intros [H|[H _]]; [by apply not_elem_of_nil in H|done]|]. intros H. right. split; [done|].
    destruct (gi_nodes _ _ (lg_inv _ _ Hg) e.1 e.2) as [Hf _]; [by destruct e|]. lia. }
  intros x y Hy. split; [by apply (hs_depth _ _ _ _ Hs)|]. destruct (hs_from _ _ _ _ Hs x y Hy) as [[Eh Hno]|(e & He & Hi & Eh & Hm)].
  - left. split; [done|]. intros e He. by apply Hno, Hse.
  - right. exists e. split; [by apply Hse|]. split; [done|]. split; [done|]. intros e' He' Hi'. apply Nat2Z.inj_le. apply Hm; [by apply Hse|done].
Qed.

Lemma build_loops_spec g es h : loop_graph es g -> (forall b blk, blocks g !! b = Some blk -> loop_depth blk = 0 /\ loop_header blk = -1) ->
  Forall (fun b => 0 <= b < Z.of_nat (block_count g)) (block_of g) ->
  exists ok g' h', mir_cfg_build_loops g h = Ret (ok, g', h') /\ heap_grants h' = heap_grants h /\
    ((forall k, heap_grants h k = true) -> ok = true) /\
    (ok = true -> exists bs d, g' = with_depths bs d g /\ Forall2 same_but_loop (blocks g) bs /\ loops_exact es g' /\ insn_depths_ok g').
Proof.
  intros Hg Hz Hb. unfold mir_cfg_build_loops. destruct (alloc_many_spec 2 h) as (ok & h1 & -> & Hh & Hok). destruct ok; cbn [negb].
  2:{ by exists false, g, h1. }
  destruct (visit_loops_spec es g Hg Hz) as (bs1 & bs2 & -> & E2 & Hs & Hl). cbn [obind]. rewrite E2. cbn [obind]. unfold alloc.
  destruct (heap_grants h1 (heap_calls h1)) eqn:Eg; cbn [negb].
  2:{ eexists false, _, _. split; [done|]. split; [done|]. split; [|done]. intros Hall. rewrite Hh, Hall in Eg. done. }
  destruct (depths_ok bs2 (block_of g)) as (d & E & Hd); [by rewrite <- (Forall2_length _ _ _ Hs)|].
  cbn [with_blocks blocks block_of]. rewrite E. cbn [obind]. eexists true, _, _. split; [done|]. split; [done|]. split; [done|].
  intros _. exists bs2, d. split; [done|]. split; [done|]. split; [exact Hl|exact Hd].
Qed.
End CfgLoops.
