(* ===== verification/CfgBuild.v ===== *)
(** The analysis as a whole.

    [mir_cfg_build] runs the phases one after the other.  It always returns;
    given memory it succeeds exactly on functions whose branches all lead
    somewhere; and the graph it returns carries the blocks, the flow between
    them, the dominators, the loops, and the live and defined registers. *)
From S2P Require Import Prelude Mir Probe MirCfg CfgGraph CfgSets CfgLive CfgRpo CfgDom CfgLoops.
#[local] Open Scope Z_scope.

Module CfgBuild.
Import Mir Probe Cfg CfgGraph CfgSets CfgLive CfgRpo CfgDom CfgLoops.

(** * The graph through the later phases *)

Lemma blocks_ok_same fn g g' : blocks_ok fn g -> Forall2 same_edges (blocks g) (blocks g') -> block_of g' = block_of g -> blocks_ok fn g'.
Proof.
  intros [H1 H2 H3 H4] Hs Eb. assert (block_count g' = block_count g) as Ec by (unfold block_count; symmetry; by eapply Forall2_length).
  split; [congruence| |by rewrite Ec|by rewrite Ec]. intros b y Hy.
  destruct (Forall2_lookup_r _ _ _ _ _ Hs Hy) as (x & Hx & E1 & E2 & _). unfold spans. rewrite <- E1, <- E2. by apply H2.
Qed.

Lemma block_flow_same fn g g' f t : Forall2 same_edges (blocks g) (blocks g') -> block_flow fn g f t <-> block_flow fn g' f t.
Proof.
  intros Hs. split; intros (x & i & j & Hx & Hi & Hf & Hn).
  - destruct (Forall2_lookup_l _ _ _ _ _ Hs Hx) as (y & Hy & _ & E & _). exists y, i, j. by rewrite <- E.
  - destruct (Forall2_lookup_r _ _ _ _ _ Hs Hx) as (y & Hy & _ & E & _). exists y, i, j. by rewrite E.
Qed.

Lemma graph_ok_same fn g g' es : graph_ok fn g es -> Forall2 same_edges (blocks g) (blocks g') -> block_of g' = block_of g ->
  edge_to g' = edge_to g -> edge_next g' = edge_next g -> graph_ok fn g' es.
Proof.
  intros [H1 H2 Hp H3] Hs Eb Et En. split; [by eapply blocks_ok_same|by eapply graph_inv_blocks| |].
  - rewrite Hp, (flow_edges_ends fn g g'); [done|]. eapply Forall2_impl; [exact Hs|]. by intros x y (_ & He & _).
  - intros f t. rewrite H3. by apply block_flow_same.
Qed.

#[export] Instance same_edges_refl : Reflexive same_edges.
Proof. done. Qed.

Lemma graph_ok_sets fn g es u d li lo di d_o : graph_ok fn g es -> graph_ok fn (with_sets u d li lo di d_o g) es.
Proof. intros H. apply (graph_ok_same fn g); [done|cbn; reflexivity|done..]. Qed.

(** ** Reached blocks first, then the others *)

Definition whole_order (g : MirCfg) (ord : list nat) : Prop :=
  exists rest, order g = Z.of_nat <$> ord ++ rest /\ NoDup (ord ++ rest) /\ forall b, b ∈ ord ++ rest <-> (b < block_count g)%nat.

Lemma build_order_spec g es ord h : graph_inv g es -> (0 < block_count g)%nat -> rpo_ok es g ord ->
  exists ok g' h', mir_cfg_build_order g h = (ok, g', h') /\ heap_grants h' = heap_grants h /\
    ((forall k, heap_grants h k = true) -> ok = true) /\
    (ok = true -> exists o, g' = with_order o g /\ whole_order g' ord).
Proof.
  intros Hg Hn Hr. unfold mir_cfg_build_order, alloc. destruct (heap_grants h (heap_calls h)) eqn:Eg.
  2:{ eexists false, _, _. split; [done|]. split; [done|]. split; [intros H; by rewrite H in Eg|done]. }
  eexists true, _, _. split; [done|]. split; [done|]. split; [done|]. intros _. eexists. split; [done|].
  set (rest := filter (fun b => match blocks g !! b with Some blk => rpo blk <? 0 | None => false end = true) (seq 0 (length (blocks g)))).
  assert (forall b, b ∈ rest <-> (b < block_count g)%nat /\ ~ reach es b) as Hrest.
  { intros b. unfold rest. rewrite list_elem_of_filter, elem_of_seq. split.
    - intros [H [_ Hb]]. split; [done|]. destruct (lookup_lt_is_Some_2 (blocks g) b Hb) as [blk Hblk]. rewrite Hblk in H.
      pose proof (ro_rpo _ _ _ Hr b blk Hblk) as Hk. rewrite <- (ro_reach _ _ _ Hr). intros [k Hin]%list_elem_of_lookup.
      rewrite (list_find_nth ord k b (ro_nodup _ _ _ Hr) Hin) in Hk. lia.
    - intros [Hb Hnr]. split; [|unfold block_count in Hb; lia]. destruct (lookup_lt_is_Some_2 (blocks g) b Hb) as [blk Hblk]. rewrite Hblk.
      pose proof (ro_rpo _ _ _ Hr b blk Hblk) as Hk. destruct (list_find (fun c => c = b) ord) as [[k c]|] eqn:Ef; [|lia].
      apply list_find_Some in Ef as (Hc & -> & _). exfalso. apply Hnr, (ro_reach _ _ _ Hr). by eapply list_elem_of_lookup_2. }
  exists rest. split; [|split].
  - cbn [with_order order]. by rewrite fmap_app, (ro_order _ _ _ Hr).
  - apply NoDup_app. split; [apply (ro_nodup _ _ _ Hr)|]. split; [|apply NoDup_filter, NoDup_seq].
    intros b Hb [_ Hnr]%Hrest. by apply Hnr, (ro_reach _ _ _ Hr).
  - intros b. change (block_count (with_order _ g)) with (block_count g). rewrite elem_of_app, Hrest, <- (ro_reach _ _ _ Hr). split.
    + intros [H%(ro_reach _ _ _ Hr)|[H _]]; [by apply (reach_lt g es)|done].
    + intros Hb. destruct (decide (b ∈ ord)); [by left|by right].
Qed.

(** * What the analysis has found out *)

Record analysed (fn : MirFunction) (g : MirCfg) (es : list (nat * nat)) (ord : list nat) : Prop := {
  an_resolved : resolved fn;
  an_nonempty : (0 < block_count g)%nat;
  an_graph : graph_ok fn g es;
  an_rpo : rpo_ok es g ord;
  an_order : whole_order g ord;
  an_dom : dominators_exact es g;
  an_loops : loops_exact es g;
  an_depths : insn_depths_ok g;
  an_words : (vreg_count fn <= words g * 64)%nat;
  an_rows : rows_ok (words g) (block_count g) (live_in g) /\ rows_ok (words g) (block_count g) (live_out g) /\
            rows_ok (words g) (block_count g) (defd_in g) /\ rows_ok (words g) (block_count g) (defd_out g);
  an_live : forall b v, (bit (live_out g) b v = true <-> live_out_of fn g b v) /\ (bit (live_in g) b v = true <-> live_in_of fn g b v);
  an_defd : forall b v, (bit (defd_in g) b v = true <-> defd_in_of fn g b v) /\ (bit (defd_out g) b v = true <-> defd_out_of fn g b v)
}.

(** A phase that may run out of memory, followed by the rest. *)
Lemma ends_phase (P : MirCfg -> Prop) (m : outcome (bool * MirCfg * heap)) (k : MirCfg -> heap -> outcome (bool * MirCfg * heap)) h (able able' : Prop) post :
  (exists ok g h', m = Ret (ok, g, h') /\ heap_grants h' = heap_grants h /\
    (able -> (forall n, heap_grants h n = true) -> ok = true) /\ (ok = true -> P g)) ->
  (able' -> able) -> (forall g h', P g -> ends (k g h') h' able' post) ->
  ends (let! (ok, g, h) := m in if negb ok then Ret (false, cfg_zero, h) else k g h) h able' post.
Proof.
  intros (ok & g & h' & -> & Hh & Hok & HP) Hable Hk. cbn [obind]. destruct ok; cbn [negb].
  - destruct (Hk g h' (HP eq_refl)) as (ok & g2 & h2 & E & Hh2 & Hok2 & Hpost). exists ok, g2, h2. rewrite E. split; [done|].
    split; [congruence|]. split; [|done]. intros Ha Hall. apply Hok2; [done|]. by rewrite Hh.
  - exists false, cfg_zero, h'. split; [done|]. split; [done|]. split; [|done]. intros Ha Hall. by apply Hok; [apply Hable|].
Qed.

(** * The phases *)

Definition no_loops (g : MirCfg) : Prop := forall b blk, blocks g !! b = Some blk -> loop_depth blk = 0 /\ loop_header blk = -1.

Section phases.
Context (fn : MirFunction) (W : nat).

(** The graph when its edges are there, and when its order is known too. *)
Definition with_flow (g : MirCfg) (es : list (nat * nat)) : Prop :=
  resolved fn /\ (0 < block_count g)%nat /\ words g = W /\ graph_ok fn g es /\ no_loops g.
Definition untouched (g : MirCfg) : Prop := forall b blk, blocks g !! b = Some blk -> idom blk = -1 /\ rpo blk = -1.
Definition numbered_graph (g : MirCfg) (es : list (nat * nat)) (ord : list nat) : Prop := with_flow g es /\ rpo_ok es g ord.

Lemma edges_phase g h : tables_ok fn -> blocks_ok fn g -> (0 < block_count g)%nat -> (forall b blk, blocks g !! b = Some blk -> bare blk) ->
  edge_next g = [] -> edge_to g = [] -> words g = W ->
  ends (mir_cfg_build_edges fn g h) h (resolved fn) (fun g => exists es, with_flow g es /\ untouched g).
Proof.
  intros Ht Hok Hn Hb En Et Ew. destruct (build_edges_spec fn g h Ht Hok Hb En Et) as (ok & g' & h' & E & Hh & Hok' & Hp).
  exists ok, g', h'. split; [done|]. split; [done|]. split; [done|]. intros Eok. destruct (Hp Eok) as (Hs & Hr & es & Hg).
  exists es. pose proof (only_heads_count _ _ Hs) as Ec. destruct Hs as (Hs & _ & Ew').
  assert (forall b blk, blocks g' !! b = Some blk -> (loop_depth blk = 0 /\ loop_header blk = -1) /\ idom blk = -1 /\ rpo blk = -1) as Hf.
  { intros b y Hy. destruct (Forall2_lookup_r _ _ _ _ _ Hs Hy) as (x & Hx & _ & _ & <- & <- & <- & <-).
    destruct (Hb b x Hx) as (_ & _ & H1 & H2 & H3 & H4). done. }
  split; [|intros b y Hy; by apply (Hf b)]. split; [done|]. split; [by rewrite Ec|]. split; [congruence|]. split; [done|].
  intros b y Hy. by apply (Hf b).
Qed.

Lemma rpo_phase g es h : with_flow g es -> untouched g ->
  ends (mir_cfg_build_rpo g h) h True (fun g => exists ord, numbered_graph g es ord /\ forall b blk, blocks g !! b = Some blk -> idom blk = -1).
Proof.
  intros (Hr & Hn & Hw & Hg & Hl) Hu.
  destruct (build_rpo_spec g es h (go_graph _ _ _ Hg) Hn) as (ok & g' & h' & E & Hh & Hok & Hp); [intros b blk Hb; by apply (Hu b)|].
  exists ok, g', h'. split; [done|]. split; [done|]. split; [done|]. intros Eok. destruct (Hp Eok) as (ord & bs & -> & Hs & Hro).
  exists ord. assert (Forall2 same_edges (blocks g) bs) as Hse.
  { eapply Forall2_impl; [exact Hs|]. intros x y (? & ? & ? & ? & _). done. }
  split; [split; [|done]|].
  - split; [done|]. split; [unfold block_count in *; cbn; by rewrite <- (Forall2_length _ _ _ Hs)|]. split; [done|].
    split; [by apply (graph_ok_same fn g)|]. intros b y Hy. cbn in Hy. destruct (Forall2_lookup_r _ _ _ _ _ Hs Hy) as (x & Hx & H).
    destruct H as (_ & _ & _ & _ & _ & <- & <-). by apply (Hl b).
  - intros b y Hy. cbn in Hy. destruct (Forall2_lookup_r _ _ _ _ _ Hs Hy) as (x & Hx & H).
    destruct H as (_ & _ & _ & _ & <- & _). by apply (Hu b).
Qed.

Lemma dominators_phase g es ord : numbered_graph g es ord -> (forall b blk, blocks g !! b = Some blk -> idom blk = -1) ->
  exists g', mir_cfg_build_dominators g = Ret g' /\ numbered_graph g' es ord /\ dominators_exact es g'.
Proof.
  intros [(Hr & Hn & Hw & Hg & Hl) Hro] Hi.
  destruct (build_dominators_spec g es ord (go_graph _ _ _ Hg) Hro Hn Hi) as (bs & E & Hs & Hd). exists (with_blocks bs g).
  split; [done|]. split; [|done]. split; [|destruct Hro as [R1 R2 R3 R4 R5 R6]; split; try done].
  - split; [done|]. split; [unfold block_count in *; cbn; by rewrite <- (Forall2_length _ _ _ Hs)|]. split; [done|].
    split; [by apply (graph_ok_same fn g); [|apply same_but_idom_edges|..]|]. intros b y Hy. cbn in Hy.
    destruct (Forall2_lookup_r _ _ _ _ _ Hs Hy) as (x & Hx & _ & _ & <- & <-). by apply (Hl b).
  - intros b y Hy. cbn in Hy. destruct (Forall2_lookup_r _ _ _ _ _ Hs Hy) as (x & Hx & _ & <- & _). by apply R6.
Qed.

Lemma rpo_reached g es ord : rpo_ok es g ord -> forall b blk, blocks g !! b = Some blk -> 0 <= rpo blk <-> reach es b.
Proof.
  intros Hr b blk Hb. pose proof (ro_rpo _ _ _ Hr b blk Hb) as Hk. rewrite <- (ro_reach _ _ _ Hr). split.
  - intros H0. destruct (list_find (fun c => c = b) ord) as [[k c]|] eqn:Ef; [|lia].
    apply list_find_Some in Ef as (Hc & -> & _). by eapply list_elem_of_lookup_2.
  - intros [k Hin]%list_elem_of_lookup. rewrite (list_find_nth ord k b (ro_nodup _ _ _ Hr) Hin) in Hk. lia.
Qed.

Lemma numbered_order g es ord o : numbered_graph g es ord -> numbered_graph (with_order o g) es ord.
Proof.
  intros [(Hr & Hn & Hw & Hg & Hl) [R1 R2 R3 R4 R5 R6]]. split; [|by split]. split; [done|]. split; [done|]. split; [done|].
  split; [|done]. apply (graph_ok_same fn g); [done|cbn; reflexivity|done..].
Qed.

(** The graph when its loops are known. *)
Definition nested (g : MirCfg) (es : list (nat * nat)) (ord : list nat) : Prop :=
  resolved fn /\ (0 < block_count g)%nat /\ words g = W /\ graph_ok fn g es /\ rpo_ok es g ord /\ whole_order g ord /\
  dominators_exact es g /\ loops_exact es g /\ insn_depths_ok g.

Lemma loops_phase g es ord h : numbered_graph g es ord -> dominators_exact es g -> whole_order g ord ->
  ends (mir_cfg_build_loops g h) h True (fun g => nested g es ord).
Proof.
  intros [(Hr & Hn & Hw & Hg & Hl) Hro] Hd Ho.
  assert (loop_graph es g) as Hlg by (split; [apply (go_graph _ _ _ Hg)|done|by eapply rpo_reached]).
  assert (Forall (fun b => 0 <= b < Z.of_nat (block_count g)) (block_of g)) as Hbof.
  { rewrite (bo_of _ _ (go_blocks _ _ _ Hg)). apply Forall_forall. intros z [i Hi]%list_elem_of_lookup. split; [by eapply numbered_nonneg|].
    by eapply (bo_lt _ _ (go_blocks _ _ _ Hg)). }
  destruct (build_loops_spec g es h Hlg Hl Hbof) as (ok & g' & h' & E & Hh & Hok & Hp).
  exists ok, g', h'. split; [done|]. split; [done|]. split; [done|]. intros Eok. destruct (Hp Eok) as (bs & d & -> & Hs & Hle & Hde).
  pose proof (loop_graph_same es g bs Hlg Hs) as [_ Hd' _].
  assert (Forall2 same_edges (blocks g) bs) as Hse by (eapply Forall2_impl; [exact Hs|]; by intros x y [? _]).
  assert (block_count (with_depths bs d g) = block_count g) as Ec by (symmetry; by eapply Forall2_length).
  split; [done|]. split; [by rewrite Ec|]. split; [done|]. split; [by apply (graph_ok_same fn g)|]. split; [|split; [|done]].
  - destruct Hro as [R1 R2 R3 R4 R5 R6]. split; try done. intros b y Hy. cbn in Hy.
    destruct (Forall2_lookup_r _ _ _ _ _ Hs Hy) as (x & Hx & _ & _ & <-). by apply R6.
  - destruct Ho as (rest & H1 & H2 & H3). exists rest. by rewrite Ec.
Qed.

Lemma sets_phase g es ord h : (vreg_count fn <= W * 64)%nat -> nested g es ord ->
  ends (let '(ok, g, h) := mir_cfg_alloc_sets g h in
        if negb ok then Ret (false, cfg_zero, h) else
        let! g := mir_cfg_local_sets fn (block_count g) 0 g in
        let! g := mir_cfg_liveness g in
        let! g := mir_cfg_definedness fn g in
        Ret (true, g, h)) h True (fun g => analysed fn g es ord).
Proof.
  intros HW (Hr & Hn & Hw & Hg & Hro & (rest & Ho1 & Ho2 & Ho3) & Hd & Hl & Hde). unfold mir_cfg_alloc_sets.
  destruct (alloc_many_spec 6 h) as (ok & h1 & -> & Hh & Hok). destruct ok; cbn [negb].
  2:{ exists false, cfg_zero, h1. split; [done|]. split; [done|]. split; [intros _ H; by apply Hok|done]. }
  set (z := replicate (block_count g) (replicate (words g) 0)). set (n := block_count g) in *.
  assert (rows_ok (words g) n z) as Hz by apply rows_zero.
  destruct (local_sets_spec fn (words g) ltac:(by rewrite Hw) n 0 (with_sets z z z z z z g)) as (us & ds & E & Hus & Hds & Hloc).
  { by apply (go_blocks fn _ es), graph_ok_sets. } { fold n. unfold block_count. cbn. unfold n, block_count. lia. } { exact Hz. } { exact Hz. }
  { intros c Hc. lia. } { intros c v _. split; apply bit_zero. }
  change (block_count (with_sets z z z z z z g)) with n. rewrite E. cbn [obind]. clear E.
  set (g1 := with_sets us ds _ _ _ _ _). assert (graph_ok fn g1 es) as Hg1 by (by do 2 apply graph_ok_sets).
  assert (sized (words g) es g1) as Hs1 by (split; [apply (go_graph _ _ _ Hg1)|done|exact Hus|exact Hds]).
  destruct (liveness_spec fn g1 es (words g) Hg1 Hs1 ltac:(by rewrite Hw) Hloc eq_refl eq_refl) as (li & lo & -> & Hli & Hlo & Hlive).
  cbn [obind]. set (g2 := with_sets _ _ li lo _ _ g1).
  assert (graph_ok fn g2 es) as Hg2 by (by apply graph_ok_sets).
  destruct (definedness_spec fn g2 es (words g) (ord ++ rest) Hg2) as (di & d_o & -> & Hdi & Hdo & Hdefd); [by apply sized_sets|by rewrite Hw|exact Hn|exact Hloc|exact Ho1|exact Ho3|done|done|].
  cbn [obind]. eexists true, _, h1. split; [done|]. split; [done|]. split; [done|]. intros _.
  split; [done|exact Hn| |destruct Hro; by split|by exists rest|exact Hd|exact Hl|exact Hde|cbn; by rewrite Hw| |exact Hlive|exact Hdefd].
  - by apply graph_ok_sets.
  - done.
Qed.
End phases.
End CfgBuild.
