(* ===== verification/CfgCursor.v ===== *)
(** The cursor.

    It starts at the end of a block with the sets of the block and moves back
    one instruction at a time; at every place it shows the registers that are
    live and those that are defined there. *)
From S2P Require Import Prelude Mir Probe MirCfg CfgGraph CfgSets CfgLive.
#[local] Open Scope Z_scope.

Module CfgCursor.
Import Mir Probe Cfg CfgGraph CfgSets CfgLive.

(** * Moving through a block *)

Lemma live_split fn v i : live_at fn v i <-> reads fn i v \/ (~ writes fn i v /\ live_after fn v i).
Proof.
  split.
  - intros H. inversion H as [? Hr|? j Hw Hf Hl]; [by left|right]. split; [done|]. by exists j.
  - intros [Hr|[Hw (j & Hf & Hl)]]; [by apply live_read|by apply (live_flow _ _ i j)].
Qed.

Section inner.
Context (fn : MirFunction) (g : MirCfg) (es : list (nat * nat)) (Hg : graph_ok fn g es).
Context (b : nat) (blk : MirCfgBlock) (Hb : blocks g !! b = Some blk).

Lemma live_inner v i : start blk <= Z.of_nat i -> Z.of_nat (S i) < end_ blk -> live_after fn v i <-> live_at fn v (S i).
Proof.
  intros Hs He. unfold live_after. split.
  - intros (j & Hf & Hl). by apply (inner_flow fn g es Hg b blk i j Hb Hs He) in Hf as ->.
  - intros Hl. exists (S i). split; [|done]. by apply (inner_flow fn g es Hg b blk i (S i) Hb Hs He).
Qed.

(** Control comes to an instruction inside a block from the one before. *)
Lemma inner_entry k i : start blk <= Z.of_nat i -> Z.of_nat (S i) < end_ blk -> insn_flow fn k (S i) -> k = i.
Proof.
  intros Hs He Hf. pose proof (go_blocks _ _ _ Hg) as Hok. pose proof (block_nonempty _ _ Hok _ _ Hb) as [_ Hend].
  assert (k < insn_count fn)%nat as Hk by (destruct Hf as (x & _ & _ & Hx & _); by apply lookup_lt_Some in Hx).
  destruct (numbered_is_Some _ _ Hok k Hk) as (c & blkc & Hc & Hblkc). apply (block_member _ _ Hok c blkc k Hblkc Hk) in Hc.
  destruct (decide (Z.of_nat (S k) < end_ blkc)) as [Hin|Hlast].
  - apply (inner_flow fn g es Hg c blkc k (S i) Hblkc) in Hf; [lia|lia|done].
  - destruct (flow_enters fn g es Hg c blkc k (S i) Hblkc) as (d & blkd & _ & Hblkd & Hsd); [lia|done|].
    pose proof (block_nonempty _ _ Hok _ _ Hblkd) as [Hned _].
    assert (numbered (insns fn) !! S i = Some (Z.of_nat b)) as E1 by (apply (block_member _ _ Hok b blk); [done|lia|lia]).
    assert (numbered (insns fn) !! S i = Some (Z.of_nat d)) as E2 by (apply (block_member _ _ Hok d blkd); [done|lia|lia]).
    assert (d = b) as -> by (rewrite E1 in E2; injection E2; lia). assert (blkd = blk) as -> by congruence. lia.
Qed.

Lemma defd_inner v i : start blk <= Z.of_nat i -> Z.of_nat (S i) < end_ blk -> defd_at fn v (S i) <-> defd_after fn v i.
Proof.
  intros Hs He. assert (insn_flow fn i (S i)) as Hf by (by apply (inner_flow fn g es Hg b blk i (S i) Hb Hs He)). split.
  - intros H. inversion H as [|k j Hw Hk|k j Hd Hk]; subst; apply inner_entry in Hk; [|done|done|..|done|done]; subst k; [by right|by left].
  - intros [H|H]; [by eapply defd_keep|by eapply defd_write].
Qed.

Lemma defd_history v s i : Z.of_nat s = start blk -> (s <= i)%nat -> Z.of_nat i < end_ blk ->
  defd_at fn v i <-> defd_at fn v s \/ exists k, (s <= k < i)%nat /\ writes fn k v.
Proof.
  intros Hs. induction i as [|i IH]; intros Hsi He.
  - assert (s = O) as -> by lia. split; [by left|]. intros [|(k & Hk & _)]; [done|lia].
  - destruct (decide (s = S i)) as [->|Hne]; [split; [by left|]; intros [|(k & Hk & _)]; [done|lia]|].
    rewrite defd_inner by lia. unfold defd_after. rewrite IH by lia. split.
    + intros [[H|(k & Hk & Hw)]|H]; [by left|right; exists k; split; [lia|done]|right; exists i; split; [lia|done]].
    + intros [H|(k & Hk & Hw)]; [by left; left|]. destruct (decide (k = i)) as [->|]; [by right|].
      left. right. exists k. split; [lia|done].
Qed.
End inner.

(** * The writes of a block *)

(** The instructions among [n] from [a] on that write [v]. *)
Definition nwrites (fn : MirFunction) (v a n : nat) : nat :=
  length (filter (fun x => mir_cfg_insn_def x = Z.of_nat v) (take n (drop a (insns fn)))).

Lemma nwrites_first fn v a n x : insns fn !! a = Some x ->
  nwrites fn v a (S n) = ((if decide (mir_cfg_insn_def x = Z.of_nat v) then 1 else 0) + nwrites fn v (S a) n)%nat.
Proof.
  intros Hx. unfold nwrites. rewrite (drop_S _ _ _ Hx). cbn [take]. rewrite filter_cons. by destruct (decide _).
Qed.

Lemma nwrites_last fn v a n x : insns fn !! (a + n)%nat = Some x ->
  nwrites fn v a (S n) = (nwrites fn v a n + if decide (mir_cfg_insn_def x = Z.of_nat v) then 1 else 0)%nat.
Proof.
  intros Hx. unfold nwrites. rewrite (take_S_r _ _ x) by (by rewrite lookup_drop). rewrite filter_app, length_app, filter_cons.
  by destruct (decide _).
Qed.

Lemma nwrites_pos fn v a n : (0 < nwrites fn v a n)%nat <-> exists k, (a <= k < a + n)%nat /\ writes fn k v.
Proof.
  unfold nwrites. split.
  - intros H. destruct (filter _ _) as [|x l] eqn:E; [cbn in H; lia|]. assert (x ∈ x :: l) as Hx by left. rewrite <- E in Hx.
    apply list_elem_of_filter in Hx as [Hd [i Hi]%list_elem_of_lookup]. apply lookup_take_Some in Hi as [Hi Hn]. rewrite lookup_drop in Hi.
    exists (a + i)%nat. split; [lia|]. by exists x.
  - intros (k & Hk & x & Hx & Hd). assert (x ∈ filter (fun x => mir_cfg_insn_def x = Z.of_nat v) (take n (drop a (insns fn)))) as Hin.
    { apply list_elem_of_filter. split; [done|]. apply (list_elem_of_lookup_2 _ (k - a)%nat). apply lookup_take_Some. split; [|lia].
      rewrite lookup_drop. by replace (a + (k - a))%nat with k by lia. }
    destruct (filter _ _); [by apply not_elem_of_nil in Hin|cbn; lia].
Qed.

Lemma in_range_some fn z : in_range fn z = true -> exists v, z = Z.of_nat v /\ (v < vreg_count fn)%nat.
Proof. unfold in_range. intros H. exists (Z.to_nat z). lia. Qed.

Lemma in_range_reg fn v : (v < vreg_count fn)%nat -> in_range fn (Z.of_nat v) = true.
Proof. unfold in_range. lia. Qed.

Lemma count_defs_spec fn n : forall a c, (a + n <= insn_count fn)%nat -> length c = vreg_count fn ->
  exists c', count_defs fn n (Z.of_nat a) c = Ret c' /\ length c' = vreg_count fn /\
    forall v k, c !! v = Some k -> c' !! v = Some (k + Z.of_nat (nwrites fn v a n)).
Proof.
  induction n as [|n IH]; intros a c Ha Hc; cbn [count_defs].
  { exists c. split; [done|]. split; [done|]. intros v k Hv. rewrite Hv. change (nwrites fn v a 0) with O. f_equal. lia. }
  destruct (lookup_lt_is_Some_2 (insns fn) a) as [x Hx]; [unfold insn_count in Ha; lia|]. rewrite (get_nat _ _ _ Hx). cbn [obind].
  replace (Z.of_nat a + 1) with (Z.of_nat (S a)) by lia.
  destruct (in_range fn (mir_cfg_insn_def x)) eqn:Er.
  - apply in_range_some in Er as (v & Ev & Hv). rewrite Ev. destruct (lookup_lt_is_Some_2 c v) as [k Hk]; [by rewrite Hc|].
    rewrite (get_nat _ _ _ Hk). cbn [obind]. rewrite put_nat by (by rewrite Hc). cbn [obind].
    destruct (IH (S a) (<[v := k + 1]> c)) as (c' & E & Hl & Hc'); [lia|by rewrite length_insert|]. exists c'. split; [done|]. split; [done|].
    intros y m Hm. rewrite (nwrites_first _ _ _ _ _ Hx), Ev. destruct (decide (y = v)) as [->|Hne].
    + rewrite (Hc' v (k + 1)) by (apply list_lookup_insert_eq; by rewrite Hc). rewrite decide_True by done. f_equal. assert (m = k) by congruence. lia.
    + rewrite (Hc' y m) by (by rewrite list_lookup_insert_ne). rewrite decide_False by lia. f_equal.
  - cbn [obind]. destruct (IH (S a) c) as (c' & E & Hl & Hc'); [lia|done|]. exists c'. split; [done|]. split; [done|].
    intros y m Hm. rewrite (nwrites_first _ _ _ _ _ Hx), (Hc' y m Hm). rewrite decide_False; [f_equal|]. intros E'.
    rewrite E', in_range_reg in Er; [done|]. rewrite <- Hc. by apply lookup_lt_Some in Hm.
Qed.

(** * What the cursor shows *)

(** The places of a block run from its first instruction to behind its last. *)
Definition live_place (fn : MirFunction) (blk : MirCfgBlock) (i v : nat) : Prop :=
  if Z.of_nat i <? end_ blk then live_at fn v i else live_after fn v (pred i).
Definition defd_place (fn : MirFunction) (blk : MirCfgBlock) (i v : nat) : Prop :=
  if Z.of_nat i <? end_ blk then defd_at fn v i else defd_after fn v (pred i).

Record cursor_at (fn : MirFunction) (g : MirCfg) (b : nat) (blk : MirCfgBlock) (i : nat) (cur : MirCfgCursor) : Prop := {
  ca_block : block cur = Z.of_nat b;
  ca_at : at_ cur = Z.of_nat i;
  ca_span : start blk <= Z.of_nat i <= end_ blk;
  ca_rows : row_ok (words g) (live cur) /\ row_ok (words g) (defd cur);
  ca_count : length (count cur) = vreg_count fn /\
    forall v, (v < vreg_count fn)%nat -> count cur !! v = Some (Z.of_nat (nwrites fn v (Z.to_nat (start blk)) (i - Z.to_nat (start blk))));
  ca_live : forall v, (v < vreg_count fn)%nat -> mem (live cur) v = true <-> live_place fn blk i v;
  ca_defd : forall v, (v < vreg_count fn)%nat -> mem (defd cur) v = true <-> defd_place fn blk i v
}.

Lemma add_live_spec fn w ids : (vreg_count fn <= w * 64)%nat -> forall l, row_ok w l -> exists l', add_live fn ids l = Ret l' /\ row_ok w l' /\
  forall v, (v < vreg_count fn)%nat -> mem l' v = true <-> mem l v = true \/ Z.of_nat v ∈ ids.
Proof.
  intros Hw. induction ids as [|z ids IH]; intros l Hl; cbn [add_live].
  { exists l. split; [done|]. split; [done|]. intros v _. split; [by left|]. intros [|H%not_elem_of_nil]; done. }
  destruct (in_range fn z) eqn:Er.
  - apply in_range_some in Er as (y & -> & Hy). destruct (set_add_spec w l y Hl) as (l1 & -> & Hl1 & Hm1); [lia|]. cbn [obind].
    destruct (IH l1 Hl1) as (l' & E & Hl' & Hm). exists l'. split; [done|]. split; [done|]. intros v Hv.
    rewrite (Hm v Hv), Hm1, orb_true_iff, bool_decide_eq_true, elem_of_cons, Nat2Z.inj_iff. tauto.
  - destruct (IH l Hl) as (l' & E & Hl' & Hm). exists l'. split; [done|]. split; [done|]. intros v Hv. rewrite (Hm v Hv), elem_of_cons.
    split; [tauto|]. intros [|[<-|]]; [by left| |by right]. apply in_range_reg in Hv. congruence.
Qed.

Section cursor.
Context (fn : MirFunction) (g : MirCfg) (es : list (nat * nat)) (Hg : graph_ok fn g es).
Context (Hw : (vreg_count fn <= words g * 64)%nat).
Context (Hlo : rows_ok (words g) (block_count g) (live_out g)) (Hdo : rows_ok (words g) (block_count g) (defd_out g)).
Context (Hdi : rows_ok (words g) (block_count g) (defd_in g)).
Context (Hlive : forall b v, bit (live_out g) b v = true <-> live_out_of fn g b v).
Context (Hdin : forall b v, bit (defd_in g) b v = true <-> defd_in_of fn g b v).
Context (Hdout : forall b v, bit (defd_out g) b v = true <-> defd_out_of fn g b v).

Lemma last_place b blk (P : nat -> Prop) : blocks g !! b = Some blk ->
  (exists blk' i, blocks g !! b = Some blk' /\ Z.of_nat i = end_ blk' - 1 /\ P i) <-> P (pred (Z.to_nat (end_ blk))).
Proof.
  intros Hb. pose proof (block_nonempty _ _ (go_blocks _ _ _ Hg) _ _ Hb) as [Hne _]. split.
  - intros (blk' & i & Hb' & Hi & HP). assert (blk' = blk) as -> by congruence. by replace (pred (Z.to_nat (end_ blk))) with i by lia.
  - intros HP. exists blk, (pred (Z.to_nat (end_ blk))). split; [done|]. split; [lia|done].
Qed.

Lemma first_place b blk (P : nat -> Prop) : blocks g !! b = Some blk ->
  (exists blk' i, blocks g !! b = Some blk' /\ Z.of_nat i = start blk' /\ P i) <-> P (Z.to_nat (start blk)).
Proof.
  intros Hb. pose proof (block_nonempty _ _ (go_blocks _ _ _ Hg) _ _ Hb) as [Hne _]. split.
  - intros (blk' & i & Hb' & Hi & HP). assert (blk' = blk) as -> by congruence. by replace (Z.to_nat (start blk)) with i by lia.
  - intros HP. exists blk, (Z.to_nat (start blk)). split; [done|]. split; [lia|done].
Qed.

Lemma start_block_spec b blk cur : blocks g !! b = Some blk -> count cur = replicate (vreg_count fn) 0 ->
  exists cur', mir_cfg_cursor_start_block fn g (Z.of_nat b) cur = Ret cur' /\ cursor_at fn g b blk (Z.to_nat (end_ blk)) cur'.
Proof.
  intros Hb Hc. pose proof (block_nonempty _ _ (go_blocks _ _ _ Hg) _ _ Hb) as [Hne Hend]. pose proof (lookup_lt_Some _ _ _ Hb) as Hbl.
  unfold mir_cfg_cursor_start_block. rewrite (get_nat _ _ _ Hb). cbn [obind].
  destruct (rows_lookup _ _ _ b Hlo Hbl) as (lo & El & Hrl). rewrite (get_nat _ _ _ El). cbn [obind].
  destruct (rows_lookup _ _ _ b Hdo Hbl) as (d_o & Ed & Hrd). rewrite (get_nat _ _ _ Ed). cbn [obind].
  destruct (count_defs_spec fn (Z.to_nat (end_ blk - start blk)) (Z.to_nat (start blk)) (count cur)) as (c' & E & Hl & Hc');
    [lia|by rewrite Hc, length_replicate|].
  rewrite Z2Nat.id in E by lia. rewrite E. cbn [obind]. eexists. split; [done|]. split; cbn.
  - done.
  - lia.
  - lia.
  - done.
  - split; [done|]. intros v Hv. rewrite (Hc' v 0) by (rewrite Hc; by apply lookup_replicate_2).
    rewrite Z2Nat.inj_sub by lia. done.
  - intros v Hv. unfold live_place. rewrite (proj2 (Z.ltb_ge _ _)) by lia. pose proof (Hlive b v) as H. unfold bit in H. rewrite El in H.
    rewrite H. unfold live_out_of. rewrite (last_place b blk (live_after fn v) Hb). tauto.
  - intros v Hv. unfold defd_place. rewrite (proj2 (Z.ltb_ge _ _)) by lia. pose proof (Hdout b v) as H. unfold bit in H. rewrite Ed in H.
    rewrite H. unfold defd_out_of. rewrite (last_place b blk (defd_after fn v) Hb). tauto.
Qed.

(** ** One instruction back *)

Section back.
Context (b : nat) (blk : MirCfgBlock) (Hb : blocks g !! b = Some blk).
Context (j : nat) (Hj : start blk <= Z.of_nat j < end_ blk).

Lemma place_live v : live_place fn blk (S j) v <-> live_after fn v j.
Proof.
  unfold live_place. destruct (Z.ltb_spec (Z.of_nat (S j)) (end_ blk)); [|done]. by rewrite (live_inner fn g es Hg b blk Hb) by lia.
Qed.

Lemma place_defd v : defd_place fn blk (S j) v <-> defd_after fn v j.
Proof.
  unfold defd_place. destruct (Z.ltb_spec (Z.of_nat (S j)) (end_ blk)); [|done]. by rewrite (defd_inner fn g es Hg b blk Hb) by lia.
Qed.

Lemma place_live_at v : live_place fn blk j v <-> reads fn j v \/ (~ writes fn j v /\ live_place fn blk (S j) v).
Proof. unfold live_place at 1. rewrite (proj2 (Z.ltb_lt _ _)) by lia. by rewrite place_live, live_split. Qed.

Lemma place_defd_at v : defd_place fn blk j v <-> defd_at fn v j.
Proof. unfold defd_place. by rewrite (proj2 (Z.ltb_lt _ _)) by lia. Qed.

(** The register that instruction [j] writes is defined before it as well
    when the block writes it earlier, or it is defined on entry. *)
Lemma defd_before v : (v < vreg_count fn)%nat ->
  defd_at fn v j <-> (0 < nwrites fn v (Z.to_nat (start blk)) (j - Z.to_nat (start blk)))%nat \/ bit (defd_in g) b v = true.
Proof.
  intros Hv. pose proof (block_nonempty _ _ (go_blocks _ _ _ Hg) _ _ Hb) as [Hne _].
  rewrite (defd_history fn g es Hg b blk Hb v (Z.to_nat (start blk)) j) by lia. rewrite nwrites_pos, Hdin. unfold defd_in_of.
  rewrite (first_place b blk (defd_at fn v) Hb). split.
  - intros [H|(k & Hk & H)]; [by right|left]. exists k. split; [lia|done].
  - intros [(k & Hk & H)|[_ H]]; [right|by left]. exists k. split; [lia|done].
Qed.

Lemma writes_iff x v : insns fn !! j = Some x -> writes fn j v <-> mir_cfg_insn_def x = Z.of_nat v.
Proof. intros Hx. split; [intros (y & Hy & H); congruence|]. intros H. by exists x. Qed.

Lemma reads_iff x v : insns fn !! j = Some x -> reads fn j v <-> Z.of_nat v ∈ mir_cfg_insn_uses x.
Proof. intros Hx. split; [intros (y & Hy & H); by replace x with y by congruence|]. intros H. by exists x. Qed.

(** The register written leaves the sets, unless it was defined before. *)
Lemma undefine cur x : cursor_at fn g b blk (S j) cur -> insns fn !! j = Some x ->
  exists lv dd c,
    (if in_range fn (mir_cfg_insn_def x) then
       let! lv := mir_cfg_set_clear (live cur) (mir_cfg_insn_def x) in
       let! k := get (count cur) (mir_cfg_insn_def x) in
       let! c := put (count cur) (mir_cfg_insn_def x) (k - 1) in
       let! row := get (defd_in g) (block cur) in
       let! before := if k - 1 =? 0 then mir_cfg_set_get row (mir_cfg_insn_def x) else Ret true in
       if negb before then let! dd := mir_cfg_set_clear (defd cur) (mir_cfg_insn_def x) in Ret (lv, dd, c)
       else Ret (lv, defd cur, c)
     else Ret (live cur, defd cur, count cur)) = Ret (lv, dd, c) /\
    row_ok (words g) lv /\ row_ok (words g) dd /\ length c = vreg_count fn /\
    (forall v, (v < vreg_count fn)%nat -> c !! v = Some (Z.of_nat (nwrites fn v (Z.to_nat (start blk)) (j - Z.to_nat (start blk))))) /\
    (forall v, (v < vreg_count fn)%nat -> mem lv v = true <-> ~ writes fn j v /\ live_place fn blk (S j) v) /\
    (forall v, (v < vreg_count fn)%nat -> mem dd v = true <-> defd_at fn v j).
Proof.
  intros [C1 C2 C3 [C4 C4'] [C5 C5'] C6 C7] Hx. pose proof (block_nonempty _ _ (go_blocks _ _ _ Hg) _ _ Hb) as [Hne _].
  pose proof (lookup_lt_Some _ _ _ Hb) as Hbl. set (a := Z.to_nat (start blk)) in *. set (n := (j - a)%nat).
  assert (S j - a = S n)%nat as En by lia. rewrite En in C5'.
  assert (forall v, nwrites fn v a (S n) = (nwrites fn v a n + if decide (mir_cfg_insn_def x = Z.of_nat v) then 1 else 0)%nat) as Hlast.
  { intros v. apply nwrites_last. by replace (a + n)%nat with j by lia. }
  assert (forall v, (v < vreg_count fn)%nat -> mir_cfg_insn_def x <> Z.of_nat v -> mem (defd cur) v = true <-> defd_at fn v j) as Hother.
  { intros v Hv Hne'. rewrite (C7 v Hv), place_defd. unfold defd_after. rewrite (writes_iff x v Hx). tauto. }
  destruct (in_range fn (mir_cfg_insn_def x)) eqn:Er.
  2:{ assert (forall v, (v < vreg_count fn)%nat -> mir_cfg_insn_def x <> Z.of_nat v) as Hno.
      { intros v Hv E. rewrite E, in_range_reg in Er; done. }
      exists (live cur), (defd cur), (count cur). split; [done|]. split; [done|]. split; [done|]. split; [done|]. split; [|split].
      - intros v Hv. rewrite (C5' v Hv), Hlast, decide_False by (by apply Hno). do 2 f_equal. lia.
      - intros v Hv. rewrite (C6 v Hv), (writes_iff x v Hx). specialize (Hno v Hv). tauto.
      - intros v Hv. apply Hother; [done|by apply Hno]. }
  apply in_range_some in Er as (y & Ey & Hy). rewrite Ey.
  destruct (set_clear_spec (words g) (live cur) y C4) as (lv & -> & Hrl & Hml); [lia|]. cbn [obind].
  pose proof (C5' y Hy) as Hcy. rewrite (get_nat _ _ _ Hcy). cbn [obind]. rewrite put_nat by (by rewrite C5). cbn [obind].
  destruct (rows_lookup _ _ _ b Hdi Hbl) as (row & Er & Hrow). rewrite C1, (get_nat _ _ _ Er). cbn [obind].
  rewrite Hlast, decide_True by done. replace (Z.of_nat (nwrites fn y a n + 1) - 1) with (Z.of_nat (nwrites fn y a n)) by lia.
  rewrite (set_get_spec (words g) row y Hrow) by lia.
  set (before := if Z.of_nat (nwrites fn y a n) =? 0 then mem row y else true).
  assert ((if Z.of_nat (nwrites fn y a n) =? 0 then Ret (mem row y) else Ret true) = Ret before) as -> by (unfold before; by destruct (_ =? 0)).
  cbn [obind]. assert (before = true <-> defd_at fn y j) as Hbef.
  { rewrite (defd_before y Hy). unfold bit. rewrite Er. fold a n. unfold before. destruct (Z.eqb_spec (Z.of_nat (nwrites fn y a n)) 0); split; intros H.
    - by right.
    - destruct H as [H|H]; [lia|done].
    - left. lia.
    - done. }
  set (c := <[y := Z.of_nat (nwrites fn y a n)]> (count cur)).
  assert (forall v, (v < vreg_count fn)%nat -> c !! v = Some (Z.of_nat (nwrites fn v a n))) as Hc.
  { intros v Hv. unfold c. destruct (decide (v = y)) as [->|Hvy]; [apply list_lookup_insert_eq; by rewrite C5|].
    rewrite list_lookup_insert_ne by done. rewrite (C5' v Hv), Hlast, decide_False by lia. do 2 f_equal. lia. }
  assert (forall v, (v < vreg_count fn)%nat -> mem lv v = true <-> ~ writes fn j v /\ live_place fn blk (S j) v) as Hlv.
  { intros v Hv. rewrite Hml, andb_true_iff, negb_true_iff, bool_decide_eq_false, (C6 v Hv), (writes_iff x v Hx), Ey, Nat2Z.inj_iff.
    split; intros [? ?]; (split; [congruence || done|done]). }
  assert (mem (defd cur) y = true) as Hdy. { apply (C7 y Hy), place_defd. right. by apply (writes_iff x). }
  destruct before; cbn [negb].
  - exists lv, (defd cur), c. split; [done|]. split; [done|]. split; [done|]. split; [unfold c; by rewrite length_insert|]. split; [done|]. split; [done|].
    intros v Hv. destruct (decide (v = y)) as [->|Hvy]; [|apply Hother; [done|lia]]. split; [intros _; by apply Hbef|done].
  - destruct (set_clear_spec (words g) (defd cur) y C4') as (dd & -> & Hrd & Hmd); [lia|]. cbn [obind].
    exists lv, dd, c. split; [done|]. split; [done|]. split; [done|]. split; [unfold c; by rewrite length_insert|]. split; [done|]. split; [done|].
    intros v Hv. rewrite Hmd, andb_true_iff, negb_true_iff, bool_decide_eq_false. destruct (decide (v = y)) as [->|Hvy].
    + split; [tauto|]. intros H%Hbef. done.
    + rewrite Hother by (done || lia). tauto.
Qed.

Lemma step_back_spec cur : cursor_at fn g b blk (S j) cur ->
  exists cur', mir_cfg_cursor_step_back fn g cur = Ret cur' /\ cursor_at fn g b blk j cur'.
Proof.
  intros Hc. pose proof (block_nonempty _ _ (go_blocks _ _ _ Hg) _ _ Hb) as [Hne Hend]. unfold mir_cfg_cursor_step_back.
  destruct (lookup_lt_is_Some_2 (insns fn) j) as [x Hx]; [unfold insn_count in Hend; lia|].
  destruct (undefine cur x Hc Hx) as (lv & dd & c & E & Hrl & Hrd & Hlc & Hcc & Hlv & Hdd). destruct Hc as [C1 C2 C3 C4 C5 C6 C7].
  rewrite C1, C2, (get_nat _ _ _ Hb). rewrite (proj2 (Z.eqb_neq _ 0)) by lia. cbn [obind]. rewrite (proj2 (Z.leb_gt _ _)) by lia.
  replace (Z.of_nat (S j) - 1) with (Z.of_nat j) by lia. rewrite (get_nat _ _ _ Hx). cbn [obind]. rewrite C1 in E. rewrite E. cbn [obind].
  destruct (add_live_spec fn (words g) (mir_cfg_insn_uses x) Hw lv Hrl) as (l' & -> & Hrl' & Hm). cbn [obind].
  eexists. split; [done|]. split; cbn.
  - done.
  - done.
  - lia.
  - done.
  - split; [done|]. exact Hcc.
  - intros v Hv. rewrite (Hm v Hv), (Hlv v Hv), place_live_at, (reads_iff x v Hx). tauto.
  - intros v Hv. by rewrite (Hdd v Hv), place_defd_at.
Qed.
End back.

(** At the start of its block the cursor stays where it is. *)
Lemma step_back_stays b blk cur : blocks g !! b = Some blk -> cursor_at fn g b blk (Z.to_nat (start blk)) cur ->
  mir_cfg_cursor_step_back fn g cur = Ret cur.
Proof.
  intros Hb [C1 C2 C3 _ _ _ _]. pose proof (block_nonempty _ _ (go_blocks _ _ _ Hg) _ _ Hb) as [Hne _].
  unfold mir_cfg_cursor_step_back. rewrite C1, C2. destruct (_ =? 0); [done|]. rewrite (get_nat _ _ _ Hb). cbn [obind].
  by rewrite (proj2 (Z.leb_le _ _)) by lia.
Qed.
End cursor.
End CfgCursor.
