(* ===== verification/CfgAnalysis.v ===== *)
(** What [mir_cfg_build] promises its callers, and the cursor on top of it. *)
From S2P Require Import Prelude Mir Probe MirCfg CfgGraph CfgSets CfgLive CfgRpo CfgDom CfgLoops CfgBuild CfgCursor.
#[local] Open Scope Z_scope.

Module CfgAnalysis.
Import Mir Probe Cfg CfgGraph CfgSets CfgLive CfgRpo CfgDom CfgLoops CfgBuild CfgCursor.

(** The phases in a row. *)
Lemma build_ends fn h : tables_ok fn -> (insn_count fn <> 0)%nat -> (vreg_count fn <> 0)%nat ->
  ends (mir_cfg_build fn h) h (resolved fn) (fun g => exists es ord, analysed fn g es ord).
Proof.
  intros Ht Hi Hv. unfold mir_cfg_build. rewrite (proj2 (Nat.eqb_neq _ _) Hi), (proj2 (Nat.eqb_neq _ _) Hv). cbn [orb].
  set (g0 := mkCfg _ _ _ _ _ _ _ _ _ _ _ _ _ _ _). set (W := ((vreg_count fn + 63) / 64)%nat).
  assert (vreg_count fn <= W * 64)%nat as HW.
  { pose proof (Nat.div_mod_eq (vreg_count fn + 63) 64). pose proof (Nat.mod_upper_bound (vreg_count fn + 63) 64). unfold W. lia. }
  apply (ends_phase (fun g => blocks_ok fn g /\ (0 < block_count g)%nat /\ (forall b blk, blocks g !! b = Some blk -> bare blk) /\
    edge_next g = [] /\ edge_to g = [] /\ words g = W) _ _ h True (resolved fn)); [|done|].
  { destruct (split_ok fn g0 h ltac:(lia)) as (ok & g & h' & E & Hok & Hh & Hp). exists ok, g, h'. split; [done|]. split; [done|].
    split; [intros _ Hall; by apply Hok|]. intros Eok. destruct (Hp Eok) as (H1 & H2 & H3 & H4 & H5 & _ & H6). done. }
  intros g1 h1 (H1 & H2 & H3 & H4 & H5 & H6).
  apply (ends_phase (fun g => exists es, with_flow fn W g es /\ untouched g) _ _ h1 (resolved fn) (resolved fn));
    [by apply edges_phase|done|]. intros g2 h2 (es & Hf & Hu).
  apply (ends_phase (fun g => exists ord, numbered_graph fn W g es ord /\ forall b blk, blocks g !! b = Some blk -> idom blk = -1)
    _ _ h2 True (resolved fn)); [by apply rpo_phase|done|]. intros g3 h3 (ord & Hn & Hd).
  destruct (dominators_phase fn W g3 es ord Hn Hd) as (g4 & -> & Hn4 & Hd4). cbn [obind].
  destruct (build_order_spec g4 es ord h3) as (ok & g5 & h5 & -> & Hh5 & Hok5 & Hp5);
    [apply (go_graph fn), Hn4|apply Hn4|apply Hn4|]. destruct ok; cbn [negb].
  2:{ exists false, cfg_zero, h5. split; [done|]. split; [done|]. split; [intros _ H; by apply Hok5|done]. }
  destruct (Hp5 eq_refl) as (o & -> & Ho).
  assert (ends (let! (ok, g, h) := mir_cfg_build_loops (with_order o g4) h5 in
    if negb ok then Ret (false, cfg_zero, h) else
    let '(ok, g, h) := mir_cfg_alloc_sets g h in
    if negb ok then Ret (false, cfg_zero, h) else
    let! g := mir_cfg_local_sets fn (block_count g) 0 g in
    let! g := mir_cfg_liveness g in
    let! g := mir_cfg_definedness fn g in
    Ret (true, g, h)) h5 (resolved fn) (fun g => exists es ord, analysed fn g es ord)) as Hend.
  2:{ destruct Hend as (ok & g & h' & E & Hh & Hr). exists ok, g, h'. split; [exact E|]. split; [congruence|]. by rewrite <- Hh5. }
  apply (ends_phase (fun g => nested fn W g es ord) _ _ h5 True (resolved fn)); [|done|].
  - apply loops_phase; [by apply numbered_order|by apply Hd4|done].
  - intros g6 h6 H. destruct (sets_phase fn W g6 es ord h6 HW H) as (ok & g & h' & E & Hh & Hok & Hp). exists ok, g, h'.
    split; [exact E|]. split; [done|]. split; [intros _; by apply Hok|]. intros Eok. exists es, ord. by apply Hp.
Qed.

Lemma build_done fn h g h' : tables_ok fn -> mir_cfg_build fn h = Ret (true, g, h') -> exists es ord, analysed fn g es ord.
Proof.
  intros Ht E. assert (insn_count fn <> 0 /\ vreg_count fn <> 0)%nat as [Hi Hv].
  { unfold mir_cfg_build in E. destruct (insn_count fn =? 0)%nat eqn:E1; [done|]. destruct (vreg_count fn =? 0)%nat eqn:E2; [done|].
    apply Nat.eqb_neq in E1, E2. done. }
  destruct (build_ends fn h Ht Hi Hv) as (ok & g2 & h2 & E2 & _ & _ & Hp). rewrite E in E2. injection E2 as <- <- <-. by apply Hp.
Qed.

(** C22: the analysis of a function always comes to an end.  It fails when
    memory runs out, when the function has no instructions or no registers,
    and when a branch names a label that is not there; with memory it fails in
    no other case. *)
Theorem mir_cfg_build_returns fn h : tables_ok fn ->
  exists ok g h', mir_cfg_build fn h = Ret (ok, g, h') /\
    (ok = true -> insn_count fn <> O /\ vreg_count fn <> O /\ resolved fn) /\
    ((forall n, heap_grants h n = true) -> insn_count fn <> O -> vreg_count fn <> O -> resolved fn -> ok = true).
Proof.
  intros Ht. destruct (decide (insn_count fn = O \/ vreg_count fn = O)) as [H|H].
  - exists false. unfold mir_cfg_build. replace ((insn_count fn =? 0)%nat || (vreg_count fn =? 0)%nat) with true.
    2:{ symmetry. apply orb_true_iff. by destruct H as [-> | ->]; [left|right]. }
    eexists _, _. split; [done|]. split; [done|]. intros _ H1 H2. tauto.
  - destruct (build_ends fn h Ht) as (ok & g & h' & E & _ & Hok & Hp); [tauto|tauto|]. exists ok, g, h'. split; [done|]. split.
    + intros Eok. destruct (Hp Eok) as (es & ord & Ha). pose proof (an_resolved _ _ _ _ Ha). tauto.
    + intros Hall _ _ Hr. by apply Hok.
Qed.

(** [c] is a successor of [b], as the lists of the graph have it. *)
Definition has_succ (g : MirCfg) (b c : nat) : Prop := exists l, succs g (Z.of_nat b) = Ret l /\ Z.of_nat c ∈ l.
Definition has_pred (g : MirCfg) (c b : nat) : Prop := exists l, preds g (Z.of_nat c) = Ret l /\ Z.of_nat b ∈ l.

Lemma has_succ_iff fn g es b c : graph_ok fn g es -> has_succ g b c <-> (b, c) ∈ es.
Proof.
  intros Hg. pose proof (go_graph _ _ _ Hg) as Hi. split.
  - intros (l & E & Hl). assert (b < block_count g)%nat as Hb.
    { unfold succs, get in E. rewrite (proj2 (Z.ltb_ge _ 0)), Nat2Z.id in E by lia.
      destruct (blocks g !! b) eqn:Eb; [by apply lookup_lt_Some in Eb|done]. }
    rewrite (succs_spec g es b Hi Hb) in E. injection E as <-. apply elem_of_succs in Hl as (t & Et%Nat2Z.inj & H). by subst t.
  - intros H. exists (succs_of es b). split; [apply succs_spec; [done|]; by apply (gi_nodes _ _ Hi) in H as [? _]|].
    apply elem_of_succs. by exists c.
Qed.

Lemma has_pred_iff fn g es b c : graph_ok fn g es -> has_pred g c b <-> (b, c) ∈ es.
Proof.
  intros Hg. pose proof (go_graph _ _ _ Hg) as Hi. split.
  - intros (l & E & Hl). assert (c < block_count g)%nat as Hc.
    { unfold preds, get in E. rewrite (proj2 (Z.ltb_ge _ 0)), Nat2Z.id in E by lia.
      destruct (blocks g !! c) eqn:Eb; [by apply lookup_lt_Some in Eb|done]. }
    rewrite (preds_spec g es c Hi Hc) in E. injection E as <-. apply elem_of_preds in Hl as (t & Et%Nat2Z.inj & H). by subst t.
  - intros H. exists (preds_of es c). split; [apply preds_spec; [done|]; by apply (gi_nodes _ _ Hi) in H as [_ ?]|].
    apply elem_of_preds. by exists b.
Qed.

(** Control passes inside a block, or from the end of one to the start of a
    successor. *)
Definition graph_step (g : MirCfg) (i j : nat) : Prop :=
  (exists b blk, blocks g !! b = Some blk /\ start blk <= Z.of_nat i /\ j = S i /\ Z.of_nat j < end_ blk) \/
  (exists b blk c blkc, blocks g !! b = Some blk /\ blocks g !! c = Some blkc /\
     Z.of_nat i = end_ blk - 1 /\ Z.of_nat j = start blkc /\ has_succ g b c).

Lemma flow_graph fn g es i j : graph_ok fn g es -> insn_flow fn i j <-> graph_step g i j.
Proof.
  intros Hg. pose proof (go_blocks _ _ _ Hg) as Hok. split.
  - intros Hf. assert (i < insn_count fn)%nat as Hi by (destruct Hf as (x & _ & _ & Hx & _); by apply lookup_lt_Some in Hx).
    destruct (numbered_is_Some _ _ Hok i Hi) as (b & blk & Hn & Hb). apply (block_member _ _ Hok b blk i Hb Hi) in Hn.
    destruct (decide (Z.of_nat (S i) < end_ blk)) as [He|He].
    + left. exists b, blk. apply (inner_flow fn g es Hg b blk i j Hb) in Hf as ->; [|lia|done]. split; [done|]. split; [lia|]. split; [done|lia].
    + right. destruct (flow_enters fn g es Hg b blk i j Hb) as (c & blkc & He' & Hc & Hs); [lia|done|]. exists b, blk, c, blkc.
      split; [done|]. split; [done|]. split; [lia|]. split; [done|]. by apply (has_succ_iff fn g es).
  - intros [(b & blk & Hb & Hs & -> & He)|(b & blk & c & blkc & Hb & Hc & Hi & Hj & H)].
    + by apply (inner_flow fn g es Hg b blk i (S i) Hb Hs He).
    + apply (has_succ_iff fn g es) in H; [|done]. destruct (edge_flow fn g es Hg b c H) as (blk' & blkc' & i' & j' & Hb' & Hc' & Hi' & Hf & Hj').
      assert (blk' = blk) as -> by congruence. assert (blkc' = blkc) as -> by congruence.
      replace i with i' by lia. by replace j with j' by lia.
Qed.

(** C20: the graph of a function is the function's control flow: the blocks
    cut its instructions into disjoint ranges, control passes from one
    instruction to another exactly when they follow each other in a block or
    the one ends a block and the other starts one of its successors, and the
    predecessors are the successors turned around. *)
Theorem mir_cfg_build_flow fn h g h' : tables_ok fn -> mir_cfg_build fn h = Ret (true, g, h') ->
  (forall i, (i < insn_count fn)%nat -> exists b blk, block_of g !! i = Some (Z.of_nat b) /\ blocks g !! b = Some blk) /\
  (forall i b blk, (i < insn_count fn)%nat -> blocks g !! b = Some blk ->
     block_of g !! i = Some (Z.of_nat b) <-> start blk <= Z.of_nat i < end_ blk) /\
  (forall i j, insn_flow fn i j <-> graph_step g i j) /\
  (forall b c, has_succ g b c <-> has_pred g c b).
Proof.
  intros Ht E. destruct (build_done fn h g h' Ht E) as (es & ord & Ha). pose proof (an_graph _ _ _ _ Ha) as Hg.
  pose proof (go_blocks _ _ _ Hg) as Hok. rewrite (bo_of _ _ Hok). split; [|split; [|split]].
  - intros i Hi. destruct (numbered_is_Some _ _ Hok i Hi) as (b & blk & Hn & Hb). by exists b, blk.
  - intros i b blk Hi Hb. by apply (block_member _ _ Hok b blk).
  - intros i j. by apply (flow_graph fn g es).
  - intros b c. by rewrite (has_succ_iff fn g es), (has_pred_iff fn g es).
Qed.

(** The edges of the graph, as pairs of blocks. *)
Definition edges_are (g : MirCfg) (es : list (nat * nat)) : Prop := forall b c, has_succ g b c <-> (b, c) ∈ es.

(** C21: the graph answers dominance exactly: asked whether [a] dominates a
    block that can be reached, it says yes just when every path from the entry
    to the block passes through [a]; no block but itself dominates one that
    cannot be reached. *)
Theorem mir_cfg_dominates_exact fn h g h' : tables_ok fn -> mir_cfg_build fn h = Ret (true, g, h') ->
  exists es, edges_are g es /\ forall a b, (b < block_count g)%nat ->
    exists ans, mir_cfg_dominates g (Z.of_nat a) (Z.of_nat b) = Ret ans /\
      (reach es b -> ans = true <-> forall l, path es O l b -> a ∈ l) /\ (~ reach es b -> ans = true <-> a = b).
Proof.
  intros Ht E. destruct (build_done fn h g h' Ht E) as (es & ord & Ha). exists es. split.
  - intros b c. apply (has_succ_iff fn g es), Ha.
  - intros a b Hb. by apply (an_dom _ _ _ _ Ha).
Qed.

(** C23: loop nesting is exact: the depth of a block is the number of back
    edges whose natural loop holds the block, the edges counted as the last
    instructions of the blocks name them (a target named twice by a jump table
    is two edges); its header is that of such a loop, and of none that is
    nested less deep than another; and instructions carry the depth of their
    block, cut off at 255. *)
Theorem mir_cfg_loops_exact fn h g h' : tables_ok fn -> mir_cfg_build fn h = Ret (true, g, h') ->
  edges_are g (flow_edges fn g) /\ loops_exact (flow_edges fn g) g /\ insn_depths_ok g.
Proof.
  intros Ht E. destruct (build_done fn h g h' Ht E) as (es & ord & Ha). pose proof (an_graph _ _ _ _ Ha) as Hg.
  pose proof (go_edges _ _ _ Hg) as Hp. split.
  - intros b c. rewrite <- Hp. by apply (has_succ_iff fn g es).
  - split; [|by apply (an_depths _ _ _ _ Ha)]. rewrite <- Hp. apply (an_loops _ _ _ _ Ha).
Qed.

(** * Walking back through a block *)

Fixpoint steps_back (fn : MirFunction) (g : MirCfg) (n : nat) (cur : MirCfgCursor) : outcome MirCfgCursor :=
  match n with
  | O => Ret cur
  | S n => let! cur := mir_cfg_cursor_step_back fn g cur in steps_back fn g n cur
  end.

(** The cursor that starts at the end of block [b] and steps back to [i]. *)
Definition cursor_walk (fn : MirFunction) (g : MirCfg) (b : nat) (i : nat) (cur : MirCfgCursor) : outcome MirCfgCursor :=
  let! blk := get (blocks g) (Z.of_nat b) in
  let! cur := mir_cfg_cursor_start_block fn g (Z.of_nat b) cur in
  steps_back fn g (Z.to_nat (end_ blk) - i) cur.

Lemma steps_back_spec fn g es ord b blk n : analysed fn g es ord -> blocks g !! b = Some blk ->
  forall i cur, start blk <= Z.of_nat i -> cursor_at fn g b blk (i + n) cur ->
  exists cur', steps_back fn g n cur = Ret cur' /\ cursor_at fn g b blk i cur'.
Proof.
  intros Ha Hb. induction n as [|n IH]; intros i cur Hi Hc; cbn [steps_back].
  { exists cur. split; [done|]. by rewrite Nat.add_0_r in Hc. }
  destruct (an_rows _ _ _ _ Ha) as (_ & Hlo & Hdi & Hdo). rewrite Nat.add_succ_r in Hc.
  destruct (step_back_spec fn g es (an_graph _ _ _ _ Ha) (an_words _ _ _ _ Ha) Hdi
    (fun b v => proj1 (an_defd _ _ _ _ Ha b v)) b blk Hb (i + n)) with (cur := cur) as (c1 & -> & Hc1); [|done|].
  { pose proof (ca_span _ _ _ _ _ _ Hc). lia. }
  cbn [obind]. by apply IH.
Qed.

(** C19: the cursor tells the truth at every place: started at the end of a
    block and stepped back to an instruction of it, it holds exactly the
    registers that may be read from there on before they are written, and
    those that may have been written by then. *)
Theorem mir_cfg_cursor_exact fn h g h' h1 cur h2 b blk i : tables_ok fn -> mir_cfg_build fn h = Ret (true, g, h') ->
  mir_cfg_cursor_init fn g h1 = (true, cur, h2) -> blocks g !! b = Some blk -> start blk <= Z.of_nat i < end_ blk ->
  exists cur', cursor_walk fn g b i cur = Ret cur' /\ at_ cur' = Z.of_nat i /\ forall v, (v < vreg_count fn)%nat ->
    exists l d, mir_cfg_set_get (live cur') (Z.of_nat v) = Ret l /\ mir_cfg_set_get (defd cur') (Z.of_nat v) = Ret d /\
      (l = true <-> live_at fn v i) /\ (d = true <-> defd_at fn v i).
Proof.
  intros Ht E Ec Hb Hi. destruct (build_done fn h g h' Ht E) as (es & ord & Ha). destruct (an_rows _ _ _ _ Ha) as (_ & Hlo & Hdi & Hdo).
  pose proof (an_words _ _ _ _ Ha) as Hw. assert (count cur = replicate (vreg_count fn) 0) as Hc.
  { unfold mir_cfg_cursor_init in Ec. destruct (alloc_many 3 h1). by injection Ec as _ <- _. }
  destruct (start_block_spec fn g es (an_graph _ _ _ _ Ha) Hw Hlo Hdo (fun b v => proj1 (an_live _ _ _ _ Ha b v))
    (fun b v => proj2 (an_defd _ _ _ _ Ha b v)) b blk cur Hb Hc) as (c1 & E1 & Hc1).
  destruct (steps_back_spec fn g es ord b blk (Z.to_nat (end_ blk) - i) Ha Hb i c1) as (c2 & E2 & Hc2); [lia| |].
  { by replace (i + (Z.to_nat (end_ blk) - i))%nat with (Z.to_nat (end_ blk)) by lia. }
  exists c2. unfold cursor_walk. rewrite (get_nat _ _ _ Hb). cbn [obind]. rewrite E1. cbn [obind]. split; [done|].
  destruct Hc2 as [K1 K2 K3 [K4 K4'] K5 K6 K7]. split; [done|]. intros v Hv. exists (CfgSets.mem (live c2) v), (CfgSets.mem (defd c2) v).
  split; [by apply (set_get_spec (words g)); [|lia]|]. split; [by apply (set_get_spec (words g)); [|lia]|].
  rewrite (K6 v Hv), (K7 v Hv). unfold live_place, defd_place. by rewrite (proj2 (Z.ltb_lt _ _)) by lia.
Qed.

(** * A loop *)

(** [v0 := 3; L: v0 := v0 + v65; if (v0 ? 0) goto L; return v0], where [v65] is
    a parameter. *)
Definition demo_inst (o : MirOpcode) (d x y : MirOperand) : MirInst := mkInst o d x y 8 false false 0 (-1) AuxNull false false.
Definition demo : MirFunction :=
  mkFn heap_unlimited (replicate 70 (fresh_vreg MIR_RC_GP 8)) 70
    [demo_inst MIR_MOV (mir_op_vreg 0) (mir_op_imm 3) mir_op_none;
     demo_inst MIR_LABEL (mir_op_label "L") mir_op_none mir_op_none;
     demo_inst MIR_ADD (mir_op_vreg 0) (mir_op_vreg 0) (mir_op_vreg 65);
     demo_inst MIR_CMPBR (mir_op_label "L") (mir_op_vreg 0) (mir_op_imm 0);
     demo_inst MIR_RET mir_op_none (mir_op_vreg 0) mir_op_none] 5
    [mkParam 65 0 8 false false 0 false (0, 0) 8 false (-1)] false (-1) [] 0 0 false.

Definition demo_run : outcome (bool * MirCfg * heap) := mir_cfg_build demo heap_unlimited.
Definition demo_graph : MirCfg := match demo_run with Ret (_, g, _) => g | _ => cfg_zero end.
Definition demo_heap : heap := match demo_run with Ret (_, _, h) => h | _ => heap_unlimited end.
Definition demo_cursor : bool * MirCfgCursor * heap := mir_cfg_cursor_init demo demo_graph heap_unlimited.

Lemma demo_tables : tables_ok demo.
Proof. intros i x Hx E. do 5 (destruct i as [|i]; [by injection Hx as <-|]). done. Qed.

Lemma demo_built : mir_cfg_build demo heap_unlimited = Ret (true, demo_graph, demo_heap).
Proof. vm_compute. reflexivity. Qed.

(** The loop is found, with the entry block above it. *)
Example demo_blocks : (fun blk => (start blk, end_ blk, idom blk, loop_depth blk, loop_header blk)) <$> blocks demo_graph =
  [(0, 1, 0, 0, -1); (1, 4, 0, 1, 1); (4, 5, 1, 0, -1)].
Proof. vm_compute. reflexivity. Qed.

Lemma mir_cfg_build_returns_witness : tables_ok demo /\
  exists ok g h', mir_cfg_build demo heap_unlimited = Ret (ok, g, h') /\
    (ok = true -> insn_count demo <> O /\ vreg_count demo <> O /\ resolved demo) /\
    ((forall n, heap_grants heap_unlimited n = true) -> insn_count demo <> O -> vreg_count demo <> O -> resolved demo -> ok = true).
Proof. split; [exact demo_tables|]. exact (mir_cfg_build_returns demo heap_unlimited demo_tables). Defined.

Lemma mir_cfg_build_flow_witness : tables_ok demo /\ mir_cfg_build demo heap_unlimited = Ret (true, demo_graph, demo_heap) /\
  graph_step demo_graph 3 1.
Proof.
  split; [exact demo_tables|]. split; [exact demo_built|].
  apply (proj1 (proj2 (proj2 (mir_cfg_build_flow demo heap_unlimited demo_graph demo_heap demo_tables demo_built)))).
  exists (demo_inst MIR_CMPBR (mir_op_label "L") (mir_op_vreg 0) (mir_op_imm 0)), [Some "L"], true. split; [reflexivity|].
  split; [reflexivity|]. left. exists "L". split; [left|]. vm_compute. reflexivity.
Defined.

Lemma mir_cfg_dominates_exact_witness : tables_ok demo /\ mir_cfg_build demo heap_unlimited = Ret (true, demo_graph, demo_heap) /\
  mir_cfg_dominates demo_graph 1 2 = Ret true /\
  exists es, edges_are demo_graph es /\ (reach es 2 -> forall l, path es O l 2 -> 1%nat ∈ l).
Proof.
  split; [exact demo_tables|]. split; [exact demo_built|]. split; [vm_compute; reflexivity|].
  destruct (mir_cfg_dominates_exact demo heap_unlimited demo_graph demo_heap demo_tables demo_built) as (es & He & H).
  exists es. split; [exact He|]. intros Hr. destruct (H 1%nat 2%nat) as (ans & E & Hdom & _); [vm_compute; lia|].
  apply (proj1 (Hdom Hr)). assert (mir_cfg_dominates demo_graph 1 2 = Ret true) as E' by (vm_compute; reflexivity).
  change (mir_cfg_dominates demo_graph 1 2 = Ret ans) in E. rewrite E' in E. by injection E as <-.
Defined.

Lemma mir_cfg_loops_exact_witness : tables_ok demo /\ mir_cfg_build demo heap_unlimited = Ret (true, demo_graph, demo_heap) /\
  insn_depth demo_graph = [0; 1; 1; 1; 0] /\ flow_edges demo demo_graph = [(0, 1); (1, 1); (1, 2)]%nat /\
  edges_are demo_graph (flow_edges demo demo_graph) /\ loops_exact (flow_edges demo demo_graph) demo_graph /\ insn_depths_ok demo_graph.
Proof.
  split; [exact demo_tables|]. split; [exact demo_built|]. split; [vm_compute; reflexivity|]. split; [vm_compute; reflexivity|].
  exact (mir_cfg_loops_exact demo heap_unlimited demo_graph demo_heap demo_tables demo_built).
Defined.

Lemma mir_cfg_cursor_exact_witness : tables_ok demo /\ mir_cfg_build demo heap_unlimited = Ret (true, demo_graph, demo_heap) /\
  exists blk cur', blocks demo_graph !! 1%nat = Some blk /\ cursor_walk demo demo_graph 1 2 demo_cursor.1.2 = Ret cur' /\ at_ cur' = 2 /\
    forall v, (v < vreg_count demo)%nat ->
    exists l d, mir_cfg_set_get (live cur') (Z.of_nat v) = Ret l /\ mir_cfg_set_get (defd cur') (Z.of_nat v) = Ret d /\
      (l = true <-> live_at demo v 2) /\ (d = true <-> defd_at demo v 2).
Proof.
  split; [exact demo_tables|]. split; [exact demo_built|]. destruct (blocks demo_graph !! 1%nat) as [blk|] eqn:Hb; [|vm_compute in Hb; discriminate].
  exists blk. assert (mir_cfg_cursor_init demo demo_graph heap_unlimited = (true, demo_cursor.1.2, demo_cursor.2)) as Hc by (vm_compute; reflexivity).
  assert (start blk <= Z.of_nat 2 < end_ blk) as Hs by (vm_compute in Hb; injection Hb as <-; vm_compute; split; [discriminate|reflexivity]).
  destruct (mir_cfg_cursor_exact demo heap_unlimited demo_graph demo_heap heap_unlimited _ _ 1 blk 2 demo_tables demo_built Hc Hb Hs)
    as (cur' & E & Ha & H).
  exists cur'. split; [reflexivity|]. split; [exact E|]. split; [exact Ha|exact H].
Defined.
End CfgAnalysis.
