(* ===== verification/MachTypes.v ===== *)
(** The types of the code generator's public interface:
    src/include/mtlc/type.h and src/src/ir/mtlc_type.c.

    Types are objects of a store, named by their index in it; two caches hold
    the derived types, and a constructor hands out the type it finds there
    before it makes a new one.  Objects are never changed or freed once a
    constructor has returned them. *)
From stdpp Require Import pretty.
From S2P Require Import Prelude.
#[local] Open Scope Z_scope.

Module MachTypes.

(** * Data *)

Inductive MtlcTypeKind :=
| MTLC_TYPE_INT8 | MTLC_TYPE_INT16 | MTLC_TYPE_INT32 | MTLC_TYPE_INT64
| MTLC_TYPE_UINT8 | MTLC_TYPE_UINT16 | MTLC_TYPE_UINT32 | MTLC_TYPE_UINT64
| MTLC_TYPE_BOOL | MTLC_TYPE_FLOAT32 | MTLC_TYPE_FLOAT64 | MTLC_TYPE_FLOAT16 | MTLC_TYPE_BFLOAT16
| MTLC_TYPE_STRING | MTLC_TYPE_FUNCTION_POINTER | MTLC_TYPE_POINTER | MTLC_TYPE_ARRAY
| MTLC_TYPE_STRUCT | MTLC_TYPE_ENUM | MTLC_TYPE_TAGGED_ENUM | MTLC_TYPE_VOID.

#[export] Instance MtlcTypeKind_eq_dec : EqDecision MtlcTypeKind.
Proof. solve_decision. Defined.

(** The members these functions read or write.  The arrays of a struct have
    [field_count] cells and those of a function pointer [fn_param_count]. *)
Record MtlcType := mkType {
  kind : MtlcTypeKind;
  name : option string;
  size : Z;
  alignment : Z;
  address_space : Z;
  base_type : option nat;
  array_size : Z;
  fn_param_types : list nat;
  fn_return_type : option nat;
  field_names : list string;
  field_types : list nat;
  field_offsets : list Z
}.

(** [MtlcAddressSpace], an [int] that callers may set to anything. *)
Definition MTLC_ADDRESS_SPACE_DEFAULT : Z := 0.
Definition MTLC_ADDRESS_SPACE_GENERIC : Z := 1.
Definition MTLC_ADDRESS_SPACE_GLOBAL : Z := 2.

Record TypeStore := mkStore {
  objects : list MtlcType;
  g_ptr_cache : list nat;
  g_ptr_cache_cap : nat;
  g_composite_cache : list nat;
  g_composite_cap : nat
}.

(** ** Scalars *)

Definition MTLC_SCALAR (k : MtlcTypeKind) (nm : string) (sz al : Z) : MtlcType :=
  mkType k (Some nm) sz al 0 None 0 [] None [] [] [].

Definition k_scalars : list MtlcType :=
  [MTLC_SCALAR MTLC_TYPE_INT8 "int8" 1 1; MTLC_SCALAR MTLC_TYPE_INT16 "int16" 2 2;
   MTLC_SCALAR MTLC_TYPE_INT32 "int32" 4 4; MTLC_SCALAR MTLC_TYPE_INT64 "int64" 8 8;
   MTLC_SCALAR MTLC_TYPE_UINT8 "uint8" 1 1; MTLC_SCALAR MTLC_TYPE_UINT16 "uint16" 2 2;
   MTLC_SCALAR MTLC_TYPE_UINT32 "uint32" 4 4; MTLC_SCALAR MTLC_TYPE_UINT64 "uint64" 8 8;
   MTLC_SCALAR MTLC_TYPE_BOOL "bool" 1 1; MTLC_SCALAR MTLC_TYPE_FLOAT32 "float32" 4 4;
   MTLC_SCALAR MTLC_TYPE_FLOAT64 "float64" 8 8; MTLC_SCALAR MTLC_TYPE_FLOAT16 "float16" 2 2;
   MTLC_SCALAR MTLC_TYPE_BFLOAT16 "bfloat16" 2 2; MTLC_SCALAR MTLC_TYPE_STRING "string" 8 8;
   MTLC_SCALAR MTLC_TYPE_VOID "void" 0 1].

Definition store_start : TypeStore := mkStore k_scalars [] 0 [] 0.

Definition mtlc_type_scalar (k : MtlcTypeKind) : option nat :=
  match k with
  | MTLC_TYPE_INT8 => Some 0 | MTLC_TYPE_INT16 => Some 1 | MTLC_TYPE_INT32 => Some 2 | MTLC_TYPE_INT64 => Some 3
  | MTLC_TYPE_UINT8 => Some 4 | MTLC_TYPE_UINT16 => Some 5 | MTLC_TYPE_UINT32 => Some 6 | MTLC_TYPE_UINT64 => Some 7
  | MTLC_TYPE_BOOL => Some 8 | MTLC_TYPE_FLOAT32 => Some 9 | MTLC_TYPE_FLOAT64 => Some 10
  | MTLC_TYPE_FLOAT16 => Some 11 | MTLC_TYPE_BFLOAT16 => Some 12 | MTLC_TYPE_STRING => Some 13
  | MTLC_TYPE_VOID => Some 14
  | _ => None
  end%nat.

Definition mtlc_type_kind_name (k : MtlcTypeKind) : string :=
  match k with
  | MTLC_TYPE_INT8 => "int8" | MTLC_TYPE_INT16 => "int16" | MTLC_TYPE_INT32 => "int32" | MTLC_TYPE_INT64 => "int64"
  | MTLC_TYPE_UINT8 => "uint8" | MTLC_TYPE_UINT16 => "uint16" | MTLC_TYPE_UINT32 => "uint32"
  | MTLC_TYPE_UINT64 => "uint64" | MTLC_TYPE_BOOL => "bool" | MTLC_TYPE_FLOAT32 => "float32"
  | MTLC_TYPE_FLOAT64 => "float64" | MTLC_TYPE_FLOAT16 => "float16" | MTLC_TYPE_BFLOAT16 => "bfloat16"
  | MTLC_TYPE_STRING => "string" | MTLC_TYPE_FUNCTION_POINTER => "fnptr" | MTLC_TYPE_POINTER => "pointer"
  | MTLC_TYPE_ARRAY => "array" | MTLC_TYPE_STRUCT => "struct" | MTLC_TYPE_ENUM => "enum"
  | MTLC_TYPE_TAGGED_ENUM => "tagged_enum" | MTLC_TYPE_VOID => "void"
  end.

Definition mtlc_address_space_name (a : Z) : option string :=
  if a =? 2 then Some "global" else if a =? 3 then Some "workgroup" else if a =? 4 then Some "constant"
  else if a =? 5 then Some "private" else if (a =? 0) || (a =? 1) then Some "generic" else None.

(** * Helpers *)

Definition obj (s : TypeStore) (a : nat) : outcome MtlcType :=
  match objects s !! a with Some t => Ret t | None => Undef end.

(** [t->name ? t->name : mtlc_type_kind_name(t->kind)]. *)
Definition shown (t : MtlcType) : string := match name t with Some n => n | None => mtlc_type_kind_name (kind t) end.

(** [snprintf] into a buffer of [n] bytes. *)
Definition snprintf (n : nat) (s : string) : string := String.substring 0 (pred n) s.

(** The growth of a cache that is full. *)
Definition cache_room (cache : list nat) (cap : nat) (h : heap) : bool * nat * heap :=
  if (length cache =? cap)%nat then
    let next := if (cap =? 0)%nat then 8%nat else (cap * 2)%nat in
    let (ok, h) := alloc h in if ok then (true, next, h) else (false, cap, h)
  else (true, cap, h).

(** The first type of a cache that passes the test. *)
Fixpoint find_cached (s : TypeStore) (p : MtlcType -> bool) (cache : list nat) : outcome (option nat) :=
  match cache with
  | [] => Ret None
  | a :: cache => let! t := obj s a in if p t then Ret (Some a) else find_cached s p cache
  end.

(** * Pointers *)

Definition pointer_name (base : MtlcType) (space : Z) : string :=
  let bn := shown base in
  if negb (space =? MTLC_ADDRESS_SPACE_GENERIC) then
    let asn := default "" (mtlc_address_space_name space) in
    snprintf (String.length bn + 2 + (String.length asn + 2)) (asn +:+ ":" +:+ bn +:+ "*")
  else snprintf (String.length bn + 2) (bn +:+ "*").

Definition same_pointer (b : nat) (space : Z) (t : MtlcType) : bool :=
  bool_decide (base_type t = Some b) && (address_space t =? space).

Definition mtlc_type_pointer_in (base : option nat) (space : Z) (s : TypeStore) (h : heap) :
  outcome (option nat * TypeStore * heap) :=
  match base, mtlc_address_space_name space with
  | None, _ | _, None => Ret (None, s, h)
  | Some b, Some _ =>
      let space := if space =? MTLC_ADDRESS_SPACE_DEFAULT then MTLC_ADDRESS_SPACE_GENERIC else space in
      let! hit := find_cached s (same_pointer b space) (g_ptr_cache s) in
      match hit with
      | Some p => Ret (Some p, s, h)
      | None =>
          let (ok, h) := alloc h in
          if negb ok then Ret (None, s, h)
          else
            let! bt := obj s b in
            let (ok, h) := alloc h in
            if negb ok then Ret (None, s, h)
            else
              let p := mkType MTLC_TYPE_POINTER (Some (pointer_name bt space)) 8 8 space (Some b) 0 [] None [] [] [] in
              let '(ok, cap, h) := cache_room (g_ptr_cache s) (g_ptr_cache_cap s) h in
              if negb ok then Ret (None, s, h)
              else
                let a := length (objects s) in
                Ret (Some a, mkStore (objects s ++ [p]) (g_ptr_cache s ++ [a]) cap (g_composite_cache s) (g_composite_cap s), h)
      end
  end.

Definition mtlc_type_pointer (base : option nat) (s : TypeStore) (h : heap) : outcome (option nat * TypeStore * heap) :=
  mtlc_type_pointer_in base MTLC_ADDRESS_SPACE_GENERIC s h.

(** * Composite types *)

(** The new type enters the store when it enters the cache. *)
Definition composite_cache_push (t : MtlcType) (s : TypeStore) (h : heap) : option nat * TypeStore * heap :=
  let '(ok, cap, h) := cache_room (g_composite_cache s) (g_composite_cap s) h in
  if negb ok then (None, s, h)
  else
    let a := length (objects s) in
    (Some a, mkStore (objects s ++ [t]) (g_ptr_cache s) (g_ptr_cache_cap s) (g_composite_cache s ++ [a]) cap, h).

Definition array_name (element : MtlcType) (count : Z) : string :=
  let en := shown element in snprintf (String.length en + 32) (en +:+ "[" +:+ pretty (Z.to_N count) +:+ "]").

Definition same_array (e : nat) (count : Z) (t : MtlcType) : bool :=
  bool_decide (kind t = MTLC_TYPE_ARRAY) && bool_decide (base_type t = Some e) && (array_size t =? count).

Definition one_if_zero (al : Z) : Z := if al =? 0 then 1 else al.

Definition mtlc_type_array (element : option nat) (count : Z) (s : TypeStore) (h : heap) : outcome (option nat * TypeStore * heap) :=
  match element with
  | None => Ret (None, s, h)
  | Some e =>
      if count =? 0 then Ret (None, s, h)
      else
        let! et := obj s e in
        if size et =? 0 then Ret (None, s, h)
        else if (2 ^ 64 - 1) / size et <? count then Ret (None, s, h)
        else
          let! hit := find_cached s (same_array e count) (g_composite_cache s) in
          match hit with
          | Some a => Ret (Some a, s, h)
          | None =>
              let (ok, h) := alloc h in
              if negb ok then Ret (None, s, h)
              else
                let (ok, h) := alloc h in
                if negb ok then Ret (None, s, h)
                else Ret (composite_cache_push
                  (mkType MTLC_TYPE_ARRAY (Some (array_name et count)) (u64 (size et * count)) (one_if_zero (alignment et)) 0
                     (Some e) count [] None [] [] []) s h)
          end
  end.

(** ** Structs *)

(** [field_names && field_names[i] ? field_names[i] : ""]. *)
Definition name_at (names : option (list (option string))) (i : nat) : outcome string :=
  match names with
  | None => Ret ""
  | Some l => match l !! i with Some (Some n) => Ret n | Some None => Ret "" | None => Undef end
  end.

Definition type_at (types : list (option nat)) (i : nat) : outcome (option nat) :=
  match types !! i with Some t => Ret t | None => Undef end.

(** Is every field from [i] on, [n] of them, a type with a size? *)
Fixpoint fields_sized (s : TypeStore) (types : list (option nat)) (n i : nat) : outcome bool :=
  match n with
  | O => Ret true
  | S n =>
      let! t := type_at types i in
      match t with
      | None => Ret false
      | Some t => let! ft := obj s t in if size ft =? 0 then Ret false else fields_sized s types n (S i)
      end
  end.

Fixpoint fields_match (c : MtlcType) (names : option (list (option string))) (types : list (option nat)) (n i : nat) : outcome bool :=
  match n with
  | O => Ret true
  | S n =>
      let! t := type_at types i in
      let! ct := get (field_types c) (Z.of_nat i) in
      if negb (bool_decide (t = Some ct)) then Ret false
      else
        let! want := name_at names i in
        let! cn := get (field_names c) (Z.of_nat i) in
        if negb (bool_decide (cn = want)) then Ret false else fields_match c names types n (S i)
  end.

Definition struct_layout_matches (c : MtlcType) (names : option (list (option string))) (types : list (option nat)) (field_count : nat) :
  outcome bool :=
  if negb (length (field_types c) =? field_count)%nat then Ret false else fields_match c names types field_count 0.

Definition named_struct (nm : string) (t : MtlcType) : bool :=
  bool_decide (kind t = MTLC_TYPE_STRUCT) && bool_decide (name t = Some nm).

(** [offset], moved up to a multiple of [align]; [size_t] arithmetic. *)
Definition pad_to (align offset : Z) : Z :=
  let pad := offset mod align in if pad =? 0 then offset else u64 (offset + (align - pad)).

(** What has been laid out: the next offset, the largest alignment, and the
    arrays of the struct so far. *)
Record layout := mkLayout { l_offset : Z; l_align : Z; l_names : list string; l_types : list nat; l_offsets : list Z }.

(** The fields from [i] on, [n] of them. *)
Fixpoint layout_fields (s : TypeStore) (names : option (list (option string))) (types : list (option nat)) (n i : nat)
  (l : layout) (h : heap) : outcome (option layout * heap) :=
  match n with
  | O => Ret (Some l, h)
  | S n =>
      let! t := type_at types i in
      match t with
      | None => Undef
      | Some t =>
          let! ft := obj s t in
          let align := one_if_zero (alignment ft) in
          let max_align := if align >? l_align l then align else l_align l in
          let offset := pad_to align (l_offset l) in
          let (ok, h) := alloc h in
          let! nm := name_at names i in
          if negb ok then Ret (None, h)
          else
            layout_fields s names types n (S i)
              (mkLayout (u64 (offset + size ft)) max_align (l_names l ++ [nm]) (l_types l ++ [t]) (l_offsets l ++ [offset])) h
      end
  end.

(** Requests in a row, each made whatever the others gave. *)
Definition alloc4 (h : heap) : bool * heap :=
  let (a, h) := alloc h in
  let (b, h) := alloc h in
  let (c, h) := alloc h in
  let (d, h) := alloc h in
  (a && b && c && d, h).

Definition mtlc_type_struct (nm : option string) (names : option (list (option string))) (types : option (list (option nat)))
  (field_count : nat) (s : TypeStore) (h : heap) : outcome (option nat * TypeStore * heap) :=
  match nm, types with
  | None, _ | _, None => Ret (None, s, h)
  | Some nm, Some types =>
      if bool_decide (nm = "") || (field_count =? 0)%nat then Ret (None, s, h)
      else
        let! ok := fields_sized s types field_count 0 in
        if negb ok then Ret (None, s, h)
        else
          let! hit := find_cached s (named_struct nm) (g_composite_cache s) in
          match hit with
          | Some a =>
              let! c := obj s a in
              let! same := struct_layout_matches c names types field_count in
              Ret (if same : bool then Some a else None, s, h)
          | None =>
              let (ok, h) := alloc h in
              if negb ok then Ret (None, s, h)
              else
                let (ok, h) := alloc4 h in
                if negb ok then Ret (None, s, h)
                else
                  let! (l, h) := layout_fields s names types field_count 0 (mkLayout 0 1 [] [] []) h in
                  match l with
                  | None => Ret (None, s, h)
                  | Some l =>
                      Ret (composite_cache_push
                        (mkType MTLC_TYPE_STRUCT (Some nm) (pad_to (l_align l) (l_offset l)) (l_align l) 0 None 0 [] None
                           (l_names l) (l_types l) (l_offsets l)) s h)
                  end
          end
  end.

(** ** Function pointers *)

Fixpoint objs (s : TypeStore) (l : list nat) : outcome (list MtlcType) :=
  match l with
  | [] => Ret []
  | a :: l => let! t := obj s a in let! rest := objs s l in Ret (t :: rest)
  end.

(** The parameters from the [i]th on are written behind [acc] in a buffer of
    [n] bytes. *)
Fixpoint write_params (n : nat) (i : nat) (ps : list MtlcType) (acc : string) : string :=
  match ps with
  | [] => acc
  | p :: ps =>
      write_params n (S i) ps
        (acc +:+ snprintf (n - String.length acc) ((if (i =? 0)%nat then "" else ",") +:+ shown p))
  end.

Definition name_room (rt : MtlcType) (ps : list MtlcType) : nat :=
  (String.length (shown rt) + 8 + sum_list ((fun p => S (String.length (shown p))) <$> ps))%nat.

Definition function_pointer_name (rt : MtlcType) (ps : list MtlcType) : string :=
  let n := name_room rt ps in
  let nm := write_params n 0 ps (snprintf n (shown rt +:+ "(*)(")) in
  nm +:+ snprintf (n - String.length nm) ")".

Definition named_fn_pointer (nm : string) (t : MtlcType) : bool :=
  bool_decide (kind t = MTLC_TYPE_FUNCTION_POINTER) && bool_decide (name t = Some nm).

(** [param_types] has [param_count] cells. *)
Definition mtlc_type_function_pointer (return_type : option nat) (param_types : option (list (option nat))) (param_count : nat)
  (s : TypeStore) (h : heap) : outcome (option nat * TypeStore * heap) :=
  match return_type, param_types with
  | None, _ => Ret (None, s, h)
  | Some r, _ =>
      if (0 <? param_count)%nat && bool_decide (param_types = None) then Ret (None, s, h)
      else
        match mapM id (take param_count (default [] param_types)) with
        | None => Ret (None, s, h)
        | Some ps =>
            if negb (length ps =? param_count)%nat then Undef
            else
              let! rt := obj s r in
              let! pts := objs s ps in
              let (ok, h) := alloc h in
              if negb ok then Ret (None, s, h)
              else
                let nm := function_pointer_name rt pts in
                let! hit := find_cached s (named_fn_pointer nm) (g_composite_cache s) in
                match hit with
                | Some a => Ret (Some a, s, h)
                | None =>
                    let (ok, h) := alloc h in
                    if negb ok then Ret (None, s, h)
                    else
                      let (ok, h) := if (0 <? param_count)%nat then alloc h else (true, h) in
                      if negb ok then Ret (None, s, h)
                      else Ret (composite_cache_push
                        (mkType MTLC_TYPE_FUNCTION_POINTER (Some nm) 8 8 0 None 0 ps (Some r) [] [] []) s h)
                end
        end
  end.

(** * Queries *)

(** A type, unless the pointer is null. *)
Definition deref_type (s : TypeStore) (t : option nat) : outcome (option MtlcType) :=
  match t with None => Ret None | Some a => let! t := obj s a in Ret (Some t) end.

Definition mtlc_type_field_count (t : option MtlcType) : Z :=
  match t with
  | Some t => if bool_decide (kind t = MTLC_TYPE_STRUCT) then Z.of_nat (length (field_types t)) else 0
  | None => 0
  end.

(** [(size_t)-1]. *)
Definition NO_INDEX : Z := 2 ^ 64 - 1.

Definition mtlc_type_field_offset (t : option MtlcType) (index : Z) : outcome Z :=
  match t with
  | Some t =>
      if negb (bool_decide (kind t = MTLC_TYPE_STRUCT)) || (Z.of_nat (length (field_types t)) <=? index) then Ret NO_INDEX
      else get (field_offsets t) index
  | None => Ret NO_INDEX
  end.

Definition mtlc_type_field_index (t : option MtlcType) (nm : option string) : Z :=
  match t, nm with
  | Some t, Some nm =>
      if bool_decide (kind t = MTLC_TYPE_STRUCT) then
        match list_find (fun n => n = nm) (field_names t) with Some (i, _) => Z.of_nat i | None => NO_INDEX end
      else NO_INDEX
  | _, _ => NO_INDEX
  end.

Definition mtlc_type_is_integer (t : option MtlcType) : bool :=
  match t with
  | Some t =>
      match kind t with
      | MTLC_TYPE_INT8 | MTLC_TYPE_INT16 | MTLC_TYPE_INT32 | MTLC_TYPE_INT64 | MTLC_TYPE_UINT8 | MTLC_TYPE_UINT16
      | MTLC_TYPE_UINT32 | MTLC_TYPE_UINT64 | MTLC_TYPE_BOOL => true
      | _ => false
      end
  | None => false
  end.

Definition mtlc_type_is_unsigned (t : option MtlcType) : bool :=
  match t with
  | Some t =>
      match kind t with
      | MTLC_TYPE_UINT8 | MTLC_TYPE_UINT16 | MTLC_TYPE_UINT32 | MTLC_TYPE_UINT64 | MTLC_TYPE_BOOL => true
      | _ => false
      end
  | None => false
  end.

Definition mtlc_type_is_float (t : option MtlcType) : bool :=
  match t with
  | Some t =>
      match kind t with
      | MTLC_TYPE_FLOAT32 | MTLC_TYPE_FLOAT64 | MTLC_TYPE_FLOAT16 | MTLC_TYPE_BFLOAT16 => true
      | _ => false
      end
  | None => false
  end.

Definition mtlc_type_is_aggregate (t : option MtlcType) : bool :=
  match t with
  | Some t => match kind t with MTLC_TYPE_STRUCT | MTLC_TYPE_TAGGED_ENUM | MTLC_TYPE_ARRAY => true | _ => false end
  | None => false
  end.

Definition mtlc_type_size (t : option MtlcType) : Z := match t with Some t => size t | None => 0 end.
Definition mtlc_type_alignment (t : option MtlcType) : Z := match t with Some t => alignment t | None => 0 end.
End MachTypes.
