(* ===== verification/MachTypesCorrect.v ===== *)
(** The store of machine types.

    Whatever constructors run, in whatever order and however memory behaves,
    every type of the store is built from types made before it the way its
    kind says, and no two types are built alike. *)
From stdpp Require Import pretty.
From S2P Require Import Prelude MachTypes.
#[local] Open Scope Z_scope.

Module MachTypesCorrect.
Import MachTypes.

(** * Layout *)

(** Sizes and alignments of the fields; the offsets, the end and the largest
    alignment. *)
Fixpoint lay (fs : list (Z * Z)) (off al : Z) : list Z * Z * Z :=
  match fs with
  | [] => ([], off, al)
  | (sz, a) :: fs =>
      let o := pad_to a off in
      let '(os, off', al') := lay fs (u64 (o + sz)) (Z.max al a) in (o :: os, off', al')
  end.

Definition shape (t : MtlcType) : Z * Z := (size t, one_if_zero (alignment t)).

Definition pointer_of (b : nat) (bt : MtlcType) (space : Z) : MtlcType :=
  mkType MTLC_TYPE_POINTER (Some (pointer_name bt space)) 8 8 space (Some b) 0 [] None [] [] [].
Definition array_of (e : nat) (et : MtlcType) (count : Z) : MtlcType :=
  mkType MTLC_TYPE_ARRAY (Some (array_name et count)) (u64 (size et * count)) (one_if_zero (alignment et)) 0 (Some e) count [] None [] [] [].
Definition struct_of (nm : string) (names : list string) (types : list nat) (fts : list MtlcType) : MtlcType :=
  let '(os, off, al) := lay (shape <$> fts) 0 1 in
  mkType MTLC_TYPE_STRUCT (Some nm) (pad_to al off) al 0 None 0 [] None names types os.
Definition fn_pointer_of (r : nat) (rt : MtlcType) (ps : list nat) (pts : list MtlcType) : MtlcType :=
  mkType MTLC_TYPE_FUNCTION_POINTER (Some (function_pointer_name rt pts)) 8 8 0 None 0 ps (Some r) [] [] [].

(** * The invariant *)

(** The types [l] stands for, all of them made before the [i]th. *)
Definition made (os : list MtlcType) (i : nat) (l : list nat) (ts : list MtlcType) : Prop :=
  Forall2 (fun a t => (a < i)%nat /\ os !! a = Some t) l ts.

(** How the [i]th type of the store has come about. *)
Inductive built (os : list MtlcType) (i : nat) : MtlcType -> Prop :=
| built_scalar t : k_scalars !! i = Some t -> built os i t
| built_pointer b bt space : made os i [b] [bt] -> 1 <= space <= 5 -> built os i (pointer_of b bt space)
| built_array e et count : made os i [e] [et] -> size et <> 0 -> 0 < count -> size et * count < 2 ^ 64 -> built os i (array_of e et count)
| built_struct nm names types fts : made os i types fts -> Forall (fun t => size t <> 0) fts -> nm <> "" -> types <> [] ->
    length names = length types -> built os i (struct_of nm names types fts)
| built_fn_pointer r rt ps pts : made os i [r] [rt] -> made os i ps pts -> built os i (fn_pointer_of r rt ps pts).

(** Types that a cache answers for. *)
Definition key_pointer (t : MtlcType) : option (nat * Z) :=
  if bool_decide (kind t = MTLC_TYPE_POINTER) then (fun b => (b, address_space t)) <$> base_type t else None.
Definition key_array (t : MtlcType) : option (nat * Z) :=
  if bool_decide (kind t = MTLC_TYPE_ARRAY) then (fun b => (b, array_size t)) <$> base_type t else None.
Definition key_struct (t : MtlcType) : option string := if bool_decide (kind t = MTLC_TYPE_STRUCT) then name t else None.
Definition key_fn_pointer (t : MtlcType) : option string := if bool_decide (kind t = MTLC_TYPE_FUNCTION_POINTER) then name t else None.

(** No two types of the store have the same key. *)
Definition unique {A} (key : MtlcType -> option A) (os : list MtlcType) : Prop :=
  forall a b ta tb k, os !! a = Some ta -> os !! b = Some tb -> key ta = Some k -> key tb = Some k -> a = b.

Definition is_composite (t : MtlcType) : bool :=
  match kind t with MTLC_TYPE_ARRAY | MTLC_TYPE_STRUCT | MTLC_TYPE_FUNCTION_POINTER => true | _ => false end.

Record wf (s : TypeStore) : Prop := {
  wf_scalars : k_scalars `prefix_of` objects s;
  wf_built : forall i t, objects s !! i = Some t -> built (objects s) i t;
  wf_pointers : forall a, a ∈ g_ptr_cache s <-> exists t, objects s !! a = Some t /\ kind t = MTLC_TYPE_POINTER;
  wf_composites : forall a, a ∈ g_composite_cache s <-> exists t, objects s !! a = Some t /\ is_composite t = true;
  wf_unique_pointer : unique key_pointer (objects s);
  wf_unique_array : unique key_array (objects s);
  wf_unique_struct : unique key_struct (objects s);
  wf_unique_fn_pointer : unique key_fn_pointer (objects s)
}.

Lemma made_grow os os' i l ts : os `prefix_of` os' -> made os i l ts -> made os' i l ts.
Proof. intros Hp H. eapply Forall2_impl; [exact H|]. intros a t [? ?]. split; [done|]. by eapply prefix_lookup_Some. Qed.

Lemma built_grow os os' i t : os `prefix_of` os' -> built os i t -> built os' i t.
Proof.
  intros Hp [t' H|b bt sp H ?|e et c H ? ? ?|nm names types fts H ? ? ? ?|r rt ps pts H H'].
  - by apply built_scalar.
  - apply built_pointer; [by eapply made_grow|done].
  - apply built_array; [by eapply made_grow|done..].
  - apply built_struct; [by eapply made_grow|done..].
  - apply built_fn_pointer; by eapply made_grow.
Qed.

Lemma lookup_snoc {A} (l : list A) x i y : (l ++ [x]) !! i = Some y <-> l !! i = Some y \/ (i = length l /\ y = x).
Proof.
  rewrite lookup_app_Some. split.
  - intros [H|[Hge H]]; [by left|right]. destruct (i - length l)%nat as [|k] eqn:E; [|done]. cbn in H. split; [lia|congruence].
  - intros [H|[-> ->]]; [by left|right]. rewrite Nat.sub_diag. split; [lia|done].
Qed.

Lemma unique_snoc {A} (key : MtlcType -> option A) os t : unique key os ->
  (forall k a ta, key t = Some k -> os !! a = Some ta -> key ta <> Some k) -> unique key (os ++ [t]).
Proof.
  intros Hu Hn a b ta tb k Ha Hb Hka Hkb. apply lookup_snoc in Ha as [Ha|[-> ->]]; apply lookup_snoc in Hb as [Hb|[-> ->]].
  - by eapply Hu.
  - by destruct (Hn k a ta).
  - by destruct (Hn k b tb).
  - done.
Qed.

Lemma obj_Ret s a t : objects s !! a = Some t -> obj s a = Ret t.
Proof. intros H. unfold obj. by rewrite H. Qed.

(** ** What the caches answer *)

Lemma find_cached_spec s p cache : (forall a, a ∈ cache -> is_Some (objects s !! a)) ->
  exists r, find_cached s p cache = Ret r /\
    match r with
    | Some a => a ∈ cache /\ exists t, objects s !! a = Some t /\ p t = true
    | None => forall a t, a ∈ cache -> objects s !! a = Some t -> p t = false
    end.
Proof.
  induction cache as [|c cache IH]; intros Hc; cbn [find_cached].
  { exists None. split; [done|]. by intros a t H%not_elem_of_nil. }
  destruct (Hc c ltac:(left)) as [t Ht]. rewrite (obj_Ret _ _ _ Ht). cbn [obind]. destruct (p t) eqn:Ep.
  { exists (Some c). split; [done|]. split; [left|]. by exists t. }
  destruct IH as (r & -> & Hr); [intros a Ha; apply Hc; by right|]. exists r. split; [done|]. destruct r as [a|].
  - destruct Hr as [Ha Ht']. split; [by right|done].
  - intros a ta [->|Ha]%elem_of_cons Hta; [congruence|by apply (Hr a)].
Qed.

Lemma ptr_cache_spec s p : wf s -> exists r, find_cached s p (g_ptr_cache s) = Ret r /\
  match r with
  | Some a => exists t, objects s !! a = Some t /\ kind t = MTLC_TYPE_POINTER /\ p t = true
  | None => forall a t, objects s !! a = Some t -> kind t = MTLC_TYPE_POINTER -> p t = false
  end.
Proof.
  intros Hs. destruct (find_cached_spec s p (g_ptr_cache s)) as (r & E & Hr).
  { intros a (t & Ht & _)%(wf_pointers _ Hs). by exists t. }
  exists r. split; [done|]. destruct r as [a|].
  - destruct Hr as [Ha (t & Ht & Hp)]. apply (wf_pointers _ Hs) in Ha as (t' & Ht' & Hk). exists t. split; [done|]. split; [congruence|done].
  - intros a t Ht Hk. apply (Hr a); [|done]. apply (wf_pointers _ Hs). by exists t.
Qed.

Lemma composite_cache_spec s p : wf s -> exists r, find_cached s p (g_composite_cache s) = Ret r /\
  match r with
  | Some a => exists t, objects s !! a = Some t /\ is_composite t = true /\ p t = true
  | None => forall a t, objects s !! a = Some t -> is_composite t = true -> p t = false
  end.
Proof.
  intros Hs. destruct (find_cached_spec s p (g_composite_cache s)) as (r & E & Hr).
  { intros a (t & Ht & _)%(wf_composites _ Hs). by exists t. }
  exists r. split; [done|]. destruct r as [a|].
  - destruct Hr as [Ha (t & Ht & Hp)]. apply (wf_composites _ Hs) in Ha as (t' & Ht' & Hk). exists t. split; [done|]. split; [congruence|done].
  - intros a t Ht Hk. apply (Hr a); [|done]. apply (wf_composites _ Hs). by exists t.
Qed.

(** ** A type more *)

Definition fresh (os : list MtlcType) (t : MtlcType) : Prop :=
  (forall k a ta, key_pointer t = Some k -> os !! a = Some ta -> key_pointer ta <> Some k) /\
  (forall k a ta, key_array t = Some k -> os !! a = Some ta -> key_array ta <> Some k) /\
  (forall k a ta, key_struct t = Some k -> os !! a = Some ta -> key_struct ta <> Some k) /\
  (forall k a ta, key_fn_pointer t = Some k -> os !! a = Some ta -> key_fn_pointer ta <> Some k).

Lemma wf_push s t ps cap cs cap' : wf s -> built (objects s) (length (objects s)) t -> fresh (objects s) t ->
  ps = g_ptr_cache s ++ (if decide (kind t = MTLC_TYPE_POINTER) then [length (objects s)] else []) ->
  cs = g_composite_cache s ++ (if is_composite t then [length (objects s)] else []) ->
  wf (mkStore (objects s ++ [t]) ps cap cs cap').
Proof.
  intros Hs Hb (F1 & F2 & F3 & F4) -> ->. split; cbn [objects g_ptr_cache g_composite_cache].
  - apply prefix_app_r, Hs.
  - intros i t' [H|[-> ->]]%lookup_snoc; (eapply built_grow; [by apply prefix_app_r|]); [by apply Hs|done].
  - intros a. rewrite elem_of_app, (wf_pointers _ Hs). split.
    + intros [(t' & Ht & Hk)|H]; [exists t'; split; [apply lookup_snoc; by left|done]|].
      destruct (decide _); [|by apply not_elem_of_nil in H]. apply list_elem_of_singleton in H as ->. exists t. split; [|done].
      apply lookup_snoc. by right.
    + intros (t' & [H|[-> ->]]%lookup_snoc & Hk); [left; by exists t'|right]. rewrite decide_True by done. left.
  - intros a. rewrite elem_of_app, (wf_composites _ Hs). split.
    + intros [(t' & Ht & Hk)|H]; [exists t'; split; [apply lookup_snoc; by left|done]|].
      destruct (is_composite t) eqn:E; [|by apply not_elem_of_nil in H]. apply list_elem_of_singleton in H as ->. exists t. split; [|done].
      apply lookup_snoc. by right.
    + intros (t' & [H|[-> ->]]%lookup_snoc & Hk); [left; by exists t'|right]. rewrite Hk. left.
  - apply unique_snoc; [apply Hs|done].
  - apply unique_snoc; [apply Hs|done].
  - apply unique_snoc; [apply Hs|done].
  - apply unique_snoc; [apply Hs|done].
Qed.

(** ** The store at the start *)

Lemma wf_start : wf store_start.
Proof.
  assert (forall a t, k_scalars !! a = Some t -> kind t <> MTLC_TYPE_POINTER /\ is_composite t = false) as Hk.
  { intros a t H. do 15 (destruct a as [|a]; [injection H as <-; done|]). done. }
  assert (forall A (key : MtlcType -> option A), (forall t, is_Some (key t) -> kind t = MTLC_TYPE_POINTER \/ is_composite t = true) ->
    unique key k_scalars) as Hu.
  { intros A key Hkey a b ta tb k Ha Hb Hka Hkb. destruct (Hk _ _ Ha) as [Hp Hc].
    destruct (Hkey ta) as [H|H]; [by rewrite Hka|done|congruence]. }
  split; cbn [store_start objects g_ptr_cache g_composite_cache].
  - done.
  - intros i t H. by apply built_scalar.
  - intros a. split; [by intros H%not_elem_of_nil|]. intros (t & Ht & H). by destruct (Hk _ _ Ht).
  - intros a. split; [by intros H%not_elem_of_nil|]. intros (t & Ht & H). destruct (Hk _ _ Ht). congruence.
  - apply Hu. intros t [k H]. unfold key_pointer in H. case_bool_decide; [by left|done].
  - apply Hu. intros t [k H]. unfold key_array in H. case_bool_decide as E; [right; unfold is_composite; by rewrite E|done].
  - apply Hu. intros t [k H]. unfold key_struct in H. case_bool_decide as E; [right; unfold is_composite; by rewrite E|done].
  - apply Hu. intros t [k H]. unfold key_fn_pointer in H. case_bool_decide as E; [right; unfold is_composite; by rewrite E|done].
Qed.

(** Alignments are positive and sizes are [size_t]s. *)
Lemma pad_to_u64 al off : in_u 64 off -> in_u 64 (pad_to al off).
Proof. intros H. unfold pad_to. destruct (_ =? 0); [done|]. by apply wrapu_bound. Qed.

Lemma lay_bounds fs : forall off al, in_u 64 off -> 0 < al ->
  in_u 64 (lay fs off al).1.2 /\ 0 < (lay fs off al).2.
Proof.
  induction fs as [|[sz a] fs IH]; intros off al Ho Ha; cbn [lay]; [done|].
  specialize (IH (u64 (pad_to a off + sz)) (Z.max al a) (wrapu_bound 64 _ ltac:(lia)) ltac:(lia)).
  destruct (lay fs _ _) as [[os off'] al']. exact IH.
Qed.

Lemma one_if_zero_pos z : 0 <= z -> 0 < one_if_zero z.
Proof. unfold one_if_zero. destruct (Z.eqb_spec z 0); lia. Qed.

Lemma wf_bounds s : wf s -> forall i t, objects s !! i = Some t -> in_u 64 (size t) /\ 0 < alignment t.
Proof.
  intros Hs i. induction (lt_wf i) as [i _ IH]. intros t Ht.
  destruct (wf_built _ Hs _ _ Ht) as [t' H|b bt sp H ?|e et c H ? ? ?|nm names types fts H ? ? ? ?|r rt ps pts H H'].
  - do 15 (destruct i as [|i]; [injection H as <-; cbn; unfold in_u; lia|]). done.
  - cbn. unfold in_u. lia.
  - cbn. split; [by apply wrapu_bound|]. apply Forall2_cons in H as [[Hlt He] _]. apply one_if_zero_pos.
    destruct (IH e Hlt et He). lia.
  - unfold struct_of. pose proof (lay_bounds (shape <$> fts) 0 1 ltac:(unfold in_u; lia) ltac:(lia)) as Hl.
    destruct (lay _ 0 1) as [[os off] al]. cbn in *. split; [apply pad_to_u64; tauto|tauto].
  - cbn. unfold in_u. lia.
Qed.

(** * Making types *)

(** What a constructor does to the store: it may add a type, it adds none
    when it returns null, and it never runs into undefined behaviour. *)
Definition makes (m : outcome (option nat * TypeStore * heap)) (s : TypeStore) (h : heap) (able : Prop) (good : TypeStore -> nat -> Prop) : Prop :=
  exists r s' h', m = Ret (r, s', h') /\ heap_grants h' = heap_grants h /\ wf s' /\ objects s `prefix_of` objects s' /\
    (forall a, r = Some a -> able /\ good s' a) /\ (r = None -> s' = s) /\
    ((forall n, heap_grants h n = true) -> able -> r <> None).

Lemma makes_null s h able good : wf s -> ~ able -> makes (Ret (None, s, h)) s h able good.
Proof. intros Hs Hn. exists None, s, h. split; [done|]. split; [done|]. split; [done|]. split; [done|]. split; [done|]. split; [done|]. tauto. Qed.

Lemma makes_refused s h h' able good : wf s -> heap_grants h' = heap_grants h -> ~ (forall n, heap_grants h n = true) ->
  makes (Ret (None, s, h')) s h able good.
Proof. intros Hs Hh Hn. exists None, s, h'. split; [done|]. split; [done|]. split; [done|]. split; [done|]. split; [done|]. split; [done|]. tauto. Qed.

Lemma makes_found s h h' a able (good : TypeStore -> nat -> Prop) : wf s -> heap_grants h' = heap_grants h -> able -> good s a ->
  makes (Ret (Some a, s, h')) s h able good.
Proof.
  intros Hs Hh Ha Hg. exists (Some a), s, h'. split; [done|]. split; [done|]. split; [done|]. split; [done|]. split; [|done].
  intros b [= <-]. done.
Qed.

(** A request to the allocator on the way. *)
Lemma makes_alloc (k : heap -> outcome (option nat * TypeStore * heap)) s h able good : wf s ->
  (forall h', heap_grants h' = heap_grants h -> makes (k h') s h' able good) ->
  makes (let (ok, h) := alloc h in if negb ok then Ret (None, s, h) else k h) s h able good.
Proof.
  intros Hs Hk. unfold alloc. destruct (heap_grants h (heap_calls h)) eqn:E; cbn [negb].
  - destruct (Hk (mkHeap (heap_grants h) (S (heap_calls h))) eq_refl) as (r & s' & h' & Em & H1 & H2 & H3 & H4 & H5 & H6).
    exists r, s', h'. split; [done|]. split; [done|]. split; [done|]. split; [done|]. split; [done|]. split; [done|]. exact H6.
  - apply makes_refused; [done|done|]. intros H. by rewrite H in E.
Qed.

Lemma cache_room_spec cache cap h : exists ok cap' h', cache_room cache cap h = (ok, cap', h') /\ heap_grants h' = heap_grants h /\
  ((forall n, heap_grants h n = true) -> ok = true).
Proof.
  unfold cache_room, alloc. destruct (_ =? _)%nat; [|by exists true, cap, h].
  destruct (heap_grants h (heap_calls h)) eqn:E; eexists _, _, _; (split; [done|]); (split; [done|]); [done|].
  intros H. by rewrite H in E.
Qed.

Lemma makes_push t s h able (good : TypeStore -> nat -> Prop) : wf s -> built (objects s) (length (objects s)) t -> fresh (objects s) t ->
  is_composite t = true -> able -> (forall s', objects s' = objects s ++ [t] -> good s' (length (objects s))) ->
  makes (Ret (composite_cache_push t s h)) s h able good.
Proof.
  intros Hs Hb Hf Hc Ha Hg. unfold composite_cache_push.
  destruct (cache_room_spec (g_composite_cache s) (g_composite_cap s) h) as (ok & cap & h' & -> & Hh & Hok).
  destruct ok; cbn [negb]; [|apply makes_refused; [done|done|intros H; by apply Hok in H]].
  eexists _, _, h'. split; [done|]. split; [done|]. split.
  { eapply wf_push; [done|done|done| |by rewrite Hc]. rewrite decide_False; [by rewrite app_nil_r|].
    intros E. unfold is_composite in Hc. by rewrite E in Hc. }
  split; [by apply prefix_app_r|]. split; [|done]. intros a [= <-]. split; [done|]. by apply Hg.
Qed.

(** ** Pointers *)

Definition default_space (space : Z) : Z := if space =? 0 then 1 else space.

Lemma space_name_valid space : is_Some (mtlc_address_space_name space) <-> 0 <= space <= 5.
Proof.
  unfold mtlc_address_space_name. destruct (Z.eqb_spec space 2), (Z.eqb_spec space 3), (Z.eqb_spec space 4), (Z.eqb_spec space 5),
    (Z.eqb_spec space 0), (Z.eqb_spec space 1); cbn; subst; split; intros H; try lia; try (by eexists); by destruct H.
Qed.

Definition valid (s : TypeStore) (a : nat) : Prop := (a < length (objects s))%nat.

Lemma valid_lookup s a : valid s a -> exists t, objects s !! a = Some t.
Proof. apply lookup_lt_is_Some_2. Qed.

Lemma made_one s a t : objects s !! a = Some t -> made (objects s) (length (objects s)) [a] [t].
Proof. intros H. constructor; [split; [by apply lookup_lt_Some in H|done]|constructor]. Qed.

Lemma made_object os i l ts a t : made os i l ts -> In (a, t) (zip l ts) -> os !! a = Some t.
Proof. induction 1 as [|x y l ts [_ H] _ IH]; [done|]. intros [[= -> ->]|H']; [done|by apply IH]. Qed.

(** The one pointer to a type in a memory space. *)
Lemma pointer_built s a t : wf s -> objects s !! a = Some t -> kind t = MTLC_TYPE_POINTER ->
  exists b bt space, t = pointer_of b bt space /\ objects s !! b = Some bt /\ 1 <= space <= 5.
Proof.
  intros Hs Ht Hk. destruct (wf_built _ Hs _ _ Ht) as [t' H|b bt sp H ?|e et c H ? ? ?|nm names types fts H ? ? ? ?|r rt ps pts H H']; try done.
  - do 15 (destruct a as [|a]; [injection H as <-; done|]). done.
  - exists b, bt, sp. split; [done|]. apply Forall2_cons in H as [[_ H] _]. done.
  - unfold struct_of in Hk. destruct (lay _ 0 1) as [[os off] al]. done.
Qed.

Lemma pointer_in_makes s h b bt space : wf s -> objects s !! b = Some bt ->
  makes (mtlc_type_pointer_in (Some b) space s h) s h (0 <= space <= 5)
    (fun s' a => objects s' !! a = Some (pointer_of b bt (default_space space))).
Proof.
  intros Hs Hb. unfold mtlc_type_pointer_in. destruct (mtlc_address_space_name space) as [nm|] eqn:En.
  2:{ apply makes_null; [done|]. rewrite <- space_name_valid, En. by intros [? ?]. }
  assert (0 <= space <= 5) as Hsp by (apply space_name_valid; by exists nm). fold (default_space space).
  change (if space =? MTLC_ADDRESS_SPACE_DEFAULT then MTLC_ADDRESS_SPACE_GENERIC else space) with (default_space space).
  set (sp := default_space space). assert (1 <= sp <= 5) as Hsp' by (unfold sp, default_space; destruct (Z.eqb_spec space 0); lia).
  destruct (ptr_cache_spec s (same_pointer b sp) Hs) as (r & -> & Hr). cbn [obind]. destruct r as [a|].
  { destruct Hr as (t & Ht & Hk & Hp). apply makes_found; [done|done|done|]. rewrite Ht. f_equal.
    destruct (pointer_built s a t Hs Ht Hk) as (b' & bt' & sp' & -> & Hb' & _). unfold same_pointer in Hp. cbn in Hp.
    apply andb_true_iff in Hp as [[= ->]%bool_decide_eq_true ->%Z.eqb_eq]. by replace bt' with bt by congruence. }
  apply makes_alloc; [done|]. intros h1 _. rewrite (obj_Ret _ _ _ Hb). cbn [obind]. apply makes_alloc; [done|]. intros h2 _.
  destruct (cache_room_spec (g_ptr_cache s) (g_ptr_cache_cap s) h2) as (ok & cap & h' & -> & Hh & Hok).
  destruct ok; cbn [negb]; [|apply makes_refused; [done|done|intros H; by apply Hok in H]].
  fold (pointer_of b bt sp). eexists _, _, h'. split; [done|]. split; [done|]. split.
  { eapply wf_push; [done|by apply built_pointer; [apply made_one|]| |done|by rewrite app_nil_r]. split; [|split; [|split]]; try done.
    intros k a ta [= <-] Hta Hka. unfold key_pointer in Hka. case_bool_decide as Hk; [|done]. pose proof (Hr a ta Hta Hk) as Hp.
    unfold same_pointer in Hp. destruct (base_type ta) as [b'|]; [|done]. injection Hka as -> Esp. rewrite Esp in Hp.
    rewrite bool_decide_true, Z.eqb_refl in Hp by done. done. }
  split; [by apply prefix_app_r|]. split; [|done]. intros a [= <-]. split; [done|]. cbn. by apply lookup_snoc; right.
Qed.

(** ** Arrays *)

Lemma array_built s a t : wf s -> objects s !! a = Some t -> kind t = MTLC_TYPE_ARRAY ->
  exists e et count, t = array_of e et count /\ objects s !! e = Some et.
Proof.
  intros Hs Ht Hk. destruct (wf_built _ Hs _ _ Ht) as [t' H|b bt sp H ?|e et c H ? ? ?|nm names types fts H ? ? ? ?|r rt ps pts H H']; try done.
  - do 15 (destruct a as [|a]; [injection H as <-; done|]). done.
  - exists e, et, c. split; [done|]. apply Forall2_cons in H as [[_ H] _]. done.
  - unfold struct_of in Hk. destruct (lay _ 0 1) as [[os off] al]. done.
Qed.

Lemma array_makes s h e et count : wf s -> objects s !! e = Some et -> 0 <= count ->
  makes (mtlc_type_array (Some e) count s h) s h (0 < count /\ size et <> 0 /\ size et * count < 2 ^ 64)
    (fun s' a => objects s' !! a = Some (array_of e et count)).
Proof.
  intros Hs He Hc. destruct (wf_bounds s Hs _ _ He) as [[Hsz _] _]. unfold mtlc_type_array.
  destruct (Z.eqb_spec count 0) as [->|Hc0]; [apply makes_null; [done|lia]|]. rewrite (obj_Ret _ _ _ He). cbn [obind].
  destruct (Z.eqb_spec (size et) 0) as [Ez|Hz]; [apply makes_null; [done|lia]|].
  assert (size et * count < 2 ^ 64 <-> count <= (2 ^ 64 - 1) / size et) as Hfit.
  { split; intros H; [apply Z.div_le_lower_bound; lia|].
    pose proof (Z.mul_div_le (2 ^ 64 - 1) (size et) ltac:(lia)). nia. }
  destruct (Z.ltb_spec ((2 ^ 64 - 1) / size et) count) as [Hbig|Hle]; [apply makes_null; [done|lia]|].
  assert (0 < count /\ size et <> 0 /\ size et * count < 2 ^ 64) as Hable by (split_and!; [lia|done|by apply Hfit]).
  destruct (composite_cache_spec s (same_array e count) Hs) as (r & -> & Hr). cbn [obind]. destruct r as [a|].
  { destruct Hr as (t & Ht & _ & Hp). unfold same_array in Hp. rewrite !andb_true_iff in Hp.
    destruct Hp as [[Hk%bool_decide_eq_true Hb%bool_decide_eq_true] Ec%Z.eqb_eq].
    apply makes_found; [done|done|done|]. rewrite Ht. f_equal.
    destruct (array_built s a t Hs Ht Hk) as (e' & et' & c' & -> & He'). cbn in Hb, Ec. injection Hb as ->. subst c'.
    by replace et' with et by congruence. }
  apply makes_alloc; [done|]. intros h1 _. apply makes_alloc; [done|]. intros h2 _. fold (array_of e et count).
  apply makes_push; [done|apply built_array; [by apply made_one|tauto..]| |done|done|].
  - split; [|split; [|split]]; try done. intros k a ta [= <-] Hta Hka. unfold key_array in Hka. case_bool_decide as Hk; [|done].
    assert (is_composite ta = true) as Hcomp by (unfold is_composite; by rewrite Hk). pose proof (Hr a ta Hta Hcomp) as Hp.
    unfold same_array in Hp. destruct (base_type ta) as [b'|]; [|done]. injection Hka as -> Esp. rewrite Esp in Hp.
    rewrite !bool_decide_true, Z.eqb_refl in Hp by done. done.
  - intros s' ->. by apply lookup_snoc; right.
Qed.

(** ** Structs *)

(** The names of the fields as the struct keeps them. *)
Definition names_of (names : option (list (option string))) (n : nat) : list string :=
  match names with None => replicate n "" | Some l => default "" <$> l end.

Definition names_fit (names : option (list (option string))) (n : nat) : Prop :=
  match names with None => True | Some l => length l = n end.

Lemma names_of_length names n : names_fit names n -> length (names_of names n) = n.
Proof. destruct names as [l|]; cbn; [intros <-; by rewrite length_fmap|by rewrite length_replicate]. Qed.

Lemma name_at_spec names n i : names_fit names n -> (i < n)%nat -> exists x, name_at names i = Ret x /\ names_of names n !! i = Some x.
Proof.
  intros Hf Hi. destruct names as [l|]; cbn in *.
  - destruct (lookup_lt_is_Some_2 l i) as [o Ho]; [lia|]. rewrite Ho, list_lookup_fmap, Ho. exists (default "" o). by destruct o.
  - exists "". split; [done|]. by apply lookup_replicate_2.
Qed.

Lemma type_at_app pre t rest : type_at (pre ++ t :: rest) (length pre) = Ret t.
Proof. unfold type_at. by rewrite list_lookup_middle. Qed.

(** The types of the fields, all there and with a size. *)
Definition sized_fields (s : TypeStore) (types : list (option nat)) (ts : list nat) (fts : list MtlcType) : Prop :=
  types = Some <$> ts /\ Forall2 (fun a t => objects s !! a = Some t) ts fts /\ Forall (fun t => size t <> 0) fts.

Lemma fields_sized_spec s rest : Forall (fun t => match t with Some a => valid s a | None => True end) rest -> forall pre,
  exists b, fields_sized s (pre ++ rest) (length rest) (length pre) = Ret b /\ (b = true <-> exists ts fts, sized_fields s rest ts fts).
Proof.
  induction 1 as [|t rest Ht _ IH]; intros pre; cbn [length fields_sized].
  { exists true. split; [done|]. split; [|done]. intros _. exists [], []. done. }
  rewrite type_at_app. cbn [obind]. destruct t as [a|].
  2:{ exists false. split; [done|]. split; [done|]. intros ([|? ?] & ? & [=] & _). }
  destruct (valid_lookup s a Ht) as [ft Hft]. rewrite (obj_Ret _ _ _ Hft). cbn [obind]. destruct (Z.eqb_spec (size ft) 0) as [E|E].
  { exists false. split; [done|]. split; [done|]. intros (ts & fts & Ets & Hm & Hs). destruct ts as [|a' ts]; [done|]. injection Ets as -> _.
    inversion Hm as [|? ft' ? fts' Hft' _]; subst. inversion Hs; subst. congruence. }
  destruct (IH (pre ++ [Some a])) as (b & Eb & Hb). rewrite <- app_assoc, length_app, Nat.add_1_r in Eb. cbn [app length] in Eb.
  exists b. split; [done|]. rewrite Hb. split.
  - intros (ts & fts & -> & Hm & Hs). exists (a :: ts), (ft :: fts). split; [done|]. split; by constructor.
  - intros (ts & fts & Ets & Hm & Hs). destruct ts as [|a' ts]; [done|]. injection Ets as -> ->. inversion Hm as [|? ft' ? fts' Hft' Hm']; subst.
    inversion Hs; subst. by exists ts, fts'.
Qed.

Lemma fields_match_spec c names types N : names_fit names N -> length types = N -> length (field_types c) = N -> length (field_names c) = N ->
  forall n i, (i + n = N)%nat -> exists b, fields_match c names types n i = Ret b /\
    (b = true <-> drop i types = Some <$> drop i (field_types c) /\ drop i (names_of names N) = drop i (field_names c)).
Proof.
  intros Hf Ht Hct Hcn. pose proof (names_of_length names N Hf) as Hn. induction n as [|n IH]; intros i Hi; cbn [fields_match].
  { exists true. split; [done|]. split; [|done]. intros _. rewrite !drop_ge by lia. done. }
  destruct (lookup_lt_is_Some_2 types i) as [t Et]; [lia|]. destruct (lookup_lt_is_Some_2 (field_types c) i) as [ct Ect]; [lia|].
  destruct (lookup_lt_is_Some_2 (field_names c) i) as [cn Ecn]; [lia|]. destruct (name_at_spec names N i Hf) as (x & Ex & Enx); [lia|].
  unfold type_at. rewrite Et, (get_nat _ _ _ Ect). cbn [obind].
  rewrite (drop_S _ _ _ Et), (drop_S _ _ _ Ect), (drop_S _ _ _ Ecn), (drop_S _ _ _ Enx). cbn [fmap list_fmap].
  case_bool_decide as Hd; cbn [negb].
  2:{ exists false. split; [done|]. split; [done|]. intros [[= -> _] _]. done. }
  rewrite Ex, (get_nat _ _ _ Ecn). cbn [obind]. case_bool_decide as Hd2; cbn [negb].
  2:{ exists false. split; [done|]. split; [done|]. intros [_ [= -> _]]. done. }
  destruct (IH (S i)) as (b & -> & Hb); [lia|]. exists b. split; [done|]. rewrite Hb. subst t cn. split.
  - intros [-> ->]. done.
  - intros [[= ->] [= ->]]. done.
Qed.

Lemma max_align_max a m : (if a >? m then a else m) = Z.max m a.
Proof. destruct (Z.gtb_spec a m); lia. Qed.

Lemma layout_fields_spec s names N ts fts : names_fit names N -> Forall2 (fun a t => objects s !! a = Some t) ts fts ->
  forall pre l h, (length pre + length ts = N)%nat ->
  exists r h', layout_fields s names (pre ++ (Some <$> ts)) (length ts) (length pre) l h = Ret (r, h') /\ heap_grants h' = heap_grants h /\
    ((forall n, heap_grants h n = true) -> r <> None) /\
    (forall l', r = Some l' -> l' = mkLayout (lay (shape <$> fts) (l_offset l) (l_align l)).1.2 (lay (shape <$> fts) (l_offset l) (l_align l)).2
      (l_names l ++ drop (length pre) (names_of names N)) (l_types l ++ ts) (l_offsets l ++ (lay (shape <$> fts) (l_offset l) (l_align l)).1.1)).
Proof.
  intros Hf. pose proof (names_of_length names N Hf) as Hn.
  induction 1 as [|a t ts fts Ht _ IH]; intros pre l h HN; cbn [length layout_fields].
  { exists (Some l), h. split; [done|]. split; [done|]. split; [done|]. intros l' [= <-]. cbn in HN |- *.
    rewrite drop_ge by lia. rewrite !app_nil_r. by destruct l. }
  cbn [fmap list_fmap]. rewrite type_at_app. cbn [obind]. rewrite (obj_Ret _ _ _ Ht). cbn [obind].
  cbn [length] in HN. destruct (name_at_spec names N (length pre) Hf) as (x & Ex & Enx); [lia|]. unfold alloc.
  destruct (heap_grants h (heap_calls h)) eqn:Eg; rewrite Ex; cbn [obind negb].
  2:{ exists None. eexists. split; [done|]. split; [done|]. split; [intros H; by rewrite H in Eg|done]. }
  rewrite max_align_max. set (l1 := mkLayout _ _ _ _ _). set (h1 := mkHeap _ _).
  destruct (IH (pre ++ [Some a]) l1 h1) as (r & h' & E & Hh & Hr & Hl).
  { rewrite length_app. cbn. lia. }
  rewrite <- app_assoc, length_app, Nat.add_1_r in E. cbn [app] in E. rewrite length_app, Nat.add_1_r in Hl.
  exists r, h'. split; [exact E|]. split; [done|]. split; [exact Hr|]. intros l' Hl'. rewrite (Hl l' Hl'). subst l1. cbn [l_offset l_align l_names l_types l_offsets].
  change (shape <$> t :: fts) with (shape t :: (shape <$> fts)). cbn [lay].
  change (shape t) with (size t, one_if_zero (alignment t)). cbv beta iota.
  destruct (lay (shape <$> fts) _ _) as [[os off] al]. cbn [fst snd].
  rewrite <- !app_assoc. cbn [app]. by rewrite (drop_S _ _ _ Enx).
Qed.

Lemma struct_of_fields nm names types fts : kind (struct_of nm names types fts) = MTLC_TYPE_STRUCT /\
  name (struct_of nm names types fts) = Some nm /\ field_names (struct_of nm names types fts) = names /\
  field_types (struct_of nm names types fts) = types /\ field_offsets (struct_of nm names types fts) = (lay (shape <$> fts) 0 1).1.1.
Proof. unfold struct_of. by destruct (lay _ 0 1) as [[os off] al]. Qed.

Lemma struct_built s a t : wf s -> objects s !! a = Some t -> kind t = MTLC_TYPE_STRUCT ->
  exists nm names types fts, t = struct_of nm names types fts /\ Forall2 (fun a t => objects s !! a = Some t) types fts /\
    Forall (fun t => size t <> 0) fts /\ types <> [] /\ length names = length types.
Proof.
  intros Hs Ht Hk. destruct (wf_built _ Hs _ _ Ht) as [t' H|b bt sp H ?|e et c H ? ? ?|nm names types fts H ? ? ? ?|r rt ps pts H H']; try done.
  - do 15 (destruct a as [|a]; [injection H as <-; done|]). done.
  - exists nm, names, types, fts. split; [done|]. split; [|done]. eapply Forall2_impl; [exact H|]. by intros x y [_ ?].
Qed.

Lemma objects_functional s ts fts fts' : Forall2 (fun a t => objects s !! a = Some t) ts fts ->
  Forall2 (fun a t => objects s !! a = Some t) ts fts' -> fts = fts'.
Proof.
  intros H. revert fts'. induction H as [|a t ts fts Ht _ IH]; intros fts' H'; inversion H' as [|? t' ? fts2 Ht' H2]; subst; [done|].
  f_equal; [congruence|by apply IH].
Qed.

Lemma fn_pointer_built s a t : wf s -> objects s !! a = Some t -> kind t = MTLC_TYPE_FUNCTION_POINTER ->
  exists r rt ps pts, t = fn_pointer_of r rt ps pts /\ objects s !! r = Some rt /\ Forall2 (fun a t => objects s !! a = Some t) ps pts.
Proof.
  intros Hs Ht Hk. destruct (wf_built _ Hs _ _ Ht) as [t' H|b bt sp H ?|e et c H ? ? ?|nm names types fts H ? ? ? ?|r rt ps pts H H']; try done.
  - do 15 (destruct a as [|a]; [injection H as <-; done|]). done.
  - unfold struct_of in Hk. destruct (lay _ 0 1) as [[os off] al]. done.
  - exists r, rt, ps, pts. split; [done|]. apply Forall2_cons in H as [[_ H] _]. split; [done|].
    eapply Forall2_impl; [exact H'|]. by intros x y [_ ?].
Qed.

Lemma made_valid s ts fts : Forall2 (fun a t => objects s !! a = Some t) ts fts -> made (objects s) (length (objects s)) ts fts.
Proof. intros H. eapply Forall2_impl; [exact H|]. intros a t Ht. split; [by apply lookup_lt_Some in Ht|done]. Qed.

(** A struct of that name has those fields. *)
Definition same_if_named (s : TypeStore) (nm : string) (names : list string) (ts : list nat) : Prop :=
  forall a t, objects s !! a = Some t -> key_struct t = Some nm -> field_types t = ts /\ field_names t = names.

Definition struct_able (s : TypeStore) (nm : option string) (names : option (list (option string))) (types : option (list (option nat))) (n : nat) : Prop :=
  exists nm' ts fts, nm = Some nm' /\ nm' <> "" /\ types = Some (Some <$> ts) /\ n <> O /\ length ts = n /\
    Forall2 (fun a t => objects s !! a = Some t) ts fts /\ Forall (fun t => size t <> 0) fts /\ same_if_named s nm' (names_of names n) ts.

Definition struct_good (nm : option string) (names : option (list (option string))) (types : option (list (option nat))) (n : nat)
  (s : TypeStore) (a : nat) : Prop :=
  exists nm' ts fts, nm = Some nm' /\ types = Some (Some <$> ts) /\ Forall2 (fun a t => objects s !! a = Some t) ts fts /\
    objects s !! a = Some (struct_of nm' (names_of names n) ts fts).

Lemma makes_new_struct s h nm names ts fts n able (good : TypeStore -> nat -> Prop) : wf s -> names_fit names n -> length ts = n -> n <> O -> nm <> "" ->
  Forall2 (fun a t => objects s !! a = Some t) ts fts -> Forall (fun t => size t <> 0) fts ->
  (forall a t, objects s !! a = Some t -> key_struct t <> Some nm) -> able ->
  (forall s', objects s' = objects s ++ [struct_of nm (names_of names n) ts fts] -> good s' (length (objects s))) ->
  makes (let (ok, h) := alloc h in
         if negb ok then Ret (None, s, h)
         else
           let (ok, h) := alloc4 h in
           if negb ok then Ret (None, s, h)
           else
             let! (l, h) := layout_fields s names (Some <$> ts) n 0 (mkLayout 0 1 [] [] []) h in
             match l with
             | None => Ret (None, s, h)
             | Some l =>
                 Ret (composite_cache_push
                   (mkType MTLC_TYPE_STRUCT (Some nm) (pad_to (l_align l) (l_offset l)) (l_align l) 0 None 0 [] None
                      (l_names l) (l_types l) (l_offsets l)) s h)
             end) s h able good.
Proof.
  intros Hs Hf Hl Hn Hnm Hts Hsz Hfresh Hable Hgood. apply makes_alloc; [done|]. intros h1 _.
  assert (exists ok h2, alloc4 h1 = (ok, h2) /\ heap_grants h2 = heap_grants h1 /\ ((forall n, heap_grants h1 n = true) -> ok = true)) as (ok & h2 & -> & Hh2 & Hok).
  { unfold alloc4, alloc. cbn. eexists _, _. split; [done|]. split; [done|]. intros H. by rewrite !H. }
  destruct ok; cbn [negb]; [|apply makes_refused; [done|done|intros H; by apply Hok in H]].
  destruct (layout_fields_spec s names n ts fts Hf Hts [] (mkLayout 0 1 [] [] []) h2) as (r & h3 & E & Hh3 & Hr & Hlay); [done|].
  cbn [app length] in E. rewrite Hl in E. rewrite E. cbn [obind]. destruct r as [l|].
  2:{ apply makes_refused; [done|congruence|]. intros H. rewrite <- Hh2 in H. by apply (Hr H). }
  rewrite (Hlay l eq_refl). cbn [l_offset l_align l_names l_types l_offsets length app drop]. fold (struct_of nm (names_of names n) ts fts).
  set (t := mkType _ _ _ _ _ _ _ _ _ _ _ _). assert (t = struct_of nm (names_of names n) ts fts) as ->.
  { unfold t, struct_of. by destruct (lay _ 0 1) as [[os off] al]. }
  destruct (struct_of_fields nm (names_of names n) ts fts) as (Hk & Hnm' & _).
  destruct (makes_push (struct_of nm (names_of names n) ts fts) s h3 able good Hs) as (r' & s' & h' & Em & H1 & H2 & H3 & H4 & H5 & H6); try done.
  - apply built_struct; [by apply made_valid|done|done| |by rewrite names_of_length]. intros ->. cbn in Hl. congruence.
  - split; [|split; [|split]].
    + intros k a ta H. unfold key_pointer in H. by rewrite Hk in H.
    + intros k a ta H. unfold key_array in H. by rewrite Hk in H.
    + intros k a ta H Hta. unfold key_struct in H. rewrite Hk, Hnm', bool_decide_true in H by done. injection H as <-. by apply (Hfresh a).
    + intros k a ta H. unfold key_fn_pointer in H. by rewrite Hk in H.
  - unfold is_composite. by rewrite Hk.
  - exists r', s', h'. split; [done|]. split; [congruence|]. split; [done|]. split; [done|]. split; [done|]. split; [done|].
    intros H. apply H6. by rewrite Hh3, Hh2.
Qed.

Lemma struct_makes s h nm names types n : wf s -> names_fit names n ->
  (forall l, types = Some l -> length l = n /\ Forall (fun t => match t with Some a => valid s a | None => True end) l) ->
  makes (mtlc_type_struct nm names types n s h) s h (struct_able s nm names types n) (struct_good nm names types n).
Proof.
  intros Hs Hf Htypes. unfold mtlc_type_struct. destruct nm as [nm|]; [|apply makes_null; [done|by intros (? & ? & ? & [=] & _)]].
  destruct types as [types|]; [|apply makes_null; [done|by intros (? & ? & ? & _ & _ & [=] & _)]].
  destruct (Htypes types eq_refl) as [Hlen Hval].
  destruct (bool_decide (nm = "") || (n =? 0)%nat) eqn:Eg.
  { apply makes_null; [done|]. intros (nm' & ts & fts & [= <-] & Hnm & _ & Hn & _). apply orb_true_iff in Eg as [Eg|Eg].
    - by apply bool_decide_eq_true in Eg.
    - by apply Nat.eqb_eq in Eg. }
  apply orb_false_iff in Eg as [Hnm%bool_decide_eq_false Hn%Nat.eqb_neq].
  destruct (fields_sized_spec s types Hval []) as (b & Eb & Hb). cbn [app length] in Eb. rewrite Hlen in Eb. rewrite Eb. cbn [obind].
  destruct b; cbn [negb].
  2:{ apply makes_null; [done|]. intros (nm' & ts & fts & _ & _ & [= ->] & _ & _ & Hts & Hsz & _).
      assert (false = true) as [=]. apply Hb. by exists ts, fts. }
  destruct (proj1 Hb eq_refl) as (ts & fts & -> & Hts & Hsz). rewrite length_fmap in Hlen.
  destruct (composite_cache_spec s (named_struct nm) Hs) as (r & -> & Hr). cbn [obind]. destruct r as [a|].
  - destruct Hr as (t & Ht & _ & Hp). apply andb_true_iff in Hp as [Hk%bool_decide_eq_true Hnm'%bool_decide_eq_true].
    rewrite (obj_Ret _ _ _ Ht). cbn [obind]. unfold struct_layout_matches.
    destruct (struct_built s a t Hs Ht Hk) as (nm' & names' & types' & fts' & -> & Hts' & _ & _ & Hln).
    destruct (struct_of_fields nm' names' types' fts') as (_ & Hn2 & Hfn & Hft & _). rewrite Hn2 in Hnm'. injection Hnm' as ->.
    assert (key_struct (struct_of nm names' types' fts') = Some nm) as Hkey by (unfold key_struct; by rewrite Hk, bool_decide_true).
    rewrite Hft. destruct (Nat.eqb_spec (length types') n) as [El|El]; cbn [negb].
    2:{ cbn [obind]. apply makes_null; [done|]. intros (nm2 & ts2 & fts2 & [= <-] & _ & [= E2%(inj _)] & _ & _ & _ & _ & Hsame). subst ts2.
        destruct (Hsame a _ Ht Hkey) as [E _]. rewrite Hft in E. congruence. }
    destruct (fields_match_spec (struct_of nm names' types' fts') names (Some <$> ts) n Hf ltac:(by rewrite length_fmap)
      ltac:(by rewrite Hft) ltac:(rewrite Hfn; congruence) n 0 ltac:(lia)) as (m & -> & Hm). cbn [obind]. rewrite !drop_0, Hft, Hfn in Hm.
    destruct m.
    + destruct (proj1 Hm eq_refl) as [E1%(inj _) E2]. subst types' names'.
      assert (fts' = fts) as -> by (by eapply objects_functional).
      apply makes_found; [done|done| |].
      * exists nm, ts, fts. do 7 (split; [done|]). intros a' t' Ht' Hk'.
        assert (a' = a) as -> by (by eapply (wf_unique_struct _ Hs)). assert (t' = struct_of nm (names_of names n) ts fts) as -> by congruence. done.
      * exists nm, ts, fts. done.
    + apply makes_null; [done|]. intros (nm2 & ts2 & fts2 & [= <-] & _ & [= E2%(inj _)] & _ & _ & _ & _ & Hsame). subst ts2.
      destruct (Hsame a _ Ht Hkey) as [E1 E2]. rewrite Hft in E1. rewrite Hfn in E2. subst. by assert (false = true) as [=] by (by apply Hm).
  - apply (makes_new_struct s h nm names ts fts n); try done.
    + intros a t Ht Hk. unfold key_struct in Hk. case_bool_decide as Hkind; [|done].
      assert (is_composite t = true) as Hc by (unfold is_composite; by rewrite Hkind). pose proof (Hr a t Ht Hc) as Hp.
      unfold named_struct in Hp. rewrite !bool_decide_true in Hp by done. done.
    + exists nm, ts, fts. do 7 (split; [done|]). intros a t Ht Hk. unfold key_struct in Hk. case_bool_decide as Hkind; [|done].
      assert (is_composite t = true) as Hc by (unfold is_composite; by rewrite Hkind). pose proof (Hr a t Ht Hc) as Hp.
      unfold named_struct in Hp. rewrite !bool_decide_true in Hp by done. done.
    + intros s' Es'. exists nm, ts, fts. split; [done|]. split; [done|]. split.
      * eapply Forall2_impl; [exact Hts|]. intros a t Ht. rewrite Es'. by apply lookup_app_l_Some.
      * rewrite Es'. by apply lookup_snoc; right.
Qed.
End MachTypesCorrect.
