(* ===== verification/MachTypesProps.v ===== *)
(** What the constructors of machine types promise. *)
From stdpp Require Import pretty.
From S2P Require Import Prelude MachTypes MachTypesCorrect.
#[local] Open Scope Z_scope.

Module MachTypesProps.
Import MachTypes MachTypesCorrect.

(** * Names *)

Lemma substring_whole s : forall n, (String.length s <= n)%nat -> String.substring 0 n s = s.
Proof.
  induction s as [|c s IH]; intros n Hn; [by destruct n|]. destruct n as [|n]; [cbn in Hn; lia|]. cbn in *. f_equal. apply IH. lia.
Qed.

Lemma snprintf_fits n s : (String.length s < n)%nat -> snprintf n s = s.
Proof. intros H. apply substring_whole. lia. Qed.

Lemma length_str_app a b : String.length (a +:+ b) = (String.length a + String.length b)%nat.
Proof. induction a as [|c a IH]; [done|]. cbn. by rewrite <- IH. Qed.

Lemma str_app_assoc a b c : (a +:+ b) +:+ c = a +:+ (b +:+ c).
Proof. induction a as [|x a IH]; [done|]. change (String x ((a +:+ b) +:+ c) = String x (a +:+ (b +:+ c))). by rewrite IH. Qed.

Lemma str_app_nil a : a +:+ "" = a.
Proof. induction a as [|x a IH]; [done|]. change (String x (a +:+ "") = String x a). by rewrite IH. Qed.

(** The names of the parameters, with commas between them. *)
Fixpoint params_shown (i : nat) (ps : list MtlcType) : string :=
  match ps with [] => "" | p :: ps => ((if (i =? 0)%nat then "" else ",") +:+ shown p) +:+ params_shown (S i) ps end.

Definition params_length (ps : list MtlcType) : nat := sum_list ((fun p => S (String.length (shown p))) <$> ps).

Lemma params_shown_length ps : forall i, (String.length (params_shown i ps) <= params_length ps)%nat.
Proof.
  induction ps as [|p ps IH]; intros i; [cbn; lia|]. cbn [params_shown]. rewrite !length_str_app. specialize (IH (S i)).
  change (params_length (p :: ps)) with (S (String.length (shown p)) + params_length ps)%nat.
  destruct (i =? 0)%nat; cbn [String.length]; lia.
Qed.

Lemma write_params_fits n ps : forall i acc, (String.length acc + params_length ps < n)%nat ->
  write_params n i ps acc = acc +:+ params_shown i ps.
Proof.
  induction ps as [|p ps IH]; intros i acc Hn; cbn [write_params params_shown]; [by rewrite str_app_nil|].
  change (params_length (p :: ps)) with (S (String.length (shown p)) + params_length ps)%nat in Hn.
  set (sep := if (i =? 0)%nat then "" else ","). assert (String.length sep <= 1)%nat as Hs by (unfold sep; destruct (i =? 0)%nat; cbn; lia).
  rewrite snprintf_fits by (rewrite length_str_app; lia). rewrite IH by (rewrite !length_str_app; lia). by rewrite str_app_assoc.
Qed.

Lemma pointer_name_spelled bt space : pointer_name bt space =
  (if space =? 1 then "" else default "" (mtlc_address_space_name space) +:+ ":") +:+ shown bt +:+ "*".
Proof.
  unfold pointer_name, MTLC_ADDRESS_SPACE_GENERIC. destruct (space =? 1); cbn [negb].
  - rewrite snprintf_fits; [done|]. rewrite length_str_app. cbn. lia.
  - rewrite snprintf_fits; [by rewrite str_app_assoc|]. rewrite !length_str_app. cbn [String.length]. lia.
Qed.

Lemma function_pointer_name_spelled rt ps : function_pointer_name rt ps = (shown rt +:+ "(*)(") +:+ params_shown 0 ps +:+ ")".
Proof.
  unfold function_pointer_name. set (n := name_room rt ps).
  assert (n = String.length (shown rt) + 8 + params_length ps)%nat as En by done. pose proof (params_shown_length ps 0) as Hp.
  rewrite (snprintf_fits n (shown rt +:+ "(*)(")) by (rewrite length_str_app; cbn [String.length]; lia).
  rewrite write_params_fits by (rewrite length_str_app; cbn [String.length]; lia).
  rewrite snprintf_fits by (rewrite !length_str_app; cbn [String.length]; lia). by rewrite str_app_assoc.
Qed.

(** A decimal number below [2^64] has twenty digits at most. *)
Lemma pretty_N_go_length k : forall x s, (x < 10 ^ N.of_nat k)%N -> (String.length (pretty_N_go x s) <= k + String.length s)%nat.
Proof.
  induction k as [|k IH]; intros x s Hx.
  - change (10 ^ N.of_nat 0)%N with 1%N in Hx. assert (x = 0)%N as -> by lia. rewrite pretty_N_go_0. lia.
  - destruct (decide (x = 0)%N) as [->|Hne]; [rewrite pretty_N_go_0; lia|]. rewrite pretty_N_go_step by lia.
    specialize (IH (x `div` 10)%N (String (pretty_N_char (x `mod` 10)) s)). cbn [String.length] in IH.
    rewrite Nat2N.inj_succ, N.pow_succ_r' in Hx. assert (x `div` 10 < 10 ^ N.of_nat k)%N by (apply N.Div0.div_lt_upper_bound; lia). 
    specialize (IH ltac:(done)). lia.
Qed.

Lemma array_name_spelled et count : 0 <= count < 2 ^ 64 -> array_name et count = shown et +:+ "[" +:+ pretty (Z.to_N count) +:+ "]".
Proof.
  intros Hc. unfold array_name. rewrite snprintf_fits; [done|]. rewrite !length_str_app. cbn [String.length].
  assert (String.length (pretty (Z.to_N count)) <= 20)%nat as Hp; [|lia]. unfold pretty, pretty_N.
  destruct (decide _); [cbn; lia|]. change 20%nat with (20 + String.length "")%nat. apply pretty_N_go_length.
  change (10 ^ N.of_nat 20)%N with 100000000000000000000%N. lia.
Qed.

(** * Function pointers *)

Definition fn_able (s : TypeStore) (r : option nat) (ps : option (list (option nat))) (n : nat) : Prop :=
  is_Some r /\ exists l, default [] ps = Some <$> l /\ length l = n.

(** The type has the name asked for, and the parameters as well unless an
    earlier type already had that name. *)
Definition fn_good (s0 : TypeStore) (r : option nat) (ps : option (list (option nat))) (s : TypeStore) (a : nat) : Prop :=
  exists r' rt l pts t, r = Some r' /\ objects s0 !! r' = Some rt /\ default [] ps = Some <$> l /\
    Forall2 (fun a t => objects s0 !! a = Some t) l pts /\
    objects s !! a = Some t /\ key_fn_pointer t = Some (function_pointer_name rt pts) /\
    ((forall b tb, objects s0 !! b = Some tb -> key_fn_pointer tb = Some (function_pointer_name rt pts) -> tb = fn_pointer_of r' rt l pts) ->
     t = fn_pointer_of r' rt l pts).

Lemma objs_spec s l : Forall (valid s) l -> exists ts, objs s l = Ret ts /\ Forall2 (fun a t => objects s !! a = Some t) l ts.
Proof.
  induction 1 as [|a l Ha _ (ts & E & Hts)]; cbn [objs]; [by exists []|]. destruct (valid_lookup s a Ha) as [t Ht].
  rewrite (obj_Ret _ _ _ Ht). cbn [obind]. rewrite E. cbn [obind]. exists (t :: ts). split; [done|by constructor].
Qed.

Lemma mapM_id_Some {A} (l : list (option A)) k : mapM id l = Some k <-> l = Some <$> k.
Proof.
  rewrite mapM_Some. split.
  - induction 1 as [|x y l k H _ IH]; [done|]. cbn. unfold id in H. by rewrite H, IH.
  - intros ->. induction k as [|x k IH]; by constructor.
Qed.

Lemma fn_pointer_makes s h r ps n : wf s -> (forall a, r = Some a -> valid s a) ->
  (forall l, ps = Some l -> length l = n /\ Forall (fun t => match t with Some a => valid s a | None => True end) l) ->
  makes (mtlc_type_function_pointer r ps n s h) s h (fn_able s r ps n) (fn_good s r ps).
Proof.
  intros Hs Hr Hps. unfold mtlc_type_function_pointer. destruct r as [r|].
  2:{ apply makes_null; [done|]. intros [[? ?] _]. done. }
  destruct ((0 <? n)%nat && bool_decide (ps = None)) eqn:Eg.
  { apply makes_null; [done|]. apply andb_true_iff in Eg as [Hn%Nat.ltb_lt ->%bool_decide_eq_true]. intros [_ (l & El & Hl)].
    symmetry in El. apply fmap_nil_inv in El as ->. cbn in Hl. lia. }
  assert (length (default [] ps) = n /\ Forall (fun t => match t with Some a => valid s a | None => True end) (default [] ps)) as [Hlen Hval].
  { destruct ps as [l|]; [by apply Hps|]. split; [|by constructor]. rewrite bool_decide_true, andb_true_r in Eg by done.
    apply Nat.ltb_ge in Eg. cbn. lia. }
  rewrite take_ge by lia. destruct (mapM id (default [] ps)) as [l|] eqn:Em.
  2:{ apply makes_null; [done|]. intros [_ (l & El & _)]. apply mapM_id_Some in El. congruence. }
  apply mapM_id_Some in Em as El. rewrite El, length_fmap in Hlen. rewrite Hlen, Nat.eqb_refl. cbn [negb].
  destruct (valid_lookup s r (Hr r eq_refl)) as [rt Hrt]. rewrite (obj_Ret _ _ _ Hrt). cbn [obind].
  destruct (objs_spec s l) as (pts & -> & Hpts).
  { rewrite El in Hval. by apply Forall_fmap in Hval. }
  cbn [obind]. set (nm := function_pointer_name rt pts). apply makes_alloc; [done|]. intros h1 _.
  assert (fn_able s (Some r) ps n) as Hable by (split; [by exists r|by exists l]).
  destruct (composite_cache_spec s (named_fn_pointer nm) Hs) as (c & -> & Hc). cbn [obind]. destruct c as [a|].
  { destruct Hc as (t & Ht & _ & Hp). apply andb_true_iff in Hp as [Hk%bool_decide_eq_true Hnm%bool_decide_eq_true].
    assert (key_fn_pointer t = Some nm) as Hkey by (unfold key_fn_pointer; by rewrite Hk, bool_decide_true).
    apply makes_found; [done|done|done|]. exists r, rt, l, pts, t. do 6 (split; [done|]). intros Hno. by apply (Hno a). }
  apply makes_alloc; [done|]. intros h2 _.
  assert (forall h', heap_grants h' = heap_grants h2 -> makes (Ret (composite_cache_push (fn_pointer_of r rt l pts) s h')) s h' (fn_able s (Some r) ps n) (fn_good s (Some r) ps)) as Hpush.
  { intros h' _. apply makes_push; [done| | |done|done|].
    - apply built_fn_pointer; [by apply made_one|by apply made_valid].
    - split; [|split; [|split]]; try done. intros k a ta [= <-] Hta Hka. unfold key_fn_pointer in Hka. case_bool_decide as Hk; [|done].
      assert (is_composite ta = true) as Hcomp by (unfold is_composite; by rewrite Hk). pose proof (Hc a ta Hta Hcomp) as Hp.
      unfold named_fn_pointer in Hp. rewrite !bool_decide_true in Hp by done. done.
    - intros s' Es. exists r, rt, l, pts, (fn_pointer_of r rt l pts). do 4 (split; [done|]). split; [rewrite Es; by apply lookup_snoc; right|done]. }
  fold nm. change (mkType MTLC_TYPE_FUNCTION_POINTER (Some nm) 8 8 0 None 0 l (Some r) [] [] []) with (fn_pointer_of r rt l pts).
  destruct (0 <? n)%nat; [by apply makes_alloc|]. cbn [negb]. by apply Hpush.
Qed.

(** * Requests *)

Inductive request :=
| RPointer (base : option nat) (space : Z)
| RArray (element : option nat) (count : Z)
| RStruct (nm : option string) (names : option (list (option string))) (types : option (list (option nat))) (n : nat)
| RFnPointer (ret : option nat) (params : option (list (option nat))) (n : nat).

Definition build (q : request) (s : TypeStore) (h : heap) : outcome (option nat * TypeStore * heap) :=
  match q with
  | RPointer b space => mtlc_type_pointer_in b space s h
  | RArray e count => mtlc_type_array e count s h
  | RStruct nm names types n => mtlc_type_struct nm names types n s h
  | RFnPointer r ps n => mtlc_type_function_pointer r ps n s h
  end.

Definition pointers_valid (s : TypeStore) (l : list (option nat)) : Prop :=
  Forall (fun t => match t with Some a => valid s a | None => True end) l.

(** The pointers are null or point to types, and the arrays are as long as
    the caller says. *)
Definition proper (s : TypeStore) (q : request) : Prop :=
  match q with
  | RPointer b _ => pointers_valid s [b]
  | RArray e count => pointers_valid s [e] /\ in_u 64 count
  | RStruct _ names types n => names_fit names n /\ forall l, types = Some l -> length l = n /\ pointers_valid s l
  | RFnPointer r ps n => pointers_valid s [r] /\ forall l, ps = Some l -> length l = n /\ pointers_valid s l
  end.

(** The requests that can be met. *)
Definition sensible (s : TypeStore) (q : request) : Prop :=
  match q with
  | RPointer b space => is_Some b /\ 0 <= space <= 5
  | RArray e count => exists a et, e = Some a /\ objects s !! a = Some et /\ 0 < count /\ size et <> 0 /\ size et * count < 2 ^ 64
  | RStruct nm names types n => struct_able s nm names types n
  | RFnPointer r ps n => fn_able s r ps n
  end.

(** [a] is the type asked for; [s0] is the store the request was made to. *)
Definition answers (s0 : TypeStore) (q : request) (s : TypeStore) (a : nat) : Prop :=
  match q with
  | RPointer b space => exists c bt, b = Some c /\ objects s0 !! c = Some bt /\ objects s !! a = Some (pointer_of c bt (default_space space))
  | RArray e count => exists c et, e = Some c /\ objects s0 !! c = Some et /\ objects s !! a = Some (array_of c et count)
  | RStruct nm names types n => struct_good nm names types n s a
  | RFnPointer r ps n => fn_good s0 r ps s a
  end.

Lemma makes_weaken m s h able able' (good good' : TypeStore -> nat -> Prop) : makes m s h able good -> (able <-> able') ->
  (forall s' a, good s' a -> good' s' a) -> makes m s h able' good'.
Proof.
  intros (r & s' & h' & E & H1 & H2 & H3 & H4 & H5 & H6) Ha Hg. exists r, s', h'. do 4 (split; [done|]). split.
  - intros a Hr. destruct (H4 a Hr). split; [by apply Ha|by apply Hg].
  - split; [done|]. intros Hall Hb. apply H6; [done|by apply Ha].
Qed.

Lemma build_makes q s h : wf s -> proper s q -> makes (build q s h) s h (sensible s q) (answers s q).
Proof.
  intros Hs Hq. destruct q as [[b|] space|[e|] count|nm names types n|r ps n]; cbn in Hq |- *.
  - apply Forall_cons in Hq as [Hb _]. destruct (valid_lookup s b Hb) as [bt Hbt].
    eapply makes_weaken; [by apply pointer_in_makes| |].
    + split; [intros H; split; [by exists b|done]|by intros [_ ?]].
    + intros s' a H. by exists b, bt.
  - apply makes_null; [done|]. by intros [[? ?] _].
  - destruct Hq as [Hq Hc]. apply Forall_cons in Hq as [He _]. destruct (valid_lookup s e He) as [et Het].
    eapply makes_weaken; [apply array_makes; [done|done|apply Hc]| |].
    + split; [intros H; by exists e, et|]. intros (a & et' & [= <-] & Ha & H). by replace et with et' by congruence.
    + intros s' a H. by exists e, et.
  - apply makes_null; [done|]. by intros (? & ? & ? & _).
  - apply struct_makes; [done|apply Hq|apply Hq].
  - destruct Hq as [Hr Hps]. apply fn_pointer_makes; [done| |done]. intros a ->. by apply Forall_cons in Hr as [? _].
Qed.

(** C33: the constructors of machine types are well behaved.  From a
    well-formed store (one in which every type is built from earlier ones the
    way its kind says, and no two alike) each of them returns, leaves a
    well-formed store in which the types there before are untouched, and hands
    out null or the type asked for; null only for a request that makes no
    sense or when memory runs out, and then nothing has changed.  A function
    pointer is the type asked for in name; its result and parameters are those
    asked for if no earlier type of other ones prints the same name (otherwise
    that one is handed out: [mtlc_function_pointer_name_clash]). *)
Theorem mtlc_type_constructors q s h : wf s -> proper s q ->
  exists r s' h', build q s h = Ret (r, s', h') /\ wf s' /\ objects s `prefix_of` objects s' /\
    (forall a, r = Some a -> sensible s q /\ answers s q s' a) /\ (r = None -> s' = s) /\
    ((forall n, heap_grants h n = true) -> sensible s q -> r <> None).
Proof.
  intros Hs Hq. destruct (build_makes q s h Hs Hq) as (r & s' & h' & E & _ & H). by exists r, s', h'.
Qed.

(** * Asking again *)

Lemma prefix_get {A} (l l' : list A) i x : l `prefix_of` l' -> l !! i = Some x -> l' !! i = Some x.
Proof. intros Hp H. by eapply prefix_lookup_Some. Qed.

Lemma prefix_types s s' (ts : list nat) fts : objects s `prefix_of` objects s' ->
  Forall2 (fun a t => objects s !! a = Some t) ts fts -> Forall2 (fun a t => objects s' !! a = Some t) ts fts.
Proof. intros Hp H. eapply Forall2_impl; [exact H|]. intros a t. by apply prefix_get. Qed.

Lemma pointers_valid_grow s s' l : objects s `prefix_of` objects s' -> pointers_valid s l -> pointers_valid s' l.
Proof.
  intros Hp H. eapply Forall_impl; [exact H|]. intros [a|]; [|done]. unfold valid. intros Hl. apply prefix_length in Hp. lia.
Qed.

Lemma proper_grow s s' q : objects s `prefix_of` objects s' -> proper s q -> proper s' q.
Proof.
  intros Hp. pose proof (fun l => pointers_valid_grow s s' l Hp) as Hv. destruct q; cbn.
  - apply Hv.
  - intros [H ?]. split; [by apply Hv|done].
  - intros [H1 H2]. split; [done|]. intros l Hl. destruct (H2 l Hl). split; [done|by apply Hv].
  - intros [H1 H2]. split; [by apply Hv|]. intros l Hl. destruct (H2 l Hl). split; [done|by apply Hv].
Qed.

Lemma answers_grow s0 q s s' a : objects s `prefix_of` objects s' -> answers s0 q s a -> answers s0 q s' a.
Proof.
  intros Hp. destruct q; cbn.
  - intros (c & bt & H1 & H2 & H3). exists c, bt. split; [done|]. split; [done|]. by eapply prefix_get.
  - intros (c & bt & H1 & H2 & H3). exists c, bt. split; [done|]. split; [done|]. by eapply prefix_get.
  - intros (nm' & ts & fts & H1 & H2 & H3 & H4). exists nm', ts, fts. do 2 (split; [done|]). split; [by eapply prefix_types|by eapply prefix_get].
  - intros (r & rt & l & pts & t & H1 & H2 & H3 & H4 & H5 & H6). exists r, rt, l, pts, t. do 4 (split; [done|]). split; [by eapply prefix_get|done].
Qed.

Lemma key_of_struct nm names types fts : key_struct (struct_of nm names types fts) = Some nm.
Proof. destruct (struct_of_fields nm names types fts) as (Hk & Hn & _). unfold key_struct. by rewrite Hk, bool_decide_true. Qed.

(** Two types that answer the same request, made to a store and to a later
    one, are one type. *)
Lemma answers_unique q s0 s1 s a b : wf s -> objects s0 `prefix_of` objects s1 -> objects s1 `prefix_of` objects s ->
  answers s0 q s a -> answers s1 q s b -> a = b.
Proof.
  intros Hs H01 H1s. destruct q; cbn.
  - intros (c & bt & -> & Hc & Ha) (d & bt' & [= <-] & Hd & Hb). apply (prefix_get _ _ _ _ H01) in Hc. assert (bt' = bt) as -> by congruence.
    by apply (wf_unique_pointer _ Hs a b _ _ (c, default_space space) Ha Hb).
  - intros (c & et & -> & Hc & Ha) (d & et' & [= <-] & Hd & Hb). apply (prefix_get _ _ _ _ H01) in Hc. assert (et' = et) as -> by congruence.
    by apply (wf_unique_array _ Hs a b _ _ (c, count) Ha Hb).
  - intros (nm' & ts & fts & -> & _ & _ & Ha) (nm2 & ts2 & fts2 & [= <-] & _ & _ & Hb).
    exact (wf_unique_struct _ Hs a b _ _ nm' Ha Hb (key_of_struct _ _ _ _) (key_of_struct _ _ _ _)).
  - intros (r & rt & l & pts & t & -> & Hr & El & Hl & Ha & Hk & _) (r' & rt' & l' & pts' & t' & [= <-] & Hr' & El' & Hl' & Hb & Hk' & _).
    apply (prefix_get _ _ _ _ H01) in Hr. assert (rt' = rt) as -> by congruence. rewrite El in El'. apply (inj _) in El' as ->.
    apply (prefix_types _ _ _ _ H01) in Hl. rewrite (objects_functional _ _ _ _ Hl Hl') in Hk.
    exact (wf_unique_fn_pointer _ Hs a b _ _ _ Ha Hb Hk Hk').
Qed.

(** A request that has been answered still makes sense. *)
Lemma sensible_again q s0 s a : wf s -> objects s0 `prefix_of` objects s -> sensible s0 q -> answers s0 q s a -> sensible s q.
Proof.
  intros Hs Hp. destruct q; cbn.
  - done.
  - intros (c & et & -> & Hc & H) _. exists c, et. split; [done|]. split; [by eapply prefix_get|done].
  - intros (nm' & ts & fts & -> & Hnm & -> & Hn & Hl & Hts & Hsz & _) (nm2 & ts2 & fts2 & [= <-] & [= E%(inj _)] & H2 & Ha). subst ts2.
    exists nm', ts, fts. do 5 (split; [done|]). split; [by eapply prefix_types|]. split; [done|]. intros b t Hb Hk.
    assert (b = a) as -> by exact (wf_unique_struct _ Hs b a _ _ nm' Hb Ha Hk (key_of_struct _ _ _ _)).
    destruct (struct_of_fields nm' (names_of names n) ts fts2) as (_ & _ & H3 & H4 & _).
    rewrite Ha in Hb. injection Hb as <-. done.
  - done.
Qed.

(** C34: derived types are unique.  Once a constructor has handed out a type,
    asking for the same again, however many types have been made since, hands
    out that very object, so that types can be compared by address. *)
Theorem mtlc_type_asked_again q s h a s1 h1 s2 h2 : wf s -> proper s q -> build q s h = Ret (Some a, s1, h1) ->
  wf s2 -> objects s1 `prefix_of` objects s2 -> (forall n, heap_grants h2 n = true) ->
  exists s3 h3, build q s2 h2 = Ret (Some a, s3, h3).
Proof.
  intros Hs Hq E Hs2 Hp2 Hg. destruct (build_makes q s h Hs Hq) as (r & s' & h' & E' & _ & _ & Hp & Hok & _).
  rewrite E in E'. injection E' as <- <- <-. destruct (Hok a eq_refl) as [Hsens Hans].
  assert (objects s `prefix_of` objects s2) as Hp02 by (by etrans).
  destruct (build_makes q s2 h2 Hs2 (proper_grow _ _ _ Hp02 Hq)) as (r & s3 & h3 & E3 & _ & Hs3 & Hp3 & Hok3 & _ & Hsome).
  pose proof (answers_grow _ _ _ _ _ Hp2 Hans) as Hans2. destruct r as [b|].
  2:{ destruct (Hsome Hg); [|done]. exact (sensible_again q s s2 a Hs2 Hp02 Hsens Hans2). }
  destruct (Hok3 b eq_refl) as [_ Hb]. assert (a = b) as ->; [|by exists s3, h3].
  exact (answers_unique q s s2 s3 a b Hs3 Hp02 Hp3 (answers_grow _ _ _ _ _ Hp3 Hans2) Hb).
Qed.

(** * Struct layout *)

(** The least multiple of [a] from [off] on, and the layout without overflow:
    where the fields go and where the last one ends. *)
Definition round_up (a off : Z) : Z := off + - off mod a.

Fixpoint places (fs : list (Z * Z)) (off : Z) : list Z :=
  match fs with [] => [] | (sz, a) :: fs => round_up a off :: places fs (round_up a off + sz) end.

Fixpoint extent (fs : list (Z * Z)) (off : Z) : Z :=
  match fs with [] => off | (sz, a) :: fs => extent fs (round_up a off + sz) end.

Definition shape_ok (f : Z * Z) : Prop := 0 <= f.1 /\ 0 < f.2.

Lemma round_up_spec a off : 0 < a -> off <= round_up a off < off + a /\ (a | round_up a off).
Proof.
  intros Ha. unfold round_up. pose proof (Z.mod_pos_bound (- off) a Ha). split; [lia|]. apply Z.mod_divide; [lia|].
  rewrite Zplus_mod_idemp_r. by replace (off + - off) with 0 by lia.
Qed.

Lemma pad_to_round_up a off : 0 < a -> 0 <= off -> round_up a off < 2 ^ 64 -> pad_to a off = round_up a off.
Proof.
  intros Ha Ho Hr. unfold pad_to, round_up in *. pose proof (Z.mod_pos_bound off a Ha). destruct (Z.eqb_spec (off mod a) 0) as [E|E].
  - rewrite Z.mod_opp_l_z by lia. lia.
  - rewrite Z.mod_opp_l_nz in * by lia. apply wrapu_small. unfold in_u. lia.
Qed.

Lemma extent_ge fs : Forall shape_ok fs -> forall off, off <= extent fs off.
Proof.
  induction 1 as [|[sz a] fs [Hsz Ha] _ IH]; intros off; cbn [extent]; [lia|]. cbn in *. pose proof (round_up_spec a off Ha).
  specialize (IH (round_up a off + sz)). lia.
Qed.

Lemma lay_places fs : Forall shape_ok fs -> forall off al, 0 <= off -> extent fs off < 2 ^ 64 ->
  lay fs off al = (places fs off, extent fs off, foldl Z.max al fs.*2).
Proof.
  induction 1 as [|[sz a] fs [Hsz Ha] Hfs IH]; intros off al Ho He; cbn [lay places extent fmap list_fmap foldl]; [done|]. cbn in *.
  pose proof (round_up_spec a off Ha). pose proof (extent_ge fs Hfs (round_up a off + sz)).
  rewrite pad_to_round_up by lia. rewrite wrapu_small by (unfold in_u; lia). by rewrite IH by lia.
Qed.

Lemma places_spec fs : Forall shape_ok fs -> forall off i sz a, fs !! i = Some (sz, a) ->
  exists o, places fs off !! i = Some o /\ off <= o /\ (a | o) /\ o + sz <= extent fs off.
Proof.
  induction 1 as [|[sz a] fs [Hsz Ha] Hfs IH]; intros off i sz' a' H; [done|]. cbn in Hsz, Ha. pose proof (round_up_spec a off Ha).
  destruct i as [|i]; cbn [places extent].
  - injection H as -> ->. exists (round_up a' off). pose proof (extent_ge fs Hfs (round_up a' off + sz')). split; [done|]. split; [lia|]. split; [tauto|lia].
  - destruct (IH (round_up a off + sz) i sz' a' H) as (o & Ho & ? & ? & ?). exists o. split; [done|]. split; [lia|done].
Qed.

Lemma places_length fs : forall off, length (places fs off) = length fs.
Proof. induction fs as [|[sz a] fs IH]; intros off; cbn; [done|]. by rewrite IH. Qed.

Lemma places_apart fs : Forall shape_ok fs -> forall off i j sz a o p, (i < j)%nat -> fs !! i = Some (sz, a) ->
  places fs off !! i = Some o -> places fs off !! j = Some p -> o + sz <= p.
Proof.
  induction 1 as [|[sz a] fs [Hsz Ha] Hfs IH]; intros off i j sz' a' o p Hij Hi Ho Hp; [done|]. destruct j as [|j]; [lia|].
  cbn [places] in Ho, Hp. destruct i as [|i]; [|exact (IH _ i j sz' a' o p ltac:(lia) Hi Ho Hp)].
  injection Hi as -> ->. injection Ho as <-. change (places fs (round_up a' off + sz') !! j = Some p) in Hp.
  assert (exists f, fs !! j = Some f) as [[sz a] Hf].
  { apply lookup_lt_is_Some. apply lookup_lt_Some in Hp. by rewrite places_length in Hp. }
  destruct (places_spec fs Hfs (round_up a' off + sz') j sz a Hf) as (p' & Hp' & Hle & _).
  rewrite Hp' in Hp. injection Hp as ->. lia.
Qed.

(** Alignments are powers of two, at most eight. *)
Definition natural (a : Z) : Prop := a ∈ [1; 2; 4; 8].

Lemma natural_max a b : natural a -> natural b -> natural (Z.max a b).
Proof. intros Ha Hb. destruct (Z.max_spec a b) as [[_ ->]|[_ ->]]; done. Qed.

Lemma natural_divide a b : natural a -> natural b -> a <= b -> (a | b).
Proof.
  unfold natural. intros Ha Hb Hle. apply Z.mod_divide; repeat (apply elem_of_cons in Ha as [->|Ha]); try (by apply not_elem_of_nil in Ha); try done;
    repeat (apply elem_of_cons in Hb as [->|Hb]); try (by apply not_elem_of_nil in Hb); done.
Qed.

Lemma foldl_max_natural l : Forall natural l -> forall al, natural al -> natural (foldl Z.max al l).
Proof. induction 1 as [|a l Ha _ IH]; intros al Hal; cbn; [done|]. apply IH. by apply natural_max. Qed.

Lemma foldl_max_ge l : forall al, al <= foldl Z.max al l /\ forall a, a ∈ l -> a <= foldl Z.max al l.
Proof.
  induction l as [|b l IH]; intros al; cbn; [split; [lia|by intros a H%not_elem_of_nil]|]. destruct (IH (Z.max al b)) as [H1 H2].
  split; [lia|]. intros a [->|H]%elem_of_cons; [lia|by apply H2].
Qed.

Lemma one_if_zero_natural a : natural a -> natural (one_if_zero a).
Proof. unfold one_if_zero. destruct (a =? 0); [by left|done]. Qed.

Lemma wf_natural s : wf s -> forall i t, objects s !! i = Some t -> natural (alignment t).
Proof.
  intros Hs i. induction (lt_wf i) as [i _ IH]. intros t Ht.
  destruct (wf_built _ Hs _ _ Ht) as [t' H|b bt sp H ?|e et c H ? ? ?|nm names types fts H ? ? ? ?|r rt ps pts H H'].
  - assert (Forall (fun t => natural (alignment t)) k_scalars) as Hall by (unfold natural, k_scalars; repeat constructor).
    by eapply Forall_lookup_1 in Hall.
  - cbn. unfold natural. do 3 right. left.
  - apply Forall2_cons in H as [[Hlt He] _]. apply one_if_zero_natural. by apply (IH e Hlt).
  - assert (alignment (struct_of nm names types fts) = (lay (shape <$> fts) 0 1).2) as -> by (unfold struct_of; by destruct (lay _ 0 1) as [[os off] al]).
    assert (Forall natural (shape <$> fts).*2) as Hfs.
    { apply Forall_fmap, Forall_fmap. apply Forall_lookup. intros k ft Hk. destruct (Forall2_lookup_r _ _ _ _ _ H Hk) as (a & _ & Hlt & Ha).
      apply one_if_zero_natural. by apply (IH a Hlt). }
    assert (forall off al, natural al -> natural (lay (shape <$> fts) off al).2) as Hlay; [|apply Hlay; by left].
    clear Ht H. revert Hfs. generalize (shape <$> fts). intros l. induction l as [|[sz a] l IHl]; intros Hl off al Hal; cbn [lay]; [done|].
    cbn in Hl. apply Forall_cons in Hl as [Ha Hl]. specialize (IHl Hl (u64 (pad_to a off + sz)) (Z.max al a) (natural_max _ _ Hal Ha)).
    destruct (lay l _ _) as [[os off'] al']. exact IHl.
  - cbn. unfold natural. do 3 right. left.
Qed.

Lemma natural_pos a : natural a -> 1 <= a <= 8.
Proof. unfold natural. rewrite !elem_of_cons. intros [->|[->|[->|[->|H%not_elem_of_nil]]]]; done. Qed.

Lemma shape_natural ft : natural (alignment ft) -> shape ft = (size ft, alignment ft).
Proof. intros H%natural_pos. unfold shape, one_if_zero. destruct (Z.eqb_spec (alignment ft) 0); [lia|done]. Qed.

(** A struct whose fields end early enough, in terms of the ideal layout. *)
Lemma struct_of_places nm names types fts : Forall (fun ft => natural (alignment ft) /\ in_u 64 (size ft)) fts ->
  extent (shape <$> fts) 0 < 2 ^ 64 - 8 ->
  let t := struct_of nm names types fts in
  Forall shape_ok (shape <$> fts) /\ field_offsets t = places (shape <$> fts) 0 /\ natural (alignment t) /\
  size t = round_up (alignment t) (extent (shape <$> fts) 0) /\ forall ft, ft ∈ fts -> (alignment ft | alignment t).
Proof.
  intros Hf He. cbv zeta. set (fs := shape <$> fts) in *.
  assert (Forall shape_ok fs) as Hok.
  { apply Forall_fmap. eapply Forall_impl; [exact Hf|]. intros ft [Hn Hsz]. cbn. rewrite shape_natural by done.
    apply natural_pos in Hn. split; cbn; [apply Hsz|lia]. }
  assert (fs.*2 = alignment <$> fts) as E2.
  { unfold fs. rewrite <- list_fmap_compose. apply list_fmap_ext. intros i ft Hi. cbn. destruct (Forall_lookup_1 _ _ _ _ Hf Hi) as [Hn _].
    by apply (f_equal snd (shape_natural ft Hn)). }
  unfold struct_of. fold fs. rewrite lay_places by (done || lia). rewrite E2. cbn [size alignment field_offsets].
  assert (natural (foldl Z.max 1 (alignment <$> fts))) as Hnat.
  { apply foldl_max_natural; [|by left]. apply Forall_fmap. eapply Forall_impl; [exact Hf|]. by intros ft [? _]. }
  pose proof (natural_pos _ Hnat) as Hp. pose proof (extent_ge fs Hok 0).
  destruct (round_up_spec (foldl Z.max 1 (alignment <$> fts)) (extent fs 0)) as [Hru _]; [clear -Hp; lia|].
  split; [done|]. split; [done|]. split; [done|]. split; [apply pad_to_round_up; lia|]. intros ft Hin. apply natural_divide; [|done|].
  - by destruct (proj1 (Forall_forall _ _) Hf ft Hin).
  - apply foldl_max_ge. apply list_elem_of_fmap. by exists ft.
Qed.

(** The [i]th field of the struct lies at [o]. *)
Definition field_placed (t : MtlcType) (i : nat) (ft : MtlcType) (o : Z) : Prop :=
  mtlc_type_field_offset (Some t) (Z.of_nat i) = Ret o /\ (alignment ft | o) /\ (alignment ft | alignment t) /\ 0 <= o /\ o + size ft <= size t.

(** C35: structs are laid out soundly.  In any store, the size of a struct
    whose fields end below [2^64 - 8] is a multiple of its alignment, and the
    padding behind the last field is less than the alignment; every field lies
    at a multiple of its own alignment, which divides the struct's, inside
    the struct, and behind the fields before it. *)
Theorem mtlc_type_struct_layout s a t fts : wf s -> objects s !! a = Some t -> kind t = MTLC_TYPE_STRUCT ->
  Forall2 (fun f ft => objects s !! f = Some ft) (field_types t) fts -> extent (shape <$> fts) 0 < 2 ^ 64 - 8 ->
  (alignment t | size t) /\ size t < extent (shape <$> fts) 0 + alignment t /\
  exists os, length os = length fts /\ (forall i ft o, fts !! i = Some ft -> os !! i = Some o -> field_placed t i ft o) /\
    forall i j ft o p, (i < j)%nat -> fts !! i = Some ft -> os !! i = Some o -> os !! j = Some p -> o + size ft <= p.
Proof.
  intros Hs Ht Hk Hfts He. destruct (struct_built s a t Hs Ht Hk) as (nm & names & types & fts' & -> & Hts & _ & _ & _).
  destruct (struct_of_fields nm names types fts') as (_ & _ & _ & Eft & _). rewrite Eft in Hfts.
  rewrite (objects_functional _ _ _ _ Hts Hfts) in *. clear Hts fts'.
  assert (Forall (fun ft => natural (alignment ft) /\ in_u 64 (size ft)) fts) as Hf.
  { apply Forall_lookup. intros i ft Hi. destruct (Forall2_lookup_r _ _ _ _ _ Hfts Hi) as (f & _ & Hfo).
    split; [by apply (wf_natural s Hs f)|by apply (wf_bounds s Hs f)]. }
  destruct (struct_of_places nm names types fts Hf He) as (Hok & Eo & Hnat & Esz & Hdiv). set (t := struct_of nm names types fts) in *.
  pose proof (natural_pos _ Hnat). pose proof (round_up_spec (alignment t) (extent (shape <$> fts) 0) ltac:(lia)) as [Hru Hd].
  rewrite Esz. split; [done|]. split; [lia|]. exists (places (shape <$> fts) 0). rewrite places_length, length_fmap.
  assert (forall i ft, fts !! i = Some ft -> (shape <$> fts) !! i = Some (size ft, alignment ft)) as Hsh.
  { intros i ft Hi. rewrite list_lookup_fmap, Hi. cbn. f_equal. apply shape_natural. by destruct (Forall_lookup_1 _ _ _ _ Hf Hi). }
  split; [done|]. split.
  - intros i ft o Hi Ho. destruct (places_spec _ Hok 0 i _ _ (Hsh i ft Hi)) as (o' & Ho' & Hge & Hdo & Hend). assert (o' = o) as -> by congruence.
    split; [|split; [done|split; [apply Hdiv; by eapply list_elem_of_lookup_2|lia]]].
    unfold mtlc_type_field_offset. rewrite bool_decide_true by done. cbn [negb orb]. rewrite Eft, (Forall2_length _ _ _ Hfts).
    apply lookup_lt_Some in Hi as Hlt. destruct (Z.leb_spec (Z.of_nat (length fts)) (Z.of_nat i)); [lia|]. rewrite Eo. by apply get_nat.
  - intros i j ft o p Hij Hi Ho Hp. exact (places_apart _ Hok 0 i j _ _ o p Hij (Hsh i ft Hi) Ho Hp).
Qed.

(** * Examples *)

(** The store after some requests. *)
Definition served (s : TypeStore) (q : request) : TypeStore :=
  match build q s heap_unlimited with Ret (_, s', _) => s' | _ => s end.
Definition answer (s : TypeStore) (q : request) : option nat :=
  match build q s heap_unlimited with Ret (r, _, _) => r | _ => None end.

Lemma served_wf s q : wf s -> proper s q -> wf (served s q).
Proof. intros Hs Hq. destruct (build_makes q s heap_unlimited Hs Hq) as (r & s' & h' & E & _ & H & _). unfold served. by rewrite E. Qed.

Definition mixed_struct : request := RStruct (Some "mixed") (Some [Some "c"; Some "l"; None]) (Some [Some 0%nat; Some 3%nat; Some 1%nat]) 3.

Lemma mixed_struct_proper : proper store_start mixed_struct.
Proof.
  split; [done|]. intros l [= <-]. split; [done|]. unfold pointers_valid, valid. repeat constructor; cbn; lia.
Qed.

Lemma mtlc_type_constructors_witness : exists r s' h', build mixed_struct store_start heap_unlimited = Ret (r, s', h') /\ wf s'.
Proof.
  destruct (mtlc_type_constructors mixed_struct store_start heap_unlimited wf_start mixed_struct_proper) as (r & s' & h' & E & H & _).
  by exists r, s', h'.
Defined.

(** Asking for the struct again after a pointer to it has been made. *)
Lemma mtlc_type_asked_again_witness : exists s3 h3,
  build mixed_struct (served (served store_start mixed_struct) (RPointer (Some 15%nat) 2)) heap_unlimited = Ret (Some 15%nat, s3, h3).
Proof.
  apply (mtlc_type_asked_again mixed_struct store_start heap_unlimited 15 (served store_start mixed_struct) (mkHeap (heap_grants heap_unlimited) 9)).
  - apply wf_start.
  - apply mixed_struct_proper.
  - by vm_compute.
  - apply served_wf; [apply served_wf; [apply wf_start|apply mixed_struct_proper]|]. unfold proper, pointers_valid, valid. repeat constructor.
  - exists [pointer_of 15 (default (MTLC_SCALAR MTLC_TYPE_VOID "" 0 0) (objects (served store_start mixed_struct) !! 15%nat)) 2]. by vm_compute.
  - done.
Defined.

Lemma mtlc_type_struct_layout_witness : exists t, objects (served store_start mixed_struct) !! 15%nat = Some t /\ (alignment t | size t).
Proof.
  eexists. split; [by vm_compute|].
  eapply (mtlc_type_struct_layout (served store_start mixed_struct) 15 _
    (map (fun i => default (MTLC_SCALAR MTLC_TYPE_VOID "" 0 0) (k_scalars !! i)) [0; 3; 1]%nat)).
  - apply served_wf; [apply wf_start|apply mixed_struct_proper].
  - by vm_compute.
  - done.
  - repeat constructor.
  - by vm_compute.
Defined.

(** Pointers to [int32] by way of the global space, put together in either
    order, are different types of one name. *)
Definition global_pointers : TypeStore :=
  foldl served store_start [RPointer (Some 2%nat) 2; RPointer (Some 15%nat) 1; RPointer (Some 2%nat) 1; RPointer (Some 17%nat) 2].

(** A function that takes a pointer to a pointer into global memory and one
    that takes a pointer, kept in global memory, to a pointer get the same type,
    with the parameter of whichever was asked for first. *)
Lemma mtlc_function_pointer_name_clash :
  objects global_pointers !! 16%nat <> objects global_pointers !! 18%nat /\
  (forall q, q = RFnPointer (Some 14%nat) (Some [Some 16%nat]) 1 \/ q = RFnPointer (Some 14%nat) (Some [Some 18%nat]) 1 ->
   answer (served global_pointers (RFnPointer (Some 14%nat) (Some [Some 16%nat]) 1)) q = Some 19%nat) /\
  fn_param_types <$> objects (served global_pointers (RFnPointer (Some 14%nat) (Some [Some 16%nat]) 1)) !! 19%nat = Some [16%nat].
Proof. split; [by vm_compute|]. split; [|by vm_compute]. intros q [-> | ->]; by vm_compute. Qed.

(** The array constructor refuses a size beyond [size_t]; the struct
    constructor gives a struct of two such halves the size zero. *)
Lemma mtlc_type_struct_size_overflows :
  let half := served store_start (RArray (Some 0%nat) (2 ^ 63)) in
  answer store_start (RArray (Some 0%nat) (2 ^ 63)) = Some 15%nat /\
  answer half (RArray (Some 15%nat) 2) = None /\
  size <$> objects (served half (RStruct (Some "pair") None (Some [Some 15%nat; Some 15%nat]) 2)) !! 16%nat = Some 0.
Proof. by vm_compute. Qed.
End MachTypesProps.
