(* ===== verification/CallConv.v ===== *)
(** Where arguments are passed: src/src/codegen/binary/abi_spec.c for x86-64
    (the records are in internal.h) and src/src/codegen/binary/arm64_abi.c
    for AArch64.

    Registers are their numbers in the enumerations of the code.  The lists
    that stand for register tables are the whole arrays, of which a
    convention uses the first so many. *)
From S2P Require Import Prelude.
#[local] Open Scope Z_scope.

Module CallConv.

(** Addition of [int]s. *)
Definition signed32 (z : Z) : outcome Z := if (- 2 ^ 31 <=? z) && (z <? 2 ^ 31) then Ret z else Undef.

(** * x86-64 *)

Definition BINARY_GP_RCX : Z := 1.
Definition BINARY_GP_RDI : Z := 7.
Definition BINARY_FUNCTION_STACK_SLOT_SIZE : Z := 8.

Definition MS_X64_INT_PARAMS : list Z := [1; 2; 8; 9].
Definition MS_X64_FLOAT_PARAMS : list Z := [0; 1; 2; 3].
Definition SYSV_INT_PARAMS : list Z := [7; 6; 2; 1; 8; 9].
Definition SYSV_FLOAT_PARAMS : list Z := [0; 1; 2; 3; 4; 5; 6; 7].

Record BinaryAbi := mkAbi {
  int_param_registers : list Z;
  int_param_count : nat;
  float_param_registers : list Z;
  float_param_count : nat;
  shadow_space_size : Z;
  indirect_return_register : Z;
  counts_classes_separately : bool
}.

Definition MS_X64_ABI : BinaryAbi := mkAbi MS_X64_INT_PARAMS 4 MS_X64_FLOAT_PARAMS 4 32 BINARY_GP_RCX false.
Definition SYSV_ABI : BinaryAbi := mkAbi SYSV_INT_PARAMS 6 SYSV_FLOAT_PARAMS 8 0 BINARY_GP_RDI true.

(** ** The convention in use *)

Inductive abi_pointer := To_MS_X64_ABI | To_SYSV_ABI | To_g_described_abi.
Inductive BinaryTargetFormat := BINARY_TARGET_FORMAT_COFF_WIN64 | BINARY_TARGET_FORMAT_ELF_X64 | BINARY_TARGET_FORMAT_ELF_ARM64.

(** The two arrays live in the record that points to them. *)
Record AbiState := mkAbiState { g_active_abi : abi_pointer; g_described_abi : BinaryAbi; g_described_valid : bool }.

Definition abi_start : AbiState := mkAbiState To_MS_X64_ABI (mkAbi (replicate 16 0) 0 (replicate 16 0) 0 0 0 false) false.

(** Copying [n] registers to the front of an array. *)
Definition copy_registers (n : nat) (from to : list Z) : outcome (list Z) :=
  if (length from <? n)%nat then Undef else Ret (take n from ++ drop n to).

Definition code_generator_binary_describe_abi (int_regs : option (list Z)) (int_count : nat) (float_regs : option (list Z))
  (float_count : nat) (shadow_space indirect_return : Z) (separate_classes : bool) (st : AbiState) : outcome AbiState :=
  match int_regs, float_regs with
  | Some ir, Some fr =>
      if (int_count =? 0)%nat || (16 <? int_count)%nat || (float_count =? 0)%nat || (16 <? float_count)%nat then
        Ret (mkAbiState (g_active_abi st) (g_described_abi st) false)
      else
        let! irs := copy_registers int_count ir (int_param_registers (g_described_abi st)) in
        let! frs := copy_registers float_count fr (float_param_registers (g_described_abi st)) in
        Ret (mkAbiState (g_active_abi st) (mkAbi irs int_count frs float_count shadow_space indirect_return separate_classes) true)
  | _, _ => Ret (mkAbiState (g_active_abi st) (g_described_abi st) false)
  end.

Definition code_generator_binary_select_abi (format : BinaryTargetFormat) (st : AbiState) : AbiState :=
  let p :=
    if g_described_valid st then To_g_described_abi
    else match format with BINARY_TARGET_FORMAT_ELF_X64 => To_SYSV_ABI | _ => To_MS_X64_ABI end in
  mkAbiState p (g_described_abi st) (g_described_valid st).

Definition code_generator_binary_active_abi (st : AbiState) : BinaryAbi :=
  match g_active_abi st with
  | To_MS_X64_ABI => MS_X64_ABI
  | To_SYSV_ABI => SYSV_ABI
  | To_g_described_abi => g_described_abi st
  end.

(** ** Locations of arguments *)

Inductive BinaryArgLocationKind := BINARY_ARG_IN_GP_REGISTER | BINARY_ARG_IN_XMM_REGISTER | BINARY_ARG_ON_STACK.

Record BinaryArgLocation := mkLocation { loc_kind : BinaryArgLocationKind; gp_register : Z; xmm_register : Z; stack_offset : Z }.

(** Stores to some members of a location leave the others as they are. *)
Definition set_gp (r : Z) (l : BinaryArgLocation) : BinaryArgLocation :=
  mkLocation BINARY_ARG_IN_GP_REGISTER r (xmm_register l) (stack_offset l).
Definition set_xmm (r : Z) (l : BinaryArgLocation) : BinaryArgLocation :=
  mkLocation BINARY_ARG_IN_XMM_REGISTER (gp_register l) r (stack_offset l).
Definition set_stack (o : Z) (l : BinaryArgLocation) : BinaryArgLocation :=
  mkLocation BINARY_ARG_ON_STACK (gp_register l) (xmm_register l) o.

Record cursors := mkCursors { int_used : nat; float_used : nat; positional : nat; stack_cursor : Z }.

(** [slots] stack slots more. *)
Definition push_slots (slots : Z) (c : cursors) : outcome cursors :=
  let! cur := signed32 (stack_cursor c + i32 (u64 (slots * BINARY_FUNCTION_STACK_SLOT_SIZE))) in
  Ret (mkCursors (int_used c) (float_used c) (positional c) cur).

Definition next_position (c : cursors) : cursors := mkCursors (int_used c) (float_used c) (S (positional c)) (stack_cursor c).

(** One argument of a convention that counts the two classes separately. *)
Definition place_separately (abi : BinaryAbi) (wants_float : bool) (slots : Z) (l : BinaryArgLocation) (c : cursors) :
  outcome (BinaryArgLocation * cursors) :=
  if wants_float && (float_used c <? float_param_count abi)%nat then
    let! r := get (float_param_registers abi) (Z.of_nat (float_used c)) in
    Ret (set_xmm r l, mkCursors (int_used c) (S (float_used c)) (positional c) (stack_cursor c))
  else if negb wants_float && (int_used c <? int_param_count abi)%nat then
    let! r := get (int_param_registers abi) (Z.of_nat (int_used c)) in
    Ret (set_gp r l, mkCursors (S (int_used c)) (float_used c) (positional c) (stack_cursor c))
  else
    let! c' := push_slots slots c in
    Ret (set_stack (stack_cursor c) l, c').

(** One argument of a convention that goes by position. *)
Definition place_by_position (abi : BinaryAbi) (wants_float : bool) (l : BinaryArgLocation) (c : cursors) :
  outcome (BinaryArgLocation * cursors) :=
  let reg_count := int_param_count abi in
  let! (l, c) :=
    if (positional c <? reg_count)%nat then
      if wants_float then let! r := get (float_param_registers abi) (Z.of_nat (positional c)) in Ret (set_xmm r l, c)
      else let! r := get (int_param_registers abi) (Z.of_nat (positional c)) in Ret (set_gp r l, c)
    else
      let o := i32 (u64 ((Z.of_nat (positional c) - Z.of_nat reg_count) * BINARY_FUNCTION_STACK_SLOT_SIZE)) in
      let! e := signed32 (o + BINARY_FUNCTION_STACK_SLOT_SIZE) in
      Ret (set_stack o l, mkCursors (int_used c) (float_used c) (positional c) (if e >? stack_cursor c then e else stack_cursor c)) in
  Ret (l, next_position c).

Definition place_argument (abi : BinaryAbi) (wants_float wants_stack : bool) (slots : Z) (l : BinaryArgLocation) (c : cursors) :
  outcome (BinaryArgLocation * cursors) :=
  if wants_stack then
    let! c' := push_slots slots c in
    Ret (set_stack (stack_cursor c) l, next_position c')
  else if counts_classes_separately abi then place_separately abi wants_float slots l c
  else place_by_position abi wants_float l c.

(** An optional array, with a default for the case that it is null. *)
Definition get_or {A} (d : A) (l : option (list A)) (i : nat) : outcome A :=
  match l with None => Ret d | Some l => get l (Z.of_nat i) end.

(** The arguments from the [i]th on, [n] of them. *)
Fixpoint layout_args (abi : BinaryAbi) (is_float : list bool) (force_stack : option (list bool)) (stack_slots : option (list Z))
  (n i : nat) (locs : list BinaryArgLocation) (c : cursors) : outcome (list BinaryArgLocation * cursors) :=
  match n with
  | O => Ret (locs, c)
  | S n =>
      let! fl := get is_float (Z.of_nat i) in
      let! st := get_or false force_stack i in
      let! sl := get_or 0 stack_slots i in
      let slots := if sl >? 0 then sl else 1 in
      let! l := get locs (Z.of_nat i) in
      let! (l, c) := place_argument abi fl st slots l c in
      let! locs := put locs (Z.of_nat i) l in
      layout_args abi is_float force_stack stack_slots n (S i) locs c
  end.

(** The array of locations afterwards and the bytes of stack, or [None] for
    a failure. *)
Definition code_generator_binary_compute_arg_layout_ex (abi : option BinaryAbi) (is_float : option (list bool))
  (force_stack : option (list bool)) (stack_slots : option (list Z)) (count : nat) (locations : option (list BinaryArgLocation)) :
  outcome (option (list BinaryArgLocation * Z)) :=
  match abi with
  | None => Ret None
  | Some abi =>
      if (bool_decide (is_float = None) && (0 <? count)%nat) || (bool_decide (locations = None) && (0 <? count)%nat) then Ret None
      else
        let! (locs, c) := layout_args abi (default [] is_float) force_stack stack_slots count 0 (default [] locations) (mkCursors 0 0 0 0) in
        Ret (Some (locs, stack_cursor c))
  end.

Definition code_generator_binary_compute_arg_layout (abi : option BinaryAbi) (is_float : option (list bool)) (count : nat)
  (locations : option (list BinaryArgLocation)) : outcome (option (list BinaryArgLocation * Z)) :=
  code_generator_binary_compute_arg_layout_ex abi is_float None None count locations.

(** * AArch64 *)

Definition GP_ARG_REGS : list Z := [0; 1; 2; 3; 4; 5; 6; 7].
Definition VEC_ARG_REGS : list Z := [0; 1; 2; 3; 4; 5; 6; 7].
Definition GP_CALLEE_SAVED : list Z := [19; 20; 21; 22; 23; 24; 25; 26; 27; 28].
Definition GP_TEMPS : list Z := [9; 10; 11; 12; 13; 14; 15].
Definition VEC_VOLATILE : list Z := [0; 1; 2; 3; 4; 5; 6; 7].
Definition VEC_CALLEE_SAVED : list Z := [8; 9; 10; 11; 12; 13; 14; 15].

(** The table of argument registers is either constant or the one that
    [arm64_abi_set_gp_args] writes. *)
Inductive gp_pointer := To_GP_ARG_REGS | To_g_gp_args.

Record Arm64Abi := mkArmAbi {
  gp_arg_regs : gp_pointer;
  gp_arg_count : nat;
  vec_arg_regs : list Z;
  vec_arg_count : nat;
  indirect_result_reg : Z;
  stack_slot_bytes : Z;
  gp_callee_saved : list Z;
  gp_temps : list Z;
  vec_volatile : list Z;
  vec_callee_saved : list Z;
  fp : Z; lr : Z; sp : Z; scratch0 : Z; scratch1 : Z; platform : Z
}.

Definition AAPCS64 : Arm64Abi :=
  mkArmAbi To_GP_ARG_REGS 8 VEC_ARG_REGS 8 8 8 GP_CALLEE_SAVED GP_TEMPS VEC_VOLATILE VEC_CALLEE_SAVED 29 30 31 16 17 18.

(** Until the first use [g_abi] is all zero. *)
Record ArmState := mkArmState { g_gp_args : list Z; g_abi : option Arm64Abi }.

Definition arm_start : ArmState := mkArmState GP_ARG_REGS None.

Definition arm_regs (st : ArmState) (p : gp_pointer) : list Z := match p with To_GP_ARG_REGS => GP_ARG_REGS | To_g_gp_args => g_gp_args st end.

Definition with_gp_count (n : nat) (a : Arm64Abi) : Arm64Abi :=
  mkArmAbi (gp_arg_regs a) n (vec_arg_regs a) (vec_arg_count a) (indirect_result_reg a) (stack_slot_bytes a) (gp_callee_saved a)
    (gp_temps a) (vec_volatile a) (vec_callee_saved a) (fp a) (lr a) (sp a) (scratch0 a) (scratch1 a) (platform a).

Definition with_gp_regs (p : gp_pointer) (a : Arm64Abi) : Arm64Abi :=
  mkArmAbi p (gp_arg_count a) (vec_arg_regs a) (vec_arg_count a) (indirect_result_reg a) (stack_slot_bytes a) (gp_callee_saved a)
    (gp_temps a) (vec_volatile a) (vec_callee_saved a) (fp a) (lr a) (sp a) (scratch0 a) (scratch1 a) (platform a).

Definition arm64_abi (st : ArmState) : Arm64Abi * ArmState :=
  match g_abi st with
  | Some a => (a, st)
  | None =>
      let a := with_gp_count (length (g_gp_args st)) (with_gp_regs To_g_gp_args AAPCS64) in
      (a, mkArmState (g_gp_args st) (Some a))
  end.

(** Are the registers argument registers, no two alike? *)
Fixpoint gp_args_fit (seen regs : list Z) : bool :=
  match regs with
  | [] => true
  | r :: regs => if r >? 7 then false else if bool_decide (r ∈ seen) then false else gp_args_fit (seen ++ [r]) regs
  end.

(** [regs] has [count] cells. *)
Definition arm64_abi_set_gp_args (regs : option (list Z)) (count : Z) (st : ArmState) : outcome (bool * ArmState) :=
  match regs with
  | None => Ret (false, st)
  | Some regs =>
      if (count <? 1) || (count >? 8) then Ret (false, st)
      else
        let n := Z.to_nat count in
        if (length regs <? n)%nat then Undef
        else if negb (gp_args_fit [] (take n regs)) then Ret (false, st)
        else
          let (a, st) := arm64_abi st in
          Ret (true, mkArmState (take n regs ++ drop n (g_gp_args st)) (Some (with_gp_count n a)))
  end.

Definition arm64_abi_reset (st : ArmState) : ArmState :=
  let (a, st) := arm64_abi st in
  mkArmState (Z.of_nat <$> seq 0 8) (Some (with_gp_count 8 a)).

Definition arm64_reg_is_callee_saved (r : Z) : bool := ((19 <=? r) && (r <=? 28)) || (r =? 29).
Definition arm64_reg_is_volatile (r : Z) : bool := if (0 <=? r) && (r <=? 18) then true else r =? 30.

Definition arm64_reg_arg_index (r : Z) (st : ArmState) : Z * ArmState :=
  let (a, st) := arm64_abi st in
  (match list_find (fun x => x = r) (take (gp_arg_count a) (arm_regs st (gp_arg_regs a))) with Some (i, _) => Z.of_nat i | None => -1 end, st).

Definition arm64_reg_is_allocatable (r : Z) : bool :=
  if (r =? 31) || (r =? 29) || (r =? 30) then false
  else if (r =? 16) || (r =? 17) || (r =? 18) then false
  else r <=? 28.

Inductive Arm64ArgKind := ARM64_ARG_IN_GP_REGISTER | ARM64_ARG_IN_VEC_REGISTER | ARM64_ARG_ON_STACK.

Record Arm64ArgLocation := mkArmLocation { arm_kind : Arm64ArgKind; arm_reg : Z; arm_offset : Z }.

Definition arm_argument (st : ArmState) (abi : Arm64Abi) (is_float : bool) (gp_used vec_used : nat) (cursor : Z) :
  outcome (Arm64ArgLocation * nat * nat * Z) :=
  if is_float && (vec_used <? vec_arg_count abi)%nat then
    let! r := get (vec_arg_regs abi) (Z.of_nat vec_used) in
    Ret (mkArmLocation ARM64_ARG_IN_VEC_REGISTER r 0, gp_used, S vec_used, cursor)
  else if negb is_float && (gp_used <? gp_arg_count abi)%nat then
    let! r := get (arm_regs st (gp_arg_regs abi)) (Z.of_nat gp_used) in
    Ret (mkArmLocation ARM64_ARG_IN_GP_REGISTER r 0, S gp_used, vec_used, cursor)
  else
    let! cursor' := signed32 (cursor + stack_slot_bytes abi) in
    Ret (mkArmLocation ARM64_ARG_ON_STACK 31 cursor, gp_used, vec_used, cursor').

Fixpoint arm_layout (st : ArmState) (abi : Arm64Abi) (is_float : list bool) (n i : nat) (out : list Arm64ArgLocation) (gp_used vec_used : nat)
  (cursor : Z) : outcome (list Arm64ArgLocation * Z) :=
  match n with
  | O => Ret (out, cursor)
  | S n =>
      let! fl := get is_float (Z.of_nat i) in
      let! (l, gp_used, vec_used, cursor) := arm_argument st abi fl gp_used vec_used cursor in
      let! out := put out (Z.of_nat i) l in
      arm_layout st abi is_float n (S i) out gp_used vec_used cursor
  end.

Definition arm64_compute_arg_layout (is_float : option (list bool)) (count : Z) (out : option (list Arm64ArgLocation)) (st : ArmState) :
  outcome (option (list Arm64ArgLocation * Z) * ArmState) :=
  if (count <? 0) || ((count >? 0) && (bool_decide (is_float = None) || bool_decide (out = None))) then Ret (None, st)
  else
    let (abi, st) := arm64_abi st in
    let! (out, cursor) := arm_layout st abi (default [] is_float) (Z.to_nat count) 0 (default [] out) 0 0 0 in
    Ret (Some (out, cursor), st).
End CallConv.
