(* ===== verification/CallConvCorrect.v ===== *)
(** Arguments do not collide.

    A convention is the number of registers of either class and whether the
    classes are counted apart.  What it does to a list of arguments is
    specified without cursors: the register of an argument is its rank among
    the arguments of its class, its place on the stack the bytes of the ones
    before it.  Both layout functions meet the specification, and the
    specification alone shows that no two arguments share a place. *)
From S2P Require Import Prelude CallConv.
#[local] Open Scope Z_scope.

Module CallConvCorrect.
Import CallConv.

(** * The specification *)

(** An argument: is it a floating-point number, must it go on the stack, and
    how many slots does it take there? *)
Record arg := mkArg { a_float : bool; a_stack : bool; a_slots : Z }.

Record convention := mkConv { c_gp : nat; c_vec : nat; c_separate : bool }.

Inductive place := InGp (n : nat) | InVec (n : nat) | OnStack (off bytes : Z).

(** How many of the arguments compete for the registers of a class. *)
Definition rank (l : list arg) (fl : bool) : nat := length (filter (fun a => a_stack a = false /\ a_float a = fl) l).

Definition reg_of (c : convention) (before : list arg) (a : arg) : option place :=
  if a_stack a then None
  else
    let n := if c_separate c then rank before (a_float a) else length before in
    let limit := if c_separate c && a_float a then c_vec c else c_gp c in
    if (n <? limit)%nat then Some (if a_float a then InVec n else InGp n) else None.

Definition bytes (c : convention) (a : arg) : Z := if c_separate c then 8 * a_slots a else 8.

Definition stacked (c : convention) (before : list arg) (a : arg) : Z := match reg_of c before a with Some _ => 0 | None => bytes c a end.

Fixpoint stack_from (c : convention) (before args : list arg) : Z :=
  match args with [] => 0 | a :: args => stacked c before a + stack_from c (before ++ [a]) args end.

Definition stack_bytes (c : convention) (args : list arg) : Z := stack_from c [] args.

(** The place of an argument behind others. *)
Definition place_of (c : convention) (before : list arg) (a : arg) : place :=
  match reg_of c before a with Some p => p | None => OnStack (stack_bytes c before) (bytes c a) end.

(** A convention that goes by position cannot send an argument to the stack. *)
Definition sendable (c : convention) (args : list arg) : Prop :=
  Forall (fun a => 0 < a_slots a /\ (c_separate c = false -> a_stack a = false)) args.

Lemma reg_of_register c before a : match reg_of c before a with Some (OnStack _ _) => False | _ => True end.
Proof. unfold reg_of. destruct (a_stack a); [done|]. cbv zeta. destruct (_ <? _)%nat; [|done]. by destruct (a_float a). Qed.

(** ** What it promises *)

Lemma stack_from_app c args1 args2 : forall before, stack_from c before (args1 ++ args2) = stack_from c before args1 + stack_from c (before ++ args1) args2.
Proof.
  induction args1 as [|a l IH]; intros before; cbn [stack_from app]; [by rewrite app_nil_r|]. rewrite IH, <- app_assoc. cbn [app]. lia.
Qed.

Lemma stack_bytes_snoc c args a : stack_bytes c (args ++ [a]) = stack_bytes c args + stacked c args a.
Proof. unfold stack_bytes. rewrite stack_from_app. cbn [stack_from app]. lia. Qed.

Lemma bytes_pos c a : 0 < a_slots a -> 8 <= bytes c a /\ (8 | bytes c a).
Proof. intros H. unfold bytes. destruct (c_separate c); split; try lia; [by exists (a_slots a); lia|by exists 1]. Qed.

Lemma stacked_pos c before a : 0 < a_slots a -> 0 <= stacked c before a /\ (8 | stacked c before a).
Proof. intros H. unfold stacked. pose proof (bytes_pos c a H). destruct (reg_of c before a); [|split; [lia|tauto]]. split; [lia|by exists 0]. Qed.

Lemma stack_from_pos c args : Forall (fun a => 0 < a_slots a) args -> forall before, 0 <= stack_from c before args /\ (8 | stack_from c before args).
Proof.
  induction 1 as [|a l Ha _ IH]; intros before; cbn [stack_from]; [split; [lia|by exists 0]|]. destruct (IH (before ++ [a])).
  destruct (stacked_pos c before a Ha). split; [lia|by apply Z.divide_add_r].
Qed.

Lemma sendable_slots c args : sendable c args -> Forall (fun a => 0 < a_slots a) args.
Proof. intros H. eapply Forall_impl; [exact H|]. by intros a [? _]. Qed.

Lemma rank_app l k fl : rank (l ++ k) fl = (rank l fl + rank k fl)%nat.
Proof. unfold rank. by rewrite filter_app, length_app. Qed.

Lemma rank_one a fl : rank [a] fl = if negb (a_stack a) && eqb (a_float a) fl then 1%nat else 0%nat.
Proof. destruct a as [[] [] s], fl; done. Qed.

(** The arguments before a later one. *)
Lemma take_later {A} (l : list A) i j a : (i < j)%nat -> l !! i = Some a -> exists rest, take j l = take i l ++ a :: rest.
Proof.
  intros Hij Hi. exists (take (j - S i) (drop (S i) l)).
  rewrite <- (take_drop_middle l i a Hi) at 1. apply lookup_lt_Some in Hi. rewrite take_app, length_take, Nat.min_l by lia.
  rewrite take_take, Nat.min_r by lia. f_equal. replace (j - i)%nat with (S (j - S i)) by lia. done.
Qed.

(** Registers differ, and ranges of the stack do not overlap. *)
Definition apart (p q : place) : Prop :=
  match p, q with
  | InGp m, InGp n | InVec m, InVec n => m <> n
  | OnStack o s, OnStack o' _ => o + s <= o'
  | _, _ => True
  end.

Definition inside (total : Z) (p : place) : Prop := match p with OnStack o s => 0 <= o /\ (8 | o) /\ o + s <= total | _ => True end.

Lemma stack_bytes_grow c before a rest : sendable c (before ++ a :: rest) -> reg_of c before a = None ->
  stack_bytes c before + bytes c a <= stack_bytes c (before ++ a :: rest).
Proof.
  intros Hs Hr. unfold stack_bytes. rewrite stack_from_app. cbn [stack_from app]. unfold stacked. rewrite Hr.
  apply sendable_slots, Forall_app in Hs as [_ [_ Hs]%Forall_cons]. destruct (stack_from_pos c rest Hs (before ++ [a])). lia.
Qed.

Lemma places_differ c args i j a b : sendable c args -> (i < j)%nat -> args !! i = Some a -> args !! j = Some b ->
  apart (place_of c (take i args) a) (place_of c (take j args) b).
Proof.
  intros Hs Hij Ha Hb. destruct (take_later args i j a Hij Ha) as [rest E]. set (before := take i args) in *.
  assert (sendable c (before ++ a :: rest)) as Hs'.
  { unfold sendable in *. rewrite <- E. by apply Forall_take. }
  rewrite E. unfold place_of. destruct (reg_of c before a) as [p|] eqn:Ep.
  2:{ pose proof (reg_of_register c (before ++ a :: rest) b) as Hb'. destruct (reg_of c _ b) as [[]|]; try done. cbn. by apply stack_bytes_grow. }
  pose proof (reg_of_register c before a) as Ha'. rewrite Ep in Ha'.
  destruct (reg_of c (before ++ a :: rest) b) as [q|] eqn:Eq; [|by destruct p]. unfold reg_of in Ep, Eq.
  destruct (a_stack a) eqn:Eas; [done|]. destruct (a_stack b); [done|].
  assert ((rank before (a_float a) < rank (before ++ a :: rest) (a_float a))%nat) as Hr.
  { rewrite rank_app. change (a :: rest) with ([a] ++ rest). rewrite rank_app, rank_one, Eas, eqb_reflx. cbn [negb andb]. lia. }
  destruct (c_separate c); cbn [andb] in Ep, Eq.
  - destruct (rank before _ <? _)%nat; [|done]. destruct (rank (before ++ _) _ <? _)%nat; [|done].
    injection Ep as <-. injection Eq as <-. destruct (a_float a), (a_float b); cbn [apart]; try exact I; lia.
  - destruct (length before <? _)%nat; [|done]. destruct (length (before ++ _) <? _)%nat; [|done].
    injection Ep as <-. injection Eq as <-. rewrite length_app. destruct (a_float a), (a_float b); cbn [apart length]; try exact I; lia.
Qed.

Lemma place_inside c args i a : sendable c args -> args !! i = Some a -> inside (stack_bytes c args) (place_of c (take i args) a).
Proof.
  intros Hs Ha. unfold place_of. pose proof (take_drop_middle args i a Ha) as E. set (before := take i args) in *.
  destruct (reg_of c before a) as [p|] eqn:Ep.
  { pose proof (reg_of_register c before a) as Hr. rewrite Ep in Hr. by destruct p. }
  cbn. assert (Forall (fun a => 0 < a_slots a) before) as Hb by (apply Forall_take; by eapply sendable_slots).
  destruct (stack_from_pos c before Hb []) as [H1 H2]. split; [done|]. split; [done|]. 
  pose proof (stack_bytes_grow c before a (drop (S i) args)) as Hg. rewrite E in Hg. by apply Hg.
Qed.

(** * x86-64 *)

Definition convention_of (abi : BinaryAbi) : convention := mkConv (int_param_count abi) (float_param_count abi) (counts_classes_separately abi).

(** The registers of a convention that goes by position must reach as far in
    both classes. *)
Record abi_ok (abi : BinaryAbi) : Prop := {
  ok_gp : (int_param_count abi <= length (int_param_registers abi))%nat;
  ok_vec : (float_param_count abi <= length (float_param_registers abi))%nat;
  ok_pos : counts_classes_separately abi = false -> (int_param_count abi <= float_param_count abi)%nat;
  ok_gp_nodup : NoDup (take (int_param_count abi) (int_param_registers abi));
  ok_vec_nodup : NoDup (take (float_param_count abi) (float_param_registers abi))
}.

Definition located (abi : BinaryAbi) (l : BinaryArgLocation) (p : place) : Prop :=
  match p with
  | InGp n => loc_kind l = BINARY_ARG_IN_GP_REGISTER /\ (n < int_param_count abi)%nat /\ int_param_registers abi !! n = Some (gp_register l)
  | InVec n => loc_kind l = BINARY_ARG_IN_XMM_REGISTER /\ (n < float_param_count abi)%nat /\ float_param_registers abi !! n = Some (xmm_register l)
  | OnStack o _ => loc_kind l = BINARY_ARG_ON_STACK /\ stack_offset l = o
  end.

(** What the cursors hold behind some arguments. *)
Definition tracks (abi : BinaryAbi) (before : list arg) (c : cursors) : Prop :=
  stack_cursor c = stack_bytes (convention_of abi) before /\
  if counts_classes_separately abi then
    int_used c = Nat.min (rank before false) (int_param_count abi) /\ float_used c = Nat.min (rank before true) (float_param_count abi)
  else positional c = length before.

Lemma push_slots_Ret slots c : 0 < slots -> 0 <= stack_cursor c -> stack_cursor c + 8 * slots < 2 ^ 31 ->
  push_slots slots c = Ret (mkCursors (int_used c) (float_used c) (positional c) (stack_cursor c + 8 * slots)).
Proof.
  intros Hs Hc Hb. unfold push_slots, BINARY_FUNCTION_STACK_SLOT_SIZE.
  rewrite wrapu_small, wraps_small by (unfold in_u, in_s; lia). unfold signed32.
  replace (slots * 8) with (8 * slots) by lia. destruct (_ && _) eqn:E; [done|]. apply andb_false_iff in E as [E%Z.leb_gt|E%Z.ltb_ge]; lia.
Qed.

Lemma get_in {A} (l : list A) n : (n < length l)%nat -> exists x, l !! n = Some x /\ get l (Z.of_nat n) = Ret x.
Proof. intros [x Hx]%lookup_lt_is_Some. exists x. split; [done|by apply get_nat]. Qed.

Lemma rank_snoc l a fl : rank (l ++ [a]) fl = (rank l fl + if negb (a_stack a) && eqb (a_float a) fl then 1 else 0)%nat.
Proof. by rewrite rank_app, rank_one. Qed.

Lemma stacked_in_reg c before a p : reg_of c before a = Some p -> stacked c before a = 0.
Proof. intros H. unfold stacked. by rewrite H. Qed.
Lemma stacked_on_stack c before a : reg_of c before a = None -> stacked c before a = bytes c a.
Proof. intros H. unfold stacked. by rewrite H. Qed.
Lemma place_in_reg c before a p : reg_of c before a = Some p -> place_of c before a = p.
Proof. intros H. unfold place_of. by rewrite H. Qed.
Lemma place_on_stack c before a : reg_of c before a = None -> place_of c before a = OnStack (stack_bytes c before) (bytes c a).
Proof. intros H. unfold place_of. by rewrite H. Qed.

(** The stack so far, and with the next argument. *)
Lemma stack_room c before a : sendable c (before ++ [a]) -> 0 < a_slots a /\ 0 <= stack_bytes c before.
Proof.
  intros [Hs1 [Hs2 _]%Forall_cons]%sendable_slots%Forall_app. split; [done|]. apply (stack_from_pos _ _ Hs1).
Qed.

Section Step.
Context (abi : BinaryAbi) (Hok : abi_ok abi) (before : list arg) (a : arg) (l : BinaryArgLocation) (c : cursors).
#[local] Abbreviation conv := (convention_of abi).
Hypothesis Hc : tracks abi before c.
Hypothesis Hsend : sendable conv (before ++ [a]).
Hypothesis Hb : stack_bytes conv (before ++ [a]) < 2 ^ 31.

Definition places (m : outcome (BinaryArgLocation * cursors)) : Prop :=
  exists l' c', m = Ret (l', c') /\ tracks abi (before ++ [a]) c' /\ located abi l' (place_of conv before a).

(** On a convention that counts the classes apart, the cursors of the classes
    go up to their limits. *)
Lemma place_separately_spec : counts_classes_separately abi = true -> a_stack a = false ->
  places (place_separately abi (a_float a) (a_slots a) l c).
Proof using Hok Hc Hsend Hb.
  intros Hsep Hst. destruct Hc as [Hcur Hc']. rewrite Hsep in Hc'. destruct Hc' as [Hi Hf]. destruct (stack_room _ _ _ Hsend) as [Hsl H0].
  rewrite stack_bytes_snoc in Hb. unfold places, tracks. rewrite Hsep. rewrite stack_bytes_snoc, !rank_snoc, Hst.
  assert (reg_of conv before a = if (rank before (a_float a) <? if a_float a then float_param_count abi else int_param_count abi)%nat
    then Some (if a_float a then InVec (rank before (a_float a)) else InGp (rank before (a_float a))) else None) as Ereg.
  { unfold reg_of, convention_of. rewrite Hst. cbn. by rewrite Hsep. }
  assert (bytes conv a = 8 * a_slots a) as Ebytes by (unfold bytes, convention_of; cbn; by rewrite Hsep).
  unfold place_separately. destruct (a_float a) eqn:Efl; cbn [andb negb eqb].
  - destruct (Nat.ltb_spec (rank before true) (float_param_count abi)) as [Hr|Hr].
    + assert (float_used c = rank before true) as E by lia. rewrite (proj2 (Nat.ltb_lt _ _)) by lia.
      destruct (get_in (float_param_registers abi) (float_used c)) as (r & Hl & ->); [pose proof (ok_vec _ Hok); lia|]. cbn [obind].
      rewrite (stacked_in_reg _ _ _ _ Ereg), (place_in_reg _ _ _ _ Ereg). eexists _, _. split; [done|]. cbn. rewrite <- E.
      split; [|split; [done|split; [lia|done]]]. split; [lia|]. split; lia.
    + rewrite (proj2 (Nat.ltb_ge _ _)) by lia. rewrite (stacked_on_stack _ _ _ Ereg), (place_on_stack _ _ _ Ereg) in *. rewrite Ebytes in *.
      rewrite push_slots_Ret by lia. cbn [obind]. eexists _, _. split; [done|]. cbn. split; [|split; [done|lia]]. split; [lia|]. split; lia.
  - destruct (Nat.ltb_spec (rank before false) (int_param_count abi)) as [Hr|Hr].
    + assert (int_used c = rank before false) as E by lia. rewrite (proj2 (Nat.ltb_lt _ _)) by lia.
      destruct (get_in (int_param_registers abi) (int_used c)) as (r & Hl & ->); [pose proof (ok_gp _ Hok); lia|]. cbn [obind].
      rewrite (stacked_in_reg _ _ _ _ Ereg), (place_in_reg _ _ _ _ Ereg). eexists _, _. split; [done|]. cbn. rewrite <- E.
      split; [|split; [done|split; [lia|done]]]. split; [lia|]. split; lia.
    + rewrite (proj2 (Nat.ltb_ge _ _)) by lia. rewrite (stacked_on_stack _ _ _ Ereg), (place_on_stack _ _ _ Ereg) in *. rewrite Ebytes in *.
      rewrite push_slots_Ret by lia. cbn [obind]. eexists _, _. split; [done|]. cbn. split; [|split; [done|lia]]. split; [lia|]. split; lia.
Qed.

(** By position, the stack begins behind the registers. *)
Lemma place_by_position_spec : counts_classes_separately abi = false -> a_stack a = false ->
  stack_bytes conv before = 8 * Z.of_nat (length before - int_param_count abi) ->
  places (place_by_position abi (a_float a) l c).
Proof using Hok Hc Hsend Hb.
  intros Hsep Hst Hcount. destruct Hc as [Hcur Hpos]. rewrite Hsep in Hpos. destruct (stack_room _ _ _ Hsend) as [Hsl H0].
  rewrite stack_bytes_snoc in Hb. unfold places, tracks. rewrite Hsep, stack_bytes_snoc, length_app. cbn [length].
  assert (reg_of conv before a = if (length before <? int_param_count abi)%nat
    then Some (if a_float a then InVec (length before) else InGp (length before)) else None) as Ereg.
  { unfold reg_of, convention_of. rewrite Hst. cbn. by rewrite Hsep. }
  assert (bytes conv a = 8) as Ebytes by (unfold bytes, convention_of; cbn; by rewrite Hsep).
  unfold place_by_position. rewrite Hpos. pose proof (ok_pos _ Hok Hsep). pose proof (ok_vec _ Hok). pose proof (ok_gp _ Hok).
  destruct (Nat.ltb_spec (length before) (int_param_count abi)) as [Hr|Hr].
  - rewrite (stacked_in_reg _ _ _ _ Ereg), (place_in_reg _ _ _ _ Ereg). destruct (a_float a).
    + destruct (get_in (float_param_registers abi) (length before)) as (r & Hl & ->); [lia|]. cbn [obind]. eexists _, _. split; [done|]. cbn.
      split; [split; lia|]. split; [done|]. split; [lia|done].
    + destruct (get_in (int_param_registers abi) (length before)) as (r & Hl & ->); [lia|]. cbn [obind]. eexists _, _. split; [done|]. cbn.
      split; [split; lia|]. split; [done|]. split; [lia|done].
  - rewrite (stacked_on_stack _ _ _ Ereg), (place_on_stack _ _ _ Ereg) in *. rewrite Ebytes in *. unfold BINARY_FUNCTION_STACK_SLOT_SIZE.
    rewrite wrapu_small, wraps_small by (unfold in_u, in_s; lia). unfold signed32.
    rewrite (proj2 (andb_true_iff _ _)) by (split; [apply Z.leb_le|apply Z.ltb_lt]; lia). cbn [obind]. rewrite (proj2 (Z.gtb_lt _ _)) by lia.
    eexists _, _. split; [done|]. cbn. split; [split; lia|]. split; [done|lia].
Qed.
End Step.

Lemma stack_by_position c args : c_separate c = false -> sendable c args -> stack_bytes c args = 8 * Z.of_nat (length args - c_gp c).
Proof.
  intros Hsep. induction args as [|a args IH] using rev_ind; intros Hs; [cbn; by rewrite Nat.sub_0_l|].
  apply Forall_app in Hs as [Hs [[_ Ha] _]%Forall_cons]. rewrite stack_bytes_snoc, IH, length_app by done. cbn [length].
  unfold stacked, reg_of, bytes. rewrite Hsep, Ha by done. cbn [andb]. cbv zeta. destruct (Nat.ltb_spec (length args) (c_gp c)); lia.
Qed.

Lemma stack_bytes_prefix c before after : sendable c (before ++ after) -> stack_bytes c before <= stack_bytes c (before ++ after).
Proof.
  intros Hs. apply sendable_slots, Forall_app in Hs as [_ Hs]. unfold stack_bytes. rewrite stack_from_app.
  destruct (stack_from_pos c after Hs ([] ++ before)). lia.
Qed.

(** The arguments that the arrays of the call describe. *)
Definition describes (is_float : list bool) (force_stack : option (list bool)) (stack_slots : option (list Z)) (args : list arg) : Prop :=
  forall i a, args !! i = Some a -> is_float !! i = Some (a_float a) /\ get_or false force_stack i = Ret (a_stack a) /\
    exists n, get_or 0 stack_slots i = Ret n /\ a_slots a = if n >? 0 then n else 1.

Lemma place_argument_spec abi before a l c : abi_ok abi -> tracks abi before c -> sendable (convention_of abi) (before ++ [a]) ->
  stack_bytes (convention_of abi) (before ++ [a]) < 2 ^ 31 ->
  places abi before a (place_argument abi (a_float a) (a_stack a) (a_slots a) l c).
Proof.
  intros Hok Hc Hsend Hb. unfold place_argument. destruct (stack_room _ _ _ Hsend) as [Hsl H0].
  pose proof (proj1 (Forall_app _ _ _) Hsend) as [Hsend1 [[_ Hfree] _]%Forall_cons]. cbn [convention_of c_separate] in Hfree.
  destruct (a_stack a) eqn:Est.
  - destruct (counts_classes_separately abi) eqn:Hsep; [|by specialize (Hfree eq_refl)].
    assert (reg_of (convention_of abi) before a = None) as Ereg by (unfold reg_of; by rewrite Est).
    destruct Hc as [Hcur Hc]. rewrite Hsep in Hc. rewrite stack_bytes_snoc, (stacked_on_stack _ _ _ Ereg) in Hb.
    assert (bytes (convention_of abi) a = 8 * a_slots a) as Ebytes by (unfold bytes, convention_of; cbn; by rewrite Hsep).
    rewrite push_slots_Ret by lia. cbn [obind]. eexists _, _. split; [done|]. unfold tracks. rewrite Hsep.
    rewrite stack_bytes_snoc, (stacked_on_stack _ _ _ Ereg), !rank_snoc, Est, (place_on_stack _ _ _ Ereg). cbn.
    split; [|done]. split; [lia|]. split; lia.
  - destruct (counts_classes_separately abi) eqn:Hsep; [by apply place_separately_spec|]. apply place_by_position_spec; try done.
    by apply stack_by_position.
Qed.

Lemma layout_args_spec abi is_float fs ss args : abi_ok abi -> describes is_float fs ss args -> sendable (convention_of abi) args ->
  stack_bytes (convention_of abi) args < 2 ^ 31 -> forall after before locs c, args = before ++ after -> (length args <= length locs)%nat ->
  tracks abi before c ->
  exists locs' c', layout_args abi is_float fs ss (length after) (length before) locs c = Ret (locs', c') /\ length locs' = length locs /\
    (forall k, (k < length before)%nat -> locs' !! k = locs !! k) /\ tracks abi args c' /\
    (forall k a, (length before <= k)%nat -> args !! k = Some a ->
       exists l, locs' !! k = Some l /\ located abi l (place_of (convention_of abi) (take k args) a)).
Proof.
  intros Hok Hd Hsend Hb. induction after as [|a after IH]; intros before locs c Eargs Hlen Hc; cbn [layout_args length].
  { rewrite app_nil_r in Eargs. subst before. exists locs, c. do 4 (split; [done|]). intros k a Hk Ha. apply lookup_lt_Some in Ha. lia. }
  assert (args !! length before = Some a) as Ha by (rewrite Eargs; by rewrite lookup_app_r, Nat.sub_diag).
  destruct (Hd _ _ Ha) as (Hfl & Hst & n & Hn & Hsl). rewrite (get_nat _ _ _ Hfl), Hst, Hn. cbn [obind]. rewrite <- Hsl.
  apply lookup_lt_Some in Ha as Hlt. destruct (get_in locs (length before)) as (l & _ & ->); [lia|]. cbn [obind].
  assert (args = (before ++ [a]) ++ after) as Eargs' by (by rewrite <- app_assoc).
  destruct (place_argument_spec abi before a l c Hok Hc) as (l' & c' & -> & Hc' & Hl').
  { rewrite Eargs' in Hsend. by apply Forall_app in Hsend as [? _]. }
  { rewrite Eargs' in Hsend, Hb. pose proof (stack_bytes_prefix _ _ _ Hsend). lia. }
  cbn [obind]. rewrite put_nat by lia. cbn [obind].
  destruct (IH (before ++ [a]) (<[length before := l']> locs) c' Eargs') as (locs' & c2 & E & H1 & H2 & H3 & H4); [by rewrite length_insert|done|].
  rewrite length_app, Nat.add_1_r in *. exists locs', c2. split; [done|]. rewrite H1, length_insert. split; [done|]. split.
  { intros k Hk. rewrite H2 by lia. by rewrite list_lookup_insert_ne by lia. }
  split; [done|]. intros k b Hk Hbk. destruct (decide (k = length before)) as [->|Hne]; [|apply H4; [lia|done]].
  exists l'. split; [rewrite H2 by lia; apply list_lookup_insert_eq; lia|].
  assert (b = a) as -> by congruence. by rewrite Eargs, take_app_length.
Qed.

(** Two locations that hold something of each other's. *)
Definition clash (l : BinaryArgLocation) (n : Z) (l' : BinaryArgLocation) (n' : Z) : Prop :=
  match loc_kind l, loc_kind l' with
  | BINARY_ARG_IN_GP_REGISTER, BINARY_ARG_IN_GP_REGISTER => gp_register l = gp_register l'
  | BINARY_ARG_IN_XMM_REGISTER, BINARY_ARG_IN_XMM_REGISTER => xmm_register l = xmm_register l'
  | BINARY_ARG_ON_STACK, BINARY_ARG_ON_STACK => stack_offset l < stack_offset l' + n' /\ stack_offset l' < stack_offset l + n
  | _, _ => False
  end.

Lemma located_apart abi l p n l' p' n' : abi_ok abi -> located abi l p -> located abi l' p' -> apart p p' ->
  (forall o s, p = OnStack o s -> s = n) -> ~ clash l n l' n'.
Proof.
  intros Hok Hl Hl' Ha Hn Hcl. unfold clash in Hcl.
  destruct p as [k|k|o s], p' as [k'|k'|o' s']; cbn in *; destruct Hl as [Ek Hl]; destruct Hl' as [Ek' Hl']; rewrite Ek, Ek' in Hcl; try done.
  - apply Ha. destruct Hl as [Hk Hl], Hl' as [Hk' Hl']. apply (NoDup_lookup _ _ _ (gp_register l) (ok_gp_nodup _ Hok)).
    + by rewrite lookup_take_lt.
    + rewrite lookup_take_lt by done. by rewrite Hcl.
  - apply Ha. destruct Hl as [Hk Hl], Hl' as [Hk' Hl']. apply (NoDup_lookup _ _ _ (xmm_register l) (ok_vec_nodup _ Hok)).
    + by rewrite lookup_take_lt.
    + rewrite lookup_take_lt by done. by rewrite Hcl.
  - rewrite <- (Hn o s eq_refl) in Hcl. lia.
Qed.

Lemma place_of_stack c before a o s : place_of c before a = OnStack o s -> s = bytes c a.
Proof.
  unfold place_of. pose proof (reg_of_register c before a) as H. destruct (reg_of c before a) as [[]|]; try done. by intros [= _ <-].
Qed.

(** C15: the x86-64 argument layout.  Take a convention whose tables are long
    enough and name no register twice, and which, if it goes by position, has
    no more integer registers than float ones; and arguments of at least one
    slot that, under a convention that goes by position, are not forced to the
    stack.  (Both built-in conventions are such; one described for a target
    need not be, and then arguments can share a register:
    [described_positional_arguments_clash].)  The layout gives every argument
    the register of its rank (in its class, or by position), or a place on the
    stack behind the arguments that went there before it; it reports exactly
    the bytes of stack used, and no two arguments share a register or a byte. *)
Theorem arg_layout_correct abi is_float fs ss args locs : abi_ok abi -> describes is_float fs ss args ->
  sendable (convention_of abi) args -> stack_bytes (convention_of abi) args < 2 ^ 31 -> (length args <= length locs)%nat ->
  exists locs', code_generator_binary_compute_arg_layout_ex (Some abi) (Some is_float) fs ss (length args) (Some locs) =
      Ret (Some (locs', stack_bytes (convention_of abi) args)) /\
    (forall i a, args !! i = Some a -> exists l, locs' !! i = Some l /\ located abi l (place_of (convention_of abi) (take i args) a) /\
       inside (stack_bytes (convention_of abi) args) (place_of (convention_of abi) (take i args) a)) /\
    (forall i j a b la lb, (i < j)%nat -> args !! i = Some a -> args !! j = Some b -> locs' !! i = Some la -> locs' !! j = Some lb ->
       ~ clash la (bytes (convention_of abi) a) lb (bytes (convention_of abi) b)).
Proof.
  intros Hok Hd Hsend Hb Hlen. unfold code_generator_binary_compute_arg_layout_ex. rewrite !bool_decide_false by done. cbn [andb orb].
  change (default [] (Some is_float)) with is_float. change (default [] (Some locs)) with locs.
  destruct (layout_args_spec abi is_float fs ss args Hok Hd Hsend Hb args [] locs (mkCursors 0 0 0 0)) as (locs' & c' & E & _ & _ & [Hcur _] & Hl);
    [done|done| |].
  { split; [done|]. destruct (counts_classes_separately abi); [by split|done]. }
  cbn [length] in E. rewrite E. cbn [obind]. rewrite Hcur. exists locs'. split; [done|]. split.
  - intros i a Ha. destruct (Hl i a (Nat.le_0_l i) Ha) as (l & H1 & H2). exists l. split; [done|]. split; [done|]. by apply place_inside.
  - intros i j a b la lb Hij Ha Hb' Hla Hlb. destruct (Hl i a (Nat.le_0_l i) Ha) as (l & H1 & H2). destruct (Hl j b (Nat.le_0_l j) Hb') as (l2 & H3 & H4).
    assert (l = la) as -> by congruence. assert (l2 = lb) as -> by congruence.
    apply (located_apart _ _ _ _ _ _ _ Hok H2 H4); [by apply places_differ|]. intros o s. apply place_of_stack.
Qed.

Lemma abi_ok_built_in abi : abi = MS_X64_ABI \/ abi = SYSV_ABI -> abi_ok abi.
Proof. intros [-> | ->]; (split; [cbn; lia|cbn; lia|cbn; intros; lia|..]); apply (bool_decide_unpack _); by vm_compute. Qed.

(** Seven integers, a number in between, and an aggregate of three slots under
    the System V convention. *)
Definition many_args : list arg :=
  [mkArg false false 1; mkArg true false 1; mkArg false true 3] ++ replicate 6 (mkArg false false 1).

Lemma arg_layout_correct_witness : exists locs',
  code_generator_binary_compute_arg_layout_ex (Some SYSV_ABI) (Some (a_float <$> many_args)) (Some (a_stack <$> many_args))
    (Some (a_slots <$> many_args)) 9 (Some (replicate 9 (mkLocation BINARY_ARG_IN_GP_REGISTER 0 0 0))) = Ret (Some (locs', 32)).
Proof.
  destruct (arg_layout_correct SYSV_ABI (a_float <$> many_args) (Some (a_stack <$> many_args)) (Some (a_slots <$> many_args)) many_args
    (replicate 9 (mkLocation BINARY_ARG_IN_GP_REGISTER 0 0 0))) as (locs' & E & _).
  - apply abi_ok_built_in. by right.
  - intros i a Ha. rewrite list_lookup_fmap, Ha. split; [done|]. cbn [get_or].
    rewrite (get_nat (a_stack <$> many_args) i (a_stack a)), (get_nat (a_slots <$> many_args) i (a_slots a)) by (by rewrite list_lookup_fmap, Ha).
    split; [done|]. exists (a_slots a). split; [done|]. do 9 (destruct i as [|i]; [injection Ha as <-; done|]). done.
  - repeat constructor; by intros [=].
  - by vm_compute.
  - by vm_compute.
  - by exists locs'.
Defined.

(** A convention described for a target may go by position and have fewer
    registers for numbers than for integers; then an argument takes its
    register from the unused part of the table and shares it with another. *)
Lemma described_positional_arguments_clash : exists st,
  code_generator_binary_describe_abi (Some [7; 6; 2; 1; 8; 9]) 6 (Some [0; 1; 2; 3]) 4 0 7 false abi_start = Ret st /\
  (let! r := code_generator_binary_compute_arg_layout (Some (code_generator_binary_active_abi (code_generator_binary_select_abi BINARY_TARGET_FORMAT_ELF_X64 st)))
     (Some (replicate 6 true)) 6 (Some (replicate 6 (mkLocation BINARY_ARG_ON_STACK 0 0 0))) in
   Ret (option_map (fun r => xmm_register <$> r.1) r)) = Ret (Some [0; 1; 2; 3; 0; 0]).
Proof. eexists. split; [by vm_compute|by vm_compute]. Qed.

(** * AArch64 *)

(** The registers that carry integer arguments at present. *)
Definition gp_registers (st : ArmState) : list Z := let (a, st) := arm64_abi st in take (gp_arg_count a) (arm_regs st (gp_arg_regs a)).

Definition arm_of (n : nat) : Arm64Abi :=
  mkArmAbi To_g_gp_args n VEC_ARG_REGS 8 8 8 GP_CALLEE_SAVED GP_TEMPS VEC_VOLATILE VEC_CALLEE_SAVED 29 30 31 16 17 18.

(** The states that calls of the interface lead to. *)
Inductive arm_reachable : ArmState -> Prop :=
| arm_reach_start : arm_reachable arm_start
| arm_reach_touch st : arm_reachable st -> arm_reachable (arm64_abi st).2
| arm_reach_set regs count b st st' : arm_reachable st -> arm64_abi_set_gp_args regs count st = Ret (b, st') -> arm_reachable st'
| arm_reach_reset st : arm_reachable st -> arm_reachable (arm64_abi_reset st).

(** Registers an integer argument may be in, no two alike. *)
Definition argument_registers (l : list Z) : Prop := l <> [] /\ (length l <= 8)%nat /\ NoDup l /\ Forall (fun r => r <= 7) l.

Record arm_ok (st : ArmState) : Prop := {
  arm_len : length (g_gp_args st) = 8%nat;
  arm_abi : forall a, g_abi st = Some a -> exists n, a = arm_of n /\ (n <= 8)%nat;
  arm_args : argument_registers (gp_registers st)
}.

Lemma gp_args_fit_spec regs : forall seen, NoDup seen -> gp_args_fit seen regs = true <-> NoDup (seen ++ regs) /\ Forall (fun r => r <= 7) regs.
Proof.
  induction regs as [|r regs IH]; intros seen Hs; cbn [gp_args_fit].
  { rewrite app_nil_r. split; [intros _; split; [done|constructor]|done]. }
  rewrite Forall_cons. destruct (Z.gtb_spec r 7) as [Hr|Hr].
  { split; [done|]. intros [_ [? _]]. lia. }
  case_bool_decide as Hin.
  { split; [done|]. intros [(_ & Hn & _)%NoDup_app _]. exfalso. apply (Hn r Hin). left. }
  rewrite IH, <- app_assoc; [cbn [app]; tauto|].
  apply NoDup_app. split; [done|]. split; [|apply NoDup_singleton]. intros x Hx ->%list_elem_of_singleton. done.
Qed.

Lemma arm64_abi_ok st : arm_ok st -> arm_ok (arm64_abi st).2 /\ exists n, arm64_abi st = (arm_of n, mkArmState (g_gp_args st) (Some (arm_of n))) /\
  (n <= 8)%nat /\ gp_registers (arm64_abi st).2 = gp_registers st /\ gp_registers st = take n (g_gp_args st).
Proof.
  intros [Hl Ha Hr]. unfold gp_registers, arm64_abi in *. destruct st as [l [a|]]; cbn in *.
  - destruct (Ha a eq_refl) as (n & -> & Hn). split; [by split|]. by exists n.
  - split; [|exists (length l); repeat split; lia]. split; [done| |exact Hr]. cbn. intros a [= <-]. exists (length l). split; [done|lia].
Qed.

Lemma arm_ok_start : arm_ok arm_start.
Proof.
  split; [done|done|]. split; [done|]. split; [cbn; lia|]. split; [apply (bool_decide_unpack _); by vm_compute|]. repeat constructor; lia.
Qed.

(** What setting the registers does. *)
Lemma set_gp_args_spec l count st : arm_ok st -> (1 <= count <= 8 -> (Z.to_nat count <= length l)%nat) ->
  exists b st', arm64_abi_set_gp_args (Some l) count st = Ret (b, st') /\ arm_ok st' /\
    (b = true <-> 1 <= count <= 8 /\ argument_registers (take (Z.to_nat count) l)) /\
    gp_registers st' = if b then take (Z.to_nat count) l else gp_registers st.
Proof.
  intros Hok Hlen. unfold arm64_abi_set_gp_args. destruct ((count <? 1) || (count >? 8)) eqn:Ec.
  { exists false, st. split; [done|]. split; [done|]. split; [|done]. split; [done|]. intros [H _].
    apply orb_true_iff in Ec as [Ec%Z.ltb_lt|Ec%Z.gtb_lt]; lia. }
  apply orb_false_iff in Ec as [Ec1%Z.ltb_ge Ec2]. rewrite Z.gtb_ltb in Ec2. apply Z.ltb_ge in Ec2. specialize (Hlen ltac:(lia)).
  rewrite (proj2 (Nat.ltb_ge _ _)) by done. pose proof (gp_args_fit_spec (take (Z.to_nat count) l) [] ltac:(constructor)) as Hfit.
  assert (length (take (Z.to_nat count) l) = Z.to_nat count) as El by (rewrite length_take; lia).
  destruct (gp_args_fit [] _); cbn [negb].
  - destruct (proj1 Hfit eq_refl) as [Hn H7]. cbn [app] in Hn. destruct (arm64_abi_ok st Hok) as [[Hl' _ _] (n & -> & Hn8 & _)].
    assert (gp_registers (mkArmState (take (Z.to_nat count) l ++ drop (Z.to_nat count) (g_gp_args st)) (Some (arm_of (Z.to_nat count)))) = take (Z.to_nat count) l) as Egp.
    { unfold gp_registers. cbn. rewrite take_app_le, take_take, Nat.min_id by lia. done. }
    assert (argument_registers (take (Z.to_nat count) l)) as Hregs.
    { split; [|split; [lia|done]]. intros E. rewrite E in El. cbn in El. lia. }
    eexists true, _. split; [done|]. split; [split|].
    + cbn. rewrite length_app, El, length_drop, (arm_len _ Hok). lia.
    + cbn. intros a [= <-]. exists (Z.to_nat count). split; [done|lia].
    + exact (eq_ind_r argument_registers Hregs Egp).
    + split; [|exact Egp]. split; [done|]. by intros _.
  - exists false, st. split; [done|]. split; [done|]. split; [|done]. split; [done|]. intros [_ (_ & _ & Hn & H7)]. by apply Hfit.
Qed.

Lemma arm_reachable_ok st : arm_reachable st -> arm_ok st.
Proof.
  induction 1 as [|st _ IH|regs count b st st' _ IH E|st _ IH]; [apply arm_ok_start|by apply arm64_abi_ok| |].
  - destruct regs as [l|]; [|cbn in E; congruence]. destruct (decide (1 <= count <= 8 /\ (length l < Z.to_nat count)%nat)) as [[Hc Hl]|Hc].
    { unfold arm64_abi_set_gp_args in E. destruct (_ || _) eqn:Eo in E; [congruence|]. by rewrite (proj2 (Nat.ltb_lt _ _)) in E by done. }
    destruct (set_gp_args_spec l count st IH) as (b' & s2 & E2 & H & _); [lia|]. congruence.
  - unfold arm64_abi_reset. destruct (arm64_abi_ok st IH) as [_ (n & -> & _)]. split; [done| |].
    + cbn. intros a [= <-]. by exists 8%nat.
    + apply (arm_args _ arm_ok_start).
Qed.

(** ** The layout *)

Definition arm_arg (fl : bool) : arg := mkArg fl false 1.
Definition arm_convention (st : ArmState) : convention := mkConv (length (gp_registers st)) 8 true.

Definition arm_located (st : ArmState) (l : Arm64ArgLocation) (p : place) : Prop :=
  match p with
  | InGp n => arm_kind l = ARM64_ARG_IN_GP_REGISTER /\ gp_registers st !! n = Some (arm_reg l)
  | InVec n => arm_kind l = ARM64_ARG_IN_VEC_REGISTER /\ VEC_ARG_REGS !! n = Some (arm_reg l)
  | OnStack o _ => arm_kind l = ARM64_ARG_ON_STACK /\ arm_offset l = o
  end.

Lemma take_map_arm (isf : list bool) i : take i (arm_arg <$> isf) = arm_arg <$> take i isf.
Proof. by rewrite firstn_map. Qed.

Lemma arm_sendable c isf : c_separate c = true -> sendable c (arm_arg <$> isf).
Proof. intros Hc. apply Forall_fmap, Forall_true. intros fl. cbn. split; [lia|congruence]. Qed.

Lemma arm_stack_le c isf : c_separate c = true -> stack_bytes c (arm_arg <$> isf) <= 8 * Z.of_nat (length isf).
Proof.
  intros Hc. induction isf as [|fl isf IH] using rev_ind; [done|]. rewrite fmap_app, length_app. cbn [length fmap list_fmap].
  rewrite stack_bytes_snoc. unfold stacked, bytes. rewrite Hc. destruct (reg_of _ _ _); cbn [a_slots arm_arg]; lia.
Qed.

Lemma arm_argument_spec st n before fl : g_abi st = Some (arm_of n) -> gp_registers st = take n (g_gp_args st) -> length (g_gp_args st) = 8%nat -> (n <= 8)%nat ->
  let c := arm_convention st in
  stack_bytes c (before ++ [arm_arg fl]) < 2 ^ 31 -> sendable c before ->
  exists l, arm_argument st (arm_of n) fl (Nat.min (rank before false) n) (Nat.min (rank before true) 8) (stack_bytes c before) =
    Ret (l, Nat.min (rank (before ++ [arm_arg fl]) false) n, Nat.min (rank (before ++ [arm_arg fl]) true) 8, stack_bytes c (before ++ [arm_arg fl])) /\
    arm_located st l (place_of c before (arm_arg fl)).
Proof.
  intros Eg Er Hlen Hn c Hb Hs. assert (c = mkConv n 8 true) as Ec.
  { unfold c, arm_convention. rewrite Er, length_take. f_equal. lia. }
  rewrite stack_bytes_snoc, !rank_snoc in *. destruct (stack_from_pos c before (sendable_slots _ _ Hs) []) as [H0 _]. fold (stack_bytes c before) in H0.
  assert (reg_of c before (arm_arg fl) = if (rank before fl <? if fl then 8 else n)%nat
    then Some (if fl then InVec (rank before fl) else InGp (rank before fl)) else None) as Ereg by (by rewrite Ec).
  assert (bytes c (arm_arg fl) = 8) as Eb by (by rewrite Ec).
  assert (forall z, 0 <= z -> z < 2 ^ 31 -> signed32 z = Ret z) as Hsig.
  { intros z Hz Hz'. unfold signed32. by rewrite (proj2 (Z.leb_le _ _)), (proj2 (Z.ltb_lt _ _)) by lia. }
  unfold arm_argument. cbn [arm_of vec_arg_count gp_arg_count vec_arg_regs gp_arg_regs arm_regs stack_slot_bytes arm_arg a_stack a_float].
  destruct fl; cbn [andb negb eqb].
  - destruct (Nat.ltb_spec (rank before true) 8) as [Hr|Hr].
    + rewrite (proj2 (Nat.ltb_lt _ _)) by lia. rewrite (stacked_in_reg _ _ _ _ Ereg), (place_in_reg _ _ _ _ Ereg).
      destruct (get_in VEC_ARG_REGS (Nat.min (rank before true) 8)) as (r & Hl & ->); [cbn [VEC_ARG_REGS length]; lia|]. cbn [obind]. eexists. split.
      { f_equal. f_equal; [|lia]. f_equal; [|lia]. f_equal. lia. }
      cbn. rewrite Nat.min_l in Hl by lia. done.
    + rewrite (proj2 (Nat.ltb_ge _ _)) by lia. rewrite (stacked_on_stack _ _ _ Ereg), (place_on_stack _ _ _ Ereg), Eb in *. rewrite Hsig by lia.
      cbn [obind]. exists (mkArmLocation ARM64_ARG_ON_STACK 31 (stack_bytes c before)). split; [|done]. by do 4 (f_equal; try lia).
  - destruct (Nat.ltb_spec (rank before false) n) as [Hr|Hr].
    + rewrite (proj2 (Nat.ltb_lt _ _)) by lia. rewrite (stacked_in_reg _ _ _ _ Ereg), (place_in_reg _ _ _ _ Ereg).
      destruct (get_in (g_gp_args st) (Nat.min (rank before false) n)) as (r & Hl & ->); [lia|]. cbn [obind]. eexists. split.
      { f_equal. f_equal; [|lia]. f_equal; [|lia]. f_equal. lia. }
      cbn. rewrite Nat.min_l in Hl by lia. by rewrite Er, lookup_take_lt.
    + rewrite (proj2 (Nat.ltb_ge _ _)) by lia. rewrite (stacked_on_stack _ _ _ Ereg), (place_on_stack _ _ _ Ereg), Eb in *. rewrite Hsig by lia.
      cbn [obind]. exists (mkArmLocation ARM64_ARG_ON_STACK 31 (stack_bytes c before)). split; [|done]. by do 4 (f_equal; try lia).
Qed.

Lemma arm_layout_spec st n isf : g_abi st = Some (arm_of n) -> gp_registers st = take n (g_gp_args st) -> length (g_gp_args st) = 8%nat -> (n <= 8)%nat ->
  let c := arm_convention st in let args := arm_arg <$> isf in stack_bytes c args < 2 ^ 31 ->
  forall after before out, isf = before ++ after -> (length isf <= length out)%nat ->
  exists out', arm_layout st (arm_of n) isf (length after) (length before) out (Nat.min (rank (arm_arg <$> before) false) n)
      (Nat.min (rank (arm_arg <$> before) true) 8) (stack_bytes c (arm_arg <$> before)) = Ret (out', stack_bytes c args) /\
    (forall k, (k < length before)%nat -> out' !! k = out !! k) /\
    (forall k fl, (length before <= k)%nat -> isf !! k = Some fl ->
       exists l, out' !! k = Some l /\ arm_located st l (place_of c (arm_arg <$> take k isf) (arm_arg fl))).
Proof.
  intros Eg Er Hl8 Hn c args Hb. assert (c_separate c = true) as Hsep by done.
  induction after as [|fl after IH]; intros before out E Hlen; cbn [arm_layout length].
  { rewrite app_nil_r in E. subst before. exists out. do 2 (split; [done|]). intros k fl Hk Hfl. apply lookup_lt_Some in Hfl. lia. }
  assert (isf !! length before = Some fl) as Hfl by (rewrite E; by rewrite lookup_app_r, Nat.sub_diag).
  rewrite (get_nat _ _ _ Hfl). cbn [obind]. assert (isf = (before ++ [fl]) ++ after) as E' by (by rewrite <- app_assoc).
  assert ((arm_arg <$> before) ++ [arm_arg fl] = arm_arg <$> before ++ [fl]) as Esnoc by (by rewrite fmap_app).
  destruct (arm_argument_spec st n (arm_arg <$> before) fl Eg Er Hl8 Hn) as (l & Ea & Hl).
  { rewrite Esnoc. fold c. unfold args in Hb. rewrite E', fmap_app in Hb. pose proof (arm_sendable c isf Hsep) as Hs.
    rewrite E', fmap_app in Hs. pose proof (stack_bytes_prefix _ _ _ Hs). lia. }
  { by apply arm_sendable. }
  fold c in Ea, Hl. rewrite Ea. cbn [obind]. apply lookup_lt_Some in Hfl as Hlt. rewrite put_nat by lia. cbn [obind]. rewrite Esnoc.
  destruct (IH (before ++ [fl]) (<[length before := l]> out) E') as (out' & E2 & H1 & H2); [by rewrite length_insert|].
  rewrite length_app, Nat.add_1_r in *. exists out'. split; [done|]. split.
  { intros k Hk. rewrite H1 by lia. by rewrite list_lookup_insert_ne by lia. }
  intros k gl Hk Hgl. destruct (decide (k = length before)) as [->|Hne]; [|apply H2; [lia|done]].
  exists l. split; [rewrite H1 by lia; apply list_lookup_insert_eq; lia|].
  assert (gl = fl) as -> by congruence. by rewrite E, take_app_length.
Qed.

(** Two AArch64 locations that hold something of each other's. *)
Definition arm_clash (l l' : Arm64ArgLocation) : Prop :=
  arm_kind l = arm_kind l' /\
  match arm_kind l with
  | ARM64_ARG_ON_STACK => arm_offset l < arm_offset l' + 8 /\ arm_offset l' < arm_offset l + 8
  | _ => arm_reg l = arm_reg l'
  end.

Lemma arm_located_apart st l p l' p' : arm_ok st -> arm_located st l p -> arm_located st l' p' -> apart p p' ->
  (forall o s, p = OnStack o s -> s = 8) -> ~ arm_clash l l'.
Proof.
  intros Hok Hl Hl' Ha Hn [Ek Hcl].
  destruct p as [k|k|o s], p' as [k'|k'|o' s']; cbn in *; destruct Hl as [E1 Hl]; destruct Hl' as [E2 Hl']; rewrite E1 in *; try congruence.
  - apply Ha. apply (NoDup_lookup (gp_registers st) _ _ (arm_reg l)); [apply (arm_args _ Hok)|done|congruence].
  - apply Ha. apply (NoDup_lookup VEC_ARG_REGS _ _ (arm_reg l)); [apply (bool_decide_unpack _); by vm_compute|done|congruence].
  - pose proof (Hn o s eq_refl). lia.
Qed.

(** C17: the AArch64 argument layout, whatever argument registers have been
    set.  After any calls of the interface the argument registers are distinct
    ones of X0 to X7; a layout of any arguments whose stack fits an [int] gives
    each the register of its rank in its class or the next eight bytes of
    stack, reports the bytes used, and no two arguments clash. *)
Theorem arm64_arg_layout_correct st is_float out : arm_reachable st -> let c := arm_convention st in let args := arm_arg <$> is_float in
  stack_bytes c args < 2 ^ 31 -> (length is_float <= length out)%nat ->
  argument_registers (gp_registers st) /\
  exists out', arm64_compute_arg_layout (Some is_float) (Z.of_nat (length is_float)) (Some out) st =
      Ret (Some (out', stack_bytes c args), (arm64_abi st).2) /\
    (forall i fl, is_float !! i = Some fl -> exists l, out' !! i = Some l /\ arm_located st l (place_of c (take i args) (arm_arg fl)) /\
       inside (stack_bytes c args) (place_of c (take i args) (arm_arg fl))) /\
    (forall i j la lb, (i < j < length is_float)%nat -> out' !! i = Some la -> out' !! j = Some lb -> ~ arm_clash la lb).
Proof.
  intros Hr c args Hb Hlen. pose proof (arm_reachable_ok st Hr) as Hok. split; [apply Hok|].
  destruct (arm64_abi_ok st Hok) as (Hok' & n & Eabi & Hn & Egp & Er). unfold arm64_compute_arg_layout.
  rewrite (proj2 (Z.ltb_ge _ _)), !bool_decide_false by (lia || done). rewrite andb_false_r. cbn [orb]. rewrite Eabi.
  change (default [] (Some is_float)) with is_float. change (default [] (Some out)) with out. rewrite Nat2Z.id. rewrite Eabi in Hok', Egp. cbn [snd] in *.
  set (st' := mkArmState (g_gp_args st) (Some (arm_of n))) in *. assert (arm_convention st' = c) as Ec by (unfold c, arm_convention; by rewrite Egp).
  destruct (arm_layout_spec st' n is_float) with (after := is_float) (before := @nil bool) (out := out) as (out' & E & _ & Hl); try done.
  { apply Hok'. } { by rewrite Ec. }
  rewrite Ec in E, Hl. fold args in E. cbn [length] in E. change (stack_bytes c (arm_arg <$> [])) with 0 in E. change (rank (arm_arg <$> []) _) with 0%nat in E.
  cbn [Nat.min] in E. rewrite E. cbn [obind]. exists out'. split; [done|].
  assert (forall i fl, is_float !! i = Some fl -> exists l, out' !! i = Some l /\ arm_located st l (place_of c (take i args) (arm_arg fl))) as Hloc.
  { intros i fl Hfl. destruct (Hl i fl (Nat.le_0_l i) Hfl) as (l & H1 & H2). exists l. split; [done|]. unfold args. rewrite take_map_arm.
    unfold arm_located in *. rewrite Egp in H2. exact H2. }
  assert (sendable c args) as Hsend by (by apply arm_sendable). split.
  - intros i fl Hfl. destruct (Hloc i fl Hfl) as (l & H1 & H2). exists l. split; [done|]. split; [done|]. apply place_inside; [done|].
    unfold args. by rewrite list_lookup_fmap, Hfl.
  - intros i j la lb [Hij Hj] Hla Hlb. destruct (lookup_lt_is_Some_2 is_float i) as [fa Hfa]; [lia|]. destruct (lookup_lt_is_Some_2 is_float j) as [fb Hfb]; [lia|].
    destruct (Hloc i fa Hfa) as (l & H1 & H2). destruct (Hloc j fb Hfb) as (l2 & H3 & H4).
    assert (l = la) as -> by congruence. assert (l2 = lb) as -> by congruence.
    apply (arm_located_apart st _ _ _ _ Hok H2 H4).
    + apply places_differ; [done|done|..]; unfold args; [by rewrite list_lookup_fmap, Hfa|by rewrite list_lookup_fmap, Hfb].
    + intros o s Es. by apply place_of_stack in Es.
Qed.

(** Two argument registers chosen by the target, three integers and a number. *)
Lemma arm64_arg_layout_correct_witness : exists st out', arm64_abi_set_gp_args (Some [3; 1]) 2 arm_start = Ret (true, st) /\
  arm64_compute_arg_layout (Some [false; false; true; false]) 4 (Some (replicate 4 (mkArmLocation ARM64_ARG_ON_STACK 0 0))) st = Ret (Some (out', 8), st).
Proof.
  eexists. destruct (arm64_arg_layout_correct (mkArmState [3; 1; 2; 3; 4; 5; 6; 7] (Some (arm_of 2))) [false; false; true; false]
    (replicate 4 (mkArmLocation ARM64_ARG_ON_STACK 0 0))) as (_ & out' & E & _).
  - apply (arm_reach_set (Some [3; 1]) 2 true arm_start); [apply arm_reach_start|by vm_compute].
  - by vm_compute.
  - cbn. lia.
  - exists out'. split; [by vm_compute|exact E].
Defined.
End CallConvCorrect.
