(* ===== verification/SysvClass.v ===== *)
(** Aggregates in the System V convention: the classification of eightbytes
    in src/src/codegen/binary/abi_spec.c, on the types of MachTypes.

    The code walks the nested fields of a type and merges the class of every
    scalar into the eightbytes it touches.  The reference lists the scalars
    first and then asks, for each eightbyte, which of them touch it. *)
From S2P Require Import Prelude MachTypes MachTypesCorrect MachTypesProps.
#[local] Open Scope Z_scope.

Module SysvClass.
Import MachTypes MachTypesCorrect.

(** * The code *)

Inductive BinaryEightbyteClass := BINARY_EIGHTBYTE_NONE | BINARY_EIGHTBYTE_INTEGER | BINARY_EIGHTBYTE_SSE.

#[export] Instance BinaryEightbyteClass_eq_dec : EqDecision BinaryEightbyteClass.
Proof. solve_decision. Defined.

Record BinarySysvAggregate := mkAggregate {
  in_memory : bool;
  agg_size : Z;
  eightbyte_count : Z;
  classes : list BinaryEightbyteClass;
  first_slot : Z
}.

(** code_generator.c; it counts strings among the aggregates. *)
Definition code_generator_type_is_aggregate (t : option MtlcType) : bool :=
  match t with
  | None => false
  | Some t =>
      match kind t with
      | MTLC_TYPE_STRUCT | MTLC_TYPE_ARRAY | MTLC_TYPE_TAGGED_ENUM | MTLC_TYPE_STRING => true
      | _ => false
      end
  end.

Definition code_generator_abi_type_size (t : option MtlcType) : Z :=
  match t with None => 0 | Some t => if size t >? 0 then size t else 8 end.

Definition binary_merge_eightbyte (a b : BinaryEightbyteClass) : BinaryEightbyteClass :=
  if bool_decide (a = b) then a
  else match a, b with
  | BINARY_EIGHTBYTE_NONE, _ => b
  | _, BINARY_EIGHTBYTE_NONE => a
  | _, _ => BINARY_EIGHTBYTE_INTEGER
  end.

(** Eightbyte [i] and the ones after it, up to [last] and up to [n] of them. *)
Fixpoint merge_leaf (leaf : BinaryEightbyteClass) (last : Z) (n : nat) (i : Z) (cs : list BinaryEightbyteClass) : outcome (list BinaryEightbyteClass) :=
  match n with
  | O => Ret cs
  | S n =>
      if i <=? last then
        let! c := get cs i in
        let! cs := put cs i (binary_merge_eightbyte c leaf) in
        merge_leaf leaf last n (i + 1) cs
      else Ret cs
  end.

Definition leaf_class (t : MtlcType) : BinaryEightbyteClass :=
  match kind t with MTLC_TYPE_FLOAT32 | MTLC_TYPE_FLOAT64 => BINARY_EIGHTBYTE_SSE | _ => BINARY_EIGHTBYTE_INTEGER end.

Definition leaf_last (base sz : Z) : Z := if sz >? 0 then u64 (base + sz - 1) / 8 else base / 8.

Section Walk.
Context (classify : nat -> Z -> list BinaryEightbyteClass -> outcome (list BinaryEightbyteClass)).

(** The fields from the [i]th on, [n] of them. *)
Fixpoint classify_members (t : MtlcType) (base : Z) (n i : nat) (cs : list BinaryEightbyteClass) : outcome (list BinaryEightbyteClass) :=
  match n with
  | O => Ret cs
  | S n =>
      let! f := get (field_types t) (Z.of_nat i) in
      let! o := get (field_offsets t) (Z.of_nat i) in
      let! cs := classify f (u64 (base + o)) cs in
      classify_members t base n (S i) cs
  end.

(** The elements from the [i]th on, [n] of them. *)
Fixpoint classify_elements (e : nat) (esize base : Z) (n i : nat) (cs : list BinaryEightbyteClass) : outcome (list BinaryEightbyteClass) :=
  match n with
  | O => Ret cs
  | S n =>
      let! cs := classify e (u64 (base + Z.of_nat i * esize)) cs in
      classify_elements e esize base n (S i) cs
  end.
End Walk.

(** [fuel] bounds the nesting of types. *)
Fixpoint binary_classify_fields (fuel : nat) (s : TypeStore) (count : Z) (a : nat) (base : Z) (cs : list BinaryEightbyteClass) :
  outcome (list BinaryEightbyteClass) :=
  match fuel with
  | O => NoFuel
  | S fuel =>
      let! t := obj s a in
      let leaf := merge_leaf (leaf_class t) (leaf_last base (size t)) (Z.to_nat (count - base / 8)) (base / 8) cs in
      match kind t with
      | MTLC_TYPE_STRUCT =>
          if (0 <? length (field_types t))%nat then
            classify_members (binary_classify_fields fuel s count) t base (length (field_types t)) 0 cs
          else leaf
      | MTLC_TYPE_ARRAY =>
          match base_type t with
          | Some e =>
              let! et := obj s e in
              if size et >? 0 then classify_elements (binary_classify_fields fuel s count) e (size et) base (Z.to_nat (array_size t)) 0 cs
              else leaf
          | None => leaf
          end
      | _ => leaf
      end
  end.

(** Eightbytes nothing touches count as integers. *)
Definition fill_class (c : BinaryEightbyteClass) : BinaryEightbyteClass :=
  match c with BINARY_EIGHTBYTE_NONE => BINARY_EIGHTBYTE_INTEGER | _ => c end.

Definition code_generator_binary_classify_sysv_aggregate (fuel : nat) (s : TypeStore) (type : option nat) (out : option BinarySysvAggregate) :
  outcome (bool * option BinarySysvAggregate) :=
  match out with
  | None => Ret (false, None)
  | Some out =>
      let out := mkAggregate false 0 0 [BINARY_EIGHTBYTE_NONE; BINARY_EIGHTBYTE_NONE] (first_slot out) in
      let! t := deref_type s type in
      match type with
      | None => Ret (false, Some out)
      | Some a =>
          if negb (code_generator_type_is_aggregate t) then Ret (false, Some out)
          else
            let size := code_generator_abi_type_size t in
            if size =? 0 then Ret (false, Some (mkAggregate false size 0 (classes out) (first_slot out)))
            else if size >? 16 then Ret (true, Some (mkAggregate true size 0 (classes out) (first_slot out)))
            else
              let count := (size + 7) / 8 in
              let! cs := binary_classify_fields fuel s count a 0 (classes out) in
              let cs := (fill_class <$> take (Z.to_nat count) cs) ++ drop (Z.to_nat count) cs in
              Ret (true, Some (mkAggregate false size count cs (first_slot out)))
      end
  end.

(** * The reference *)

(** A scalar: where it starts, its size, and is it a floating-point number? *)
Record scalar := mkScalar { s_start : Z; s_size : Z; s_class : BinaryEightbyteClass }.

Fixpoint scalars (fuel : nat) (s : TypeStore) (a : nat) (base : Z) : list scalar :=
  match fuel, objects s !! a with
  | S fuel, Some t =>
      let leaf := [mkScalar base (size t) (leaf_class t)] in
      match kind t, base_type t with
      | MTLC_TYPE_STRUCT, _ =>
          if (0 <? length (field_types t))%nat then
            mjoin (zip_with (fun f o => scalars fuel s f (u64 (base + o))) (field_types t) (field_offsets t))
          else leaf
      | MTLC_TYPE_ARRAY, Some e =>
          match objects s !! e with
          | Some et =>
              if size et >? 0 then mjoin ((fun i => scalars fuel s e (u64 (base + Z.of_nat i * size et))) <$> seq 0 (Z.to_nat (array_size t)))
              else leaf
          | None => []
          end
      | _, _ => leaf
      end
  | _, _ => []
  end.

(** Bytes [8 * k] to [8 * k + 7] and those of the scalar overlap; an empty one
    counts as a byte. *)
Definition touches (k : Z) (x : scalar) : bool :=
  let last := if 0 <? s_size x then u64 (s_start x + s_size x - 1) else s_start x in
  (s_start x <? 8 * (k + 1)) && (8 * k <=? last).

(** An eightbyte goes to a vector register when floating-point numbers, and
    nothing else, touch it. *)
Definition eightbyte_class (l : list scalar) (k : Z) : BinaryEightbyteClass :=
  let here := filter (fun x => touches k x = true) l in
  if bool_decide (here <> [] /\ Forall (fun x => s_class x = BINARY_EIGHTBYTE_SSE) here) then BINARY_EIGHTBYTE_SSE else BINARY_EIGHTBYTE_INTEGER.

(** * The code meets the reference *)

(** Comparisons in a hypothesis, as propositions. *)
Ltac bools := rewrite ?andb_true_iff, ?Z.leb_le, ?Z.ltb_lt in *; lia.

(** Types are made of earlier types. *)
Definition descending (s : TypeStore) : Prop := forall a t, objects s !! a = Some t ->
  (kind t = MTLC_TYPE_STRUCT -> Forall (fun f => (f < a)%nat) (field_types t) /\ length (field_offsets t) = length (field_types t)) /\
  (kind t = MTLC_TYPE_ARRAY -> forall e, base_type t = Some e -> (e < a)%nat).

Lemma lay_length fs : forall off al, length (lay fs off al).1.1 = length fs.
Proof.
  induction fs as [|[sz a] fs IH]; intros off al; cbn [lay]; [done|]. specialize (IH (u64 (pad_to a off + sz)) (Z.max al a)).
  destruct (lay fs _ _) as [[os off'] al']. cbn in *. lia.
Qed.

Lemma wf_descending s : wf s -> descending s.
Proof.
  intros Hs a t Ht. destruct (wf_built _ Hs _ _ Ht) as [t' H|b bt sp H ?|e et c H ? ? ?|nm names types fts H ? ? ? ?|r rt ps pts H H']; try done.
  - do 15 (destruct a as [|a]; [injection H as <-; done|]). done.
  - split; [done|]. intros _ e' [= <-]. by apply Forall2_cons in H as [[? _] _].
  - destruct (struct_of_fields nm names types fts) as (Hk & _ & _ & -> & ->). split; [|by rewrite Hk]. intros _. split.
    + apply Forall_lookup. intros i f Hi. by destruct (Forall2_lookup_l _ _ _ _ _ H Hi) as (? & _ & ? & _).
    + by rewrite lay_length, length_fmap, (Forall2_length _ _ _ H).
Qed.

Definition merge_all (k : Z) (l : list scalar) (c : BinaryEightbyteClass) : BinaryEightbyteClass :=
  foldl binary_merge_eightbyte c (s_class <$> filter (fun x => touches k x = true) l).

(** [cs'] is [cs] with the scalars [l] merged into the first [count] cells. *)
Definition absorbed (count : Z) (l : list scalar) (cs cs' : list BinaryEightbyteClass) : Prop :=
  length cs' = length cs /\ forall k c, cs !! k = Some c -> cs' !! k = Some (if Z.of_nat k <? count then merge_all (Z.of_nat k) l c else c).

Lemma absorbed_nil count cs : absorbed count [] cs cs.
Proof. split; [done|]. intros k c H. rewrite H. by destruct (_ <? _). Qed.

Lemma absorbed_app count l1 l2 cs c1 c2 : absorbed count l1 cs c1 -> absorbed count l2 c1 c2 -> absorbed count (l1 ++ l2) cs c2.
Proof.
  intros [E1 H1] [E2 H2]. split; [congruence|]. intros k c H. rewrite (H2 k _ (H1 k c H)). f_equal.
  destruct (Z.of_nat k <? count); [|done]. unfold merge_all. by rewrite filter_app, fmap_app, foldl_app.
Qed.

Lemma merge_leaf_spec leaf last n : forall i cs, 0 <= i -> i + Z.of_nat n <= Z.of_nat (length cs) ->
  exists cs', merge_leaf leaf last n i cs = Ret cs' /\ length cs' = length cs /\
    forall k c, cs !! k = Some c -> cs' !! k = Some (if (i <=? Z.of_nat k) && (Z.of_nat k <=? last) && (Z.of_nat k <? i + Z.of_nat n)
      then binary_merge_eightbyte c leaf else c).
Proof.
  induction n as [|n IH]; intros i cs Hi Hn; cbn [merge_leaf].
  { exists cs. split; [done|]. split; [done|]. intros k c ->. destruct (_ && _ && _) eqn:Eb; [|done]; bools. }
  destruct (Z.leb_spec i last) as [Hl|Hl].
  2:{ exists cs. split; [done|]. split; [done|]. intros k c ->. destruct (_ && _ && _) eqn:Eb; [|done]; bools. }
  assert (exists m, i = Z.of_nat m) as [m ->] by (exists (Z.to_nat i); lia).
  destruct (lookup_lt_is_Some_2 cs m) as [c0 Hc0]; [lia|]. rewrite (get_nat _ _ _ Hc0). cbn [obind]. rewrite put_nat by lia. cbn [obind].
  destruct (IH (Z.of_nat m + 1) (<[m := binary_merge_eightbyte c0 leaf]> cs)) as (cs' & -> & El & H); [lia|rewrite length_insert; lia|].
  exists cs'. split; [done|]. rewrite El, length_insert. split; [done|]. intros k c Hc. destruct (decide (k = m)) as [->|Hne].
  - assert (c0 = c) as -> by congruence. rewrite (H m (binary_merge_eightbyte c leaf)) by (apply list_lookup_insert_eq; lia).
    rewrite (proj2 (Z.leb_gt (Z.of_nat m + 1) _)), Z.leb_refl, (proj2 (Z.leb_le _ last)), (proj2 (Z.ltb_lt _ (Z.of_nat m + Z.of_nat (S n)))) by lia. done.
  - rewrite (H k c) by (by rewrite list_lookup_insert_ne). f_equal.
    replace (Z.of_nat m + 1 + Z.of_nat n) with (Z.of_nat m + Z.of_nat (S n)) by lia.
    by destruct (Z.leb_spec (Z.of_nat m + 1) (Z.of_nat k)), (Z.leb_spec (Z.of_nat m) (Z.of_nat k)); try lia.
Qed.

(** The code compares the numbers of the eightbytes instead. *)
Lemma touches_eightbytes k x : touches k x = (s_start x / 8 <=? k) && (k <=? leaf_last (s_start x) (s_size x)).
Proof.
  unfold touches, leaf_last. rewrite Z.gtb_ltb. set (last := u64 _). cbv zeta. f_equal.
  - destruct (Z.ltb_spec (s_start x) (8 * (k + 1))), (Z.leb_spec (s_start x / 8) k); try done; Z.to_euclidean_division_equations; lia.
  - destruct (0 <? s_size x); [set (l := last)|set (l := s_start x)];
      destruct (Z.leb_spec (8 * k) l), (Z.leb_spec k (l / 8)); try done; Z.to_euclidean_division_equations; lia.
Qed.

Lemma merge_all_one k x c : merge_all k [x] c = if touches k x then binary_merge_eightbyte c (s_class x) else c.
Proof.
  unfold merge_all. rewrite filter_cons. destruct (decide (touches k x = true)) as [E|E]; [by rewrite E|].
  destruct (touches k x); [done|]. done.
Qed.

Lemma leaf_absorbed count t base cs : 0 <= base -> count <= Z.of_nat (length cs) ->
  exists cs', merge_leaf (leaf_class t) (leaf_last base (size t)) (Z.to_nat (count - base / 8)) (base / 8) cs = Ret cs' /\
    absorbed count [mkScalar base (size t) (leaf_class t)] cs cs'.
Proof.
  intros Hb Hc. assert (0 <= base / 8) by (apply Z.div_pos; lia). destruct (Z.le_gt_cases (base / 8) count) as [Hle|Hgt].
  - destruct (merge_leaf_spec (leaf_class t) (leaf_last base (size t)) (Z.to_nat (count - base / 8)) (base / 8) cs) as (cs' & E & El & H0); [lia|lia|].
    exists cs'. split; [done|]. split; [done|]. intros k c Hk. rewrite (H0 k c Hk). f_equal. rewrite Z2Nat.id by lia.
    replace (base / 8 + (count - base / 8)) with count by lia. rewrite merge_all_one, touches_eightbytes. cbn [s_start s_size].
    destruct (Z.of_nat k <? count); [by rewrite andb_true_r|by rewrite andb_false_r].
  - replace (Z.to_nat (count - base / 8)) with O by lia. exists cs. split; [done|]. split; [done|]. intros k c Hk. rewrite Hk. f_equal.
    destruct (Z.ltb_spec (Z.of_nat k) count); [|done]. rewrite merge_all_one, touches_eightbytes. cbn [s_start s_size].
    by rewrite (proj2 (Z.leb_gt _ _)) by lia.
Qed.

(** A walk over a type merges the scalars of the type. *)
Definition walks (count : Z) (classify : nat -> Z -> list BinaryEightbyteClass -> outcome (list BinaryEightbyteClass))
  (flat : nat -> Z -> list scalar) (f : nat) : Prop :=
  forall base cs, 0 <= base -> count <= Z.of_nat (length cs) -> exists cs', classify f base cs = Ret cs' /\ absorbed count (flat f base) cs cs'.

Lemma members_absorbed count classify flat t base : length (field_offsets t) = length (field_types t) ->
  Forall (walks count classify flat) (field_types t) ->
  forall n i cs, (i + n)%nat = length (field_types t) -> count <= Z.of_nat (length cs) ->
  exists cs', classify_members classify t base n i cs = Ret cs' /\
    absorbed count (mjoin (zip_with (fun f o => flat f (u64 (base + o))) (drop i (field_types t)) (drop i (field_offsets t)))) cs cs'.
Proof.
  intros Hlen Hw. induction n as [|n IH]; intros i cs Hi Hc; cbn [classify_members].
  { exists cs. split; [done|]. rewrite drop_ge by lia. apply absorbed_nil. }
  destruct (lookup_lt_is_Some_2 (field_types t) i) as [f Hf]; [lia|]. destruct (lookup_lt_is_Some_2 (field_offsets t) i) as [o Ho]; [lia|].
  rewrite (get_nat _ _ _ Hf), (get_nat _ _ _ Ho). cbn [obind].
  destruct (Forall_lookup_1 _ _ _ _ Hw Hf (u64 (base + o)) cs) as (c1 & -> & H1); [apply wrapu_bound; lia|done|]. cbn [obind].
  destruct (IH (S i) c1) as (cs' & -> & H2); [lia|destruct H1 as [-> _]; done|]. exists cs'. split; [done|].
  rewrite (drop_S _ _ _ Hf), (drop_S _ _ _ Ho). cbn [zip_with mjoin list_join]. by eapply absorbed_app.
Qed.

Lemma elements_absorbed count classify flat e esize base : walks count classify flat e -> forall n i cs, count <= Z.of_nat (length cs) ->
  exists cs', classify_elements classify e esize base n i cs = Ret cs' /\
    absorbed count (mjoin ((fun i => flat e (u64 (base + Z.of_nat i * esize))) <$> seq i n)) cs cs'.
Proof.
  intros Hw. induction n as [|n IH]; intros i cs Hc; cbn [classify_elements]; [exists cs; split; [done|apply absorbed_nil]|].
  destruct (Hw (u64 (base + Z.of_nat i * esize)) cs) as (c1 & -> & H1); [apply wrapu_bound; lia|done|]. cbn [obind].
  destruct (IH (S i) c1) as (cs' & -> & H2); [destruct H1 as [-> _]; done|]. exists cs'. split; [done|]. by eapply absorbed_app.
Qed.

Lemma classify_fields_absorbed s count : descending s -> forall fuel a, (a < fuel)%nat -> (a < length (objects s))%nat ->
  walks count (binary_classify_fields fuel s count) (scalars fuel s) a.
Proof.
  intros Hs. induction fuel as [|fuel IH]; intros a Hf Ha; [lia|]. intros base cs Hb Hc. cbn [binary_classify_fields scalars].
  destruct (lookup_lt_is_Some_2 _ _ Ha) as [t Ht]. rewrite (obj_Ret _ _ _ Ht), Ht. cbn [obind]. destruct (Hs a t Ht) as [Hstruct Harray].
  pose proof (leaf_absorbed count t base cs Hb Hc) as Hleaf. cbv zeta. destruct (kind t); try done.
  - destruct (base_type t) as [e|]; [|done]. specialize (Harray eq_refl e eq_refl). destruct (lookup_lt_is_Some_2 (objects s) e) as [et Het]; [lia|].
    rewrite (obj_Ret _ _ _ Het), Het. cbn [obind]. destruct (size et >? 0); [|done]. apply elements_absorbed; [|done]. apply IH; lia.
  - destruct (0 <? length (field_types t))%nat; [|done]. destruct (Hstruct eq_refl) as [Hlt Hlen].
    apply (members_absorbed count _ (scalars fuel s) t base Hlen); [|done|done]. eapply Forall_impl; [exact Hlt|]. intros f Hfa. cbn in Hfa. apply IH; lia.
Qed.

(** ** Merging classes *)

Lemma scalars_classed s fuel : forall a base, Forall (fun x => s_class x <> BINARY_EIGHTBYTE_NONE) (scalars fuel s a base).
Proof.
  assert (forall t base, Forall (fun x => s_class x <> BINARY_EIGHTBYTE_NONE) [mkScalar base (size t) (leaf_class t)]) as Hleaf.
  { intros t base. apply Forall_singleton. cbn. unfold leaf_class. by destruct (kind t). }
  induction fuel as [|fuel IH]; intros a base; cbn [scalars]; [done|]. destruct (objects s !! a) as [t|]; [|done].
  cbv zeta. destruct (kind t); try apply Hleaf.
  - destruct (base_type t) as [e|]; [|apply Hleaf]. destruct (objects s !! e) as [et|]; [|done]. destruct (size et >? 0); [|apply Hleaf].
    apply Forall_join, Forall_fmap, Forall_true. intros i. apply IH.
  - destruct (_ <? _)%nat; [|apply Hleaf]. apply Forall_join. apply Forall_lookup. intros i l Hl.
    apply lookup_zip_with_Some in Hl as (f & o & -> & _). apply IH.
Qed.

Lemma merge_classes l c : Forall (fun d => d <> BINARY_EIGHTBYTE_NONE) l -> c <> BINARY_EIGHTBYTE_NONE ->
  foldl binary_merge_eightbyte c l = if bool_decide (c = BINARY_EIGHTBYTE_SSE /\ Forall (fun d => d = BINARY_EIGHTBYTE_SSE) l)
    then BINARY_EIGHTBYTE_SSE else BINARY_EIGHTBYTE_INTEGER.
Proof.
  intros Hl. revert c. induction Hl as [|d l Hd _ IH]; intros c Hc; cbn [foldl]; [by destruct c|].
  rewrite IH by (by destruct c, d). assert (binary_merge_eightbyte c d = BINARY_EIGHTBYTE_SSE <-> c = BINARY_EIGHTBYTE_SSE /\ d = BINARY_EIGHTBYTE_SSE) as E.
  { destruct c, d; split; try done; by intros []. }
  erewrite bool_decide_ext; [done|]. rewrite E, Forall_cons. tauto.
Qed.

Lemma merge_all_class k l : Forall (fun x => s_class x <> BINARY_EIGHTBYTE_NONE) l ->
  fill_class (merge_all k l BINARY_EIGHTBYTE_NONE) = eightbyte_class l k.
Proof.
  intros Hl. unfold merge_all, eightbyte_class. set (here := filter _ l).
  assert (Forall (fun x => s_class x <> BINARY_EIGHTBYTE_NONE) here) as Hh.
  { apply Forall_forall. intros x [_ Hx]%list_elem_of_filter. by eapply Forall_forall in Hl. }
  destruct here as [|x here]; [done|]. apply Forall_cons in Hh as [Hx Hh]. cbn [fmap list_fmap foldl].
  replace (binary_merge_eightbyte BINARY_EIGHTBYTE_NONE (s_class x)) with (s_class x) by (by destruct (s_class x)).
  rewrite merge_classes by (done || by apply Forall_fmap).
  erewrite (bool_decide_ext _ (x :: here <> [] /\ Forall (fun x => s_class x = BINARY_EIGHTBYTE_SSE) (x :: here))); [by case_bool_decide|].
  rewrite Forall_cons. rewrite Forall_fmap. naive_solver.
Qed.

(** C16: the classification of aggregates.  For every type of a well-formed
    store it ends, with the nesting bounded by the age of the type; it accepts
    exactly the aggregates, sends those of more than sixteen bytes to memory,
    and gives every eightbyte of the others the class that the scalars touching
    it call for. *)
Theorem classify_sysv_aggregate_correct s a t old : wf s -> objects s !! a = Some t ->
  exists b out, code_generator_binary_classify_sysv_aggregate (S a) s (Some a) (Some old) = Ret (b, Some out) /\
    b = code_generator_type_is_aggregate (Some t) /\
    (b = true -> agg_size out = code_generator_abi_type_size (Some t) /\ in_memory out = (16 <? agg_size out) /\
      (in_memory out = false -> eightbyte_count out = (agg_size out + 7) / 8 /\
         forall k : nat, Z.of_nat k < eightbyte_count out -> classes out !! k = Some (eightbyte_class (scalars (S a) s a 0) (Z.of_nat k)))).
Proof.
  intros Hs Ht. destruct (wf_bounds s Hs a t Ht) as [[Hsz _] _]. unfold code_generator_binary_classify_sysv_aggregate.
  cbn [deref_type]. rewrite (obj_Ret _ _ _ Ht). cbn [obind]. destruct (code_generator_type_is_aggregate (Some t)); cbn [negb].
  2:{ eexists false, _. split; [done|]. split; [done|]. done. }
  set (size := code_generator_abi_type_size (Some t)). assert (0 < size) as Hpos.
  { unfold size. cbn. destruct (Z.gtb_spec (MachTypes.size t) 0); lia. }
  destruct (Z.eqb_spec size 0); [lia|]. rewrite Z.gtb_ltb. destruct (Z.ltb_spec 16 size) as [Hbig|Hsmall].
  { eexists true, _. split; [done|]. split; [done|]. intros _. split; [done|]. split; [|done]. symmetry. by apply Z.ltb_lt. }
  set (count := (size + 7) / 8). assert (1 <= count <= 2) as Hcount.
  { unfold count. split; [apply Z.div_le_lower_bound; lia|apply Z.lt_succ_r; apply Z.div_lt_upper_bound; lia]. }
  destruct (classify_fields_absorbed s count (wf_descending s Hs) (S a) a ltac:(lia) ltac:(by apply lookup_lt_Some in Ht) 0
    [BINARY_EIGHTBYTE_NONE; BINARY_EIGHTBYTE_NONE]) as (cs & E & El & Hcs); [lia|cbn; lia|].
  cbn [classes]. rewrite E. cbn [obind]. eexists true, _. split; [done|]. split; [done|]. intros _. split; [done|].
  split; [symmetry; by apply Z.ltb_ge|]. intros _. split; [done|]. cbn [eightbyte_count classes]. intros k Hk.
  assert ([BINARY_EIGHTBYTE_NONE; BINARY_EIGHTBYTE_NONE] !! k = Some BINARY_EIGHTBYTE_NONE) as Hnone by (destruct k as [|[|k]]; [done|done|lia]).
  apply Hcs in Hnone. rewrite (proj2 (Z.ltb_lt _ _)) in Hnone by done. cbn [length] in El.
  rewrite lookup_app_l by (rewrite length_fmap, length_take, El; lia). rewrite list_lookup_fmap, lookup_take_lt, Hnone by lia. cbn. f_equal.
  apply (merge_all_class _ _ (scalars_classed s (S a) a 0)).
Qed.

(** A double, an integer and a single: the second eightbyte is mixed. *)
Definition sample_request : MachTypesProps.request :=
  MachTypesProps.RStruct (Some "sample") None (Some [Some 10%nat; Some 2%nat; Some 9%nat]) 3.

Lemma classify_sysv_aggregate_correct_witness : exists b out, code_generator_binary_classify_sysv_aggregate 16
    (MachTypesProps.served store_start sample_request) (Some 15%nat) (Some (mkAggregate false 0 0 [] 0)) = Ret (b, Some out) /\ b = true.
Proof.
  destruct (classify_sysv_aggregate_correct (MachTypesProps.served store_start sample_request) 15
    (struct_of "sample" [""; ""; ""] [10; 2; 9]%nat (map (fun i => default (MTLC_SCALAR MTLC_TYPE_VOID "" 0 0) (k_scalars !! i)) [10; 2; 9]%nat))
    (mkAggregate false 0 0 [] 0)) as (b & out & E & Hb & _).
  - apply MachTypesProps.served_wf; [apply wf_start|]. split; [done|]. intros l [= <-]. split; [done|].
    unfold MachTypesProps.pointers_valid, valid. repeat constructor; cbn; lia.
  - by vm_compute.
  - exists b, out. split; [exact E|]. rewrite Hb. by vm_compute.
Defined.

Example sample_classes :
  code_generator_binary_classify_sysv_aggregate 16 (MachTypesProps.served store_start sample_request) (Some 15%nat) (Some (mkAggregate false 0 0 [] 0)) =
  Ret (true, Some (mkAggregate false 16 2 [BINARY_EIGHTBYTE_SSE; BINARY_EIGHTBYTE_INTEGER] 0)).
Proof. by vm_compute. Qed.
End SysvClass.
