(* ===== verification/MirVerify.v ===== *)
(** The verifier of register allocations,
    src/src/codegen/binary/mir_regalloc_verify.c, with what it reads of
    mir_machine.c and mir_kernel.c.

    Sets are rows of words, one for each instruction, as in MirCfg; casts to
    [int] keep the value, functions having fewer than 2^31 instructions.  A
    failure sets the error flag of the function; its text is left out. *)
From S2P Require Import Prelude Mir Probe MirCfg CallConv.
#[local] Open Scope Z_scope.

Module MirVerify.
Import Mir Probe Cfg.

(** * Registers and opcodes *)

Definition BINARY_GP_RAX : Z := 0.
Definition BINARY_GP_RDX : Z := 2.
Definition BINARY_GP_RBX : Z := 3.
Definition BINARY_GP_RBP : Z := 5.
Definition BINARY_GP_RSI : Z := 6.
Definition BINARY_GP_R12 : Z := 12.
Definition BINARY_GP_R13 : Z := 13.
Definition BINARY_GP_R14 : Z := 14.
Definition BINARY_GP_R15 : Z := 15.
#[local] Abbreviation BINARY_GP_RCX := CallConv.BINARY_GP_RCX.
#[local] Abbreviation BINARY_GP_RDI := CallConv.BINARY_GP_RDI.

Definition MIR_GP_BIT (r : Z) : Z := u32 (Z.shiftl 1 r).

Definition MIR_OPF_PURE_DEF : Z := 1.
Definition MIR_OPF_COMMUTATIVE : Z := 2.
Definition MIR_OPF_COALESCE_CANDIDATE : Z := 4.
Definition MIR_OPF_CALL_BARRIER : Z := 8.
Definition MIR_OPF_REAL_CALL : Z := 16.
Definition MIR_OPF_INLINE_KERNEL : Z := 32.
Definition MIR_OPF_PINS_RCX_WHEN_SHIFT_IS_VARIABLE : Z := 64.
Definition MIR_OPF_PINS_RCX_WHEN_COMPARE_IS_UNORDERED : Z := 128.
Definition MIR_OPF_CLOBBERS_EVERY_GP : Z := 256.
Definition MIR_OPF_CLOBBERS_LISTED_BY_KERNEL : Z := 512.

Record MirOpInfo := mkOpInfo { flags : Z; fixed_gp : Z }.

Definition MIR_RAX : Z := MIR_GP_BIT BINARY_GP_RAX.
Definition MIR_RCX : Z := MIR_GP_BIT BINARY_GP_RCX.
Definition MIR_RDX : Z := MIR_GP_BIT BINARY_GP_RDX.
Definition MIR_DEF : Z := MIR_OPF_PURE_DEF.
Definition MIR_COAL : Z := MIR_OPF_COALESCE_CANDIDATE.
Definition MIR_COMM : Z := Z.lor MIR_OPF_COMMUTATIVE MIR_OPF_COALESCE_CANDIDATE.
Definition MIR_BARRIER : Z := MIR_OPF_CALL_BARRIER.
Definition MIR_REALCALL : Z := Z.lor MIR_OPF_CALL_BARRIER MIR_OPF_REAL_CALL.
Definition MIR_KERNEL : Z := Z.lor MIR_OPF_CALL_BARRIER MIR_OPF_INLINE_KERNEL.

(** The table [MIR_OP_INFO]; an opcode without an entry has no flags. *)
Definition mir_op_info (o : MirOpcode) : MirOpInfo :=
  match o with
  | MIR_MOV => mkOpInfo (Z.lor MIR_DEF MIR_COAL) 0
  | MIR_LEA | MIR_LEA_LOCAL | MIR_LEA_GLOBAL | MIR_LEA_FUNC | MIR_LEA_CSTR | MIR_LEA_STRLIT | MIR_POPCNT | MIR_MOVZX | MIR_MOVSX => mkOpInfo MIR_DEF 0
  | MIR_ADD | MIR_AND | MIR_OR | MIR_XOR | MIR_IMUL => mkOpInfo (Z.lor MIR_DEF MIR_COMM) 0
  | MIR_SUB | MIR_NEG | MIR_NOT => mkOpInfo (Z.lor MIR_DEF MIR_COAL) 0
  | MIR_SHL | MIR_SHR | MIR_SAR => mkOpInfo (Z.lor (Z.lor MIR_DEF MIR_COAL) MIR_OPF_PINS_RCX_WHEN_SHIFT_IS_VARIABLE) 0
  | MIR_CQO | MIR_XOR_RDX => mkOpInfo 0 MIR_RDX
  | MIR_IDIV | MIR_DIV | MIR_MULHI => mkOpInfo 0 (Z.lor MIR_RAX MIR_RDX)
  | MIR_SETCC => mkOpInfo MIR_DEF MIR_RAX
  | MIR_CMOVCC => mkOpInfo MIR_DEF 0
  | MIR_FSETCC => mkOpInfo MIR_OPF_PINS_RCX_WHEN_COMPARE_IS_UNORDERED MIR_RAX
  | MIR_FADD | MIR_FMUL | MIR_FXOR => mkOpInfo (Z.lor MIR_DEF MIR_COMM) 0
  | MIR_FSUB | MIR_FDIV => mkOpInfo (Z.lor MIR_DEF MIR_COAL) 0
  | MIR_FDUP | MIR_FEXTHI | MIR_CVTSI2F | MIR_CVTF2SI | MIR_CVTF2F | MIR_MOVD_TO_XMM | MIR_MOVD_TO_GP | MIR_CVTPH2PS | MIR_CVTPS2PH => mkOpInfo MIR_DEF 0
  | MIR_CALL | MIR_CALL_INDIRECT | MIR_HEAP_NEW | MIR_REP_MOVSB | MIR_REP_STOSB | MIR_SYSCALL => mkOpInfo MIR_REALCALL 0
  | MIR_INLINE_ASM => mkOpInfo (Z.lor MIR_BARRIER MIR_OPF_CLOBBERS_EVERY_GP) 0
  | MIR_SIMD_SLP_MAC | MIR_SIMD_FILL | MIR_SIMD_AFFINE_MAP_F32 | MIR_SIMD_AFFINE_MAP_F64 | MIR_SIMD_SILU_F32 | MIR_SIMD_VLOOP => mkOpInfo MIR_KERNEL 0
  | MIR_IR_KERNEL => mkOpInfo (Z.lor MIR_KERNEL MIR_OPF_CLOBBERS_LISTED_BY_KERNEL) 0
  | _ => mkOpInfo 0 0
  end.

Definition mir_op_has (o : MirOpcode) (fs : Z) : bool := negb (Z.land (flags (mir_op_info o)) fs =? 0).
Definition mir_op_fixed_gp (o : MirOpcode) : Z := fixed_gp (mir_op_info o).

Definition mir_fsetcc_unordered_cc (c : Z) : Z := if c =? 0x94 then 0x9B else if c =? 0x95 then 0x9A else -1.

Definition mir_inst_fixed_gp (i : MirInst) : Z :=
  let info := mir_op_info (op i) in
  let mask := fixed_gp info in
  let mask := if negb (Z.land (flags info) MIR_OPF_PINS_RCX_WHEN_SHIFT_IS_VARIABLE =? 0) && negb (bool_decide (kind (opb i) = MIR_OPK_IMM)) then Z.lor mask MIR_RCX else mask in
  if negb (Z.land (flags info) MIR_OPF_PINS_RCX_WHEN_COMPARE_IS_UNORDERED =? 0) && (0 <=? mir_fsetcc_unordered_cc (cc i)) then Z.lor mask MIR_RCX else mask.

(** A shift by more than 31 is undefined. *)
Definition bit_of_reg (r : Z) : outcome Z := if 32 <=? r then Undef else Ret (MIR_GP_BIT r).

Definition mir_inst_pins_gp (i : MirInst) (reg : Z) : outcome bool :=
  if (reg <? 0) || (64 <=? reg) then Ret false else let! b := bit_of_reg reg in Ret (negb (Z.land (mir_inst_fixed_gp i) b =? 0)).

Definition MIR_X86_GP_ORDER : list Z := [BINARY_GP_RBX; BINARY_GP_R12; BINARY_GP_R13; BINARY_GP_R14; BINARY_GP_R15; BINARY_GP_RAX; BINARY_GP_RCX; BINARY_GP_RDX; BINARY_GP_RSI; BINARY_GP_RDI; 8; 9].
Definition MIR_X86_XMM_ORDER : list Z := [0; 1; 2; 3].

Record MirRegBank := mkBank { bank_rclass : MirRegClass; allocation_order : list Z }.
Record MirMachine := mkMachine { machine_name : string; banks : list MirRegBank; pinned_gp : Z; gp_register_count : Z }.

Definition mir_machine : MirMachine := mkMachine "x86-64" [mkBank MIR_RC_GP MIR_X86_GP_ORDER; mkBank MIR_RC_XMM MIR_X86_XMM_ORDER] (Z.lor (Z.lor MIR_RAX MIR_RCX) MIR_RDX) 16.

Definition mir_machine_gp_is_pinned (reg : Z) : outcome bool :=
  if (reg <? 0) || (64 <=? reg) then Ret false else let! b := bit_of_reg reg in Ret (negb (Z.land (pinned_gp mir_machine) b =? 0)).

(** The column [gp_clobbers] of [kMirIrKernels]. *)
Definition kernel_gp_clobbers : list Z := [0; 0; 0; 0; MIR_GP_BIT BINARY_GP_R14] ++ replicate 23 0.

Definition mir_ir_kernel_at (index : Z) : option Z :=
  if (index <? 0) || (Z.of_nat (length kernel_gp_clobbers) <=? index) then None else kernel_gp_clobbers !! Z.to_nat index.

Definition MIR_XMM_POOL : list Z := [0; 1; 2; 3].

(** * The state *)

Definition MIR_VERIFY_MAX_WORK : Z := 4000000.

Record MirVerify := mkVerify {
  n : nat;
  words : nat;
  live_in : list (list Z);
  defd_in : list (list Z);
  pred_head : list Z;
  pred_next : list Z;
  pred_from : list Z;
  pred_capacity : nat;
  has_def : list bool;
  mentioned : list bool;
  labels : list (string * Z);
  table_succ_capacity : nat
}.

Definition with_live (l : list (list Z)) (st : MirVerify) : MirVerify :=
  mkVerify (n st) (words st) l (defd_in st) (pred_head st) (pred_next st) (pred_from st) (pred_capacity st) (has_def st) (mentioned st) (labels st) (table_succ_capacity st).
Definition with_defd (d : list (list Z)) (st : MirVerify) : MirVerify :=
  mkVerify (n st) (words st) (live_in st) d (pred_head st) (pred_next st) (pred_from st) (pred_capacity st) (has_def st) (mentioned st) (labels st) (table_succ_capacity st).
Definition with_preds (hd nx from : list Z) (cap : nat) (st : MirVerify) : MirVerify :=
  mkVerify (n st) (words st) (live_in st) (defd_in st) hd nx from cap (has_def st) (mentioned st) (labels st) (table_succ_capacity st).
Definition with_table_room (cap : nat) (st : MirVerify) : MirVerify :=
  mkVerify (n st) (words st) (live_in st) (defd_in st) (pred_head st) (pred_next st) (pred_from st) (pred_capacity st) (has_def st) (mentioned st) (labels st) cap.

Definition mir_verify_fail (fn : MirFunction) : bool * MirFunction := (false, set_error fn).

Definition mir_verify_bit_set (set : list Z) (v : Z) : outcome (list Z) :=
  let! w := get set (Z.shiftr v 6) in put set (Z.shiftr v 6) (Z.lor w (u64 (Z.shiftl 1 (Z.land v 63)))).
Definition mir_verify_bit_clear (set : list Z) (v : Z) : outcome (list Z) :=
  let! w := get set (Z.shiftr v 6) in put set (Z.shiftr v 6) (Z.land w (u64 (Z.lnot (u64 (Z.shiftl 1 (Z.land v 63)))))).
Definition mir_verify_bit_get (set : list Z) (v : Z) : outcome bool :=
  let! w := get set (Z.shiftr v 6) in Ret (Z.odd (Z.shiftr w (Z.land v 63))).

(** * Instructions *)

Definition mir_verify_dst_is_read (i : MirInst) : bool := bool_decide (op i = MIR_CMOV) || bool_decide (op i = MIR_CMOVCC).

Definition mir_verify_operand_vregs (o : MirOperand) : list Z :=
  match kind o with
  | MIR_OPK_VREG => [vreg o]
  | MIR_OPK_MEM => [base (mem o); index (mem o)]
  | _ => []
  end.

Definition mir_verify_uses (i : MirInst) : list Z :=
  (if bool_decide (kind (dst i) = MIR_OPK_MEM) || mir_verify_dst_is_read i then mir_verify_operand_vregs (dst i) else []) ++
  mir_verify_operand_vregs (opa i) ++ mir_verify_operand_vregs (opb i).

Definition mir_verify_def (i : MirInst) : Z := if bool_decide (kind (dst i) = MIR_OPK_VREG) then vreg (dst i) else MIR_VREG_NONE.

Definition mir_verify_valid (st : MirVerify) (v : Z) : bool := (0 <=? v) && (v <? Z.of_nat (n st)).

(** * Control flow *)

Definition mir_verify_find_label (st : MirVerify) (name : option string) : Z :=
  match name with
  | None => -1
  | Some name => match list_find (fun l => l.1 = name) (labels st) with Some (_, l) => l.2 | None => -1 end
  end.

(** Room for one more target behind [count]. *)
Definition mir_verify_push_table_succ (count : nat) (st : MirVerify) (h : heap) : bool * MirVerify * heap :=
  if (count =? table_succ_capacity st)%nat then
    let (ok, h) := alloc h in
    if ok then (true, with_table_room (if (table_succ_capacity st =? 0)%nat then 64%nat else (table_succ_capacity st * 2)%nat) st, h) else (false, st, h)
  else (true, st, h).

Fixpoint table_targets (names : list (option string)) (found : list Z) (st : MirVerify) (h : heap) : option (list Z) * MirVerify * heap :=
  match names with
  | [] => (Some found, st, h)
  | name :: names =>
      let target := mir_verify_find_label st name in
      if target <? 0 then (None, st, h)
      else
        let '(ok, st, h) := mir_verify_push_table_succ (length found) st h in
        if negb ok then (None, st, h) else table_targets names (found ++ [target]) st h
  end.

(** The targets of a branch and the next instruction, if it can come next. *)
Definition branch_and_fall (fn : MirFunction) (i : Z) (out : list Z) (fall : bool) : option (list Z) :=
  if existsb (fun t => t <? 0) out then None else Some (out ++ if fall && (i + 1 <? Z.of_nat (insn_count fn)) then [i + 1] else []).

(** The successors of an instruction, and those in its table. *)
Definition mir_verify_successors (fn : MirFunction) (i : Z) (st : MirVerify) (h : heap) : outcome (option (list Z * list Z) * MirVerify * heap) :=
  let! x := get (insns fn) i in
  let plain out fall := Ret (option_map (fun out => (out, [])) (branch_and_fall fn i out fall), st, h) in
  match op x with
  | MIR_JMP => plain [mir_verify_find_label st (sym (dst x))] false
  | MIR_JCC | MIR_CMPBR | MIR_FCMPBR => plain [mir_verify_find_label st (sym (dst x))] true
  | MIR_JMP_TABLE =>
      match aux x with
      | AuxNull => Ret (None, st, h)
      | AuxTable names => let '(table, st, h) := table_targets names [] st h in Ret (option_map (fun table => ([], table)) table, st, h)
      | _ => Undef
      end
  | MIR_RET | MIR_TRAP => plain [] false
  | _ => plain [] true
  end.

Definition mir_verify_live_out (fn : MirFunction) (i : Z) (st : MirVerify) (h : heap) : outcome (option (list Z) * MirVerify * heap) :=
  let! (ss, st, h) := mir_verify_successors fn i st h in
  match ss with
  | None => Ret (None, st, h)
  | Some (succ, table) =>
      let! out := join_rows (live_in st) succ (replicate (words st) 0) in
      let! out := join_rows (live_in st) table out in
      Ret (Some out, st, h)
  end.

(** There is room for one more. *)
Definition push_pred (to from : Z) (st : MirVerify) (h : heap) : outcome (bool * MirVerify * heap) :=
  let! hd := get (pred_head st) to in
  let! heads := put (pred_head st) to (Z.of_nat (length (pred_from st))) in
  Ret (true, with_preds heads (pred_next st ++ [hd]) (pred_from st ++ [from]) (pred_capacity st) st, h).

Definition mir_verify_add_pred (to from : Z) (st : MirVerify) (h : heap) : outcome (bool * MirVerify * heap) :=
  if (length (pred_from st) =? pred_capacity st)%nat then
    let cap := if (pred_capacity st =? 0)%nat then 256%nat else (pred_capacity st * 2)%nat in
    let (ok, h) := alloc h in
    if negb ok then Ret (false, st, h)
    else
      let (ok, h) := alloc h in
      if negb ok then Ret (false, st, h) else push_pred to from (with_preds (pred_head st) (pred_next st) (pred_from st) cap st) h
  else push_pred to from st h.

Fixpoint add_preds (ts : list Z) (from : Z) (st : MirVerify) (h : heap) : outcome (bool * MirVerify * heap) :=
  match ts with
  | [] => Ret (true, st, h)
  | t :: ts => let! (ok, st, h) := mir_verify_add_pred t from st h in if negb ok then Ret (false, st, h) else add_preds ts from st h
  end.

(** The instructions [xs], which are those from the [i]th on. *)
Fixpoint pred_loop (fn : MirFunction) (xs : list MirInst) (i : Z) (st : MirVerify) (h : heap) : outcome (bool * MirVerify * heap) :=
  match xs with
  | [] => Ret (true, st, h)
  | x :: xs =>
      if bool_decide (op x = MIR_NOP) then
        let! (ok, st, h) := if i + 1 <? Z.of_nat (insn_count fn) then mir_verify_add_pred (i + 1) i st h else Ret (true, st, h) in
        if negb ok then Ret (false, st, h) else pred_loop fn xs (i + 1) st h
      else
        let! (ss, st, h) := mir_verify_successors fn i st h in
        match ss with
        | None => Ret (false, st, h)
        | Some (succ, table) =>
            let! (ok, st, h) := add_preds succ i st h in
            if negb ok then Ret (false, st, h)
            else
              let! (ok, st, h) := add_preds table i st h in
              if negb ok then Ret (false, st, h) else pred_loop fn xs (i + 1) st h
        end
  end.

Definition mir_verify_build_preds (fn : MirFunction) (st : MirVerify) (h : heap) : outcome (bool * MirVerify * heap) :=
  let (ok, h) := alloc h in
  if negb ok then Ret (false, st, h) else pred_loop fn (insns fn) 0 (with_preds (replicate (insn_count fn) (-1)) [] [] (pred_capacity st) st) h.

(** * The two analyses *)

(** [if (mir_verify_valid(st, v)) mir_verify_bit_set(set, v)] for each [v]. *)
Fixpoint set_valid (st : MirVerify) (vs : list Z) (set : list Z) : outcome (list Z) :=
  match vs with
  | [] => Ret set
  | v :: vs => let! set := if mir_verify_valid st v then mir_verify_bit_set set v else Ret set in set_valid st vs set
  end.

Definition mir_verify_defd_out (fn : MirFunction) (st : MirVerify) (i : Z) : outcome (list Z) :=
  let! x := get (insns fn) i in
  let! out := get (defd_in st) i in
  if bool_decide (op x = MIR_NOP) then Ret out else set_valid st [mir_verify_def x] out.

(** [[for (e = pred_head[i]; e >= 0; e = pred_next[e])]], over the
    predecessors met. *)
Fixpoint join_preds (fn : MirFunction) (i : Z) (ps : list Z) (st : MirVerify) (changed : bool) : outcome (MirVerify * bool) :=
  match ps with
  | [] => Ret (st, changed)
  | p :: ps =>
      let! out := mir_verify_defd_out fn st p in
      let! cur := get (defd_in st) i in
      let next := zip_with Z.lor cur out in
      let! rows := put (defd_in st) i next in
      join_preds fn i ps (with_defd rows st) (changed || negb (bool_decide (next = cur)))
  end.

(** The instructions from the [i]th on, [k] of them. *)
Fixpoint defined_round (fn : MirFunction) (k : nat) (i : Z) (st : MirVerify) (changed : bool) : outcome (MirVerify * bool) :=
  match k with
  | O => Ret (st, changed)
  | S k =>
      let! e := get (pred_head st) i in
      let! ps := chain (S (length (pred_from st))) (pred_next st) (pred_from st) e in
      let! (st, changed) := join_preds fn i ps st changed in
      defined_round fn k (i + 1) st changed
  end.

(** At most [k] rounds. *)
Fixpoint defined_rounds (fn : MirFunction) (k : nat) (st : MirVerify) : outcome (bool * MirVerify) :=
  match k with
  | O => Ret (false, st)
  | S k =>
      let! (st, changed) := defined_round fn (insn_count fn - 1) 1 st false in
      if changed : bool then defined_rounds fn k st else Ret (true, st)
  end.

Definition MAX_ROUNDS : nat := Z.to_nat 10000.

Definition entry_values (fn : MirFunction) : list Z :=
  mjoin ((fun p => [p_vreg p; p_sysv_storage p]) <$> params fn) ++ if returns_indirect fn then [indirect_return_vreg fn] else [].

Definition mir_verify_compute_defined (fn : MirFunction) (st : MirVerify) : outcome (bool * MirVerify) :=
  let! rows :=
    if existsb (mir_verify_valid st) (entry_values fn) then
      let! entry := get (defd_in st) 0 in let! entry := set_valid st (entry_values fn) entry in put (defd_in st) 0 entry
    else Ret (defd_in st) in
  defined_rounds fn MAX_ROUNDS (with_defd rows st).

(** The registers live before an instruction, those live behind it being
    [out]. *)
Definition live_before (st : MirVerify) (x : MirInst) (out : list Z) : outcome (list Z) :=
  let! out := if mir_verify_valid st (mir_verify_def x) then mir_verify_bit_clear out (mir_verify_def x) else Ret out in
  set_valid st (mir_verify_uses x) out.

(** The instructions below the [k]th, from the last. *)
Fixpoint liveness_round (fn : MirFunction) (k : nat) (st : MirVerify) (changed : bool) (h : heap) : outcome (option bool * MirVerify * heap) :=
  match k with
  | O => Ret (Some changed, st, h)
  | S i =>
      let! x := get (insns fn) (Z.of_nat i) in
      let! cur := get (live_in st) (Z.of_nat i) in
      if bool_decide (op x = MIR_NOP) then
        if (S i <? insn_count fn)%nat then
          let! next := get (live_in st) (Z.of_nat (S i)) in
          let! rows := put (live_in st) (Z.of_nat i) next in
          liveness_round fn i (with_live rows st) (changed || negb (bool_decide (cur = next))) h
        else liveness_round fn i st changed h
      else
        let! (out, st, h) := mir_verify_live_out fn (Z.of_nat i) st h in
        match out with
        | None => Ret (None, st, h)
        | Some out =>
            let! next := live_before st x out in
            let! rows := put (live_in st) (Z.of_nat i) next in
            liveness_round fn i (with_live rows st) (changed || negb (bool_decide (cur = next))) h
        end
  end.

Fixpoint liveness_rounds (fn : MirFunction) (k : nat) (st : MirVerify) (h : heap) : outcome (bool * MirVerify * heap) :=
  match k with
  | O => Ret (false, st, h)
  | S k =>
      let! (changed, st, h) := liveness_round fn (insn_count fn) st false h in
      match changed with
      | None => Ret (false, st, h)
      | Some true => liveness_rounds fn k st h
      | Some false => Ret (true, st, h)
      end
  end.

Definition mir_verify_compute_liveness (fn : MirFunction) (st : MirVerify) (h : heap) : outcome (bool * MirVerify * heap) :=
  liveness_rounds fn MAX_ROUNDS st h.

(** * Checks *)

Definition mir_verify_gp_survives_barrier (abi : CallConv.AbiState) (x : MirInst) (phys : Z) : bool :=
  let sysv := CallConv.counts_classes_separately (CallConv.code_generator_binary_active_abi abi) in
  if bool_decide (phys ∈ [BINARY_GP_RBX; BINARY_GP_RBP; BINARY_GP_R12; BINARY_GP_R13; BINARY_GP_R14; BINARY_GP_R15]) then true
  else if bool_decide (phys ∈ [BINARY_GP_RSI; BINARY_GP_RDI]) then negb sysv
  else if phys =? BINARY_GP_RAX then bool_decide (op x = MIR_CALL) && preserves_rax x
  else false.

Definition mir_verify_xmm_survives_barrier (x : MirInst) (phys : Z) : bool :=
  if negb (bool_decide (op x = MIR_CALL)) || negb (preserves_xmm x) then false else bool_decide (phys ∈ MIR_XMM_POOL).

Definition in_class (c d : MirRegClass) : bool :=
  match c, d with MIR_RC_GP, MIR_RC_GP | MIR_RC_XMM, MIR_RC_XMM | MIR_RC_VEC, MIR_RC_VEC => true | _, _ => false end.

Definition mir_verify_gp_clobbers (x : MirInst) : outcome Z :=
  let m := mir_inst_fixed_gp x in
  let m := if bool_decide (kind (dst x) = MIR_OPK_PHYS) && in_class (rclass (dst x)) MIR_RC_GP && (0 <=? phys (dst x)) && (phys (dst x) <? 16)
           then Z.lor m (MIR_GP_BIT (phys (dst x))) else m in
  let! m :=
    if mir_op_has (op x) MIR_OPF_CLOBBERS_LISTED_BY_KERNEL then
      match aux x with
      | AuxNull => Ret m
      | AuxKernel k => Ret (match mir_ir_kernel_at k with Some c => Z.lor m c | None => m end)
      | _ => Undef
      end
    else Ret m in
  Ret (if mir_op_has (op x) MIR_OPF_CLOBBERS_EVERY_GP then Z.lor m 0xFFFF else m).

Definition mir_verify_xmm_clobber (x : MirInst) : Z := if bool_decide (kind (dst x) = MIR_OPK_PHYS) && in_class (rclass (dst x)) MIR_RC_XMM then phys (dst x) else -1.

Definition flag (z : Z) : bool := negb (z =? 0).

(** Is value [v], live behind the instruction, unharmed by it? *)
Definition value_survives (fn : MirFunction) (abi : CallConv.AbiState) (st : MirVerify) (x : MirInst) (gp_clobbers : Z) (v : nat) : outcome bool :=
  if (n st <=? v)%nat then Ret true
  else
    let! defined := get (has_def st) (Z.of_nat v) in
    if negb defined then Ret true
    else
      let! vr := get (vregs fn) (Z.of_nat v) in
      let d := mir_verify_def x in
      if negb (flag (v_in_register vr)) || (Z.of_nat v =? d) then Ret true
      else
        let! shared :=
          if mir_verify_valid st d then
            let! dv := get (vregs fn) d in
            let! dd := get (has_def st) d in
            Ret (flag (v_in_register dv) && dd && in_class (v_rclass dv) (v_rclass vr) && (v_phys dv =? v_phys vr))
          else Ret false in
        if shared : bool then Ret false
        else if in_class (v_rclass vr) MIR_RC_GP && (0 <=? v_phys vr) && (v_phys vr <? 16) && negb (Z.land gp_clobbers (MIR_GP_BIT (v_phys vr)) =? 0) then Ret false
        else if in_class (v_rclass vr) MIR_RC_XMM && (v_phys vr =? mir_verify_xmm_clobber x) then Ret false
        else if mir_op_has (op x) MIR_OPF_CALL_BARRIER then
          Ret (if in_class (v_rclass vr) MIR_RC_GP then mir_verify_gp_survives_barrier abi x (v_phys vr) else mir_verify_xmm_survives_barrier x (v_phys vr))
        else Ret true.

(** The bits of a word, from the lowest: [ctz] and [bits &= bits - 1]. *)
Definition set_bits (w : Z) : list nat := filter (fun b => Z.testbit w (Z.of_nat b) = true) (seq 0 64).

(** The members of a row, words from the [i]th on. *)
Fixpoint members (i : nat) (row : list Z) : list nat :=
  match row with [] => [] | w :: row => ((fun b => i * 64 + b)%nat <$> set_bits w) ++ members (S i) row end.

Fixpoint all_survive (fn : MirFunction) (abi : CallConv.AbiState) (st : MirVerify) (x : MirInst) (gp_clobbers : Z) (vs : list nat) : outcome bool :=
  match vs with
  | [] => Ret true
  | v :: vs => let! ok := value_survives fn abi st x gp_clobbers v in if ok : bool then all_survive fn abi st x gp_clobbers vs else Ret false
  end.

Definition mir_verify_check_insn (fn : MirFunction) (abi : CallConv.AbiState) (i : Z) (st : MirVerify) (h : heap) : outcome (bool * MirFunction * MirVerify * heap) :=
  let! x := get (insns fn) i in
  let! gp_clobbers := mir_verify_gp_clobbers x in
  if bool_decide (op x = MIR_NOP) then Ret (true, fn, st, h)
  else
    let! (out, st, h) := mir_verify_live_out fn i st h in
    match out with
    | None => Ret (mir_verify_fail fn, st, h)
    | Some out =>
        let! defd := get (defd_in st) i in
        let! ok := all_survive fn abi st x gp_clobbers (members 0 (zip_with Z.land out defd)) in
        Ret (if ok : bool then (true, fn) else mir_verify_fail fn, st, h)
    end.

(** Does value [v] have a register on entry that it needs? *)
Definition entry_register (fn : MirFunction) (st : MirVerify) (v : nat) : outcome (option MirVreg) :=
  let! defined := get (has_def st) (Z.of_nat v) in
  if negb defined then Ret None
  else
    let! live := get (live_in st) 0 in
    let! l := mir_verify_bit_get live (Z.of_nat v) in
    if negb l then Ret None
    else
      let! defd := get (defd_in st) 0 in
      let! d := mir_verify_bit_get defd (Z.of_nat v) in
      if negb d then Ret None
      else
        let! vr := get (vregs fn) (Z.of_nat v) in
        Ret (if flag (v_in_register vr) then Some vr else None).

(** Do none of the values [bs] have the register of [av]? *)
Fixpoint entry_alone (fn : MirFunction) (st : MirVerify) (av : MirVreg) (bs : list nat) : outcome bool :=
  match bs with
  | [] => Ret true
  | b :: bs =>
      let! bv := entry_register fn st b in
      match bv with
      | Some bv => if in_class (v_rclass bv) (v_rclass av) && (v_phys bv =? v_phys av) then Ret false else entry_alone fn st av bs
      | None => entry_alone fn st av bs
      end
  end.

Fixpoint entry_loop (fn : MirFunction) (st : MirVerify) (vs : list nat) : outcome bool :=
  match vs with
  | [] => Ret true
  | a :: vs =>
      let! av := entry_register fn st a in
      match av with
      | Some av => let! ok := entry_alone fn st av vs in if ok : bool then entry_loop fn st vs else Ret false
      | None => entry_loop fn st vs
      end
  end.

Definition mir_verify_check_entry (fn : MirFunction) (st : MirVerify) : outcome (bool * MirFunction) :=
  let! ok := entry_loop fn st (seq 0 (n st)) in Ret (if ok : bool then (true, fn) else mir_verify_fail fn).

Definition assigned_well (vr : MirVreg) : bool :=
  if negb (flag (v_assigned vr)) then false
  else if flag (v_in_register vr) then negb ((v_phys vr <? 0) || (16 <=? v_phys vr))
  else negb (v_spill_offset vr <=? 0).

Fixpoint assignments_loop (fn : MirFunction) (st : MirVerify) (vs : list nat) : outcome bool :=
  match vs with
  | [] => Ret true
  | v :: vs =>
      let! vr := get (vregs fn) (Z.of_nat v) in
      let! m := get (mentioned st) (Z.of_nat v) in
      if negb m then assignments_loop fn st vs else if assigned_well vr then assignments_loop fn st vs else Ret false
  end.

Definition mir_verify_check_assignments (fn : MirFunction) (st : MirVerify) : outcome (bool * MirFunction) :=
  let! ok := assignments_loop fn st (seq 0 (n st)) in Ret (if ok : bool then (true, fn) else mir_verify_fail fn).

(** * The verifier *)

Fixpoint mark_valid (st : MirVerify) (vs : list Z) (marks : list bool) : outcome (list bool) :=
  match vs with
  | [] => Ret marks
  | v :: vs => let! marks := if mir_verify_valid st v then put marks v true else Ret marks in mark_valid st vs marks
  end.

Definition is_label (x : MirInst) : bool := bool_decide (op x = MIR_LABEL) && bool_decide (kind (dst x) = MIR_OPK_LABEL) && bool_decide (is_Some (sym (dst x))).

Definition with_marks (hd ment : list bool) (ls : list (string * Z)) (st : MirVerify) : MirVerify :=
  mkVerify (n st) (words st) (live_in st) (defd_in st) (pred_head st) (pred_next st) (pred_from st) (pred_capacity st) hd ment ls (table_succ_capacity st).

(** The instructions [xs], which are those from the [i]th on. *)
Fixpoint mention_loop (xs : list MirInst) (i : Z) (st : MirVerify) : outcome MirVerify :=
  match xs with
  | [] => Ret st
  | x :: xs =>
      if is_label x then
        match sym (dst x) with
        | Some name => mention_loop xs (i + 1) (with_marks (has_def st) (mentioned st) (labels st ++ [(name, i)]) st)
        | None => Undef
        end
      else if bool_decide (op x = MIR_NOP) then mention_loop xs (i + 1) st
      else
        let! defs := mark_valid st [mir_verify_def x] (has_def st) in
        let! ments := mark_valid st [mir_verify_def x] (mentioned st) in
        let! ments := mark_valid st (mir_verify_uses x) ments in
        mention_loop xs (i + 1) (with_marks defs ments (labels st) st)
  end.

(** No state when the function is too big; none and [false] without memory. *)
Inductive init_result := Init_skip | Init_failed | Init_ok (st : MirVerify).

Definition mir_verify_init (fn : MirFunction) (h : heap) : outcome (init_result * heap) :=
  let w := ((vreg_count fn + 63) / 64)%nat in
  if Z.of_nat (insn_count fn) * Z.of_nat w >? MIR_VERIFY_MAX_WORK then Ret (Init_skip, h)
  else
    let (ok, h) := alloc_many 7 h in
    if negb ok then Ret (Init_failed, h)
    else
      let zero := replicate (insn_count fn) (replicate w 0) in
      let none := replicate (vreg_count fn) false in
      let! st := mention_loop (insns fn) 0 (mkVerify (vreg_count fn) w zero zero [] [] [] 0 none none [] 0) in
      let! defs := mark_valid st (entry_values fn) (has_def st) in
      let! (ok, st, h) := mir_verify_build_preds fn (with_marks defs (mentioned st) (labels st) st) h in
      Ret (if ok : bool then Init_ok st else Init_failed, h).

Definition mir_verify_analyse (fn : MirFunction) (st : MirVerify) (h : heap) : outcome (bool * MirVerify * heap) :=
  let! (ok, st, h) := mir_verify_compute_liveness fn st h in
  if negb ok then Ret (false, st, h) else let! (ok, st) := mir_verify_compute_defined fn st in Ret (ok, st, h).

(** The instructions from the [i]th on, [k] of them. *)
Fixpoint insn_loop (fn : MirFunction) (abi : CallConv.AbiState) (k : nat) (i : Z) (st : MirVerify) (h : heap) : outcome (bool * MirFunction * heap) :=
  match k with
  | O => Ret (true, fn, h)
  | S k => let! (ok, fn, st, h) := mir_verify_check_insn fn abi i st h in if negb ok then Ret (false, fn, h) else insn_loop fn abi k (i + 1) st h
  end.

Definition mir_regalloc_verify (fn : MirFunction) (abi : CallConv.AbiState) (h : heap) : outcome (bool * MirFunction * heap) :=
  if (vreg_count fn =? 0)%nat || (insn_count fn =? 0)%nat then Ret (true, fn, h)
  else
    let! (init, h) := mir_verify_init fn h in
    match init with
    | Init_skip | Init_failed => Ret (true, fn, h)
    | Init_ok st =>
        let! (ok, st, h) := mir_verify_analyse fn st h in
        if negb ok then Ret (mir_verify_fail fn, h)
        else
          let! (ok, fn) := mir_verify_check_assignments fn st in
          if negb ok then Ret (false, fn, h)
          else
            let! (ok, fn) := mir_verify_check_entry fn st in
            if negb ok then Ret (false, fn, h) else insn_loop fn abi (insn_count fn) 0 st h
    end.

(** * Breaking an allocation, to try the verifier *)

Definition with_phys (p : Z) (v : MirVreg) : MirVreg :=
  mkVreg (v_rclass v) (v_width v) (v_lanes v) (v_assigned v) (v_in_register v) p (v_spill_offset v) (v_live_start v) (v_live_end v) (v_crosses_call v)
    (v_loop_carried v) (v_coalesce_hint v) (v_address_taken v) (v_home_bytes v) (v_home_width v) (v_home_signed v) (v_home_granule v) (v_entry_live v)
    (v_crosses_preserving_only v) (v_crosses_xmm_preserving_only v) (v_coalesced_into v).

(** The first value among [vs] that is live in a register of the class. *)
Fixpoint victim (fn : MirFunction) (st : MirVerify) (d : Z) (dv : MirVreg) (out defd : list Z) (vs : list nat) : outcome (option MirVreg) :=
  match vs with
  | [] => Ret None
  | v :: vs =>
      let! vr := get (vregs fn) (Z.of_nat v) in
      let! defined := get (has_def st) (Z.of_nat v) in
      if (Z.of_nat v =? d) || negb defined || negb (flag (v_in_register vr)) || negb (in_class (v_rclass vr) (v_rclass dv)) then victim fn st d dv out defd vs
      else
        let! l := mir_verify_bit_get out (Z.of_nat v) in
        if negb l then victim fn st d dv out defd vs
        else let! df := mir_verify_bit_get defd (Z.of_nat v) in if negb df then victim fn st d dv out defd vs else Ret (Some vr)
  end.

Fixpoint sabotage_loop (fn : MirFunction) (k : nat) (i : Z) (st : MirVerify) (h : heap) : outcome (MirFunction * heap) :=
  match k with
  | O => Ret (fn, h)
  | S k =>
      let! x := get (insns fn) i in
      let d := mir_verify_def x in
      if bool_decide (op x = MIR_NOP) || negb (mir_verify_valid st d) then sabotage_loop fn k (i + 1) st h
      else
        let! dv := get (vregs fn) d in
        if negb (flag (v_in_register dv)) then sabotage_loop fn k (i + 1) st h
        else
          let! (out, st, h) := mir_verify_live_out fn i st h in
          match out with
          | None => sabotage_loop fn k (i + 1) st h
          | Some out =>
              let! defd := get (defd_in st) i in
              let! vr := victim fn st d dv out defd (seq 0 (n st)) in
              match vr with
              | None => sabotage_loop fn k (i + 1) st h
              | Some vr => let! vs := put (vregs fn) d (with_phys (v_phys vr) dv) in Ret (set_vregs vs (vreg_capacity fn) fn, h)
              end
          end
  end.

Definition mir_regalloc_verify_sabotage (fn : MirFunction) (h : heap) : outcome (MirFunction * heap) :=
  let! (init, h) := mir_verify_init fn h in
  match init with
  | Init_skip | Init_failed => Ret (fn, h)
  | Init_ok st =>
      let! (ok, st, h) := mir_verify_analyse fn st h in
      if negb ok then Ret (fn, h) else sabotage_loop fn (insn_count fn) 0 st h
  end.
End MirVerify.
