(* ===== verification/MirVerifyFlow.v ===== *)
(** The verifier's view of control flow: its successors and predecessors are
    the ways control passes between instructions. *)
From S2P Require Import Prelude Mir Probe MirCfg CfgGraph CfgSets MirVerify.
#[local] Open Scope Z_scope.

Module MirVerifyFlow.
Import Mir Probe Cfg CfgGraph CfgSets MirVerify.

(** * Steps *)

(** All requests are granted. *)
Definition grants_all (h : heap) : Prop := forall k, heap_grants h k = true.

(** The step returns; it succeeds if memory is granted and [G]; and what it
    then gives is good. *)
Definition gets {A} (G : Prop) (h : heap) (P : A -> MirVerify -> Prop) (m : outcome (option A * MirVerify * heap)) : Prop :=
  exists res st h', m = Ret (res, st, h') /\ heap_grants h' = heap_grants h /\ (grants_all h -> G -> res <> None) /\ forall a, res = Some a -> P a st.

Definition does (G : Prop) (h : heap) (P : MirVerify -> Prop) (m : outcome (bool * MirVerify * heap)) : Prop :=
  exists ok st h', m = Ret (ok, st, h') /\ heap_grants h' = heap_grants h /\ (grants_all h -> G -> ok = true) /\ (ok = true -> P st).

Lemma grants_same h h' : heap_grants h' = heap_grants h -> grants_all h -> grants_all h'.
Proof. intros E H k. by rewrite E. Qed.

Lemma gets_some {A} G h (P : A -> MirVerify -> Prop) a st : P a st -> gets G h P (Ret (Some a, st, h)).
Proof. intros H. exists (Some a), st, h. split; [done|]. split; [done|]. split; [done|]. by intros b [= <-]. Qed.
Lemma gets_none {A} (G : Prop) h (P : A -> MirVerify -> Prop) st : ~ G -> gets G h P (Ret (None, st, h)).
Proof. intros H. by exists None, st, h. Qed.
Lemma does_true G h (P : MirVerify -> Prop) st : P st -> does G h P (Ret (true, st, h)).
Proof. intros H. by exists true, st, h. Qed.
Lemma does_false (G : Prop) h (P : MirVerify -> Prop) st : ~ G -> does G h P (Ret (false, st, h)).
Proof. intros H. by exists false, st, h. Qed.

Lemma does_heap G h h1 P m : heap_grants h1 = heap_grants h -> does G h1 P m -> does G h P m.
Proof.
  intros E (ok & st & h2 & Em & E2 & Hg & HP). exists ok, st, h2. split; [done|]. split; [congruence|]. split; [|done]. intros Hh. apply Hg. by apply (grants_same h).
Qed.

Lemma gets_heap {A} G h h1 (P : A -> MirVerify -> Prop) m : heap_grants h1 = heap_grants h -> gets G h1 P m -> gets G h P m.
Proof.
  intros E (ok & st & h2 & Em & E2 & Hg & HP). exists ok, st, h2. split; [done|]. split; [congruence|]. split; [|done]. intros Hh. apply Hg. by apply (grants_same h).
Qed.

Lemma does_weaken G h (P Q : MirVerify -> Prop) m : does G h P m -> (forall st, P st -> Q st) -> does G h Q m.
Proof. intros (ok & st & h' & E & Eh & Hg & HP) H. exists ok, st, h'. split; [done|]. split; [done|]. split; [done|]. intros Hok. by apply H, HP. Qed.

Lemma does_mono (G G' : Prop) h P m : (G' -> G) -> does G h P m -> does G' h P m.
Proof. intros HG (ok & st & h' & E & Eh & Hg & HP). exists ok, st, h'. split; [done|]. split; [done|]. split; [|done]. intros Hh Hg'. by apply Hg, HG. Qed.

(** One step after another. *)
Lemma does_then G h P Q m (k : MirVerify -> heap -> outcome (bool * MirVerify * heap)) : does G h P m -> (forall st h, P st -> does G h Q (k st h)) ->
  does G h Q (let! (ok, st, h) := m in if negb ok then Ret (false, st, h) else k st h).
Proof.
  intros (ok & st & h1 & -> & Eh & Hg & HP) Hk. cbn [obind]. destruct ok; cbn [negb].
  - apply (does_heap G h h1 Q _ Eh). by apply Hk, HP.
  - exists false, st, h1. split; [done|]. split; [done|]. split; [|done]. intros Hh HG. by rewrite Hg in *.
Qed.

Lemma gets_then {A} G h (P : A -> MirVerify -> Prop) Q m (k : A -> MirVerify -> heap -> outcome (bool * MirVerify * heap)) : gets G h P m ->
  (forall a st h, P a st -> does G h Q (k a st h)) -> does G h Q (let! (res, st, h) := m in match res with None => Ret (false, st, h) | Some a => k a st h end).
Proof.
  intros (res & st & h1 & -> & Eh & Hg & HP) Hk. cbn [obind]. destruct res as [a|].
  - apply (does_heap G h h1 Q _ Eh). by apply Hk, HP.
  - exists false, st, h1. split; [done|]. split; [done|]. split; [|done]. intros Hh HG. by destruct (Hg Hh HG).
Qed.

(** * Labels *)

(** The labels of the instructions [xs], which are those from the [i]th on. *)
Fixpoint labels_from (i : Z) (xs : list MirInst) : list (string * Z) :=
  match xs with
  | [] => []
  | x :: xs => match (if is_label x then sym (dst x) else None) with Some name => (name, i) :: labels_from (i + 1) xs | None => labels_from (i + 1) xs end
  end.

Lemma find_label_from name xs : forall i : nat,
  match list_find (fun l => l.1 = name) (labels_from (Z.of_nat i) xs) with Some (_, l) => l.2 | None => -1 end =
  match label_at xs name with Some j => Z.of_nat (i + j) | None => -1 end.
Proof.
  unfold label_at. induction xs as [|x xs IH]; intros i; cbn [labels_from list_find]; [done|]. specialize (IH (S i)). replace (Z.of_nat (S i)) with (Z.of_nat i + 1) in IH by lia.
  change (mir_cfg_is_label x) with (is_label x). destruct (decide (is_label x = true /\ sym (dst x) = Some name)) as [[E1 E2]|Hne].
  - rewrite E1, E2. cbn [list_find fst]. rewrite decide_True by done. cbn. by rewrite Nat.add_0_r.
  - assert (match list_find (fun l => l.1 = name) (match (if is_label x then sym (dst x) else None) with Some n => (n, Z.of_nat i) :: labels_from (Z.of_nat i + 1) xs | None => labels_from (Z.of_nat i + 1) xs end)
      with Some (_, l) => l.2 | None => -1 end = match list_find (fun l => l.1 = name) (labels_from (Z.of_nat i + 1) xs) with Some (_, l) => l.2 | None => -1 end) as ->.
    { destruct (is_label x) eqn:E1; [|done]. destruct (sym (dst x)) as [s|] eqn:E2; [|done]. cbn [list_find fst]. rewrite decide_False by (intros ->; by apply Hne).
      by destruct (list_find _ _) as [[k l]|]. }
    rewrite IH. destruct (list_find _ xs) as [[k y]|]; cbn; [|done]. by rewrite Nat.add_succ_r.
Qed.

Section Flow.
Context (fn : MirFunction) (tables : tables_ok fn).

(** The verifier has the labels of the function. *)
Definition labelled_by (st : MirVerify) : Prop := labels st = labels_from 0 (insns fn).

Lemma find_label_ok st name : labelled_by st -> mir_verify_find_label st (Some name) = match label_at (insns fn) name with Some j => Z.of_nat j | None => -1 end.
Proof using. intros E. unfold mir_verify_find_label. rewrite E. apply (find_label_from name (insns fn) 0). Qed.

(** ** Successors *)

(** Only room is made. *)
Definition roomier (st st' : MirVerify) : Prop := exists cap, st' = with_table_room cap st.

Lemma roomier_refl st : roomier st st.
Proof using. exists (table_succ_capacity st). by destruct st. Qed.
Lemma roomier_trans a b c : roomier a b -> roomier b c -> roomier a c.
Proof using. intros [m ->] [k ->]. by exists k. Qed.

Definition label_found (name : option string) : Prop := exists n j, name = Some n /\ label_at (insns fn) n = Some j.

Lemma target_cases st name : labelled_by st ->
  (mir_verify_find_label st name = -1 /\ ~ label_found name) \/ exists n j, name = Some n /\ label_at (insns fn) n = Some j /\ mir_verify_find_label st name = Z.of_nat j.
Proof using.
  intros Hst. destruct name as [n|]; [|left; split; [done|by intros (? & ? & ? & ?)]]. rewrite (find_label_ok _ _ Hst). destruct (label_at (insns fn) n) as [j|] eqn:E; [right; by exists n, j|].
  left. split; [done|]. intros (? & ? & [= <-] & E'). congruence.
Qed.

Lemma table_targets_ok names : forall found st h, labelled_by st ->
  gets (Forall label_found names) h (fun l st' => roomier st st' /\ exists js, l = found ++ (Z.of_nat <$> js) /\ Forall2 (fun name j => exists n, name = Some n /\ label_at (insns fn) n = Some j) names js)
    (Ret (table_targets names found st h)).
Proof using.
  induction names as [|name names IH]; intros found st h Hst; cbn [table_targets].
  { apply gets_some. split; [apply roomier_refl|]. exists []. split; [by rewrite app_nil_r|constructor]. }
  destruct (target_cases st name Hst) as [[-> Hno]|(n & j & -> & Hj & ->)].
  { cbn [Z.ltb Z.compare]. apply gets_none. by intros [? _]%Forall_cons. }
  rewrite (proj2 (Z.ltb_ge _ 0)) by lia.
  assert (exists ok st1 h1, mir_verify_push_table_succ (length found) st h = (ok, st1, h1) /\ heap_grants h1 = heap_grants h /\ (grants_all h -> ok = true) /\ roomier st st1) as (ok & st1 & h1 & -> & Eh & Hok & Hr).
  { unfold mir_verify_push_table_succ. destruct (_ =? _)%nat; [|exists true, st, h; split; [done|]; split; [done|]; split; [done|apply roomier_refl]]. unfold alloc.
    destruct (heap_grants h (heap_calls h)) eqn:E; eexists _, _, _; (split; [done|]); (split; [done|]); (split; [|first [apply roomier_refl|by eexists]]); [done|]. intros Hh. by rewrite Hh in E. }
  destruct ok; cbn [negb].
  2:{ exists None, st1, h1. split; [done|]. split; [done|]. split; [|done]. intros Hh. by apply Hok in Hh. }
  apply (gets_heap _ h h1 _ _ Eh). destruct (IH (found ++ [Z.of_nat j]) st1 h1) as (res & st2 & h2 & E & E2 & Hg & HP); [by destruct Hr as [c ->]|].
  exists res, st2, h2. split; [done|]. split; [done|]. split; [intros Hh [_ Hall]%Forall_cons; by apply Hg|]. intros l El. destruct (HP l El) as (Hr2 & js & -> & Hjs). split; [by eapply roomier_trans|].
  exists (j :: js). rewrite <- app_assoc. split; [done|]. constructor; [by exists n|done].
Qed.

(** The labels that an instruction names are there. *)
Definition found_all (i : nat) : Prop := forall x names fall, insns fn !! i = Some x -> branch_targets x = Ret (Some (names, fall)) -> Forall label_found names.
Definition able (i : nat) : Prop := (forall x, insns fn !! i = Some x -> branch_targets x <> Ret None) /\ found_all i.

Definition successors_ok (i : nat) (st : MirVerify) (ss : list Z * list Z) (st' : MirVerify) : Prop :=
  roomier st st' /\ exists js, ss.1 ++ ss.2 = Z.of_nat <$> js /\ forall j, j ∈ js <-> insn_flow fn i j.

Lemma branch_and_fall_ok i names fall st x : labelled_by st -> insns fn !! i = Some x -> branch_targets x = Ret (Some (names, fall)) -> (length names <= 1)%nat ->
  let out := mir_verify_find_label st <$> names in
  (branch_and_fall fn (Z.of_nat i) out fall = None /\ ~ Forall label_found names) \/
  exists js, branch_and_fall fn (Z.of_nat i) out fall = Some (Z.of_nat <$> js) /\ forall j, j ∈ js <-> insn_flow fn i j.
Proof using.
  intros Hst Hx Hb Hl. cbv zeta. unfold branch_and_fall.
  assert (forall j, insn_flow fn i j <-> (exists name, Some name ∈ names /\ label_at (insns fn) name = Some j) \/ (fall = true /\ j = S i /\ (j < insn_count fn)%nat)) as Hflow.
  { intros j. split; [intros (x' & ns & fl & Hx' & Hb' & H); simplify_eq; by rewrite Hb in Hb'; simplify_eq|intros H; by exists x, names, fall]. }
  assert (exists falls, (if fall && (Z.of_nat i + 1 <? Z.of_nat (insn_count fn)) then [Z.of_nat i + 1] else []) = Z.of_nat <$> falls /\ forall j, j ∈ falls <-> fall = true /\ j = S i /\ (j < insn_count fn)%nat) as (falls & -> & Hfalls).
  { destruct fall; cbn [andb]; [destruct (Z.ltb_spec (Z.of_nat i + 1) (Z.of_nat (insn_count fn)))|].
    - exists [S i]. split; [cbn; f_equal; lia|]. intros j. rewrite list_elem_of_singleton. split; [intros ->; lia|by intros (_ & -> & _)].
    - exists []. split; [done|]. intros j. split; [by intros ?%not_elem_of_nil|lia].
    - exists []. split; [done|]. intros j. split; [by intros ?%not_elem_of_nil|by intros [? _]]. }
  destruct names as [|name [|]]; cbn [length fmap list_fmap existsb] in *; [|destruct (target_cases st name Hst) as [[-> Hno]|(n & t & -> & Ht & ->)]|lia].
  - right. exists falls. split; [done|]. intros j. rewrite Hfalls, Hflow. split; [by right|]. intros [(nm & Hnm & _)|H]; [by apply not_elem_of_nil in Hnm|done].
  - left. cbn [Z.ltb Z.compare orb]. split; [done|]. by intros [? _]%Forall_cons.
  - right. rewrite (proj2 (Z.ltb_ge _ 0)) by lia. cbn [orb]. exists (t :: falls). split; [done|]. intros j. rewrite elem_of_cons, Hfalls, Hflow. split.
    + intros [->|H]; [left; exists n; split; [left|done]|by right].
    + intros [(nm & Hnm & H)|H]; [|by right]. apply list_elem_of_singleton in Hnm as [= ->]. left. congruence.
Qed.

Lemma successors_spec i x st h : labelled_by st -> insns fn !! i = Some x -> gets (able i) h (successors_ok i st) (mir_verify_successors fn (Z.of_nat i) st h).
Proof using tables.
  intros Hst Hx. unfold mir_verify_successors. rewrite (get_nat _ _ _ Hx). cbn [obind].
  assert (forall names fall, branch_targets x = Ret (Some (names, fall)) -> (length names <= 1)%nat ->
    gets (able i) h (successors_ok i st) (Ret (option_map (fun out => (out, [])) (branch_and_fall fn (Z.of_nat i) (mir_verify_find_label st <$> names) fall), st, h))) as Hplain.
  { intros names fall Hb Hl. destruct (branch_and_fall_ok i names fall st x Hst Hx Hb Hl) as [[-> Hno]|(js & -> & Hjs)]; cbn [option_map].
    - apply gets_none. intros [_ Ha]. by apply Hno, (Ha x names fall).
    - apply gets_some. split; [apply roomier_refl|]. exists js. by rewrite app_nil_r. }
  destruct (op x) eqn:Eop; try (apply (Hplain [] true); [unfold branch_targets; by rewrite Eop|cbn; lia]);
    try (apply (Hplain [sym (dst x)] true); [unfold branch_targets; by rewrite Eop|cbn; lia]);
    try (apply (Hplain [] false); [unfold branch_targets; by rewrite Eop|cbn; lia]).
  - apply (Hplain [sym (dst x)] false); [unfold branch_targets; by rewrite Eop|cbn; lia].
  - destruct (tables i x Hx Eop) as [Ea|[names Ea]]; rewrite Ea.
    { apply gets_none. intros [Ha _]. apply (Ha x Hx). unfold branch_targets. by rewrite Eop, Ea. }
    assert (branch_targets x = Ret (Some (names, false))) as Hb by (unfold branch_targets; by rewrite Eop, Ea).
    destruct (table_targets_ok names [] st h Hst) as (res & st' & h' & E & Eh & Hg & HP). apply Ret_inj in E. rewrite E. exists (option_map (fun table => ([], table)) res), st', h'.
    split; [done|]. split; [done|]. split; [intros Hh [_ Ha]; destruct res; [done|]; intros _; by apply (Hg Hh); [apply (Ha x names false)|]|].
    intros ss Ess. destruct res as [l|]; [|done]. injection Ess as <-. destruct (HP l eq_refl) as (Hr & js & -> & Hjs). split; [done|]. exists js. cbn [fst snd app]. split; [done|].
    intros j. split.
    + intros [k Hk]%list_elem_of_lookup. destruct (Forall2_lookup_r _ _ _ _ _ Hjs Hk) as (name & Hname & n & -> & Hn). exists x, names, false. split; [done|]. split; [done|]. left. exists n.
      split; [by eapply list_elem_of_lookup_2|done].
    + intros (x' & ns & fl & Hx' & Hb' & H). simplify_eq. rewrite Hb in Hb'. simplify_eq. destruct H as [(n & [k Hk]%list_elem_of_lookup & Hn)|[? _]]; [|done].
      destruct (Forall2_lookup_l _ _ _ _ _ Hjs Hk) as (j' & Hj' & n' & [= <-] & Hn'). assert (j' = j) as -> by congruence. by eapply list_elem_of_lookup_2.
Qed.
End Flow.
End MirVerifyFlow.
