(* ===== verification/MirVerifyRows.v ===== *)
(** The verifier's predecessors and bit vectors: the chains of predecessors
    are those of control flow, and the rows of a last round without change are
    closed under the equations of the two analyses. *)
From S2P Require Import Prelude Mir Probe MirCfg CfgGraph CfgSets CfgLive MirVerify MirVerifyFlow.
#[local] Open Scope Z_scope.

Module MirVerifyRows.
Import Mir Probe Cfg CfgGraph CfgSets CfgLive MirVerify MirVerifyFlow.

(** All of the state but the predecessors and the room for a table. *)
Definition rest (st : MirVerify) := (n st, words st, live_in st, defd_in st, has_def st, mentioned st, labels st).

Lemma roomier_rest st st' : roomier st st' -> rest st' = rest st.
Proof. by intros [cap ->]. Qed.

Section Rows.
Context (fn : MirFunction) (tables : tables_ok fn).

(** * Predecessors *)

(** The chains hold the edges [es], the newest first. *)
Record pred_inv (st : MirVerify) (es : list (nat * nat)) : Prop := {
  pv_len : length (pred_next st) = length (pred_from st);
  pv_heads : length (pred_head st) = insn_count fn;
  pv_chain : forall b e, pred_head st !! b = Some e -> linked (pred_next st) (pred_from st) e (preds_of es b)
}.

Lemma roomier_preds st st' es : roomier st st' -> pred_inv st es -> pred_inv st' es.
Proof using. by intros [cap ->] [H1 H2 H3]. Qed.

Lemma add_pred_spec st es (from to : nat) h : pred_inv st es -> (to < insn_count fn)%nat ->
  does True h (fun st' => rest st' = rest st /\ pred_inv st' ((from, to) :: es)) (mir_verify_add_pred (Z.of_nat to) (Z.of_nat from) st h).
Proof using.
  intros [Hl Hh Hc] Hto. unfold mir_verify_add_pred.
  assert (forall cap h1, heap_grants h1 = heap_grants h -> does True h (fun st' => rest st' = rest st /\ pred_inv st' ((from, to) :: es))
    (push_pred (Z.of_nat to) (Z.of_nat from) (with_preds (pred_head st) (pred_next st) (pred_from st) cap st) h1)) as Hadd.
  { intros cap h1 Eh. apply (does_heap _ h h1 _ _ Eh). unfold push_pred. cbn [with_preds pred_head pred_next pred_from pred_capacity].
    destruct (lookup_lt_is_Some_2 (pred_head st) to) as [e He]; [lia|]. rewrite (get_nat _ _ _ He). cbn [obind]. rewrite put_nat by lia. cbn [obind].
    apply does_true. split; [done|]. split; cbn [with_preds pred_head pred_next pred_from].
    - rewrite !length_app. cbn [length]. lia.
    - by rewrite length_insert.
    - intros b e' Hb. rewrite preds_of_cons. destruct (decide (to = b)) as [<-|Hne].
      + rewrite list_lookup_insert_eq in Hb by lia. injection Hb as <-.
        apply (linked_cons _ _ _ _ e); [lia| | | |by apply linked_app, Hc].
        * apply get_nat. by rewrite lookup_app_r, Nat.sub_diag by lia.
        * apply get_nat. by rewrite lookup_app_r, Hl, Nat.sub_diag by lia.
        * eapply linked_head. by apply Hc.
      + rewrite list_lookup_insert_ne in Hb by done. by apply linked_app, Hc. }
  assert (with_preds (pred_head st) (pred_next st) (pred_from st) (pred_capacity st) st = st) as Est by (by destruct st).
  destruct (_ =? _)%nat; [|rewrite <- Est at 1; by apply Hadd].
  unfold alloc. destruct (heap_grants h (heap_calls h)) eqn:E1; cbn [negb].
  2:{ eexists false, _, _. split; [done|]. split; [done|]. split; [intros Hg; by rewrite Hg in E1|done]. }
  cbn [heap_grants heap_calls]. destruct (heap_grants h (S (heap_calls h))) eqn:E2; cbn [negb].
  2:{ eexists false, _, _. split; [done|]. split; [done|]. split; [intros Hg; by rewrite Hg in E2|done]. }
  by apply Hadd.
Qed.

Definition with_edges_to (st : MirVerify) (es : list (nat * nat)) (from : nat) (js : list nat) (st' : MirVerify) : Prop :=
  rest st' = rest st /\ exists es', pred_inv st' es' /\ forall f t, (f, t) ∈ es' <-> (f, t) ∈ es \/ (f = from /\ t ∈ js).

Lemma add_preds_spec from js : forall st es h, pred_inv st es -> Forall (fun j => (j < insn_count fn)%nat) js ->
  does True h (with_edges_to st es from js) (add_preds (Z.of_nat <$> js) (Z.of_nat from) st h).
Proof using.
  induction js as [|j js IH]; intros st es h Hst Hjs; cbn [fmap list_fmap add_preds].
  { apply does_true. split; [done|]. exists es. split; [done|]. intros f t. split; [by left|]. intros [H|[_ H]]; [done|by apply not_elem_of_nil in H]. }
  apply Forall_cons in Hjs as [Hj Hjs]. apply (does_then True h (fun st' => rest st' = rest st /\ pred_inv st' ((from, j) :: es))); [by apply add_pred_spec|].
  intros st1 h1 [E1 H1]. apply (does_weaken _ _ _ _ _ (IH st1 _ h1 H1 Hjs)). intros st2 (E2 & es2 & H2 & Hes). split; [congruence|]. exists es2. split; [done|].
  intros f t. rewrite Hes, !elem_of_cons. split; [intros [[[= -> ->]|H]|[-> H]]|intros [H|[-> [->|H]]]]; auto.
Qed.

Lemma flow_lt i j : insn_flow fn i j -> (j < insn_count fn)%nat.
Proof using. intros (x & ls & fl & _ & _ & [(name & _ & Hl%label_at_lt)|(_ & _ & H)]); done. Qed.

Lemma nop_flow i j x : insns fn !! i = Some x -> op x = MIR_NOP -> insn_flow fn i j <-> j = S i /\ (j < insn_count fn)%nat.
Proof using.
  intros Hx Hop. assert (branch_targets x = Ret (Some ([], true))) as Hb by (unfold branch_targets; by rewrite Hop). split.
  - intros (y & ls & fl & Hy & Hl & H). assert (y = x) as -> by congruence. rewrite Hb in Hl. injection Hl as <- <-.
    destruct H as [(name & H%not_elem_of_nil & _)|(_ & -> & H)]; done.
  - intros [-> H]. exists x, [], true. split; [done|]. split; [done|]. by right.
Qed.

Definition edges_before (i : nat) (es : list (nat * nat)) : Prop := forall f t, (f, t) ∈ es <-> (f < i)%nat /\ insn_flow fn f t.

Lemma edges_next i (js : list nat) es es' : edges_before i es -> (forall f t, (f, t) ∈ es' <-> (f, t) ∈ es \/ (f = i /\ t ∈ js)) -> (forall j, j ∈ js <-> insn_flow fn i j) -> edges_before (S i) es'.
Proof using.
  intros H1 H2 H3 f t. rewrite H2, (H1 f t). split.
  - intros [[H H']|[-> H]]; [split; [lia|done]|split; [lia|by apply H3]].
  - intros [H H']. destruct (decide (f = i)) as [->|]; [right; split; [done|by apply H3]|left; split; [lia|done]].
Qed.

(** All labels and tables of the function are there. *)
Definition all_able : Prop := forall i, able fn i.

Definition preds_done (st0 st' : MirVerify) : Prop := rest st' = rest st0 /\ exists es, pred_inv st' es /\ forall f t, (f, t) ∈ es <-> insn_flow fn f t.

Lemma pred_loop_spec xs : forall i st es h, drop i (insns fn) = xs -> labelled_by fn st -> pred_inv st es -> edges_before i es ->
  does all_able h (preds_done st) (pred_loop fn xs (Z.of_nat i) st h).
Proof using tables.
  induction xs as [|x xs IH]; intros i st es h Hd Hlab Hst Hes; cbn [pred_loop].
  { apply does_true. split; [done|]. exists es. split; [done|]. intros f t. rewrite (Hes f t). split; [by intros [_ H]|]. intros H. split; [|done].
    destruct H as (y & _ & _ & Hy & _). apply (f_equal length) in Hd. rewrite length_drop in Hd. cbn [length] in Hd. apply lookup_lt_Some in Hy. lia. }
  assert (insns fn !! i = Some x) as Hx by (by rewrite <- (Nat.add_0_r i), <- lookup_drop, Hd).
  assert (drop (S i) (insns fn) = xs) as Hd' by (by rewrite <- Nat.add_1_r, <- drop_drop, Hd).
  replace (Z.of_nat i + 1) with (Z.of_nat (S i)) by lia.
  assert (forall js st1 h1, (forall j, j ∈ js <-> insn_flow fn i j) -> with_edges_to st es i js st1 -> does all_able h1 (preds_done st) (pred_loop fn xs (Z.of_nat (S i)) st1 h1)) as Hnext.
  { intros js st1 h1 Hjs (E1 & es1 & H1 & Hes1). apply (does_weaken _ _ (preds_done st1)); [|intros st2 [E2 H2]; split; [congruence|done]].
    apply (IH _ st1 es1); [done|unfold labelled_by in *; injection E1; congruence|done|by apply (edges_next i js es)]. }
  case_bool_decide as Hnop.
  - destruct (Z.ltb_spec (Z.of_nat (S i)) (Z.of_nat (insn_count fn))) as [Hlt|Hge].
    + apply (does_then _ h (with_edges_to st es i [S i])).
      * apply (does_mono True); [done|]. apply (does_weaken _ _ (fun st' => rest st' = rest st /\ pred_inv st' ((i, S i) :: es))); [apply add_pred_spec; [done|lia]|].
        intros st1 [E1 H1]. split; [done|]. exists ((i, S i) :: es). split; [done|]. intros f t. rewrite elem_of_cons, list_elem_of_singleton. split; [intros [[= -> ->]|H]|intros [H|[-> ->]]]; auto.
      * intros st1 h1. apply Hnext. intros j. rewrite list_elem_of_singleton, (nop_flow i j x Hx Hnop). split; [intros ->; split; [done|lia]|by intros [-> _]].
    + cbn [obind negb]. apply (Hnext []).
      * intros j. rewrite (nop_flow i j x Hx Hnop). split; [by intros ?%not_elem_of_nil|lia].
      * split; [done|]. exists es. split; [done|]. intros f t. split; [by left|]. intros [H|[_ H]]; [done|by apply not_elem_of_nil in H].
  - apply (gets_then all_able h (successors_ok fn i st) (preds_done st)).
    { destruct (successors_spec fn tables i x st h Hlab Hx) as (r & st1 & h1 & E & Eh & Hg & HP). exists r, st1, h1. split; [done|]. split; [done|]. split; [|done].
      intros Hh Ha. by apply Hg. }
    intros [s t] st1 h1 (Hr & js & Ejs & Hjs). cbn [fst snd] in Ejs. symmetry in Ejs. destruct (fmap_app_inv _ _ _ _ Ejs) as (ss & ts & -> & -> & ->).
    assert (Forall (fun j => (j < insn_count fn)%nat) (ss ++ ts)) as [Hss Hts]%Forall_app by (apply Forall_forall; intros j Hj; apply (flow_lt i), Hjs, Hj).
    apply (does_then _ h1 (with_edges_to st1 es i ss)).
    { apply (does_mono True); [done|]. apply add_preds_spec; [by apply (roomier_preds st)|done]. }
    intros st2 h2 (E2 & es2 & H2 & Hes2). apply (does_then _ h2 (with_edges_to st2 es2 i ts)).
    { apply (does_mono True); [done|]. by apply add_preds_spec. }
    intros st3 h3 (E3 & es3 & H3 & Hes3). apply (Hnext (ss ++ ts)); [done|]. split; [rewrite E3, E2; by apply roomier_rest|]. exists es3. split; [done|].
    intros f t. rewrite Hes3, Hes2, elem_of_app. tauto.
Qed.

Lemma build_preds_spec st h : labelled_by fn st -> does all_able h (preds_done st) (mir_verify_build_preds fn st h).
Proof using tables.
  intros Hlab. unfold mir_verify_build_preds, alloc. destruct (heap_grants h (heap_calls h)) eqn:E1; cbn [negb].
  2:{ eexists false, _, _. split; [done|]. split; [done|]. split; [intros Hg; by rewrite Hg in E1|done]. }
  set (h1 := mkHeap _ _). apply (does_heap _ h h1); [done|]. set (st1 := with_preds _ _ _ _ _).
  apply (does_weaken _ _ (preds_done st1)); [|done]. apply (pred_loop_spec (insns fn) 0 st1 [] h1); [done|done| |].
  - split; [done|apply length_replicate|]. intros b e He. apply lookup_replicate in He as [-> _]. by constructor.
  - intros f t. split; [by intros ?%not_elem_of_nil|lia].
Qed.
End Rows.
End MirVerifyRows.
