(* ===== verification/MirVerifyLive.v ===== *)
(** The two analyses of the verifier: they return, and what they end in is
    closed under the equations of liveness and of definedness. *)
From S2P Require Import Prelude Mir Probe MirCfg CfgGraph CfgSets CfgLive MirVerify MirVerifyFlow MirVerifyRows.
#[local] Open Scope Z_scope.

Module MirVerifyLive.
Import Mir Probe Cfg CfgGraph CfgSets CfgLive MirVerify MirVerifyFlow MirVerifyRows.

Lemma gets_gets {A B} G h (P : A -> MirVerify -> Prop) (Q : B -> MirVerify -> Prop) m (k : A -> MirVerify -> heap -> outcome (option B * MirVerify * heap)) : gets G h P m ->
  (forall a st h, P a st -> gets G h Q (k a st h)) -> gets G h Q (let! (res, st, h) := m in match res with None => Ret (None, st, h) | Some a => k a st h end).
Proof.
  intros (res & st & h1 & -> & Eh & Hg & HP) Hk. cbn [obind]. destruct res as [a|].
  - apply (gets_heap G h h1 Q _ Eh). by apply Hk, HP.
  - exists None, st, h1. split; [done|]. split; [done|]. split; [|done]. intros Hh HG. by destruct (Hg Hh HG).
Qed.

Lemma gets_mono {A} (G G' : Prop) h (P Q : A -> MirVerify -> Prop) m : (G' -> G) -> (forall a st, P a st -> Q a st) -> gets G h P m -> gets G' h Q m.
Proof.
  intros HG HPQ (res & st & h' & E & Eh & Hg & HP). exists res, st, h'. split; [done|]. split; [done|]. split; [intros Hh Hg'; by apply Hg, HG|].
  intros a Ea. by apply HPQ, HP.
Qed.

Lemma join_rows_app rows a b out : join_rows rows (a ++ b) out = let! out := join_rows rows a out in join_rows rows b out.
Proof. revert out. induction a as [|k a IH]; intros out; [done|]. cbn [app join_rows]. destruct (get rows k); cbn [obind]; [apply IH|done..]. Qed.

Section Live.
Context (fn : MirFunction) (tables : tables_ok fn) (W : nat) (Hw : (vreg_count fn <= W * 64)%nat).

(** The instruction reads or writes the register, as the verifier has it. *)
Definition uses_reg (x : MirInst) (v : nat) : Prop := op x <> MIR_NOP /\ (v < vreg_count fn)%nat /\ Z.of_nat v ∈ mir_verify_uses x.
Definition sets_reg (x : MirInst) (v : nat) : Prop := op x <> MIR_NOP /\ (v < vreg_count fn)%nat /\ mir_verify_def x = Z.of_nat v.

Record shaped (st : MirVerify) : Prop := {
  sh_n : n st = vreg_count fn;
  sh_words : words st = W;
  sh_labels : labelled_by fn st;
  sh_live : rows_ok W (insn_count fn) (live_in st);
  sh_defd : rows_ok W (insn_count fn) (defd_in st);
  sh_preds : exists es, pred_inv fn st es /\ forall f t, (f, t) ∈ es <-> insn_flow fn f t
}.

Lemma shaped_roomier st st' : roomier st st' -> shaped st -> shaped st'.
Proof using. intros [cap ->] [H1 H2 H3 H4 H5 (es & [P1 P2 P3] & He)]. split; try done. by exists es. Qed.

Lemma shaped_live st l : rows_ok W (insn_count fn) l -> shaped st -> shaped (with_live l st).
Proof using. intros Hl [H1 H2 H3 H4 H5 (es & [P1 P2 P3] & He)]. split; try done. by exists es. Qed.

Lemma shaped_defd st l : rows_ok W (insn_count fn) l -> shaped st -> shaped (with_defd l st).
Proof using. intros Hl [H1 H2 H3 H4 H5 (es & [P1 P2 P3] & He)]. split; try done. by exists es. Qed.

Lemma valid_nat st v : shaped st -> mir_verify_valid st (Z.of_nat v) = true <-> (v < vreg_count fn)%nat.
Proof using Hw. intros [Hn _ _ _ _ _]. unfold mir_verify_valid. rewrite Hn. lia. Qed.

Lemma valid_inv st z : shaped st -> mir_verify_valid st z = true -> exists v, z = Z.of_nat v /\ (v < vreg_count fn)%nat.
Proof using Hw. intros [Hn _ _ _ _ _] H. unfold mir_verify_valid in H. rewrite Hn in H. exists (Z.to_nat z). lia. Qed.

(** * Single rows *)

Lemma set_valid_spec st vs : shaped st -> forall set, row_ok W set -> exists set', set_valid st vs set = Ret set' /\ row_ok W set' /\
  forall v, CfgSets.mem set' v = true <-> CfgSets.mem set v = true \/ ((v < vreg_count fn)%nat /\ Z.of_nat v ∈ vs).
Proof using Hw.
  intros Hst. induction vs as [|z vs IH]; intros set Hset; cbn [set_valid].
  { exists set. split; [done|]. split; [done|]. intros v. split; [by left|]. intros [H|[_ H]]; [done|by apply not_elem_of_nil in H]. }
  destruct (mir_verify_valid st z) eqn:Ez.
  - destruct (valid_inv st z Hst Ez) as (y & -> & Hy). destruct (set_add_spec W set y Hset) as (s1 & E1 & H1 & Hm); [lia|].
    assert (mir_verify_bit_set set (Z.of_nat y) = Ret s1) as -> by exact E1. cbn [obind].
    destruct (IH s1 H1) as (s2 & E2 & H2 & Hm2). exists s2. split; [done|]. split; [done|]. intros v. rewrite Hm2, Hm, orb_true_iff, bool_decide_eq_true, elem_of_cons. split.
    + intros [[H| ->]|[H H']]; auto.
    + intros [H|[H [H'|H']]]; [by left; left|left; right; lia|by right].
  - cbn [obind]. destruct (IH set Hset) as (s2 & E2 & H2 & Hm2). exists s2. split; [done|]. split; [done|]. intros v. rewrite Hm2, elem_of_cons. split.
    + intros [H|[H H']]; auto.
    + intros [H|[H [H'|H']]]; [by left| |by right]. apply (valid_nat st v Hst) in H. congruence.
Qed.

Lemma live_before_spec st x out : shaped st -> row_ok W out -> exists next, live_before st x out = Ret next /\ row_ok W next /\
  forall v, CfgSets.mem next v = true <-> (CfgSets.mem out v = true /\ ~ ((v < vreg_count fn)%nat /\ mir_verify_def x = Z.of_nat v)) \/ ((v < vreg_count fn)%nat /\ Z.of_nat v ∈ mir_verify_uses x).
Proof using Hw.
  intros Hst Hout. unfold live_before. destruct (mir_verify_valid st (mir_verify_def x)) eqn:Ez.
  - destruct (valid_inv st _ Hst Ez) as (y & Ey & Hy). rewrite Ey. destruct (set_clear_spec W out y Hout) as (s1 & E1 & H1 & Hm); [lia|].
    assert (mir_verify_bit_clear out (Z.of_nat y) = Ret s1) as -> by exact E1. cbn [obind].
    destruct (set_valid_spec st (mir_verify_uses x) Hst s1 H1) as (s2 & E2 & H2 & Hm2). exists s2. split; [done|]. split; [done|]. intros v.
    rewrite Hm2, Hm, andb_true_iff, negb_true_iff, bool_decide_eq_false. split; (intros [[H H']|H]; [left; split; [done|]|by right]); [intros [_ E]; apply H'; lia|intros ->; by apply H'].
  - cbn [obind]. destruct (set_valid_spec st (mir_verify_uses x) Hst out Hout) as (s2 & E2 & H2 & Hm2). exists s2. split; [done|]. split; [done|]. intros v. rewrite Hm2. split; (intros [H|H]; [left|by right]).
    + split; [done|]. intros [Hv E]. rewrite E in Ez. apply (valid_nat st v Hst) in Hv. congruence.
    + apply H.
Qed.

(** * Liveness *)

Lemma live_out_spec i x st h : shaped st -> insns fn !! i = Some x -> gets False h (fun out st' => roomier st st' /\ row_ok W out /\
    forall v, CfgSets.mem out v = true <-> exists j, insn_flow fn i j /\ bit (live_in st) j v = true) (mir_verify_live_out fn (Z.of_nat i) st h).
Proof using tables.
  intros Hst Hx. unfold mir_verify_live_out. destruct (successors_spec fn tables i x st h (sh_labels st Hst) Hx) as (res & st1 & h1 & -> & Eh & _ & HP). cbn [obind].
  destruct res as [[s t]|]; [|exists None, st1, h1; split; [done|]; split; [done|]; split; [done|done]].
  destruct (HP _ eq_refl) as (Hr & js & Ejs & Hjs). cbn [fst snd] in Ejs. pose proof (shaped_roomier _ _ Hr Hst) as Hst1.
  assert (exists out, join_rows (live_in st1) (s ++ t) (replicate (words st1) 0) = Ret out /\ row_ok W out /\
    forall v, CfgSets.mem out v = true <-> exists j, insn_flow fn i j /\ bit (live_in st) j v = true) as (out & Eo & Ho & Hm).
  { rewrite Ejs, (sh_words _ Hst1). destruct (join_rows_spec W (insn_count fn) (live_in st1) js (replicate W 0)) as (o & E & Ho & Hm).
    - apply (sh_live _ Hst1).
    - apply row_zero.
    - apply Forall_forall. intros j Hj. by apply (flow_lt fn i), Hjs.
    - exists o. split; [done|]. split; [done|]. intros v. rewrite Hm, mem_zero. assert (live_in st1 = live_in st) as -> by (by destruct Hr as [c ->]). split.
      + intros [H|(j & Hj & Hb)]; [done|]. exists j. split; [by apply Hjs|done].
      + intros (j & Hj & Hb). right. exists j. split; [by apply Hjs|done]. }
  rewrite join_rows_app in Eo. destruct (join_rows (live_in st1) s _) as [o1| |] eqn:E1; cbn [obind] in Eo |- *; [|done..]. rewrite Eo. cbn [obind].
  exists (Some out), st1, h1. split; [done|]. split; [done|]. split; [done|]. intros a [= <-]. split; [done|]. by split.
Qed.

(** The rows say of instruction [i] what liveness asks. *)
Definition live_closed (rows : list (list Z)) (i : nat) : Prop := forall x v, insns fn !! i = Some x ->
  (uses_reg x v -> bit rows i v = true) /\ (forall j, insn_flow fn i j -> bit rows j v = true -> ~ sets_reg x v -> bit rows i v = true).

(** All of the state but the live rows and the room for a table. *)
Definition but_live (st : MirVerify) := (n st, words st, defd_in st, has_def st, mentioned st, labels st).

Definition round_done (k : nat) (ch : bool) (st : MirVerify) (ch' : bool) (st' : MirVerify) : Prop :=
  shaped st' /\ but_live st' = but_live st /\ (ch' = false -> ch = false /\ live_in st' = live_in st /\ forall i, (i < k)%nat -> live_closed (live_in st) i).

Lemma round_step k ch st next r ch' st' : shaped st -> live_in st !! k = Some r -> (next = r -> live_closed (live_in st) k) ->
  round_done k (ch || negb (bool_decide (r = next))) (with_live (<[k := next]> (live_in st)) st) ch' st' -> round_done (S k) ch st ch' st'.
Proof using Hw.
  intros Hst Hr Hk (H1 & H2 & H3). split; [done|]. split; [done|]. intros Ech. destruct (H3 Ech) as (Hch & El & Hc). apply orb_false_iff in Hch as [-> Hb].
  apply negb_false_iff, bool_decide_eq_true in Hb as <-. split; [done|].
  assert (live_in (with_live (<[k:=r]> (live_in st)) st) = live_in st) as E by (cbn [with_live live_in]; by apply list_insert_id). rewrite E in El, Hc. split; [done|].
  intros i Hi. destruct (decide (i = k)) as [->|]; [by apply Hk|apply Hc; lia].
Qed.

Lemma liveness_round_spec k : forall st ch h, (k <= insn_count fn)%nat -> shaped st -> gets False h (round_done k ch st) (liveness_round fn k st ch h).
Proof using tables Hw.
  induction k as [|k IH]; intros st ch h Hk Hst; cbn [liveness_round].
  { apply gets_some. split; [done|]. split; [done|]. intros ->. split; [done|]. split; [done|]. lia. }
  destruct (lookup_lt_is_Some_2 (insns fn) k Hk) as [x Hx]. rewrite (get_nat _ _ _ Hx). cbn [obind].
  destruct (rows_lookup W _ (live_in st) k (sh_live st Hst) Hk) as (r & Hr & Hrow). rewrite (get_nat _ _ _ Hr). cbn [obind].
  assert (forall next h1 st1, roomier st st1 -> row_ok W next -> (next = r -> live_closed (live_in st) k) -> gets False h1 (round_done (S k) ch st)
    (let! rows := put (live_in st1) (Z.of_nat k) next in liveness_round fn k (with_live rows st1) (ch || negb (bool_decide (r = next))) h1)) as Hstep.
  { intros next h1 st1 Hroom Hnext Hcl. assert (live_in st1 = live_in st) as El by (by destruct Hroom as [c ->]). rewrite El, put_nat by (destruct (sh_live st Hst); lia). cbn [obind].
    apply (gets_mono False False h1 (round_done k (ch || negb (bool_decide (r = next))) (with_live (<[k:=next]> (live_in st1)) st1))); [done| |].
    - intros ch' st' H. apply (round_step k ch st next r); [done|done|done|]. destruct Hroom as [c ->]. exact H.
    - rewrite El. apply IH; [lia|]. apply shaped_live; [|by apply (shaped_roomier st)]. by apply rows_insert, Hnext; apply (sh_live st). }
  case_bool_decide as Hnop.
  - destruct (Nat.ltb_spec (S k) (insn_count fn)) as [Hlt|Hge].
    + destruct (rows_lookup W _ (live_in st) (S k) (sh_live st Hst) Hlt) as (r' & Hr' & Hrow'). rewrite (get_nat _ _ _ Hr'). cbn [obind].
      apply Hstep; [apply roomier_refl|done|]. intros -> y v Hy. assert (y = x) as -> by congruence. split; [by intros [? _]|]. intros j Hj Hb _.
      apply (nop_flow fn k j x Hx Hnop) in Hj as [-> _]. unfold bit in *. rewrite Hr' in Hb. by rewrite Hr.
    + apply (gets_mono False False h (round_done k ch st)); [done| |apply IH; [lia|done]]. intros ch' st' (H1 & H2 & H3). split; [done|]. split; [done|].
      intros Ech. destruct (H3 Ech) as (-> & El & Hc). split; [done|]. split; [done|]. intros i Hi. destruct (decide (i = k)) as [->|]; [|apply Hc; lia].
      intros y v Hy. assert (y = x) as -> by congruence. split; [by intros [? _]|]. intros j Hj. apply (nop_flow fn k j x Hx Hnop) in Hj as [-> ?]. lia.
  - apply (gets_gets False h _ _ _ _ (live_out_spec k x st h Hst Hx)). intros out st1 h1 (Hroom & Hout & Hm).
    destruct (live_before_spec st1 x out (shaped_roomier _ _ Hroom Hst) Hout) as (next & -> & Hnext & Hmn). cbn [obind]. apply Hstep; [done|done|].
    intros -> y v Hy. assert (y = x) as -> by congruence. assert (bit (live_in st) k v = CfgSets.mem r v) as Eb by (unfold bit; by rewrite Hr). rewrite Eb. split.
    + intros (_ & Hv & Hu). apply Hmn. by right.
    + intros j Hj Hb Hns. apply Hmn. left. split; [apply Hm; by exists j|]. intros [Hv Hd]. by apply Hns.
Qed.

Definition liveness_done (st st' : MirVerify) : Prop := shaped st' /\ but_live st' = but_live st /\ forall i, (i < insn_count fn)%nat -> live_closed (live_in st') i.

Lemma liveness_rounds_spec k : forall st h, shaped st -> does False h (liveness_done st) (liveness_rounds fn k st h).
Proof using tables Hw.
  induction k as [|k IH]; intros st h Hst; cbn [liveness_rounds]; [apply does_false; tauto|].
  destruct (liveness_round_spec (insn_count fn) st false h) as (res & st1 & h1 & -> & Eh & _ & HP); [done|done|]. cbn [obind].
  destruct res as [[|]|].
  - destruct (HP true eq_refl) as (H1 & H2 & _). apply (does_heap False h h1 _ _ Eh). apply (does_weaken _ _ _ _ _ (IH st1 h1 H1)). intros st2 (H3 & H4 & H5).
    split; [done|]. split; [congruence|done].
  - destruct (HP false eq_refl) as (H1 & H2 & H3). destruct (H3 eq_refl) as (_ & El & Hc). exists true, st1, h1. split; [done|]. split; [done|]. split; [done|].
    intros _. split; [done|]. split; [done|]. by rewrite El.
  - exists false, st1, h1. split; [done|]. split; [done|]. split; [done|done].
Qed.
(** * Definedness *)

Lemma elem_of_entry_values v : Z.of_nat v ∈ entry_values fn <-> entry_defined fn v.
Proof using.
  unfold entry_values, entry_defined. rewrite elem_of_app, list_elem_of_join. split.
  - intros [(l & Hv & (p & -> & Hp)%list_elem_of_fmap)|Hv].
    + left. exists p. split; [done|]. apply elem_of_cons in Hv as [Hv|Hv%list_elem_of_singleton]; [by left|by right].
    + right. destruct (returns_indirect fn); [|by apply not_elem_of_nil in Hv]. by apply list_elem_of_singleton in Hv.
  - intros [(p & Hp & Hv)|[Hr Hv]].
    + left. exists [p_vreg p; p_sysv_storage p]. split; [|apply list_elem_of_fmap; by exists p]. destruct Hv as [<-|<-]; [left|right; left].
    + right. rewrite Hr, Hv. left.
Qed.

Lemma defd_out_spec i x st : shaped st -> insns fn !! i = Some x -> exists out, mir_verify_defd_out fn st (Z.of_nat i) = Ret out /\ row_ok W out /\
  forall v, CfgSets.mem out v = true <-> bit (defd_in st) i v = true \/ sets_reg x v.
Proof using Hw.
  intros Hst Hx. unfold mir_verify_defd_out. rewrite (get_nat _ _ _ Hx). cbn [obind].
  destruct (rows_lookup W _ (defd_in st) i (sh_defd st Hst) (lookup_lt_Some _ _ _ Hx)) as (r & Hr & Hrow). rewrite (get_nat _ _ _ Hr). cbn [obind].
  assert (forall v, bit (defd_in st) i v = CfgSets.mem r v) as Eb by (intros v; unfold bit; by rewrite Hr). case_bool_decide as Hnop.
  - exists r. split; [done|]. split; [done|]. intros v. rewrite Eb. split; [by left|]. by intros [H|[? _]].
  - destruct (set_valid_spec st [mir_verify_def x] Hst r Hrow) as (s & E & Hs & Hm). exists s. split; [done|]. split; [done|].
    intros v. rewrite Hm, Eb, list_elem_of_singleton. split; (intros [H|H]; [by left|right]); [split; [done|]; split; [by apply H|by symmetry; apply H]|split; [by apply H|by symmetry; apply H]].
Qed.

(** What is defined behind instruction [p] is defined at [i]. *)
Definition passes_on (rows : list (list Z)) (p i : nat) : Prop := forall x v, insns fn !! p = Some x -> bit rows p v = true \/ sets_reg x v -> bit rows i v = true.

(** The defined rows grow; without change, [Q] holds of them. *)
Definition rows_grown (ch : bool) (st : MirVerify) (Q : list (list Z) -> Prop) (ch' : bool) (st' : MirVerify) : Prop :=
  exists rows, st' = with_defd rows st /\ rows_ok W (insn_count fn) rows /\ below (defd_in st) rows /\ (ch' = false -> ch = false /\ rows = defd_in st /\ Q rows).

Lemma rows_grown_then ch ch1 ch2 st st1 st2 (Q1 Q2 Q : list (list Z) -> Prop) : rows_grown ch st Q1 ch1 st1 -> rows_grown ch1 st1 Q2 ch2 st2 -> (forall rows, Q1 rows -> Q2 rows -> Q rows) -> rows_grown ch st Q ch2 st2.
Proof using.
  intros (r1 & -> & Ho1 & Hb1 & H1) (r2 & -> & Ho2 & Hb2 & H2) HQ. exists r2. split; [done|]. split; [done|]. split; [intros b v H; by apply Hb2, Hb1|].
  intros E. destruct (H2 E) as (E1 & Er & Hq). destruct (H1 E1) as (-> & Er1 & Hq1). cbn [with_defd defd_in] in Er. split; [done|]. split; [congruence|]. apply HQ; [congruence|done].
Qed.

Lemma rows_grown_refl ch st (Q : list (list Z) -> Prop) : shaped st -> Q (defd_in st) -> rows_grown ch st Q ch st.
Proof using. intros Hst HQ. exists (defd_in st). split; [by destruct st|]. split; [apply (sh_defd st Hst)|]. split; [by intros b v|]. done. Qed.

Lemma rows_grown_shaped ch st Q ch' st' : shaped st -> rows_grown ch st Q ch' st' -> shaped st'.
Proof using. intros Hst (rows & -> & Hr & _). by apply shaped_defd. Qed.

Lemma join_preds_spec i ps : (i < insn_count fn)%nat -> Forall (fun p => (p < insn_count fn)%nat) ps -> forall st ch, shaped st ->
  exists ch' st', join_preds fn (Z.of_nat i) (Z.of_nat <$> ps) st ch = Ret (st', ch') /\ rows_grown ch st (fun rows => forall p, p ∈ ps -> passes_on rows p i) ch' st'.
Proof using Hw.
  intros Hi. induction ps as [|p ps IH]; intros Hps st ch Hst; cbn [fmap list_fmap join_preds].
  { exists ch, st. split; [done|]. apply rows_grown_refl; [done|]. by intros p ?%not_elem_of_nil. }
  apply Forall_cons in Hps as [Hp Hps]. destruct (lookup_lt_is_Some_2 (insns fn) p Hp) as [x Hx].
  destruct (defd_out_spec p x st Hst Hx) as (out & -> & Hout & Hm). cbn [obind].
  pose proof (sh_defd st Hst) as Hrows. destruct (rows_lookup W _ (defd_in st) i Hrows Hi) as (r & Hr & Hrow). rewrite (get_nat _ _ _ Hr). cbn [obind].
  destruct (row_or W r out Hrow Hout) as [Ho Hmo]. set (next := zip_with Z.lor r out) in *. rewrite put_nat by (destruct Hrows; lia). cbn [obind].
  assert (forall v, bit (defd_in st) i v = CfgSets.mem r v) as Eb by (intros v; unfold bit; by rewrite Hr).
  assert (rows_ok W (insn_count fn) (<[i := next]> (defd_in st))) as Hins by (by apply rows_insert).
  assert (rows_grown ch st (fun rows => passes_on rows p i) (ch || negb (bool_decide (next = r))) (with_defd (<[i := next]> (defd_in st)) st)) as Hg.
  { exists (<[i := next]> (defd_in st)). split; [done|]. split; [done|]. split.
    - intros b v Hb. rewrite (bit_insert W (insn_count fn)) by done. destruct (decide (b = i)) as [->|]; [|done]. rewrite Hmo, <- Eb, Hb. done.
    - intros [-> Hn]%orb_false_iff. apply negb_false_iff, bool_decide_eq_true in Hn as En. split; [done|]. rewrite En, list_insert_id by done. split; [done|].
      intros y v Hy Hv. assert (y = x) as -> by congruence. rewrite Eb, <- En, Hmo. apply orb_true_iff. right. by apply Hm. }
  destruct (IH Hps (with_defd (<[i := next]> (defd_in st)) st) (ch || negb (bool_decide (next = r)))) as (ch' & st' & E & Hg'); [by apply shaped_defd|].
  exists ch', st'. split; [done|]. apply (rows_grown_then _ _ _ _ _ _ _ _ _ Hg Hg'). intros rows H1 H2 q [->|Hq]%elem_of_cons; [done|by apply H2].
Qed.

Lemma defined_round_spec k : forall i st ch, (i + k <= insn_count fn)%nat -> shaped st ->
  exists ch' st', defined_round fn k (Z.of_nat i) st ch = Ret (st', ch') /\ rows_grown ch st (fun rows => forall p j, (i <= j < i + k)%nat -> insn_flow fn p j -> passes_on rows p j) ch' st'.
Proof using Hw.
  induction k as [|k IH]; intros i st ch Hi Hst; cbn [defined_round].
  { exists ch, st. split; [done|]. apply rows_grown_refl; [done|]. lia. }
  destruct (sh_preds st Hst) as (es & [P1 P2 P3] & Hes). destruct (lookup_lt_is_Some_2 (pred_head st) i) as [e He]; [lia|]. rewrite (get_nat _ _ _ He). cbn [obind].
  pose proof (P3 _ _ He) as Hl. rewrite (linked_chain _ _ e _ (S (length (pred_from st))) Hl) by (try apply linked_head in Hl; lia). cbn [obind].
  rewrite preds_ids. destruct (join_preds_spec i (pred_ids es i) ltac:(lia)) with (st := st) (ch := ch) as (ch1 & st1 & -> & Hg); [|done|].
  { apply Forall_forall. intros p Hp%elem_of_pred_ids%Hes. destruct Hp as (y & _ & _ & Hy & _). by apply lookup_lt_Some in Hy. }
  cbn [obind]. replace (Z.of_nat i + 1) with (Z.of_nat (S i)) by lia.
  destruct (IH (S i) st1 ch1) as (ch2 & st2 & E & Hg2); [lia|exact (rows_grown_shaped _ _ _ _ _ Hst Hg)|]. exists ch2, st2. split; [done|].
  apply (rows_grown_then _ _ _ _ _ _ _ _ _ Hg Hg2). intros rows H1 H2 p j Hj Hf. destruct (decide (j = i)) as [->|]; [|apply H2; [lia|done]]. by apply H1, elem_of_pred_ids, Hes.
Qed.

(** All of the state but the defined rows. *)
Definition but_defd (st : MirVerify) := (n st, words st, live_in st, has_def st, mentioned st, labels st).

Definition definedness_done (st st' : MirVerify) : Prop := shaped st' /\ but_defd st' = but_defd st /\
  (forall v, (v < vreg_count fn)%nat -> entry_defined fn v -> bit (defd_in st') 0 v = true) /\
  forall p j, (1 <= j)%nat -> insn_flow fn p j -> passes_on (defd_in st') p j.

Lemma defined_rounds_spec k : forall st, shaped st -> (forall v, (v < vreg_count fn)%nat -> entry_defined fn v -> bit (defd_in st) 0 v = true) ->
  exists ok st', defined_rounds fn k st = Ret (ok, st') /\ (ok = true -> definedness_done st st').
Proof using Hw.
  induction k as [|k IH]; intros st Hst He; cbn [defined_rounds]; [by exists false, st|].
  destruct (decide (insn_count fn = 0%nat)) as [H0|H0].
  { rewrite H0. cbn [Nat.sub defined_round obind]. exists true, st. split; [done|]. intros _. split; [done|]. split; [done|]. split; [done|]. intros p j _ Hf%(flow_lt fn). lia. }
  destruct (defined_round_spec (insn_count fn - 1) 1 st false) as (ch & st1 & E & Hg); [lia|done|]. change (Z.of_nat 1) with 1 in E. rewrite E. cbn [obind].
  pose proof (rows_grown_shaped _ _ _ _ _ Hst Hg) as Hst1. destruct Hg as (rows & -> & Hr & Hb & Hq). destruct ch.
  - destruct (IH (with_defd rows st) Hst1) as (ok & st' & E' & Hok); [intros v Hv Hev; by apply Hb, He|]. exists ok, st'. split; [done|]. exact Hok.
  - destruct (Hq eq_refl) as (_ & -> & Hp). exists true, (with_defd (defd_in st) st). split; [done|]. intros _. split; [done|]. split; [done|]. split; [done|].
    intros p j Hj Hf. apply Hp; [|done]. apply (flow_lt fn) in Hf. lia.
Qed.

Lemma compute_defined_spec st : (0 < insn_count fn)%nat -> shaped st -> exists ok st', mir_verify_compute_defined fn st = Ret (ok, st') /\ (ok = true -> definedness_done st st').
Proof using Hw.
  intros Hn Hst. unfold mir_verify_compute_defined. pose proof (sh_defd st Hst) as Hrows.
  assert (exists rows, (if existsb (mir_verify_valid st) (entry_values fn) then
      let! entry := get (defd_in st) 0 in let! entry := set_valid st (entry_values fn) entry in put (defd_in st) 0 entry else Ret (defd_in st)) = Ret rows /\
    rows_ok W (insn_count fn) rows /\ forall v, (v < vreg_count fn)%nat -> entry_defined fn v -> bit rows 0 v = true) as (rows & -> & Hr & He).
  { destruct (existsb _ _) eqn:Ex.
    - destruct (rows_lookup W _ (defd_in st) 0 Hrows Hn) as (r & Hr & Hrow). change 0 with (Z.of_nat 0). rewrite (get_nat _ _ _ Hr). cbn [obind].
      destruct (set_valid_spec st (entry_values fn) Hst r Hrow) as (s & -> & Hs & Hm). cbn [obind]. rewrite put_nat by (destruct Hrows; lia).
      eexists. split; [done|]. split; [by apply rows_insert|]. intros v Hv He. rewrite (bit_insert W (insn_count fn)) by done. rewrite decide_True by done.
      apply Hm. right. split; [done|]. by apply elem_of_entry_values.
    - exists (defd_in st). split; [done|]. split; [done|]. intros v Hv He%elem_of_entry_values. exfalso.
      assert (existsb (mir_verify_valid st) (entry_values fn) = true); [|congruence]. apply existsb_exists. exists (Z.of_nat v).
      split; [by apply list_elem_of_In|by apply valid_nat]. }
  cbn [obind]. destruct (defined_rounds_spec MAX_ROUNDS (with_defd rows st)) as (ok & st' & E & Hok); [by apply shaped_defd|done|].
  exists ok, st'. split; [done|]. exact Hok.
Qed.
End Live.
End MirVerifyLive.
