(* ===== verification/MirVerifyChecks.v ===== *)
(** What the verifier has checked when it accepts: a certificate, of rows of
    live and defined values closed under control flow and of places that no
    instruction harms. *)
From S2P Require Import Prelude Mir Probe MirCfg CfgGraph CfgSets CfgLive CallConv MirVerify MirVerifyFlow MirVerifyRows MirVerifyLive.
#[local] Open Scope Z_scope.

Module MirVerifyChecks.
Import Mir Probe Cfg CfgGraph CfgSets CfgLive MirVerify MirVerifyFlow MirVerifyRows MirVerifyLive.

(** * What an instruction destroys *)

(** The registers an instruction changes besides its result: those its opcode
    is bound to, one it names as destination, those its kernel lists, and those
    a call does not preserve. *)
Inductive clobbers (abi : CallConv.AbiState) (x : MirInst) : MirRegClass -> Z -> Prop :=
| cl_fixed r : 0 <= r < 16 -> Z.testbit (mir_inst_fixed_gp x) r = true -> clobbers abi x MIR_RC_GP r
| cl_named_gp : kind (dst x) = MIR_OPK_PHYS -> rclass (dst x) = MIR_RC_GP -> 0 <= phys (dst x) < 16 -> clobbers abi x MIR_RC_GP (phys (dst x))
| cl_named_xmm : kind (dst x) = MIR_OPK_PHYS -> rclass (dst x) = MIR_RC_XMM -> clobbers abi x MIR_RC_XMM (phys (dst x))
| cl_kernel k c r : mir_op_has (op x) MIR_OPF_CLOBBERS_LISTED_BY_KERNEL = true -> aux x = AuxKernel k -> mir_ir_kernel_at k = Some c -> 0 <= r < 16 -> Z.testbit c r = true -> clobbers abi x MIR_RC_GP r
| cl_every r : mir_op_has (op x) MIR_OPF_CLOBBERS_EVERY_GP = true -> 0 <= r < 16 -> clobbers abi x MIR_RC_GP r
| cl_call_gp r : mir_op_has (op x) MIR_OPF_CALL_BARRIER = true -> mir_verify_gp_survives_barrier abi x r = false -> clobbers abi x MIR_RC_GP r
| cl_call_xmm c r : mir_op_has (op x) MIR_OPF_CALL_BARRIER = true -> c <> MIR_RC_GP -> mir_verify_xmm_survives_barrier x r = false -> clobbers abi x c r.

(** Only the record of a kernel is read as one. *)
Definition kernels_ok (fn : MirFunction) : Prop :=
  forall i x, insns fn !! i = Some x -> mir_op_has (op x) MIR_OPF_CLOBBERS_LISTED_BY_KERNEL = true -> aux x = AuxNull \/ exists k, aux x = AuxKernel k.

Lemma gp_bit m r : 0 <= r < 16 -> negb (Z.land m (MIR_GP_BIT r) =? 0) = Z.testbit m r.
Proof.
  intros Hr. assert (MIR_GP_BIT r = 2 ^ r) as ->.
  { unfold MIR_GP_BIT. rewrite Z.shiftl_mul_pow2, Z.mul_1_l by lia. apply wrapu_small. split; [lia|]. apply Z.pow_lt_mono_r; lia. }
  destruct (Z.testbit m r) eqn:E.
  - apply negb_true_iff, Z.eqb_neq. intros H. assert (Z.testbit (Z.land m (2 ^ r)) r = false) as H' by (rewrite H; apply Z.bits_0).
    rewrite Z.land_spec, E, Z.pow2_bits_true in H' by lia. done.
  - apply negb_false_iff, Z.eqb_eq, Z.bits_inj'. intros k Hk. rewrite Z.land_spec, Z.bits_0, Z.pow2_bits_eqb by lia. destruct (Z.eqb_spec r k) as [<-|]; [by rewrite E|apply andb_false_r].
Qed.

Lemma in_class_eq c d : in_class c d = true <-> c = d.
Proof. by destruct c, d. Qed.

Lemma gp_clobbers_spec x : (mir_op_has (op x) MIR_OPF_CLOBBERS_LISTED_BY_KERNEL = true -> aux x = AuxNull \/ exists k, aux x = AuxKernel k) ->
  exists m, mir_verify_gp_clobbers x = Ret m /\ forall abi r, clobbers abi x MIR_RC_GP r -> mir_op_has (op x) MIR_OPF_CALL_BARRIER = true /\ mir_verify_gp_survives_barrier abi x r = false \/
    (0 <= r < 16 /\ Z.testbit m r = true).
Proof.
  intros Haux. unfold mir_verify_gp_clobbers. set (m1 := if bool_decide (kind (dst x) = MIR_OPK_PHYS) && _ && _ && _ then _ else _).
  assert (forall r, 0 <= r < 16 -> Z.testbit (mir_inst_fixed_gp x) r = true \/ (kind (dst x) = MIR_OPK_PHYS /\ rclass (dst x) = MIR_RC_GP /\ r = phys (dst x)) -> Z.testbit m1 r = true) as H1.
  { intros r Hr H. unfold m1. destruct (_ && _ && _ && _) eqn:E.
    - rewrite Z.lor_spec. destruct H as [->|(_ & _ & ->)]; [done|]. apply orb_true_iff. right. pose proof (gp_bit (MIR_GP_BIT (phys (dst x))) (phys (dst x)) Hr) as <-.
      rewrite Z.land_diag. apply negb_true_iff, Z.eqb_neq. unfold MIR_GP_BIT. rewrite Z.shiftl_mul_pow2, Z.mul_1_l by lia. rewrite wrapu_small; [lia|]. split; [lia|]. apply Z.pow_lt_mono_r; lia.
    - destruct H as [H|(H1 & H2 & ->)]; [done|]. rewrite bool_decide_eq_true_2, H2 in E by done. cbn [in_class andb] in E. lia. }
  assert (exists m2, (if mir_op_has (op x) MIR_OPF_CLOBBERS_LISTED_BY_KERNEL then match aux x with AuxNull => Ret m1 | AuxKernel k => Ret (match mir_ir_kernel_at k with Some c => Z.lor m1 c | None => m1 end) | _ => Undef end else Ret m1) = Ret m2 /\
    (forall r, Z.testbit m1 r = true -> Z.testbit m2 r = true) /\
    (forall k c r, mir_op_has (op x) MIR_OPF_CLOBBERS_LISTED_BY_KERNEL = true -> aux x = AuxKernel k -> mir_ir_kernel_at k = Some c -> Z.testbit c r = true -> Z.testbit m2 r = true)) as (m2 & -> & H2 & H3).
  { destruct (mir_op_has _ MIR_OPF_CLOBBERS_LISTED_BY_KERNEL); [|by exists m1]. destruct (Haux eq_refl) as [->|[k ->]]; [by exists m1|].
    destruct (mir_ir_kernel_at k) as [c|] eqn:Ek; [exists (Z.lor m1 c)|exists m1]; (split; [done|]).
    - split; [intros r Hr; by rewrite Z.lor_spec, Hr|]. intros k' c' r _ [= <-] Hc Hr. assert (c' = c) as -> by congruence. by rewrite Z.lor_spec, Hr, orb_true_r.
    - split; [done|]. intros k' c' r _ [= <-] Hc. congruence. }
  cbn [obind]. eexists. split; [done|]. intros abi r Hcl.
  assert (forall m r, 0 <= r < 16 -> Z.testbit m r = true -> Z.testbit (if mir_op_has (op x) MIR_OPF_CLOBBERS_EVERY_GP then Z.lor m 0xFFFF else m) r = true) as H4.
  { intros m r' _ Hm. destruct (mir_op_has (op x) MIR_OPF_CLOBBERS_EVERY_GP); [by rewrite Z.lor_spec, Hm|done]. }
  inversion Hcl; subst; try congruence; [right; split; [done|]; apply H4; [done|]..| |by left].
  - apply H2, H1; [done|by left].
  - apply H2, H1; [done|by right].
  - by eapply H3.
  - right. split; [done|]. match goal with H : mir_op_has _ MIR_OPF_CLOBBERS_EVERY_GP = true |- _ => rewrite H end. rewrite Z.lor_spec. apply orb_true_iff. right.
    change 0xFFFF with (Z.ones 16). by rewrite Z.ones_spec_low.
Qed.

(** * Certificates *)

Section Checks.
Context (fn : MirFunction) (abi : CallConv.AbiState).

(** The value is written somewhere, or passed in. *)
Definition written (v : nat) : Prop := entry_defined fn v \/ exists i x, insns fn !! i = Some x /\ sets_reg fn x v.

(** Values [u] and [v] have one register. *)
Definition share_register (u v : MirVreg) : Prop := flag (v_in_register u) = true /\ flag (v_in_register v) = true /\ v_rclass u = v_rclass v /\ v_phys u = v_phys v.

(** Value [v] keeps its register over the instruction. *)
Definition unharmed (x : MirInst) (v : nat) : Prop := forall vr, vregs fn !! v = Some vr -> flag (v_in_register vr) = true -> mir_verify_def x <> Z.of_nat v ->
  ~ clobbers abi x (v_rclass vr) (v_phys vr) /\ forall d dv, vregs fn !! d = Some dv -> written d -> mir_verify_def x = Z.of_nat d -> ~ share_register dv vr.

Record certificate (live defd : nat -> nat -> Prop) : Prop := {
  ce_uses : forall i x v, insns fn !! i = Some x -> uses_reg fn x v -> live i v;
  ce_live : forall i j x v, insns fn !! i = Some x -> insn_flow fn i j -> live j v -> ~ sets_reg fn x v -> live i v;
  ce_entry : forall v, (v < vreg_count fn)%nat -> entry_defined fn v -> defd 0%nat v;
  ce_defd : forall i j x v, (1 <= j)%nat -> insns fn !! i = Some x -> insn_flow fn i j -> defd i v \/ sets_reg fn x v -> defd j v;
  ce_unharmed : forall i j x v, insns fn !! i = Some x -> op x <> MIR_NOP -> insn_flow fn i j -> (v < vreg_count fn)%nat -> written v -> live j v -> defd i v -> unharmed x v;
  ce_alone : forall u v ur vr, u <> v -> vregs fn !! u = Some ur -> vregs fn !! v = Some vr -> written u -> written v -> live 0%nat u -> live 0%nat v -> defd 0%nat u -> defd 0%nat v -> ~ share_register ur vr;
  ce_assigned : forall i x v vr, insns fn !! i = Some x -> is_label x = false -> uses_reg fn x v \/ sets_reg fn x v -> vregs fn !! v = Some vr -> assigned_well vr = true
}.

(** * Marks *)

Definition marked (marks : list bool) (v : nat) : Prop := marks !! v = Some true.

Lemma mark_valid_spec st vs : n st = vreg_count fn -> forall marks, length marks = vreg_count fn ->
  exists marks', mark_valid st vs marks = Ret marks' /\ length marks' = vreg_count fn /\ forall v, marked marks' v <-> marked marks v \/ ((v < vreg_count fn)%nat /\ Z.of_nat v ∈ vs).
Proof using.
  intros Hn. induction vs as [|z vs IH]; intros marks Hl; cbn [mark_valid].
  { exists marks. split; [done|]. split; [done|]. intros v. split; [by left|]. intros [H|[_ H]]; [done|by apply not_elem_of_nil in H]. }
  unfold mir_verify_valid. rewrite Hn. destruct ((0 <=? z) && (z <? Z.of_nat (vreg_count fn))) eqn:E.
  - assert (exists y, z = Z.of_nat y /\ (y < vreg_count fn)%nat) as (y & -> & Hy) by (exists (Z.to_nat z); lia). rewrite put_nat by lia. cbn [obind].
    destruct (IH (<[y := true]> marks)) as (m & -> & Hlm & Hm); [by rewrite length_insert|]. exists m. split; [done|]. split; [done|]. intros v. rewrite Hm, elem_of_cons.
    unfold marked. destruct (decide (v = y)) as [->|Hne].
    + rewrite list_lookup_insert_eq by lia. split; [intros _; right; split; [done|by left]|by left].
    + rewrite list_lookup_insert_ne by done. split; intros [H|[H H']]; auto. destruct H' as [H'|H']; [lia|auto].
  - cbn [obind]. destruct (IH marks Hl) as (m & -> & Hlm & Hm). exists m. split; [done|]. split; [done|]. intros v. rewrite Hm, elem_of_cons. split; intros [H|[H H']]; auto. destruct H' as [H'|H']; [lia|auto].
Qed.

Lemma label_sets_none x v : is_label x = true -> ~ sets_reg fn x v.
Proof using.
  intros H (_ & _ & E). unfold is_label in H. apply andb_true_iff in H as [H _]. apply andb_true_iff in H as [_ H]. apply bool_decide_eq_true in H.
  unfold mir_verify_def in E. rewrite H in E. rewrite bool_decide_eq_false_2 in E by done. unfold MIR_VREG_NONE in E. lia.
Qed.

(** All of the state but what marks there are. *)
Definition but_marks (st : MirVerify) := (n st, words st, live_in st, defd_in st, (pred_head st, pred_next st, pred_from st, pred_capacity st)).

Definition marks_fit (st : MirVerify) : Prop := length (has_def st) = vreg_count fn /\ length (mentioned st) = vreg_count fn.

Lemma mention_loop_spec xs : forall i st, n st = vreg_count fn -> marks_fit st -> exists st', mention_loop xs i st = Ret st' /\ but_marks st' = but_marks st /\ marks_fit st' /\
    labels st' = labels st ++ labels_from i xs /\
    (forall v, marked (has_def st') v <-> marked (has_def st) v \/ exists x, x ∈ xs /\ sets_reg fn x v) /\
    (forall v, marked (mentioned st') v <-> marked (mentioned st) v \/ exists x, x ∈ xs /\ is_label x = false /\ (uses_reg fn x v \/ sets_reg fn x v)).
Proof using.
  induction xs as [|x xs IH]; intros i st Hn Hfit; cbn [mention_loop labels_from].
  { exists st. split; [done|]. split; [done|]. split; [done|]. split; [by rewrite app_nil_r|]. split; intros v; (split; [by left|]; intros [H|(x & H & _)]; [done|by apply not_elem_of_nil in H]). }
  assert (forall st1, but_marks st1 = but_marks st -> marks_fit st1 ->
    (forall v, marked (has_def st1) v <-> marked (has_def st) v \/ sets_reg fn x v) ->
    (forall v, marked (mentioned st1) v <-> marked (mentioned st) v \/ (is_label x = false /\ (uses_reg fn x v \/ sets_reg fn x v))) ->
    exists st', mention_loop xs (i + 1) st1 = Ret st' /\ but_marks st' = but_marks st /\ marks_fit st' /\ labels st' = labels st1 ++ labels_from (i + 1) xs /\
      (forall v, marked (has_def st') v <-> marked (has_def st) v \/ exists y, y ∈ x :: xs /\ sets_reg fn y v) /\
      (forall v, marked (mentioned st') v <-> marked (mentioned st) v \/ exists y, y ∈ x :: xs /\ is_label y = false /\ (uses_reg fn y v \/ sets_reg fn y v))) as Hnext.
  { intros st1 E1 Hfit1 Hd Hm. destruct (IH (i + 1) st1) as (st' & E & Eb & Hf & El & Hd' & Hm'); [injection E1; congruence|done|]. exists st'. split; [done|]. split; [congruence|].
    split; [done|]. split; [done|]. split; intros v.
    - rewrite Hd', Hd. setoid_rewrite elem_of_cons. naive_solver.
    - rewrite Hm', Hm. setoid_rewrite elem_of_cons. naive_solver. }
  destruct (is_label x) eqn:El.
  - destruct (sym (dst x)) as [name|] eqn:Es.
    2:{ unfold is_label in El. rewrite Es in El. by rewrite andb_false_r in El. }
    destruct (Hnext (with_marks (has_def st) (mentioned st) (labels st ++ [(name, i)]) st)) as (st' & E & Eb & Hf & Ell & Hd & Hm); [done|done| | |].
    + intros v. split; [by left|]. intros [H|H]; [done|]. by apply label_sets_none in H.
    + intros v. split; [by left|]. by intros [H|[? _]].
    + exists st'. split; [done|]. split; [done|]. split; [done|]. split; [|done]. rewrite Ell. cbn [with_marks labels]. by rewrite <- app_assoc.
  - case_bool_decide as Hnop.
    + apply Hnext; [done|done| |].
      * intros v. split; [by left|]. intros [H|[? _]]; done.
      * intros v. split; [by left|]. intros [H|[_ [[? _]|[? _]]]]; done.
    + destruct Hfit as [Hf1 Hf2]. destruct (mark_valid_spec st [mir_verify_def x] Hn (has_def st) Hf1) as (d & -> & Hld & Hd). cbn [obind].
      destruct (mark_valid_spec st [mir_verify_def x] Hn (mentioned st) Hf2) as (m1 & -> & Hl1 & Hm1). cbn [obind].
      destruct (mark_valid_spec st (mir_verify_uses x) Hn m1 Hl1) as (m2 & -> & Hl2 & Hm2). cbn [obind].
      apply (Hnext (with_marks d m2 (labels st) st)); [done|done| |].
      * intros v. cbn [with_marks has_def]. rewrite Hd, list_elem_of_singleton. unfold sets_reg. naive_solver.
      * intros v. cbn [with_marks mentioned]. rewrite Hm2, Hm1, list_elem_of_singleton. unfold sets_reg, uses_reg. naive_solver.
Qed.
End Checks.
End MirVerifyChecks.
