(* ===== verification/MirVerifyAccept.v ===== *)
(** The verifier accepts with a certificate: its set-up marks what is written,
    and each of its checks is one field of the certificate. *)
From S2P Require Import Prelude Mir Probe MirCfg CfgGraph CfgSets CfgLive CallConv MirVerify MirVerifyFlow MirVerifyRows MirVerifyLive MirVerifyChecks.
#[local] Open Scope Z_scope.

Module MirVerifyAccept.
Import Mir Probe Cfg CfgGraph CfgSets CfgLive MirVerify MirVerifyFlow MirVerifyRows MirVerifyLive MirVerifyChecks.

Lemma alloc_many_grants k : forall h, exists ok h', alloc_many k h = (ok, h') /\ heap_grants h' = heap_grants h /\ (grants_all h -> ok = true).
Proof.
  induction k as [|k IH]; intros h; cbn [alloc_many]; [by exists true, h|]. unfold alloc. destruct (IH (mkHeap (heap_grants h) (S (heap_calls h)))) as (ok & h' & E & Eh & Hok).
  rewrite E. eexists _, h'. split; [done|]. split; [done|]. intros Hg. by rewrite (Hg (heap_calls h)), (Hok Hg).
Qed.

(** The members of a row, listed. *)
Lemma elem_of_members row : forall i v, v ∈ members i row <-> exists q w b, row !! q = Some w /\ (b < 64)%nat /\ Z.testbit w (Z.of_nat b) = true /\ v = ((i + q) * 64 + b)%nat.
Proof.
  induction row as [|w row IH]; intros i v; cbn [members].
  { split; [by intros ?%not_elem_of_nil|by intros (q & w & b & H & _)]. }
  rewrite elem_of_app, list_elem_of_fmap, IH. unfold set_bits. split.
  - intros [(b & -> & [Hb Hs]%list_elem_of_filter)|(q & w' & b & Hq & Hb & Ht & ->)].
    + apply elem_of_seq in Hs. exists O, w, b. split; [done|]. split; [lia|]. split; [done|]. by rewrite Nat.add_0_r.
    + exists (S q), w', b. split; [done|]. split; [done|]. split; [done|]. lia.
  - intros ([|q] & w' & b & Hq & Hb & Ht & ->).
    + left. injection Hq as ->. exists b. split; [lia|]. apply list_elem_of_filter. split; [done|]. apply elem_of_seq. lia.
    + right. exists q, w', b. split; [done|]. split; [done|]. split; [done|]. lia.
Qed.

Lemma mem_members row v : CfgSets.mem row v = true -> v ∈ members 0 row.
Proof.
  unfold CfgSets.mem. destruct (row !! (v / 64)%nat) as [w|] eqn:E; [|done]. intros H. apply elem_of_members. exists (v / 64)%nat, w, (v mod 64)%nat. split; [done|].
  split; [apply Nat.mod_upper_bound; lia|]. split; [done|]. rewrite (Nat.div_mod_eq v 64) at 1. lia.
Qed.

Lemma mem_both r s v : CfgSets.mem r v = true -> CfgSets.mem s v = true -> CfgSets.mem (zip_with Z.land r s) v = true.
Proof.
  unfold CfgSets.mem. rewrite lookup_zip_with. destruct (r !! _) as [a|]; [|done]. destruct (s !! _) as [b|]; [|done]. cbn. intros H1 H2. by rewrite Z.land_spec, H1, H2.
Qed.

Section Accept.
Context (fn : MirFunction) (abi : CallConv.AbiState) (tables : tables_ok fn) (kernels : kernels_ok fn).

Definition row_words : nat := ((vreg_count fn + 63) / 64)%nat.

Lemma words_enough : (vreg_count fn <= row_words * 64)%nat.
Proof using. unfold row_words. pose proof (Nat.div_mod_eq (vreg_count fn + 63) 64). pose proof (Nat.mod_upper_bound (vreg_count fn + 63) 64 ltac:(lia)). lia. Qed.

Definition within_budget : Prop := Z.of_nat (insn_count fn) * Z.of_nat row_words <= MIR_VERIFY_MAX_WORK.

(** The marks of the state are those of the function. *)
Record marks_ok (st : MirVerify) : Prop := {
  mk_fit : marks_fit fn st;
  mk_def : forall v, (v < vreg_count fn)%nat -> marked (has_def st) v <-> written fn v;
  mk_mentioned : forall v, marked (mentioned st) v <-> exists x, x ∈ insns fn /\ is_label x = false /\ (uses_reg fn x v \/ sets_reg fn x v)
}.

Definition ready (st : MirVerify) : Prop := shaped fn row_words st /\ marks_ok st.

Lemma marked_none k v : ~ marked (replicate k false) v.
Proof using. unfold marked. by intros [? _]%lookup_replicate. Qed.

Lemma verify_init_spec h : exists res h', mir_verify_init fn h = Ret (res, h') /\ heap_grants h' = heap_grants h /\
  (grants_all h -> all_able fn -> within_budget -> exists st, res = Init_ok st) /\ forall st, res = Init_ok st -> ready st.
Proof using tables.
  unfold mir_verify_init. fold row_words. destruct (Z.gtb_spec (Z.of_nat (insn_count fn) * Z.of_nat row_words) MIR_VERIFY_MAX_WORK) as [Hbig|Hfit].
  { exists Init_skip, h. split; [done|]. split; [done|]. split; [intros _ _ H; unfold within_budget in H; lia|done]. }
  destruct (alloc_many_grants 7 h) as (ok & h1 & -> & Eh1 & Hok). destruct ok; cbn [negb].
  2:{ exists Init_failed, h1. split; [done|]. split; [done|]. split; [intros Hg; by specialize (Hok Hg)|done]. }
  set (zero := replicate (insn_count fn) (replicate row_words 0)). set (none := replicate (vreg_count fn) false).
  destruct (mention_loop_spec fn (insns fn) 0 (mkVerify (vreg_count fn) row_words zero zero [] [] [] 0 none none [] 0)) as (st & -> & Eb & Hfit1 & El & Hd & Hm); [done|split; apply length_replicate|].
  cbn [obind]. cbn [labels app] in El. destruct Hfit1 as [Hf1 Hf2].
  destruct (mark_valid_spec fn st (entry_values fn) ltac:(injection Eb; congruence) (has_def st) Hf1) as (ds & -> & Hld & Hmd). cbn [obind].
  set (st1 := with_marks ds (mentioned st) (labels st) st).
  destruct (build_preds_spec fn tables st1 h1 El) as (ok & st2 & h2 & -> & Eh2 & Hg & HP). cbn [obind]. eexists _, h2. split; [done|]. split; [congruence|]. split.
  - intros Hh Ha _. rewrite Hg; [by exists st2| |done]. by apply (grants_same h).
  - intros st3 E. destruct ok; [|done]. injection E as <-. destruct (HP eq_refl) as (Er & es & Hes & Hflow). unfold rest in Er. injection Er as R1 R2 R3 R4 R5 R6 R7. injection Eb as B1 B2 B3 B4 _ _ _ _. split.
    + split; [congruence|congruence|unfold labelled_by; congruence|rewrite R3|rewrite R4|by exists es]; cbn [st1 with_marks live_in defd_in]; rewrite ?B3, ?B4; apply rows_zero.
    + split.
      * split; congruence.
      * intros v Hv. rewrite R5. cbn [st1 with_marks has_def]. rewrite Hmd, Hd, elem_of_entry_values. unfold written. split.
        -- intros [[H%marked_none|(x & [i Hi]%list_elem_of_lookup & Hx)]|[_ H]]; [done|right; by exists i, x|by left].
        -- intros [H|(i & x & Hi & Hx)]; [by right|]. left. right. exists x. split; [by eapply list_elem_of_lookup_2|done].
      * intros v. rewrite R6. cbn [st1 with_marks mentioned]. rewrite Hm. split; [|by right]. by intros [H%marked_none|H].
Qed.

(** * Checks *)

Section One.
Context (st : MirVerify) (Hready : ready st).

Lemma has_def_total v : (v < vreg_count fn)%nat -> exists b, get (has_def st) (Z.of_nat v) = Ret b /\ (b = true <-> written fn v).
Proof using Hready.
  intros Hv. destruct Hready as [_ [[Hl _] Hd _]]. destruct (lookup_lt_is_Some_2 (has_def st) v) as [b Hb]; [lia|]. exists b. split; [by apply get_nat|].
  rewrite <- (Hd v Hv). unfold marked. rewrite Hb. split; [by intros ->|by intros [= ->]].
Qed.

Lemma vreg_total v : (v < vreg_count fn)%nat -> exists vr, vregs fn !! v = Some vr /\ get (vregs fn) (Z.of_nat v) = Ret vr.
Proof using. intros Hv. destruct (lookup_lt_is_Some_2 (vregs fn) v Hv) as [vr E]. exists vr. split; [done|by apply get_nat]. Qed.

(** The verifier's search for a result in the register of [v]. *)
Lemma shared_spec x vr : exists b, (if mir_verify_valid st (mir_verify_def x) then
      let! dv := get (vregs fn) (mir_verify_def x) in let! dd := get (has_def st) (mir_verify_def x) in
      Ret (flag (v_in_register dv) && dd && in_class (v_rclass dv) (v_rclass vr) && (v_phys dv =? v_phys vr)) else Ret false) = Ret b /\
  (b = false -> flag (v_in_register vr) = true -> forall d dv, vregs fn !! d = Some dv -> written fn d -> mir_verify_def x = Z.of_nat d -> ~ share_register dv vr).
Proof using Hready.
  pose proof Hready as [Hsh _]. destruct (mir_verify_valid st (mir_verify_def x)) eqn:Ev.
  - destruct (valid_inv fn row_words words_enough st _ Hsh Ev) as (d & Ed & Hd). rewrite Ed. destruct (vreg_total d Hd) as (dv & Edv & ->). cbn [obind].
    destruct (has_def_total d Hd) as (b & -> & Hb). cbn [obind]. eexists. split; [done|]. intros Hno Hvr d' dv' Hdv' Hw Hd' (H1 & H2 & H3 & H4).
    assert (d' = d) as -> by lia. assert (dv' = dv) as -> by congruence. rewrite H1, (proj2 Hb Hw), (proj2 (in_class_eq _ _) H3), H4, Z.eqb_refl in Hno. done.
  - exists false. split; [done|]. intros _ _ d dv Hdv _ Hd. exfalso. apply lookup_lt_Some in Hdv. rewrite Hd in Ev. apply (valid_nat fn row_words words_enough st d Hsh) in Hdv. congruence.
Qed.

Lemma value_survives_spec x gp v : (forall r, clobbers abi x MIR_RC_GP r -> mir_op_has (op x) MIR_OPF_CALL_BARRIER = true /\ mir_verify_gp_survives_barrier abi x r = false \/ (0 <= r < 16 /\ Z.testbit gp r = true)) ->
  exists ok, value_survives fn abi st x gp v = Ret ok /\ (ok = true -> (v < vreg_count fn)%nat -> written fn v -> unharmed fn abi x v).
Proof using Hready.
  intros Hgp. pose proof Hready as [Hsh _]. unfold value_survives. rewrite (sh_n _ _ _ Hsh). destruct (Nat.leb_spec (vreg_count fn) v) as [Hge|Hv].
  { exists true. split; [done|]. intros _ Hv. lia. }
  destruct (has_def_total v Hv) as (b & -> & Hb). cbn [obind]. destruct b; cbn [negb].
  2:{ exists true. split; [done|]. intros _ _ Hwr. apply Hb in Hwr. done. }
  destruct (vreg_total v Hv) as (vr & Evr & ->). cbn [obind]. destruct (negb (flag (v_in_register vr)) || (Z.of_nat v =? mir_verify_def x)) eqn:E0.
  { exists true. split; [done|]. intros _ _ _ vr' Evr' Hf Hd. assert (vr' = vr) as -> by congruence. rewrite Hf in E0. cbn in E0. lia. }
  destruct (shared_spec x vr) as (sh & -> & Hsharing). cbn [obind]. destruct sh; [by exists false|]. specialize (Hsharing eq_refl).
  apply orb_false_iff in E0 as [Hreg _]. apply negb_false_iff in Hreg.
  destruct (in_class (v_rclass vr) MIR_RC_GP && _ && _ && _) eqn:E1; [by exists false|].
  destruct (in_class (v_rclass vr) MIR_RC_XMM && _) eqn:E2; [by exists false|].
  assert (forall ok, (ok = true -> mir_op_has (op x) MIR_OPF_CALL_BARRIER = true -> (if in_class (v_rclass vr) MIR_RC_GP then mir_verify_gp_survives_barrier abi x (v_phys vr) else mir_verify_xmm_survives_barrier x (v_phys vr)) = true) ->
    exists ok', Ret ok = Ret ok' /\ (ok' = true -> (v < vreg_count fn)%nat -> written fn v -> unharmed fn abi x v)) as Hend.
  { intros ok Hcall. exists ok. split; [done|]. intros -> _ _ vr' Evr' _ _. assert (vr' = vr) as -> by congruence. split; [|by apply Hsharing]. specialize (Hcall eq_refl). intros Hcl.
    destruct (v_rclass vr) eqn:Ec; cbn [in_class andb] in *.
    - destruct (Hgp _ Hcl) as [[Hb' Hs]|[Hr Ht]]; [rewrite Hcall in Hs; done|]. rewrite gp_bit, Ht in E1 by done. lia.
    - inversion Hcl; subst; [unfold mir_verify_xmm_clobber in E2; rewrite bool_decide_eq_true_2 in E2 by done; match goal with H : rclass _ = _ |- _ => rewrite H in E2 end; cbn in E2; lia|]. rewrite Hcall in *; done.
    - inversion Hcl; subst. rewrite Hcall in *; done. }
  destruct (mir_op_has (op x) MIR_OPF_CALL_BARRIER) eqn:Eb; apply Hend; [|done]. by intros -> _.
Qed.
Lemma all_survive_spec x gp vs : (forall r, clobbers abi x MIR_RC_GP r -> mir_op_has (op x) MIR_OPF_CALL_BARRIER = true /\ mir_verify_gp_survives_barrier abi x r = false \/ (0 <= r < 16 /\ Z.testbit gp r = true)) ->
  exists ok, all_survive fn abi st x gp vs = Ret ok /\ (ok = true -> forall v, v ∈ vs -> (v < vreg_count fn)%nat -> written fn v -> unharmed fn abi x v).
Proof using Hready.
  intros Hgp. induction vs as [|v vs IH]; cbn [all_survive]; [exists true; split; [done|]; by intros _ v ?%not_elem_of_nil|].
  destruct (value_survives_spec x gp v Hgp) as (ok & -> & Hok). cbn [obind]. destruct ok; [|by exists false]. destruct IH as (ok & -> & IH). exists ok. split; [done|].
  intros E u [->|Hu]%elem_of_cons; [by apply Hok|by apply IH].
Qed.

(** A value that needs a register on entry. *)
Definition on_entry (v : nat) (vr : MirVreg) : Prop :=
  vregs fn !! v = Some vr /\ written fn v /\ bit (live_in st) 0 v = true /\ bit (defd_in st) 0 v = true /\ flag (v_in_register vr) = true.

Lemma entry_bit rows v : rows_ok row_words (insn_count fn) rows -> (0 < insn_count fn)%nat -> (v < vreg_count fn)%nat ->
  exists row, get rows 0 = Ret row /\ mir_verify_bit_get row (Z.of_nat v) = Ret (bit rows 0 v).
Proof using.
  intros Hr Hn Hv. destruct (rows_lookup _ _ rows 0 Hr Hn) as (row & E & Hrow). exists row. split; [by apply (get_nat rows 0)|].
  unfold bit. rewrite E. pose proof words_enough. by apply (set_get_spec row_words row v); [|lia].
Qed.

Lemma entry_register_spec v : (0 < insn_count fn)%nat -> (v < vreg_count fn)%nat -> exists r, entry_register fn st v = Ret r /\ (forall vr, on_entry v vr -> r = Some vr) /\ forall vr, r = Some vr -> flag (v_in_register vr) = true.
Proof using Hready.
  intros Hn Hv. pose proof Hready as [Hsh _]. unfold entry_register. destruct (has_def_total v Hv) as (b & -> & Hb). cbn [obind]. destruct b; cbn [negb].
  2:{ exists None. split; [done|]. split; [|done]. intros vr (_ & Hw & _). by apply Hb in Hw. }
  destruct (entry_bit (live_in st) v (sh_live _ _ _ Hsh) Hn Hv) as (row & -> & E). cbn [obind]. rewrite E. cbn [obind]. destruct (bit (live_in st) 0 v) eqn:El; cbn [negb].
  2:{ exists None. split; [done|]. split; [|done]. intros vr (_ & _ & H & _). congruence. }
  destruct (entry_bit (defd_in st) v (sh_defd _ _ _ Hsh) Hn Hv) as (row' & -> & E'). cbn [obind]. rewrite E'. cbn [obind]. destruct (bit (defd_in st) 0 v) eqn:Ed; cbn [negb].
  2:{ exists None. split; [done|]. split; [|done]. intros vr (_ & _ & _ & H & _). congruence. }
  destruct (vreg_total v Hv) as (vr & Evr & ->). cbn [obind]. eexists. split; [done|]. split; [intros vr' (H1 & _ & _ & _ & H2); assert (vr' = vr) as -> by congruence; by rewrite H2|].
  destruct (flag (v_in_register vr)) eqn:Ef; [by intros vr' [= <-]|done].
Qed.

Lemma entry_alone_spec av bs : (0 < insn_count fn)%nat -> Forall (fun v => (v < vreg_count fn)%nat) bs -> flag (v_in_register av) = true ->
  exists ok, entry_alone fn st av bs = Ret ok /\ (ok = true -> forall b bv, b ∈ bs -> on_entry b bv -> ~ share_register bv av).
Proof using Hready.
  intros Hn Hbs Hav. induction Hbs as [|b bs Hb Hbs IH]; cbn [entry_alone]; [exists true; split; [done|]; by intros _ b bv ?%not_elem_of_nil|].
  destruct (entry_register_spec b Hn Hb) as (r & -> & Hr & _). cbn [obind]. destruct IH as (ok & E & IH).
  destruct r as [bv|].
  - destruct (in_class (v_rclass bv) (v_rclass av) && (v_phys bv =? v_phys av)) eqn:Es; [by exists false|]. exists ok. split; [done|]. intros Hok c cv [->|Hc]%elem_of_cons Hoc.
    + specialize (Hr cv Hoc). injection Hr as ->. intros (_ & _ & H1%in_class_eq & H2). rewrite H1, H2, Z.eqb_refl in Es. done.
    + by eapply IH.
  - exists ok. split; [done|]. intros Hok c cv [->|Hc]%elem_of_cons Hoc; [by specialize (Hr cv Hoc)|by eapply IH].
Qed.

Lemma share_sym u v : share_register u v -> share_register v u.
Proof using. by intros (H1 & H2 & H3 & H4). Qed.

Lemma entry_loop_spec vs : (0 < insn_count fn)%nat -> Forall (fun v => (v < vreg_count fn)%nat) vs ->
  exists ok, entry_loop fn st vs = Ret ok /\ (ok = true -> forall a b av bv, a <> b -> a ∈ vs -> b ∈ vs -> on_entry a av -> on_entry b bv -> ~ share_register av bv).
Proof using Hready.
  intros Hn Hvs. induction Hvs as [|v vs Hv Hvs IH]; cbn [entry_loop]; [exists true; split; [done|]; by intros _ a b av bv _ ?%not_elem_of_nil|].
  destruct (entry_register_spec v Hn Hv) as (r & -> & Hr & Hreg). cbn [obind]. destruct IH as (ok & E & IH). destruct r as [vr|].
  - destruct (entry_alone_spec vr vs Hn Hvs (Hreg vr eq_refl)) as (ok1 & -> & Hal). cbn [obind]. destruct ok1; [|by exists false]. exists ok. split; [done|].
    intros Hok a b av bv Hne [->|Ha]%elem_of_cons [->|Hb]%elem_of_cons Hoa Hob; [done| | |by eapply IH].
    + pose proof (Hr av Hoa) as [= ->]. intros ?%share_sym. by eapply Hal.
    + pose proof (Hr bv Hob) as [= ->]. by eapply Hal.
  - exists ok. split; [done|]. intros Hok a b av bv Hne [->|Ha]%elem_of_cons [->|Hb]%elem_of_cons Hoa Hob; [done|by specialize (Hr av Hoa)|by specialize (Hr bv Hob)|by eapply IH].
Qed.

Lemma assignments_loop_spec vs : Forall (fun v => (v < vreg_count fn)%nat) vs ->
  exists ok, assignments_loop fn st vs = Ret ok /\ (ok = true -> forall v vr, v ∈ vs -> vregs fn !! v = Some vr -> marked (mentioned st) v -> assigned_well vr = true).
Proof using Hready.
  pose proof Hready as [_ [[_ Hl] _ _]]. intros Hvs. induction Hvs as [|v vs Hv Hvs IH]; cbn [assignments_loop]; [exists true; split; [done|]; by intros _ v vr ?%not_elem_of_nil|].
  destruct (vreg_total v Hv) as (vr & Evr & ->). cbn [obind]. destruct (lookup_lt_is_Some_2 (mentioned st) v) as [m Em]; [lia|]. rewrite (get_nat _ _ _ Em). cbn [obind].
  destruct IH as (ok & E & IH). destruct m; cbn [negb].
  - destruct (assigned_well vr) eqn:Ea; [|by exists false]. exists ok. split; [done|]. intros Hok u ur [->|Hu]%elem_of_cons Eur Hm; [congruence|by eapply IH].
  - exists ok. split; [done|]. intros Hok u ur [->|Hu]%elem_of_cons Eur Hm; [unfold marked in Hm; congruence|by eapply IH].
Qed.
End One.

(** * The instructions *)

Lemma ready_roomier st st' : roomier st st' -> ready st -> ready st'.
Proof using. intros Hr [Hsh [Hf Hd Hm]]. split; [by apply (shaped_roomier _ _ st)|]. by destruct Hr as [c ->]. Qed.

(** Values live and defined at the instruction keep their places over it. *)
Definition insn_checked (st : MirVerify) (i : nat) : Prop := forall j x v, insns fn !! i = Some x -> op x <> MIR_NOP -> insn_flow fn i j -> (v < vreg_count fn)%nat -> written fn v ->
  bit (live_in st) j v = true -> bit (defd_in st) i v = true -> unharmed fn abi x v.

Definition verdict (ok : bool) : MirFunction := if ok then fn else set_error fn.

Lemma check_insn_spec i st h : (i < insn_count fn)%nat -> ready st -> exists ok st' h', mir_verify_check_insn fn abi (Z.of_nat i) st h = Ret ((ok, verdict ok), st', h') /\ heap_grants h' = heap_grants h /\
  (ok = true -> roomier st st' /\ insn_checked st i).
Proof using tables kernels.
  intros Hi Hst. pose proof Hst as [Hsh _]. destruct (lookup_lt_is_Some_2 (insns fn) i Hi) as [x Hx]. unfold mir_verify_check_insn. rewrite (get_nat _ _ _ Hx). cbn [obind].
  destruct (gp_clobbers_spec x (kernels i x Hx)) as (gp & -> & Hgp). cbn [obind]. case_bool_decide as Hnop.
  { exists true, st, h. split; [done|]. split; [done|]. intros _. split; [apply roomier_refl|]. intros j y v Hy Hne. congruence. }
  destruct (live_out_spec fn tables row_words i x st h Hsh Hx) as (res & st1 & h1 & -> & Eh & _ & HP). cbn [obind]. destruct res as [out|].
  2:{ exists false, st1, h1. split; [done|]. by split. }
  destruct (HP out eq_refl) as (Hr & Hout & Hm). pose proof (ready_roomier _ _ Hr Hst) as Hst1. assert (defd_in st1 = defd_in st) as Ed by (by destruct Hr as [c ->]).
  destruct (rows_lookup _ _ (defd_in st) i (sh_defd _ _ _ Hsh) Hi) as (row & Hrow & _). rewrite Ed, (get_nat _ _ _ Hrow). cbn [obind].
  destruct (all_survive_spec st1 Hst1 x gp (members 0 (zip_with Z.land out row)) (Hgp abi)) as (ok & -> & Hok). cbn [obind]. exists ok, st1, h1. split; [by destruct ok|]. split; [done|].
  intros E. split; [done|]. intros j y v Hy Hne Hf Hv Hw Hl Hd. assert (y = x) as -> by congruence. apply Hok; [done| |done|done]. apply mem_members, mem_both; [apply Hm; by exists j|].
  unfold bit in Hd. by rewrite Hrow in Hd.
Qed.

Lemma insn_loop_spec k : forall i st h, (i + k <= insn_count fn)%nat -> ready st -> exists ok h', insn_loop fn abi k (Z.of_nat i) st h = Ret (ok, verdict ok, h') /\
  (ok = true -> forall j, (i <= j < i + k)%nat -> insn_checked st j).
Proof using tables kernels.
  induction k as [|k IH]; intros i st h Hi Hst; cbn [insn_loop]; [exists true, h; split; [done|]; lia|].
  destruct (check_insn_spec i st h ltac:(lia) Hst) as (ok & st1 & h1 & -> & _ & Hok). cbn [obind]. destruct ok; cbn [negb verdict]; [|by exists false, h1].
  destruct (Hok eq_refl) as [Hr Hc]. replace (Z.of_nat i + 1) with (Z.of_nat (S i)) by lia.
  destruct (IH (S i) st1 h1) as (ok & h2 & E & Hall); [lia|by apply (ready_roomier st)|]. exists ok, h2. split; [done|]. intros Eok j Hj.
  destruct (decide (j = i)) as [->|]; [done|]. specialize (Hall Eok j ltac:(lia)). by destruct Hr as [c ->].
Qed.

(** * The verifier *)

(** The rows after both analyses. *)
Definition analysed (st : MirVerify) : Prop := ready st /\ (forall i, (i < insn_count fn)%nat -> live_closed fn (live_in st) i) /\
  (forall v, (v < vreg_count fn)%nat -> entry_defined fn v -> bit (defd_in st) 0 v = true) /\ forall p j, (1 <= j)%nat -> insn_flow fn p j -> passes_on fn (defd_in st) p j.

Lemma analyse_spec st h : (0 < insn_count fn)%nat -> ready st -> exists ok st' h', mir_verify_analyse fn st h = Ret (ok, st', h') /\ (ok = true -> analysed st').
Proof using tables.
  intros Hn [Hsh [Hf Hd Hm]]. unfold mir_verify_analyse, mir_verify_compute_liveness.
  destruct (liveness_rounds_spec fn tables row_words words_enough MAX_ROUNDS st h Hsh) as (ok & st1 & h1 & -> & _ & _ & HP). cbn [obind]. destruct ok; cbn [negb]; [|by exists false, st1, h1].
  destruct (HP eq_refl) as (Hsh1 & E1 & Hl). destruct (compute_defined_spec fn row_words words_enough st1 Hn Hsh1) as (ok & st2 & -> & HQ). cbn [obind]. exists ok, st2, h1. split; [done|].
  intros Eok. destruct (HQ Eok) as (Hsh2 & E2 & He & Hp). unfold but_live in E1. unfold but_defd in E2. injection E1 as _ _ _ A4 A5 _. injection E2 as _ _ B3 B4 B5 _. split; [|split; [by rewrite B3|done]].
  split; [done|]. split; [unfold marks_fit in *; congruence| |]; intros v; rewrite ?B4, ?B5, ?A4, ?A5; [apply Hd|apply Hm].
Qed.

Lemma analysed_certificate st : analysed st -> (forall i, ~ insn_flow fn i 0) -> (forall i, (i < insn_count fn)%nat -> insn_checked st i) ->
  (forall a b av bv, a <> b -> on_entry st a av -> on_entry st b bv -> ~ share_register av bv) ->
  (forall v vr, vregs fn !! v = Some vr -> marked (mentioned st) v -> assigned_well vr = true) ->
  certificate fn abi (fun i v => bit (live_in st) i v = true) (fun i v => bit (defd_in st) i v = true).
Proof using.
  intros ([Hsh Hmk] & Hl & He & Hp) Hno Hc Ha Has. split.
  - intros i x v Hx Hu. by apply (Hl i (lookup_lt_Some _ _ _ Hx) x v Hx).
  - intros i j x v Hx Hf Hb Hs. apply (Hl i (lookup_lt_Some _ _ _ Hx) x v Hx) with j; done.
  - done.
  - intros i j x v Hj Hx Hf Hd. by apply (Hp i j Hj Hf x v Hx).
  - intros i j x v Hx Hn Hf Hv Hw Hlj Hdi. by apply (Hc i (lookup_lt_Some _ _ _ Hx) j x v Hx).
  - intros u v ur vr Hne Hu Hv Wu Wv Lu Lv Du Dv Hs. apply (Ha u v ur vr Hne); [| |done]; (split; [done|]; split; [done|]; split; [done|]; split; [done|]); apply Hs.
  - intros i x v vr Hx Hlab Hm Hv. apply (Has v vr Hv), (mk_mentioned _ Hmk). exists x. split; [by eapply list_elem_of_lookup_2|done].
Qed.

Lemma empty_certificate : (vreg_count fn =? 0)%nat = true \/ (insn_count fn =? 0)%nat = true -> certificate fn abi (fun _ _ => False) (fun _ _ => True).
Proof using.
  intros H. assert (forall i x v, insns fn !! i = Some x -> (v < vreg_count fn)%nat -> False) as Hno.
  { intros i x v Hx%lookup_lt_Some Hv. destruct H as [H%Nat.eqb_eq|H%Nat.eqb_eq]; unfold insn_count in *; lia. }
  split; try done.
  - intros i x v Hx (_ & Hv & _). by apply (Hno i x v).
  - intros i x v vr Hx _ _ Hv%lookup_lt_Some. by destruct (Hno i x v).
Qed.

Lemma verify_spec h : exists ok h', mir_regalloc_verify fn abi h = Ret (ok, verdict ok, h') /\
  (ok = true -> grants_all h -> all_able fn -> within_budget -> (forall i, ~ insn_flow fn i 0) -> exists live defd, certificate fn abi live defd).
Proof using tables kernels.
  unfold mir_regalloc_verify. destruct ((vreg_count fn =? 0)%nat || (insn_count fn =? 0)%nat) eqn:E0.
  { exists true, h. split; [done|]. intros _ _ _ _ _. exists (fun _ _ => False), (fun _ _ => True). by apply empty_certificate, orb_true_iff. }
  apply orb_false_iff in E0 as [E0v%Nat.eqb_neq E0%Nat.eqb_neq]. destruct (verify_init_spec h) as (res & h1 & -> & _ & Hok & Hres). cbn [obind]. destruct res as [| |st].
  1,2: exists true, h1; (split; [done|]); intros _ Hg Ha Hb _; by destruct (Hok Hg Ha Hb).
  specialize (Hres st eq_refl). destruct (analyse_spec st h1) as (ok & st1 & h2 & -> & Han); [lia|done|]. cbn [obind]. destruct ok; cbn [negb].
  2:{ by exists false, h2. }
  specialize (Han eq_refl). pose proof Han as (Hst1 & _). pose proof Hst1 as [Hsh _].
  assert (Forall (fun v => (v < vreg_count fn)%nat) (seq 0 (vreg_count fn))) as Hseq by (apply Forall_seq; lia). assert (0 < insn_count fn)%nat as Hn by lia.
  unfold mir_verify_check_assignments, mir_verify_check_entry. rewrite (sh_n _ _ _ Hsh).
  destruct (assignments_loop_spec st1 Hst1 _ Hseq) as (ok & -> & Has). cbn [obind]. destruct ok; cbn [negb mir_verify_fail]; [|by exists false, h2].
  destruct (entry_loop_spec st1 Hst1 _ Hn Hseq) as (ok & -> & Hal). cbn [obind]. destruct ok; cbn [negb mir_verify_fail]; [|by exists false, h2].
  destruct (insn_loop_spec (insn_count fn) 0 st1 h2) as (ok & h3 & E & Hall); [lia|done|]. change (Z.of_nat 0) with 0 in E. rewrite E. exists ok, h3. split; [done|]. intros -> _ _ _ Hno.
  eexists _, _. apply analysed_certificate; [done|done|intros i Hi; apply Hall; [done|lia]| |].
  - intros a b av bv Hne Ha Hb. apply (Hal eq_refl a b); [done| | |done|done]; apply elem_of_seq; [destruct Ha as [Hlt _]|destruct Hb as [Hlt _]]; apply lookup_lt_Some in Hlt; unfold vreg_count; lia.
  - intros v vr Hv Hm. apply (Has eq_refl v vr); [|done|done]. apply elem_of_seq. apply lookup_lt_Some in Hv. unfold vreg_count. lia.
Qed.
End Accept.
End MirVerifyAccept.
