(* ===== verification/MirVerifySound.v ===== *)
(** The verifier is sound: a function it accepts computes the same on the
    places its values were given as on the values themselves. *)
From S2P Require Import Prelude Mir Probe MirCfg CfgGraph CfgSets CfgLive CallConv MirVerify MirVerifyFlow MirVerifyRows MirVerifyLive MirVerifyChecks MirVerifyAccept.
From stdpp Require Import relations.
#[local] Open Scope Z_scope.

Module MirVerifySound.
Import Mir Probe Cfg CfgGraph CfgSets CfgLive MirVerify MirVerifyFlow MirVerifyRows MirVerifyLive MirVerifyChecks MirVerifyAccept.

(** * Places *)

#[export] Instance MirRegClass_eq_dec : EqDecision MirRegClass.
Proof. solve_decision. Defined.

(** A register, or the slot of a spilled value. *)
Inductive place := Reg (c : MirRegClass) (r : Z) | Slot (v : nat).

#[export] Instance place_eq_dec : EqDecision place.
Proof. solve_decision. Defined.

Section Runs.
Context (fn : MirFunction) (abi : CallConv.AbiState).

Definition place_of (v : nat) : place :=
  match vregs fn !! v with Some vr => if flag (v_in_register vr) then Reg (v_rclass vr) (v_phys vr) else Slot v | None => Slot v end.

(** The values an instruction reads, and the one it writes. *)
Definition reads_of (x : MirInst) : list nat := Z.to_nat <$> filter (fun z => 0 <= z < Z.of_nat (vreg_count fn)) (mir_verify_uses x).
Definition result_of (x : MirInst) : option nat := if decide (0 <= mir_verify_def x < Z.of_nat (vreg_count fn)) then Some (Z.to_nat (mir_verify_def x)) else None.

(** Value [v] may be read, at [i] or later, before it is written. *)
Inductive needed (v : nat) : nat -> Prop :=
| needed_read i x : insns fn !! i = Some x -> uses_reg fn x v -> needed v i
| needed_later i j x : insns fn !! i = Some x -> insn_flow fn i j -> ~ sets_reg fn x v -> needed v j -> needed v i.

(** * Runs

    [act] is what an instruction does with the values it reads: it changes the
    rest of the machine, has a result and picks the next instruction. *)
Context {World Val : Type} (act : World -> nat -> list Val -> option (World * Val * nat)).

Definition value_state : Type := World * nat * (nat -> option Val).
Definition place_state : Type := World * nat * (place -> Val).

(** On values; one that was never written may not be read. *)
Inductive vstep : value_state -> value_state -> Prop :=
| vstep_nop w i x rho : insns fn !! i = Some x -> op x = MIR_NOP -> insn_flow fn i (S i) -> vstep (w, i, rho) (w, S i, rho)
| vstep_insn w i x rho vals w' r j : insns fn !! i = Some x -> op x <> MIR_NOP -> mapM rho (reads_of x) = Some vals -> act w i vals = Some (w', r, j) -> insn_flow fn i j ->
    vstep (w, i, rho) (w', j, fun v => if decide (result_of x = Some v) then Some r else rho v).

(** On places; what the instruction clobbers may change to anything. *)
Inductive pstep : place_state -> place_state -> Prop :=
| pstep_nop w i x sigma : insns fn !! i = Some x -> op x = MIR_NOP -> insn_flow fn i (S i) -> pstep (w, i, sigma) (w, S i, sigma)
| pstep_insn w i x sigma sigma' w' r j : insns fn !! i = Some x -> op x <> MIR_NOP -> act w i (sigma ∘ place_of <$> reads_of x) = Some (w', r, j) -> insn_flow fn i j ->
    (forall v, result_of x = Some v -> sigma' (place_of v) = r) ->
    (forall p, (forall v, result_of x = Some v -> p <> place_of v) -> (forall c q, p = Reg c q -> ~ clobbers abi x c q) -> sigma' p = sigma p) ->
    pstep (w, i, sigma) (w', j, sigma').

(** On entry values come from outside; of those that are needed and have one
    place, any may be there. *)
Definition starts (rho : nat -> option Val) (sigma : place -> Val) : Prop :=
  (forall v a, rho v = Some a -> (v < vreg_count fn)%nat /\ entry_defined fn v) /\
  forall v a, rho v = Some a -> needed v 0 -> exists u, rho u = Some (sigma (place_of v)) /\ needed u 0 /\ place_of u = place_of v.

(** Both are at one instruction, which reads the same from both. *)
Definition agrees (s : value_state) (t : place_state) : Prop :=
  s.1 = t.1 /\ forall x v a, insns fn !! s.1.2 = Some x -> op x <> MIR_NOP -> v ∈ reads_of x -> s.2 v = Some a -> t.2 (place_of v) = a.
End Runs.

(** Every run on values is the run on places. *)
Definition allocation_correct (fn : MirFunction) (abi : CallConv.AbiState) : Prop :=
  forall (World Val : Type) (act : World -> nat -> list Val -> option (World * Val * nat)) w rho sigma, starts fn rho sigma ->
  forall k s, nsteps (vstep fn act) k (w, 0%nat, rho) s ->
    (exists t, nsteps (pstep fn abi act) k (w, 0%nat, sigma) t) /\ forall t, nsteps (pstep fn abi act) k (w, 0%nat, sigma) t -> agrees fn s t.

(** * Simulation *)

Section Simulation.
Context (fn : MirFunction) (abi : CallConv.AbiState) (live defd : nat -> nat -> Prop) (Hcert : certificate fn abi live defd).

Lemma elem_of_reads x v : v ∈ reads_of fn x <-> (v < vreg_count fn)%nat /\ Z.of_nat v ∈ mir_verify_uses x.
Proof using.
  unfold reads_of. rewrite list_elem_of_fmap. split.
  - intros (z & -> & [Hz H]%list_elem_of_filter). rewrite Z2Nat.id by lia. split; [lia|done].
  - intros [Hv H]. exists (Z.of_nat v). split; [by rewrite Nat2Z.id|]. apply list_elem_of_filter. split; [lia|done].
Qed.

Lemma result_of_Some x v : op x <> MIR_NOP -> result_of fn x = Some v <-> sets_reg fn x v.
Proof using.
  intros Hn. unfold result_of, sets_reg. case_decide as Hd.
  - split; [intros [= <-]; split; [done|]; split; [lia|by rewrite Z2Nat.id by lia]|intros (_ & _ & ->); by rewrite Nat2Z.id].
  - split; [done|]. intros (_ & Hv & E). lia.
Qed.

Lemma needed_live v i : needed fn v i -> live i v.
Proof using Hcert. induction 1 as [i x Hx Hu|i j x Hx Hf Hs _ IH]; [by eapply (ce_uses _ _ _ _ Hcert)|by eapply (ce_live _ _ _ _ Hcert)]. Qed.

Lemma same_place u v : u <> v -> place_of fn u = place_of fn v -> exists ur vr, vregs fn !! u = Some ur /\ vregs fn !! v = Some vr /\ share_register ur vr.
Proof using.
  intros Hne E. unfold place_of in E. destruct (vregs fn !! u) as [ur|]; [destruct (flag (v_in_register ur)) eqn:Eu|]; (destruct (vregs fn !! v) as [vr|]; [destruct (flag (v_in_register vr)) eqn:Ev|]); try congruence.
  injection E as E1 E2. by exists ur, vr.
Qed.

Context {World Val : Type} (act : World -> nat -> list Val -> option (World * Val * nat)).

(** Values are written before they are read, and where they are needed they
    are in their places. *)
Definition matched (s : value_state) (t : @place_state World Val) : Prop :=
  s.1 = t.1 /\ forall v a, s.2 v = Some a -> (v < vreg_count fn)%nat /\ written fn v /\ defd s.1.2 v /\ (needed fn v s.1.2 -> t.2 (place_of fn v) = a).

Lemma matched_start w rho sigma : starts fn rho sigma -> matched (w, 0%nat, rho) (w, 0%nat, sigma).
Proof using Hcert.
  intros [He Hp]. split; [done|]. cbn [fst snd]. intros v a Hv. destruct (He v a Hv) as [Hlt Hev]. assert (written fn v) as Hw by (by left).
  pose proof (ce_entry _ _ _ _ Hcert v Hlt Hev) as Hd. split; [done|]. split; [done|]. split; [done|]. intros Hneed.
  destruct (Hp v a Hv Hneed) as (u & Hu & Hnu & Epl). destruct (decide (u = v)) as [->|Hne]; [congruence|exfalso].
  destruct (He _ _ Hu) as [Hult Heu]. destruct (same_place u v Hne Epl) as (ur & vr & Eu & Ev & Hs).
  apply (ce_alone _ _ _ _ Hcert u v ur vr Hne Eu Ev); [by left|done|by apply needed_live..|by apply (ce_entry _ _ _ _ Hcert)|done|done].
Qed.

Lemma matched_agrees s t : matched s t -> agrees fn s t.
Proof using.
  intros [E H]. split; [done|]. intros x v a Hx Hn [Hv Hu]%elem_of_reads Ha. destruct (H v a Ha) as (_ & _ & _ & Hplace). apply Hplace. by eapply needed_read.
Qed.

(** So both read the same. *)
Lemma reads_same rho (sigma : place -> Val) x vals : mapM rho (reads_of fn x) = Some vals -> (forall v a, v ∈ reads_of fn x -> rho v = Some a -> sigma (place_of fn v) = a) ->
  sigma ∘ place_of fn <$> reads_of fn x = vals.
Proof using.
  intros Hm Hs. apply mapM_Some in Hm. induction Hm as [|v a vs vals Ha Hm IH] in Hs |- *; [done|]. cbn [fmap list_fmap]. f_equal; [apply (Hs v a); [left|done]|].
  apply IH. intros u b Hu. apply Hs. by right.
Qed.

(** A value the instruction does not write stays where it is. *)
Lemma kept_place i j x v : insns fn !! i = Some x -> op x <> MIR_NOP -> insn_flow fn i j -> (v < vreg_count fn)%nat -> written fn v -> needed fn v j -> defd i v -> ~ sets_reg fn x v ->
  (forall d, result_of fn x = Some d -> place_of fn v <> place_of fn d) /\ forall c q, place_of fn v = Reg c q -> ~ clobbers abi x c q.
Proof using Hcert.
  intros Hx Hn Hf Hv Hw Hneed Hd Hs. pose proof (ce_unharmed _ _ _ _ Hcert i j x v Hx Hn Hf Hv Hw (needed_live v j Hneed) Hd) as Hun.
  assert (mir_verify_def x <> Z.of_nat v) as Hdef by (intros E; by apply Hs). split.
  - intros d Hres Epl. apply (result_of_Some x d Hn) in Hres. assert (d <> v) as Hne by (by intros ->). destruct (same_place d v Hne (eq_sym Epl)) as (dr & vr & Edr & Evr & Hsh).
    destruct (Hun vr Evr) as [_ H]; [apply Hsh|done|]. apply (H d dr Edr); [right; by exists i, x|apply Hres|done].
  - intros c q Epl. unfold place_of in Epl. destruct (vregs fn !! v) as [vr|] eqn:Evr; [|done]. destruct (flag (v_in_register vr)) eqn:Er; [|done]. injection Epl as <- <-.
    by apply (Hun vr).
Qed.

Lemma matched_reads w i rho t x vals : matched (w, i, rho) t -> insns fn !! i = Some x -> op x <> MIR_NOP -> mapM rho (reads_of fn x) = Some vals -> t.2 ∘ place_of fn <$> reads_of fn x = vals.
Proof using. intros Hm Hx Hn Hr. apply (reads_same rho); [done|]. intros v a Hv. by apply (proj2 (matched_agrees _ _ Hm) x). Qed.

Context (Hfirst : forall i, ~ insn_flow fn i 0).

Lemma defd_next i j x v : insns fn !! i = Some x -> insn_flow fn i j -> defd i v \/ sets_reg fn x v -> defd j v.
Proof using Hcert Hfirst. intros Hx Hf Hd. apply (ce_defd _ _ _ _ Hcert i j x v); [|done..]. destruct j; [by destruct (Hfirst i)|lia]. Qed.

Lemma matched_step s s' t t' : matched s t -> vstep fn act s s' -> pstep fn abi act t t' -> matched s' t'.
Proof using Hcert Hfirst.
  intros Hm Hv Hp. pose proof Hm as [E H]. destruct Hv as [w i x rho Hx Hn Hf|w i x rho vals w' r j Hx Hn Hr Ha Hf].
  - destruct Hp as [w2 i2 x2 sigma Hx2 Hn2 Hf2|w2 i2 x2 sigma sigma' w2' r2 j2 Hx2 Hn2]; cbn [fst snd] in *; injection E as <- <-; [|congruence].
    split; [done|]. cbn [fst snd]. intros v a Hva. destruct (H v a Hva) as (H1 & H2 & H3 & H4). split; [done|]. split; [done|]. split; [by apply (defd_next i _ x); [..|left]|].
    intros Hneed. apply H4. apply (needed_later fn v i (S i) x); [done|done|by intros [? _]|done].
  - pose proof (matched_reads w i rho t x vals Hm Hx Hn Hr) as Evals.
    destruct Hp as [w2 i2 x2 sigma Hx2 Hn2 Hf2|w2 i2 x2 sigma sigma' w2' r2 j2 Hx2 Hn2 Ha2 Hf2 Hres Hkeep]; cbn [fst snd] in *; injection E as <- <-; [congruence|].
    assert (x2 = x) as -> by congruence. rewrite Evals, Ha in Ha2. injection Ha2 as <- <- <-. split; [done|]. cbn [fst snd]. intros v a. case_decide as Hd.
    + intros [= <-]. apply (result_of_Some x v Hn) in Hd as Hs. split; [apply Hs|]. split; [right; by exists i, x|]. split; [by apply (defd_next i j x); [..|right]|]. intros _. by apply Hres.
    + intros Hva. destruct (H v a Hva) as (H1 & H2 & H3 & H4). rewrite (result_of_Some x v Hn) in Hd. split; [done|]. split; [done|]. split; [by apply (defd_next i j x); [..|left]|].
      intros Hneed. destruct (kept_place i j x v Hx Hn Hf H1 H2 Hneed H3 Hd) as [K1 K2]. rewrite Hkeep by done. apply H4. by apply (needed_later fn v i j x).
Qed.

Lemma matched_progress s s' t : matched s t -> vstep fn act s s' -> exists t', pstep fn abi act t t'.
Proof using.
  intros Hm Hv. pose proof Hm as [E H]. destruct t as [[w2 i2] sigma]. destruct Hv as [w i x rho Hx Hn Hf|w i x rho vals w' r j Hx Hn Hr Ha Hf]; cbn [fst snd] in E; injection E as <- <-.
  - eexists. by eapply pstep_nop.
  - pose proof (matched_reads w i rho _ x vals Hm Hx Hn Hr) as Evals. cbn [snd] in Evals.
    exists (w', j, fun p => match result_of fn x with Some d => if decide (p = place_of fn d) then r else sigma p | None => sigma p end).
    apply (pstep_insn fn abi act w i x sigma _ w' r j); [done|done|by rewrite Evals|done| |].
    + intros v ->. by rewrite decide_True.
    + intros p Hp _. destruct (result_of fn x) as [d|] eqn:Er; [|done]. rewrite decide_False; [done|]. by apply Hp.
Qed.

Lemma matched_run k : forall s s' t, matched s t -> nsteps (vstep fn act) k s s' -> (exists t', nsteps (pstep fn abi act) k t t') /\ forall t', nsteps (pstep fn abi act) k t t' -> matched s' t'.
Proof using Hcert Hfirst.
  induction k as [|k IH]; intros s s' t Hm Hs.
  - inversion Hs; subst. split; [exists t; constructor|]. intros t' Ht. by inversion Ht; subst.
  - inversion Hs as [|k' s1 s2 s3 Hst Hrest]; subst. split.
    + destruct (matched_progress _ _ _ Hm Hst) as [t1 Ht1]. destruct (IH s2 s' t1) as [[t' Ht'] _]; [by apply (matched_step _ _ _ _ Hm Hst)|done|]. exists t'. by eapply nsteps_l.
    + intros t' Ht. inversion Ht as [|k' t1 t2 t3 Htt Htrest]; subst. destruct (IH s2 s' t2) as [_ Hall]; [by apply (matched_step _ _ _ _ Hm Hst)|done|]. by apply Hall.
Qed.
End Simulation.

Lemma certificate_correct fn abi live defd : certificate fn abi live defd -> (forall i, ~ insn_flow fn i 0) -> allocation_correct fn abi.
Proof.
  intros Hc Hf World Val act w rho sigma Hst k s Hs. destruct (matched_run fn abi live defd Hc act Hf k _ s _ (matched_start fn abi live defd Hc w rho sigma Hst) Hs) as [Hex Hall].
  split; [done|]. intros t Ht. by eapply matched_agrees, Hall.
Qed.

Lemma resolved_able fn : resolved fn -> all_able fn.
Proof.
  intros Hr i. split.
  - intros x Hx. destruct (Hr i x Hx) as (ls & fl & -> & _). done.
  - intros x names fall Hx Hb. destruct (Hr i x Hx) as (ls & fl & Hb' & Hall). rewrite Hb in Hb'. injection Hb' as <- <-. apply Forall_forall. intros name Hin.
    destruct (Hall name Hin) as (m & j & -> & Hj). by exists m, j.
Qed.

(** C3: the verifier of register allocations always returns, and leaves the
    function as it was, or with its error flag.  Acceptance means correctness
    under four conditions: memory is granted (it accepts, unchecked, what it
    cannot get the memory to check), the function is within the verifier's
    work budget, every label that a branch names is there, and control never
    comes back to the first instruction.  Then an accepted function runs on
    the places given to its values as it does on the values: the same
    instructions in the same order, each reading the same, whatever else an
    instruction or a call clobbers; and every value mentioned has a place.
    The last two conditions are needed: see [unresolved_branch_accepted] and
    [first_instruction_branch_missed]. *)
Theorem mir_regalloc_verify_sound fn abi h : tables_ok fn -> kernels_ok fn ->
  exists (ok : bool) (h' : heap), mir_regalloc_verify fn abi h = Ret (ok, if ok then fn else set_error fn, h') /\
    (ok = true -> grants_all h -> resolved fn -> within_budget fn -> (forall i, ~ insn_flow fn i 0) ->
     allocation_correct fn abi /\
     forall i x v vr, insns fn !! i = Some x -> is_label x = false -> uses_reg fn x v \/ sets_reg fn x v -> vregs fn !! v = Some vr -> assigned_well vr = true).
Proof.
  intros Ht Hk. destruct (verify_spec fn abi Ht Hk h) as (ok & h' & E & Hok). exists ok, h'. split; [done|]. intros Eok Hg Hr Hb Hf.
  destruct (Hok Eok Hg (resolved_able fn Hr) Hb Hf) as (live & defd & Hc). split; [by apply (certificate_correct fn abi live defd)|by apply (ce_assigned _ _ _ _ Hc)].
Qed.

(** * A loop with a call *)

Definition in_gp (r : Z) : MirVreg := mkVreg MIR_RC_GP 8 0 1 1 r 0 0 0 0 0 (-1) 0 0 0 0 0 0 0 0 (-1).
Definition in_slot (offset : Z) : MirVreg := mkVreg MIR_RC_GP 8 0 1 0 (-1) offset 0 0 0 0 (-1) 0 0 0 0 0 0 0 0 (-1).

Definition inst (o : MirOpcode) (d a b : MirOperand) : MirInst := mkInst o d a b 8 false false 0 (-1) AuxNull false false.
Definition of_insns (vs : list MirVreg) (xs : list MirInst) : MirFunction := mkFn heap_unlimited vs (length vs) xs (length xs) [] false (-1) [] 0 (-1) false.

(** [b] is in a slot over the call, [a] in a register the callee saves when
    [ra] is one. *)
Definition call_loop (ra : Z) : MirFunction :=
  of_insns [in_gp ra; in_slot 8; in_gp BINARY_GP_RDX]
    [inst MIR_MOV (mir_op_vreg 0) (mir_op_imm 5) mir_op_none; inst MIR_MOV (mir_op_vreg 1) (mir_op_imm 3) mir_op_none;
     inst MIR_LABEL (mir_op_label "loop") mir_op_none mir_op_none; inst MIR_CALL (mkOperand MIR_OPK_PHYS (-1) BINARY_GP_RAX MIR_RC_GP 0 mem_none None 0) mir_op_none mir_op_none;
     inst MIR_ADD (mir_op_vreg 0) (mir_op_vreg 0) (mir_op_vreg 1); inst MIR_CMPBR (mir_op_label "loop") (mir_op_vreg 0) (mir_op_vreg 1);
     inst MIR_MOV (mir_op_vreg 2) (mir_op_vreg 0) mir_op_none; inst MIR_RET mir_op_none (mir_op_vreg 2) mir_op_none].

(** In a register that calls destroy, it is rejected. *)
Example call_loop_clobbered : mir_regalloc_verify (call_loop BINARY_GP_RDX) CallConv.abi_start heap_unlimited = Ret (false, set_error (call_loop BINARY_GP_RDX), mkHeap (fun _ => true) 10).
Proof. vm_compute. reflexivity. Qed.

Example call_loop_accepted : mir_regalloc_verify (call_loop BINARY_GP_RBX) CallConv.abi_start heap_unlimited = Ret (true, call_loop BINARY_GP_RBX, mkHeap (fun _ => true) 10).
Proof. vm_compute. reflexivity. Qed.

Lemma first_not_label fn : (forall x, insns fn !! 0%nat = Some x -> mir_cfg_is_label x = false) -> forall i, ~ insn_flow fn i 0.
Proof.
  intros H i (x & ls & fl & _ & _ & [(name & _ & Hl)|(_ & E & _)]); [|done]. apply label_at_Some in Hl as ((y & Hy & Hly) & _). rewrite (H y Hy) in Hly. done.
Qed.

Lemma mir_regalloc_verify_sound_witness : exists h', mir_regalloc_verify (call_loop BINARY_GP_RBX) CallConv.abi_start heap_unlimited = Ret (true, call_loop BINARY_GP_RBX, h') /\
  allocation_correct (call_loop BINARY_GP_RBX) CallConv.abi_start.
Proof.
  destruct (mir_regalloc_verify_sound (call_loop BINARY_GP_RBX) CallConv.abi_start heap_unlimited) as (ok & h' & E & H).
  - intros i x Hx. do 8 (destruct i as [|i]; [by injection Hx as <-|]). done.
  - intros i x Hx. do 8 (destruct i as [|i]; [by injection Hx as <-|]). done.
  - exists (mkHeap (fun _ => true) 10). split; [exact call_loop_accepted|]. apply H; [|exact (fun _ => eq_refl)| |vm_compute; discriminate|].
    + rewrite call_loop_accepted in E. apply Ret_inj in E. apply (f_equal (fun r => r.1.1)) in E. exact (eq_sym E).
    + clear E H. intros i x Hx. do 5 (destruct i as [|i]; [injection Hx as <-; eexists _, _; split; [reflexivity|]; by intros l ?%not_elem_of_nil|]).
      destruct i as [|i]; [injection Hx as <-; eexists _, _; split; [reflexivity|]; intros l ->%list_elem_of_singleton; by exists "loop"%string, 2%nat|].
      do 2 (destruct i as [|i]; [injection Hx as <-; eexists _, _; split; [reflexivity|]; by intros l ?%not_elem_of_nil|]). done.
    + apply first_not_label. intros x Hx. by injection Hx as <-.
Defined.

(** * A jump to the first instruction

    [mir_verify_compute_defined] starts at the second instruction, so that what
    is defined where control comes back to the first is lost: here value 0 is
    live and may be defined over the instruction that writes value 1 to its
    register, and the function is accepted. *)

Definition back_to_first : MirFunction :=
  of_insns [in_gp BINARY_GP_RBX; in_gp BINARY_GP_RBX; in_slot 8]
    [inst MIR_LABEL (mir_op_label "top") mir_op_none mir_op_none; inst MIR_MOV (mir_op_vreg 1) (mir_op_imm 5) mir_op_none;
     inst MIR_CMPBR (mir_op_label "set") (mir_op_vreg 1) (mir_op_imm 0); inst MIR_MOV (mir_op_vreg 2) (mir_op_vreg 0) mir_op_none;
     inst MIR_LABEL (mir_op_label "set") mir_op_none mir_op_none; inst MIR_MOV (mir_op_vreg 0) (mir_op_imm 9) mir_op_none; inst MIR_JMP (mir_op_label "top") mir_op_none mir_op_none].

Lemma back_to_first_flow : insn_flow back_to_first 1 2 /\ insn_flow back_to_first 2 3 /\ insn_flow back_to_first 5 6 /\ insn_flow back_to_first 6 0 /\ insn_flow back_to_first 0 1.
Proof.
  repeat split; [eexists _, _, _; (split; [reflexivity|]); (split; [reflexivity|]); right; (split; [done|]); (split; [done|vm_compute; lia])..| |].
  - eexists _, _, _. split; [reflexivity|]. split; [reflexivity|]. left. exists "top"%string. split; [left|reflexivity].
  - eexists _, _, _. split; [reflexivity|]. split; [reflexivity|]. right. split; [done|]. split; [done|]. vm_compute. lia.
Qed.

(** The function is accepted, though value 0 is defined before instruction 1
    and needed behind it, and the instruction writes to its register. *)
Example first_instruction_branch_missed : exists h', mir_regalloc_verify back_to_first CallConv.abi_start heap_unlimited = Ret (true, back_to_first, h') /\
  defd_at back_to_first 0 1 /\ needed back_to_first 0 2 /\ result_of back_to_first (inst MIR_MOV (mir_op_vreg 1) (mir_op_imm 5) mir_op_none) = Some 1%nat /\ place_of back_to_first 1 = place_of back_to_first 0.
Proof.
  destruct back_to_first_flow as (F12 & F23 & F56 & F60 & F01). eexists. split; [vm_compute; reflexivity|]. split; [|split; [|done]].
  - apply (defd_keep _ _ 0); [|exact F01]. apply (defd_keep _ _ 6); [|exact F60]. apply (defd_write _ _ 5); [|exact F56]. eexists. by split.
  - eapply (needed_later _ _ 2 3); [reflexivity|exact F23|by intros (_ & _ & H)|]. eapply needed_read; [reflexivity|]. split; [done|]. split; [vm_compute; lia|]. left.
Qed.

(** Without a label that a jump names, nothing is checked. *)
Definition nowhere : MirFunction :=
  of_insns [in_gp 99; in_gp 99] [inst MIR_MOV (mir_op_vreg 0) (mir_op_imm 5) mir_op_none; inst MIR_MOV (mir_op_vreg 1) (mir_op_vreg 0) mir_op_none; inst MIR_JMP (mir_op_label "none") mir_op_none mir_op_none].

Example unresolved_branch_accepted : exists h', mir_regalloc_verify nowhere CallConv.abi_start heap_unlimited = Ret (true, nowhere, h') /\ assigned_well (in_gp 99) = false.
Proof. eexists. split; [vm_compute; reflexivity|reflexivity]. Qed.
End MirVerifySound.
