(* ===== verification/LinkObjects.v ===== *)
(** The data of the linker: src/src/linker/link_object.h (objects as read),
    symbol_resolve.h (the objects merged) and the byte accesses of
    linker_common.h.

    Names are the bytes of a C string; error messages, and the paths they
    mention, are left out.  The bytes of a merged section are those written so
    far; the rest of its buffer has no contents yet. *)
From S2P Require Import Prelude Probe.
#[local] Open Scope Z_scope.

Module LinkObjects.

Abbreviation cstring := (list Z).

(** * Objects *)

Inductive LinkSectionKind :=
| LINK_SECTION_KIND_UNKNOWN | LINK_SECTION_KIND_TEXT | LINK_SECTION_KIND_RDATA | LINK_SECTION_KIND_DATA
| LINK_SECTION_KIND_BSS | LINK_SECTION_KIND_TLS | LINK_SECTION_KIND_PDATA | LINK_SECTION_KIND_XDATA.

Inductive LinkRelocKind :=
| LINK_RELOC_NONE | LINK_RELOC_ABS64 | LINK_RELOC_PC32 | LINK_RELOC_ABS32 | LINK_RELOC_IMAGE_REL32
| LINK_RELOC_SECREL32 | LINK_RELOC_TPOFF32 | LINK_RELOC_GOTPCREL32 | LINK_RELOC_GOTPCRELX32.

#[export] Instance LinkSectionKind_eq_dec : EqDecision LinkSectionKind.
Proof. solve_decision. Defined.
#[export] Instance LinkRelocKind_eq_dec : EqDecision LinkRelocKind.
Proof. solve_decision. Defined.

Record LinkReloc := mkReloc {
  r_offset : Z;
  r_symbol_index : Z;
  r_kind : LinkRelocKind;
  r_addend : Z;
  r_addend_is_explicit : bool;
  r_format_type : Z
}.

Record LinkSection := mkSection {
  s_name : option cstring;
  s_kind : LinkSectionKind;
  s_virtual_size : Z;
  s_size_of_raw_data : Z;
  s_alignment : Z;
  s_raw_data : list Z;
  s_relocations : list LinkReloc;
  s_is_metadata : bool
}.

Record LinkSymbol := mkSymbol {
  y_name : option cstring;
  y_value : Z;
  y_section_index : Z;
  y_is_external : bool;
  y_is_auxiliary : bool;
  y_is_weak : bool;
  y_aux_section_length : Z;
  y_size : Z;
  y_elf_type : Z;
  y_is_defined : bool;
  y_is_common : bool
}.

Definition LINK_SECTION_INDEX_UNDEFINED : Z := -1.
Definition LINK_SECTION_INDEX_ABSOLUTE : Z := -2.
Definition LINK_SECTION_INDEX_COMMON : Z := -3.

Record LinkObject := mkObject { o_sections : list LinkSection; o_symbols : list LinkSymbol }.

(** * Merged sections and resolved symbols *)

Definition LINKED_SECTION_INDEX_NONE : Z := 2 ^ 64 - 1.
Definition LINKED_SECTION_COUNT : nat := 7.
Definition UINT32_MAX : Z := 2 ^ 32 - 1.

Record LinkedSectionContribution := mkContribution { c_object_index : nat; c_section_index : nat; c_merged_offset : Z; c_size : Z; c_alignment : Z }.

Record LinkedSection := mkLinkedSection {
  m_kind : LinkSectionKind;
  m_data : list Z;
  m_data_capacity : Z;
  m_size : Z;
  m_virtual_size : Z;
  m_alignment : Z;
  m_virtual_address : Z;
  m_contributions : list LinkedSectionContribution;
  m_contribution_capacity : Z
}.

Record LinkedObjectSymbol := mkObjectSymbol {
  os_name : option cstring;
  os_object_index : nat;
  os_symbol_index : Z;
  os_is_defined : bool;
  os_is_external : bool;
  os_is_local : bool;
  os_is_auxiliary : bool;
  os_section_index : Z;
  os_merged_section_index : Z;
  os_merged_offset : Z;
  os_virtual_address : Z;
  os_size : Z;
  os_elf_type : Z;
  os_is_weak : bool
}.

Record LinkedInputObject := mkInput {
  i_object : option LinkObject;
  i_section_merged_indices : list Z;
  i_section_merged_offsets : list Z;
  i_section_merged_sizes : list Z;
  i_section_alignments : list Z;
  i_symbols : list LinkedObjectSymbol;
  i_is_runtime_default : bool;
  i_section_gc_dead : option (list bool);
  i_symbol_gc_referenced : option (list bool)
}.

Record LinkedSymbol := mkLinkedSymbol {
  g_name : option cstring;
  g_is_defined : bool;
  g_is_external : bool;
  g_defining_object_index : Z;
  g_defining_symbol_index : Z;
  g_merged_section_index : Z;
  g_merged_offset : Z;
  g_virtual_address : Z;
  g_size : Z;
  g_elf_type : Z;
  g_is_weak : bool
}.

(** Without the tables of shared libraries. *)
Record LinkResolution := mkResolution {
  objects : list LinkedInputObject;
  sections : list LinkedSection;
  symbols : list LinkedSymbol;
  symbol_capacity : Z;
  symbol_buckets : list nat;
  entry_symbol : option nat
}.

(** Storing bytes into a merged section. *)
Definition with_data (d : list Z) (m : LinkedSection) : LinkedSection :=
  mkLinkedSection (m_kind m) d (m_data_capacity m) (m_size m) (m_virtual_size m) (m_alignment m) (m_virtual_address m) (m_contributions m)
    (m_contribution_capacity m).

Definition with_sections (s : list LinkedSection) (r : LinkResolution) : LinkResolution :=
  mkResolution (objects r) s (symbols r) (symbol_capacity r) (symbol_buckets r) (entry_symbol r).

Definition with_objects (inputs : list LinkedInputObject) (r : LinkResolution) : LinkResolution :=
  mkResolution inputs (sections r) (symbols r) (symbol_capacity r) (symbol_buckets r) (entry_symbol r).

Definition input_sections (input : LinkedInputObject) : list LinkSection := match i_object input with Some o => o_sections o | None => [] end.

(** Is the section at this index collected? *)
Definition is_dead (input : LinkedInputObject) (i : nat) : outcome bool :=
  match i_section_gc_dead input with None => Ret false | Some l => get l (Z.of_nat i) end.

(** * Bytes *)

Definition linker_read_u16 (d : list Z) (i : Z) : outcome Z :=
  let! b0 := get d i in
  let! b1 := get d (i + 1) in
  Ret (Z.lor b0 (Z.shiftl b1 8)).

Definition linker_read_u32 (d : list Z) (i : Z) : outcome Z :=
  let! b0 := get d i in
  let! b1 := get d (i + 1) in
  let! b2 := get d (i + 2) in
  let! b3 := get d (i + 3) in
  Ret (Z.lor (Z.lor (Z.lor b0 (Z.shiftl b1 8)) (Z.shiftl b2 16)) (Z.shiftl b3 24)).

Definition linker_read_u64 (d : list Z) (i : Z) : outcome Z :=
  let! lo := linker_read_u32 d i in
  let! hi := linker_read_u32 d (i + 4) in
  Ret (Z.lor lo (Z.shiftl hi 32)).

Definition byte_of (v : Z) (k : Z) : Z := Z.land (Z.shiftr v k) 0xFF.

Definition linker_write_u32 (d : list Z) (i : Z) (value : Z) : outcome (list Z) :=
  let! d := put d i (byte_of value 0) in
  let! d := put d (i + 1) (byte_of value 8) in
  let! d := put d (i + 2) (byte_of value 16) in
  put d (i + 3) (byte_of value 24).

Definition linker_write_u64 (d : list Z) (i : Z) (value : Z) : outcome (list Z) :=
  let! d := put d i (byte_of value 0) in
  let! d := put d (i + 1) (byte_of value 8) in
  let! d := put d (i + 2) (byte_of value 16) in
  let! d := put d (i + 3) (byte_of value 24) in
  let! d := put d (i + 4) (byte_of value 32) in
  let! d := put d (i + 5) (byte_of value 40) in
  let! d := put d (i + 6) (byte_of value 48) in
  put d (i + 7) (byte_of value 56).

(** [(value + alignment - 1) & ~(alignment - 1)] on [size_t]. *)
Definition linker_align_up (value alignment : Z) : Z :=
  if alignment =? 0 then value
  else Z.land (u64 (value + alignment - 1)) (u64 (Z.lnot (u64 (alignment - 1)))).

(** * Growing arrays *)

(** [while (c < n) c *= 2]: 64 doublings of a number that is not zero reach
    any other, or zero. *)
Fixpoint doubled (fuel : nat) (c n : Z) : outcome Z :=
  match fuel with O => NoFuel | S fuel => if c <? n then doubled fuel (u64 (c * 2)) n else Ret c end.
Definition grown (c start n : Z) : outcome Z := doubled 65 (if c =? 0 then start else c) n.

(** An array of [n] entries: no block is needed for an empty one. *)
Definition alloc_array (n : nat) (h : heap) : bool * heap := let (ok, h) := alloc h in (ok || (n =? 0)%nat, h).

(** * Sections and symbols *)

Definition link_section_index_from_kind (k : LinkSectionKind) : Z :=
  match k with
  | LINK_SECTION_KIND_TEXT => 0
  | LINK_SECTION_KIND_RDATA => 1
  | LINK_SECTION_KIND_DATA => 2
  | LINK_SECTION_KIND_BSS => 3
  | LINK_SECTION_KIND_PDATA => 4
  | LINK_SECTION_KIND_XDATA => 5
  | LINK_SECTION_KIND_TLS => 6
  | LINK_SECTION_KIND_UNKNOWN => LINKED_SECTION_INDEX_NONE
  end.

Definition link_resolution_find_section (r : LinkResolution) (k : LinkSectionKind) : outcome (option LinkedSection) :=
  let i := link_section_index_from_kind k in
  if i =? LINKED_SECTION_INDEX_NONE then Ret None else let! s := get (sections r) i in Ret (Some s).

(** Does the symbol at this index have this name? *)
Definition symbol_named (r : LinkResolution) (name : cstring) (i : nat) : bool :=
  match symbols r !! i with Some s => bool_decide (g_name s = Some name) | None => false end.

(** The index of a symbol, through the hash table once there is one. *)
Definition link_resolution_find_symbol (r : LinkResolution) (name : option cstring) : outcome (option nat) :=
  match name with
  | None => Ret None
  | Some name =>
      if (0 <? length (symbol_buckets r))%nat then
        let! (_, i) := Probe.probe_loop (S (length (symbol_buckets r))) (symbol_buckets r) (length (symbol_buckets r) - 1)
          (symbol_named r name) (Probe.slot_of (Probe.mettle_fnv1a_hash name) (length (symbol_buckets r) - 1)) in
        Ret i
      else Ret (fst <$> list_find (fun s => g_name s = Some name) (symbols r))
  end.
End LinkObjects.
