(* ===== verification/LinkBytes.v ===== *)
(** Bytes in arrays: little-endian words, what a write leaves alone, and reading
    back what was written. *)
From S2P Require Import Prelude LinkObjects.
#[local] Open Scope Z_scope.

Module LinkBytes.
Import LinkObjects.

(** * Little-endian words *)

Lemma byte_bit v k j : 0 <= k -> 0 <= j -> Z.testbit (byte_of v k) j = (j <? 8) && Z.testbit v (j + k).
Proof.
  intros Hk Hj. unfold byte_of. change 0xFF with (Z.ones 8). rewrite Z.land_spec, Z.shiftr_spec by done.
  rewrite Z.testbit_ones by lia. rewrite (proj2 (Z.leb_le 0 j)) by done. apply andb_comm.
Qed.

Lemma wrap_bit w v n : 0 <= w -> 0 <= n -> Z.testbit (wrapu w v) n = (n <? w) && Z.testbit v n.
Proof.
  intros Hw Hn. unfold wrapu. destruct (Z.ltb_spec n w); [by rewrite Z.mod_pow2_bits_low|by rewrite Z.mod_pow2_bits_high by lia].
Qed.

Lemma shiftl_bit v k n : 0 <= k -> 0 <= n -> Z.testbit (Z.shiftl v k) n = (k <=? n) && Z.testbit v (n - k).
Proof.
  intros Hk Hn. destruct (Z.leb_spec k n); [by rewrite Z.shiftl_spec_high by lia|]. rewrite Z.shiftl_spec by done. by rewrite Z.testbit_neg_r by lia.
Qed.

Lemma join_bytes v : Z.lor (Z.lor (Z.lor (byte_of v 0) (Z.shiftl (byte_of v 8) 8)) (Z.shiftl (byte_of v 16) 16)) (Z.shiftl (byte_of v 24) 24) = u32 v.
Proof.
  apply Z.bits_inj'. intros n Hn. rewrite !Z.lor_spec, !shiftl_bit, wrap_bit by lia.
  assert (forall k, 0 <= k -> (k <=? n) && Z.testbit (byte_of v k) (n - k) = (k <=? n) && (n <? k + 8) && Z.testbit v n) as Hb.
  { intros k Hk. destruct (Z.leb_spec k n); [|done]. rewrite byte_bit by lia. replace (n - k + k) with n by lia. cbn [andb]. f_equal.
    destruct (Z.ltb_spec (n - k) 8), (Z.ltb_spec n (k + 8)); done || lia. }
  pose proof (Hb 0 ltac:(lia)) as H0. rewrite Z.sub_0_r, (proj2 (Z.leb_le 0 n)) in H0 by done. cbn [andb] in H0. rewrite H0, !Hb by lia.
  destruct (Z.testbit v n); rewrite ?andb_true_r, ?andb_false_r; [|done].
  destruct (Z.ltb_spec n (0 + 8)), (Z.leb_spec 8 n), (Z.ltb_spec n (8 + 8)), (Z.leb_spec 16 n), (Z.ltb_spec n (16 + 8)), (Z.leb_spec 24 n),
    (Z.ltb_spec n (24 + 8)), (Z.ltb_spec n 32); try done; lia.
Qed.

Lemma byte_high v k : 0 <= k -> byte_of v (32 + k) = byte_of (Z.shiftr v 32) k.
Proof. intros Hk. unfold byte_of. by rewrite Z.shiftr_shiftr by lia. Qed.

Lemma join_halves v : Z.lor (u32 v) (Z.shiftl (u32 (Z.shiftr v 32)) 32) = u64 v.
Proof.
  apply Z.bits_inj'. intros n Hn. rewrite Z.lor_spec, shiftl_bit, (wrap_bit 64), (wrap_bit 32 v) by lia.
  destruct (Z.leb_spec 32 n); [|cbn [andb]; rewrite orb_false_r; destruct (Z.ltb_spec n 32), (Z.ltb_spec n 64); done || lia].
  rewrite wrap_bit, Z.shiftr_spec by lia. replace (n - 32 + 32) with n by lia.
  destruct (Z.ltb_spec n 32), (Z.ltb_spec (n - 32) 32), (Z.ltb_spec n 64); done || lia.
Qed.

(** ** Arrays of bytes *)

(** The arrays agree outside [[a, b)]. *)
Definition same_outside (a b : Z) (d d' : list Z) : Prop :=
  length d' = length d /\ forall k : nat, Z.of_nat k < a \/ b <= Z.of_nat k -> d' !! k = d !! k.

Lemma same_outside_refl a b d : same_outside a b d d.
Proof. done. Qed.

Lemma same_outside_trans a b d1 d2 d3 : same_outside a b d1 d2 -> same_outside a b d2 d3 -> same_outside a b d1 d3.
Proof. intros [L1 H1] [L2 H2]. split; [congruence|]. intros k Hk. by rewrite H2, H1. Qed.

Lemma same_outside_widen a b a' b' d d' : a' <= a -> b <= b' -> same_outside a b d d' -> same_outside a' b' d d'.
Proof. intros Ha Hb [L H]. split; [done|]. intros k Hk. apply H. lia. Qed.

Lemma put_spec {A} (d : list A) i v : 0 <= i < Z.of_nat (length d) -> put d i v = Ret (<[Z.to_nat i := v]> d).
Proof. intros Hi. rewrite <- (Z2Nat.id i) at 1 by lia. apply put_nat. lia. Qed.

Lemma get_spec {A} (d : list A) i v : 0 <= i -> d !! Z.to_nat i = Some v -> get d i = Ret v.
Proof. intros Hi H. rewrite <- (Z2Nat.id i) by lia. by apply get_nat. Qed.

(** Writing bytes one after the other. *)
Fixpoint splice (d : list Z) (i : Z) (bs : list Z) : list Z :=
  match bs with [] => d | b :: bs => splice (<[Z.to_nat i := b]> d) (i + 1) bs end.

Lemma splice_spec bs : forall d i, 0 <= i -> i + Z.of_nat (length bs) <= Z.of_nat (length d) ->
  same_outside i (i + Z.of_nat (length bs)) d (splice d i bs) /\
  forall (k : nat) b, bs !! k = Some b -> splice d i bs !! Z.to_nat (i + Z.of_nat k) = Some b.
Proof.
  induction bs as [|b bs IH]; intros d i Hi Hl; cbn [splice length]; [done|]. cbn [length] in Hl.
  destruct (IH (<[Z.to_nat i := b]> d) (i + 1)) as [[L H] Hin]; [lia|rewrite length_insert; lia|]. rewrite length_insert in L. split.
  - split; [done|]. intros k Hk. rewrite H by lia. apply list_lookup_insert_ne. lia.
  - intros [|k] c Hc; [|specialize (Hin k c Hc); by replace (i + Z.of_nat (S k)) with (i + 1 + Z.of_nat k) by lia].
    injection Hc as <-. rewrite H by lia. replace (i + Z.of_nat 0) with i by lia. apply list_lookup_insert_eq. lia.
Qed.

Definition word_bytes (n : nat) (v : Z) : list Z := (fun k => byte_of v (8 * Z.of_nat k)) <$> seq 0 n.

Lemma write_u32_splice d i v : 0 <= i -> i + 4 <= Z.of_nat (length d) -> linker_write_u32 d i v = Ret (splice d i (word_bytes 4 v)).
Proof.
  intros Hi Hl. unfold linker_write_u32. do 4 (rewrite put_spec by (rewrite ?length_insert; lia); cbn [obind]).
  cbn [word_bytes seq fmap list_fmap splice]. by rewrite <- !Z.add_assoc.
Qed.

Lemma write_u64_splice d i v : 0 <= i -> i + 8 <= Z.of_nat (length d) -> linker_write_u64 d i v = Ret (splice d i (word_bytes 8 v)).
Proof.
  intros Hi Hl. unfold linker_write_u64. do 8 (rewrite put_spec by (rewrite ?length_insert; lia); cbn [obind]).
  cbn [word_bytes seq fmap list_fmap splice]. by rewrite <- !Z.add_assoc.
Qed.

Lemma read_u16_bytes d i v : 0 <= i -> (forall (k : nat) b, word_bytes 2 v !! k = Some b -> d !! Z.to_nat (i + Z.of_nat k) = Some b) ->
  linker_read_u16 d i = Ret (u16 v).
Proof.
  intros Hi H. unfold linker_read_u16. rewrite <- (Z.add_0_r i) at 1.
  rewrite (get_spec d (i + 0) (byte_of v 0) ltac:(lia) (H 0%nat _ eq_refl)), (get_spec d (i + 1) (byte_of v 8) ltac:(lia) (H 1%nat _ eq_refl)).
  cbn [obind]. f_equal. apply Z.bits_inj'. intros n Hn. rewrite Z.lor_spec, shiftl_bit, wrap_bit by lia. rewrite byte_bit, Z.add_0_r by lia.
  destruct (Z.leb_spec 8 n); [|rewrite orb_false_r; destruct (Z.ltb_spec n 8), (Z.ltb_spec n 16); done || lia].
  rewrite byte_bit by lia. replace (n - 8 + 8) with n by lia.
  destruct (Z.ltb_spec n 8), (Z.ltb_spec (n - 8) 8), (Z.ltb_spec n 16); done || lia.
Qed.

Lemma read_u32_bytes d i v : 0 <= i -> (forall (k : nat) b, word_bytes 4 v !! k = Some b -> d !! Z.to_nat (i + Z.of_nat k) = Some b) ->
  linker_read_u32 d i = Ret (u32 v).
Proof.
  intros Hi H. unfold linker_read_u32. rewrite <- (Z.add_0_r i) at 1.
  rewrite (get_spec d (i + 0) (byte_of v 0) ltac:(lia) (H 0%nat _ eq_refl)), (get_spec d (i + 1) (byte_of v 8) ltac:(lia) (H 1%nat _ eq_refl)),
    (get_spec d (i + 2) (byte_of v 16) ltac:(lia) (H 2%nat _ eq_refl)), (get_spec d (i + 3) (byte_of v 24) ltac:(lia) (H 3%nat _ eq_refl)).
  cbn [obind]. f_equal. apply join_bytes.
Qed.

Lemma read_u64_bytes d i v : 0 <= i -> (forall (k : nat) b, word_bytes 8 v !! k = Some b -> d !! Z.to_nat (i + Z.of_nat k) = Some b) ->
  linker_read_u64 d i = Ret (u64 v).
Proof.
  intros Hi H. unfold linker_read_u64. rewrite (read_u32_bytes d i v), (read_u32_bytes d (i + 4) (Z.shiftr v 32)); [|lia| |lia|].
  - cbn [obind]. f_equal. apply join_halves.
  - intros k b Hb. apply lookup_lt_Some in Hb as Hk. cbn in Hk. replace (i + 4 + Z.of_nat k) with (i + Z.of_nat (4 + k)) by lia. apply H.
    rewrite <- Hb. do 4 (destruct k as [|k]; [cbn; f_equal; by apply (byte_high v)|]). lia.
  - intros k b Hb. apply lookup_lt_Some in Hb as Hk. cbn in Hk. apply H. rewrite <- Hb. by do 4 (destruct k as [|k]; [done|]); lia.
Qed.

(** A read depends on the bytes it reads. *)
Definition same_inside (a b : Z) (d d' : list Z) : Prop := forall k : nat, a <= Z.of_nat k < b -> d' !! k = d !! k.

Lemma get_same {A} (d d' : list A) i : (0 <= i -> d' !! Z.to_nat i = d !! Z.to_nat i) -> get d' i = get d i.
Proof. intros H. unfold get. destruct (Z.ltb_spec i 0); [done|]. by rewrite H. Qed.

Lemma read_u32_same d d' i : same_inside i (i + 4) d d' -> linker_read_u32 d' i = linker_read_u32 d i.
Proof.
  intros H. unfold linker_read_u32. by rewrite (get_same d d' i), (get_same d d' (i + 1)), (get_same d d' (i + 2)), (get_same d d' (i + 3)) by (intros; apply H; lia).
Qed.

Lemma read_u64_same d d' i : same_inside i (i + 8) d d' -> linker_read_u64 d' i = linker_read_u64 d i.
Proof.
  intros H. unfold linker_read_u64. by rewrite (read_u32_same d d' i), (read_u32_same d d' (i + 4)) by (intros k Hk; apply H; lia).
Qed.

Lemma get_inside {A} (d : list A) i : 0 <= i < Z.of_nat (length d) -> exists v, get d i = Ret v /\ d !! Z.to_nat i = Some v.
Proof. intros Hi. destruct (lookup_lt_is_Some_2 d (Z.to_nat i)) as [v Hv]; [lia|]. exists v. split; [apply get_spec; [lia|done]|done]. Qed.

Lemma read_u32_inside d i : 0 <= i -> i + 4 <= Z.of_nat (length d) -> exists v, linker_read_u32 d i = Ret v.
Proof.
  intros Hi Hl. unfold linker_read_u32. destruct (get_inside d i) as (? & -> & _); [lia|]. destruct (get_inside d (i + 1)) as (? & -> & _); [lia|].
  destruct (get_inside d (i + 2)) as (? & -> & _); [lia|]. destruct (get_inside d (i + 3)) as (? & -> & _); [lia|]. cbn [obind]. by eexists.
Qed.

Lemma read_u64_inside d i : 0 <= i -> i + 8 <= Z.of_nat (length d) -> exists v, linker_read_u64 d i = Ret v.
Proof.
  intros Hi Hl. unfold linker_read_u64. destruct (read_u32_inside d i) as [? ->]; [lia..|]. destruct (read_u32_inside d (i + 4)) as [? ->]; [lia..|].
  cbn [obind]. by eexists.
Qed.

(** ** Writing a word *)

Definition bytes_ok (d : list Z) : Prop := Forall (in_u 8) d.

Lemma byte_of_u8 v k : in_u 8 (byte_of v k).
Proof. unfold byte_of. change 0xFF with (Z.ones 8). rewrite Z.land_ones by lia. apply Z.mod_pos_bound. lia. Qed.

Lemma splice_bytes bs : Forall (in_u 8) bs -> forall d i, bytes_ok d -> bytes_ok (splice d i bs).
Proof. induction 1 as [|b bs Hb _ IH]; intros d i Hd; cbn [splice]; [done|]. apply IH. by apply Forall_insert. Qed.

Lemma word_bytes_u8 n v : Forall (in_u 8) (word_bytes n v).
Proof. apply Forall_fmap, Forall_true. intros k. apply byte_of_u8. Qed.

Lemma write_u32_spec d i v : 0 <= i -> i + 4 <= Z.of_nat (length d) -> in_u 32 v ->
  exists d', linker_write_u32 d i v = Ret d' /\ (bytes_ok d -> bytes_ok d') /\ same_outside i (i + 4) d d' /\ linker_read_u32 d' i = Ret v.
Proof.
  intros Hi Hl Hv. rewrite write_u32_splice by done. eexists. split; [done|]. split; [apply splice_bytes, word_bytes_u8|].
  destruct (splice_spec (word_bytes 4 v) d i Hi Hl) as [Ho Hin].
  split; [done|]. rewrite (read_u32_bytes _ _ v Hi Hin). by rewrite wrapu_small.
Qed.

Lemma write_u64_spec d i v : 0 <= i -> i + 8 <= Z.of_nat (length d) -> in_u 64 v ->
  exists d', linker_write_u64 d i v = Ret d' /\ (bytes_ok d -> bytes_ok d') /\ same_outside i (i + 8) d d' /\ linker_read_u64 d' i = Ret v.
Proof.
  intros Hi Hl Hv. rewrite write_u64_splice by done. eexists. split; [done|]. split; [apply splice_bytes, word_bytes_u8|].
  destruct (splice_spec (word_bytes 8 v) d i Hi Hl) as [Ho Hin].
  split; [done|]. rewrite (read_u64_bytes _ _ v Hi Hin). by rewrite wrapu_small.
Qed.

(** ** Reading words of bytes *)

Lemma lor_below a b k n : 0 <= k -> 0 <= n -> in_u k a -> in_u n b -> in_u (k + n) (Z.lor a (Z.shiftl b k)).
Proof.
  intros Hk Hn [Ha Ha'] [Hb Hb']. assert (0 <= Z.lor a (Z.shiftl b k)) as H0 by (apply Z.lor_nonneg; split; [lia|]; apply Z.shiftl_nonneg; lia).
  split; [done|]. rewrite <- (Z.mod_small a (2 ^ k)) by lia. rewrite <- (wrapu_small n b) by (unfold in_u; lia).
  assert (forall j, k + n <= j -> Z.testbit (Z.lor (a mod 2 ^ k) (Z.shiftl (wrapu n b) k)) j = false) as Hbits.
  { intros j Hj. rewrite Z.lor_spec, shiftl_bit, Z.mod_pow2_bits_high, wrap_bit by lia. rewrite (proj2 (Z.ltb_ge (j - k) n)) by lia. by rewrite andb_false_r. }
  rewrite Z.mod_small, (wrapu_small n b) in * by (unfold in_u; lia). destruct (Z.lt_ge_cases (Z.lor a (Z.shiftl b k)) (2 ^ (k + n))) as [|Hge]; [done|].
  assert (0 < 2 ^ (k + n)) by lia. pose proof (Z.log2_le_mono _ _ Hge) as Hlog. rewrite Z.log2_pow2 in Hlog by lia.
  specialize (Hbits _ Hlog). rewrite Z.bit_log2 in Hbits by lia. done.
Qed.

Lemma get_byte d i : bytes_ok d -> 0 <= i < Z.of_nat (length d) -> exists b, get d i = Ret b /\ in_u 8 b.
Proof. intros Hd Hi. destruct (get_inside d i Hi) as (b & E & Hb). exists b. split; [done|]. exact (Forall_lookup_1 _ _ _ _ Hd Hb). Qed.

Lemma read_u16_word d i : bytes_ok d -> 0 <= i -> i + 2 <= Z.of_nat (length d) -> exists v, linker_read_u16 d i = Ret v /\ in_u 16 v.
Proof.
  intros Hd Hi Hl. unfold linker_read_u16. destruct (get_byte d i Hd) as (b0 & -> & H0); [lia|]. destruct (get_byte d (i + 1) Hd) as (b1 & -> & H1); [lia|].
  cbn [obind]. eexists. split; [done|]. by apply (lor_below b0 b1 8 8).
Qed.

Lemma read_u32_word d i : bytes_ok d -> 0 <= i -> i + 4 <= Z.of_nat (length d) -> exists v, linker_read_u32 d i = Ret v /\ in_u 32 v.
Proof.
  intros Hd Hi Hl. unfold linker_read_u32. destruct (get_byte d i Hd) as (b0 & -> & H0); [lia|]. destruct (get_byte d (i + 1) Hd) as (b1 & -> & H1); [lia|].
  destruct (get_byte d (i + 2) Hd) as (b2 & -> & H2); [lia|]. destruct (get_byte d (i + 3) Hd) as (b3 & -> & H3); [lia|].
  cbn [obind]. eexists. split; [done|]. apply (lor_below _ b3 24 8); try done. apply (lor_below _ b2 16 8); try done. by apply (lor_below b0 b1 8 8).
Qed.

Lemma read_u64_word d i : bytes_ok d -> 0 <= i -> i + 8 <= Z.of_nat (length d) -> exists v, linker_read_u64 d i = Ret v /\ in_u 64 v.
Proof.
  intros Hd Hi Hl. unfold linker_read_u64. destruct (read_u32_word d i Hd) as (lo & -> & Hlo); [lia..|].
  destruct (read_u32_word d (i + 4) Hd) as (hi & -> & Hhi); [lia..|]. cbn [obind]. eexists. split; [done|]. by apply (lor_below lo hi 32 32).
Qed.
End LinkBytes.
