(* ===== verification/LinkObjectsCorrect.v ===== *)
(** The shared steps of the linker: growing an array, rounding an offset up. *)
From S2P Require Import Prelude Probe LinkObjects.
#[local] Open Scope Z_scope.

Module LinkObjectsCorrect.
Import LinkObjects.

(** A heap that grants what is still asked of it. *)
Definition generous (h : heap) : Prop := forall n, heap_grants h n = true.

Lemma generous_same h h' : heap_grants h' = heap_grants h -> generous h -> generous h'.
Proof. intros E H n. rewrite E. apply H. Qed.

(** * Functions that allocate *)

(** A result that is there, or not, and good if it is; the allocator keeps
    answering as it did. *)
Definition returns {A} (P : A -> Prop) (h : heap) (m : outcome (option A * heap)) : Prop :=
  exists res h', m = Ret (res, h') /\ heap_grants h' = heap_grants h /\ forall x, res = Some x -> P x.

Lemma returns_none {A} (P : A -> Prop) h : returns P h (Ret (None, h)).
Proof. by exists None, h. Qed.
Lemma returns_some {A} (P : A -> Prop) x h : P x -> returns P h (Ret (Some x, h)).
Proof. intros H. exists (Some x), h. split; [done|]. split; [done|]. by intros y [= <-]. Qed.

Lemma returns_heap {A} (P : A -> Prop) h h1 m : heap_grants h1 = heap_grants h -> returns P h1 m -> returns P h m.
Proof. intros E (res & h' & -> & Eh & H). exists res, h'. split; [done|]. split; [congruence|done]. Qed.

(** Going on after an allocation that is granted, where one that is not
    ends it. *)
Ltac allocated h h1 :=
  apply (returns_heap _ h (snd (alloc h)) _ eq_refl);
  let ok := fresh "ok" in let E := fresh "Eheap" in
  assert (heap_grants (snd (alloc h)) = heap_grants h) as E by reflexivity;
  destruct (alloc h) as [ok h1]; cbn [snd] in *; destruct ok; cbn [negb]; [|try apply returns_none].

Lemma returns_bind {A B} (P : A -> Prop) (Q : B -> Prop) h m (k : option A * heap -> outcome (option B * heap)) :
  returns P h m -> (forall h, returns Q h (k (None, h))) -> (forall x h, P x -> returns Q h (k (Some x, h))) -> returns Q h (obind m k).
Proof.
  intros (res & h' & -> & Eh & HP) Hn Hs. cbn [obind]. apply (returns_heap Q h h'); [done|]. destruct res as [x|]; [apply Hs; by apply HP|apply Hn].
Qed.

Lemma returns_weaken {A} (P Q : A -> Prop) h m : returns P h m -> (forall x, P x -> Q x) -> returns Q h m.
Proof. intros (res & h' & E & Eh & H) HPQ. exists res, h'. split; [done|]. split; [done|]. intros x Hx. by apply HPQ, H. Qed.

(** * Growing *)

Lemma doubled_spec fuel : forall c n, 0 < c < 2 ^ 64 -> n <= 2 ^ 63 -> 2 ^ 63 <= c * 2 ^ Z.of_nat fuel ->
  exists k, doubled (S fuel) c n = Ret (c * 2 ^ Z.of_nat k) /\ n <= c * 2 ^ Z.of_nat k < 2 ^ 64 /\ c * 2 ^ Z.of_nat k <= Z.max c (2 * n).
Proof.
  induction fuel as [|fuel IH]; intros c n Hc Hn Hf; cbn [doubled].
  - rewrite Z.pow_0_r in Hf. rewrite (proj2 (Z.ltb_ge c n)) by lia. exists 0%nat. rewrite Z.pow_0_r, Z.mul_1_r. split; [done|lia].
  - destruct (Z.ltb_spec c n) as [Hlt|Hge]; [|exists 0%nat; rewrite Z.pow_0_r, Z.mul_1_r; split; [done|lia]].
    assert (c * 2 < 2 ^ 64) as H2 by (change (2 ^ 64) with (2 ^ 63 * 2); lia).
    rewrite (wrapu_small 64) by (unfold in_u; lia). rewrite Nat2Z.inj_succ, Z.pow_succ_r in Hf by lia.
    destruct (IH (c * 2) n) as (k & E & Hk & Hm); [lia|done|lia|]. exists (S k). rewrite Nat2Z.inj_succ, Z.pow_succ_r, Z.mul_assoc by lia.
    split; [done|]. split; [done|lia].
Qed.

(** Growing always reaches what is asked for, by doubling. *)
Lemma grown_spec c start n : 0 <= c < 2 ^ 64 -> 0 < start < 2 ^ 64 -> n <= 2 ^ 63 ->
  exists k, let c0 := (if c =? 0 then start else c) in let c' := c0 * 2 ^ Z.of_nat k in grown c start n = Ret c' /\ n <= c' < 2 ^ 64 /\ c' <= Z.max c0 (2 * n).
Proof.
  intros Hc Hs Hn. unfold grown. apply (doubled_spec 64); [destruct (Z.eqb_spec c 0); lia|done|].
  change (2 ^ Z.of_nat 64) with (2 * 2 ^ 63). destruct (Z.eqb_spec c 0); lia.
Qed.

Lemma grown_room c start n : 0 <= c < 2 ^ 64 -> 0 < start < 2 ^ 64 -> n <= 2 ^ 63 -> exists c', grown c start n = Ret c' /\ n <= c' < 2 ^ 64 /\ c <= c'.
Proof.
  intros Hc Hs Hn. destruct (grown_spec c start n Hc Hs Hn) as (k & E & H & _). eexists. split; [exact E|]. split; [done|].
  assert (0 < 2 ^ Z.of_nat k) by lia. destruct (Z.eqb_spec c 0); nia.
Qed.

(** The sizes of hash tables. *)
Lemma grown_table n : n <= 2 ^ 63 -> exists m, grown 64 64 n = Ret (Z.of_nat m) /\ Probe.size_ok m /\ n <= Z.of_nat m <= Z.max 64 (2 * n) /\ (64 <= m)%nat.
Proof.
  intros Hn. destruct (grown_spec 64 64 n) as (k & E & H & Hm); [lia|lia|done|]. cbn [Z.eqb Pos.eqb] in *.
  exists (2 ^ (6 + k))%nat. assert (64 * 2 ^ Z.of_nat k = Z.of_nat (2 ^ (6 + k))) as Ek.
  { rewrite Nat2Z.inj_pow, Nat2Z.inj_add, Z.pow_add_r by lia. done. }
  rewrite <- Ek. split; [done|]. split; [by eexists|]. split; [lia|]. assert (0 < 2 ^ Z.of_nat k) by lia. lia.
Qed.

Lemma alloc_array_heap n h : exists ok, alloc_array n h = (ok, snd (alloc h)) /\ (fst (alloc h) = true -> ok = true).
Proof. unfold alloc_array. exists (fst (alloc h) || (n =? 0)%nat). split; [done|]. by intros ->. Qed.

(** * Rounding up *)

Lemma clear_low x m : 0 <= x < 2 ^ 64 -> 0 <= m < 2 ^ 64 -> Z.land x (u64 (Z.lnot m)) = Z.ldiff x m.
Proof.
  intros Hx Hm. apply Z.bits_inj'. intros i Hi. rewrite Z.land_spec, Z.ldiff_spec. destruct (Z.lt_ge_cases i 64).
  - unfold wrapu. rewrite Z.mod_pow2_bits_low, Z.lnot_spec by lia. done.
  - rewrite (Z.bits_above_log2 x i); [done|lia|]. destruct (Z.eq_dec x 0) as [->|]; [cbn; lia|]. apply Z.log2_lt_pow2; [lia|].
    apply Z.lt_le_trans with (2 ^ 64); [lia|]. apply Z.pow_le_mono_r; lia.
Qed.

Lemma ldiff_sub x m : Z.ldiff x m = x - Z.land x m.
Proof.
  assert (Z.ldiff (Z.land x m) x = 0) as H.
  { apply Z.bits_inj'. intros i Hi. rewrite Z.ldiff_spec, Z.land_spec, Z.bits_0. by destruct (Z.testbit x i), (Z.testbit m i). }
  rewrite (Z.sub_nocarry_ldiff _ _ H). apply Z.bits_inj'. intros i Hi. rewrite !Z.ldiff_spec, Z.land_spec.
  by destruct (Z.testbit x i), (Z.testbit m i).
Qed.

Lemma linker_align_up_spec v a : 0 <= v -> 0 <= a -> v + a <= 2 ^ 64 ->
  v <= linker_align_up v a /\ linker_align_up v a + 1 <= v + Z.max 1 a /\ (forall k, 0 <= k -> a = 2 ^ k -> (a | linker_align_up v a)).
Proof.
  intros Hv Ha Hs. unfold linker_align_up. destruct (Z.eqb_spec a 0) as [->|Ha0].
  { split; [lia|]. split; [lia|]. intros k Hk E. pose proof (Z.pow_pos_nonneg 2 k). lia. }
  rewrite !(wrapu_small 64 (_ - 1)) by (unfold in_u; lia). rewrite clear_low by lia. split; [|split].
  - rewrite ldiff_sub. assert (Z.land (v + a - 1) (a - 1) <= a - 1); [|lia].
    rewrite Z.land_comm. apply Z.ldiff_le; [lia|]. apply Z.bits_inj'. intros i Hi. rewrite Z.ldiff_spec, Z.land_spec, Z.bits_0. by destruct (Z.testbit (a - 1) i), (Z.testbit (v + a - 1) i).
  - rewrite ldiff_sub. assert (0 <= Z.land (v + a - 1) (a - 1)) by (apply Z.land_nonneg; lia). lia.
  - intros k Hk ->. replace (2 ^ k - 1) with (Z.ones k) by (rewrite Z.ones_equiv; lia). rewrite Z.ldiff_ones_r by done.
    exists (Z.shiftr (v + 2 ^ k - 1) k). rewrite Z.shiftl_mul_pow2 by done. lia.
Qed.
End LinkObjectsCorrect.
