(* ===== verification/Relocation.v ===== *)
(** Applying relocations: src/src/linker/relocation.c. *)
From S2P Require Import Prelude LinkObjects.
#[local] Open Scope Z_scope.

Module Relocation.
Import LinkObjects.

(** [strncmp(name, prefix, strlen(prefix)) == 0]. *)
Definition starts_with (prefix : list Z) (name : cstring) : bool := bool_decide (take (length prefix) name = prefix).

(** ".debug" and ".zdebug". *)
Definition relocation_section_is_debug_only (s : LinkSection) : bool :=
  match s_name s with
  | None => false
  | Some n => starts_with [46; 100; 101; 98; 117; 103] n || starts_with [46; 122; 100; 101; 98; 117; 103] n
  end.

Record RelocationTarget := mkTarget { t_merged_section_index : Z; t_merged_offset : Z; t_virtual_address : Z }.

Definition relocation_resolve_target (r : LinkResolution) (input : LinkedInputObject) (symbol_index : Z) : outcome (option RelocationTarget) :=
  if Z.of_nat (length (i_symbols input)) <=? symbol_index then Ret None
  else
    let! y := get (i_symbols input) symbol_index in
    if os_is_auxiliary y then Ret None
    else if os_is_defined y && negb (os_merged_section_index y =? LINKED_SECTION_INDEX_NONE) then
      Ret (Some (mkTarget (os_merged_section_index y) (os_merged_offset y) (os_virtual_address y)))
    else
      let! g := link_resolution_find_symbol r (os_name y) in
      match g with
      | None => Ret None
      | Some g =>
          let! g := get (symbols r) (Z.of_nat g) in
          if negb (g_is_defined g) || (g_merged_section_index g =? LINKED_SECTION_INDEX_NONE) then Ret None
          else Ret (Some (mkTarget (g_merged_section_index g) (g_merged_offset g) (g_virtual_address g)))
      end.

Definition relocation_gotpcrelx_group_extension (opcode : Z) : option Z :=
  if opcode =? 0x03 then Some 0 else if opcode =? 0x0B then Some 1 else if opcode =? 0x13 then Some 2
  else if opcode =? 0x1B then Some 3 else if opcode =? 0x23 then Some 4 else if opcode =? 0x2B then Some 5
  else if opcode =? 0x33 then Some 6 else if opcode =? 0x3B then Some 7 else None.

(** The bytes with the instruction rewritten, and is its operand an absolute
    immediate now? *)
Definition relocation_relax_gotpcrelx (d : list Z) (patch_offset : Z) : outcome (option (list Z * bool)) :=
  if patch_offset <? 2 then Ret None
  else
    let! opcode := get d (patch_offset - 2) in
    let! modrm := get d (patch_offset - 1) in
    if negb (Z.land modrm 0xC7 =? 0x05) then Ret None
    else if opcode =? 0x8B then let! d := put d (patch_offset - 2) 0x8D in Ret (Some (d, false))
    else
      let ext := relocation_gotpcrelx_group_extension opcode in
      if bool_decide (ext = None) && negb (opcode =? 0x85) then Ret None
      else if patch_offset <? 3 then Ret None
      else
        let! rex := get d (patch_offset - 3) in
        if negb (Z.land rex 0xF0 =? 0x40) then Ret None
        else
          let destination := Z.land (Z.shiftr modrm 3) 7 in
          let '(opcode', extension) := if opcode =? 0x85 then (0xF7, 0) else (0x81, default 0 ext) in
          let! d := put d (patch_offset - 2) opcode' in
          let! d := put d (patch_offset - 1) (Z.lor (Z.lor 0xC0 (Z.shiftl extension 3)) destination) in
          let! d := put d (patch_offset - 3) (Z.lor (Z.land rex 0xFA) (Z.shiftr (Z.land rex 4) 2)) in
          Ret (Some (d, true)).

(** The bytes a relocation patches, if its kind is supported. *)
Definition relocation_width (k : LinkRelocKind) : option Z :=
  match k with
  | LINK_RELOC_ABS64 => Some 8
  | LINK_RELOC_PC32 | LINK_RELOC_ABS32 | LINK_RELOC_IMAGE_REL32 | LINK_RELOC_SECREL32 | LINK_RELOC_TPOFF32 | LINK_RELOC_GOTPCRELX32 => Some 4
  | _ => None
  end.

Definition INT32_MIN : Z := - 2 ^ 31.
Definition INT32_MAX : Z := 2 ^ 31 - 1.

Definition relocation_addend (rel : LinkReloc) (width : Z) (d : list Z) (patch_offset : Z) : outcome Z :=
  if r_addend_is_explicit rel then Ret (r_addend rel)
  else if width =? 8 then let! v := linker_read_u64 d patch_offset in Ret (i64 v)
  else let! v := linker_read_u32 d patch_offset in Ret (i32 v).

(** The value written and the bytes it takes; [None] when it does not fit. *)
Definition relocation_value (rel : LinkReloc) (t : RelocationTarget) (addend patch_address image_base tls_size : Z) : outcome (option Z) :=
  match r_kind rel with
  | LINK_RELOC_PC32 | LINK_RELOC_GOTPCRELX32 =>
      let! v := signed64 (i64 (t_virtual_address t) + addend) in
      let! v := signed64 (v - i64 patch_address) in
      let! v := if r_addend_is_explicit rel then Ret v else signed64 (v - 4) in
      Ret (if (v <? INT32_MIN) || (v >? INT32_MAX) then None else Some (u32 v))
  | LINK_RELOC_ABS64 =>
      let! v := signed64 (i64 (t_virtual_address t) + addend) in
      Ret (if v <? 0 then None else Some (u64 v))
  | LINK_RELOC_ABS32 =>
      let! v := signed64 (i64 (t_virtual_address t) + addend) in
      Ret (if (v <? 0) || (u64 v >? UINT32_MAX) then None else Some (u32 v))
  | LINK_RELOC_IMAGE_REL32 =>
      let! v :=
        if negb (image_base =? 0) && (image_base <=? t_virtual_address t) then signed64 (i64 (u64 (t_virtual_address t - image_base)) + addend)
        else signed64 (i64 (t_virtual_address t) + addend) in
      Ret (if (v <? 0) || (u64 v >? UINT32_MAX) then None else Some (u32 v))
  | LINK_RELOC_SECREL32 =>
      let! v := signed64 (i64 (t_merged_offset t) + addend) in
      Ret (if (v <? 0) || (u64 v >? UINT32_MAX) then None else Some (u32 v))
  | LINK_RELOC_TPOFF32 =>
      let! v := signed64 (i64 (t_merged_offset t) + addend) in
      let! v := signed64 (v - i64 tls_size) in
      Ret (if (v <? INT32_MIN) || (v >? INT32_MAX) then None else Some (u32 v))
  | _ => Ret None
  end.

(** One relocation: was it applied, and the bytes of the merged section after
    it. *)
Definition apply_relocation (r : LinkResolution) (input : LinkedInputObject) (merged : LinkedSection) (section_offset : Z) (rel : LinkReloc)
  (image_base tls_size : Z) : outcome (bool * list Z) :=
  let patch_offset := u64 (section_offset + r_offset rel) in
  let patch_address := u64 (m_virtual_address merged + patch_offset) in
  let d := m_data merged in
  let! target := relocation_resolve_target r input (r_symbol_index rel) in
  match target, relocation_width (r_kind rel) with
  | None, _ | _, None => Ret (false, d)
  | Some target, Some width =>
      if u64 (patch_offset + width) >? m_size merged then Ret (false, d)
      else
        let! addend := relocation_addend rel width d patch_offset in
        let! relaxed :=
          if bool_decide (r_kind rel = LINK_RELOC_GOTPCRELX32) then relocation_relax_gotpcrelx d patch_offset else Ret (Some (d, false)) in
        match relaxed with
        | None => Ret (false, d)
        | Some (d, true) =>
            let! v := signed64 (i64 (t_virtual_address target) + addend) in
            let! v := signed64 (v + 4) in
            if (v <? 0) || (v >? INT32_MAX) then Ret (false, d) else let! d := linker_write_u32 d patch_offset (u32 v) in Ret (true, d)
        | Some (d, false) =>
            let! value := relocation_value rel target addend patch_address image_base tls_size in
            match value with
            | None => Ret (false, d)
            | Some v => let! d := (if width =? 8 then linker_write_u64 d patch_offset v else linker_write_u32 d patch_offset v) in Ret (true, d)
            end
        end
  end.

(** The relocations of a section in turn. *)
Fixpoint link_apply_section_relocations (r : LinkResolution) (input : LinkedInputObject) (rels : list LinkReloc) (section_offset : Z)
  (merged_section_index : Z) (image_base tls_size : Z) : outcome (bool * LinkResolution) :=
  match rels with
  | [] => Ret (true, r)
  | rel :: rels =>
      let! merged := get (sections r) merged_section_index in
      let! (ok, d) := apply_relocation r input merged section_offset rel image_base tls_size in
      let! ss := put (sections r) merged_section_index (with_data d merged) in
      let r := with_sections ss r in
      if ok : bool then link_apply_section_relocations r input rels section_offset merged_section_index image_base tls_size else Ret (false, r)
  end.

(** The sections of an object from the [i]th on. *)
Fixpoint apply_object (r : LinkResolution) (input : LinkedInputObject) (ss : list LinkSection) (i : nat) (image_base tls_size : Z) :
  outcome (bool * LinkResolution) :=
  match ss with
  | [] => Ret (true, r)
  | s :: ss =>
      let! m := get (i_section_merged_indices input) (Z.of_nat i) in
      if (length (s_relocations s) =? 0)%nat then apply_object r input ss (S i) image_base tls_size
      else
        let! dead := is_dead input i in
        if dead : bool then apply_object r input ss (S i) image_base tls_size
        else if m =? LINKED_SECTION_INDEX_NONE then
          if relocation_section_is_debug_only s then apply_object r input ss (S i) image_base tls_size else Ret (false, r)
        else
          let! o := get (i_section_merged_offsets input) (Z.of_nat i) in
          let! (ok, r) := link_apply_section_relocations r input (s_relocations s) o m image_base tls_size in
          if ok : bool then apply_object r input ss (S i) image_base tls_size else Ret (false, r)
  end.

Fixpoint apply_objects (r : LinkResolution) (inputs : list LinkedInputObject) (image_base tls_size : Z) : outcome (bool * LinkResolution) :=
  match inputs with
  | [] => Ret (true, r)
  | input :: inputs =>
      match i_object input with
      | None => apply_objects r inputs image_base tls_size
      | Some o =>
          let! (ok, r) := apply_object r input (o_sections o) 0 image_base tls_size in
          if ok : bool then apply_objects r inputs image_base tls_size else Ret (false, r)
      end
  end.

(** The objects are those of the resolution throughout: only bytes change. *)
Definition link_apply_relocations (r : option LinkResolution) (image_base : option Z) : outcome (bool * option LinkResolution) :=
  match r with
  | None => Ret (false, None)
  | Some r =>
      let! tls := link_resolution_find_section r LINK_SECTION_KIND_TLS in
      let tls_size := match tls with Some t => if m_virtual_size t >? m_size t then m_virtual_size t else m_size t | None => 0 end in
      let! (ok, r) := apply_objects r (objects r) (default 0 image_base) tls_size in
      Ret (ok, Some r)
  end.
End Relocation.
