(* ===== verification/RelocationCorrect.v ===== *)
(** What relocations do to the bytes of a section. *)
From S2P Require Import Prelude LinkObjects LinkBytes Relocation.
#[local] Open Scope Z_scope.

Module RelocationCorrect.
Import LinkObjects LinkBytes Relocation.

(** * Relaxed instructions *)

(** REX prefix, opcode and ModRM byte of an instruction on [rip+disp32]
    whose operand is folded into an immediate: the operation, the operand
    width and the register stay what they were. *)
Definition alu_of (opcode : Z) : option Z := if opcode =? 0x85 then Some 8 else relocation_gotpcrelx_group_extension opcode.

Definition alu_after (opcode modrm : Z) : option Z :=
  let ext := Z.land (Z.shiftr modrm 3) 7 in
  if opcode =? 0x81 then Some ext else if (opcode =? 0xF7) && (ext =? 0) then Some 8 else None.

Definition folded (rex opcode modrm rex' opcode' modrm' : Z) : bool :=
  bool_decide (alu_after opcode' modrm' = alu_of opcode) && bool_decide (alu_of opcode <> None) &&
  (Z.shiftr modrm' 6 =? 3) && (Z.shiftr rex' 4 =? 4) && (Z.land rex' 8 =? Z.land rex 8) &&
  (8 * Z.land rex' 1 + Z.land modrm' 7 =? 8 * Z.shiftr (Z.land rex 4) 2 + Z.land (Z.shiftr modrm 3) 7).

Definition fold_bytes (rex opcode modrm : Z) : Z * Z * Z :=
  let ext := if opcode =? 0x85 then 0 else default 0 (relocation_gotpcrelx_group_extension opcode) in
  (Z.lor (Z.land rex 0xFA) (Z.shiftr (Z.land rex 4) 2), (if opcode =? 0x85 then 0xF7 else 0x81),
   Z.lor (Z.lor 0xC0 (Z.shiftl ext 3)) (Z.land (Z.shiftr modrm 3) 7)).

Definition byte_range : list Z := Z.of_nat <$> seq 0 256.

Lemma in_byte_range b : in_u 8 b -> b ∈ byte_range.
Proof. intros H. apply list_elem_of_fmap. exists (Z.to_nat b). unfold in_u in H. split; [lia|]. apply elem_of_seq. lia. Qed.

Definition is_byte (b : Z) : bool := (0 <=? b) && (b <? 256).

Lemma is_byte_spec b : is_byte b = true -> in_u 8 b.
Proof. intros [H1%Z.leb_le H2%Z.ltb_lt]%andb_true_iff. unfold in_u. lia. Qed.

Definition fold_ok (opcode modrm rex : Z) : bool :=
  let '(rex', opcode', modrm') := fold_bytes rex opcode modrm in
  folded rex opcode modrm rex' opcode' modrm' && is_byte rex' && is_byte opcode' && is_byte modrm'.

(** There are few enough cases to try them all. *)
Lemma fold_bytes_folded rex opcode modrm : in_u 8 rex -> in_u 8 opcode -> in_u 8 modrm -> Z.land modrm 0xC7 = 5 -> alu_of opcode <> None ->
  Z.land rex 0xF0 = 0x40 -> let '(rex', opcode', modrm') := fold_bytes rex opcode modrm in
  folded rex opcode modrm rex' opcode' modrm' = true /\ in_u 8 rex' /\ in_u 8 opcode' /\ in_u 8 modrm'.
Proof.
  intros Hr Ho Hm Em Ea Er.
  assert (forallb (fun opcode => forallb (fun modrm => forallb (fold_ok opcode modrm)
      (filter (fun rex => Z.land rex 0xF0 = 0x40) byte_range)) (filter (fun m => Z.land m 0xC7 = 5) byte_range))
      (filter (fun o => alu_of o <> None) byte_range) = true) as H by (by vm_compute).
  rewrite forallb_forall in H. specialize (H opcode). rewrite forallb_forall in H.
  pose proof (H ltac:(apply list_elem_of_In, list_elem_of_filter; split; [done|by apply in_byte_range]) modrm) as H2.
  rewrite forallb_forall in H2. assert (fold_ok opcode modrm rex = true) as H3.
  { apply H2; apply list_elem_of_In, list_elem_of_filter; (split; [done|by apply in_byte_range]). }
  unfold fold_ok in H3. destruct (fold_bytes rex opcode modrm) as [[rex' opcode'] modrm']. rewrite !andb_true_iff in H3.
  destruct H3 as [[[? ?] ?] ?]. split; [done|]. split; [by apply is_byte_spec|]. split; by apply is_byte_spec.
Qed.

(** The load before the displacement at [p] has become a load of the address,
    or its operand has been folded. *)
Definition load_to_lea (d d' : list Z) (p : Z) : Prop :=
  get d (p - 2) = Ret 0x8B /\ get d' (p - 2) = Ret 0x8D /\ get d' (p - 1) = get d (p - 1) /\ get d' (p - 3) = get d (p - 3) /\
  exists modrm, get d (p - 1) = Ret modrm /\ Z.land modrm 0xC7 = 5.

Definition load_folded (d d' : list Z) (p : Z) : Prop :=
  exists rex opcode modrm rex' opcode' modrm', get d (p - 3) = Ret rex /\ get d (p - 2) = Ret opcode /\ get d (p - 1) = Ret modrm /\
    get d' (p - 3) = Ret rex' /\ get d' (p - 2) = Ret opcode' /\ get d' (p - 1) = Ret modrm' /\
    Z.land modrm 0xC7 = 5 /\ folded rex opcode modrm rex' opcode' modrm' = true.

Lemma get_put_same {A} (d : list A) i v : 0 <= i < Z.of_nat (length d) -> get (<[Z.to_nat i := v]> d) i = Ret v.
Proof. intros Hi. apply get_spec; [lia|]. apply list_lookup_insert_eq. lia. Qed.

Lemma get_put_other {A} (d : list A) i k v : 0 <= i -> i <> k -> get (<[Z.to_nat i := v]> d) k = get d k.
Proof. intros Hi Hk. apply get_same. intros H. apply list_lookup_insert_ne. lia. Qed.

Lemma insert_same_outside (d : list Z) i v a b : 0 <= i -> a <= i < b -> same_outside a b d (<[Z.to_nat i := v]> d).
Proof. intros Hi Hab. split; [apply length_insert|]. intros k Hk. apply list_lookup_insert_ne. lia. Qed.

Lemma relax_spec d p : bytes_ok d -> 0 <= p <= Z.of_nat (length d) ->
  exists o, relocation_relax_gotpcrelx d p = Ret o /\
    match o with
    | None => True
    | Some (d', absolute) => same_outside (p - 3) p d d' /\ bytes_ok d' /\ 2 <= p /\ if absolute : bool then load_folded d d' p else load_to_lea d d' p
    end.
Proof.
  intros Hd Hp. unfold relocation_relax_gotpcrelx. destruct (Z.ltb_spec p 2) as [|H2]; [by exists None|].
  destruct (get_inside d (p - 2)) as (opcode & Eop & Lop); [lia|]. destruct (get_inside d (p - 1)) as (modrm & Emod & Lmod); [lia|].
  rewrite Eop, Emod. cbn [obind]. destruct (Z.eqb_spec (Z.land modrm 0xC7) 5) as [Em|]; cbn [negb]; [|by exists None].
  destruct (Z.eqb_spec opcode 0x8B) as [->|Hop].
  { rewrite put_spec by lia. cbn [obind]. eexists. split; [done|]. split; [by apply insert_same_outside; lia|].
    split; [by apply Forall_insert|]. split; [done|]. split; [done|]. split; [apply get_put_same; lia|]. rewrite !get_put_other by lia. split; [done|]. split; [done|]. by exists modrm. }
  set (ext := relocation_gotpcrelx_group_extension opcode).
  destruct (bool_decide (ext = None) && negb (opcode =? 0x85)) eqn:Eext; [by exists None|]. destruct (Z.ltb_spec p 3) as [|H3]; [by exists None|].
  destruct (get_inside d (p - 3)) as (rex & Erex & Lrex); [lia|]. rewrite Erex. cbn [obind].
  destruct (Z.eqb_spec (Z.land rex 0xF0) 0x40) as [Er|]; cbn [negb]; [|by exists None].
  assert (alu_of opcode <> None) as Halu.
  { unfold alu_of. fold ext. destruct (opcode =? 0x85); [done|]. rewrite andb_true_r in Eext. by apply bool_decide_eq_false in Eext. }
  pose proof (Forall_lookup_1 _ _ _ _ Hd Lrex) as Brex. pose proof (Forall_lookup_1 _ _ _ _ Hd Lop) as Bop. pose proof (Forall_lookup_1 _ _ _ _ Hd Lmod) as Bmod.
  pose proof (fold_bytes_folded rex opcode modrm Brex Bop Bmod Em Halu Er) as (Hf & B1 & B2 & B3). fold ext in Hf, B1, B2, B3.
  replace (if opcode =? 0x85 then (0xF7, 0) else (0x81, default 0 ext)) with (if opcode =? 0x85 then 0xF7 else 0x81, if opcode =? 0x85 then 0 else default 0 ext)
    by (by destruct (opcode =? 0x85)).
  cbv zeta. rewrite !put_spec by (rewrite ?length_insert; lia). cbn [obind]. rewrite !put_spec by (rewrite ?length_insert; lia). cbn [obind].
  rewrite !put_spec by (rewrite ?length_insert; lia). cbn [obind]. eexists. split; [done|]. split; [|split; [by repeat (apply Forall_insert; [|done])|split; [done|]]].
  - do 2 (eapply same_outside_trans; [|apply insert_same_outside; lia]). apply insert_same_outside; lia.
  - exists rex, opcode, modrm. do 3 eexists. do 3 (split; [done|]). split; [apply get_put_same; rewrite ?length_insert; lia|].
    split; [rewrite !get_put_other by lia; apply get_put_same; rewrite ?length_insert; lia|].
    split; [rewrite get_put_other by lia; apply get_put_same; rewrite ?length_insert; lia|]. split; [done|exact Hf].
Qed.

(** * Values *)

(** Addresses and offsets as they occur: sums stay inside 64 bits. *)
Record moderate (t : RelocationTarget) (A pa base tls : Z) : Prop := {
  mod_va : 0 <= t_virtual_address t < 2 ^ 62;
  mod_off : 0 <= t_merged_offset t < 2 ^ 62;
  mod_addend : - 2 ^ 61 < A < 2 ^ 61;
  mod_patch : 0 <= pa < 2 ^ 62;
  mod_base : 0 <= base < 2 ^ 62;
  mod_tls : 0 <= tls < 2 ^ 62
}.

(** What the word [v] that a relocation stores means: the target's address, or
    its distance from where the processor counts from. *)
Definition value_means (rel : LinkReloc) (t : RelocationTarget) (A pa base tls v : Z) : Prop :=
  match r_kind rel with
  | LINK_RELOC_PC32 | LINK_RELOC_GOTPCRELX32 => i32 v + pa + (if r_addend_is_explicit rel then 0 else 4) = t_virtual_address t + A
  | LINK_RELOC_ABS64 | LINK_RELOC_ABS32 => v = t_virtual_address t + A
  | LINK_RELOC_IMAGE_REL32 =>
      v = (if bool_decide (base <> 0 /\ base <= t_virtual_address t) then t_virtual_address t - base else t_virtual_address t) + A
  | LINK_RELOC_SECREL32 => v = t_merged_offset t + A
  | LINK_RELOC_TPOFF32 => i32 v + tls = t_merged_offset t + A
  | _ => False
  end.

Lemma signed64_small z : - 2 ^ 63 <= z < 2 ^ 63 -> signed64 z = Ret z.
Proof. intros H. unfold signed64, in_s64b. by rewrite (proj2 (Z.leb_le _ _)), (proj2 (Z.ltb_lt _ _)) by lia. Qed.

Lemma i64_small z : 0 <= z < 2 ^ 63 -> i64 z = z.
Proof. intros H. apply wraps_small; [lia|]. unfold in_s. lia. Qed.

Lemma i32_u32 z : - 2 ^ 31 <= z < 2 ^ 31 -> i32 (u32 z) = z.
Proof. intros H. rewrite (wraps_eqm 32 (u32 z) z); [|lia|apply Z.mod_mod; lia]. apply wraps_small; [lia|]. unfold in_s. lia. Qed.

(** A signed and an unsigned range test. *)
Lemma signed_range (P : Z -> Prop) z : (forall v, in_u 32 v -> P v <-> i32 v = z) ->
  match (if (z <? INT32_MIN) || (z >? INT32_MAX) then None else Some (u32 z)) with
  | Some v => in_u 32 v /\ P v
  | None => forall v, in_u 32 v -> ~ P v
  end.
Proof.
  intros HP. unfold INT32_MIN, INT32_MAX. destruct ((z <? _) || (z >? _)) eqn:E.
  - intros v Hv Hp. apply HP in Hp; [|done]. pose proof (wraps_bound 32 v ltac:(lia)) as Hb. unfold in_s in Hb.
    apply orb_true_iff in E as [E%Z.ltb_lt|E%Z.gtb_lt]; lia.
  - apply orb_false_iff in E as [E1%Z.ltb_ge E2]. rewrite Z.gtb_ltb in E2. apply Z.ltb_ge in E2. pose proof (wrapu_bound 32 z ltac:(lia)) as Hb.
    split; [done|]. apply HP; [done|]. apply i32_u32. lia.
Qed.

Lemma unsigned_range (P : Z -> Prop) z : - 2 ^ 63 <= z < 2 ^ 63 -> (forall v, in_u 32 v -> P v <-> v = z) ->
  match (if (z <? 0) || (u64 z >? UINT32_MAX) then None else Some (u32 z)) with
  | Some v => in_u 32 v /\ P v
  | None => forall v, in_u 32 v -> ~ P v
  end.
Proof.
  intros Hz HP. unfold UINT32_MAX. destruct (Z.ltb_spec z 0) as [Hneg|Hpos]; cbn [orb].
  - intros v Hv Hp. apply HP in Hp; [|done]. unfold in_u in Hv. lia.
  - rewrite wrapu_small by (unfold in_u; lia). rewrite Z.gtb_ltb. destruct (Z.ltb_spec (2 ^ 32 - 1) z) as [Hb|Hb].
    + intros v Hv Hp. apply HP in Hp; [|done]. unfold in_u in Hv. lia.
    + rewrite wrapu_small by (unfold in_u; lia). split; [unfold in_u; lia|]. apply HP; [unfold in_u; lia|done].
Qed.

Lemma relocation_value_spec rel t A pa base tls w : relocation_width (r_kind rel) = Some w -> moderate t A pa base tls ->
  exists o, relocation_value rel t A pa base tls = Ret o /\
    match o with
    | Some v => in_u (8 * w) v /\ value_means rel t A pa base tls v
    | None => forall v, in_u (8 * w) v -> ~ value_means rel t A pa base tls v
    end.
Proof.
  intros Hw [H1 H2 H3 H4 H5 H6]. unfold relocation_value, value_means.
  rewrite (i64_small (t_virtual_address t)), (i64_small (t_merged_offset t)), (i64_small pa), (i64_small tls) by lia.
  destruct (r_kind rel); try discriminate Hw; injection Hw as <-.
  - rewrite signed64_small by lia. cbn [obind]. eexists. split; [done|]. destruct (Z.ltb_spec (t_virtual_address t + A) 0) as [Hn|Hn].
    + intros v Hv. unfold in_u in Hv. lia.
    + rewrite wrapu_small by (unfold in_u; lia). split; [unfold in_u; lia|done].
  - rewrite !signed64_small by lia. cbn [obind]. rewrite signed64_small by lia. cbn [obind].
    destruct (r_addend_is_explicit rel); [cbn [obind]|rewrite signed64_small by lia; cbn [obind]]; (eexists; split; [done|]); apply signed_range; intros v Hv; cbv beta; lia.
  - rewrite signed64_small by lia. cbn [obind]. eexists. split; [done|]. apply unsigned_range; [lia|done].
  - destruct (negb (base =? 0) && (base <=? t_virtual_address t)) eqn:E.
    + rewrite bool_decide_true by (apply andb_true_iff in E as [E1 E2%Z.leb_le]; split; [by intros ->|done]). apply andb_true_iff in E as [_ E%Z.leb_le].
      rewrite wrapu_small, i64_small, signed64_small by (unfold in_u; lia). cbn [obind]. eexists. split; [done|]. apply unsigned_range; [lia|done].
    + rewrite bool_decide_false.
      2:{ intros [Hb Hle]. apply andb_false_iff in E as [E|E%Z.leb_gt]; [|lia]. apply negb_false_iff, Z.eqb_eq in E. done. }
      rewrite signed64_small by lia. cbn [obind]. eexists. split; [done|]. apply unsigned_range; [lia|done].
  - rewrite signed64_small by lia. cbn [obind]. eexists. split; [done|]. apply unsigned_range; [lia|done].
  - rewrite signed64_small by lia. cbn [obind]. rewrite signed64_small by lia. cbn [obind]. eexists. split; [done|]. apply signed_range. intros v Hv. cbv beta. lia.
  - rewrite !signed64_small by lia. cbn [obind]. rewrite signed64_small by lia. cbn [obind].
    destruct (r_addend_is_explicit rel); [cbn [obind]|rewrite signed64_small by lia; cbn [obind]]; (eexists; split; [done|]); apply signed_range; intros v Hv; cbv beta; lia.
Qed.

(** * One relocation *)

Definition lead (k : LinkRelocKind) : Z := if bool_decide (k = LINK_RELOC_GOTPCRELX32) then 3 else 0.
Definition width (k : LinkRelocKind) : Z := default 0 (relocation_width k).

Definition word_means (w : Z) (d' : list Z) (p : Z) (P : Z -> Prop) : Prop :=
  exists v, (if w =? 8 then linker_read_u64 d' p else linker_read_u32 d' p) = Ret v /\ P v.

(** The field at [p] holds what the relocation asks for; a relaxed load has
    changed its form as well. *)
Definition field_holds (rel : LinkReloc) (t : RelocationTarget) (A pa p base tls : Z) (d d' : list Z) : Prop :=
  let value := word_means (width (r_kind rel)) d' p (value_means rel t A pa base tls) in
  if bool_decide (r_kind rel = LINK_RELOC_GOTPCRELX32) then
    (load_to_lea d d' p /\ value) \/ (load_folded d d' p /\ word_means 4 d' p (fun v => v = t_virtual_address t + A + 4))
  else value.

Lemma load_to_lea_outside d d1 d2 p b : same_outside p b d1 d2 -> p <= b -> 0 <= p -> load_to_lea d d1 p -> load_to_lea d d2 p.
Proof.
  intros [_ H] Hb Hp. assert (forall k, k < p -> get d2 k = get d1 k) as Hg by (intros k Hk; apply get_same; intros H0; apply H; lia).
  unfold load_to_lea. by rewrite !(Hg (p - 2)), !(Hg (p - 1)), !(Hg (p - 3)) by lia.
Qed.

Lemma load_folded_outside d d1 d2 p b : same_outside p b d1 d2 -> p <= b -> 0 <= p -> load_folded d d1 p -> load_folded d d2 p.
Proof.
  intros [_ H] Hb Hp. assert (forall k, k < p -> get d2 k = get d1 k) as Hg by (intros k Hk; apply get_same; intros H0; apply H; lia).
  unfold load_folded. intros (x1 & x2 & x3 & x4 & x5 & x6 & Hx). exists x1, x2, x3, x4, x5, x6. by rewrite !(Hg (p - 2)), !(Hg (p - 1)), !(Hg (p - 3)) by lia.
Qed.

Lemma relocation_addend_Ret rel w d p : relocation_width (r_kind rel) = Some w -> 0 <= p -> p + w <= Z.of_nat (length d) ->
  exists A, relocation_addend rel w d p = Ret A.
Proof.
  intros Hw Hp Hl. unfold relocation_addend. destruct (r_addend_is_explicit rel); [by eexists|].
  assert (w = 8 \/ w = 4) as [-> | ->] by (destruct (r_kind rel); (discriminate Hw || injection Hw as <-); auto).
  - destruct (read_u64_inside d p) as [v ->]; [lia..|]. cbn [Z.eqb Pos.eqb obind]. by eexists.
  - destruct (read_u32_inside d p) as [v ->]; [lia..|]. cbn [Z.eqb Pos.eqb obind]. by eexists.
Qed.

(** Why a relocation fails. *)
Definition refused (rel : LinkReloc) (target : option RelocationTarget) (d : list Z) (pa p base tls : Z) : Prop :=
  target = None \/ relocation_width (r_kind rel) = None \/ Z.of_nat (length d) < p + width (r_kind rel) \/ r_kind rel = LINK_RELOC_GOTPCRELX32 \/
  exists t A, target = Some t /\ relocation_addend rel (width (r_kind rel)) d p = Ret A /\
    forall v, in_u (8 * width (r_kind rel)) v -> ~ value_means rel t A pa base tls v.

Definition applied (rel : LinkReloc) (target : option RelocationTarget) (pa p base tls : Z) (d d' : list Z) : Prop :=
  exists t A, target = Some t /\ is_Some (relocation_width (r_kind rel)) /\ p + width (r_kind rel) <= Z.of_nat (length d) /\
    relocation_addend rel (width (r_kind rel)) d p = Ret A /\ field_holds rel t A pa p base tls d d'.

Lemma write_word_spec w d p v : w = 8 \/ w = 4 -> 0 <= p -> p + w <= Z.of_nat (length d) -> in_u (8 * w) v ->
  exists d', (if w =? 8 then linker_write_u64 d p v else linker_write_u32 d p v) = Ret d' /\ (bytes_ok d -> bytes_ok d') /\
    same_outside p (p + w) d d' /\ forall P : Z -> Prop, P v -> word_means w d' p P.
Proof.
  intros [-> | ->] Hp Hl Hv; cbn [Z.eqb Pos.eqb].
  - destruct (write_u64_spec d p v Hp Hl Hv) as (d' & E & Hb & Ho & Hr). exists d'. do 3 (split; [done|]). intros P HP. exists v. done.
  - destruct (write_u32_spec d p v Hp Hl Hv) as (d' & E & Hb & Ho & Hr). exists d'. do 3 (split; [done|]). intros P HP. exists v. done.
Qed.

Section One.
Context (r : LinkResolution) (input : LinkedInputObject) (merged : LinkedSection) (section_offset : Z) (rel : LinkReloc) (base tls : Z)
  (target : option RelocationTarget).
#[local] Abbreviation d := (m_data merged).
#[local] Abbreviation p := (section_offset + r_offset rel).
#[local] Abbreviation pa := (m_virtual_address merged + p).
Hypothesis Htarget : relocation_resolve_target r input (r_symbol_index rel) = Ret target.
Hypothesis Hbytes : bytes_ok d.
Hypothesis Hsize : m_size merged = Z.of_nat (length d).
Hypothesis Hp : 0 <= p < 2 ^ 63.
Hypothesis Hva : 0 <= m_virtual_address merged /\ m_virtual_address merged + m_size merged < 2 ^ 62.
Hypothesis Hmod : forall t A, target = Some t -> is_Some (relocation_width (r_kind rel)) -> relocation_addend rel (width (r_kind rel)) d p = Ret A -> 0 <= pa < 2 ^ 62 -> moderate t A pa base tls.

Lemma apply_relocation_spec : exists ok d', apply_relocation r input merged section_offset rel base tls = Ret (ok, d') /\ bytes_ok d' /\
  same_outside (p - lead (r_kind rel)) (p + width (r_kind rel)) d d' /\
  if ok : bool then applied rel target pa p base tls d d' else refused rel target d pa p base tls.
Proof using Htarget Hbytes Hsize Hp Hva Hmod.
  assert (forall a b, same_outside a b d d) as Hrefl by done.
  unfold apply_relocation, refused. rewrite Htarget. cbn [obind]. rewrite (wrapu_small 64 p) by (unfold in_u; lia).
  destruct target as [t|]; [|exists false, d; by auto 12]. unfold width in *. destruct (relocation_width (r_kind rel)) as [w|] eqn:Ew; [|exists false, d; auto 6].
  cbn [default] in *. unfold id in *.
  assert (w = 8 \/ w = 4) as Hw by (destruct (r_kind rel); (discriminate Ew || injection Ew as <-); auto).
  rewrite wrapu_small by (unfold in_u; lia). rewrite Z.gtb_ltb, Hsize. destruct (Z.ltb_spec (Z.of_nat (length d)) (p + w)) as [Hbig|Hfit]; [exists false, d; by auto 12|].
  destruct (relocation_addend_Ret rel w d p Ew) as [A EA]; [lia..|]. rewrite EA. cbn [obind]. pose proof (Hmod t A eq_refl ltac:(by eexists) EA ltac:(lia)) as Hm.
  rewrite (wrapu_small 64 pa) by (unfold in_u; lia). destruct (relocation_value_spec rel t A pa base tls w Ew Hm) as (o & Eo & Ho).
  assert (applied rel (Some t) pa p base tls d = fun d' => exists t0 A0, Some t = Some t0 /\ is_Some (Some w) /\ p + w <= Z.of_nat (length d) /\
    relocation_addend rel w d p = Ret A0 /\ field_holds rel t0 A0 pa p base tls d d') as Eapp by (unfold applied, width; by rewrite Ew).
  assert (forall d', field_holds rel t A pa p base tls d d' -> applied rel (Some t) pa p base tls d d') as Happ.
  { intros d' H. rewrite Eapp. exists t, A. do 3 (split; [done|]). done. }
  clear Eapp. unfold field_holds, width, lead in *. rewrite Ew in *. cbn [default] in *. unfold id in *.
  destruct (bool_decide (r_kind rel = LINK_RELOC_GOTPCRELX32)) eqn:Ek.
  - apply bool_decide_eq_true in Ek. assert (w = 4) as -> by (rewrite Ek in Ew; by injection Ew).
    destruct (relax_spec d p Hbytes) as (x & -> & Hx); [lia|]. cbn [obind]. destruct x as [[d1 absolute]|]; [|exists false, d; by auto 12].
    destruct Hx as ([L1 O1] & B1 & H2 & Hx). assert (same_outside (p - 3) (p + 4) d d1) as S1 by (split; [done|]; intros k Hk; apply O1; lia).
    destruct absolute.
    + destruct Hm as [Hm1 _ Hm2 _ _ _]. rewrite i64_small, !signed64_small by lia. cbn [obind]. rewrite signed64_small by lia. cbn [obind].
      destruct ((_ <? 0) || (_ >? INT32_MAX)) eqn:Ev; [exists false, d1; by auto 12|]. apply orb_false_iff in Ev as [Ev1%Z.ltb_ge Ev2].
      unfold INT32_MAX in Ev2. rewrite Z.gtb_ltb in Ev2. apply Z.ltb_ge in Ev2. rewrite wrapu_small by (unfold in_u; lia).
      destruct (write_u32_spec d1 p (t_virtual_address t + A + 4)) as (d2 & E2 & B2 & S2 & R2); [lia|lia|unfold in_u; lia|]. rewrite E2. cbn [obind].
      exists true, d2. split; [done|]. split; [by apply B2|]. split; [eapply same_outside_trans; [exact S1|]; eapply same_outside_widen; [| |exact S2]; lia|].
      apply Happ. right. split; [eapply load_folded_outside; [exact S2|lia|lia|done]|]. by exists (t_virtual_address t + A + 4).
    + rewrite Eo. cbn [obind]. destruct o as [v|]; [|exists false, d1; by auto 12]. destruct Ho as [Hv Hmean].
      destruct (write_word_spec 4 d1 p v) as (d2 & E2 & B2 & S2 & R2); [auto|lia|lia|done|]. rewrite E2. cbn [obind].
      exists true, d2. split; [done|]. split; [by apply B2|]. split; [eapply same_outside_trans; [exact S1|]; eapply same_outside_widen; [| |exact S2]; lia|].
      apply Happ. left. split; [eapply load_to_lea_outside; [exact S2|lia|lia|done]|]. by apply R2.
  - cbn [obind]. rewrite Eo. cbn [obind]. destruct o as [v|].
    2:{ exists false, d. do 3 (split; [done|]). do 4 right. exists t, A. done. }
    destruct Ho as [Hv Hmean]. destruct (write_word_spec w d p v) as (d2 & E2 & B2 & S2 & R2); [done|lia|lia|done|]. rewrite E2. cbn [obind].
    exists true, d2. split; [done|]. split; [by apply B2|]. split; [by rewrite Z.sub_0_r|]. apply Happ. by apply R2.
Qed.
End One.
End RelocationCorrect.
