(* ===== verification/RelocationProps.v ===== *)
(** Relocations as a whole: every field ends up with the value its relocation
    asks for, and no other byte of the image changes. *)
From S2P Require Import Prelude LinkObjects LinkBytes Relocation RelocationCorrect.
#[local] Open Scope Z_scope.

Module RelocationProps.
Import LinkObjects LinkBytes Relocation RelocationCorrect.

(** * Sites *)

(** A relocation, the object it comes from, the merged section it patches and
    where the bytes of its own section begin there. *)
Record site := mkSite { x_input : LinkedInputObject; x_section : Z; x_offset : Z; x_rel : LinkReloc }.

Definition x_place (x : site) : Z := x_offset x + r_offset (x_rel x).
Definition x_begin (x : site) : Z := x_place x - lead (r_kind (x_rel x)).
Definition x_end (x : site) : Z := x_place x + width (r_kind (x_rel x)).

Definition section_sites (input : LinkedInputObject) (o m : Z) (rels : list LinkReloc) : list site := mkSite input m o <$> rels.

(** The sections of an object whose relocations are applied. *)
Definition live_section (input : LinkedInputObject) (i : nat) (s : LinkSection) : list site :=
  let m := default LINKED_SECTION_INDEX_NONE (i_section_merged_indices input !! i) in
  let dead := match i_section_gc_dead input with None => false | Some l => default false (l !! i) end in
  if (dead : bool) || (m =? LINKED_SECTION_INDEX_NONE) then []
  else section_sites input (default 0 (i_section_merged_offsets input !! i)) m (s_relocations s).

Fixpoint object_sites (input : LinkedInputObject) (ss : list LinkSection) (i : nat) : list site :=
  match ss with [] => [] | s :: ss => live_section input i s ++ object_sites input ss (S i) end.

Definition input_sites (input : LinkedInputObject) : list site :=
  match i_object input with None => [] | Some o => object_sites input (o_sections o) 0 end.

Definition sites (r : LinkResolution) : list site := mjoin (input_sites <$> objects r).

(** Sites in one section lie one behind the other. *)
Definition sites_apart (x y : site) : Prop := x_section x = x_section y -> x_end x <= x_begin y \/ x_end y <= x_begin x.

Definition all_apart (l : list site) : Prop := forall i j x y, (i < j)%nat -> l !! i = Some x -> l !! j = Some y -> sites_apart x y.

(** * What has been applied *)

Definition same_but_data (s s' : LinkedSection) : Prop := s' = with_data (m_data s') s /\ length (m_data s') = length (m_data s).

Definition site_applied (r0 : LinkResolution) (base tls : Z) (x : site) (s : LinkedSection) (d d' : list Z) : Prop :=
  exists target, relocation_resolve_target r0 (x_input x) (r_symbol_index (x_rel x)) = Ret target /\
    applied (x_rel x) target (m_virtual_address s + x_place x) (x_place x) base tls d d'.

(** From [r0] to [r] the sites of [l] have been patched, and nothing else. *)
Record patched (base tls : Z) (l : list site) (r0 r : LinkResolution) : Prop := {
  pa_frame : exists ss, r = with_sections ss r0 /\ Forall2 same_but_data (sections r0) ss;
  pa_bytes : forall i s s', sections r0 !! i = Some s -> sections r !! i = Some s' -> bytes_ok (m_data s');
  pa_outside : forall i s s' (k : nat), sections r0 !! i = Some s -> sections r !! i = Some s' ->
    (forall x, x ∈ l -> x_section x = Z.of_nat i -> ~ (x_begin x <= Z.of_nat k < x_end x)) -> m_data s' !! k = m_data s !! k;
  pa_sites : forall i s s' x, sections r0 !! i = Some s -> sections r !! i = Some s' -> x ∈ l -> x_section x = Z.of_nat i ->
    site_applied r0 base tls x s (m_data s) (m_data s')
}.

(** ** A site keeps what it has *)

Lemma word_means_same w d d' p P : w = 8 \/ w = 4 -> same_inside p (p + w) d d' -> word_means w d p P -> word_means w d' p P.
Proof.
  intros [-> | ->] Hs (v & Hv & HP); exists v; (split; [|done]); cbn [Z.eqb Pos.eqb] in *; [by rewrite (read_u64_same d d')|by rewrite (read_u32_same d d')].
Qed.

Lemma addend_same rel w d d' p : w = 8 \/ w = 4 -> same_inside p (p + w) d d' -> relocation_addend rel w d' p = relocation_addend rel w d p.
Proof.
  intros [-> | ->] Hs; unfold relocation_addend; destruct (r_addend_is_explicit rel); [done| |done|]; cbn [Z.eqb Pos.eqb];
    [by rewrite (read_u64_same d d')|by rewrite (read_u32_same d d')].
Qed.

Lemma same_inside_sub a b a' b' d d' : a <= a' -> b' <= b -> same_inside a b d d' -> same_inside a' b' d d'.
Proof. intros Ha Hb H k Hk. apply H. lia. Qed.

Lemma same_inside_get a b d d' k : same_inside a b d d' -> a <= k < b -> get d' k = get d k.
Proof. intros H Hk. apply get_same. intros H0. apply H. lia. Qed.

Lemma width_cases k : is_Some (relocation_width k) -> width k = 8 \/ width k = 4.
Proof. unfold width. destruct k; intros [w H]; (discriminate H || cbn; auto). Qed.

Lemma applied_same rel target pa p base tls d d1 e e1 : length d1 = length d ->
  same_inside (p - lead (r_kind rel)) (p + width (r_kind rel)) d d1 -> same_inside (p - lead (r_kind rel)) (p + width (r_kind rel)) e e1 ->
  applied rel target pa p base tls d e -> applied rel target pa p base tls d1 e1.
Proof.
  intros Hl Hd He (t & A & Ht & Hw & Hfit & EA & Hf). pose proof (width_cases _ Hw) as Hw'. unfold lead in *.
  assert (same_inside p (p + width (r_kind rel)) d d1 /\ same_inside p (p + width (r_kind rel)) e e1) as [Hd' He'].
  { split; (eapply same_inside_sub; [| |done]); destruct (bool_decide _); lia. }
  exists t, A. do 2 (split; [done|]). split; [by rewrite Hl|]. split; [by rewrite (addend_same rel _ d d1)|]. unfold field_holds in *.
  destruct (bool_decide (r_kind rel = LINK_RELOC_GOTPCRELX32)) eqn:Ek; [|by eapply word_means_same].
  assert (width (r_kind rel) = 4) as E4 by (apply bool_decide_eq_true in Ek; by rewrite Ek). rewrite E4 in *.
  assert (forall k, p - 3 <= k < p + 4 -> get d1 k = get d k /\ get e1 k = get e k) as Hg.
  { intros k Hk. split; [exact (same_inside_get _ _ d d1 k Hd Hk)|exact (same_inside_get _ _ e e1 k He Hk)]. }
  destruct (Hg (p - 3)) as [D3 E3]; [lia|]. destruct (Hg (p - 2)) as [D2 E2]; [lia|]. destruct (Hg (p - 1)) as [D1 E1]; [lia|].
  destruct Hf as [[H1 H2]|[H1 H2]]; [left|right]; (split; [|eapply (word_means_same 4); [auto|exact He'|done]]).
  - unfold load_to_lea in *. by rewrite D1, D2, D3, E1, E2, E3.
  - destruct H1 as (x1 & x2 & x3 & x4 & x5 & x6 & H1). exists x1, x2, x3, x4, x5, x6. by rewrite D1, D2, D3, E1, E2, E3.
Qed.

(** * Step by step *)

(** The sections as the merge leaves them. *)
Definition image_ok (r : LinkResolution) : Prop := Forall (fun s => bytes_ok (m_data s) /\ m_size s = Z.of_nat (length (m_data s)) /\
  0 <= m_virtual_address s /\ m_virtual_address s + m_size s < 2 ^ 62) (sections r).

(** A site lies in a section, its symbol can be looked up, and no sum leaves
    64 bits. *)
Definition site_ok (r : LinkResolution) (base tls : Z) (x : site) : Prop :=
  0 <= x_section x /\ 0 <= x_place x < 2 ^ 63 /\ exists s target, sections r !! Z.to_nat (x_section x) = Some s /\
    relocation_resolve_target r (x_input x) (r_symbol_index (x_rel x)) = Ret target /\
    forall t A, target = Some t -> is_Some (relocation_width (r_kind (x_rel x))) -> relocation_addend (x_rel x) (width (r_kind (x_rel x))) (m_data s) (x_place x) = Ret A ->
      0 <= m_virtual_address s + x_place x < 2 ^ 62 -> moderate t A (m_virtual_address s + x_place x) base tls.

Lemma patched_nil base tls r : image_ok r -> patched base tls [] r r.
Proof.
  intros Hr. split.
  - exists (sections r). split; [by destruct r|]. apply Forall2_same_length_lookup_2; [done|]. intros i x y Hx Hy. assert (y = x) as -> by congruence.
    split; [by destruct x|done].
  - intros i s s' Hs Hs'. assert (s' = s) as -> by congruence. by destruct (Forall_lookup_1 _ _ _ _ Hr Hs).
  - intros i s s' k Hs Hs' _. by assert (s' = s) as -> by congruence.
  - intros i s s' x _ _ H%not_elem_of_nil. done.
Qed.

Lemma patched_section base tls l r0 r i s : patched base tls l r0 r -> sections r0 !! i = Some s ->
  exists s', sections r !! i = Some s' /\ s' = with_data (m_data s') s /\ length (m_data s') = length (m_data s).
Proof.
  intros [(ss & -> & Hss) _ _ _] Hs. destruct (Forall2_lookup_l _ _ _ _ _ Hss Hs) as (s' & Hs' & H1 & H2). by exists s'.
Qed.

Lemma resolve_frame r0 ss input i : relocation_resolve_target (with_sections ss r0) input i = relocation_resolve_target r0 input i.
Proof. done. Qed.

Lemma apply_frame r0 ss input m o rel base tls : apply_relocation (with_sections ss r0) input m o rel base tls = apply_relocation r0 input m o rel base tls.
Proof. done. Qed.

(** The bytes of a site that lies apart are still those of the beginning. *)
Lemma site_untouched base tls l r0 r i s s' x : patched base tls l r0 r -> sections r0 !! i = Some s -> sections r !! i = Some s' ->
  x_section x = Z.of_nat i -> (forall y, y ∈ l -> sites_apart y x) -> same_inside (x_begin x) (x_end x) (m_data s') (m_data s).
Proof.
  intros Hp Hs Hs' Hx Hl k Hk. symmetry. apply (pa_outside _ _ _ _ _ Hp i s s' k Hs Hs'). intros y Hy Hyi Hky.
  destruct (Hl y Hy); [congruence|lia|lia].
Qed.

Lemma lead_width k : 0 <= lead k /\ 0 <= width k.
Proof. unfold lead, width. split; [case_bool_decide; lia|]. by destruct k. Qed.

Section Step.
Context (base tls : Z) (r0 : LinkResolution) (Himage : image_ok r0).

(** What the next relocation does. *)
Lemma patch_step l r x : patched base tls l r0 r -> site_ok r0 base tls x -> (forall y, y ∈ l -> sites_apart y x) ->
  exists s' ok d', sections r !! Z.to_nat (x_section x) = Some s' /\
    apply_relocation r (x_input x) s' (x_offset x) (x_rel x) base tls = Ret (ok, d') /\
    (ok = true -> patched base tls (l ++ [x]) r0 (with_sections (<[Z.to_nat (x_section x) := with_data d' s']> (sections r)) r)).
Proof using Himage.
  intros Hp (Hm0 & Hpl & s & target & Hs & Htarget & Hmod) Hapart. set (m := Z.to_nat (x_section x)) in *.
  assert (x_section x = Z.of_nat m) as Em by lia. destruct (patched_section _ _ _ _ _ _ _ Hp Hs) as (s' & Hs' & Es' & Hlen).
  pose proof (site_untouched _ _ _ _ _ _ _ _ _ Hp Hs Hs' Em Hapart) as Hsame. pose proof (lead_width (r_kind (x_rel x))) as [Hlead Hwidth].
  destruct (Forall_lookup_1 _ _ _ _ Himage Hs) as (Hb & Hsz & Hva & Hend).
  assert (m_size s' = m_size s /\ m_virtual_address s' = m_virtual_address s) as [Esz Eva] by (by rewrite Es').
  pose proof Hp as [(ss & Er & Hss) _ _ _]. rewrite Er in Hs'.
  destruct (apply_relocation_spec r0 (x_input x) s' (x_offset x) (x_rel x) base tls target Htarget) as (ok & d' & E & Hb' & [Ld Od] & Hok).
  { by apply (pa_bytes _ _ _ _ _ Hp m s s' Hs); rewrite Er. } { lia. } { exact Hpl. } { lia. }
  { intros t A Ht Hw HA Hpa. rewrite Eva. apply Hmod; [done|done| |by rewrite Eva in Hpa]. rewrite <- HA. symmetry.
    apply addend_same; [by apply width_cases|]. eapply same_inside_sub; [| |exact (fun k Hk => eq_sym (Hsame k Hk))]; unfold x_begin, x_end; lia. }
  exists s', ok, d'. split; [by rewrite Er|]. split; [by rewrite Er, apply_frame|]. intros ->.
  fold (x_place x) in *. change (x_place x - lead (r_kind (x_rel x))) with (x_begin x) in *. change (x_place x + width (r_kind (x_rel x))) with (x_end x) in *.
  assert (m < length ss)%nat as Hmlt by (by eapply lookup_lt_Some).
  assert (forall i s2, sections (with_sections (<[m := with_data d' s']> (sections r)) r) !! i = Some s2 ->
    (i = m /\ m_data s2 = d') \/ (i <> m /\ sections r !! i = Some s2)) as Hcase.
  { intros i s2 Hi. cbn in Hi. rewrite Er in Hi |- *. cbn in *. destruct (decide (i = m)) as [->|Hne].
    - rewrite list_lookup_insert_eq in Hi by done. injection Hi as <-. by left.
    - rewrite list_lookup_insert_ne in Hi by done. by right. }
  split.
  - exists (<[m := with_data d' s']> ss). rewrite Er. split; [done|]. rewrite <- (list_insert_id _ _ _ Hs). apply Forall2_insert; [done|].
    split; [by rewrite Es'|]. cbn. lia.
  - intros i s1 s2 H1 H2. destruct (Hcase i s2 H2) as [[-> ->]|[Hne H2']]; [done|]. by apply (pa_bytes _ _ _ _ _ Hp i s1 s2).
  - intros i s1 s2 k H1 H2 Hk. destruct (Hcase i s2 H2) as [[-> ->]|[Hne H2']].
    + rewrite Od.
      * apply (pa_outside _ _ _ _ _ Hp m s1 s' k H1); [by rewrite Er|]. intros y Hy. apply Hk, elem_of_app. by left.
      * pose proof (Hk x ltac:(apply elem_of_app; right; left) Em). lia.
    + apply (pa_outside _ _ _ _ _ Hp i s1 s2 k H1 H2'). intros y Hy. apply Hk, elem_of_app. by left.
  - intros i s1 s2 y H1 H2 Hy Hyi. destruct (Hcase i s2 H2) as [[-> ->]|[Hne H2']].
    + assert (s1 = s) as -> by congruence. apply elem_of_app in Hy as [Hy| ->%list_elem_of_singleton].
      * destruct (pa_sites _ _ _ _ _ Hp m s s' y Hs ltac:(by rewrite Er) Hy Hyi) as (ty & Hty & Ha). exists ty. split; [done|].
        eapply applied_same; [reflexivity|by intros k _| |exact Ha]. intros k Hk. fold (x_begin y) (x_end y) in Hk. apply Od.
        destruct (Hapart y Hy); [congruence|lia|lia].
      * exists target. split; [done|]. rewrite Eva in Hok. eapply applied_same; [|exact Hsame| |exact Hok]; [lia|done].
    + apply elem_of_app in Hy as [Hy| ->%list_elem_of_singleton]; [|lia]. by apply (pa_sites _ _ _ _ _ Hp i s1 s2 y).
Qed.

Lemma all_apart_next l x rest : all_apart (l ++ x :: rest) -> forall y, y ∈ l -> sites_apart y x.
Proof using.
  intros H y Hy. apply list_elem_of_lookup in Hy as [i Hi]. apply lookup_lt_Some in Hi as Hlt.
  apply (H i (length l)); [done|by rewrite lookup_app_l|by rewrite lookup_app_r, Nat.sub_diag].
Qed.

Lemma all_apart_prefix l l' : all_apart (l ++ l') -> all_apart l.
Proof using. intros H i j x y Hij Hi Hj. apply (H i j); [done|by apply lookup_app_l_Some..]. Qed.

(** What applying further sites comes to. *)
Definition advances (l new : list site) (m : outcome (bool * LinkResolution)) : Prop :=
  exists ok r', m = Ret (ok, r') /\ (ok = true -> patched base tls (l ++ new) r0 r').

Lemma section_advances input o m rels : forall l r, patched base tls l r0 r -> Forall (site_ok r0 base tls) (section_sites input o m rels) ->
  all_apart (l ++ section_sites input o m rels) -> advances l (section_sites input o m rels) (link_apply_section_relocations r input rels o m base tls).
Proof using Himage.
  induction rels as [|rel rels IH]; intros l r Hp Hok Hap; cbn [link_apply_section_relocations section_sites fmap list_fmap].
  { exists true, r. split; [done|]. by rewrite app_nil_r. }
  change (section_sites input o m (rel :: rels)) with (mkSite input m o rel :: section_sites input o m rels) in *.
  apply Forall_cons in Hok as [Hx Hok]. pose proof (proj1 Hx) as Hm. cbn [x_section] in Hm.
  destruct (patch_step l r _ Hp Hx (all_apart_next _ _ _ Hap)) as (s' & ok & d' & Hs' & E & Hnext). cbn [x_section x_input x_offset x_rel] in *.
  rewrite (get_spec _ _ _ Hm Hs'). cbn [obind]. rewrite E. cbn [obind]. rewrite put_spec by (apply lookup_lt_Some in Hs'; lia). cbn [obind].
  destruct ok; [|by eexists false, _]. rewrite cons_middle, app_assoc in Hap.
  destruct (IH _ _ (Hnext eq_refl) Hok Hap) as (ok & r' & E' & Hr'). exists ok, r'. split; [exact E'|]. intros H. specialize (Hr' H).
  by rewrite <- app_assoc in Hr'.
Qed.

(** The arrays of an input have an entry for each section. *)
Definition input_ok (input : LinkedInputObject) (n : nat) : Prop :=
  length (i_section_merged_indices input) = n /\ length (i_section_merged_offsets input) = n /\ forall l, i_section_gc_dead input = Some l -> length l = n.

Lemma object_advances input n : input_ok input n -> forall ss i l r, (i + length ss)%nat = n -> patched base tls l r0 r ->
  Forall (site_ok r0 base tls) (object_sites input ss i) -> all_apart (l ++ object_sites input ss i) ->
  advances l (object_sites input ss i) (apply_object r input ss i base tls).
Proof using Himage.
  intros (L1 & L2 & L3). induction ss as [|s ss IH]; intros i l r Hn Hp Hok Hap; cbn [apply_object object_sites].
  { exists true, r. split; [done|]. by rewrite app_nil_r. }
  cbn [length object_sites] in *. unfold live_section in *. cbv zeta in Hok, Hap |- *. destruct (lookup_lt_is_Some_2 (i_section_merged_indices input) i) as [m Hm]; [lia|].
  destruct (lookup_lt_is_Some_2 (i_section_merged_offsets input) i) as [o Ho]; [lia|]. rewrite (get_nat _ _ _ Hm). cbn [obind]. rewrite Hm, Ho in *.
  change (default LINKED_SECTION_INDEX_NONE (Some m)) with m in *. change (default 0 (Some o)) with o in *.
  assert (exists dead, is_dead input i = Ret dead /\ match i_section_gc_dead input with Some l => default false (l !! i) | None => false end = dead) as (dead & Ed & Ed').
  { unfold is_dead. destruct (i_section_gc_dead input) as [dl|]; [|by exists false]. destruct (lookup_lt_is_Some_2 dl i) as [b Hb]; [rewrite (L3 dl) by done; lia|].
    exists b. rewrite Hb. split; [by apply get_nat|done]. }
  rewrite Ed' in Hok, Hap |- *. rewrite Ed.
  destruct (Nat.eqb_spec (length (s_relocations s)) 0) as [E0|E0].
  { apply nil_length_inv in E0. rewrite E0 in *. assert (forall b : bool, (if b then [] else section_sites input o m []) = []) as Hnil by (by intros []).
    rewrite Hnil in Hok, Hap |- *. apply (IH (S i)); [lia|done..]. }
  cbn [obind].
  destruct dead; cbn [orb] in *; [by apply (IH (S i)); [lia|..]|]. destruct (Z.eqb_spec m LINKED_SECTION_INDEX_NONE) as [Em|Em].
  { destruct (relocation_section_is_debug_only s); [by apply (IH (S i)); [lia|..]|by eexists false, _]. }
  rewrite (get_nat _ _ _ Ho). cbn [obind]. apply Forall_app in Hok as [Hok1 Hok2]. rewrite app_assoc in Hap.
  destruct (section_advances input o m (s_relocations s) l r Hp Hok1 (all_apart_prefix _ _ Hap)) as (ok & r1 & E1 & Hr1). rewrite E1. cbn [obind].
  destruct ok; [|by eexists false, _]. destruct (IH (S i) _ r1 ltac:(lia) (Hr1 eq_refl) Hok2 Hap) as (ok & r2 & E2 & Hr2).
  exists ok, r2. split; [done|]. intros H. rewrite app_assoc. by apply Hr2.
Qed.

Definition whole_input (input : LinkedInputObject) : Prop := forall o, i_object input = Some o -> input_ok input (length (o_sections o)).

Lemma objects_advance inputs : Forall whole_input inputs -> forall l r, patched base tls l r0 r ->
  Forall (site_ok r0 base tls) (mjoin (input_sites <$> inputs)) -> all_apart (l ++ mjoin (input_sites <$> inputs)) ->
  advances l (mjoin (input_sites <$> inputs)) (apply_objects r inputs base tls).
Proof using Himage.
  induction 1 as [|input inputs Hin _ IH]; intros l r Hp Hok Hap; cbn [apply_objects].
  { exists true, r. split; [done|]. cbn. by rewrite app_nil_r. }
  change (mjoin (input_sites <$> input :: inputs)) with (input_sites input ++ mjoin (input_sites <$> inputs)) in *.
  apply Forall_app in Hok as [Hok1 Hok2]. unfold input_sites at 1 in Hok1. unfold input_sites at 1 in Hap. unfold input_sites at 1.
  destruct (i_object input) as [o|] eqn:Eo; [|by apply IH]. rewrite app_assoc in Hap.
  destruct (object_advances input (length (o_sections o)) (Hin o Eo) (o_sections o) 0 l r eq_refl Hp Hok1 (all_apart_prefix _ _ Hap)) as (ok & r1 & E1 & Hr1).
  rewrite E1. cbn [obind]. destruct ok; [|by eexists false, _]. destruct (IH _ r1 (Hr1 eq_refl) Hok2 Hap) as (ok & r2 & E2 & Hr2).
  exists ok, r2. split; [done|]. intros H. rewrite app_assoc. by apply Hr2.
Qed.
End Step.

(** * The whole image *)

Definition tls_size (r : LinkResolution) : Z :=
  match sections r !! 6%nat with Some t => Z.max (m_virtual_size t) (m_size t) | None => 0 end.

(** C6: relocation.  On a merged image whose relocations name symbols and lie
    apart, with addresses that leave room for 64-bit sums, applying them
    always returns; when it succeeds, every relocated field holds the value its
    kind asks for (the target's address, or the distance from where the
    processor counts, or a load relaxed to an equivalent instruction), computed
    with the addend the field held at first, and every other byte, and all the
    rest of the image, is as it was. *)
Theorem link_apply_relocations_correct r base : length (sections r) = 7%nat -> image_ok r -> Forall whole_input (objects r) ->
  Forall (site_ok r base (tls_size r)) (sites r) -> all_apart (sites r) ->
  exists ok r', link_apply_relocations (Some r) (Some base) = Ret (ok, Some r') /\ (ok = true -> patched base (tls_size r) (sites r) r r').
Proof.
  intros Hlen Himg Hin Hok Hap. unfold link_apply_relocations, link_resolution_find_section. cbn [link_section_index_from_kind].
  destruct (lookup_lt_is_Some_2 (sections r) 6) as [t Ht]; [lia|]. change (6 =? LINKED_SECTION_INDEX_NONE) with false. cbv iota.
  rewrite (get_spec (sections r) 6 t) by done. cbn [obind]. unfold tls_size in *. rewrite Ht in *.
  replace (if m_virtual_size t >? m_size t then m_virtual_size t else m_size t) with (Z.max (m_virtual_size t) (m_size t)).
  2:{ rewrite Z.gtb_ltb. destruct (Z.ltb_spec (m_size t) (m_virtual_size t)); lia. }
  change (default 0 (Some base)) with base.
  destruct (objects_advance base (Z.max (m_virtual_size t) (m_size t)) r Himg (objects r) Hin [] r (patched_nil _ _ _ Himg) Hok Hap) as (ok & r' & E & H).
  rewrite E. cbn [obind]. by exists ok, r'.
Qed.

(** A load through the GOT, a call and a pointer, all to a symbol at 0x2008. *)
Definition demo_text : LinkSection := mkSection None LINK_SECTION_KIND_TEXT 12 12 16 [0x48; 0x8B; 0x05; 0; 0; 0; 0; 0xE8; 0; 0; 0; 0]
  [mkReloc 3 0 LINK_RELOC_GOTPCRELX32 (-4) true 0; mkReloc 8 0 LINK_RELOC_PC32 0 false 0] false.
Definition demo_data : LinkSection := mkSection None LINK_SECTION_KIND_DATA 8 8 16 [1; 0; 0; 0; 0; 0; 0; 0] [mkReloc 0 0 LINK_RELOC_ABS64 0 false 0] false.
Definition demo_input : LinkedInputObject :=
  mkInput (Some (mkObject [demo_text; demo_data] [])) [0; 2] [0; 8] [12; 8] [16; 16]
    [mkObjectSymbol None 0 0 true false true false 1 2 8 0x2008 8 0 false] false None None.
Definition empty_section (k : LinkSectionKind) : LinkedSection := mkLinkedSection k [] 0 0 0 1 0 [] 0.
Definition demo_image : LinkResolution :=
  mkResolution [demo_input]
    [mkLinkedSection LINK_SECTION_KIND_TEXT (s_raw_data demo_text) 64 12 12 16 0x1000 [] 0; empty_section LINK_SECTION_KIND_RDATA;
     mkLinkedSection LINK_SECTION_KIND_DATA (replicate 8 0 ++ s_raw_data demo_data) 64 16 16 16 0x2000 [] 0; empty_section LINK_SECTION_KIND_BSS;
     empty_section LINK_SECTION_KIND_PDATA; empty_section LINK_SECTION_KIND_XDATA; empty_section LINK_SECTION_KIND_TLS] [] 0 [] None.

Example demo_relocated :
  (let! (ok, r) := link_apply_relocations (Some demo_image) (Some 0) in Ret (ok, option_map (fun r => m_data <$> take 3 (sections r)) r)) =
  Ret (true, Some [[0x48; 0x8D; 0x05; 1; 0x10; 0; 0; 0xE8; 0xFC; 0x0F; 0; 0]; []; [0; 0; 0; 0; 0; 0; 0; 0; 0x09; 0x20; 0; 0; 0; 0; 0; 0]]).
Proof. by vm_compute. Qed.

Definition demo_sites : list site :=
  [mkSite demo_input 0 0 (mkReloc 3 0 LINK_RELOC_GOTPCRELX32 (-4) true 0); mkSite demo_input 0 0 (mkReloc 8 0 LINK_RELOC_PC32 0 false 0);
   mkSite demo_input 2 8 (mkReloc 0 0 LINK_RELOC_ABS64 0 false 0)].

Lemma demo_site_ok x : x_section x = 0 \/ x_section x = 2 -> (0 <=? x_place x) && (x_place x <? 2 ^ 32) = true -> x_input x = demo_input ->
  r_symbol_index (x_rel x) = 0 ->
  (forall A, relocation_addend (x_rel x) (width (r_kind (x_rel x))) (default [] (m_data <$> sections demo_image !! Z.to_nat (x_section x))) (x_place x) = Ret A ->
    (- 2 ^ 32 <? A) && (A <? 2 ^ 32) = true) -> site_ok demo_image 0 0 x.
Proof.
  intros Hs Hp Hi Hy HA. apply andb_true_iff in Hp as [Hp1%Z.leb_le Hp2%Z.ltb_lt]. unfold site_ok. rewrite Hi, Hy. split; [lia|]. split; [lia|].
  assert (exists s, sections demo_image !! Z.to_nat (x_section x) = Some s /\ m_virtual_address s <= 0x2000 /\ 0 <= m_virtual_address s) as (s & Es & Hs1).
  { destruct Hs as [-> | ->]; (eexists; split; [reflexivity|split; done]). }
  exists s, (Some (mkTarget 2 8 0x2008)). split; [done|]. split; [by vm_compute|]. intros t A [= <-] _ E Hpa. rewrite Es in HA. specialize (HA A E).
  apply andb_true_iff in HA as [H1%Z.ltb_lt H2%Z.ltb_lt]. split; cbn [t_virtual_address t_merged_offset]; lia.
Qed.

Lemma link_apply_relocations_correct_witness : exists ok r', link_apply_relocations (Some demo_image) (Some 0) = Ret (ok, Some r') /\
  (ok = true -> patched 0 0 (sites demo_image) demo_image r').
Proof.
  apply (link_apply_relocations_correct demo_image 0).
  - done.
  - apply Forall_lookup_2. intros i s Hi.
    assert (forallb (fun b => (0 <=? b) && (b <? 256)) (m_data s) && ((m_size s =? Z.of_nat (length (m_data s))) && ((0 <=? m_virtual_address s) && (m_virtual_address s + m_size s <? 2 ^ 62))) = true) as H.
    { do 7 (destruct i as [|i]; [by injection Hi as <-; vm_compute|]). done. }
    rewrite !andb_true_iff in H. destruct H as (Hb & Hs & Hv & He). apply Z.eqb_eq in Hs. apply Z.leb_le in Hv. apply Z.ltb_lt in He.
    split; [|done]. apply Is_true_true, forallb_True in Hb. eapply Forall_impl; [exact Hb|]. intros b Hb'%Is_true_true.
    apply andb_true_iff in Hb' as [H1%Z.leb_le H2%Z.ltb_lt]. by split.
  - constructor; [|constructor]. intros o [= <-]. done.
  - change (sites demo_image) with demo_sites. apply Forall_cons. split; [apply demo_site_ok|apply Forall_cons; split; [apply demo_site_ok|apply Forall_singleton, demo_site_ok]].
    all: lazymatch goal with
         | |- _ \/ _ => (by left) || (by right)
         | |- _ && _ = true => by vm_compute
         | |- forall _, _ => let A := fresh in let E := fresh in intros A E; vm_compute in E; injection E as <-; by vm_compute
         | _ => reflexivity
         end.
  - intros i j x y Hij Hi Hj Hs. do 3 (destruct i as [|i]; [injection Hi as <-; do 3 (destruct j as [|j]; [(injection Hj as <-; (lia || (left; vm_compute; done) || (vm_compute in Hs; discriminate Hs))) || lia|]); done|]). done.
Defined.
End RelocationProps.
