(* ===== verification/SectionMerge.v ===== *)
(** Laying out the sections of the objects in the merged image:
    src/src/linker/symbol_resolve.c, lines 107 to 286 and 627 to 721.

    A failing function reports nothing but its failure: the resolution is then
    destroyed by [link_resolution_build]. *)
From S2P Require Import Prelude LinkObjects.
#[local] Open Scope Z_scope.

Module SectionMerge.
Import LinkObjects.

(** * Alignment and size of a section *)

Definition link_default_section_alignment (k : LinkSectionKind) (fallback_alignment : Z) : Z :=
  if fallback_alignment >? 1 then fallback_alignment
  else match k with LINK_SECTION_KIND_UNKNOWN | LINK_SECTION_KIND_TLS => 1 | _ => 16 end.

Definition link_section_alignment (s : LinkSection) (fallback_alignment : Z) : Z :=
  if s_alignment s >? 1 then s_alignment s else link_default_section_alignment (s_kind s) fallback_alignment.

(** The length that a section symbol records for this section. *)
Fixpoint recorded_length (name : option cstring) (section_index : Z) (ys : list LinkSymbol) : outcome (option Z) :=
  match ys with
  | [] => Ret None
  | y :: ys =>
      if y_is_auxiliary y || (y_aux_section_length y =? 0) || bool_decide (y_name y = None) then recorded_length name section_index ys
      else if y_is_external y || negb (y_section_index y =? section_index) then recorded_length name section_index ys
      else if bool_decide (name = None) then Undef
      else if negb (bool_decide (y_name y = name)) then recorded_length name section_index ys
      else Ret (Some (y_aux_section_length y))
  end.

(** The size that reaches behind every symbol of the section, and is there a
    symbol? *)
Fixpoint size_of_symbols (section_index : Z) (ys : list LinkSymbol) (size : Z) (saw_symbol : bool) : Z * bool :=
  match ys with
  | [] => (size, saw_symbol)
  | y :: ys =>
      if y_is_auxiliary y || negb (y_section_index y =? section_index) then size_of_symbols section_index ys size saw_symbol
      else
        let e := u64 (y_value y + 1) in
        size_of_symbols section_index ys (if e >? size then e else size) true
  end.

Definition link_estimate_section_size (o : LinkObject) (section_index : nat) : outcome Z :=
  match o_sections o !! section_index with
  | None => Ret 0
  | Some s =>
      let! recorded := recorded_length (s_name s) (Z.of_nat section_index) (o_symbols o) in
      match recorded with
      | Some n => Ret n
      | None =>
          let size := if s_virtual_size s >? s_size_of_raw_data s then s_virtual_size s else s_size_of_raw_data s in
          if negb (bool_decide (s_kind s = LINK_SECTION_KIND_BSS)) then Ret size
          else
            let '(size, saw_symbol) := size_of_symbols (Z.of_nat section_index) (o_symbols o) size false in
            Ret (if (size =? 0) && saw_symbol then 1 else size)
      end
  end.

(** * Merged sections *)

Definition with_capacity (c : Z) (m : LinkedSection) : LinkedSection :=
  mkLinkedSection (m_kind m) (m_data m) c (m_size m) (m_virtual_size m) (m_alignment m) (m_virtual_address m) (m_contributions m) (m_contribution_capacity m).
Definition with_contributions (l : list LinkedSectionContribution) (c : Z) (m : LinkedSection) : LinkedSection :=
  mkLinkedSection (m_kind m) (m_data m) (m_data_capacity m) (m_size m) (m_virtual_size m) (m_alignment m) (m_virtual_address m) l c.
Definition with_alignment (a : Z) (m : LinkedSection) : LinkedSection :=
  mkLinkedSection (m_kind m) (m_data m) (m_data_capacity m) (m_size m) (m_virtual_size m) a (m_virtual_address m) (m_contributions m) (m_contribution_capacity m).
Definition with_sizes (size virtual_size : Z) (m : LinkedSection) : LinkedSection :=
  mkLinkedSection (m_kind m) (m_data m) (m_data_capacity m) size virtual_size (m_alignment m) (m_virtual_address m) (m_contributions m) (m_contribution_capacity m).

Definition link_section_reserve_data (m : LinkedSection) (minimum_size : Z) (h : heap) : outcome (option LinkedSection * heap) :=
  if minimum_size <=? m_data_capacity m then Ret (Some m, h)
  else
    let! c := grown (m_data_capacity m) 64 minimum_size in
    let (ok, h) := alloc h in
    Ret (if ok then Some (with_capacity c m) else None, h).

Definition link_section_reserve_contributions (m : LinkedSection) (minimum_count : Z) (h : heap) : outcome (option LinkedSection * heap) :=
  if minimum_count <=? m_contribution_capacity m then Ret (Some m, h)
  else
    let! c := grown (m_contribution_capacity m) 4 minimum_count in
    let (ok, h) := alloc h in
    Ret (if ok then Some (with_contributions (m_contributions m) c m) else None, h).

Definition kinds : list LinkSectionKind :=
  [LINK_SECTION_KIND_TEXT; LINK_SECTION_KIND_RDATA; LINK_SECTION_KIND_DATA; LINK_SECTION_KIND_BSS; LINK_SECTION_KIND_PDATA;
   LINK_SECTION_KIND_XDATA; LINK_SECTION_KIND_TLS].

(** The sections of a zeroed resolution. *)
Definition link_resolution_init_sections : list LinkedSection := (fun k => mkLinkedSection k [] 0 0 0 1 0 [] 0) <$> kinds.

(** * Merging *)

(** [memset] and [memcpy] into a buffer of [capacity] bytes, of which the first
    ones have been written. *)
Definition store_bytes (d : list Z) (capacity at_ : Z) (bytes : list Z) : outcome (list Z) :=
  if (at_ <? 0) || (Z.of_nat (length d) <? at_) || (capacity <? at_ + Z.of_nat (length bytes)) then Undef
  else Ret (take (Z.to_nat at_) d ++ bytes ++ drop (Z.to_nat at_ + length bytes) d).

(** The bytes of a section copied to [start], the gap before it cleared. *)
Definition copy_section (m : LinkedSection) (s : LinkSection) (start : Z) (h : heap) : outcome (option LinkedSection * heap) :=
  let! (m, h) := link_section_reserve_data m (u64 (start + s_size_of_raw_data s)) h in
  match m with
  | None => Ret (None, h)
  | Some m =>
      let! d := if start >? m_size m then store_bytes (m_data m) (m_data_capacity m) (m_size m) (replicate (Z.to_nat (start - m_size m)) 0) else Ret (m_data m) in
      if (length (s_raw_data s) <? Z.to_nat (s_size_of_raw_data s))%nat then Undef
      else
        let! d := store_bytes d (m_data_capacity m) start (take (Z.to_nat (s_size_of_raw_data s)) (s_raw_data s)) in
        let size := u64 (start + s_size_of_raw_data s) in
        Ret (Some (with_data d (with_sizes size (if m_virtual_size m <? size then size else m_virtual_size m) m)), h)
  end.

(** Where a section went: a zeroed entry but for the index when it was left
    out. *)
Record placement := mkPlacement { p_index : Z; p_offset : Z; p_size : Z; p_alignment : Z }.

Definition left_out : placement := mkPlacement LINKED_SECTION_INDEX_NONE 0 0 0.

Definition merge_section (o : LinkObject) (object_index section_index : nat) (s : LinkSection) (fallback_alignment : Z) (m : LinkedSection) (h : heap) :
  outcome (option (LinkedSection * placement) * heap) :=
  let alignment := link_section_alignment s fallback_alignment in
  let m := if alignment >? m_alignment m then with_alignment alignment m else m in
  let! contribution_size := link_estimate_section_size o section_index in
  let start := linker_align_up (m_virtual_size m) alignment in
  let! (m, h) := link_section_reserve_contributions m (Z.of_nat (length (m_contributions m)) + 1) h in
  match m with
  | None => Ret (None, h)
  | Some m =>
      let! (m, h) :=
        if negb (bool_decide (s_kind s = LINK_SECTION_KIND_BSS)) && negb (s_size_of_raw_data s =? 0) then copy_section m s start h
        else
          let e := u64 (start + contribution_size) in
          Ret (Some (if m_virtual_size m <? e then with_sizes (m_size m) e m else m), h) in
      match m with
      | None => Ret (None, h)
      | Some m =>
          let c := mkContribution object_index section_index start contribution_size alignment in
          Ret (Some (with_contributions (m_contributions m ++ [c]) (m_contribution_capacity m) m,
                     mkPlacement (link_section_index_from_kind (s_kind s)) start contribution_size alignment), h)
      end
  end.

(** The sections of an object from the [i]th on. *)
Fixpoint merge_object (input : LinkedInputObject) (o : LinkObject) (object_index : nat) (fallback_alignment : Z) (ss : list LinkSection) (i : nat)
  (ms : list LinkedSection) (h : heap) : outcome (option (list LinkedSection * list placement) * heap) :=
  match ss with
  | [] => Ret (Some (ms, []), h)
  | s :: ss =>
      let k := link_section_index_from_kind (s_kind s) in
      let! dead := if k =? LINKED_SECTION_INDEX_NONE then Ret true else is_dead input i in
      let! (one, h) :=
        if dead : bool then Ret (Some (ms, left_out), h)
        else
          let! m := get ms k in
          let! (one, h) := merge_section o object_index i s fallback_alignment m h in
          match one with
          | None => Ret (None, h)
          | Some (m, p) => let! ms := put ms k m in Ret (Some (ms, p), h)
          end in
      match one with
      | None => Ret (None, h)
      | Some (ms, p) =>
          let! (rest, h) := merge_object input o object_index fallback_alignment ss (S i) ms h in
          Ret (match rest with None => None | Some (ms, ps) => Some (ms, p :: ps) end, h)
      end
  end.

Definition with_places (ps : list placement) (input : LinkedInputObject) : LinkedInputObject :=
  mkInput (i_object input) (p_index <$> ps) (p_offset <$> ps) (p_size <$> ps) (p_alignment <$> ps) (i_symbols input) (i_is_runtime_default input)
    (i_section_gc_dead input) (i_symbol_gc_referenced input).

Definition alloc_maps (n : nat) (h : heap) : bool * heap :=
  let (a, h) := alloc_array n h in
  let (b, h) := alloc_array n h in
  let (c, h) := alloc_array n h in
  let (d, h) := alloc_array n h in
  (a && b && c && d, h).

(** The objects from the one at [object_index] on. *)
Fixpoint merge_objects (fallback_alignment : Z) (inputs : list LinkedInputObject) (object_index : nat) (ms : list LinkedSection) (h : heap) :
  outcome (option (list LinkedSection * list LinkedInputObject) * heap) :=
  match inputs with
  | [] => Ret (Some (ms, []), h)
  | input :: inputs =>
      let (ok, h) := alloc_maps (length (input_sections input)) h in
      if negb ok then Ret (None, h)
      else
        let! (one, h) :=
          match i_object input with
          | None => Ret (Some (ms, []), h)
          | Some o => merge_object input o object_index fallback_alignment (o_sections o) 0 ms h
          end in
        match one with
        | None => Ret (None, h)
        | Some (ms, ps) =>
            let! (rest, h) := merge_objects fallback_alignment inputs (S object_index) ms h in
            Ret (match rest with None => None | Some (ms, inputs) => Some (ms, with_places ps input :: inputs) end, h)
        end
  end.

Definition link_resolution_merge_sections (r : LinkResolution) (fallback_alignment : Z) (h : heap) : outcome (option LinkResolution * heap) :=
  let! (one, h) := merge_objects fallback_alignment (objects r) 0 (sections r) h in
  Ret (match one with None => None | Some (ms, inputs) => Some (with_sections ms (with_objects inputs r)) end, h).
End SectionMerge.
