(* ===== verification/SectionMergeCorrect.v ===== *)
(** The merged image is a layout of the sections of the objects: aligned, one
    behind the other, with their bytes, and nothing else. *)
From S2P Require Import Prelude LinkObjects LinkObjectsCorrect SectionMerge.
#[local] Open Scope Z_scope.

Module SectionMergeCorrect.
Import LinkObjects LinkObjectsCorrect SectionMerge.

(** * What is asked of an object *)

Definition section_ok (s : LinkSection) : Prop :=
  in_u 64 (s_alignment s) /\ in_u 64 (s_virtual_size s) /\ 0 <= s_size_of_raw_data s <= Z.of_nat (length (s_raw_data s)) /\
  s_size_of_raw_data s < 2 ^ 64.
Definition symbol_ok (y : LinkSymbol) : Prop := in_u 64 (y_value y) /\ in_u 64 (y_aux_section_length y).
(** A section may be nameless, but not when symbols record lengths by name. *)
Definition named (o : LinkObject) : Prop :=
  Forall (fun s => s_name s <> None) (o_sections o) \/ Forall (fun y => y_aux_section_length y = 0) (o_symbols o).
Definition object_ok (o : LinkObject) : Prop := Forall section_ok (o_sections o) /\ Forall symbol_ok (o_symbols o) /\ named o.

Definition est (o : LinkObject) (i : nat) : Z := match link_estimate_section_size o i with Ret n => n | _ => 0 end.

Lemma recorded_length_ok name i ys : name <> None \/ Forall (fun y => y_aux_section_length y = 0) ys -> Forall symbol_ok ys ->
  exists r, recorded_length name i ys = Ret r /\ (forall n, r = Some n -> in_u 64 n).
Proof.
  intros Hn Hys. revert Hn. induction Hys as [|y ys [_ Hy] _ IH]; intros Hn; cbn [recorded_length]; [by exists None|].
  assert (name <> None \/ Forall (fun y => y_aux_section_length y = 0) ys) as Hn' by (destruct Hn as [Hn|[_ Hn]%Forall_cons]; auto).
  destruct (_ || _ || _) eqn:Eb; [by apply IH|]. destruct (_ || negb _); [by apply IH|]. rewrite bool_decide_eq_false_2.
  2:{ destruct Hn as [Hn|[Hz _]%Forall_cons]; [done|]. rewrite Hz in Eb. by destruct (y_is_auxiliary y). }
  destruct (negb _); [by apply IH|]. eexists. split; [done|]. by intros n [= <-].
Qed.

Lemma size_of_symbols_ok i ys : Forall symbol_ok ys -> forall size b, in_u 64 size -> in_u 64 (fst (size_of_symbols i ys size b)).
Proof.
  induction 1 as [|y ys [Hy _] _ IH]; intros size b Hs; cbn [size_of_symbols]; [done|]. destruct (_ || _); [by apply IH|].
  apply IH. destruct (_ >? _); [|done]. by apply wrapu_bound.
Qed.

Lemma est_ok o i : object_ok o -> link_estimate_section_size o i = Ret (est o i) /\ in_u 64 (est o i).
Proof.
  intros (Hss & Hys & Hnamed). unfold est. assert (exists n, link_estimate_section_size o i = Ret n /\ in_u 64 n) as (n & E & Hn); [|by rewrite E].
  unfold link_estimate_section_size. destruct (o_sections o !! i) as [s|] eqn:Es; [|by exists 0].
  destruct (Forall_lookup_1 _ _ _ _ Hss Es) as (_ & H3 & H4 & H5).
  assert (s_name s <> None \/ Forall (fun y => y_aux_section_length y = 0) (o_symbols o)) as H1.
  { destruct Hnamed as [Hnamed|]; [|by right]. left. exact (Forall_lookup_1 _ _ _ _ Hnamed Es). }
  destruct (recorded_length_ok (s_name s) (Z.of_nat i) (o_symbols o) H1 Hys) as (r & Er & Hr). rewrite Er. cbn [obind].
  destruct r as [n|]; [exists n; split; [done|by apply Hr]|].
  assert (in_u 64 (if s_virtual_size s >? s_size_of_raw_data s then s_virtual_size s else s_size_of_raw_data s)) as Hsz.
  { destruct (_ >? _); [done|]. unfold in_u. lia. }
  destruct (negb _); [by eexists|]. pose proof (size_of_symbols_ok (Z.of_nat i) _ Hys _ false Hsz) as H.
  destruct (size_of_symbols _ _ _ _) as [size saw]. eexists. split; [done|]. by destruct (_ && _).
Qed.

Lemma link_section_alignment_pos s fb : 1 <= link_section_alignment s fb.
Proof.
  unfold link_section_alignment, link_default_section_alignment. destruct (Z.gtb_spec (s_alignment s) 1); [lia|].
  destruct (Z.gtb_spec fb 1); [lia|]. by destruct (s_kind s).
Qed.

(** * Layouts *)

(** A section and where it was put. *)
Record piece := mkPiece { pc_object : nat; pc_section : nat; pc_source : LinkSection; pc_place : placement }.

Definition has_data (s : LinkSection) : bool := negb (bool_decide (s_kind s = LINK_SECTION_KIND_BSS)) && negb (s_size_of_raw_data s =? 0).

(** The bytes it has in the file, and those it takes in the image. *)
Definition pc_bytes (pc : piece) : list Z := if has_data (pc_source pc) then take (Z.to_nat (s_size_of_raw_data (pc_source pc))) (s_raw_data (pc_source pc)) else [].
Definition pc_start (pc : piece) : Z := p_offset (pc_place pc).
Definition pc_extent (pc : piece) : Z := if has_data (pc_source pc) then s_size_of_raw_data (pc_source pc) else p_size (pc_place pc).

Definition contribution (pc : piece) : LinkedSectionContribution :=
  mkContribution (pc_object pc) (pc_section pc) (pc_start pc) (p_size (pc_place pc)) (p_alignment (pc_place pc)).

Record layout (m : LinkedSection) (l : list piece) : Prop := {
  ly_size : m_size m = Z.of_nat (length (m_data m)) /\ m_size m <= m_virtual_size m;
  ly_contributions : m_contributions m = contribution <$> l;
  ly_inside : forall pc, pc ∈ l -> 0 <= pc_start pc /\ pc_start pc + pc_extent pc <= m_virtual_size m /\ p_alignment (pc_place pc) <= m_alignment m;
  ly_aligned : forall pc k, pc ∈ l -> 0 <= k -> p_alignment (pc_place pc) = 2 ^ k -> (2 ^ k | pc_start pc);
  ly_order : forall i j x y, (i < j)%nat -> l !! i = Some x -> l !! j = Some y -> pc_start x + pc_extent x <= pc_start y;
  ly_bytes : forall pc k b, pc ∈ l -> pc_bytes pc !! k = Some b -> m_data m !! (Z.to_nat (pc_start pc) + k)%nat = Some b;
  ly_zero : forall k b, m_data m !! k = Some b -> b = 0 \/ exists pc, pc ∈ l /\ pc_start pc <= Z.of_nat k < pc_start pc + Z.of_nat (length (pc_bytes pc))
}.

(** A merged section while it is being filled: [used] bounds its size and the
    number of its contributions. *)
Record filling (used : Z) (m : LinkedSection) (l : list piece) : Prop := {
  fi_layout : layout m l;
  fi_used : m_virtual_size m <= used /\ Z.of_nat (length l) <= used;
  fi_data : m_size m <= m_data_capacity m < 2 ^ 64;
  fi_room : Z.of_nat (length l) <= m_contribution_capacity m < 2 ^ 64;
  fi_alignment : m_alignment m < 2 ^ 64
}.

Lemma filling_more used used' m l : filling used m l -> used <= used' -> filling used' m l.
Proof. intros [H1 H2 H3 H4 H5] Hle. split; [done|lia|done..]. Qed.

Lemma filling_start k : filling 0 (mkLinkedSection k [] 0 0 0 1 0 [] 0) [].
Proof. split; [split|..]; cbn; try lia; (done || (intros; by match goal with H : _ ∈ [] |- _ => apply elem_of_nil in H | H : [] !! _ = Some _ |- _ => rewrite lookup_nil in H end)). Qed.

(** ** One more piece *)

Lemma pc_bytes_length pc : section_ok (pc_source pc) -> Z.of_nat (length (pc_bytes pc)) = if has_data (pc_source pc) then s_size_of_raw_data (pc_source pc) else 0.
Proof. intros (_ & _ & H & _). unfold pc_bytes. destruct (has_data _); [|done]. rewrite length_take. lia. Qed.

(** The image after a piece has been put behind what is there. *)
Record put_behind (m m' : LinkedSection) (pc : piece) : Prop := {
  pb_start : m_virtual_size m <= pc_start pc /\ 0 <= pc_extent pc;
  pb_aligned : forall k, 0 <= k -> p_alignment (pc_place pc) = 2 ^ k -> (2 ^ k | pc_start pc);
  pb_alignment : m_alignment m <= m_alignment m' /\ p_alignment (pc_place pc) <= m_alignment m';
  pb_contributions : m_contributions m' = m_contributions m ++ [contribution pc];
  pb_end : m_virtual_size m <= m_virtual_size m' /\ pc_start pc + pc_extent pc <= m_virtual_size m';
  pb_data : m_data m' = m_data m ++ (if has_data (pc_source pc) then replicate (Z.to_nat (pc_start pc - m_size m)) 0 ++ pc_bytes pc else []);
  pb_size : m_size m' = Z.of_nat (length (m_data m')) /\ m_size m' <= m_virtual_size m'
}.

Lemma layout_snoc m m' l pc : layout m l -> put_behind m m' pc -> layout m' (l ++ [pc]).
Proof.
  intros [[L1 L1'] L2 L3 L4 L5 L6 L7] [[P1 P1'] P2 [P3 P3'] P4 [P5 P5'] P6 P7].
  assert (forall k b, pc_bytes pc !! k = Some b -> has_data (pc_source pc) = true) as Hbytes by (intros k b; unfold pc_bytes; by destruct (has_data _)).
  assert (Z.of_nat (length (m_data m)) <= pc_start pc) as Hbehind by lia.
  split; [done|..].
  - by rewrite P4, L2, fmap_app.
  - intros x [Hx| ->%list_elem_of_singleton]%elem_of_app; [destruct (L3 x Hx) as (?&?&?)|]; lia.
  - intros x k [Hx| ->%list_elem_of_singleton]%elem_of_app Hk E; [by apply (L4 x k Hx)|by apply P2].
  - intros i j x y Hij Hi Hj. apply lookup_app_Some in Hj as [Hj|[Hlj Hj]].
    { apply (L5 i j); [done| |done]. rewrite lookup_app_l in Hi; [done|]. apply lookup_lt_Some in Hj. lia. }
    destruct (j - length l)%nat eqn:Ej; [|done]. injection Hj as <-. rewrite lookup_app_l in Hi by lia.
    apply list_elem_of_lookup_2 in Hi. destruct (L3 x Hi) as (_ & H & _). lia.
  - intros x k b [Hx| ->%list_elem_of_singleton]%elem_of_app Hb; rewrite P6.
    + apply lookup_app_l_Some. by apply L6.
    + rewrite (Hbytes _ _ Hb), lookup_app_r, lookup_app_r, length_replicate by (rewrite ?length_replicate; lia).
      rewrite <- Hb. f_equal. lia.
  - intros k b Hb. rewrite P6 in Hb. apply lookup_app_Some in Hb as [Hb|[Hk Hb]].
    { destruct (L7 k b Hb) as [?|(x & Hx & ?)]; [by left|]. right. exists x. split; [apply elem_of_app; by left|done]. }
    destruct (has_data (pc_source pc)); [|done]. apply lookup_app_Some in Hb as [Hb|[Hk2 Hb]].
    { apply lookup_replicate in Hb as [-> _]. by left. }
    right. exists pc. split; [apply elem_of_app; right; by left|]. apply lookup_lt_Some in Hb. rewrite length_replicate in *. lia.
Qed.

(** ** Growing the buffers *)

Lemma reserve_contributions_ok m n h : 0 <= m_contribution_capacity m < 2 ^ 64 -> n <= 2 ^ 63 ->
  exists res h', link_section_reserve_contributions m n h = Ret (res, h') /\ (generous h -> res <> None /\ generous h') /\
    forall m', res = Some m' -> exists c, m' = with_contributions (m_contributions m) c m /\ n <= c < 2 ^ 64 /\ m_contribution_capacity m <= c.
Proof.
  intros Hc Hn. unfold link_section_reserve_contributions. destruct (Z.leb_spec n (m_contribution_capacity m)).
  { exists (Some m), h. split; [done|]. split; [done|]. intros m' [= <-]. exists (m_contribution_capacity m). split; [by destruct m|lia]. }
  destruct (grown_room (m_contribution_capacity m) 4 n) as (c & E & H1 & H2); [done|lia|done|]. rewrite E. cbn [obind]. unfold alloc.
  eexists _, _. split; [done|]. split; [intros Hg; rewrite Hg; split; [done|exact Hg]|]. intros m' Hm. destruct (heap_grants _ _); [|done]. injection Hm as <-.
  by exists c.
Qed.

Lemma reserve_data_ok m n h : 0 <= m_data_capacity m < 2 ^ 64 -> n <= 2 ^ 63 ->
  exists res h', link_section_reserve_data m n h = Ret (res, h') /\ (generous h -> res <> None /\ generous h') /\
    forall m', res = Some m' -> exists c, m' = with_capacity c m /\ n <= c < 2 ^ 64 /\ m_data_capacity m <= c.
Proof.
  intros Hc Hn. unfold link_section_reserve_data. destruct (Z.leb_spec n (m_data_capacity m)).
  { exists (Some m), h. split; [done|]. split; [done|]. intros m' [= <-]. exists (m_data_capacity m). split; [by destruct m|lia]. }
  destruct (grown_room (m_data_capacity m) 64 n) as (c & E & H1 & H2); [done|lia|done|]. rewrite E. cbn [obind]. unfold alloc.
  eexists _, _. split; [done|]. split; [intros Hg; rewrite Hg; split; [done|exact Hg]|]. intros m' Hm. destruct (heap_grants _ _); [|done]. injection Hm as <-.
  by exists c.
Qed.

(** ** Copying *)

Lemma store_behind d c bytes : Z.of_nat (length d + length bytes) <= c -> store_bytes d c (Z.of_nat (length d)) bytes = Ret (d ++ bytes).
Proof.
  intros H. unfold store_bytes. rewrite (proj2 (Z.ltb_ge _ 0)), (proj2 (Z.ltb_ge _ (Z.of_nat (length d)))), (proj2 (Z.ltb_ge c _)) by lia. cbn [orb].
  by rewrite Nat2Z.id, take_ge, drop_ge, app_nil_r by lia.
Qed.

Lemma copy_section_ok m s start h : section_ok s -> 0 < s_size_of_raw_data s -> m_size m = Z.of_nat (length (m_data m)) -> m_size m <= m_virtual_size m ->
  m_size m <= m_data_capacity m < 2 ^ 64 -> m_virtual_size m <= start -> start + s_size_of_raw_data s <= 2 ^ 63 ->
  exists res h', copy_section m s start h = Ret (res, h') /\ (generous h -> res <> None /\ generous h') /\
    forall m', res = Some m' -> exists c, start + s_size_of_raw_data s <= c < 2 ^ 64 /\
      m' = with_data (m_data m ++ replicate (Z.to_nat (start - m_size m)) 0 ++ take (Z.to_nat (s_size_of_raw_data s)) (s_raw_data s))
             (with_sizes (start + s_size_of_raw_data s) (start + s_size_of_raw_data s) (with_capacity c m)).
Proof.
  intros (_ & _ & Hraw & _) Hpos Hsz Hvs Hcap Hst Hend. unfold copy_section. rewrite wrapu_small by (unfold in_u; lia).
  destruct (reserve_data_ok m (start + s_size_of_raw_data s) h) as (res & h' & E & Hg & Hres); [lia|done|]. rewrite E. cbn [obind].
  destruct res as [m1|]; [|by exists None, h']. destruct (Hres m1 eq_refl) as (c & -> & Hc & _). cbn [m_size m_data m_data_capacity m_virtual_size with_capacity].
  assert ((if start >? m_size m then store_bytes (m_data m) c (m_size m) (replicate (Z.to_nat (start - m_size m)) 0) else Ret (m_data m)) =
    Ret (m_data m ++ replicate (Z.to_nat (start - m_size m)) 0)) as ->.
  { destruct (Z.gtb_spec start (m_size m)).
    - rewrite Hsz. apply store_behind. rewrite length_replicate. lia.
    - replace (Z.to_nat (start - m_size m)) with 0%nat by lia. by rewrite app_nil_r. }
  cbn [obind]. rewrite (proj2 (Nat.ltb_ge _ _)) by lia.
  set (d1 := m_data m ++ replicate _ 0). set (b := take _ _). assert (start = Z.of_nat (length d1)) as Hd by (unfold d1; rewrite length_app, length_replicate; lia).
  assert (store_bytes d1 c start b = Ret (d1 ++ b)) as ->.
  { rewrite Hd at 1. apply store_behind. unfold b. rewrite length_take. lia. }
  cbn [obind]. unfold d1. rewrite <- app_assoc.
  eexists _, h'. split; [done|]. split; [intros Hh; split; [done|by apply Hg]|]. intros m' [= <-]. exists c. split; [lia|].
  by rewrite (proj2 (Z.ltb_lt (m_virtual_size m) _)) by lia.
Qed.

(** * Merging *)

Section Merge.
Context (fb : Z).

(** The most a section can take, its alignment included. *)
Definition need (o : LinkObject) (i : nat) (s : LinkSection) : Z := link_section_alignment s fb + Z.max (s_size_of_raw_data s) (est o i).

Lemma need_pos o i s : object_ok o -> o_sections o !! i = Some s -> 1 <= need o i s.
Proof. intros Ho _. destruct (est_ok o i Ho) as [_ H]. unfold in_u in H. pose proof (link_section_alignment_pos s fb). unfold need. lia. Qed.

(** What the entry of a section says but for its offset. *)
Definition placed (o : LinkObject) (i : nat) (s : LinkSection) (p : placement) : Prop :=
  p_index p = link_section_index_from_kind (s_kind s) /\ p_size p = est o i /\ p_alignment p = link_section_alignment s fb.

Lemma merge_section_ok used o oi i s m l h : filling used m l -> object_ok o -> o_sections o !! i = Some s -> used + need o i s <= 2 ^ 63 ->
  exists res h', merge_section o oi i s fb m h = Ret (res, h') /\ (generous h -> res <> None /\ generous h') /\
    forall m' p, res = Some (m', p) -> placed o i s p /\ filling (used + need o i s) m' (l ++ [mkPiece oi i s p]) /\
      m_kind m' = m_kind m /\ m_virtual_address m' = m_virtual_address m.
Proof.
  intros [Hlay [Hv Hl] Hd Hr Ha] Ho Hs Hroom. destruct (est_ok o i Ho) as [Ee He]. unfold in_u in He. pose proof (link_section_alignment_pos s fb) as Hap.
  pose proof (Forall_lookup_1 _ _ _ _ (proj1 Ho) Hs) as Hsok. pose proof Hsok as (_ & _ & Hraw & _). pose proof (ly_size _ _ Hlay) as [Lz Lv].
  pose proof (ly_contributions _ _ Hlay) as Lc. unfold merge_section, need in *. set (a := link_section_alignment s fb) in *.
  set (ma := if a >? m_alignment m then with_alignment a m else m). rewrite Ee. cbn [obind].
  assert (ma = with_alignment (Z.max a (m_alignment m)) m) as Ema.
  { unfold ma. destruct (Z.gtb_spec a (m_alignment m)); [by rewrite Z.max_l by lia|]. rewrite Z.max_r by lia. by destruct m. }
  clearbody ma. subst ma. cbn [m_virtual_size m_contributions with_alignment].
  destruct (linker_align_up_spec (m_virtual_size m) a) as (S1 & S2 & S3); [lia..|]. set (start := linker_align_up (m_virtual_size m) a) in *.
  destruct (reserve_contributions_ok (with_alignment (Z.max a (m_alignment m)) m) (Z.of_nat (length (m_contributions m)) + 1) h) as (res & h1 & E & Hg & Hres);
    [cbn; lia|rewrite Lc, length_fmap; lia|]. rewrite E. cbn [obind].
  destruct res as [m1|]; [|exists None, h1; split; [done|]; split; [intros Hh; by destruct (Hg Hh)|done]]. destruct (Hres m1 eq_refl) as (c & -> & Hc & _). cbn [with_contributions m_contributions m_size m_virtual_size with_alignment].
  rewrite Lc, length_fmap in Hc. set (p := mkPlacement _ start (est o i) a). set (pc := mkPiece oi i s p).
  set (m1 := mkLinkedSection (m_kind m) (m_data m) (m_data_capacity m) (m_size m) (m_virtual_size m) (Z.max a (m_alignment m)) (m_virtual_address m) (m_contributions m) c).
  change (with_contributions (m_contributions m) c (with_alignment (Z.max a (m_alignment m)) m)) with m1 in *. fold (has_data s).
  assert (forall m', m_contributions m' = m_contributions m ++ [contribution pc] -> m_contribution_capacity m' = c -> put_behind m m' pc ->
    m_virtual_size m' <= used + (a + Z.max (s_size_of_raw_data s) (est o i)) -> m_size m' <= m_data_capacity m' < 2 ^ 64 -> m_alignment m' = Z.max a (m_alignment m) ->
    filling (used + (a + Z.max (s_size_of_raw_data s) (est o i))) m' (l ++ [pc])) as Hfill.
  { intros m' Em Ec Hpb Hvs Hdc Hal. split; [by eapply layout_snoc|split; [done|]|done| |lia]; rewrite length_app; cbn; lia. }
  assert (pc_extent pc = if has_data s then s_size_of_raw_data s else est o i) as Hext by done.
  assert (pc_bytes pc = if has_data s then take (Z.to_nat (s_size_of_raw_data s)) (s_raw_data s) else []) as Hbytes by done.
  assert (forall k, 0 <= k -> a = 2 ^ k -> (2 ^ k | start)) as S3' by (intros k Hk Ek; rewrite <- Ek; eauto).
  change (pc_start pc) with start in *. destruct (has_data s) eqn:Ehas.
  - pose proof Ehas as Ehas'. unfold has_data in Ehas'. apply andb_true_iff in Ehas' as [_ Hnz%negb_true_iff%Z.eqb_neq].
    destruct (copy_section_ok m1 s start h1) as (res & h2 & E2 & Hg2 & Hres2); [done|lia|cbn; lia|cbn; lia|cbn; lia|cbn; lia|lia|].
    rewrite E2. cbn [obind]. destruct res as [m2|]; [|exists None, h2; split; [done|]; split; [intros Hh; by destruct (Hg2 (proj2 (Hg Hh)))|done]].
    destruct (Hres2 m2 eq_refl) as (c2 & Hc2 & ->). eexists _, h2. split; [done|].
    split; [intros Hh; split; [done|by destruct (Hg2 (proj2 (Hg Hh)))]|]. intros m' p' [= <- <-]. split; [done|]. split; [|done].
    apply Hfill; cbn; [done|done|split; cbn|lia|lia|done]; rewrite ?Hext, ?Ehas, ?Hbytes; [lia|done|lia|done|lia|done|].
    split; [|lia]. rewrite !length_app, length_replicate, length_take. lia.
  - cbn [obind]. rewrite wrapu_small by (unfold in_u; lia).
    assert ((if m_virtual_size m <? start + est o i then with_sizes (m_size m) (start + est o i) m1 else m1) =
      with_sizes (m_size m) (Z.max (m_virtual_size m) (start + est o i)) m1) as ->.
    { cbn. destruct (Z.ltb_spec (m_virtual_size m) (start + est o i)); unfold m1, with_sizes; cbn; f_equal; lia. }
    eexists _, h1. split; [done|]. split; [intros Hh; split; [done|by apply Hg]|].
    intros m' p' [= <- <-]. split; [done|]. split; [|done].
    apply Hfill; cbn; [done|done|split; cbn|lia|lia|done]; rewrite ?Hext, ?Ehas, ?Hbytes; (lia || done || by rewrite app_nil_r).
Qed.

(** ** All the sections of an object *)

Fixpoint needs (o : LinkObject) (ss : list LinkSection) (i : nat) : Z :=
  match ss with [] => 0 | s :: ss => need o i s + needs o ss (S i) end.

Fixpoint object_pieces (oi : nat) (ss : list LinkSection) (i : nat) (ps : list placement) : list piece :=
  match ss, ps with
  | s :: ss, p :: ps => (if p_index p =? LINKED_SECTION_INDEX_NONE then [] else [mkPiece oi i s p]) ++ object_pieces oi ss (S i) ps
  | _, _ => []
  end.

(** The pieces of the merged section at an index. *)
Definition at_index (k : nat) (l : list piece) : list piece := filter (fun pc => p_index (pc_place pc) = Z.of_nat k) l.

(** All merged sections while they are being filled. *)
Record filling_all (used : Z) (ms : list LinkedSection) (l : list piece) : Prop := {
  fa_kinds : m_kind <$> ms = kinds;
  fa_used : 0 <= used;
  fa_each : forall k m, ms !! k = Some m -> filling used m (at_index k l) /\ m_virtual_address m = 0
}.

Lemma filling_all_more used used' ms l : filling_all used ms l -> used <= used' -> filling_all used' ms l.
Proof.
  intros [H1 H2 H3] Hle. split; [done|lia|]. intros k m Hk. destruct (H3 k m Hk) as [H Ha]. split; [by eapply filling_more|done].
Qed.

Lemma index_of_kind k : link_section_index_from_kind k <> LINKED_SECTION_INDEX_NONE ->
  exists n, link_section_index_from_kind k = Z.of_nat n /\ kinds !! n = Some k.
Proof. destruct k; intros H; try done; eexists (Z.to_nat _); (split; [symmetry; apply Z2Nat.id|]); cbn; done. Qed.

(** Is this section left out of the image? *)
Definition dead_at (input : LinkedInputObject) (i : nat) : bool := match i_section_gc_dead input with None => false | Some l => default false (l !! i) end.
Definition dead_covers (input : LinkedInputObject) : Prop :=
  forall l, i_section_gc_dead input = Some l -> (length (input_sections input) <= length l)%nat.

Definition leaves_out (input : LinkedInputObject) (i : nat) (s : LinkSection) : bool :=
  (link_section_index_from_kind (s_kind s) =? LINKED_SECTION_INDEX_NONE) || dead_at input i.

Definition entry_ok (input : LinkedInputObject) (o : LinkObject) (i : nat) (s : LinkSection) (p : placement) : Prop :=
  if leaves_out input i s then p = left_out else placed o i s p.

Definition input_ok (input : LinkedInputObject) : Prop := dead_covers input /\ forall o, i_object input = Some o -> object_ok o.

Lemma is_dead_ok input i : dead_covers input -> (i < length (input_sections input))%nat -> is_dead input i = Ret (dead_at input i).
Proof.
  intros Hd Hi. unfold is_dead, dead_at. destruct (i_section_gc_dead input) as [l|] eqn:El; [|done]. specialize (Hd l El).
  destruct (lookup_lt_is_Some_2 l i) as [b Hb]; [lia|]. rewrite Hb. by apply get_nat.
Qed.

Lemma filling_all_put used ms l (k : nat) m m' pc : filling_all used ms l -> ms !! k = Some m -> p_index (pc_place pc) = Z.of_nat k -> m_kind m' = m_kind m ->
  m_virtual_address m' = m_virtual_address m -> forall used', used <= used' -> filling used' m' (at_index k l ++ [pc]) -> filling_all used' (<[k := m']> ms) (l ++ [pc]).
Proof.
  intros [H1 H2 H3] Hk Epc Ek Ea used' Hle Hf. split; [|lia|].
  - rewrite list_fmap_insert, Ek, <- H1. apply list_insert_id. by rewrite list_lookup_fmap, Hk.
  - intros k2 m2 Hk2. unfold at_index. rewrite filter_app, filter_cons, filter_nil. destruct (decide (k2 = k)) as [->|Hne].
    + rewrite list_lookup_insert_eq in Hk2 by (by eapply lookup_lt_Some). injection Hk2 as <-. rewrite decide_True by done.
      split; [done|]. rewrite Ea. by destruct (H3 k m Hk).
    + rewrite list_lookup_insert_ne in Hk2 by done. rewrite decide_False by lia. rewrite app_nil_r. destruct (H3 k2 m2 Hk2) as [Hf2 Ha2].
      split; [by eapply filling_more|done].
Qed.

Lemma needs_nonneg o ss : object_ok o -> forall i, (forall j s, ss !! j = Some s -> o_sections o !! (i + j)%nat = Some s) -> 0 <= needs o ss i.
Proof.
  intros Ho. induction ss as [|s ss IH]; intros i H; cbn [needs]; [done|]. pose proof (need_pos o i s Ho) as Hn. rewrite <- (Nat.add_0_r i) in Hn at 1.
  specialize (Hn (H 0%nat s eq_refl)). specialize (IH (S i)). apply Z.add_nonneg_nonneg; [lia|]. apply IH. intros j s' Hj. rewrite Nat.add_succ_comm. by apply H.
Qed.

Lemma merge_object_ok input o oi : i_object input = Some o -> input_ok input -> forall ss i used ms l h,
  (forall j s, ss !! j = Some s -> o_sections o !! (i + j)%nat = Some s) -> filling_all used ms l -> used + needs o ss i <= 2 ^ 63 ->
  exists res h', merge_object input o oi fb ss i ms h = Ret (res, h') /\ (generous h -> res <> None /\ generous h') /\
    forall ms' ps, res = Some (ms', ps) -> length ps = length ss /\ (forall j s p, ss !! j = Some s -> ps !! j = Some p -> entry_ok input o (i + j) s p) /\
      filling_all (used + needs o ss i) ms' (l ++ object_pieces oi ss i ps).
Proof.
  intros Eo [Hdead Hobj] ss. specialize (Hobj o Eo). induction ss as [|s ss IH]; intros i used ms l h Hss Hfill Hroom; cbn [merge_object needs].
  { eexists _, h. split; [done|]. split; [done|]. intros ms' ps [= <- <-]. split; [done|]. split; [by intros j s p Hs; rewrite lookup_nil in Hs|].
    cbn. by rewrite app_nil_r, Z.add_0_r. }
  cbn [needs] in Hroom. pose proof (Hss 0%nat s eq_refl) as Hs. rewrite Nat.add_0_r in Hs.
  assert (forall j s', ss !! j = Some s' -> o_sections o !! (S i + j)%nat = Some s') as Hss' by (intros j s' Hj; rewrite Nat.add_succ_comm; by apply Hss).
  pose proof (need_pos o i s Hobj Hs) as Hnp. pose proof (needs_nonneg o ss Hobj (S i) Hss') as Hnn.
  (* one section *)
  assert ((if link_section_index_from_kind (s_kind s) =? LINKED_SECTION_INDEX_NONE then Ret true else is_dead input i) = Ret (leaves_out input i s)) as Ed.
  { unfold leaves_out. destruct (_ =? _); [done|]. apply is_dead_ok; [done|]. unfold input_sections. rewrite Eo. by eapply lookup_lt_Some. }
  cbn zeta. rewrite Ed. cbn [obind].
  assert (exists one h1, (if leaves_out input i s then Ret (Some (ms, left_out), h)
      else let! m := get ms (link_section_index_from_kind (s_kind s)) in let! (one, h) := merge_section o oi i s fb m h in
        match one with None => Ret (None, h) | Some (m, p) => let! ms := put ms (link_section_index_from_kind (s_kind s)) m in Ret (Some (ms, p), h) end) = Ret (one, h1) /\
      (generous h -> one <> None /\ generous h1) /\
      forall ms' p, one = Some (ms', p) -> entry_ok input o i s p /\ filling_all (used + need o i s) ms' (l ++ object_pieces oi [s] i [p])) as (one & h1 & E & Hg & Hone).
  { unfold entry_ok. destruct (leaves_out input i s) eqn:El.
    { eexists _, h. split; [done|]. split; [done|]. intros ms' p [= <- <-]. split; [done|]. rewrite app_nil_r. eapply filling_all_more; [done|lia]. }
    apply orb_false_iff in El as [En%Z.eqb_neq _]. destruct (index_of_kind _ En) as (n & Ekn & Hkn). pose proof Hfill as [Hk Hu He]. rewrite Ekn.
    assert (exists m, ms !! n = Some m) as [m Hm].
    { apply lookup_lt_is_Some_2. apply lookup_lt_Some in Hkn. rewrite <- Hk, length_fmap in Hkn. done. }
    rewrite (get_nat _ _ _ Hm). cbn [obind]. destruct (He n m Hm) as [Hf Ha].
    destruct (merge_section_ok used o oi i s m (at_index n l) h Hf Hobj Hs) as (res & h1 & E & Hg & Hres); [lia|]. rewrite E. cbn [obind].
    destruct res as [[m' p]|]; [|exists None, h1; split; [done|]; split; [intros Hh; by destruct (Hg Hh)|done]].
    rewrite put_nat by (by eapply lookup_lt_Some). eexists _, h1. split; [done|]. split; [intros Hh; split; [done|by apply Hg]|].
    intros ms' p' [= <- <-]. destruct (Hres m' p eq_refl) as (Hp & Hf' & Hk' & Ha'). split; [done|]. cbn [object_pieces]. pose proof Hp as (Ep & _).
    rewrite Ep, (proj2 (Z.eqb_neq _ _) En). cbn [app]. eapply filling_all_put; [done|done|by cbn; rewrite Ep|done|done|lia|done]. }
  rewrite E. cbn [obind]. destruct one as [[ms1 p]|]; [|exists None, h1; split; [done|]; split; [intros Hh; by destruct (Hg Hh)|done]].
  destruct (Hone ms1 p eq_refl) as [Hp Hf1].
  destruct (IH (S i) _ ms1 _ h1 Hss' Hf1) as (rest & h2 & E2 & Hg2 & Hrest); [lia|]. rewrite E2. cbn [obind]. eexists _, h2. split; [done|].
  destruct rest as [[ms2 ps]|]; [|split; [intros Hh; by destruct (Hg2 (proj2 (Hg Hh)))|done]].
  split; [intros Hh; split; [done|by destruct (Hg2 (proj2 (Hg Hh)))]|]. intros ms' ps' [= <- <-].
  destruct (Hrest ms2 ps eq_refl) as (Hl & Hps & Hf2). split; [by cbn; rewrite Hl|]. split.
  - intros [|j] s' p' H1 H2; [injection H1 as <-; injection H2 as <-; by rewrite Nat.add_0_r|]. rewrite <- Nat.add_succ_comm. by apply (Hps j).
  - rewrite <- app_assoc in Hf2. cbn [object_pieces] in *. rewrite app_nil_r in Hf2. eapply filling_all_more; [exact Hf2|lia].
Qed.

(** ** All the objects *)

Fixpoint objects_need (inputs : list LinkedInputObject) : Z :=
  match inputs with [] => 0 | input :: inputs => match i_object input with Some o => needs o (o_sections o) 0 | None => 0 end + objects_need inputs end.

Fixpoint all_pieces (inputs : list LinkedInputObject) (oi : nat) (pss : list (list placement)) : list piece :=
  match inputs, pss with
  | input :: inputs, ps :: pss => object_pieces oi (input_sections input) 0 ps ++ all_pieces inputs (S oi) pss
  | _, _ => []
  end.

(** The entries of the sections of an object. *)
Definition entries_ok (input : LinkedInputObject) (ps : list placement) : Prop :=
  length ps = length (input_sections input) /\
  forall o i s p, i_object input = Some o -> o_sections o !! i = Some s -> ps !! i = Some p -> entry_ok input o i s p.

Lemma objects_need_nonneg inputs : Forall input_ok inputs -> 0 <= objects_need inputs.
Proof.
  induction 1 as [|input inputs [_ Ho] _ IH]; cbn [objects_need]; [done|]. destruct (i_object input) as [o|]; [|lia].
  pose proof (needs_nonneg o (o_sections o) (Ho o eq_refl) 0). apply Z.add_nonneg_nonneg; eauto.
Qed.

Lemma alloc_maps_heap n h : exists ok h', alloc_maps n h = (ok, h') /\ (generous h -> ok = true /\ generous h').
Proof.
  unfold alloc_maps, alloc_array. eexists _, _. split; [reflexivity|]. intros H. cbn. rewrite !H. by split.
Qed.

Lemma merge_objects_ok inputs : Forall input_ok inputs -> forall oi used ms l h, filling_all used ms l -> used + objects_need inputs <= 2 ^ 63 ->
  exists res h', merge_objects fb inputs oi ms h = Ret (res, h') /\ (generous h -> res <> None /\ generous h') /\
    forall ms' inputs', res = Some (ms', inputs') -> exists pss, inputs' = zip_with with_places pss inputs /\ Forall2 entries_ok inputs pss /\
      filling_all (used + objects_need inputs) ms' (l ++ all_pieces inputs oi pss).
Proof.
  induction 1 as [|input inputs Hin Hins IH]; intros oi used ms l h Hf Hroom; cbn [merge_objects objects_need].
  { eexists _, h. split; [done|]. split; [done|]. intros ms' inputs' [= <- <-]. exists []. split; [done|]. split; [done|]. cbn. by rewrite app_nil_r, Z.add_0_r. }
  cbn [objects_need] in Hroom. pose proof (objects_need_nonneg _ Hins) as Hnn.
  destruct (alloc_maps_heap (length (input_sections input)) h) as (ok & h0 & E0 & Hg0). rewrite E0.
  destruct ok; [|eexists None, _; split; [done|]; split; [intros Hh; by destruct (Hg0 Hh)|done]]. cbn [negb].
  set (n := match i_object input with Some o => needs o (o_sections o) 0 | None => 0 end) in *.
  assert (exists one h1, match i_object input with None => Ret (Some (ms, []), h0) | Some o => merge_object input o oi fb (o_sections o) 0 ms h0 end = Ret (one, h1) /\
    (generous h0 -> one <> None /\ generous h1) /\
    forall ms' ps, one = Some (ms', ps) -> entries_ok input ps /\ filling_all (used + n) ms' (l ++ object_pieces oi (input_sections input) 0 ps)) as (one & h1 & E & Hg & Hone).
  { unfold entries_ok, input_sections. subst n. destruct (i_object input) as [o|] eqn:Eo.
    - destruct (merge_object_ok input o oi Eo Hin (o_sections o) 0 used ms l h0) as (one & h1 & E & Hg & Hone); [done|done|lia|].
      exists one, h1. split; [done|]. split; [done|]. intros ms' ps Ep. destruct (Hone ms' ps Ep) as (H1 & H2 & H3). split; [|done]. split; [done|].
      intros o' i s p [= <-] Hs Hp. by apply (H2 i).
    - eexists _, h0. split; [done|]. split; [done|]. intros ms' ps [= <- <-]. split; [by split|]. cbn. by rewrite app_nil_r, Z.add_0_r. }
  rewrite E. cbn [obind]. destruct one as [[ms1 ps]|]; [|exists None, h1; split; [done|]; split; [intros Hh; by destruct (Hg (proj2 (Hg0 Hh)))|done]].
  destruct (Hone ms1 ps eq_refl) as [Hps Hf1].
  destruct (IH (S oi) _ ms1 _ h1 Hf1) as (rest & h2 & E2 & Hg2 & Hrest); [lia|]. rewrite E2. cbn [obind]. eexists _, h2. split; [done|].
  destruct rest as [[ms2 inputs2]|]; [|split; [intros Hh; by destruct (Hg2 (proj2 (Hg (proj2 (Hg0 Hh)))))|done]].
  split; [intros Hh; split; [done|by destruct (Hg2 (proj2 (Hg (proj2 (Hg0 Hh)))))]|]. intros ms' inputs' [= <- <-].
  destruct (Hrest ms2 inputs2 eq_refl) as (pss & -> & Hpss & Hf2). exists (ps :: pss). split; [done|]. split; [by constructor|].
  cbn [all_pieces]. by rewrite app_assoc, Z.add_assoc.
Qed.

(** The sections as [link_resolution_init_sections] leaves them are empty. *)
Lemma filling_all_start : filling_all 0 link_resolution_init_sections [].
Proof.
  split; [done|done|]. intros k m Hm. unfold link_resolution_init_sections in Hm. rewrite list_lookup_fmap in Hm.
  destruct (kinds !! k) as [kd|]; [|done]. injection Hm as <-. split; [apply filling_start|done].
Qed.
End Merge.
End SectionMergeCorrect.
