(* ===== verification/SectionGc.v ===== *)
(** Dropping the sections that nothing needs: src/src/linker/symbol_resolve.c,
    lines 324 to 625.

    The sections that cannot be dropped, and the one of the entry symbol, are
    marked; so is what the relocations of a marked section refer to, in the
    object itself or, for an undefined symbol, through a table of the external
    definitions.  What stays unmarked is dropped. *)
From S2P Require Import Prelude Probe LinkObjects.
#[local] Open Scope Z_scope.

Module SectionGc.
Import LinkObjects.

Record GcDefinition := mkDefinition { d_name : cstring; d_object_index : nat; d_section_index : nat; d_is_runtime_default : bool }.

(** Names with a '$', or with a '.' first and another one behind it. *)
Definition link_section_is_granular (name : option cstring) : bool :=
  match name with
  | None => false
  | Some n => bool_decide (36 ∈ n) || match n with c :: n => (c =? 46) && bool_decide (46 ∈ n) | [] => false end
  end.

Definition link_section_is_gc_eligible (s : LinkSection) : bool :=
  link_section_is_granular (s_name s) &&
  match s_kind s with LINK_SECTION_KIND_TEXT | LINK_SECTION_KIND_RDATA | LINK_SECTION_KIND_DATA | LINK_SECTION_KIND_BSS => true | _ => false end.

(** * The table of external definitions *)

Fixpoint gc_hash_loop (hash : Z) (name : cstring) : Z :=
  match name with [] => hash | c :: name => gc_hash_loop (u64 (Z.lxor hash c * 1099511628211)) name end.
Definition gc_hash_name (name : cstring) : Z := gc_hash_loop 1469598103934665603 name.

(** The slot where the probe for a name ends: that of its definition, or an
    empty one. *)
Fixpoint gc_probe (fuel : nat) (table : list (option GcDefinition)) (mask : nat) (name : cstring) (slot : nat) : outcome (nat * option GcDefinition) :=
  match fuel with
  | O => NoFuel
  | S fuel =>
      match table !! slot with
      | None => Undef
      | Some None => Ret (slot, None)
      | Some (Some d) => if bool_decide (d_name d = name) then Ret (slot, Some d) else gc_probe fuel table mask name (Probe.next_slot slot mask)
      end
  end.

(** The bucket count is the length of the table. *)
Definition gc_probe_name (table : list (option GcDefinition)) (name : cstring) : outcome (nat * option GcDefinition) :=
  gc_probe (S (length table)) table (length table - 1) name (Probe.slot_of (gc_hash_name name) (length table - 1)).

Definition gc_find_definition (table : list (option GcDefinition)) (name : cstring) : outcome (option GcDefinition) :=
  let! (_, d) := gc_probe_name table name in Ret d.

(** [None] for a second definition of a name. *)
Definition gc_insert_definition (table : list (option GcDefinition)) (d : GcDefinition) : outcome (option (list (option GcDefinition))) :=
  let! (slot, found) := gc_probe_name table (d_name d) in
  match found with
  | Some e =>
      if eqb (d_is_runtime_default e) (d_is_runtime_default d) then Ret None
      else if d_is_runtime_default e && negb (d_is_runtime_default d) then Ret (Some (<[slot := Some d]> table))
      else Ret (Some table)
  | None => Ret (Some (<[slot := Some d]> table))
  end.

(** The external definitions of an object. *)
Definition gc_definition (object_index section_count : nat) (is_runtime_default : bool) (y : LinkSymbol) : option GcDefinition :=
  if y_is_auxiliary y then None
  else match y_name y with
       | None => None
       | Some name =>
           if negb (y_is_external y) || (y_section_index y <? 0) || (Z.of_nat section_count <=? y_section_index y) then None
           else Some (mkDefinition name object_index (Z.to_nat (y_section_index y)) is_runtime_default)
       end.

Fixpoint gc_define (object_index section_count : nat) (is_runtime_default : bool) (ys : list LinkSymbol) (table : list (option GcDefinition)) :
  outcome (option (list (option GcDefinition))) :=
  match ys with
  | [] => Ret (Some table)
  | y :: ys =>
      match gc_definition object_index section_count is_runtime_default y with
      | None => gc_define object_index section_count is_runtime_default ys table
      | Some d =>
          let! table := gc_insert_definition table d in
          match table with None => Ret None | Some table => gc_define object_index section_count is_runtime_default ys table end
      end
  end.

Definition with_referenced (l : list bool) (input : LinkedInputObject) : LinkedInputObject :=
  mkInput (i_object input) (i_section_merged_indices input) (i_section_merged_offsets input) (i_section_merged_sizes input) (i_section_alignments input)
    (i_symbols input) (i_is_runtime_default input) (i_section_gc_dead input) (Some l).
Definition with_dead (l : list bool) (input : LinkedInputObject) : LinkedInputObject :=
  mkInput (i_object input) (i_section_merged_indices input) (i_section_merged_offsets input) (i_section_merged_sizes input) (i_section_alignments input)
    (i_symbols input) (i_is_runtime_default input) (Some l) (i_symbol_gc_referenced input).

(** An array of flags, one at least. *)
Definition flags (n : nat) : list bool := replicate (if (n =? 0)%nat then 1 else n) false.

(** The objects from the one at [object_index] on: the marks of their sections,
    and the objects with their marks of symbols. *)
Fixpoint gc_prepare (inputs : list LinkedInputObject) (object_index : nat) (table : list (option GcDefinition)) (h : heap) :
  outcome (option (list (list bool) * list LinkedInputObject * list (option GcDefinition)) * heap) :=
  match inputs with
  | [] => Ret (Some ([], [], table), h)
  | input :: inputs =>
      let! (one, h) :=
        match i_object input with
        | None => Ret (Some ([], input, table), h)
        | Some o =>
            let (a, h) := alloc h in
            let (b, h) := alloc h in
            if negb (a && b) then Ret (None, h)
            else
              let! table := gc_define object_index (length (o_sections o)) (i_is_runtime_default input) (o_symbols o) table in
              Ret (match table with
                   | None => None
                   | Some table => Some (flags (length (o_sections o)), with_referenced (flags (length (o_symbols o))) input, table)
                   end, h)
        end in
      match one with
      | None => Ret (None, h)
      | Some (row, input, table) =>
          let! (rest, h) := gc_prepare inputs (S object_index) table h in
          Ret (match rest with None => None | Some (live, inputs, table) => Some (row :: live, input :: inputs, table) end, h)
      end
  end.

(** * Marking *)

(** [live] and [worklist]. *)
Record marks := mkMarks { live : list (list bool); worklist : list (nat * nat) }.

(** [total_sections] items fit in the work list. *)
Definition gc_mark (total_sections : nat) (s : marks) (object_index section_index : nat) : outcome marks :=
  let! row := get (live s) (Z.of_nat object_index) in
  let! b := get row (Z.of_nat section_index) in
  if b : bool then Ret s
  else
    let! row := put row (Z.of_nat section_index) true in
    let! l := put (live s) (Z.of_nat object_index) row in
    if (total_sections <=? length (worklist s))%nat then Undef else Ret (mkMarks l (worklist s ++ [(object_index, section_index)])).

(** The sections of an object that are kept in any case. *)
Fixpoint gc_mark_roots (total_sections object_index : nat) (ss : list LinkSection) (i : nat) (s : marks) : outcome marks :=
  match ss with
  | [] => Ret s
  | x :: ss =>
      let! s :=
        if bool_decide (s_kind x = LINK_SECTION_KIND_UNKNOWN) || link_section_is_gc_eligible x then Ret s
        else gc_mark total_sections s object_index i in
      gc_mark_roots total_sections object_index ss (S i) s
  end.

Fixpoint gc_mark_all_roots (total_sections : nat) (inputs : list LinkedInputObject) (object_index : nat) (s : marks) : outcome marks :=
  match inputs with
  | [] => Ret s
  | input :: inputs =>
      let! s := gc_mark_roots total_sections object_index (input_sections input) 0 s in
      gc_mark_all_roots total_sections inputs (S object_index) s
  end.

Definition gc_mark_definition (total_sections : nat) (table : list (option GcDefinition)) (name : cstring) (s : marks) : outcome marks :=
  let! d := gc_find_definition table name in
  match d with None => Ret s | Some d => gc_mark total_sections s (d_object_index d) (d_section_index d) end.

(** The relocations of a marked section: the marks after them, and those of
    the symbols of the object. *)
Fixpoint gc_follow (total_sections : nat) (table : list (option GcDefinition)) (o : LinkObject) (object_index : nat) (rels : list LinkReloc)
  (referenced : list bool) (s : marks) : outcome (list bool * marks) :=
  match rels with
  | [] => Ret (referenced, s)
  | rel :: rels =>
      if Z.of_nat (length (o_symbols o)) <=? r_symbol_index rel then gc_follow total_sections table o object_index rels referenced s
      else
        let! referenced := put referenced (r_symbol_index rel) true in
        let! y := get (o_symbols o) (r_symbol_index rel) in
        let! s :=
          if y_is_auxiliary y then Ret s
          else if (0 <=? y_section_index y) && (y_section_index y <? Z.of_nat (length (o_sections o))) then
            gc_mark total_sections s object_index (Z.to_nat (y_section_index y))
          else if y_section_index y =? LINK_SECTION_INDEX_UNDEFINED then
            match y_name y with None => Ret s | Some name => gc_mark_definition total_sections table name s end
          else Ret s in
        gc_follow total_sections table o object_index rels referenced s
  end.

(** The work list from the item at [processed] on. *)
Fixpoint gc_process (fuel total_sections : nat) (table : list (option GcDefinition)) (inputs : list LinkedInputObject) (processed : nat) (s : marks) :
  outcome (list LinkedInputObject * marks) :=
  match fuel with
  | O => NoFuel
  | S fuel =>
      match worklist s !! processed with
      | None => Ret (inputs, s)
      | Some (object_index, section_index) =>
          let! input := get inputs (Z.of_nat object_index) in
          match i_object input, i_symbol_gc_referenced input with
          | Some o, Some referenced =>
              let! x := get (o_sections o) (Z.of_nat section_index) in
              let! (referenced, s) := gc_follow total_sections table o object_index (s_relocations x) referenced s in
              gc_process fuel total_sections table (<[object_index := with_referenced referenced input]> inputs) (S processed) s
          | _, _ => Undef
          end
      end
  end.

(** * Collecting *)

(** The flags of an array, those of [b] first. *)
Fixpoint dead_flags (row : list bool) (ss : list LinkSection) (i : nat) (dead : list bool) : outcome (list bool) :=
  match ss with
  | [] => Ret dead
  | x :: ss =>
      let! b := get row (Z.of_nat i) in
      let! dead := if negb b && link_section_is_gc_eligible x then put dead (Z.of_nat i) true else Ret dead in
      dead_flags row ss (S i) dead
  end.

Fixpoint gc_sweep (rows : list (list bool)) (inputs : list LinkedInputObject) (object_index : nat) (h : heap) : outcome (option (list LinkedInputObject) * heap) :=
  match inputs with
  | [] => Ret (Some [], h)
  | input :: inputs =>
      let! (one, h) :=
        match i_object input with
        | None => Ret (Some input, h)
        | Some o =>
            let (ok, h) := alloc h in
            if negb ok then Ret (None, h)
            else
              let! row := get rows (Z.of_nat object_index) in
              let! dead := dead_flags row (o_sections o) 0 (flags (length (o_sections o))) in
              Ret (Some (with_dead dead input), h)
        end in
      match one with
      | None => Ret (None, h)
      | Some input =>
          let! (rest, h) := gc_sweep rows inputs (S object_index) h in
          Ret (match rest with None => None | Some inputs => Some (input :: inputs) end, h)
      end
  end.

Definition input_symbols (input : LinkedInputObject) : list LinkSymbol := match i_object input with Some o => o_symbols o | None => [] end.

Definition total (f : LinkedInputObject -> nat) (inputs : list LinkedInputObject) : nat := foldr (fun input n => (f input + n)%nat) 0%nat inputs.

Definition is_empty (name : cstring) : bool := match name with [] => true | _ => false end.

(** [None] is a failure.  The report to the standard error stream is left
    out. *)
Definition link_resolution_gc_sections (r : LinkResolution) (entry_symbol_name : option cstring) (h : heap) : outcome (option LinkResolution * heap) :=
  let total_sections := total (fun input => length (input_sections input)) (objects r) in
  let definition_count := total (fun input => length (input_symbols input)) (objects r) in
  if (total_sections =? 0)%nat then Ret (Some r, h)
  else
    let! bucket_count := grown 64 64 (u64 (Z.of_nat definition_count * 2)) in
    let (a, h) := alloc h in
    let (b, h) := alloc h in
    let (c, h) := alloc h in
    if negb (a && b && c) then Ret (None, h)
    else
      let! (prepared, h) := gc_prepare (objects r) 0 (replicate (Z.to_nat bucket_count) None) h in
      match prepared with
      | None => Ret (None, h)
      | Some (live, inputs, table) =>
          let! s := gc_mark_all_roots total_sections inputs 0 (mkMarks live []) in
          let! s := match entry_symbol_name with
                    | Some name => if is_empty name then Ret s else gc_mark_definition total_sections table name s
                    | None => Ret s
                    end in
          let! (inputs, s) := gc_process (S total_sections) total_sections table inputs 0 s in
          let! (swept, h) := gc_sweep (SectionGc.live s) inputs 0 h in
          Ret (match swept with None => None | Some inputs => Some (with_objects inputs r) end, h)
      end.
End SectionGc.
