(* ===== verification/SectionGcCorrect.v ===== *)
(** The table of external definitions holds, for each name, the definition that
    the rule about runtime defaults chooses. *)
From S2P Require Import Prelude Probe LinkObjects LinkObjectsCorrect SectionGc.
From stdpp Require Import gmap.
#[local] Open Scope Z_scope.

Module SectionGcCorrect.
Import LinkObjects LinkObjectsCorrect SectionGc.

(** * The table as a map *)

(** Which of two definitions of a name counts: [None] when they clash. *)
Definition prefer (e d : GcDefinition) : option GcDefinition :=
  if eqb (d_is_runtime_default e) (d_is_runtime_default d) then None else Some (if d_is_runtime_default e then d else e).

Definition add_definition (E : gmap cstring GcDefinition) (d : GcDefinition) : option (gmap cstring GcDefinition) :=
  match E !! d_name d with
  | None => Some (<[d_name d := d]> E)
  | Some e => (fun d' => <[d_name d := d']> E) <$> prefer e d
  end.

Fixpoint add_definitions (E : gmap cstring GcDefinition) (ds : list GcDefinition) : option (gmap cstring GcDefinition) :=
  match ds with [] => Some E | d :: ds => E' ← add_definition E d; add_definitions E' ds end.

(** The slots as indices, that of a definition being its own slot. *)
Definition as_slots (table : list (option GcDefinition)) : list nat := imap (fun p o => match o with Some _ => S p | None => O end) table.
Definition name_at (table : list (option GcDefinition)) (p : nat) : cstring := match table !! p with Some (Some d) => d_name d | _ => [] end.

Lemma gc_hash_is name : gc_hash_name name = Probe.mettle_fnv1a_hash name.
Proof. unfold gc_hash_name, Probe.mettle_fnv1a_hash. generalize 1469598103934665603. induction name as [|c name IH]; intros z; [done|apply IH]. Qed.

Lemma gc_probe_is fuel table mask name : forall slot,
  gc_probe fuel table mask name slot =
  let! (p, found) := Probe.probe_loop fuel (as_slots table) mask (fun p => bool_decide (name_at table p = name)) slot in
  Ret (p, match found with Some q => default None (table !! q) | None => None end).
Proof.
  induction fuel as [|fuel IH]; intros slot; [done|]. cbn [gc_probe Probe.probe_loop]. unfold as_slots. rewrite list_lookup_imap. fold (as_slots table).
  unfold name_at. destruct (table !! slot) as [[d|]|] eqn:E; cbn [fmap option_fmap option_map]; [|done|done]. rewrite E. destruct (bool_decide _); [by cbn; rewrite E|]. apply IH.
Qed.

(** The table [table] holds the map [E]. *)
Record holds (m : nat) (table : list (option GcDefinition)) (reg : list nat) (E : gmap cstring GcDefinition) : Prop := {
  ho_size : Probe.size_ok m;
  ho_inv : Probe.table_inv m (name_at table) Probe.mettle_fnv1a_hash (as_slots table) reg;
  ho_map : forall name d, E !! name = Some d <-> d_name d = name /\ exists p, p ∈ reg /\ table !! p = Some (Some d);
  ho_unique : forall p q, p ∈ reg -> q ∈ reg -> name_at table p = name_at table q -> p = q
}.

Lemma holds_length m table reg E : holds m table reg E -> length table = m.
Proof. intros [_ H _ _]. rewrite <- (Probe.ti_length _ _ _ _ _ H). unfold as_slots. by rewrite length_imap. Qed.

Lemma holds_entry m table reg E p : holds m table reg E -> p ∈ reg -> exists d, table !! p = Some (Some d).
Proof.
  intros H Hp. pose proof (ho_inv _ _ _ _ H) as Hi. assert (S p ∈ filter (fun x => x <> O) (as_slots table)) as Hin.
  { rewrite (Probe.ti_entries _ _ _ _ _ Hi). apply list_elem_of_fmap. by exists p. }
  apply list_elem_of_filter in Hin as [_ Hin]. apply list_elem_of_lookup in Hin as [q Hq]. unfold as_slots in Hq.
  rewrite list_lookup_imap in Hq. destruct (table !! q) as [[d|]|] eqn:E'; cbn in Hq; try done. injection Hq as <-. by exists d.
Qed.

Lemma holds_slot m table reg E p d : holds m table reg E -> table !! p = Some (Some d) -> p ∈ reg.
Proof.
  intros H Hp. eapply Probe.entry_registered; [apply H|]. instantiate (1 := p). unfold as_slots. by rewrite list_lookup_imap, Hp.
Qed.

Lemma holds_empty m : Probe.size_ok m -> holds m (replicate m None) [] ∅.
Proof.
  intros Hs. split; [done| | |by intros p q Hp%not_elem_of_nil].
  - replace (as_slots (replicate m None)) with (replicate m O); [apply Probe.table_inv_empty|]. unfold as_slots. apply list_eq. intros i.
    rewrite list_lookup_imap. destruct (decide (i < m)%nat); [by rewrite !lookup_replicate_2|]. by rewrite !lookup_ge_None_2 by (rewrite length_replicate; lia).
  - intros name d. rewrite lookup_empty. split; [done|]. intros (_ & p & Hp%not_elem_of_nil & _). done.
Qed.

(** ** Finding *)

(** A probe stops at the slot whose index it returns, slots being indices. *)
Lemma probe_at fuel table mask stop : forall slot p q, Probe.probe_loop fuel (as_slots table) mask stop slot = Ret (p, Some q) -> p = q.
Proof.
  induction fuel as [|fuel IH]; intros slot p q; cbn [Probe.probe_loop]; [done|]. unfold as_slots. rewrite list_lookup_imap. fold (as_slots table).
  destruct (table !! slot) as [[d|]|]; cbn [fmap option_fmap option_map]; [|done|done]. destruct (stop slot); [by intros [= -> ->]|apply IH].
Qed.

Lemma gc_probe_name_ok m table reg E name : holds m table reg E -> (length reg < m)%nat ->
  exists p, gc_probe_name table name = Ret (p, E !! name) /\ (p < m)%nat /\
    match E !! name with
    | Some d => p ∈ reg /\ table !! p = Some (Some d)
    | None => table !! p = Some None /\ exists dist, (dist < m)%nat /\ p = Probe.at_dist m (Probe.slot_of (Probe.mettle_fnv1a_hash name) (m - 1)) dist /\
        forall dist', (dist' < dist)%nat -> exists j, as_slots table !! Probe.at_dist m (Probe.slot_of (Probe.mettle_fnv1a_hash name) (m - 1)) dist' = Some (S j)
    end.
Proof.
  intros H Hl. unfold gc_probe_name. rewrite gc_probe_is, gc_hash_is, (holds_length _ _ _ _ H).
  destruct (Probe.probe_find m (name_at table) Probe.mettle_fnv1a_hash (as_slots table) reg name (fun p => bool_decide (name_at table p = name)) (S m)) as (p & r & E1 & Hp & Hr);
    [apply H|apply H|done| |lia|].
  { intros j _. by rewrite bool_decide_eq_true. }
  rewrite E1. cbn [obind]. exists p. assert (match r with Some q => default None (table !! q) | None => None end = E !! name) as ->; [|split; [done|split; [done|]]].
  - destruct r as [q|].
    + destruct Hr as (Eq & n & Hn & _). apply list_elem_of_lookup_2 in Hn. destruct (holds_entry _ _ _ _ _ H Hn) as (d & Ed). rewrite Ed. symmetry.
      apply (ho_map _ _ _ _ H). unfold name_at in Eq. rewrite Ed in Eq. split; [done|]. by exists q.
    + destruct Hr as (Hno & _). destruct (E !! name) as [d|] eqn:En; [|done]. exfalso. apply (ho_map _ _ _ _ H) in En as (En & q & Hq & Ed).
      apply (Hno q Hq). unfold name_at. by rewrite Ed.
  - destruct r as [q|].
    + (* the probe stops at the slot it finds *)
      destruct Hr as (Eq & n & Hn & _). apply list_elem_of_lookup_2 in Hn. destruct (holds_entry _ _ _ _ _ H Hn) as (d & Ed).
      assert (E !! name = Some d) as En. { apply (ho_map _ _ _ _ H). unfold name_at in Eq. rewrite Ed in Eq. split; [done|]. by exists q. }
      rewrite En. enough (p = q) as -> by done. by eapply probe_at.
    + destruct Hr as (Hno & Hz & Hd). destruct (E !! name) as [d|] eqn:En.
      { exfalso. apply (ho_map _ _ _ _ H) in En as (En & q & Hq & Ed). apply (Hno q Hq). unfold name_at. by rewrite Ed. }
      split; [|exact Hd]. unfold as_slots in Hz. rewrite list_lookup_imap in Hz. by destruct (table !! p) as [[d|]|].
Qed.

(** ** Inserting *)

Lemma as_slots_insert table p d o : table !! p = Some o -> as_slots (<[p := Some d]> table) = <[p := S p]> (as_slots table).
Proof.
  intros Hp. apply lookup_lt_Some in Hp as Hlt. unfold as_slots. apply list_eq. intros i. rewrite list_lookup_imap.
  destruct (decide (i = p)) as [->|Hne].
  - rewrite list_lookup_insert_eq by done. rewrite list_lookup_insert_eq by (by rewrite length_imap). done.
  - rewrite !list_lookup_insert_ne by done. by rewrite list_lookup_imap.
Qed.

Lemma name_at_insert table p d q : (p < length table)%nat -> name_at (<[p := Some d]> table) q = if decide (q = p) then d_name d else name_at table q.
Proof.
  intros Hp. unfold name_at. destruct (decide (q = p)) as [->|Hne]; [by rewrite list_lookup_insert_eq|by rewrite list_lookup_insert_ne].
Qed.

(** A slot of its own for a new name. *)
Lemma holds_new m table reg E d p dist : holds m table reg E -> (length reg < m)%nat -> E !! d_name d = None -> table !! p = Some None -> (dist < m)%nat ->
  p = Probe.at_dist m (Probe.slot_of (Probe.mettle_fnv1a_hash (d_name d)) (m - 1)) dist ->
  (forall dist', (dist' < dist)%nat -> exists j, as_slots table !! Probe.at_dist m (Probe.slot_of (Probe.mettle_fnv1a_hash (d_name d)) (m - 1)) dist' = Some (S j)) ->
  holds m (<[p := Some d]> table) (reg ++ [p]) (<[d_name d := d]> E).
Proof.
  intros H Hl HE Hp Hdist Ep Hbefore. apply lookup_lt_Some in Hp as Hplt.
  assert (p ∉ reg) as Hnew. { intros Hin. destruct (holds_entry _ _ _ _ _ H Hin) as (x & Hx). congruence. }
  assert (forall i, i ∈ reg -> name_at (<[p := Some d]> table) i = name_at table i) as Hkeys.
  { intros i Hi. rewrite name_at_insert by done. destruct (decide (i = p)) as [->|]; done. }
  assert (name_at (<[p := Some d]> table) p = d_name d) as Hkp by (rewrite name_at_insert by done; by rewrite decide_True).
  split; [apply H| | |].
  - rewrite (as_slots_insert _ _ _ _ Hp).
    assert (p = Probe.at_dist m (Probe.home m (name_at (<[p := Some d]> table)) Probe.mettle_fnv1a_hash p) dist) as Ep2 by (unfold Probe.home; by rewrite Hkp).
    rewrite Ep2 at 2. apply Probe.table_inv_insert; [|done|done| |].
    + eapply Probe.table_inv_key; [|apply H]. intros i Hi. symmetry. by apply Hkeys.
    + rewrite <- Ep2. unfold as_slots. by rewrite list_lookup_imap, Hp.
    + unfold Probe.home. by rewrite Hkp.
  - intros name x. destruct (decide (name = d_name d)) as [->|Hne].
    + rewrite lookup_insert_eq. split.
      * intros [= <-]. split; [done|]. exists p. split; [apply elem_of_app; right; by left|]. by apply list_lookup_insert_eq.
      * intros (Ex & q & [Hq| ->%list_elem_of_singleton]%elem_of_app & Hx); [|rewrite list_lookup_insert_eq in Hx by done; congruence].
        rewrite list_lookup_insert_ne in Hx by (intros ->; done). exfalso. assert (E !! d_name d = Some x); [|congruence].
        apply (ho_map _ _ _ _ H). split; [done|]. by exists q.
    + rewrite lookup_insert_ne by done. rewrite (ho_map _ _ _ _ H). split; intros (Ex & q & Hq & Hx); (split; [done|]); exists q.
      * split; [apply elem_of_app; by left|]. rewrite list_lookup_insert_ne; [done|]. by intros ->.
      * apply elem_of_app in Hq as [Hq| ->%list_elem_of_singleton]; [|rewrite list_lookup_insert_eq in Hx by done; congruence].
        split; [done|]. rewrite list_lookup_insert_ne in Hx; [done|]. by intros ->.
  - assert (forall q, q ∈ reg -> name_at table q <> d_name d) as Hother.
    { intros q Hq Eq. destruct (holds_entry _ _ _ _ _ H Hq) as (x & Hx). unfold name_at in Eq. rewrite Hx in Eq.
      assert (E !! d_name d = Some x); [|congruence]. apply (ho_map _ _ _ _ H). split; [done|]. by exists q. }
    intros q q' Hq Hq' Eq. apply elem_of_app in Hq as [Hq| ->%list_elem_of_singleton]; apply elem_of_app in Hq' as [Hq'| ->%list_elem_of_singleton]; [|..|done];
      rewrite ?Hkp, ?Hkeys in Eq by done; [by apply (ho_unique _ _ _ _ H)|by destruct (Hother q Hq)|by destruct (Hother q' Hq')].
Qed.

(** Another definition of the name in its slot. *)
Lemma holds_replace m table reg E e d p : holds m table reg E -> E !! d_name d = Some e -> p ∈ reg -> table !! p = Some (Some e) ->
  holds m (<[p := Some d]> table) reg (<[d_name d := d]> E).
Proof.
  intros H HE Hin Hp. apply lookup_lt_Some in Hp as Hplt. apply (ho_map _ _ _ _ H) in HE as HE'. destruct HE' as [Ee _].
  assert (forall q, name_at (<[p := Some d]> table) q = name_at table q) as Hkeys.
  { intros q. rewrite name_at_insert by done. destruct (decide (q = p)) as [->|]; [|done]. unfold name_at. by rewrite Hp. }
  split; [apply H| | |].
  - eapply Probe.table_inv_key; [intros i _; symmetry; apply Hkeys|]. rewrite (as_slots_insert _ _ _ _ Hp), list_insert_id; [apply H|].
    unfold as_slots. by rewrite list_lookup_imap, Hp.
  - assert (forall q x, q ∈ reg -> table !! q = Some (Some x) -> d_name x = d_name d -> q = p) as Huniq.
    { intros q x Hq Hx Ex. apply (ho_unique _ _ _ _ H); [done..|]. unfold name_at. by rewrite Hx, Hp, Ex, Ee. }
    intros name x. destruct (decide (name = d_name d)) as [->|Hne].
    + rewrite lookup_insert_eq. split.
      * intros [= <-]. split; [done|]. exists p. split; [done|]. by apply list_lookup_insert_eq.
      * intros (Ex & q & Hq & Hx). destruct (decide (q = p)) as [->|Hqp]; [rewrite list_lookup_insert_eq in Hx by done; congruence|].
        rewrite list_lookup_insert_ne in Hx by done. by destruct (Huniq q x Hq Hx Ex).
    + rewrite lookup_insert_ne by done. rewrite (ho_map _ _ _ _ H). split; intros (Ex & q & Hq & Hx); (split; [done|]); exists q; (split; [done|]).
      * rewrite list_lookup_insert_ne; [done|]. intros ->. congruence.
      * destruct (decide (q = p)) as [->|Hqp]; [rewrite list_lookup_insert_eq in Hx by done; congruence|]. by rewrite list_lookup_insert_ne in Hx.
  - intros q q' Hq Hq' Eq. rewrite !Hkeys in Eq. by apply (ho_unique _ _ _ _ H).
Qed.

Lemma gc_insert_definition_ok m table reg E d : holds m table reg E -> (length reg < m)%nat ->
  exists res, gc_insert_definition table d = Ret res /\
    match add_definition E d with
    | None => res = None
    | Some E' => exists table' reg', res = Some table' /\ holds m table' reg' E' /\ (length reg' <= S (length reg))%nat
    end.
Proof.
  intros H Hl. unfold gc_insert_definition, add_definition, prefer.
  destruct (gc_probe_name_ok m table reg E (d_name d) H Hl) as (p & Ep & Hp & Hcase). rewrite Ep. cbn [obind].
  destruct (E !! d_name d) as [e|] eqn:HE.
  - destruct Hcase as [Hin Ht]. destruct (d_is_runtime_default e) eqn:De, (d_is_runtime_default d) eqn:Dd; cbn; eexists; (split; [done|]); try done.
    + eexists _, reg. split; [done|]. split; [by eapply holds_replace|lia].
    + exists table, reg. split; [done|]. split; [by rewrite insert_id|lia].
  - destruct Hcase as (Ht & dist & Hd & E1 & E2). eexists. split; [done|]. eexists _, (reg ++ [p]). split; [done|]. split; [by eapply holds_new|].
    rewrite length_app. cbn. lia.
Qed.

(** * The definitions of the objects *)

Definition object_definitions (oi : nat) (input : LinkedInputObject) : list GcDefinition :=
  omap (gc_definition oi (length (input_sections input)) (i_is_runtime_default input)) (input_symbols input).

Fixpoint definitions_of (inputs : list LinkedInputObject) (oi : nat) : list GcDefinition :=
  match inputs with [] => [] | input :: inputs => object_definitions oi input ++ definitions_of inputs (S oi) end.

Lemma add_definitions_app E l l' : add_definitions E (l ++ l') = E' ← add_definitions E l; add_definitions E' l'.
Proof. revert E. induction l as [|d l IH]; intros E; [done|]. cbn. destruct (add_definition E d); [apply IH|done]. Qed.

(** The table after more definitions, when they do not clash. *)
Definition holds_after (m : nat) (n : nat) (E : option (gmap cstring GcDefinition)) (res : option (list (option GcDefinition))) : Prop :=
  match E with None => res = None | Some E => exists table reg, res = Some table /\ holds m table reg E /\ (length reg <= n)%nat end.

Lemma gc_define_ok m oi n b ys : forall table reg E, holds m table reg E -> (length reg + length ys < m)%nat ->
  exists res, gc_define oi n b ys table = Ret res /\ holds_after m (length reg + length ys) (add_definitions E (omap (gc_definition oi n b) ys)) res.
Proof.
  induction ys as [|y ys IH]; intros table reg E H Hl; cbn [gc_define omap list_omap length] in *.
  { eexists. split; [done|]. exists table, reg. split; [done|]. split; [done|lia]. }
  destruct (gc_definition oi n b y) as [d|].
  - destruct (gc_insert_definition_ok m table reg E d H) as (res & E1 & Hres); [lia|]. rewrite E1. cbn [obind add_definitions].
    destruct (add_definition E d) as [E'|]; [|subst res; by exists None]. destruct Hres as (table' & reg' & -> & H' & Hl').
    destruct (IH table' reg' E' H') as (res & E2 & Hres); [lia|]. exists res. split; [done|]. cbn. destruct (add_definitions E' _); [|done].
    destruct Hres as (t2 & r2 & -> & H2 & L2). exists t2, r2. split; [done|]. split; [done|lia].
  - destruct (IH table reg E H) as (res & E2 & Hres); [lia|]. exists res. split; [done|]. destruct (add_definitions E _); [|done].
    destruct Hres as (t2 & r2 & -> & H2 & L2). exists t2, r2. split; [done|]. split; [done|lia].
Qed.

(** What preparing makes of an object. *)
Definition prepared (input : LinkedInputObject) : LinkedInputObject :=
  match i_object input with Some o => with_referenced (flags (length (o_symbols o))) input | None => input end.
Definition prepared_row (input : LinkedInputObject) : list bool := match i_object input with Some o => flags (length (o_sections o)) | None => [] end.

Lemma gc_prepare_ok m inputs : forall oi table reg E h, holds m table reg E -> (length reg + total (fun i => length (input_symbols i)) inputs < m)%nat ->
  exists res h', gc_prepare inputs oi table h = Ret (res, h') /\
    (generous h -> generous h' /\ (add_definitions E (definitions_of inputs oi) <> None -> res <> None)) /\
    forall live inputs' table', res = Some (live, inputs', table') -> live = prepared_row <$> inputs /\ inputs' = prepared <$> inputs /\
      exists E' reg', add_definitions E (definitions_of inputs oi) = Some E' /\ holds m table' reg' E' /\
        (length reg' <= length reg + total (fun i => length (input_symbols i)) inputs)%nat.
Proof.
  induction inputs as [|input inputs IH]; intros oi table reg E h H Hl; cbn [gc_prepare definitions_of total foldr fmap list_fmap] in *.
  { eexists _, h. split; [done|]. split; [done|]. intros live inputs' table' [= <- <- <-]. split; [done|]. split; [done|]. exists E, reg. split; [done|]. split; [done|lia]. }
  fold (total (fun i => length (input_symbols i)) inputs) in *. set (k := length (input_symbols input)) in *.
  assert (exists one h1, match i_object input with
      | None => Ret (Some ([], input, table), h)
      | Some o => let (a, h) := alloc h in let (b, h) := alloc h in
          if negb (a && b) then Ret (None, h)
          else let! table := gc_define oi (length (o_sections o)) (i_is_runtime_default input) (o_symbols o) table in
            Ret (match table with None => None | Some table => Some (flags (length (o_sections o)), with_referenced (flags (length (o_symbols o))) input, table) end, h)
      end = Ret (one, h1) /\ (generous h -> generous h1 /\ (add_definitions E (object_definitions oi input) <> None -> one <> None)) /\
      forall row input' table', one = Some (row, input', table') -> row = prepared_row input /\ input' = prepared input /\
        exists E' reg', add_definitions E (object_definitions oi input) = Some E' /\ holds m table' reg' E' /\ (length reg' <= length reg + k)%nat) as (one & h1 & E1 & Hg & Hone).
  { subst k. unfold prepared_row, prepared, object_definitions, input_sections, input_symbols in *. destruct (i_object input) as [o|].
    - unfold alloc. cbn [heap_grants heap_calls]. destruct (_ && _) eqn:Eab; cbn [negb].
      + destruct (gc_define_ok m oi (length (o_sections o)) (i_is_runtime_default input) (o_symbols o) table reg E H) as (res & E1 & Hres); [lia|].
        rewrite E1. cbn [obind]. eexists _, _. split; [done|]. unfold holds_after in Hres. destruct (add_definitions E _) as [E'|].
        * destruct Hres as (t & r & -> & Ht & Hr). split; [done|]. intros row input' table' [= <- <- <-]. split; [done|]. split; [done|]. by exists E', r.
        * subst res. split; [intros Hh; split; [exact Hh|done]|done].
      + eexists _, _. split; [done|]. split; [|done]. intros Hh. rewrite !Hh in Eab. done.
    - eexists _, h. split; [done|]. split; [done|]. intros row input' table' [= <- <- <-]. split; [done|]. split; [done|]. exists E, reg. split; [done|]. split; [done|lia]. }
  rewrite E1. cbn [obind]. rewrite add_definitions_app. destruct one as [[[row input'] table']|].
  - destruct (Hone row input' table' eq_refl) as (-> & -> & E' & reg' & -> & H' & Hl'). cbn [mbind option_bind].
    destruct (IH (S oi) table' reg' E' h1 H') as (rest & h2 & E2 & Hg2 & Hrest); [lia|]. rewrite E2. cbn [obind]. eexists _, h2. split; [done|]. split.
    + intros Hh. destruct (Hg Hh) as [Hh1 _]. destruct (Hg2 Hh1) as [Hh2 Hne]. split; [done|]. intros HE. specialize (Hne HE). by destruct rest as [[[??]?]|].
    + intros live inputs' table2 Er. destruct rest as [[[l2 i2] t2]|]; [|done]. injection Er as <- <- <-.
      destruct (Hrest l2 i2 t2 eq_refl) as (-> & -> & E2' & r2 & HE & H2 & L2). split; [done|]. split; [done|]. exists E2', r2. split; [done|]. split; [done|lia].
  - eexists _, h1. split; [done|]. split; [|done]. intros Hh. destruct (Hg Hh) as [Hh1 Hne]. split; [done|]. intros HE. destruct Hne; [|done]. intros E0. by rewrite E0 in HE.
Qed.
End SectionGcCorrect.
