(* ===== verification/SectionGcReach.v ===== *)
(** What is kept is exactly what can be reached from the roots. *)
From S2P Require Import Prelude Probe LinkObjects LinkObjectsCorrect SectionGc SectionGcCorrect.
From stdpp Require Import gmap.
#[local] Open Scope Z_scope.

Module SectionGcReach.
Import LinkObjects LinkObjectsCorrect SectionGc SectionGcCorrect.

(** * Reachability *)

Definition section_at (inputs : list LinkedInputObject) (oi i : nat) (s : LinkSection) : Prop :=
  exists input, inputs !! oi = Some input /\ input_sections input !! i = Some s.

(** The section a relocation of an object refers to: that of the symbol, or
    that of the definition of an undefined symbol. *)
Definition refers (E : gmap cstring GcDefinition) (o : LinkObject) (oi : nat) (rel : LinkReloc) : option (nat * nat) :=
  y ← o_symbols o !! Z.to_nat (r_symbol_index rel);
  if y_is_auxiliary y then None
  else if (0 <=? y_section_index y) && (y_section_index y <? Z.of_nat (length (o_sections o))) then Some (oi, Z.to_nat (y_section_index y))
  else if y_section_index y =? LINK_SECTION_INDEX_UNDEFINED then name ← y_name y; d ← E !! name; Some (d_object_index d, d_section_index d)
  else None.

Definition entry_definition (E : gmap cstring GcDefinition) (entry : option cstring) : option GcDefinition :=
  name ← entry; if is_empty name then None else E !! name.

Inductive needed (E : gmap cstring GcDefinition) (entry : option cstring) (inputs : list LinkedInputObject) : nat -> nat -> Prop :=
| needed_root oi i s : section_at inputs oi i s -> s_kind s <> LINK_SECTION_KIND_UNKNOWN -> link_section_is_gc_eligible s = false -> needed E entry inputs oi i
| needed_entry d : entry_definition E entry = Some d -> needed E entry inputs (d_object_index d) (d_section_index d)
| needed_refers oi i input o s rel oi' i' : needed E entry inputs oi i -> inputs !! oi = Some input -> i_object input = Some o -> o_sections o !! i = Some s ->
    rel ∈ s_relocations s -> refers E o oi rel = Some (oi', i') -> needed E entry inputs oi' i'.

(** * What the definitions found in the objects are *)

Lemma add_definitions_from ds : forall E E' name d, add_definitions E ds = Some E' -> E' !! name = Some d -> E !! name = Some d \/ d ∈ ds.
Proof.
  induction ds as [|x ds IH]; intros E E' name d; cbn [add_definitions]; [intros [= <-]; by left|].
  destruct (add_definition E x) as [E1|] eqn:E1'; [|done]. cbn [mbind option_bind]. intros H Hn. destruct (IH E1 E' name d H Hn) as [Hd|Hd]; [|right; by right].
  assert (E1 !! name = E !! name \/ E1 !! name = Some x) as [<- | Hx]; [|by left|assert (x = d) as <- by congruence; right; by left].
  unfold add_definition in E1'. destruct (E !! d_name x) as [e|] eqn:Ee.
  - destruct (prefer e x) as [d'|] eqn:Ep; [|done]. injection E1' as <-. destruct (decide (name = d_name x)) as [->|Hne]; [|left; by rewrite lookup_insert_ne].
    rewrite lookup_insert_eq, Ee. unfold prefer in Ep. destruct (eqb _ _); [done|]. injection Ep as <-. destruct (d_is_runtime_default e); [by right|by left].
  - injection E1' as <-. destruct (decide (name = d_name x)) as [->|Hne]; [right; by rewrite lookup_insert_eq|left; by rewrite lookup_insert_ne].
Qed.

Lemma gc_definition_Some oi n b y d : gc_definition oi n b y = Some d <->
  y_is_auxiliary y = false /\ y_is_external y = true /\ 0 <= y_section_index y < Z.of_nat n /\ exists name, y_name y = Some name /\
    d = mkDefinition name oi (Z.to_nat (y_section_index y)) b.
Proof.
  unfold gc_definition. destruct (y_is_auxiliary y); [by split; [|intros (? & _)]|]. destruct (y_name y) as [name|]; [|by split; [|intros (_&_&_&?&?&_)]].
  destruct (y_is_external y); cbn [negb orb]; [|by split; [|intros (_&?&_)]]. destruct (Z.ltb_spec (y_section_index y) 0); cbn [orb]; [split; [done|intros (_&_&?&_); lia]|].
  destruct (Z.leb_spec (Z.of_nat n) (y_section_index y)); [split; [done|intros (_&_&?&_); lia]|].
  split; [intros [= <-]; split; [done|]; split; [done|]; split; [lia|]; by exists name|]. intros (_&_&_&name'&[= <-]&->). done.
Qed.

Lemma definitions_of_In inputs : forall oi d, d ∈ definitions_of inputs oi <->
  exists k input y, inputs !! k = Some input /\ y ∈ input_symbols input /\ gc_definition (oi + k) (length (input_sections input)) (i_is_runtime_default input) y = Some d.
Proof.
  induction inputs as [|input inputs IH]; intros oi d; cbn [definitions_of].
  { split; [by intros ?%not_elem_of_nil|]. intros (k & ? & ? & H & _). by rewrite lookup_nil in H. }
  rewrite elem_of_app, IH. unfold object_definitions. rewrite list_elem_of_omap. split.
  - intros [(y & Hy & E)|(k & input' & y & Hk & Hy & E)].
    + exists 0%nat, input, y. rewrite Nat.add_0_r. done.
    + exists (S k), input', y. rewrite Nat.add_succ_r. done.
  - intros ([|k] & input' & y & Hk & Hy & E).
    + injection Hk as <-. rewrite Nat.add_0_r in E. left. by exists y.
    + rewrite Nat.add_succ_r in E. right. by exists k, input', y.
Qed.

Lemma definition_section inputs E name d : add_definitions ∅ (definitions_of inputs 0) = Some E -> E !! name = Some d ->
  exists s, section_at inputs (d_object_index d) (d_section_index d) s.
Proof.
  intros HE Hd. destruct (add_definitions_from _ _ _ _ _ HE Hd) as [H|H]; [by rewrite lookup_empty in H|].
  apply definitions_of_In in H as (k & input & y & Hk & _ & Hg). apply gc_definition_Some in Hg as (_&_&Hs&name'&_&->). cbn.
  destruct (lookup_lt_is_Some_2 (input_sections input) (Z.to_nat (y_section_index y))) as [s Hsec]; [lia|]. by exists s, input.
Qed.

(** * The sections, counted *)

Fixpoint all_sections (inputs : list LinkedInputObject) (oi : nat) : list (nat * nat) :=
  match inputs with [] => [] | input :: inputs => ((fun i => (oi, i)) <$> seq 0 (length (input_sections input))) ++ all_sections inputs (S oi) end.

Lemma all_sections_length inputs : forall oi, length (all_sections inputs oi) = total (fun input => length (input_sections input)) inputs.
Proof. induction inputs as [|input inputs IH]; intros oi; [done|]. cbn [all_sections total foldr]. rewrite length_app, length_fmap, length_seq, IH. done. Qed.

Lemma all_sections_In inputs : forall oi k i s, section_at inputs k i s -> (oi + k, i)%nat ∈ all_sections inputs oi.
Proof.
  induction inputs as [|input inputs IH]; intros oi k i s (x & Hk & Hi); [by rewrite lookup_nil in Hk|]. cbn [all_sections]. apply elem_of_app. destruct k as [|k].
  - injection Hk as <-. left. rewrite Nat.add_0_r. apply list_elem_of_fmap. exists i. split; [done|]. apply elem_of_seq. apply lookup_lt_Some in Hi. lia.
  - right. rewrite Nat.add_succ_r. apply (IH (S oi) k i s). by exists x.
Qed.

(** * Marking *)

Section Mark.
Context (inputs : list LinkedInputObject) (E : gmap cstring GcDefinition) (entry : option cstring).
Context (HE : forall name d, E !! name = Some d -> exists s, section_at inputs (d_object_index d) (d_section_index d) s).

#[local] Abbreviation T := (total (fun input => length (input_sections input)) inputs).

Definition is_section (x : nat * nat) : Prop := exists s, section_at inputs (fst x) (snd x) s.
Definition marked (s : marks) (x : nat * nat) : Prop := exists row, live s !! fst x = Some row /\ row !! snd x = Some true.

Record marks_ok (s : marks) : Prop := {
  mo_rows : forall oi input, inputs !! oi = Some input -> exists row, live s !! oi = Some row /\ (length (input_sections input) <= length row)%nat;
  mo_exact : forall x, is_section x -> marked s x <-> x ∈ worklist s;
  mo_sections : forall x, x ∈ worklist s -> is_section x;
  mo_nodup : NoDup (worklist s);
  mo_needed : forall x, x ∈ worklist s -> needed E entry inputs (fst x) (snd x)
}.

Definition extends (s s' : marks) : Prop := exists l, worklist s' = worklist s ++ l.

Lemma marks_extends_refl s : extends s s.
Proof using. exists []. by rewrite app_nil_r. Qed.
Lemma marks_extends_trans s s1 s2 : extends s s1 -> extends s1 s2 -> extends s s2.
Proof using. intros [l El] [l2 El2]. exists (l ++ l2). by rewrite El2, El, app_assoc. Qed.
Lemma extends_In s s' x : extends s s' -> x ∈ worklist s -> x ∈ worklist s'.
Proof using. intros [l ->] H. apply elem_of_app. by left. Qed.

Lemma worklist_bound l : NoDup l -> (forall x, x ∈ l -> is_section x) -> (length l <= T)%nat.
Proof using.
  intros Hnd Hl. rewrite <- (all_sections_length inputs 0). apply submseteq_length, NoDup_submseteq; [done|].
  intros [oi i] Hx. destruct (Hl _ Hx) as [s Hs]. by apply (all_sections_In inputs 0 oi i s).
Qed.

Lemma gc_mark_ok s oi i : marks_ok s -> is_section (oi, i) -> needed E entry inputs oi i ->
  exists s', gc_mark T s oi i = Ret s' /\ marks_ok s' /\ extends s s' /\ (oi, i) ∈ worklist s'.
Proof using.
  intros Hok Hsec Hn. pose proof Hsec as (x & input & Hin & Hi). cbn in Hin, Hi. destruct (mo_rows _ Hok oi input Hin) as (row & Hrow & Hlen).
  apply lookup_lt_Some in Hi as Hlt. destruct (lookup_lt_is_Some_2 row i) as [b Hb]; [lia|].
  unfold gc_mark. rewrite (get_nat _ _ _ Hrow). cbn [obind]. rewrite (get_nat _ _ _ Hb). cbn [obind]. destruct b.
  { exists s. split; [done|]. split; [done|]. split; [apply marks_extends_refl|]. apply (mo_exact _ Hok); [done|]. by exists row. }
  assert ((oi, i) ∉ worklist s) as Hnew.
  { intros H. apply (mo_exact _ Hok) in H; [|done]. destruct H as (row' & H1 & H2). cbn in *. congruence. }
  rewrite put_nat by lia. cbn [obind]. apply lookup_lt_Some in Hrow as Hoi. rewrite put_nat by done. cbn [obind].
  assert (forall x, x ∈ worklist s ++ [(oi, i)] -> is_section x) as Hsecs.
  { intros y [Hy| ->%list_elem_of_singleton]%elem_of_app; [by apply (mo_sections _ Hok)|done]. }
  assert (NoDup (worklist s ++ [(oi, i)])) as Hnd.
  { apply NoDup_app. split; [apply Hok|]. split; [|apply NoDup_singleton]. by intros y Hy ->%list_elem_of_singleton. }
  pose proof (worklist_bound _ Hnd Hsecs) as Hb2. rewrite length_app in Hb2. cbn in Hb2. rewrite (proj2 (Nat.leb_gt _ _)) by lia.
  eexists. split; [done|]. split; [split; cbn [live worklist]|].
  - intros oi' input' Hin'. destruct (decide (oi' = oi)) as [->|Hne].
    + exists (<[i := true]> row). rewrite list_lookup_insert_eq by done. rewrite length_insert. split; [done|]. congruence.
    + rewrite list_lookup_insert_ne by done. by apply (mo_rows _ Hok).
  - intros [o' i'] Hx. rewrite elem_of_app, <- (mo_exact _ Hok) by done. unfold marked. cbn [live fst snd]. destruct (decide (o' = oi)) as [->|Hne].
    + rewrite list_lookup_insert_eq by done. destruct (decide (i' = i)) as [->|Hni].
      * split; [intros _; right; by left|]. intros _. exists (<[i := true]> row). split; [done|]. apply list_lookup_insert_eq. lia.
      * split.
        -- intros (r & [= <-] & Hr). rewrite list_lookup_insert_ne in Hr by done. left. by exists row.
        -- intros [(r & Hr1 & Hr2)|[= ->]%list_elem_of_singleton]; [|done]. exists (<[i := true]> row). split; [done|].
           rewrite list_lookup_insert_ne by done. congruence.
    + rewrite list_lookup_insert_ne by done. split; [by left|]. intros [H|[= -> _]%list_elem_of_singleton]; done.
  - done.
  - done.
  - intros y [Hy| ->%list_elem_of_singleton]%elem_of_app; [by apply (mo_needed _ Hok)|done].
  - split; [by exists [(oi, i)]|]. apply elem_of_app. right. by left.
Qed.

(** ** The roots *)

Lemma gc_mark_roots_ok oi input ss : inputs !! oi = Some input -> forall i s, (forall j x, ss !! j = Some x -> input_sections input !! (i + j)%nat = Some x) -> marks_ok s ->
  exists s', gc_mark_roots T oi ss i s = Ret s' /\ marks_ok s' /\ extends s s' /\
    forall j x, ss !! j = Some x -> s_kind x <> LINK_SECTION_KIND_UNKNOWN -> link_section_is_gc_eligible x = false -> (oi, i + j)%nat ∈ worklist s'.
Proof using.
  intros Hin. induction ss as [|x ss IH]; intros i s Hss Hok; cbn [gc_mark_roots].
  { exists s. split; [done|]. split; [done|]. split; [apply marks_extends_refl|]. intros j x Hj. by rewrite lookup_nil in Hj. }
  pose proof (Hss 0%nat x eq_refl) as Hx. rewrite Nat.add_0_r in Hx.
  assert (exists s1, (if bool_decide (s_kind x = LINK_SECTION_KIND_UNKNOWN) || link_section_is_gc_eligible x then Ret s else gc_mark T s oi i) = Ret s1 /\ marks_ok s1 /\ extends s s1 /\
    (s_kind x <> LINK_SECTION_KIND_UNKNOWN -> link_section_is_gc_eligible x = false -> (oi, i) ∈ worklist s1)) as (s1 & E1 & Hok1 & Hex1 & Hr).
  { case_bool_decide as Hk; cbn [orb]; [exists s; split; [done|split; [done|split; [apply marks_extends_refl|done]]]|].
    destruct (link_section_is_gc_eligible x) eqn:Eg; [exists s; split; [done|split; [done|split; [apply marks_extends_refl|done]]]|].
    assert (section_at inputs oi i x) as Hsec by (by exists input).
    destruct (gc_mark_ok s oi i Hok) as (s1 & E1 & H1 & H2 & H3); [by exists x|by eapply needed_root|]. by exists s1. }
  rewrite E1. cbn [obind]. destruct (IH (S i) s1) as (s2 & E2 & Hok2 & Hex2 & Hr2); [|done|].
  { intros j y Hj. rewrite Nat.add_succ_comm. by apply Hss. }
  exists s2. split; [done|]. split; [done|]. split; [by eapply marks_extends_trans|]. intros [|j] y Hj Hk Hg.
  - injection Hj as <-. rewrite Nat.add_0_r. eapply extends_In; [exact Hex2|]. by apply Hr.
  - rewrite <- Nat.add_succ_comm. by apply (Hr2 j y).
Qed.

Lemma gc_mark_all_roots_ok ins : forall oi s, (forall k input, ins !! k = Some input -> exists input0, inputs !! (oi + k)%nat = Some input0 /\ input_sections input = input_sections input0) -> marks_ok s ->
  exists s', gc_mark_all_roots T ins oi s = Ret s' /\ marks_ok s' /\ extends s s' /\
    forall k input i x, ins !! k = Some input -> input_sections input !! i = Some x -> s_kind x <> LINK_SECTION_KIND_UNKNOWN -> link_section_is_gc_eligible x = false ->
      (oi + k, i)%nat ∈ worklist s'.
Proof using.
  induction ins as [|input ins IH]; intros oi s Hins Hok; cbn [gc_mark_all_roots].
  { exists s. split; [done|]. split; [done|]. split; [apply marks_extends_refl|]. intros k input i x Hk. by rewrite lookup_nil in Hk. }
  destruct (Hins 0%nat input eq_refl) as (input0 & H0 & Es). rewrite Nat.add_0_r in H0.
  destruct (gc_mark_roots_ok oi input0 (input_sections input) H0 0 s) as (s1 & E1 & Hok1 & Hex1 & Hr); [intros j x Hj; cbn; by rewrite <- Es|done|].
  rewrite E1. cbn [obind]. destruct (IH (S oi) s1) as (s2 & E2 & Hok2 & Hex2 & Hr2); [|done|].
  { intros k input' Hk. destruct (Hins (S k) input' Hk) as (i0 & H & ?). exists i0. by rewrite Nat.add_succ_r in H. }
  exists s2. split; [done|]. split; [done|]. split; [by eapply marks_extends_trans|]. intros [|k] input' i x Hk Hi Hkd Hg.
  - injection Hk as <-. rewrite Nat.add_0_r. eapply extends_In; [exact Hex2|]. by apply (Hr i x).
  - rewrite Nat.add_succ_r. by apply (Hr2 k input' i x).
Qed.

(** ** Following relocations *)

Context (m : nat) (table : list (option GcDefinition)) (reg : list nat).
Context (Htable : holds m table reg E) (Hroom : (length reg < m)%nat).

Lemma gc_find_definition_ok name : gc_find_definition table name = Ret (E !! name).
Proof using Htable Hroom.
  unfold gc_find_definition. destruct (gc_probe_name_ok _ _ _ _ name Htable Hroom) as (p & -> & _). done.
Qed.

Lemma gc_mark_definition_ok s name : marks_ok s -> (forall d, E !! name = Some d -> needed E entry inputs (d_object_index d) (d_section_index d)) ->
  exists s', gc_mark_definition T table name s = Ret s' /\ marks_ok s' /\ extends s s' /\
    forall d, E !! name = Some d -> (d_object_index d, d_section_index d) ∈ worklist s'.
Proof using Htable Hroom HE.
  intros Hok Hn. unfold gc_mark_definition. rewrite gc_find_definition_ok. cbn [obind]. destruct (E !! name) as [d|] eqn:Ed.
  - destruct (gc_mark_ok s (d_object_index d) (d_section_index d) Hok) as (s' & E1 & H1 & H2 & H3); [by apply (HE name)|by apply Hn|].
    exists s'. split; [done|]. split; [done|]. split; [done|]. by intros d' [= <-].
  - exists s. split; [done|]. split; [done|]. split; [apply marks_extends_refl|done].
Qed.

(** Does a relocation of this list mention the symbol? *)
Definition mentions (rels : list LinkReloc) (y : nat) : Prop := exists rel, rel ∈ rels /\ r_symbol_index rel = Z.of_nat y.

Lemma gc_follow_ok o oi input : inputs !! oi = Some input -> i_object input = Some o -> forall rels i x referenced s,
  o_sections o !! i = Some x -> (forall rel, rel ∈ rels -> rel ∈ s_relocations x /\ 0 <= r_symbol_index rel) -> needed E entry inputs oi i -> marks_ok s ->
  (length (o_symbols o) <= length referenced)%nat ->
  exists referenced' s', gc_follow T table o oi rels referenced s = Ret (referenced', s') /\ marks_ok s' /\ extends s s' /\ length referenced' = length referenced /\
    (forall rel z, rel ∈ rels -> refers E o oi rel = Some z -> z ∈ worklist s') /\
    (forall y, (y < length (o_symbols o))%nat -> referenced' !! y = Some true <-> referenced !! y = Some true \/ mentions rels y).
Proof using Htable Hroom HE.
  intros Hin Ho rels i x. induction rels as [|rel rels IH]; intros referenced s Hx Hrels Hn Hok Hl; cbn [gc_follow].
  { exists referenced, s. split; [done|]. split; [done|]. split; [apply marks_extends_refl|]. split; [done|]. split; [by intros ? ? ?%not_elem_of_nil|].
    intros y _. split; [by left|]. by intros [?|(r & ?%not_elem_of_nil & _)]. }
  destruct (Hrels rel ltac:(by left)) as [Hrel Hpos]. assert (forall r, r ∈ rels -> r ∈ s_relocations x /\ 0 <= r_symbol_index r) as Hrels' by (intros r Hr; apply Hrels; by right).
  assert (forall y, mentions (rel :: rels) y <-> r_symbol_index rel = Z.of_nat y \/ mentions rels y) as Hment.
  { intros y. unfold mentions. setoid_rewrite elem_of_cons. naive_solver. }
  set (k := Z.to_nat (r_symbol_index rel)). assert (r_symbol_index rel = Z.of_nat k) as Ek by (unfold k; lia).
  destruct (Z.leb_spec (Z.of_nat (length (o_symbols o))) (r_symbol_index rel)) as [Hge|Hlt].
  { destruct (IH referenced s Hx Hrels' Hn Hok Hl) as (ref' & s' & E1 & H1 & H2 & H3 & H4 & H5). exists ref', s'. do 4 (split; [done|]). split.
    - intros r z [-> |Hr]%elem_of_cons Hz; [|by apply (H4 r)]. unfold refers in Hz. fold k in Hz. by rewrite lookup_ge_None_2 in Hz by lia.
    - intros y Hy. rewrite Hment, (H5 y Hy). intuition lia. }
  destruct (lookup_lt_is_Some_2 (o_symbols o) k) as [y Hy]; [lia|]. rewrite Ek, put_nat by lia. cbn [obind]. rewrite (get_nat _ _ _ Hy). cbn [obind].
  set (next := if y_is_auxiliary y then Ret s else _).
  assert (exists s1, next = Ret s1 /\ marks_ok s1 /\ extends s s1 /\ forall z, refers E o oi rel = Some z -> z ∈ worklist s1) as (s1 & E1 & Hok1 & Hex1 & Hz1).
  { assert (forall z, refers E o oi rel = Some z -> needed E entry inputs (fst z) (snd z)) as Hneed by (intros [oi' i'] Hz; by eapply needed_refers).
    assert (refers E o oi rel = (y' ← o_symbols o !! k;
      if y_is_auxiliary y' then None else if (0 <=? y_section_index y') && (y_section_index y' <? Z.of_nat (length (o_sections o))) then Some (oi, Z.to_nat (y_section_index y'))
      else if y_section_index y' =? LINK_SECTION_INDEX_UNDEFINED then name ← y_name y'; d ← E !! name; Some (d_object_index d, d_section_index d) else None)) as Eref by done.
    rewrite Hy in Eref. cbn [mbind option_bind] in Eref. subst next.
    destruct (y_is_auxiliary y); [exists s; split; [done|split; [done|split; [apply marks_extends_refl|by rewrite Eref]]]|].
    destruct ((0 <=? y_section_index y) && (y_section_index y <? Z.of_nat (length (o_sections o)))) eqn:Ein.
    { destruct (gc_mark_ok s oi (Z.to_nat (y_section_index y)) Hok) as (s1 & E1 & H1 & H2 & H3); [|by apply (Hneed _ Eref)|].
      - destruct (lookup_lt_is_Some_2 (o_sections o) (Z.to_nat (y_section_index y))) as [x' Hx']; [lia|]. exists x', input. unfold input_sections. by rewrite Ho.
      - exists s1. rewrite Eref. split; [done|]. split; [done|]. split; [done|]. by intros z [= <-]. }
    destruct (y_section_index y =? LINK_SECTION_INDEX_UNDEFINED); [|exists s; rewrite Eref; split; [done|split; [done|split; [apply marks_extends_refl|done]]]].
    destruct (y_name y) as [name|]; [|exists s; rewrite Eref; split; [done|split; [done|split; [apply marks_extends_refl|done]]]]. cbn [mbind option_bind] in Eref.
    destruct (gc_mark_definition_ok s name Hok) as (s1 & E1 & H1 & H2 & H3).
    { intros d Ed. rewrite Ed in Eref. by apply (Hneed _ Eref). }
    exists s1. split; [done|]. split; [done|]. split; [done|]. intros z Hz. rewrite Eref in Hz. destruct (E !! name) as [d|]; [|done]. injection Hz as <-. by apply H3. }
  rewrite E1. cbn [obind]. destruct (IH (<[k := true]> referenced) s1 Hx Hrels' Hn Hok1) as (ref' & s' & E2 & H1 & H2 & H3 & H4 & H5); [by rewrite length_insert|].
  exists ref', s'. split; [done|]. split; [done|]. split; [by eapply marks_extends_trans|]. split; [by rewrite H3, length_insert|]. split.
  - intros r z [-> |Hr]%elem_of_cons Hz; [eapply extends_In; [done|by apply Hz1]|by apply (H4 r)].
  - intros j Hj. rewrite Hment, (H5 j Hj). destruct (decide (j = k)) as [->|Hne].
    + rewrite list_lookup_insert_eq by lia. intuition.
    + rewrite list_lookup_insert_ne by done. assert (r_symbol_index rel <> Z.of_nat j) by lia. intuition.
Qed.

(** ** The work list *)

(** Has a section of the work list before [p] a relocation that mentions this
    symbol of this object? *)
Definition mentioned (s : marks) (p oi y : nat) : Prop :=
  exists j i input x, (j < p)%nat /\ worklist s !! j = Some (oi, i) /\ inputs !! oi = Some input /\ input_sections input !! i = Some x /\ mentions (s_relocations x) y.

(** An object when the items before [p] have been followed. *)
Definition followed (s : marks) (p oi : nat) (input0 input : LinkedInputObject) : Prop :=
  match i_object input0 with
  | None => input = input0
  | Some o => exists l, input = with_referenced l input0 /\ (length (o_symbols o) <= length l)%nat /\
      forall y, (y < length (o_symbols o))%nat -> l !! y = Some true <-> mentioned s p oi y
  end.

Record following (s : marks) (p : nat) (ins : list LinkedInputObject) : Prop := {
  fo_marks : marks_ok s;
  fo_count : (p <= length (worklist s))%nat;
  fo_length : length ins = length inputs;
  fo_inputs : forall oi input0, inputs !! oi = Some input0 -> exists input, ins !! oi = Some input /\ followed s p oi input0 input;
  fo_closed : forall j oi i input o x rel z, (j < p)%nat -> worklist s !! j = Some (oi, i) -> inputs !! oi = Some input -> i_object input = Some o ->
    o_sections o !! i = Some x -> rel ∈ s_relocations x -> refers E o oi rel = Some z -> z ∈ worklist s
}.

Definition relocations_ok : Prop := forall oi i x rel, section_at inputs oi i x -> rel ∈ s_relocations x -> 0 <= r_symbol_index rel.

Lemma extends_lookup s s' j z : extends s s' -> (j < length (worklist s))%nat -> worklist s' !! j = Some z <-> worklist s !! j = Some z.
Proof using. intros [l ->] Hj. by rewrite lookup_app_l. Qed.

Lemma section_object input i x o : input_sections input !! i = Some x -> i_object input = Some o -> o_sections o !! i = Some x.
Proof using. unfold input_sections. intros H E1. by rewrite E1 in H. Qed.

Lemma follow_item s p ins oi i : relocations_ok -> following s p ins -> worklist s !! p = Some (oi, i) ->
  exists input0 o x referenced referenced' s', inputs !! oi = Some input0 /\ i_object input0 = Some o /\ o_sections o !! i = Some x /\
    ins !! oi = Some (with_referenced referenced input0) /\ gc_follow T table o oi (s_relocations x) referenced s = Ret (referenced', s') /\
    following s' (S p) (<[oi := with_referenced referenced' input0]> ins).
Proof using Htable Hroom HE.
  intros Hrels Hf Hp. pose proof (fo_marks _ _ _ Hf) as Hok. pose proof (list_elem_of_lookup_2 _ _ _ Hp) as Hin.
  destruct (mo_sections _ Hok _ Hin) as (x & input0 & H0 & Hx). cbn in H0, Hx. pose proof (mo_needed _ Hok _ Hin) as Hn. cbn in Hn.
  destruct (fo_inputs _ _ _ Hf oi input0 H0) as (input & Hi & Hfol). unfold followed in Hfol. destruct (i_object input0) as [o|] eqn:Eo; [|unfold input_sections in Hx; by rewrite Eo in Hx].
  destruct Hfol as (l & -> & Hl & Hment). pose proof (section_object _ _ _ _ Hx Eo) as Hxo.
  destruct (gc_follow_ok o oi input0 H0 Eo (s_relocations x) i x l s Hxo) as (l' & s' & E1 & H1 & H2 & H3 & H4 & H5); [|done|done|done|].
  { intros rel Hrel. split; [done|]. eapply Hrels; [|exact Hrel]. by exists input0. }
  exists input0, o, x, l, l', s'. do 4 (split; [done|]). split; [done|]. apply lookup_lt_Some in Hp as Hplt. apply lookup_lt_Some in Hi as Hilt.
  assert (length (worklist s) <= length (worklist s'))%nat as Hll by (destruct H2 as [w ->]; rewrite length_app; lia).
  assert (worklist s' !! p = Some (oi, i)) as Hp' by (by apply (extends_lookup s s')).
  assert (forall oi' y, mentioned s' (S p) oi' y <-> mentioned s p oi' y \/ (oi' = oi /\ mentions (s_relocations x) y)) as Hmore.
  { intros oi' y. unfold mentioned. split.
    - intros (j & i' & input & x' & Hj & Hw & Hi' & Hx' & Hm). apply (extends_lookup s s') in Hw; [|done|lia]. destruct (decide (j = p)) as [->|Hne].
      + right. rewrite Hp in Hw. injection Hw as <- <-. split; [done|]. congruence.
      + left. exists j, i', input, x'. split; [lia|done].
    - intros [(j & i' & input & x' & Hj & Hw & Hr)|[-> Hm]].
      + exists j, i', input, x'. split; [lia|]. split; [|done]. apply (extends_lookup s s'); [done|lia|done].
      + exists p, i, input0, x. split; [lia|]. done. }
  split.
  - done.
  - lia.
  - rewrite length_insert. apply Hf.
  - intros oi' input' Hin'. destruct (decide (oi' = oi)) as [->|Hne].
    + rewrite list_lookup_insert_eq by done. eexists. split; [done|]. assert (input' = input0) as -> by congruence. unfold followed. rewrite Eo.
      exists l'. split; [done|]. split; [lia|]. intros y Hy. rewrite (H5 y Hy), Hmore, (Hment y Hy). intuition.
    + rewrite list_lookup_insert_ne by done. destruct (fo_inputs _ _ _ Hf oi' input' Hin') as (input & Hi' & Hfol'). exists input. split; [done|].
      unfold followed in *. destruct (i_object input') as [o'|]; [|done]. destruct Hfol' as (l2 & -> & Hl2 & Hm2). exists l2. split; [done|]. split; [done|].
      intros y Hy. rewrite (Hm2 y Hy), Hmore. intuition.
  - intros j oi' i' input' o' x' rel z Hj Hw Hi' Ho' Hx' Hrel Hz. apply (extends_lookup s s') in Hw; [|done|lia]. destruct (decide (j = p)) as [->|Hne].
    + rewrite Hp in Hw. injection Hw as <- <-. assert (input' = input0) as -> by congruence. assert (o' = o) as -> by congruence. assert (x' = x) as -> by congruence.
      by apply (H4 rel).
    + eapply extends_In; [done|]. eapply (fo_closed _ _ _ Hf j oi' i'); [lia|done..].
Qed.

Lemma gc_process_ok fuel : relocations_ok -> forall s p ins, following s p ins -> (T - p < fuel)%nat ->
  exists ins' s', gc_process fuel T table ins p s = Ret (ins', s') /\ following s' (length (worklist s')) ins' /\ extends s s'.
Proof using Htable Hroom HE.
  intros Hrels. induction fuel as [|fuel IH]; intros s p ins Hf Hfuel; [lia|]. cbn [gc_process].
  destruct (worklist s !! p) as [[oi i]|] eqn:Hp.
  - destruct (follow_item s p ins oi i Hrels Hf Hp) as (input0 & o & x & l & l' & s1 & H0 & Ho & Hx & Hi & E1 & Hf1).
    rewrite (get_nat _ _ _ Hi). cbn [obind with_referenced i_object i_symbol_gc_referenced]. rewrite Ho, (get_nat _ _ _ Hx). cbn [obind]. rewrite E1. cbn [obind].
    change (with_referenced l' (with_referenced l input0)) with (with_referenced l' input0).
    assert (p < T)%nat. { pose proof (worklist_bound (worklist s) (mo_nodup _ (fo_marks _ _ _ Hf)) (mo_sections _ (fo_marks _ _ _ Hf))). apply lookup_lt_Some in Hp. lia. }
    destruct (IH s1 (S p) _ Hf1) as (ins' & s' & E2 & H2 & H3); [lia|]. exists ins', s'. split; [done|]. split; [done|]. eapply marks_extends_trans; [|done].
    assert (marks_ok s) as Hok by apply Hf. destruct (gc_follow_ok o oi input0 H0 Ho (s_relocations x) i x l s Hx) as (l2 & s2 & E3 & _ & H5 & _).
    { intros rel Hrel. split; [done|]. eapply Hrels; [|exact Hrel]. exists input0. unfold input_sections. by rewrite Ho. }
    { pose proof (list_elem_of_lookup_2 _ _ _ Hp) as Hin. by apply (mo_needed _ Hok _ Hin). }
    { done. }
    { destruct (fo_inputs _ _ _ Hf oi input0 H0) as (input & Hi' & Hfol). unfold followed in Hfol. rewrite Ho in Hfol. destruct Hfol as (l3 & -> & Hl3 & _).
      rewrite Hi in Hi'. injection Hi' as Hi'. by rewrite Hi'. }
    rewrite E1 in E3. by injection E3 as -> ->.
  - exists ins, s. split; [done|]. split; [|apply marks_extends_refl]. apply lookup_ge_None in Hp. pose proof (fo_count _ _ _ Hf).
    by replace (length (worklist s)) with p by lia.
Qed.

(** The work list closed under references is what is needed. *)
Lemma worklist_needed s ins : following s (length (worklist s)) ins ->
  (forall oi i x, section_at inputs oi i x -> s_kind x <> LINK_SECTION_KIND_UNKNOWN -> link_section_is_gc_eligible x = false -> (oi, i) ∈ worklist s) ->
  (forall d, entry_definition E entry = Some d -> (d_object_index d, d_section_index d) ∈ worklist s) ->
  forall oi i, needed E entry inputs oi i <-> (oi, i) ∈ worklist s.
Proof using.
  intros Hf Hroots Hentry oi i. split.
  - induction 1 as [oi i x Hs Hk Hg|d Hd|oi i input o x rel oi' i' _ IH Hi Ho Hx Hrel Hz]; [by eapply Hroots|by apply Hentry|].
    apply list_elem_of_lookup in IH as [j Hj]. apply lookup_lt_Some in Hj as Hjl. eapply (fo_closed _ _ _ Hf); eauto.
  - intros H. by apply (mo_needed _ (fo_marks _ _ _ Hf) _ H).
Qed.

(** ** Sweeping *)

Lemma dead_flags_ok row ss : forall i dead, (i + length ss <= length row)%nat -> (i + length ss <= length dead)%nat ->
  exists dead', dead_flags row ss i dead = Ret dead' /\ length dead' = length dead /\
    (forall j, (j < i)%nat -> dead' !! j = dead !! j) /\
    (forall j x, ss !! j = Some x -> dead' !! (i + j)%nat = (if negb (default true (row !! (i + j)%nat)) && link_section_is_gc_eligible x then Some true else dead !! (i + j)%nat)).
Proof using.
  clear Hroom Htable.
  induction ss as [|x ss IH]; intros i dead Hr Hd; cbn [dead_flags length] in *.
  { exists dead. split; [done|]. split; [done|]. split; [done|]. intros j y Hj. by rewrite lookup_nil in Hj. }
  destruct (lookup_lt_is_Some_2 row i) as [b Hb]; [lia|]. rewrite (get_nat _ _ _ Hb). cbn [obind].
  set (dead1 := if negb b && link_section_is_gc_eligible x then <[i := true]> dead else dead).
  assert ((if negb b && link_section_is_gc_eligible x then put dead (Z.of_nat i) true else Ret dead) = Ret dead1) as ->.
  { subst dead1. destruct (_ && _); [by apply put_nat; lia|done]. }
  cbn [obind]. assert (length dead1 = length dead) as Hl1 by (subst dead1; destruct (_ && _); [apply length_insert|done]).
  assert (forall j, j <> i -> dead1 !! j = dead !! j) as Hsame by (intros j Hj; subst dead1; destruct (_ && _); [by rewrite list_lookup_insert_ne|done]).
  destruct (IH (S i) dead1) as (dead' & E' & Hl & H1 & H2); [lia|lia|]. exists dead'. split; [done|]. split; [lia|]. split.
  - intros j Hj. rewrite H1 by lia. apply Hsame. lia.
  - intros [|j] y Hy.
    + injection Hy as <-. rewrite Nat.add_0_r, H1 by lia. rewrite Hb. cbn. subst dead1. destruct (negb b && _); [apply list_lookup_insert_eq; lia|done].
    + rewrite <- Nat.add_succ_comm, (H2 j y Hy), Hsame by lia. done.
Qed.

Definition swept (s : marks) (oi : nat) (input input' : LinkedInputObject) : Prop :=
  match i_object input with
  | None => input' = input
  | Some o => exists dead, input' = with_dead dead input /\ (length (o_sections o) <= length dead)%nat /\
      forall i x, o_sections o !! i = Some x -> exists b, dead !! i = Some b /\ (b = true <-> link_section_is_gc_eligible x = true /\ (oi, i) ∉ worklist s)
  end.

Lemma flags_length n : (n <= length (flags n))%nat.
Proof using. clear Hroom Htable. unfold flags. rewrite length_replicate. destruct n; cbn; lia. Qed.

Lemma flags_lookup n i : (i < n)%nat -> flags n !! i = Some false.
Proof using. clear Hroom Htable. intros H. apply lookup_replicate_2. destruct n; cbn; lia. Qed.

Lemma gc_sweep_ok s ins : marks_ok s -> forall oi h, (forall k input, ins !! k = Some input -> exists input0, inputs !! (oi + k)%nat = Some input0 /\ i_object input = i_object input0) ->
  exists res h', gc_sweep (live s) ins oi h = Ret (res, h') /\ (generous h -> generous h' /\ res <> None) /\
    forall ins', res = Some ins' -> length ins' = length ins /\ forall k input, ins !! k = Some input -> exists input', ins' !! k = Some input' /\ swept s (oi + k) input input'.
Proof using.
  clear Hroom Htable.
  intros Hok. induction ins as [|input ins IH]; intros oi h Hins; cbn [gc_sweep].
  { exists (Some []), h. split; [done|]. split; [done|]. intros ins' [= <-]. split; [done|]. intros k input Hk. by rewrite lookup_nil in Hk. }
  destruct (Hins 0%nat input eq_refl) as (input0 & H0 & Eo). rewrite Nat.add_0_r in H0.
  assert (exists one h1, match i_object input with
      | None => Ret (Some input, h)
      | Some o => let (ok, h) := alloc h in if negb ok then Ret (None, h)
          else let! row := get (live s) (Z.of_nat oi) in let! dead := dead_flags row (o_sections o) 0 (flags (length (o_sections o))) in Ret (Some (with_dead dead input), h)
      end = Ret (one, h1) /\ (generous h -> generous h1 /\ one <> None) /\ forall input', one = Some input' -> swept s oi input input') as (one & h1 & E1 & Hg & Hone).
  { unfold swept. destruct (i_object input) as [o|] eqn:Eo'.
    - unfold alloc. destruct (heap_grants h (heap_calls h)) eqn:Eg; cbn [negb]; [|eexists _, _; split; [done|]; split; [intros Hh; by rewrite Hh in Eg|done]].
      destruct (mo_rows _ Hok oi input0 H0) as (row & Hrow & Hlen). rewrite (get_nat _ _ _ Hrow). cbn [obind]. unfold input_sections in Hlen. rewrite <- Eo in Hlen.
      pose proof (flags_length (length (o_sections o))).
      destruct (dead_flags_ok row (o_sections o) 0 (flags (length (o_sections o)))) as (dead & E1 & Hl & _ & Hd); [lia|lia|]. rewrite E1. cbn [obind].
      eexists _, _. split; [done|]. split; [intros Hh; split; [exact Hh|done]|]. intros input' [= <-]. exists dead. split; [done|]. split; [lia|].
      intros i x Hx. pose proof (Hd i x Hx) as Hdi. cbn in Hdi. apply lookup_lt_Some in Hx as Hxl. destruct (lookup_lt_is_Some_2 row i) as [b Hb]; [lia|].
      assert (b = true <-> (oi, i) ∈ worklist s) as Hbm.
      { rewrite <- (mo_exact _ Hok). 2:{ exists x, input0. split; [done|]. cbn. unfold input_sections. by rewrite <- Eo. }
        split; [intros ->; by exists row|]. intros (row' & H1 & H2). cbn in *. congruence. }
      rewrite Hb, flags_lookup in Hdi by done. cbn in Hdi. destruct b, (link_section_is_gc_eligible x); cbn in Hdi; (eexists; split; [exact Hdi|]); intuition congruence.
    - exists (Some input), h. split; [done|]. split; [done|]. by intros input' [= <-]. }
  rewrite E1. cbn [obind]. destruct one as [input'|]; [|exists None, h1; split; [done|]; split; [intros Hh; by destruct (Hg Hh)|done]].
  destruct (IH (S oi) h1) as (rest & h2 & E2 & Hg2 & Hrest).
  { intros k i' Hk. destruct (Hins (S k) i' Hk) as (i0 & H & ?). exists i0. by rewrite Nat.add_succ_r in H. }
  rewrite E2. cbn [obind]. eexists _, h2. split; [done|]. split.
  - intros Hh. destruct (Hg2 (proj1 (Hg Hh))) as [Hh2 Hne]. split; [done|]. by destruct rest.
  - intros ins' Er. destruct rest as [ins2|]; [|done]. injection Er as <-. destruct (Hrest ins2 eq_refl) as [Hl Hr]. split; [by cbn; rewrite Hl|].
    intros [|k] input2 Hk; [injection Hk as <-; exists input'; rewrite Nat.add_0_r; split; [done|by apply Hone]|]. rewrite Nat.add_succ_r. by apply Hr.
Qed.
End Mark.

(** * Collecting *)

(** What collecting makes of an object: flags for the sections that are not
    needed, and for the symbols that needed sections mention. *)
Definition collected (E : gmap cstring GcDefinition) (entry : option cstring) (inputs : list LinkedInputObject) (oi : nat) (input input' : LinkedInputObject) : Prop :=
  match i_object input with
  | None => input' = input
  | Some o => exists referenced dead, input' = with_dead dead (with_referenced referenced input) /\
      (length (o_symbols o) <= length referenced)%nat /\ (length (o_sections o) <= length dead)%nat /\
      (forall y, (y < length (o_symbols o))%nat ->
         referenced !! y = Some true <-> exists i x, needed E entry inputs oi i /\ o_sections o !! i = Some x /\ mentions (s_relocations x) y) /\
      (forall i x, o_sections o !! i = Some x ->
         exists b, dead !! i = Some b /\ if b : bool then link_section_is_gc_eligible x = true /\ ~ needed E entry inputs oi i
           else link_section_is_gc_eligible x = false \/ needed E entry inputs oi i)
  end.

(** The table of the definitions of the objects, if none clash. *)
Definition definitions (inputs : list LinkedInputObject) : option (gmap cstring GcDefinition) := add_definitions ∅ (definitions_of inputs 0).

Lemma prepared_sections input : input_sections (prepared input) = input_sections input /\ i_object (prepared input) = i_object input.
Proof. unfold prepared, input_sections. destruct (i_object input) eqn:E; cbn; by rewrite ?E. Qed.

Lemma marks_start inputs E entry : marks_ok inputs E entry (mkMarks (prepared_row <$> inputs) []).
Proof.
  split; cbn [live worklist].
  - intros oi input Hi. exists (prepared_row input). rewrite list_lookup_fmap, Hi. split; [done|]. unfold prepared_row, input_sections.
    destruct (i_object input); [apply flags_length|done].
  - intros x _. split; [|by intros ?%not_elem_of_nil]. intros (row & Hrow & Hb). cbn in Hrow. rewrite list_lookup_fmap in Hrow.
    destruct (inputs !! fst x) as [input|]; [|done]. injection Hrow as <-. unfold prepared_row, flags in Hb. destruct (i_object input); [|done].
    by apply lookup_replicate in Hb as [? _].
  - by intros x ?%not_elem_of_nil.
  - constructor.
  - by intros x ?%not_elem_of_nil.
Qed.

Lemma following_start inputs E entry s : marks_ok inputs E entry s -> following inputs E entry s 0 (prepared <$> inputs).
Proof.
  intros Hok. split; [done|lia|by rewrite length_fmap| |].
  - intros oi input0 H0. exists (prepared input0). rewrite list_lookup_fmap, H0. split; [done|]. unfold followed, prepared.
    destruct (i_object input0) as [o|]; [|done]. exists (flags (length (o_symbols o))). split; [done|]. split; [apply flags_length|].
    intros y Hy. rewrite flags_lookup by done. split; [done|]. intros (j & _ & _ & _ & Hj & _). lia.
  - intros j. lia.
Qed.

Lemma total_table inputs : Z.of_nat (total (fun input => length (input_symbols input)) inputs) < 2 ^ 62 ->
  exists m, grown 64 64 (u64 (Z.of_nat (total (fun input => length (input_symbols input)) inputs) * 2)) = Ret (Z.of_nat m) /\ Probe.size_ok m /\
    (total (fun input => length (input_symbols input)) inputs < m)%nat.
Proof.
  intros H. rewrite wrapu_small by (unfold in_u; lia). destruct (grown_table (Z.of_nat (total (fun input => length (input_symbols input)) inputs) * 2)) as (m & E & Hs & H1 & H2); [lia|].
  exists m. split; [done|]. split; [done|lia].
Qed.

(** An object whose flags come from a finished work list. *)
Lemma collected_ok E entry inputs s oi input0 input input' : inputs !! oi = Some input0 -> (forall oi i, needed E entry inputs oi i <-> (oi, i) ∈ worklist s) ->
  followed inputs s (length (worklist s)) oi input0 input -> swept s oi input input' -> collected E entry inputs oi input0 input'.
Proof.
  intros H0 Hneeded Hfol Hs. unfold collected, followed, swept in *. destruct (i_object input0) as [o|] eqn:Eo; [|subst input; by rewrite Eo in Hs].
  destruct Hfol as (l & -> & Hll & Hment). cbn [with_referenced i_object] in Hs. rewrite Eo in Hs. destruct Hs as (dead & -> & Hld & Hdead). exists l, dead.
  split; [done|]. split; [done|]. split; [done|]. split.
  - intros y Hy. rewrite (Hment y Hy). unfold mentioned. split.
    + intros (j & i & input & x & _ & Hw & Hin & Hx & Hm). exists i, x. split; [apply Hneeded; by eapply list_elem_of_lookup_2|].
      split; [|done]. assert (input = input0) as -> by congruence. by eapply section_object.
    + intros (i & x & Hn & Hx & Hm). apply Hneeded, list_elem_of_lookup in Hn as [j Hj]. exists j, i, input0, x. split; [by eapply lookup_lt_Some|].
      split; [done|]. split; [done|]. split; [|done]. unfold input_sections. by rewrite Eo.
  - intros i x Hx. destruct (Hdead i x Hx) as (b & Hb & Hbd). exists b. split; [done|]. pose proof (Hneeded oi i) as Hni. destruct b.
    { destruct (proj1 Hbd eq_refl) as [H1 H2]. split; [done|]. intros Hn. by apply H2, Hni. }
    destruct (link_section_is_gc_eligible x); [right|by left]. destruct (decide ((oi, i) ∈ worklist s)) as [?|Hno]; [by apply Hni|]. discriminate (proj2 Hbd (conj eq_refl Hno)).
Qed.

(** Collecting as a whole. *)
Lemma gc_sections_ok r entry h : relocations_ok (objects r) -> Z.of_nat (total (fun input => length (input_symbols input)) (objects r)) < 2 ^ 62 ->
  exists res h', link_resolution_gc_sections r entry h = Ret (res, h') /\
    (generous h -> generous h' /\ (definitions (objects r) <> None -> res <> None)) /\
    forall r', res = Some r' ->
      (total (fun input => length (input_sections input)) (objects r) = 0%nat /\ r' = r) \/
      exists E inputs', definitions (objects r) = Some E /\ r' = with_objects inputs' r /\ length inputs' = length (objects r) /\
        forall oi input, objects r !! oi = Some input -> exists input', inputs' !! oi = Some input' /\ collected E entry (objects r) oi input input'.
Proof.
  intros Hrels Hcount. unfold link_resolution_gc_sections. set (inputs := objects r) in *. set (T := total (fun input => length (input_sections input)) inputs).
  destruct (Nat.eqb_spec T 0) as [HT|HT]; [exists (Some r), h; split; [done|]; split; [done|]; intros r' [= <-]; by left|].
  destruct (total_table inputs Hcount) as (m & Em & Hm & Hlt). rewrite Em. cbn [obind]. unfold alloc at 1 2 3. cbn [heap_grants heap_calls]. rewrite Nat2Z.id.
  destruct (_ && _ && _) eqn:Eall; cbn [negb]; [|eexists None, _; split; [done|]; split; [|done]; intros Hh; by rewrite !Hh in Eall]. clear Eall.
  destruct (gc_prepare_ok m inputs 0 (replicate m None) [] ∅ (mkHeap (heap_grants h) (S (S (S (heap_calls h))))) (holds_empty m Hm)) as (res & h1 & E1 & Hg1 & Hres); [cbn; lia|].
  rewrite E1. cbn [obind]. destruct res as [[[rows ins] table]|]; [|exists None, h1; split; [done|]; split; [|done]; intros Hh; destruct (Hg1 Hh) as [Hh1 Hne]; split; [done|]; intros HE; by destruct (Hne HE)].
  destruct (Hres rows ins table eq_refl) as (-> & -> & E & reg & HE & Ht & Hreg). cbn [length] in Hreg.
  assert (forall name d, E !! name = Some d -> exists x, section_at inputs (d_object_index d) (d_section_index d) x) as Hsec by (intros name d; by apply definition_section).
  destruct (gc_mark_all_roots_ok inputs E entry (prepared <$> inputs) 0 (mkMarks (prepared_row <$> inputs) [])) as (s1 & E2 & Hok1 & _ & Hroots); [|apply marks_start|].
  { intros k input Hk. rewrite list_lookup_fmap in Hk. destruct (inputs !! k) as [input0|] eqn:E0; [|done]. injection Hk as <-. exists input0. split; [done|]. apply prepared_sections. }
  fold T in E2. rewrite E2. cbn [obind].
  assert (exists s2, (match entry with Some name => if is_empty name then Ret s1 else gc_mark_definition T table name s1 | None => Ret s1 end) = Ret s2 /\ marks_ok inputs E entry s2 /\
    extends s1 s2 /\ forall d, entry_definition E entry = Some d -> (d_object_index d, d_section_index d) ∈ worklist s2) as (s2 & E3 & Hok2 & Hex2 & Hentry).
  { unfold entry_definition. destruct entry as [name|]; cbn [mbind option_bind]; [|exists s1; split; [done|]; split; [done|]; split; [apply marks_extends_refl|done]].
    destruct (is_empty name) eqn:Ee; [exists s1; split; [done|]; split; [done|]; split; [apply marks_extends_refl|done]|].
    apply (gc_mark_definition_ok inputs E (Some name) Hsec m table reg Ht); [lia|done|]. intros d Hd. apply needed_entry. cbn. by rewrite Ee. }
  rewrite E3. cbn [obind].
  destruct (gc_process_ok inputs E entry Hsec m table reg Ht ltac:(lia) (S T) Hrels s2 0 (prepared <$> inputs)) as (ins & s3 & E4 & Hf & Hex3); [by apply following_start|lia|].
  fold T in E4. rewrite E4. cbn [obind].
  assert (forall oi i, needed E entry inputs oi i <-> (oi, i) ∈ worklist s3) as Hneeded.
  { eapply worklist_needed; [exact Hf| |].
    - intros oi i x (input & Hi & Hx) Hk Hg. eapply extends_In; [exact Hex3|]. eapply extends_In; [exact Hex2|].
      eapply (Hroots oi (prepared input) i x); [by rewrite list_lookup_fmap, Hi|by rewrite (proj1 (prepared_sections input))|done|done].
    - intros d Hd. eapply extends_In; [exact Hex3|]. by apply Hentry. }
  assert (forall k input, ins !! k = Some input -> exists input0, inputs !! k = Some input0 /\ i_object input = i_object input0 /\ followed inputs s3 (length (worklist s3)) k input0 input) as Hins.
  { intros k input Hk. apply lookup_lt_Some in Hk as Hl. rewrite (fo_length _ _ _ _ _ _ Hf) in Hl. destruct (lookup_lt_is_Some_2 inputs k Hl) as [input0 H0].
    destruct (fo_inputs _ _ _ _ _ _ Hf k input0 H0) as (input2 & H2 & Hfol). assert (input2 = input) as -> by congruence. exists input0. split; [done|]. split; [|done].
    unfold followed in Hfol. destruct (i_object input0) as [o|] eqn:Eo; [by destruct Hfol as (l & -> & _)|by subst]. }
  destruct (gc_sweep_ok inputs E entry s3 ins (fo_marks _ _ _ _ _ _ Hf) 0 h1) as (swept_ & h2 & E5 & Hg5 & Hsw).
  { intros k input Hk. destruct (Hins k input Hk) as (input0 & H0 & Eo & _). by exists input0. }
  rewrite E5. cbn [obind]. eexists _, h2. split; [done|]. split.
  { intros Hh. destruct (Hg1 Hh) as [Hh1 _]. destruct (Hg5 Hh1) as [Hh2 Hne]. split; [done|]. by destruct swept_. }
  intros r' Er. destruct swept_ as [inputs'|]; [|done]. injection Er as <-. destruct (Hsw inputs' eq_refl) as [Hl Hsw']. right. exists E, inputs'.
  split; [done|]. split; [done|]. split; [by rewrite Hl, (fo_length _ _ _ _ _ _ Hf)|]. intros oi input0 H0.
  destruct (fo_inputs _ _ _ _ _ _ Hf oi input0 H0) as (input & Hi & Hfol). destruct (Hsw' oi input Hi) as (input' & Hi' & Hs). exists input'. split; [done|].
  by eapply collected_ok.
Qed.
End SectionGcReach.
