(* ===== verification/SymbolResolve.v ===== *)
(** Resolving symbols and giving addresses: src/src/linker/symbol_resolve.c,
    lines 288 to 322 and 723 to 1283, for links without shared libraries.

    Reading an object file is a parameter, [link_object_read]. *)
From S2P Require Import Prelude Probe LinkObjects SectionMerge SectionGc.
#[local] Open Scope Z_scope.

Module SymbolResolve.
Import LinkObjects SectionMerge SectionGc.

(** * The table of global symbols *)

Definition with_buckets (b : list nat) (r : LinkResolution) : LinkResolution :=
  mkResolution (objects r) (sections r) (symbols r) (symbol_capacity r) b (entry_symbol r).
Definition with_symbols (l : list LinkedSymbol) (r : LinkResolution) : LinkResolution :=
  mkResolution (objects r) (sections r) l (symbol_capacity r) (symbol_buckets r) (entry_symbol r).
Definition with_symbol_capacity (c : Z) (r : LinkResolution) : LinkResolution :=
  mkResolution (objects r) (sections r) (symbols r) c (symbol_buckets r) (entry_symbol r).

(** A symbol's index put into the first empty slot after that of its name. *)
Definition enter_bucket (b : list nat) (name : cstring) (i : nat) : outcome (list nat) :=
  let! (p, _) := Probe.probe_loop (S (length b)) b (length b - 1) (fun _ => false) (Probe.slot_of (Probe.mettle_fnv1a_hash name) (length b - 1)) in
  Ret (<[p := S i]> b).

Fixpoint reindex_loop (ys : list LinkedSymbol) (i : nat) (b : list nat) : outcome (list nat) :=
  match ys with
  | [] => Ret b
  | y :: ys =>
      let! b := match g_name y with None => Ret b | Some name => enter_bucket b name i end in
      reindex_loop ys (S i) b
  end.

Definition link_resolution_reindex_symbols (r : LinkResolution) (min_buckets : Z) (h : heap) : outcome (option LinkResolution * heap) :=
  let! nb := grown 64 64 min_buckets in
  let (ok, h) := alloc h in
  if negb ok then Ret (None, h)
  else let! b := reindex_loop (symbols r) 0 (replicate (Z.to_nat nb) O) in Ret (Some (with_buckets b r), h).

Definition symbol_count (r : LinkResolution) : Z := Z.of_nat (length (symbols r)).

Definition link_resolution_index_insert (r : LinkResolution) (symbol_index : nat) (h : heap) : outcome (option LinkResolution * heap) :=
  if u64 (Z.of_nat (length (symbol_buckets r)) * 3) <=? u64 (u64 (symbol_count r + 1) * 4) then
    link_resolution_reindex_symbols r (u64 (u64 (symbol_count r + 1) * 2)) h
  else
    match symbols r !! symbol_index with
    | Some y =>
        match g_name y with
        | Some name => let! b := enter_bucket (symbol_buckets r) name symbol_index in Ret (Some (with_buckets b r), h)
        | None => Undef
        end
    | None => Undef
    end.

(** The same body as [link_resolution_find_symbol]. *)
Definition link_resolution_find_symbol_mutable (r : LinkResolution) (name : option cstring) : outcome (option nat) := link_resolution_find_symbol r name.

Definition link_resolution_reserve_symbols (r : LinkResolution) (minimum_count : Z) (h : heap) : outcome (option LinkResolution * heap) :=
  if minimum_count <=? symbol_capacity r then Ret (Some r, h)
  else
    let! c := grown (symbol_capacity r) 8 minimum_count in
    let (ok, h) := alloc h in
    Ret (if ok then Some (with_symbol_capacity c r) else None, h).

(** A new symbol: nothing is known but its name. *)
Definition fresh_symbol (name : option cstring) : LinkedSymbol :=
  mkLinkedSymbol name false false LINKED_SECTION_INDEX_NONE UINT32_MAX 0 0 0 0 0 false.

(** The index of the symbol of this name, entered when there is none. *)
Definition find_or_enter (r : LinkResolution) (name : cstring) (h : heap) : outcome (option (LinkResolution * nat) * heap) :=
  let! found := link_resolution_find_symbol_mutable r (Some name) in
  match found with
  | Some g => Ret (Some (r, g), h)
  | None =>
      let! (r, h) := link_resolution_reserve_symbols r (u64 (symbol_count r + 1)) h in
      match r with
      | None => Ret (None, h)
      | Some r =>
          let g := length (symbols r) in
          let r := with_symbols (symbols r ++ [fresh_symbol (Some name)]) r in
          let (ok, h) := alloc h in
          if negb ok then Ret (None, h)
          else
            let! (r, h) := link_resolution_index_insert r g h in
            Ret (match r with None => None | Some r => Some (r, g) end, h)
      end
  end.

Definition reference (y : LinkedObjectSymbol) (g : LinkedSymbol) : LinkedSymbol :=
  mkLinkedSymbol (g_name g) (g_is_defined g) true (g_defining_object_index g) (g_defining_symbol_index g) (g_merged_section_index g) (g_merged_offset g)
    (g_virtual_address g) (g_size g) (g_elf_type g) (if os_is_defined y then g_is_weak g else os_is_weak y).

Definition define (y : LinkedObjectSymbol) (g : LinkedSymbol) : LinkedSymbol :=
  mkLinkedSymbol (g_name g) true (g_is_external g) (Z.of_nat (os_object_index y)) (os_symbol_index y) (os_merged_section_index y) (os_merged_offset y)
    (g_virtual_address g) (os_size y) (os_elf_type y) (g_is_weak g).

Definition link_resolution_record_global_symbol (r : LinkResolution) (input : LinkedInputObject) (y : LinkedObjectSymbol) (h : heap) :
  outcome (option LinkResolution * heap) :=
  match os_name y with
  | None => Ret (None, h)
  | Some name =>
      let! (found, h) := find_or_enter r name h in
      match found with
      | None => Ret (None, h)
      | Some (r, i) =>
          let! g := get (symbols r) (Z.of_nat i) in
          let g := reference y g in
          if negb (os_is_defined y) then Ret (Some (with_symbols (<[i := g]> (symbols r)) r), h)
          else
            let! verdict :=
              if g_is_defined g then
                let! holder := get (objects r) (g_defining_object_index g) in
                if i_is_runtime_default holder && negb (i_is_runtime_default input) then Ret (Some true)
                else if negb (i_is_runtime_default holder) && i_is_runtime_default input then Ret (Some false)
                else Ret None
              else Ret (Some true) in
            match verdict with
            | None => Ret (None, h)
            | Some false => Ret (Some (with_symbols (<[i := g]> (symbols r)) r), h)
            | Some true => Ret (Some (with_symbols (<[i := define y g]> (symbols r)) r), h)
            end
      end
  end.

(** * The symbols of the objects *)

(** What is known of a symbol in its own object; [None] for a section index
    outside the object. *)
Definition map_symbol (input : LinkedInputObject) (section_count object_index symbol_index : nat) (y : LinkSymbol) : outcome (option LinkedObjectSymbol) :=
  let blank := fun external local defined index offset =>
    mkObjectSymbol (y_name y) object_index (u32 (Z.of_nat symbol_index)) defined external local (y_is_auxiliary y) (y_section_index y) index offset 0
      (y_size y) (y_elf_type y) (y_is_weak y) in
  if y_is_auxiliary y then Ret (Some (blank false true false LINKED_SECTION_INDEX_NONE 0))
  else
    let placed := blank (y_is_external y) (negb (y_is_external y)) in
    if 0 <=? y_section_index y then
      if Z.of_nat section_count <=? y_section_index y then Ret None
      else
        let! k := get (i_section_merged_indices input) (y_section_index y) in
        if k =? LINKED_SECTION_INDEX_NONE then Ret (Some (placed false LINKED_SECTION_INDEX_NONE 0))
        else
          let! o := get (i_section_merged_offsets input) (y_section_index y) in
          Ret (Some (placed true k (u64 (o + y_value y))))
    else Ret (Some (placed false LINKED_SECTION_INDEX_NONE 0)).

(** Does a symbol of a dropped section, or one that only dropped sections
    mention, stay out of the global table? *)
Definition skipped (input : LinkedInputObject) (symbol_index : nat) (y : LinkSymbol) : outcome bool :=
  if y_is_auxiliary y then Ret true
  else
    let! dead := if 0 <=? y_section_index y then match i_section_gc_dead input with None => Ret false | Some l => get l (y_section_index y) end else Ret false in
    if dead : bool then Ret true
    else if y_section_index y =? LINK_SECTION_INDEX_UNDEFINED then
      match i_symbol_gc_referenced input with None => Ret false | Some l => let! b := get l (Z.of_nat symbol_index) in Ret (negb b) end
    else Ret false.

(** The symbols of an object from the one at [symbol_index] on. *)
Fixpoint build_object (input : LinkedInputObject) (section_count object_index : nat) (ys : list LinkSymbol) (symbol_index : nat) (r : LinkResolution) (h : heap) :
  outcome (option (LinkResolution * list LinkedObjectSymbol) * heap) :=
  match ys with
  | [] => Ret (Some (r, []), h)
  | y :: ys =>
      let (ok, h) := if bool_decide (y_name y = None) then (true, h) else alloc h in
      if negb ok then Ret (None, h)
      else
        let! resolved := map_symbol input section_count object_index symbol_index y in
        match resolved with
        | None => Ret (None, h)
        | Some resolved =>
            let! skip := skipped input symbol_index y in
            let! (r, h) :=
              if negb skip && os_is_external resolved && negb (bool_decide (os_name resolved = None)) then link_resolution_record_global_symbol r input resolved h
              else Ret (Some r, h) in
            match r with
            | None => Ret (None, h)
            | Some r =>
                let! (rest, h) := build_object input section_count object_index ys (S symbol_index) r h in
                Ret (match rest with None => None | Some (r, l) => Some (r, resolved :: l) end, h)
            end
        end
  end.

Definition with_object_symbols (l : list LinkedObjectSymbol) (input : LinkedInputObject) : LinkedInputObject :=
  mkInput (i_object input) (i_section_merged_indices input) (i_section_merged_offsets input) (i_section_merged_sizes input) (i_section_alignments input)
    l (i_is_runtime_default input) (i_section_gc_dead input) (i_symbol_gc_referenced input).

(** The objects from the one at [object_index] on. *)
Fixpoint build_objects (inputs : list LinkedInputObject) (object_index : nat) (r : LinkResolution) (h : heap) : outcome (option LinkResolution * heap) :=
  match inputs with
  | [] => Ret (Some r, h)
  | input :: inputs =>
      let (ok, h) := alloc_array (length (input_symbols input)) h in
      if negb ok then Ret (None, h)
      else
        let! (one, h) := build_object input (length (input_sections input)) object_index (input_symbols input) 0 r h in
        match one with
        | None => Ret (None, h)
        | Some (r, l) => build_objects inputs (S object_index) (with_objects (<[object_index := with_object_symbols l input]> (objects r)) r) h
        end
  end.

Definition link_resolution_build_symbols (r : LinkResolution) (h : heap) : outcome (option LinkResolution * heap) := build_objects (objects r) 0 r h.

(** * Addresses *)

Definition with_virtual_address (a : Z) (m : LinkedSection) : LinkedSection :=
  mkLinkedSection (m_kind m) (m_data m) (m_data_capacity m) (m_size m) (m_virtual_size m) (m_alignment m) a (m_contributions m) (m_contribution_capacity m).

Fixpoint assign_sections (section_alignment current_address : Z) (ms : list LinkedSection) : list LinkedSection :=
  match ms with
  | [] => []
  | m :: ms =>
      if m_virtual_size m =? 0 then m :: assign_sections section_alignment current_address ms
      else
        let a := linker_align_up current_address section_alignment in
        with_virtual_address a m :: assign_sections section_alignment (u64 (a + m_virtual_size m)) ms
  end.

(** The address of an offset in a merged section, for a symbol defined there. *)
Definition symbol_address (ms : list LinkedSection) (is_defined : bool) (index offset old : Z) : outcome Z :=
  if negb is_defined || (index =? LINKED_SECTION_INDEX_NONE) then Ret old
  else let! m := get ms index in Ret (u64 (m_virtual_address m + offset)).

Definition address_object_symbol (ms : list LinkedSection) (y : LinkedObjectSymbol) : outcome LinkedObjectSymbol :=
  let! a := symbol_address ms (os_is_defined y) (os_merged_section_index y) (os_merged_offset y) (os_virtual_address y) in
  Ret (mkObjectSymbol (os_name y) (os_object_index y) (os_symbol_index y) (os_is_defined y) (os_is_external y) (os_is_local y) (os_is_auxiliary y)
    (os_section_index y) (os_merged_section_index y) (os_merged_offset y) a (os_size y) (os_elf_type y) (os_is_weak y)).

Definition address_global_symbol (ms : list LinkedSection) (g : LinkedSymbol) : outcome LinkedSymbol :=
  let! a := symbol_address ms (g_is_defined g) (g_merged_section_index g) (g_merged_offset g) (g_virtual_address g) in
  Ret (mkLinkedSymbol (g_name g) (g_is_defined g) (g_is_external g) (g_defining_object_index g) (g_defining_symbol_index g) (g_merged_section_index g)
    (g_merged_offset g) a (g_size g) (g_elf_type g) (g_is_weak g)).

Fixpoint map_outcome {A B} (f : A -> outcome B) (l : list A) : outcome (list B) :=
  match l with [] => Ret [] | a :: l => let! b := f a in let! bs := map_outcome f l in Ret (b :: bs) end.

Definition address_object (ms : list LinkedSection) (input : LinkedInputObject) : outcome LinkedInputObject :=
  let! l := map_outcome (address_object_symbol ms) (i_symbols input) in Ret (with_object_symbols l input).

Definition link_resolution_assign_virtual_addresses (r : LinkResolution) (section_alignment : Z) : outcome LinkResolution :=
  let ms := assign_sections section_alignment 0 (sections r) in
  let! inputs := map_outcome (address_object ms) (objects r) in
  let! gs := map_outcome (address_global_symbol ms) (symbols r) in
  Ret (with_sections ms (with_objects inputs (with_symbols gs r))).

(** * The whole *)

Record LinkResolutionOptions := mkOptions {
  entry_symbol_name : option cstring;
  section_alignment : Z;
  allow_unresolved_externals : bool;
  object_is_runtime_default : option (list bool)
}.

Definition unresolved (g : LinkedSymbol) : bool := g_is_external g && negb (g_is_defined g).

Definition with_entry (g : nat) (r : LinkResolution) : LinkResolution :=
  mkResolution (objects r) (sections r) (symbols r) (symbol_capacity r) (symbol_buckets r) (Some g).

Definition link_resolution_validate_externals (r : LinkResolution) (options : option LinkResolutionOptions) : outcome (option LinkResolution) :=
  if negb (match options with Some o => allow_unresolved_externals o | None => false end) && existsb unresolved (symbols r) then Ret None
  else
    match options ≫= entry_symbol_name with
    | None | Some [] => Ret (Some r)
    | Some name =>
        let! g := link_resolution_find_symbol r (Some name) in
        match g with
        | None => Ret None
        | Some g =>
            let! y := get (symbols r) (Z.of_nat g) in
            Ret (if g_is_defined y then Some (with_entry g r) else None)
        end
    end.

(** A zeroed resolution with its section kinds. *)
Definition empty_resolution : LinkResolution := mkResolution [] link_resolution_init_sections [] 0 [] None.

Definition fresh_input (o : LinkObject) : LinkedInputObject := mkInput (Some o) [] [] [] [] [] false None None.

Section Read.
Context (link_object_read : cstring -> heap -> outcome (option LinkObject * heap)).

Fixpoint load_objects (object_paths : list cstring) (h : heap) : outcome (option (list LinkedInputObject) * heap) :=
  match object_paths with
  | [] => Ret (Some [], h)
  | p :: ps =>
      let (ok, h) := alloc h in
      if negb ok then Ret (None, h)
      else
        let! (o, h) := link_object_read p h in
        match o with
        | None => Ret (None, h)
        | Some o =>
            let! (rest, h) := load_objects ps h in
            Ret (match rest with None => None | Some l => Some (fresh_input o :: l) end, h)
        end
  end.

Definition link_resolution_load_objects (r : LinkResolution) (object_paths : list cstring) (h : heap) : outcome (option LinkResolution * heap) :=
  let (ok, h) := alloc_array (length object_paths) h in
  if negb ok then Ret (None, h)
  else
    let! (l, h) := load_objects object_paths h in
    Ret (match l with None => None | Some l => Some (with_objects l r) end, h).

Definition with_default (b : bool) (input : LinkedInputObject) : LinkedInputObject :=
  mkInput (i_object input) (i_section_merged_indices input) (i_section_merged_offsets input) (i_section_merged_sizes input) (i_section_alignments input)
    (i_symbols input) b (i_section_gc_dead input) (i_symbol_gc_referenced input).

(** The flags of the objects, which must cover them all. *)
Fixpoint set_defaults (inputs : list LinkedInputObject) (l : list bool) : outcome (list LinkedInputObject) :=
  match inputs, l with
  | [], _ => Ret []
  | _, [] => Undef
  | input :: inputs, b :: l => let! inputs := set_defaults inputs l in Ret (with_default b input :: inputs)
  end.

(** The passes over the objects that have been read. *)
Definition resolve (r : LinkResolution) (options : option LinkResolutionOptions) (h : heap) : outcome (option LinkResolution * heap) :=
  let alignment := match options with Some o => if section_alignment o >? 1 then section_alignment o else 16 | None => 16 end in
  let! inputs := match options ≫= object_is_runtime_default with Some l => set_defaults (objects r) l | None => Ret (objects r) end in
  let! (r, h) := link_resolution_gc_sections (with_objects inputs r) (options ≫= entry_symbol_name) h in
  match r with
  | None => Ret (None, h)
  | Some r =>
      let! (r, h) := link_resolution_merge_sections r alignment h in
      match r with
      | None => Ret (None, h)
      | Some r =>
          let! (r, h) := link_resolution_build_symbols r h in
          match r with
          | None => Ret (None, h)
          | Some r =>
              let! r := link_resolution_assign_virtual_addresses r alignment in
              let! r := link_resolution_validate_externals r options in
              Ret (r, h)
          end
      end
  end.

Definition link_resolution_build (object_paths : option (list cstring)) (options : option LinkResolutionOptions) (h : heap) :
  outcome (option LinkResolution * heap) :=
  match object_paths with
  | None | Some [] => Ret (None, h)
  | Some paths =>
      let (ok, h) := alloc h in
      if negb ok then Ret (None, h)
      else
        let! (r, h) := link_resolution_load_objects empty_resolution paths h in
        match r with
        | None => Ret (None, h)
        | Some r => resolve r options h
        end
  end.
End Read.
End SymbolResolve.
