(* ===== verification/GlobalSymbols.v ===== *)
(** The table of global symbols is a map from names: looking a name up finds
    its entry, and recording a symbol refines an operation on the map. *)
From S2P Require Import Prelude Probe LinkObjects LinkObjectsCorrect SectionMerge SectionGc SymbolResolve.
From stdpp Require Import gmap.
#[local] Open Scope Z_scope.

Module GlobalSymbols.
Import LinkObjects LinkObjectsCorrect SymbolResolve.

Definition name_of (ys : list LinkedSymbol) (i : nat) : cstring := match ys !! i with Some g => default [] (g_name g) | None => [] end.

(** The hash table knows every symbol. *)
Definition indexed (ys : list LinkedSymbol) (b : list nat) : Prop :=
  (ys = [] /\ b = []) \/
  exists m, Probe.size_ok m /\ Probe.table_inv m (name_of ys) Probe.mettle_fnv1a_hash b (seq 0 (length ys)) /\ (length ys * 4 < m * 3)%nat /\
    (m <= 64 + 4 * (length ys + 1))%nat.

(** The symbols of a resolution are the map [G]. *)
Record globals (r : LinkResolution) (G : gmap cstring LinkedSymbol) : Prop := {
  gl_symbols : forall i g, symbols r !! i = Some g -> exists name, g_name g = Some name /\ G !! name = Some g;
  gl_map : forall name g, G !! name = Some g -> g_name g = Some name /\ exists i, symbols r !! i = Some g;
  gl_unique : forall i j g g', symbols r !! i = Some g -> symbols r !! j = Some g' -> g_name g = g_name g' -> i = j;
  gl_index : indexed (symbols r) (symbol_buckets r);
  gl_capacity : 0 <= symbol_capacity r < 2 ^ 64
}.

Lemma globals_name r G i g : globals r G -> symbols r !! i = Some g -> g_name g = Some (name_of (symbols r) i) /\ G !! name_of (symbols r) i = Some g.
Proof. intros H Hi. destruct (gl_symbols _ _ H i g Hi) as (name & En & Hg). unfold name_of. by rewrite Hi, En. Qed.

(** * Looking up *)

Lemma find_symbol_ok r G name : globals r G -> exists found, link_resolution_find_symbol r (Some name) = Ret found /\
  match found with Some i => exists g, symbols r !! i = Some g /\ G !! name = Some g | None => G !! name = None end.
Proof.
  intros H. unfold link_resolution_find_symbol. destruct (gl_index _ _ H) as [[Es Eb]|(m & Hm & Hi & Hl & _)].
  { rewrite Es, Eb. cbn. exists None. split; [done|]. destruct (G !! name) as [g|] eqn:Eg; [|done].
    apply (gl_map _ _ H) in Eg as (_ & i & Hg). by rewrite Es, lookup_nil in Hg. }
  pose proof (Probe.ti_length _ _ _ _ _ Hi) as Hlen. pose proof (Probe.size_pos _ Hm). rewrite Hlen, (proj2 (Nat.ltb_lt 0 m)) by done.
  assert (forall j, j ∈ seq 0 (length (symbols r)) -> symbol_named r name j = true <-> name_of (symbols r) j = name) as Hstop.
  { intros j [_ Hj]%elem_of_seq. destruct (lookup_lt_is_Some_2 (symbols r) j Hj) as [g Hg]. destruct (globals_name _ _ _ _ H Hg) as [En _].
    unfold symbol_named. rewrite Hg, bool_decide_eq_true, En. split; [by intros [= ->]|by intros ->]. }
  destruct (Probe.probe_find m (name_of (symbols r)) Probe.mettle_fnv1a_hash (symbol_buckets r) _ name (symbol_named r name) (S m) Hm Hi) as (p & found & E & _ & Hf);
    [rewrite length_seq; lia|done|lia|]. rewrite E. cbn [obind]. exists found. split; [done|]. destruct found as [i|].
  - destruct Hf as (En & n & Hn & _). apply lookup_seq in Hn as [-> Hn]. cbn in Hn. destruct (lookup_lt_is_Some_2 (symbols r) n Hn) as [g Hg].
    exists g. split; [done|]. destruct (globals_name _ _ _ _ H Hg) as [_ HG]. by rewrite <- En.
  - destruct Hf as (Hno & _). destruct (G !! name) as [g|] eqn:Eg; [|done]. exfalso. apply (gl_map _ _ H) in Eg as (En & i & Hg).
    apply (Hno i); [apply elem_of_seq; apply lookup_lt_Some in Hg; lia|]. unfold name_of. by rewrite Hg, En.
Qed.

(** * Entering a name *)

Lemma enter_bucket_ok m ys b i : Probe.size_ok m -> Probe.table_inv m (name_of ys) Probe.mettle_fnv1a_hash b (seq 0 i) -> (i < m)%nat ->
  exists b', enter_bucket b (name_of ys i) i = Ret b' /\ Probe.table_inv m (name_of ys) Probe.mettle_fnv1a_hash b' (seq 0 (S i)).
Proof.
  intros Hm Hi Hl. unfold enter_bucket. rewrite (Probe.ti_length _ _ _ _ _ Hi).
  destruct (Probe.probe_insert m (name_of ys) Probe.mettle_fnv1a_hash b (seq 0 i) i (fun _ => false) (S m) Hm Hi) as (p & E & _ & Ht);
    [by rewrite length_seq|by intros [_ ?]%elem_of_seq; lia|done|lia|]. unfold Probe.home in E. rewrite E. cbn [obind].
  eexists. split; [done|]. rewrite seq_S. done.
Qed.

Lemma reindex_loop_ok m ys : Probe.size_ok m -> (length ys < m)%nat -> (forall i g, ys !! i = Some g -> g_name g = Some (name_of ys i)) ->
  forall rest i b, (i + length rest)%nat = length ys -> (forall j g, rest !! j = Some g -> ys !! (i + j)%nat = Some g) ->
  Probe.table_inv m (name_of ys) Probe.mettle_fnv1a_hash b (seq 0 i) ->
  exists b', reindex_loop rest i b = Ret b' /\ Probe.table_inv m (name_of ys) Probe.mettle_fnv1a_hash b' (seq 0 (length ys)).
Proof.
  intros Hm Hl Hn. induction rest as [|g rest IH]; intros i b Hi Hr Ht; cbn [reindex_loop length] in *.
  { exists b. by replace (length ys) with i by lia. }
  pose proof (Hr 0%nat g eq_refl) as Hg. rewrite Nat.add_0_r in Hg. rewrite (Hn _ _ Hg).
  destruct (enter_bucket_ok m ys b i Hm Ht) as (b' & E & Ht'); [lia|]. rewrite E. cbn [obind]. apply (IH (S i)); [lia| |done].
  intros j g' Hj. rewrite Nat.add_succ_comm. by apply Hr.
Qed.

(** A list of symbols with one more of a new name. *)
Lemma index_insert_ok r h g : (forall i g, symbols r !! i = Some g -> g_name g = Some (name_of (symbols r) i)) ->
  forall ys, symbols r = ys ++ [g] -> indexed ys (symbol_buckets r) -> Z.of_nat (length (symbols r)) < 2 ^ 59 ->
  exists res h', link_resolution_index_insert r (length ys) h = Ret (res, h') /\ (generous h -> generous h' /\ res <> None) /\
    forall r', res = Some r' -> exists b, r' = with_buckets b r /\ indexed (symbols r) b.
Proof.
  intros Hn ys Es Hix Hl. assert (length (symbols r) = S (length ys)) as El by (rewrite Es, length_app; cbn; lia).
  assert (symbols r !! length ys = Some g) as Hg by (by rewrite Es, lookup_app_r, Nat.sub_diag by lia).
  assert (forall i, (i < length ys)%nat -> name_of (symbols r) i = name_of ys i) as Hsame by (intros i Hi; unfold name_of; by rewrite Es, lookup_app_l).
  unfold link_resolution_index_insert, symbol_count.
  assert (exists m : nat, length (symbol_buckets r) = m /\ (m <= 64 + 4 * (length ys + 1))%nat /\
    ((length ys + 1) * 4 < m * 3 -> Probe.size_ok m /\ Probe.table_inv m (name_of (symbols r)) Probe.mettle_fnv1a_hash (symbol_buckets r) (seq 0 (length ys)))%nat) as (m & Em & Hmu & Hm).
  { destruct Hix as [[-> ->]|(m & H1 & H2 & H3 & H4)]; [exists 0%nat; split; [done|]; split; [lia|]; cbn; lia|]. exists m. split; [apply H2|]. split; [lia|]. intros _.
    split; [done|]. eapply Probe.table_inv_key; [|exact H2]. intros i [_ Hi]%elem_of_seq. symmetry. by apply Hsame. }
  rewrite Em, El. rewrite !(wrapu_small 64) by (unfold in_u; rewrite ?(wrapu_small 64) by (unfold in_u; lia); lia).
  destruct (Z.leb_spec (Z.of_nat m * 3) ((Z.of_nat (S (length ys)) + 1) * 4)).
  - unfold link_resolution_reindex_symbols.
    destruct (grown_table ((Z.of_nat (S (length ys)) + 1) * 2)) as (nb & E & Hnb & Hle & H64); [lia|]. rewrite E. cbn [obind].
    unfold alloc. destruct (heap_grants h (heap_calls h)) eqn:Eh; cbn [negb]; [|eexists None, _; split; [done|]; split; [intros Hh; by rewrite Hh in Eh|done]].
    rewrite Nat2Z.id. destruct (reindex_loop_ok nb (symbols r) Hnb ltac:(lia) Hn (symbols r) 0 (replicate nb O)) as (b & E1 & Ht); [done|done|apply Probe.table_inv_empty|].
    rewrite E1. cbn [obind]. eexists _, _. split; [done|]. split; [intros Hh; split; [exact Hh|done]|]. intros r' [= <-]. exists b. split; [done|].
    right. exists nb. split; [done|]. split; [done|]. rewrite El. lia.
  - rewrite Hg, (Hn _ _ Hg). destruct Hm as [Hm Ht]; [lia|]. destruct (enter_bucket_ok m (symbols r) _ _ Hm Ht) as (b & E & Ht'); [lia|]. rewrite E. cbn [obind].
    eexists _, h. split; [done|]. split; [done|]. intros r' [= <-]. exists b. split; [done|]. right. exists m. rewrite El. split; [done|]. split; [done|]. lia.
Qed.

(** What does not change while symbols are recorded. *)
Definition same_image (r r' : LinkResolution) : Prop := objects r' = objects r /\ sections r' = sections r /\ entry_symbol r' = entry_symbol r.

Lemma find_or_enter_ok r G name h : globals r G -> Z.of_nat (length (symbols r)) + 1 < 2 ^ 59 ->
  exists res h', find_or_enter r name h = Ret (res, h') /\ (generous h -> generous h' /\ res <> None) /\
    forall r' i, res = Some (r', i) -> let g := default (fresh_symbol (Some name)) (G !! name) in
      globals r' (<[name := g]> G) /\ symbols r' !! i = Some g /\ same_image r r' /\ (length (symbols r') <= S (length (symbols r)))%nat.
Proof.
  intros H Hl. unfold find_or_enter, link_resolution_find_symbol_mutable. destruct (find_symbol_ok r G name H) as (found & E & Hf). rewrite E. cbn [obind].
  destruct found as [i|].
  { destruct Hf as (g & Hg & HG). rewrite HG. eexists _, h. split; [done|]. split; [done|]. intros r' i' [= <- <-]. cbn. rewrite insert_id by done.
    split; [done|]. split; [done|]. split; [done|lia]. }
  rewrite Hf. cbn [default]. unfold link_resolution_reserve_symbols, symbol_count. rewrite wrapu_small by (unfold in_u; lia).
  assert (exists res h1, (if Z.of_nat (length (symbols r)) + 1 <=? symbol_capacity r then Ret (Some r, h) else
      let! c := grown (symbol_capacity r) 8 (Z.of_nat (length (symbols r)) + 1) in let (ok, h) := alloc h in Ret (if ok then Some (with_symbol_capacity c r) else None, h)) = Ret (res, h1) /\
    (generous h -> generous h1 /\ res <> None) /\ forall r1, res = Some r1 -> exists c, r1 = with_symbol_capacity c r /\ 0 <= c < 2 ^ 64) as (res & h1 & E1 & Hg & Hres).
  { pose proof (gl_capacity _ _ H). destruct (Z.leb_spec (Z.of_nat (length (symbols r)) + 1) (symbol_capacity r)).
    - eexists _, h. split; [done|]. split; [done|]. intros r1 [= <-]. exists (symbol_capacity r). split; [by destruct r|done].
    - destruct (grown_room (symbol_capacity r) 8 (Z.of_nat (length (symbols r)) + 1)) as (c & Ec & Hc & _); [done|lia|lia|]. rewrite Ec. cbn [obind].
      unfold alloc. eexists _, _. split; [done|]. split; [intros Hh; rewrite Hh; split; [exact Hh|done]|]. intros r1 Hr. destruct (heap_grants _ _); [|done].
      injection Hr as <-. exists c. split; [done|lia]. }
  rewrite E1. cbn [obind]. destruct res as [r1|]; [|exists None, h1; split; [done|]; split; [intros Hh; by destruct (Hg Hh)|done]].
  destruct (Hres r1 eq_refl) as (c & -> & Hc). cbn [with_symbol_capacity symbols]. unfold alloc.
  destruct (heap_grants h1 (heap_calls h1)) eqn:Eh; cbn [negb]; [|eexists None, _; split; [done|]; split; [intros Hh; destruct (Hg Hh) as [Hh1 _]; by rewrite Hh1 in Eh|done]].
  set (g := fresh_symbol (Some name)). set (r1 := with_symbols _ _). set (h2 := mkHeap _ _).
  assert (forall i x, symbols r1 !! i = Some x -> (symbols r !! i = Some x) \/ (i = length (symbols r) /\ x = g)) as Hcase.
  { intros i x Hi. cbn in Hi. apply lookup_app_Some in Hi as [Hi|[Hge Hi]]; [by left|]. destruct (i - length (symbols r))%nat eqn:Ei; [|done]. injection Hi as <-. right. split; [lia|done]. }
  assert (forall i x, symbols r !! i = Some x -> g_name x <> Some name) as Hfresh.
  { intros i x Hi En. destruct (globals_name _ _ _ _ H Hi) as [En' HG]. rewrite En in En'. injection En' as En'. by rewrite <- En', Hf in HG. }
  destruct (index_insert_ok r1 h2 g) with (ys := symbols r) as (res & h3 & E3 & Hg3 & Hres3); [|done|apply H|cbn; rewrite length_app; cbn; lia|].
  { intros i x Hi. destruct (Hcase i x Hi) as [Hi'|[-> ->]].
    - destruct (globals_name _ _ _ _ H Hi') as [En _]. rewrite En. unfold name_of. cbn. by rewrite lookup_app_l by (by eapply lookup_lt_Some).
    - unfold name_of. cbn. by rewrite lookup_app_r, Nat.sub_diag by lia. }
  rewrite E3. cbn [obind]. eexists _, h3. split; [done|]. split.
  { intros Hh. destruct (Hg Hh) as [Hh1 _]. destruct (Hg3 Hh1) as [Hh3 Hne]. split; [done|]. by destruct res. }
  intros r' i' Er. destruct res as [r2|]; [|done]. injection Er as <- <-. destruct (Hres3 r2 eq_refl) as (b & -> & Hb). cbn zeta.
  split; [|split; [|split; [done|cbn; rewrite length_app; cbn; lia]]]; [|by cbn; rewrite lookup_app_r, Nat.sub_diag by lia].
  split; cbn [symbols with_buckets symbol_buckets].
  - intros i x Hi. destruct (Hcase i x Hi) as [Hi'|[-> ->]]; [|exists name; by rewrite lookup_insert_eq].
    destruct (gl_symbols _ _ H i x Hi') as (n & En & HG). exists n. split; [done|]. rewrite lookup_insert_ne; [done|]. intros <-. by apply (Hfresh i x).
  - intros n x Hx. destruct (decide (n = name)) as [->|Hne].
    + rewrite lookup_insert_eq in Hx. injection Hx as <-. split; [done|]. exists (length (symbols r)). cbn. by rewrite lookup_app_r, Nat.sub_diag by lia.
    + rewrite lookup_insert_ne in Hx by done. destruct (gl_map _ _ H n x Hx) as (En & i & Hi). split; [done|]. exists i. cbn. by apply lookup_app_l_Some.
  - intros i j x x' Hi Hj Ex. destruct (Hcase i x Hi) as [Hi'|[-> ->]], (Hcase j x' Hj) as [Hj'|[-> ->]]; [by eapply (gl_unique _ _ H)| | |done].
    + exfalso. by apply (Hfresh i x Hi').
    + exfalso. apply (Hfresh j x' Hj'). by rewrite <- Ex.
  - exact Hb.
  - done.
Qed.

(** Changing an entry. *)
Lemma globals_update r G i g g' name : globals r G -> symbols r !! i = Some g -> g_name g = Some name -> g_name g' = Some name ->
  globals (with_symbols (<[i := g']> (symbols r)) r) (<[name := g']> G).
Proof.
  intros H Hi En En'. apply lookup_lt_Some in Hi as Hlt.
  assert (forall j x, <[i := g']> (symbols r) !! j = Some x -> (j = i /\ x = g') \/ (j <> i /\ symbols r !! j = Some x)) as Hcase.
  { intros j x Hj. destruct (decide (j = i)) as [->|Hne]; [rewrite list_lookup_insert_eq in Hj by done; injection Hj as <-; by left|].
    rewrite list_lookup_insert_ne in Hj by done. by right. }
  assert (forall j x, symbols r !! j = Some x -> g_name x = Some name -> j = i) as Honly by (intros j x Hj Ex; eapply (gl_unique _ _ H); [done|done|congruence]).
  split; cbn [symbols with_symbols symbol_buckets symbol_capacity].
  - intros j x Hj. destruct (Hcase j x Hj) as [[-> ->]|[Hne Hj']]; [exists name; by rewrite lookup_insert_eq|].
    destruct (gl_symbols _ _ H j x Hj') as (n & Ex & HG). exists n. split; [done|]. rewrite lookup_insert_ne; [done|]. intros <-. by apply Hne, (Honly j x).
  - intros n x Hx. destruct (decide (n = name)) as [->|Hne].
    + rewrite lookup_insert_eq in Hx. injection Hx as <-. split; [done|]. exists i. by apply list_lookup_insert_eq.
    + rewrite lookup_insert_ne in Hx by done. destruct (gl_map _ _ H n x Hx) as (Ex & j & Hj). split; [done|]. exists j. rewrite list_lookup_insert_ne; [done|]. intros <-. congruence.
  - intros j k x x' Hj Hk Ex. destruct (Hcase j x Hj) as [[-> ->]|[Hj1 Hj']], (Hcase k x' Hk) as [[-> ->]|[Hk1 Hk']]; [done| | |by eapply (gl_unique _ _ H)].
    + symmetry. apply (Honly k x' Hk'). congruence.
    + apply (Honly j x Hj'). congruence.
  - destruct (gl_index _ _ H) as [[Es Eb]|(m & H1 & H2 & H3 & H4)]; [rewrite Es in Hlt; cbn in Hlt; lia|]. right. exists m. rewrite length_insert. split; [done|]. split; [|done].
    eapply Probe.table_inv_key; [|exact H2]. intros j _. unfold name_of. destruct (decide (j = i)) as [->|Hne]; [|by rewrite list_lookup_insert_ne].
    rewrite list_lookup_insert_eq by done. by rewrite Hi, En, En'.
  - apply H.
Qed.

(** * Recording a symbol *)

(** The operation on the map: [by_default] says which objects are runtime
    defaults, [b] whether the symbol's own object is one. *)
Definition record_symbol (by_default : nat -> bool) (b : bool) (y : LinkedObjectSymbol) (G : gmap cstring LinkedSymbol) : option (gmap cstring LinkedSymbol) :=
  name ← os_name y;
  let g := reference y (default (fresh_symbol (Some name)) (G !! name)) in
  if negb (os_is_defined y) then Some (<[name := g]> G)
  else if g_is_defined g then
    let holder := by_default (Z.to_nat (g_defining_object_index g)) in
    if holder && negb b then Some (<[name := define y g]> G) else if negb holder && b then Some (<[name := g]> G) else None
  else Some (<[name := define y g]> G).

(** Every defined entry names an object. *)
Definition held (n : nat) (G : gmap cstring LinkedSymbol) : Prop := forall name g, G !! name = Some g -> g_is_defined g = true -> 0 <= g_defining_object_index g < Z.of_nat n.

Definition by_default (inputs : list LinkedInputObject) (i : nat) : bool := match inputs !! i with Some input => i_is_runtime_default input | None => false end.

Lemma record_global_symbol_ok r G input y h : globals r G -> held (length (objects r)) G -> os_name y <> None -> (os_object_index y < length (objects r))%nat ->
  Z.of_nat (length (symbols r)) + 1 < 2 ^ 59 ->
  exists res h', link_resolution_record_global_symbol r input y h = Ret (res, h') /\
    (generous h -> generous h' /\ (record_symbol (by_default (objects r)) (i_is_runtime_default input) y G <> None -> res <> None)) /\
    forall r', res = Some r' -> exists G', record_symbol (by_default (objects r)) (i_is_runtime_default input) y G = Some G' /\ globals r' G' /\
      held (length (objects r)) G' /\ same_image r r' /\ (length (symbols r') <= S (length (symbols r)))%nat.
Proof.
  intros H Hheld Hname Hobj Hl. unfold link_resolution_record_global_symbol, record_symbol. destruct (os_name y) as [name|] eqn:En; [|done]. cbn [mbind option_bind].
  destruct (find_or_enter_ok r G name h H Hl) as (found & h1 & E & Hg & Hf). rewrite E. cbn [obind].
  destruct found as [[r1 i]|]; [|exists None, h1; split; [done|]; split; [intros Hh; by destruct (Hg Hh)|done]].
  destruct (Hf r1 i eq_refl) as (H1 & Hi & Hsame & Hlen). cbn zeta in *. set (g := default (fresh_symbol (Some name)) (G !! name)) in *.
  rewrite (get_nat _ _ _ Hi). cbn [obind]. pose proof Hsame as (Ho & _).
  assert (g_name g = Some name) as Eg by (unfold g; destruct (G !! name) as [x|] eqn:Ex; [by apply (gl_map _ _ H) in Ex as [? _]|done]).
  assert (g_is_defined g = true -> 0 <= g_defining_object_index g < Z.of_nat (length (objects r))) as Hgd.
  { unfold g. destruct (G !! name) as [x|] eqn:Ex; [by apply (Hheld name)|done]. }
  (* what an update of the entry gives *)
  assert (forall g', g_name g' = Some name -> (g_is_defined g' = true -> 0 <= g_defining_object_index g' < Z.of_nat (length (objects r))) ->
    globals (with_symbols (<[i := g']> (symbols r1)) r1) (<[name := g']> G) /\ held (length (objects r)) (<[name := g']> G) /\
    same_image r (with_symbols (<[i := g']> (symbols r1)) r1) /\ (length (symbols (with_symbols (<[i := g']> (symbols r1)) r1)) <= S (length (symbols r)))%nat) as Hupd.
  { intros g' E' Hd'. pose proof (globals_update r1 _ i g g' name H1 Hi Eg E') as Hgl. rewrite insert_insert_eq in Hgl. split; [done|]. split.
    - intros n x Hx. destruct (decide (n = name)) as [->|Hne]; [rewrite lookup_insert_eq in Hx; by injection Hx as <-|]. rewrite lookup_insert_ne in Hx by done. by apply (Hheld n).
    - split; [done|]. cbn. by rewrite length_insert. }
  destruct (os_is_defined y) eqn:Ed; cbn [negb].
  2:{ eexists _, h1. split; [done|]. split; [intros Hh; split; [by apply Hg|done]|]. intros r' [= <-]. eexists. split; [done|]. by apply Hupd. }
  assert (g_name (define y (reference y g)) = Some name) as Edef by done.
  assert (g_is_defined (define y (reference y g)) = true -> 0 <= g_defining_object_index (define y (reference y g)) < Z.of_nat (length (objects r))) as Hddef by (cbn; lia).
  change (g_is_defined (reference y g)) with (g_is_defined g). change (g_defining_object_index (reference y g)) with (g_defining_object_index g).
  destruct (g_is_defined g) eqn:Edg; cbn [obind].
  2:{ eexists _, h1. split; [done|]. split; [intros Hh; split; [by apply Hg|done]|]. intros r' [= <-]. eexists. split; [done|]. by apply Hupd. }
  specialize (Hgd eq_refl). rewrite Ho. destruct (lookup_lt_is_Some_2 (objects r) (Z.to_nat (g_defining_object_index g))) as [holder Hh]; [lia|].
  assert (get (objects r) (g_defining_object_index g) = Ret holder) as -> by (rewrite <- (Z2Nat.id (g_defining_object_index g)) by lia; by apply get_nat).
  unfold by_default at 1 2 3 4. rewrite Hh. cbn [obind].
  destruct (i_is_runtime_default holder), (i_is_runtime_default input); cbn [andb negb obind].
  - exists None, h1. split; [done|]. split; [intros Hgn; split; [by apply Hg|done]|done].
  - eexists _, h1. split; [done|]. split; [intros Hgn; split; [by apply Hg|done]|]. intros r' [= <-]. eexists. split; [done|]. by apply Hupd.
  - eexists _, h1. split; [done|]. split; [intros Hgn; split; [by apply Hg|done]|]. intros r' [= <-]. eexists. split; [done|]. apply Hupd; [done|]. cbn. by rewrite Edg.
  - exists None, h1. split; [done|]. split; [intros Hgn; split; [by apply Hg|done]|done].
Qed.
End GlobalSymbols.
