(* ===== verification/ObjectSymbols.v ===== *)
(** The symbols of all objects: what each is resolved to, and what the global
    table says of every name in the end. *)
From S2P Require Import Prelude Probe LinkObjects LinkObjectsCorrect SectionMerge SectionGc SymbolResolve GlobalSymbols.
From stdpp Require Import gmap.
#[local] Open Scope Z_scope.

Module ObjectSymbols.
Import LinkObjects LinkObjectsCorrect SectionMerge SectionGc SymbolResolve GlobalSymbols.

(** * One symbol *)

(** The arrays of an object cover its sections and symbols. *)
Record arrays_ok (input : LinkedInputObject) : Prop := {
  ar_indices : length (i_section_merged_indices input) = length (input_sections input);
  ar_offsets : length (i_section_merged_offsets input) = length (input_sections input);
  ar_dead : forall l, i_section_gc_dead input = Some l -> (length (input_sections input) <= length l)%nat;
  ar_referenced : forall l, i_symbol_gc_referenced input = Some l -> (length (input_symbols input) <= length l)%nat
}.

Definition merged_index (input : LinkedInputObject) (i : Z) : Z := default LINKED_SECTION_INDEX_NONE (i_section_merged_indices input !! Z.to_nat i).
Definition merged_offset (input : LinkedInputObject) (i : Z) : Z := default 0 (i_section_merged_offsets input !! Z.to_nat i).

(** Does the symbol lie in a section that has been merged? *)
Definition lies (input : LinkedInputObject) (y : LinkSymbol) : bool :=
  negb (y_is_auxiliary y) && (0 <=? y_section_index y) && negb (merged_index input (y_section_index y) =? LINKED_SECTION_INDEX_NONE).

(** What [map_symbol] makes of a symbol with a valid section index. *)
Definition mapped (input : LinkedInputObject) (oi j : nat) (y : LinkSymbol) : LinkedObjectSymbol :=
  mkObjectSymbol (y_name y) oi (u32 (Z.of_nat j)) (lies input y) (negb (y_is_auxiliary y) && y_is_external y) (y_is_auxiliary y || negb (y_is_external y))
    (y_is_auxiliary y) (y_section_index y)
    (if lies input y then merged_index input (y_section_index y) else LINKED_SECTION_INDEX_NONE)
    (if lies input y then u64 (merged_offset input (y_section_index y) + y_value y) else 0) 0 (y_size y) (y_elf_type y) (y_is_weak y).

Definition in_range (n : nat) (y : LinkSymbol) : bool := y_is_auxiliary y || (y_section_index y <? Z.of_nat n).

Lemma get_Some_in {A} (l : list A) i d : 0 <= i < Z.of_nat (length l) -> get l i = Ret (default d (l !! Z.to_nat i)).
Proof.
  intros Hi. destruct (lookup_lt_is_Some_2 l (Z.to_nat i)) as [a Ha]; [lia|]. rewrite Ha. cbn.
  rewrite <- (Z2Nat.id i) by lia. by apply get_nat.
Qed.

Lemma map_symbol_ok input oi j y : arrays_ok input ->
  map_symbol input (length (input_sections input)) oi j y = Ret (if in_range (length (input_sections input)) y then Some (mapped input oi j y) else None).
Proof.
  intros [H1 H2 _ _]. unfold map_symbol, in_range, mapped, lies, merged_index, merged_offset. destruct (y_is_auxiliary y) eqn:Ea; [done|]. cbn [orb negb andb].
  destruct (Z.leb_spec 0 (y_section_index y)); cbn [andb].
  2:{ rewrite (proj2 (Z.ltb_lt (y_section_index y) _)) by lia. done. }
  rewrite Z.leb_antisym. destruct (Z.ltb_spec (y_section_index y) (Z.of_nat (length (input_sections input)))); cbn [negb]; [|done].
  rewrite (get_Some_in _ _ LINKED_SECTION_INDEX_NONE) by lia. cbn [obind]. destruct (_ =? LINKED_SECTION_INDEX_NONE); cbn [negb]; [done|].
  rewrite (get_Some_in _ _ 0) by lia. done.
Qed.

(** Is the symbol left out of the global table? *)
Definition left (input : LinkedInputObject) (j : nat) (y : LinkSymbol) : bool :=
  y_is_auxiliary y ||
  ((0 <=? y_section_index y) && match i_section_gc_dead input with Some l => default false (l !! Z.to_nat (y_section_index y)) | None => false end) ||
  ((y_section_index y =? LINK_SECTION_INDEX_UNDEFINED) && match i_symbol_gc_referenced input with Some l => negb (default true (l !! j)) | None => false end).

Lemma skipped_ok input j y : arrays_ok input -> in_range (length (input_sections input)) y = true -> (j < length (input_symbols input))%nat ->
  skipped input j y = Ret (left input j y).
Proof.
  intros [_ _ H3 H4] Hr Hj. unfold skipped, left, in_range, LINK_SECTION_INDEX_UNDEFINED in *. destruct (y_is_auxiliary y); [done|]. cbn [orb] in *. apply Z.ltb_lt in Hr.
  destruct (Z.leb_spec 0 (y_section_index y)) as [Hs|Hs]; cbn [andb obind].
  - assert (match i_section_gc_dead input with Some l => get l (y_section_index y) | None => Ret false end =
      Ret (match i_section_gc_dead input with Some l => default false (l !! Z.to_nat (y_section_index y)) | None => false end)) as ->.
    { destruct (i_section_gc_dead input) as [l|] eqn:El; [|done]. apply get_Some_in. specialize (H3 l eq_refl). lia. }
    cbn [obind]. rewrite (proj2 (Z.eqb_neq (y_section_index y) (-1))) by lia. by destruct (match i_section_gc_dead input with Some l => _ | None => _ end).
  - destruct (y_section_index y =? -1); cbn [andb]; [|done]. destruct (i_symbol_gc_referenced input) as [l|] eqn:El; [|done]. specialize (H4 l eq_refl).
    destruct (lookup_lt_is_Some_2 l j) as [b Hb]; [lia|]. rewrite Hb. by rewrite (get_nat _ _ _ Hb).
Qed.

(** * All symbols *)

(** The symbol recorded in the global table, if any. *)
Definition recorded (input : LinkedInputObject) (oi j : nat) (y : LinkSymbol) : option LinkedObjectSymbol :=
  if negb (left input j y) && y_is_external y && negb (bool_decide (y_name y = None)) then Some (mapped input oi j y) else None.

Fixpoint object_records (input : LinkedInputObject) (oi : nat) (ys : list LinkSymbol) (j : nat) : list (bool * LinkedObjectSymbol) :=
  match ys with
  | [] => []
  | y :: ys => option_list (pair (i_is_runtime_default input) <$> recorded input oi j y) ++ object_records input oi ys (S j)
  end.

Fixpoint all_records (inputs : list LinkedInputObject) (oi : nat) : list (bool * LinkedObjectSymbol) :=
  match inputs with [] => [] | input :: inputs => object_records input oi (input_symbols input) 0 ++ all_records inputs (S oi) end.

Fixpoint record_all (D : nat -> bool) (l : list (bool * LinkedObjectSymbol)) (G : gmap cstring LinkedSymbol) : option (gmap cstring LinkedSymbol) :=
  match l with [] => Some G | (b, y) :: l => G' ← record_symbol D b y G; record_all D l G' end.

Lemma record_all_app D l l' G : record_all D (l ++ l') G = G' ← record_all D l G; record_all D l' G'.
Proof. revert G. induction l as [|[b y] l IH]; intros G; [done|]. cbn. destruct (record_symbol D b y G); [apply IH|done]. Qed.

Lemma record_all_one D b y G : record_all D (option_list (Some (b, y))) G = record_symbol D b y G.
Proof. change (record_all D (option_list (Some (b, y))) G) with (G' ← record_symbol D b y G; Some G'). by destruct (record_symbol D b y G). Qed.

Lemma record_symbol_ext D D' b y G : (forall i, D i = D' i) -> record_symbol D b y G = record_symbol D' b y G.
Proof. intros H. unfold record_symbol. destruct (os_name y); [|done]. cbn [mbind option_bind]. by rewrite H. Qed.

(** ** The symbols of an object *)

Lemma build_object_ok input oi D : arrays_ok input -> forall ys j r G h,
  globals r G -> held (length (objects r)) G -> (oi < length (objects r))%nat -> (forall i, by_default (objects r) i = D i) ->
  Z.of_nat (length (symbols r) + length ys) < 2 ^ 59 -> (j + length ys <= length (input_symbols input))%nat ->
  exists res h', build_object input (length (input_sections input)) oi ys j r h = Ret (res, h') /\
    (generous h -> generous h' /\ (Forall (fun y => in_range (length (input_sections input)) y = true) ys -> record_all D (object_records input oi ys j) G <> None -> res <> None)) /\
    forall r' l, res = Some (r', l) -> l = imap (fun k y => mapped input oi (j + k) y) ys /\ Forall (fun y => in_range (length (input_sections input)) y = true) ys /\
      exists G', record_all D (object_records input oi ys j) G = Some G' /\ globals r' G' /\ held (length (objects r)) G' /\ same_image r r' /\
        (length (symbols r') <= length (symbols r) + length ys)%nat.
Proof.
  intros Har ys. induction ys as [|y ys IH]; intros j r G h H Hheld Hoi HD Hl Hj; cbn [build_object object_records length] in *.
  { eexists _, h. split; [done|]. split; [done|]. intros r' l [= <- <-]. split; [done|]. split; [done|]. exists G. split; [done|]. split; [done|]. split; [done|]. split; [done|lia]. }
  assert (exists ok h0, (if bool_decide (y_name y = None) then (true, h) else alloc h) = (ok, h0) /\ (generous h -> ok = true /\ generous h0)) as (ok & h0 & E0 & Hg0).
  { case_bool_decide; [by exists true, h|]. unfold alloc. eexists _, _. split; [done|]. intros Hh. split; [apply Hh|exact Hh]. }
  rewrite E0. destruct ok; cbn [negb]; [|eexists None, h0; split; [done|]; split; [intros Hh; by destruct (Hg0 Hh)|done]].
  rewrite map_symbol_ok by done. cbn [obind].
  destruct (in_range (length (input_sections input)) y) eqn:Er; [|eexists None, h0; split; [done|]; split; [|done]; intros Hh; split; [by apply Hg0|]; intros Hall; apply Forall_cons in Hall as [Hall _]; congruence].
  rewrite skipped_ok by (done || lia). cbn [obind].
  assert (negb (left input j y) && os_is_external (mapped input oi j y) && negb (bool_decide (os_name (mapped input oi j y) = None)) =
    negb (left input j y) && y_is_external y && negb (bool_decide (y_name y = None))) as Ecase.
  { cbn. unfold left. by destruct (y_is_auxiliary y). }
  rewrite Ecase. set (rec := negb (left input j y) && y_is_external y && negb (bool_decide (y_name y = None))).
  assert (exists res h1, (if rec then link_resolution_record_global_symbol r input (mapped input oi j y) h0 else Ret (Some r, h0)) = Ret (res, h1) /\
    (generous h0 -> generous h1 /\ (record_all D (option_list (pair (i_is_runtime_default input) <$> recorded input oi j y)) G <> None -> res <> None)) /\
    forall r1, res = Some r1 -> exists G1, record_all D (option_list (pair (i_is_runtime_default input) <$> recorded input oi j y)) G = Some G1 /\ globals r1 G1 /\
      held (length (objects r)) G1 /\ same_image r r1 /\ (length (symbols r1) <= S (length (symbols r)))%nat) as (res & h1 & E1 & Hg1 & Hres).
  { unfold recorded. fold rec. destruct rec eqn:Erec; cbn [fmap option_fmap option_map].
    - rewrite record_all_one. destruct (record_global_symbol_ok r G input (mapped input oi j y) h0 H Hheld) as (res & h1 & E1 & Hg1 & Hres); [|done|lia|].
      { cbn. subst rec. destruct (y_name y); [done|]. rewrite bool_decide_eq_true_2, andb_false_r in Erec by done. done. }
      assert (forall G0, record_symbol (by_default (objects r)) (i_is_runtime_default input) (mapped input oi j y) G0 = record_symbol D (i_is_runtime_default input) (mapped input oi j y) G0) as Eext.
      { intros G0. by apply record_symbol_ext. }
      rewrite Eext in Hg1, Hres. exists res, h1. split; [done|]. split.
      + intros Hh. destruct (Hg1 Hh) as [Hh1 Hne]. split; [done|]. exact Hne.
      + intros r1 Hr1. exact (Hres r1 Hr1).
    - exists (Some r), h0. split; [done|]. split; [done|]. intros r1 [= <-]. exists G. split; [done|]. split; [done|]. split; [done|]. split; [done|lia]. }
  rewrite E1. cbn [obind]. rewrite record_all_app.
  destruct res as [r1|].
  2:{ exists None, h1. split; [done|]. split; [|done]. intros Hh. destruct (Hg1 (proj2 (Hg0 Hh))) as [Hh1 Hne]. split; [done|]. intros _ HG. destruct Hne; [|done]. intros E. by rewrite E in HG. }
  destruct (Hres r1 eq_refl) as (G1 & EG1 & H1 & Hheld1 & Hsame1 & Hl1). rewrite EG1. cbn [mbind option_bind]. pose proof Hsame1 as (Ho1 & Hs1 & He1).
  destruct (IH (S j) r1 G1 h1) as (rest & h2 & E2 & Hg2 & Hrest); [done|by rewrite Ho1|by rewrite Ho1|by rewrite Ho1|lia|lia|]. rewrite E2. cbn [obind].
  eexists _, h2. split; [done|]. split.
  - intros Hh. destruct (Hg1 (proj2 (Hg0 Hh))) as [Hh1 _]. destruct (Hg2 Hh1) as [Hh2 Hne]. split; [done|]. intros Hall HG. apply Forall_cons in Hall as [_ Hall].
    specialize (Hne Hall HG). by destruct rest as [[??]|].
  - intros r' l Er'. destruct rest as [[r2 l2]|]; [|done]. injection Er' as <- <-. destruct (Hrest r2 l2 eq_refl) as (-> & Hall & G2 & EG2 & H2 & Hheld2 & Hsame2 & Hl2).
    split; [|split; [by constructor|]].
    + cbn. rewrite Nat.add_0_r. f_equal. apply imap_ext. intros k x _. unfold compose. by rewrite Nat.add_succ_r.
    + exists G2. split; [done|]. split; [done|]. rewrite Ho1 in Hheld2. split; [done|]. destruct Hsame2 as (Ho2 & Hs2 & He2).
      split; [split; [by rewrite Ho2|split; [by rewrite Hs2|by rewrite He2]]|lia].
Qed.

(** ** The symbols of all objects *)

Definition symbolled (oi : nat) (input : LinkedInputObject) : LinkedInputObject :=
  with_object_symbols (imap (fun k y => mapped input oi k y) (input_symbols input)) input.

Definition ranges_ok (input : LinkedInputObject) : Prop := Forall (fun y => in_range (length (input_sections input)) y = true) (input_symbols input).

Lemma build_objects_ok D inputs : Forall arrays_ok inputs -> forall pre r G h,
  globals r G -> held (length (objects r)) G -> objects r = pre ++ inputs -> (forall i, by_default (objects r) i = D i) ->
  Z.of_nat (length (symbols r) + total (fun input => length (input_symbols input)) inputs) < 2 ^ 59 ->
  exists res h', build_objects inputs (length pre) r h = Ret (res, h') /\
    (generous h -> generous h' /\ (Forall ranges_ok inputs -> record_all D (all_records inputs (length pre)) G <> None -> res <> None)) /\
    forall r', res = Some r' -> objects r' = pre ++ imap (fun k input => symbolled (length pre + k) input) inputs /\ Forall ranges_ok inputs /\ sections r' = sections r /\
      entry_symbol r' = entry_symbol r /\ exists G', record_all D (all_records inputs (length pre)) G = Some G' /\ globals r' G'.
Proof.
  induction 1 as [|input inputs Har Hins IH]; intros pre r G h H Hheld Ho HD Hl; cbn [build_objects all_records total foldr] in *.
  { eexists _, h. split; [done|]. split; [done|]. intros r' [= <-]. split; [done|]. split; [done|]. split; [done|]. split; [done|]. by exists G. }
  fold (total (fun input => length (input_symbols input)) inputs) in Hl.
  assert (exists ok h0, alloc_array (length (input_symbols input)) h = (ok, h0) /\ (generous h -> ok = true /\ generous h0)) as (ok & h0 & E0 & Hg0).
  { destruct (alloc_array_heap (length (input_symbols input)) h) as (ok & E0 & Hok). eexists _, _. split; [done|]. intros Hh. split; [apply Hok, Hh|exact Hh]. }
  rewrite E0. destruct ok; cbn [negb]; [|eexists None, h0; split; [done|]; split; [intros Hh; by destruct (Hg0 Hh)|done]].
  destruct (build_object_ok input (length pre) D Har (input_symbols input) 0 r G h0 H Hheld) as (res & h1 & E1 & Hg1 & Hres); [|done|lia|lia|].
  { rewrite Ho, length_app. cbn. lia. }
  rewrite E1. cbn [obind]. rewrite record_all_app. destruct res as [[r1 l]|].
  2:{ exists None, h1. split; [done|]. split; [|done]. intros Hh. destruct (Hg1 (proj2 (Hg0 Hh))) as [Hh1 Hne]. split; [done|]. intros Hall HG. apply Forall_cons in Hall as [Hr _].
      destruct (Hne Hr); [|done]. intros E. by rewrite E in HG. }
  destruct (Hres r1 l eq_refl) as (El & Hr & G1 & EG1 & H1 & Hheld1 & (Ho1 & Hs1 & He1) & Hl1). rewrite EG1. cbn [mbind option_bind].
  assert (with_object_symbols l input = symbolled (length pre) input) as Esym by (by rewrite El).
  set (r2 := with_objects _ r1).
  assert (objects r2 = (pre ++ [symbolled (length pre) input]) ++ inputs) as Ho2.
  { cbn. rewrite Ho1, Ho, Esym, insert_app_r_alt, Nat.sub_diag by done. cbn. by rewrite <- app_assoc. }
  assert (length (objects r2) = length (objects r)) as El2 by (rewrite Ho2, Ho, !length_app; cbn; lia).
  destruct (IH (pre ++ [symbolled (length pre) input]) r2 G1 h1) as (rest & h2 & E2 & Hg2 & Hrest).
  { destruct H1 as [A1 A2 A3 A4 A5]. by split. }
  { by rewrite El2. }
  { done. }
  { intros i. rewrite <- HD, Ho2, Ho. unfold by_default. rewrite <- app_assoc. destruct (decide (i < length pre)%nat); [by rewrite !lookup_app_l by done|].
    rewrite (lookup_app_r pre (_ ++ _)), (lookup_app_r pre (input :: inputs)) by lia. by destruct (i - length pre)%nat. }
  { cbn. lia. }
  rewrite length_app, Nat.add_1_r in *. rewrite E2. exists rest, h2. split; [done|]. split.
  - intros Hh. destruct (Hg1 (proj2 (Hg0 Hh))) as [Hh1 _]. destruct (Hg2 Hh1) as [Hh2 Hne]. split; [done|]. intros Hall HG. apply Forall_cons in Hall as [_ Hall]. by apply Hne.
  - intros r' Er'. destruct (Hrest r' Er') as (Ho3 & Hr3 & Hs3 & He3 & G2 & EG2 & H2). split; [|split; [by constructor|split; [by rewrite Hs3|split; [by rewrite He3|by exists G2]]]].
    rewrite Ho3, <- app_assoc. f_equal. cbn. rewrite Nat.add_0_r. f_equal. apply imap_ext. intros k x _. unfold compose. by rewrite Nat.add_succ_r.
Qed.

(** * What the table says of a name *)

(** An entry as this symbol defines it. *)
Definition defined_by (y : LinkedObjectSymbol) (g : LinkedSymbol) : Prop :=
  g_defining_object_index g = Z.of_nat (os_object_index y) /\ g_defining_symbol_index g = os_symbol_index y /\
  g_merged_section_index g = os_merged_section_index y /\ g_merged_offset g = os_merged_offset y.

Record tells (D : nat -> bool) (l : list (bool * LinkedObjectSymbol)) (G : gmap cstring LinkedSymbol) : Prop := {
  te_entry : forall name g, G !! name = Some g -> g_is_external g = true /\ exists b y, (b, y) ∈ l /\ os_name y = Some name;
  te_defined : forall name g, G !! name = Some g -> g_is_defined g = true -> exists b y, (b, y) ∈ l /\ os_name y = Some name /\ os_is_defined y = true /\ defined_by y g /\
    (b = true -> forall y', (false, y') ∈ l -> os_name y' = Some name -> os_is_defined y' = false);
  te_recorded : forall b y name, (b, y) ∈ l -> os_name y = Some name -> exists g, G !! name = Some g /\ (os_is_defined y = true -> g_is_defined g = true)
}.

Definition flagged (D : nat -> bool) (l : list (bool * LinkedObjectSymbol)) : Prop := forall b y, (b, y) ∈ l -> D (os_object_index y) = b /\ os_name y <> None.

(** The next symbol, with the map after it when it does not clash. *)
Lemma tells_snoc D l b y G : flagged D (l ++ [(b, y)]) -> tells D l G ->
  match record_symbol D b y G with
  | Some G' => tells D (l ++ [(b, y)]) G'
  | None => exists y', (b, y') ∈ l /\ os_name y' = os_name y /\ os_is_defined y' = true /\ os_is_defined y = true
  end.
Proof.
  intros Hfl [T1 T2 T3]. unfold record_symbol. destruct (Hfl b y) as [Hb Hn]; [apply elem_of_app; right; by left|].
  destruct (os_name y) as [name|] eqn:En; [|done]. cbn [mbind option_bind]. set (g := default (fresh_symbol (Some name)) (G !! name)).
  assert (forall g', g_is_external g' = true -> (os_is_defined y = true -> g_is_defined g' = true) -> (g_is_defined g = true -> g_is_defined g' = true) ->
    (g_is_defined g' = true -> exists b' y', (b', y') ∈ l ++ [(b, y)] /\ os_name y' = Some name /\ os_is_defined y' = true /\ defined_by y' g' /\
      (b' = true -> forall y2, (false, y2) ∈ l ++ [(b, y)] -> os_name y2 = Some name -> os_is_defined y2 = false)) ->
    tells D (l ++ [(b, y)]) (<[name := g']> G)) as Hput.
  { intros g' Hext Hdy Hdg Hdef. split.
    - intros n x Hx. destruct (decide (n = name)) as [->|Hne].
      + rewrite lookup_insert_eq in Hx. injection Hx as <-. split; [done|]. exists b, y. split; [apply elem_of_app; right; by left|done].
      + rewrite lookup_insert_ne in Hx by done. destruct (T1 n x Hx) as (He & b' & y' & Hin & Hy'). split; [done|]. exists b', y'. split; [apply elem_of_app; by left|done].
    - intros n x Hx Hd. destruct (decide (n = name)) as [->|Hne]; [rewrite lookup_insert_eq in Hx; injection Hx as <-; by apply Hdef|].
      rewrite lookup_insert_ne in Hx by done. destruct (T2 n x Hx Hd) as (b' & y' & Hin & Hy' & Hdy' & Hby & Hno). exists b', y'. split; [apply elem_of_app; by left|].
      do 3 (split; [done|]). intros Hb' y2 [Hy2|[= -> ->]%list_elem_of_singleton]%elem_of_app Hn2; [by apply (Hno Hb' y2)|congruence].
    - intros b' y' n Hin Hn'. destruct (decide (n = name)) as [->|Hne].
      + rewrite lookup_insert_eq. exists g'. split; [done|]. apply elem_of_app in Hin as [Hin|[= -> ->]%list_elem_of_singleton]; [|done].
        intros Hd'. apply Hdg. destruct (T3 b' y' name Hin Hn') as (x & Hx & Hxd). unfold g. rewrite Hx. by apply Hxd.
      + rewrite lookup_insert_ne by done. apply elem_of_app in Hin as [Hin|[= -> ->]%list_elem_of_singleton]; [by apply (T3 b' y')|congruence]. }
  assert (g_is_defined g = true -> exists b' y', (b', y') ∈ l /\ os_name y' = Some name /\ os_is_defined y' = true /\ defined_by y' g /\
      (b' = true -> forall y2, (false, y2) ∈ l -> os_name y2 = Some name -> os_is_defined y2 = false)) as Hold.
  { unfold g. destruct (G !! name) as [x|] eqn:Ex; [by apply T2|done]. }
  destruct (os_is_defined y) eqn:Edy; cbn [negb].
  2:{ apply Hput; [done|done|done|]. intros Hd. destruct (Hold Hd) as (b' & y' & Hin & Hn' & Hd' & Hby & Hno). exists b', y'. split; [apply elem_of_app; by left|].
      do 3 (split; [done|]). intros Hb' y2 [Hy2|[= <- ->]%list_elem_of_singleton]%elem_of_app Hn2; [by apply (Hno Hb' y2)|done]. }
  assert (tells D (l ++ [(b, y)]) (<[name := define y (reference y g)]> G) \/ (b = true /\ exists y2, (false, y2) ∈ l /\ os_name y2 = Some name /\ os_is_defined y2 = true)) as Hdefine.
  { destruct b eqn:Eb.
    - destruct (decide (Exists (fun x => fst x = false /\ os_name (snd x) = Some name /\ os_is_defined (snd x) = true) l)) as [Hex|Hno].
      + right. split; [done|]. apply Exists_exists in Hex as ([b2 y2] & Hin & H1 & H2 & H3). cbn in *. subst. by exists y2.
      + left. apply Hput; [done|done|done|]. intros _. exists true, y. split; [apply elem_of_app; right; by left|]. do 3 (split; [done|]). intros _ y2 [Hy2|[=]%list_elem_of_singleton]%elem_of_app Hn2.
        destruct (os_is_defined y2) eqn:E2; [|done]. exfalso. apply Hno, Exists_exists. by exists (false, y2).
    - left. apply Hput; [done|done|done|]. intros _. exists false, y. split; [apply elem_of_app; right; by left|]. by do 3 (split; [done|]). }
  change (g_is_defined (reference y g)) with (g_is_defined g). change (g_defining_object_index (reference y g)) with (g_defining_object_index g).
  destruct (g_is_defined g) eqn:Edg.
  - destruct (Hold eq_refl) as (b' & y' & Hin & Hn' & Hd' & Hby & Hno). pose proof Hby as (Hoi & _). rewrite Hoi, Nat2Z.id.
    destruct (Hfl b' y') as [Hb' _]; [apply elem_of_app; by left|]. rewrite Hb'. destruct b', b; cbn [andb negb].
    + exists y'. by rewrite Hn'.
    + destruct Hdefine as [?|[? _]]; done.
    + apply Hput; [done|by cbn; rewrite Edg|done|]. intros _. exists false, y'. split; [apply elem_of_app; by left|]. by do 3 (split; [done|]).
    + exists y'. by rewrite Hn'.
  - destruct Hdefine as [?|[-> (y2 & Hin & Hn2 & Hd2)]]; [done|]. destruct (T3 false y2 name Hin Hn2) as (x & Hx & Hxd). specialize (Hxd Hd2). unfold g in Edg. rewrite Hx in Edg. cbn in Edg. congruence.
Qed.

Lemma record_all_tells D l : flagged D l ->
  match record_all D l ∅ with
  | Some G => tells D l G
  | None => exists i j b y y', (i < j)%nat /\ l !! i = Some (b, y) /\ l !! j = Some (b, y') /\ os_name y = os_name y' /\ os_is_defined y = true /\ os_is_defined y' = true
  end.
Proof.
  induction l as [|[b y] l IH] using rev_ind; intros Hfl.
  { cbn. split; [intros name g; by rewrite lookup_empty|intros name g; by rewrite lookup_empty|by intros b y name ?%not_elem_of_nil]. }
  assert (flagged D l) as Hfl' by (intros b' y' Hin; apply Hfl, elem_of_app; by left). specialize (IH Hfl'). rewrite record_all_app.
  destruct (record_all D l ∅) as [G|]; cbn [mbind option_bind record_all].
  - pose proof (tells_snoc D l b y G Hfl IH) as H. destruct (record_symbol D b y G); cbn [mbind option_bind]; [done|].
    destruct H as (y' & Hin & Hn & Hd' & Hd). apply list_elem_of_lookup in Hin as [i Hi]. exists i, (length l), b, y', y. split; [by eapply lookup_lt_Some|].
    split; [by apply lookup_app_l_Some|]. split; [by rewrite lookup_app_r, Nat.sub_diag by lia|done].
  - destruct IH as (i & j & b' & y1 & y2 & Hij & Hi & Hj & Hr). exists i, j, b', y1, y2. split; [done|]. split; [by apply lookup_app_l_Some|]. split; [by apply lookup_app_l_Some|done].
Qed.
End ObjectSymbols.
