(* ===== verification/LinkAddresses.v ===== *)
(** Giving addresses: sections one behind the other, aligned, and every defined
    symbol at its offset in its section. *)
From S2P Require Import Prelude Probe LinkObjects LinkObjectsCorrect SymbolResolve GlobalSymbols.
From stdpp Require Import gmap.
#[local] Open Scope Z_scope.

Module LinkAddresses.
Import LinkObjects LinkObjectsCorrect SymbolResolve GlobalSymbols.

(** * Sections *)

Fixpoint span (sa : Z) (ms : list LinkedSection) : Z := match ms with [] => 0 | m :: ms => sa + m_virtual_size m + span sa ms end.

Lemma span_nonneg sa ms : 0 <= sa -> Forall (fun m => 0 <= m_virtual_size m) ms -> 0 <= span sa ms.
Proof. intros Hsa. induction 1; cbn; lia. Qed.

(** From the address [cur] on: the sections that take room are at increasing
    addresses. *)
Record assigned (sa cur : Z) (ms ms' : list LinkedSection) : Prop := {
  as_same : Forall2 (fun m m' => m' = with_virtual_address (m_virtual_address m') m /\ (m_virtual_size m = 0 -> m' = m)) ms ms';
  as_range : forall k m, ms' !! k = Some m -> m_virtual_size m <> 0 -> cur <= m_virtual_address m /\ m_virtual_address m + m_virtual_size m <= cur + span sa ms;
  as_aligned : forall k m n, ms' !! k = Some m -> m_virtual_size m <> 0 -> 0 <= n -> sa = 2 ^ n -> (sa | m_virtual_address m);
  as_order : forall j k m m', (j < k)%nat -> ms' !! j = Some m -> ms' !! k = Some m' -> m_virtual_size m <> 0 -> m_virtual_size m' <> 0 ->
    m_virtual_address m + m_virtual_size m <= m_virtual_address m'
}.

Lemma assign_sections_ok sa ms : 1 <= sa -> Forall (fun m => 0 <= m_virtual_size m) ms -> forall cur, 0 <= cur -> cur + span sa ms + sa <= 2 ^ 63 ->
  assigned sa cur ms (assign_sections sa cur ms).
Proof.
  intros Hsa. induction 1 as [|m ms Hm Hms IH]; intros cur Hc Hs; cbn [assign_sections span] in *.
  { split; [constructor|intros k m; by rewrite lookup_nil..|intros j k m m' _; by rewrite lookup_nil]. }
  pose proof (span_nonneg sa ms ltac:(lia) Hms) as Hnn. destruct (Z.eqb_spec (m_virtual_size m) 0) as [E0|E0].
  - destruct (IH cur Hc ltac:(lia)) as [A1 A2 A3 A4]. split.
    + constructor; [split; [by destruct m|done]|done].
    + intros [|k] m' Hk; [by injection Hk as <-|]. intros Hnz. pose proof (A2 k m' Hk Hnz). cbn [span]. lia.
    + intros [|k] m' n Hk; [by injection Hk as <-|]. by apply (A3 k).
    + intros [|j] [|k] m' m'' Hjk Hj Hk; [lia|by injection Hj as <-|lia|]. apply (A4 j k); [lia|done..].
  - destruct (linker_align_up_spec cur sa) as (S1 & S2 & S3); [lia|lia|lia|]. set (a := linker_align_up cur sa) in *.
    rewrite wrapu_small by (unfold in_u; lia). destruct (IH (a + m_virtual_size m) ltac:(lia) ltac:(lia)) as [A1 A2 A3 A4]. split.
    + constructor; [split; [done|intros ?; done]|done].
    + intros [|k] m' Hk; [injection Hk as <-; cbn [span m_virtual_address m_virtual_size with_virtual_address]; lia|]. intros Hnz. pose proof (A2 k m' Hk Hnz). cbn [span]. lia.
    + intros [|k] m' n Hk; [injection Hk as <-; cbn; by intros _; apply S3|]. by apply (A3 k).
    + intros [|j] [|k] m' m'' Hjk Hj Hk; [lia| |lia|apply (A4 j k); [lia|done..]]. injection Hj as <-. intros _ Hnz. cbn in *. pose proof (A2 k m'' Hk Hnz). lia.
Qed.

Lemma assign_sections_length sa ms : forall cur, length (assign_sections sa cur ms) = length ms.
Proof. induction ms as [|m ms IH]; intros cur; [done|]. cbn [assign_sections length]. destruct (m_virtual_size m =? 0); cbn [length]; by rewrite IH. Qed.

(** * Symbols *)

Lemma map_outcome_ok {A B} (f : A -> outcome B) l : (forall a, a ∈ l -> exists b, f a = Ret b) ->
  exists bs, map_outcome f l = Ret bs /\ Forall2 (fun a b => f a = Ret b) l bs.
Proof.
  induction l as [|a l IH]; intros H; cbn [map_outcome]; [by exists []|]. destruct (H a) as [b Hb]; [by left|].
  destruct IH as (bs & E & Hbs); [intros x Hx; apply H; by right|]. rewrite Hb. cbn [obind]. rewrite E. cbn [obind]. exists (b :: bs). split; [done|by constructor].
Qed.

(** Symbols lie in sections that exist. *)
Definition index_ok (n : nat) (d : bool) (k : Z) : Prop := d = true -> k <> LINKED_SECTION_INDEX_NONE -> 0 <= k < Z.of_nat n.

Definition address (ms : list LinkedSection) (d : bool) (k off old : Z) : Z :=
  if negb d || (k =? LINKED_SECTION_INDEX_NONE) then old else u64 (default 0 (m_virtual_address <$> ms !! Z.to_nat k) + off).

Lemma symbol_address_ok ms d k off old : index_ok (length ms) d k -> symbol_address ms d k off old = Ret (address ms d k off old).
Proof.
  intros H. unfold symbol_address, address. destruct d; cbn [negb orb]; [|done]. destruct (Z.eqb_spec k LINKED_SECTION_INDEX_NONE) as [|Hk]; [done|].
  specialize (H eq_refl Hk). destruct (lookup_lt_is_Some_2 ms (Z.to_nat k)) as [m Hm]; [lia|]. rewrite Hm. rewrite <- (Z2Nat.id k) at 1 by lia.
  by rewrite (get_nat _ _ _ Hm).
Qed.

Definition at_address (ms : list LinkedSection) (y : LinkedObjectSymbol) : LinkedObjectSymbol :=
  mkObjectSymbol (os_name y) (os_object_index y) (os_symbol_index y) (os_is_defined y) (os_is_external y) (os_is_local y) (os_is_auxiliary y)
    (os_section_index y) (os_merged_section_index y) (os_merged_offset y)
    (address ms (os_is_defined y) (os_merged_section_index y) (os_merged_offset y) (os_virtual_address y)) (os_size y) (os_elf_type y) (os_is_weak y).
Definition at_address_g (ms : list LinkedSection) (g : LinkedSymbol) : LinkedSymbol :=
  mkLinkedSymbol (g_name g) (g_is_defined g) (g_is_external g) (g_defining_object_index g) (g_defining_symbol_index g) (g_merged_section_index g)
    (g_merged_offset g) (address ms (g_is_defined g) (g_merged_section_index g) (g_merged_offset g) (g_virtual_address g)) (g_size g) (g_elf_type g) (g_is_weak g).

Definition placed_symbols (n : nat) (r : LinkResolution) : Prop :=
  (forall input y, input ∈ objects r -> y ∈ i_symbols input -> index_ok n (os_is_defined y) (os_merged_section_index y)) /\
  (forall g, g ∈ symbols r -> index_ok n (g_is_defined g) (g_merged_section_index g)).

Lemma Forall2_eq_fmap {A B} (f : A -> outcome B) (g : A -> B) l bs : Forall2 (fun a b => f a = Ret b) l bs -> (forall a, a ∈ l -> f a = Ret (g a)) -> bs = g <$> l.
Proof.
  induction 1 as [|a b l bs Hab _ IH]; intros H; [done|]. cbn. rewrite IH by (intros x Hx; apply H; by right). f_equal.
  rewrite H in Hab by (by left). by injection Hab.
Qed.

Lemma map_outcome_fmap {A B} (f : A -> outcome B) (g : A -> B) l : (forall a, a ∈ l -> f a = Ret (g a)) -> map_outcome f l = Ret (g <$> l).
Proof.
  intros H. destruct (map_outcome_ok f l) as (bs & E & Hbs); [intros a Ha; eexists; by apply H|]. rewrite E. f_equal. by eapply Forall2_eq_fmap.
Qed.

Lemma assign_virtual_addresses_ok r sa : placed_symbols (length (sections r)) r ->
  let ms := assign_sections sa 0 (sections r) in
  link_resolution_assign_virtual_addresses r sa =
  Ret (with_sections ms (with_objects ((fun input => with_object_symbols (at_address ms <$> i_symbols input) input) <$> objects r) (with_symbols (at_address_g ms <$> symbols r) r))).
Proof.
  intros [H1 H2] ms. unfold link_resolution_assign_virtual_addresses. fold ms.
  assert (length ms = length (sections r)) as El by apply assign_sections_length.
  rewrite (map_outcome_fmap _ (fun input => with_object_symbols (at_address ms <$> i_symbols input) input)).
  2:{ intros input Hi. unfold address_object. rewrite (map_outcome_fmap _ (at_address ms)); [done|]. intros y Hy. unfold address_object_symbol.
      rewrite symbol_address_ok; [done|]. rewrite El. by apply (H1 input). }
  cbn [obind]. rewrite (map_outcome_fmap _ (at_address_g ms)); [done|]. intros g Hg. unfold address_global_symbol. rewrite symbol_address_ok; [done|]. rewrite El. by apply H2.
Qed.

(** The table after that is the same map, with addresses. *)
Lemma globals_addresses r G ms : globals r G -> globals (with_symbols (at_address_g ms <$> symbols r) r) (at_address_g ms <$> G).
Proof.
  intros [H1 H2 H3 H4 H5].
  assert (forall i g, (at_address_g ms <$> symbols r) !! i = Some g -> exists g0, symbols r !! i = Some g0 /\ g = at_address_g ms g0) as Hcase.
  { intros i g Hi. rewrite list_lookup_fmap in Hi. destruct (symbols r !! i) as [g0|]; [|done]. injection Hi as <-. by exists g0. }
  split; cbn [symbols with_symbols symbol_buckets symbol_capacity].
  - intros i g Hi. destruct (Hcase i g Hi) as (g0 & Hi0 & ->). destruct (H1 i g0 Hi0) as (name & En & HG). exists name. split; [done|]. by rewrite lookup_fmap, HG.
  - intros name g Hg. rewrite lookup_fmap in Hg. destruct (G !! name) as [g0|] eqn:HG; [|done]. injection Hg as <-. destruct (H2 name g0 HG) as (En & i & Hi).
    split; [done|]. exists i. by rewrite list_lookup_fmap, Hi.
  - intros i j g g' Hi Hj Ex. destruct (Hcase i g Hi) as (g0 & Hi0 & ->). destruct (Hcase j g' Hj) as (g1 & Hj1 & ->). exact (H3 i j g0 g1 Hi0 Hj1 Ex).
  - destruct H4 as [[Es Eb]|(m & A1 & A2 & A3 & A4)]; [left; by rewrite Es|right]. exists m. rewrite length_fmap. split; [done|]. split; [|done].
    eapply Probe.table_inv_key; [|exact A2]. intros i _. unfold name_of. rewrite list_lookup_fmap. by destruct (symbols r !! i).
  - done.
Qed.
End LinkAddresses.
