(* ===== verification/LinkResolve.v ===== *)
(** A whole link: what garbage collection keeps, the merge has placed, and
    every relocation of it finds its target. *)
From S2P Require Import Prelude Probe LinkObjects LinkObjectsCorrect Relocation SectionMerge SectionMergeCorrect SectionGc.
From S2P Require Import SectionGcCorrect SectionGcReach SymbolResolve GlobalSymbols ObjectSymbols LinkAddresses.
From stdpp Require Import gmap.
#[local] Open Scope Z_scope.

Module LinkResolve.
Import LinkObjects LinkObjectsCorrect Relocation SectionMerge SectionMergeCorrect SectionGc SectionGcCorrect SectionGcReach SymbolResolve GlobalSymbols ObjectSymbols LinkAddresses.

(** * What is asked of the objects *)

Definition alignment_of (options : option LinkResolutionOptions) : Z := match options with Some o => if section_alignment o >? 1 then section_alignment o else 16 | None => 16 end.
Definition allows (options : option LinkResolutionOptions) : bool := match options with Some o => allow_unresolved_externals o | None => false end.

Definition symbol_total (inputs : list LinkedInputObject) : nat := total (fun input => length (input_symbols input)) inputs.

(** The objects as read, of sizes that leave room for 64-bit sums. *)
Record loaded_ok (options : option LinkResolutionOptions) (inputs : list LinkedInputObject) : Prop := {
  lo_fresh : Forall (fun input => i_section_gc_dead input = None /\ i_symbol_gc_referenced input = None) inputs;
  lo_flags : forall l, options ≫= object_is_runtime_default = Some l -> (length inputs <= length l)%nat;
  lo_objects : forall input o, input ∈ inputs -> i_object input = Some o -> object_ok o;
  lo_relocations : relocations_ok inputs;
  lo_size : objects_need (alignment_of options) inputs <= 2 ^ 58 /\ alignment_of options <= 2 ^ 58;
  lo_symbols : Z.of_nat (symbol_total inputs) < 2 ^ 58
}.

(** ** Lists of inputs with the same objects *)

Definition same_objects (l l' : list LinkedInputObject) : Prop := i_object <$> l = i_object <$> l'.

Lemma same_objects_lookup l l' k input : same_objects l l' -> l !! k = Some input -> exists input', l' !! k = Some input' /\ i_object input' = i_object input.
Proof.
  intros H Hk. assert ((i_object <$> l') !! k = Some (i_object input)) as E by (by rewrite <- H, list_lookup_fmap, Hk).
  rewrite list_lookup_fmap in E. destruct (l' !! k) as [input'|]; [|done]. injection E as E. by exists input'.
Qed.

Lemma same_objects_from l l' : length l = length l' -> (forall k a b, l !! k = Some a -> l' !! k = Some b -> i_object a = i_object b) -> same_objects l l'.
Proof.
  intros Hl H. apply list_eq_same_length with (length l); [by rewrite length_fmap|by rewrite length_fmap|]. intros k x y Hk. rewrite !list_lookup_fmap.
  destruct (l !! k) eqn:E1, (l' !! k) eqn:E2; try done. intros [= <-] [= <-]. by eapply H.
Qed.

Lemma objects_need_same fb l : forall l', same_objects l l' -> objects_need fb l = objects_need fb l'.
Proof.
  induction l as [|a l IH]; intros [|b l'] H; try done. unfold same_objects in H. cbn in H. injection H as Hab H. cbn [objects_need]. rewrite Hab. f_equal. by apply IH.
Qed.

Lemma total_same f l : (forall a b, i_object a = i_object b -> f a = f b) -> forall l', same_objects l l' -> total f l = total f l'.
Proof.
  intros Hf. induction l as [|a l IH]; intros [|b l'] H; try done. unfold same_objects in H. cbn in H. injection H as Hab H. cbn. rewrite (Hf a b Hab). f_equal. by apply IH.
Qed.

Lemma input_symbols_same a b : i_object a = i_object b -> input_symbols a = input_symbols b.
Proof. unfold input_symbols. by intros ->. Qed.
Lemma input_sections_same a b : i_object a = i_object b -> input_sections a = input_sections b.
Proof. unfold input_sections. by intros ->. Qed.

Lemma symbol_total_same l l' : same_objects l l' -> symbol_total l = symbol_total l'.
Proof. apply total_same. intros a b E. by rewrite (input_symbols_same a b E). Qed.

(** * The passes *)

(** ** Defaults *)

Lemma set_defaults_ok inputs : forall l, (length inputs <= length l)%nat -> exists inputs', set_defaults inputs l = Ret inputs' /\ inputs' = zip_with with_default l inputs.
Proof.
  induction inputs as [|input inputs IH]; intros [|b l] Hl; cbn [set_defaults length zip_with] in *; try lia; try (by eexists).
  destruct (IH l) as (inputs' & E & ->); [lia|]. rewrite E. by eexists.
Qed.

Definition flagged_inputs (options : option LinkResolutionOptions) (inputs : list LinkedInputObject) : list LinkedInputObject :=
  match options ≫= object_is_runtime_default with Some l => zip_with with_default l inputs | None => inputs end.

Lemma flagged_lookup options inputs k input : loaded_ok options inputs -> flagged_inputs options inputs !! k = Some input ->
  i_section_gc_dead input = None /\ i_symbol_gc_referenced input = None /\ exists input', inputs !! k = Some input' /\ i_object input' = i_object input.
Proof.
  intros H Hk. unfold flagged_inputs in Hk. destruct (options ≫= object_is_runtime_default) as [l|].
  - apply lookup_zip_with_Some in Hk as (b & x & -> & _ & Hx). destruct (Forall_lookup_1 _ _ _ _ (lo_fresh _ _ H) Hx). split; [done|]. split; [done|]. by exists x.
  - destruct (Forall_lookup_1 _ _ _ _ (lo_fresh _ _ H) Hk). split; [done|]. split; [done|]. by exists input.
Qed.

Lemma flagged_same options inputs : loaded_ok options inputs -> same_objects (flagged_inputs options inputs) inputs.
Proof.
  intros H. apply same_objects_from.
  - unfold flagged_inputs. destruct (options ≫= object_is_runtime_default) as [l|] eqn:El; [|done]. rewrite length_zip_with. pose proof (lo_flags _ _ H l El). lia.
  - intros k a b Ha Hb. destruct (flagged_lookup _ _ _ _ H Ha) as (_ & _ & x & Hx & Ex). congruence.
Qed.

Lemma flagged_ok options inputs : loaded_ok options inputs ->
  match options ≫= object_is_runtime_default with Some l => set_defaults inputs l | None => Ret inputs end = Ret (flagged_inputs options inputs).
Proof.
  intros H. unfold flagged_inputs. destruct (options ≫= object_is_runtime_default) as [l|] eqn:El; [|done].
  destruct (set_defaults_ok inputs l (lo_flags _ _ H l El)) as (x & -> & ->). done.
Qed.

(** ** Collection *)

(** What the later passes need to know of an object after collection. *)
Record kept_ok (E : gmap cstring GcDefinition) (entry : option cstring) (inputs : list LinkedInputObject) (oi : nat) (input input1 : LinkedInputObject) : Prop := {
  ko_object : i_object input1 = i_object input;
  ko_default : i_is_runtime_default input1 = i_is_runtime_default input;
  ko_dead : forall l, i_section_gc_dead input1 = Some l -> (length (input_sections input) <= length l)%nat;
  ko_referenced : forall l, i_symbol_gc_referenced input1 = Some l -> (length (input_symbols input) <= length l)%nat;
  ko_live : forall i s, input_sections input !! i = Some s -> dead_at input1 i = false -> link_section_is_gc_eligible s = false \/ needed E entry inputs oi i;
  ko_needed : forall i s, input_sections input !! i = Some s -> needed E entry inputs oi i -> dead_at input1 i = false;
  ko_mentioned : forall i s y l, input_sections input !! i = Some s -> needed E entry inputs oi i -> (y < length (input_symbols input))%nat -> mentions (s_relocations s) y ->
    i_symbol_gc_referenced input1 = Some l -> l !! y = Some true;
  ko_only : total (fun input => length (input_sections input)) inputs <> 0%nat -> i_object input <> None -> exists l, i_symbol_gc_referenced input1 = Some l /\
    forall y, (y < length (input_symbols input))%nat -> l !! y = Some true -> exists i x, needed E entry inputs oi i /\ input_sections input !! i = Some x /\ mentions (s_relocations x) y
}.

Lemma collected_kept E entry inputs oi input input1 : i_section_gc_dead input = None -> i_symbol_gc_referenced input = None ->
  collected E entry inputs oi input input1 -> kept_ok E entry inputs oi input input1.
Proof.
  intros Hd Hr H. unfold collected in H. destruct (i_object input) as [o|] eqn:Eo.
  - destruct H as (l & dead & -> & Hl & Hld & Hment & Hdead). assert (input_sections input = o_sections o) as Es by (unfold input_sections; by rewrite Eo).
    assert (input_symbols input = o_symbols o) as Ey by (unfold input_symbols; by rewrite Eo).
    split; cbn [i_object with_dead with_referenced i_is_runtime_default i_section_gc_dead i_symbol_gc_referenced]; rewrite ?Es, ?Ey; [done|done| | | | | |].
    + by intros l0 [= <-].
    + by intros l0 [= <-].
    + intros i s Hi Hdi. unfold dead_at in Hdi. cbn in Hdi. destruct (Hdead i s Hi) as (b & Hb & Hbs). rewrite Hb in Hdi. cbn in Hdi. by subst b.
    + intros i s Hi Hn. unfold dead_at. cbn. destruct (Hdead i s Hi) as ([] & Hb & Hbs); rewrite Hb; [|done]. by destruct Hbs as [_ []].
    + intros i s y l0 Hi Hn Hy Hm [= <-]. apply Hment; [done|]. by exists i, s.
    + intros _ _. exists l. split; [done|]. intros y Hy. by apply Hment.
  - subst input1. assert (input_sections input = []) as Es by (unfold input_sections; by rewrite Eo).
    split; rewrite ?Hd, ?Hr, ?Es; try done; intros; by rewrite lookup_nil in *.
Qed.

Lemma nothing_kept E entry inputs oi input : total (fun input => length (input_sections input)) inputs = 0%nat -> i_section_gc_dead input = None -> i_symbol_gc_referenced input = None -> input_sections input = [] -> kept_ok E entry inputs oi input input.
Proof. intros HT Hd Hr Es. split; rewrite ?HT, ?Hd, ?Hr, ?Es; try done; intros; by rewrite lookup_nil in *. Qed.

Lemma total_zero inputs : total (fun input => length (input_sections input)) inputs = 0%nat -> forall k input, inputs !! k = Some input -> input_sections input = [].
Proof.
  induction inputs as [|a inputs IH]; intros H k input Hk; [by rewrite lookup_nil in Hk|]. cbn in H. destruct k as [|k]; [|apply (IH ltac:(unfold total in *; lia) k); done].
  injection Hk as <-. apply nil_length_inv. lia.
Qed.

Lemma definitions_without_sections inputs : total (fun input => length (input_sections input)) inputs = 0%nat -> definitions inputs = Some ∅.
Proof.
  intros H. unfold definitions. enough (definitions_of inputs 0 = []) as -> by done. destruct (definitions_of inputs 0) as [|d l] eqn:E; [done|].
  assert (d ∈ definitions_of inputs 0) as Hd by (rewrite E; by left). apply definitions_of_In in Hd as (k & input & y & Hk & _ & Hg).
  apply gc_definition_Some in Hg as (_ & _ & Hs & _). rewrite (total_zero inputs H k input Hk) in Hs. cbn in Hs. lia.
Qed.

(** After collection, in both cases. *)
Lemma gc_kept r entry h : relocations_ok (objects r) -> Z.of_nat (symbol_total (objects r)) < 2 ^ 58 ->
  Forall (fun input => i_section_gc_dead input = None /\ i_symbol_gc_referenced input = None) (objects r) ->
  exists res h', link_resolution_gc_sections r entry h = Ret (res, h') /\ (generous h -> generous h' /\ (definitions (objects r) <> None -> res <> None)) /\
    forall r', res = Some r' -> exists E inputs', definitions (objects r) = Some E /\ r' = with_objects inputs' r /\ same_objects inputs' (objects r) /\
      forall oi input, objects r !! oi = Some input -> exists input', inputs' !! oi = Some input' /\ kept_ok E entry (objects r) oi input input'.
Proof.
  intros Hrels Hc Hfresh. destruct (gc_sections_ok r entry h Hrels) as (res & h' & E1 & Hg & Hres); [unfold symbol_total in Hc; lia|].
  exists res, h'. split; [done|]. split; [done|]. intros r' Er. destruct (Hres r' Er) as [[HT ->]|(E & inputs' & HE & -> & Hl & Hcol)].
  - exists ∅, (objects r). split; [by apply definitions_without_sections|]. split; [by destruct r|]. split; [done|]. intros oi input Hi. exists input. split; [done|].
    destruct (Forall_lookup_1 _ _ _ _ Hfresh Hi). apply nothing_kept; [done..|]. by eapply total_zero.
  - exists E, inputs'. split; [done|]. split; [done|].
    assert (forall oi input, objects r !! oi = Some input -> exists input', inputs' !! oi = Some input' /\ kept_ok E entry (objects r) oi input input') as Hk.
    { intros oi input Hi. destruct (Hcol oi input Hi) as (input' & Hi' & H). exists input'. split; [done|]. destruct (Forall_lookup_1 _ _ _ _ Hfresh Hi). by apply collected_kept. }
    split; [|done]. apply same_objects_from; [done|]. intros k a b Ha Hb. destruct (Hk k b Hb) as (a' & Ha' & H). assert (a' = a) as -> by congruence. apply H.
Qed.

(** ** Merging *)

(** The entries of the sections of an object after the merge. *)
Definition merged_ok (fb : Z) (input1 : LinkedInputObject) (ps : list placement) : Prop :=
  length ps = length (input_sections input1) /\
  forall i s p, input_sections input1 !! i = Some s -> ps !! i = Some p ->
    if leaves_out input1 i s then p = left_out else p_index p = link_section_index_from_kind (s_kind s) /\ p_index p <> LINKED_SECTION_INDEX_NONE.

Lemma entries_merged fb input1 ps : entries_ok fb input1 ps -> merged_ok fb input1 ps.
Proof.
  intros [Hl H]. split; [done|]. intros i s p Hi Hp. unfold input_sections in Hi. destruct (i_object input1) as [o|] eqn:Eo; [|by rewrite lookup_nil in Hi].
  pose proof (H o i s p eq_refl Hi Hp) as He. unfold entry_ok in He. destruct (leaves_out input1 i s) eqn:El; [done|]. destruct He as (E1 & _).
  split; [done|]. rewrite E1. unfold leaves_out in El. by apply orb_false_iff in El as [?%Z.eqb_neq _].
Qed.

(** The image: the sections of the objects laid out. *)
Definition laid_out (fb : Z) (inputs : list LinkedInputObject) (pss : list (list placement)) (ms : list LinkedSection) : Prop :=
  Forall2 (entries_ok fb) inputs pss /\ m_kind <$> ms = kinds /\
  forall k m, ms !! k = Some m -> layout m (at_index k (all_pieces inputs 0 pss)) /\ m_virtual_size m <= objects_need fb inputs /\ m_virtual_address m = 0.

Lemma merge_sections_ok r fb h : sections r = link_resolution_init_sections -> Forall input_ok (objects r) -> objects_need fb (objects r) <= 2 ^ 63 ->
  exists res h', link_resolution_merge_sections r fb h = Ret (res, h') /\ (generous h -> generous h' /\ res <> None) /\
    forall r', res = Some r' -> exists pss ms, laid_out fb (objects r) pss ms /\ r' = with_sections ms (with_objects (zip_with with_places pss (objects r)) r).
Proof.
  intros Hs Hok Hn. unfold link_resolution_merge_sections. rewrite Hs.
  destruct (merge_objects_ok fb (objects r) Hok 0 0 link_resolution_init_sections [] h filling_all_start Hn) as (res & h' & E & Hg & Hres). rewrite E. cbn [obind].
  eexists _, h'. split; [done|]. split; [intros Hh; destruct (Hg Hh); split; [done|by destruct res as [[??]|]]|]. intros r' Er. destruct res as [[ms inputs']|]; [|done]. injection Er as <-.
  destruct (Hres ms inputs' eq_refl) as (pss & -> & Hpss & [Hk _ Hf]). exists pss, ms. split; [|done]. split; [done|]. split; [done|].
  intros k m Hm. destruct (Hf k m Hm) as [[Hl [Hu _] _ _ _] Ha]. done.
Qed.

(** ** The passes up to the symbols *)

(** Where the passes stand before addresses are given: [inputs0] are the
    objects with their flags, [inputs1] those after collection, [pss] the
    entries of the merge. *)
Record passed (options : option LinkResolutionOptions) (r0 : LinkResolution) (E : gmap cstring GcDefinition) (inputs1 : list LinkedInputObject)
  (pss : list (list placement)) (G : gmap cstring LinkedSymbol) (r : LinkResolution) : Prop := {
  pd_definitions : definitions (flagged_inputs options (objects r0)) = Some E;
  pd_kept : forall oi input, flagged_inputs options (objects r0) !! oi = Some input ->
    exists input1, inputs1 !! oi = Some input1 /\ kept_ok E (options ≫= entry_symbol_name) (flagged_inputs options (objects r0)) oi input input1;
  pd_same : same_objects inputs1 (flagged_inputs options (objects r0));
  pd_laid : laid_out (alignment_of options) inputs1 pss (sections r);
  pd_objects : objects r = imap symbolled (zip_with with_places pss inputs1);
  pd_ranges : Forall ranges_ok (zip_with with_places pss inputs1);
  pd_records : record_all (by_default (zip_with with_places pss inputs1)) (all_records (zip_with with_places pss inputs1) 0) ∅ = Some G;
  pd_globals : globals r G
}.

Lemma with_places_arrays fb input1 ps : merged_ok fb input1 ps -> (forall l, i_section_gc_dead input1 = Some l -> (length (input_sections input1) <= length l)%nat) ->
  (forall l, i_symbol_gc_referenced input1 = Some l -> (length (input_symbols input1) <= length l)%nat) -> arrays_ok (with_places ps input1).
Proof. intros [Hl _] Hd Hr. split; [by cbn; rewrite length_fmap, Hl|by cbn; rewrite length_fmap, Hl|exact Hd|exact Hr]. Qed.

(** A resolution with its objects read and nothing done. *)
Definition unlinked (r : LinkResolution) : Prop :=
  sections r = link_resolution_init_sections /\ symbols r = [] /\ symbol_buckets r = [] /\ symbol_capacity r = 0.

Lemma globals_start r : unlinked r -> globals r ∅.
Proof.
  intros (_ & Hs & Hb & Hc). split; rewrite ?Hs, ?Hb, ?Hc; [intros i g; by rewrite lookup_nil|intros name g; by rewrite lookup_empty|intros i j g g'; by rewrite lookup_nil|by left|lia].
Qed.

(** The first passes of [resolve]. *)
Definition first_passes (r : LinkResolution) (options : option LinkResolutionOptions) (h : heap) : outcome (option LinkResolution * heap) :=
  let! (r, h) := link_resolution_gc_sections (with_objects (flagged_inputs options (objects r)) r) (options ≫= entry_symbol_name) h in
  match r with
  | None => Ret (None, h)
  | Some r =>
      let! (r, h) := link_resolution_merge_sections r (alignment_of options) h in
      match r with None => Ret (None, h) | Some r => link_resolution_build_symbols r h end
  end.

(** The records of a link fail to clash, and their symbols lie in the objects. *)
Definition recordable (pss : list (list placement)) (inputs1 : list LinkedInputObject) : Prop :=
  Forall ranges_ok (zip_with with_places pss inputs1) /\
  record_all (by_default (zip_with with_places pss inputs1)) (all_records (zip_with with_places pss inputs1) 0) ∅ <> None.

Lemma first_passes_ok options r0 h : unlinked r0 -> loaded_ok options (objects r0) ->
  exists res h', first_passes r0 options h = Ret (res, h') /\ (forall r, res = Some r -> exists E inputs1 pss G, passed options r0 E inputs1 pss G r) /\
    (generous h -> definitions (flagged_inputs options (objects r0)) <> None ->
       (forall E inputs1 pss ms, definitions (flagged_inputs options (objects r0)) = Some E ->
          (forall oi input, flagged_inputs options (objects r0) !! oi = Some input ->
             exists input1, inputs1 !! oi = Some input1 /\ kept_ok E (options ≫= entry_symbol_name) (flagged_inputs options (objects r0)) oi input input1) ->
          same_objects inputs1 (flagged_inputs options (objects r0)) -> laid_out (alignment_of options) inputs1 pss ms -> recordable pss inputs1) -> res <> None).
Proof.
  intros Hun Hok. pose proof Hun as (Hsec & Hsym & _). pose proof (flagged_same _ _ Hok) as Hfs. set (inputs0 := flagged_inputs options (objects r0)) in *. unfold first_passes. fold inputs0.
  assert (forall oi input, inputs0 !! oi = Some input -> exists input', objects r0 !! oi = Some input' /\ i_object input' = i_object input) as Hin.
  { intros oi input Hi. by destruct (flagged_lookup _ _ _ _ Hok Hi) as (_ & _ & H). }
  destruct (gc_kept (with_objects inputs0 r0) (options ≫= entry_symbol_name) h) as (res1 & h1 & E1 & Hg1 & Hres1); cbn [objects with_objects].
  { intros oi i x rel (input & Hi & Hx) Hrel. destruct (Hin oi input Hi) as (input' & Hi' & Eo). eapply (lo_relocations _ _ Hok oi i x); [|done]. exists input'. by rewrite (input_sections_same _ _ Eo). }
  { rewrite (symbol_total_same _ _ Hfs). apply Hok. }
  { apply Forall_lookup_2. intros k input Hk. by destruct (flagged_lookup _ _ _ _ Hok Hk) as (? & ? & _). }
  rewrite E1. cbn [obind]. destruct res1 as [r1|]; [|exists None, h1; split; [done|]; split; [done|]; intros Hh HE _; by destruct (proj2 (Hg1 Hh) HE)].
  destruct (Hres1 r1 eq_refl) as (E & inputs1 & HE & -> & Hsame & Hkept). cbn [objects with_objects] in *.
  assert (same_objects inputs1 (objects r0)) as Hsame0 by (unfold same_objects in *; congruence).
  assert (forall k input1, inputs1 !! k = Some input1 -> exists input0, inputs0 !! k = Some input0 /\ i_object input0 = i_object input1 /\ kept_ok E (options ≫= entry_symbol_name) inputs0 k input0 input1) as Hback.
  { intros k input1 Hk. destruct (same_objects_lookup _ _ _ _ Hsame Hk) as (input0 & H0 & Eo). exists input0. split; [done|]. split; [done|].
    destruct (Hkept k input0 H0) as (x & Hx & Hko). assert (x = input1) as -> by congruence. done. }
  destruct (merge_sections_ok (with_objects inputs1 (with_objects inputs0 r0)) (alignment_of options) h1) as (res2 & h2 & E2 & Hg2 & Hres2); cbn [objects sections with_objects].
  { done. }
  { apply Forall_lookup_2. intros k input1 Hk. destruct (Hback k input1 Hk) as (input0 & H0 & Eo & Hko). split.
    - intros l El. rewrite <- (input_sections_same _ _ Eo). by apply (ko_dead _ _ _ _ _ _ Hko).
    - intros o Ho. destruct (Hin k input0 H0) as (x & Hx & Ex). apply (lo_objects _ _ Hok x); [by eapply list_elem_of_lookup_2|]. congruence. }
  { rewrite (objects_need_same _ _ _ Hsame0). pose proof (lo_size _ _ Hok) as [? _]. lia. }
  rewrite E2. cbn [obind]. destruct res2 as [r2|]; [|exists None, h2; split; [done|]; split; [done|]; intros Hh HE' _; by destruct (Hg2 (proj1 (Hg1 Hh)))].
  destruct (Hres2 r2 eq_refl) as (pss & ms & Hlaid & ->). cbn [objects with_objects] in *. set (inputs2 := zip_with with_places pss inputs1).
  assert (Forall2 (merged_ok (alignment_of options)) inputs1 pss) as Hmerged.
  { eapply Forall2_impl; [exact (proj1 Hlaid)|]. intros a b. apply entries_merged. }
  assert (forall k input2, inputs2 !! k = Some input2 -> exists input1 ps, inputs1 !! k = Some input1 /\ pss !! k = Some ps /\ input2 = with_places ps input1 /\ arrays_ok input2) as H2.
  { intros k input2 Hk. apply lookup_zip_with_Some in Hk as (ps & input1 & -> & Hps & Hi). exists input1, ps. do 3 (split; [done|]).
    destruct (Hback k input1 Hi) as (input0 & H0 & Eo & Hko). eapply with_places_arrays.
    - eapply Forall2_lookup_lr; [exact Hmerged|done|done].
    - intros l El. rewrite <- (input_sections_same _ _ Eo). by apply (ko_dead _ _ _ _ _ _ Hko).
    - intros l El. rewrite <- (input_symbols_same _ _ Eo). by apply (ko_referenced _ _ _ _ _ _ Hko). }
  assert (same_objects inputs2 inputs1) as Hs2.
  { apply same_objects_from.
    - unfold inputs2. rewrite length_zip_with. apply Forall2_length in Hmerged. lia.
    - intros k a b Ha Hb. destruct (H2 k a Ha) as (x & ps & Hx & _ & -> & _). assert (x = b) as -> by congruence. done. }
  set (r2 := with_sections ms _). unfold link_resolution_build_symbols. change (objects r2) with inputs2.
  destruct (build_objects_ok (by_default inputs2) inputs2) with (pre := @nil LinkedInputObject) (r := r2) (G := ∅ : gmap cstring LinkedSymbol) (h := h2) as (res3 & h3 & E3 & Hg3 & Hres3).
  { apply Forall_lookup_2. intros k input2 Hk. by destruct (H2 k input2 Hk) as (? & ? & _ & _ & _ & ?). }
  { destruct (globals_start r0 Hun) as [A1 A2 A3 A4 A5]. by split. }
  { intros name g. by rewrite lookup_empty. }
  { done. }
  { done. }
  { change (symbols r2) with (symbols r0). rewrite Hsym. cbn [length]. fold (symbol_total inputs2). rewrite (symbol_total_same inputs2 (objects r0)) by (unfold same_objects in *; congruence).
    pose proof (lo_symbols _ _ Hok). lia. }
  cbn [length] in E3, Hg3, Hres3. rewrite E3. exists res3, h3. split; [done|]. split.
  - intros r Er. destruct (Hres3 r Er) as (Ho & Hr & Hse & _ & G & HG & Hgl). exists E, inputs1, pss, G. split; [done|done|done| |done|done|done|done].
    rewrite Hse. done.
  - intros Hh HE' Hrec. destruct (Hrec E inputs1 pss ms HE Hkept Hsame Hlaid) as [R1 R2]. destruct (Hg3 (proj1 (Hg2 (proj1 (Hg1 Hh))))) as [_ Hne]. by apply Hne.
Qed.
(** * Places *)

(** The target [t] is the place of offset [value] in section [sec] of object
    [oi], in a merged image with addresses. *)
Definition place_of (r : LinkResolution) (oi : nat) (sec value : Z) (t : RelocationTarget) : Prop :=
  exists f k off m, objects r !! oi = Some f /\ i_section_merged_indices f !! Z.to_nat sec = Some k /\ k <> LINKED_SECTION_INDEX_NONE /\
    i_section_merged_offsets f !! Z.to_nat sec = Some off /\ sections r !! Z.to_nat k = Some m /\
    t = mkTarget k (u64 (off + value)) (u64 (m_virtual_address m + u64 (off + value))).

(** Has the section been merged into the image? *)
Definition kept (r : LinkResolution) (oi i : nat) : Prop :=
  exists f k, objects r !! oi = Some f /\ i_section_merged_indices f !! i = Some k /\ k <> LINKED_SECTION_INDEX_NONE.

Lemma object_records_In input oi ys : forall j b x, (b, x) ∈ object_records input oi ys j <->
  exists k y, ys !! k = Some y /\ recorded input oi (j + k) y = Some x /\ b = i_is_runtime_default input.
Proof.
  induction ys as [|y ys IH]; intros j b x; cbn [object_records].
  { split; [by intros ?%not_elem_of_nil|]. intros (k & y & Hk & _). by rewrite lookup_nil in Hk. }
  rewrite elem_of_app, IH. split.
  - intros [H|(k & y' & Hk & Hr & Hb)].
    + destruct (recorded input oi j y) as [x'|] eqn:Er; [|by apply elem_of_nil in H]. apply list_elem_of_singleton in H as [= -> ->].
      exists 0%nat, y. by rewrite Nat.add_0_r.
    + exists (S k), y'. by rewrite Nat.add_succ_r.
  - intros ([|k] & y' & Hk & Hr & Hb).
    + injection Hk as <-. rewrite Nat.add_0_r in Hr. left. rewrite Hr, Hb. by apply list_elem_of_singleton.
    + rewrite Nat.add_succ_r in Hr. right. by exists k, y'.
Qed.

Lemma all_records_In inputs : forall oi b x, (b, x) ∈ all_records inputs oi <->
  exists k input j y, inputs !! k = Some input /\ input_symbols input !! j = Some y /\ recorded input (oi + k) j y = Some x /\ b = i_is_runtime_default input.
Proof.
  induction inputs as [|input inputs IH]; intros oi b x; cbn [all_records].
  { split; [by intros ?%not_elem_of_nil|]. intros (k & ? & ? & ? & Hk & _). by rewrite lookup_nil in Hk. }
  rewrite elem_of_app, IH, object_records_In. split.
  - intros [(j & y & Hj & Hr & Hb)|(k & input' & j & y & Hk & Hr)]; [exists 0%nat, input, j, y; by rewrite Nat.add_0_r|exists (S k), input', j, y; by rewrite Nat.add_succ_r].
  - intros ([|k] & input' & j & y & Hk & Hj & Hr & Hb).
    + injection Hk as <-. rewrite Nat.add_0_r in Hr. left. by exists j, y.
    + rewrite Nat.add_succ_r in Hr. right. by exists k, input', j, y.
Qed.

Lemma recorded_Some input oi j y x : recorded input oi j y = Some x <->
  x = mapped input oi j y /\ left input j y = false /\ y_is_external y = true /\ y_name y <> None.
Proof.
  unfold recorded. destruct (left input j y); cbn [negb andb]; [split; [done|by intros (_ & ? & _)]|]. destruct (y_is_external y); cbn [andb]; [|split; [done|by intros (_ & _ & ? & _)]].
  case_bool_decide; cbn [negb]; [split; [done|by intros (_ & _ & _ & ?)]|]. split; [by intros [= <-]|by intros (-> & _)].
Qed.

(** ** After the first passes *)

Section Passed.
Context (options : option LinkResolutionOptions) (r0 : LinkResolution) (E : gmap cstring GcDefinition) (inputs1 : list LinkedInputObject)
  (pss : list (list placement)) (G : gmap cstring LinkedSymbol) (r3 : LinkResolution).
Context (Hun : unlinked r0) (Hok : loaded_ok options (objects r0)) (HP : passed options r0 E inputs1 pss G r3).

#[local] Abbreviation entry := (options ≫= entry_symbol_name).
#[local] Abbreviation inputs0 := (flagged_inputs options (objects r0)).
#[local] Abbreviation inputs2 := (zip_with with_places pss inputs1).

Lemma passed_input k input2 : inputs2 !! k = Some input2 -> exists input0 input1 ps, inputs0 !! k = Some input0 /\ inputs1 !! k = Some input1 /\ pss !! k = Some ps /\
  input2 = with_places ps input1 /\ i_object input1 = i_object input0 /\ kept_ok E entry inputs0 k input0 input1 /\ merged_ok (alignment_of options) input1 ps.
Proof using HP.
  intros Hk. apply lookup_zip_with_Some in Hk as (ps & input1 & -> & Hps & H1). destruct (same_objects_lookup _ _ _ _ (pd_same _ _ _ _ _ _ _ HP) H1) as (input0 & H0 & Eo).
  destruct (pd_kept _ _ _ _ _ _ _ HP k input0 H0) as (x & Hx & Hko). assert (x = input1) as -> by congruence. exists input0, input1, ps.
  do 4 (split; [done|]). split; [done|]. split; [done|]. destruct (pd_laid _ _ _ _ _ _ _ HP) as [Hl _]. apply entries_merged. by eapply Forall2_lookup_lr.
Qed.

Lemma passed_count k input0 : inputs0 !! k = Some input0 -> exists input2, inputs2 !! k = Some input2.
Proof using HP.
  intros H0. destruct (pd_kept _ _ _ _ _ _ _ HP k input0 H0) as (input1 & H1 & _). destruct (pd_laid _ _ _ _ _ _ _ HP) as [Hl _].
  destruct (Forall2_lookup_l _ _ _ _ _ Hl H1) as (ps & Hps & _). exists (with_places ps input1). apply lookup_zip_with_Some. by exists ps, input1.
Qed.

(** The entry of a section. *)
Lemma merged_entry k input2 i s : inputs2 !! k = Some input2 -> input_sections input2 !! i = Some s ->
  exists p, i_section_merged_indices input2 !! i = Some (p_index p) /\ i_section_merged_offsets input2 !! i = Some (p_offset p) /\
    if leaves_out input2 i s then p = left_out else p_index p = link_section_index_from_kind (s_kind s) /\ p_index p <> LINKED_SECTION_INDEX_NONE.
Proof using HP.
  intros Hk Hi. destruct (passed_input k input2 Hk) as (input0 & input1 & ps & H0 & H1 & Hps & -> & Eo & Hko & [Hl Hm]).
  apply lookup_lt_Some in Hi as Hlt. change (input_sections (with_places ps input1)) with (input_sections input1) in *.
  destruct (lookup_lt_is_Some_2 ps i) as [p Hp]; [lia|]. exists p. cbn. rewrite !list_lookup_fmap, Hp. split; [done|]. split; [done|]. by apply (Hm i s p).
Qed.

(** What is in the image is needed, and what is needed is in the image. *)
Lemma image_needed k input2 i s x : inputs2 !! k = Some input2 -> input_sections input2 !! i = Some s -> i_section_merged_indices input2 !! i = Some x ->
  x <> LINKED_SECTION_INDEX_NONE -> needed E entry inputs0 k i.
Proof using HP.
  intros Hk Hi Hx Hne. destruct (merged_entry k input2 i s Hk Hi) as (p & Hp & _ & Hl). assert (x = p_index p) as -> by congruence.
  destruct (leaves_out input2 i s) eqn:El; [subst p; done|]. destruct (passed_input k input2 Hk) as (input0 & input1 & ps & H0 & H1 & Hps & -> & Eo & Hko & _).
  unfold leaves_out in El. apply orb_false_iff in El as [Ek Ed]. change (input_sections (with_places ps input1)) with (input_sections input1) in Hi.
  rewrite (input_sections_same _ _ Eo) in Hi. destruct (ko_live _ _ _ _ _ _ Hko i s Hi Ed) as [Hg|Hn]; [|done].
  eapply needed_root; [by exists input0|intros E1; by rewrite E1 in Ek|done].
Qed.

Lemma needed_image k i input2 s : needed E entry inputs0 k i -> inputs2 !! k = Some input2 -> input_sections input2 !! i = Some s -> s_kind s <> LINK_SECTION_KIND_UNKNOWN ->
  exists p, i_section_merged_indices input2 !! i = Some (p_index p) /\ i_section_merged_offsets input2 !! i = Some (p_offset p) /\ p_index p <> LINKED_SECTION_INDEX_NONE /\
    dead_at input2 i = false.
Proof using HP.
  intros Hn Hk Hi Hkd. destruct (merged_entry k input2 i s Hk Hi) as (p & H1 & H2 & Hl). exists p. split; [done|]. split; [done|].
  destruct (passed_input k input2 Hk) as (input0 & input1 & ps & H0 & Hi1 & Hps & -> & Eo & Hko & _).
  change (input_sections (with_places ps input1)) with (input_sections input1) in Hi. rewrite (input_sections_same _ _ Eo) in Hi.
  pose proof (ko_needed _ _ _ _ _ _ Hko i s Hi Hn) as Hd. change (dead_at (with_places ps input1) i) with (dead_at input1 i) in *.
  unfold leaves_out in Hl. change (dead_at (with_places ps input1) i) with (dead_at input1 i) in Hl. rewrite Hd in Hl.
  destruct (Z.eqb_spec (link_section_index_from_kind (s_kind s)) LINKED_SECTION_INDEX_NONE) as [En|En]; [destruct (s_kind s); done|]. cbn [orb] in Hl. split; [by destruct Hl|done].
Qed.

(** A symbol that lies in a merged section has an index of one. *)
Lemma lies_index k input2 y : inputs2 !! k = Some input2 -> in_range (length (input_sections input2)) y = true -> lies input2 y = true ->
  0 <= merged_index input2 (y_section_index y) < 7 /\ 0 <= y_section_index y < Z.of_nat (length (input_sections input2)).
Proof using HP.
  intros Hk Hr Hl. unfold lies in Hl. apply andb_true_iff in Hl as [Hl Hne]. apply andb_true_iff in Hl as [Ha%negb_true_iff Hpos%Z.leb_le]. apply negb_true_iff, Z.eqb_neq in Hne.
  unfold in_range in Hr. rewrite Ha in Hr. cbn [orb] in Hr. apply Z.ltb_lt in Hr. split; [|done].
  destruct (lookup_lt_is_Some_2 (input_sections input2) (Z.to_nat (y_section_index y))) as [s Hs]; [lia|]. destruct (merged_entry k input2 _ s Hk Hs) as (p & Hp & _ & Hm).
  unfold merged_index in *. rewrite Hp in *. cbn [default] in *. destruct (leaves_out input2 _ s); [by subst p|]. destruct Hm as [Hm _]. rewrite Hm in *. destruct (s_kind s); cbn in *; (done || lia).
Qed.

Lemma records_flagged : flagged (by_default inputs2) (all_records inputs2 0).
Proof using.
  clear. intros b x Hin. apply all_records_In in Hin as (k & input & j & y & Hk & Hj & Hr & ->). apply recorded_Some in Hr as (-> & _ & _ & Hn). cbn.
  unfold by_default. by rewrite Hk.
Qed.

Lemma table_tells : tells (by_default inputs2) (all_records inputs2 0) G.
Proof using HP. pose proof (record_all_tells _ _ records_flagged) as H. by rewrite (pd_records _ _ _ _ _ _ _ HP) in H. Qed.

Lemma image_length : length (sections r3) = 7%nat.
Proof using HP. destruct (pd_laid _ _ _ _ _ _ _ HP) as (_ & H & _). apply (f_equal length) in H. by rewrite length_fmap in H. Qed.

Lemma mapped_index k input2 j y : inputs2 !! k = Some input2 -> input_symbols input2 !! j = Some y ->
  index_ok 7 (os_is_defined (mapped input2 k j y)) (os_merged_section_index (mapped input2 k j y)).
Proof using HP.
  intros Hk Hj Hd _. cbn in *. rewrite Hd. pose proof (Forall_lookup_1 _ _ _ _ (pd_ranges _ _ _ _ _ _ _ HP) Hk) as Hr.
  pose proof (Forall_lookup_1 _ _ _ _ Hr Hj) as Hy. cbn in Hy. destruct (lies_index k input2 y Hk Hy Hd) as [? _]. lia.
Qed.

Lemma passed_placed : placed_symbols (length (sections r3)) r3.
Proof using HP.
  rewrite image_length. split.
  - intros input y Hi Hy. rewrite (pd_objects _ _ _ _ _ _ _ HP) in Hi. apply list_elem_of_lookup in Hi as [k Hk]. rewrite list_lookup_imap in Hk.
    destruct (inputs2 !! k) as [input2|] eqn:E2; [|done]. injection Hk as <-. cbn in Hy. apply list_elem_of_lookup in Hy as [j Hj]. rewrite list_lookup_imap in Hj.
    destruct (input_symbols input2 !! j) as [y0|] eqn:Ey; [|done]. injection Hj as <-. by apply mapped_index.
  - intros g Hg. apply list_elem_of_lookup in Hg as [i Hi]. destruct (gl_symbols _ _ (pd_globals _ _ _ _ _ _ _ HP) i g Hi) as (name & _ & HG).
    intros Hd _. destruct (te_defined _ _ _ table_tells name g HG Hd) as (b & x & Hin & _ & Hdx & (_ & _ & Ek & _) & _). rewrite Ek.
    apply all_records_In in Hin as (k & input & j & y & Hk & Hj & Hr & _). apply recorded_Some in Hr as (-> & _).
    destruct (Z.eq_dec (os_merged_section_index (mapped input (0 + k) j y)) LINKED_SECTION_INDEX_NONE) as [En|En]; [|by apply (mapped_index k input j y)].
    exfalso. cbn in En, Hdx. rewrite Hdx in En. unfold lies in Hdx. rewrite En in Hdx. by rewrite andb_false_r in Hdx.
Qed.

(** ** Addresses *)

#[local] Abbreviation ms := (assign_sections (alignment_of options) 0 (sections r3)).

Definition final : LinkResolution :=
  with_sections ms (with_objects ((fun input => with_object_symbols (at_address ms <$> i_symbols input) input) <$> objects r3) (with_symbols (at_address_g ms <$> symbols r3) r3)).

Lemma assigned_ok : assigned (alignment_of options) 0 (sections r3) ms.
Proof using HP Hok.
  assert (1 <= alignment_of options) by (unfold alignment_of; destruct options as [o|]; [|lia]; destruct (Z.gtb_spec (section_alignment o) 1); lia).
  destruct (pd_laid _ _ _ _ _ _ _ HP) as (_ & Hk & Hm). pose proof (lo_size _ _ Hok) as [Hs1 Hs2].
  assert (objects_need (alignment_of options) inputs1 <= 2 ^ 58) as Hneed.
  { rewrite (objects_need_same _ _ (objects r0)); [done|]. pose proof (pd_same _ _ _ _ _ _ _ HP). pose proof (flagged_same _ _ Hok). unfold same_objects in *. congruence. }
  assert (Forall (fun m => 0 <= m_virtual_size m <= 2 ^ 58) (sections r3)) as Hvs.
  { apply Forall_lookup_2. intros k m Hkm. destruct (Hm k m Hkm) as (Hl & Hv & _). pose proof (ly_size _ _ Hl). lia. }
  apply assign_sections_ok; [done|eapply Forall_impl; [exact Hvs|]; intros m Hm'; apply Hm'|done|].
  assert (forall l n, Forall (fun m => 0 <= m_virtual_size m <= 2 ^ 58) l -> (length l <= n)%nat -> span (alignment_of options) l <= Z.of_nat n * 2 ^ 59) as Hspan.
  { intros l. induction l as [|m l IH]; intros n Hl Hn; cbn [span length] in *; [lia|]. apply Forall_cons in Hl as [Hm0 Hl]. destruct n as [|n]; [lia|]. specialize (IH n Hl ltac:(lia)). lia. }
  pose proof (Hspan (sections r3) 7%nat Hvs ltac:(rewrite image_length; lia)). lia.
Qed.

Lemma address_in k m off old : 0 <= k < 7 -> ms !! Z.to_nat k = Some m -> address ms true k off old = u64 (m_virtual_address m + off).
Proof using.
  clear. intros Hk Hm. unfold address, LINKED_SECTION_INDEX_NONE. cbn [negb orb]. rewrite (proj2 (Z.eqb_neq k _)) by lia. by rewrite Hm.
Qed.

Lemma ms_lookup k : 0 <= k < 7 -> exists m, ms !! Z.to_nat k = Some m.
Proof using HP. intros Hk. apply lookup_lt_is_Some_2. rewrite assign_sections_length, image_length. lia. Qed.

Definition final_input (k : nat) (input2 : LinkedInputObject) : LinkedInputObject :=
  with_object_symbols (at_address ms <$> imap (fun j y => mapped input2 k j y) (input_symbols input2)) (symbolled k input2).

Lemma final_lookup k : objects final !! k = final_input k <$> inputs2 !! k.
Proof using HP.
  cbn [final objects with_sections with_objects]. rewrite list_lookup_fmap, (pd_objects _ _ _ _ _ _ _ HP), list_lookup_imap. by destruct (inputs2 !! k).
Qed.

(** A symbol that lies in the image is at its place. *)
Lemma lies_place k input2 j y : inputs2 !! k = Some input2 -> input_symbols input2 !! j = Some y -> lies input2 y = true ->
  place_of final k (y_section_index y) (y_value y)
    (mkTarget (os_merged_section_index (mapped input2 k j y)) (os_merged_offset (mapped input2 k j y))
       (address ms true (os_merged_section_index (mapped input2 k j y)) (os_merged_offset (mapped input2 k j y)) 0)).
Proof using HP.
  intros Hk Hj Hl. pose proof (Forall_lookup_1 _ _ _ _ (pd_ranges _ _ _ _ _ _ _ HP) Hk) as Hr. pose proof (Forall_lookup_1 _ _ _ _ Hr Hj) as Hy. cbn in Hy.
  destruct (lies_index k input2 y Hk Hy Hl) as [Hi Hs]. destruct (lookup_lt_is_Some_2 (input_sections input2) (Z.to_nat (y_section_index y))) as [s Hsec]; [lia|].
  destruct (merged_entry k input2 _ s Hk Hsec) as (p & Hp & Ho & _). cbn. rewrite Hl. unfold merged_index, merged_offset in *. rewrite Hp, Ho in *. cbn [default id] in *.
  destruct (ms_lookup (p_index p) Hi) as [m Hm]. exists (final_input k input2), (p_index p), (p_offset p), m. rewrite final_lookup, Hk. split; [done|]. split; [done|].
  split; [unfold LINKED_SECTION_INDEX_NONE; lia|]. split; [done|]. split; [done|]. by rewrite (address_in _ _ _ _ Hi Hm).
Qed.

(** ** Relocations *)

Lemma final_symbol k input2 j y : inputs2 !! k = Some input2 -> input_symbols input2 !! j = Some y ->
  i_symbols (final_input k input2) !! j = Some (at_address ms (mapped input2 k j y)).
Proof using. clear. intros Hk Hj. cbn. by rewrite list_lookup_fmap, list_lookup_imap, Hj. Qed.

Lemma final_globals : globals final (at_address_g ms <$> G).
Proof using HP. destruct (globals_addresses r3 G ms (pd_globals _ _ _ _ _ _ _ HP)) as [A1 A2 A3 A4 A5]. by split. Qed.

(** A defined name is found at the place of a definition of it, one by a user
    object if there is one. *)
(** A definition in a section that is kept is recorded, as a definition. *)
Lemma kept_recorded k f o y name : objects final !! k = Some f -> i_object f = Some o -> y ∈ o_symbols o ->
  y_is_auxiliary y = false -> y_is_external y = true -> y_name y = Some name -> 0 <= y_section_index y -> kept final k (Z.to_nat (y_section_index y)) ->
  exists x, (i_is_runtime_default f, x) ∈ all_records inputs2 0 /\ os_name x = Some name /\ os_is_defined x = true.
Proof using HP.
  intros Hf Ho Hy Ha He Hn Hs (f2 & k2 & Hf2 & Hk2 & Hne). rewrite Hf in Hf2. injection Hf2 as <-. rewrite final_lookup in Hf.
  destruct (inputs2 !! k) as [input|] eqn:Ei; [|done]. injection Hf as <-.
  change (i_object (final_input k input)) with (i_object input) in Ho. change (i_section_merged_indices (final_input k input)) with (i_section_merged_indices input) in Hk2.
  apply list_elem_of_lookup in Hy as [j Hj]. assert (input_symbols input !! j = Some y) as Hj2 by (unfold input_symbols; by rewrite Ho).
  assert (lies input y = true) as Hl.
  { unfold lies, merged_index. rewrite Ha, (proj2 (Z.leb_le _ _) Hs), Hk2. cbn. by apply negb_true_iff, Z.eqb_neq. }
  assert (left input j y = false) as Hleft.
  { pose proof (Forall_lookup_1 _ _ _ _ (pd_ranges _ _ _ _ _ _ _ HP) Ei) as Hr. pose proof (Forall_lookup_1 _ _ _ _ Hr Hj2) as Hy2. cbn in Hy2.
    destruct (lies_index k input y Ei Hy2 Hl) as [_ Hrange]. destruct (lookup_lt_is_Some_2 (input_sections input) (Z.to_nat (y_section_index y))) as [s Hs']; [lia|].
    destruct (merged_entry k input _ s Ei Hs') as (p & Hp & _ & Hm). assert (k2 = p_index p) as -> by congruence.
    unfold left, LINK_SECTION_INDEX_UNDEFINED. rewrite Ha, (proj2 (Z.leb_le _ _) Hs), (proj2 (Z.eqb_neq _ _)) by lia. cbn [orb andb]. rewrite orb_false_r.
    destruct (leaves_out input (Z.to_nat (y_section_index y)) s) eqn:El; [by subst p|]. unfold leaves_out in El. by apply orb_false_iff in El as [_ ?]. }
  exists (mapped input k j y). split; [|by split]. apply all_records_In. exists k, input, j, y. split; [done|]. split; [done|]. split; [|done].
  apply recorded_Some. split; [done|]. split; [done|]. split; [done|]. by rewrite Hn.
Qed.

Lemma name_place name g : G !! name = Some g -> g_is_defined g = true ->
  exists k f o j y, objects final !! k = Some f /\ i_object f = Some o /\ o_symbols o !! j = Some y /\ y_is_auxiliary y = false /\ y_is_external y = true /\ y_name y = Some name /\
    g_merged_section_index g <> LINKED_SECTION_INDEX_NONE /\
    place_of final k (y_section_index y) (y_value y) (mkTarget (g_merged_section_index g) (g_merged_offset g) (address ms true (g_merged_section_index g) (g_merged_offset g) 0)) /\
    (i_is_runtime_default f = true -> forall k' f' o' y', objects final !! k' = Some f' -> i_is_runtime_default f' = false -> i_object f' = Some o' -> y' ∈ o_symbols o' ->
       y_is_auxiliary y' = false -> y_is_external y' = true -> y_name y' = Some name -> 0 <= y_section_index y' -> ~ kept final k' (Z.to_nat (y_section_index y'))).
Proof using HP.
  intros HG Hd. destruct (te_defined _ _ _ table_tells name g HG Hd) as (b & x & Hin & Hn & Hdx & (_ & _ & Ek & Eo) & Hno).
  apply all_records_In in Hin as (k & input2 & j & y & Hk & Hj & Hr & Hb). cbn [Nat.add] in Hr. apply recorded_Some in Hr as (-> & Hleft & Hext & _).
  assert (exists o, i_object input2 = Some o /\ o_symbols o !! j = Some y) as (o & Ho & Hoj).
  { unfold input_symbols in Hj. destruct (i_object input2) as [o|]; [by exists o|by rewrite lookup_nil in Hj]. }
  exists k, (final_input k input2), o, j, y. rewrite final_lookup, Hk. split; [done|]. split; [done|]. split; [done|].
  assert (y_is_auxiliary y = false) as Haux by (unfold left in Hleft; by destruct (y_is_auxiliary y)). split; [done|]. split; [done|]. split; [done|].
  rewrite Ek, Eo. cbn in Hdx. split.
  { cbn. rewrite Hdx. unfold lies in Hdx. intros En. rewrite En in Hdx. by rewrite andb_false_r in Hdx. }
  split; [by apply lies_place|].
  intros Hdef k' f' o' y' Hf' Hd' Ho' Hy' Ha' He' Hn' Hs' Hkept.
  destruct (kept_recorded k' f' o' y' name Hf' Ho' Hy' Ha' He' Hn' Hs' Hkept) as (x & Hx & Hxn & Hxd). rewrite Hd' in Hx.
  rewrite (Hno ltac:(by rewrite Hb) x Hx Hxn) in Hxd. done.
Qed.
End Passed.
End LinkResolve.
