(* ===== verification/LinkTheorem.v ===== *)
(** What a successful link promises, and when a link succeeds. *)
From S2P Require Import Prelude Probe LinkObjects LinkObjectsCorrect Relocation SectionMerge SectionMergeCorrect SectionGc.
From S2P Require Import SectionGcCorrect SectionGcReach SymbolResolve GlobalSymbols ObjectSymbols LinkAddresses LinkResolve.
From stdpp Require Import gmap.
#[local] Open Scope Z_scope.

Module LinkTheorem.
Import LinkObjects LinkObjectsCorrect Relocation SectionMerge SectionMergeCorrect SectionGc SectionGcCorrect SectionGcReach SymbolResolve GlobalSymbols ObjectSymbols LinkAddresses LinkResolve.

(** * The last passes *)

Definition last_passes (options : option LinkResolutionOptions) (r : LinkResolution) : outcome (option LinkResolution) :=
  let! r := link_resolution_assign_virtual_addresses r (alignment_of options) in link_resolution_validate_externals r options.

Lemma resolve_passes r options h : loaded_ok options (objects r) -> resolve r options h =
  let! (r, h) := first_passes r options h in match r with None => Ret (None, h) | Some r => let! r := last_passes options r in Ret (r, h) end.
Proof.
  intros Hok. unfold resolve, first_passes, last_passes. rewrite (flagged_ok _ _ Hok). cbn [obind]. fold (alignment_of options).
  destruct (link_resolution_gc_sections _ _ h) as [[[r1|] h1]| |]; cbn [obind]; try done.
  destruct (link_resolution_merge_sections r1 _ h1) as [[[r2|] h2]| |]; cbn [obind]; try done.
  destruct (link_resolution_build_symbols r2 h2) as [[[r3|] h3]| |]; cbn [obind]; try done. by destruct (link_resolution_assign_virtual_addresses _ _).
Qed.

Lemma validate_ok r G options : globals r G ->
  exists res, link_resolution_validate_externals r options = Ret res /\
    ((allows options = true \/ forall name g, G !! name = Some g -> g_is_external g = true -> g_is_defined g = true) ->
     (forall name, options ≫= entry_symbol_name = Some name -> name <> [] -> exists g, G !! name = Some g /\ g_is_defined g = true) -> res <> None) /\
    forall r', res = Some r' -> (exists e, r' = mkResolution (objects r) (sections r) (symbols r) (symbol_capacity r) (symbol_buckets r) e) /\
      (allows options = false -> forall name g, G !! name = Some g -> g_is_external g = true -> g_is_defined g = true) /\
      (forall name, options ≫= entry_symbol_name = Some name -> name <> [] ->
         exists i g, entry_symbol r' = Some i /\ symbols r' !! i = Some g /\ g_name g = Some name /\ g_is_defined g = true).
Proof.
  intros H. unfold link_resolution_validate_externals. fold (allows options).
  assert (existsb unresolved (symbols r) = false <-> forall name g, G !! name = Some g -> g_is_external g = true -> g_is_defined g = true) as Hun.
  { split.
    - intros Hf name g HG He. destruct (gl_map _ _ H name g HG) as (_ & i & Hi). apply list_elem_of_lookup_2, list_elem_of_In in Hi.
      destruct (g_is_defined g) eqn:Ed; [done|]. assert (existsb unresolved (symbols r) = true); [|congruence]. apply existsb_exists. exists g. split; [done|]. unfold unresolved. by rewrite He, Ed.
    - intros Hd. apply not_true_is_false. intros (g & Hg%list_elem_of_In & Hu)%existsb_exists. apply list_elem_of_lookup in Hg as [i Hi].
      destruct (gl_symbols _ _ H i g Hi) as (name & _ & HG). unfold unresolved in Hu. apply andb_true_iff in Hu as [He Hnd]. by rewrite (Hd name g HG He) in Hnd. }
  assert (forall name : cstring, name <> [] -> exists res, (let! g := link_resolution_find_symbol r (Some name) in
      match g with None => Ret None | Some g => let! y := get (symbols r) (Z.of_nat g) in Ret (if g_is_defined y then Some (with_entry g r) else None) end) = Ret res /\
    ((exists g, G !! name = Some g /\ g_is_defined g = true) -> res <> None) /\
    forall r', res = Some r' -> exists i g, r' = with_entry i r /\ symbols r !! i = Some g /\ g_name g = Some name /\ g_is_defined g = true) as Hentry.
  { intros name _. destruct (find_symbol_ok r G name H) as (found & E & Hf). rewrite E. cbn [obind]. destruct found as [i|].
    - destruct Hf as (g & Hi & HG). rewrite (get_nat _ _ _ Hi). cbn [obind]. eexists. split; [done|]. split.
      + intros (g' & HG' & Hd). assert (g' = g) as -> by congruence. by rewrite Hd.
      + intros r' Er. destruct (g_is_defined g) eqn:Ed; [|done]. injection Er as <-. exists i, g. split; [done|]. split; [done|]. split; [|done]. by apply (gl_map _ _ H name).
    - exists None. split; [done|]. split; [|done]. intros (g & HG & _). congruence. }
  destruct (negb (allows options) && existsb unresolved (symbols r)) eqn:Eu.
  { apply andb_true_iff in Eu as [Ea%negb_true_iff Ee]. exists None. split; [done|]. split; [|done]. intros [Ha|Hd]; [congruence|]. apply Hun in Hd. congruence. }
  assert (allows options = false -> forall name g, G !! name = Some g -> g_is_external g = true -> g_is_defined g = true) as Hall.
  { intros Ha. rewrite Ha in Eu. cbn in Eu. by apply Hun. }
  destruct (options ≫= entry_symbol_name) as [[|c name]|] eqn:Een.
  - exists (Some r). split; [done|]. split; [done|]. intros r' [= <-]. split; [by exists (entry_symbol r); destruct r|]. split; [done|]. by intros ? [= <-].
  - destruct (Hentry (c :: name)) as (res & E & Hne & Hres); [done|]. exists res. split; [done|]. split; [intros _ He; by apply Hne, He|].
    intros r' Er. destruct (Hres r' Er) as (i & g & -> & Hi & Hn & Hd). split; [by exists (Some i)|]. split; [done|]. intros name' [= <-] _. by exists i, g.
  - exists (Some r). split; [done|]. split; [done|]. intros r' [= <-]. split; [by exists (entry_symbol r); destruct r|]. split; done.
Qed.

(** * The promise *)

(** A symbol outside the object, found at the place of a definition of its
    name: one by a user object, if there is one in the image. *)
Definition found_elsewhere (r : LinkResolution) (f : LinkedInputObject) (symbol_index : Z) (name : cstring) : Prop :=
  exists t k f' o' y', relocation_resolve_target r f symbol_index = Ret (Some t) /\ objects r !! k = Some f' /\ i_object f' = Some o' /\ y' ∈ o_symbols o' /\
    y_is_auxiliary y' = false /\ y_is_external y' = true /\ y_name y' = Some name /\ place_of r k (y_section_index y') (y_value y') t /\
    (i_is_runtime_default f' = true -> forall k' f2 o2 y2, objects r !! k' = Some f2 -> i_is_runtime_default f2 = false -> i_object f2 = Some o2 -> y2 ∈ o_symbols o2 ->
       y_is_auxiliary y2 = false -> y_is_external y2 = true -> y_name y2 = Some name -> 0 <= y_section_index y2 -> ~ kept r k' (Z.to_nat (y_section_index y2))).

(** No kept section of the image defines the name. *)
Definition defined_nowhere (r : LinkResolution) (name : cstring) : Prop :=
  forall k f o y, objects r !! k = Some f -> i_object f = Some o -> y ∈ o_symbols o ->
    y_is_auxiliary y = false -> y_is_external y = true -> y_name y = Some name -> 0 <= y_section_index y -> ~ kept r k (Z.to_nat (y_section_index y)).

Record linked (options : option LinkResolutionOptions) (r : LinkResolution) : Prop := {
  li_addresses : forall j k m m', (j < k)%nat -> sections r !! j = Some m -> sections r !! k = Some m' -> m_virtual_size m <> 0 -> m_virtual_size m' <> 0 ->
    m_virtual_address m + m_virtual_size m <= m_virtual_address m';
  li_entry : forall name, options ≫= entry_symbol_name = Some name -> name <> [] ->
    exists i g, entry_symbol r = Some i /\ symbols r !! i = Some g /\ g_name g = Some name /\ g_is_defined g = true;
  li_inside : forall oi f o i s rel y, objects r !! oi = Some f -> i_object f = Some o -> o_sections o !! i = Some s -> kept r oi i -> rel ∈ s_relocations s ->
    o_symbols o !! Z.to_nat (r_symbol_index rel) = Some y -> y_is_auxiliary y = false -> 0 <= y_section_index y ->
    (forall s', o_sections o !! Z.to_nat (y_section_index y) = Some s' -> s_kind s' <> LINK_SECTION_KIND_UNKNOWN) ->
    exists t, relocation_resolve_target r f (r_symbol_index rel) = Ret (Some t) /\ place_of r oi (y_section_index y) (y_value y) t;
  li_outside : forall oi f o i s rel y name, objects r !! oi = Some f -> i_object f = Some o -> o_sections o !! i = Some s -> kept r oi i ->
    rel ∈ s_relocations s -> o_symbols o !! Z.to_nat (r_symbol_index rel) = Some y -> y_is_auxiliary y = false -> y_section_index y = LINK_SECTION_INDEX_UNDEFINED ->
    y_is_external y = true -> y_name y = Some name ->
    found_elsewhere r f (r_symbol_index rel) name \/
    allows options = true /\ defined_nowhere r name /\ relocation_resolve_target r f (r_symbol_index rel) = Ret None
}.

Section Promise.
Context (options : option LinkResolutionOptions) (r0 : LinkResolution) (E : gmap cstring GcDefinition) (inputs1 : list LinkedInputObject)
  (pss : list (list placement)) (G : gmap cstring LinkedSymbol) (r3 : LinkResolution).
Context (Hok : loaded_ok options (objects r0)) (HP : passed options r0 E inputs1 pss G r3).

#[local] Abbreviation inputs2 := (zip_with with_places pss inputs1).
#[local] Abbreviation ms := (assign_sections (alignment_of options) 0 (sections r3)).
#[local] Abbreviation last := (final options r3).

(** An object of the image and the ones it comes from. *)
Lemma final_object oi f o : objects last !! oi = Some f -> i_object f = Some o ->
  exists input2, inputs2 !! oi = Some input2 /\ f = final_input options r3 oi input2 /\ i_object input2 = Some o /\ input_symbols input2 = o_symbols o /\ input_sections input2 = o_sections o.
Proof using HP.
  intros Hf Ho. rewrite (final_lookup _ _ _ _ _ _ _ HP) in Hf. destruct (inputs2 !! oi) as [input2|]; [|done]. injection Hf as <-. exists input2.
  change (i_object (final_input options r3 oi input2)) with (i_object input2) in Ho. unfold input_symbols, input_sections. by rewrite Ho.
Qed.

Lemma kept_needed oi f o i s : objects last !! oi = Some f -> i_object f = Some o -> o_sections o !! i = Some s -> kept last oi i ->
  needed E (options ≫= entry_symbol_name) (flagged_inputs options (objects r0)) oi i.
Proof using HP.
  intros Hf Ho Hs (f' & k & Hf' & Hk & Hne). destruct (final_object oi f o Hf Ho) as (input2 & H2 & -> & _ & _ & Es). rewrite Hf in Hf'. injection Hf' as <-.
  eapply (image_needed _ _ _ _ _ _ _ HP); [exact H2|by rewrite Es|exact Hk|done].
Qed.

Lemma resolve_symbol oi input2 rel y : inputs2 !! oi = Some input2 -> 0 <= r_symbol_index rel -> input_symbols input2 !! Z.to_nat (r_symbol_index rel) = Some y -> y_is_auxiliary y = false ->
  relocation_resolve_target last (final_input options r3 oi input2) (r_symbol_index rel) =
    let x := at_address ms (mapped input2 oi (Z.to_nat (r_symbol_index rel)) y) in
    if lies input2 y then Ret (Some (mkTarget (os_merged_section_index x) (os_merged_offset x) (os_virtual_address x)))
    else let! g := link_resolution_find_symbol last (y_name y) in
      match g with
      | None => Ret None
      | Some g => let! g := get (symbols last) (Z.of_nat g) in
          if negb (g_is_defined g) || (g_merged_section_index g =? LINKED_SECTION_INDEX_NONE) then Ret None
          else Ret (Some (mkTarget (g_merged_section_index g) (g_merged_offset g) (g_virtual_address g)))
      end.
Proof using.
  clear. intros H2 Hpos Hy Ha. unfold relocation_resolve_target. pose proof (final_symbol options inputs1 pss r3 oi input2 _ y H2 Hy) as Hs. apply lookup_lt_Some in Hs as Hlt.
  rewrite (proj2 (Z.leb_gt _ _)) by lia. assert (get (i_symbols (final_input options r3 oi input2)) (r_symbol_index rel) = Ret (at_address ms (mapped input2 oi (Z.to_nat (r_symbol_index rel)) y))) as ->.
  { rewrite <- (Z2Nat.id (r_symbol_index rel)) at 1 by lia. by apply get_nat. }
  cbn [obind]. cbn zeta. cbn [os_is_auxiliary at_address mapped]. rewrite Ha. cbn [os_is_defined at_address mapped os_merged_section_index].
  destruct (lies input2 y) eqn:El; cbn [andb]; [|done]. unfold lies in El. apply andb_true_iff in El as [_ El]. by rewrite El.
Qed.

Lemma relocation_nonneg oi f o i s rel : objects last !! oi = Some f -> i_object f = Some o -> o_sections o !! i = Some s -> rel ∈ s_relocations s -> 0 <= r_symbol_index rel.
Proof using Hok HP.
  intros Hf Ho Hs Hrel. destruct (final_object oi f o Hf Ho) as (input2 & H2 & _ & _ & _ & Es).
  destruct (passed_input _ _ _ _ _ _ _ HP oi input2 H2) as (input0 & input1 & ps & H0 & _ & _ & -> & Eo & _).
  destruct (flagged_lookup _ _ _ _ Hok H0) as (_ & _ & input & Hi & Ei). eapply (lo_relocations _ _ Hok oi i s); [|done].
  exists input. split; [done|]. rewrite (input_sections_same input input1) by congruence. change (input_sections (with_places ps input1)) with (input_sections input1) in Es. by rewrite Es.
Qed.

Lemma promise_inside oi f o i s rel y : objects last !! oi = Some f -> i_object f = Some o -> o_sections o !! i = Some s -> kept last oi i -> rel ∈ s_relocations s ->
  o_symbols o !! Z.to_nat (r_symbol_index rel) = Some y -> y_is_auxiliary y = false -> 0 <= y_section_index y ->
  (forall s', o_sections o !! Z.to_nat (y_section_index y) = Some s' -> s_kind s' <> LINK_SECTION_KIND_UNKNOWN) ->
  exists t, relocation_resolve_target last f (r_symbol_index rel) = Ret (Some t) /\ place_of last oi (y_section_index y) (y_value y) t.
Proof using Hok HP.
  intros Hf Ho Hs Hkept Hrel Hy Ha Hsec Hkind. pose proof (relocation_nonneg oi f o i s rel Hf Ho Hs Hrel) as Hpos. pose proof (kept_needed oi f o i s Hf Ho Hs Hkept) as Hn.
  destruct (final_object oi f o Hf Ho) as (input2 & H2 & -> & Ho2 & Ey & Es). rewrite <- Ey in Hy.
  pose proof (Forall_lookup_1 _ _ _ _ (pd_ranges _ _ _ _ _ _ _ HP) H2) as Hr. pose proof (Forall_lookup_1 _ _ _ _ Hr Hy) as Hin. cbn in Hin.
  unfold in_range in Hin. rewrite Ha in Hin. cbn [orb] in Hin. apply Z.ltb_lt in Hin.
  destruct (lookup_lt_is_Some_2 (input_sections input2) (Z.to_nat (y_section_index y))) as [s' Hs']; [lia|].
  destruct (passed_input _ _ _ _ _ _ _ HP oi input2 H2) as (input0 & input1 & ps & H0 & _ & _ & E2 & Eo & _).
  assert (i_object input0 = Some o) as Ho0 by (rewrite <- Eo; by rewrite E2 in Ho2).
  assert (needed E (options ≫= entry_symbol_name) (flagged_inputs options (objects r0)) oi (Z.to_nat (y_section_index y))) as Hn'.
  { eapply needed_refers; [exact Hn|exact H0|exact Ho0|exact Hs|exact Hrel|]. unfold refers. rewrite <- Ey, Hy. cbn [mbind option_bind]. rewrite Ha, <- Es, (proj2 (Z.leb_le _ _) Hsec), (proj2 (Z.ltb_lt _ _) Hin). done. }
  destruct (needed_image _ _ _ _ _ _ _ HP oi _ input2 s' Hn' H2 Hs') as (p & Hp & _ & Hne & _); [apply Hkind; by rewrite <- Es|].
  assert (lies input2 y = true) as Hl.
  { unfold lies, merged_index. rewrite Ha, (proj2 (Z.leb_le _ _) Hsec), Hp. cbn. by apply negb_true_iff, Z.eqb_neq. }
  pose proof (lies_place _ _ _ _ _ _ _ HP oi input2 _ y H2 Hy Hl) as Hplace. eexists. split; [|exact Hplace].
  rewrite (resolve_symbol oi input2 rel y H2 Hpos Hy Ha). cbn zeta. rewrite Hl. do 3 f_equal. unfold at_address. cbn. by rewrite Hl.
Qed.

Lemma promise_outside oi f o i s rel y name :
  (allows options = false -> forall name g, G !! name = Some g -> g_is_external g = true -> g_is_defined g = true) ->
  objects last !! oi = Some f -> i_object f = Some o -> o_sections o !! i = Some s -> kept last oi i ->
  rel ∈ s_relocations s -> o_symbols o !! Z.to_nat (r_symbol_index rel) = Some y -> y_is_auxiliary y = false -> y_section_index y = LINK_SECTION_INDEX_UNDEFINED ->
  y_is_external y = true -> y_name y = Some name ->
  found_elsewhere last f (r_symbol_index rel) name \/
  allows options = true /\ defined_nowhere last name /\ relocation_resolve_target last f (r_symbol_index rel) = Ret None.
Proof using Hok HP.
  intros Hall Hf Ho Hs Hkept Hrel Hy Ha Hsec Hext Hname. pose proof (relocation_nonneg oi f o i s rel Hf Ho Hs Hrel) as Hpos. pose proof (kept_needed oi f o i s Hf Ho Hs Hkept) as Hn.
  destruct (final_object oi f o Hf Ho) as (input2 & H2 & -> & Ho2 & Ey & Es). rewrite <- Ey in Hy. set (j := Z.to_nat (r_symbol_index rel)) in *.
  destruct (passed_input _ _ _ _ _ _ _ HP oi input2 H2) as (input0 & input1 & ps & H0 & _ & _ & E2 & Eo & Hko & _).
  assert (input_sections input0 = o_sections o /\ input_symbols input0 = input_symbols input2) as [Es0 Ey0].
  { rewrite <- Es. subst input2. change (input_sections (with_places ps input1)) with (input_sections input1). change (input_symbols (with_places ps input1)) with (input_symbols input1).
    by rewrite (input_sections_same _ _ Eo), (input_symbols_same _ _ Eo). }
  apply lookup_lt_Some in Hy as Hlt.
  assert (left input2 j y = false) as Hleft.
  { unfold left. rewrite Ha, Hsec. cbn [orb andb Z.leb]. change (0 <=? LINK_SECTION_INDEX_UNDEFINED) with false. rewrite Z.eqb_refl. cbn [orb andb].
    destruct (i_symbol_gc_referenced input2) as [l|] eqn:El; [|done]. subst input2. rewrite (ko_mentioned _ _ _ _ _ _ Hko i s j l); [done|by rewrite Es0|done|by rewrite Ey0| |done].
    exists rel. split; [done|]. unfold j. lia. }
  assert (lies input2 y = false) as Hl by (unfold lies; rewrite Hsec; by rewrite andb_false_r).
  assert ((i_is_runtime_default input2, mapped input2 oi j y) ∈ all_records inputs2 0) as Hrec.
  { apply all_records_In. exists oi, input2, j, y. split; [done|]. split; [done|]. split; [|done]. apply recorded_Some. split; [done|]. split; [done|]. split; [done|]. by rewrite Hname. }
  destruct (te_recorded _ _ _ (table_tells _ _ _ _ _ _ _ HP) _ _ name Hrec Hname) as (g & HG & _).
  destruct (te_entry _ _ _ (table_tells _ _ _ _ _ _ _ HP) name g HG) as [Hge _].
  pose proof (resolve_symbol oi input2 rel y H2 Hpos Hy Ha) as Hres. cbn zeta in Hres. rewrite Hl, Hname in Hres.
  destruct (find_symbol_ok last _ name (final_globals _ _ _ _ _ _ _ HP)) as (found & Ef & Hfound). rewrite Ef in Hres. cbn [obind] in Hres.
  rewrite lookup_fmap, HG in Hfound. cbn [fmap option_fmap option_map] in Hfound.
  destruct found as [n|]; [|done]. destruct Hfound as (g' & Hg' & [= <-]). rewrite (get_nat _ _ _ Hg') in Hres.
  cbn [obind at_address_g g_is_defined g_merged_section_index g_merged_offset g_virtual_address] in Hres.
  destruct (g_is_defined g) eqn:Hgd; cbn [negb orb] in Hres.
  - left. destruct (name_place _ _ _ _ _ _ _ HP name g HG Hgd) as (k & f' & o' & j' & y' & Hf' & Ho' & Hy' & Ha' & He' & Hn' & Hne & Hplace & Huser).
    eexists _, k, f', o', y'. split; [|split; [done|]; split; [done|]; split; [by eapply list_elem_of_lookup_2|]; split; [done|]; split; [done|]; split; [done|]; split; [exact Hplace|exact Huser]].
    rewrite Hres, (proj2 (Z.eqb_neq _ _) Hne). unfold address. by rewrite (proj2 (Z.eqb_neq _ _) Hne).
  - right. split; [destruct (allows options); [done|]; by rewrite (Hall eq_refl name g HG Hge) in Hgd|]. split; [|exact Hres].
    intros k f' o' y' Hf' Ho' Hy' Ha' He' Hn' Hs' Hk'.
    destruct (kept_recorded _ _ _ _ _ _ _ HP k f' o' y' name Hf' Ho' Hy' Ha' He' Hn' Hs' Hk') as (x & Hx & Hxn & Hxd).
    destruct (te_recorded _ _ _ (table_tells _ _ _ _ _ _ _ HP) _ _ name Hx Hxn) as (g2 & HG2 & Hd2). assert (g2 = g) as -> by congruence.
    by rewrite Hd2 in Hgd.
Qed.

Lemma last_passes_ok : exists res, last_passes options r3 = Ret res /\
  ((allows options = true \/ forall name g, G !! name = Some g -> g_is_defined g = true) ->
   (forall name, options ≫= entry_symbol_name = Some name -> name <> [] -> exists g, G !! name = Some g /\ g_is_defined g = true) -> res <> None) /\
  forall r, res = Some r -> linked options r.
Proof using Hok HP.
  unfold last_passes. rewrite (assign_virtual_addresses_ok r3 (alignment_of options) (passed_placed _ _ _ _ _ _ _ HP)). cbn [obind]. fold last.
  destruct (validate_ok last _ options (final_globals _ _ _ _ _ _ _ HP)) as (res & E1 & Hne & Hres). exists res. split; [done|].
  assert (forall name g, G !! name = Some g -> (at_address_g ms <$> G) !! name = Some (at_address_g ms g)) as HG by (intros name g Hg; by rewrite lookup_fmap, Hg).
  split.
  - intros Hall Hent. apply Hne.
    + destruct Hall as [?|Hall]; [by left|right]. intros name g Hg _. rewrite lookup_fmap in Hg. destruct (G !! name) as [g0|] eqn:Eg; [|done]. injection Hg as <-. exact (Hall name g0 Eg).
    + intros name En Hn. destruct (Hent name En Hn) as (g & Hg & Hd). exists (at_address_g ms g). split; [by apply HG|done].
  - intros r Er. destruct (Hres r Er) as ((e & ->) & Hall & Hent).
    assert (allows options = false -> forall name g, G !! name = Some g -> g_is_external g = true -> g_is_defined g = true) as Hall'.
    { intros Hal name g Hg He. by apply (Hall Hal name (at_address_g ms g) (HG name g Hg)). }
    split.
    + apply (as_order _ _ _ _ (assigned_ok _ _ _ _ _ _ _ Hok HP)).
    + exact Hent.
    + exact promise_inside.
    + intros oi f o i s rel y name. apply (promise_outside oi f o i s rel y name Hall').
Qed.
End Promise.

(** Linking always returns, and keeps its promise when it succeeds. *)
Lemma resolve_linked options r0 h : unlinked r0 -> loaded_ok options (objects r0) ->
  exists res h', resolve r0 options h = Ret (res, h') /\ forall r, res = Some r -> linked options r.
Proof.
  intros Hun Hok. rewrite (resolve_passes _ _ _ Hok). destruct (first_passes_ok options r0 h Hun Hok) as (res & h' & E1 & Hres & _). rewrite E1. cbn [obind].
  destruct res as [r3|]; [|by exists None, h']. destruct (Hres r3 eq_refl) as (E & inputs1 & pss & G & HP).
  destruct (last_passes_ok options r0 E inputs1 pss G r3 Hok HP) as (res & E2 & _ & Hl). rewrite E2. cbn [obind]. by exists res, h'.
Qed.
End LinkTheorem.
