(* ===== verification/LinkSuccess.v ===== *)
(** When a link succeeds: given memory, whenever no two definitions of a name
    clash and everything that is needed is defined. *)
From S2P Require Import Prelude Probe LinkObjects LinkObjectsCorrect SectionMerge SectionMergeCorrect SectionGc SectionGcCorrect.
From S2P Require Import SectionGcReach SymbolResolve GlobalSymbols ObjectSymbols LinkAddresses LinkResolve LinkTheorem.
From stdpp Require Import gmap.
#[local] Open Scope Z_scope.

Module LinkSuccess.
Import LinkObjects LinkObjectsCorrect SectionMerge SectionMergeCorrect SectionGc SectionGcCorrect SectionGcReach SymbolResolve GlobalSymbols ObjectSymbols LinkAddresses LinkResolve LinkTheorem.

(** * Definitions that do not clash *)

(** A name may be defined once by a user object and once by a runtime
    default. *)
Definition definition_key (d : GcDefinition) : cstring * bool := (d_name d, d_is_runtime_default d).
Definition clash_free (inputs : list LinkedInputObject) : Prop := NoDup (definition_key <$> definitions_of inputs 0).

Lemma add_definitions_total ds : forall l E, NoDup (definition_key <$> l ++ ds) -> (forall name e, E !! name = Some e -> e ∈ l /\ d_name e = name) -> add_definitions E ds <> None.
Proof.
  induction ds as [|d ds IH]; intros l E Hnd HE; cbn [add_definitions]; [done|].
  assert (exists E', add_definition E d = Some E' /\ forall name e, E' !! name = Some e -> e ∈ l ++ [d] /\ d_name e = name) as (E' & -> & HE').
  { assert (forall e', e' ∈ l ++ [d] -> d_name e' = d_name d -> forall name e, <[d_name d := e']> E !! name = Some e -> e ∈ l ++ [d] /\ d_name e = name) as Hins.
    { intros e' Hin Hn name e He. destruct (decide (name = d_name d)) as [->|Hne]; [rewrite lookup_insert_eq in He; by injection He as <-|].
      rewrite lookup_insert_ne in He by done. destruct (HE name e He). split; [apply elem_of_app; by left|done]. }
    assert (d ∈ l ++ [d]) as Hd by (apply elem_of_app; right; by left).
    unfold add_definition. destruct (E !! d_name d) as [e|] eqn:Ee; [|eexists; split; [done|by apply Hins]]. destruct (HE _ _ Ee) as [Hin Hn].
    unfold prefer. destruct (eqb (d_is_runtime_default e) (d_is_runtime_default d)) eqn:Eb.
    - exfalso. apply eqb_prop in Eb. rewrite fmap_app in Hnd. apply NoDup_app in Hnd as (_ & Hdis & _). apply (Hdis (definition_key e)); [by apply list_elem_of_fmap_2|].
      cbn. unfold definition_key at 1. rewrite Hn, Eb. by left.
    - eexists. split; [done|]. destruct (d_is_runtime_default e); apply Hins; [done|done|apply elem_of_app; by left|done]. }
  cbn [mbind option_bind]. apply (IH (l ++ [d])); [by rewrite <- app_assoc|done].
Qed.

Lemma clash_free_definitions inputs : clash_free inputs -> definitions inputs <> None.
Proof. intros H. apply (add_definitions_total _ []); [done|]. intros name e. by rewrite lookup_empty. Qed.

(** ** The records follow the definitions *)

Definition record_key (x : bool * LinkedObjectSymbol) : option (cstring * bool) := if os_is_defined (snd x) then (fun n => (n, fst x)) <$> os_name (snd x) else None.

Lemma omap_NoDup_lookup {A B} (f : A -> option B) l i j a b k : (i < j)%nat -> NoDup (omap f l) -> l !! i = Some a -> l !! j = Some b -> f a = Some k -> f b = Some k -> False.
Proof.
  intros Hij Hnd Hi Hj Ha Hb. rewrite <- (take_drop (S i) l), omap_app in Hnd. apply NoDup_app in Hnd as (_ & Hdis & _). apply (Hdis k).
  - apply list_elem_of_omap. exists a. split; [|done]. eapply list_elem_of_lookup_2 with (i := i). rewrite lookup_take by lia. rewrite decide_True by lia. done.
  - apply list_elem_of_omap. exists b. split; [|done]. eapply list_elem_of_lookup_2 with (i := (j - S i)%nat). rewrite lookup_drop. by replace (S i + (j - S i))%nat with j by lia.
Qed.

Lemma one_key x : omap record_key (option_list (Some x)) = option_list (record_key x).
Proof. cbn. by destruct (record_key x). Qed.

Lemma object_keys input0 input2 oi ys : input_sections input2 = input_sections input0 -> i_is_runtime_default input2 = i_is_runtime_default input0 ->
  Forall (fun y => in_range (length (input_sections input2)) y = true) ys -> forall j,
  omap record_key (object_records input2 oi ys j) `sublist_of` (definition_key <$> omap (gc_definition oi (length (input_sections input0)) (i_is_runtime_default input0)) ys).
Proof.
  intros Es Eb. induction 1 as [|y ys Hy _ IH]; intros j; cbn [object_records omap list_omap fmap list_fmap]; [constructor|].
  rewrite omap_app. specialize (IH (S j)).
  destruct (recorded input2 oi j y) as [x|] eqn:Er; cbn [fmap option_fmap option_map].
  2:{ cbn. destruct (gc_definition _ _ _ y); cbn [fmap list_fmap app]; [by apply sublist_cons|done]. }
  apply recorded_Some in Er as (-> & Hleft & Hext & Hn). destruct (y_name y) as [name|] eqn:En; [|done].
  assert (record_key (i_is_runtime_default input2, mapped input2 oi j y) = if lies input2 y then Some (name, i_is_runtime_default input2) else None) as Ekey.
  { unfold record_key. cbn. rewrite En. by destruct (lies input2 y). }
  rewrite one_key, Ekey. destruct (lies input2 y) eqn:El.
  2:{ cbn. destruct (gc_definition _ _ _ y); cbn [fmap list_fmap]; [by apply sublist_cons|done]. }
  unfold lies in El. apply andb_true_iff in El as [El _]. apply andb_true_iff in El as [Ha%negb_true_iff Hp%Z.leb_le].
  unfold in_range in Hy. rewrite Ha in Hy. cbn [orb] in Hy. apply Z.ltb_lt in Hy. rewrite Es in Hy.
  assert (gc_definition oi (length (input_sections input0)) (i_is_runtime_default input0) y = Some (mkDefinition name oi (Z.to_nat (y_section_index y)) (i_is_runtime_default input0))) as Eg.
  { apply gc_definition_Some. split; [done|]. split; [done|]. split; [lia|]. by exists name. }
  rewrite Eg. cbn. unfold definition_key at 1. cbn. rewrite Eb. by apply sublist_skip.
Qed.

Lemma all_keys inputs0 inputs2 : Forall2 (fun input0 input2 => i_object input2 = i_object input0 /\ i_is_runtime_default input2 = i_is_runtime_default input0) inputs0 inputs2 ->
  Forall ranges_ok inputs2 -> forall oi, omap record_key (all_records inputs2 oi) `sublist_of` (definition_key <$> definitions_of inputs0 oi).
Proof.
  induction 1 as [|input0 input2 inputs0 inputs2 [Eo Eb] _ IH]; intros Hr oi; cbn [all_records definitions_of]; [constructor|].
  apply Forall_cons in Hr as [Hr0 Hr]. rewrite omap_app, fmap_app. apply sublist_app; [|by apply IH]. unfold object_definitions.
  rewrite <- (input_symbols_same _ _ Eo). apply object_keys; [by apply input_sections_same|done|exact Hr0].
Qed.

Lemma records_total inputs0 inputs2 : clash_free inputs0 -> Forall2 (fun input0 input2 => i_object input2 = i_object input0 /\ i_is_runtime_default input2 = i_is_runtime_default input0) inputs0 inputs2 ->
  Forall ranges_ok inputs2 -> record_all (by_default inputs2) (all_records inputs2 0) ∅ <> None.
Proof.
  intros Hc H2 Hr Hnone. assert (flagged (by_default inputs2) (all_records inputs2 0)) as Hfl.
  { intros b x Hin. apply all_records_In in Hin as (k & input & j & y & Hk & Hj & Hx & ->). apply recorded_Some in Hx as (-> & _ & _ & Hn). cbn. unfold by_default. by rewrite Hk. }
  pose proof (record_all_tells _ _ Hfl) as H. rewrite Hnone in H. destruct H as (i & j & b & y & y' & Hij & Hi & Hj & En & Hd & Hd').
  destruct (Hfl b y ltac:(by eapply list_elem_of_lookup_2)) as [_ Hn]. destruct (os_name y) as [name|] eqn:Ey; [|done].
  eapply (omap_NoDup_lookup record_key _ i j _ _ (name, b) Hij); [eapply sublist_NoDup; [exact Hc|by apply all_keys]|exact Hi|exact Hj|..]; unfold record_key; cbn.
  - by rewrite Hd, Ey.
  - by rewrite Hd', <- En.
Qed.

(** * Everything needed is defined *)

(** Symbols lie in sections of known kinds or are undefined; there are no
    absolute and no common ones. *)
Definition plain_symbol (input : LinkedInputObject) (y : LinkSymbol) : Prop :=
  y_is_auxiliary y = true \/ (y_section_index y < Z.of_nat (length (input_sections input)) /\
    (y_is_external y = true -> y_section_index y = LINK_SECTION_INDEX_UNDEFINED \/
       (0 <= y_section_index y /\ forall s, input_sections input !! Z.to_nat (y_section_index y) = Some s -> s_kind s <> LINK_SECTION_KIND_UNKNOWN))).

(** What a link needs besides memory. *)
Record linkable (options : option LinkResolutionOptions) (inputs : list LinkedInputObject) : Prop := {
  lk_clash_free : clash_free inputs;
  lk_plain : forall input y, input ∈ inputs -> y ∈ input_symbols input -> plain_symbol input y;
  lk_sections : total (fun input => length (input_sections input)) inputs <> 0%nat;
  lk_defined : forall E, definitions inputs = Some E -> allows options = false -> forall oi i input s rel y name, needed E (options ≫= entry_symbol_name) inputs oi i ->
    inputs !! oi = Some input -> input_sections input !! i = Some s -> rel ∈ s_relocations s -> input_symbols input !! Z.to_nat (r_symbol_index rel) = Some y ->
    y_is_auxiliary y = false -> y_is_external y = true -> y_section_index y = LINK_SECTION_INDEX_UNDEFINED -> y_name y = Some name -> is_Some (E !! name);
  lk_entry : forall E name, definitions inputs = Some E -> options ≫= entry_symbol_name = Some name -> name <> [] -> is_Some (E !! name)
}.

Section Success.
Context (options : option LinkResolutionOptions) (r0 : LinkResolution).
Context (Hok : loaded_ok options (objects r0)) (Hlk : linkable options (flagged_inputs options (objects r0))).

#[local] Abbreviation inputs0 := (flagged_inputs options (objects r0)).
#[local] Abbreviation entry := (options ≫= entry_symbol_name).

Lemma linkable_recordable E inputs1 pss mss : (forall oi input, inputs0 !! oi = Some input -> exists input1, inputs1 !! oi = Some input1 /\ kept_ok E entry inputs0 oi input input1) ->
  same_objects inputs1 inputs0 -> laid_out (alignment_of options) inputs1 pss mss -> recordable pss inputs1.
Proof using Hlk.
  intros Hkept Hsame [Hl _]. pose proof (Forall2_length _ _ _ Hl) as Hlen.
  assert (length inputs1 = length inputs0) as Hlen0 by (apply (f_equal length) in Hsame; by rewrite !length_fmap in Hsame).
  assert (Forall2 (fun input0 input2 => i_object input2 = i_object input0 /\ i_is_runtime_default input2 = i_is_runtime_default input0) inputs0 (zip_with with_places pss inputs1)) as H2.
  { apply Forall2_same_length_lookup_2; [rewrite length_zip_with; lia|]. intros k input0 input2 H0 Hk. apply lookup_zip_with_Some in Hk as (ps & input1 & -> & _ & H1).
    destruct (Hkept k input0 H0) as (x & Hx & Hko). assert (x = input1) as -> by congruence. cbn. split; [apply Hko|apply Hko]. }
  assert (Forall ranges_ok (zip_with with_places pss inputs1)) as Hr.
  { apply Forall_lookup_2. intros k input2 Hk. apply Forall2_flip in H2. destruct (Forall2_lookup_l _ _ _ _ _ H2 Hk) as (input0 & H0 & Eo & _).
    apply Forall_lookup_2. intros j y Hy. rewrite (input_symbols_same _ _ Eo) in Hy. rewrite (input_sections_same _ _ Eo). unfold in_range.
    destruct (lk_plain _ _ Hlk input0 y) as [->|[Hlt _]]; [by eapply list_elem_of_lookup_2|by eapply list_elem_of_lookup_2|done|].
    rewrite (proj2 (Z.ltb_lt _ _) Hlt). by destruct (y_is_auxiliary y). }
  split; [done|]. apply (records_total inputs0); [apply Hlk|done|done].
Qed.

Context (E : gmap cstring GcDefinition) (inputs1 : list LinkedInputObject) (pss : list (list placement)) (G : gmap cstring LinkedSymbol) (r3 : LinkResolution).
Context (HP : passed options r0 E inputs1 pss G r3).

#[local] Abbreviation inputs2 := (zip_with with_places pss inputs1).

(** A symbol of a needed section with a name is in the table, and defined. *)
Lemma needed_defined k input2 j y name : inputs2 !! k = Some input2 -> input_symbols input2 !! j = Some y -> y_is_auxiliary y = false -> y_is_external y = true ->
  0 <= y_section_index y -> y_name y = Some name -> needed E entry inputs0 k (Z.to_nat (y_section_index y)) -> exists g, G !! name = Some g /\ g_is_defined g = true.
Proof using Hlk HP.
  intros Hk Hj Ha He Hs Hn Hneed. destruct (passed_input _ _ _ _ _ _ _ HP k input2 Hk) as (input0 & input1 & ps & H0 & H1 & Hps & E2 & Eo & Hko & _).
  assert (i_object input2 = i_object input0) as Eo2 by (by rewrite E2).
  destruct (lk_plain _ _ Hlk input0 y) as [Ha'|[Hlt Hkind]]; [by eapply list_elem_of_lookup_2|rewrite <- (input_symbols_same _ _ Eo2); by eapply list_elem_of_lookup_2|congruence|].
  destruct (Hkind He) as [Hu|[_ Hkd]]; [unfold LINK_SECTION_INDEX_UNDEFINED in Hu; lia|].
  destruct (lookup_lt_is_Some_2 (input_sections input2) (Z.to_nat (y_section_index y))) as [s Hsec]; [rewrite (input_sections_same _ _ Eo2); lia|].
  destruct (needed_image _ _ _ _ _ _ _ HP k _ input2 s Hneed Hk Hsec) as (p & Hp & _ & Hne & Hdead); [apply Hkd; by rewrite <- (input_sections_same _ _ Eo2)|].
  assert (lies input2 y = true) as Hl.
  { unfold lies, merged_index. rewrite Ha, (proj2 (Z.leb_le _ _) Hs), Hp. cbn. by apply negb_true_iff, Z.eqb_neq. }
  assert (left input2 j y = false) as Hleft.
  { unfold left, LINK_SECTION_INDEX_UNDEFINED. rewrite Ha, (proj2 (Z.leb_le _ _) Hs), (proj2 (Z.eqb_neq _ _)) by lia. cbn [orb andb]. rewrite orb_false_r. exact Hdead. }
  assert ((i_is_runtime_default input2, mapped input2 k j y) ∈ all_records inputs2 0) as Hrec.
  { apply all_records_In. exists k, input2, j, y. split; [done|]. split; [done|]. split; [|done]. apply recorded_Some. split; [done|]. split; [done|]. split; [done|]. by rewrite Hn. }
  destruct (te_recorded _ _ _ (table_tells _ _ _ _ _ _ _ HP) _ _ name Hrec Hn) as (g & HG & Hg). exists g. split; [done|]. by apply Hg.
Qed.

Lemma definition_defined name d : E !! name = Some d -> needed E entry inputs0 (d_object_index d) (d_section_index d) -> exists g, G !! name = Some g /\ g_is_defined g = true.
Proof using Hlk HP.
  intros Hd Hneed. pose proof (pd_definitions _ _ _ _ _ _ _ HP) as HE.
  assert (d_name d = name) as En.
  { unfold definitions in HE. assert (forall ds E0 E', (forall n e, E0 !! n = Some e -> d_name e = n) -> add_definitions E0 ds = Some E' -> forall n e, E' !! n = Some e -> d_name e = n) as Hnames.
    { clear. induction ds as [|x ds IH]; intros E0 E' H0; cbn [add_definitions]; [by intros [= <-]|]. destruct (add_definition E0 x) as [E1|] eqn:E1'; [|done]. cbn [mbind option_bind]. apply IH.
      intros n e He. unfold add_definition in E1'. destruct (E0 !! d_name x) as [e0|] eqn:Ee.
      - destruct (prefer e0 x) as [d'|] eqn:Ep; [|done]. injection E1' as <-. destruct (decide (n = d_name x)) as [->|Hne]; [|rewrite lookup_insert_ne in He by done; by apply H0].
        rewrite lookup_insert_eq in He. injection He as <-. unfold prefer in Ep. destruct (eqb _ _); [done|]. injection Ep as <-. destruct (d_is_runtime_default e0); [done|by apply H0].
      - injection E1' as <-. destruct (decide (n = d_name x)) as [->|Hne]; [rewrite lookup_insert_eq in He; by injection He as <-|rewrite lookup_insert_ne in He by done; by apply H0]. }
    eapply Hnames; [|exact HE|exact Hd]. intros n e. by rewrite lookup_empty. }
  destruct (add_definitions_from _ _ _ _ _ HE Hd) as [H|Hin]; [by rewrite lookup_empty in H|]. apply definitions_of_In in Hin as (k & input0 & y & H0 & Hy & Hg). cbn [Nat.add] in Hg.
  apply gc_definition_Some in Hg as (Ha & He & Hs & n & Hn & ->). cbn [d_name d_object_index d_section_index] in *. subst n.
  destruct (passed_count _ _ _ _ _ _ _ HP k input0 H0) as [input2 Hk]. destruct (passed_input _ _ _ _ _ _ _ HP k input2 Hk) as (x & input1 & ps & Hx & _ & _ & E2 & Eo & _).
  assert (x = input0) as -> by congruence. assert (i_object input2 = i_object input0) as Eo2 by (by rewrite E2). rewrite <- (input_symbols_same _ _ Eo2) in Hy.
  apply list_elem_of_lookup in Hy as [j Hj]. eapply needed_defined; [exact Hk|exact Hj|done|done|lia|done|done].
Qed.

Lemma all_defined : allows options = false -> forall name g, G !! name = Some g -> g_is_defined g = true.
Proof using Hok Hlk HP.
  intros Hal name g HG. destruct (te_entry _ _ _ (table_tells _ _ _ _ _ _ _ HP) name g HG) as (_ & b & x & Hin & Hxn).
  apply all_records_In in Hin as (k & input2 & j & y & Hk & Hj & Hr & ->). cbn [Nat.add] in Hr. apply recorded_Some in Hr as (-> & Hleft & He & _). cbn in Hxn.
  destruct (passed_input _ _ _ _ _ _ _ HP k input2 Hk) as (input0 & input1 & ps & H0 & H1 & Hps & E2 & Eo & Hko & _).
  assert (i_object input2 = i_object input0) as Eo2 by (by rewrite E2).
  assert (y_is_auxiliary y = false) as Ha by (unfold left in Hleft; by destruct (y_is_auxiliary y)).
  pose proof (input_symbols_same _ _ Eo2) as Ey. pose proof (input_sections_same _ _ Eo2) as Es.
  destruct (lk_plain _ _ Hlk input0 y) as [Ha'|[Hlt Hkind]]; [by eapply list_elem_of_lookup_2|rewrite <- Ey; by eapply list_elem_of_lookup_2|congruence|].
  enough (exists g, G !! name = Some g /\ g_is_defined g = true) as (g' & HG' & Hd) by congruence.
  destruct (Hkind He) as [Hu|[Hs Hkd]].
  - (* undefined, and mentioned by a needed section *)
    assert (i_object input0 <> None) as Hobj. { intros En. unfold input_symbols in Hj. rewrite Eo2, En in Hj. by rewrite lookup_nil in Hj. }
    destruct (ko_only _ _ _ _ _ _ Hko (lk_sections _ _ Hlk) Hobj) as (l & El & Honly). apply lookup_lt_Some in Hj as Hjl. rewrite Ey in Hjl.
    assert (l !! j = Some true) as Hlj.
    { unfold left in Hleft. rewrite Ha, Hu in Hleft. cbn [orb] in Hleft. apply orb_false_iff in Hleft as [_ Hleft]. rewrite Z.eqb_refl in Hleft. cbn [andb] in Hleft.
      assert (i_symbol_gc_referenced input2 = Some l) as E3 by (by rewrite E2). rewrite E3 in Hleft.
      pose proof (ko_referenced _ _ _ _ _ _ Hko l El). destruct (lookup_lt_is_Some_2 l j) as [v Hv]; [lia|]. rewrite Hv in *. cbn in Hleft. by destruct v. }
    destruct (Honly j Hjl Hlj) as (i & s & Hneed & Hs & rel & Hrel & Ej).
    assert (input_symbols input0 !! Z.to_nat (r_symbol_index rel) = Some y) as Hy0 by (rewrite Ej, Nat2Z.id, <- Ey; done).
    destruct (lk_defined _ _ Hlk E (pd_definitions _ _ _ _ _ _ _ HP) Hal k i input0 s rel y name Hneed H0 Hs Hrel Hy0 Ha He Hu Hxn) as [d Hd].
    apply (definition_defined name d Hd). destruct (i_object input0) as [o|] eqn:Ho; [|done]. unfold input_sections, input_symbols in *. rewrite Ho in *.
    eapply needed_refers; [exact Hneed|exact H0|exact Ho|exact Hs|exact Hrel|]. unfold refers. rewrite Hy0. cbn [mbind option_bind]. rewrite Ha, Hu.
    change (0 <=? LINK_SECTION_INDEX_UNDEFINED) with false. cbn [andb]. rewrite Z.eqb_refl, Hxn. cbn [mbind option_bind]. by rewrite Hd.
  - (* in a section that stays *)
    destruct (lookup_lt_is_Some_2 (input_sections input2) (Z.to_nat (y_section_index y))) as [s Hsec]; [rewrite Es; lia|].
    destruct (merged_entry _ _ _ _ _ _ _ HP k input2 _ s Hk Hsec) as (p & Hp & _ & Hl). unfold leaves_out in Hl.
    assert (dead_at input2 (Z.to_nat (y_section_index y)) = false) as Hdead.
    { unfold left in Hleft. rewrite Ha, (proj2 (Z.leb_le _ _) Hs) in Hleft. cbn [orb andb] in Hleft. by apply orb_false_iff in Hleft as [? _]. }
    assert (s_kind s <> LINK_SECTION_KIND_UNKNOWN) as Hkd' by (apply Hkd; by rewrite <- Es).
    rewrite Hdead in Hl. destruct (Z.eqb_spec (link_section_index_from_kind (s_kind s)) LINKED_SECTION_INDEX_NONE) as [En|En]; [destruct (s_kind s); done|]. cbn [orb] in Hl.
    destruct Hl as [_ Hne]. apply (needed_defined k input2 j y); [done..|]. eapply (image_needed _ _ _ _ _ _ _ HP); [exact Hk|exact Hsec|exact Hp|done].
Qed.

Lemma entry_defined name : entry = Some name -> name <> [] -> exists g, G !! name = Some g /\ g_is_defined g = true.
Proof using Hlk HP.
  intros En Hn. destruct (lk_entry _ _ Hlk E name (pd_definitions _ _ _ _ _ _ _ HP) En Hn) as [d Hd]. apply (definition_defined name d Hd). apply needed_entry.
  rewrite En. unfold entry_definition. cbn [mbind option_bind]. by destruct name.
Qed.
End Success.

(** A link with memory and everything it needs succeeds. *)
Lemma resolve_succeeds options r0 h : unlinked r0 -> loaded_ok options (objects r0) -> linkable options (flagged_inputs options (objects r0)) -> generous h ->
  exists r h', resolve r0 options h = Ret (Some r, h').
Proof.
  intros Hun Hok Hlk Hh. rewrite (resolve_passes _ _ _ Hok). destruct (first_passes_ok options r0 h Hun Hok) as (res & h' & E1 & Hres & Hne). rewrite E1. cbn [obind].
  assert (res <> None) as Hsome.
  { apply Hne; [done|apply clash_free_definitions, Hlk|]. intros E inputs1 pss mss _ Hk Hs Hl. eapply linkable_recordable; done. }
  destruct res as [r3|]; [|done]. destruct (Hres r3 eq_refl) as (E & inputs1 & pss & G & HP).
  destruct (last_passes_ok options r0 E inputs1 pss G r3 Hok HP) as (res & E2 & Hgo & _). rewrite E2. cbn [obind].
  assert (res <> None) as Hsome2.
  { apply Hgo; [|by apply (entry_defined options r0 Hlk E inputs1 pss G r3 HP)]. destruct (allows options) eqn:Eal; [by left|right]. by apply (all_defined options r0 Hok Hlk E inputs1 pss G r3 HP). }
  destruct res as [r|]; [|done]. by exists r, h'.
Qed.
End LinkSuccess.
