(* ===== verification/LinkProps.v ===== *)
(** The linker's promises: collection is reachability, the image is a layout of
    what is kept, the symbol table is a map, and linking finds every target. *)
From S2P Require Import Prelude Probe LinkObjects LinkObjectsCorrect Relocation SectionMerge SectionMergeCorrect SectionGc.
From S2P Require Import SectionGcCorrect SectionGcReach SymbolResolve GlobalSymbols ObjectSymbols LinkAddresses LinkResolve.
From S2P Require Import LinkTheorem LinkSuccess.
From stdpp Require Import gmap.
#[local] Open Scope Z_scope.

Module LinkProps.
Import LinkObjects LinkObjectsCorrect Relocation SectionMerge SectionMergeCorrect SectionGc SectionGcCorrect SectionGcReach SymbolResolve GlobalSymbols ObjectSymbols
  LinkAddresses LinkResolve LinkTheorem LinkSuccess.

(** * A link to look at *)

(** "main", "f", "x"; ".text", ".text.f", ".text.g", ".data.x". *)
Definition n_main : cstring := [109; 97; 105; 110].
Definition n_f : cstring := [102].
Definition n_text : cstring := [46; 116; 101; 120; 116].
Definition n_text_f : cstring := n_text ++ [46; 102].
Definition n_text_g : cstring := n_text ++ [46; 103].
Definition n_data_x : cstring := [46; 100; 97; 116; 97; 46; 120].

Definition plain (name : cstring) (value section_index : Z) (external : bool) : LinkSymbol :=
  mkSymbol (Some name) value section_index external false false 0 0 0 (negb (section_index =? LINK_SECTION_INDEX_UNDEFINED)) false.

(** [main] calls [f], *)
Definition o_main : LinkObject :=
  mkObject [mkSection (Some n_text) LINK_SECTION_KIND_TEXT 0 5 16 [0xE8; 0; 0; 0; 0] [mkReloc 1 1 LINK_RELOC_PC32 0 false 0] false]
    [plain n_main 0 0 true; plain n_f 0 (-1) true].
(** [f] mentions a variable of its object; nothing calls [g]; *)
Definition o_f : LinkObject :=
  mkObject [mkSection (Some n_text_f) LINK_SECTION_KIND_TEXT 0 8 1 (replicate 8 0) [mkReloc 0 1 LINK_RELOC_ABS64 0 false 0] false;
            mkSection (Some n_text_g) LINK_SECTION_KIND_TEXT 0 4 1 [1; 2; 3; 4] [] false;
            mkSection (Some n_data_x) LINK_SECTION_KIND_DATA 0 8 8 [7; 0; 0; 0; 0; 0; 0; 0] [] false]
    [plain n_f 0 0 true; plain n_data_x 4 2 false].
(** and the runtime has an [f] of its own. *)
Definition o_runtime : LinkObject :=
  mkObject [mkSection (Some n_text_f) LINK_SECTION_KIND_TEXT 0 1 1 [0xC3] [] false] [plain n_f 0 0 true].

Definition read_demo (path : cstring) (h : heap) : outcome (option LinkObject * heap) :=
  Ret (match path with [0] => Some o_runtime | [1] => Some o_f | [2] => Some o_main | _ => None end, h).

Definition demo_options : option LinkResolutionOptions := Some (mkOptions (Some n_main) 16 false (Some [true; false; false])).

Definition demo_link : outcome (option LinkResolution * heap) := link_resolution_build read_demo (Some [[0]; [1]; [2]]) demo_options heap_unlimited.

(** The code of the user's [f] and of [main], then the variable; the runtime's
    [f] and [g] are gone. *)
Example demo_link_image :
  (let! (r, _) := demo_link in Ret (option_map (fun r => ((fun m => (m_virtual_address m, m_data m)) <$> take 3 (sections r), i_section_gc_dead <$> objects r)) r)) =
  Ret (Some ([(0, replicate 16 0 ++ [0xE8; 0; 0; 0; 0]); (0, []); (32, [7; 0; 0; 0; 0; 0; 0; 0])], [Some [true]; Some [false; true; false]; Some [false]])).
Proof. by vm_compute. Qed.

(** With the relocations applied: a call 21 bytes back, and an address. *)
Example demo_link_relocated :
  (let! (r, _) := demo_link in let! (_, r) := link_apply_relocations r None in Ret (option_map (fun r => m_data <$> take 1 (sections r)) r)) =
  Ret (Some [[36; 0; 0; 0; 0; 0; 0; 0; 0; 0; 0; 0; 0; 0; 0; 0; 0xE8; 0xEB; 0xFF; 0xFF; 0xFF]]).
Proof. by vm_compute. Qed.

(** * Where links fail that need not *)

(** An absolute symbol, which the ELF reader marks as defined, is entered as an
    undefined one: an object that has one cannot be linked, even by itself. *)
Definition o_absolute : LinkObject :=
  mkObject [mkSection (Some n_text) LINK_SECTION_KIND_TEXT 0 1 16 [0xC3] [] false] [plain n_main 0 0 true; plain n_f 4096 (-2) true].
Example link_absolute_symbol_unresolved :
  (let! (r, _) := link_resolution_build (fun _ h => Ret (Some o_absolute, h)) (Some [[0]]) demo_options heap_unlimited in Ret r) = Ret None.
Proof. by vm_compute. Qed.

(** Two runtime defaults of a name clash, unless a user object that also defines
    it comes before the second one. *)
Definition link_flagged (l : list bool) (objects : list LinkObject) : outcome (option LinkResolution) :=
  let! (r, _) := resolve (with_objects (fresh_input <$> objects) empty_resolution) (Some (mkOptions (Some n_main) 16 true (Some l))) heap_unlimited in Ret r.
Example link_default_clash_depends_on_order :
  (let! r := link_flagged [false; false; true; true] [o_main; o_f; o_runtime; o_runtime] in Ret (bool_decide (is_Some r))) = Ret true /\
  link_flagged [false; true; true; false] [o_main; o_runtime; o_runtime; o_f] = Ret None.
Proof. by vm_compute. Qed.

(** * The promises *)

(** A heap that grants everything. *)
Lemma unlimited_generous : generous heap_unlimited.
Proof. by intros n. Qed.

Lemma loaded_unlinked read paths r h h' : link_resolution_load_objects read empty_resolution paths h = Ret (Some r, h') -> unlinked r.
Proof.
  unfold link_resolution_load_objects. destruct (alloc_array _ _) as [ok h1]. destruct ok; [|done]. cbn [negb].
  destruct (load_objects read paths h1) as [[[l|] h2]| |]; try done. by intros [= <- _].
Qed.

(** A reader that returns loads, or fails to load, the objects it returns. *)
Lemma load_objects_ok read (P : LinkObject -> Prop) paths : (forall p h, exists res h', read p h = Ret (res, h') /\ forall o, res = Some o -> P o) -> forall h,
  exists res h', load_objects read paths h = Ret (res, h') /\
    forall l, res = Some l -> length l = length paths /\ Forall (fun input => exists o, input = fresh_input o /\ P o) l.
Proof.
  intros Hread. induction paths as [|p paths IH]; intros h; cbn [load_objects].
  { exists (Some []), h. split; [done|]. intros l [= <-]. split; [done|constructor]. }
  destruct (alloc h) as [ok h1]. destruct ok; cbn [negb]; [|by exists None, h1].
  destruct (Hread p h1) as (o & h2 & -> & Ho). cbn [obind]. destruct o as [o|]; [|by exists None, h2].
  destruct (IH h2) as (l & h3 & -> & Hl). cbn [obind]. eexists _, h3. split; [done|]. intros l' El. destruct l as [l|]; [|done].
  injection El as <-. destruct (Hl l eq_refl) as [Hlen HP]. split; [cbn; by rewrite Hlen|]. constructor; [|done]. exists o. split; [done|]. by apply Ho.
Qed.

Lemma loads_return read paths h : (forall p h, exists res h', read p h = Ret (res, h')) -> exists r h', link_resolution_load_objects read empty_resolution paths h = Ret (r, h').
Proof.
  intros Hread. unfold link_resolution_load_objects. destruct (alloc_array _ _) as [ok h1]. destruct ok; [|by eexists _, _]. cbn [negb].
  destruct (load_objects_ok read (fun _ => True) paths) with (h := h1) as (l & h2 & -> & _); [|by eexists _, _].
  intros p h0. destruct (Hread p h0) as (res & h' & E). by exists res, h'.
Qed.

(** Linking.  Whatever the objects, as long as their sizes leave room for
    64-bit sums, linking them returns; and when it succeeds, the sections of
    the image follow each other, the entry symbol is defined, and every
    relocation of every section that was kept resolves: to the place, in the
    image, of its symbol's own section, or, for an undefined symbol, to the
    place of a definition of the name, one by a user object rather than by the
    runtime if the image has one. *)
Lemma link_resolution_build_links read paths options h : paths <> [] -> (forall p h, exists res h', read p h = Ret (res, h')) ->
  (forall r h', link_resolution_load_objects read empty_resolution paths (snd (alloc h)) = Ret (Some r, h') -> loaded_ok options (objects r)) ->
  exists res h', link_resolution_build read (Some paths) options h = Ret (res, h') /\ forall r, res = Some r -> linked options r.
Proof.
  intros Hp Hread Hok. unfold link_resolution_build. destruct paths as [|p paths]; [done|]. destruct (alloc h) as [ok h1]. cbn [snd] in Hok.
  destruct ok; [|by exists None, h1]. cbn [negb]. destruct (loads_return read (p :: paths) h1 Hread) as (r & h2 & E). rewrite E. cbn [obind].
  destruct r as [r|]; [|by exists None, h2]. apply resolve_linked; [by eapply loaded_unlinked|by eapply Hok].
Qed.

(** C5: progress.  A link that can succeed does: given memory, when the objects
    can be read, no name is defined twice by user objects or twice by runtime
    ones, external symbols are either undefined or in sections that are
    linked, and every undefined name that a needed section mentions, and the
    entry symbol, has a definition. *)
Theorem link_resolution_build_succeeds read paths options h r0 h0 : paths <> [] -> generous h ->
  link_resolution_load_objects read empty_resolution paths (snd (alloc h)) = Ret (Some r0, h0) -> generous h0 ->
  loaded_ok options (objects r0) -> linkable options (flagged_inputs options (objects r0)) ->
  exists r h', link_resolution_build read (Some paths) options h = Ret (Some r, h').
Proof.
  intros Hp Hh E Hh0 Hok Hlk. unfold link_resolution_build. destruct paths as [|p paths]; [done|]. assert (fst (alloc h) = true) as Ha by apply Hh.
  destruct (alloc h) as [ok h1]. cbn [fst snd] in *. subst ok. cbn [negb]. rewrite E. apply resolve_succeeds; [by eapply loaded_unlinked|done..].
Qed.

(** C7: collection.  Collecting returns; given memory it fails only when two
    definitions of a name clash; and afterwards the sections flagged as dead
    are exactly those that may be dropped and that no chain of relocations
    reaches from a section that must stay or from the entry symbol, and the
    symbols flagged as referenced are exactly those that a reachable section
    mentions. *)
Theorem link_resolution_gc_sections_exact r entry h : relocations_ok (objects r) -> Z.of_nat (symbol_total (objects r)) < 2 ^ 62 ->
  exists res h', link_resolution_gc_sections r entry h = Ret (res, h') /\
    (generous h -> generous h' /\ (definitions (objects r) <> None -> res <> None)) /\
    forall r', res = Some r' ->
      (total (fun input => length (input_sections input)) (objects r) = 0%nat /\ r' = r) \/
      exists E inputs', definitions (objects r) = Some E /\ r' = with_objects inputs' r /\ length inputs' = length (objects r) /\
        forall oi input, objects r !! oi = Some input -> exists input', inputs' !! oi = Some input' /\ collected E entry (objects r) oi input input'.
Proof. exact (gc_sections_ok r entry h). Qed.

(** C8: the image.  Merging returns, and fails only for want of memory; every
    section that is not left out is in the image once, in a merged section of
    its kind, aligned, behind the ones before it, with its bytes; every byte
    that comes from no section is zero, and the list of contributions says
    where each one is. *)
Theorem link_resolution_merge_sections_lays_out r fb h : sections r = link_resolution_init_sections -> Forall input_ok (objects r) -> objects_need fb (objects r) <= 2 ^ 63 ->
  exists res h', link_resolution_merge_sections r fb h = Ret (res, h') /\ (generous h -> generous h' /\ res <> None) /\
    forall r', res = Some r' -> exists pss ms, r' = with_sections ms (with_objects (zip_with with_places pss (objects r)) r) /\
      Forall2 (entries_ok fb) (objects r) pss /\ m_kind <$> ms = kinds /\ forall k m, ms !! k = Some m -> layout m (at_index k (all_pieces (objects r) 0 pss)).
Proof.
  intros Hs Hi Hn. destruct (merge_sections_ok r fb h Hs Hi Hn) as (res & h' & E & Hg & Hres). exists res, h'. split; [done|]. split; [done|].
  intros r' Er. destruct (Hres r' Er) as (pss & ms & (H1 & H2 & H3) & ->). exists pss, ms. split; [done|]. split; [done|]. split; [done|].
  intros k m Hm. by apply (H3 k m Hm).
Qed.

(** C9: the symbol table refines a map.  Recording an external symbol returns;
    it does to the table, an array with a hash index that grows, what
    [record_symbol] does to a map from names: the first mention enters the
    name, a definition fills the entry in, a user's definition replaces the
    runtime's, two of the same sort clash; and looking up a name in the table
    finds its entry in the map. *)
Theorem link_resolution_record_global_symbol_refines r G input y h : globals r G -> held (length (objects r)) G -> os_name y <> None ->
  (os_object_index y < length (objects r))%nat -> Z.of_nat (length (symbols r)) + 1 < 2 ^ 59 ->
  exists res h', link_resolution_record_global_symbol r input y h = Ret (res, h') /\
    (generous h -> record_symbol (by_default (objects r)) (i_is_runtime_default input) y G <> None -> res <> None) /\
    forall r', res = Some r' -> exists G', record_symbol (by_default (objects r)) (i_is_runtime_default input) y G = Some G' /\ globals r' G' /\ held (length (objects r)) G' /\
      forall name, exists found, link_resolution_find_symbol r' (Some name) = Ret found /\ G' !! name = (i ← found; symbols r' !! i).
Proof.
  intros H Hheld Hn Ho Hl. destruct (record_global_symbol_ok r G input y h H Hheld Hn Ho Hl) as (res & h' & E & Hg & Hres). exists res, h'. split; [done|].
  split; [intros Hh; by apply Hg|]. intros r' Er. destruct (Hres r' Er) as (G' & HG & Hgl & Hh' & _). exists G'. split; [done|]. split; [done|]. split; [done|].
  intros name. destruct (find_symbol_ok r' G' name Hgl) as (found & Ef & Hf). exists found. split; [done|]. destruct found as [i|]; [|done].
  destruct Hf as (g & Hi & ->). by rewrite <- Hi.
Qed.

(** * The promises kept on the link above *)

Definition demo_objects : list LinkObject := [o_runtime; o_f; o_main].
Definition demo_loaded : LinkResolution := with_objects (fresh_input <$> demo_objects) empty_resolution.

Lemma demo_object o : o ∈ demo_objects -> object_ok o.
Proof.
  assert (forall s, s ∈ mjoin (o_sections <$> demo_objects) -> section_ok s) as Hs.
  { intros s Hs. cbn in Hs. rewrite !elem_of_cons, elem_of_nil in Hs. unfold section_ok, in_u.
    destruct Hs as [->|[->|[->|[->|[->|[]]]]]]; cbn; (repeat split; (done || lia)). }
  assert (forall o, o ∈ demo_objects -> forall s, s ∈ o_sections o -> s_name s <> None) as Hn.
  { intros o' Ho' s Hs'. assert (s ∈ mjoin (o_sections <$> demo_objects)) as Hs2 by (apply list_elem_of_join; eexists; split; [exact Hs'|by apply list_elem_of_fmap_2]).
    cbn in Hs2. rewrite !elem_of_cons, elem_of_nil in Hs2. by destruct Hs2 as [->|[->|[->|[->|[->|[]]]]]]. }
  assert (forall y, y ∈ mjoin (o_symbols <$> demo_objects) -> symbol_ok y) as Hy.
  { intros y Hy. cbn in Hy. rewrite !elem_of_cons, elem_of_nil in Hy. unfold symbol_ok, in_u.
    destruct Hy as [->|[->|[->|[->|[->|[]]]]]]; cbn; (repeat split; (done || lia)). }
  intros Ho. split; [|split; [|left; apply Forall_forall; by apply Hn]]; apply Forall_forall; intros x Hx; [apply Hs|apply Hy]; apply list_elem_of_join; eexists; (split; [exact Hx|]); by apply list_elem_of_fmap_2.
Qed.

Lemma demo_input input : input ∈ objects demo_loaded -> exists o, o ∈ demo_objects /\ input = fresh_input o.
Proof. intros H. cbn in H. rewrite !elem_of_cons, elem_of_nil in H. destruct H as [->|[->|[->|[]]]]; eexists; (split; [|done]); unfold demo_objects; rewrite !elem_of_cons; auto. Qed.

Lemma demo_relocations inputs : same_objects inputs (objects demo_loaded) -> relocations_ok inputs.
Proof.
  intros Hs oi i s rel (input & Hi & Hx) Hrel. destruct (same_objects_lookup _ _ _ _ Hs Hi) as (input' & Hi' & Eo). rewrite <- (input_sections_same _ _ Eo) in Hx.
  assert (forallb (fun input => forallb (fun s => forallb (fun rel => 0 <=? r_symbol_index rel) (s_relocations s)) (input_sections input)) (objects demo_loaded) = true) as H by by vm_compute.
  rewrite forallb_forall in H. specialize (H input' (proj1 (list_elem_of_In _ _) (list_elem_of_lookup_2 _ _ _ Hi'))). rewrite forallb_forall in H.
  specialize (H s (proj1 (list_elem_of_In _ _) (list_elem_of_lookup_2 _ _ _ Hx))). rewrite forallb_forall in H.
  by apply Z.leb_le, H, list_elem_of_In.
Qed.

Lemma demo_loaded_ok : loaded_ok demo_options (objects demo_loaded).
Proof.
  split.
  - apply Forall_forall. intros input Hi. by destruct (demo_input input Hi) as (o & _ & ->).
  - by intros l [= <-].
  - intros input o Hi Ho. destruct (demo_input input Hi) as (o' & Ho' & ->). injection Ho as <-. by apply demo_object.
  - by apply demo_relocations.
  - assert ((objects_need (alignment_of demo_options) (objects demo_loaded) <=? 2 ^ 58) = true) as H by by vm_compute. apply Z.leb_le in H. split; [done|]. by apply Z.leb_le; vm_compute.
  - by apply Z.ltb_lt; vm_compute.
Qed.

(** The definitions: the user's [f] counts. *)
Definition demo_definitions : list GcDefinition := [mkDefinition n_f 0 0 true; mkDefinition n_f 1 0 false; mkDefinition n_main 2 0 false].

Lemma demo_linkable : linkable demo_options (flagged_inputs demo_options (objects demo_loaded)).
Proof.
  assert (definitions_of (flagged_inputs demo_options (objects demo_loaded)) 0 = demo_definitions) as Ed by by vm_compute.
  assert (forall E, definitions (flagged_inputs demo_options (objects demo_loaded)) = Some E -> is_Some (E !! n_f) /\ is_Some (E !! n_main)) as HE.
  { intros E H. unfold definitions in H. rewrite Ed in H. injection H as <-. split; by eexists. }
  assert (forall input, input ∈ flagged_inputs demo_options (objects demo_loaded) -> exists input', input' ∈ objects demo_loaded /\ i_object input = i_object input') as Hin.
  { intros input Hi. apply list_elem_of_lookup in Hi as [k Hk]. destruct (flagged_lookup _ _ _ _ demo_loaded_ok Hk) as (_ & _ & x & Hx & E). exists x.
    split; [by eapply list_elem_of_lookup_2|done]. }
  assert (forall y, y ∈ mjoin (o_symbols <$> demo_objects) -> y_section_index y = -1 -> y_name y = Some n_f) as Hundef.
  { intros y Hy. cbn in Hy. rewrite !elem_of_cons, elem_of_nil in Hy. by destruct Hy as [->|[->|[->|[->|[->|[]]]]]]. }
  split.
  - unfold clash_free. rewrite Ed. apply (bool_decide_unpack _). by vm_compute.
  - intros input y Hi Hy. destruct (Hin input Hi) as (x & Hx & Eo). unfold plain_symbol. rewrite (input_sections_same _ _ Eo). rewrite (input_symbols_same _ _ Eo) in Hy.
    destruct (demo_input x Hx) as (o & Ho & ->). unfold demo_objects in Ho. rewrite !elem_of_cons, elem_of_nil in Ho.
    destruct Ho as [->|[->|[->|[]]]]; cbn in Hy; rewrite ?elem_of_cons, elem_of_nil in Hy; right;
      [destruct Hy as [->|[]]|destruct Hy as [->|[->|[]]]|destruct Hy as [->|[->|[]]]]; (split; [by vm_compute|]); intros _;
      ((by left) || (right; split; [by vm_compute|]; intros s; cbn; by intros [= <-])).
  - by vm_compute.
  - intros E HEq _ oi i input s rel y name _ Hi _ _ Hy _ _ Hu Hn. destruct (Hin input) as (x & Hx & Eo); [by eapply list_elem_of_lookup_2|].
    destruct (demo_input x Hx) as (o & Ho & ->). assert (y_name y = Some n_f) as En.
    { apply Hundef; [|done]. apply list_elem_of_join. exists (o_symbols o). split; [|by apply list_elem_of_fmap_2]. eapply list_elem_of_lookup_2. unfold input_symbols in Hy. by rewrite Eo in Hy. }
    assert (name = n_f) as -> by congruence. by apply HE.
  - intros E name HEq [= <-] _. by apply HE.
Qed.

Lemma link_resolution_build_links_witness : exists res h', link_resolution_build read_demo (Some [[0]; [1]; [2]]) demo_options heap_unlimited = Ret (res, h') /\
  forall r, res = Some r -> linked demo_options r.
Proof.
  apply (link_resolution_build_links read_demo [[0]; [1]; [2]] demo_options heap_unlimited); [done|intros p h0; eexists _, _; reflexivity|].
  intros r h'. cbn. intros [= <- <-]. exact demo_loaded_ok.
Defined.

Lemma link_resolution_build_succeeds_witness : exists r h', link_resolution_build read_demo (Some [[0]; [1]; [2]]) demo_options heap_unlimited = Ret (Some r, h').
Proof.
  eapply (link_resolution_build_succeeds read_demo [[0]; [1]; [2]] demo_options heap_unlimited demo_loaded); [done|exact unlimited_generous|reflexivity|exact unlimited_generous| |].
  - exact demo_loaded_ok.
  - exact demo_linkable.
Defined.

Lemma link_resolution_gc_sections_exact_witness :
  exists res h', link_resolution_gc_sections demo_loaded (Some n_main) heap_unlimited = Ret (res, h') /\
    (generous heap_unlimited -> generous h' /\ (definitions (objects demo_loaded) <> None -> res <> None)) /\
    forall r', res = Some r' ->
      (total (fun input => length (input_sections input)) (objects demo_loaded) = 0%nat /\ r' = demo_loaded) \/
      exists E inputs', definitions (objects demo_loaded) = Some E /\ r' = with_objects inputs' demo_loaded /\ length inputs' = length (objects demo_loaded) /\
        forall oi input, objects demo_loaded !! oi = Some input -> exists input', inputs' !! oi = Some input' /\ collected E (Some n_main) (objects demo_loaded) oi input input'.
Proof. apply (link_resolution_gc_sections_exact demo_loaded (Some n_main) heap_unlimited); [by apply demo_relocations|by apply Z.ltb_lt; vm_compute]. Defined.

Lemma link_resolution_merge_sections_lays_out_witness :
  exists res h', link_resolution_merge_sections demo_loaded 16 heap_unlimited = Ret (res, h') /\ (generous heap_unlimited -> generous h' /\ res <> None) /\
    forall r', res = Some r' -> exists pss ms, r' = with_sections ms (with_objects (zip_with with_places pss (objects demo_loaded)) demo_loaded) /\
      Forall2 (entries_ok 16) (objects demo_loaded) pss /\ m_kind <$> ms = kinds /\ forall k m, ms !! k = Some m -> layout m (at_index k (all_pieces (objects demo_loaded) 0 pss)).
Proof.
  apply (link_resolution_merge_sections_lays_out demo_loaded 16 heap_unlimited); [done| |by apply Z.leb_le; vm_compute].
  apply Forall_forall. intros input Hi. destruct (demo_input input Hi) as (o & Ho & ->). split; [by intros l|]. intros o' [= <-]. by apply demo_object.
Defined.

Definition demo_symbol : LinkedObjectSymbol := mapped (fresh_input o_main) 0 0 (plain n_main 0 0 true).

Lemma link_resolution_record_global_symbol_refines_witness :
  exists res h', link_resolution_record_global_symbol demo_loaded (fresh_input o_main) demo_symbol heap_unlimited = Ret (res, h') /\
    (generous heap_unlimited -> record_symbol (by_default (objects demo_loaded)) false demo_symbol ∅ <> None -> res <> None) /\
    forall r', res = Some r' -> exists G', record_symbol (by_default (objects demo_loaded)) false demo_symbol ∅ = Some G' /\ globals r' G' /\ held (length (objects demo_loaded)) G' /\
      forall name, exists found, link_resolution_find_symbol r' (Some name) = Ret found /\ G' !! name = (i ← found; symbols r' !! i).
Proof.
  apply (link_resolution_record_global_symbol_refines demo_loaded ∅ (fresh_input o_main) demo_symbol heap_unlimited);
    [by apply globals_start|intros name g; by rewrite lookup_empty|done|cbn; lia|by apply Z.ltb_lt; vm_compute].
Defined.
End LinkProps.
