(* ===== verification/ElfReader.v ===== *)
(** The reader of ELF objects, src/src/linker/elf_reader.c, and what it shares
    with the COFF reader in link_object.c.

    The file is a list of bytes, and a pointer into it the distance from its
    start.  Names and blocks are allocated; a name that cannot be is left out,
    as in the code. *)
From S2P Require Import Prelude LinkObjects.
#[local] Open Scope Z_scope.

Module ElfReader.
Import LinkObjects.

Definition link_object_range_ok (file_size offset size : Z) : bool :=
  if file_size <? offset then false else negb (file_size - offset <? size).

(** [memcpy] of [n] bytes at [i]. *)
Definition slice (d : list Z) (i n : Z) : outcome (list Z) :=
  if (i <? 0) || (n <? 0) || (Z.of_nat (length d) <? i + n) then Undef else Ret (take (Z.to_nat n) (drop (Z.to_nat i) d)).

(** The bytes before the first NUL among [n] at [i]. *)
Fixpoint string_at (n : nat) (d : list Z) (i : Z) : outcome (option cstring) :=
  match n with
  | O => Ret None
  | S n =>
      let! c := get d i in
      if c =? 0 then Ret (Some [])
      else let! s := string_at n d (i + 1) in Ret (option_map (cons c) s)
  end.

(** * Headers *)

#[local] Abbreviation ELF_EHDR_SIZE := 64.
#[local] Abbreviation ELF_SHDR_SIZE := 64.
#[local] Abbreviation ELF_SYM_SIZE := 24.
#[local] Abbreviation ELF_RELA_SIZE := 24.

Definition ET_REL : Z := 1.
Definition EM_X86_64 : Z := 62.
Definition SHT_SYMTAB : Z := 2.
Definition SHT_STRTAB : Z := 3.
Definition SHT_RELA : Z := 4.
Definition SHT_NOBITS : Z := 8.
Definition SHT_REL : Z := 9.
Definition SHT_GROUP : Z := 17.
Definition SHF_WRITE : Z := 0x1.
Definition SHF_ALLOC : Z := 0x2.
Definition SHF_EXECINSTR : Z := 0x4.
Definition SHF_TLS : Z := 0x400.
Definition SHN_UNDEF : Z := 0.
Definition SHN_LORESERVE : Z := 0xFF00.
Definition SHN_ABS : Z := 0xFFF1.
Definition SHN_COMMON : Z := 0xFFF2.
Definition SHN_XINDEX : Z := 0xFFFF.
Definition STB_GLOBAL : Z := 1.
Definition STB_WEAK : Z := 2.

Record ElfImage := mkImage { data : list Z; shoff : Z; shentsize : Z; shnum : Z; shstrndx : Z }.

Definition file_size (d : list Z) : Z := Z.of_nat (length d).

Definition elf_shdr (im : ElfImage) (i : Z) : Z := shoff im + u64 (i * shentsize im).
Definition elf_sh_type (d : list Z) (shdr : Z) : outcome Z := linker_read_u32 d (shdr + 4).
Definition elf_sh_flags (d : list Z) (shdr : Z) : outcome Z := linker_read_u64 d (shdr + 8).
Definition elf_sh_offset (d : list Z) (shdr : Z) : outcome Z := linker_read_u64 d (shdr + 24).
Definition elf_sh_size (d : list Z) (shdr : Z) : outcome Z := linker_read_u64 d (shdr + 32).

(** A name of a string table; none when the table has no end for it, or no
    block is left. *)
Definition elf_dup_string (d : list Z) (table table_size offset : Z) (h : heap) : outcome (option cstring * heap) :=
  if table_size <=? offset then Ret (None, h)
  else
    let! s := string_at (Z.to_nat (table_size - offset)) d (table + offset) in
    match s with
    | None => Ret (None, h)
    | Some s => let (ok, h) := alloc h in Ret (if ok then Some s else None, h)
    end.

Definition has_flag (flags bit : Z) : bool := negb (Z.land flags bit =? 0).

Definition elf_section_kind (flags type : Z) : LinkSectionKind :=
  if has_flag flags SHF_TLS then LINK_SECTION_KIND_TLS
  else if negb (has_flag flags SHF_ALLOC) then LINK_SECTION_KIND_UNKNOWN
  else if type =? SHT_NOBITS then LINK_SECTION_KIND_BSS
  else if has_flag flags SHF_EXECINSTR then LINK_SECTION_KIND_TEXT
  else if has_flag flags SHF_WRITE then LINK_SECTION_KIND_DATA
  else LINK_SECTION_KIND_RDATA.

Definition elf_reloc_kind (type : Z) : LinkRelocKind :=
  match type with
  | 1 => LINK_RELOC_ABS64
  | 2 | 4 => LINK_RELOC_PC32
  | 10 | 11 => LINK_RELOC_ABS32
  | 23 => LINK_RELOC_TPOFF32
  | 9 => LINK_RELOC_GOTPCREL32
  | 41 | 42 => LINK_RELOC_GOTPCRELX32
  | _ => LINK_RELOC_NONE
  end.

Definition is_elf_magic (b0 b1 b2 b3 : Z) : bool := (b0 =? 0x7F) && (b1 =? 69) && (b2 =? 76) && (b3 =? 70).

(** The table of section headers, with the counts that overflow kept in the
    first one. *)
Definition elf_parse_table (d : list Z) : outcome (option ElfImage) :=
  let! off := linker_read_u64 d 40 in
  let! entsize := linker_read_u16 d 58 in
  let! num := linker_read_u16 d 60 in
  let! strndx := linker_read_u16 d 62 in
  if entsize <? ELF_SHDR_SIZE then Ret None
  else if off =? 0 then Ret None
  else if negb (link_object_range_ok (file_size d) off entsize) then Ret None
  else
    let! num := if num =? 0 then elf_sh_size d off else Ret num in
    let! strndx := if strndx =? SHN_XINDEX then linker_read_u32 d (off + 40) else Ret strndx in
    if file_size d / entsize <? num then Ret None
    else if negb (link_object_range_ok (file_size d) off (u64 (num * entsize))) then Ret None
    else if num <=? strndx then Ret None
    else Ret (Some (mkImage d off entsize num strndx)).

Definition elf_parse_header (d : list Z) : outcome (option ElfImage) :=
  if file_size d <? ELF_EHDR_SIZE then Ret None
  else
    let! b0 := get d 0 in
    let! b1 := get d 1 in
    let! b2 := get d 2 in
    let! b3 := get d 3 in
    if negb (is_elf_magic b0 b1 b2 b3) then Ret None
    else
      let! b4 := get d 4 in
      let! b5 := get d 5 in
      if negb (b4 =? 2) || negb (b5 =? 1) then Ret None
      else
        let! type := linker_read_u16 d 16 in
        if negb (type =? ET_REL) then Ret None
        else
          let! machine := linker_read_u16 d 18 in
          if negb (machine =? EM_X86_64) then Ret None else elf_parse_table d.

(** * Sections *)

Definition elf_parse_section (im : ElfImage) (shstr shstr_size i : Z) (h : heap) : outcome (option LinkSection * heap) :=
  let d := data im in
  let shdr := elf_shdr im i in
  let! type := elf_sh_type d shdr in
  let! flags := elf_sh_flags d shdr in
  let! size := elf_sh_size d shdr in
  let! offset := elf_sh_offset d shdr in
  let! align := linker_read_u64 d (shdr + 48) in
  if type =? SHT_GROUP then Ret (None, h)
  else
    let! name_offset := linker_read_u32 d shdr in
    let! (name, h) := elf_dup_string d shstr shstr_size name_offset h in
    let section := fun raw_size raw =>
      mkSection name (elf_section_kind flags type) size raw_size (if align =? 0 then 1 else align) raw [] (negb (has_flag flags SHF_ALLOC)) in
    if (type =? SHT_NOBITS) || (size =? 0) then Ret (Some (section 0 []), h)
    else if negb (link_object_range_ok (file_size d) offset size) then Ret (None, h)
    else
      let (ok, h) := alloc h in
      if negb ok then Ret (None, h)
      else
        let! raw := slice d offset size in
        Ret (Some (section size raw), h).

(** [n] sections from the [i]th on. *)
Fixpoint section_loop (im : ElfImage) (shstr shstr_size : Z) (n : nat) (i : Z) (h : heap) : outcome (option (list LinkSection) * heap) :=
  match n with
  | O => Ret (Some [], h)
  | S n =>
      let! (s, h) := elf_parse_section im shstr shstr_size i h in
      match s with
      | None => Ret (None, h)
      | Some s =>
          let! (rest, h) := section_loop im shstr shstr_size n (i + 1) h in
          Ret (option_map (cons s) rest, h)
      end
  end.

Definition elf_parse_sections (im : ElfImage) (h : heap) : outcome (option (list LinkSection) * heap) :=
  let d := data im in
  let shstr_hdr := elf_shdr im (shstrndx im) in
  let! shstr_size := elf_sh_size d shstr_hdr in
  let! shstr := elf_sh_offset d shstr_hdr in
  if negb (link_object_range_ok (file_size d) shstr shstr_size) then Ret (None, h)
  else
    let (ok, h) := alloc h in
    if negb ok then Ret (None, h) else section_loop im shstr shstr_size (Z.to_nat (shnum im)) 0 h.

(** * Symbols *)

(** The first symbol table among [n] headers from the [i]th on. *)
Fixpoint find_symtab (im : ElfImage) (n : nat) (i : Z) : outcome (option Z) :=
  match n with
  | O => Ret None
  | S n =>
      let! type := elf_sh_type (data im) (elf_shdr im i) in
      if type =? SHT_SYMTAB then Ret (Some (elf_shdr im i)) else find_symtab im n (i + 1)
  end.

Definition elf_parse_symbol (im : ElfImage) (strtab strtab_size entry : Z) (h : heap) : outcome (option LinkSymbol * heap) :=
  let d := data im in
  let! info := get d (entry + 4) in
  let! shndx := linker_read_u16 d (entry + 6) in
  let bind := Z.shiftr info 4 in
  let! name_offset := linker_read_u32 d entry in
  let! (name, h) := elf_dup_string d strtab strtab_size name_offset h in
  let! value := linker_read_u64 d (entry + 8) in
  let! size := linker_read_u64 d (entry + 16) in
  let symbol := fun value index defined common =>
    mkSymbol name value index ((bind =? STB_GLOBAL) || (bind =? STB_WEAK)) false (bind =? STB_WEAK) 0 size (Z.land info 0xF) defined common in
  if shndx =? SHN_UNDEF then Ret (Some (symbol value LINK_SECTION_INDEX_UNDEFINED false false), h)
  else if shndx =? SHN_ABS then Ret (Some (symbol value LINK_SECTION_INDEX_ABSOLUTE true false), h)
  else if shndx =? SHN_COMMON then Ret (Some (symbol size LINK_SECTION_INDEX_COMMON true true), h)
  else if shndx =? SHN_XINDEX then Ret (None, h)
  else if (SHN_LORESERVE <=? shndx) || (shnum im <=? shndx) then Ret (None, h)
  else Ret (Some (symbol value shndx true false), h).

(** [n] symbols from the entry at [entry] on. *)
Fixpoint symbol_loop (im : ElfImage) (strtab strtab_size : Z) (n : nat) (entry : Z) (h : heap) : outcome (option (list LinkSymbol) * heap) :=
  match n with
  | O => Ret (Some [], h)
  | S n =>
      let! (y, h) := elf_parse_symbol im strtab strtab_size entry h in
      match y with
      | None => Ret (None, h)
      | Some y =>
          let! (rest, h) := symbol_loop im strtab strtab_size n (entry + ELF_SYM_SIZE) h in
          Ret (option_map (cons y) rest, h)
      end
  end.

Definition elf_parse_symbols (im : ElfImage) (h : heap) : outcome (option (list LinkSymbol) * heap) :=
  let d := data im in
  let! symtab_hdr := find_symtab im (Z.to_nat (shnum im)) 0 in
  match symtab_hdr with
  | None => Ret (Some [], h)
  | Some symtab_hdr =>
      let! strtab_index := linker_read_u32 d (symtab_hdr + 40) in
      if shnum im <=? strtab_index then Ret (None, h)
      else
        let strtab_hdr := elf_shdr im strtab_index in
        let! type := elf_sh_type d strtab_hdr in
        if negb (type =? SHT_STRTAB) then Ret (None, h)
        else
          let! entsize := linker_read_u64 d (symtab_hdr + 56) in
          if negb (entsize =? 0) && negb (entsize =? ELF_SYM_SIZE) then Ret (None, h)
          else
            let! strtab_size := elf_sh_size d strtab_hdr in
            let! symtab_size := elf_sh_size d symtab_hdr in
            let! symtab := elf_sh_offset d symtab_hdr in
            let! strtab := elf_sh_offset d strtab_hdr in
            if negb (link_object_range_ok (file_size d) symtab symtab_size) || negb (link_object_range_ok (file_size d) strtab strtab_size) then Ret (None, h)
            else
              let (ok, h) := alloc h in
              if negb ok then Ret (None, h)
              else symbol_loop im strtab strtab_size (Z.to_nat (symtab_size / ELF_SYM_SIZE)) symtab h
  end.

(** * Relocations *)

Definition reloc_width (k : LinkRelocKind) : Z := match k with LINK_RELOC_ABS64 => 8 | LINK_RELOC_NONE => 0 | _ => 4 end.

Definition elf_parse_relocation (d : list Z) (symbol_count virtual_size entry : Z) : outcome (option LinkReloc) :=
  let! info := linker_read_u64 d (entry + 8) in
  let reloc_type := Z.land info 0xFFFFFFFF in
  let symbol_index := u32 (Z.shiftr info 32) in
  if symbol_count <=? symbol_index then Ret None
  else
    let! offset := linker_read_u64 d entry in
    let kind := elf_reloc_kind reloc_type in
    let! addend := linker_read_u64 d (entry + 16) in
    if bool_decide (kind = LINK_RELOC_NONE) && negb (reloc_type =? 0) then Ret None
    else
      let width := reloc_width kind in
      if negb (width =? 0) && ((virtual_size <? offset) || (virtual_size - offset <? width)) then Ret None
      else Ret (Some (mkReloc offset symbol_index kind (i64 addend) true reloc_type)).

(** [n] relocations from the entry at [entry] on. *)
Fixpoint relocation_loop (d : list Z) (symbol_count virtual_size : Z) (n : nat) (entry : Z) : outcome (option (list LinkReloc)) :=
  match n with
  | O => Ret (Some [])
  | S n =>
      let! rel := elf_parse_relocation d symbol_count virtual_size entry in
      match rel with
      | None => Ret None
      | Some rel =>
          let! rest := relocation_loop d symbol_count virtual_size n (entry + ELF_RELA_SIZE) in
          Ret (option_map (cons rel) rest)
      end
  end.

Definition with_relocations (l : list LinkReloc) (s : LinkSection) : LinkSection :=
  mkSection (s_name s) (s_kind s) (s_virtual_size s) (s_size_of_raw_data s) (s_alignment s) (s_raw_data s) l (s_is_metadata s).

(** The relocations that the [i]th section holds for another one. *)
Definition elf_parse_relocation_section (im : ElfImage) (symbol_count i : Z) (ss : list LinkSection) (h : heap) : outcome (option (list LinkSection) * heap) :=
  let d := data im in
  let shdr := elf_shdr im i in
  let! type := elf_sh_type d shdr in
  let! target_index := linker_read_u32 d (shdr + 44) in
  let! size := elf_sh_size d shdr in
  if type =? SHT_REL then Ret (None, h)
  else if negb (type =? SHT_RELA) then Ret (Some ss, h)
  else if shnum im <=? target_index then Ret (None, h)
  else
    let! offset := elf_sh_offset d shdr in
    if negb (link_object_range_ok (file_size d) offset size) then Ret (None, h)
    else
      let! target := get ss target_index in
      let count := size / ELF_RELA_SIZE in
      if count =? 0 then Ret (Some ss, h)
      else
        let (ok, h) := alloc h in
        if negb ok then Ret (None, h)
        else
          let! rels := relocation_loop d symbol_count (s_virtual_size target) (Z.to_nat count) offset in
          match rels with
          | None => Ret (None, h)
          | Some rels => let! ss := put ss target_index (with_relocations (s_relocations target ++ rels) target) in Ret (Some ss, h)
          end.

Fixpoint relocation_section_loop (im : ElfImage) (symbol_count : Z) (n : nat) (i : Z) (ss : list LinkSection) (h : heap) : outcome (option (list LinkSection) * heap) :=
  match n with
  | O => Ret (Some ss, h)
  | S n =>
      let! (ss, h) := elf_parse_relocation_section im symbol_count i ss h in
      match ss with
      | None => Ret (None, h)
      | Some ss => relocation_section_loop im symbol_count n (i + 1) ss h
      end
  end.

Definition elf_parse_relocations (im : ElfImage) (symbol_count : Z) (ss : list LinkSection) (h : heap) : outcome (option (list LinkSection) * heap) :=
  relocation_section_loop im symbol_count (Z.to_nat (shnum im)) 0 ss h.

(** * Objects *)

Definition elf_object_read_memory (d : list Z) (h : heap) : outcome (option LinkObject * heap) :=
  let! im := elf_parse_header d in
  match im with
  | None => Ret (None, h)
  | Some im =>
      let (ok, h) := alloc h in
      if negb ok then Ret (None, h)
      else
        let! (ss, h) := elf_parse_sections im h in
        match ss with
        | None => Ret (None, h)
        | Some ss =>
            let! (ys, h) := elf_parse_symbols im h in
            match ys with
            | None => Ret (None, h)
            | Some ys =>
                let! (ss, h) := elf_parse_relocations im (Z.of_nat (length ys)) ss h in
                Ret (option_map (fun ss => mkObject ss ys) ss, h)
            end
        end
  end.
End ElfReader.
