(* ===== verification/CoffReader.v ===== *)
(** The reader of COFF objects: src/src/linker/coff_reader.c.

    As in ElfReader the file is a list of bytes and a pointer into it the
    distance from its start. *)
From S2P Require Import Prelude LinkObjects ElfReader.
#[local] Open Scope Z_scope.

Module CoffReader.
Import LinkObjects.
Import ElfReader (slice, string_at, file_size).

#[local] Abbreviation COFF_FILE_HEADER_SIZE := 20.
#[local] Abbreviation COFF_SECTION_HEADER_SIZE := 40.
#[local] Abbreviation COFF_SYMBOL_SIZE := 18.
#[local] Abbreviation COFF_RELOCATION_SIZE := 10.
Definition COFF_MACHINE_AMD64 : Z := 0x8664.

Inductive CoffSectionKind :=
| COFF_SECTION_KIND_UNKNOWN | COFF_SECTION_KIND_TEXT | COFF_SECTION_KIND_RDATA | COFF_SECTION_KIND_DATA
| COFF_SECTION_KIND_BSS | COFF_SECTION_KIND_PDATA | COFF_SECTION_KIND_XDATA.
#[export] Instance CoffSectionKind_eq_dec : EqDecision CoffSectionKind.
Proof. solve_decision. Defined.

Record CoffRelocation := mkCoffRelocation { cr_virtual_address : Z; cr_symbol_table_index : Z; cr_type : Z }.

Record CoffSection := mkCoffSection {
  cs_name : option cstring;
  cs_kind : CoffSectionKind;
  cs_virtual_size : Z;
  cs_virtual_address : Z;
  cs_size_of_raw_data : Z;
  cs_pointer_to_raw_data : Z;
  cs_pointer_to_relocations : Z;
  cs_pointer_to_line_numbers : Z;
  cs_number_of_relocations : Z;
  cs_number_of_line_numbers : Z;
  cs_characteristics : Z;
  cs_raw_data : option (list Z);
  cs_relocations : list CoffRelocation
}.

Record CoffSymbol := mkCoffSymbol {
  cy_raw_index : Z;
  cy_name : option cstring;
  cy_value : Z;
  cy_section_number : Z;
  cy_type : Z;
  cy_storage_class : Z;
  cy_auxiliary_count : Z;
  cy_is_auxiliary : bool;
  cy_primary_symbol_index : Z;
  cy_has_auxiliary_record : bool;
  cy_aux_section_length : Z;
  cy_aux_section_relocation_count : Z;
  cy_aux_section_line_number_count : Z
}.

Record CoffObject := mkCoffObject { c_sections : list CoffSection; c_symbols : list CoffSymbol }.

(** * Names *)

(** A block of bytes and a NUL, as a string. *)
Fixpoint c_string (l : list Z) : cstring := match l with [] => [] | c :: l => if c =? 0 then [] else c :: c_string l end.

Definition coff_reader_dup_bytes_trimmed (bytes : list Z) (h : heap) : option cstring * heap :=
  let (ok, h) := alloc h in (if ok then Some (c_string bytes) else None, h).

Definition coff_reader_dup_cstring_range (d : list Z) (i byte_count : Z) (h : heap) : outcome (option cstring * heap) :=
  let! s := string_at (Z.to_nat byte_count) d i in
  match s with
  | None => Ret (None, h)
  | Some s => let (ok, h) := alloc h in Ret (if ok then Some s else None, h)
  end.

Definition coff_reader_i16 (d : list Z) (i : Z) : outcome Z := let! v := linker_read_u16 d i in Ret (wraps 16 v).

Definition coff_reader_range_ok (size offset n : Z) : bool := if size <? offset then false else negb (size - offset <? n).

(** The string table, if there is one; its size is a [uint32_t]. *)
Definition coff_reader_string_from_table (table : option (list Z)) (offset : Z) (h : heap) : outcome (option cstring * heap) :=
  match table with
  | None => Ret (None, h)
  | Some t =>
      let size := Z.of_nat (length t) in
      if (size <? 4) || (offset <? 4) || (size <=? offset) then Ret (None, h) else coff_reader_dup_cstring_range t offset (size - offset) h
  end.

Definition is_digit (c : Z) : bool := (48 <=? c) && (c <=? 57).

(** The number behind the '/', unless something else is. *)
Fixpoint name_offset (field : list Z) (offset : Z) : option Z :=
  match field with
  | [] => Some offset
  | c :: field =>
      if c =? 0 then Some offset
      else if negb (is_digit c) then None
      else name_offset field (u32 (u32 (offset * 10) + (c - 48)))
  end.

Definition coff_reader_parse_section_name (field : list Z) (table : option (list Z)) (h : heap) : outcome (option cstring * heap) :=
  match field with
  | 47 :: rest =>
      match name_offset rest 0 with
      | None => Ret (coff_reader_dup_bytes_trimmed field h)
      | Some offset => coff_reader_string_from_table table offset h
      end
  | _ => Ret (coff_reader_dup_bytes_trimmed field h)
  end.

Definition coff_reader_parse_symbol_name (field : list Z) (table : option (list Z)) (h : heap) : outcome (option cstring * heap) :=
  let! zero_prefix := linker_read_u32 field 0 in
  let! offset := linker_read_u32 field 4 in
  if (zero_prefix =? 0) && negb (offset =? 0) then coff_reader_string_from_table table offset h
  else Ret (coff_reader_dup_bytes_trimmed field h).

(** [Some None] for a file without strings. *)
Definition coff_reader_parse_string_table (d : list Z) (pointer_to_symbol_table symbol_count : Z) (h : heap) : outcome (option (option (list Z)) * heap) :=
  let offset := u64 (pointer_to_symbol_table + u64 (symbol_count * COFF_SYMBOL_SIZE)) in
  if file_size d <? offset then Ret (None, h)
  else if offset =? file_size d then Ret (Some None, h)
  else if negb (coff_reader_range_ok (file_size d) (u32 offset) 4) then Ret (None, h)
  else
    let! size := linker_read_u32 d offset in
    if size =? 0 then Ret (Some None, h)
    else if size <? 4 then Ret (None, h)
    else if negb (coff_reader_range_ok (file_size d) (u32 offset) size) then Ret (None, h)
    else
      let (ok, h) := alloc h in
      if negb ok then Ret (None, h) else let! t := slice d offset size in Ret (Some (Some t), h).

(** * Kinds of sections *)

Fixpoint strip_prefix (prefix name : cstring) : option cstring :=
  match prefix, name with
  | [], _ => Some name
  | p :: prefix, c :: name => if p =? c then strip_prefix prefix name else None
  | _, [] => None
  end.

(** The prefix, followed by nothing, a '$' or a '.'. *)
Definition coff_section_name_matches_prefix (name prefix : cstring) : bool :=
  match strip_prefix prefix name with
  | None => false
  | Some [] => true
  | Some (c :: _) => (c =? 36) || (c =? 46)
  end.

(** ".text", ".rdata", ".data", ".bss", ".pdata", ".xdata". *)
Definition n_text : cstring := [46; 116; 101; 120; 116].
Definition n_rdata : cstring := [46; 114; 100; 97; 116; 97].
Definition n_data : cstring := [46; 100; 97; 116; 97].
Definition n_bss : cstring := [46; 98; 115; 115].
Definition n_pdata : cstring := [46; 112; 100; 97; 116; 97].
Definition n_xdata : cstring := [46; 120; 100; 97; 116; 97].

Definition coff_section_kind_from_name (name : option cstring) : CoffSectionKind :=
  match name with
  | None => COFF_SECTION_KIND_UNKNOWN
  | Some n =>
      if negb (bool_decide (head n = Some 46)) then COFF_SECTION_KIND_UNKNOWN
      else if coff_section_name_matches_prefix n n_text then COFF_SECTION_KIND_TEXT
      else if coff_section_name_matches_prefix n n_rdata then COFF_SECTION_KIND_RDATA
      else if coff_section_name_matches_prefix n n_data then COFF_SECTION_KIND_DATA
      else if coff_section_name_matches_prefix n n_bss then COFF_SECTION_KIND_BSS
      else if coff_section_name_matches_prefix n n_pdata then COFF_SECTION_KIND_PDATA
      else if coff_section_name_matches_prefix n n_xdata then COFF_SECTION_KIND_XDATA
      else COFF_SECTION_KIND_UNKNOWN
  end.

(** * Sections *)

(** [n] relocations from the one at [p] on. *)
Fixpoint coff_relocations (d : list Z) (n : nat) (p : Z) : outcome (list CoffRelocation) :=
  match n with
  | O => Ret []
  | S n =>
      let! a := linker_read_u32 d p in
      let! y := linker_read_u32 d (p + 4) in
      let! t := linker_read_u16 d (p + 8) in
      let! l := coff_relocations d n (p + COFF_RELOCATION_SIZE) in
      Ret (mkCoffRelocation a y t :: l)
  end.

(** How many relocations there are, behind how many records; [None] for a
    count that does not add up. *)
Definition relocation_count (d : list Z) (pointer number characteristics : Z) : outcome (option (Z * Z)) :=
  if negb (Z.land characteristics 0x01000000 =? 0) && (number =? 0xFFFF) then
    if negb (coff_reader_range_ok (file_size d) pointer COFF_RELOCATION_SIZE) then Ret None
    else let! stored := linker_read_u32 d pointer in Ret (if stored =? 0 then None else Some (stored - 1, 1))
  else Ret (Some (number, 0)).

Definition section_relocations (d : list Z) (pointer number characteristics : Z) (h : heap) : outcome (option (list CoffRelocation) * heap) :=
  let! count := relocation_count d pointer number characteristics in
  match count with
  | None => Ret (None, h)
  | Some (actual, base) =>
      if actual =? 0 then Ret (Some [], h)
      else if negb (coff_reader_range_ok (file_size d) pointer ((actual + base) * COFF_RELOCATION_SIZE)) then Ret (None, h)
      else
        let (ok, h) := alloc h in
        if negb ok then Ret (None, h)
        else let! l := coff_relocations d (Z.to_nat actual) (pointer + base * COFF_RELOCATION_SIZE) in Ret (Some l, h)
  end.

(** The bytes of a section; [Some None] when the file has none for it. *)
Definition section_bytes (d : list Z) (pointer size : Z) (h : heap) : outcome (option (option (list Z)) * heap) :=
  if (size =? 0) || (pointer =? 0) then Ret (Some None, h)
  else if negb (coff_reader_range_ok (file_size d) pointer size) then Ret (None, h)
  else let (ok, h) := alloc h in if negb ok then Ret (None, h) else let! raw := slice d pointer size in Ret (Some (Some raw), h).

(** Data that is all zero, and that no relocation changes, takes no room. *)
Definition section_kind (kind : CoffSectionKind) (raw : option (list Z)) (relocations : list CoffRelocation) : CoffSectionKind :=
  match kind, raw, relocations with
  | COFF_SECTION_KIND_DATA, Some raw, [] => if forallb (Z.eqb 0) raw then COFF_SECTION_KIND_BSS else COFF_SECTION_KIND_DATA
  | _, _, _ => kind
  end.

Definition coff_reader_parse_section (d : list Z) (table : option (list Z)) (p : Z) (h : heap) : outcome (option CoffSection * heap) :=
  let! field := slice d p 8 in
  let! (name, h) := coff_reader_parse_section_name field table h in
  match name with
  | None => Ret (None, h)
  | Some name =>
      let! virtual_size := linker_read_u32 d (p + 8) in
      let! virtual_address := linker_read_u32 d (p + 12) in
      let! size_of_raw_data := linker_read_u32 d (p + 16) in
      let! pointer_to_raw_data := linker_read_u32 d (p + 20) in
      let! pointer_to_relocations := linker_read_u32 d (p + 24) in
      let! pointer_to_line_numbers := linker_read_u32 d (p + 28) in
      let! number_of_relocations := linker_read_u16 d (p + 32) in
      let! number_of_line_numbers := linker_read_u16 d (p + 34) in
      let! characteristics := linker_read_u32 d (p + 36) in
      let! (raw, h) := section_bytes d pointer_to_raw_data size_of_raw_data h in
      match raw with
      | None => Ret (None, h)
      | Some raw =>
          let! (relocations, h) := section_relocations d pointer_to_relocations number_of_relocations characteristics h in
          match relocations with
          | None => Ret (None, h)
          | Some relocations =>
              Ret (Some (mkCoffSection (Some name) (section_kind (coff_section_kind_from_name (Some name)) raw relocations) virtual_size virtual_address
                size_of_raw_data pointer_to_raw_data pointer_to_relocations pointer_to_line_numbers number_of_relocations number_of_line_numbers
                characteristics raw relocations), h)
          end
      end
  end.

(** [n] sections from the header at [p] on. *)
Fixpoint coff_section_loop (d : list Z) (table : option (list Z)) (n : nat) (p : Z) (h : heap) : outcome (option (list CoffSection) * heap) :=
  match n with
  | O => Ret (Some [], h)
  | S n =>
      let! (s, h) := coff_reader_parse_section d table p h in
      match s with
      | None => Ret (None, h)
      | Some s =>
          let! (rest, h) := coff_section_loop d table n (p + COFF_SECTION_HEADER_SIZE) h in
          Ret (option_map (cons s) rest, h)
      end
  end.

Definition coff_reader_parse_sections (d : list Z) (table : option (list Z)) (section_count : Z) (h : heap) : outcome (option (list CoffSection) * heap) :=
  if section_count =? 0 then Ret (Some [], h)
  else if negb (coff_reader_range_ok (file_size d) COFF_FILE_HEADER_SIZE (section_count * COFF_SECTION_HEADER_SIZE)) then Ret (None, h)
  else
    let (ok, h) := alloc h in
    if negb ok then Ret (None, h) else coff_section_loop d table (Z.to_nat section_count) COFF_FILE_HEADER_SIZE h.

(** * Symbols *)

(** What an auxiliary record leaves zero. *)
Definition auxiliary_symbol (raw_index primary : Z) : CoffSymbol := mkCoffSymbol raw_index None 0 0 0 0 0 true primary false 0 0 0.

(** A symbol and [remaining - 1] more; [None] for a name that is not there or
    records that are missing. *)
Definition coff_reader_parse_symbol (d : list Z) (table : option (list Z)) (p : Z) (i remaining : Z) (h : heap) : outcome (option CoffSymbol * heap) :=
  let! field := slice d p 8 in
  let! (name, h) := coff_reader_parse_symbol_name field table h in
  if bool_decide (name = None) && negb (forallb (Z.eqb 0) field) then Ret (None, h)
  else
    let! value := linker_read_u32 d (p + 8) in
    let! section_number := coff_reader_i16 d (p + 12) in
    let! type := linker_read_u16 d (p + 14) in
    let! storage_class := get d (p + 16) in
    let! auxiliary_count := get d (p + 17) in
    if remaining - 1 <? auxiliary_count then Ret (None, h)
    else if auxiliary_count =? 0 then
      Ret (Some (mkCoffSymbol (u32 i) name value section_number type storage_class auxiliary_count false (u32 i) false 0 0 0), h)
    else
      let! l := linker_read_u32 d (p + COFF_SYMBOL_SIZE) in
      let! r := linker_read_u16 d (p + COFF_SYMBOL_SIZE + 4) in
      let! n := linker_read_u16 d (p + COFF_SYMBOL_SIZE + 6) in
      Ret (Some (mkCoffSymbol (u32 i) name value section_number type storage_class auxiliary_count false (u32 i) true l r n), h).

(** [n] records from the [i]th, at [p], on; the first [aux_remaining] of them
    belong to the symbol before. *)
Fixpoint coff_symbol_loop (d : list Z) (table : option (list Z)) (n : nat) (p i aux_remaining primary : Z) (h : heap) : outcome (option (list CoffSymbol) * heap) :=
  match n with
  | O => Ret (Some [], h)
  | S m =>
      let! (y, h) :=
        if 0 <? aux_remaining then Ret (Some (auxiliary_symbol (u32 i) primary), h)
        else coff_reader_parse_symbol d table p i (Z.of_nat n) h in
      match y with
      | None => Ret (None, h)
      | Some y =>
          let aux := if 0 <? aux_remaining then aux_remaining - 1 else cy_auxiliary_count y in
          let primary := if (0 <? aux_remaining) || (cy_auxiliary_count y =? 0) then primary else u32 i in
          let! (rest, h) := coff_symbol_loop d table m (p + COFF_SYMBOL_SIZE) (i + 1) aux primary h in
          Ret (option_map (cons y) rest, h)
      end
  end.

Definition coff_reader_parse_symbols (d : list Z) (table : option (list Z)) (pointer_to_symbol_table symbol_count : Z) (h : heap) : outcome (option (list CoffSymbol) * heap) :=
  if symbol_count =? 0 then Ret (Some [], h)
  else if negb (coff_reader_range_ok (file_size d) pointer_to_symbol_table (symbol_count * COFF_SYMBOL_SIZE)) then Ret (None, h)
  else
    let (ok, h) := alloc h in
    if negb ok then Ret (None, h) else coff_symbol_loop d table (Z.to_nat symbol_count) pointer_to_symbol_table 0 0 0 h.

(** * Objects *)

(** Reading the bytes of the file, already in memory. *)
Definition coff_object_parse (d : list Z) (h : heap) : outcome (option CoffObject * heap) :=
  if file_size d <? COFF_FILE_HEADER_SIZE then Ret (None, h)
  else
    let (ok, h) := alloc h in
    if negb ok then Ret (None, h)
    else
      let! machine := linker_read_u16 d 0 in
      let! section_count := linker_read_u16 d 2 in
      let! pointer_to_symbol_table := linker_read_u32 d 8 in
      let! symbol_count := linker_read_u32 d 12 in
      if negb (machine =? COFF_MACHINE_AMD64) then Ret (None, h)
      else
        let! (table, h) := coff_reader_parse_string_table d pointer_to_symbol_table symbol_count h in
        match table with
        | None => Ret (None, h)
        | Some table =>
            let! (ss, h) := coff_reader_parse_sections d table section_count h in
            match ss with
            | None => Ret (None, h)
            | Some ss =>
                let! (ys, h) := coff_reader_parse_symbols d table pointer_to_symbol_table symbol_count h in
                Ret (option_map (mkCoffObject ss) ys, h)
            end
        end.
End CoffReader.
