(* ===== verification/LinkObjectRead.v ===== *)
(** Reading an object of either format: src/src/linker/link_object.c.

    What a file holds is a parameter, [files]; opening and reading a file
    either gives all of it or fails. *)
From S2P Require Import Prelude LinkObjects ElfReader CoffReader.
#[local] Open Scope Z_scope.

Module LinkObjectRead.
Import LinkObjects ElfReader CoffReader.

(** * Looking into an object *)

Definition link_object_find_section_by_kind (o : LinkObject) (k : LinkSectionKind) : option LinkSection := snd <$> list_find (fun s => s_kind s = k) (o_sections o).

Definition link_object_find_symbol (o : LinkObject) (name : option cstring) : option LinkSymbol :=
  match name with None => None | Some n => snd <$> list_find (fun y => y_name y = Some n) (o_symbols o) end.

(** * From COFF *)

Definition link_section_kind_from_coff (k : CoffSectionKind) : LinkSectionKind :=
  match k with
  | COFF_SECTION_KIND_TEXT => LINK_SECTION_KIND_TEXT
  | COFF_SECTION_KIND_RDATA => LINK_SECTION_KIND_RDATA
  | COFF_SECTION_KIND_DATA => LINK_SECTION_KIND_DATA
  | COFF_SECTION_KIND_BSS => LINK_SECTION_KIND_BSS
  | COFF_SECTION_KIND_PDATA => LINK_SECTION_KIND_PDATA
  | COFF_SECTION_KIND_XDATA => LINK_SECTION_KIND_XDATA
  | COFF_SECTION_KIND_UNKNOWN => LINK_SECTION_KIND_UNKNOWN
  end.

Definition link_reloc_kind_from_coff (type : Z) : LinkRelocKind :=
  match type with
  | 1 => LINK_RELOC_ABS64
  | 2 => LINK_RELOC_ABS32
  | 3 => LINK_RELOC_IMAGE_REL32
  | 4 => LINK_RELOC_PC32
  | 11 => LINK_RELOC_SECREL32
  | _ => LINK_RELOC_NONE
  end.

Definition link_alignment_from_coff (characteristics : Z) : Z :=
  let field := Z.shiftr (Z.land characteristics 0x00F00000) 20 in
  if field =? 0 then 1 else u64 (Z.shiftl 1 (field - 1)).

(** [mettle_strdup] of a name that may be missing; a refused block leaves the
    copy without a name. *)
Definition dup_name (name : option cstring) (h : heap) : option cstring * heap :=
  match name with None => (None, h) | Some n => let (ok, h) := alloc h in (if ok then Some n else None, h) end.

Definition adopt_relocation (r : CoffRelocation) : LinkReloc :=
  mkReloc (cr_virtual_address r) (cr_symbol_table_index r) (link_reloc_kind_from_coff (cr_type r)) 0 false (cr_type r).

Definition adopt_section (s : CoffSection) (h : heap) : option LinkSection * heap :=
  let (name, h) := dup_name (cs_name s) h in
  let (raw, h) :=
    match cs_raw_data s with
    | Some raw => if 0 <? cs_size_of_raw_data s then let (ok, h) := alloc h in (if ok then Some (take (Z.to_nat (cs_size_of_raw_data s)) raw, cs_size_of_raw_data s) else None, h) else (Some ([], 0), h)
    | None => (Some ([], 0), h)
    end in
  match raw with
  | None => (None, h)
  | Some (raw, size) =>
      let (ok, h) := if bool_decide (cs_relocations s = []) then (true, h) else alloc h in
      (if ok then Some (mkSection name (link_section_kind_from_coff (cs_kind s)) (cs_size_of_raw_data s) size
                          (link_alignment_from_coff (cs_characteristics s)) raw (adopt_relocation <$> cs_relocations s)
                          (bool_decide (cs_kind s = COFF_SECTION_KIND_UNKNOWN)))
       else None, h)
  end.

Fixpoint adopt_sections (ss : list CoffSection) (h : heap) : option (list LinkSection) * heap :=
  match ss with
  | [] => (Some [], h)
  | s :: ss =>
      let (s, h) := adopt_section s h in
      match s with
      | None => (None, h)
      | Some s => let (rest, h) := adopt_sections ss h in (option_map (cons s) rest, h)
      end
  end.

Definition link_object_adopt_coff_sections (o : CoffObject) (h : heap) : option (list LinkSection) * heap :=
  let (ok, h) := alloc h in if negb ok then (None, h) else adopt_sections (c_sections o) h.

Definition adopt_symbol (section_count : Z) (y : CoffSymbol) (h : heap) : option LinkSymbol * heap :=
  let (name, h) := dup_name (cy_name y) h in
  let aux := if cy_has_auxiliary_record y then cy_aux_section_length y else 0 in
  let symbol := fun index defined common =>
    mkSymbol name (cy_value y) index (cy_storage_class y =? 2) false (cy_storage_class y =? 105) aux 0 0 defined common in
  let n := cy_section_number y in
  if cy_is_auxiliary y then (Some (mkSymbol name (cy_value y) LINK_SECTION_INDEX_UNDEFINED false true false aux 0 0 false false), h)
  else if 0 <? n then (if section_count <? n then None else Some (symbol (n - 1) true false), h)
  else if n =? -1 then (Some (symbol LINK_SECTION_INDEX_ABSOLUTE true false), h)
  else if (n =? 0) && negb (cy_value y =? 0) then (Some (symbol LINK_SECTION_INDEX_COMMON true true), h)
  else (Some (symbol LINK_SECTION_INDEX_UNDEFINED false false), h).

Fixpoint adopt_symbols (section_count : Z) (ys : list CoffSymbol) (h : heap) : option (list LinkSymbol) * heap :=
  match ys with
  | [] => (Some [], h)
  | y :: ys =>
      let (y, h) := adopt_symbol section_count y h in
      match y with
      | None => (None, h)
      | Some y => let (rest, h) := adopt_symbols section_count ys h in (option_map (cons y) rest, h)
      end
  end.

Definition link_object_adopt_coff_symbols (o : CoffObject) (h : heap) : option (list LinkSymbol) * heap :=
  let (ok, h) := alloc h in if negb ok then (None, h) else adopt_symbols (Z.of_nat (length (c_sections o))) (c_symbols o) h.

Definition link_object_convert (coff : CoffObject) (h : heap) : option LinkObject * heap :=
  let (ok, h) := alloc h in
  if negb ok then (None, h)
  else
    let (ss, h) := link_object_adopt_coff_sections coff h in
    match ss with
    | None => (None, h)
    | Some ss => let (ys, h) := link_object_adopt_coff_symbols coff h in (option_map (mkObject ss) ys, h)
    end.

(** * Files *)

Section Files.
Context (files : cstring -> option (list Z)).

Definition link_object_read_file (filename : cstring) (h : heap) : option (list Z) * heap :=
  match files filename with None => (None, h) | Some d => let (ok, h) := alloc h in (if ok then Some d else None, h) end.

Definition elf_object_read (filename : cstring) (h : heap) : outcome (option LinkObject * heap) :=
  let (d, h) := link_object_read_file filename h in
  match d with None => Ret (None, h) | Some d => elf_object_read_memory d h end.

Definition coff_reader_read_file (filename : cstring) (h : heap) : option (list Z) * heap :=
  match files filename with None => (None, h) | Some d => let (ok, h) := alloc_array (length d) h in (if ok then Some d else None, h) end.

Definition coff_object_read (filename : cstring) (h : heap) : outcome (option CoffObject * heap) :=
  let (d, h) := coff_reader_read_file filename h in
  match d with None => Ret (None, h) | Some d => coff_object_parse d h end.

Definition link_object_from_coff (filename : cstring) (h : heap) : outcome (option LinkObject * heap) :=
  let! (coff, h) := coff_object_read filename h in
  match coff with None => Ret (None, h) | Some coff => Ret (link_object_convert coff h) end.

Definition link_object_looks_like_elf (filename : cstring) : bool :=
  match files filename with Some (b0 :: b1 :: b2 :: b3 :: _) => is_elf_magic b0 b1 b2 b3 | _ => false end.

Definition link_object_read (filename : cstring) (h : heap) : outcome (option LinkObject * heap) :=
  if link_object_looks_like_elf filename then elf_object_read filename h else link_object_from_coff filename h.
End Files.
End LinkObjectRead.
