(* ===== verification/ElfReaderSafe.v ===== *)
(** The reader of ELF objects on files of any contents: it never reads outside
    the file, and what it accepts is an object the linker can work on. *)
From S2P Require Import Prelude LinkObjects LinkBytes LinkObjectsCorrect SectionMerge SectionMergeCorrect ElfReader.
#[local] Open Scope Z_scope.

Module ElfReaderSafe.
Import LinkObjects LinkBytes LinkObjectsCorrect SectionMergeCorrect ElfReader.

(** * Inside the file *)

Record image_ok (im : ElfImage) : Prop := {
  io_bytes : bytes_ok (data im);
  io_size : file_size (data im) < 2 ^ 63;
  io_entsize : 64 <= shentsize im < 2 ^ 16;
  io_off : 0 <= shoff im;
  io_num : 0 <= shnum im;
  io_room : shoff im + shnum im * shentsize im <= file_size (data im);
  io_strndx : 0 <= shstrndx im < shnum im
}.

Lemma range_ok_spec size o n : link_object_range_ok size o n = true <-> o <= size /\ o + n <= size.
Proof. unfold link_object_range_ok. destruct (Z.ltb_spec size o); [split; [done|lia]|]. rewrite negb_true_iff, Z.ltb_ge. lia. Qed.

Lemma shdr_inside im i : image_ok im -> 0 <= i < shnum im ->
  elf_shdr im i = shoff im + i * shentsize im /\ 0 <= elf_shdr im i /\ elf_shdr im i + 64 <= file_size (data im).
Proof.
  intros [_ Hs He Ho Hn Hr _] Hi. unfold elf_shdr. assert (0 <= i * shentsize im /\ i * shentsize im + shentsize im <= shnum im * shentsize im) as [H0 H1] by nia.
  rewrite wrapu_small by (unfold in_u; lia). lia.
Qed.

(** Reading the words of a header or of an entry that lies in the file. *)
Ltac inside := first [assumption|unfold file_size in *; lia].
Ltac read :=
  unfold elf_sh_type, elf_sh_flags, elf_sh_offset, elf_sh_size;
  lazymatch goal with
  | |- context [obind ?m _] =>
      let v := fresh "v" in let Hv := fresh "Hv" in
      lazymatch m with
      | get ?d ?p => destruct (get_byte d p) as (v & -> & Hv)
      | linker_read_u16 ?d ?p => destruct (read_u16_word d p) as (v & -> & Hv)
      | linker_read_u32 ?d ?p => destruct (read_u32_word d p) as (v & -> & Hv)
      | linker_read_u64 ?d ?p => destruct (read_u64_word d p) as (v & -> & Hv)
      end; [inside..|]; cbn [obind]
  end.
Ltac reads := repeat read.

Lemma slice_inside d i n : 0 <= i -> 0 <= n -> i + n <= file_size d ->
  exists l, slice d i n = Ret l /\ Z.of_nat (length l) = n /\ (bytes_ok d -> bytes_ok l).
Proof.
  intros Hi Hn Hl. unfold slice, file_size in *. destruct (_ || _ || _) eqn:E.
  { rewrite !orb_true_iff, !Z.ltb_lt in E. lia. }
  eexists. split; [done|]. split; [rewrite length_take, length_drop; lia|]. intros H. by apply Forall_take, Forall_drop.
Qed.

(** * Names *)

Lemma string_at_inside n : forall d i, bytes_ok d -> 0 <= i -> i + Z.of_nat n <= file_size d ->
  exists s, string_at n d i = Ret s /\ forall x, s = Some x -> Forall (fun c => in_u 8 c /\ c <> 0) x.
Proof.
  induction n as [|n IH]; intros d i Hd Hi Hl; cbn [string_at]; [by exists None|]. read.
  destruct (Z.eqb_spec v 0); [exists (Some []); split; [done|]; by intros x [= <-]|]. destruct (IH d (i + 1)) as (s & -> & Hs); [done|lia|lia|]. cbn [obind].
  eexists. split; [done|]. intros x Ex. destruct s as [s|]; [|done]. injection Ex as <-. constructor; [done|by apply Hs].
Qed.

Lemma dup_string_inside d table size offset h : bytes_ok d -> 0 <= table -> 0 <= offset -> table + size <= file_size d ->
  returns (fun _ => True) h (elf_dup_string d table size offset h).
Proof.
  intros Hd Ht Ho Hl. unfold elf_dup_string. destruct (Z.leb_spec size offset); [apply returns_none|].
  destruct (string_at_inside (Z.to_nat (size - offset)) d (table + offset)) as (s & -> & _); [done|lia|lia|]. cbn [obind].
  destruct s; [|apply returns_none]. allocated h h1. by apply returns_some.
Qed.

(** * The header *)

Lemma parse_table_ok d : bytes_ok d -> file_size d < 2 ^ 63 -> 64 <= file_size d ->
  exists res, elf_parse_table d = Ret res /\ forall im, res = Some im -> image_ok im /\ data im = d.
Proof.
  intros Hd Hs H64. unfold elf_parse_table. reads. unfold in_u in *.
  destruct (Z.ltb_spec v0 64); [by exists None|]. destruct (v =? 0); [by exists None|].
  destruct (link_object_range_ok (file_size d) v v0) eqn:E1; cbn [negb]; [|by exists None]. apply range_ok_spec in E1.
  assert (exists num, (if v1 =? 0 then linker_read_u64 d (v + 32) else Ret v1) = Ret num /\ in_u 64 num) as (num & -> & Hnum).
  { destruct (v1 =? 0); [apply read_u64_word; inside|]. exists v1. split; [done|]. unfold in_u. lia. }
  cbn [obind]. assert (exists ndx, (if v2 =? SHN_XINDEX then linker_read_u32 d (v + 40) else Ret v2) = Ret ndx /\ in_u 32 ndx) as (ndx & -> & Hndx).
  { destruct (v2 =? SHN_XINDEX); [apply read_u32_word; inside|]. exists v2. split; [done|]. unfold in_u. lia. }
  cbn [obind]. destruct (Z.ltb_spec (file_size d / v0) num) as [|Hdiv]; [by exists None|].
  destruct (link_object_range_ok (file_size d) v _) eqn:E2; cbn [negb]; [|by exists None]. apply range_ok_spec in E2.
  destruct (Z.leb_spec num ndx); [by exists None|]. eexists. split; [done|]. intros im [= <-]. split; [|done].
  unfold in_u in *. assert (num * v0 <= file_size d) as Hmul by (pose proof (Z.mul_div_le (file_size d) v0); nia).
  rewrite wrapu_small in E2 by (unfold in_u; nia). constructor; cbn; try done; lia.
Qed.


Lemma parse_header_ok d : bytes_ok d -> file_size d < 2 ^ 63 ->
  exists res, elf_parse_header d = Ret res /\ forall im, res = Some im -> image_ok im /\ data im = d.
Proof.
  intros Hd Hs. unfold elf_parse_header. destruct (Z.ltb_spec (file_size d) 64); [by exists None|]. do 4 read.
  destruct (negb _); [by exists None|]. do 2 read. destruct (_ || _); [by exists None|]. read. destruct (negb _); [by exists None|].
  read. destruct (negb _); [by exists None|]. by apply parse_table_ok.
Qed.

(** * Sections *)

(** A section with its bytes, aligned, without relocations so far. *)
Definition read_section (s : LinkSection) : Prop :=
  section_ok s /\ bytes_ok (s_raw_data s) /\ Z.of_nat (length (s_raw_data s)) = s_size_of_raw_data s /\ s_size_of_raw_data s <= s_virtual_size s /\
  1 <= s_alignment s /\ s_relocations s = [].

Lemma parse_section_ok im shstr size i h : image_ok im -> 0 <= i < shnum im -> 0 <= shstr -> shstr + size <= file_size (data im) ->
  returns read_section h (elf_parse_section im shstr size i h).
Proof.
  intros Him Hi Hstr Hsize. destruct (shdr_inside im i Him Hi) as (_ & H0 & H64). pose proof (io_bytes _ Him) as Hb. pose proof (io_size _ Him) as Hfs.
  unfold elf_parse_section. cbv zeta. reads. destruct (v =? SHT_GROUP); [apply returns_none|].
  destruct (dup_string_inside (data im) shstr size v4 h) as (name & h1 & -> & Eh & _); [done|done|unfold in_u in *; lia|done|]. cbn [obind].
  apply (returns_heap _ h h1 _ Eh).
  assert (forall raw, bytes_ok raw -> Z.of_nat (length raw) <= v1 ->
    read_section (mkSection name (elf_section_kind v0 v) v1 (Z.of_nat (length raw)) (if v3 =? 0 then 1 else v3) raw [] (negb (has_flag v0 SHF_ALLOC)))) as Hsec.
  { intros raw Hraw Hl. unfold read_section, section_ok, in_u in *. cbn. destruct (Z.eqb_spec v3 0); (repeat split; (done || lia)). }
  unfold in_u in *. destruct (_ || _) eqn:Eb; [apply returns_some; apply (Hsec []); [constructor|cbn; lia]|].
  destruct (link_object_range_ok _ _ _) eqn:E; cbn [negb]; [|apply returns_none]. apply range_ok_spec in E.
  allocated h1 h2.
  destruct (slice_inside (data im) v2 v1) as (raw & -> & Hl & Hraw); [lia|lia|lia|]. cbn [obind]. apply returns_some. pose proof (Hsec raw (Hraw Hb) ltac:(lia)) as Hs; rewrite Hl in Hs; exact Hs.
Qed.

Lemma section_loop_ok im shstr size : image_ok im -> 0 <= shstr -> shstr + size <= file_size (data im) ->
  forall n i h, 0 <= i -> i + Z.of_nat n <= shnum im -> returns (fun ss => length ss = n /\ Forall read_section ss) h (section_loop im shstr size n i h).
Proof.
  intros Him Hstr Hsize. induction n as [|n IH]; intros i h Hi Hn; cbn [section_loop]; [by apply returns_some|].
  apply (returns_bind read_section); [apply parse_section_ok; done || lia|intros h1; apply returns_none|]. intros s h1 Hs.
  apply (returns_bind _ _ _ _ _ (IH (i + 1) h1 ltac:(lia) ltac:(lia))); [intros h2; apply returns_none|]. intros ss h2 [Hl Hss].
  apply returns_some. split; [cbn; by rewrite Hl|by constructor].
Qed.

Lemma parse_sections_ok im h : image_ok im -> returns (fun ss => Z.of_nat (length ss) = shnum im /\ Forall read_section ss) h (elf_parse_sections im h).
Proof.
  intros Him. destruct (shdr_inside im _ Him (io_strndx _ Him)) as (_ & H0 & H64). pose proof (io_bytes _ Him) as Hb.
  unfold elf_parse_sections. cbv zeta. reads. destruct (link_object_range_ok _ _ _) eqn:E; cbn [negb]; [|apply returns_none]. apply range_ok_spec in E.
  allocated h h1. pose proof (io_num _ Him). unfold in_u in *.
  destruct (section_loop_ok im v0 v Him ltac:(lia) ltac:(lia) (Z.to_nat (shnum im)) 0 h1) as (res & h2 & E2 & Eh & H2); [lia|lia|].
  exists res, h2. split; [done|]. split; [done|]. intros ss Ess. destruct (H2 ss Ess) as [Hl Hss]. split; [lia|done].
Qed.

(** * Symbols *)

Definition read_symbol (section_count : Z) (y : LinkSymbol) : Prop :=
  symbol_ok y /\ y_aux_section_length y = 0 /\ y_is_auxiliary y = false /\ -3 <= y_section_index y < section_count.

Lemma find_symtab_ok im : image_ok im -> forall n i, 0 <= i -> i + Z.of_nat n <= shnum im ->
  exists res, find_symtab im n i = Ret res /\ forall p, res = Some p -> exists j, 0 <= j < shnum im /\ p = elf_shdr im j.
Proof.
  intros Him. induction n as [|n IH]; intros i Hi Hn; cbn [find_symtab]; [by exists None|].
  destruct (shdr_inside im i Him) as (_ & H0 & H64); [lia|]. pose proof (io_bytes _ Him) as Hb. read.
  destruct (_ =? _); [|apply IH; lia]. eexists. split; [done|]. intros p [= <-]. exists i. split; [lia|done].
Qed.

Lemma parse_symbol_ok im strtab size entry h : image_ok im -> 0 <= strtab -> strtab + size <= file_size (data im) ->
  0 <= entry -> entry + 24 <= file_size (data im) -> returns (read_symbol (shnum im)) h (elf_parse_symbol im strtab size entry h).
Proof.
  intros Him Hstr Hsize He He24. pose proof (io_bytes _ Him) as Hb. pose proof (io_strndx _ Him). unfold elf_parse_symbol. cbv zeta. do 3 read.
  destruct (dup_string_inside (data im) strtab size v1 h) as (name & h1 & -> & Eh & _); [done|done|unfold in_u in *; lia|done|]. cbn [obind].
  apply (returns_heap _ h h1 _ Eh). do 2 read.
  unfold in_u in *. unfold SHN_UNDEF, SHN_ABS, SHN_COMMON, SHN_XINDEX, SHN_LORESERVE.
  destruct (v0 =? 0); [apply returns_some; unfold read_symbol, symbol_ok, in_u; cbn; unfold LINK_SECTION_INDEX_UNDEFINED; (repeat split; (done || lia))|].
  destruct (v0 =? _); [apply returns_some; unfold read_symbol, symbol_ok, in_u; cbn; unfold LINK_SECTION_INDEX_ABSOLUTE; (repeat split; (done || lia))|].
  destruct (v0 =? _); [apply returns_some; unfold read_symbol, symbol_ok, in_u; cbn; unfold LINK_SECTION_INDEX_COMMON; (repeat split; (done || lia))|].
  destruct (v0 =? _); [apply returns_none|]. destruct (_ || _) eqn:E; [apply returns_none|]. rewrite orb_false_iff, !Z.leb_gt in E.
  apply returns_some. unfold read_symbol, symbol_ok, in_u. cbn. repeat split; (done || lia).
Qed.

Lemma symbol_loop_ok im strtab size : image_ok im -> 0 <= strtab -> strtab + size <= file_size (data im) ->
  forall n entry h, 0 <= entry -> entry + 24 * Z.of_nat n <= file_size (data im) ->
  returns (fun ys => length ys = n /\ Forall (read_symbol (shnum im)) ys) h (symbol_loop im strtab size n entry h).
Proof.
  intros Him Hstr Hsize. induction n as [|n IH]; intros entry h He Hn; cbn [symbol_loop]; [by apply returns_some|].
  apply (returns_bind (read_symbol (shnum im))); [apply parse_symbol_ok; done || lia|intros h1; apply returns_none|]. intros y h1 Hy.
  apply (returns_bind _ _ _ _ _ (IH (entry + 24) h1 ltac:(lia) ltac:(lia))); [intros h2; apply returns_none|]. intros ys h2 [Hl Hys].
  apply returns_some. split; [cbn; by rewrite Hl|by constructor].
Qed.

Lemma parse_symbols_ok im h : image_ok im -> returns (Forall (read_symbol (shnum im))) h (elf_parse_symbols im h).
Proof.
  intros Him. pose proof (io_bytes _ Him) as Hb. pose proof (io_num _ Him) as Hnum. unfold elf_parse_symbols. cbv zeta.
  destruct (find_symtab_ok im Him (Z.to_nat (shnum im)) 0) as (p & -> & Hp); [lia|lia|]. cbn [obind].
  destruct p as [p|]; [|by apply returns_some]. destruct (Hp p eq_refl) as (j & Hj & ->). destruct (shdr_inside im j Him Hj) as (_ & H0 & H64). read.
  destruct (Z.leb_spec (shnum im) v); [apply returns_none|]. unfold in_u in Hv. destruct (shdr_inside im v Him) as (_ & H0' & H64'); [lia|].
  read. destruct (negb _); [apply returns_none|]. read. destruct (_ && _); [apply returns_none|]. reads. unfold in_u in *.
  destruct (link_object_range_ok _ _ _) eqn:E1; [|apply returns_none]. destruct (link_object_range_ok _ v5 _) eqn:E2; [|apply returns_none].
  cbn [negb orb]. apply range_ok_spec in E1, E2. allocated h h1.
  assert (0 <= v3 / 24 /\ 24 * (v3 / 24) <= v3) as [Hc1 Hc2] by (split; [apply Z.div_pos; lia|apply Z.mul_div_le; lia]).
  destruct (symbol_loop_ok im v5 v2 Him ltac:(lia) ltac:(lia) (Z.to_nat (v3 / 24)) v4 h1) as (res & h2 & E & Eh & H2); [lia|lia|].
  exists res, h2. split; [done|]. split; [done|]. intros ys Eys. by apply H2.
Qed.

(** * Relocations *)

(** A relocation of a symbol of the object, whose field lies in the section. *)
Definition reloc_ok (symbol_count virtual_size : Z) (rel : LinkReloc) : Prop :=
  0 <= r_symbol_index rel < symbol_count /\ 0 <= r_offset rel /\
  (r_kind rel <> LINK_RELOC_NONE -> r_offset rel + reloc_width (r_kind rel) <= virtual_size).

Lemma parse_relocation_ok d n vs entry : bytes_ok d -> 0 <= entry -> entry + 24 <= file_size d ->
  exists res, elf_parse_relocation d n vs entry = Ret res /\ forall rel, res = Some rel -> reloc_ok n vs rel.
Proof.
  intros Hd He Hl. unfold elf_parse_relocation. cbv zeta. do 3 read. unfold in_u in *. pose proof (wrapu_bound 32 (Z.shiftr v 32) ltac:(lia)) as Hy.
  unfold in_u in Hy. destruct (Z.leb_spec n (u32 (Z.shiftr v 32))); [by exists None|]. destruct (_ && _); [by exists None|].
  set (k := elf_reloc_kind _). destruct (negb _ && _) eqn:E; [by exists None|]. eexists. split; [done|]. intros rel [= <-]. unfold reloc_ok. cbn [r_symbol_index r_offset r_kind].
  split; [lia|]. split; [lia|]. intros Hk. apply andb_false_iff in E as [E|E].
  - apply negb_false_iff, Z.eqb_eq in E. by destruct k.
  - rewrite orb_false_iff, !Z.ltb_ge in E. lia.
Qed.

Lemma relocation_loop_ok d n vs : bytes_ok d -> forall c entry, 0 <= entry -> entry + 24 * Z.of_nat c <= file_size d ->
  exists res, relocation_loop d n vs c entry = Ret res /\ forall rels, res = Some rels -> Forall (reloc_ok n vs) rels.
Proof.
  intros Hd. induction c as [|c IH]; intros entry He Hl; cbn [relocation_loop]; [exists (Some []); split; [done|]; by intros rels [= <-]|].
  destruct (parse_relocation_ok d n vs entry Hd) as (rel & -> & Hrel); [lia|lia|]. cbn [obind]. destruct rel as [rel|]; [|by exists None].
  destruct (IH (entry + 24)) as (rest & -> & Hrest); [lia|lia|]. cbn [obind]. eexists. split; [done|]. intros rels E. destruct rest as [rest|]; [|done].
  injection E as <-. constructor; [by apply Hrel|by apply Hrest].
Qed.

(** A section with its relocations. *)
Definition whole_section (symbol_count : Z) (s : LinkSection) : Prop :=
  read_section (with_relocations [] s) /\ Forall (reloc_ok symbol_count (s_virtual_size s)) (s_relocations s).

Definition whole_sections (im : ElfImage) (n : Z) (ss : list LinkSection) : Prop := Z.of_nat (length ss) = shnum im /\ Forall (whole_section n) ss.

Lemma parse_relocation_section_ok im n i ss h : image_ok im -> 0 <= i < shnum im -> whole_sections im n ss ->
  returns (whole_sections im n) h (elf_parse_relocation_section im n i ss h).
Proof.
  intros Him Hi [Hlen Hss]. destruct (shdr_inside im i Him Hi) as (_ & H0 & H64). pose proof (io_bytes _ Him) as Hb.
  unfold elf_parse_relocation_section. cbv zeta. do 3 read. destruct (v =? SHT_REL); [apply returns_none|].
  destruct (negb _); [by apply returns_some|]. unfold in_u in *. destruct (Z.leb_spec (shnum im) v0); [apply returns_none|].
  read. unfold in_u in *. destruct (link_object_range_ok _ _ _) eqn:E; cbn [negb]; [|apply returns_none]. apply range_ok_spec in E.
  destruct (get_inside ss v0) as (t & -> & Ht); [lia|]. cbn [obind]. destruct (_ =? 0); [by apply returns_some|].
  allocated h h1.
  assert (0 <= v1 / 24 /\ 24 * (v1 / 24) <= v1) as [Hc1 Hc2] by (split; [apply Z.div_pos; lia|apply Z.mul_div_le; lia]).
  destruct (relocation_loop_ok (data im) n (s_virtual_size t) Hb (Z.to_nat (v1 / 24)) v2) as (rels & -> & Hrels); [lia|lia|]. cbn [obind].
  destruct rels as [rels|]; [|apply returns_none]. rewrite put_spec by lia. cbn [obind]. apply returns_some. split; [by rewrite length_insert|].
  apply Forall_insert; [done|]. destruct (Forall_lookup_1 _ _ _ _ Hss Ht) as [Hsec Hold]. split; [exact Hsec|]. cbn. apply Forall_app. by split; [|apply Hrels].
Qed.

Lemma relocation_section_loop_ok im n : image_ok im -> forall c i ss h, 0 <= i -> i + Z.of_nat c <= shnum im -> whole_sections im n ss ->
  returns (whole_sections im n) h (relocation_section_loop im n c i ss h).
Proof.
  intros Him. induction c as [|c IH]; intros i ss h Hi Hc Hss; cbn [relocation_section_loop]; [by apply returns_some|].
  apply (returns_bind (whole_sections im n)); [apply parse_relocation_section_ok; done || lia|intros h1; apply returns_none|].
  intros ss1 h1 Hss1. apply IH; done || lia.
Qed.

(** * Objects *)

(** What the reader promises of an object. *)
Record elf_object_ok (o : LinkObject) : Prop := {
  eo_sections : Forall (whole_section (Z.of_nat (length (o_symbols o)))) (o_sections o);
  eo_symbols : Forall (read_symbol (Z.of_nat (length (o_sections o)))) (o_symbols o)
}.

Lemma elf_object_linkable o : elf_object_ok o -> object_ok o /\
  (forall s rel, s ∈ o_sections o -> rel ∈ s_relocations s -> 0 <= r_symbol_index rel).
Proof.
  intros [Hss Hys]. split; [split; [|split; [|right]]|].
  - eapply Forall_impl; [exact Hss|]. intros s [[Hs _] _]. exact Hs.
  - eapply Forall_impl; [exact Hys|]. by intros y [Hy _].
  - eapply Forall_impl; [exact Hys|]. by intros y (_ & Hy & _).
  - intros s rel Hs Hrel. destruct (proj1 (Forall_forall _ _) Hss s Hs) as [_ H]. by apply (proj1 (Forall_forall _ _) H rel Hrel).
Qed.

Lemma elf_object_read_memory_ok d h : bytes_ok d -> file_size d < 2 ^ 63 -> returns elf_object_ok h (elf_object_read_memory d h).
Proof.
  intros Hd Hs. unfold elf_object_read_memory. destruct (parse_header_ok d Hd Hs) as (im & -> & Him). cbn [obind]. destruct im as [im|]; [|apply returns_none].
  destruct (Him im eq_refl) as [Hok _]. allocated h h1.
  apply (returns_bind _ _ _ _ _ (parse_sections_ok im h1 Hok)); [intros h2; apply returns_none|]. intros ss h2 [Hl Hss].
  apply (returns_bind _ _ _ _ _ (parse_symbols_ok im h2 Hok)); [intros h3; apply returns_none|]. intros ys h3 Hys.
  destruct (relocation_section_loop_ok im (Z.of_nat (length ys)) Hok (Z.to_nat (shnum im)) 0 ss h3) as (res & h4 & E & Eh & Hres).
  - lia.
  - pose proof (io_num _ Hok). lia.
  - split; [done|]. eapply Forall_impl; [exact Hss|]. intros s Hsec. pose proof Hsec as (_ & _ & _ & _ & _ & Er). split; [|by rewrite Er].
    replace (with_relocations [] s) with s; [done|]. destruct s. cbn in *. by subst.
  - unfold elf_parse_relocations. rewrite E. cbn [obind]. apply (returns_heap _ h3 h4 _ Eh). destruct res as [ss2|]; [|apply returns_none]. apply returns_some.
    destruct (Hres ss2 eq_refl) as [Hl2 Hss2]. split; [done|]. cbn. by rewrite Hl2.
Qed.
End ElfReaderSafe.
