(* ===== verification/CoffReaderSafe.v ===== *)
(** The reader of COFF objects, and reading an object of either format, on files
    of any contents. *)
From S2P Require Import Prelude LinkObjects LinkBytes LinkObjectsCorrect SectionMerge SectionMergeCorrect ElfReader ElfReaderSafe.
From S2P Require Import CoffReader LinkObjectRead.
#[local] Open Scope Z_scope.

Module CoffReaderSafe.
Import LinkObjects LinkBytes LinkObjectsCorrect SectionMergeCorrect ElfReader ElfReaderSafe CoffReader LinkObjectRead.

Lemma coff_range_ok_spec size o n : coff_reader_range_ok size o n = true <-> o <= size /\ o + n <= size.
Proof. apply range_ok_spec. Qed.

(** * Names *)

Lemma dup_bytes_trimmed_ok bytes h : returns (fun _ => True) h (Ret (coff_reader_dup_bytes_trimmed bytes h)).
Proof. unfold coff_reader_dup_bytes_trimmed. allocated h h1. by apply returns_some. Qed.

Definition table_ok (t : option (list Z)) : Prop := forall l, t = Some l -> bytes_ok l.

Lemma string_from_table_ok table offset h : table_ok table -> returns (fun _ => True) h (coff_reader_string_from_table table offset h).
Proof.
  intros Ht. unfold coff_reader_string_from_table. destruct table as [t|]; [|apply returns_none].
  destruct (_ || _ || _) eqn:E; [apply returns_none|]. rewrite !orb_false_iff, !Z.ltb_ge, Z.leb_gt in E. unfold coff_reader_dup_cstring_range.
  destruct (string_at_inside (Z.to_nat (Z.of_nat (length t) - offset)) t offset) as (s & -> & _); [by apply Ht|lia|unfold file_size; lia|].
  cbn [obind]. destruct s as [s|]; [|apply returns_none]. allocated h h1. by apply returns_some.
Qed.

Lemma section_name_ok field table h : table_ok table -> returns (fun _ => True) h (coff_reader_parse_section_name field table h).
Proof.
  intros Ht. unfold coff_reader_parse_section_name. destruct field as [|c field]; [apply dup_bytes_trimmed_ok|].
  assert (returns (fun _ => True) h (match name_offset field 0 with
    | None => Ret (coff_reader_dup_bytes_trimmed (c :: field) h) | Some offset => coff_reader_string_from_table table offset h end)) as H.
  { destruct (name_offset field 0); [by apply string_from_table_ok|apply dup_bytes_trimmed_ok]. }
  repeat (match goal with |- context [match ?x with _ => _ end] => destruct x end; try (exact H || apply dup_bytes_trimmed_ok)).
Qed.

Lemma symbol_name_ok field table h : bytes_ok field -> Z.of_nat (length field) = 8 -> table_ok table ->
  returns (fun _ => True) h (coff_reader_parse_symbol_name field table h).
Proof.
  intros Hf Hl Ht. unfold coff_reader_parse_symbol_name. do 2 read. destruct (_ && _); [by apply string_from_table_ok|apply dup_bytes_trimmed_ok].
Qed.

Lemma parse_string_table_ok d p n h : bytes_ok d -> file_size d < 2 ^ 32 -> 0 <= p < 2 ^ 32 -> 0 <= n < 2 ^ 32 ->
  returns table_ok h (coff_reader_parse_string_table d p n h).
Proof.
  intros Hd Hs Hp Hn. unfold coff_reader_parse_string_table. cbv zeta. rewrite (wrapu_small 64 (n * 18)), (wrapu_small 64 (p + n * 18)) by (unfold in_u; lia).
  destruct (Z.ltb_spec (file_size d) (p + n * 18)); [apply returns_none|]. destruct (_ =? _); [by apply returns_some|]. rewrite wrapu_small by (unfold in_u; lia).
  destruct (coff_reader_range_ok _ _ 4) eqn:E1; cbn [negb]; [|apply returns_none]. apply coff_range_ok_spec in E1.
  read. destruct (_ =? 0); [by apply returns_some|]. destruct (_ <? 4); [apply returns_none|].
  destruct (coff_reader_range_ok _ _ v) eqn:E2; cbn [negb]; [|apply returns_none]. apply coff_range_ok_spec in E2. unfold in_u in Hv.
  allocated h h1. destruct (slice_inside d (p + n * 18) v) as (t & -> & _ & Ht); [lia|lia|lia|]. cbn [obind]. apply returns_some. intros l [= <-]. by apply Ht.
Qed.

(** * Sections *)

Definition coff_section_ok (s : CoffSection) : Prop :=
  cs_name s <> None /\ in_u 32 (cs_size_of_raw_data s) /\ (forall raw, cs_raw_data s = Some raw -> Z.of_nat (length raw) = cs_size_of_raw_data s /\ bytes_ok raw) /\
  Forall (fun r => 0 <= cr_symbol_table_index r) (cs_relocations s).

Lemma coff_relocations_ok d : bytes_ok d -> forall n p, 0 <= p -> p + 10 * Z.of_nat n <= file_size d ->
  exists l, coff_relocations d n p = Ret l /\ Forall (fun r => 0 <= cr_symbol_table_index r) l.
Proof.
  intros Hd. induction n as [|n IH]; intros p Hp Hl; cbn [coff_relocations]; [by exists []|]. do 3 read.
  destruct (IH (p + 10)) as (l & -> & H); [lia|lia|]. cbn [obind]. eexists. split; [done|]. constructor; [cbn; unfold in_u in *; lia|done].
Qed.

Lemma section_relocations_ok d p n c h : bytes_ok d -> 0 <= p < 2 ^ 32 -> 0 <= n < 2 ^ 16 ->
  returns (Forall (fun r => 0 <= cr_symbol_table_index r)) h (section_relocations d p n c h).
Proof.
  intros Hd Hp Hn. unfold section_relocations.
  assert (exists r, relocation_count d p n c = Ret r /\ forall a b, r = Some (a, b) -> 0 <= a /\ 0 <= b) as (r & -> & Hr).
  { unfold relocation_count. destruct (_ && _); [|eexists; split; [done|]; intros a b [= <- <-]; lia].
    destruct (coff_reader_range_ok _ _ 10) eqn:E; cbn [negb]; [|by exists None]. apply coff_range_ok_spec in E. read. eexists. split; [done|].
    unfold in_u in Hv. destruct (Z.eqb_spec v 0); [done|]. intros a b [= <- <-]. lia. }
  cbn [obind]. destruct r as [[a b]|]; [|apply returns_none]. destruct (Hr a b eq_refl) as [Ha Hb]. destruct (_ =? 0); [by apply returns_some|].
  destruct (coff_reader_range_ok _ _ _) eqn:E; cbn [negb]; [|apply returns_none]. apply coff_range_ok_spec in E. allocated h h1.
  destruct (coff_relocations_ok d Hd (Z.to_nat a) (p + b * 10)) as (l & -> & Hl); [lia|lia|]. cbn [obind]. by apply returns_some.
Qed.

Lemma section_bytes_ok d p n h : bytes_ok d -> 0 <= p -> 0 <= n ->
  returns (fun raw => forall l, raw = Some l -> Z.of_nat (length l) = n /\ bytes_ok l) h (section_bytes d p n h).
Proof.
  intros Hd Hp Hn. unfold section_bytes. destruct (_ || _); [by apply returns_some|].
  destruct (coff_reader_range_ok _ _ _) eqn:E; cbn [negb]; [|apply returns_none]. apply coff_range_ok_spec in E. allocated h h1.
  destruct (slice_inside d p n) as (l & -> & Hl & Hb); [lia..|]. cbn [obind]. apply returns_some. intros l' [= <-]. split; [done|by apply Hb].
Qed.

Lemma coff_parse_section_ok d table p h : bytes_ok d -> table_ok table -> 0 <= p -> p + 40 <= file_size d ->
  returns coff_section_ok h (coff_reader_parse_section d table p h).
Proof.
  intros Hd Ht Hp Hl. unfold coff_reader_parse_section. destruct (slice_inside d p 8) as (field & -> & Hf & _); [lia..|]. cbn [obind].
  apply (returns_bind _ _ _ _ _ (section_name_ok field table h Ht)); [intros h1; apply returns_none|]. intros name h1 _. do 9 read. unfold in_u in *.
  apply (returns_bind _ _ _ _ _ (section_bytes_ok d v2 v1 h1 Hd ltac:(lia) ltac:(lia))); [intros h2; apply returns_none|]. intros raw h2 Hraw.
  apply (returns_bind _ _ _ _ _ (section_relocations_ok d v3 v5 v7 h2 Hd ltac:(lia) ltac:(lia))); [intros h3; apply returns_none|]. intros l h3 Hrel.
  apply returns_some. split; [done|]. split; [unfold in_u; cbn [cs_size_of_raw_data]; lia|]. by split.
Qed.

Lemma coff_section_loop_ok d table : bytes_ok d -> table_ok table -> forall n p h, 0 <= p -> p + 40 * Z.of_nat n <= file_size d ->
  returns (Forall coff_section_ok) h (coff_section_loop d table n p h).
Proof.
  intros Hd Ht. induction n as [|n IH]; intros p h Hp Hl; cbn [coff_section_loop]; [by apply returns_some|].
  apply (returns_bind coff_section_ok); [apply coff_parse_section_ok; done || lia|intros h1; apply returns_none|]. intros s h1 Hs.
  apply (returns_bind _ _ _ _ _ (IH (p + 40) h1 ltac:(lia) ltac:(lia))); [intros h2; apply returns_none|]. intros ss h2 Hss. apply returns_some. by constructor.
Qed.

Lemma coff_parse_sections_ok d table n h : bytes_ok d -> table_ok table -> 0 <= n -> returns (Forall coff_section_ok) h (coff_reader_parse_sections d table n h).
Proof.
  intros Hd Ht Hn. unfold coff_reader_parse_sections. destruct (_ =? 0); [by apply returns_some|].
  destruct (coff_reader_range_ok _ _ _) eqn:E; cbn [negb]; [|apply returns_none]. apply coff_range_ok_spec in E. allocated h h1. apply coff_section_loop_ok; done || lia.
Qed.

(** * Symbols *)

Definition coff_symbol_ok (y : CoffSymbol) : Prop := in_u 32 (cy_value y) /\ in_u 32 (cy_aux_section_length y) /\ 0 <= cy_auxiliary_count y.

Lemma coff_parse_symbol_ok d table p i n h : bytes_ok d -> table_ok table -> 0 <= p -> 0 < n -> p + 18 * n <= file_size d ->
  returns (fun y => coff_symbol_ok y /\ cy_auxiliary_count y < n) h (coff_reader_parse_symbol d table p i n h).
Proof.
  intros Hd Ht Hp Hn Hl. unfold coff_reader_parse_symbol. destruct (slice_inside d p 8) as (field & -> & Hf & Hfb); [lia..|]. cbn [obind].
  destruct (symbol_name_ok field table h) as (name & h1 & -> & Eh & _); [by apply Hfb|lia|done|]. cbn [obind]. apply (returns_heap _ h h1 _ Eh).
  destruct (_ && _); [apply returns_none|]. read. unfold coff_reader_i16. destruct (read_u16_word d (p + 12)) as (w & -> & Hw); [done|lia|unfold file_size in *; lia|].
  cbn [obind]. do 3 read. unfold in_u in *. destruct (Z.ltb_spec (n - 1) v2); [apply returns_none|].
  destruct (Z.eqb_spec v2 0) as [->|].
  { apply returns_some. unfold coff_symbol_ok, in_u. cbn [cy_value cy_aux_section_length cy_auxiliary_count]. lia. }
  do 3 read. apply returns_some. unfold coff_symbol_ok, in_u in *. cbn [cy_value cy_aux_section_length cy_auxiliary_count]. lia.
Qed.

Lemma coff_symbol_loop_ok d table : bytes_ok d -> table_ok table -> forall n p i aux primary h, 0 <= p -> p + 18 * Z.of_nat n <= file_size d ->
  returns (Forall coff_symbol_ok) h (coff_symbol_loop d table n p i aux primary h).
Proof.
  intros Hd Ht. induction n as [|n IH]; intros p i aux primary h Hp Hl; cbn [coff_symbol_loop]; [by apply returns_some|].
  apply (returns_bind coff_symbol_ok).
  - destruct (0 <? aux); [by apply returns_some|]. apply (returns_weaken (fun y => coff_symbol_ok y /\ cy_auxiliary_count y < Z.of_nat (S n))); [|by intros y []].
    apply coff_parse_symbol_ok; done || lia.
  - intros h1. apply returns_none.
  - intros y h1 Hy. cbv zeta. eapply returns_bind; [apply IH; lia|intros h2; apply returns_none|]. intros ys h2 Hys. apply returns_some. by constructor.
Qed.

Lemma coff_parse_symbols_ok d table p n h : bytes_ok d -> table_ok table -> 0 <= p -> 0 <= n ->
  returns (Forall coff_symbol_ok) h (coff_reader_parse_symbols d table p n h).
Proof.
  intros Hd Ht Hp Hn. unfold coff_reader_parse_symbols. destruct (_ =? 0); [by apply returns_some|].
  destruct (coff_reader_range_ok _ _ _) eqn:E; cbn [negb]; [|apply returns_none]. apply coff_range_ok_spec in E. allocated h h1. apply coff_symbol_loop_ok; done || lia.
Qed.

Definition coff_object_ok (o : CoffObject) : Prop := Forall coff_section_ok (c_sections o) /\ Forall coff_symbol_ok (c_symbols o).

Lemma coff_object_parse_ok d h : bytes_ok d -> file_size d < 2 ^ 32 -> returns coff_object_ok h (coff_object_parse d h).
Proof.
  intros Hd Hs. unfold coff_object_parse. destruct (Z.ltb_spec (file_size d) 20); [apply returns_none|]. allocated h h1. do 4 read. unfold in_u in *.
  destruct (negb _); [apply returns_none|].
  apply (returns_bind _ _ _ _ _ (parse_string_table_ok d v1 v2 h1 Hd Hs ltac:(lia) ltac:(lia))); [intros h2; apply returns_none|]. intros table h2 Ht.
  apply (returns_bind _ _ _ _ _ (coff_parse_sections_ok d table v0 h2 Hd Ht ltac:(lia))); [intros h3; apply returns_none|]. intros ss h3 Hss.
  destruct (coff_parse_symbols_ok d table v1 v2 h3 Hd Ht ltac:(lia) ltac:(lia)) as (ys & h4 & -> & Eh & Hys). cbn [obind]. apply (returns_heap _ h3 h4 _ Eh).
  destruct ys as [ys|]; [|apply returns_none]. apply returns_some. split; [done|by apply Hys].
Qed.

(** * Conversion *)

(** What the linker asks of an object; the names of its sections have to be
    there if there is memory for them. *)
Record converted (h : heap) (ss : list LinkSection) : Prop := {
  cv_sections : Forall section_ok ss;
  cv_relocations : Forall (fun s => Forall (fun rel => 0 <= r_symbol_index rel) (s_relocations s)) ss;
  cv_named : generous h -> Forall (fun s => s_name s <> None) ss
}.

Lemma dup_name_ok name h : exists n h', dup_name name h = (n, h') /\ heap_grants h' = heap_grants h /\ (generous h -> name <> None -> n <> None).
Proof.
  unfold dup_name. destruct name as [n|]; [|by exists None, h]. destruct (alloc h) as [ok h1] eqn:E. injection E as Eok <-. eexists _, _. split; [done|]. split; [done|].
  intros Hg _. subst ok. by rewrite (Hg (heap_calls h)).
Qed.

Lemma link_alignment_from_coff_u64 c : in_u 64 (link_alignment_from_coff c).
Proof. unfold link_alignment_from_coff. cbv zeta. destruct (_ =? 0); [done|]. by apply wrapu_bound. Qed.

Lemma adopt_section_ok s h : coff_section_ok s -> returns (fun s' => converted h [s']) h (Ret (adopt_section s h)).
Proof.
  intros (Hname & Hsize & Hraw & Hrel). unfold adopt_section. destruct (dup_name_ok (cs_name s) h) as (n & h1 & -> & Eh & Hn).
  apply (returns_heap _ h h1 _ Eh). unfold in_u in Hsize.
  assert (forall raw size, Z.of_nat (length raw) = size -> 0 <= size < 2 ^ 32 -> forall h2,
    returns (fun s' => converted h [s']) h2 (Ret (let (ok, h3) := if bool_decide (cs_relocations s = []) then (true, h2) else alloc h2 in
      (if ok then Some (mkSection n (link_section_kind_from_coff (cs_kind s)) (cs_size_of_raw_data s) size (link_alignment_from_coff (cs_characteristics s)) raw
        (adopt_relocation <$> cs_relocations s) (bool_decide (cs_kind s = COFF_SECTION_KIND_UNKNOWN))) else None, h3)))) as Hdone.
  { intros raw size Hl Hs h2. pose proof (link_alignment_from_coff_u64 (cs_characteristics s)) as Hal.
    assert (converted h [mkSection n (link_section_kind_from_coff (cs_kind s)) (cs_size_of_raw_data s) size (link_alignment_from_coff (cs_characteristics s)) raw
        (adopt_relocation <$> cs_relocations s) (bool_decide (cs_kind s = COFF_SECTION_KIND_UNKNOWN))]) as Hc.
    { constructor; [|apply Forall_singleton, Forall_fmap; exact Hrel|intros Hg; apply Forall_singleton; by apply Hn].
      apply Forall_singleton. unfold section_ok, in_u in *. cbn [s_alignment s_virtual_size s_size_of_raw_data s_raw_data]. lia. }
    destruct (bool_decide (cs_relocations s = [])); [by apply returns_some|]. allocated h2 h3. by apply returns_some. }
  destruct (cs_raw_data s) as [raw|]; [|apply (Hdone [] 0); cbn; lia]. destruct (Hraw raw eq_refl) as [Hl _].
  destruct (Z.ltb_spec 0 (cs_size_of_raw_data s)); [|apply (Hdone [] 0); cbn; lia]. allocated h1 h2. apply Hdone; [rewrite length_take; lia|lia].
Qed.

Lemma adopt_sections_ok ss : Forall coff_section_ok ss -> forall h, returns (converted h) h (Ret (adopt_sections ss h)).
Proof.
  induction 1 as [|s ss Hs _ IH]; intros h; cbn [adopt_sections]; [apply returns_some; by constructor|].
  destruct (adopt_section_ok s h Hs) as (s' & h1 & E & Eh & Hs'). injection E as ->. apply (returns_heap _ h h1 _ Eh). destruct s' as [s'|]; [|apply returns_none].
  destruct (Hs' s' eq_refl) as [H1 H2 H3]. destruct (IH h1) as (rest & h2 & E & Eh2 & Hrest). injection E as ->. apply (returns_heap _ h1 h2 _ Eh2).
  destruct rest as [rest|]; [|apply returns_none]. destruct (Hrest rest eq_refl) as [R1 R2 R3]. apply returns_some. apply Forall_cons in H1 as [H1 _], H2 as [H2 _].
  constructor; [by constructor|by constructor|]. intros Hg. constructor; [by apply H3, Forall_cons in Hg as [Hg _]|]. apply R3. by eapply generous_same.
Qed.

Lemma adopt_symbol_ok n y h : coff_symbol_ok y -> returns symbol_ok h (Ret (adopt_symbol n y h)).
Proof.
  intros (Hv & Ha & _). unfold adopt_symbol. destruct (dup_name_ok (cy_name y) h) as (name & h1 & -> & Eh & _). apply (returns_heap _ h h1 _ Eh). cbv zeta.
  assert (in_u 64 (if cy_has_auxiliary_record y then cy_aux_section_length y else 0) /\ in_u 64 (cy_value y)) as [H1 H2].
  { unfold in_u in *. destruct (cy_has_auxiliary_record y); lia. }
  repeat case_match; first [apply returns_none|apply returns_some; by split].
Qed.

Lemma adopt_symbols_ok n ys : Forall coff_symbol_ok ys -> forall h, returns (Forall symbol_ok) h (Ret (adopt_symbols n ys h)).
Proof.
  induction 1 as [|y ys Hy _ IH]; intros h; cbn [adopt_symbols]; [by apply returns_some|].
  destruct (adopt_symbol_ok n y h Hy) as (y' & h1 & E & Eh & Hy'). injection E as ->. apply (returns_heap _ h h1 _ Eh). destruct y' as [y'|]; [|apply returns_none].
  destruct (IH h1) as (rest & h2 & E & Eh2 & Hrest). injection E as ->. apply (returns_heap _ h1 h2 _ Eh2).
  destruct rest as [rest|]; [|apply returns_none]. apply returns_some. constructor; [by apply Hy'|by apply Hrest].
Qed.

(** What the linker relies on. *)
Definition linkable_object (o : LinkObject) : Prop :=
  object_ok o /\ forall s rel, s ∈ o_sections o -> rel ∈ s_relocations s -> 0 <= r_symbol_index rel.

Lemma convert_ok coff h : coff_object_ok coff -> returns (fun o => generous h -> linkable_object o) h (Ret (link_object_convert coff h)).
Proof.
  intros [Hss Hys]. unfold link_object_convert, link_object_adopt_coff_sections, link_object_adopt_coff_symbols. allocated h h1. allocated h1 h2.
  destruct (adopt_sections_ok (c_sections coff) Hss h2) as (ss & h3 & E & Eh & Hc). injection E as ->. apply (returns_heap _ h2 h3 _ Eh).
  destruct ss as [ss|]; [|apply returns_none]. destruct (Hc ss eq_refl) as [H1 H2 H3]. allocated h3 h4.
  destruct (adopt_symbols_ok (Z.of_nat (length (c_sections coff))) (c_symbols coff) Hys h4) as (ys & h5 & E & Eh5 & Hy). injection E as ->.
  apply (returns_heap _ h4 h5 _ Eh5). destruct ys as [ys|]; [|apply returns_none]. apply returns_some. intros Hg. split.
  - split; [done|]. split; [by apply Hy|]. left. apply H3. apply (generous_same h); [congruence|done].
  - intros s rel Hs Hrel. pose proof (proj1 (Forall_forall _ _) H2 s Hs) as H. by apply (proj1 (Forall_forall _ _) H rel Hrel).
Qed.

(** * Files *)

(** Files that the reader of their format can take: bytes, fewer than 2^32 of
    them in a COFF object. *)
Definition file_ok (d : list Z) : Prop :=
  bytes_ok d /\ file_size d < if match d with b0 :: b1 :: b2 :: b3 :: _ => is_elf_magic b0 b1 b2 b3 | _ => false end then 2 ^ 63 else 2 ^ 32.

Lemma read_file_ok files filename h : (forall d, files filename = Some d -> file_ok d) ->
  exists res h', link_object_read_file files filename h = (res, h') /\ heap_grants h' = heap_grants h /\ forall d, res = Some d -> files filename = Some d.
Proof.
  intros _. unfold link_object_read_file. destruct (files filename) as [d|]; [|by exists None, h]. destruct (alloc h) as [ok h1] eqn:E. injection E as _ <-.
  eexists _, _. split; [done|]. split; [done|]. intros d'. destruct ok; [by intros [= <-]|done].
Qed.

(** Reading a file gives an object that the linker can work on, if there is
    memory for the names of its sections. *)
Lemma link_object_read_ok files filename h : (forall d, files filename = Some d -> file_ok d) ->
  returns (fun o => (generous h \/ link_object_looks_like_elf files filename = true) -> linkable_object o) h (link_object_read files filename h).
Proof.
  intros Hf. unfold link_object_read. destruct (link_object_looks_like_elf files filename) eqn:E.
  - unfold elf_object_read. destruct (read_file_ok files filename h Hf) as (res & h1 & -> & Eh & Hres). apply (returns_heap _ h h1 _ Eh).
    destruct res as [d|]; [|apply returns_none]. pose proof (Hres d eq_refl) as Ed. destruct (Hf d Ed) as [Hb Hs].
    unfold link_object_looks_like_elf in E. rewrite Ed in E. rewrite E in Hs. eapply returns_weaken; [by apply elf_object_read_memory_ok|].
    intros o Ho _. by apply elf_object_linkable.
  - unfold link_object_from_coff, coff_object_read, coff_reader_read_file. destruct (files filename) as [d|] eqn:Ed; [|apply returns_none].
    destruct (Hf d eq_refl) as [Hb Hs]. unfold link_object_looks_like_elf in E. rewrite Ed in E. rewrite E in Hs.
    destruct (alloc_array_heap (length d) h) as (ok & -> & _). apply (returns_heap _ h (snd (alloc h)) _ eq_refl). destruct ok; [|apply returns_none].
    destruct (coff_object_parse_ok d (snd (alloc h)) Hb Hs) as (coff & h2 & -> & Eh & Hc). cbn [obind]. apply (returns_heap _ _ h2 _ Eh).
    destruct coff as [coff|]; [|apply returns_none]. eapply returns_weaken; [by apply convert_ok, Hc|]. intros o Ho [Hg|]; [|done].
    apply Ho. by apply (generous_same h).
Qed.
End CoffReaderSafe.
