(* ===== verification/BinaryEmitter.v ===== *)
(** What a compilation leaves for its object file: src/src/codegen/binary_emitter.h
    and the tables of binary_emitter.c.

    The bytes of a section are those written; its size is their number.  Error
    messages, and the copies made of them, are left out. *)
From S2P Require Import Prelude Probe LinkObjects.
#[local] Open Scope Z_scope.

Module BinaryEmitter.
Import LinkObjects (doubled, grown).

Abbreviation cstring := (list Z).

Inductive BinaryTargetFormat := BINARY_TARGET_FORMAT_COFF_WIN64 | BINARY_TARGET_FORMAT_ELF_X64 | BINARY_TARGET_FORMAT_ELF_ARM64.
Inductive BinarySectionKind :=
| BINARY_SECTION_TEXT | BINARY_SECTION_RDATA | BINARY_SECTION_DATA | BINARY_SECTION_BSS
| BINARY_SECTION_INIT_ARRAY | BINARY_SECTION_FINI_ARRAY | BINARY_SECTION_DEBUG.
Inductive BinarySymbolBinding := BINARY_SYMBOL_LOCAL | BINARY_SYMBOL_GLOBAL | BINARY_SYMBOL_EXTERNAL.
Inductive BinaryRelocationKind :=
| BINARY_RELOCATION_REL32 | BINARY_RELOCATION_ADDR64 | BINARY_RELOCATION_ADDR32NB | BINARY_RELOCATION_REL16 | BINARY_RELOCATION_ADDR16
| BINARY_RELOCATION_SECTION_REL32 | BINARY_RELOCATION_ARM64_CALL26 | BINARY_RELOCATION_ARM64_ADR_PREL_PG_HI21
| BINARY_RELOCATION_ARM64_ADD_ABS_LO12_NC.

#[export] Instance BinaryTargetFormat_eq_dec : EqDecision BinaryTargetFormat.
Proof. solve_decision. Defined.
#[export] Instance BinarySectionKind_eq_dec : EqDecision BinarySectionKind.
Proof. solve_decision. Defined.
#[export] Instance BinarySymbolBinding_eq_dec : EqDecision BinarySymbolBinding.
Proof. solve_decision. Defined.

Record BinarySection := mkBinarySection {
  bs_name : cstring;
  bs_kind : BinarySectionKind;
  bs_characteristics : Z;
  bs_alignment : Z;
  bs_data : list Z;
  bs_capacity : Z;
  bs_virtual_size : Z
}.

Definition bs_size (s : BinarySection) : Z := Z.of_nat (length (bs_data s)).

Record BinarySymbol := mkBinarySymbol {
  by_name : cstring;
  by_binding : BinarySymbolBinding;
  by_section_index : Z;
  by_value : Z;
  by_size : Z
}.

Record BinaryRelocation := mkBinaryRelocation {
  br_section_index : Z;
  br_offset : Z;
  br_kind : BinaryRelocationKind;
  br_symbol_name : cstring;
  br_addend : Z
}.

Record BinaryEmitter := mkEmitter {
  target_format : BinaryTargetFormat;
  be_sections : list BinarySection;
  be_section_capacity : Z;
  be_symbols : list BinarySymbol;
  be_symbol_capacity : Z;
  symbol_index_buckets : list nat;
  be_relocations : list BinaryRelocation;
  be_relocation_capacity : Z
}.

Definition BINARY_SECTION_INDEX_NONE : Z := 2 ^ 64 - 1.

Definition section_count (e : BinaryEmitter) : Z := Z.of_nat (length (be_sections e)).
Definition symbol_count (e : BinaryEmitter) : Z := Z.of_nat (length (be_symbols e)).
Definition relocation_count (e : BinaryEmitter) : Z := Z.of_nat (length (be_relocations e)).

Definition with_sections (l : list BinarySection) (c : Z) (e : BinaryEmitter) : BinaryEmitter :=
  mkEmitter (target_format e) l c (be_symbols e) (be_symbol_capacity e) (symbol_index_buckets e) (be_relocations e) (be_relocation_capacity e).
Definition with_symbols (l : list BinarySymbol) (c : Z) (e : BinaryEmitter) : BinaryEmitter :=
  mkEmitter (target_format e) (be_sections e) (be_section_capacity e) l c (symbol_index_buckets e) (be_relocations e) (be_relocation_capacity e).
Definition with_buckets (b : list nat) (e : BinaryEmitter) : BinaryEmitter :=
  mkEmitter (target_format e) (be_sections e) (be_section_capacity e) (be_symbols e) (be_symbol_capacity e) b (be_relocations e) (be_relocation_capacity e).
Definition with_relocations (l : list BinaryRelocation) (c : Z) (e : BinaryEmitter) : BinaryEmitter :=
  mkEmitter (target_format e) (be_sections e) (be_section_capacity e) (be_symbols e) (be_symbol_capacity e) (symbol_index_buckets e) l c.

(** * Growing the tables *)

Definition reserve (capacity start minimum_capacity : Z) (h : heap) : outcome (option Z * heap) :=
  if minimum_capacity <=? capacity then Ret (Some capacity, h)
  else
    let! c := grown capacity start minimum_capacity in
    let (ok, h) := alloc h in Ret (if ok then Some c else None, h).

Definition binary_emitter_reserve_sections (e : BinaryEmitter) (minimum_capacity : Z) (h : heap) : outcome (option BinaryEmitter * heap) :=
  let! (c, h) := reserve (be_section_capacity e) 4 minimum_capacity h in
  Ret (option_map (fun c => with_sections (be_sections e) c e) c, h).

Definition binary_emitter_reserve_symbols (e : BinaryEmitter) (minimum_capacity : Z) (h : heap) : outcome (option BinaryEmitter * heap) :=
  let! (c, h) := reserve (be_symbol_capacity e) 8 minimum_capacity h in
  Ret (option_map (fun c => with_symbols (be_symbols e) c e) c, h).

Definition binary_emitter_reserve_relocations (e : BinaryEmitter) (minimum_capacity : Z) (h : heap) : outcome (option BinaryEmitter * heap) :=
  let! (c, h) := reserve (be_relocation_capacity e) 8 minimum_capacity h in
  Ret (option_map (fun c => with_relocations (be_relocations e) c e) c, h).

Definition binary_section_reserve (s : BinarySection) (minimum_capacity : Z) (h : heap) : outcome (option BinarySection * heap) :=
  let! (c, h) := reserve (bs_capacity s) 32 minimum_capacity h in
  Ret (option_map (fun c => mkBinarySection (bs_name s) (bs_kind s) (bs_characteristics s) (bs_alignment s) (bs_data s) c (bs_virtual_size s)) c, h).

(** * The index of symbol names *)

Fixpoint hash_loop (hash : Z) (name : cstring) : Z :=
  match name with [] => hash | c :: name => hash_loop (u64 (Z.lxor hash c * 1099511628211)) name end.
Definition binary_emitter_hash_name (name : cstring) : Z := hash_loop 1469598103934665603 name.

(** The probe for a name in a table of [length b] slots. *)
Definition probe_name (b : list nat) (name : cstring) (stop : nat -> bool) : outcome (nat * option nat) :=
  Probe.probe_loop (S (length b)) b (length b - 1) stop (Probe.slot_of (binary_emitter_hash_name name) (length b - 1)).

Fixpoint rehash_loop (ys : list BinarySymbol) (i : nat) (b : list nat) : outcome (list nat) :=
  match ys with
  | [] => Ret b
  | y :: ys => let! (p, _) := probe_name b (by_name y) (fun _ => false) in rehash_loop ys (S i) (<[p := S i]> b)
  end.

Definition binary_emitter_symbol_index_rehash (e : BinaryEmitter) (new_bucket_count : Z) (h : heap) : outcome (option BinaryEmitter * heap) :=
  let (ok, h) := alloc h in
  if negb ok then Ret (None, h)
  else let! b := rehash_loop (be_symbols e) 0 (replicate (Z.to_nat new_bucket_count) O) in Ret (Some (with_buckets b e), h).

(** A symbol that is there already is left there. *)
Definition enter_index (e : BinaryEmitter) (symbol_index : nat) : outcome BinaryEmitter :=
  let! y := get (be_symbols e) (Z.of_nat symbol_index) in
  let! (p, found) := probe_name (symbol_index_buckets e) (by_name y) (Nat.eqb symbol_index) in
  Ret (match found with Some _ => e | None => with_buckets (<[p := S symbol_index]> (symbol_index_buckets e)) e end).

Definition binary_emitter_symbol_index_insert (e : BinaryEmitter) (symbol_index : nat) (h : heap) : outcome (option BinaryEmitter * heap) :=
  let live := Z.of_nat symbol_index + 1 in
  let bucket_count := Z.of_nat (length (symbol_index_buckets e)) in
  let! (e, h) :=
    if (bucket_count =? 0) || (u64 (bucket_count * 7) <=? u64 (live * 10)) then
      binary_emitter_symbol_index_rehash e (if bucket_count =? 0 then 256 else u64 (bucket_count * 2)) h
    else Ret (Some e, h) in
  match e with
  | None => Ret (None, h)
  | Some e => let! e := enter_index e symbol_index in Ret (Some e, h)
  end.

(** An [int], negative when there is no such symbol. *)
Definition binary_emitter_find_symbol_index (e : BinaryEmitter) (name : option cstring) : outcome Z :=
  match name with
  | None => Ret (-1)
  | Some name =>
      if (0 <? length (symbol_index_buckets e))%nat then
        let! (_, found) := probe_name (symbol_index_buckets e) name
          (fun i => match be_symbols e !! i with Some y => bool_decide (by_name y = name) | None => false end) in
        Ret (match found with Some i => i32 (Z.of_nat i) | None => -1 end)
      else Ret (match list_find (fun y => by_name y = name) (be_symbols e) with Some (i, _) => i32 (Z.of_nat i) | None => -1 end)
  end.

(** * Operations *)

Definition binary_emitter_create (target : BinaryTargetFormat) (h : heap) : option BinaryEmitter * heap :=
  let (ok, h) := alloc h in (if ok then Some (mkEmitter target [] 0 [] 0 [] [] 0) else None, h).

Definition binary_emitter_reset (e : BinaryEmitter) : BinaryEmitter :=
  mkEmitter (target_format e) [] (be_section_capacity e) [] (be_symbol_capacity e) [] [] (be_relocation_capacity e).

(** A section that is asked for again keeps the larger alignment and takes the
    new characteristics. *)
Definition asked_again (characteristics alignment : Z) (s : BinarySection) : BinarySection :=
  mkBinarySection (bs_name s) (bs_kind s) (if negb (characteristics =? 0) then characteristics else bs_characteristics s)
    (if alignment >? bs_alignment s then alignment else bs_alignment s) (bs_data s) (bs_capacity s) (bs_virtual_size s).

Definition binary_emitter_get_or_create_section (e : BinaryEmitter) (name : option cstring) (kind : BinarySectionKind) (characteristics alignment : Z) (h : heap) :
  outcome (Z * BinaryEmitter * heap) :=
  match name with
  | None | Some [] => Ret (BINARY_SECTION_INDEX_NONE, e, h)
  | Some name =>
      match list_find (fun s => bs_name s = name) (be_sections e) with
      | Some (i, s) => Ret (Z.of_nat i, with_sections (<[i := asked_again characteristics alignment s]> (be_sections e)) (be_section_capacity e) e, h)
      | None =>
          let! (r, h) := binary_emitter_reserve_sections e (u64 (section_count e + 1)) h in
          match r with
          | None => Ret (BINARY_SECTION_INDEX_NONE, e, h)
          | Some e =>
              let (ok, h) := alloc h in
              if negb ok then Ret (BINARY_SECTION_INDEX_NONE, e, h)
              else
                let s := mkBinarySection name kind characteristics (if alignment =? 0 then 1 else alignment) [] 0 0 in
                Ret (section_count e, with_sections (be_sections e ++ [s]) (be_section_capacity e) e, h)
          end
      end
  end.

Definition binary_emitter_get_section (e : BinaryEmitter) (section_index : Z) : option BinarySection :=
  if section_index <? 0 then None else be_sections e !! Z.to_nat section_index.

Definition put_section (e : BinaryEmitter) (section_index : Z) (s : BinarySection) : BinaryEmitter :=
  with_sections (<[Z.to_nat section_index := s]> (be_sections e)) (be_section_capacity e) e.

(** Bytes stored behind those of the section, and what its sizes become. *)
Definition append_stored (s : BinarySection) (bytes : list Z) : outcome BinarySection :=
  if bs_capacity s <? bs_size s + Z.of_nat (length bytes) then Undef
  else
    let size := bs_size s + Z.of_nat (length bytes) in
    Ret (mkBinarySection (bs_name s) (bs_kind s) (bs_characteristics s) (bs_alignment s) (bs_data s ++ bytes) (bs_capacity s)
      (if bs_virtual_size s <? size then size else bs_virtual_size s)).

(** [true] and the emitter, or [false]; the alignment is raised in any case. *)
Definition binary_emitter_align_section (e : BinaryEmitter) (section_index alignment fill_byte : Z) (h : heap) : outcome (bool * BinaryEmitter * heap) :=
  match binary_emitter_get_section e section_index with
  | None => Ret (false, e, h)
  | Some s =>
      if alignment =? 0 then Ret (false, e, h)
      else
        let s := mkBinarySection (bs_name s) (bs_kind s) (bs_characteristics s) (if alignment >? bs_alignment s then alignment else bs_alignment s)
                   (bs_data s) (bs_capacity s) (bs_virtual_size s) in
        let e := put_section e section_index s in
        let remainder := bs_size s mod alignment in
        if remainder =? 0 then Ret (true, e, h)
        else
          let padding := alignment - remainder in
          let! (r, h) := binary_section_reserve s (u64 (bs_size s + padding)) h in
          match r with
          | None => Ret (false, e, h)
          | Some s => let! s := append_stored s (replicate (Z.to_nat padding) fill_byte) in Ret (true, put_section e section_index s, h)
          end
  end.

(** The offset the bytes got, unless they could not be appended; [None] is no
    data. *)
Definition binary_emitter_append_bytes (e : BinaryEmitter) (section_index : Z) (data : option (list Z)) (h : heap) : outcome (option Z * BinaryEmitter * heap) :=
  let bytes := default [] data in
  match binary_emitter_get_section e section_index with
  | None => Ret (None, e, h)
  | Some s =>
      let! (r, h) := binary_section_reserve s (u64 (bs_size s + Z.of_nat (length bytes))) h in
      match r with
      | None => Ret (None, e, h)
      | Some s => let offset := bs_size s in let! s := append_stored s bytes in Ret (Some offset, put_section e section_index s, h)
      end
  end.

Definition binary_emitter_append_zeros (e : BinaryEmitter) (section_index size : Z) (h : heap) : outcome (option Z * BinaryEmitter * heap) :=
  match binary_emitter_get_section e section_index with
  | None => Ret (None, e, h)
  | Some s =>
      let! (r, h) := binary_section_reserve s (u64 (bs_size s + size)) h in
      match r with
      | None => Ret (None, e, h)
      | Some s =>
          let offset := bs_size s in
          let! s := append_stored s (replicate (Z.to_nat size) 0) in Ret (Some offset, put_section e section_index s, h)
      end
  end.

Definition binary_emitter_set_section_virtual_size (e : BinaryEmitter) (section_index virtual_size : Z) : bool * BinaryEmitter :=
  match binary_emitter_get_section e section_index with
  | None => (false, e)
  | Some s =>
      if virtual_size <? bs_size s then (false, e)
      else (true, put_section e section_index
              (mkBinarySection (bs_name s) (bs_kind s) (bs_characteristics s) (bs_alignment s) (bs_data s) (bs_capacity s) virtual_size))
  end.

Definition binary_emitter_define_symbol (e : BinaryEmitter) (name : option cstring) (binding : BinarySymbolBinding) (section_index value size : Z) (h : heap) :
  outcome (bool * BinaryEmitter * heap) :=
  match name with
  | None | Some [] => Ret (false, e, h)
  | Some n =>
      let! existing := binary_emitter_find_symbol_index e name in
      let y := mkBinarySymbol n binding section_index value size in
      if 0 <=? existing then
        let! l := put (be_symbols e) existing y in Ret (true, with_symbols l (be_symbol_capacity e) e, h)
      else
        let! (r, h) := binary_emitter_reserve_symbols e (u64 (symbol_count e + 1)) h in
        match r with
        | None => Ret (false, e, h)
        | Some e =>
            let (ok, h) := alloc h in
            if negb ok then Ret (false, e, h)
            else
              let! (r, h) := binary_emitter_symbol_index_insert (with_symbols (be_symbols e ++ [y]) (be_symbol_capacity e) e) (length (be_symbols e)) h in
              Ret (match r with None => (false, e, h) | Some e => (true, e, h) end)
        end
  end.

Definition binary_emitter_declare_external (e : BinaryEmitter) (name : option cstring) (h : heap) : outcome (bool * BinaryEmitter * heap) :=
  binary_emitter_define_symbol e name BINARY_SYMBOL_EXTERNAL BINARY_SECTION_INDEX_NONE 0 0 h.

Definition binary_emitter_find_symbol (e : BinaryEmitter) (name : option cstring) : outcome (option BinarySymbol) :=
  let! i := binary_emitter_find_symbol_index e name in
  if i <? 0 then Ret None else let! y := get (be_symbols e) i in Ret (Some y).

Definition binary_emitter_add_relocation (e : BinaryEmitter) (section_index offset : Z) (kind : BinaryRelocationKind) (symbol_name : option cstring) (addend : Z) (h : heap) :
  outcome (bool * BinaryEmitter * heap) :=
  match symbol_name with
  | None | Some [] => Ret (false, e, h)
  | Some n =>
      if section_count e <=? section_index then Ret (false, e, h)
      else
        let! (r, h) := binary_emitter_reserve_relocations e (u64 (relocation_count e + 1)) h in
        match r with
        | None => Ret (false, e, h)
        | Some e =>
            let (ok, h) := alloc h in
            if negb ok then Ret (false, e, h)
            else Ret (true, with_relocations (be_relocations e ++ [mkBinaryRelocation section_index offset kind n addend]) (be_relocation_capacity e) e, h)
        end
  end.
End BinaryEmitter.
