(* ===== verification/BinaryEmitterCorrect.v ===== *)
(** The tables of an emitter: symbols are a map from names, and no operation
    breaks what the writers of object files rely on. *)
From S2P Require Import Prelude Probe LinkObjects LinkBytes LinkObjectsCorrect BinaryEmitter.
From stdpp Require Import gmap.
#[local] Open Scope Z_scope.

Module BinaryEmitterCorrect.
Import LinkBytes LinkObjectsCorrect BinaryEmitter.

(** * The invariant *)

Definition name_at (ys : list BinarySymbol) (i : nat) : cstring := match ys !! i with Some y => by_name y | None => [] end.

Definition indexed (ys : list BinarySymbol) (b : list nat) : Prop :=
  (ys = [] /\ b = []) \/
  exists m, Probe.size_ok m /\ Probe.table_inv m (name_at ys) binary_emitter_hash_name b (seq 0 (length ys)) /\
    (length ys * 10 < m * 7)%nat /\ (256 <= m <= 256 + 4 * length ys)%nat.

(** C strings are bytes other than NUL, here at least one of them. *)
Definition proper_name (n : cstring) : Prop := n <> [] /\ Forall (fun c => in_u 8 c /\ c <> 0) n.

Definition section_fits (s : BinarySection) : Prop :=
  proper_name (bs_name s) /\ 1 <= bs_alignment s < 2 ^ 64 /\ bs_size s <= bs_capacity s < 2 ^ 64 /\ bytes_ok (bs_data s) /\
  bs_size s <= bs_virtual_size s < 2 ^ 64.

Record emitter_ok (e : BinaryEmitter) : Prop := {
  eo_sections : Forall section_fits (be_sections e);
  eo_section_names : NoDup (bs_name <$> be_sections e);
  eo_symbols : Forall (fun y => proper_name (by_name y) /\ in_u 64 (by_section_index y) /\ in_u 64 (by_value y) /\ in_u 64 (by_size y)) (be_symbols e);
  eo_symbol_names : NoDup (by_name <$> be_symbols e);
  eo_index : indexed (be_symbols e) (symbol_index_buckets e);
  eo_relocations : Forall (fun r => 0 <= br_section_index r < section_count e /\ in_u 64 (br_offset r) /\ proper_name (br_symbol_name r) /\ in_s 32 (br_addend r))
    (be_relocations e);
  eo_capacities : in_u 64 (be_section_capacity e) /\ in_u 64 (be_symbol_capacity e) /\ in_u 64 (be_relocation_capacity e)
}.

(** The symbols by their names. *)
Definition symbol_map (ys : list BinarySymbol) : gmap cstring BinarySymbol := list_to_map ((fun y => (by_name y, y)) <$> ys).

Lemma symbol_map_Some ys n y : NoDup (by_name <$> ys) -> symbol_map ys !! n = Some y <-> y ∈ ys /\ by_name y = n.
Proof.
  intros Hd. unfold symbol_map. rewrite <- elem_of_list_to_map by (by rewrite <- list_fmap_compose). rewrite list_elem_of_fmap. split.
  - intros (z & [= -> ->] & Hz). done.
  - intros [Hy <-]. by exists y.
Qed.

Lemma name_unique ys i j y y' : NoDup (by_name <$> ys) -> ys !! i = Some y -> ys !! j = Some y' -> by_name y = by_name y' -> i = j.
Proof. intros Hd Hi Hj E. apply (NoDup_lookup _ i j (by_name y) Hd); rewrite list_lookup_fmap, ?Hi, ?Hj; cbn; congruence. Qed.

(** * Looking up *)

Definition named_at (ys : list BinarySymbol) (name : cstring) (i : nat) : bool := match ys !! i with Some y => bool_decide (by_name y = name) | None => false end.

Lemma find_symbol_index_ok e name : emitter_ok e -> Z.of_nat (length (be_symbols e)) <= 2 ^ 31 ->
  exists found, binary_emitter_find_symbol_index e (Some name) = Ret (match found with Some i => Z.of_nat i | None => -1 end) /\
    match found with Some i => exists y, be_symbols e !! i = Some y /\ by_name y = name | None => forall y, y ∈ be_symbols e -> by_name y <> name end.
Proof.
  intros He Hl. assert (forall i y, be_symbols e !! i = Some y -> i32 (Z.of_nat i) = Z.of_nat i) as Hint.
  { intros i y Hi%lookup_lt_Some. apply wraps_small; [lia|]. unfold in_s. cbn. lia. }
  unfold binary_emitter_find_symbol_index. destruct (eo_index _ He) as [[Es Eb]|(m & Hm & Hi & Hn & Hge)].
  { rewrite Es, Eb. cbn. exists None. split; [done|]. by intros y Hy%not_elem_of_nil. }
  pose proof (Probe.ti_length _ _ _ _ _ Hi) as Hlen. pose proof (Probe.size_pos _ Hm). rewrite Hlen, (proj2 (Nat.ltb_lt 0 m)) by done.
  unfold probe_name. rewrite Hlen.
  destruct (Probe.probe_find m (name_at (be_symbols e)) binary_emitter_hash_name (symbol_index_buckets e) _ name (named_at (be_symbols e) name) (S m) Hm Hi)
    as (p & found & E & _ & Hf); [rewrite length_seq; lia| |lia|].
  { intros j [_ Hj]%elem_of_seq. unfold named_at, name_at. destruct (lookup_lt_is_Some_2 (be_symbols e) j Hj) as [y ->]. apply bool_decide_eq_true. }
  unfold named_at in E. rewrite E. cbn [obind]. destruct found as [i|].
  - destruct Hf as (En & n & Hn' & _). apply lookup_seq in Hn' as [-> Hlt]. cbn in Hlt. destruct (lookup_lt_is_Some_2 (be_symbols e) n Hlt) as [y Hy].
    exists (Some n). cbn. rewrite (Hint _ _ Hy). split; [done|]. exists y. split; [done|]. by rewrite <- En; unfold name_at; cbn; rewrite Hy.
  - exists None. split; [done|]. intros y [i Hy]%list_elem_of_lookup. destruct Hf as (Hno & _). pose proof (Hno i) as H2. unfold name_at in H2. rewrite Hy in H2.
    apply H2, elem_of_seq. apply lookup_lt_Some in Hy. lia.
Qed.

(** * Entering a name *)

Lemma probe_new m ys b i : Probe.size_ok m -> Probe.table_inv m (name_at ys) binary_emitter_hash_name b (seq 0 i) -> (i < m)%nat -> (i < length ys)%nat ->
  forall stop, (forall j, (j < i)%nat -> stop j = false) ->
  exists p, probe_name b (name_at ys i) stop = Ret (p, None) /\ Probe.table_inv m (name_at ys) binary_emitter_hash_name (<[p := S i]> b) (seq 0 (S i)).
Proof.
  intros Hm Hi Hl Hy stop Hstop. unfold probe_name. rewrite (Probe.ti_length _ _ _ _ _ Hi).
  destruct (Probe.probe_insert m (name_at ys) binary_emitter_hash_name b (seq 0 i) i stop (S m) Hm Hi) as (p & E & _ & Ht).
  - by rewrite length_seq.
  - intros [_ ?]%elem_of_seq. lia.
  - intros j [_ ?]%elem_of_seq. apply Hstop. lia.
  - lia.
  - exists p. split; [exact E|]. by rewrite seq_S.
Qed.

Lemma rehash_loop_ok m ys : Probe.size_ok m -> (length ys < m)%nat -> forall rest i b, (i + length rest)%nat = length ys ->
  (forall j y, rest !! j = Some y -> ys !! (i + j)%nat = Some y) -> Probe.table_inv m (name_at ys) binary_emitter_hash_name b (seq 0 i) ->
  exists b', rehash_loop rest i b = Ret b' /\ Probe.table_inv m (name_at ys) binary_emitter_hash_name b' (seq 0 (length ys)).
Proof.
  intros Hm Hl. induction rest as [|y rest IH]; intros i b Hi Hr Ht; cbn [rehash_loop length] in *.
  { exists b. by replace (length ys) with i by lia. }
  pose proof (Hr 0%nat y eq_refl) as Hy. rewrite Nat.add_0_r in Hy. replace (by_name y) with (name_at ys i) by (unfold name_at; by rewrite Hy).
  destruct (probe_new m ys b i Hm Ht ltac:(lia) ltac:(lia) (fun _ => false)) as (p & -> & Ht'); [done|]. cbn [obind]. apply (IH (S i)); [lia| |done].
  intros j z Hj. rewrite Nat.add_succ_comm. by apply Hr.
Qed.

(** A symbol that is in the table is found there. *)
Lemma probe_again m ys b i : Probe.size_ok m -> Probe.table_inv m (name_at ys) binary_emitter_hash_name b (seq 0 (length ys)) -> (length ys < m)%nat ->
  NoDup (by_name <$> ys) -> (i < length ys)%nat -> exists p, probe_name b (name_at ys i) (Nat.eqb i) = Ret (p, Some i).
Proof.
  intros Hm Hi Hl Hd Hy. unfold probe_name. rewrite (Probe.ti_length _ _ _ _ _ Hi).
  destruct (Probe.probe_find m (name_at ys) binary_emitter_hash_name b _ (name_at ys i) (Nat.eqb i) (S m) Hm Hi) as (p & r & E & _ & Hr).
  - by rewrite length_seq.
  - intros j [_ Hj]%elem_of_seq. rewrite Nat.eqb_eq. split; [by intros ->|]. unfold name_at. destruct (lookup_lt_is_Some_2 ys j Hj) as [z Hz], (lookup_lt_is_Some_2 ys i Hy) as [y Hiy].
    rewrite Hz, Hiy. intros En. by apply (name_unique ys i j y z).
  - lia.
  - rewrite E. destruct r as [j|].
    + destruct Hr as (En & n & Hn & _). apply lookup_seq in Hn as [-> Hn]. cbn in *. exists p. do 2 f_equal. unfold name_at in En.
      destruct (lookup_lt_is_Some_2 ys n Hn) as [z Hz], (lookup_lt_is_Some_2 ys i Hy) as [y Hiy]. rewrite Hz, Hiy in En. f_equal. by apply (name_unique ys n i z y).
    + destruct Hr as (Hno & _). exfalso. apply (Hno i); [apply elem_of_seq; lia|done].
Qed.

Lemma emitted_index_ok e ys y h : be_symbols e = ys ++ [y] -> indexed ys (symbol_index_buckets e) -> NoDup (by_name <$> be_symbols e) ->
  Z.of_nat (length (be_symbols e)) <= 2 ^ 31 ->
  exists res h', binary_emitter_symbol_index_insert e (length ys) h = Ret (res, h') /\ heap_grants h' = heap_grants h /\ (generous h -> res <> None) /\
    forall e', res = Some e' -> exists b, e' = with_buckets b e /\ indexed (be_symbols e) b.
Proof.
  intros Es Hix Hd Hl. assert (length (be_symbols e) = S (length ys)) as El by (rewrite Es, length_app; cbn; lia).
  assert (be_symbols e !! length ys = Some y) as Hy by (by rewrite Es, lookup_app_r, Nat.sub_diag by lia).
  assert (name_at (be_symbols e) (length ys) = by_name y) as Hname by (unfold name_at; by rewrite Hy).
  assert (forall i, i ∈ seq 0 (length ys) -> name_at ys i = name_at (be_symbols e) i) as Hsame.
  { intros i [_ Hi]%elem_of_seq. unfold name_at. by rewrite Es, lookup_app_l. }
  assert (exists m : nat, length (symbol_index_buckets e) = m /\ (m = 0 \/ Probe.size_ok m /\ 256 <= m /\ m <= 256 + 4 * length ys /\ length ys * 10 < m * 7 /\
    Probe.table_inv m (name_at (be_symbols e)) binary_emitter_hash_name (symbol_index_buckets e) (seq 0 (length ys)))%nat) as (m & Em & Hm).
  { destruct Hix as [[_ ->]|(m & H1 & H2 & H3 & H4)]; [exists 0%nat; split; [done|by left]|]. exists m. split; [by apply H2|]. right. split; [done|]. split; [lia|].
    split; [lia|]. split; [lia|]. eapply Probe.table_inv_key; [exact Hsame|exact H2]. }
  assert (forall m' b, Probe.size_ok m' -> (length (be_symbols e) * 10 < m' * 7)%nat -> (256 <= m' <= 256 + 4 * length (be_symbols e))%nat ->
    Probe.table_inv m' (name_at (be_symbols e)) binary_emitter_hash_name b (seq 0 (length (be_symbols e))) -> indexed (be_symbols e) b) as Hdone.
  { intros m' b H1 H2 H3 H4. right. by exists m'. }
  unfold binary_emitter_symbol_index_insert. rewrite Em. rewrite (wrapu_small 64 (Z.of_nat m * 7)), (wrapu_small 64 (_ * 10)) by (unfold in_u; lia).
  destruct (_ || _) eqn:Eb.
  - unfold binary_emitter_symbol_index_rehash.
    assert (exists m' : nat, (if Z.of_nat m =? 0 then 256 else u64 (Z.of_nat m * 2)) = Z.of_nat m' /\ Probe.size_ok m' /\
      (length (be_symbols e) * 10 < m' * 7)%nat /\ (256 <= m' <= 256 + 4 * length (be_symbols e))%nat) as (m' & -> & Hm' & Hl' & Hb').
    { destruct Hm as [->|(Hs & H1 & H2 & H3 & _)].
      - exists 256%nat. split; [done|]. split; [by exists 8%nat|]. destruct Hix as [[Ey _]|(m & H1 & H2 & H3 & H4)]; [rewrite El, Ey; cbn; lia|]. rewrite (Probe.ti_length _ _ _ _ _ H2) in Em. lia.
      - exists (m * 2)%nat. rewrite (proj2 (Z.eqb_neq (Z.of_nat m) 0)) in * by lia. rewrite wrapu_small by (unfold in_u; lia). split; [lia|].
        cbn [orb] in Eb. apply Z.leb_le in Eb. split; [destruct Hs as [k ->]; exists (S k); cbn; lia|]. lia. }
    unfold alloc. destruct (heap_grants h (heap_calls h)) eqn:Eh; cbn [negb obind].
    2:{ exists None. eexists. split; [done|]. split; [done|]. split; [intros Hh; by rewrite Hh in Eh|done]. }
    rewrite Nat2Z.id. destruct (rehash_loop_ok m' (be_symbols e) Hm' ltac:(lia) (be_symbols e) 0 (replicate m' O)) as (b & -> & Ht); [done|done|apply Probe.table_inv_empty|].
    cbn [obind]. unfold enter_index. cbn [with_buckets be_symbols symbol_index_buckets]. rewrite (get_nat _ _ _ Hy). cbn [obind]. rewrite <- Hname.
    destruct (probe_again m' (be_symbols e) b (length ys) Hm' Ht ltac:(lia) Hd ltac:(lia)) as (p & ->). cbn [obind].
    eexists _, _. split; [done|]. split; [done|]. split; [done|]. intros e' [= <-]. exists b. split; [done|]. by apply (Hdone m').
  - apply orb_false_iff in Eb as [E0%Z.eqb_neq E1%Z.leb_gt]. destruct Hm as [->|(Hs & H1 & H2 & H3 & Ht)]; [done|]. cbn [obind]. unfold enter_index.
    rewrite (get_nat _ _ _ Hy). cbn [obind]. rewrite <- Hname.
    destruct (probe_new m (be_symbols e) (symbol_index_buckets e) (length ys) Hs Ht ltac:(lia) ltac:(lia) (Nat.eqb (length ys))) as (p & -> & Ht').
    { intros j Hj. apply Nat.eqb_neq. lia. }
    cbn [obind]. eexists _, h. split; [done|]. split; [done|]. split; [done|]. intros e' [= <-]. eexists. split; [done|]. apply (Hdone m); [done|lia|lia|]. by rewrite El.
Qed.

(** * Reserving *)

Lemma reserve_ok c start n h : in_u 64 c -> 0 < start < 2 ^ 64 -> n <= 2 ^ 63 ->
  returns (fun c' => in_u 64 c' /\ n <= c' /\ c <= c') h (reserve c start n h) /\
  (generous h -> exists c' h', reserve c start n h = Ret (Some c', h') /\ heap_grants h' = heap_grants h).
Proof.
  intros Hc Hs Hn. unfold in_u in *. unfold reserve. destruct (Z.leb_spec n c).
  { split; [by apply returns_some|]. intros _. by exists c, h. }
  destruct (grown_room c start n) as (c' & -> & Hc'); [lia..|]. cbn [obind]. split.
  - unfold returns, alloc. eexists _, _. split; [done|]. split; [done|]. intros x. destruct (heap_grants h (heap_calls h)); [intros [= <-]; lia|done].
  - intros Hg. unfold alloc. rewrite Hg. eexists _, _. split; done.
Qed.

(** * Defining a symbol *)

Definition symbol_fits (y : BinarySymbol) : Prop := proper_name (by_name y) /\ in_u 64 (by_section_index y) /\ in_u 64 (by_value y) /\ in_u 64 (by_size y).

Lemma symbol_map_insert ys i y z : NoDup (by_name <$> ys) -> ys !! i = Some z -> by_name z = by_name y -> symbol_map (<[i := y]> ys) = <[by_name y := y]> (symbol_map ys).
Proof.
  intros Hd Hi En. assert (by_name <$> <[i := y]> ys = by_name <$> ys) as Ey.
  { rewrite list_fmap_insert. apply list_insert_id. by rewrite list_lookup_fmap, Hi, <- En. }
  assert (i < length ys)%nat as Hlt by by eapply lookup_lt_Some.
  apply map_eq. intros n. apply option_eq. intros x. rewrite lookup_insert_Some, !symbol_map_Some by (done || by rewrite Ey). split.
  - intros [Hx <-]. apply list_elem_of_lookup in Hx as [j Hj]. destruct (decide (i = j)) as [<-|Hne].
    + rewrite list_lookup_insert_eq in Hj by done. injection Hj as <-. by left.
    + rewrite list_lookup_insert_ne in Hj by done. right. split; [|split; [by eapply list_elem_of_lookup_2|done]]. rewrite <- En. intros Heq. by apply Hne, (name_unique ys i j z x).
  - intros [[<- <-]|(Hne & Hx & <-)]; [split; [|done]; eapply list_elem_of_lookup_2; by apply list_lookup_insert_eq|]. split; [|done].
    apply list_elem_of_lookup in Hx as [j Hj]. apply (list_elem_of_lookup_2 _ j). rewrite list_lookup_insert_ne; [done|]. intros <-. congruence.
Qed.

Lemma symbol_map_snoc ys y : NoDup (by_name <$> ys ++ [y]) -> symbol_map (ys ++ [y]) = <[by_name y := y]> (symbol_map ys).
Proof.
  intros Hd. pose proof Hd as Hd'. rewrite fmap_app in Hd'. apply NoDup_app in Hd' as (Hd' & Hdis & _).
  apply map_eq. intros n. apply option_eq. intros x. rewrite lookup_insert_Some, !symbol_map_Some by done. rewrite elem_of_app, list_elem_of_singleton. split.
  - intros [[Hx| ->] <-]; [|by left]. right. split; [|done]. intros En. apply (Hdis (by_name x)); [by apply list_elem_of_fmap_2|]. rewrite <- En. cbn. by left.
  - intros [[<- <-]|(_ & Hx & <-)]; auto.
Qed.

Lemma symbols_replaced e l c b : emitter_ok e -> in_u 64 c -> Forall symbol_fits l -> NoDup (by_name <$> l) -> indexed l b -> emitter_ok (with_buckets b (with_symbols l c e)).
Proof. intros [H1 H2 H3 H4 H5 H6 (H7 & H8 & H9)] Hc Hl Hd Hi. by constructor. Qed.

Lemma indexed_same ys ys' b : by_name <$> ys = by_name <$> ys' -> indexed ys b -> indexed ys' b.
Proof.
  intros E Hi. assert (length ys = length ys') as El by (rewrite <- (length_fmap by_name ys), E; by rewrite length_fmap).
  assert (forall i, name_at ys i = name_at ys' i) as Hn.
  { intros i. unfold name_at. assert ((by_name <$> ys) !! i = (by_name <$> ys') !! i) as H by by rewrite E. rewrite !list_lookup_fmap in H.
    destruct (ys !! i), (ys' !! i); by injection H || done. }
  destruct Hi as [[-> ->]|(m & H1 & H2 & H3 & H4)]; [left; split; [|done]; by destruct ys'|]. right. exists m. rewrite <- El. split; [done|]. split; [|done].
  eapply Probe.table_inv_key; [|exact H2]. intros i _. apply Hn.
Qed.

(** What defining a symbol does to the table: it fails, for want of memory,
    without effect; or it gives the name its new meaning. *)
Definition symbols_after (e : BinaryEmitter) (y : BinarySymbol) (e' : BinaryEmitter) : Prop :=
  be_sections e' = be_sections e /\ be_relocations e' = be_relocations e /\ target_format e' = target_format e /\
  symbol_map (be_symbols e') = <[by_name y := y]> (symbol_map (be_symbols e)) /\
  by_name <$> be_symbols e' = (by_name <$> be_symbols e) ++ (if bool_decide (is_Some (symbol_map (be_symbols e) !! by_name y)) then [] else [by_name y]).

Lemma define_symbol_ok e n binding section_index value size h : let y := mkBinarySymbol n binding section_index value size in
  emitter_ok e -> symbol_fits y -> symbol_count e < 2 ^ 31 ->
  exists ok e' h', binary_emitter_define_symbol e (Some n) binding section_index value size h = Ret (ok, e', h') /\ heap_grants h' = heap_grants h /\ emitter_ok e' /\
    (generous h -> ok = true) /\ if ok then symbols_after e y e' else be_symbols e' = be_symbols e /\ be_sections e' = be_sections e /\ be_relocations e' = be_relocations e.
Proof.
  intros y He Hy Hl. unfold symbol_count in Hl. unfold binary_emitter_define_symbol. destruct n as [|c n]; [by destruct Hy as [[? _] _]|].
  set (nm := c :: n) in *. fold nm y. destruct (find_symbol_index_ok e nm He ltac:(lia)) as (found & E & Hf). rewrite E. cbn [obind]. cbv zeta. destruct found as [i|].
  - destruct Hf as (z & Hi & En). rewrite (proj2 (Z.leb_le 0 (Z.of_nat i))) by lia. rewrite put_nat by (by eapply lookup_lt_Some). cbn [obind].
    assert (by_name <$> <[i := y]> (be_symbols e) = by_name <$> be_symbols e) as Ey.
    { rewrite list_fmap_insert. apply list_insert_id. by rewrite list_lookup_fmap, Hi; cbn; rewrite En. }
    eexists true, _, h. split; [done|]. split; [done|]. split; [|split; [done|]].
    + apply (symbols_replaced e (<[i := y]> (be_symbols e)) (be_symbol_capacity e) (symbol_index_buckets e));
        [done|apply (eo_capacities _ He)|apply Forall_insert; [apply (eo_symbols _ He)|done]| |].
      * replace (by_name <$> <[i := y]> (be_symbols e)) with (by_name <$> be_symbols e). apply (eo_symbol_names _ He).
      * eapply indexed_same; [symmetry; exact Ey|apply (eo_index _ He)].
    + split; [done|]. split; [done|]. split; [done|]. cbn [be_symbols with_symbols]. split; [by apply (symbol_map_insert _ _ _ z); [apply (eo_symbol_names _ He)|..]|].
      rewrite bool_decide_eq_true_2; [by rewrite Ey, app_nil_r|]. exists z. apply symbol_map_Some; [apply (eo_symbol_names _ He)|]. split; [by eapply list_elem_of_lookup_2|done].
  - cbn [Z.leb Z.compare]. unfold binary_emitter_reserve_symbols. rewrite wrapu_small by (unfold in_u, symbol_count; lia).
    destruct (reserve_ok (be_symbol_capacity e) 8 (symbol_count e + 1) h) as [(res & h1 & E1 & Eh & Hres) Hg]; [apply (eo_capacities _ He)|lia|unfold symbol_count; lia|].
    rewrite E1. cbn [obind]. destruct res as [c'|]; cbn [option_map].
    2:{ eexists false, e, h1. split; [done|]. split; [done|]. split; [done|]. split; [|done]. intros Hgen. destruct (Hg Hgen) as (c' & h' & E2 & _). congruence. }
    destruct (Hres c' eq_refl) as (Hc' & _ & _). set (e1 := with_symbols (be_symbols e) c' e).
    assert (emitter_ok e1) as He1.
    { apply (symbols_replaced e (be_symbols e) c' (symbol_index_buckets e)); [done|done|apply (eo_symbols _ He)|apply (eo_symbol_names _ He)|apply (eo_index _ He)]. }
    unfold alloc. destruct (heap_grants h1 (heap_calls h1)) eqn:Eg; cbn [negb].
    2:{ eexists false, e1, _. split; [done|]. split; [done|]. split; [done|]. split; [|done]. intros Hgen. by rewrite (generous_same h h1 Eh Hgen) in Eg. }
    assert (NoDup (by_name <$> be_symbols e ++ [y])) as Hd.
    { rewrite fmap_app. apply NoDup_app. split; [apply (eo_symbol_names _ He)|]. split; [|apply NoDup_singleton]. intros x (z & -> & Hz)%list_elem_of_fmap Hx%list_elem_of_singleton.
      by apply (Hf z Hz). }
    destruct (emitted_index_ok (with_symbols (be_symbols e ++ [y]) c' e1) (be_symbols e) y (mkHeap (heap_grants h1) (S (heap_calls h1))))
      as (res & h2 & E2 & Eh2 & Hgen2 & Hres2); [done|apply (eo_index _ He)|done|cbn; rewrite length_app; cbn; lia|].
    change (be_symbols e1) with (be_symbols e). change (be_symbol_capacity e1) with c'. rewrite E2. cbn [obind]. destruct res as [e2|].
    + destruct (Hres2 e2 eq_refl) as (b & -> & Hb). eexists true, _, h2. split; [done|]. split; [cbn in Eh2; congruence|]. split; [|split; [done|]].
      * apply (symbols_replaced e _ c' b); [done|done|apply Forall_app; split; [apply (eo_symbols _ He)|by apply Forall_singleton]|done|done].
      * split; [done|]. split; [done|]. split; [done|]. cbn [be_symbols with_symbols with_buckets]. split; [by apply symbol_map_snoc|]. rewrite bool_decide_eq_false_2; [by rewrite fmap_app|].
        intros [z [Hz En]%symbol_map_Some]; [|apply (eo_symbol_names _ He)]. by apply (Hf z).
    + eexists false, e1, h2. split; [done|]. split; [cbn in Eh2; congruence|]. split; [done|]. split; [|done]. intros Hgen. exfalso. apply Hgen2; [|done].
      intros k. cbn. rewrite Eh. apply Hgen.
Qed.

(** Looking a symbol up is looking it up in the map. *)
Lemma find_emitted_ok e name : emitter_ok e -> symbol_count e <= 2 ^ 31 -> binary_emitter_find_symbol e (Some name) = Ret (symbol_map (be_symbols e) !! name).
Proof.
  intros He Hl. unfold binary_emitter_find_symbol. destruct (find_symbol_index_ok e name He Hl) as (found & -> & Hf). cbn [obind]. destruct found as [i|].
  - destruct Hf as (y & Hi & En). rewrite (proj2 (Z.ltb_ge (Z.of_nat i) 0)) by lia. rewrite (get_nat _ _ _ Hi). cbn [obind]. f_equal. symmetry.
    apply symbol_map_Some; [apply (eo_symbol_names _ He)|]. split; [by eapply list_elem_of_lookup_2|done].
  - cbn. f_equal. symmetry. apply eq_None_not_Some. intros [y [Hy En]%symbol_map_Some]; [|apply (eo_symbol_names _ He)]. by apply (Hf y).
Qed.
End BinaryEmitterCorrect.
