(* ===== verification/BinaryEmitterProps.v ===== *)
(** The promises of an emitter: any sequence of operations keeps its tables
    consistent, and its symbols are a map from names. *)
From S2P Require Import Prelude Probe LinkObjects LinkBytes LinkObjectsCorrect BinaryEmitter BinaryEmitterCorrect.
From stdpp Require Import gmap.
#[local] Open Scope Z_scope.

Module BinaryEmitterProps.
Import LinkBytes LinkObjectsCorrect BinaryEmitter BinaryEmitterCorrect.

(** * Sections *)

Lemma sections_replaced e ss c : emitter_ok e -> in_u 64 c -> Forall section_fits ss -> NoDup (bs_name <$> ss) -> (length (be_sections e) <= length ss)%nat ->
  emitter_ok (with_sections ss c e).
Proof.
  intros [H1 H2 H3 H4 H5 H6 (H7 & H8 & H9)] Hc Hs Hd Hl. constructor; try done. eapply Forall_impl; [exact H6|]. intros r (? & ?). split; [|done].
  unfold section_count in *. cbn. lia.
Qed.

Lemma section_replaced e i s s' : emitter_ok e -> be_sections e !! i = Some s -> section_fits s' -> bs_name s' = bs_name s ->
  emitter_ok (with_sections (<[i := s']> (be_sections e)) (be_section_capacity e) e).
Proof.
  intros He Hi Hs En. apply sections_replaced; [done|apply (eo_capacities _ He)|apply Forall_insert; [apply (eo_sections _ He)|done]| |by rewrite length_insert].
  rewrite list_fmap_insert. rewrite list_insert_id; [apply (eo_section_names _ He)|]. by rewrite list_lookup_fmap, Hi, En.
Qed.

Lemma get_section_Some e i s : binary_emitter_get_section e i = Some s -> 0 <= i /\ be_sections e !! Z.to_nat i = Some s.
Proof. unfold binary_emitter_get_section. by destruct (Z.ltb_spec i 0). Qed.

Lemma get_section_fits e i s : emitter_ok e -> binary_emitter_get_section e i = Some s -> section_fits s.
Proof. intros He [_ Hi]%get_section_Some. by eapply (Forall_lookup_1 _ _ _ _ (eo_sections _ He)). Qed.

Lemma put_section_ok e i s s' : emitter_ok e -> binary_emitter_get_section e i = Some s -> section_fits s' -> bs_name s' = bs_name s -> emitter_ok (put_section e i s').
Proof. intros He [_ Hi]%get_section_Some. by apply (section_replaced e _ s s'). Qed.

(** The section with more room. *)
Definition roomier (c : Z) (s : BinarySection) : BinarySection :=
  mkBinarySection (bs_name s) (bs_kind s) (bs_characteristics s) (bs_alignment s) (bs_data s) c (bs_virtual_size s).

(** The section with more bytes. *)
Definition longer (bytes : list Z) (c : Z) (s : BinarySection) : BinarySection :=
  mkBinarySection (bs_name s) (bs_kind s) (bs_characteristics s) (bs_alignment s) (bs_data s ++ bytes) c
    (Z.max (bs_virtual_size s) (bs_size s + Z.of_nat (length bytes))).

(** Bytes are appended, unless there is no memory for them. *)
Lemma append_ok s bytes h : section_fits s -> bytes_ok bytes -> bs_size s + Z.of_nat (length bytes) <= 2 ^ 63 ->
  exists r h1, binary_section_reserve s (u64 (bs_size s + Z.of_nat (length bytes))) h = Ret (r, h1) /\ heap_grants h1 = heap_grants h /\ (generous h -> r <> None) /\
    forall s', r = Some s' -> bs_size s' = bs_size s /\ exists c, append_stored s' bytes = Ret (longer bytes c s) /\ section_fits (longer bytes c s).
Proof.
  intros (Hn & Ha & Hc & Hb & Hv) Hbs Hl. unfold binary_section_reserve. rewrite wrapu_small by (unfold in_u, bs_size in *; lia).
  destruct (reserve_ok (bs_capacity s) 32 (bs_size s + Z.of_nat (length bytes)) h) as [(res & h1 & E & Eh & Hres) Hg]; [unfold in_u, bs_size in *; lia|lia|done|].
  rewrite E. cbn [obind]. eexists _, h1. split; [done|]. split; [done|]. split.
  { intros Hgen. destruct (Hg Hgen) as (c' & h' & E' & _). rewrite E' in E. by injection E as <- _. }
  intros s' Es'. destruct res as [c|]; [|done]. injection Es' as <-. destruct (Hres c eq_refl) as (Hc' & Hle & Hge). split; [done|]. exists c.
  unfold append_stored, bs_size. cbn [bs_capacity bs_data]. rewrite (proj2 (Z.ltb_ge _ _)) by (unfold bs_size in *; lia). split.
  - f_equal. unfold longer, bs_size. cbn. f_equal. destruct (Z.ltb_spec (bs_virtual_size s) (Z.of_nat (length (bs_data s)) + Z.of_nat (length bytes))); lia.
  - unfold section_fits, longer, bs_size, in_u in *. cbn. rewrite length_app, Nat2Z.inj_add. split; [done|]. split; [done|]. split; [lia|]. split; [by apply Forall_app|lia].
Qed.

(** * Operations *)

Inductive op :=
| op_reset
| op_section (name : option cstring) (kind : BinarySectionKind) (characteristics alignment : Z)
| op_align (section_index alignment fill_byte : Z)
| op_bytes (section_index : Z) (data : option (list Z))
| op_zeros (section_index size : Z)
| op_virtual_size (section_index virtual_size : Z)
| op_symbol (name : option cstring) (binding : BinarySymbolBinding) (section_index value size : Z)
| op_external (name : option cstring)
| op_relocation (section_index offset : Z) (kind : BinaryRelocationKind) (name : option cstring) (addend : Z).

Definition run_op (e : BinaryEmitter) (o : op) (h : heap) : outcome (BinaryEmitter * heap) :=
  match o with
  | op_reset => Ret (binary_emitter_reset e, h)
  | op_section name kind characteristics alignment => let! (_, e, h) := binary_emitter_get_or_create_section e name kind characteristics alignment h in Ret (e, h)
  | op_align i alignment fill => let! (_, e, h) := binary_emitter_align_section e i alignment fill h in Ret (e, h)
  | op_bytes i data => let! (_, e, h) := binary_emitter_append_bytes e i data h in Ret (e, h)
  | op_zeros i size => let! (_, e, h) := binary_emitter_append_zeros e i size h in Ret (e, h)
  | op_virtual_size i n => Ret (snd (binary_emitter_set_section_virtual_size e i n), h)
  | op_symbol name binding i value size => let! (_, e, h) := binary_emitter_define_symbol e name binding i value size h in Ret (e, h)
  | op_external name => let! (_, e, h) := binary_emitter_declare_external e name h in Ret (e, h)
  | op_relocation i offset kind name addend => let! (_, e, h) := binary_emitter_add_relocation e i offset kind name addend h in Ret (e, h)
  end.

Definition name_arg (name : option cstring) : Prop := forall n, name = Some n -> Forall (fun c => in_u 8 c /\ c <> 0) n.

(** Arguments of the types the code has. *)
Definition op_typed (o : op) : Prop :=
  match o with
  | op_reset => True
  | op_section name _ characteristics alignment => name_arg name /\ in_u 32 characteristics /\ in_u 64 alignment
  | op_align i alignment fill => in_u 64 i /\ in_u 64 alignment /\ in_u 8 fill
  | op_bytes i data => in_u 64 i /\ bytes_ok (default [] data)
  | op_zeros i size => in_u 64 i /\ in_u 64 size
  | op_virtual_size i n => in_u 64 i /\ in_u 64 n
  | op_symbol name _ i value size => name_arg name /\ in_u 64 i /\ in_u 64 value /\ in_u 64 size
  | op_external name => name_arg name
  | op_relocation i offset _ name addend => in_u 64 i /\ in_u 64 offset /\ name_arg name /\ in_s 32 addend
  end.

(** Room for what the operation adds: 2^63 bytes in a section, 2^31 entries in
    a table. *)
Definition op_room (e : BinaryEmitter) (o : op) : Prop :=
  match o with
  | op_align i alignment _ => forall s, binary_emitter_get_section e i = Some s -> bs_size s + alignment <= 2 ^ 63
  | op_bytes i data => forall s, binary_emitter_get_section e i = Some s -> bs_size s + Z.of_nat (length (default [] data)) <= 2 ^ 63
  | op_zeros i size => forall s, binary_emitter_get_section e i = Some s -> bs_size s + size <= 2 ^ 63
  | op_section _ _ _ _ => section_count e < 2 ^ 31
  | op_symbol _ _ _ _ _ | op_external _ => symbol_count e < 2 ^ 31
  | op_relocation _ _ _ _ _ => relocation_count e < 2 ^ 31
  | _ => True
  end.

Lemma name_proper c n : name_arg (Some (c :: n)) -> proper_name (c :: n).
Proof. intros H. split; [done|]. by apply H. Qed.

Lemma op_section_ok e name kind characteristics alignment h : emitter_ok e -> name_arg name -> in_u 32 characteristics -> in_u 64 alignment -> section_count e < 2 ^ 31 ->
  exists i e' h', binary_emitter_get_or_create_section e name kind characteristics alignment h = Ret (i, e', h') /\ emitter_ok e'.
Proof.
  intros He Hn Hc Ha Hl. unfold binary_emitter_get_or_create_section. destruct name as [[|c n]|]; try (by eexists _, e, h).
  apply name_proper in Hn. set (nm := c :: n) in *. destruct (list_find (fun s => bs_name s = nm) (be_sections e)) as [[i s]|] eqn:Ef.
  - apply list_find_Some in Ef as (Hi & En & _). eexists _, _, h. split; [done|]. eapply section_replaced; [done|exact Hi| |done].
    destruct (Forall_lookup_1 _ _ _ _ (eo_sections _ He) Hi) as (H1 & H2 & H3 & H4). unfold section_fits, asked_again, bs_size in *. cbn. split; [done|].
    unfold in_u in *. rewrite Z.gtb_ltb. split; [destruct (Z.ltb_spec (bs_alignment s) alignment); lia|done].
  - apply list_find_None in Ef. unfold binary_emitter_reserve_sections. unfold section_count in *. rewrite wrapu_small by (unfold in_u; lia).
    destruct (reserve_ok (be_section_capacity e) 4 (Z.of_nat (length (be_sections e)) + 1) h) as [(res & h1 & E1 & Eh & Hres) _]; [apply (eo_capacities _ He)|lia|lia|].
    rewrite E1. cbn [obind]. destruct res as [c'|]; cbn [option_map]; [|by eexists _, e, h1]. destruct (Hres c' eq_refl) as (Hc' & _ & _).
    assert (emitter_ok (with_sections (be_sections e) c' e)) as He1 by (apply sections_replaced; [done|done|apply (eo_sections _ He)|apply (eo_section_names _ He)|done]).
    unfold alloc. destruct (heap_grants _ _); cbn [negb]; [|by eexists _, _, _]. eexists _, _, _. split; [done|]. apply (sections_replaced (with_sections (be_sections e) c' e)); [done|done| | |].
    + apply Forall_app. split; [apply (eo_sections _ He)|]. apply Forall_singleton. unfold section_fits, bs_size, in_u in *. cbn. split; [done|].
      split; [destruct (Z.eqb_spec alignment 0); lia|]. split; [lia|]. split; [constructor|lia].
    + cbn [be_sections with_sections]. rewrite fmap_app. apply NoDup_app. split; [apply (eo_section_names _ He)|]. split; [|apply NoDup_singleton].
      intros x (s & -> & Hs)%list_elem_of_fmap Hx%list_elem_of_singleton. rewrite Forall_forall in Ef. by apply (Ef s Hs).
    + cbn. rewrite length_app. lia.
Qed.

Lemma op_align_ok e i alignment fill h : emitter_ok e -> op_typed (op_align i alignment fill) -> op_room e (op_align i alignment fill) ->
  exists ok e' h', binary_emitter_align_section e i alignment fill h = Ret (ok, e', h') /\ emitter_ok e'.
Proof.
  cbn [op_typed op_room]. intros He (_ & Ha & Hf) Hroom. unfold binary_emitter_align_section. destruct (binary_emitter_get_section e i) as [s|] eqn:Es; [|by eexists _, e, h].
  destruct (Z.eqb_spec alignment 0); [by eexists _, e, h|]. cbv zeta. unfold in_u in Ha. pose proof (get_section_fits e i s He Es) as (H1 & H2 & H3 & H4). specialize (Hroom s eq_refl).
  match goal with |- context [put_section e i ?x] => set (s1 := x) end.
  assert (section_fits s1) as Hs1.
  { unfold section_fits, s1, bs_size in *. cbn. split; [done|]. split; [rewrite Z.gtb_ltb; destruct (Z.ltb_spec (bs_alignment s) alignment); lia|done]. }
  assert (emitter_ok (put_section e i s1)) as He1 by by apply (put_section_ok e i s).
  assert (0 <= bs_size s1 mod alignment < alignment) as Hm by (apply Z.mod_pos_bound; lia).
  destruct (_ =? 0); [by eexists _, _, h|].
  destruct (append_ok s1 (replicate (Z.to_nat (alignment - bs_size s1 mod alignment)) fill) h) as (r & h1 & E & _ & _ & Hr); [done|by apply Forall_replicate| |].
  { rewrite length_replicate. change (bs_size s1) with (bs_size s) in *. lia. }
  rewrite length_replicate, Z2Nat.id in E by lia. rewrite E. cbn [obind]. destruct r as [s2|]; [|by eexists _, _, h1].
  destruct (Hr s2 eq_refl) as (_ & c & -> & Hs2). cbn [obind]. eexists _, _, _. split; [done|]. apply (put_section_ok _ i s1); [done| |done|done].
  apply get_section_Some in Es as [Hi Es]. unfold binary_emitter_get_section. rewrite (proj2 (Z.ltb_ge _ _)) by done. cbn. apply list_lookup_insert_eq. by eapply lookup_lt_Some.
Qed.

Lemma op_append_ok e i bytes h s : emitter_ok e -> bytes_ok bytes -> binary_emitter_get_section e i = Some s -> bs_size s + Z.of_nat (length bytes) <= 2 ^ 63 ->
  exists off e' h', (let! (r, h) := binary_section_reserve s (u64 (bs_size s + Z.of_nat (length bytes))) h in
    match r with
    | None => Ret (None, e, h)
    | Some s => let offset := bs_size s in let! s := append_stored s bytes in Ret (Some offset, put_section e i s, h)
    end) = Ret (off, e', h') /\ emitter_ok e' /\ (generous h -> off <> None) /\ forall o, off = Some o -> o = bs_size s /\ exists c, e' = put_section e i (longer bytes c s).
Proof.
  intros He Hb Es Hroom. destruct (append_ok s bytes h) as (r & h1 & -> & _ & Hg & Hr); [by eapply get_section_fits|done|done|]. cbn [obind].
  destruct r as [s2|]; [|eexists _, e, h1; split; [done|]; split; [done|]; split; [intros Hgen; by destruct (Hg Hgen)|done]].
  destruct (Hr s2 eq_refl) as (-> & c & -> & Hs2). cbn [obind]. eexists _, _, _. split; [done|]. split; [by apply (put_section_ok e i s)|]. split; [done|]. intros o [= <-]. split; [done|]. by exists c.
Qed.

Lemma op_relocation_ok e i offset kind name addend h : emitter_ok e -> op_typed (op_relocation i offset kind name addend) -> relocation_count e < 2 ^ 31 ->
  exists ok e' h', binary_emitter_add_relocation e i offset kind name addend h = Ret (ok, e', h') /\ emitter_ok e'.
Proof.
  cbn [op_typed]. intros He (Hi & Ho & Hn & Hadd) Hl. unfold binary_emitter_add_relocation. destruct name as [[|c n]|]; try (by eexists _, e, h). apply name_proper in Hn.
  destruct (Z.leb_spec (section_count e) i); [by eexists _, e, h|]. unfold binary_emitter_reserve_relocations. unfold relocation_count in *. rewrite wrapu_small by (unfold in_u; lia).
  destruct (reserve_ok (be_relocation_capacity e) 8 (Z.of_nat (length (be_relocations e)) + 1) h) as [(res & h1 & E1 & Eh & Hres) _]; [apply (eo_capacities _ He)|lia|lia|].
  rewrite E1. cbn [obind]. destruct res as [c'|]; cbn [option_map]; [|by eexists _, e, h1]. destruct (Hres c' eq_refl) as (Hc' & _ & _).
  assert (forall l, Forall (fun r => 0 <= br_section_index r < section_count e /\ in_u 64 (br_offset r) /\ proper_name (br_symbol_name r) /\ in_s 32 (br_addend r)) l ->
    emitter_ok (with_relocations l c' e)) as Hok.
  { intros l Hl'. destruct He as [H1 H2 H3 H4 H5 H6 (H7 & H8 & H9)]. by constructor. }
  unfold alloc. destruct (heap_grants _ _); cbn [negb]; [|eexists _, _, _; split; [done|]; apply Hok, He].
  eexists _, _, _. split; [done|]. apply (Hok (be_relocations e ++ [_])). apply Forall_app. split; [apply He|]. apply Forall_singleton. cbn. unfold in_u in Hi. split; [lia|done].
Qed.

Lemma op_symbol_ok e name binding i value size h : emitter_ok e -> op_typed (op_symbol name binding i value size) -> symbol_count e < 2 ^ 31 ->
  exists ok e' h', binary_emitter_define_symbol e name binding i value size h = Ret (ok, e', h') /\ emitter_ok e'.
Proof.
  cbn [op_typed]. intros He (Hn & Hi & Hv & Hs) Hl. destruct name as [[|c n]|]; try (by eexists _, e, h). apply name_proper in Hn.
  destruct (define_symbol_ok e (c :: n) binding i value size h He) as (ok & e' & h' & E & _ & He' & _); [by split|done|]. by exists ok, e', h'.
Qed.

Lemma run_op_ok e o h : emitter_ok e -> op_typed o -> op_room e o -> exists e' h', run_op e o h = Ret (e', h') /\ emitter_ok e'.
Proof.
  intros He Ht Hr. destruct o as [|name k ch al|i al fill|i data|i n|i n|name b i v n|name|i off k name add]; cbn [run_op].
  - eexists _, h. split; [done|]. destruct (eo_capacities _ He) as (? & ? & ?). constructor; cbn; try constructor; done.
  - destruct Ht as (Hn & Hc & Ha). destruct (op_section_ok e name k ch al h) as (x & e' & h' & -> & He'); [done..|]. by exists e', h'.
  - destruct (op_align_ok e i al fill h) as (x & e' & h' & -> & He'); [done..|]. by exists e', h'.
  - destruct Ht as (_ & Hb). unfold binary_emitter_append_bytes. destruct (binary_emitter_get_section e i) as [s|] eqn:Es; [|by exists e, h].
    destruct (op_append_ok e i (default [] data) h s) as (x & e' & h' & E & He' & _); [done..|by apply Hr|].
    cbv zeta in *. rewrite E. by exists e', h'.
  - destruct Ht as (_ & Hb). unfold in_u in Hb. unfold binary_emitter_append_zeros. destruct (binary_emitter_get_section e i) as [s|] eqn:Es; [|by exists e, h].
    destruct (op_append_ok e i (replicate (Z.to_nat n) 0) h s) as (x & e' & h' & E & He' & _); [done|by apply Forall_replicate|done|rewrite length_replicate, Z2Nat.id by lia; by apply Hr|].
    rewrite length_replicate, Z2Nat.id in E by lia. cbv zeta in *. rewrite E. by exists e', h'.
  - eexists _, h. split; [done|]. unfold binary_emitter_set_section_virtual_size. destruct (binary_emitter_get_section e i) as [s|] eqn:Es; [|done].
    destruct (Z.ltb_spec n (bs_size s)); [done|]. cbn [snd]. apply (put_section_ok e i s); [done|done| |done]. destruct (get_section_fits e i s He Es) as (H1 & H2 & H3 & H4 & _).
    unfold section_fits, bs_size, in_u in *. cbn in *. unfold in_u in *. split; [done|]. split; [done|]. split; [done|]. split; [done|lia].
  - destruct (op_symbol_ok e name b i v n h) as (x & e' & h' & -> & He'); [done..|]. by exists e', h'.
  - destruct (op_symbol_ok e name BINARY_SYMBOL_EXTERNAL BINARY_SECTION_INDEX_NONE 0 0 h) as (x & e' & h' & E & He'); [done|split; [exact Ht|done]|exact Hr|].
    unfold binary_emitter_declare_external. rewrite E. by exists e', h'.
  - destruct (op_relocation_ok e i off k name add h) as (x & e' & h' & -> & He'); [done..|]. by exists e', h'.
Qed.

(** What operations make of a new emitter. *)
Inductive emitted : BinaryEmitter -> Prop :=
| emitted_new target h e h' : binary_emitter_create target h = (Some e, h') -> emitted e
| emitted_op e o h e' h' : emitted e -> op_typed o -> op_room e o -> run_op e o h = Ret (e', h') -> emitted e'.

Lemma emitted_ok e : emitted e -> emitter_ok e.
Proof.
  induction 1 as [target h e h' E|e o h e' h' _ He Ht Hr E].
  - unfold binary_emitter_create in E. destruct (alloc h) as [[] h1]; [|done]. injection E as <- _. constructor; cbn; try constructor; done.
  - destruct (run_op_ok e o h He Ht Hr) as (e2 & h2 & E2 & He2). congruence.
Qed.

(** C13: emission.  Whatever operations made an emitter of a new one, on
    arguments of their types, while there was room for what they added, and
    however the allocator answered, its tables are consistent: sections of
    distinct names with their bytes within their capacity and size, symbols of
    distinct names all of which the hash index finds, and relocations in
    sections that exist; and the next operation returns. *)
Theorem binary_emitter_stays_ok e : emitted e -> emitter_ok e /\ forall o h, op_typed o -> op_room e o -> exists e' h', run_op e o h = Ret (e', h') /\ emitter_ok e'.
Proof. intros He%emitted_ok. split; [done|]. intros o h. by apply run_op_ok. Qed.

(** C14: the symbols of an emitter refine a map.  Defining a symbol, of a name
    that may be there already, returns, and given memory succeeds; it does to
    the table, an array with a hash index that grows, what inserting does to a
    map from names; sections and relocations stay as they are, the symbols
    keep their places and a new one comes last; and looking a name up, before
    and after, finds what the map holds. *)
Theorem binary_emitter_define_symbol_refines e n binding section_index value size h : emitter_ok e -> proper_name n ->
  in_u 64 section_index -> in_u 64 value -> in_u 64 size -> symbol_count e < 2 ^ 31 ->
  exists ok e' h', binary_emitter_define_symbol e (Some n) binding section_index value size h = Ret (ok, e', h') /\ (generous h -> ok = true) /\
    symbol_map (be_symbols e') = (if ok then <[n := mkBinarySymbol n binding section_index value size]> (symbol_map (be_symbols e)) else symbol_map (be_symbols e)) /\
    be_sections e' = be_sections e /\ be_relocations e' = be_relocations e /\
    (exists new, by_name <$> be_symbols e' = (by_name <$> be_symbols e) ++ new) /\
    forall name, binary_emitter_find_symbol e (Some name) = Ret (symbol_map (be_symbols e) !! name) /\
      binary_emitter_find_symbol e' (Some name) = Ret (symbol_map (be_symbols e') !! name).
Proof.
  intros He Hn Hi Hv Hs Hl. destruct (define_symbol_ok e n binding section_index value size h He) as (ok & e' & h' & E & _ & He' & Hg & Hok); [by split|done|].
  exists ok, e', h'. split; [done|]. split; [done|]. assert (symbol_count e' <= 2 ^ 31) as Hl'.
  { unfold symbol_count in *. rewrite <- (length_fmap by_name). destruct ok; [|destruct Hok as (-> & _); rewrite length_fmap; lia].
    destruct Hok as (_ & _ & _ & _ & ->). rewrite length_app, length_fmap. destruct (bool_decide _); cbn; lia. }
  assert (forall name, binary_emitter_find_symbol e (Some name) = Ret (symbol_map (be_symbols e) !! name) /\
      binary_emitter_find_symbol e' (Some name) = Ret (symbol_map (be_symbols e') !! name)) as Hf.
  { intros name. split; apply find_emitted_ok; try done. lia. }
  destruct ok.
  - destruct Hok as (H1 & H2 & _ & H4 & H5). split; [done|]. split; [done|]. split; [done|]. split; [by eexists|done].
  - destruct Hok as (H1 & H2 & H3). rewrite H1 in Hf |- *. split; [done|]. split; [done|]. split; [done|]. split; [exists []; by rewrite app_nil_r|done].
Qed.

(** * An emitter to look at *)

(** ".text" and "main"; a section with a return, and the function in it. *)
Definition n_text : cstring := [46; 116; 101; 120; 116].
Definition n_main : cstring := [109; 97; 105; 110].
Definition demo_emitter : BinaryEmitter :=
  mkEmitter BINARY_TARGET_FORMAT_ELF_X64 [mkBinarySection n_text BINARY_SECTION_TEXT 0 16 [0xC3] 32 1] 4 [] 0 [] [] 0.

Lemma text_proper : proper_name n_text.
Proof. split; [done|]. repeat constructor; done. Qed.
Lemma main_proper : proper_name n_main.
Proof. split; [done|]. repeat constructor; done. Qed.

Lemma demo_emitter_ok : emitter_ok demo_emitter.
Proof.
  constructor; cbn; try constructor; try done.
  - split; [exact text_proper|]. cbn. unfold bs_size, in_u. cbn. split; [done|]. split; [done|]. split; [repeat constructor; done|done].
  - by intros ?%not_elem_of_nil.
  - constructor.
Qed.

Lemma new_emitted : emitted (mkEmitter BINARY_TARGET_FORMAT_ELF_X64 [] 0 [] 0 [] [] 0).
Proof. by apply (emitted_new BINARY_TARGET_FORMAT_ELF_X64 heap_unlimited _ (mkHeap (fun _ => true) 1)). Qed.

Lemma binary_emitter_stays_ok_witness : exists e, emitted e /\ (be_sections e <> [] /\
  (emitter_ok e /\ forall o h, op_typed o -> op_room e o -> exists e' h', run_op e o h = Ret (e', h') /\ emitter_ok e')).
Proof.
  eassert (emitted _) as He.
  { eapply (emitted_op _ (op_section (Some n_text) BINARY_SECTION_TEXT 0 16) heap_unlimited); [exact new_emitted| |done|by vm_compute].
    split; [intros n [= <-]; apply text_proper|done]. }
  eexists. split; [exact He|]. split; [done|]. apply (binary_emitter_stays_ok _ He).
Defined.

Lemma binary_emitter_define_symbol_refines_witness :
  exists ok e' h', binary_emitter_define_symbol demo_emitter (Some n_main) BINARY_SYMBOL_GLOBAL 0 0 1 heap_unlimited = Ret (ok, e', h') /\ (generous heap_unlimited -> ok = true) /\
    symbol_map (be_symbols e') = (if ok then <[n_main := mkBinarySymbol n_main BINARY_SYMBOL_GLOBAL 0 0 1]> (symbol_map (be_symbols demo_emitter)) else symbol_map (be_symbols demo_emitter)) /\
    be_sections e' = be_sections demo_emitter /\ be_relocations e' = be_relocations demo_emitter /\
    (exists new, by_name <$> be_symbols e' = (by_name <$> be_symbols demo_emitter) ++ new) /\
    forall name, binary_emitter_find_symbol demo_emitter (Some name) = Ret (symbol_map (be_symbols demo_emitter) !! name) /\
      binary_emitter_find_symbol e' (Some name) = Ret (symbol_map (be_symbols e') !! name).
Proof. apply (binary_emitter_define_symbol_refines demo_emitter n_main BINARY_SYMBOL_GLOBAL 0 0 1 heap_unlimited); [exact demo_emitter_ok|exact main_proper|done..]. Defined.
End BinaryEmitterProps.
