(* ===== verification/ElfEmitter.v ===== *)
(** The writer of ELF objects, src/src/codegen/elf_emitter.c.

    A file is the list of the bytes written to it; [accepts] says whether the
    disk takes some bytes after others, and [opens] whether the file can be
    made.  Integers are stored as on a little-endian machine. *)
From S2P Require Import Prelude LinkObjects LinkBytes BinaryEmitter.
#[local] Open Scope Z_scope.

Module ElfEmitter.
Import LinkObjects (doubled).
Import LinkBytes (word_bytes).
Import BinaryEmitter.

(** A step that may fail, for want of memory or because of its input. *)
Definition attempt {A B} (m : outcome (option A * heap)) (k : A -> heap -> outcome (option B * heap)) : outcome (option B * heap) :=
  let! (r, h) := m in match r with None => Ret (None, h) | Some a => k a h end.
#[local] Notation "'let?' ( x , h ) := m 'in' k" := (attempt m (fun x h => k)) (at level 200, x pattern, h name, k at level 200).

Definition EV_CURRENT : Z := 1.
Definition ET_REL : Z := 1.
Definition EM_X86_64 : Z := 62.
Definition EM_AARCH64 : Z := 183.
Definition SHT_PROGBITS : Z := 1.
Definition SHT_SYMTAB : Z := 2.
Definition SHT_STRTAB : Z := 3.
Definition SHT_RELA : Z := 4.
Definition SHT_NOBITS : Z := 8.
Definition SHT_INIT_ARRAY : Z := 14.
Definition SHT_FINI_ARRAY : Z := 15.
Definition SHF_WRITE : Z := 0x1.
Definition SHF_ALLOC : Z := 0x2.
Definition SHF_EXECINSTR : Z := 0x4.
Definition STB_LOCAL : Z := 0.
Definition STB_GLOBAL : Z := 1.
Definition STT_NOTYPE : Z := 0.
Definition STT_OBJECT : Z := 1.
Definition STT_FUNC : Z := 2.
Definition SHN_UNDEF : Z := 0.

Definition ELF64_ST_INFO (bind type : Z) : Z := Z.shiftl bind 4 + Z.land type 0xf.
Definition ELF64_R_INFO (sym type : Z) : Z := Z.lor (u64 (Z.shiftl sym 32)) (u32 type).

(** * String tables *)

Record ElfStrtab := mkStrtab { st_data : list Z; st_capacity : Z }.

Definition st_size (t : ElfStrtab) : Z := Z.of_nat (length (st_data t)).

Definition elf_strtab_init (h : heap) : outcome (option ElfStrtab * heap) :=
  let (ok, h) := alloc h in Ret (if ok then Some (mkStrtab [0] 64) else None, h).

(** The offset of the name in the table, and the table. *)
Definition elf_strtab_add (table : ElfStrtab) (name : cstring) (h : heap) : outcome (option (Z * ElfStrtab) * heap) :=
  match name with
  | [] => Ret (Some (0, table), h)
  | _ =>
      let size := u64 (st_size table + Z.of_nat (S (length name))) in
      let? (capacity, h) :=
        if st_capacity table <? size then
          let! c := doubled 65 (u64 (st_capacity table * 2)) size in
          let (ok, h) := alloc h in Ret (if ok then Some c else None, h)
        else Ret (Some (st_capacity table), h) in
      if capacity <? st_size table + Z.of_nat (S (length name)) then Undef
      else Ret (Some (u32 (st_size table), mkStrtab (st_data table ++ name ++ [0]) capacity), h)
  end.

(** * Section headers *)

Record ElfSectionHeader := mkHeader {
  sh_name_offset : Z;
  sh_type : Z;
  sh_flags : Z;
  sh_offset : Z;
  sh_size : Z;
  sh_link : Z;
  sh_info : Z;
  sh_addralign : Z;
  sh_entsize : Z
}.

Definition no_header : ElfSectionHeader := mkHeader 0 0 0 0 0 0 0 0 0.

Definition with_offset (o : Z) (x : ElfSectionHeader) : ElfSectionHeader :=
  mkHeader (sh_name_offset x) (sh_type x) (sh_flags x) o (sh_size x) (sh_link x) (sh_info x) (sh_addralign x) (sh_entsize x).

Definition elf_section_flags (kind : BinarySectionKind) : Z :=
  match kind with
  | BINARY_SECTION_TEXT => Z.lor SHF_ALLOC SHF_EXECINSTR
  | BINARY_SECTION_RDATA => SHF_ALLOC
  | BINARY_SECTION_DATA | BINARY_SECTION_BSS | BINARY_SECTION_INIT_ARRAY | BINARY_SECTION_FINI_ARRAY => Z.lor SHF_ALLOC SHF_WRITE
  | BINARY_SECTION_DEBUG => 0
  end.

Definition elf_section_type (kind : BinarySectionKind) : Z :=
  match kind with
  | BINARY_SECTION_BSS => SHT_NOBITS
  | BINARY_SECTION_INIT_ARRAY => SHT_INIT_ARRAY
  | BINARY_SECTION_FINI_ARRAY => SHT_FINI_ARRAY
  | _ => SHT_PROGBITS
  end.

(** The type of a relocation, and the addend that comes with it. *)
Definition elf_map_relocation (target : BinaryTargetFormat) (kind : BinaryRelocationKind) : option (Z * Z) :=
  match target, kind with
  | BINARY_TARGET_FORMAT_ELF_ARM64, BINARY_RELOCATION_ADDR64 => Some (257, 0)
  | BINARY_TARGET_FORMAT_ELF_ARM64, BINARY_RELOCATION_ARM64_CALL26 => Some (283, 0)
  | BINARY_TARGET_FORMAT_ELF_ARM64, BINARY_RELOCATION_ARM64_ADR_PREL_PG_HI21 => Some (275, 0)
  | BINARY_TARGET_FORMAT_ELF_ARM64, BINARY_RELOCATION_ARM64_ADD_ABS_LO12_NC => Some (277, 0)
  | BINARY_TARGET_FORMAT_ELF_X64, BINARY_RELOCATION_REL32 => Some (2, -4)
  | BINARY_TARGET_FORMAT_ELF_X64, BINARY_RELOCATION_ADDR64 => Some (1, 0)
  | _, _ => None
  end.

Definition elf_align_up (value align : Z) : Z :=
  if align <=? 1 then value
  else let remainder := value mod align in if negb (remainder =? 0) then u64 (value + (align - remainder)) else value.

(** * Tables *)

(** The header array holds [header_capacity] headers. *)
Definition add_header (header_capacity : Z) (headers : list ElfSectionHeader) (x : ElfSectionHeader) : outcome (list ElfSectionHeader) :=
  if header_capacity <=? Z.of_nat (length headers) then Undef else Ret (headers ++ [x]).

(** How many relocations each section has. *)
Fixpoint count_relocations (target : BinaryTargetFormat) (rs : list BinaryRelocation) (reloc_counts : list Z) : outcome (option (list Z)) :=
  match rs with
  | [] => Ret (Some reloc_counts)
  | r :: rs =>
      if Z.of_nat (length reloc_counts) <=? br_section_index r then Ret None
      else
        match elf_map_relocation target (br_kind r) with
        | None => Ret None
        | Some _ =>
            let! n := get reloc_counts (br_section_index r) in
            let! reloc_counts := put reloc_counts (br_section_index r) (n + 1) in
            count_relocations target rs reloc_counts
        end
  end.

Definition counted (reloc_counts : list Z) : Z := Z.of_nat (length (filter (fun n => 0 < n) reloc_counts)).

Definition content_size (s : BinarySection) : Z :=
  match bs_kind s with BINARY_SECTION_BSS => if bs_virtual_size s >? bs_size s then bs_virtual_size s else bs_size s | _ => bs_size s end.

Fixpoint content_headers (header_capacity : Z) (ss : list BinarySection) (headers : list ElfSectionHeader) (shstrtab : ElfStrtab) (h : heap) :
  outcome (option (list ElfSectionHeader * list Z * ElfStrtab) * heap) :=
  match ss with
  | [] => Ret (Some (headers, [], shstrtab), h)
  | s :: ss =>
      let? ((name_offset, shstrtab), h) := elf_strtab_add shstrtab (bs_name s) h in
      let align := if bs_alignment s =? 0 then 1 else bs_alignment s in
      let! headers' := add_header header_capacity headers
        (mkHeader name_offset (elf_section_type (bs_kind s)) (elf_section_flags (bs_kind s)) 0 (content_size s) 0 0 align 0) in
      let? ((headers', content_shndx, shstrtab), h) := content_headers header_capacity ss headers' shstrtab h in
      Ret (Some (headers', u32 (Z.of_nat (length headers)) :: content_shndx, shstrtab), h)
  end.

(** ** Symbols *)

Record SymtabState := mkSymtab { sy_bytes : list Z; sy_cursor : Z; sy_index : list Z; sy_strtab : ElfStrtab }.

(** [memcpy] of [bs] to [i]. *)
Definition overwrite (d : list Z) (i : Z) (bs : list Z) : outcome (list Z) :=
  if (i <? 0) || (Z.of_nat (length d) <? i + Z.of_nat (length bs)) then Undef
  else Ret (take (Z.to_nat i) d ++ bs ++ drop (Z.to_nat i + length bs) d).

Definition is_local (y : BinarySymbol) : bool := bool_decide (by_binding y = BINARY_SYMBOL_LOCAL).

(** The section number, type and binding of a symbol, unless its section does
    not exist. *)
Definition symbol_place (e : BinaryEmitter) (content_shndx : list Z) (y : BinarySymbol) : outcome (option (Z * Z * Z)) :=
  if by_section_index y =? BINARY_SECTION_INDEX_NONE then Ret (Some (SHN_UNDEF, STT_NOTYPE, STB_GLOBAL))
  else if section_count e <=? by_section_index y then Ret None
  else
    let! shndx := get content_shndx (by_section_index y) in
    let! s := get (be_sections e) (by_section_index y) in
    let type :=
      match bs_kind s with
      | BINARY_SECTION_TEXT => STT_FUNC
      | BINARY_SECTION_DATA | BINARY_SECTION_BSS | BINARY_SECTION_RDATA => STT_OBJECT
      | _ => if negb (is_local y) then STT_OBJECT else STT_NOTYPE
      end in
    Ret (Some (u16 shndx, type, if is_local y then STB_LOCAL else STB_GLOBAL)).

Definition symbol_entry (name_offset shndx type bind : Z) (y : BinarySymbol) : list Z :=
  word_bytes 4 name_offset ++ word_bytes 1 (ELF64_ST_INFO bind type) ++ [0] ++ word_bytes 2 shndx ++ word_bytes 8 (by_value y) ++ word_bytes 8 (by_size y).

(** The symbols of one sort, [ys] being those from the [i]th on. *)
Fixpoint symbol_pass (e : BinaryEmitter) (content_shndx : list Z) (want_local : bool) (ys : list BinarySymbol) (i : Z) (s : SymtabState) (h : heap) :
  outcome (option SymtabState * heap) :=
  match ys with
  | [] => Ret (Some s, h)
  | y :: ys =>
      if negb (eqb (is_local y) want_local) then symbol_pass e content_shndx want_local ys (i + 1) s h
      else
        let? ((name_offset, strtab), h) := elf_strtab_add (sy_strtab s) (by_name y) h in
        let! place := symbol_place e content_shndx y in
        match place with
        | None => Ret (None, h)
        | Some (shndx, type, bind) =>
            let! bytes := overwrite (sy_bytes s) (sy_cursor s * 24) (symbol_entry name_offset shndx type bind y) in
            let! index := put (sy_index s) i (u32 (sy_cursor s)) in
            symbol_pass e content_shndx want_local ys (i + 1) (mkSymtab bytes (sy_cursor s + 1) index strtab) h
        end
  end.

(** ** Headers of relocations *)

(** ".rela", ".symtab", ".strtab", ".shstrtab" and ".note.GNU-stack". *)
Definition n_rela : cstring := [46; 114; 101; 108; 97].
Definition n_symtab : cstring := [46; 115; 121; 109; 116; 97; 98].
Definition n_strtab : cstring := [46; 115; 116; 114; 116; 97; 98].
Definition n_shstrtab : cstring := [46; 115; 104; 115; 116; 114; 116; 97; 98].
Definition n_note : cstring := [46; 110; 111; 116; 101; 46; 71; 78; 85; 45; 115; 116; 97; 99; 107].

(** What [snprintf] leaves in 64 characters. *)
Definition rela_name (base : cstring) : cstring := take 63 (n_rela ++ base).

Fixpoint rela_headers (header_capacity symtab_index : Z) (ss : list BinarySection) (reloc_counts content_shndx : list Z) (headers : list ElfSectionHeader)
  (shstrtab : ElfStrtab) (h : heap) : outcome (option (list ElfSectionHeader * list Z * ElfStrtab) * heap) :=
  match ss, reloc_counts, content_shndx with
  | s :: ss, n :: reloc_counts, shndx :: content_shndx =>
      if n =? 0 then
        let? ((headers, rela_shndx, shstrtab), h) := rela_headers header_capacity symtab_index ss reloc_counts content_shndx headers shstrtab h in
        Ret (Some (headers, 0 :: rela_shndx, shstrtab), h)
      else
        let? ((name_offset, shstrtab), h) := elf_strtab_add shstrtab (rela_name (bs_name s)) h in
        let! headers' := add_header header_capacity headers (mkHeader name_offset SHT_RELA 0 0 (u64 (n * 24)) symtab_index shndx 8 24) in
        let? ((headers', rela_shndx, shstrtab), h) := rela_headers header_capacity symtab_index ss reloc_counts content_shndx headers' shstrtab h in
        Ret (Some (headers', Z.of_nat (length headers) :: rela_shndx, shstrtab), h)
  | [], _, _ => Ret (Some (headers, [], shstrtab), h)
  | _, _, _ => Undef
  end.

(** * Where everything goes *)

Definition set_offset (headers : list ElfSectionHeader) (i offset : Z) : outcome (list ElfSectionHeader) :=
  let! x := get headers i in put headers i (with_offset offset x).

(** The headers of the contents, and the offset behind them. *)
Fixpoint place_contents (content_shndx : list Z) (headers : list ElfSectionHeader) (offset : Z) : outcome (list ElfSectionHeader * Z) :=
  match content_shndx with
  | [] => Ret (headers, offset)
  | i :: content_shndx =>
      let! x := get headers i in
      if sh_type x =? SHT_NOBITS then let! headers := set_offset headers i offset in place_contents content_shndx headers offset
      else
        let offset := elf_align_up offset (sh_addralign x) in
        let! headers := set_offset headers i offset in place_contents content_shndx headers (u64 (offset + sh_size x))
  end.

Fixpoint place_relocations (reloc_counts rela_shndx : list Z) (headers : list ElfSectionHeader) (offset : Z) : outcome (list ElfSectionHeader * Z) :=
  match reloc_counts, rela_shndx with
  | n :: reloc_counts, i :: rela_shndx =>
      if n =? 0 then place_relocations reloc_counts rela_shndx headers offset
      else
        let! x := get headers i in
        let offset := elf_align_up offset 8 in
        let! headers := set_offset headers i offset in place_relocations reloc_counts rela_shndx headers (u64 (offset + sh_size x))
  | [], [] => Ret (headers, offset)
  | _, _ => Undef
  end.

(** A table, and the offset behind it. *)
Definition place_table (headers : list ElfSectionHeader) (i offset : Z) : outcome (list ElfSectionHeader * Z) :=
  let! x := get headers i in let! headers := set_offset headers i offset in Ret (headers, u64 (offset + sh_size x)).

(** All that is written. *)
Record ElfTables := mkTables {
  t_headers : list ElfSectionHeader;
  t_content_shndx : list Z;
  t_reloc_counts : list Z;
  t_rela_shndx : list Z;
  t_symtab_bytes : list Z;
  t_symbol_symtab_index : list Z;
  t_strtab : ElfStrtab;
  t_shstrtab : ElfStrtab;
  t_section_header_offset : Z;
  t_shstrtab_header_index : Z
}.

Definition place_all (headers : list ElfSectionHeader) (content_shndx reloc_counts rela_shndx : list Z) (shstrtab_header_index : Z) : outcome (list ElfSectionHeader * Z) :=
  let! (headers, offset) := place_contents content_shndx headers 64 in
  let! (headers, offset) := place_relocations reloc_counts rela_shndx headers offset in
  let! (headers, offset) := place_table headers (shstrtab_header_index - 2) (elf_align_up offset 8) in
  let! (headers, offset) := place_table headers (shstrtab_header_index - 1) offset in
  let! (headers, offset) := place_table headers shstrtab_header_index offset in
  Ret (headers, elf_align_up offset 8).

(** ** The symbol table *)

Definition elf_build_symtab (e : BinaryEmitter) (content_shndx : list Z) (index : list Z) (strtab : ElfStrtab) (h : heap) :
  outcome (option (SymtabState * Z) * heap) :=
  let entry_count := u64 (1 + symbol_count e) in
  let (ok, h) := alloc h in
  if negb ok then Ret (None, h)
  else
    let? (s, h) := symbol_pass e content_shndx true (be_symbols e) 0 (mkSymtab (replicate (Z.to_nat (entry_count * 24)) 0) 1 index strtab) h in
    let first_global := u32 (sy_cursor s) in
    let? (s, h) := symbol_pass e content_shndx false (be_symbols e) 0 s h in
    Ret (Some (s, if first_global >? u32 (sy_cursor s) then u32 (sy_cursor s) else first_global), h).

(** ** The headers in their order, behind those of the contents *)

Definition elf_tables_last (e : BinaryEmitter) (header_capacity : Z) (headers : list ElfSectionHeader) (content_shndx reloc_counts : list Z)
  (symtab : SymtabState) (first_global : Z) (shstrtab : ElfStrtab) (h : heap) : outcome (option ElfTables * heap) :=
  let symtab_index := u32 (Z.of_nat (length headers) + counted reloc_counts) in
  let? ((headers, rela_shndx, shstrtab), h) := rela_headers header_capacity symtab_index (be_sections e) reloc_counts content_shndx headers shstrtab h in
  let? ((name_offset, shstrtab), h) := elf_strtab_add shstrtab n_symtab h in
  let symtab_size := u64 (u64 (1 + symbol_count e) * 24) in
  let! headers := add_header header_capacity headers
    (mkHeader name_offset SHT_SYMTAB 0 0 symtab_size (u32 (Z.of_nat (length headers) + 1)) first_global 8 24) in
  let? ((name_offset, shstrtab), h) := elf_strtab_add shstrtab n_strtab h in
  let! headers := add_header header_capacity headers (mkHeader name_offset SHT_STRTAB 0 0 (st_size (sy_strtab symtab)) 0 0 1 0) in
  let shstrtab_header_index := Z.of_nat (length headers) in
  let? ((name_offset, shstrtab), h) := elf_strtab_add shstrtab n_shstrtab h in
  let! headers := add_header header_capacity headers (mkHeader name_offset SHT_STRTAB 0 0 (st_size shstrtab) 0 0 1 0) in
  let! (headers, section_header_offset) := place_all headers content_shndx reloc_counts rela_shndx shstrtab_header_index in
  Ret (Some (mkTables headers content_shndx reloc_counts rela_shndx (sy_bytes symtab) (sy_index symtab) (sy_strtab symtab) shstrtab section_header_offset shstrtab_header_index), h).

Definition elf_tables_headers (e : BinaryEmitter) (reloc_counts index : list Z) (shstrtab strtab : ElfStrtab) (h : heap) : outcome (option ElfTables * heap) :=
  let header_capacity := 1 + section_count e + counted reloc_counts + 3 + 1 in
  let (ok, h) := alloc h in
  if negb ok then Ret (None, h)
  else
    let! headers := add_header header_capacity [] no_header in
    let? ((headers, content_shndx, shstrtab), h) := content_headers header_capacity (be_sections e) headers shstrtab h in
    let? ((name_offset, shstrtab), h) := elf_strtab_add shstrtab n_note h in
    let! headers := add_header header_capacity headers (mkHeader name_offset SHT_PROGBITS 0 0 0 0 0 1 0) in
    let? ((symtab, first_global), h) := elf_build_symtab e content_shndx index strtab h in
    elf_tables_last e header_capacity headers content_shndx reloc_counts symtab first_global shstrtab h.

(** Three blocks for the sections, if there are any; all are asked for. *)
Definition alloc_three (h : heap) : bool * heap :=
  let (a, h) := alloc h in let (b, h) := alloc h in let (c, h) := alloc h in (a && b && c, h).

Definition elf_tables (e : BinaryEmitter) (h : heap) : outcome (option ElfTables * heap) :=
  let? (shstrtab, h) := elf_strtab_init h in
  let? (strtab, h) := elf_strtab_init h in
  let (ok, h) := if 0 <? section_count e then alloc_three h else (true, h) in
  if negb ok then Ret (None, h)
  else
    let (ok, h) := if 0 <? symbol_count e then alloc h else (true, h) in
    if negb ok then Ret (None, h)
    else
      let! reloc_counts := count_relocations (target_format e) (be_relocations e) (replicate (length (be_sections e)) 0) in
      match reloc_counts with
      | None => Ret (None, h)
      | Some reloc_counts => elf_tables_headers e reloc_counts (replicate (length (be_symbols e)) 0) shstrtab strtab h
      end.

(** * Writing *)

(** A step of writing, which may fail. *)
Definition next {A B} (m : outcome (option A)) (k : A -> outcome (option B)) : outcome (option B) :=
  let! r := m in match r with None => Ret None | Some a => k a end.
#[local] Notation "'let+' x := m 'in' k" := (next m (fun x => k)) (at level 200, x pattern, k at level 200).

Section Disk.
Context (opens : bool) (accepts : list Z -> list Z -> bool).

(** The file after writing, if all of it could be written. *)
Definition elf_write_all (file data : list Z) : option (list Z) :=
  match data with [] => Some file | _ => if accepts file data then Some (file ++ data) else None end.

Fixpoint write_words (file : list Z) (ws : list (nat * Z)) : option (list Z) :=
  match ws with [] => Some file | (n, v) :: ws => file ← elf_write_all file (word_bytes n v); write_words file ws end.

(** Zeros, at most 16 at a time. *)
Fixpoint pad_loop (fuel : nat) (file : list Z) (current target : Z) : outcome (option (list Z)) :=
  match fuel with
  | O => NoFuel
  | S fuel =>
      if current <? target then
        let chunk := if target - current >? 16 then 16 else target - current in
        match elf_write_all file (replicate (Z.to_nat chunk) 0) with
        | None => Ret None
        | Some file => pad_loop fuel file (current + chunk) target
        end
      else Ret (Some file)
  end.
Definition elf_pad_to (file : list Z) (current target : Z) : outcome (option (list Z)) := pad_loop (S (Z.to_nat (target - current))) file current target.

(** Padding and a block at its offset: the file, and how much is written. *)
Definition write_block (file : list Z) (written offset : Z) (data : list Z) : outcome (option (list Z * Z)) :=
  let! file := elf_pad_to file written offset in
  Ret (file ← file; file ← elf_write_all file data; Some (file, u64 (offset + Z.of_nat (length data)))).

Definition elf_header (e : BinaryEmitter) (t : ElfTables) : list (nat * Z) :=
  [(2%nat, ET_REL); (2%nat, if bool_decide (target_format e = BINARY_TARGET_FORMAT_ELF_ARM64) then EM_AARCH64 else EM_X86_64); (4%nat, EV_CURRENT);
   (8%nat, 0); (8%nat, 0); (8%nat, t_section_header_offset t); (4%nat, 0); (2%nat, 64); (2%nat, 0); (2%nat, 0); (2%nat, 64);
   (2%nat, u16 (Z.of_nat (length (t_headers t)))); (2%nat, u16 (t_shstrtab_header_index t))].
Definition e_ident : list Z := [0x7f; 69; 76; 70; 2; 1; 1; 0; 0; 0; 0; 0; 0; 0; 0; 0].

(** The contents of the sections at their offsets. *)
Fixpoint write_contents (headers : list ElfSectionHeader) (ss : list BinarySection) (content_shndx : list Z) (file : list Z) (written : Z) : outcome (option (list Z * Z)) :=
  match ss, content_shndx with
  | s :: ss, i :: content_shndx =>
      let! x := get headers i in
      if sh_type x =? SHT_NOBITS then write_contents headers ss content_shndx file written
      else
        let+ (file, written) := write_block file written (sh_offset x) (bs_data s) in
        write_contents headers ss content_shndx file written
  | [], _ => Ret (Some (file, written))
  | _, _ => Undef
  end.

(** The relocations of section [i] among [rs]. *)
Fixpoint write_relocations (e : BinaryEmitter) (symbol_symtab_index : list Z) (i : Z) (rs : list BinaryRelocation) (file : list Z) (written : Z) : outcome (option (list Z * Z)) :=
  match rs with
  | [] => Ret (Some (file, written))
  | r :: rs =>
      if negb (br_section_index r =? i) then write_relocations e symbol_symtab_index i rs file written
      else
        match elf_map_relocation (target_format e) (br_kind r) with
        | None => Ret None
        | Some (type, implicit_addend) =>
            let! symbol_index := binary_emitter_find_symbol_index e (Some (br_symbol_name r)) in
            if symbol_index <? 0 then Ret None
            else
              let! sym := get symbol_symtab_index symbol_index in
              let+ file := Ret (write_words file [(8%nat, br_offset r); (8%nat, ELF64_R_INFO sym type); (8%nat, implicit_addend + br_addend r)]) in
              write_relocations e symbol_symtab_index i rs file (u64 (written + 24))
        end
  end.

(** The relocations of the sections from the [i]th on. *)
Fixpoint write_rela_sections (e : BinaryEmitter) (t : ElfTables) (reloc_counts rela_shndx : list Z) (i : Z) (file : list Z) (written : Z) : outcome (option (list Z * Z)) :=
  match reloc_counts, rela_shndx with
  | n :: reloc_counts, x :: rela_shndx =>
      if n =? 0 then write_rela_sections e t reloc_counts rela_shndx (i + 1) file written
      else
        let! x := get (t_headers t) x in
        let+ file := elf_pad_to file written (sh_offset x) in
        let+ (file, written) := write_relocations e (t_symbol_symtab_index t) i (be_relocations e) file (sh_offset x) in
        write_rela_sections e t reloc_counts rela_shndx (i + 1) file written
  | [], [] => Ret (Some (file, written))
  | _, _ => Undef
  end.

Definition header_words (x : ElfSectionHeader) : list (nat * Z) :=
  [(4%nat, sh_name_offset x); (4%nat, sh_type x); (8%nat, sh_flags x); (8%nat, 0); (8%nat, sh_offset x); (8%nat, sh_size x); (4%nat, sh_link x);
   (4%nat, sh_info x); (8%nat, sh_addralign x); (8%nat, sh_entsize x)].

(** The first header is all zeros, whatever is in the array. *)
Fixpoint write_headers (headers : list ElfSectionHeader) (i : nat) (file : list Z) : option (list Z) :=
  match headers with
  | [] => Some file
  | x :: headers => file ← write_words file (header_words (if (i =? 0)%nat then no_header else x)); write_headers headers (S i) file
  end.

Definition write_table (t : ElfTables) (i : Z) (data : list Z) (file : list Z) (written : Z) : outcome (option (list Z * Z)) :=
  let! x := get (t_headers t) i in write_block file written (sh_offset x) data.

Definition elf_write (e : BinaryEmitter) (t : ElfTables) : outcome (option (list Z)) :=
  let+ file := Ret (file ← elf_write_all [] e_ident; write_words file (elf_header e t)) in
  let+ (file, written) := write_contents (t_headers t) (be_sections e) (t_content_shndx t) file 64 in
  let+ (file, written) := write_rela_sections e t (t_reloc_counts t) (t_rela_shndx t) 0 file written in
  let+ (file, written) := write_table t (t_shstrtab_header_index t - 2) (t_symtab_bytes t) file written in
  let+ (file, written) := write_table t (t_shstrtab_header_index t - 1) (st_data (t_strtab t)) file written in
  let+ (file, written) := write_table t (t_shstrtab_header_index t) (st_data (t_shstrtab t)) file written in
  let+ file := elf_pad_to file written (t_section_header_offset t) in
  Ret (write_headers (t_headers t) 0 file).

(** The file, if there is one afterwards. *)
Definition binary_emitter_write_elf_object_file (e : BinaryEmitter) (h : heap) : outcome (option (list Z) * heap) :=
  let? (t, h) := elf_tables e h in
  if negb opens then Ret (None, h) else let! file := elf_write e t in Ret (file, h).
End Disk.
End ElfEmitter.
