(* ===== verification/ElfTables.v ===== *)
(** The tables of an ELF object being written: string tables hold the names
    they were given, and the headers describe the sections, symbols and
    relocations of the emitter. *)
From S2P Require Import Prelude Probe LinkObjects LinkBytes LinkObjectsCorrect BinaryEmitter BinaryEmitterCorrect ElfEmitter.
#[local] Open Scope Z_scope.

Module ElfTables.
Import LinkObjects (doubled).
Import LinkBytes LinkObjectsCorrect BinaryEmitter BinaryEmitterCorrect ElfEmitter.

(** * Steps *)

(** The step returns; it succeeds if there is memory and [G]; and when it
    succeeds, its result is good. *)
Definition gives {A} (G : Prop) (P : A -> Prop) (h : heap) (m : outcome (option A * heap)) : Prop :=
  exists res h', m = Ret (res, h') /\ heap_grants h' = heap_grants h /\ (generous h -> G -> res <> None) /\ forall x, res = Some x -> P x.

Lemma gives_some {A} G (P : A -> Prop) x h : P x -> gives G P h (Ret (Some x, h)).
Proof. intros H. exists (Some x), h. split; [done|]. split; [done|]. split; [done|]. by intros y [= <-]. Qed.

Lemma gives_none {A} G (P : A -> Prop) h : ~ G -> gives G P h (Ret (None, h)).
Proof. intros H. exists None, h. by split. Qed.

Lemma gives_bind {A B} G (P : A -> Prop) (Q : B -> Prop) h m k : gives G P h m -> (forall x h, P x -> gives G Q h (k x h)) -> gives G Q h (attempt m k).
Proof.
  intros (res & h1 & E & Eh & Hg & HP) Hk. unfold attempt. rewrite E. cbn [obind]. destruct res as [x|].
  - destruct (Hk x h1 (HP x eq_refl)) as (res & h2 & E2 & Eh2 & Hg2 & HQ). exists res, h2. split; [done|]. split; [congruence|]. split; [|done].
    intros Hh. apply Hg2. by apply (generous_same h).
  - exists None, h1. split; [done|]. split; [done|]. split; [|done]. intros Hh HG. by destruct (Hg Hh HG).
Qed.

Lemma gives_weaken {A} G (P Q : A -> Prop) h m : gives G P h m -> (forall x, P x -> Q x) -> gives G Q h m.
Proof. intros (res & h' & E & Eh & Hg & H) HPQ. exists res, h'. split; [done|]. split; [done|]. split; [done|]. intros x Hx. by apply HPQ, H. Qed.

Lemma gives_alloc {A} G (P : A -> Prop) h (k : heap -> outcome (option A * heap)) : (forall h, gives G P h (k h)) ->
  gives G P h (let (ok, h) := alloc h in if negb ok then Ret (None, h) else k h).
Proof.
  intros Hk. unfold alloc. destruct (heap_grants h (heap_calls h)) eqn:E; cbn [negb].
  - destruct (Hk (mkHeap (heap_grants h) (S (heap_calls h)))) as (res & h2 & E2 & Eh2 & Hg2 & HQ). exists res, h2. by split.
  - eexists None, _. split; [done|]. split; [done|]. split; [|done]. intros Hh. by rewrite Hh in E.
Qed.

(** * String tables *)

Definition strtab_ok (t : ElfStrtab) : Prop := 1 <= st_size t <= st_capacity t /\ 64 <= st_capacity t < 2 ^ 34 /\ bytes_ok (st_data t) /\ head (st_data t) = Some 0.

(** The table has the name, ended by a NUL, at the offset. *)
Definition has_string (t : ElfStrtab) (offset : Z) (name : cstring) : Prop :=
  exists pre post, st_data t = pre ++ name ++ 0 :: post /\ offset = Z.of_nat (length pre).

Definition extends (t t' : ElfStrtab) : Prop := exists l, st_data t' = st_data t ++ l.

Lemma strtab_extends_refl t : extends t t.
Proof. exists []. by rewrite app_nil_r. Qed.
Lemma strtab_extends_trans t1 t2 t3 : extends t1 t2 -> extends t2 t3 -> extends t1 t3.
Proof. intros [l1 E1] [l2 E2]. exists (l1 ++ l2). by rewrite E2, E1, app_assoc. Qed.
Lemma extends_string t t' o n : extends t t' -> has_string t o n -> has_string t' o n.
Proof. intros [l E] (pre & post & E1 & Eo). exists pre, (post ++ l). split; [|done]. rewrite E, E1. by rewrite <- !app_assoc. Qed.
#[local] Hint Resolve strtab_extends_refl extends_string : core.

(** Bytes for the name. *)
Definition room (name : cstring) : Z := match name with [] => 0 | _ => Z.of_nat (S (length name)) end.
Definition name_bytes (n : cstring) : Prop := Forall (fun c => in_u 8 c /\ c <> 0) n.

(** What adding a name does. *)
Definition added (name : cstring) (t : ElfStrtab) (r : Z * ElfStrtab) : Prop :=
  strtab_ok (snd r) /\ extends t (snd r) /\ has_string (snd r) (fst r) name /\ in_u 32 (fst r) /\ st_size (snd r) = st_size t + room name.

Lemma strtab_init_ok G h : gives G (fun t => strtab_ok t /\ st_size t = 1) h (elf_strtab_init h).
Proof.
  unfold elf_strtab_init. unfold alloc. destruct (heap_grants _ _) eqn:E; eexists _, _; (split; [done|]); (split; [done|]); split.
  - done.
  - intros t [= <-]. split; [|done]. unfold strtab_ok, st_size. cbn. split; [done|]. split; [done|]. split; [by repeat constructor|done].
  - intros Hh. by rewrite Hh in E.
  - done.
Qed.

Lemma strtab_add_ok G t name h : strtab_ok t -> name_bytes name -> st_size t + room name < 2 ^ 32 -> gives G (added name t) h (elf_strtab_add t name h).
Proof.
  intros Ht Hn Hs. pose proof Ht as (H1 & H2 & H3 & H4). unfold elf_strtab_add. destruct name as [|c name].
  { apply gives_some. split; [done|]. split; [done|]. unfold room in *. cbn. split; [|split; [done|lia]]. unfold has_string. destruct (st_data t) as [|z l]; [done|]. injection H4 as ->. by exists [], l. }
  set (nm := c :: name) in *. change (room nm) with (Z.of_nat (S (length nm))) in *. rewrite (wrapu_small 64) by (unfold in_u; lia).
  apply (gives_bind _ (fun c => st_size t + Z.of_nat (S (length nm)) <= c /\ 64 <= c < 2 ^ 34)).
  - destruct (Z.ltb_spec (st_capacity t) (st_size t + Z.of_nat (S (length nm)))); [|apply gives_some; lia]. rewrite (wrapu_small 64) by (unfold in_u; lia).
    destruct (doubled_spec 64 (st_capacity t * 2) (st_size t + Z.of_nat (S (length nm)))) as (k & -> & Hk & Hm); [lia|lia|lia|]. cbn [obind]. unfold alloc.
    destruct (heap_grants h _) eqn:E; eexists _, _; (split; [done|]); (split; [done|]); split; try done; [|intros Hh; by rewrite Hh in E].
    intros x [= <-]. assert (1 <= 2 ^ Z.of_nat k) by (pose proof (Z.pow_pos_nonneg 2 (Z.of_nat k)); lia). split; [lia|]. split; [nia|lia].
  - intros cap h1 [Hc Hc2]. rewrite (proj2 (Z.ltb_ge _ _)) by done. apply gives_some. unfold added, strtab_ok, st_size in *. cbn [fst snd st_data st_capacity]. rewrite !length_app. cbn [length].
    rewrite (wrapu_small 32) by (unfold in_u; lia). split.
    { split; [lia|]. split; [lia|]. split; [|by destruct (st_data t)]. apply Forall_app. split; [done|]. apply Forall_app. split; [|by repeat constructor].
      eapply Forall_impl; [exact Hn|]. by intros x [? _]. }
    split; [by eexists|]. split; [by exists (st_data t), []|]. split; [unfold in_u; lia|change (room nm) with (Z.of_nat (S (length nm))); lia].
Qed.
#[local] Hint Resolve strtab_add_ok : core.

(** * Headers of the contents *)

Definition names_room (ns : list cstring) : Z := foldr (fun n a => room n + a) 0 ns.

Lemma room_nonneg n : 0 <= room n.
Proof. destruct n; cbn; lia. Qed.
Lemma names_room_nonneg ns : 0 <= names_room ns.
Proof. induction ns as [|n ns IH]; cbn [names_room foldr]; [done|]. pose proof (room_nonneg n). unfold names_room in IH. lia. Qed.

Definition content_header (t : ElfStrtab) (s : BinarySection) (x : ElfSectionHeader) : Prop :=
  has_string t (sh_name_offset x) (bs_name s) /\ in_u 32 (sh_name_offset x) /\
  x = mkHeader (sh_name_offset x) (elf_section_type (bs_kind s)) (elf_section_flags (bs_kind s)) 0 (content_size s) 0 0 (bs_alignment s) 0.

Lemma content_header_extends t t' s x : extends t t' -> content_header t s x -> content_header t' s x.
Proof. intros He (H1 & H2 & H3). split; [by eapply extends_string|done]. Qed.

Definition contents_done (ss : list BinarySection) (headers : list ElfSectionHeader) (t : ElfStrtab) (r : list ElfSectionHeader * list Z * ElfStrtab) : Prop :=
  exists cs, r.1.1 = headers ++ cs /\ Forall2 (content_header r.2) ss cs /\ r.1.2 = Z.of_nat <$> seq (length headers) (length ss) /\
    strtab_ok r.2 /\ extends t r.2 /\ st_size r.2 = st_size t + names_room (bs_name <$> ss).

Lemma add_header_ok cap hs x : Z.of_nat (length hs) < cap -> add_header cap hs x = Ret (hs ++ [x]).
Proof. intros H. unfold add_header. by rewrite (proj2 (Z.leb_gt _ _)). Qed.

Lemma content_headers_ok G cap ss : Forall section_fits ss -> forall headers t h, strtab_ok t -> st_size t + names_room (bs_name <$> ss) < 2 ^ 32 ->
  Z.of_nat (length headers + length ss) <= cap -> cap < 2 ^ 32 -> gives G (contents_done ss headers t) h (content_headers cap ss headers t h).
Proof.
  induction 1 as [|s ss (Hn & Ha & _) Hss IH]; intros headers t h Ht Hr Hc Hcap; cbn [content_headers fmap list_fmap names_room foldr length] in *.
  { apply gives_some. exists []. cbn. rewrite app_nil_r. split; [done|]. split; [constructor|]. split; [done|]. split; [done|]. split; [done|lia]. }
  fold (names_room (bs_name <$> ss)) in *. pose proof (names_room_nonneg (bs_name <$> ss)).
  apply (gives_bind _ (added (bs_name s) t)); [apply strtab_add_ok; [done|apply Hn|lia]|]. intros [off t1] h1 (H1 & H2 & H3 & H4 & H5). cbn [fst snd] in *.
  rewrite add_header_ok by lia. cbn [obind].
  eapply gives_bind; [apply (IH (headers ++ [_]) t1 h1); [done|lia|rewrite length_app; cbn; lia|done]|]. intros [[hs shndx] t2] h2 (cs & E1 & E2 & E3 & E4 & E5 & E6).
  cbn [fst snd] in *. subst hs shndx. rewrite (proj2 (Z.eqb_neq (bs_alignment s) 0)) by lia. apply gives_some. eexists (_ :: cs). cbn [fst snd]. rewrite <- app_assoc. split; [done|].
  split; [constructor; [|done]; split; [by eapply extends_string|done]|]. split.
  - rewrite length_app. cbn [length seq fmap list_fmap]. rewrite wrapu_small by (unfold in_u; lia). by rewrite Nat.add_1_r.
  - split; [done|]. split; [by eapply strtab_extends_trans|]. cbn [names_room foldr fmap list_fmap]. unfold names_room in *. lia.
Qed.

(** * The symbol table *)

Definition symbol_type (e : BinaryEmitter) (y : BinarySymbol) : Z :=
  match bs_kind <$> be_sections e !! Z.to_nat (by_section_index y) with
  | Some BINARY_SECTION_TEXT => STT_FUNC
  | Some (BINARY_SECTION_DATA | BINARY_SECTION_BSS | BINARY_SECTION_RDATA) => STT_OBJECT
  | _ => if negb (is_local y) then STT_OBJECT else STT_NOTYPE
  end.

(** Section number, type and binding of a symbol in the file. *)
Definition place_of (e : BinaryEmitter) (y : BinarySymbol) : Z * Z * Z :=
  if by_section_index y =? BINARY_SECTION_INDEX_NONE then (SHN_UNDEF, STT_NOTYPE, STB_GLOBAL)
  else (by_section_index y + 1, symbol_type e y, if is_local y then STB_LOCAL else STB_GLOBAL).

Definition symbol_placed (e : BinaryEmitter) (y : BinarySymbol) : Prop := by_section_index y = BINARY_SECTION_INDEX_NONE \/ by_section_index y < section_count e.

Lemma symbol_place_ok e y : section_count e < 0xFF00 -> 0 <= by_section_index y ->
  symbol_place e (Z.of_nat <$> seq 1 (length (be_sections e))) y = Ret (if bool_decide (symbol_placed e y) then Some (place_of e y) else None).
Proof.
  intros Hn Hi. unfold symbol_place, place_of, symbol_placed, section_count in *. destruct (Z.eqb_spec (by_section_index y) BINARY_SECTION_INDEX_NONE) as [E|E].
  { rewrite bool_decide_eq_true_2 by by left. done. }
  destruct (Z.leb_spec (Z.of_nat (length (be_sections e))) (by_section_index y)); [rewrite bool_decide_eq_false_2 by lia; done|].
  rewrite bool_decide_eq_true_2 by (right; lia).
  destruct (lookup_lt_is_Some_2 (be_sections e) (Z.to_nat (by_section_index y))) as [s Hs]; [lia|].
  rewrite (get_spec _ _ (Z.of_nat (1 + Z.to_nat (by_section_index y)))) by (done || (rewrite list_lookup_fmap, lookup_seq_lt by lia; done)). cbn [obind].
  rewrite (get_spec _ _ s) by done. cbn [obind]. unfold symbol_type. rewrite Hs. cbn [fmap option_fmap option_map].
  rewrite wrapu_small by (unfold in_u; lia). replace (Z.of_nat (1 + Z.to_nat (by_section_index y))) with (by_section_index y + 1) by lia. done.
Qed.

Definition entry_ok (e : BinaryEmitter) (t : ElfStrtab) (y : BinarySymbol) (bs : list Z) : Prop :=
  exists off, has_string t off (by_name y) /\ in_u 32 off /\ symbol_placed e y /\
    let '(shndx, type, bind) := place_of e y in bs = symbol_entry off shndx type bind y.

Lemma entry_ok_extends e t t' y bs : extends t t' -> entry_ok e t y bs -> entry_ok e t' y bs.
Proof. intros He (off & H1 & H2). exists off. split; [by eapply extends_string|done]. Qed.

Lemma entry_length e t y bs : entry_ok e t y bs -> length bs = 24%nat.
Proof. intros (off & _ & _ & _ & H). destruct (place_of e y) as [[? ?] ?]. by rewrite H. Qed.

Lemma entries_length e t ys es : Forall2 (entry_ok e t) ys es -> length (mjoin es) = (24 * length ys)%nat.
Proof. induction 1 as [|y bs ys es Hy _ IH]; [done|]. change (mjoin (bs :: es)) with (bs ++ mjoin es). cbn [length]. rewrite length_app, IH, (entry_length _ _ _ _ Hy). lia. Qed.

(** The entries of the symbols [w] are written. *)
Record written_ok (e : BinaryEmitter) (w : list BinarySymbol) (s : SymtabState) : Prop := {
  wo_cursor : sy_cursor s = Z.of_nat (S (length w));
  wo_bytes : exists es n, sy_bytes s = replicate 24 0 ++ mjoin es ++ replicate (24 * n) 0 /\ Forall2 (entry_ok e (sy_strtab s)) w es /\ (length w + n)%nat = length (be_symbols e);
  wo_strtab : strtab_ok (sy_strtab s);
  wo_index : length (sy_index s) = length (be_symbols e)
}.

(** The symbols that were entered have their places. *)
Definition entered (w : list BinarySymbol) (index : list Z) (j : nat) (y : BinarySymbol) : Prop :=
  exists k, index !! j = Some (Z.of_nat (S k)) /\ w !! k = Some y.

Definition sort_is (want : bool) (y : BinarySymbol) : Prop := is_local y = want.
#[local] Instance sort_is_dec want y : Decision (sort_is want y).
Proof. unfold sort_is. apply _. Defined.

Definition passed (e : BinaryEmitter) (want : bool) (ys : list BinarySymbol) (i : nat) (w : list BinarySymbol) (s s' : SymtabState) : Prop :=
  written_ok e (w ++ filter (sort_is want) ys) s' /\ st_size (sy_strtab s') = st_size (sy_strtab s) + names_room (by_name <$> filter (sort_is want) ys) /\
  (forall j, (j < i)%nat -> sy_index s' !! j = sy_index s !! j) /\
  (forall j y, ys !! j = Some y -> is_local y <> want -> sy_index s' !! (i + j)%nat = sy_index s !! (i + j)%nat) /\
  (forall j y, ys !! j = Some y -> is_local y = want -> entered (w ++ filter (sort_is want) ys) (sy_index s') (i + j) y).

Lemma overwrite_ok a b c d : length b = length c -> overwrite (a ++ b ++ d) (Z.of_nat (length a)) c = Ret (a ++ c ++ d).
Proof.
  intros Hl. unfold overwrite. rewrite !length_app. rewrite (proj2 (Z.ltb_ge _ 0)) by lia. rewrite (proj2 (Z.ltb_ge _ _)) by lia. cbn [orb]. rewrite Nat2Z.id.
  rewrite take_app_length. rewrite (app_assoc a b d). rewrite drop_app_length' by (rewrite length_app; lia). done.
Qed.

Lemma write_entry e w s y t bs i : written_ok e w s -> (length w < length (be_symbols e))%nat -> strtab_ok t -> extends (sy_strtab s) t -> entry_ok e t y bs ->
  exists bytes, overwrite (sy_bytes s) (sy_cursor s * 24) bs = Ret bytes /\ written_ok e (w ++ [y]) (mkSymtab bytes (sy_cursor s + 1) (<[i := u32 (sy_cursor s)]> (sy_index s)) t).
Proof.
  intros [Hc (es & n & Eb & Hes & Hn) Hst Hi] Hw Ht Hx Hb. pose proof (entries_length _ _ _ _ Hes) as Hl. pose proof (entry_length _ _ _ _ Hb) as Hlb.
  destruct n as [|n]; [lia|]. exists ((replicate 24 0 ++ mjoin es) ++ bs ++ replicate (24 * n) 0). split.
  - rewrite Eb, Hc, app_assoc. replace (replicate (24 * S n) 0) with (replicate 24 0 ++ replicate (24 * n) 0) by (rewrite <- replicate_add; f_equal; lia).
    replace (Z.of_nat (S (length w)) * 24) with (Z.of_nat (length (replicate 24 0 ++ mjoin es))) by (rewrite length_app, length_replicate; lia).
    apply overwrite_ok. by rewrite length_replicate.
  - constructor; cbn [sy_cursor sy_bytes sy_index sy_strtab].
    + rewrite Hc, length_app. cbn. lia.
    + exists (es ++ [bs]), n. rewrite join_app. change (mjoin [bs]) with (bs ++ []). rewrite app_nil_r, <- !app_assoc. split; [done|]. split; [|rewrite length_app; cbn; lia].
      apply Forall2_app; [|by constructor]. eapply Forall2_impl; [exact Hes|]. intros ? ?. by apply entry_ok_extends.
    + done.
    + by rewrite length_insert.
Qed.

Lemma symbol_pass_ok e want shndx : shndx = Z.of_nat <$> seq 1 (length (be_sections e)) -> section_count e < 0xFF00 -> symbol_count e < 2 ^ 31 ->
  Forall symbol_fits (be_symbols e) -> forall ys i w s h, (forall j y, ys !! j = Some y -> be_symbols e !! (i + j)%nat = Some y) ->
  written_ok e w s -> (length (w ++ filter (sort_is want) ys) <= length (be_symbols e))%nat ->
  st_size (sy_strtab s) + names_room (by_name <$> filter (sort_is want) ys) < 2 ^ 32 ->
  gives (Forall (symbol_placed e) (be_symbols e)) (passed e want ys i w s) h (symbol_pass e shndx want ys (Z.of_nat i) s h).
Proof.
  intros -> Hsec Hsym Hfits. induction ys as [|y ys IH]; intros i w s h Hys Hw Hl Hr; cbn [symbol_pass].
  { apply gives_some. unfold passed. cbn [filter list_filter fmap list_fmap names_room foldr]. rewrite app_nil_r. split; [done|]. split; [lia|]. split; [done|]. by split; intros j z. }
  assert (forall j z, ys !! j = Some z -> be_symbols e !! (S i + j)%nat = Some z) as Hys' by (intros j z Hj; rewrite Nat.add_succ_comm; by apply Hys).
  pose proof (Hys 0%nat y eq_refl) as Hy. rewrite Nat.add_0_r in Hy. replace (Z.of_nat i + 1) with (Z.of_nat (S i)) by lia.
  destruct (decide (sort_is want y)) as [Hs|Hs].
  - rewrite (proj2 (eqb_true_iff _ _) Hs). cbn [negb]. rewrite filter_cons_True in Hl, Hr by done. cbn [fmap list_fmap names_room foldr] in Hr. fold (names_room (by_name <$> filter (sort_is want) ys)) in Hr.
    pose proof (names_room_nonneg (by_name <$> filter (sort_is want) ys)). destruct (Forall_lookup_1 _ _ _ _ Hfits Hy) as ([_ Hn] & Hi & _). rewrite length_app in Hl. cbn [length] in Hl.
    apply (gives_bind _ (added (by_name y) (sy_strtab s))); [apply strtab_add_ok; [apply Hw|done|lia]|]. intros [off t] h1 (H1 & H2 & H3 & H4 & H5). cbn [fst snd] in *.
    rewrite symbol_place_ok by (done || apply Hi). cbn [obind]. destruct (bool_decide_reflect (symbol_placed e y)) as [Hp|Hp].
    2:{ apply gives_none. intros Hall. by apply Hp, (Forall_lookup_1 _ _ _ _ Hall Hy). }
    destruct (place_of e y) as [[ndx type] bind] eqn:Ep.
    destruct (write_entry e w s y t (symbol_entry off ndx type bind y) i Hw) as (bytes & -> & Hw'); [lia|done|done|exists off; rewrite Ep; done|]. cbn [obind].
    apply lookup_lt_Some in Hy as Hlt. rewrite put_nat by (rewrite (wo_index _ _ _ Hw); done). cbn [obind]. set (s1 := mkSymtab _ _ _ _) in *.
    assert (sy_index s1 !! i = Some (Z.of_nat (S (length w)))) as Hidx.
    { unfold s1. cbn [sy_index]. rewrite list_lookup_insert_eq by (rewrite (wo_index _ _ _ Hw); done). rewrite (wo_cursor _ _ _ Hw), wrapu_small; [done|]. unfold in_u, symbol_count in *. lia. }
    eapply gives_weaken; [apply (IH (S i) (w ++ [y]) s1 h1 Hys' Hw')|].
    + rewrite !length_app. cbn [length]. lia.
    + unfold s1. cbn [sy_strtab]. lia.
    + intros s' (P1 & P2 & P3 & P4 & P5). unfold passed. rewrite filter_cons_True by done. rewrite <- app_assoc in P1. cbn [app] in P1. split; [done|].
      split; [rewrite P2; unfold s1; cbn [sy_strtab fmap list_fmap names_room foldr]; unfold names_room; lia|]. split; [|split].
      * intros j Hj. rewrite P3 by lia. unfold s1. cbn [sy_index]. rewrite list_lookup_insert_ne by lia. done.
      * intros [|j] z Hz Hne; [injection Hz as ->; done|]. rewrite <- Nat.add_succ_comm, (P4 j z Hz Hne). unfold s1. cbn [sy_index]. rewrite list_lookup_insert_ne by lia. done.
      * intros [|j] z Hz Hs'.
        { injection Hz as <-. rewrite Nat.add_0_r. exists (length w). rewrite P3 by lia. split; [done|]. by rewrite lookup_app_r, Nat.sub_diag by lia. }
        { rewrite <- Nat.add_succ_comm. destruct (P5 j z Hz Hs') as (k & Hk & Hk'). exists k. rewrite <- app_assoc in Hk'. by split. }
  - rewrite (proj2 (eqb_false_iff _ _) Hs). cbn [negb]. rewrite filter_cons_False in Hl, Hr by done. eapply gives_weaken; [by apply (IH (S i) w s h)|].
    intros s' (P1 & P2 & P3 & P4 & P5). unfold passed. rewrite filter_cons_False by done. split; [done|]. split; [done|]. split; [intros j Hj; apply P3; lia|]. split.
    + intros [|j] z Hz Hne; [rewrite Nat.add_0_r; apply P3; lia|]. rewrite <- Nat.add_succ_comm. by apply (P4 j z).
    + intros [|j] z Hz Hs'; [by injection Hz as ->|]. rewrite <- Nat.add_succ_comm. by apply P5.
Qed.
End ElfTables.
