(* ===== verification/ElfHeaders.v ===== *)
(** The headers of an ELF object being written: what they say of the emitter,
    and where they put everything. *)
From S2P Require Import Prelude LinkObjects LinkBytes LinkObjectsCorrect BinaryEmitter BinaryEmitterCorrect ElfEmitter ElfTables.
#[local] Open Scope Z_scope.

Module ElfHeaders.
Import LinkBytes LinkObjectsCorrect BinaryEmitter BinaryEmitterCorrect ElfEmitter ElfTables.

(** * Counting relocations *)

Definition in_section (i : Z) (r : BinaryRelocation) : Prop := br_section_index r = i.
#[export] Instance in_section_dec i r : Decision (in_section i r).
Proof. unfold in_section. apply _. Defined.

Definition count_in (rs : list BinaryRelocation) (i : nat) : Z := Z.of_nat (length (filter (in_section (Z.of_nat i)) rs)).
Definition supported (target : BinaryTargetFormat) (r : BinaryRelocation) : Prop := elf_map_relocation target (br_kind r) <> None.

Lemma count_relocations_ok target rs : forall counts, Forall (fun r => 0 <= br_section_index r < Z.of_nat (length counts)) rs ->
  exists res, count_relocations target rs counts = Ret res /\ (Forall (supported target) rs -> res <> None) /\
    forall c, res = Some c -> Forall (supported target) rs /\ length c = length counts /\ forall i n, counts !! i = Some n -> c !! i = Some (n + count_in rs i).
Proof.
  induction rs as [|r rs IH]; intros counts Hr; cbn [count_relocations].
  { eexists. split; [done|]. split; [done|]. intros c [= <-]. split; [done|]. split; [done|]. intros i n ->. f_equal. change (count_in [] i) with 0. lia. }
  apply Forall_cons in Hr as [Hr Hrs]. rewrite (proj2 (Z.leb_gt _ _)) by lia. destruct (elf_map_relocation target (br_kind r)) as [p|] eqn:Em.
  2:{ exists None. split; [done|]. split; [|done]. intros [Hs _]%Forall_cons. unfold supported in Hs. by rewrite Em in Hs. }
  destruct (get_inside counts (br_section_index r)) as (n & -> & Hn); [lia|]. cbn [obind]. rewrite put_spec by lia. cbn [obind].
  destruct (IH (<[Z.to_nat (br_section_index r) := n + 1]> counts)) as (res & -> & Hne & Hres); [by rewrite length_insert|].
  exists res. split; [done|]. split; [intros [_ Hs]%Forall_cons; by apply Hne|]. intros c Ec. destruct (Hres c Ec) as (H1 & H2 & H3). rewrite length_insert in H2.
  split; [constructor; [unfold supported; by rewrite Em|done]|]. split; [done|]. intros i m Hi. unfold count_in.
  destruct (decide (i = Z.to_nat (br_section_index r))) as [->|Hne2].
  - rewrite filter_cons_True by (unfold in_section; lia). rewrite (H3 _ (n + 1)); [|apply list_lookup_insert_eq; by eapply lookup_lt_Some].
    rewrite Hn in Hi. injection Hi as <-. f_equal. unfold count_in. cbn [length]. lia.
  - rewrite filter_cons_False by (unfold in_section; lia). apply H3. by rewrite list_lookup_insert_ne.
Qed.

Definition section_counts (e : BinaryEmitter) : list Z := count_in (be_relocations e) <$> seq 0 (length (be_sections e)).

Lemma counts_ok e : emitter_ok e ->
  exists res, count_relocations (target_format e) (be_relocations e) (replicate (length (be_sections e)) 0) = Ret res /\
    (Forall (supported (target_format e)) (be_relocations e) -> res <> None) /\ forall c, res = Some c -> Forall (supported (target_format e)) (be_relocations e) /\ c = section_counts e.
Proof.
  intros He. destruct (count_relocations_ok (target_format e) (be_relocations e) (replicate (length (be_sections e)) 0)) as (res & -> & Hne & Hres).
  { rewrite length_replicate. eapply Forall_impl; [apply (eo_relocations _ He)|]. intros r (Hr & _). exact Hr. }
  exists res. split; [done|]. split; [done|]. intros c Ec. destruct (Hres c Ec) as (H1 & H2 & H3). split; [done|]. rewrite length_replicate in H2.
  apply list_eq_same_length with (length c); [unfold section_counts; by rewrite length_fmap, length_seq|done|]. intros i x y Hi Hx Hy.
  rewrite (H3 i 0) in Hx by (apply lookup_replicate; split; [done|lia]). unfold section_counts in Hy. rewrite list_lookup_fmap, lookup_seq_lt in Hy by lia. cbn in Hy. rewrite Z.add_0_l in Hx. congruence.
Qed.

(** The sections with relocations, [counts] being those of the sections from
    the [k]th on. *)
Fixpoint relocated (k : nat) (counts : list Z) : list nat :=
  match counts with [] => [] | n :: counts => if n =? 0 then relocated (S k) counts else k :: relocated (S k) counts end.

(** The positions of their headers, from [p] on. *)
Fixpoint rela_positions (p : nat) (counts : list Z) : list Z :=
  match counts with [] => [] | n :: counts => if n =? 0 then 0 :: rela_positions p counts else Z.of_nat p :: rela_positions (S p) counts end.

Lemma counted_relocated counts : Forall (Z.le 0) counts -> forall k, counted counts = Z.of_nat (length (relocated k counts)).
Proof.
  unfold counted. induction 1 as [|n counts Hn _ IH]; intros k; cbn [relocated]; [done|]. destruct (Z.eqb_spec n 0) as [->|Hne].
  - rewrite filter_cons_False by lia. apply IH.
  - rewrite filter_cons_True by lia. cbn [length]. rewrite !Nat2Z.inj_succ. f_equal. apply IH.
Qed.

Lemma relocated_length k counts : (length (relocated k counts) <= length counts)%nat.
Proof. revert k. induction counts as [|n counts IH]; intros k; cbn [relocated length]; [done|]. specialize (IH (S k)). destruct (n =? 0); cbn [length]; lia. Qed.

(** * Headers of relocations *)

Definition rela_header (e : BinaryEmitter) (t : ElfStrtab) (symtab_index : Z) (k : nat) (x : ElfSectionHeader) : Prop :=
  exists s, be_sections e !! k = Some s /\ has_string t (sh_name_offset x) (rela_name (bs_name s)) /\ in_u 32 (sh_name_offset x) /\
    x = mkHeader (sh_name_offset x) SHT_RELA 0 0 (count_in (be_relocations e) k * 24) symtab_index (Z.of_nat (S k)) 8 24.

Lemma rela_header_extends e t t' i k x : extends t t' -> rela_header e t i k x -> rela_header e t' i k x.
Proof. intros He (s & H1 & H2 & H3). exists s. split; [done|]. split; [by eapply extends_string|done]. Qed.

Lemma rela_name_bytes n : name_bytes n -> name_bytes (rela_name n) /\ room (rela_name n) <= 64.
Proof.
  intros H. unfold rela_name. split; [apply Forall_take, Forall_app; split; [|done]; by repeat constructor|].
  pose proof (length_take_le (n_rela ++ n) 63) as Hl. destruct (take 63 (n_rela ++ n)) eqn:E; unfold room; [lia|]. rewrite <- E. rewrite length_take. lia.
Qed.

Definition relas_done (e : BinaryEmitter) (symtab_index : Z) (k : nat) (counts : list Z) (headers : list ElfSectionHeader) (t : ElfStrtab)
  (r : list ElfSectionHeader * list Z * ElfStrtab) : Prop :=
  exists rs, r.1.1 = headers ++ rs /\ Forall2 (rela_header e r.2 symtab_index) (relocated k counts) rs /\ r.1.2 = rela_positions (length headers) counts /\
    strtab_ok r.2 /\ extends t r.2 /\ st_size r.2 <= st_size t + 64 * Z.of_nat (length counts).

Lemma rela_headers_ok G e cap i ss : Forall section_fits ss -> relocation_count e < 2 ^ 31 -> forall k headers t h,
  (forall j s, ss !! j = Some s -> be_sections e !! (k + j)%nat = Some s) -> strtab_ok t -> st_size t + 64 * Z.of_nat (length ss) < 2 ^ 32 ->
  Z.of_nat (length headers + length (relocated k (count_in (be_relocations e) <$> seq k (length ss)))) <= cap ->
  gives G (relas_done e i k (count_in (be_relocations e) <$> seq k (length ss)) headers t) h
    (rela_headers cap i ss (count_in (be_relocations e) <$> seq k (length ss)) (Z.of_nat <$> seq (S k) (length ss)) headers t h).
Proof.
  intros Hss Hn. induction Hss as [|s ss Hs _ IH]; intros k headers t h Hin Ht Hr Hc; cbn [rela_headers length seq fmap list_fmap relocated] in *.
  { apply gives_some. exists []. cbn. rewrite app_nil_r. split; [done|]. split; [constructor|]. split; [done|]. split; [done|]. split; [apply strtab_extends_refl|lia]. }
  assert (forall j z, ss !! j = Some z -> be_sections e !! (S k + j)%nat = Some z) as Hin' by (intros j z Hj; rewrite Nat.add_succ_comm; by apply Hin).
  pose proof (Hin 0%nat s eq_refl) as Hk. rewrite Nat.add_0_r in Hk. unfold relas_done in *. cbn [relocated rela_positions length].
  rewrite !length_fmap, !length_seq in *. destruct (Z.eqb_spec (count_in (be_relocations e) k) 0) as [E|E].
  - eapply gives_bind; [apply (IH (S k) headers t h); [done|done|lia|done]|]. intros [[hs pos] t'] h1 (rs & E1 & E2 & E3 & E4 & E5 & E6). cbn [fst snd] in *.
    apply gives_some. exists rs. cbn [fst snd]. split; [done|]. split; [done|]. split; [by f_equal|]. split; [done|]. split; [done|]. rewrite length_fmap, length_seq in E6. lia.
  - destruct (rela_name_bytes (bs_name s)) as [Hb Hb64]; [apply Hs|]. cbn [length] in Hc.
    apply (gives_bind _ (added (rela_name (bs_name s)) t)); [apply strtab_add_ok; [done|done|lia]|]. intros [off t1] h1 (H1 & H2 & H3 & H4 & H5). cbn [fst snd] in *.
    rewrite add_header_ok by lia. cbn [obind].
    assert (0 <= count_in (be_relocations e) k < 2 ^ 31) as Hcnt.
    { unfold count_in, relocation_count in *. pose proof (length_filter (in_section (Z.of_nat k)) (be_relocations e)). lia. }
    rewrite wrapu_small by (unfold in_u; lia).
    eapply gives_bind; [apply (IH (S k) (headers ++ [_]) t1 h1); [done|done|lia|rewrite length_app; cbn [length]; lia]|].
    intros [[hs pos] t'] h2 (rs & E1 & E2 & E3 & E4 & E5 & E6). cbn [fst snd] in *. subst hs pos. apply gives_some. eexists (_ :: rs). cbn [fst snd]. rewrite <- app_assoc. split; [done|].
    split; [constructor; [|done]; exists s; split; [done|]; split; [by eapply extends_string|done]|]. rewrite length_app, Nat.add_1_r. split; [done|]. split; [done|].
    split; [by eapply strtab_extends_trans|]. rewrite length_fmap, length_seq in E6. lia.
Qed.

(** * Where everything goes *)

Definition in_file (x : ElfSectionHeader) : bool := negb (sh_type x =? SHT_NOBITS).

(** The headers with their offsets, from [off] on, and the offset behind. *)
Fixpoint place (xs : list ElfSectionHeader) (off : Z) : list ElfSectionHeader :=
  match xs with
  | [] => []
  | x :: xs => if in_file x then let o := elf_align_up off (sh_addralign x) in with_offset o x :: place xs (u64 (o + sh_size x)) else with_offset off x :: place xs off
  end.
Fixpoint place_end (xs : list ElfSectionHeader) (off : Z) : Z :=
  match xs with [] => off | x :: xs => place_end xs (if in_file x then u64 (elf_align_up off (sh_addralign x) + sh_size x) else off) end.

Lemma place_app xs ys : forall off, place (xs ++ ys) off = place xs off ++ place ys (place_end xs off).
Proof. induction xs as [|x xs IH]; intros off; cbn [place place_end app]; [done|]. destruct (in_file x); by rewrite IH. Qed.
Lemma place_end_app xs ys : forall off, place_end (xs ++ ys) off = place_end ys (place_end xs off).
Proof. induction xs as [|x xs IH]; intros off; cbn [place_end app]; [done|]. by rewrite IH. Qed.
Lemma place_length xs : forall off, length (place xs off) = length xs.
Proof. induction xs as [|x xs IH]; intros off; cbn [place]; [done|]. destruct (in_file x); cbn; by rewrite IH. Qed.

Lemma get_mid {A} (pre post : list A) x : get (pre ++ x :: post) (Z.of_nat (length pre)) = Ret x.
Proof. apply get_nat. by rewrite lookup_app_r, Nat.sub_diag by lia. Qed.

Lemma set_offset_mid pre x post o : set_offset (pre ++ x :: post) (Z.of_nat (length pre)) o = Ret (pre ++ with_offset o x :: post).
Proof.
  unfold set_offset. rewrite get_mid. cbn [obind]. rewrite put_nat by (rewrite length_app; cbn; lia). f_equal.
  replace (length pre) with (length pre + 0)%nat by lia. by rewrite insert_app_r.
Qed.

Lemma place_contents_ok cs : forall pre post off,
  place_contents (Z.of_nat <$> seq (length pre) (length cs)) (pre ++ cs ++ post) off = Ret (pre ++ place cs off ++ post, place_end cs off).
Proof.
  induction cs as [|x cs IH]; intros pre post off; cbn [place_contents length seq fmap list_fmap place place_end app]; [done|]. rewrite get_mid. cbn [obind].
  unfold in_file. destruct (sh_type x =? SHT_NOBITS); cbn [negb]; rewrite set_offset_mid; cbn [obind].
  - specialize (IH (pre ++ [with_offset off x]) post off). rewrite length_app, Nat.add_1_r, <- !app_assoc in IH. exact IH.
  - specialize (IH (pre ++ [with_offset (elf_align_up off (sh_addralign x)) x]) post (u64 (elf_align_up off (sh_addralign x) + sh_size x))).
    rewrite length_app, Nat.add_1_r, <- !app_assoc in IH. exact IH.
Qed.

Lemma place_relocations_ok counts : forall k rs pre post off, length rs = length (relocated k counts) ->
  Forall (fun x => in_file x = true /\ sh_addralign x = 8) rs ->
  place_relocations counts (rela_positions (length pre) counts) (pre ++ rs ++ post) off = Ret (pre ++ place rs off ++ post, place_end rs off).
Proof.
  induction counts as [|n counts IH]; intros k rs pre post off Hl Hrs; cbn [place_relocations rela_positions relocated] in *; [by destruct rs|].
  destruct (n =? 0) eqn:E; [by apply (IH (S k))|]. destruct rs as [|x rs]; [done|]. apply Forall_cons in Hrs as [[Hx Ha] Hrs]. cbn [app]. rewrite get_mid. cbn [obind].
  rewrite set_offset_mid. cbn [obind place place_end]. rewrite Hx, Ha.
  specialize (IH (S k) rs (pre ++ [with_offset (elf_align_up off 8) x]) post (u64 (elf_align_up off 8 + sh_size x))).
  rewrite length_app, Nat.add_1_r, <- !app_assoc in IH. apply IH; [by injection Hl|done].
Qed.

Lemma place_table_ok pre x post off : in_file x = true -> place_table (pre ++ x :: post) (Z.of_nat (length pre)) (elf_align_up off (sh_addralign x)) =
  Ret (pre ++ place [x] off ++ post, place_end [x] off).
Proof. intros Hx. unfold place_table. rewrite get_mid. cbn [obind]. rewrite set_offset_mid. cbn [obind place place_end]. by rewrite Hx. Qed.

(** The three tables at the end. *)
Lemma place_all_ok cs note rs t1 t2 t3 counts : length rs = length (relocated 0 counts) -> Forall (fun x => in_file x = true /\ sh_addralign x = 8) rs ->
  in_file t1 = true -> in_file t2 = true -> in_file t3 = true -> sh_addralign t1 = 8 -> sh_addralign t2 = 1 -> sh_addralign t3 = 1 ->
  place_all (no_header :: cs ++ note :: rs ++ [t1; t2; t3]) (Z.of_nat <$> seq 1 (length cs)) counts (rela_positions (S (S (length cs))) counts)
    (Z.of_nat (S (S (length cs)) + length rs + 2)) =
  Ret (no_header :: place cs 64 ++ note :: place (rs ++ [t1; t2; t3]) (place_end cs 64), elf_align_up (place_end (rs ++ [t1; t2; t3]) (place_end cs 64)) 8).
Proof.
  intros Hl Hrs H1 H2 H3 A1 A2 A3. unfold place_all. pose proof (place_contents_ok cs [no_header] (note :: rs ++ [t1; t2; t3]) 64) as E1. cbn [app length] in E1. rewrite E1. cbn [obind].
  set (off := place_end cs 64). pose proof (place_relocations_ok counts 0 rs (no_header :: place cs 64 ++ [note]) [t1; t2; t3] off Hl Hrs) as E2.
  cbn [app length] in E2. rewrite length_app, place_length, Nat.add_1_r, <- !app_assoc in E2. cbn [app] in E2. rewrite E2. cbn [obind]. clear E1 E2.
  rewrite place_app, place_end_app. set (off2 := place_end rs off).
  assert (Z.of_nat (S (S (length cs)) + length rs + 2) - 2 = Z.of_nat (length (no_header :: place cs 64 ++ note :: place rs off))) as ->.
  { cbn [length]. rewrite length_app. cbn [length]. rewrite !place_length. lia. }
  pose proof (place_table_ok (no_header :: place cs 64 ++ note :: place rs off) t1 [t2; t3] off2 H1) as E. rewrite A1 in E. cbn [app] in E. rewrite <- !app_assoc in E. cbn [app] in E.
  rewrite E. clear E. cbn [obind].
  assert (Z.of_nat (S (S (length cs)) + length rs + 2) - 1 = Z.of_nat (length (no_header :: place cs 64 ++ note :: place rs off ++ place [t1] off2))) as ->.
  { cbn [length]. rewrite length_app. cbn [length]. rewrite length_app, !place_length. cbn [length]. lia. }
  pose proof (place_table_ok (no_header :: place cs 64 ++ note :: place rs off ++ place [t1] off2) t2 [t3] (place_end [t1] off2) H2) as E. rewrite A2 in E.
  cbn [app] in E. rewrite <- !app_assoc in E. cbn [app] in E. rewrite <- !app_assoc in E. cbn [app] in E. cbn [app]. unfold elf_align_up at 1 in E. cbn [Z.leb Z.compare Pos.compare Pos.compare_cont] in E.
  rewrite E. clear E. cbn [obind].
  assert (Z.of_nat (S (S (length cs)) + length rs + 2) = Z.of_nat (length (no_header :: place cs 64 ++ note :: place rs off ++ place [t1] off2 ++ place [t2] (place_end [t1] off2)))) as ->.
  { cbn [length]. rewrite length_app. cbn [length]. rewrite !length_app, !place_length. cbn [length]. lia. }
  pose proof (place_table_ok (no_header :: place cs 64 ++ note :: place rs off ++ place [t1] off2 ++ place [t2] (place_end [t1] off2)) t3 [] (place_end [t2] (place_end [t1] off2)) H3) as E.
  rewrite A3 in E. cbn [app] in E. rewrite <- !app_assoc in E. cbn [app] in E. rewrite <- !app_assoc in E. cbn [app] in E. unfold elf_align_up at 1 in E. cbn [Z.leb Z.compare Pos.compare Pos.compare_cont] in E.
  rewrite E. clear E. cbn [obind]. rewrite app_nil_r. f_equal.
  change [t1; t2; t3] with ([t1] ++ [t2] ++ [t3]). by rewrite !place_app, !place_end_app.
Qed.

(** * The symbol table *)

#[export] Existing Instance sort_is_dec.

(** Local symbols come first. *)
Definition in_order (e : BinaryEmitter) : list BinarySymbol := filter (sort_is true) (be_symbols e) ++ filter (sort_is false) (be_symbols e).

Lemma in_order_perm e : in_order e ≡ₚ be_symbols e.
Proof.
  unfold in_order. induction (be_symbols e) as [|y ys IH]; [done|]. destruct (decide (is_local y = true)) as [E|E].
  - rewrite filter_cons_True, filter_cons_False by (unfold sort_is; congruence). cbn [app]. by rewrite IH.
  - rewrite filter_cons_False, filter_cons_True by (unfold sort_is; by destruct (is_local y)). by rewrite <- Permutation_middle, IH.
Qed.

Lemma names_room_app l l' : names_room (l ++ l') = names_room l + names_room l'.
Proof. induction l as [|n l IH]; cbn [names_room app foldr]; [done|]. unfold names_room in *. cbn. lia. Qed.

Lemma names_room_perm l l' : l ≡ₚ l' -> names_room l = names_room l'.
Proof. unfold names_room. induction 1; cbn; lia. Qed.

Lemma in_order_room e : names_room (by_name <$> in_order e) = names_room (by_name <$> be_symbols e).
Proof. apply names_room_perm. by rewrite in_order_perm. Qed.

(** The symbol table is written, and every symbol has its place in it. *)
Record symtab_ok (e : BinaryEmitter) (bytes index : list Z) (strtab : ElfStrtab) : Prop := {
  so_bytes : exists es, bytes = replicate 24 0 ++ mjoin es /\ Forall2 (entry_ok e strtab) (in_order e) es;
  so_strtab : strtab_ok strtab;
  so_size : st_size strtab = 1 + names_room (by_name <$> be_symbols e);
  so_entered : forall j y, be_symbols e !! j = Some y -> entered (in_order e) index j y
}.

Lemma build_symtab_ok e t h : Forall symbol_fits (be_symbols e) -> section_count e < 0xFF00 -> symbol_count e < 2 ^ 31 -> strtab_ok t -> st_size t = 1 ->
  1 + names_room (by_name <$> be_symbols e) < 2 ^ 32 ->
  gives (Forall (symbol_placed e) (be_symbols e)) (fun r => symtab_ok e (sy_bytes r.1) (sy_index r.1) (sy_strtab r.1) /\ in_u 32 r.2) h
    (elf_build_symtab e (Z.of_nat <$> seq 1 (length (be_sections e))) (replicate (length (be_symbols e)) 0) t h).
Proof.
  intros Hf Hsec Hsym Ht H1 Hroom. rewrite <- in_order_room in Hroom. unfold in_order in Hroom. rewrite fmap_app, names_room_app in Hroom.
  pose proof (names_room_nonneg (by_name <$> filter (sort_is true) (be_symbols e))). pose proof (names_room_nonneg (by_name <$> filter (sort_is false) (be_symbols e))).
  assert (length (in_order e) = length (be_symbols e)) as Hlen by by rewrite in_order_perm. unfold in_order in Hlen. rewrite length_app in Hlen.
  unfold elf_build_symtab. apply gives_alloc. clear h. intros h. unfold symbol_count in *. rewrite (wrapu_small 64) by (unfold in_u; lia).
  set (s0 := mkSymtab _ 1 _ t).
  assert (written_ok e [] s0) as Hw0.
  { constructor; unfold s0; cbn [sy_cursor sy_bytes sy_index sy_strtab]; [done| |done|by rewrite length_replicate]. exists [], (length (be_symbols e)). change (mjoin []) with (@nil Z). cbn [app]. split; [|done].
    rewrite <- replicate_add. f_equal. lia. }
  pose proof (symbol_pass_ok e true _ eq_refl Hsec Hsym Hf (be_symbols e) 0 [] s0 h (fun j y H => H) Hw0) as P.
  eapply gives_bind; [apply P; [cbn; lia|unfold s0; cbn; lia]|]. clear P. intros s1 h1 (P1 & P2 & _ & P4 & P5). cbn [app] in *.
  pose proof (symbol_pass_ok e false _ eq_refl Hsec Hsym Hf (be_symbols e) 0 (filter (sort_is true) (be_symbols e)) s1 h1 (fun j y H => H) P1) as Q.
  eapply gives_bind; [apply Q; [rewrite length_app; lia|rewrite P2; unfold s0; cbn [sy_strtab]; lia]|]. clear Q. intros s2 h2 (Q1 & Q2 & _ & Q4 & Q5).
  apply gives_some. cbn [fst snd]. fold (in_order e) in Q1, Q5. split.
  - constructor.
    + destruct (wo_bytes _ _ _ Q1) as (es & n & Eb & Hes & Hn). exists es. split; [|done]. rewrite Eb. replace n with 0%nat; [by rewrite app_nil_r|].
      unfold in_order in Hn. rewrite length_app in Hn. lia.
    + apply Q1.
    + rewrite Q2, P2. unfold s0. cbn [sy_strtab]. rewrite <- in_order_room. unfold in_order. rewrite fmap_app, names_room_app. lia.
    + intros j y Hj. destruct (is_local y) eqn:El.
      * destruct (P5 j y Hj El) as (k & Hk & Hw). exists k. cbn in Q4. rewrite (Q4 j y Hj) by congruence. split; [done|]. unfold in_order. by apply lookup_app_l_Some.
      * exact (Q5 j y Hj El).
  - destruct (_ >? _); apply wrapu_bound; lia.
Qed.

(** * All of it *)

(** Room for what the file says in words of 16, 32 and 64 bits. *)
Definition sizes_sum (e : BinaryEmitter) : Z := foldr (fun s a => bs_size s + bs_alignment s + a) 0 (be_sections e).
Record elf_fits (e : BinaryEmitter) : Prop := {
  ef_sections : 2 * section_count e + 5 < 0xFF00;
  ef_symbols : symbol_count e < 2 ^ 31 - 1;
  ef_relocations : relocation_count e < 2 ^ 31;
  ef_symbol_names : 1 + names_room (by_name <$> be_symbols e) < 2 ^ 32;
  ef_section_names : names_room (bs_name <$> be_sections e) < 2 ^ 31;
  ef_sizes : sizes_sum e <= 2 ^ 61
}.

(** What can be written as ELF: relocations of kinds that the target has, of
    symbols that are defined, and symbols in sections that exist. *)
Record elf_writable (e : BinaryEmitter) : Prop := {
  ew_supported : Forall (supported (target_format e)) (be_relocations e);
  ew_placed : Forall (symbol_placed e) (be_symbols e);
  ew_defined : Forall (fun r => exists y, y ∈ be_symbols e /\ by_name y = br_symbol_name r) (be_relocations e)
}.

Definition relocation_header_count (e : BinaryEmitter) : nat := length (relocated 0 (section_counts e)).
Definition symtab_number (e : BinaryEmitter) : nat := (S (S (length (be_sections e))) + relocation_header_count e)%nat.

Definition note_header (t : ElfStrtab) (x : ElfSectionHeader) : Prop :=
  has_string t (sh_name_offset x) n_note /\ in_u 32 (sh_name_offset x) /\ x = mkHeader (sh_name_offset x) SHT_PROGBITS 0 0 0 0 0 1 0.

(** The headers of the symbols and of the two string tables. *)
Definition table_headers (e : BinaryEmitter) (strtab shstrtab : ElfStrtab) (x1 x2 x3 : ElfSectionHeader) : Prop :=
  exists first_global, in_u 32 first_global /\
  (has_string shstrtab (sh_name_offset x1) n_symtab /\ in_u 32 (sh_name_offset x1) /\
   x1 = mkHeader (sh_name_offset x1) SHT_SYMTAB 0 0 (24 * (1 + symbol_count e)) (Z.of_nat (S (symtab_number e))) first_global 8 24) /\
  (has_string shstrtab (sh_name_offset x2) n_strtab /\ in_u 32 (sh_name_offset x2) /\ x2 = mkHeader (sh_name_offset x2) SHT_STRTAB 0 0 (st_size strtab) 0 0 1 0) /\
  (has_string shstrtab (sh_name_offset x3) n_shstrtab /\ in_u 32 (sh_name_offset x3) /\ x3 = mkHeader (sh_name_offset x3) SHT_STRTAB 0 0 (st_size shstrtab) 0 0 1 0).

Record tables_ok (e : BinaryEmitter) (t : ElfTables) (cs : list ElfSectionHeader) (note : ElfSectionHeader) (rs : list ElfSectionHeader) (x1 x2 x3 : ElfSectionHeader) : Prop := {
  to_headers : t_headers t = no_header :: place cs 64 ++ note :: place (rs ++ [x1; x2; x3]) (place_end cs 64);
  to_end : t_section_header_offset t = elf_align_up (place_end (rs ++ [x1; x2; x3]) (place_end cs 64)) 8;
  to_contents : Forall2 (content_header (t_shstrtab t)) (be_sections e) cs;
  to_note : note_header (t_shstrtab t) note;
  to_relas : Forall2 (rela_header e (t_shstrtab t) (Z.of_nat (symtab_number e))) (relocated 0 (section_counts e)) rs;
  to_tables : table_headers e (t_strtab t) (t_shstrtab t) x1 x2 x3;
  to_shstrtab_index : t_shstrtab_header_index t = Z.of_nat (S (S (symtab_number e)));
  to_content_shndx : t_content_shndx t = Z.of_nat <$> seq 1 (length (be_sections e));
  to_counts : t_reloc_counts t = section_counts e;
  to_positions : t_rela_shndx t = rela_positions (S (S (length (be_sections e)))) (section_counts e);
  to_symbols : symtab_ok e (t_symtab_bytes t) (t_symbol_symtab_index t) (t_strtab t);
  to_shstrtab : strtab_ok (t_shstrtab t) /\ st_size (t_shstrtab t) < 2 ^ 32;
  to_supported : Forall (supported (target_format e)) (be_relocations e)
}.

Lemma gives_mono {A} (G G' : Prop) (P : A -> Prop) h m : (G' -> G) -> gives G P h m -> gives G' P h m.
Proof. intros HG (res & h' & E & Eh & Hg & HP). exists res, h'. split; [done|]. split; [done|]. split; [auto|done]. Qed.

Lemma gives_ok {A} G (P : A -> Prop) h (a : bool * heap) (k : heap -> outcome (option A * heap)) : heap_grants a.2 = heap_grants h -> (generous h -> a.1 = true) ->
  (forall h, gives G P h (k h)) -> gives G P h (let (ok, h) := a in if negb ok then Ret (None, h) else k h).
Proof.
  intros Eh Hok Hk. destruct a as [ok h1]. cbn [fst snd] in *. destruct ok; cbn [negb].
  - destruct (Hk h1) as (res & h2 & E & Eh2 & Hg & HP). exists res, h2. split; [done|]. split; [congruence|]. split; [|done]. intros Hh. apply Hg. by apply (generous_same h).
  - exists None, h1. split; [done|]. split; [done|]. split; [|done]. intros Hh. by apply Hok in Hh.
Qed.

Lemma section_counts_nonneg e : Forall (Z.le 0) (section_counts e).
Proof. apply Forall_fmap, Forall_true. intros i. unfold count_in. cbn. lia. Qed.
Lemma section_counts_length e : length (section_counts e) = length (be_sections e).
Proof. unfold section_counts. by rewrite length_fmap, length_seq. Qed.
Lemma relocation_header_le e : (relocation_header_count e <= length (be_sections e))%nat.
Proof. rewrite <- section_counts_length. apply relocated_length. Qed.

Lemma name_byte l : forallb (fun c => (0 <? c) && (c <? 256)) l = true -> name_bytes l.
Proof. rewrite forallb_forall. intros H. apply Forall_forall. intros c Hc%list_elem_of_In%H. unfold in_u. lia. Qed.

Lemma relas_in_file e t i ks rs : Forall2 (rela_header e t i) ks rs -> Forall (fun x => in_file x = true /\ sh_addralign x = 8) rs.
Proof. induction 1 as [|k x ks rs (s & _ & _ & _ & ->) _ IH]; [constructor|]. by constructor. Qed.

Lemma tables_last_ok G e cs note symtab first_global t h : emitter_ok e -> elf_fits e -> Forall (supported (target_format e)) (be_relocations e) ->
  Forall2 (content_header t) (be_sections e) cs -> note_header t note -> strtab_ok t -> st_size t <= 1 + names_room (bs_name <$> be_sections e) + 16 ->
  symtab_ok e (sy_bytes symtab) (sy_index symtab) (sy_strtab symtab) -> in_u 32 first_global ->
  gives G (fun r => exists rs x1 x2 x3, tables_ok e r cs note rs x1 x2 x3) h
    (elf_tables_last e (1 + section_count e + counted (section_counts e) + 3 + 1) (no_header :: cs ++ [note]) (Z.of_nat <$> seq 1 (length (be_sections e))) (section_counts e) symtab first_global t h).
Proof.
  intros He Hf Hsup Hcs Hnote Ht Hsize Hsym Hfg. pose proof (Forall2_length _ _ _ Hcs) as Hl. pose proof (relocation_header_le e) as Hrel.
  pose proof (ef_sections _ Hf) as Hn. pose proof (ef_section_names _ Hf) as Hnames. pose proof (names_room_nonneg (bs_name <$> be_sections e)) as Hnn. unfold section_count in *.
  unfold elf_tables_last. rewrite (counted_relocated _ (section_counts_nonneg e) 0). fold (relocation_header_count e).
  assert (length (no_header :: cs ++ [note]) = S (S (length (be_sections e)))) as Hlen by (cbn [length]; rewrite length_app; cbn [length]; lia).
  rewrite Hlen, (wrapu_small 32) by (unfold in_u; lia). replace (Z.of_nat (S (S (length (be_sections e)))) + Z.of_nat (relocation_header_count e)) with (Z.of_nat (symtab_number e)) by (unfold symtab_number; lia).
  set (cap := 1 + _ + _ + 3 + 1).
  eapply gives_bind; [apply (rela_headers_ok _ e cap (Z.of_nat (symtab_number e)) (be_sections e) (eo_sections _ He) (ef_relocations _ Hf) 0 (no_header :: cs ++ [note]) t h)|].
  { done. }
  { done. }
  { lia. }
  { rewrite Hlen. fold (section_counts e) (relocation_header_count e). unfold cap. lia. }
  intros [[hs pos] t1] h1 (rs & E1 & E2 & E3 & E4 & E5 & E6). cbn [fst snd] in *. fold (section_counts e) in *. rewrite section_counts_length in E6. subst hs pos. rewrite Hlen.
  pose proof (Forall2_length _ _ _ E2) as Hlrs. fold (relocation_header_count e) in Hlrs.
  eapply gives_bind; [apply (strtab_add_ok _ t1 n_symtab); [done|by apply name_byte|change (room n_symtab) with 8; lia]|]. intros [o1 t2] h2 (A1 & A2 & A3 & A4 & A5). cbn [fst snd] in *. change (room n_symtab) with 8 in A5.
  set (headers1 := (no_header :: cs ++ [note]) ++ rs) in *. assert (length headers1 = symtab_number e) as Hl1 by (unfold headers1; rewrite length_app, Hlen; unfold symtab_number; lia).
  rewrite add_header_ok by (rewrite Hl1; unfold cap, symtab_number; lia). cbn [obind]. rewrite Hl1.
  unfold symbol_count in *. pose proof (ef_symbols _ Hf) as Hsymc. unfold symbol_count in Hsymc. rewrite !(wrapu_small 64) by (unfold in_u; rewrite ?wrapu_small by (unfold in_u; lia); lia).
  rewrite (wrapu_small 32) by (unfold in_u, symtab_number; lia).
  eapply gives_bind; [apply (strtab_add_ok _ t2 n_strtab); [done|by apply name_byte|change (room n_strtab) with 8; lia]|]. intros [o2 t3] h3 (B1 & B2 & B3 & B4 & B5). cbn [fst snd] in *. change (room n_strtab) with 8 in B5.
  rewrite add_header_ok by (rewrite length_app, Hl1; unfold cap, symtab_number; cbn [length]; lia). cbn [obind].
  eapply gives_bind; [apply (strtab_add_ok _ t3 n_shstrtab); [done|by apply name_byte|change (room n_shstrtab) with 10; lia]|]. intros [o3 t4] h4 (C1 & C2 & C3 & C4 & C5). cbn [fst snd] in *. change (room n_shstrtab) with 10 in C5.
  rewrite add_header_ok by (rewrite !length_app, Hl1; unfold cap, symtab_number; cbn [length]; lia). cbn [obind].
  set (x1 := mkHeader o1 _ _ _ _ _ _ _ _). set (x2 := mkHeader o2 _ _ _ _ _ _ _ _). set (x3 := mkHeader o3 _ _ _ _ _ _ _ _).
  assert (((headers1 ++ [x1]) ++ [x2]) ++ [x3] = no_header :: cs ++ note :: rs ++ [x1; x2; x3]) as ->.
  { unfold headers1. cbn [app]. rewrite <- !app_assoc. done. }
  rewrite !length_app, Hl1. cbn [length].
  pose proof (place_all_ok cs note rs x1 x2 x3 (section_counts e) (eq_sym Hlrs) (relas_in_file _ _ _ _ _ E2) eq_refl eq_refl eq_refl eq_refl eq_refl eq_refl) as E.
  rewrite <- Hlrs, <- Hl in E. replace (Z.of_nat (S (S (length (be_sections e))) + relocation_header_count e + 2)) with (Z.of_nat (symtab_number e + 1 + 1)) in E by (unfold symtab_number; lia).
  rewrite E. cbn [obind]. apply gives_some. exists rs, x1, x2, x3.
  assert (extends t t4) as X by (do 3 (eapply strtab_extends_trans; [eassumption|]); done). assert (extends t1 t4) as X1 by (do 2 (eapply strtab_extends_trans; [eassumption|]); done).
  constructor; cbn [t_headers t_section_header_offset t_shstrtab t_strtab t_shstrtab_header_index t_content_shndx t_reloc_counts t_rela_shndx t_symtab_bytes t_symbol_symtab_index]; try done.
  - eapply Forall2_impl; [exact Hcs|]. intros s x. by apply (content_header_extends t t4).
  - destruct Hnote as (N1 & N2). split; [by apply (extends_string t t4)|done].
  - eapply Forall2_impl; [exact E2|]. intros k x. by apply (rela_header_extends e t1 t4).
  - exists first_global. split; [done|]. split; [|split].
    + split; [apply (extends_string t2 t4); [by apply (strtab_extends_trans t2 t3)|done]|]. split; [done|]. unfold x1. cbn [sh_name_offset]. f_equal; [unfold symbol_count; lia|lia].
    + split; [by apply (extends_string t3 t4)|done].
    + done.
  - lia.
  - split; [done|]. lia.
Qed.

Lemma tables_headers_ok e t1 t2 h : emitter_ok e -> elf_fits e -> Forall (supported (target_format e)) (be_relocations e) ->
  strtab_ok t1 /\ st_size t1 = 1 -> strtab_ok t2 /\ st_size t2 = 1 ->
  gives (Forall (symbol_placed e) (be_symbols e)) (fun r => exists cs note rs x1 x2 x3, tables_ok e r cs note rs x1 x2 x3) h
    (elf_tables_headers e (section_counts e) (replicate (length (be_symbols e)) 0) t1 t2 h).
Proof.
  intros He Hf Hsup [Ht1 Hs1] [Ht2 Hs2]. pose proof (ef_sections _ Hf) as Hn. pose proof (ef_section_names _ Hf) as Hnames. pose proof (names_room_nonneg (bs_name <$> be_sections e)) as Hnn.
  pose proof (relocation_header_le e) as Hrel. unfold section_count in Hn.
  unfold elf_tables_headers. cbv zeta. apply gives_alloc. clear h. intros h. set (cap := 1 + section_count e + counted (section_counts e) + 3 + 1).
  assert (cap = 5 + Z.of_nat (length (be_sections e) + relocation_header_count e)) as Hcap.
  { unfold cap. rewrite (counted_relocated _ (section_counts_nonneg e) 0). unfold section_count, relocation_header_count. lia. }
  rewrite add_header_ok by (cbn [length]; lia). cbn [obind app].
  eapply gives_bind; [apply (content_headers_ok _ cap (be_sections e) (eo_sections _ He) [no_header] t1 h); [done|lia|cbn [length]; lia|lia]|].
  intros [[hs shndx] t3] h1 (cs & E1 & E2 & E3 & E4 & E5 & E6). cbn [fst snd app length] in *. subst hs shndx. pose proof (Forall2_length _ _ _ E2) as Hl.
  eapply gives_bind; [apply (strtab_add_ok _ t3 n_note); [done|by apply name_byte|change (room n_note) with 16; lia]|]. intros [o t4] h2 (A1 & A2 & A3 & A4 & A5). cbn [fst snd] in *. change (room n_note) with 16 in A5.
  rewrite add_header_ok by (cbn [length]; lia). cbn [obind app].
  eapply gives_bind; [apply (build_symtab_ok e t2 h2 (eo_symbols _ He)); [unfold section_count; lia|pose proof (ef_symbols _ Hf); lia|done|done|apply (ef_symbol_names _ Hf)]|].
  intros [symtab fg] h3 [Hsym Hfg]. cbn [fst snd] in *.
  eapply gives_weaken; [apply (tables_last_ok _ e cs _ symtab fg t4 h3 He Hf Hsup); try done|].
  - eapply Forall2_impl; [exact E2|]. intros s x. by apply (content_header_extends t3 t4).
  - lia.
  - intros r (rs & x1 & x2 & x3 & Hok). by exists cs, (mkHeader o SHT_PROGBITS 0 0 0 0 0 1 0), rs, x1, x2, x3.
Qed.

(** The tables describe the emitter. *)
Lemma elf_tables_ok e h : emitter_ok e -> elf_fits e -> gives (elf_writable e) (fun r => exists cs note rs x1 x2 x3, tables_ok e r cs note rs x1 x2 x3) h (elf_tables e h).
Proof.
  intros He Hf. unfold elf_tables.
  eapply gives_bind; [apply strtab_init_ok|]. intros t1 h1 H1. eapply gives_bind; [apply strtab_init_ok|]. intros t2 h2 H2.
  apply gives_ok; [by destruct (0 <? section_count e)|intros Hh; destruct (0 <? section_count e); [|done]; unfold alloc_three, alloc; cbn; by rewrite !Hh|]. clear h2. intros h2.
  apply gives_ok; [by destruct (0 <? symbol_count e)|intros Hh; destruct (0 <? symbol_count e); [|done]; apply Hh|]. clear h2. intros h2.
  destruct (counts_ok e He) as (res & -> & Hne & Hres). cbn [obind]. destruct res as [c|].
  - destruct (Hres c eq_refl) as [Hsup ->]. eapply gives_mono; [|by apply tables_headers_ok]. apply ew_placed.
  - apply gives_none. intros Hw. by apply Hne; [apply Hw|].
Qed.
End ElfHeaders.
