(* ===== verification/ElfWrite.v ===== *)
(** Writing an ELF object: every block is in the file at the offset that its
    header gives. *)
From S2P Require Import Prelude LinkObjects LinkBytes LinkObjectsCorrect BinaryEmitter BinaryEmitterCorrect ElfEmitter ElfTables ElfHeaders.
#[local] Open Scope Z_scope.

Module ElfWrite.
Import LinkBytes LinkObjectsCorrect BinaryEmitter BinaryEmitterCorrect ElfEmitter ElfTables ElfHeaders.

(** * Steps of writing *)

Definition wrote {A} (G : Prop) (P : A -> Prop) (m : outcome (option A)) : Prop :=
  exists res, m = Ret res /\ (G -> res <> None) /\ forall x, res = Some x -> P x.

Lemma wrote_some {A} G (P : A -> Prop) x : P x -> wrote G P (Ret (Some x)).
Proof. intros H. exists (Some x). split; [done|]. split; [done|]. by intros y [= <-]. Qed.
Lemma wrote_none {A} G (P : A -> Prop) : ~ G -> wrote G P (Ret None).
Proof. intros H. by exists None. Qed.

Lemma wrote_bind {A B} G (P : A -> Prop) (Q : B -> Prop) m k : wrote G P m -> (forall x, P x -> wrote G Q (k x)) -> wrote G Q (next m k).
Proof.
  intros (res & -> & Hg & HP) Hk. unfold next. cbn [obind]. destruct res as [x|]; [by apply Hk, HP|]. apply wrote_none. intros HG. by destruct (Hg HG).
Qed.

Lemma wrote_weaken {A} G (P Q : A -> Prop) m : wrote G P m -> (forall x, P x -> Q x) -> wrote G Q m.
Proof. intros (res & E & Hg & HP) H. exists res. split; [done|]. split; [done|]. intros x Hx. by apply H, HP. Qed.

(** * Blocks of a file *)

(** The file has the bytes at the offset. *)
Definition holds (file : list Z) (offset : Z) (bs : list Z) : Prop := exists pre post, file = pre ++ bs ++ post /\ offset = Z.of_nat (length pre).

(** The file goes on. *)
Definition continues (file file' : list Z) : Prop := exists l, file' = file ++ l.

Lemma continues_refl f : continues f f.
Proof. exists []. by rewrite app_nil_r. Qed.
Lemma continues_trans f1 f2 f3 : continues f1 f2 -> continues f2 f3 -> continues f1 f3.
Proof. intros [l1 E1] [l2 E2]. exists (l1 ++ l2). by rewrite E2, E1, app_assoc. Qed.
Lemma continues_holds f f' o bs : continues f f' -> holds f o bs -> holds f' o bs.
Proof. intros [l E] (pre & post & E1 & Eo). exists pre, (post ++ l). split; [|done]. rewrite E, E1. by rewrite <- !app_assoc. Qed.

Lemma holds_app f o a b : holds f o (a ++ b) <-> holds f o a /\ holds f (o + Z.of_nat (length a)) b.
Proof.
  split.
  - intros (pre & post & E & Eo). split; [exists pre, (b ++ post); by rewrite E, <- !app_assoc|]. exists (pre ++ a), post. rewrite E, <- !app_assoc, length_app. split; [done|lia].
  - intros [(pre & post & E & Eo) (pre2 & post2 & E2 & Eo2)]. exists pre, post2. split; [|done]. rewrite E in E2. rewrite app_assoc in E2.
    apply app_inj_1 in E2 as [E3 E4]; [|rewrite length_app; lia]. rewrite E, E4, <- !app_assoc. done.
Qed.

Lemma holds_bytes f o bs (k : nat) b : holds f o bs -> bs !! k = Some b -> f !! Z.to_nat (o + Z.of_nat k) = Some b.
Proof.
  intros (pre & post & -> & ->) Hk. replace (Z.to_nat (Z.of_nat (length pre) + Z.of_nat k)) with (length pre + k)%nat by lia.
  rewrite lookup_app_r by lia. replace (length pre + k - length pre)%nat with k by lia. by apply lookup_app_l_Some.
Qed.

Lemma holds_range f o bs : holds f o bs -> 0 <= o /\ o + Z.of_nat (length bs) <= Z.of_nat (length f).
Proof. intros (pre & post & -> & ->). rewrite !length_app. lia. Qed.

Definition words_bytes (ws : list (nat * Z)) : list Z := mjoin ((fun w => word_bytes w.1 w.2) <$> ws).

Lemma word_bytes_length n v : length (word_bytes n v) = n.
Proof. unfold word_bytes. by rewrite length_fmap, length_seq. Qed.

Lemma words_bytes_ok ws : bytes_ok (words_bytes ws).
Proof. unfold words_bytes. induction ws as [|[n v] ws IH]; [constructor|]. apply Forall_app. split; [apply word_bytes_u8|exact IH]. Qed.

(** * Writing a block *)

Section Disk.
Context (accepts : list Z -> list Z -> bool) (G : Prop).
Context (room : G -> forall file data, accepts file data = true).

Lemma write_all_ok file data : wrote G (eq (file ++ data)) (Ret (elf_write_all accepts file data)).
Proof using room.
  unfold elf_write_all. destruct data as [|b data]; [apply wrote_some; by rewrite app_nil_r|]. destruct (accepts file (b :: data)) eqn:E; [by apply wrote_some|].
  apply wrote_none. intros HG. by rewrite room in E.
Qed.

Lemma write_words_ok ws : forall file, wrote G (eq (file ++ words_bytes ws)) (Ret (write_words accepts file ws)).
Proof using room.
  induction ws as [|[n v] ws IH]; intros file; cbn [write_words]; [apply wrote_some; by rewrite app_nil_r|].
  destruct (write_all_ok file (word_bytes n v)) as (res & E & Hg & H). injection E as E. rewrite E. destruct res as [f|]; cbn [mbind option_bind].
  - rewrite <- (H f eq_refl). eapply wrote_weaken; [apply IH|]. intros x <-. by rewrite <- app_assoc.
  - apply wrote_none. intros HG. by destruct (Hg HG).
Qed.

Lemma pad_loop_ok fuel : forall file current target, Z.of_nat (length file) = current -> 0 <= current -> (0 < fuel)%nat -> target - current < Z.of_nat fuel ->
  wrote G (eq (file ++ replicate (Z.to_nat (target - current)) 0)) (pad_loop accepts fuel file current target).
Proof using room.
  induction fuel as [|fuel IH]; intros file current target Hl Hc Hpos Hf; cbn [pad_loop]; [lia|].
  destruct (Z.ltb_spec current target).
  2:{ rewrite Z2Nat.nonpos by lia. apply wrote_some. by rewrite app_nil_r. }
  set (chunk := if _ >? _ then _ else _). assert (0 < chunk <= target - current) as Hchunk by (unfold chunk; destruct (Z.gtb_spec (target - current) 16); lia).
  destruct (write_all_ok file (replicate (Z.to_nat chunk) 0)) as (res & E & Hg & H1). injection E as E. rewrite E. destruct res as [f|].
  2:{ apply wrote_none. intros HG. by destruct (Hg HG). }
  rewrite <- (H1 f eq_refl). eapply wrote_weaken; [apply (IH _ (current + chunk) target); [rewrite length_app, length_replicate; lia|lia|lia|lia]|].
  intros x <-. rewrite <- app_assoc, <- replicate_add. do 2 f_equal. lia.
Qed.

(** The state of a file being written: [n] bytes so far. *)
Definition upto (file : list Z) (n : Z) : Prop := Z.of_nat (length file) = n /\ bytes_ok file.

Lemma pad_to_ok file n target : upto file n -> n <= target -> wrote G (fun file' => continues file file' /\ upto file' target) (elf_pad_to accepts file n target).
Proof using room.
  intros [Hl Hb] Hn. unfold elf_pad_to. eapply wrote_weaken; [apply pad_loop_ok; lia|]. intros x <-. split; [by eexists|]. split; [rewrite length_app, length_replicate; lia|].
  apply Forall_app. split; [done|]. by apply Forall_replicate.
Qed.

Lemma write_block_ok file n offset data : upto file n -> n <= offset -> bytes_ok data -> offset + Z.of_nat (length data) < 2 ^ 64 ->
  wrote G (fun r => continues file r.1 /\ upto r.1 r.2 /\ r.2 = offset + Z.of_nat (length data) /\ holds r.1 offset data) (write_block accepts file n offset data).
Proof using room.
  intros Hf Hn Hd Ho. unfold write_block. destruct (pad_to_ok file n offset Hf Hn) as (res & -> & Hg & H1). cbn [obind].
  destruct res as [f|]; cbn [mbind option_bind]; [|apply wrote_none; intros HG; by destruct (Hg HG)]. destruct (H1 f eq_refl) as [Hc [Hl Hb]].
  destruct (write_all_ok f data) as (res & E & Hg2 & H2). injection E as E. rewrite E. destruct res as [f2|]; cbn [mbind option_bind]; [|apply wrote_none; intros HG; by destruct (Hg2 HG)].
  rewrite <- (H2 f2 eq_refl). apply wrote_some. cbn [fst snd]. rewrite wrapu_small by (unfold in_u; lia).
  split; [eapply continues_trans; [exact Hc|by eexists]|]. split; [split; [rewrite length_app; lia|by apply Forall_app]|]. split; [done|].
  exists f, []. by rewrite app_nil_r.
Qed.
End Disk.

(** * Offsets *)

(** The blocks of the headers follow each other between two offsets. *)
Fixpoint chain (n : Z) (xs : list ElfSectionHeader) (m : Z) : Prop :=
  match xs with [] => n <= m | x :: xs => if in_file x then n <= sh_offset x /\ chain (sh_offset x + sh_size x) xs m else chain n xs m end.

Lemma chain_app n xs ys m : chain n (xs ++ ys) m -> exists k, chain n xs k /\ chain k ys m.
Proof.
  revert n. induction xs as [|x xs IH]; intros n H; cbn [chain app] in *; [exists n; by split; [lia|]|].
  destruct (in_file x); [destruct H as [H1 H2]; destruct (IH _ H2) as (k & ? & ?); by exists k|by apply IH].
Qed.

Lemma chain_le xs : Forall (fun x => 0 <= sh_size x) xs -> forall n m, chain n xs m -> n <= m.
Proof.
  induction 1 as [|x xs Hx _ IH]; intros n m H; cbn [chain] in *; [done|]. destruct (in_file x); [destruct H as [H1 H2%IH]; lia|by apply IH].
Qed.

Lemma chain_bound xs : Forall (fun x => 0 <= sh_size x) xs -> forall n m x, chain n xs m -> x ∈ xs -> in_file x = true -> n <= sh_offset x /\ sh_offset x + sh_size x <= m.
Proof.
  induction 1 as [|y xs Hy Hxs IH]; intros n m x H Hin Hx; [by apply not_elem_of_nil in Hin|]. cbn [chain] in H. apply elem_of_cons in Hin as [->|Hin].
  - rewrite Hx in H. destruct H as [H1 H2]. apply (chain_le _ Hxs) in H2. lia.
  - destruct (in_file y); [destruct H as [H1 H2]; destruct (IH _ _ _ H2 Hin Hx); lia|by eapply IH].
Qed.

Definition need (xs : list ElfSectionHeader) : Z := foldr (fun x a => (if in_file x then sh_size x + sh_addralign x else 0) + a) 0 xs.

Lemma need_app xs ys : need (xs ++ ys) = need xs + need ys.
Proof. unfold need. induction xs as [|x xs IH]; cbn [foldr app]; lia. Qed.

Lemma align_up_bound off a : 0 <= off -> 0 <= a -> off + a < 2 ^ 64 -> off <= elf_align_up off a <= off + a.
Proof.
  intros Ho Ha Hs. unfold elf_align_up. destruct (Z.leb_spec a 1); [lia|]. pose proof (Z.mod_pos_bound off a ltac:(lia)).
  destruct (Z.eqb_spec (off mod a) 0); cbn [negb]; [lia|]. rewrite wrapu_small by (unfold in_u; lia). lia.
Qed.

Lemma place_chain xs : Forall (fun x => 0 <= sh_size x /\ 0 <= sh_addralign x) xs -> forall off, 0 <= off -> off + need xs < 2 ^ 63 ->
  chain off (place xs off) (place_end xs off) /\ off <= place_end xs off <= off + need xs.
Proof.
  induction 1 as [|x xs [H1 H2] Hxs IH]; intros off Ho Hn; cbn [place place_end chain]; [cbn; lia|]. change (need (x :: xs)) with ((if in_file x then sh_size x + sh_addralign x else 0) + need xs) in *.
  assert (0 <= need xs) as Hpos.
  { clear -Hxs. unfold need. induction Hxs as [|y ys [? ?] _ IH]; cbn [foldr]; [done|]. destruct (in_file y); lia. }
  destruct (in_file x) eqn:Ex.
  - pose proof (align_up_bound off (sh_addralign x) Ho H2 ltac:(lia)). rewrite wrapu_small by (unfold in_u; lia).
    destruct (IH (elf_align_up off (sh_addralign x) + sh_size x)) as [Hc He]; [lia|lia|]. cbn [chain]. change (in_file (with_offset _ x)) with (in_file x). rewrite Ex.
    cbn [sh_offset sh_size with_offset]. split; [split; [lia|exact Hc]|lia].
  - destruct (IH off) as [Hc He]; [lia|lia|]. cbn [chain]. change (in_file (with_offset _ x)) with (in_file x). rewrite Ex. split; [exact Hc|lia].
Qed.

(** * The loops *)

(** A block of the file with a header. *)
Definition stored (file : list Z) (x : ElfSectionHeader) (data : list Z) : Prop := in_file x = true -> holds file (sh_offset x) data.

Lemma stored_continues f f' x d : continues f f' -> stored f x d -> stored f' x d.
Proof. intros Hc H Hx. by eapply continues_holds, H. Qed.

Section Loops.
Context (accepts : list Z -> list Z -> bool) (G : Prop).
Context (room : G -> forall file data, accepts file data = true).

Lemma write_contents_ok headers ss xs : Forall2 (fun s x => bytes_ok (bs_data s) /\ (in_file x = true -> sh_size x = bs_size s)) ss xs ->
  forall p file n m, (forall j x, xs !! j = Some x -> headers !! (p + j)%nat = Some x) -> upto file n -> chain n xs m -> m < 2 ^ 63 ->
  wrote G (fun r => continues file r.1 /\ upto r.1 r.2 /\ n <= r.2 <= m /\ Forall2 (fun s x => stored r.1 x (bs_data s)) ss xs)
    (write_contents accepts headers ss (Z.of_nat <$> seq p (length ss)) file n).
Proof using room.
  induction 1 as [|s x ss xs [Hb Hx] Hall IH]; intros p file n m Hin Hf Hc Hm; cbn [write_contents length seq fmap list_fmap].
  { apply wrote_some. cbn in *. split; [apply continues_refl|]. split; [done|]. split; [lia|constructor]. }
  assert (forall j y, xs !! j = Some y -> headers !! (S p + j)%nat = Some y) as Hin' by (intros j y Hj; rewrite Nat.add_succ_comm; by apply Hin).
  pose proof (Hin 0%nat x eq_refl) as H0. rewrite Nat.add_0_r in H0. rewrite (get_nat _ _ _ H0). cbn [obind]. cbn [chain] in Hc.
  assert (Forall (fun y => 0 <= sh_size y) (filter (fun y => in_file y = true) xs)) as _ by (apply Forall_forall; intros y [Hy Hi]%list_elem_of_filter;
    apply list_elem_of_lookup in Hi as [j Hj]; destruct (Forall2_lookup_r _ _ _ _ _ Hall Hj) as (z & _ & _ & Hz); rewrite Hz by done; unfold bs_size; lia).
  unfold in_file in *. destruct (sh_type x =? SHT_NOBITS) eqn:Et; cbn [negb] in *.
  - eapply wrote_weaken; [by apply (IH (S p) file n m)|]. intros [f w] (H1 & H2 & H3 & H4). cbn [fst snd] in *. split; [done|]. split; [done|]. split; [done|].
    constructor; [|done]. intros Hf'. unfold in_file in Hf'. by rewrite Et in Hf'.
  - destruct Hc as [Hc1 Hc2]. specialize (Hx eq_refl). rewrite Hx in Hc2. destruct Hf as [Hlen Hbytes].
    assert (forall k n, chain n xs k -> n <= k) as Hle.
    { clear -Hall. induction Hall as [|s x ss xs [_ Hx] _ IH]; intros k n Hc; cbn [chain] in Hc; [done|]. destruct (in_file x) eqn:E; [|by apply IH].
      destruct Hc as [H1 H2%IH]. unfold in_file in E. rewrite Hx in H2 by done. unfold bs_size in H2. lia. }
    pose proof (Hle _ _ Hc2) as Hle2. unfold bs_size in *.
    eapply wrote_bind; [apply (write_block_ok accepts G room file n (sh_offset x) (bs_data s)); [done|done|done|lia]|].
    intros [f w] (H1 & H2 & H3 & H4). cbn [fst snd] in *. rewrite H3 in *.
    eapply wrote_weaken; [by apply (IH (S p) f _ m)|]. intros [f2 w2] (K1 & K2 & K3 & K4). cbn [fst snd] in *.
    split; [by eapply continues_trans|]. split; [done|]. split; [lia|]. constructor; [|done]. intros _. by eapply continues_holds.
Qed.

(** ** Relocations *)

Definition reloc_entry (e : BinaryEmitter) (r : BinaryRelocation) (bs : list Z) : Prop :=
  exists y k type addend, elf_map_relocation (target_format e) (br_kind r) = Some (type, addend) /\ in_order e !! k = Some y /\ by_name y = br_symbol_name r /\
    bs = words_bytes [(8%nat, br_offset r); (8%nat, ELF64_R_INFO (Z.of_nat (S k)) type); (8%nat, addend + br_addend r)].

Lemma reloc_entry_length e r bs : reloc_entry e r bs -> length bs = 24%nat.
Proof. by intros (y & k & type & addend & _ & _ & _ & ->). Qed.

Lemma write_relocations_ok e index i rs : emitter_ok e -> symbol_count e < 2 ^ 31 -> Forall (supported (target_format e)) rs ->
  (forall j y, be_symbols e !! j = Some y -> entered (in_order e) index j y) ->
  (G -> Forall (fun r => exists y, y ∈ be_symbols e /\ by_name y = br_symbol_name r) rs) ->
  forall file n, upto file n -> 0 <= n -> n + 24 * count_in rs i < 2 ^ 63 ->
  wrote G (fun r => exists es, Forall2 (reloc_entry e) (filter (in_section (Z.of_nat i)) rs) es /\ r.1 = file ++ mjoin es /\ upto r.1 r.2 /\ r.2 = n + 24 * count_in rs i)
    (write_relocations accepts e index (Z.of_nat i) rs file n).
Proof using room.
  intros He Hsym. induction 1 as [|r rs Hsup _ IH]; intros Hent Hdef file n Hf Hn Hm; cbn [write_relocations].
  { apply wrote_some. exists []. cbn [fst snd]. change (count_in [] i) with 0. rewrite app_nil_r. split; [constructor|]. split; [done|]. split; [done|lia]. }
  assert (G -> Forall (fun r => exists y, y ∈ be_symbols e /\ by_name y = br_symbol_name r) rs) as Hdef' by by intros HG; apply Hdef, Forall_cons in HG as [_ HG].
  unfold count_in in *. destruct (Z.eqb_spec (br_section_index r) (Z.of_nat i)) as [Ei|Ei]; cbn [negb].
  2:{ rewrite filter_cons_False in * by done. by apply IH. }
  rewrite filter_cons_True in * by done. cbn [length] in *. unfold supported in Hsup.
  destruct (elf_map_relocation (target_format e) (br_kind r)) as [[type addend]|] eqn:Em; [|done].
  destruct (find_symbol_index_ok e (br_symbol_name r) He) as (found & -> & Hfound); [unfold symbol_count in Hsym; lia|]. cbn [obind]. destruct found as [j|].
  2:{ cbn [Z.ltb Z.compare]. apply wrote_none. intros HG. apply Hdef, Forall_cons in HG as [(y & Hy & Hname) _]. by apply (Hfound y). }
  destruct Hfound as (y & Hy & Hname). rewrite (proj2 (Z.ltb_ge _ _)) by lia. destruct (Hent j y Hy) as (k & Hk & Hw). rewrite (get_nat _ _ _ Hk). cbn [obind].
  eapply wrote_bind; [by apply write_words_ok|]. intros f <-. set (ws := [_; _; _]).
  assert (length (words_bytes ws) = 24%nat) as Hlen by done. destruct Hf as [Hl Hb]. rewrite (wrapu_small 64) by (unfold in_u; lia).
  eapply wrote_weaken; [apply (IH Hent Hdef' (file ++ words_bytes ws) (n + 24)); [split; [rewrite length_app; lia|apply Forall_app; split; [done|apply words_bytes_ok]]|lia|lia]|].
  intros [f w] (es & E1 & E2 & E3 & E4). cbn [fst snd] in *. exists (words_bytes ws :: es). split; [constructor; [|done]; by exists y, k, type, addend|].
  change (mjoin (words_bytes ws :: es)) with (words_bytes ws ++ mjoin es). rewrite app_assoc. split; [done|]. split; [done|lia].
Qed.

(** The relocations of the section [k] are in the file. *)
Definition relas_stored (e : BinaryEmitter) (file : list Z) (k : nat) (x : ElfSectionHeader) : Prop :=
  exists es, holds file (sh_offset x) (mjoin es) /\ Forall2 (reloc_entry e) (filter (in_section (Z.of_nat k)) (be_relocations e)) es.

Lemma relas_stored_continues e f f' k x : continues f f' -> relas_stored e f k x -> relas_stored e f' k x.
Proof. intros Hc (es & H & Hes). exists es. split; [by eapply continues_holds|done]. Qed.

Lemma entries_bytes e rs es : Forall2 (reloc_entry e) rs es -> bytes_ok (mjoin es) /\ length (mjoin es) = (24 * length rs)%nat.
Proof.
  induction 1 as [|r bs rs es Hr _ [IH1 IH2]]; [split; [constructor|done]|]. change (mjoin (bs :: es)) with (bs ++ mjoin es).
  split; [apply Forall_app; split; [|done]|rewrite length_app, (reloc_entry_length _ _ _ Hr); cbn [length]; lia].
  destruct Hr as (y & k & type & addend & _ & _ & _ & ->). apply words_bytes_ok.
Qed.

Lemma write_rela_sections_ok e t : emitter_ok e -> symbol_count e < 2 ^ 31 -> Forall (supported (target_format e)) (be_relocations e) ->
  (forall j y, be_symbols e !! j = Some y -> entered (in_order e) (t_symbol_symtab_index t) j y) ->
  (G -> Forall (fun r => exists y, y ∈ be_symbols e /\ by_name y = br_symbol_name r) (be_relocations e)) ->
  forall c k p xs file n m, Forall2 (fun k x => in_file x = true /\ sh_size x = 24 * count_in (be_relocations e) k) (relocated k (count_in (be_relocations e) <$> seq k c)) xs ->
  (forall j x, xs !! j = Some x -> t_headers t !! (p + j)%nat = Some x) -> upto file n -> 0 <= n -> chain n xs m -> m < 2 ^ 63 ->
  wrote G (fun r => continues file r.1 /\ upto r.1 r.2 /\ n <= r.2 <= m /\ Forall2 (relas_stored e r.1) (relocated k (count_in (be_relocations e) <$> seq k c)) xs)
    (write_rela_sections accepts e t (count_in (be_relocations e) <$> seq k c) (rela_positions p (count_in (be_relocations e) <$> seq k c)) (Z.of_nat k) file n).
Proof using room.
  intros He Hsym Hsup Hent Hdef. induction c as [|c IH]; intros k p xs file n m Hxs Hin Hf Hn Hc Hm; cbn [seq fmap list_fmap relocated rela_positions write_rela_sections] in *.
  { inversion Hxs; subst. apply wrote_some. cbn in *. split; [apply continues_refl|]. split; [done|]. split; [lia|constructor]. }
  replace (Z.of_nat k + 1) with (Z.of_nat (S k)) by lia.
  destruct (Z.eqb_spec (count_in (be_relocations e) k) 0) as [E|E]; cbn [write_rela_sections].
  { by apply (IH (S k) p). }
  inversion Hxs as [|? x ? xs' [Hx Hsize] Hxs']; subst. cbn [chain] in Hc. rewrite Hx in Hc. destruct Hc as [Hc1 Hc2].
  assert (forall j y, xs' !! j = Some y -> t_headers t !! (S p + j)%nat = Some y) as Hin' by (intros j y Hj; rewrite Nat.add_succ_comm; by apply Hin).
  pose proof (Hin 0%nat x eq_refl) as H0. rewrite Nat.add_0_r in H0. rewrite (get_nat _ _ _ H0). cbn [obind]. rewrite Hsize in Hc2.
  assert (sh_offset x + 24 * count_in (be_relocations e) k <= m) as Hle.
  { eapply chain_le; [|exact Hc2]. clear -Hxs'. apply Forall_forall. intros y Hy. apply list_elem_of_lookup in Hy as [j Hj]. destruct (Forall2_lookup_r _ _ _ _ _ Hxs' Hj) as (i & _ & _ & ->). unfold count_in. lia. }
  eapply wrote_bind; [by apply (pad_to_ok accepts G room file n (sh_offset x))|]. intros f [Hf1 Hf2].
  eapply wrote_bind; [apply (write_relocations_ok e _ k (be_relocations e) He Hsym Hsup Hent Hdef f (sh_offset x)); [done|lia|lia]|].
  intros [f2 w2] (es & E1 & E2 & E3 & E4). cbn [fst snd] in *. subst f2 w2.
  eapply wrote_weaken; [apply (IH (S k) (S p) xs' _ _ m Hxs' Hin' E3); [unfold count_in; lia|exact Hc2|exact Hm]|].
  intros [f3 w3] (K1 & K2 & K3 & K4). cbn [fst snd] in *. split; [eapply continues_trans; [exact Hf1|]; eapply continues_trans; [by eexists|exact K1]|]. split; [done|].
  split; [unfold count_in in *; lia|]. constructor; [|done]. exists es. split; [|done]. eapply continues_holds; [exact K1|]. exists f, []. rewrite app_nil_r. split; [done|]. by destruct Hf2.
Qed.

(** ** Headers *)

Lemma header_bytes_length x : length (words_bytes (header_words x)) = 64%nat.
Proof. done. Qed.

Lemma write_headers_ok headers : forall i file n, upto file n ->
  wrote G (fun f => continues file f /\ upto f (n + 64 * Z.of_nat (length headers)) /\
    forall j x, headers !! j = Some x -> holds f (n + 64 * Z.of_nat j) (words_bytes (header_words (if ((i + j)%nat =? 0)%nat then no_header else x)))) (Ret (write_headers accepts headers i file)).
Proof using room.
  induction headers as [|x headers IH]; intros i file n Hf; cbn [write_headers length].
  { apply wrote_some. rewrite Z.add_0_r. split; [apply continues_refl|]. split; [done|]. by intros j x. }
  set (y := if (i =? 0)%nat then no_header else x).
  destruct (write_words_ok accepts G room (header_words y) file) as (res & E & Hg & H). apply Ret_inj in E. rewrite E. destruct res as [f|]; cbn [mbind option_bind].
  2:{ apply wrote_none. intros HG. by destruct (Hg HG). }
  specialize (H f eq_refl). destruct Hf as [Hl Hb]. assert (upto f (n + 64)) as Hf.
  { rewrite <- H. split; [rewrite length_app, header_bytes_length; lia|apply Forall_app; split; [done|apply words_bytes_ok]]. }
  eapply wrote_weaken; [apply (IH (S i) f (n + 64) Hf)|]. intros f2 (H1 & H2 & H3). split; [eapply continues_trans; [|exact H1]; subst f; by eexists|].
  split; [replace (n + 64 * Z.of_nat (S (length headers))) with (n + 64 + 64 * Z.of_nat (length headers)) by lia; done|].
  intros [|j] z Hj.
  - injection Hj as <-. rewrite Nat.add_0_r. fold y. eapply continues_holds; [exact H1|]. exists file, []. rewrite app_nil_r. split; [done|lia].
  - replace (n + 64 * Z.of_nat (S j)) with (n + 64 + 64 * Z.of_nat j) by lia. rewrite <- Nat.add_succ_comm. by apply H3.
Qed.

Lemma write_table_ok t p x data file n m : t_headers t !! p = Some x -> in_file x = true -> sh_size x = Z.of_nat (length data) -> bytes_ok data -> upto file n -> chain n [x] m -> m < 2 ^ 63 ->
  wrote G (fun r => continues file r.1 /\ upto r.1 r.2 /\ r.2 = sh_offset x + sh_size x /\ holds r.1 (sh_offset x) data) (write_table accepts t (Z.of_nat p) data file n).
Proof using room.
  intros Hp Hx Hs Hd Hf Hc Hm. unfold write_table. rewrite (get_nat _ _ _ Hp). cbn [obind]. cbn [chain] in Hc. rewrite Hx in Hc. destruct Hc as [H1 H2]. rewrite Hs in *.
  apply write_block_ok; [done|done|done|done|lia].
Qed.
End Loops.
End ElfWrite.
