(* ===== verification/ElfFile.v ===== *)
(** The ELF object that is written: where its headers and blocks are. *)
From S2P Require Import Prelude LinkObjects LinkBytes LinkObjectsCorrect BinaryEmitter BinaryEmitterCorrect ElfEmitter ElfTables ElfHeaders ElfWrite.
#[local] Open Scope Z_scope.

Module ElfFile.
Import LinkBytes LinkObjectsCorrect BinaryEmitter BinaryEmitterCorrect ElfEmitter ElfTables ElfHeaders ElfWrite.

(** * Sizes *)

Definition sized (x : ElfSectionHeader) : Prop := 0 <= sh_size x /\ 0 <= sh_addralign x.

Lemma need_bound B xs : Forall (fun x => 0 <= sh_size x + sh_addralign x <= B) xs -> 0 <= need xs <= B * Z.of_nat (length xs).
Proof.
  induction 1 as [|x xs Hx _ IH]; [cbn; lia|]. change (need (x :: xs)) with ((if in_file x then sh_size x + sh_addralign x else 0) + need xs). cbn [length]. destruct (in_file x); lia.
Qed.

Lemma place_offsets xs : Forall sized xs -> forall off, 0 <= off -> off + need xs < 2 ^ 63 -> Forall (fun x => 0 <= sh_offset x < 2 ^ 63) (place xs off).
Proof.
  induction 1 as [|x xs [H1 H2] Hxs IH]; intros off Ho Hn; cbn [place]; [constructor|]. change (need (x :: xs)) with ((if in_file x then sh_size x + sh_addralign x else 0) + need xs) in *.
  assert (0 <= need xs) as Hpos.
  { clear -Hxs. unfold need. induction Hxs as [|y ys [? ?] _ IH]; cbn [foldr]; [done|]. destruct (in_file y); lia. }
  destruct (in_file x).
  - pose proof (align_up_bound off (sh_addralign x) Ho H2 ltac:(lia)). rewrite wrapu_small by (unfold in_u; lia).
    constructor; [cbn [sh_offset with_offset]; lia|apply IH; lia].
  - constructor; [cbn [sh_offset with_offset]; lia|apply IH; lia].
Qed.

(** Placing a header changes its offset only. *)
Lemma place_lookup xs : forall off j x, place xs off !! j = Some x -> exists y, xs !! j = Some y /\ x = with_offset (sh_offset x) y.
Proof.
  induction xs as [|y xs IH]; intros off j x H; cbn [place] in H; [done|]. destruct (in_file y); (destruct j as [|j]; [injection H as <-; by exists y|by apply (IH _ j x) in H]).
Qed.

Lemma place_Forall2 {A} (P : A -> ElfSectionHeader -> Prop) l xs : (forall a x o, P a x -> P a (with_offset o x)) -> Forall2 P l xs -> forall off, Forall2 P l (place xs off).
Proof. intros HP. induction 1 as [|a x l xs Ha _ IH]; intros off; cbn [place]; [constructor|]. destruct (in_file x); constructor; auto. Qed.

Section Sizes.
Context (e : BinaryEmitter) (He : emitter_ok e) (Hfit : elf_fits e).

Lemma contents_need t cs : Forall2 (content_header t) (be_sections e) cs -> Forall sized cs /\ 0 <= need cs <= sizes_sum e.
Proof using He.
  unfold sizes_sum. pose proof (eo_sections _ He) as Hs. revert Hs. generalize (be_sections e). intros ss Hs H. clear Hfit. induction H as [|s x ss cs (_ & _ & Hx) _ IH]; [by repeat split; cbn|].
  apply Forall_cons in Hs as [(_ & Ha & Hsz & _ & Hv) Hs]. destruct (IH Hs) as [IH1 IH2]. cbn [foldr].
  change (need (x :: cs)) with ((if in_file x then sh_size x + sh_addralign x else 0) + need cs). rewrite Hx. unfold in_file, sized. cbn [sh_size sh_addralign sh_type].
  assert (0 <= bs_size s) by (unfold bs_size; lia).
  split; [constructor; [|done]; cbn [sh_size sh_addralign]; unfold content_size; destruct (bs_kind s); try lia; destruct (_ >? _); lia|].
  unfold content_size. destruct (bs_kind s); cbn [elf_section_type Z.eqb SHT_PROGBITS SHT_NOBITS SHT_INIT_ARRAY SHT_FINI_ARRAY Pos.eqb negb]; lia.
Qed.

Lemma count_in_bound k : 0 <= count_in (be_relocations e) k < 2 ^ 31.
Proof using Hfit. pose proof (ef_relocations _ Hfit) as H. unfold count_in, relocation_count in *. pose proof (length_filter (in_section (Z.of_nat k)) (be_relocations e)). lia. Qed.

Lemma relas_need t i rs : Forall2 (rela_header e t i) (relocated 0 (section_counts e)) rs -> Forall sized rs /\ 0 <= need rs <= 2 ^ 52.
Proof using Hfit.
  intros H. pose proof (relocation_header_le e) as Hl. unfold relocation_header_count in Hl. rewrite (Forall2_length _ _ _ H) in Hl. pose proof (ef_sections _ Hfit) as Hn. unfold section_count in Hn.
  assert (Forall (fun x => sized x /\ 0 <= sh_size x + sh_addralign x <= 2 ^ 36) rs) as Hall.
  { clear Hl. induction H as [|k x ks rs (s & _ & _ & _ & ->) _ IH]; constructor; [|done]. unfold sized. cbn [sh_size sh_addralign]. pose proof (count_in_bound k). lia. }
  split; [eapply Forall_impl; [exact Hall|by intros x [? _]]|]. destruct (need_bound (2 ^ 36) rs) as [H1 H2]; [eapply Forall_impl; [exact Hall|by intros x [_ ?]]|].
  split; [done|]. lia.
Qed.

(** The offsets fit: those of the contents, and then those of the rest. *)
Lemma offsets_ok t cs note rs x1 x2 x3 : tables_ok e t cs note rs x1 x2 x3 ->
  exists m, 64 <= place_end cs 64 < 2 ^ 62 /\ chain 64 (place cs 64) (place_end cs 64) /\ chain (place_end cs 64) (place (rs ++ [x1; x2; x3]) (place_end cs 64)) m /\
    m <= t_section_header_offset t /\ 64 <= t_section_header_offset t < 2 ^ 62 /\ Forall (fun x => 0 <= sh_offset x < 2 ^ 63) (t_headers t).
Proof using He Hfit.
  intros Ht. destruct (contents_need _ _ (to_contents _ _ _ _ _ _ _ _ Ht)) as [Hs1 Hn1]. destruct (relas_need _ _ _ (to_relas _ _ _ _ _ _ _ _ Ht)) as [Hs2 Hn2].
  destruct (to_tables _ _ _ _ _ _ _ _ Ht) as (fg & _ & (_ & _ & E1) & (_ & _ & E2) & (_ & _ & E3)).
  pose proof (ef_symbols _ Hfit). pose proof (ef_sizes _ Hfit). pose proof (ef_symbol_names _ Hfit). unfold symbol_count in *.
  destruct (to_symbols _ _ _ _ _ _ _ _ Ht) as [_ (Hz & _) Hsz _]. destruct (to_shstrtab _ _ _ _ _ _ _ _ Ht) as [(Hz2 & _) Hsz2].
  pose proof (names_room_nonneg (by_name <$> be_symbols e)).
  assert (Forall sized (rs ++ [x1; x2; x3])) as Hs3.
  { apply Forall_app. split; [done|]. rewrite E1, E2, E3. repeat constructor; cbn [sh_size sh_addralign]; unfold symbol_count; lia. }
  assert (0 <= need (rs ++ [x1; x2; x3]) <= 2 ^ 53) as Hn3.
  { rewrite need_app. replace (need [x1; x2; x3]) with (24 * (1 + symbol_count e) + 8 + (st_size (t_strtab t) + 1) + (st_size (t_shstrtab t) + 1)); [unfold symbol_count; lia|].
    rewrite E1, E2, E3. unfold need, in_file, symbol_count. cbn [foldr sh_type sh_size sh_addralign SHT_SYMTAB SHT_STRTAB SHT_NOBITS Z.eqb Pos.eqb negb]. lia. }
  destruct (place_chain cs Hs1 64) as [Hc1 Hb1]; [lia|lia|]. destruct (place_chain (rs ++ [x1; x2; x3]) Hs3 (place_end cs 64)) as [Hc2 Hb2]; [lia|lia|].
  eexists. split; [lia|]. split; [exact Hc1|]. split; [exact Hc2|]. rewrite (to_end _ _ _ _ _ _ _ _ Ht).
  destruct (align_up_bound (place_end (rs ++ [x1; x2; x3]) (place_end cs 64)) 8) as [Ha1 Ha2]; [lia|lia|lia|]. split; [lia|]. split; [lia|].
  rewrite (to_headers _ _ _ _ _ _ _ _ Ht). constructor; [cbn; lia|]. apply Forall_app. split; [apply place_offsets; [done|lia|lia]|].
  constructor; [|apply place_offsets; [done|lia|lia]]. destruct (to_note _ _ _ _ _ _ _ _ Ht) as (_ & _ & ->). cbn. lia.
Qed.
End Sizes.

(** * The file *)

Record elf_file (e : BinaryEmitter) (t : ElfTables) (cs rs : list ElfSectionHeader) (file : list Z) : Prop := {
  fi_bytes : bytes_ok file;
  fi_length : Z.of_nat (length file) = t_section_header_offset t + 64 * Z.of_nat (length (t_headers t));
  fi_start : holds file 0 (e_ident ++ words_bytes (elf_header e t));
  fi_headers : forall j x, t_headers t !! j = Some x -> holds file (t_section_header_offset t + 64 * Z.of_nat j) (words_bytes (header_words x));
  fi_contents : Forall2 (fun s x => stored file x (bs_data s)) (be_sections e) (place cs 64);
  fi_relas : Forall2 (relas_stored e file) (relocated 0 (section_counts e)) (place rs (place_end cs 64));
  fi_symtab : forall x, t_headers t !! symtab_number e = Some x -> holds file (sh_offset x) (t_symtab_bytes t);
  fi_strtab : forall x, t_headers t !! S (symtab_number e) = Some x -> holds file (sh_offset x) (st_data (t_strtab t));
  fi_shstrtab : forall x, t_headers t !! S (S (symtab_number e)) = Some x -> holds file (sh_offset x) (st_data (t_shstrtab t))
}.

Lemma next_Ret {A} G (P : A -> Prop) (r : option A) m : m = Ret r -> wrote G P m -> wrote G P (Ret r).
Proof. by intros ->. Qed.

Lemma lookup_next {A} (x : A) l k : (x :: l) !! S k = l !! k.
Proof. done. Qed.

Lemma chain_mono xs m : forall n n', n' <= n -> chain n xs m -> chain n' xs m.
Proof. induction xs as [|x xs IH]; intros n n' Hn H; cbn [chain] in *; [lia|]. destruct (in_file x); [split; [lia|apply H]|by eapply IH]. Qed.

Lemma symtab_ok_bytes e bytes index strtab : symtab_ok e bytes index strtab -> Z.of_nat (length bytes) = 24 * (1 + symbol_count e) /\ bytes_ok bytes.
Proof.
  intros [(es & -> & Hes) _ _ _]. rewrite length_app, length_replicate, (entries_length _ _ _ _ Hes), (Permutation_length (in_order_perm e)). unfold symbol_count. split; [lia|].
  apply Forall_app. split; [by apply Forall_replicate|]. clear -Hes. induction Hes as [|y bs ys es Hy _ IH]; [constructor|].
  change (mjoin (bs :: es)) with (bs ++ mjoin es). apply Forall_app. split; [|done]. destruct Hy as (off & _ & _ & _ & H). destruct (place_of e y) as [[? ?] ?]. subst bs.
  unfold symbol_entry. repeat (apply Forall_app; split); try apply word_bytes_u8. by repeat constructor.
Qed.

Lemma contents_sizes e t cs : emitter_ok e -> Forall2 (content_header t) (be_sections e) cs ->
  Forall2 (fun s x => bytes_ok (bs_data s) /\ (in_file x = true -> sh_size x = bs_size s)) (be_sections e) cs.
Proof.
  intros He. pose proof (eo_sections _ He) as Hs. revert Hs. generalize (be_sections e). intros ss Hs H. induction H as [|s x ss cs (_ & _ & Hx) _ IH]; [constructor|].
  apply Forall_cons in Hs as [(_ & _ & _ & Hb & _) Hs]. constructor; [|by apply IH]. split; [done|]. rewrite Hx. unfold in_file, content_size. cbn [sh_type sh_size]. by destruct (bs_kind s).
Qed.

(** The headers by their positions. *)
Lemma headers_at e t cs note rs x1 x2 x3 : tables_ok e t cs note rs x1 x2 x3 -> exists y1 y2 y3,
  place (rs ++ [x1; x2; x3]) (place_end cs 64) = place rs (place_end cs 64) ++ [y1; y2; y3] /\
  (forall j x, place cs 64 !! j = Some x -> t_headers t !! (1 + j)%nat = Some x) /\
  (forall j x, place rs (place_end cs 64) !! j = Some x -> t_headers t !! (S (S (length (be_sections e))) + j)%nat = Some x) /\
  t_headers t !! symtab_number e = Some y1 /\ t_headers t !! S (symtab_number e) = Some y2 /\ t_headers t !! S (S (symtab_number e)) = Some y3 /\
  (in_file y1 = true /\ sh_size y1 = 24 * (1 + symbol_count e)) /\ (in_file y2 = true /\ sh_size y2 = st_size (t_strtab t)) /\ (in_file y3 = true /\ sh_size y3 = st_size (t_shstrtab t)).
Proof.
  intros Ht. pose proof (Forall2_length _ _ _ (to_contents _ _ _ _ _ _ _ _ Ht)) as Hlc. pose proof (Forall2_length _ _ _ (to_relas _ _ _ _ _ _ _ _ Ht)) as Hlr.
  destruct (to_tables _ _ _ _ _ _ _ _ Ht) as (fg & _ & (_ & _ & E1) & (_ & _ & E2) & (_ & _ & E3)). pose proof (to_headers _ _ _ _ _ _ _ _ Ht) as Hh. rewrite place_app in *.
  set (o := place_end rs _) in *. assert (exists y1 y2 y3, place [x1; x2; x3] o = [y1; y2; y3] /\ (in_file y1 = true /\ sh_size y1 = 24 * (1 + symbol_count e)) /\
    (in_file y2 = true /\ sh_size y2 = st_size (t_strtab t)) /\ (in_file y3 = true /\ sh_size y3 = st_size (t_shstrtab t))) as (y1 & y2 & y3 & E & Hy).
  { cbn [place]. rewrite E1, E2, E3. cbn [in_file sh_type SHT_SYMTAB SHT_STRTAB SHT_NOBITS Z.eqb Pos.eqb negb]. do 3 eexists. split; [done|]. done. }
  exists y1, y2, y3. rewrite E in *. split; [done|]. rewrite Hh. unfold symtab_number, relocation_header_count.
  assert (forall k y, [y1; y2; y3] !! k = Some y -> (no_header :: place cs 64 ++ note :: place rs (place_end cs 64) ++ [y1; y2; y3]) !! (k + (S (S (length (be_sections e))) + length (relocated 0 (section_counts e))))%nat = Some y) as Hlast.
  { intros k y Hk. rewrite Hlc, Hlr. replace (k + (S (S (length cs)) + length rs))%nat with (S (length cs + S (length rs + k)))%nat by lia. rewrite lookup_next.
    rewrite lookup_app_r by (rewrite place_length; lia). rewrite place_length. replace (length cs + S (length rs + k) - length cs)%nat with (S (length rs + k)) by lia. rewrite lookup_next.
    rewrite lookup_app_r by (rewrite place_length; lia). rewrite place_length. by replace (length rs + k - length rs)%nat with k by lia. }
  split; [intros j x Hj; by apply lookup_app_l_Some|]. split.
  { intros j x Hj. rewrite Hlc. change (S (S (length cs)) + j)%nat with (S (S (length cs + j))). rewrite lookup_next, lookup_app_r by (rewrite place_length; lia). rewrite place_length.
    replace (S (length cs + j) - length cs)%nat with (S j) by lia. rewrite lookup_next. by apply lookup_app_l_Some. }
  split; [by apply (Hlast 0%nat)|]. split; [by apply (Hlast 1%nat)|]. split; [by apply (Hlast 2%nat)|]. done.
Qed.

Section Write.
Context (accepts : list Z -> list Z -> bool) (G : Prop).
Context (room : G -> forall file data, accepts file data = true).
Context (e : BinaryEmitter) (He : emitter_ok e) (Hfit : elf_fits e).
Context (Hdef : G -> elf_writable e).

Lemma start_ok t : wrote G (fun f => upto f 64 /\ holds f 0 (e_ident ++ words_bytes (elf_header e t))) (Ret (file ← elf_write_all accepts [] e_ident; write_words accepts file (elf_header e t))).
Proof using room.
  destruct (write_all_ok accepts G room [] e_ident) as (res & E & Hg & H). apply Ret_inj in E. rewrite E. destruct res as [f|]; cbn [mbind option_bind].
  2:{ apply wrote_none. intros HG. by destruct (Hg HG). }
  eapply wrote_weaken; [apply (write_words_ok accepts G room)|]. intros f2 <-. rewrite <- (H f eq_refl). cbn [app]. split; [split; [done|]|].
  - apply Forall_app. split; [by repeat constructor|apply words_bytes_ok].
  - exists [], []. by rewrite app_nil_r.
Qed.

Lemma elf_write_ok t cs note rs x1 x2 x3 : tables_ok e t cs note rs x1 x2 x3 -> wrote G (elf_file e t cs rs) (elf_write accepts e t).
Proof using room He Hfit Hdef.
  intros Ht. destruct (offsets_ok e He Hfit _ _ _ _ _ _ _ Ht) as (m & Hend & Hc1 & Hc2 & Hm & Hm2 & _).
  destruct (headers_at e t cs note rs x1 x2 x3 Ht) as (y1 & y2 & y3 & Hrest & Hcs & Hrs & Hy1 & Hy2 & Hy3 & (F1 & S1) & (F2 & S2) & (F3 & S3)).
  rewrite Hrest in Hc2. apply chain_app in Hc2 as (m1 & Hc2 & Hc3). change [y1; y2; y3] with ([y1] ++ [y2; y3]) in Hc3. apply chain_app in Hc3 as (m2 & Hc3 & Hc4).
  change [y2; y3] with ([y2] ++ [y3]) in Hc4. apply chain_app in Hc4 as (m3 & Hc4 & Hc5).
  pose proof (to_symbols _ _ _ _ _ _ _ _ Ht) as Hsym. pose proof (symtab_ok_bytes _ _ _ _ Hsym) as [Hlsym Hbsym]. destruct (so_strtab _ _ _ _ Hsym) as (_ & _ & Hbstr & _).
  destruct (to_shstrtab _ _ _ _ _ _ _ _ Ht) as [(_ & _ & Hbshs & _) _].
  assert (m1 < 2 ^ 63 /\ m2 < 2 ^ 63 /\ m3 < 2 ^ 63) as (B1 & B2 & B3).
  { assert (forall x n k, in_file x = true -> 0 <= sh_size x -> chain n [x] k -> n <= k) as Hle by (intros x n k Hx Hs H; cbn [chain] in H; rewrite Hx in H; lia).
    pose proof (Hle _ _ _ F1 ltac:(unfold symbol_count in *; lia) Hc3). pose proof (Hle _ _ _ F2 ltac:(rewrite ?S2, ?S3; unfold st_size; lia) Hc4). pose proof (Hle _ _ _ F3 ltac:(rewrite ?S2, ?S3; unfold st_size; lia) Hc5). lia. }
  unfold elf_write. eapply wrote_bind; [apply start_ok|]. intros f0 [U0 H0].
  rewrite (to_content_shndx _ _ _ _ _ _ _ _ Ht).
  eapply wrote_bind; [apply (write_contents_ok accepts G room (t_headers t) (be_sections e) (place cs 64)) with (m := place_end cs 64); [|exact Hcs|exact U0|exact Hc1|lia]|].
  { apply place_Forall2; [done|]. by apply (contents_sizes e (t_shstrtab t) _ He), (to_contents _ _ _ _ _ _ _ _ Ht). }
  intros [f1 n1] (C1 & U1 & L1 & H1). cbn [fst snd] in *. rewrite (to_counts _ _ _ _ _ _ _ _ Ht), (to_positions _ _ _ _ _ _ _ _ Ht).
  eapply wrote_bind; [apply (write_rela_sections_ok accepts G room e t He) with (c := length (be_sections e)) (k := 0%nat) (xs := place rs (place_end cs 64)) (m := m1)|].
  { pose proof (ef_symbols _ Hfit). lia. }
  { apply (to_supported _ _ _ _ _ _ _ _ Ht). }
  { apply Hsym. }
  { intros HG. apply (ew_defined _ (Hdef HG)). }
  { apply place_Forall2; [done|]. eapply Forall2_impl; [apply (to_relas _ _ _ _ _ _ _ _ Ht)|]. intros k x (s & _ & _ & _ & ->). split; [done|]. cbn [sh_size]. lia. }
  { exact Hrs. }
  { exact U1. }
  { lia. }
  { eapply chain_mono; [|exact Hc2]. lia. }
  { lia. }
  intros [f2 n2] (C2 & U2 & L2 & H2). cbn [fst snd] in *. rewrite (to_shstrtab_index _ _ _ _ _ _ _ _ Ht).
  replace (Z.of_nat (S (S (symtab_number e))) - 2) with (Z.of_nat (symtab_number e)) by lia. replace (Z.of_nat (S (S (symtab_number e))) - 1) with (Z.of_nat (S (symtab_number e))) by lia.
  assert (forall p x data file n k, t_headers t !! p = Some x -> in_file x = true -> sh_size x = Z.of_nat (length data) -> bytes_ok data -> upto file n -> chain n [x] k -> k < 2 ^ 63 ->
    wrote G (fun r => continues file r.1 /\ upto r.1 r.2 /\ r.2 <= k /\ holds r.1 (sh_offset x) data) (write_table accepts t (Z.of_nat p) data file n)) as Htable.
  { intros p x data file n k Hp Hx Hs Hd Hu Hc Hk. eapply wrote_weaken; [by apply (write_table_ok accepts G room t p x data file n k)|]. intros [f w] (T1 & T2 & T3 & T4). cbn [fst snd] in *.
    split; [done|]. split; [done|]. split; [|done]. cbn [chain] in Hc. rewrite Hx in Hc. lia. }
  eapply wrote_bind; [apply (Htable _ y1 (t_symtab_bytes t) f2 n2 m2 Hy1 F1 (eq_trans S1 (eq_sym Hlsym)) Hbsym U2); [eapply chain_mono; [|exact Hc3]; lia|lia]|]. intros [f3 n3] (C3 & U3 & L3 & H3). cbn [fst snd] in *.
  eapply wrote_bind; [apply (Htable _ y2 _ f3 n3 m3 Hy2 F2 S2 Hbstr U3); [eapply chain_mono; [|exact Hc4]; lia|lia]|]. intros [f4 n4] (C4 & U4 & L4 & H4). cbn [fst snd] in *.
  eapply wrote_bind; [apply (Htable _ y3 _ f4 n4 m Hy3 F3 S3 Hbshs U4); [eapply chain_mono; [|exact Hc5]; lia|lia]|]. intros [f5 n5] (C5 & U5 & L5 & H5). cbn [fst snd] in *.
  eapply wrote_bind; [apply (pad_to_ok accepts G room f5 n5 (t_section_header_offset t) U5); lia|]. intros f6 [C6 U6].
  eapply wrote_weaken; [apply (write_headers_ok accepts G room (t_headers t) 0 f6 _ U6)|]. intros f (C7 & [Hlen Hbytes] & H7).
  assert (continues f5 f) as K5 by by eapply continues_trans. assert (continues f4 f) as K4 by by eapply continues_trans. assert (continues f3 f) as K3 by by eapply continues_trans.
  assert (continues f2 f) as K2 by by eapply continues_trans. assert (continues f1 f) as K1 by by eapply continues_trans. assert (continues f0 f) as K0 by by eapply continues_trans.
  constructor; [done|done| | | | | | |].
  - exact (continues_holds _ _ _ _ K0 H0).
  - intros j x Hj. specialize (H7 j x Hj). cbn [Nat.add] in H7. destruct j as [|j]; [|exact H7]. rewrite (to_headers _ _ _ _ _ _ _ _ Ht) in Hj. injection Hj as <-. exact H7.
  - eapply Forall2_impl; [exact H1|]. intros s x. exact (stored_continues _ _ _ _ K1).
  - eapply Forall2_impl; [exact H2|]. intros k x. exact (relas_stored_continues _ _ _ _ _ K2).
  - intros x Hx. rewrite Hy1 in Hx. injection Hx as <-. exact (continues_holds _ _ _ _ K3 H3).
  - intros x Hx. rewrite Hy2 in Hx. injection Hx as <-. exact (continues_holds _ _ _ _ K4 H4).
  - intros x Hx. rewrite Hy3 in Hx. injection Hx as <-. exact (continues_holds _ _ _ _ K5 H5).
Qed.
End Write.
End ElfFile.
