(* ===== verification/ElfReadBack.v ===== *)
(** Reading the blocks of a file: a word, name, header, symbol or relocation
    that the writer put into the file is read as it was. *)
From S2P Require Import Prelude LinkObjects LinkBytes LinkObjectsCorrect BinaryEmitter BinaryEmitterCorrect ElfEmitter ElfTables ElfHeaders ElfWrite ElfReader ElfReaderSafe.
#[local] Open Scope Z_scope.

Module ElfReadBack.
Import LinkObjects LinkBytes LinkObjectsCorrect BinaryEmitter BinaryEmitterCorrect ElfEmitter ElfTables ElfHeaders ElfWrite ElfReader ElfReaderSafe.

(** * Words *)

Lemma holds_head d o b bs : holds d o (b :: bs) -> get d o = Ret b /\ holds d (o + 1) bs.
Proof.
  intros H. pose proof (holds_range _ _ _ H) as [Hr _]. change (b :: bs) with ([b] ++ bs) in H. apply holds_app in H as [H1 H2]. split; [|exact H2].
  apply get_spec; [done|]. replace o with (o + Z.of_nat 0) by lia. by apply (holds_bytes _ _ _ _ _ H1).
Qed.

Lemma holds_words d o n v ws : holds d o (words_bytes ((n, v) :: ws)) -> holds d o (word_bytes n v) /\ holds d (o + Z.of_nat n) (words_bytes ws).
Proof. change (words_bytes ((n, v) :: ws)) with (word_bytes n v ++ words_bytes ws). intros [H1 H2]%holds_app. by rewrite word_bytes_length in H2. Qed.

Lemma holds_u16 d o v : holds d o (word_bytes 2 v) -> linker_read_u16 d o = Ret (u16 v).
Proof. intros H. apply read_u16_bytes; [apply (holds_range _ _ _ H)|]. intros k b Hk. by apply (holds_bytes _ _ _ _ _ H). Qed.
Lemma holds_u32 d o v : holds d o (word_bytes 4 v) -> linker_read_u32 d o = Ret (u32 v).
Proof. intros H. apply read_u32_bytes; [apply (holds_range _ _ _ H)|]. intros k b Hk. by apply (holds_bytes _ _ _ _ _ H). Qed.
Lemma holds_u64 d o v : holds d o (word_bytes 8 v) -> linker_read_u64 d o = Ret (u64 v).
Proof. intros H. apply read_u64_bytes; [apply (holds_range _ _ _ H)|]. intros k b Hk. by apply (holds_bytes _ _ _ _ _ H). Qed.

(** The first word of a block, the rest of which is at [p]. *)
Ltac word H H1 p :=
  apply holds_words in H as [H1 H]; match type of H with holds _ ?q _ => replace q with p in H by lia end.

(** * Names and bytes *)

Lemma string_at_ok name : forall n d i, name_bytes name -> holds d i (name ++ [0]) -> (length name < n)%nat -> string_at n d i = Ret (Some name).
Proof.
  induction name as [|c name IH]; intros [|n] d i Hn H Hl; cbn [string_at length app] in *; try lia; apply holds_head in H as [-> H]; cbn [obind]; [done|].
  apply Forall_cons in Hn as [[_ Hc] Hn]. rewrite (proj2 (Z.eqb_neq c 0)) by done. by rewrite (IH n) by (done || lia).
Qed.

Lemma slice_holds d o bs : holds d o bs -> slice d o (Z.of_nat (length bs)) = Ret bs.
Proof.
  intros (pre & post & -> & ->). unfold slice. rewrite (proj2 (Z.ltb_ge (Z.of_nat (length pre)) 0)), (proj2 (Z.ltb_ge (Z.of_nat (length bs)) 0)) by lia.
  rewrite (proj2 (Z.ltb_ge _ _)) by (rewrite !length_app; lia). cbn [orb]. by rewrite !Nat2Z.id, drop_app_length, take_app_length.
Qed.

Lemma range_holds d o bs : holds d o bs -> link_object_range_ok (file_size d) o (Z.of_nat (length bs)) = true.
Proof. intros H%holds_range. apply range_ok_spec. unfold file_size. lia. Qed.

(** The operation succeeds, with the result. *)
Definition reads {A} (x : A) (h : heap) (m : outcome (option A * heap)) : Prop := exists h', m = Ret (Some x, h') /\ heap_grants h' = heap_grants h.

Lemma reads_some {A} (x : A) h : reads x h (Ret (Some x, h)).
Proof. by exists h. Qed.

Lemma generous_alloc h : generous h -> exists h1, alloc h = (true, h1) /\ heap_grants h1 = heap_grants h.
Proof. intros Hh. unfold alloc. rewrite Hh. by eexists. Qed.

Lemma dup_string_ok d table t offset name h : generous h -> holds d table (st_data t) -> has_string t offset name -> name_bytes name ->
  reads name h (elf_dup_string d table (st_size t) offset h).
Proof.
  intros Hh Hd (pre & post & Et & ->) Hn. unfold elf_dup_string, st_size. rewrite Et in *. rewrite !length_app. cbn [length]. rewrite (proj2 (Z.leb_gt _ _)) by lia.
  apply holds_app in Hd as [_ Hd]. change (0 :: post) with ([0] ++ post) in Hd. rewrite app_assoc in Hd. apply holds_app in Hd as [Hd _].
  rewrite (string_at_ok name) by (done || lia). cbn [obind]. destruct (generous_alloc h Hh) as (h1 & -> & E). by exists h1.
Qed.

(** * Section headers *)

Definition header_fits (x : ElfSectionHeader) : Prop :=
  in_u 32 (sh_name_offset x) /\ in_u 32 (sh_type x) /\ in_u 64 (sh_flags x) /\ in_u 64 (sh_offset x) /\ in_u 64 (sh_size x) /\ in_u 32 (sh_link x) /\
  in_u 32 (sh_info x) /\ in_u 64 (sh_addralign x) /\ in_u 64 (sh_entsize x).

Record header_read (d : list Z) (o : Z) (x : ElfSectionHeader) : Prop := {
  hr_name : linker_read_u32 d o = Ret (sh_name_offset x);
  hr_type : elf_sh_type d o = Ret (sh_type x);
  hr_flags : elf_sh_flags d o = Ret (sh_flags x);
  hr_offset : elf_sh_offset d o = Ret (sh_offset x);
  hr_size : elf_sh_size d o = Ret (sh_size x);
  hr_link : linker_read_u32 d (o + 40) = Ret (sh_link x);
  hr_info : linker_read_u32 d (o + 44) = Ret (sh_info x);
  hr_align : linker_read_u64 d (o + 48) = Ret (sh_addralign x);
  hr_entsize : linker_read_u64 d (o + 56) = Ret (sh_entsize x)
}.

Lemma header_read_ok d o x : header_fits x -> holds d o (words_bytes (header_words x)) -> header_read d o x.
Proof.
  intros (F1 & F2 & F3 & F4 & F5 & F6 & F7 & F8 & F9) H. unfold header_words in H.
  word H H1 (o + 4). word H H2 (o + 8). word H H3 (o + 16). word H H0 (o + 24). word H H4 (o + 32). word H H5 (o + 40). word H H6 (o + 44). word H H7 (o + 48).
  word H H8 (o + 56). word H H9 (o + 64).
  constructor; unfold elf_sh_type, elf_sh_flags, elf_sh_offset, elf_sh_size.
  - rewrite (holds_u32 _ _ _ H1). by rewrite wrapu_small.
  - rewrite (holds_u32 _ _ _ H2). by rewrite wrapu_small.
  - rewrite (holds_u64 _ _ _ H3). by rewrite wrapu_small.
  - rewrite (holds_u64 _ _ _ H4). by rewrite wrapu_small.
  - rewrite (holds_u64 _ _ _ H5). by rewrite wrapu_small.
  - rewrite (holds_u32 _ _ _ H6). by rewrite wrapu_small.
  - rewrite (holds_u32 _ _ _ H7). by rewrite wrapu_small.
  - rewrite (holds_u64 _ _ _ H8). by rewrite wrapu_small.
  - rewrite (holds_u64 _ _ _ H9). by rewrite wrapu_small.
Qed.

(** The section with a header, a name and bytes. *)
Definition section_of (x : ElfSectionHeader) (name : cstring) (raw : list Z) : LinkSection :=
  mkSection (Some name) (elf_section_kind (sh_flags x) (sh_type x)) (sh_size x) (Z.of_nat (length raw)) (if sh_addralign x =? 0 then 1 else sh_addralign x) raw []
    (negb (has_flag (sh_flags x) SHF_ALLOC)).

(** What the file and its names hold for a header. *)
Definition described (d : list Z) (t : ElfStrtab) (x : ElfSectionHeader) (p : cstring * list Z) : Prop :=
  has_string t (sh_name_offset x) p.1 /\ name_bytes p.1 /\ header_fits x /\ sh_type x <> SHT_GROUP /\
  if in_file x then sh_size x = Z.of_nat (length p.2) /\ holds d (sh_offset x) p.2 else p.2 = [].

Lemma parse_section_reads im t shstr i x p h : generous h -> holds (data im) shstr (st_data t) -> header_read (data im) (elf_shdr im i) x -> described (data im) t x p ->
  reads (section_of x p.1 p.2) h (elf_parse_section im shstr (st_size t) i h).
Proof.
  intros Hh Ht [R1 R2 R3 R4 R5 _ _ R8 _] (Hs & Hn & _ & Hg & Hp). unfold elf_parse_section. rewrite R1, R2, R3, R4, R5, R8. cbn [obind]. rewrite (proj2 (Z.eqb_neq _ _) Hg).
  destruct (dup_string_ok _ _ _ _ _ h Hh Ht Hs Hn) as (h1 & -> & E1). cbn [obind]. unfold section_of, in_file in *.
  change SHT_NOBITS with ElfEmitter.SHT_NOBITS. destruct (sh_type x =? ElfEmitter.SHT_NOBITS); cbn [negb orb] in *.
  { rewrite Hp. cbn [length]. by exists h1. }
  destruct Hp as [Hz Hp]. destruct (Z.eqb_spec (sh_size x) 0) as [E|E].
  { destruct p.2; [|cbn [length] in Hz; lia]. by exists h1. }
  rewrite Hz, (range_holds _ _ _ Hp). cbn [negb]. destruct (generous_alloc h1 (generous_same h h1 E1 Hh)) as (h2 & -> & E2). cbn [negb].
  rewrite (slice_holds _ _ _ Hp). cbn [obind]. exists h2. split; [done|congruence].
Qed.

(** * The table of headers *)

Section Table.
Context (im : ElfImage) (xs : list ElfSectionHeader).
Context (xs_read : forall j x, xs !! j = Some x -> header_read (data im) (elf_shdr im (Z.of_nat j)) x).

Lemma section_loop_reads t shstr : holds (data im) shstr (st_data t) -> forall ys ps, Forall2 (described (data im) t) ys ps ->
  forall i h, generous h -> (forall j y, ys !! j = Some y -> xs !! (i + j)%nat = Some y) ->
  reads (zip_with (fun x p => section_of x p.1 p.2) ys ps) h (section_loop im shstr (st_size t) (length ys) (Z.of_nat i) h).
Proof using xs_read.
  intros Ht. induction 1 as [|y p ys ps Hy _ IH]; intros i h Hh Hi; cbn [section_loop length zip_with]; [by apply reads_some|].
  pose proof (Hi 0%nat y eq_refl) as H0. rewrite Nat.add_0_r in H0.
  destruct (parse_section_reads im t shstr (Z.of_nat i) y p h Hh Ht (xs_read _ _ H0) Hy) as (h1 & -> & E1). cbn [obind]. replace (Z.of_nat i + 1) with (Z.of_nat (S i)) by lia.
  destruct (IH (S i) h1) as (h2 & -> & E2); [by apply (generous_same h)|intros j z Hj; rewrite Nat.add_succ_comm; by apply Hi|]. cbn [obind option_map]. exists h2. split; [done|congruence].
Qed.

Lemma find_symtab_reads x : sh_type x = SHT_SYMTAB -> forall ys i zs, (forall j y, (ys ++ x :: zs) !! j = Some y -> xs !! (i + j)%nat = Some y) ->
  Forall (fun y => sh_type y <> SHT_SYMTAB) ys -> find_symtab im (length (ys ++ x :: zs)) (Z.of_nat i) = Ret (Some (elf_shdr im (Z.of_nat (i + length ys)))).
Proof using xs_read.
  intros Hx. induction ys as [|y ys IH]; intros i zs Hi Hys; cbn [find_symtab length app]; pose proof (Hi 0%nat _ eq_refl) as H0; rewrite Nat.add_0_r in H0;
    rewrite (hr_type _ _ _ (xs_read _ _ H0)); cbn [obind].
  - rewrite Hx. cbn [Z.eqb Pos.eqb SHT_SYMTAB]. by rewrite Nat.add_0_r.
  - apply Forall_cons in Hys as [Hy Hys]. rewrite (proj2 (Z.eqb_neq _ _) Hy). replace (Z.of_nat i + 1) with (Z.of_nat (S i)) by lia.
    rewrite (IH (S i) zs); [by rewrite Nat.add_succ_comm|intros j z Hj; rewrite Nat.add_succ_comm; by apply Hi|done].
Qed.
End Table.

(** * Symbols *)

Definition is_placed (y : BinarySymbol) : bool := negb (by_section_index y =? BINARY_SECTION_INDEX_NONE).

(** A symbol as it is read. *)
Definition symbol_of (e : BinaryEmitter) (y : BinarySymbol) : LinkSymbol :=
  LinkObjects.mkSymbol (Some (by_name y)) (by_value y) (if is_placed y then by_section_index y + 1 else LINK_SECTION_INDEX_UNDEFINED) (negb (is_placed y) || negb (is_local y))
    false false 0 (by_size y) (if is_placed y then symbol_type e y else STT_NOTYPE) (is_placed y) false.

Definition null_symbol : LinkSymbol := LinkObjects.mkSymbol (Some []) 0 LINK_SECTION_INDEX_UNDEFINED false false false 0 0 0 false false.

Lemma symbol_type_cases e y : symbol_type e y = 0 \/ symbol_type e y = 1 \/ symbol_type e y = 2.
Proof. unfold symbol_type. destruct (bs_kind <$> _) as [k|]; [destruct k|]; destruct (is_local y); auto. Qed.

Lemma info_read b t : b = 0 \/ b = 1 -> t = 0 \/ t = 1 \/ t = 2 ->
  Z.shiftr (byte_of (ELF64_ST_INFO b t) 0) 4 = b /\ Z.land (byte_of (ELF64_ST_INFO b t) 0) 0xF = t.
Proof. by intros [-> | ->] [-> |[-> | ->]]. Qed.

Section Symbols.
Context (im : ElfImage) (e : BinaryEmitter) (t : ElfStrtab) (strtab : Z).
Context (strtab_held : holds (data im) strtab (st_data t)) (few_sections : section_count e < 0xFF00 - 1) (all_sections : section_count e < shnum im).

Lemma parse_symbol_reads entry y bs h : generous h -> symbol_fits y -> entry_ok e t y bs -> holds (data im) entry bs ->
  reads (symbol_of e y) h (elf_parse_symbol im strtab (st_size t) entry h).
Proof using strtab_held few_sections all_sections.
  intros Hh ((_ & Hn) & Hi & Hv & Hz) (off & Hs & Hoff & Hplaced & Hbs) H. destruct (place_of e y) as [[shndx type] bind] eqn:Ep. subst bs. unfold symbol_entry in H.
  apply holds_app in H as [H1 H]. apply holds_app in H as [H2 H]. apply holds_app in H as [_ H]. apply holds_app in H as [H3 H]. apply holds_app in H as [H4 H5].
  rewrite !word_bytes_length in *. change (Z.of_nat (length [0])) with 1 in *.
  replace (entry + Z.of_nat 4 + Z.of_nat 1 + 1) with (entry + 6) in * by lia. replace (entry + 6 + Z.of_nat 2) with (entry + 8) in * by lia.
  replace (entry + 8 + Z.of_nat 8) with (entry + 16) in * by lia. replace (entry + Z.of_nat 4) with (entry + 4) in * by lia.
  apply holds_head in H2 as [H2 _]. unfold elf_parse_symbol. rewrite H2, (holds_u16 _ _ _ H3), (holds_u32 _ _ _ H1), (holds_u64 _ _ _ H4), (holds_u64 _ _ _ H5). cbn [obind].
  rewrite (wrapu_small 32), !(wrapu_small 64) by done. destruct (dup_string_ok _ _ _ _ _ h Hh strtab_held Hs Hn) as (h1 & -> & E1). cbn [obind].
  assert ((bind = 0 \/ bind = 1) /\ (type = 0 \/ type = 1 \/ type = 2)) as [Hb Ht].
  { unfold place_of in Ep. destruct (_ =? _); injection Ep as <- <- <-; [by split; [right|left]|]. split; [destruct (is_local y); auto|apply symbol_type_cases]. }
  change (byte_of (ELF64_ST_INFO bind type) (8 * Z.of_nat 0)) with (byte_of (ELF64_ST_INFO bind type) 0). destruct (info_read bind type Hb Ht) as [-> ->].
  unfold place_of, symbol_of, is_placed, symbol_placed, section_count in *. destruct (Z.eqb_spec (by_section_index y) BINARY_SECTION_INDEX_NONE) as [E|E]; injection Ep as <- <- <-; cbn [negb orb].
  - cbn [Z.eqb SHN_UNDEF ElfEmitter.SHN_UNDEF wrapu Z.modulo Z.pow Z.pow_pos]. by exists h1.
  - destruct Hplaced as [|Hplaced]; [done|]. unfold in_u in *. rewrite (wrapu_small 16) by (unfold in_u; lia).
    unfold SHN_UNDEF, SHN_ABS, SHN_COMMON, SHN_XINDEX, SHN_LORESERVE. rewrite !(proj2 (Z.eqb_neq (by_section_index y + 1) _)) by lia.
    rewrite !(proj2 (Z.leb_gt _ (by_section_index y + 1))) by lia. cbn [orb]. exists h1. split; [|done].
    destruct (is_local y); done.
Qed.

Lemma symbol_loop_reads ys es : Forall2 (entry_ok e t) ys es -> Forall symbol_fits ys -> forall entry h, generous h -> holds (data im) entry (mjoin es) ->
  reads (symbol_of e <$> ys) h (symbol_loop im strtab (st_size t) (length ys) entry h).
Proof using strtab_held few_sections all_sections.
  induction 1 as [|y bs ys es Hy _ IH]; intros Hf entry h Hh H; cbn [symbol_loop length fmap list_fmap]; [by apply reads_some|].
  change (mjoin (bs :: es)) with (bs ++ mjoin es) in H. apply holds_app in H as [H1 H2]. apply Forall_cons in Hf as [Hf Hfs].
  destruct (parse_symbol_reads entry y bs h Hh Hf Hy H1) as (h1 & -> & E1). cbn [obind]. rewrite (entry_length _ _ _ _ Hy) in H2.
  destruct (IH Hfs (entry + 24) h1 (generous_same h h1 E1 Hh)) as (h2 & -> & E2); [by replace (entry + 24) with (entry + Z.of_nat 24) by lia|]. cbn [obind option_map].
  exists h2. split; [done|congruence].
Qed.

Lemma null_symbol_reads entry h : generous h -> holds (data im) entry (replicate 24 0) -> strtab_ok t -> reads null_symbol h (elf_parse_symbol im strtab (st_size t) entry h).
Proof using strtab_held.
  intros Hh H (_ & _ & _ & H0). change (replicate 24 0) with (word_bytes 4 0 ++ [0] ++ [0] ++ word_bytes 2 0 ++ word_bytes 8 0 ++ word_bytes 8 0) in H.
  apply holds_app in H as [H1 H]. apply holds_app in H as [H2 H]. apply holds_app in H as [_ H]. apply holds_app in H as [H3 H]. apply holds_app in H as [H4 H5].
  rewrite !word_bytes_length in *. change (Z.of_nat (length [0])) with 1 in *.
  replace (entry + Z.of_nat 4 + 1 + 1) with (entry + 6) in * by lia. replace (entry + 6 + Z.of_nat 2) with (entry + 8) in * by lia.
  replace (entry + 8 + Z.of_nat 8) with (entry + 16) in * by lia. replace (entry + Z.of_nat 4) with (entry + 4) in * by lia.
  apply holds_head in H2 as [H2 _]. unfold elf_parse_symbol. rewrite H2, (holds_u16 _ _ _ H3), (holds_u32 _ _ _ H1), (holds_u64 _ _ _ H4), (holds_u64 _ _ _ H5). cbn [obind].
  assert (has_string t (u32 0) []) as Hs by (exists []; destruct (st_data t) as [|z l]; [done|]; injection H0 as ->; by exists l).
  destruct (dup_string_ok _ _ _ _ _ h Hh strtab_held Hs ltac:(constructor)) as (h1 & -> & E1). cbn [obind]. by exists h1.
Qed.
End Symbols.
End ElfReadBack.
