(* ===== verification/ElfReadRelocs.v ===== *)
(** Reading the relocations of a file: those that the writer put there come
    back to their sections. *)
From S2P Require Import Prelude LinkObjects LinkBytes LinkObjectsCorrect BinaryEmitter BinaryEmitterCorrect ElfEmitter ElfTables ElfHeaders ElfWrite ElfReader ElfReaderSafe ElfReadBack.
#[local] Open Scope Z_scope.

Module ElfReadRelocs.
Import LinkObjects LinkBytes LinkObjectsCorrect BinaryEmitter BinaryEmitterCorrect ElfEmitter ElfTables ElfHeaders ElfWrite ElfReader ElfReaderSafe ElfReadBack.

(** * One relocation *)

Lemma r_info_read sym type : in_u 32 sym -> in_u 32 type ->
  Z.land (u64 (ELF64_R_INFO sym type)) 0xFFFFFFFF = type /\ u32 (Z.shiftr (u64 (ELF64_R_INFO sym type)) 32) = sym.
Proof.
  intros Hs Ht. assert (forall n, 32 <= n -> Z.testbit sym n = false /\ Z.testbit type n = false) as Hhigh.
  { intros n Hn. rewrite <- (wrapu_small 32 sym), <- (wrapu_small 32 type) by done. rewrite !wrap_bit by lia. by rewrite (proj2 (Z.ltb_ge n 32)). }
  assert (forall n, 0 <= n -> Z.testbit (ELF64_R_INFO sym type) n = if n <? 32 then Z.testbit type n else (n <? 64) && Z.testbit sym (n - 32)) as Hbits.
  { intros n Hn. unfold ELF64_R_INFO. rewrite Z.lor_spec, !wrap_bit, shiftl_bit by lia.
    destruct (Z.ltb_spec n 32), (Z.leb_spec 32 n), (Z.ltb_spec n 64); try lia; cbn [andb orb]; rewrite ?orb_false_r; done. }
  split; apply Z.bits_inj'; intros n Hn.
  - change 0xFFFFFFFF with (Z.ones 32). rewrite Z.land_spec, Z.testbit_ones, wrap_bit, Hbits by lia. rewrite (proj2 (Z.leb_le 0 n)) by done.
    destruct (Z.ltb_spec n 32); cbn [andb]; [rewrite (proj2 (Z.ltb_lt n 64)) by lia; by rewrite andb_true_r|]. rewrite andb_false_r. symmetry. by apply Hhigh.
  - rewrite wrap_bit, Z.shiftr_spec, wrap_bit, Hbits by lia. replace (n + 32 - 32) with n by lia. rewrite (proj2 (Z.ltb_ge (n + 32) 32)) by lia.
    destruct (Z.ltb_spec n 32); cbn [andb]; [rewrite (proj2 (Z.ltb_lt (n + 32) 64)) by lia; done|]. symmetry. by apply Hhigh.
Qed.

(** The bytes that a relocation changes. *)
Definition relocation_bytes (k : BinaryRelocationKind) : Z := match k with BINARY_RELOCATION_ADDR64 => 8 | _ => 4 end.

Definition relocation_fits (e : BinaryEmitter) (r : BinaryRelocation) : Prop :=
  exists s, be_sections e !! Z.to_nat (br_section_index r) = Some s /\ br_offset r + relocation_bytes (br_kind r) <= content_size s.

(** A relocation as it is read. *)
Definition reads_relocation (e : BinaryEmitter) (r : BinaryRelocation) (l : LinkReloc) : Prop :=
  exists y k type addend, elf_map_relocation (target_format e) (br_kind r) = Some (type, addend) /\ in_order e !! k = Some y /\ by_name y = br_symbol_name r /\
    l = mkReloc (br_offset r) (Z.of_nat (S k)) (elf_reloc_kind type) (addend + br_addend r) true type.

Section Relocations.
Context (e : BinaryEmitter) (He : emitter_ok e) (target : target_format e = BINARY_TARGET_FORMAT_ELF_X64) (few_symbols : symbol_count e < 2 ^ 31 - 1).

Lemma in_order_length : length (in_order e) = length (be_symbols e).
Proof using. by rewrite in_order_perm. Qed.

Lemma parse_relocation_reads d entry r bs vs : in_u 64 (br_offset r) -> in_s 32 (br_addend r) -> reloc_entry e r bs -> holds d entry bs ->
  br_offset r + relocation_bytes (br_kind r) <= vs ->
  exists l, elf_parse_relocation d (1 + symbol_count e) vs entry = Ret (Some l) /\ reads_relocation e r l.
Proof using target few_symbols.
  intros Ho Ha (y & k & type & addend & Em & Hk & Hname & ->) H Hvs. pose proof (lookup_lt_Some _ _ _ Hk) as Hlt. rewrite in_order_length in Hlt.
  assert (type = 2 /\ addend = -4 /\ br_kind r = BINARY_RELOCATION_REL32 \/ type = 1 /\ addend = 0 /\ br_kind r = BINARY_RELOCATION_ADDR64) as Hcases.
  { rewrite target in Em. destruct (br_kind r); try done; injection Em as <- <-; auto. }
  unfold symbol_count in *. assert (in_u 32 type) as Hty by (unfold in_u; lia). assert (in_u 32 (Z.of_nat (S k))) as Hsym by (unfold in_u; lia).
  word H H1 (entry + 8). word H H2 (entry + 16). word H H3 (entry + 24).
  exists (mkReloc (br_offset r) (Z.of_nat (S k)) (elf_reloc_kind type) (addend + br_addend r) true type). split; [|by exists y, k, type, addend].
  unfold elf_parse_relocation. rewrite (holds_u64 _ _ _ H2). cbn [obind]. destruct (r_info_read _ _ Hsym Hty) as [-> ->]. rewrite (proj2 (Z.leb_gt _ _)) by lia.
  rewrite (holds_u64 _ _ _ H1), (holds_u64 _ _ _ H3). cbn [obind]. rewrite (wrapu_small 64 (br_offset r)) by done.
  assert (i64 (u64 (addend + br_addend r)) = addend + br_addend r) as -> by (rewrite wraps_wrapu by lia; apply wraps_small; [lia|]; unfold in_s in *; lia).
  unfold in_u in Ho. destruct Hcases as [(-> & -> & E) | (-> & -> & E)]; rewrite E in Hvs; cbn [elf_reloc_kind relocation_bytes reloc_width] in *.
  - rewrite bool_decide_eq_false_2 by done. cbn [andb negb Z.eqb]. rewrite (proj2 (Z.ltb_ge vs _)), (proj2 (Z.ltb_ge _ _)) by lia. done.
  - rewrite bool_decide_eq_false_2 by done. cbn [andb negb Z.eqb]. rewrite (proj2 (Z.ltb_ge vs _)), (proj2 (Z.ltb_ge _ _)) by lia. done.
Qed.

Lemma relocation_loop_reads d vs rs es : Forall2 (reloc_entry e) rs es ->
  Forall (fun r => in_u 64 (br_offset r) /\ in_s 32 (br_addend r) /\ br_offset r + relocation_bytes (br_kind r) <= vs) rs -> forall entry, holds d entry (mjoin es) ->
  exists ls, relocation_loop d (1 + symbol_count e) vs (length rs) entry = Ret (Some ls) /\ Forall2 (reads_relocation e) rs ls.
Proof using target few_symbols.
  induction 1 as [|r bs rs es Hr _ IH]; intros Hall entry H; cbn [relocation_loop length]; [by exists []|]. apply Forall_cons in Hall as [(H1 & H2 & H3) Hall].
  change (mjoin (bs :: es)) with (bs ++ mjoin es) in H. apply holds_app in H as [Hb H]. rewrite (reloc_entry_length _ _ _ Hr) in H.
  destruct (parse_relocation_reads d entry r bs vs H1 H2 Hr Hb H3) as (l & -> & Hl). cbn [obind].
  destruct (IH Hall (entry + 24)) as (ls & -> & Hls); [by replace (entry + 24) with (entry + Z.of_nat 24) by lia|]. exists (l :: ls). split; [done|by constructor].
Qed.

(** * All of them *)

Context (im : ElfImage) (xs : list ElfSectionHeader).
Context (xs_read : forall j x, xs !! j = Some x -> header_read (data im) (elf_shdr im (Z.of_nat j)) x).

Definition plain (x : ElfSectionHeader) : Prop := sh_type x <> SHT_REL /\ sh_type x <> SHT_RELA.

Lemma plain_headers n ss ys : Forall plain ys -> forall i c h, (forall j y, ys !! j = Some y -> xs !! (i + j)%nat = Some y) ->
  relocation_section_loop im n (length ys + c) (Z.of_nat i) ss h = relocation_section_loop im n c (Z.of_nat (i + length ys)) ss h.
Proof using xs_read.
  induction 1 as [|y ys [H1 H2] _ IH]; intros i c h Hi; cbn [length Nat.add relocation_section_loop]; [by rewrite Nat.add_0_r|].
  pose proof (Hi 0%nat y eq_refl) as H0. rewrite Nat.add_0_r in H0. destruct (xs_read _ _ H0) as [_ Rt _ _ Rs _ Ri _ _].
  unfold elf_parse_relocation_section. rewrite Rt, Rs, Ri. cbn [obind]. rewrite (proj2 (Z.eqb_neq _ _) H1), (proj2 (Z.eqb_neq _ _) H2). cbn [negb obind].
  replace (Z.of_nat i + 1) with (Z.of_nat (S i)) by lia. rewrite (IH (S i)); [by rewrite Nat.add_succ_comm|]. intros j z Hj. rewrite Nat.add_succ_comm. by apply Hi.
Qed.

(** The header of the relocations of section [k]. *)
Definition rela_of (k : nat) (x : ElfSectionHeader) : Prop :=
  sh_type x = SHT_RELA /\ sh_info x = Z.of_nat (S k) /\ sh_size x = 24 * count_in (be_relocations e) k /\ relas_stored e (data im) k x /\
  count_in (be_relocations e) k <> 0.

Lemma rela_header_reads k x i ss s h : generous h -> header_read (data im) (elf_shdr im i) x -> rela_of k x -> Z.of_nat (S k) < shnum im -> ss !! S k = Some s ->
  Forall (fun r => br_offset r + relocation_bytes (br_kind r) <= s_virtual_size s) (filter (in_section (Z.of_nat k)) (be_relocations e)) ->
  exists ls, reads (<[S k := with_relocations (s_relocations s ++ ls) s]> ss) h (elf_parse_relocation_section im (1 + symbol_count e) i ss h) /\
    Forall2 (reads_relocation e) (filter (in_section (Z.of_nat k)) (be_relocations e)) ls.
Proof using He target few_symbols.
  intros Hh [_ Rt _ Ro Rs _ Ri _ _] (Ht & Hi & Hz & (es & Hes & Hent) & Hne) Hk Hs Hfit. unfold elf_parse_relocation_section. rewrite Rt, Ri, Rs, Ro, Ht, Hi, Hz. cbn [obind].
  change (SHT_RELA =? SHT_REL) with false. change (SHT_RELA =? SHT_RELA) with true. cbn [negb]. rewrite (proj2 (Z.leb_gt _ _)) by lia. cbn [obind].
  destruct (entries_bytes _ _ _ Hent) as [_ Hl]. unfold count_in in *. set (rs := filter _ _) in *.
  pose proof (range_holds _ _ _ Hes) as Hr. replace (Z.of_nat (length (mjoin es))) with (24 * Z.of_nat (length rs)) in Hr by lia. rewrite Hr. cbn [negb].
  rewrite (get_nat _ _ _ Hs). cbn [obind]. rewrite Z.mul_comm, Z.div_mul by lia. rewrite (proj2 (Z.eqb_neq _ 0)) by lia. destruct (generous_alloc h Hh) as (h1 & -> & E1). cbn [negb].
  rewrite Nat2Z.id. destruct (relocation_loop_reads (data im) (s_virtual_size s) rs es Hent) with (entry := sh_offset x) as (ls & -> & Hls).
  { apply Forall_forall. intros r Hr'. pose proof Hr' as [_ Hin]%list_elem_of_filter. pose proof (eo_relocations _ He) as Hall. rewrite Forall_forall in Hall. destruct (Hall r Hin) as (_ & Ho & _ & Ha).
    split; [done|]. split; [done|]. rewrite Forall_forall in Hfit. by apply Hfit. }
  { done. }
  cbn [obind]. rewrite put_nat by (by eapply lookup_lt_Some). cbn [obind]. exists ls. split; [by exists h1|done].
Qed.

Definition relocated_sections (ks : list nat) (ss ss' : list LinkSection) : Prop :=
  length ss' = length ss /\ (forall j, (forall k, k ∈ ks -> j <> S k) -> ss' !! j = ss !! j) /\
  forall k s, k ∈ ks -> ss !! S k = Some s -> exists ls, ss' !! S k = Some (with_relocations ls s) /\ Forall2 (reads_relocation e) (filter (in_section (Z.of_nat k)) (be_relocations e)) ls.

Lemma rela_headers_read ks ys : Forall2 rela_of ks ys -> NoDup ks -> forall i c ss h, generous h -> (forall j y, ys !! j = Some y -> xs !! (i + j)%nat = Some y) ->
  (forall k, k ∈ ks -> exists s, ss !! S k = Some s /\ s_relocations s = [] /\ Z.of_nat (S k) < shnum im /\
    Forall (fun r => br_offset r + relocation_bytes (br_kind r) <= s_virtual_size s) (filter (in_section (Z.of_nat k)) (be_relocations e))) ->
  exists ss' h', relocation_section_loop im (1 + symbol_count e) (length ys + c) (Z.of_nat i) ss h = relocation_section_loop im (1 + symbol_count e) c (Z.of_nat (i + length ys)) ss' h' /\
    heap_grants h' = heap_grants h /\ relocated_sections ks ss ss'.
Proof using He target few_symbols xs_read.
  induction 1 as [|k y ks ys Hy _ IH]; intros Hd i c ss h Hh Hi Hss; cbn [length Nat.add].
  { exists ss, h. rewrite Nat.add_0_r. split; [done|]. split; [done|]. split; [done|]. split; [done|]. by intros k s Hk%not_elem_of_nil. }
  apply NoDup_cons in Hd as [Hnew Hd]. pose proof (Hi 0%nat y eq_refl) as H0. rewrite Nat.add_0_r in H0.
  destruct (Hss k) as (s & Hs & Hnone & Hk & Hfit); [by left|]. cbn [relocation_section_loop].
  destruct (rela_header_reads k y (Z.of_nat i) ss s h Hh (xs_read _ _ H0) Hy Hk Hs Hfit) as (ls & (h1 & -> & E1) & Hls). cbn [obind]. rewrite Hnone. cbn [app].
  replace (Z.of_nat i + 1) with (Z.of_nat (S i)) by lia. set (ss1 := <[S k := _]> ss).
  destruct (IH Hd (S i) c ss1 h1 (generous_same h h1 E1 Hh)) as (ss' & h' & -> & E2 & L & Hother & Hin).
  { intros j z Hj. rewrite Nat.add_succ_comm. by apply Hi. }
  { intros k' Hk'. destruct (Hss k') as (s' & Hs' & Hrest); [by right|]. exists s'. split; [|done]. unfold ss1. rewrite list_lookup_insert_ne by (intros [= ->]; done). done. }
  exists ss', h'. rewrite Nat.add_succ_comm. split; [done|]. split; [congruence|]. split; [by rewrite L; unfold ss1; rewrite length_insert|]. split.
  - intros j Hj. rewrite Hother by (intros k' Hk'; apply Hj; by right). unfold ss1. apply list_lookup_insert_ne. intros E. by apply (Hj k); [left|].
  - intros k' s' [->|Hk']%elem_of_cons Hs'.
    + exists ls. split; [|done]. rewrite Hother by (intros k' Hk' [= ->]; done). unfold ss1. rewrite list_lookup_insert_eq by (by eapply lookup_lt_Some). rewrite Hs in Hs'. by injection Hs' as ->.
    + apply (Hin k' s' Hk'). unfold ss1. rewrite list_lookup_insert_ne by (intros [= ->]; done). done.
Qed.
End Relocations.

(** The sections with relocations, in their order. *)
Lemma relocated_elem counts : forall k j, j ∈ relocated k counts <-> exists n i, counts !! i = Some n /\ n <> 0 /\ j = (k + i)%nat.
Proof.
  induction counts as [|n counts IH]; intros k j; cbn [relocated].
  { split; [by intros ?%not_elem_of_nil|]. by intros (n & i & H & _). }
  assert (j ∈ relocated (S k) counts <-> exists m i, counts !! i = Some m /\ m <> 0 /\ j = (k + S i)%nat) as IH'.
  { rewrite IH. split; intros (m & i & ? & ? & ->); exists m, i; split; try done; split; try done; lia. }
  destruct (Z.eqb_spec n 0) as [->|Hn]; rewrite ?elem_of_cons, IH'; split.
  - intros (m & i & ? & ? & ?). by exists m, (S i).
  - intros (m & [|i] & H & ? & ?); [by injection H as <-|by exists m, i].
  - intros [->|(m & i & ? & ? & ?)]; [exists n, 0%nat; split; [done|]; split; [done|lia]|by exists m, (S i)].
  - intros (m & [|i] & H & ? & ->); [left; lia|right; by exists m, i].
Qed.

Lemma relocated_nodup counts : forall k, NoDup (relocated k counts).
Proof.
  induction counts as [|n counts IH]; intros k; cbn [relocated]; [constructor|]. destruct (n =? 0); [done|]. constructor; [|done].
  intros (m & i & _ & _ & H)%relocated_elem. lia.
Qed.

Lemma relocated_counts e k : k ∈ relocated 0 (section_counts e) <-> (k < length (be_sections e))%nat /\ count_in (be_relocations e) k <> 0.
Proof.
  rewrite relocated_elem. unfold section_counts. split.
  - intros (n & i & H & Hn & ->). apply list_lookup_fmap_Some in H as (j & -> & Hj). apply lookup_seq in Hj as [-> Hj]. by cbn in *.
  - intros [Hk Hc]. exists (count_in (be_relocations e) k), k. rewrite list_lookup_fmap, lookup_seq_lt by done. done.
Qed.
End ElfReadRelocs.
