(* ===== verification/ElfRoundTrip.v ===== *)
(** What is written is read back: the emitter's sections, symbols and
    relocations are those of the object that the linker reads from the file. *)
From S2P Require Import Prelude Probe LinkObjects LinkBytes LinkObjectsCorrect BinaryEmitter BinaryEmitterCorrect BinaryEmitterProps ElfEmitter ElfTables ElfHeaders ElfWrite ElfFile ElfReader ElfReaderSafe ElfReadBack ElfReadRelocs.
#[local] Open Scope Z_scope.

Module ElfRoundTrip.
Import LinkObjects LinkBytes LinkObjectsCorrect BinaryEmitter BinaryEmitterCorrect ElfEmitter ElfTables ElfHeaders ElfWrite ElfFile ElfReader ElfReaderSafe ElfReadBack ElfReadRelocs.

(** * The object as it is read *)

Definition kind_as_read (k : BinarySectionKind) : LinkSectionKind :=
  match k with
  | BINARY_SECTION_TEXT => LINK_SECTION_KIND_TEXT
  | BINARY_SECTION_RDATA => LINK_SECTION_KIND_RDATA
  | BINARY_SECTION_DATA | BINARY_SECTION_INIT_ARRAY | BINARY_SECTION_FINI_ARRAY => LINK_SECTION_KIND_DATA
  | BINARY_SECTION_BSS => LINK_SECTION_KIND_BSS
  | BINARY_SECTION_DEBUG => LINK_SECTION_KIND_UNKNOWN
  end.

(** Sections of zeros have no bytes in the file. *)
Definition file_bytes (s : BinarySection) : list Z := match bs_kind s with BINARY_SECTION_BSS => [] | _ => bs_data s end.

Definition section_as_read (s : BinarySection) (ls : list LinkReloc) : LinkSection :=
  mkSection (Some (bs_name s)) (kind_as_read (bs_kind s)) (content_size s) (Z.of_nat (length (file_bytes s))) (bs_alignment s) (file_bytes s) ls
    (match bs_kind s with BINARY_SECTION_DEBUG => true | _ => false end).

(** The relocation is at the same place, does the same, and is of the symbol of
    the same name. *)
Definition relocation_as_read (o : LinkObject) (r : BinaryRelocation) (l : LinkReloc) : Prop :=
  r_offset l = br_offset r /\ r_addend_is_explicit l = true /\
  match br_kind r with
  | BINARY_RELOCATION_REL32 => r_kind l = LINK_RELOC_PC32 /\ r_addend l = br_addend r - 4
  | BINARY_RELOCATION_ADDR64 => r_kind l = LINK_RELOC_ABS64 /\ r_addend l = br_addend r
  | _ => False
  end /\ exists y, o_symbols o !! Z.to_nat (r_symbol_index l) = Some y /\ y_name y = Some (br_symbol_name r).

Record reads_back (e : BinaryEmitter) (o : LinkObject) : Prop := {
  rb_sections : forall i s, be_sections e !! i = Some s ->
    exists ls, o_sections o !! S i = Some (section_as_read s ls) /\ Forall2 (relocation_as_read o) (filter (in_section (Z.of_nat i)) (be_relocations e)) ls;
  rb_others : forall j s, o_sections o !! j = Some s -> (j = 0 \/ length (be_sections e) < j)%nat -> s_is_metadata s = true /\ s_relocations s = [];
  rb_symbols : o_symbols o = null_symbol :: (symbol_of e <$> in_order e)
}.

Lemma Forall2_pairs {A B} (P : A -> B -> Prop) l : Forall (fun a => exists b, P a b) l -> exists k, Forall2 P l k.
Proof. induction 1 as [|a l [b Hb] _ [k Hk]]; [by exists []|]. exists (b :: k). by constructor. Qed.

Lemma kind_read k : elf_section_kind (elf_section_flags k) (elf_section_type k) = kind_as_read k /\
  negb (has_flag (elf_section_flags k) SHF_ALLOC) = match k with BINARY_SECTION_DEBUG => true | _ => false end.
Proof. by destruct k. Qed.

Lemma type_read k : in_u 32 (elf_section_type k) /\ in_u 64 (elf_section_flags k) /\ elf_section_type k <> SHT_GROUP /\ elf_section_type k <> SHT_SYMTAB /\
  elf_section_type k <> SHT_REL /\ elf_section_type k <> SHT_RELA.
Proof. by destruct k. Qed.

Lemma content_size_file s : section_fits s -> in_u 64 (content_size s) /\ (bs_kind s <> BINARY_SECTION_BSS -> content_size s = Z.of_nat (length (file_bytes s)) /\ file_bytes s = bs_data s).
Proof. intros (_ & _ & Hz & _ & Hv). unfold content_size, file_bytes, bs_size, in_u in *. destruct (bs_kind s); try (split; [lia|done]). split; [|done]. destruct (_ >? _); lia. Qed.

Section Read.
Context (e : BinaryEmitter) (He : emitter_ok e) (target : target_format e = BINARY_TARGET_FORMAT_ELF_X64) (Hfit : elf_fits e) (inside : Forall (relocation_fits e) (be_relocations e)).
Context (t : ElfTables) (cs : list ElfSectionHeader) (note : ElfSectionHeader) (rs : list ElfSectionHeader) (x1 x2 x3 : ElfSectionHeader).
Context (Ht : tables_ok e t cs note rs x1 x2 x3) (file : list Z) (Hfile : elf_file e t cs rs file).

(** ** The headers *)

Lemma headers_split : exists y1 y2 y3, t_headers t = (no_header :: place cs 64 ++ [note]) ++ place rs (place_end cs 64) ++ [y1; y2; y3] /\
  y1 = with_offset (sh_offset y1) x1 /\ y2 = with_offset (sh_offset y2) x2 /\ y3 = with_offset (sh_offset y3) x3.
Proof using Ht.
  destruct (to_tables _ _ _ _ _ _ _ _ Ht) as (fg & _ & (_ & _ & E1) & (_ & _ & E2) & (_ & _ & E3)). rewrite (to_headers _ _ _ _ _ _ _ _ Ht), place_app. set (o := place_end rs _).
  assert (exists o1 o2 o3, place [x1; x2; x3] o = [with_offset o1 x1; with_offset o2 x2; with_offset o3 x3]) as (o1 & o2 & o3 & E).
  { cbn [place]. rewrite E1, E2, E3. cbn [in_file sh_type ElfEmitter.SHT_SYMTAB ElfEmitter.SHT_STRTAB ElfEmitter.SHT_NOBITS Z.eqb Pos.eqb negb]. by do 3 eexists. }
  exists (with_offset o1 x1), (with_offset o2 x2), (with_offset o3 x3). rewrite E. split; [|done]. cbn [app]. by rewrite <- app_assoc.
Qed.

Lemma headers_length : length (t_headers t) = S (S (S (symtab_number e))) /\ length (no_header :: place cs 64 ++ [note]) = S (S (length (be_sections e))) /\
  length (place rs (place_end cs 64)) = relocation_header_count e /\ length cs = length (be_sections e).
Proof using Ht.
  pose proof (Forall2_length _ _ _ (to_contents _ _ _ _ _ _ _ _ Ht)) as Hlc. pose proof (Forall2_length _ _ _ (to_relas _ _ _ _ _ _ _ _ Ht)) as Hlr.
  destruct headers_split as (y1 & y2 & y3 & -> & _). rewrite length_app. cbn [length]. rewrite !length_app, !place_length. cbn [length]. unfold symtab_number, relocation_header_count. lia.
Qed.

Lemma header_offset x : x ∈ t_headers t -> in_u 64 (sh_offset x).
Proof using He Hfit Ht.
  destruct (offsets_ok e He Hfit _ _ _ _ _ _ _ Ht) as (m & _ & _ & _ & _ & _ & Hall). intros Hx. rewrite Forall_forall in Hall. specialize (Hall x Hx). unfold in_u. lia.
Qed.

Lemma section_bounds i s : be_sections e !! i = Some s -> section_fits s.
Proof using He. apply Forall_lookup_1, He. Qed.

(** ** What they stand for *)

Lemma content_described i s x : be_sections e !! i = Some s -> place cs 64 !! i = Some x ->
  described file (t_shstrtab t) x (bs_name s, file_bytes s) /\ section_of x (bs_name s) (file_bytes s) = section_as_read s [] /\
  (sh_type x <> SHT_SYMTAB /\ plain x).
Proof using He Hfit Ht Hfile.
  intros Hs Hx. destruct (section_bounds i s Hs) as ((_ & Hn) & Ha & Hz & _ & Hv). destruct (place_lookup _ _ _ _ Hx) as (y & Hy & Exy).
  destruct (Forall2_lookup_lr _ _ _ _ _ _ (to_contents _ _ _ _ _ _ _ _ Ht) Hs Hy) as (H1 & H2 & Ey). pose proof (Forall2_lookup_lr _ _ _ _ _ _ (fi_contents _ _ _ _ _ Hfile) Hs Hx) as Hst.
  assert (in_u 64 (sh_offset x)) as Hoff.
  { apply header_offset. destruct headers_split as (y1 & y2 & y3 & -> & _). apply elem_of_app. left. right. apply elem_of_app. left. by eapply list_elem_of_lookup_2. }
  rewrite Ey in Exy. unfold with_offset in Exy. cbn [sh_name_offset sh_type sh_flags sh_size sh_link sh_info sh_addralign sh_entsize] in Exy. unfold bs_size in *.
  destruct (type_read (bs_kind s)) as (T1 & T2 & T3 & T4 & T5 & T6). destruct (kind_read (bs_kind s)) as [K1 K2]. destruct (content_size_file s) as [C1 C2]; [by apply (section_bounds i)|].
  rewrite Exy in Hst |- *. unfold described, stored, section_of, section_as_read, plain, header_fits, in_file in *.
  cbn [fst snd sh_name_offset sh_type sh_flags sh_offset sh_size sh_link sh_info sh_addralign sh_entsize] in *. rewrite (proj2 (Z.eqb_neq (bs_alignment s) 0)) by lia. rewrite K1, K2.
  split; [|done]. split; [done|]. split; [done|]. split; [unfold in_u in *; lia|]. split; [done|].
  assert (bs_kind s = BINARY_SECTION_BSS \/ bs_kind s <> BINARY_SECTION_BSS /\ negb (elf_section_type (bs_kind s) =? ElfEmitter.SHT_NOBITS) = true) as [E|[E E2]] by (destruct (bs_kind s); auto).
  { unfold file_bytes. rewrite E. done. }
  rewrite E2 in *. destruct (C2 E) as [-> Eb]. rewrite Eb. split; [done|by apply Hst].
Qed.
Lemma last_headers y1 y2 y3 : t_headers t = (no_header :: place cs 64 ++ [note]) ++ place rs (place_end cs 64) ++ [y1; y2; y3] ->
  t_headers t !! symtab_number e = Some y1 /\ t_headers t !! S (symtab_number e) = Some y2 /\ t_headers t !! S (S (symtab_number e)) = Some y3.
Proof using Ht.
  destruct headers_length as (_ & L1 & L2 & _). intros ->. set (a := no_header :: _) in *. set (b := place rs _) in *.
  assert (forall k y, [y1; y2; y3] !! k = Some y -> (a ++ b ++ [y1; y2; y3]) !! (k + symtab_number e)%nat = Some y) as H.
  { intros k y Hk. unfold symtab_number. rewrite lookup_app_r, lookup_app_r by lia. by replace (k + _ - length a - length b)%nat with k by lia. }
  split; [by apply (H 0%nat)|]. split; [by apply (H 1%nat)|by apply (H 2%nat)].
Qed.

Lemma rela_described k x j : relocated 0 (section_counts e) !! j = Some k -> place rs (place_end cs 64) !! j = Some x ->
  (exists p, described file (t_shstrtab t) x p) /\ sh_flags x = 0 /\ sh_type x = SHT_RELA /\ sh_info x = Z.of_nat (S k) /\ sh_size x = 24 * count_in (be_relocations e) k /\ relas_stored e file k x.
Proof using He Hfit Ht Hfile.
  intros Hk Hx. destruct (place_lookup _ _ _ _ Hx) as (y & Hy & Exy). destruct (Forall2_lookup_lr _ _ _ _ _ _ (to_relas _ _ _ _ _ _ _ _ Ht) Hk Hy) as (s & Hs & Hstr & Hoff & Ey).
  pose proof (Forall2_lookup_lr _ _ _ _ _ _ (fi_relas _ _ _ _ _ Hfile) Hk Hx) as Hst. destruct Hst as (es & Hes & Hent).
  assert (in_u 64 (sh_offset x)) as Hox.
  { apply header_offset. destruct headers_split as (y1 & y2 & y3 & -> & _). apply elem_of_app. right. apply elem_of_app. left. by eapply list_elem_of_lookup_2. }
  destruct (entries_bytes _ _ _ Hent) as [_ Hl]. pose proof (count_in_bound e Hfit k) as Hc. pose proof (ef_sections _ Hfit) as Hn. pose proof (relocation_header_le e). unfold section_count in Hn.
  assert (k < length (be_sections e))%nat as Hlt by (by eapply lookup_lt_Some). destruct (section_bounds k s Hs) as ((_ & Hname) & _). rewrite Ey in Exy. unfold with_offset in Exy.
  cbn [sh_name_offset sh_type sh_flags sh_size sh_link sh_info sh_addralign sh_entsize] in Exy. rewrite Exy in Hes |- *.
  cbn [sh_name_offset sh_type sh_flags sh_offset sh_size sh_link sh_info sh_addralign sh_entsize] in *. split; [|repeat split; [lia|by exists es]].
  exists (rela_name (bs_name s), mjoin es). split; [exact Hstr|]. split; [by apply rela_name_bytes|]. unfold header_fits, in_file, symtab_number in *. cbn [fst snd sh_name_offset sh_type sh_flags sh_offset sh_size sh_link sh_info sh_addralign sh_entsize].
  unfold in_u in *. split; [unfold ElfEmitter.SHT_RELA; lia|]. split; [done|]. change (ElfEmitter.SHT_RELA =? ElfEmitter.SHT_NOBITS) with false. cbn [negb]. split; [|done]. rewrite Hl. unfold count_in. lia.
Qed.

Lemma table_described x y nm data size link info align entsize : x = with_offset (sh_offset x) y -> has_string (t_shstrtab t) (sh_name_offset y) nm -> in_u 32 (sh_name_offset y) -> name_bytes nm ->
  (exists type, type <> ElfEmitter.SHT_NOBITS /\ type <> SHT_GROUP /\ in_u 32 type /\ y = mkHeader (sh_name_offset y) type 0 0 size link info align entsize) ->
  in_u 32 link -> in_u 32 info -> in_u 64 align -> in_u 64 entsize -> x ∈ t_headers t -> size = Z.of_nat (length data) -> in_u 64 size -> holds file (sh_offset x) data ->
  described file (t_shstrtab t) x (nm, data) /\ sh_flags x = 0.
Proof using He Hfit Ht.
  intros Ex Hs Hn Hb (type & T1 & T2 & T3 & Ey) Hl Hi Ha Hen Hin Hz Hz2 Hd. apply header_offset in Hin. rewrite Ex in Hd, Hin |- *. rewrite Ey. unfold with_offset, described, header_fits, in_file in *.
  cbn [fst snd sh_name_offset sh_type sh_flags sh_offset sh_size sh_link sh_info sh_addralign sh_entsize] in *. split; [|done]. split; [done|]. split; [done|].
  split; [done|]. split; [done|]. rewrite (proj2 (Z.eqb_neq _ _) T1). done.
Qed.
Lemma empty_held : holds file 0 [].
Proof using. by exists [], file. Qed.

Lemma first_described : described file (t_shstrtab t) no_header ([], []).
Proof using Ht.
  destruct (to_shstrtab _ _ _ _ _ _ _ _ Ht) as [(_ & _ & _ & H0) _]. split; [exists []; destruct (st_data _) as [|z l]; [done|]; injection H0 as ->; by exists l|].
  split; [constructor|]. split; [done|]. split; [done|]. split; [done|apply empty_held].
Qed.

Lemma note_described : described file (t_shstrtab t) note (n_note, []) /\ sh_flags note = 0 /\ sh_type note = SHT_PROGBITS.
Proof using Ht.
  destruct (to_note _ _ _ _ _ _ _ _ Ht) as (H1 & H2 & E). rewrite E in H1, H2 |- *. split; [|done]. split; [exact H1|]. split; [by apply name_byte|].
  split; [split; [exact H2|done]|]. split; [done|]. split; [done|apply empty_held].
Qed.

Lemma tables_described y1 y2 y3 : t_headers t = (no_header :: place cs 64 ++ [note]) ++ place rs (place_end cs 64) ++ [y1; y2; y3] ->
  y1 = with_offset (sh_offset y1) x1 -> y2 = with_offset (sh_offset y2) x2 -> y3 = with_offset (sh_offset y3) x3 ->
  (described file (t_shstrtab t) y1 (n_symtab, t_symtab_bytes t) /\ sh_flags y1 = 0) /\ (described file (t_shstrtab t) y2 (n_strtab, st_data (t_strtab t)) /\ sh_flags y2 = 0) /\
  (described file (t_shstrtab t) y3 (n_shstrtab, st_data (t_shstrtab t)) /\ sh_flags y3 = 0).
Proof using He Hfit Ht Hfile.
  intros Eh E1 E2 E3. destruct (last_headers _ _ _ Eh) as (L1 & L2 & L3). destruct (to_tables _ _ _ _ _ _ _ _ Ht) as (fg & Hfg & (A1 & A2 & A3) & (B1 & B2 & B3) & (C1 & C2 & C3)).
  destruct (symtab_ok_bytes _ _ _ _ (to_symbols _ _ _ _ _ _ _ _ Ht)) as [Hl _]. pose proof (so_size _ _ _ _ (to_symbols _ _ _ _ _ _ _ _ Ht)) as Hsz. destruct (to_shstrtab _ _ _ _ _ _ _ _ Ht) as [_ Hsh].
  pose proof (ef_symbols _ Hfit) as Hy. pose proof (ef_symbol_names _ Hfit) as Hsn. pose proof (ef_sections _ Hfit) as Hn. pose proof (relocation_header_le e). unfold symbol_count, section_count in *.
  assert (in_u 32 (Z.of_nat (S (symtab_number e)))) by (unfold in_u, symtab_number; lia).
  split; [|split].
  - apply (table_described y1 x1 n_symtab (t_symtab_bytes t) (24 * (1 + symbol_count e)) (Z.of_nat (S (symtab_number e))) fg 8 24); try done.
    + by apply name_byte.
    + by exists ElfEmitter.SHT_SYMTAB.
    + by eapply list_elem_of_lookup_2.
    + unfold symbol_count, in_u. lia.
    + by apply (fi_symtab _ _ _ _ _ Hfile).
  - apply (table_described y2 x2 n_strtab (st_data (t_strtab t)) (st_size (t_strtab t)) 0 0 1 0); try done.
    + by apply name_byte.
    + by exists ElfEmitter.SHT_STRTAB.
    + by eapply list_elem_of_lookup_2.
    + unfold in_u, st_size in *. lia.
    + by apply (fi_strtab _ _ _ _ _ Hfile).
  - apply (table_described y3 x3 n_shstrtab (st_data (t_shstrtab t)) (st_size (t_shstrtab t)) 0 0 1 0); try done.
    + by apply name_byte.
    + by exists ElfEmitter.SHT_STRTAB.
    + by eapply list_elem_of_lookup_2.
    + unfold in_u, st_size in *. lia.
    + by apply (fi_shstrtab _ _ _ _ _ Hfile).
Qed.

(** Every header, the first ones being known. *)
Lemma all_described : exists ds, Forall2 (described file (t_shstrtab t)) (t_headers t) (([], []) :: ((fun s => (bs_name s, file_bytes s)) <$> be_sections e) ++ ds) /\
  (forall j x, (length (be_sections e) < j)%nat -> t_headers t !! j = Some x -> sh_flags x = 0).
Proof using He Hfit Ht Hfile.
  destruct headers_split as (y1 & y2 & y3 & Eh & E1 & E2 & E3). destruct (tables_described _ _ _ Eh E1 E2 E3) as ([D1 F1] & [D2 F2] & [D3 F3]). destruct note_described as (Dn & Fn & _).
  destruct headers_length as (_ & _ & Lr & Lc). set (rest := note :: place rs (place_end cs 64) ++ [y1; y2; y3]).
  assert (t_headers t = no_header :: place cs 64 ++ rest) as Eh2 by (rewrite Eh; unfold rest; cbn [app]; by rewrite <- app_assoc).
  assert (Forall (fun x => (exists p, described file (t_shstrtab t) x p) /\ sh_flags x = 0) rest) as Hrest.
  { unfold rest. constructor; [by split; [eexists|]|]. apply Forall_app. split.
    - apply Forall_forall. intros x [j Hx]%list_elem_of_lookup. destruct (lookup_lt_is_Some_2 (relocated 0 (section_counts e)) j) as [k Hk].
      { apply lookup_lt_Some in Hx. by rewrite Lr in Hx. }
      destruct (rela_described k x j Hk Hx) as (Hp & Hf & _). done.
    - repeat constructor; first [done|by eexists]. }
  destruct (Forall2_pairs (described file (t_shstrtab t)) rest) as [ds Hds]; [eapply Forall_impl; [exact Hrest|by intros x [? _]]|]. exists ds. rewrite Eh2. split.
  - constructor; [apply first_described|]. apply Forall2_app; [|done]. apply Forall2_fmap_r, Forall2_same_length_lookup. rewrite place_length. split; [done|].
    intros i x s Hx Hs. by apply (content_described i).
  - intros j x Hj Hx. destruct j as [|j]; [lia|]. rewrite lookup_next, lookup_app_r, place_length in Hx by (rewrite place_length; lia).
    apply list_elem_of_lookup_2 in Hx. rewrite Forall_forall in Hrest. by apply Hrest.
Qed.
(** ** Parsing *)

Definition image : ElfImage := mkImage file (t_section_header_offset t) 64 (Z.of_nat (length (t_headers t))) (Z.of_nat (S (S (symtab_number e)))).

Lemma image_shdr j : (j < length (t_headers t))%nat -> elf_shdr image (Z.of_nat j) = t_section_header_offset t + 64 * Z.of_nat j.
Proof using Hfit Ht.
  intros Hj. destruct headers_length as (Hl & _). pose proof (ef_sections _ Hfit) as Hn. pose proof (relocation_header_le e). unfold section_count, symtab_number in *.
  unfold elf_shdr, image. cbn [shoff shentsize]. rewrite wrapu_small by (unfold in_u; lia). lia.
Qed.

Lemma headers_read j x : t_headers t !! j = Some x -> header_read (data image) (elf_shdr image (Z.of_nat j)) x.
Proof using He Hfit Ht Hfile.
  intros Hj. destruct all_described as (ds & Hds & _). destruct (Forall2_lookup_l _ _ _ _ _ Hds Hj) as (p & _ & _ & _ & Hx & _).
  rewrite image_shdr by (by eapply lookup_lt_Some). apply header_read_ok; [done|]. by apply (fi_headers _ _ _ _ _ Hfile).
Qed.

Lemma parse_header_reads : elf_parse_header file = Ret (Some image).
Proof using He Hfit target Ht Hfile.
  destruct (offsets_ok e He Hfit _ _ _ _ _ _ _ Ht) as (m & _ & _ & _ & _ & Hm & _). pose proof (fi_length _ _ _ _ _ Hfile) as Hlen. destruct headers_length as (Hl & _).
  pose proof (ef_sections _ Hfit) as Hn. pose proof (relocation_header_le e) as Hrel. pose proof (to_shstrtab_index _ _ _ _ _ _ _ _ Ht) as Hidx. unfold section_count, symtab_number in Hn, Hl.
  pose proof (fi_start _ _ _ _ _ Hfile) as H. apply holds_app in H as [Hid H]. change (0 + Z.of_nat (length e_ident)) with 16 in H.
  unfold e_ident in Hid. apply holds_head in Hid as [B0 Hid]. apply holds_head in Hid as [B1 Hid]. apply holds_head in Hid as [B2 Hid]. apply holds_head in Hid as [B3 Hid].
  apply holds_head in Hid as [B4 Hid]. apply holds_head in Hid as [B5 _]. unfold elf_header in H. rewrite target in H. cbn [bool_decide] in H.
  word H W1 18. word H W2 20. word H W3 24. word H W4 32. word H W5 40. word H W6 48. word H W7 52. word H W8 54. word H W9 56. word H W10 58. word H W11 60. word H W12 62. word H W13 64.
  change (0 + 1) with 1 in *. change (1 + 1) with 2 in *. change (2 + 1) with 3 in *. change (3 + 1) with 4 in *. change (4 + 1) with 5 in *.
  unfold elf_parse_header. rewrite (proj2 (Z.ltb_ge (file_size file) _)) by (unfold file_size; lia). rewrite B0, B1, B2, B3, B4, B5, (holds_u16 _ _ _ W1), (holds_u16 _ _ _ W2). cbn [obind].
  transitivity (elf_parse_table file); [reflexivity|]. unfold elf_parse_table.
  rewrite (holds_u64 _ _ _ W6), (holds_u16 _ _ _ W11), (holds_u16 _ _ _ W12), (holds_u16 _ _ _ W13), Hidx. unfold symtab_number. cbn [obind]. unfold symtab_number in *.
  rewrite Hl in *. set (n := length (be_sections e)) in *. set (m' := relocation_header_count e) in *.
  rewrite !(wrapu_small 16 (Z.of_nat _)) by (unfold in_u; lia). rewrite (wrapu_small 64) by (unfold in_u; lia).
  change (u16 64) with 64. change (64 <? 64) with false. rewrite (proj2 (Z.eqb_neq (t_section_header_offset t) 0)) by lia.
  rewrite (proj2 (range_ok_spec _ _ _)) by (unfold file_size; lia). cbn [negb]. rewrite (proj2 (Z.eqb_neq _ 0)) by lia. cbn [obind]. rewrite (proj2 (Z.eqb_neq _ SHN_XINDEX)) by (unfold SHN_XINDEX; lia). cbn [obind].
  assert (Z.of_nat (S (S (S (S (S n) + m')))) <= file_size file / 64) as Hd by (apply Z.div_le_lower_bound; unfold file_size; lia).
  rewrite (proj2 (Z.ltb_ge _ _) Hd), (wrapu_small 64) by (unfold in_u; lia). rewrite (proj2 (range_ok_spec _ _ _)) by (unfold file_size; lia). cbn [negb].
  rewrite (proj2 (Z.leb_gt _ _)) by lia. unfold image, symtab_number. by rewrite Hl.
Qed.
Definition other (j : nat) : Prop := (j = 0 \/ length (be_sections e) < j)%nat.

Lemma content_at i s : be_sections e !! i = Some s -> exists x, place cs 64 !! i = Some x /\ t_headers t !! S i = Some x.
Proof using Ht.
  intros Hs. destruct headers_length as (_ & _ & _ & Lc). destruct (lookup_lt_is_Some_2 (place cs 64) i) as [x Hx]; [rewrite place_length, Lc; by eapply lookup_lt_Some|].
  exists x. split; [done|]. destruct headers_split as (y1 & y2 & y3 & -> & _). cbn [app]. rewrite lookup_next, <- !app_assoc. by apply lookup_app_l_Some.
Qed.

Lemma sections_read h : generous h -> exists ss, reads ss h (elf_parse_sections image h) /\ length ss = length (t_headers t) /\
  (forall i s, be_sections e !! i = Some s -> ss !! S i = Some (section_as_read s [])) /\
  (forall j z, ss !! j = Some z -> other j -> s_is_metadata z = true /\ s_relocations z = []).
Proof using He Hfit Ht Hfile.
  intros Hh. destruct (headers_at e t cs note rs x1 x2 x3 Ht) as (_ & _ & y3 & _ & _ & _ & _ & _ & Hy3 & _ & _ & (_ & Hz3)).
  pose proof (headers_read _ _ Hy3) as [_ _ _ Ro Rs _ _ _ _]. pose proof (fi_shstrtab _ _ _ _ _ Hfile _ Hy3) as Hheld. destruct all_described as (ds & Hds & Hother).
  destruct (generous_alloc h Hh) as (h1 & Ea & E1).
  destruct (section_loop_reads image (t_headers t) headers_read (t_shstrtab t) (sh_offset y3) Hheld _ _ Hds 0%nat h1 (generous_same h h1 E1 Hh)) as (h2 & E & E2); [done|].
  eexists. split.
  - exists h2. unfold elf_parse_sections. cbn [shstrndx image]. fold image. rewrite Rs, Ro. cbn [obind]. rewrite Hz3. pose proof (range_holds _ _ _ Hheld) as Hr.
    change (file_size (data image)) with (file_size file). unfold st_size. rewrite Hr. cbn [negb]. rewrite Ea. cbn [negb]. unfold image at 2. cbn [shnum]. rewrite Nat2Z.id. split; [exact E|congruence].
  - split; [rewrite length_zip_with; apply Forall2_length in Hds; lia|]. split.
    + intros i s Hs. destruct (content_at i s Hs) as (x & Hx & Hxt). destruct (content_described i s x Hs Hx) as (_ & <- & _).
      apply lookup_zip_with_Some. exists x, (bs_name s, file_bytes s). split; [done|]. split; [done|]. rewrite lookup_next. apply lookup_app_l_Some. by rewrite list_lookup_fmap, Hs.
    + intros j z Hz Hj. apply lookup_zip_with_Some in Hz as (x & p & -> & Hx & _). unfold section_of. cbn [s_is_metadata s_relocations]. split; [|done].
      assert (sh_flags x = 0) as ->; [|done]. destruct Hj as [->|Hj]; [|by apply (Hother j)]. destruct headers_split as (y1 & y2 & y4 & Eh & _). rewrite Eh in Hx. by injection Hx as <-.
Qed.

Lemma no_symtab_before : Forall (fun x => sh_type x <> SHT_SYMTAB) ((no_header :: place cs 64 ++ [note]) ++ place rs (place_end cs 64)) /\ Forall plain (no_header :: place cs 64 ++ [note]).
Proof using He Hfit Ht Hfile.
  destruct headers_length as (_ & _ & Lr & Lc). destruct note_described as (_ & _ & Hn).
  assert (Forall (fun x => sh_type x <> SHT_SYMTAB /\ plain x) (no_header :: place cs 64 ++ [note])) as Hall.
  { constructor; [done|]. apply Forall_app. split; [|constructor; [|constructor]; unfold plain; by rewrite Hn].
    apply Forall_forall. intros x [i Hx]%list_elem_of_lookup. destruct (lookup_lt_is_Some_2 (be_sections e) i) as [s Hs]; [apply lookup_lt_Some in Hx; by rewrite place_length, Lc in Hx|].
    by destruct (content_described i s x Hs Hx) as (_ & _ & ?). }
  split; [|eapply Forall_impl; [exact Hall|by intros x [_ ?]]]. apply Forall_app. split; [eapply Forall_impl; [exact Hall|by intros x [? _]]|].
  apply Forall_forall. intros x [j Hx]%list_elem_of_lookup. destruct (lookup_lt_is_Some_2 (relocated 0 (section_counts e)) j) as [k Hk].
  { apply lookup_lt_Some in Hx. by rewrite Lr in Hx. }
  destruct (rela_described k x j Hk Hx) as (_ & _ & Htype & _). by rewrite Htype.
Qed.

Lemma symtab_found y1 y2 y3 : t_headers t = (no_header :: place cs 64 ++ [note]) ++ place rs (place_end cs 64) ++ [y1; y2; y3] -> y1 = with_offset (sh_offset y1) x1 ->
  find_symtab image (length (t_headers t)) 0 = Ret (Some (elf_shdr image (Z.of_nat (symtab_number e)))).
Proof using He Hfit Ht Hfile.
  intros Eh E1. destruct headers_length as (_ & La & Lr & _). destruct no_symtab_before as [Hbefore _]. destruct (to_tables _ _ _ _ _ _ _ _ Ht) as (fg & _ & (_ & _ & A3) & _).
  rewrite app_assoc in Eh. rewrite Eh at 1. change 0 with (Z.of_nat 0). rewrite (find_symtab_reads image (t_headers t) headers_read y1).
  - rewrite length_app, La, Lr. done.
  - rewrite E1, A3. done.
  - intros j y Hj. by rewrite Eh.
  - exact Hbefore.
Qed.

Lemma symbols_read h : generous h -> reads (null_symbol :: (symbol_of e <$> in_order e)) h (elf_parse_symbols image h).
Proof using He Hfit Ht Hfile.
  intros Hh. destruct headers_split as (y1 & y2 & y3 & Eh & E1 & E2 & E3). destruct (last_headers _ _ _ Eh) as (L1 & L2 & L3). destruct (to_tables _ _ _ _ _ _ _ _ Ht) as (fg & Hfg & (_ & _ & A3) & (_ & _ & B3) & _).
  destruct headers_length as (Hl & La & Lr & Lc). pose proof (to_symbols _ _ _ _ _ _ _ _ Ht) as Hsym. destruct (symtab_ok_bytes _ _ _ _ Hsym) as [Hlb _].
  pose proof (ef_sections _ Hfit) as Hn. pose proof (headers_read _ _ L1) as [_ _ _ Ro Rs Rl _ _ Re]. pose proof (headers_read _ _ L2) as [_ Rt2 _ Ro2 Rs2 _ _ _ _].
  pose proof (fi_symtab _ _ _ _ _ Hfile _ L1) as H1. pose proof (fi_strtab _ _ _ _ _ Hfile _ L2) as H2.
  unfold elf_parse_symbols. cbn [shnum image]. fold image. rewrite Nat2Z.id.
  rewrite (symtab_found y1 y2 y3 Eh E1). cbn [obind]. rewrite Rl, Ro, Rs, Re.
  assert (sh_link y1 = Z.of_nat (S (symtab_number e)) /\ sh_entsize y1 = 24 /\ sh_size y1 = 24 * (1 + symbol_count e)) as (-> & -> & ->) by (rewrite E1, A3; done). cbn [obind].
  rewrite Rt2, Ro2, Rs2, Hl. assert (sh_type y2 = SHT_STRTAB /\ sh_size y2 = st_size (t_strtab t)) as [-> ->] by (rewrite E2, B3; done). cbn [obind].
  rewrite (proj2 (Z.leb_gt _ _)) by lia. change (SHT_STRTAB =? SHT_STRTAB) with true. cbn [negb]. change (negb (24 =? 0) && negb (24 =? 24)) with false. cbn [obind].
  change (file_size (data image)) with (file_size file). rewrite <- Hlb, (range_holds _ _ _ H1). pose proof (range_holds _ _ _ H2) as Hr. fold (st_size (t_strtab t)) in Hr. rewrite Hr. cbn [negb orb].
  destruct (generous_alloc h Hh) as (h1 & -> & Eh1). cbn [negb]. rewrite Hlb, Z.mul_comm, Z.div_mul by lia. destruct (so_bytes _ _ _ _ Hsym) as (es & Eb & Hes). rewrite Eb in H1. apply holds_app in H1 as [H0 H1].
  replace (Z.to_nat (1 + symbol_count e)) with (S (length (in_order e))) by (rewrite in_order_length; unfold symbol_count; lia). cbn [symbol_loop].
  destruct (null_symbol_reads image (t_strtab t) (sh_offset y2) H2 (sh_offset y1) h1 (generous_same h h1 Eh1 Hh) H0 (so_strtab _ _ _ _ Hsym)) as (h2 & -> & Eh2). cbn [obind].
  destruct (symbol_loop_reads image e (t_strtab t) (sh_offset y2) H2 ltac:(unfold section_count in *; lia) ltac:(unfold section_count, symtab_number in *; cbn [shnum image]; lia) _ _ Hes) with (entry := sh_offset y1 + 24) (h := h2)
    as (h3 & -> & Eh3).
  - rewrite in_order_perm. apply (BinaryEmitterCorrect.eo_symbols _ He).
  - apply (generous_same h1 h2 Eh2), (generous_same h h1 Eh1 Hh).
  - exact H1.
  - cbn [obind option_map]. exists h3. split; [done|congruence].
Qed.
Lemma relocs_of_section k s : be_sections e !! k = Some s ->
  Forall (fun r => br_offset r + relocation_bytes (br_kind r) <= s_virtual_size (section_as_read s [])) (filter (in_section (Z.of_nat k)) (be_relocations e)).
Proof using inside.
  intros Hs. apply Forall_forall. intros r [Hin Hr]%list_elem_of_filter. pose proof inside as Hall. rewrite Forall_forall in Hall. destruct (Hall r Hr) as (s' & Hs' & Hfits).
  unfold in_section in Hin. rewrite Hin, Nat2Z.id, Hs in Hs'. by injection Hs' as ->.
Qed.

Lemma relocations_read ss h : generous h -> (forall i s, be_sections e !! i = Some s -> ss !! S i = Some (section_as_read s [])) ->
  exists ss', reads ss' h (elf_parse_relocations image (1 + symbol_count e) ss h) /\ relocated_sections e (relocated 0 (section_counts e)) ss ss'.
Proof using He target Hfit inside Ht Hfile.
  intros Hh Hss. destruct headers_split as (y1 & y2 & y3 & Eh & E1 & E2 & E3). destruct (last_headers _ _ _ Eh) as (L1 & L2 & L3). destruct headers_length as (Hl & La & Lr & Lc).
  destruct (to_tables _ _ _ _ _ _ _ _ Ht) as (fg & _ & (_ & _ & A1) & (_ & _ & A2) & (_ & _ & A3)). destruct no_symtab_before as [_ Hplain]. pose proof (ef_symbols _ Hfit) as Hsym.
  unfold elf_parse_relocations. cbn [shnum image]. fold image. rewrite Nat2Z.id. set (a := no_header :: _) in *. set (b := place rs _) in *.
  replace (length (t_headers t)) with (length a + (length b + (length [y1; y2; y3] + 0)))%nat by (rewrite Eh, !length_app; cbn [length]; lia). change 0 with (Z.of_nat 0).
  rewrite (plain_headers image (t_headers t) headers_read _ ss a Hplain 0%nat); [|intros j y Hj; rewrite Eh; by apply lookup_app_l_Some].
  destruct (rela_headers_read e He target Hsym image (t_headers t) headers_read (relocated 0 (section_counts e)) b) with (i := (0 + length a)%nat) (c := (length [y1; y2; y3] + 0)%nat) (ss := ss) (h := h)
    as (ss' & h' & -> & Eh' & Hrel).
  - apply Forall2_same_length_lookup. split; [by rewrite Lr|]. intros j k x Hk Hx. destruct (rela_described k x j Hk Hx) as (_ & _ & R1 & R2 & R3 & R4).
    split; [done|]. split; [done|]. split; [done|]. split; [done|]. apply (relocated_counts e). by eapply list_elem_of_lookup_2.
  - apply relocated_nodup.
  - done.
  - intros j y Hj. rewrite Eh, lookup_app_r by lia. replace (0 + length a + j - length a)%nat with j by lia. by apply lookup_app_l_Some.
  - intros k [Hk _]%relocated_counts. destruct (lookup_lt_is_Some_2 _ _ Hk) as [s Hs]. exists (section_as_read s []). split; [by apply Hss|]. split; [done|].
    split; [cbn [shnum image]; unfold symtab_number in Hl; lia|]. by apply relocs_of_section.
  - exists ss'. split; [|done]. rewrite (plain_headers image (t_headers t) headers_read _ ss' [y1; y2; y3]).
    + cbn [relocation_section_loop]. by exists h'.
    + rewrite E1, E2, E3, A1, A2, A3. by repeat constructor.
    + intros j y Hj. rewrite Eh, lookup_app_r, lookup_app_r by lia. by replace (0 + length a + length b + j - length a - length b)%nat with j by lia.
Qed.

Lemma relocation_named o r l : o_symbols o = null_symbol :: (symbol_of e <$> in_order e) -> reads_relocation e r l -> relocation_as_read o r l.
Proof using target.
  intros Ho (y & k & type & addend & Em & Hk & Hn & ->). unfold relocation_as_read. cbn [r_offset r_addend_is_explicit r_kind r_addend r_symbol_index]. split; [done|]. split; [done|]. split.
  - rewrite target in Em. destruct (br_kind r); try done; injection Em as <- <-; split; done || lia.
  - exists (symbol_of e y). rewrite Ho, Nat2Z.id, lookup_next, list_lookup_fmap, Hk. split; [done|]. unfold symbol_of. cbn [y_name]. by f_equal.
Qed.

Lemma object_reads h : generous h -> exists o, reads o h (elf_object_read_memory file h) /\ reads_back e o.
Proof using He target Hfit inside Ht Hfile.
  intros Hh. unfold elf_object_read_memory. rewrite parse_header_reads. cbn [obind]. destruct (generous_alloc h Hh) as (h1 & -> & E1). cbn [negb]. pose proof (generous_same h h1 E1 Hh) as Hh1.
  destruct (sections_read h1 Hh1) as (ss & (h2 & -> & E2) & Hlen & Hss & Hother). cbn [obind]. pose proof (generous_same h1 h2 E2 Hh1) as Hh2.
  destruct (symbols_read h2 Hh2) as (h3 & -> & E3). cbn [obind length]. pose proof (generous_same h2 h3 E3 Hh2) as Hh3. rewrite length_fmap, in_order_length.
  replace (Z.of_nat (S (length (be_symbols e)))) with (1 + symbol_count e) by (unfold symbol_count; lia).
  destruct (relocations_read ss h3 Hh3 Hss) as (ss' & (h4 & -> & E4) & L & Hkept & Hrel). cbn [obind option_map]. eexists. split; [exists h4; split; [done|congruence]|].
  constructor; cbn [o_sections o_symbols]; [| |done].
  - intros i s Hs. specialize (Hss i s Hs). destruct (decide (count_in (be_relocations e) i = 0)) as [E|E].
    + exists []. rewrite Hkept; [|intros k [_ Hk]%relocated_counts [= ->]; done]. split; [done|]. unfold count_in in E. destruct (filter _ _); [constructor|cbn [length] in E; lia].
    + destruct (Hrel i (section_as_read s [])) as (ls & -> & Hls); [apply relocated_counts; split; [by eapply lookup_lt_Some|done]|done|]. exists ls. split; [done|].
      eapply Forall2_impl; [exact Hls|]. intros r l. by apply relocation_named.
  - intros j z Hz Hj. rewrite Hkept in Hz; [by apply (Hother j)|]. intros k [Hk _]%relocated_counts. lia.
Qed.
End Read.

(** C12: writing and reading an x86-64 object.  Take an emitter whose target is
    x86-64 ELF (the linker's reader refuses the machine number of the AArch64
    objects the same writer makes), whose tables and sizes stay below the
    limits of the format ([elf_fits]) and whose relocations lie inside their
    sections.  Writing it returns, and gives a file when memory and disk allow
    and the object can be written at all; and the linker's reader, given
    memory, accepts the file and finds in it what was emitted: every section
    under its number, with its name, kind, alignment, size and bytes, and its
    relocations in their order, each of the symbol of its name; every symbol
    with its place, size and binding, behind an empty one and local ones
    first; and nothing else but metadata. *)
Theorem elf_object_reads_back opens accepts e h : emitter_ok e -> target_format e = BINARY_TARGET_FORMAT_ELF_X64 -> elf_fits e -> Forall (relocation_fits e) (be_relocations e) ->
  exists res h', binary_emitter_write_elf_object_file opens accepts e h = Ret (res, h') /\
    (opens = true -> (forall file data, accepts file data = true) -> generous h -> elf_writable e -> res <> None) /\
    forall file, res = Some file -> forall hr, generous hr -> exists o hr', elf_object_read_memory file hr = Ret (Some o, hr') /\ reads_back e o.
Proof.
  intros He Htarget Hfit Hin. unfold binary_emitter_write_elf_object_file. destruct (elf_tables_ok e h He Hfit) as (t & h1 & E & _ & Hsome & Htables). unfold attempt. rewrite E. cbn [obind].
  destruct t as [t|]; [|exists None, h1; split; [done|]; split; [|done]; intros _ _ Hh Hw; by destruct (Hsome Hh Hw)].
  destruct (Htables t eq_refl) as (cs & note & rs & x1 & x2 & x3 & Ht). destruct opens; cbn [negb]; [|by exists None, h1].
  destruct (elf_write_ok accepts ((forall file data, accepts file data = true) /\ elf_writable e) (fun H => proj1 H) e He Hfit (fun H => proj2 H) t cs note rs x1 x2 x3 Ht) as (res & -> & Hwrote & Hfile).
  cbn [obind]. exists res, h1. split; [done|]. split; [intros _ Hroom _ Hw; by apply Hwrote|]. intros file Ef hr Hh.
  destruct (object_reads e He Htarget Hfit Hin t cs note rs x1 x2 x3 Ht file (Hfile file Ef) hr Hh) as (o & (hr' & Er & _) & Hback). by exists o, hr'.
Qed.

(** * An object to look at *)

Import BinaryEmitterProps.

Definition n_f : cstring := [102].

(** [main], which calls [f]. *)
Definition call_emitter : BinaryEmitter :=
  Eval vm_compute in
    match (let! (e, h) := run_op (mkEmitter BINARY_TARGET_FORMAT_ELF_X64 [] 0 [] 0 [] [] 0) (op_section (Some n_text) BINARY_SECTION_TEXT 0 16) heap_unlimited in
           let! (e, h) := run_op e (op_bytes 0 (Some [0xE8; 0; 0; 0; 0; 0xC3])) h in
           let! (e, h) := run_op e (op_symbol (Some n_main) BINARY_SYMBOL_GLOBAL 0 0 6) h in
           let! (e, h) := run_op e (op_external (Some n_f)) h in
           run_op e (op_relocation 0 1 BINARY_RELOCATION_REL32 (Some n_f) 0) h) with
    | Ret (e, _) => e
    | _ => mkEmitter BINARY_TARGET_FORMAT_ELF_X64 [] 0 [] 0 [] [] 0
    end.

Lemma f_proper : proper_name n_f.
Proof. split; [done|]. by repeat constructor. Qed.

Lemma call_emitted : emitted call_emitter.
Proof.
  eassert (emitted _) as H1.
  { eapply (emitted_op _ (op_section (Some n_text) BINARY_SECTION_TEXT 0 16) heap_unlimited); [exact new_emitted|split; [intros n [= <-]; apply text_proper|done]|done|by vm_compute]. }
  eassert (emitted _) as H2.
  { eapply (emitted_op _ (op_bytes 0 (Some [0xE8; 0; 0; 0; 0; 0xC3])) heap_unlimited); [exact H1|split; [done|by repeat constructor]| |by vm_compute].
    by intros s [= <-]. }
  eassert (emitted _) as H3.
  { eapply (emitted_op _ (op_symbol (Some n_main) BINARY_SYMBOL_GLOBAL 0 0 6) heap_unlimited); [exact H2|split; [intros n [= <-]; apply main_proper|done]|done|by vm_compute]. }
  eassert (emitted _) as H4.
  { eapply (emitted_op _ (op_external (Some n_f)) heap_unlimited); [exact H3|intros n [= <-]; apply f_proper|done|by vm_compute]. }
  eapply (emitted_op _ (op_relocation 0 1 BINARY_RELOCATION_REL32 (Some n_f) 0) heap_unlimited); [exact H4|split; [done|]; split; [done|]; split; [intros n [= <-]; apply f_proper|done]|done|by vm_compute].
Qed.

Lemma call_fits : elf_fits call_emitter.
Proof. by constructor; vm_compute. Qed.

Lemma call_writable : elf_writable call_emitter.
Proof.
  constructor.
  - by repeat constructor.
  - constructor; [by right|]. constructor; [by left|constructor].
  - constructor; [|constructor]. exists (mkBinarySymbol n_f BINARY_SYMBOL_EXTERNAL BINARY_SECTION_INDEX_NONE 0 0). split; [right; left|done].
Qed.

Lemma call_inside : Forall (relocation_fits call_emitter) (be_relocations call_emitter).
Proof. constructor; [|constructor]. by eexists. Qed.

Lemma elf_object_reads_back_witness : exists file o h h', binary_emitter_write_elf_object_file true (fun _ _ => true) call_emitter heap_unlimited = Ret (Some file, h) /\
  elf_object_read_memory file heap_unlimited = Ret (Some o, h') /\ reads_back call_emitter o.
Proof.
  destruct (elf_object_reads_back true (fun _ _ => true) call_emitter heap_unlimited (emitted_ok _ call_emitted) eq_refl call_fits call_inside) as (res & h & E & Hsome & Hread).
  assert (generous heap_unlimited) as Hg by exact (fun n => eq_refl). destruct res as [file|]; [|exact (False_ind _ (Hsome eq_refl (fun _ _ => eq_refl) Hg call_writable eq_refl))].
  destruct (Hread file eq_refl heap_unlimited Hg) as (o & h' & Er & Hback). exists file, o, h, h'. exact (conj E (conj Er Hback)).
Defined.
End ElfRoundTrip.
