(* ===== verification/LinkFiles.v ===== *)
(** Linking files: whatever they hold, reading and linking them is safe, and a
    link that succeeds keeps its promise. *)
From S2P Require Import Prelude LinkObjects LinkBytes LinkObjectsCorrect SectionMerge SectionMergeCorrect SectionGc SectionGcReach.
From S2P Require Import SymbolResolve LinkResolve LinkTheorem LinkProps ElfReader CoffReader LinkObjectRead ElfReaderSafe CoffReaderSafe.
From S2P Require Import Relocation BinaryEmitter BinaryEmitterProps ElfEmitter.
#[local] Open Scope Z_scope.

Module LinkFiles.
Import LinkObjects LinkBytes LinkObjectsCorrect SectionMergeCorrect SectionGcReach SymbolResolve LinkResolve LinkTheorem ElfReader CoffReader LinkObjectRead ElfReaderSafe CoffReaderSafe.

(** * Loading *)

(** Objects that the linker can work on, one for each of [n] files. *)
Definition loaded_from (n : nat) (inputs : list LinkedInputObject) : Prop :=
  length inputs = n /\ Forall (fun input => exists o, input = fresh_input o /\ linkable_object o) inputs.

Section Load.
Context (files : cstring -> option (list Z)) (paths : list cstring).
Context (files_ok : forall p d, p ∈ paths -> files p = Some d -> file_ok d).

(** Sections keep their names. *)
Definition names_kept (h : heap) : Prop := generous h \/ forall p, p ∈ paths -> link_object_looks_like_elf files p = true.

Lemma load_objects_linkable ps : (forall p, p ∈ ps -> p ∈ paths) -> forall h, names_kept h ->
  returns (loaded_from (length ps)) h (load_objects (link_object_read files) ps h).
Proof using files_ok.
  induction ps as [|p ps IH]; intros Hin h Hh; cbn [load_objects]; [by apply returns_some|]. allocated h h1.
  assert (p ∈ paths) as Hp by (apply Hin; by left).
  destruct (link_object_read_ok files p h1 (fun d => files_ok p d Hp)) as (o & h2 & -> & Eh & Ho). cbn [obind]. apply (returns_heap _ _ h2 _ Eh).
  assert (forall h', heap_grants h' = heap_grants h -> names_kept h') as Hsame by (intros h' E; destruct Hh as [Hg|He]; [left; by apply (generous_same h)|by right]).
  destruct o as [o|]; [|apply returns_none]. specialize (Ho o eq_refl).
  apply (returns_bind (loaded_from (length ps))); [apply IH; [intros q Hq; apply Hin; by right|apply Hsame; congruence]|intros h3; apply returns_none|].
  intros l h3 [Hl Hall]. apply returns_some. split; [cbn; by rewrite Hl|]. constructor; [|done]. exists o. split; [done|]. apply Ho.
  destruct (Hsame h1 Eheap) as [Hg|He]; [by left|right; by apply He].
Qed.

Lemma load_linkable h : names_kept h ->
  returns (fun r => unlinked r /\ loaded_from (length paths) (objects r)) h (link_resolution_load_objects (link_object_read files) empty_resolution paths h).
Proof using files_ok.
  intros Hh. unfold link_resolution_load_objects. destruct (alloc_array_heap (length paths) h) as (ok & -> & _). apply (returns_heap _ h (snd (alloc h)) _ eq_refl).
  destruct ok; [|apply returns_none]. cbn [negb].
  apply (returns_bind (loaded_from (length paths))).
  - apply load_objects_linkable; [done|]. destruct Hh as [Hg|He]; [left; exact Hg|by right].
  - intros h2. apply returns_none.
  - intros l h2 Hl. by apply returns_some.
Qed.
End Load.

Lemma loaded_from_ok options n inputs : loaded_from n inputs -> (forall l, options ≫= object_is_runtime_default = Some l -> (n <= length l)%nat) ->
  objects_need (alignment_of options) inputs <= 2 ^ 58 -> alignment_of options <= 2 ^ 58 -> Z.of_nat (symbol_total inputs) < 2 ^ 58 -> loaded_ok options inputs.
Proof.
  intros [Hl Hall] Hf Hn Ha Hy. assert (forall input, input ∈ inputs -> exists o, input = fresh_input o /\ linkable_object o) as Hin by by apply Forall_forall.
  constructor; try done.
  - eapply Forall_impl; [exact Hall|]. by intros input (o & -> & _).
  - rewrite Hl. exact Hf.
  - intros input o Hi Ho. destruct (Hin input Hi) as (o' & -> & [Hok _]). by injection Ho as <-.
  - intros oi i s rel (input & Hi & Hs) Hrel. destruct (Hin input) as (o & -> & [_ Hr]); [by eapply list_elem_of_lookup_2|].
    apply (Hr s rel); [|done]. by eapply list_elem_of_lookup_2.
Qed.

(** * The promises *)

(** C10: the reader of ELF objects is safe on any bytes.  It returns, having read
    nothing outside them, whatever the allocator does; and what it accepts is
    consistent: every section has its bytes, every symbol names a section of
    the object or a special one, and every relocation names a symbol of the
    object and changes bytes inside its section. *)
Theorem elf_object_read_memory_safe d h : bytes_ok d -> file_size d < 2 ^ 63 ->
  exists res h', elf_object_read_memory d h = Ret (res, h') /\ forall o, res = Some o -> elf_object_ok o.
Proof. intros Hd Hs. destruct (elf_object_read_memory_ok d h Hd Hs) as (res & h' & E & _ & H). by exists res, h'. Qed.

(** C11: reading an object of either format is safe on files of any contents, of
    less than 4 GiB in the COFF case; what it accepts, the linker can work on:
    sizes fit their words, lengths are recorded by name only when all sections
    have their names, and relocations name symbols by their numbers. *)
Theorem link_object_read_safe files filename h : (forall d, files filename = Some d -> file_ok d) -> generous h \/ link_object_looks_like_elf files filename = true ->
  exists res h', link_object_read files filename h = Ret (res, h') /\ forall o, res = Some o -> linkable_object o.
Proof.
  intros Hf Hn. destruct (link_object_read_ok files filename h Hf) as (res & h' & E & _ & H). exists res, h'. split; [done|]. intros o Ho. by apply H.
Qed.

(** C4: linking.  Whatever the files hold (of a size the readers take), reading
    and linking them returns, as long as the sizes of the objects and the
    alignment leave room for 64-bit sums, the options' runtime flags cover the
    files, and memory is granted or all files are ELF.  When it succeeds, the
    sections of the image follow each other, the entry symbol is defined, and
    relocations of the sections that were kept resolve as follows.  One that
    names an ordinary (not auxiliary) symbol in a section of its own object,
    of a kind the linker knows, resolves to the place of that section in the
    image.  One that names an undefined external symbol with a name resolves to
    the place of a definition of the name, one by a user object rather than by
    the runtime if the image has one; only if the options allow unresolved
    externals, and no section of the image defines the name, does it stay
    unresolved.  Relocations against other symbols (auxiliary records, sections
    of unknown kind, absolute or nameless ones) are not covered. *)
Theorem link_resolution_build_links_files files paths options h : paths <> [] -> (forall p d, p ∈ paths -> files p = Some d -> file_ok d) ->
  names_kept files paths h -> (forall l, options ≫= object_is_runtime_default = Some l -> (length paths <= length l)%nat) -> alignment_of options <= 2 ^ 58 ->
  (forall r h', link_resolution_load_objects (link_object_read files) empty_resolution paths (snd (alloc h)) = Ret (Some r, h') ->
    objects_need (alignment_of options) (objects r) <= 2 ^ 58 /\ Z.of_nat (symbol_total (objects r)) < 2 ^ 58) ->
  exists res h', link_resolution_build (link_object_read files) (Some paths) options h = Ret (res, h') /\ forall r, res = Some r -> linked options r.
Proof.
  intros Hp Hf Hn Hl Ha Hs. unfold link_resolution_build. destruct paths as [|p paths]; [done|]. destruct (alloc h) as [ok h1] eqn:Eh. cbn [snd] in Hs.
  destruct ok; [|by exists None, h1]. cbn [negb].
  destruct (load_linkable files (p :: paths) Hf h1) as (r & h2 & E & _ & Hr).
  { destruct Hn as [Hg|He]; [left|by right]. apply (generous_same h); [by injection Eh as _ <-|done]. }
  rewrite E. cbn [obind]. destruct r as [r|]; [|by exists None, h2]. destruct (Hr r eq_refl) as [Hu Hld]. destruct (Hs r h2 E) as [Hneed Hsym].
  apply resolve_linked; [done|]. by eapply loaded_from_ok.
Qed.

(** * Files to look at *)

Import BinaryEmitter BinaryEmitterProps.

(** An emitter after some operations, and its file. *)
Fixpoint emit (e : BinaryEmitter) (os : list op) (h : heap) : outcome (BinaryEmitter * heap) :=
  match os with [] => Ret (e, h) | o :: os => let! (e, h) := run_op e o h in emit e os h end.
Definition emit_file (os : list op) : list Z :=
  match (let! (e, h) := emit (mkEmitter BINARY_TARGET_FORMAT_ELF_X64 [] 0 [] 0 [] [] 0) os heap_unlimited in
         ElfEmitter.binary_emitter_write_elf_object_file true (fun _ _ => true) e h) with
  | Ret (Some file, _) => file
  | _ => []
  end.

Definition n_f : cstring := [102].

(** [main] calls [f], *)
Definition file_main : list Z := Eval vm_compute in
  emit_file [op_section (Some n_text) BINARY_SECTION_TEXT 0 16; op_bytes 0 (Some [0xE8; 0; 0; 0; 0; 0xC3]); op_symbol (Some n_main) BINARY_SYMBOL_GLOBAL 0 0 6;
             op_external (Some n_f); op_relocation 0 1 BINARY_RELOCATION_REL32 (Some n_f) 0].
(** which is in another file. *)
Definition file_f : list Z := Eval vm_compute in
  emit_file [op_section (Some n_text) BINARY_SECTION_TEXT 0 16; op_bytes 0 (Some [0xC3]); op_symbol (Some n_f) BINARY_SYMBOL_GLOBAL 0 0 1].

Definition demo_files (p : cstring) : option (list Z) := match p with [1] => Some file_main | [2] => Some file_f | _ => None end.
Definition demo_paths : list cstring := [[1]; [2]].
Definition demo_options : option LinkResolutionOptions := Some (mkOptions (Some n_main) 16 false (Some [false; false])).

(** The call goes 11 bytes on, to [f] behind [main]. *)
Example demo_linked :
  (let! (r, _) := link_resolution_build (link_object_read demo_files) (Some demo_paths) demo_options heap_unlimited in
   let! (_, r) := Relocation.link_apply_relocations r None in Ret (option_map (fun r => m_data <$> take 1 (sections r)) r)) =
  Ret (Some [[0xE8; 11; 0; 0; 0; 0xC3; 0; 0; 0; 0; 0; 0; 0; 0; 0; 0; 0xC3]]).
Proof. by vm_compute. Qed.

Lemma bytes_decide d : forallb (fun b => (0 <=? b) && (b <? 256)) d = true -> bytes_ok d.
Proof. rewrite forallb_forall. intros H. apply Forall_forall. intros b Hb%list_elem_of_In%H. unfold in_u. lia. Qed.

Lemma file_f_ok : bytes_ok file_f /\ file_size file_f < 2 ^ 63.
Proof. split; [by apply bytes_decide; vm_compute|by apply Z.ltb_lt; vm_compute]. Qed.

Lemma demo_files_ok p d : demo_files p = Some d -> file_ok d.
Proof.
  intros H. assert (d = file_main \/ d = file_f) as [->| ->].
  { unfold demo_files in H. repeat case_match; simplify_eq; auto. }
  - split; [by apply bytes_decide; vm_compute|by apply Z.ltb_lt; vm_compute].
  - exact file_f_ok.
Qed.

Lemma elf_object_read_memory_safe_witness : exists o h', elf_object_read_memory file_f heap_unlimited = Ret (Some o, h') /\ elf_object_ok o.
Proof.
  destruct (elf_object_read_memory_safe file_f heap_unlimited (proj1 file_f_ok) (proj2 file_f_ok)) as (res & h' & E & H).
  assert (exists o, res = Some o) as [o ->]; [|exists o, h'; split; [exact E|by apply H]]. apply (f_equal (fun m => match m with Ret (Some _, _) => true | _ => false end)) in E.
  destruct res as [o|]; [by exists o|]. exfalso. revert E. by vm_compute.
Defined.

Lemma link_object_read_safe_witness : exists res h', link_object_read demo_files [2] heap_unlimited = Ret (res, h') /\ forall o, res = Some o -> linkable_object o.
Proof. apply (link_object_read_safe demo_files [2] heap_unlimited); [by apply demo_files_ok|left; exact LinkProps.unlimited_generous]. Defined.

(** The objects are small. *)
Lemma demo_small :
  match link_resolution_load_objects (link_object_read demo_files) empty_resolution demo_paths (snd (alloc heap_unlimited)) with
  | Ret (Some r, _) => (objects_need (alignment_of demo_options) (objects r) <=? 2 ^ 58) && (Z.of_nat (symbol_total (objects r)) <? 2 ^ 58)
  | _ => true
  end = true.
Proof. by vm_compute. Qed.

Lemma link_resolution_build_links_files_witness :
  exists res h', link_resolution_build (link_object_read demo_files) (Some demo_paths) demo_options heap_unlimited = Ret (res, h') /\ forall r, res = Some r -> linked demo_options r.
Proof.
  apply (link_resolution_build_links_files demo_files demo_paths demo_options heap_unlimited); [done|intros p d _; by apply demo_files_ok|left; exact LinkProps.unlimited_generous|by intros l [= <-]|by apply Z.leb_le; vm_compute|].
  intros r h' E. pose proof demo_small as H. rewrite E in H. apply andb_true_iff in H as [H1%Z.leb_le H2%Z.ltb_lt]. exact (conj H1 H2).
Defined.
End LinkFiles.
